(* ===== verification/_CoqProject ===== *)
-Q . S2P
Prelude.v
RustStr.v
Version.v
Rate.v
AgentRate.v
Throttle.v
Proto.v
Labels.v
Packages.v
Fs.v
Configs.v
Deployments.v
FsDocs.v
FsDeployments.v
FsConfigs.v
Offers.v
Agents.v
Placement.v
Revocation.v
Trust.v
Bindings.v
Rollouts.v
Reports.v
Replies.v
Acts.v
Exchanges.v
Enrolment.v
EnrolmentPort.v
EnrolmentRuns.v
EnrolmentSafe.v
EnrolmentDesk.v
EnrolmentActs.v
EnrolmentSamples.v
Bootstrap.v
BootstrapPort.v
BootstrapRuns.v
BootstrapSafe.v
BootstrapSamples.v
AuditLog.v
AuditChain.v
AuditWriter.v
AuditCounts.v
AuditSamples.v
Pins.v
BlobLife.v
Floors.v
Protocol.v
HostFloors.v
Supervised.v
Engine.v
Downgrades.v
ClientSamples.v
ClientRecords.v
Update.v
UpdateRuns.v
UpdateSamples.v
Programs.v
Archive.v
ArchiveTree.v
ArchiveSafe.v
ArchiveContents.v
ArchiveMember.v
ArchiveSamples.v
ArchivePort.v
Runner.v
RunnerPort.v
RunnerRetries.v
RunnerHolds.v
RunnerPackages.v
RunnerSamples.v
GatePolicy.v
GateIndex.v
GateReplay.v
GateStore.v
GateArtifacts.v
GateCache.v
GateWords.v
GateDurable.v
GateRoutes.v
GateSamples.v
