(* ===== verification/Prelude.v ===== *)
(** * OpAMP Fleet: a verification development

    OpAMP Fleet is a Server that keeps a fleet of Agents configured and up to date over the OpAMP
    protocol, and the Client that runs on their hosts. An operator saves Configurations, uploads
    signed Packages, and puts both into Deployments, each of which claims the Agents its Selector
    matches. Nothing is distributed until the operator presses a rollout: the press writes into the
    record of every Agent the Deployment alone claims an assignment — the Package and the revision of
    each Configuration it was given — and every offer is composed from that assignment until the next
    press. The Server admits and counts what it hears, lets new Hosts enrol inside a window an operator
    opens, signs the certificates of the Hosts and keeps which of them it still trusts, answers each
    report, writes every security decision into a hash-chained record, and keeps all of this in stores
    behind ports; the Agent's side of the protocol decides what each of its reports carries, and the
    Client runs the programs it is given, unpacking, installing, restarting and rolling them back.

    The model is a shallow embedding: a [fn] is a Rocq function, a [Result] is [result], code over a
    mutable state that can fail is [Eff] (below), a lock held across several calls is one step, and
    threads that let their locks go are a step relation ([BlobLife]) or acts in any order
    ([AuditWriter]). Definitions are executable.

    ** The files, and what of the program each models

    - [Prelude]: results, [Eff], machine integers ([u32], [u64] with checked, saturating and wrapping
      arithmetic: the build has [overflow-checks] on, so a plain [+] that overflows panics, and a
      panic is [None]), [BTreeMap] iteration, lawful comparisons.
    - [RustStr]: the operations of [str] the code uses; a [str] is the string of its UTF-8 bytes.
    - [Version] ([fleet-core/src/version.rs]): parsing, release identity, SemVer precedence.
    - [Rate] ([fleet-core/src/rate.rs]) and [AgentRate] ([fleet-server/src/agent_rate.rs],
      [fleet-agent/src/gateway/rate.rs]): bounded tables of token buckets, and their two users.
    - [Throttle] ([fleet-server/src/throttle.rs]): the back-off after failed admissions.
    - [Proto] ([opamp/src/attributes.rs], [opamp/src/uid.rs]) and [Protocol]
      ([opamp/src/client/protocol.rs]): messages, attributes, and the Agent's protocol state machine.
    - [Labels] ([fleet-server/src/labels.rs]): the description a Selector is matched against.
    - [Packages] ([fleet-core/src/platform.rs], [fleet-core/src/package.rs], and the identities of
      [fleet-server/src/packages.rs]): platforms, Package identities, what a signature covers.
    - [Fs] and [FsDocs] ([fleet-server/src/fs/mod.rs]): a directory of documents replaced in one
      step, every system call of which may fail.
    - [Configs] ([fleet-server/src/configs.rs]) with [FsConfigs] ([fleet-server/src/fs/configs.rs]),
      and [Deployments] ([fleet-server/src/deployments.rs]) with [FsDeployments]
      ([fleet-server/src/fs/deployments.rs]): each a store over a port, and the filesystem adapter of
      the port. The port is a type class of operations ([ConfigBackend], [DeploymentBackend]) and a
      class of its laws ([ConfigBackendSpec], [DeploymentBackendSpec]); the store's theorems use the
      laws, the adapter's theorem proves them.
    - [Offers] and [BlobLife] ([fleet-server/src/packages.rs]): which artifact an Agent is offered and
      which Package a rollout would release to it; uploads, deletions, signatures and sweeps as
      interleaved steps.
    - [Agents] ([fleet-server/src/agent_store.rs] and the records of [fleet-server/src/fleet.rs]): an
      Agent's record, what of it persists, the digest of the dirty check, and the records' port
      ([AgentStore], [AgentStoreSpec]).
    - [Placement] ([fleet-server/src/fleet.rs], [fleet-server/src/revocation.rs]): what the Host an
      Agent arrived over and the Client Agent of its group add to its description.
    - [Revocation] ([fleet-server/src/revocation.rs]): the register of the certificates the Server
      signed, the revocation list with the cache of what it revokes, and the Hosts with the Agents each
      speaks for, over a port ([LedgerStore]); [Trust] and [Bindings] hold the theorems.
    - [Rollouts] and [Pins] ([fleet-server/src/fleet.rs]): what a press releases, what waits for it,
      the two rollout acts, the collection of revisions, the deletions an assignment stands in the
      way of, reach, and the offers; and that none of them loses a revision an assignment pins.
    - [Reports] ([fleet-server/src/fleet.rs]): the whole reply to a report, from the identity it is
      taken for to the offers; [Acts]: what an operator or a closing connection does to one Agent;
      [Replies] holds the theorems on the reply, [Exchanges] a concrete Server they are applied to.
    - [Enrolment] ([fleet-server/src/enrolment.rs]): the window a new Host may ask in, the queue of
      requests and every act on it, over a port ([EnrolmentStore]) with the bodies its trait gives;
      [EnrolmentPort] ([fleet-server/src/fs/enrolment.rs]): that those bodies and the filesystem adapter
      keep the port of a sole writer ([SoleWriterQueue]); [EnrolmentRuns] and [EnrolmentSafe]: the queue
      through any acts, starts and failing writes; [EnrolmentDesk]: the queue against one document;
      [EnrolmentActs] ([fleet-server/src/fleet.rs], [fleet-server/src/transport.rs]): an approval over
      the register and the audit record, and the messages of an enrolment session;
      [EnrolmentSamples]: an enrolment that runs.
    - [Bootstrap] ([fleet-server/src/bootstrap.rs], [check_password] of [fleet-core/src/pkcs12.rs], three
      routes of [fleet-server/src/api.rs]): the certificates a new Host asks with, from the subject an
      operator names to the PKCS#12 file it is handed out in, over a port ([BootstrapStore]);
      [BootstrapPort] ([fleet-server/src/fs/bootstrap.rs]): the port's laws and the filesystem adapter
      that keeps them; [BootstrapRuns]: what each call may change; [BootstrapSafe] holds the
      theorems, [BootstrapSamples] a Server that runs.
    - [AuditLog] ([fleet-server/src/audit.rs], [fleet-server/src/audit_log.rs]): recording a decision,
      the refusals counted together, the writer and its chain, over a port ([AuditStore]);
      [AuditChain]: the two walks that check a chain; [AuditWriter] and [AuditCounts]: what the writer
      leaves behind, against the port's laws ([ChainStore]); [AuditSamples]: a log that runs.
    - [Floors] ([fleet-server/src/floors.rs], [fleet-server/src/fs/floors.rs]): the version below which
      no Client takes a package of a type.
    - [HostFloors] ([fleet-agent/src/floors.rs], the marks of [fleet-agent/src/storage.rs]): the
      operator's floors and the high-water marks a Client keeps.
    - [Supervised] ([fleet-agent/src/supervisor/agent.rs] and its modules): one Agent of a Client — what
      it takes of an offer, what it refuses, and what its reports say of it — over its storage, a port
      ([AgentStorage]).
    - [Engine] ([fleet-agent/src/engine.rs], with the decisions of [packages.rs], [update/] and
      [transport/mod.rs]): the Agents of one Client, the downloads they ask for, and the commands
      handed to their processes. [Downgrades] and [ClientRecords] hold the theorems, [ClientSamples] a
      Client that runs.
    - [Update] ([fleet-agent/src/update/installer.rs], [fleet-agent/src/service/layout.rs], the start of
      [fleet-agent/src/service/runtime.rs]): the Client's own update — staging a version, switching to
      it, the attempts a start counts, the commit and the roll-back; [UpdateRuns] holds the theorems
      over any sequence of starts, crashes and answers, [UpdateSamples] their witnesses.
    - [Programs] and [Runner] ([fleet-agent/src/supervisor/process.rs]): the program of a Supervisor —
      staging it, swapping it in, taking it back — and the loop that runs it, with every command, the
      restart policy and what waits; [RunnerPort]: the answers the Supervisor is owed; [RunnerRetries],
      [RunnerHolds] and [RunnerPackages] hold the theorems, [RunnerSamples] a Runner that runs.
    - [Archive] ([fleet-agent/src/archive.rs], [validate_program_path] of [fleet-agent/src/config.rs]): one
      member, or a whole tree, out of a [.tar.gz], [.7z] or [.zip]; [ArchiveTree]: the bounded reader,
      paths and the files of a host; [ArchiveSafe], [ArchiveContents] and
      [ArchiveMember] hold the theorems, [ArchiveSamples] archives that are unpacked, and
      [ArchivePort] makes of it the [Archives] of [Programs] and [Runner].
    - The Gateway, the Client of a site that speaks to the Server for Hosts that cannot
      ([fleet-agent/src/gateway/]): [GatePolicy] ([policy.rs]): which downstream Host an Agent is bound
      to, in memory and as the changes it hands to the disk; [GateStore] ([store.rs]): the append-only
      file of those changes and its rewriting, every system call of which may fail; [GateArtifacts]
      and [GateCache] ([cache.rs]): which artifacts were offered to whom and the bounded cache they
      are served from; the routes of replies ([registry.rs]) with [GateRoutes]. [GateIndex],
      [GateReplay], [GateWords] and [GateDurable] hold the invariants and theorems,
      [GateSamples] a Gateway that runs.

    ** What the theorems show

    - Distribution. [press_moves_the_claimed]: a press gives exactly the Agents it alone claims its
      release, and afterwards nothing of it waits for them; [nothing_waits_iff_settled]: the fleet
      view's waiting changes are empty exactly when a press would move nothing;
      [refused_press_moves_nobody]; [pinned_revisions_survive]: after any sequence of acts, over a store
      that puts a failed release back, every assignment still composes the revisions it names; [deployment_for_spec]: an Agent belongs to at
      most one Deployment; [saving_reaches_nobody], [pin_retains], [collection_keeps_referenced].
    - What an Agent is. [effective_description_precedence]; [placing_is_incremental]: placing one
      Agent's group again is placing the whole fleet from scratch; [durable_frame_exact]: the dirty
      check misses no durable change.
    - Reports. [reports_keep_to_their_own_agents]: a report changes no record but its Agent's, and over
      one Host's certificate none of an Agent bound to another; [records_stay_under_the_ceiling],
      [full_state_demanded_when_lost], [restarts_go_out_once], [queued_restarts_are_delivered],
      [heartbeats_write_nothing], [replies_name_the_reporter], [forgetting_drops_the_agent].
    - Trust. [revoked_set_follows_the_chains]: a certificate is refused exactly when the list names
      it or one it renewed; [valid_certificates_survive_a_prune]; [hosts_speak_for_their_own_agents].
    - Enrolment. [collected_certificates_were_signed]: a Host collects only a certificate that was signed
      for its own request and recorded; [queue_stays_within_bounds]; [queues_answer_as_one_document]:
      over a store that answers, the queue answers as one document on which each act is done in place,
      its list of what waits in the order of arrival;
      [decided_requests_are_not_signed_again]; [crashes_lose_no_request];
      [approved_certificates_are_registered].
    - Bootstrap certificates. [forgotten_files_are_not_handed_out]: a PKCS#12 file once forgotten stays
      so through any calls, starts and failures; [handed_files_are_the_issued_ones];
      [issued_files_are_kept]: what was answered as issued can be fetched until it ends, is revoked or
      acted on, unless the store fails at that very download; [orders_keep_their_bounds]: what is signed at all.
    - The audit record. [record_holds_through_crashes]: once its repair is written into a file with room,
      the stored record verifies after any decisions, failing writes and rotations; [decisions_are_told]: every decision is written, told as unrecorded
      or waits; [records_that_hold_agree] and [closed_chains_are_whole]: what verifying proves.
    - Packages. [act_and_candidate_agree], [candidate_is_upgrade], [offer_and_download_agree],
      [statements_unambiguous], [precedence_order], [precedence_is_semver], [floors_never_fall]; [entries_name_stored_blobs]:
      in every reachable interleaving an entry names a stored blob, unless the write of an upload's
      entry failed once it was on the disk.
    - Stores. Memory and store agree after every successful write and memory is untouched by any
      other ([config_store_coherent], [deployment_store_coherent], [served_floors_are_stored]); the
      filesystem adapters keep their ports' laws whichever system call fails
      ([fs_configs_implement_port], [fs_deployments_implement_port], [fs_floors_implement_port],
      [replacement_is_atomic]).
    - Admission. [take_rate_bound], [admitted_messages_bounded], [throttle_run_ok], [failures_block].
    - Protocol. [owed_is_paid_by_next_report]: what is owed to the Server is in the next report, but for
      the parts the Server said it does not take.
    - The Client. [handed_packages_are_the_operators]: a process is handed only what the operator's key
      signed for its type, at or above the floor; [supervisors_never_go_back], as long as no offer
      overtakes a package in flight; [kept_versions_only_rise].
    - The Client's own update, on Unix. [current_answers_for_itself]: whatever crashes, as long as a
      removed marker is gone, [current] names a directory whose program answers its self-check, and so
      does the way back; [uncommitted_versions_are_rolled_back]: a version that never answers is left
      after a bounded number of starts that were counted; [answered_versions_stay].
    - The Managed Process. [what_is_asked_is_answered]: every configuration and package the Supervisor
      hands over is answered once; [failed_packages_leave_the_program]: a package that fails leaves the
      program that was live; [installed_packages_are_live], as long as what is put back is put back;
      [what_waits_is_retried]; [crash_loops_are_held].
    - Unpacking. [trees_stay_in_their_directory]: whatever an archive holds, nothing outside its
      directory changes; [trees_stay_within_their_budget]; [forbidden_members_refuse_the_archive];
      [unpacked_trees_hold_the_archive]: an answered unpacking left exactly the files of the
      reference, and [sound_archives_are_unpacked]; [bounded_reads_never_end_early];
      [members_are_written_whole]; [staged_trees_are_the_archives].
    - The Gateway. [relied_bindings_survive]: a binding the Gateway has answered for is found again
      after a crash at any write; [bindings_read_back] and [stores_read_back]: the file reads back as
      what was written; [replies_go_to_the_bound_host] and [artifacts_follow_the_bound_host]: a reply
      of the Server and an artifact reach only the Host the Agent is bound to;
      [bindings_stay_within_limits] and [artifacts_within_capacity].
    - Behaviour the code's comments and decision records do not describe: [desired_hash_ambiguous] (two
      different compositions with one hash), [late_failure_strands_entry] (a failed upload can leave a
      store that does not open) and [signed_entries_can_name_deleted_blobs] (a signature then brings the
      entry into memory), [refused_certificate_hides_the_new_identity] (an identity the Agent is
      never told), [repair_lost_or_late] (a torn audit record whose repair is lost),
      [lost_aggregate_drops_its_count], [overlapping_offers_go_back] (an offer that overtakes a
      package in flight takes a Supervisor back), [late_answers_commit_another_binding] (the answer to
      an ended binding makes a later one durable), [failed_first_write_locks_the_store],
      [releases_are_taken_for_their_pre_release] (two versions with one directory),
      [exits_strand_what_waits], [failed_put_backs_lose_the_program],
      [shutdowns_keep_the_unproved_package] and [unprepared_starts_read_as_running] (the Managed
      Process), [directories_are_taken_for_the_program] (a directory extracted for the program),
      [reopened_windows_keep_expired_requests], [withdrawn_requests_are_queued_again] and
      [failed_approvals_are_handed_over] (enrolment), [unnamed_files_keep_the_server_down] (a crash
      within an issuance keeps the Server from starting) and [unrecorded_issuances_can_be_fetched].

    ** Parameters, hypotheses and bounds

    SHA-256, the [hex] crate, JSON ([serde_json]), the protobuf encoders ([prost]) and the check of a
    signature are parameters. Where a theorem needs something of one it is a hypothesis: that JSON,
    hex or protobuf read back what they wrote. No theorem assumes that SHA-256 is injective; the two on
    what a verified record proves assume that no two lines of the records compared share a hash. The
    clock is an argument, read once a step. The order a [HashMap] is walked in is a parameter where it can be observed
    ([Throttle]) and otherwise proved not to matter. What a shared database is read for is an argument
    of the act that reads it; the theorems on the rollout acts are for a Server that alone writes its
    store, with the port's promises for that case as hypotheses ([writes_all], [puts_back]), which the
    store in memory of [Agents] meets; the filesystem adapter logs a put-back that fails and goes on. The
    store of the audit record keeps what its port documents ([ChainStore]): a failed append leaves
    nothing, which [fs/audit.rs] does not check. A file that is created without a mode has the one the
    umask leaves of 0o666 ([mode_under]). A message of a refusal or an error is the data it is formatted
    from; log lines are left out. Loops are over collections, but for the walks along renewed
    certificates: they go one round for each certificate of the register and one more, which is enough
    because no certificate is visited twice. The counter of the push channel is not bounded to 64 bits,
    nor is the one that orders a Gateway's reports. The [uuid] crate is a class of operations ([Uuids])
    with its laws ([UuidLaws]), met by the identifiers of [GateSamples]. The theorem on the Gateway's
    durable bindings is for runs in which an unbound identity is bound again only once the writes of
    its earlier bindings are done ([orderly_run]); [late_answers_commit_another_binding] shows what
    the others do. The crates that read archives are a class ([Containers]): what each of two reads of
    an archive finds is theirs to say, and no theorem assumes that the two agree but for the last part of
    [unpacked_trees_hold_the_archive] ([one_read]). For the Runner an
    archive is a class of its own ([Archives]), which [ArchivePort.unpacking] meets. The calls a host
    makes into its operating system end as a list says that the environment chooses, and past its end
    they succeed; so do the moments the Runner waits in. Reading a certificate signing request is a
    parameter ([Csrs]). The bootstrap CA's signer is an argument of the second half of an issuance,
    which is a call of its own, since others run while it signs. The theorems on the bootstrap record
    are for certificates whose file names are apart ([known]): the adapter names a file after sixteen
    digits of the issuer's hash and the serial. The loops that copy bytes have the bytes left as their
    fuel: every round reads at least one or ends.

    ** What is not modelled

    Sockets, HTTP, TLS and WebSockets, the REST API and its views, the certificate authority and the
    ASN.1 code (calls into third-party crates), the PostgreSQL and S3 adapters (SQL and HTTP), service
    managers and platform code, the Windows branches among it: what these do is decided by code that is not in the repository. Of the
    rest: the filesystem adapters of the Agents' records, of the register, of the audit record, of the
    Packages and the blobs; the naming and ending of certificates; framing and pacing of the
    transports; on the Client the version probe, the arguments, environment and signals of a process
    and the channel to a second service; and the Gateway's connections — its handlers, the pool of its
    upstream connections and its copy of the revocation list. *)

From stdpp Require Export gmap strings list fin_maps sorting.
From Stdlib Require Export NArith ZArith Lia Ascii.
From Stdlib Require String.

(** ** Results

    [result A E] is Rust's [Result<A, E>]; [bind_result] is its [?] operator. *)
Inductive result (A E : Type) : Type :=
| Ok (a : A)
| Err (e : E).
Arguments Ok {A E} a.
Arguments Err {A E} e.

Definition bind_result {A B E} (r : result A E) (k : A → result B E) : result B E :=
  match r with
  | Ok a => k a
  | Err e => Err e
  end.

Definition map_err {A E F} (f : E → F) (r : result A E) : result A F :=
  match r with
  | Ok a => Ok a
  | Err e => Err (f e)
  end.

Definition is_ok {A E} (r : result A E) : bool :=
  match r with Ok _ => true | Err _ => false end.

Declare Scope fleet_scope.
Delimit Scope fleet_scope with fleet.
Notation "x <-? e ;; k" := (bind_result e (fun x => k))
  (at level 100, e at next level, right associativity) : fleet_scope.
Open Scope fleet_scope.

(** ** Stateful code that can fail

    [Eff S E A]: code over a state [S] that answers an [A] or fails with an [E]; what it did to the
    state before it failed stays done. *)
Definition Eff (S E A : Type) : Type := S → S * result A E.

Definition eff_ret {S E A} (a : A) : Eff S E A := λ s, (s, Ok a).
Definition eff_fail {S E A} (e : E) : Eff S E A := λ s, (s, Err e).
Definition eff_of {S E A} (r : result A E) : Eff S E A := λ s, (s, r).
Definition eff_bind {S E A B} (m : Eff S E A) (k : A → Eff S E B) : Eff S E B := λ s,
  match m s with
  | (s', Ok a) => k a s'
  | (s', Err e) => (s', Err e)
  end.
Definition eff_map_err {S E F A} (f : E → F) (m : Eff S E A) : Eff S F A := λ s,
  match m s with
  | (s', r) => (s', map_err f r)
  end.

Notation "x <-! e ;; k" := (eff_bind e (fun x => k))
  (at level 100, e at next level, right associativity) : fleet_scope.

(** [for x in l { body(x)? }], collecting what each round answers. *)
Fixpoint eff_each {S E A B} (body : A → Eff S E B) (l : list A) : Eff S E (list B) :=
  match l with
  | [] => eff_ret []
  | x :: l => y <-! body x ;; ys <-! eff_each body l ;; eff_ret (y :: ys)
  end.

(** *** Triples

    [triple P m Q R]: from a state of [P], [m] answers an [a] in a state of [Q a], or fails with an
    [e] in one of [R e]. *)
Definition triple {S E A} (P : S → Prop) (m : Eff S E A) (Q : A → S → Prop) (R : E → S → Prop) : Prop :=
  ∀ s s' x, P s → m s = (s', x) → match x with Ok a => Q a s' | Err e => R e s' end.

Lemma triple_ret {S E A} (a : A) (Q : A → S → Prop) (R : E → S → Prop) : triple (Q a) (eff_ret a) Q R.
Proof. by intros s s' x H [= <- <-]. Qed.

Lemma triple_bind {S E A B} P (m : Eff S E A) Q (k : A → Eff S E B) Q' R :
  triple P m Q R → (∀ a, triple (Q a) (k a) Q' R) → triple P (eff_bind m k) Q' R.
Proof.
  intros Hm Hk s s' x HP. unfold eff_bind. destruct (m s) as [s1 [a|e]] eqn:E1; pose proof (Hm _ _ _ HP E1) as H1.
  - by apply Hk.
  - by intros [= <- <-].
Qed.

Lemma triple_pre {S E A} (P P' : S → Prop) (m : Eff S E A) Q R :
  (∀ s, P s → P' s) → triple P' m Q R → triple P m Q R.
Proof. intros H Hm s s' x HP. apply Hm. auto. Qed.

Lemma triple_post {S E A} (P : S → Prop) (m : Eff S E A) Q Q' (R R' : E → S → Prop) :
  triple P m Q R → (∀ a s, Q a s → Q' a s) → (∀ e s, R e s → R' e s) → triple P m Q' R'.
Proof. intros Hm HQ HR s s' x HP Hx. specialize (Hm s s' x HP Hx). destruct x; auto. Qed.

(** A bound call is its parts in turn. *)
Lemma eff_bind_inv {S E A B} (m : Eff S E A) (k : A → Eff S E B) s s' x :
  eff_bind m k s = (s', x) →
  (∃ s1 a, m s = (s1, Ok a) ∧ k a s1 = (s', x)) ∨ (∃ e, m s = (s', Err e) ∧ x = Err e).
Proof. unfold eff_bind. destruct (m s) as [s1 [a|e]]; [by eauto|]. intros [= <- <-]. eauto. Qed.

#[global] Instance result_eq_dec {A E} `{EqDecision A, EqDecision E} :
  EqDecision (result A E).
Proof. solve_decision. Defined.

(** [HashMap::iter] on some map: every entry once, in some order. *)
Class HashIter (K V : Type) `{Countable K} := {
  hash_iter : gmap K V → list (K * V);
  hash_iter_perm m : hash_iter m ≡ₚ map_to_list m;
}.

#[export] Instance map_to_list_iter {K V} `{Countable K} : HashIter K V := {|
  hash_iter := map_to_list;
  hash_iter_perm m := reflexivity (R := Permutation) (map_to_list m);
|}.

(** ** Machine integers

    The unsigned integers of the source are [N]; the bounds and what the standard library does at
    them are written out. Every profile of the workspace builds with [overflow-checks], so a plain
    [+] or [*] that leaves its width panics: [checked_add] and [checked_mul] give [None] there, and
    a definition that uses them has [None] for the panic. *)
Definition u32_max : N := 4294967295.
Definition u64_max : N := 18446744073709551615.

Definition saturating_add (max a b : N) : N := N.min max (a + b).
Definition saturating_mul (max a b : N) : N := N.min max (a * b).
Definition saturating_sub (a b : N) : N := a - b.

Definition checked_add (max a b : N) : option N :=
  if (a + b <=? max)%N then Some (a + b)%N else None.
Definition checked_mul (max a b : N) : option N :=
  if (a * b <=? max)%N then Some (a * b)%N else None.

Lemma checked_add_Some max a b c :
  checked_add max a b = Some c ↔ c = (a + b)%N ∧ (a + b ≤ max)%N.
Proof. unfold checked_add. destruct (N.leb_spec (a + b) max); naive_solver (lia). Qed.

Lemma checked_mul_Some max a b c :
  checked_mul max a b = Some c ↔ c = (a * b)%N ∧ (a * b ≤ max)%N.
Proof. unfold checked_mul. destruct (N.leb_spec (a * b) max); naive_solver (lia). Qed.

(** ** Ordered maps

    A [BTreeMap] is a [gmap] together with its iteration order, the order of its keys.
    [btree_iter] is [BTreeMap::iter], for string keys. *)
Definition key_le {V} (x y : string * V) : Prop := String.le x.1 y.1.

#[global] Instance key_le_dec {V} : RelDecision (@key_le V).
Proof. intros x y. unfold key_le. apply _. Defined.
#[global] Instance key_le_total {V} : Total (@key_le V).
Proof. intros x y. unfold key_le. apply (total String.le). Qed.
#[global] Instance key_le_trans {V} : Transitive (@key_le V).
Proof. intros x y z. unfold key_le. apply (transitivity (R := String.le)). Qed.

Definition btree_iter {V} (m : gmap string V) : list (string * V) :=
  merge_sort key_le (map_to_list m).
Definition btree_keys {V} (m : gmap string V) : list string := (btree_iter m).*1.
Definition btree_values {V} (m : gmap string V) : list V := (btree_iter m).*2.

Lemma elem_of_btree_iter {V} (m : gmap string V) k v :
  (k, v) ∈ btree_iter m ↔ m !! k = Some v.
Proof.
  unfold btree_iter. rewrite (merge_sort_Permutation key_le). apply elem_of_map_to_list.
Qed.

Lemma elem_of_btree_values {V} (m : gmap string V) v :
  v ∈ btree_values m ↔ ∃ k, m !! k = Some v.
Proof.
  unfold btree_values. rewrite list_elem_of_fmap. split.
  - intros ([k v'] & -> & H). exists k. by apply elem_of_btree_iter.
  - intros (k & H). exists (k, v). by rewrite elem_of_btree_iter.
Qed.

Lemma elem_of_btree_keys {V} (m : gmap string V) k :
  k ∈ btree_keys m ↔ is_Some (m !! k).
Proof.
  unfold btree_keys. rewrite list_elem_of_fmap. split.
  - intros ([k' v'] & -> & H). exists v'. by apply elem_of_btree_iter.
  - intros (v & H). exists (k, v). by rewrite elem_of_btree_iter.
Qed.

Lemma NoDup_btree_keys {V} (m : gmap string V) : NoDup (btree_keys m).
Proof.
  unfold btree_keys, btree_iter. rewrite (merge_sort_Permutation key_le).
  apply NoDup_fst_map_to_list.
Qed.

Lemma btree_iter_sorted {V} (m : gmap string V) : StronglySorted key_le (btree_iter m).
Proof. apply (StronglySorted_merge_sort key_le). Qed.

Lemma btree_iter_nil {V} (m : gmap string V) : btree_iter m = [] ↔ m = ∅.
Proof.
  split; [|by intros ->].
  intros H. apply map_eq. intros k. rewrite lookup_empty.
  destruct (m !! k) eqn:E; [|done].
  apply elem_of_btree_iter in E. rewrite H in E. by apply elem_of_nil in E.
Qed.

Lemma list_to_map_btree_iter {V} (m : gmap string V) :
  (list_to_map (btree_iter m) : gmap string V) = m.
Proof.
  etrans; [|apply (list_to_map_to_list m)].
  apply list_to_map_proper; [apply NoDup_btree_keys|].
  unfold btree_iter. by rewrite (merge_sort_Permutation key_le).
Qed.

Lemma btree_iter_fmap {V W} (m : gmap string V) (f : V → W) :
  btree_iter (f <$> m) = (λ kv, (kv.1, f kv.2)) <$> btree_iter m.
Proof.
  apply (StronglySorted_unique_strong key_le).
  - intros [k1 v1] [k2 v2] H1 H2 Hle1 Hle2. unfold key_le in *. cbn in *.
    assert (k1 = k2) as -> by (by apply (anti_symm String.le)).
    apply elem_of_btree_iter in H1. apply list_elem_of_fmap in H2 as ([k f2] & Heq & H2).
    cbn in Heq. simplify_eq. apply elem_of_btree_iter in H2. rewrite lookup_fmap, H2 in H1.
    cbn in H1. congruence.
  - apply btree_iter_sorted.
  - pose proof (btree_iter_sorted m) as Hs.
    induction Hs as [|[k v] l Hs IH Hall]; cbn; constructor; [done|].
    apply Forall_fmap. eapply Forall_impl; [exact Hall|]. intros [k' v']. done.
  - unfold btree_iter. rewrite !(merge_sort_Permutation key_le), map_to_list_fmap.
    apply reflexive_eq, list_fmap_ext. by intros ? [].
Qed.

(** [collect::<BTreeMap<_, _>>]: of two pairs of one key the later stays. *)
Definition collect_map {V} (l : list (string * V)) : gmap string V :=
  foldl (λ m kv, <[kv.1 := kv.2]> m) ∅ l.

Lemma lookup_foldl_insert {V} (l : list (string * V)) (m : gmap string V) k v :
  NoDup l.*1 →
  foldl (λ m kv, <[kv.1 := kv.2]> m) m l !! k = Some v ↔
  (k, v) ∈ l ∨ k ∉ l.*1 ∧ m !! k = Some v.
Proof.
  revert m. induction l as [|[k' v'] l IH]; intros m; cbn.
  - intros _. split; [|intros [?%elem_of_nil|[]]; done]. intros H. right. split; [|done].
    apply not_elem_of_nil.
  - intros [Hk' Hl]%NoDup_cons. rewrite IH by done. rewrite elem_of_cons, not_elem_of_cons.
    destruct (decide (k = k')) as [->|Hne].
    + rewrite lookup_insert_eq. split; [naive_solver|].
      intros [[[= ->]|Hin]|[[] _]]; [by right|by left|done].
    + rewrite lookup_insert_ne by done. naive_solver.
Qed.

Lemma lookup_collect_map {V} (l : list (string * V)) k v :
  NoDup l.*1 → collect_map l !! k = Some v ↔ (k, v) ∈ l.
Proof.
  intros Hl. unfold collect_map. rewrite lookup_foldl_insert by done.
  rewrite lookup_empty. naive_solver.
Qed.

(** A [BTreeSet] of strings in its order. *)
Definition btree_elements (X : gset string) : list string := merge_sort String.le (elements X).

Lemma elem_of_btree_elements X x : x ∈ btree_elements X ↔ x ∈ X.
Proof.
  unfold btree_elements. rewrite (merge_sort_Permutation String.le). apply elem_of_elements.
Qed.

Lemma NoDup_btree_elements X : NoDup (btree_elements X).
Proof.
  unfold btree_elements. rewrite (merge_sort_Permutation String.le). apply NoDup_elements.
Qed.

(** A loop over a map that stops at the first refusal: [Err] names the refused pair, and [Ok] says
    that no pair of the map is refused. *)
Fixpoint check_each {A E} (check : A → option E) (l : list A) : result unit E :=
  match l with
  | [] => Ok tt
  | x :: l => match check x with Some e => Err e | None => check_each check l end
  end.

Lemma check_each_Ok {A E} (check : A → option E) l :
  check_each check l = Ok tt ↔ ∀ x, x ∈ l → check x = None.
Proof.
  induction l as [|x l IH]; cbn; [set_solver|].
  destruct (check x) eqn:Hx; [split; [done|intros H; rewrite H in Hx; set_solver]|].
  rewrite IH. set_solver.
Qed.

Lemma check_each_Err {A E} (check : A → option E) l e :
  check_each check l = Err e → ∃ x, x ∈ l ∧ check x = Some e.
Proof.
  induction l as [|x l IH]; cbn; [done|]. destruct (check x) eqn:Hx; [set_solver|].
  intros (y & ? & ?)%IH. set_solver.
Qed.

(** ** Comparisons

    Rust's [Ordering] is [comparison]. [CmpOrder cmp] says that [cmp] is the comparison of a total
    order whose equality is [=]: the contract of [Ord]. *)
Class CmpOrder {A} (cmp : A → A → comparison) : Prop := {
  cmp_eq x y : cmp x y = Eq ↔ x = y;
  cmp_sym x y : cmp y x = CompOpp (cmp x y);
  cmp_trans x y z : cmp x y = Lt → cmp y z = Lt → cmp x z = Lt;
}.

#[export] Hint Mode CmpOrder + ! : typeclass_instances.

(** [Ordering::then_with]. *)
Definition then_with (c d : comparison) : comparison :=
  match c with Eq => d | _ => c end.

Lemma cmp_refl {A} (cmp : A → A → comparison) `{!CmpOrder cmp} x : cmp x x = Eq.
Proof. by apply cmp_eq. Qed.

#[export] Instance nat_compare_order : CmpOrder Nat.compare.
Proof.
  split.
  - apply Nat.compare_eq_iff.
  - intros. by rewrite Nat.compare_antisym.
  - intros x y z. rewrite !Nat.compare_lt_iff. lia.
Qed.

(** A comparison of [f x] first and of [g x] among equals, where [f] and [g] determine [x]. *)
Lemma then_with_order {A B C} (f : A → B) (g : A → C) (cmp1 : B → B → comparison)
    (cmp2 : C → C → comparison) `{!CmpOrder cmp1, !CmpOrder cmp2} :
  (∀ x y, f x = f y → g x = g y → x = y) →
  CmpOrder (λ x y, then_with (cmp1 (f x) (f y)) (cmp2 (g x) (g y))).
Proof.
  intros Hinj. split.
  - intros x y. destruct (cmp1 (f x) (f y)) eqn:E; cbn; [|split; [done|]..];
      [apply cmp_eq in E| |]; [|intros ->; by rewrite cmp_refl in E..].
    rewrite cmp_eq. naive_solver.
  - intros x y. rewrite (cmp_sym (cmp := cmp1) (f x) (f y)), (cmp_sym (cmp := cmp2) (g x) (g y)).
    by destruct (cmp1 (f x) (f y)).
  - intros x y z.
    destruct (cmp1 (f x) (f y)) eqn:E1; cbn; [apply cmp_eq in E1 as ->| |done];
    (destruct (cmp1 (f y) (f z)) eqn:E2; cbn; [|try done|done]).
    + apply cmp_trans.
    + apply cmp_eq in E2 as <-. by rewrite E1.
    + by rewrite (cmp_trans _ _ _ E1 E2).
Qed.

(** [None] above every [Some]. *)
Definition none_last_compare {A} (cmp : A → A → comparison) (x y : option A) : comparison :=
  match x, y with
  | None, None => Eq
  | None, Some _ => Gt
  | Some _, None => Lt
  | Some x, Some y => cmp x y
  end.

#[export] Instance none_last_order {A} (cmp : A → A → comparison) `{!CmpOrder cmp} :
  CmpOrder (none_last_compare cmp).
Proof.
  split.
  - intros [x|] [y|]; cbn; try done. rewrite cmp_eq. naive_solver.
  - intros [x|] [y|]; cbn; try done. apply cmp_sym.
  - intros [x|] [y|] [z|]; cbn; try done. apply cmp_trans.
Qed.

(** The lexicographic comparison of two lists, a proper prefix being the lesser. *)
Fixpoint lex_compare {A} (cmp : A → A → comparison) (xs ys : list A) : comparison :=
  match xs, ys with
  | [], [] => Eq
  | [], _ :: _ => Lt
  | _ :: _, [] => Gt
  | x :: xs, y :: ys => then_with (cmp x y) (lex_compare cmp xs ys)
  end.

#[export] Instance lex_compare_order {A} (cmp : A → A → comparison) `{!CmpOrder cmp} :
  CmpOrder (lex_compare cmp).
Proof.
  split.
  - intros xs. induction xs as [|x xs IH]; intros [|y ys]; cbn; try done.
    specialize (IH ys). destruct (cmp x y) eqn:E; cbn.
    + apply cmp_eq in E as ->. naive_solver.
    + split; [done|]. intros [= -> _]. by rewrite cmp_refl in E.
    + split; [done|]. intros [= -> _]. by rewrite cmp_refl in E.
  - intros xs. induction xs as [|x xs IH]; intros [|y ys]; cbn; try done.
    rewrite (cmp_sym (cmp := cmp) x y), (IH ys). by destruct (cmp x y).
  - intros xs. induction xs as [|x xs IH]; intros [|y ys] [|z zs]; cbn; try done.
    destruct (cmp x y) eqn:E1; cbn; [apply cmp_eq in E1 as ->| |done];
    (destruct (cmp y z) eqn:E2; cbn; [|try done|done]).
    + apply IH.
    + apply cmp_eq in E2 as <-. by rewrite E1.
    + by rewrite (cmp_trans _ _ _ E1 E2).
Qed.

(** ** Tactics and hints *)

(** Splits the [if]s and [match]es of the goal and the hypotheses, keeping each equation. *)
Ltac split_cases :=
  repeat (case_match; simplify_eq/=).

Create HintDb fleet.
#[export] Hint Resolve elem_of_btree_iter NoDup_btree_keys btree_iter_sorted : fleet.
