(* ===== verification/RustStr.v ===== *)
(** * Rust's [str]

    A [str] is the string of its UTF-8 bytes, so that [len] is [String.length] and the order of
    [Ord for str] is the order of the bytes, [String.compare]. This file has the operations of the
    standard library the source uses on it. Where an operation works on [char]s (trimming white
    space, counting characters) the byte patterns of the characters concerned are written out, which
    is the same thing on valid UTF-8. *)

From S2P Require Import Prelude.

Definition byte_of (c : ascii) : N := N_of_ascii c.

Definition in_range (lo hi : N) (c : ascii) : bool :=
  ((lo <=? byte_of c) && (byte_of c <=? hi))%N.

(** [u8::is_ascii_digit], [is_ascii_alphanumeric], [to_ascii_lowercase]. *)
Definition is_ascii_digit : ascii → bool := in_range 48 57.
Definition is_ascii_uppercase : ascii → bool := in_range 65 90.
Definition is_ascii_lowercase : ascii → bool := in_range 97 122.
Definition is_ascii_alphanumeric (c : ascii) : bool :=
  is_ascii_digit c || is_ascii_uppercase c || is_ascii_lowercase c.
Definition to_ascii_lowercase (c : ascii) : ascii :=
  if is_ascii_uppercase c then ascii_of_N (byte_of c + 32) else c.

Definition ascii_eqb (a b : ascii) : bool := bool_decide (a = b).

Fixpoint all_bytes (p : ascii → bool) (s : string) : bool :=
  match s with
  | EmptyString => true
  | String c s => p c && all_bytes p s
  end.

Fixpoint map_bytes (f : ascii → ascii) (s : string) : string :=
  match s with
  | EmptyString => EmptyString
  | String c s => String (f c) (map_bytes f s)
  end.

Fixpoint filter_bytes (p : ascii → bool) (s : string) : string :=
  match s with
  | EmptyString => EmptyString
  | String c s => if p c then String c (filter_bytes p s) else filter_bytes p s
  end.

Definition is_empty (s : string) : bool :=
  match s with EmptyString => true | _ => false end.

(** [str::starts_with] a character and a string. *)
Definition starts_with_char (c : ascii) (s : string) : bool :=
  match s with
  | EmptyString => false
  | String d _ => ascii_eqb c d
  end.

Fixpoint strip_prefix (p s : string) : option string :=
  match p, s with
  | EmptyString, _ => Some s
  | String a p, String b s => if ascii_eqb a b then strip_prefix p s else None
  | String _ _, EmptyString => None
  end.

Definition starts_with (p s : string) : bool :=
  match strip_prefix p s with Some _ => true | None => false end.

Fixpoint rev_str_onto (s acc : string) : string :=
  match s with
  | EmptyString => acc
  | String c s => rev_str_onto s (String c acc)
  end.
Definition rev_str (s : string) : string := rev_str_onto s EmptyString.

(** [str::strip_suffix]. *)
Definition strip_suffix (p s : string) : option string :=
  option_map rev_str (strip_prefix (rev_str p) (rev_str s)).

(** [str::split_once] at the first [c]. *)
Fixpoint split_once (c : ascii) (s : string) : option (string * string) :=
  match s with
  | EmptyString => None
  | String d s =>
      if ascii_eqb c d then Some (EmptyString, s)
      else match split_once c s with
           | Some (l, r) => Some (String d l, r)
           | None => None
           end
  end.

(** [str::split_once] at the first occurrence of the pattern [p]. *)
Fixpoint split_once_str (p s : string) : option (string * string) :=
  match strip_prefix p s with
  | Some r => Some (EmptyString, r)
  | None =>
      match s with
      | EmptyString => None
      | String d s =>
          match split_once_str p s with
          | Some (l, r) => Some (String d l, r)
          | None => None
          end
      end
  end.

(** [str::rsplit_once] at the last [c]. *)
Fixpoint rsplit_once (c : ascii) (s : string) : option (string * string) :=
  match s with
  | EmptyString => None
  | String d s =>
      match rsplit_once c s with
      | Some (l, r) => Some (String d l, r)
      | None => if ascii_eqb c d then Some (EmptyString, s) else None
      end
  end.

(** [str::split] at every byte [p] holds for: always at least one piece. *)
Fixpoint split_by (p : ascii → bool) (s : string) : list string :=
  match s with
  | EmptyString => [EmptyString]
  | String d s =>
      match split_by p s with
      | piece :: rest =>
          if p d then EmptyString :: piece :: rest else String d piece :: rest
      | [] => []
      end
  end.
Definition split (c : ascii) : string → list string := split_by (ascii_eqb c).

Fixpoint contains_byte (c : ascii) (s : string) : bool :=
  match s with
  | EmptyString => false
  | String d s => ascii_eqb c d || contains_byte c s
  end.

Definition ends_with (p s : string) : bool := starts_with (rev_str p) (rev_str s).

(** ** White space and UTF-8

    The characters of the Unicode property [White_Space], which [str::trim] takes away, by their
    UTF-8 encodings of one, two and three bytes. *)
Definition white_space1 (a : N) : bool := ((9 <=? a) && (a <=? 13) || (a =? 32))%N.
Definition white_space2 (a b : N) : bool := ((a =? 194) && ((b =? 133) || (b =? 160)))%N.
Definition white_space3 (a b c : N) : bool :=
  ((a =? 225) && (b =? 154) && (c =? 128)
   || (a =? 226) && (b =? 128) &&
        ((128 <=? c) && (c <=? 138) || (c =? 168) || (c =? 169) || (c =? 175))
   || (a =? 226) && (b =? 129) && (c =? 159)
   || (a =? 227) && (b =? 128) && (c =? 128))%N.

Fixpoint trim_start (s : string) : string :=
  match s with
  | String a s1 =>
      if white_space1 (byte_of a) then trim_start s1
      else match s1 with
           | String b s2 =>
               if white_space2 (byte_of a) (byte_of b) then trim_start s2
               else match s2 with
                    | String c s3 =>
                        if white_space3 (byte_of a) (byte_of b) (byte_of c) then trim_start s3 else s
                    | EmptyString => s
                    end
           | EmptyString => s
           end
  | EmptyString => s
  end.

(** [trim_end] of the reversed string: the last byte of a character comes first. *)
Fixpoint trim_start_rev (s : string) : string :=
  match s with
  | String c s1 =>
      if white_space1 (byte_of c) then trim_start_rev s1
      else match s1 with
           | String b s2 =>
               if white_space2 (byte_of b) (byte_of c) then trim_start_rev s2
               else match s2 with
                    | String a s3 =>
                        if white_space3 (byte_of a) (byte_of b) (byte_of c)
                        then trim_start_rev s3 else s
                    | EmptyString => s
                    end
           | EmptyString => s
           end
  | EmptyString => s
  end.
Definition trim_end (s : string) : string := rev_str (trim_start_rev (rev_str s)).
Definition trim (s : string) : string := trim_end (trim_start s).

(** [s.trim().is_empty()]. *)
Definition is_blank (s : string) : bool := is_empty (trim s).

(** ** Lemmas *)

Lemma ascii_eqb_eq a b : ascii_eqb a b = true ↔ a = b.
Proof. apply bool_decide_eq_true. Qed.

Lemma ascii_eqb_neq a b : ascii_eqb a b = false ↔ a ≠ b.
Proof. apply bool_decide_eq_false. Qed.

Lemma ascii_eqb_refl a : ascii_eqb a a = true.
Proof. by apply ascii_eqb_eq. Qed.

Lemma append_cons c s t : String c s +:+ t = String c (s +:+ t).
Proof. done. Qed.

Lemma append_nil_l s : EmptyString +:+ s = s.
Proof. done. Qed.

Lemma all_bytes_app p s t : all_bytes p (s +:+ t) = all_bytes p s && all_bytes p t.
Proof.
  induction s as [|c s IH]; [done|]. rewrite append_cons. cbn. by rewrite IH, andb_assoc.
Qed.

Lemma all_bytes_impl (p q : ascii → bool) s :
  (∀ c, p c = true → q c = true) → all_bytes p s = true → all_bytes q s = true.
Proof.
  intros Hpq. induction s as [|c s IH]; [done|]; cbn.
  rewrite !andb_true_iff. naive_solver.
Qed.

Lemma split_once_Some c s l r :
  split_once c s = Some (l, r) ↔ s = l +:+ String c r ∧ contains_byte c l = false.
Proof.
  revert l r. induction s as [|d s IH]; intros l r.
  { split; [done|]. by intros [H _]; destruct l. }
  cbn. destruct (ascii_eqb c d) eqn:E.
  - apply ascii_eqb_eq in E as ->. split; [naive_solver|].
    intros [H Hl]. destruct l as [|e l]; rewrite ?append_cons, ?append_nil_l in H;
      simplify_eq; [done|]. cbn in Hl. by rewrite ascii_eqb_refl in Hl.
  - trans (∃ l', l = String d l' ∧ split_once c s = Some (l', r)).
    { destruct (split_once c s) as [[]|]; naive_solver. }
    split.
    + intros (l' & -> & H). apply IH in H as [-> Hl]. cbn. by rewrite E.
    + intros [H Hl]. destruct l as [|e l]; rewrite ?append_cons, ?append_nil_l in H;
        simplify_eq; [by rewrite ascii_eqb_refl in E|].
      cbn in Hl. rewrite E in Hl. exists l. by rewrite IH.
Qed.

Lemma split_once_None c s : split_once c s = None ↔ contains_byte c s = false.
Proof.
  induction s as [|d s IH]; [done|]. cbn.
  destruct (ascii_eqb c d); cbn; [done|].
  rewrite <- IH. destruct (split_once c s) as [[]|]; done.
Qed.

Lemma split_by_nonempty p s : split_by p s ≠ [].
Proof. induction s as [|c s IH]; [done|]; cbn. destruct (split_by p s); [done|]. by case_match. Qed.

(** The pieces of [split] are the string again when the separator is put back. *)
Lemma all_bytes_split p q s :
  (∀ c, p c = true → q c = true) →
  all_bytes q s = true ↔ Forall (λ piece, all_bytes q piece = true) (split_by p s).
Proof.
  intros Hpq. induction s as [|c s IH]; cbn.
  { split; [by repeat constructor|done]. }
  destruct (split_by p s) as [|piece rest] eqn:E; [by destruct (split_by_nonempty p s)|].
  rewrite andb_true_iff, IH, !Forall_cons. destruct (p c) eqn:Ep.
  - rewrite !Forall_cons. cbn. naive_solver.
  - rewrite Forall_cons. cbn. rewrite andb_true_iff. naive_solver.
Qed.

Lemma compare_refl s : String.compare s s = Eq.
Proof.
  induction s as [|c s IH]; [done|]. cbn. unfold Ascii.compare.
  by rewrite N.compare_refl.
Qed.

Lemma compare_eq s t : String.compare s t = Eq ↔ s = t.
Proof. split; [apply String.compare_eq_iff|]. intros ->. apply compare_refl. Qed.

Lemma compare_lt_trans s t u :
  String.compare s t = Lt → String.compare t u = Lt → String.compare s u = Lt.
Proof.
  revert t u. induction s as [|a s IH]; intros [|b t] [|c u]; cbn; try done.
  unfold Ascii.compare.
  destruct (N.compare_spec (N_of_ascii a) (N_of_ascii b)) as [Hab|Hab|Hab]; try done;
  destruct (N.compare_spec (N_of_ascii b) (N_of_ascii c)) as [Hbc|Hbc|Hbc]; try done;
  intros H1 H2;
  destruct (N.compare_spec (N_of_ascii a) (N_of_ascii c)) as [Hac|Hac|Hac];
  try done; try lia; eauto.
Qed.

#[export] Instance string_compare_order : CmpOrder String.compare.
Proof.
  split.
  - apply compare_eq.
  - intros. apply String.compare_antisym.
  - apply compare_lt_trans.
Qed.

Lemma all_bytes_not_contains p s c :
  all_bytes p s = true → p c = false → contains_byte c s = false.
Proof.
  intros Hs Hc. induction s as [|d s IH]; [done|]. cbn in *.
  apply andb_true_iff in Hs as [Hd Hs]. rewrite orb_false_iff, ascii_eqb_neq.
  split; [congruence|auto].
Qed.

Lemma contains_byte_app c s t :
  contains_byte c (s +:+ t) = contains_byte c s || contains_byte c t.
Proof.
  induction s as [|d s IH]; [done|]. rewrite append_cons. cbn. by rewrite IH, orb_assoc.
Qed.

Lemma append_assoc s t u : (s +:+ t) +:+ u = s +:+ (t +:+ u).
Proof. induction s as [|d s IH]; [done|]. by rewrite !append_cons, IH. Qed.

Lemma append_nil_r s : s +:+ EmptyString = s.
Proof. induction s as [|d s IH]; [done|]. by rewrite append_cons, IH. Qed.

(** Putting the separator back between the pieces of [split] gives the string again. *)
Fixpoint join (c : ascii) (pieces : list string) : string :=
  match pieces with
  | [] => EmptyString
  | [piece] => piece
  | piece :: rest => piece +:+ String c (join c rest)
  end.

Lemma join_split c s : join c (split c s) = s.
Proof.
  unfold split. induction s as [|d s IH]; [done|]. cbn.
  destruct (split_by (ascii_eqb c) s) as [|piece rest] eqn:E;
    [by destruct (split_by_nonempty (ascii_eqb c) s)|].
  destruct (ascii_eqb c d) eqn:Ed.
  - apply ascii_eqb_eq in Ed as ->. change (String d (join d (piece :: rest)) = String d s).
    by rewrite IH.
  - destruct rest as [|q rest]; cbn in *; [by rewrite IH|].
    by rewrite append_cons, IH.
Qed.

Lemma split_inj c s t : split c s = split c t → s = t.
Proof. intros H. by rewrite <- (join_split c s), <- (join_split c t), H. Qed.

(** The part before a separator it does not hold is determined. *)
Lemma append_sep_inj c l r l' r' :
  contains_byte c l = false → contains_byte c l' = false →
  l +:+ String c r = l' +:+ String c r' → l = l' ∧ r = r'.
Proof.
  intros Hl Hl' H.
  pose proof (proj2 (split_once_Some c _ l r) (conj eq_refl Hl)) as E.
  pose proof (proj2 (split_once_Some c _ l' r') (conj eq_refl Hl')) as E'.
  rewrite H, E' in E. naive_solver.
Qed.

(** The bytes of a string, and the little-endian bytes of an integer. *)
Fixpoint bytes_of (s : string) : list N :=
  match s with
  | EmptyString => []
  | String c s => byte_of c :: bytes_of s
  end.

Fixpoint le_bytes (width : nat) (n : N) : list N :=
  match width with
  | O => []
  | S width => (n mod 256)%N :: le_bytes width (n / 256)%N
  end.

Lemma bytes_of_inj s t : bytes_of s = bytes_of t → s = t.
Proof.
  revert t. induction s as [|c s IH]; intros [|d t]; cbn; try done.
  intros [= Hc Ht]. f_equal; [|auto].
  unfold byte_of in Hc. by rewrite <- (ascii_N_embedding c), <- (ascii_N_embedding d), Hc.
Qed.

Lemma length_bytes_of s : length (bytes_of s) = String.length s.
Proof. induction s as [|c s IH]; [done|]. cbn. by rewrite IH. Qed.

Lemma length_le_bytes width n : length (le_bytes width n) = width.
Proof. revert n. induction width as [|width IH]; intros n; cbn; [done|]. by rewrite IH. Qed.

Lemma le_bytes_inj width n m :
  (n < 256 ^ N.of_nat width)%N → (m < 256 ^ N.of_nat width)%N →
  le_bytes width n = le_bytes width m → n = m.
Proof.
  revert n m. induction width as [|width IH]; intros n m Hn Hm; cbn [le_bytes].
  - cbn in Hn, Hm. lia.
  - rewrite Nat2N.inj_succ, N.pow_succ_r' in Hn, Hm. intros [= Hmod Hdiv].
    apply IH in Hdiv; [|by apply N.Div0.div_lt_upper_bound..].
    rewrite (N.div_mod n 256), (N.div_mod m 256) by done. by rewrite Hmod, Hdiv.
Qed.

(** Trimming leaves a string of ASCII bytes that are not white space as it is. *)
Definition ascii_graphic (c : ascii) : bool := in_range 33 126 c.

Lemma trim_start_graphic s : all_bytes ascii_graphic s = true → trim_start s = s.
Proof.
  destruct s as [|a s]; [done|]. cbn [all_bytes]. rewrite andb_true_iff. intros [Ha _].
  unfold ascii_graphic, in_range in Ha. apply andb_true_iff in Ha as [Hlo Hhi].
  apply N.leb_le in Hlo, Hhi.
  assert (white_space1 (byte_of a) = false) as H1.
  { unfold white_space1. rewrite orb_false_iff, andb_false_iff, !N.leb_gt, N.eqb_neq. lia. }
  assert (∀ b, white_space2 (byte_of a) b = false) as H2.
  { intros b. unfold white_space2. rewrite (proj2 (N.eqb_neq _ 194)) by lia. done. }
  assert (∀ b c, white_space3 (byte_of a) b c = false) as H3.
  { intros b c. unfold white_space3. by rewrite !(proj2 (N.eqb_neq (byte_of a) _)) by lia. }
  cbn. rewrite H1. destruct s as [|b s]; [done|]. rewrite H2. destruct s; [done|]. by rewrite H3.
Qed.

Lemma trim_start_rev_graphic s : all_bytes ascii_graphic s = true → trim_start_rev s = s.
Proof.
  destruct s as [|c s]; [done|]. cbn [all_bytes]. rewrite andb_true_iff. intros [Hc _].
  unfold ascii_graphic, in_range in Hc. apply andb_true_iff in Hc as [Hlo Hhi].
  apply N.leb_le in Hlo, Hhi.
  assert (white_space1 (byte_of c) = false) as H1.
  { unfold white_space1. rewrite orb_false_iff, andb_false_iff, !N.leb_gt, N.eqb_neq. lia. }
  assert (∀ a, white_space2 a (byte_of c) = false) as H2.
  { intros a. unfold white_space2. rewrite !(proj2 (N.eqb_neq (byte_of c) _)) by lia.
    by rewrite andb_false_r. }
  assert (∀ a b, white_space3 a b (byte_of c) = false) as H3.
  { intros a b. unfold white_space3.
    rewrite !(proj2 (N.eqb_neq (byte_of c) _)), (proj2 (N.leb_gt 128 _)) by lia.
    by rewrite !andb_false_r. }
  cbn. rewrite H1. destruct s as [|b s]; [done|]. rewrite H2. destruct s; [done|]. by rewrite H3.
Qed.

Lemma rev_str_onto_app s t : rev_str_onto s t = rev_str s +:+ t.
Proof.
  revert t. induction s as [|c s IH]; intros t; [done|]. unfold rev_str. cbn.
  rewrite IH, (IH (String c EmptyString)), append_assoc. done.
Qed.

Lemma rev_str_cons c s : rev_str (String c s) = rev_str s +:+ String c EmptyString.
Proof. unfold rev_str at 1. cbn. apply rev_str_onto_app. Qed.

Lemma rev_str_app s t : rev_str (s +:+ t) = rev_str t +:+ rev_str s.
Proof.
  induction s as [|c s IH].
  - change (rev_str EmptyString) with EmptyString. by rewrite append_nil_r.
  - by rewrite append_cons, !rev_str_cons, IH, append_assoc.
Qed.

Lemma rev_str_involutive s : rev_str (rev_str s) = s.
Proof.
  induction s as [|c s IH]; [done|]. rewrite rev_str_cons, rev_str_app, IH. done.
Qed.

Lemma all_bytes_rev p s : all_bytes p (rev_str s) = all_bytes p s.
Proof.
  induction s as [|c s IH]; [done|]. rewrite rev_str_cons, all_bytes_app, IH. cbn.
  by rewrite andb_true_r, andb_comm.
Qed.

Lemma trim_graphic s : all_bytes ascii_graphic s = true → trim s = s.
Proof.
  intros H. unfold trim, trim_end. rewrite trim_start_graphic by done.
  rewrite trim_start_rev_graphic by (by rewrite all_bytes_rev). apply rev_str_involutive.
Qed.

(** ** UTF-8

    [String::from_utf8] and [String::from_utf8_lossy]. [utf8_char] is the next character of the
    bytes: whether it is one, and how many of them it, or the broken sequence, takes. *)

Definition string_of_bytes (bytes : list N) : string :=
  foldr (λ b s, String (ascii_of_N b) s) EmptyString bytes.

Definition in_bytes (lo hi b : N) : bool := ((lo <=? b) && (b <=? hi))%N.

Definition next_byte (bytes : list N) : N := hd 0%N bytes.

(** A character that needs [need] more bytes, the first of them from [lo] to [hi]. *)
Definition utf8_tail (need : nat) (lo hi : N) (rest : list N) : bool * nat :=
  if negb (in_bytes lo hi (next_byte rest)) then (false, 1)
  else match need with
       | 1 => (true, 2)
       | 2 => if negb (in_bytes 128 191 (next_byte (drop 1 rest))) then (false, 2) else (true, 3)
       | _ => if negb (in_bytes 128 191 (next_byte (drop 1 rest))) then (false, 2)
              else if negb (in_bytes 128 191 (next_byte (drop 2 rest))) then (false, 3) else (true, 4)
       end%nat.

Definition utf8_char (b : N) (rest : list N) : bool * nat :=
  if (b <? 128)%N then (true, 1%nat)
  else if in_bytes 194 223 b then utf8_tail 1 128 191 rest
  else if (b =? 224)%N then utf8_tail 2 160 191 rest
  else if (b =? 237)%N then utf8_tail 2 128 159 rest
  else if in_bytes 225 239 b then utf8_tail 2 128 191 rest
  else if (b =? 240)%N then utf8_tail 3 144 191 rest
  else if in_bytes 241 243 b then utf8_tail 3 128 191 rest
  else if (b =? 244)%N then utf8_tail 3 128 143 rest
  else (false, 1%nat).

(** U+FFFD. *)
Definition replacement : list N := [239; 191; 189]%N.

Fixpoint utf8_lossy (rounds : nat) (bytes : list N) : list N :=
  match rounds, bytes with
  | S rounds, b :: rest =>
      let (ok, n) := utf8_char b rest in
      (if ok : bool then take n bytes else replacement) ++ utf8_lossy rounds (drop n bytes)
  | _, _ => []
  end.

Fixpoint utf8_valid (rounds : nat) (bytes : list N) : bool :=
  match rounds, bytes with
  | S rounds, b :: rest => let (ok, n) := utf8_char b rest in ok && utf8_valid rounds (drop n bytes)
  | _, _ => true
  end.

Definition from_utf8 (bytes : list N) : option string :=
  if utf8_valid (length bytes) bytes then Some (string_of_bytes bytes) else None.

Definition from_utf8_lossy (bytes : list N) : string :=
  string_of_bytes (utf8_lossy (length bytes) bytes).

(** ** Prefixes and suffixes *)

Lemma strip_prefix_Some p s r : strip_prefix p s = Some r ↔ s = p +:+ r.
Proof.
  revert s. induction p as [|a p IH]; intros s; cbn.
  - rewrite append_nil_l. naive_solver.
  - rewrite append_cons. destruct s as [|b s]; [naive_solver|].
    destruct (ascii_eqb a b) eqn:E.
    + apply ascii_eqb_eq in E as ->. rewrite IH. naive_solver.
    + apply ascii_eqb_neq in E. naive_solver.
Qed.

Lemma append_inj_l a b c : a +:+ b = a +:+ c → b = c.
Proof. induction a as [|d a IH]; [done|]. rewrite !append_cons. naive_solver. Qed.

Lemma strip_suffix_Some p s r : strip_suffix p s = Some r ↔ s = r +:+ p.
Proof.
  unfold strip_suffix.
  assert (H : s = r +:+ p ↔ rev_str s = rev_str p +:+ rev_str r).
  { rewrite <- rev_str_app. split; [by intros ->|]. intros H.
    by rewrite <- (rev_str_involutive s), H, rev_str_involutive. }
  rewrite H, <- strip_prefix_Some. destruct (strip_prefix _ _) as [t|]; cbn; [|done].
  split; [intros [= <-]; by rewrite rev_str_involutive|].
  intros [= ->]. by rewrite rev_str_involutive.
Qed.

Lemma ends_with_app p s : ends_with p (s +:+ p) = true.
Proof.
  unfold ends_with, starts_with. rewrite rev_str_app.
  by rewrite (proj2 (strip_prefix_Some _ _ (rev_str s))).
Qed.

Lemma length_append s t : String.length (s +:+ t) = (String.length s + String.length t)%nat.
Proof. induction s as [|c s IH]; [done|]. rewrite append_cons. cbn. by rewrite IH. Qed.

(** ** Pieces between separators *)

Lemma split_sep c s t : contains_byte c s = false → split c (s +:+ String c t) = s :: split c t.
Proof.
  unfold split. induction s as [|d s IH]; cbn [contains_byte].
  - intros _. change (EmptyString +:+ String c t) with (String c t). cbn [split_by]. rewrite ascii_eqb_refl.
    destruct (split_by (ascii_eqb c) t) eqn:E; [by destruct (split_by_nonempty (ascii_eqb c) t)|done].
  - intros [Hd Hs]%orb_false_iff. rewrite append_cons. cbn. rewrite (IH Hs).
    assert (ascii_eqb c d = false) as -> by (apply ascii_eqb_neq; intros ->; by rewrite ascii_eqb_refl in Hd). done.
Qed.

Lemma split_single c s : contains_byte c s = false → split c s = [s].
Proof.
  unfold split. induction s as [|d s IH]; cbn [contains_byte]; [done|]. intros [Hd Hs]%orb_false_iff. cbn. rewrite (IH Hs).
  assert (ascii_eqb c d = false) as -> by (apply ascii_eqb_neq; intros ->; by rewrite ascii_eqb_refl in Hd). done.
Qed.

Lemma split_join c l : l ≠ [] → Forall (λ s, contains_byte c s = false) l → split c (join c l) = l.
Proof.
  induction l as [|s [|t l] IH]; intros Hne Hl; [done|by apply split_single; inversion Hl|].
  inversion Hl as [|? ? Hs Ht]; subst. change (join c (s :: t :: l)) with (s +:+ String c (join c (t :: l))).
  by rewrite split_sep, IH.
Qed.

(** ** Bytes and text *)

Lemma string_of_bytes_of s : string_of_bytes (bytes_of s) = s.
Proof.
  induction s as [|c s IH]; [done|].
  change (String (ascii_of_N (N_of_ascii c)) (string_of_bytes (bytes_of s)) = String c s). by rewrite ascii_N_embedding, IH.
Qed.

(** ASCII is UTF-8. *)
Lemma from_utf8_ascii s : all_bytes (in_range 0 127) s = true → from_utf8 (bytes_of s) = Some s.
Proof.
  intros H. unfold from_utf8. rewrite string_of_bytes_of.
  assert (Hv : utf8_valid (length (bytes_of s)) (bytes_of s) = true); [|by rewrite Hv].
  induction s as [|c s IH]; [done|]. cbn [all_bytes] in H. apply andb_true_iff in H as [Hc Hs].
  cbn [bytes_of length utf8_valid]. unfold utf8_char. unfold in_range in Hc. apply andb_true_iff in Hc as [_ Hc%N.leb_le].
  destruct (N.ltb_spec (byte_of c) 128) as [_|Hge]; [by apply IH|lia].
Qed.
