(* ===== verification/Version.v ===== *)
(** * Versions: parsing, identity and SemVer precedence

    The model of [fleet_core::version]: [parse] takes a version string apart, [identity] and
    [same_release] answer which release it names, and [precedence] orders two of them. The
    self-update's anti-downgrade check, the high-water marks and the floors all rest on the order, so
    the theorems here show that it is one. *)

From S2P Require Import Prelude RustStr.

Open Scope string_scope.
Open Scope char_scope.

(** A version taken apart. *)
Record Version := mkVersion {
  base : string;
  prerelease : option string;
  build : option string;
  version_identity : string;
}.

#[export] Instance Version_eq_dec : EqDecision Version.
Proof. solve_decision. Defined.

Definition is_identifier_byte (b : ascii) : bool := is_ascii_alphanumeric b || ascii_eqb b "-".

(** One or more dot-separated, non-empty identifiers. *)
Definition is_dot_identifiers (field : string) : bool :=
  forallb (λ id, negb (is_empty id) && all_bytes is_identifier_byte id) (split "." field).

(** The checks the loop of [parse] makes on one component of the base. *)
Definition component_ok (component : string) : bool :=
  if is_empty component || negb (all_bytes is_ascii_digit component) then false
  else if (1 <? String.length component)%nat && starts_with_char "0" component then false
  else true.

(** [for _ in 0..n { components.next()? ... }]: the components left, or [None]. *)
Fixpoint take_components (n : nat) (components : list string) : option (list string) :=
  match n with
  | O => Some components
  | S n =>
      match components with
      | [] => None
      | component :: rest => if component_ok component then take_components n rest else None
      end
  end.

Definition parse (raw : string) : option Version :=
  match (match split_once "+" raw with
         | Some (l, r) => if is_empty r then None else Some (l, Some r)
         | None => Some (raw, None)
         end) with
  | None => None
  | Some (without_build, build) =>
      match (match split_once "-" without_build with
             | Some (l, r) => if is_empty r then None else Some (l, Some r)
             | None => Some (without_build, None)
             end) with
      | None => None
      | Some (base, prerelease) =>
          match take_components 3 (split "." base) with
          | Some [] =>
              if match prerelease with Some pre => negb (is_dot_identifiers pre) | None => false end
                 || match build with Some meta => negb (is_dot_identifiers meta) | None => false end
              then None
              else Some (mkVersion base prerelease build without_build)
          | _ => None
          end
      end
  end.

Definition MAX_SEMVER_LEN : nat := 64.

Definition leading_zero (id : string) : bool :=
  (1 <? String.length id)%nat && starts_with_char "0" id && all_bytes is_ascii_digit id.

Definition is_semver (raw : string) : bool :=
  (String.length raw <=? MAX_SEMVER_LEN)%nat
  && match parse raw with
     | Some version =>
         match prerelease version with
         | None => true
         | Some pre => negb (existsb leading_zero (split "." pre))
         end
     | None => false
     end.

Definition identity (raw : string) : option string := option_map version_identity (parse raw).

Definition same_release (a b : string) : bool :=
  match identity a, identity b with
  | Some a, Some b => bool_decide (a = b)
  | _, _ => false
  end.

(** Digit strings without leading zeros: the longer is the larger. *)
Definition cmp_numeric (a b : string) : comparison :=
  then_with (Nat.compare (String.length a) (String.length b)) (String.compare a b).

Definition is_numeric (id : string) : bool :=
  negb (is_empty id) && all_bytes is_ascii_digit id.

Definition compare_identifier (a b : string) : comparison :=
  match is_numeric a, is_numeric b with
  | true, true => cmp_numeric a b
  | true, false => Lt
  | false, true => Gt
  | false, false => String.compare a b
  end.

(** The loop of [compare_prerelease] over the two [split] iterators. *)
Fixpoint compare_fields (ai bi : list string) : comparison :=
  match ai, bi with
  | [], [] => Eq
  | [], _ :: _ => Lt
  | _ :: _, [] => Gt
  | x :: ai, y :: bi =>
      match compare_identifier x y with
      | Eq => compare_fields ai bi
      | other => other
      end
  end.

Definition compare_prerelease (a b : string) : comparison :=
  compare_fields (split "." a) (split "." b).

(** The loop of [compare] over the zipped base components: [Eq] when none of them decides. *)
Fixpoint compare_base (xs ys : list string) : comparison :=
  match xs, ys with
  | x :: xs, y :: ys =>
      match cmp_numeric x y with
      | Eq => compare_base xs ys
      | other => other
      end
  | _, _ => Eq
  end.

Definition compare (a b : Version) : comparison :=
  match compare_base (split "." (base a)) (split "." (base b)) with
  | Eq =>
      match prerelease a, prerelease b with
      | None, None => Eq
      | None, Some _ => Gt
      | Some _, None => Lt
      | Some x, Some y => compare_prerelease x y
      end
  | other => other
  end.

Definition precedence (a b : string) : option comparison :=
  match parse a, parse b with
  | Some a, Some b => Some (compare a b)
  | _, _ => None
  end.

(** ** The grammar

    [wf_version] is the grammar on the parts and [render] puts the parts together again; [parse]
    accepts exactly the renderings of well-formed parts. *)
Definition field_ok (field : option string) : Prop :=
  match field with
  | Some f => is_dot_identifiers f = true
  | None => True
  end.

Definition with_prefix (c : ascii) (field : option string) : string :=
  match field with
  | Some f => String c f
  | None => EmptyString
  end.

Definition wf_version (v : Version) : Prop :=
  (∃ major minor patch,
      split "." (base v) = [major; minor; patch]
      ∧ Forall (λ c, component_ok c = true) [major; minor; patch])
  ∧ field_ok (prerelease v) ∧ field_ok (build v)
  ∧ version_identity v = base v +:+ with_prefix "-" (prerelease v).

Definition render (v : Version) : string := version_identity v +:+ with_prefix "+" (build v).

Lemma take_components_spec n cs :
  take_components n cs = Some [] ↔ length cs = n ∧ Forall (λ c, component_ok c = true) cs.
Proof.
  revert cs. induction n as [|n IH]; intros [|c cs]; cbn.
  - split; [by repeat constructor|done].
  - split; [done|]. by intros [? _].
  - split; [done|]. by intros [? _].
  - rewrite Forall_cons. destruct (component_ok c); [rewrite IH; naive_solver|naive_solver].
Qed.

Definition base_byte (b : ascii) : bool := is_ascii_digit b || ascii_eqb "." b.
Definition field_byte (b : ascii) : bool := is_identifier_byte b || ascii_eqb "." b.

Lemma component_ok_digits c :
  component_ok c = true → is_empty c = false ∧ all_bytes is_ascii_digit c = true.
Proof.
  unfold component_ok. intros H.
  destruct (is_empty c), (all_bytes is_ascii_digit c); by cbn in H.
Qed.

Lemma base_bytes s :
  Forall (λ c, component_ok c = true) (split "." s) → all_bytes base_byte s = true.
Proof.
  intros H. unfold split in H. apply (all_bytes_split (ascii_eqb ".")).
  { intros c Hc. unfold base_byte. by rewrite Hc, orb_true_r. }
  eapply Forall_impl; [exact H|]. intros c [_ Hc]%component_ok_digits.
  eapply all_bytes_impl, Hc. intros b Hb. unfold base_byte. by rewrite Hb.
Qed.

Lemma field_bytes s : is_dot_identifiers s = true → all_bytes field_byte s = true.
Proof.
  intros H. unfold is_dot_identifiers, split in H. rewrite forallb_forall in H.
  apply (all_bytes_split (ascii_eqb ".")).
  { intros c Hc. unfold field_byte. by rewrite Hc, orb_true_r. }
  apply Forall_forall. intros id Hid%list_elem_of_In%H.
  apply andb_true_iff in Hid as [_ Hid].
  eapply all_bytes_impl, Hid. intros b Hb. unfold field_byte. by rewrite Hb.
Qed.

Lemma dot_identifiers_nonempty s : is_dot_identifiers s = true → is_empty s = false.
Proof. by destruct s. Qed.

Lemma base_no_byte v c :
  wf_version v → base_byte c = false → contains_byte c (base v) = false.
Proof.
  intros [(x & y & z & Hs & Hok) _] Hc. eapply all_bytes_not_contains, Hc.
  apply base_bytes. by rewrite Hs.
Qed.

Lemma identity_no_plus v : wf_version v → contains_byte "+" (version_identity v) = false.
Proof.
  intros Hwf. pose proof Hwf as (_ & Hpre & _ & ->).
  rewrite contains_byte_app, (base_no_byte v "+" Hwf) by done.
  destruct (prerelease v) as [pre|]; [|done]. cbn in *.
  apply (all_bytes_not_contains field_byte); [by apply field_bytes|done].
Qed.

(** One half of a [split_once] with the check that the right side is not empty, on a rendering. *)
Lemma split_field c l field :
  contains_byte c l = false → field_ok field →
  match split_once c (l +:+ with_prefix c field) with
  | Some (l', r) => if is_empty r then None else Some (l', Some r)
  | None => Some (l +:+ with_prefix c field, None)
  end = Some (l, field).
Proof.
  intros Hl Hf. destruct field as [f|]; cbn.
  - rewrite (proj2 (split_once_Some c _ l f)) by done.
    by rewrite (dot_identifiers_nonempty f Hf).
  - rewrite append_nil_r. by rewrite (proj2 (split_once_None c l)).
Qed.

Lemma split_field_inv c s l field :
  match split_once c s with
  | Some (l', r) => if is_empty r then None else Some (l', Some r)
  | None => Some (s, None)
  end = Some (l, field) → s = l +:+ with_prefix c field.
Proof.
  destruct (split_once c s) as [[l' r]|] eqn:E.
  - apply split_once_Some in E as [-> _]. destruct (is_empty r); naive_solver.
  - intros [= <- <-]. by rewrite append_nil_r.
Qed.

Lemma parse_render v : wf_version v → parse (render v) = Some v.
Proof.
  intros Hwf. pose proof (identity_no_plus v Hwf) as Hplus.
  pose proof (base_no_byte v "-" Hwf eq_refl) as Hminus.
  destruct v as [b pre bld ident], Hwf as ((x & y & z & Hs & Hok) & Hpre & Hbld & Hid).
  unfold parse, render. cbn [base prerelease build version_identity] in *.
  rewrite split_field by done. rewrite Hid, split_field by done. rewrite Hs.
  rewrite (proj2 (take_components_spec 3 [x; y; z])) by done.
  destruct pre as [pre|], bld as [bld|]; cbn in Hpre, Hbld; by rewrite ?Hpre, ?Hbld.
Qed.

Lemma parse_wf raw v : parse raw = Some v → wf_version v ∧ raw = render v.
Proof.
  unfold parse, wf_version, render. intros H.
  match type of H with match ?m with _ => _ end = _ => destruct m as [[wb bld]|] eqn:E1; [|done] end.
  apply split_field_inv in E1 as ->.
  match type of H with match ?m with _ => _ end = _ => destruct m as [[b pre]|] eqn:E2; [|done] end.
  apply split_field_inv in E2 as ->.
  destruct (take_components 3 (split "." b)) as [[|]|] eqn:E3; [|done..].
  apply take_components_spec in E3 as [Hlen Hok].
  destruct (split "." b) as [|x [|y [|z [|]]]] eqn:Eb; [done..| |done].
  case_match eqn:Ef; [done|]. simplify_eq/=. apply orb_false_iff in Ef as [Hp Hb].
  split; [|done]. split; [naive_solver|].
  destruct pre, bld; cbn; rewrite ?negb_false_iff in *; done.
Qed.

(** ** The order *)

Lemma cmp_numeric_order : CmpOrder cmp_numeric.
Proof. apply (then_with_order String.length (λ s, s) Nat.compare String.compare). by intros. Qed.
#[export] Existing Instance cmp_numeric_order.

#[export] Instance compare_identifier_order : CmpOrder compare_identifier.
Proof.
  unfold compare_identifier. split.
  - intros x y. destruct (is_numeric x) eqn:Ex, (is_numeric y) eqn:Ey;
      first [apply cmp_eq | split; [done|congruence]].
  - intros x y. destruct (is_numeric x), (is_numeric y); cbn; try done; apply cmp_sym.
  - intros x y z. destruct (is_numeric x), (is_numeric y), (is_numeric z); try done; apply cmp_trans.
Qed.

Lemma compare_fields_lex ai bi : compare_fields ai bi = lex_compare compare_identifier ai bi.
Proof.
  revert bi. induction ai as [|x ai IH]; intros [|y bi]; cbn; [done..|].
  rewrite IH. by destruct (compare_identifier x y).
Qed.

Lemma compare_base_lex xs ys :
  length xs = length ys → compare_base xs ys = lex_compare cmp_numeric xs ys.
Proof.
  revert ys. induction xs as [|x xs IH]; intros [|y ys]; cbn; intros H; [done..|].
  rewrite IH by lia. by destruct (cmp_numeric x y).
Qed.

(** What [compare] looks at: the components of the base and the fields of the pre-release. *)
Definition order_key (v : Version) : list string * option (list string) :=
  (split "." (base v), split "." <$> prerelease v).

Definition key_compare (k l : list string * option (list string)) : comparison :=
  then_with (lex_compare cmp_numeric k.1 l.1)
    (none_last_compare (lex_compare compare_identifier) k.2 l.2).

Lemma key_compare_order : CmpOrder key_compare.
Proof.
  apply (then_with_order fst snd (lex_compare cmp_numeric)
    (none_last_compare (lex_compare compare_identifier))).
  intros [] []; naive_solver.
Qed.
#[export] Existing Instance key_compare_order.

Lemma compare_key a b :
  wf_version a → wf_version b → compare a b = key_compare (order_key a) (order_key b).
Proof.
  intros [(x & y & z & Ha & _) _] [(x' & y' & z' & Hb & _) _].
  unfold compare, key_compare, order_key, compare_prerelease. cbn [fst snd].
  rewrite compare_base_lex by by rewrite Ha, Hb.
  destruct (lex_compare _ _ _); [|done..].
  destruct (prerelease a), (prerelease b); cbn; [apply compare_fields_lex|done..].
Qed.

Lemma order_key_identity a b :
  wf_version a → wf_version b →
  order_key a = order_key b ↔ version_identity a = version_identity b.
Proof.
  intros Ha Hb. pose proof (base_no_byte a "-" Ha eq_refl). pose proof (base_no_byte b "-" Hb eq_refl).
  pose proof Ha as (_ & Hpa & _ & ->). pose proof Hb as (_ & Hpb & _ & ->).
  unfold order_key. split.
  - intros [= Hs Hp]. apply split_inj in Hs as ->.
    destruct (prerelease a), (prerelease b); cbn in Hp; simplify_eq; [|done].
    cbn. f_equal. f_equal. by eapply split_inj.
  - intros Heq.
    pose proof (split_field "-" (base a) (prerelease a) ltac:(done) Hpa) as Ea.
    pose proof (split_field "-" (base b) (prerelease b) ltac:(done) Hpb) as Eb.
    rewrite Heq, Eb in Ea. by injection Ea as -> ->.
Qed.

Lemma parse_pair a b va vb :
  parse a = Some va → parse b = Some vb → precedence a b = Some (key_compare (order_key va) (order_key vb)).
Proof.
  unfold precedence. intros Ha Hb. rewrite Ha, Hb. f_equal.
  apply compare_key; by eapply parse_wf.
Qed.

(** ** Decimal values *)

Definition digit (c : ascii) : N := byte_of c - 48.

Fixpoint decimal (s : string) : N :=
  match s with
  | EmptyString => 0
  | String c s => digit c * 10 ^ N.of_nat (String.length s) + decimal s
  end.

Lemma digit_lt c : is_ascii_digit c = true → (digit c < 10)%N ∧ (48 <= byte_of c)%N.
Proof.
  unfold is_ascii_digit, in_range, digit. rewrite andb_true_iff, !N.leb_le. lia.
Qed.

Lemma decimal_lt s :
  all_bytes is_ascii_digit s = true → (decimal s < 10 ^ N.of_nat (String.length s))%N.
Proof.
  induction s as [|c s IH]; [done|]. cbn [all_bytes decimal String.length].
  intros [[Hc _]%digit_lt Hs%IH]%andb_true_iff.
  rewrite Nat2N.inj_succ, N.pow_succ_r'. nia.
Qed.

Lemma decimal_ge c s :
  is_ascii_digit c = true → c ≠ "0" → (10 ^ N.of_nat (String.length s) <= decimal (String c s))%N.
Proof.
  intros [Hc Hb]%digit_lt Hne. cbn [decimal].
  enough (1 <= digit c)%N by nia. unfold digit in *.
  enough (byte_of c ≠ 48%N) by lia. intros H. apply Hne.
  rewrite <- (ascii_N_embedding c). unfold byte_of in H. by rewrite H.
Qed.

Lemma decimal_compare_same_length a b :
  all_bytes is_ascii_digit a = true → all_bytes is_ascii_digit b = true →
  String.length a = String.length b → String.compare a b = (decimal a ?= decimal b)%N.
Proof.
  revert b. induction a as [|c a IH]; intros [|d b]; [done..|].
  cbn [all_bytes String.length String.compare decimal].
  intros [[Hc Hc']%digit_lt Ha]%andb_true_iff [[Hd Hd']%digit_lt Hb]%andb_true_iff [= Hlen].
  pose proof (decimal_lt a Ha). pose proof (decimal_lt b Hb).
  rewrite <- Hlen in *. rewrite (IH b Ha Hb Hlen). clear IH.
  set (p := (10 ^ N.of_nat (String.length a))%N) in *.
  unfold Ascii.compare. unfold digit, byte_of in *.
  destruct (N.compare_spec (N_of_ascii c) (N_of_ascii d)) as [E|E|E].
  - rewrite E. destruct (N.compare_spec (decimal a) (decimal b)) as [F|F|F]; symmetry;
      [apply N.compare_eq_iff|apply N.compare_lt_iff|apply N.compare_gt_iff]; lia.
  - symmetry. apply N.compare_lt_iff. nia.
  - symmetry. apply N.compare_gt_iff. nia.
Qed.

Lemma decimal_shorter a b :
  component_ok a = true → component_ok b = true →
  (String.length a < String.length b)%nat → (decimal a < decimal b)%N.
Proof.
  intros Ha Hb Hlen. pose proof (component_ok_digits a Ha) as [Hae Had].
  pose proof (component_ok_digits b Hb) as [Hbe Hbd].
  apply decimal_lt in Had. destruct a as [|c a]; [done|]. destruct b as [|d [|e b]]; [done|cbn in *; lia|].
  cbn [all_bytes] in Hbd. apply andb_true_iff in Hbd as [Hd _].
  assert (d ≠ "0") as Hne. { intros ->. unfold component_ok in Hb. by destruct (_ || _). }
  pose proof (decimal_ge d (String e b) Hd Hne).
  eapply N.lt_le_trans; [exact Had|]. etrans; [|exact H].
  apply N.pow_le_mono_r; [done|]. cbn in *. lia.
Qed.

(** ** Properties *)

(** C7: [parse] accepts exactly the strings [base[-pre][+build]] whose base has three numeric
    components without leading zeros and whose pre-release and build are dot-separated non-empty
    identifiers, and what it returns are the parts of that string: printing the parts gives the
    input back, and every well-formed version parses to its own parts. *)
Theorem parse_spec raw v : parse raw = Some v ↔ wf_version v ∧ raw = render v.
Proof. split; [apply parse_wf|]. intros [Hwf ->]. by apply parse_render. Qed.

(** The order of versions is one: a version is [Equal] to itself, swapping the two sides
    reverses the answer, [Less] is transitive, and two versions are [Equal] exactly when they name
    the same release, that is when they differ in their build metadata alone. *)
Theorem precedence_order a b c :
  is_Some (parse a) → is_Some (parse b) → is_Some (parse c) →
  precedence a a = Some Eq
  ∧ precedence b a = option_map CompOpp (precedence a b)
  ∧ (precedence a b = Some Lt → precedence b c = Some Lt → precedence a c = Some Lt)
  ∧ (precedence a b = Some Eq ↔ same_release a b = true).
Proof.
  intros [va Ha] [vb Hb] [vc Hc].
  rewrite (parse_pair a a va va), (parse_pair b a vb va), (parse_pair a b va vb),
    (parse_pair b c vb vc), (parse_pair a c va vc) by done.
  split; [by rewrite (cmp_refl key_compare)|].
  split; [cbn; f_equal; apply (cmp_sym (cmp := key_compare))|].
  split; [intros [= ?] [= ?]; f_equal; by eapply (cmp_trans (cmp := key_compare))|].
  unfold same_release, identity. rewrite Ha, Hb. cbn.
  rewrite bool_decide_eq_true, <- order_key_identity by by eapply parse_wf.
  rewrite <- (cmp_eq (cmp := key_compare)). split; [by intros [= ?]|by intros ->].
Qed.

Lemma precedence_order_witness :
  is_Some (parse "1.0.0-rc.1") ∧ precedence "1.0.0-rc.1" "1.0.0" = Some Lt
  ∧ (precedence "1.0.0-rc.1" "1.0.0+b" = Some Eq ↔ same_release "1.0.0-rc.1" "1.0.0+b" = true).
Proof.
  split; [eexists; reflexivity|]. split; [reflexivity|].
  apply (precedence_order "1.0.0-rc.1" "1.0.0+b" "2.0.0"); eexists; reflexivity.
Defined.

(** The comparison that never parses an integer agrees with the integers: on components as
    [parse] accepts them, [cmp_numeric] is the comparison of their decimal values, whatever their
    length, so nothing can overflow. *)
Theorem cmp_numeric_value a b :
  component_ok a = true → component_ok b = true → cmp_numeric a b = (decimal a ?= decimal b)%N.
Proof.
  intros Ha Hb. unfold cmp_numeric.
  destruct (Nat.compare_spec (String.length a) (String.length b)) as [E|E|E]; cbn.
  - apply decimal_compare_same_length; [by apply component_ok_digits..|done].
  - symmetry. by apply N.compare_lt_iff, decimal_shorter.
  - symmetry. by apply N.compare_gt_iff, decimal_shorter.
Qed.

Lemma cmp_numeric_value_witness :
  component_ok "9" = true ∧ component_ok "123456789012345678901234567890" = true
  ∧ cmp_numeric "9" "123456789012345678901234567890"
    = (decimal "9" ?= decimal "123456789012345678901234567890")%N.
Proof. split; [reflexivity|]. split; [reflexivity|]. apply cmp_numeric_value; reflexivity. Defined.

(** A version is a safe directory name: what [parse] accepts holds only letters, digits, [-],
    [.] and [+], starts with a digit, and so has no path separator and is neither [.] nor [..]. *)
Theorem parsed_version_path_safe raw v :
  parse raw = Some v →
  all_bytes (λ c, field_byte c || ascii_eqb c "+") raw = true
  ∧ contains_byte "/" raw = false ∧ contains_byte "\" raw = false
  ∧ raw ≠ "."%string ∧ raw ≠ ".."%string ∧ raw ≠ ""%string.
Proof.
  intros [Hwf ->]%parse_wf.
  assert (all_bytes (λ c, field_byte c || ascii_eqb c "+") (render v) = true) as Hall.
  { unfold render. pose proof Hwf as ((x & y & z & Hs & Hok) & Hpre & Hbld & ->).
    rewrite !all_bytes_app, !andb_true_iff.
    assert (∀ o c, (c = "-" ∨ c = "+") → field_ok o →
      all_bytes (λ c, field_byte c || ascii_eqb c "+") (with_prefix c o) = true) as Hfield.
    { intros [f|] c Hc Hf; [|done]. cbn in *. rewrite andb_true_iff. split; [by destruct Hc as [->| ->]|].
      eapply all_bytes_impl, field_bytes, Hf. by intros b ->. }
    repeat split; auto.
    assert (all_bytes base_byte (base v) = true) as Hb by (apply base_bytes; by rewrite Hs).
    eapply all_bytes_impl, Hb. intros b. unfold base_byte, field_byte, is_identifier_byte, is_ascii_alphanumeric.
    destruct (is_ascii_digit b), (ascii_eqb "." b); cbn; rewrite ?orb_true_r; done. }
  split; [done|]. split; [by eapply all_bytes_not_contains|]. split; [by eapply all_bytes_not_contains|].
  pose proof (parse_render v Hwf) as Hp.
  repeat split; intros Hraw; rewrite Hraw in Hp; discriminate.
Qed.

Lemma parsed_version_path_safe_witness :
  contains_byte "/" "1.2.3-dev+a1b2c3d" = false ∧ is_Some (parse "1.2.3-dev+a1b2c3d").
Proof.
  split; [|eexists; reflexivity].
  eapply (parsed_version_path_safe "1.2.3-dev+a1b2c3d"). reflexivity.
Defined.

Lemma precedence_refl v : is_Some (parse v) → precedence v v = Some Eq.
Proof.
  intros [ver Hv]. rewrite (parse_pair _ _ _ _ Hv Hv). by rewrite (cmp_refl key_compare).
Qed.

Lemma semver_parses v : is_semver v = true → is_Some (parse v).
Proof. unfold is_semver. rewrite andb_true_iff. intros [_ H]. by destruct (parse v). Qed.

Lemma precedence_parses a b c : precedence a b = Some c → is_Some (parse a).
Proof. unfold precedence. destruct (parse a); [eauto|done]. Qed.

(** ** SemVer precedence, by value

    Clause 11 of Semantic Versioning: the three numbers decide first, a pre-release orders below its
    release, and two pre-releases are ordered by their identifiers from the left — numbers by value
    and below every other identifier, the others by their bytes, and a prefix first. *)

Definition semver_identifier (a b : string) : comparison :=
  match is_numeric a, is_numeric b with
  | true, true => (decimal a ?= decimal b)%N
  | true, false => Lt
  | false, true => Gt
  | false, false => String.compare a b
  end.

Definition semver_precedence (a b : Version) : comparison :=
  then_with
    (lex_compare N.compare (decimal <$> split "." (base a)) (decimal <$> split "." (base b)))
    match prerelease a, prerelease b with
    | None, None => Eq
    | None, Some _ => Gt
    | Some _, None => Lt
    | Some x, Some y => lex_compare semver_identifier (split "." x) (split "." y)
    end.

Lemma numeric_component id : is_numeric id = true → leading_zero id = false → component_ok id = true.
Proof.
  unfold is_numeric, leading_zero, component_ok. intros [He Hd]%andb_true_iff. rewrite Hd.
  rewrite andb_true_r. intros ->. apply negb_true_iff in He. by rewrite He.
Qed.

Lemma lex_compare_ext {A} (f g : A → A → comparison) l l' :
  (∀ x y, x ∈ l → y ∈ l' → f x y = g x y) → lex_compare f l l' = lex_compare g l l'.
Proof.
  revert l'. induction l as [|x l IH]; intros [|y l'] H; [done..|]. cbn.
  rewrite (H x y (list_elem_of_here _ _) (list_elem_of_here _ _)).
  rewrite (IH l'); [done|]. intros a b Ha Hb. apply H; by right.
Qed.

Lemma lex_compare_fmap {A B} (f : B → B → comparison) (g : A → B) l l' :
  lex_compare f (g <$> l) (g <$> l') = lex_compare (λ x y, f (g x) (g y)) l l'.
Proof. revert l'. induction l as [|x l IH]; intros [|y l']; cbn; [done..|]. by rewrite IH. Qed.

Lemma semver_identifier_agrees a b :
  leading_zero a = false → leading_zero b = false → compare_identifier a b = semver_identifier a b.
Proof.
  intros Ha Hb. unfold compare_identifier, semver_identifier.
  destruct (is_numeric a) eqn:Ea, (is_numeric b) eqn:Eb; try done.
  apply cmp_numeric_value; by apply numeric_component.
Qed.

(** On the versions a Package may have, the order is SemVer's: what [is_semver] accepts is ordered
    exactly as clause 11 says, by the values of the numbers however long they are — though the code
    never reads a number. *)
Theorem precedence_is_semver (a b : string) (va vb : Version) :
  is_semver a = true → is_semver b = true → parse a = Some va → parse b = Some vb →
  precedence a b = Some (semver_precedence va vb).
Proof.
  unfold is_semver. intros [_ Ha]%andb_true_iff [_ Hb]%andb_true_iff Hva Hvb.
  rewrite Hva in Ha. rewrite Hvb in Hb. unfold precedence. rewrite Hva, Hvb. f_equal.
  destruct (parse_wf _ _ Hva) as [Hwa _], (parse_wf _ _ Hvb) as [Hwb _].
  rewrite compare_key by done. unfold key_compare, order_key, semver_precedence. cbn [fst snd].
  rewrite lex_compare_fmap.
  rewrite (lex_compare_ext cmp_numeric (λ x y, decimal x ?= decimal y)%N); cycle 1.
  { destruct Hwa as [(x & y & z & -> & Hx) _], Hwb as [(x' & y' & z' & -> & Hy) _].
    rewrite Forall_forall in Hx, Hy. intros c d Hc Hd. apply cmp_numeric_value; auto. }
  f_equal. destruct (prerelease va) as [pa|], (prerelease vb) as [pb|]; cbn; [|done..].
  apply lex_compare_ext. intros x y Hx Hy.
  assert (Hzero : ∀ id l, id ∈ l → negb (existsb leading_zero l) = true → leading_zero id = false).
  { intros id l Hin Hl. destruct (leading_zero id) eqn:E; [|done]. apply negb_true_iff in Hl.
    rewrite <- Hl. symmetry. apply existsb_exists. exists id. split; [by apply list_elem_of_In|done]. }
  apply semver_identifier_agrees; eauto.
Qed.

Lemma precedence_is_semver_witness :
  precedence "1.10.0-rc.2" "1.10.0-rc.10"
  = Some (semver_precedence (mkVersion "1.10.0" (Some "rc.2"%string) None "1.10.0-rc.2")
            (mkVersion "1.10.0" (Some "rc.10"%string) None "1.10.0-rc.10"))
  ∧ precedence "1.10.0-rc.2" "1.10.0-rc.10" = Some Lt.
Proof.
  split; [|vm_compute; reflexivity].
  apply precedence_is_semver; vm_compute; reflexivity.
Defined.
