(* ===== verification/Rate.v ===== *)
(** * Token buckets

    The model of [fleet_core::rate]: the bounded tables of token buckets the Server and a Gateway
    count a sender in. A table is the [HashMap] of the buckets and the [BTreeMap] of the order of
    use; [level] is the one operation that changes both. [None] is the panic of [tick += 1] at
    [u64::MAX]. *)

From S2P Require Import Prelude.

Open Scope N_scope.

(** ** Peer addresses *)

(** [IpAddr]: an address as its 32 or 128 bits. *)
Inductive IpAddr :=
| V4 (bits : N)
| V6 (bits : N).

#[export] Instance IpAddr_eq_dec : EqDecision IpAddr.
Proof. solve_decision. Defined.
#[export] Instance IpAddr_countable : Countable IpAddr.
Proof.
  refine (inj_countable'
    (λ a, match a with V4 b => inl b | V6 b => inr b end)
    (λ s, match s with inl b => V4 b | inr b => V6 b end) _). by intros [].
Defined.

(** [Ipv6Addr::to_ipv4_mapped]: the segments are [0, 0, 0, 0, 0, 0xffff, ab, cd]. *)
Definition to_ipv4_mapped (bits : N) : option N :=
  if N.shiftr bits 32 =? 65535 then Some (bits mod 2 ^ 32) else None.

Definition peer_key (peer : IpAddr) : IpAddr :=
  match peer with
  | V6 v6 =>
      match to_ipv4_mapped v6 with
      | Some v4 => V4 v4
      | None => V6 (N.shiftl (N.shiftr v6 64) 64)
      end
  | V4 _ => peer
  end.

(** ** Tables *)

Definition TOKEN : N := 1000.

Record Level := mkLevel {
  milli : N;
  at_ms : N;
  used : N;
}.

Record Table (K : Type) `{Countable K} := mkTable {
  capacity : nat;
  tick : N;
  buckets : gmap K Level;
  order : gmap N K;
}.
Arguments mkTable {_ _ _}.
Arguments capacity {_ _ _}.
Arguments tick {_ _ _}.
Arguments buckets {_ _ _}.
Arguments order {_ _ _}.

(** The entry of the least key of a [BTreeMap<u64, _>]. *)
Definition first_entry {A} (m : gmap N A) : option (N * A) :=
  map_fold (λ n a acc,
    match acc with
    | Some (n', _) => if n <? n' then Some (n, a) else acc
    | None => Some (n, a)
    end) None m.

Section table.
Context {K : Type} `{Countable K}.
Implicit Types (t : Table K) (k : K).

Definition new (cap : nat) : Table K := mkTable (Nat.max cap 1) 0 ∅ ∅.

(** The entry [level] forgets first when the key is new and the table full. *)
Definition make_room (key : K) t : Table K :=
  if bool_decide (buckets t !! key = None) && (capacity t <=? size (buckets t))%nat
  then match first_entry (order t) with
       | Some (n, oldest) =>
           mkTable (capacity t) (tick t) (delete oldest (buckets t)) (delete n (order t))
       | None => t
       end
  else t.

Definition level (key : K) (rate burst now_ms : N) t : option (Table K * N) :=
  let full := burst * TOKEN in
  let t := make_room key t in
  tk ← checked_add u64_max (tick t) 1;
  let lvl := default (mkLevel full now_ms tk) (buckets t !! key) in
  let gained := saturating_mul u64_max (saturating_sub now_ms (at_ms lvl)) rate in
  let lvl' := mkLevel (N.min (saturating_add u64_max (milli lvl) gained) full)
                      (N.max (at_ms lvl) now_ms) tk in
  Some (mkTable (capacity t) tk (<[key := lvl']> (buckets t))
                (<[tk := key]> (delete (used lvl) (order t))),
        milli lvl').

Definition spend (key : K) t : Table K :=
  match buckets t !! key with
  | Some l =>
      mkTable (capacity t) (tick t)
        (<[key := mkLevel (saturating_sub (milli l) TOKEN) (at_ms l) (used l)]> (buckets t))
        (order t)
  | None => t
  end.

Definition take (key : K) (rate burst now_ms : N) t : option (Table K * bool) :=
  '(t, lvl) ← level key rate burst now_ms t;
  if lvl <? TOKEN then Some (t, false) else Some (spend key t, true).

Definition len t : nat := size (buckets t).

(** ** The least entry *)

Lemma first_entry_None {A} (m : gmap N A) : first_entry m = None ↔ m = ∅.
Proof.
  unfold first_entry. split; [|by intros ->].
  induction m as [|n a m Hn Hfold IH] using map_first_key_ind; [done|].
  rewrite map_fold_insert_first_key by done. intros Hf. exfalso. revert Hf.
  destruct (map_fold _ None m) as [[n' a']|]; [|done]. by destruct (n <? n').
Qed.

Lemma first_entry_Some {A} (m : gmap N A) n a :
  first_entry m = Some (n, a) → m !! n = Some a ∧ ∀ n' a', m !! n' = Some a' → n <= n'.
Proof.
  unfold first_entry. revert n a.
  induction m as [|n0 a0 m Hn Hfold IH] using map_first_key_ind; intros n a; [done|].
  rewrite map_fold_insert_first_key by done.
  set (acc := map_fold _ None m) in *.
  assert (∀ n' a', m !! n' = Some a' → ∃ p, acc = Some p) as Hne.
  { intros n' a' Hm. destruct acc eqn:E; [eauto|]. exfalso.
    assert (m = ∅) as -> by by apply first_entry_None. done. }
  destruct acc as [[n1 a1]|]; [destruct (IH _ _ eq_refl) as [H1 H2]|].
  - destruct (N.ltb_spec n0 n1); intros [= <- <-]; split_and!.
    + by rewrite lookup_insert_eq.
    + intros n' a' [[<- <-]|[? Hm]]%lookup_insert_Some; [done|]. specialize (H2 _ _ Hm). lia.
    + rewrite lookup_insert_ne; [done|]. intros ->. congruence.
    + intros n' a' [[<- <-]|[? Hm]]%lookup_insert_Some; [done|]. by eapply H2.
  - intros [= <- <-]. rewrite lookup_insert_eq. split; [done|].
    intros n' a' [[<- <-]|[? Hm]]%lookup_insert_Some; [done|].
    by destruct (Hne _ _ Hm).
Qed.

(** ** The invariant of a table

    The order of use names exactly the buckets, each at the tick it was last used at, and there
    are never more of them than [capacity]. *)
Record wf t : Prop := {
  wf_capacity : (1 <= capacity t)%nat;
  wf_size : (size (buckets t) <= capacity t)%nat;
  wf_used k l : buckets t !! k = Some l → order t !! used l = Some k;
  wf_order n k : order t !! n = Some k → ∃ l, buckets t !! k = Some l ∧ used l = n;
  wf_tick n k : order t !! n = Some k → n <= tick t;
}.

Lemma wf_new cap : wf (new cap).
Proof. split; cbn; try done; [lia|]. rewrite map_size_empty. lia. Qed.

Lemma wf_used_inj t k k' l l' :
  wf t → buckets t !! k = Some l → buckets t !! k' = Some l' → used l = used l' → k = k'.
Proof. intros Hwf Hk%(wf_used _ Hwf) Hk'%(wf_used _ Hwf) E. congruence. Qed.

Lemma size_pos {A} (m : gmap K A) : (0 < size m)%nat → ∃ k a, m !! k = Some a.
Proof.
  intros Hs. destruct (map_choose m) as (k & a & Hm); [|by eauto].
  intros ->. rewrite map_size_empty in Hs. lia.
Qed.

(** What [make_room] leaves: every bucket but one, and room for [key]. *)
Lemma make_room_spec key t :
  wf t →
  wf (make_room key t)
  ∧ capacity (make_room key t) = capacity t
  ∧ tick (make_room key t) = tick t
  ∧ (buckets (make_room key t) !! key = None → (size (buckets (make_room key t)) < capacity t)%nat)
  ∧ buckets (make_room key t) !! key = buckets t !! key.
Proof.
  intros Hwf. unfold make_room.
  destruct (bool_decide_reflect (buckets t !! key = None)) as [Hk|Hk]; cbn; [|done].
  destruct (Nat.leb_spec (capacity t) (size (buckets t))) as [Hc|Hc]; [|done].
  destruct (first_entry (order t)) as [[n oldest]|] eqn:E.
  2:{ exfalso. apply first_entry_None in E.
      destruct (size_pos (buckets t)) as (k & a & Hka); [pose proof (wf_capacity t Hwf); lia|].
      apply (wf_used _ Hwf) in Hka. by rewrite E in Hka. }
  apply first_entry_Some in E as [Hn _]. destruct (wf_order _ Hwf _ _ Hn) as (l & Hl & Hu).
  split_and!; cbn; [split; cbn|done..| |].
  - apply (wf_capacity t Hwf).
  - rewrite map_size_delete_Some by eauto. pose proof (wf_size t Hwf). lia.
  - intros k l' [Hne Hk']%lookup_delete_Some. rewrite lookup_delete_ne.
    + by apply (wf_used _ Hwf).
    + intros ->. apply (wf_used _ Hwf) in Hk'. congruence.
  - intros n' k [Hne Hn']%lookup_delete_Some. destruct (wf_order _ Hwf _ _ Hn') as (l' & Hl' & Hu').
    exists l'. split; [|done]. rewrite lookup_delete_ne; [done|]. intros ->. congruence.
  - intros n' k [_ Hn']%lookup_delete_Some. by apply (wf_tick _ Hwf) in Hn'.
  - intros _. rewrite map_size_delete_Some by eauto. pose proof (wf_size t Hwf).
    pose proof (wf_capacity t Hwf). lia.
  - rewrite lookup_delete_ne; [done|]. congruence.
Qed.

(** The bucket of [key] as [level] finds it: the one kept, or a full one. *)
Definition bucket_or_full key (burst now_ms : N) t : Level :=
  default (mkLevel (burst * TOKEN) now_ms (tick t + 1)) (buckets t !! key).

(** Tokens after the refill, without the saturation of the machine integers. *)
Definition refilled (l : Level) (rate burst now_ms : N) : N :=
  N.min (milli l + (now_ms - at_ms l) * rate) (burst * TOKEN).

Lemma refill_saturation l rate burst now_ms :
  burst <= u32_max →
  N.min (saturating_add u64_max (milli l)
           (saturating_mul u64_max (saturating_sub now_ms (at_ms l)) rate)) (burst * TOKEN)
  = refilled l rate burst now_ms.
Proof.
  unfold saturating_add, saturating_mul, saturating_sub, refilled, u32_max, u64_max, TOKEN.
  intros Hb. generalize ((now_ms - at_ms l) * rate). intros g. lia.
Qed.

(** [level] on a well-formed table below the last tick. *)
Lemma level_spec key rate burst now_ms t :
  wf t → tick t < u64_max → burst <= u32_max →
  ∃ t', level key rate burst now_ms t
        = Some (t', refilled (bucket_or_full key burst now_ms t) rate burst now_ms)
    ∧ wf t' ∧ capacity t' = capacity t ∧ tick t' = tick t + 1
    ∧ buckets t' = <[key := mkLevel (refilled (bucket_or_full key burst now_ms t) rate burst now_ms)
                                    (N.max (at_ms (bucket_or_full key burst now_ms t)) now_ms)
                                    (tick t + 1)]> (buckets (make_room key t)).
Proof.
  intros Hwf Ht Hb. destruct (make_room_spec key t Hwf) as (Hr & Hcap & Htick & Hroom & Hkey).
  unfold level. rewrite Htick.
  assert (checked_add u64_max (tick t) 1 = Some (tick t + 1)) as -> by (apply checked_add_Some; lia).
  cbn.
  rewrite refill_saturation by done. rewrite Hcap.
  rewrite Hkey.
  change (default _ (buckets t !! key)) with (bucket_or_full key burst now_ms t).
  set (l := bucket_or_full key burst now_ms t).
  eexists. split; [done|]. split_and!; [|done..].
  assert (∀ n k, order (make_room key t) !! n = Some k → k = key → n = used l) as Hl.
  { intros n k Hn ->. destruct (wf_order _ Hr _ _ Hn) as (l' & Hl' & <-).
    rewrite Hkey in Hl'. unfold l, bucket_or_full. by rewrite Hl'. }
  split; cbn.
  - apply (wf_capacity t Hwf).
  - destruct (buckets (make_room key t) !! key) eqn:E.
    + rewrite map_size_insert_Some by eauto. pose proof (wf_size _ Hr). lia.
    + rewrite map_size_insert_None by done. specialize (Hroom eq_refl). lia.
  - intros k l' [[<- <-]|[Hne Hk]]%lookup_insert_Some; cbn; [by rewrite lookup_insert_eq|].
    pose proof (wf_used _ Hr _ _ Hk) as Ho. pose proof (wf_tick _ Hr _ _ Ho).
    rewrite lookup_insert_ne, lookup_delete_ne; [done| |lia].
    intros E. destruct (buckets t !! key) as [lk|] eqn:Ek.
    + apply Hne. assert (l = lk) as El by (unfold l, bucket_or_full; by rewrite Ek).
      eapply (wf_used_inj _ _ _ lk l' Hr); [congruence|done|congruence].
    + unfold l, bucket_or_full in E. rewrite Ek in E. cbn in E. lia.
  - intros n k [[<- <-]|[Hne Hn]]%lookup_insert_Some; [by rewrite lookup_insert_eq; eauto|].
    apply lookup_delete_Some in Hn as [Hnl Hn]. destruct (wf_order _ Hr _ _ Hn) as (l' & Hl' & <-).
    exists l'. split; [|done]. rewrite lookup_insert_ne; [done|]. intros <-.
    by specialize (Hl _ _ Hn eq_refl).
  - intros n k [[<- _]|[_ [_ Hn]%lookup_delete_Some]]%lookup_insert_Some; [done|].
    apply (wf_tick _ Hr) in Hn. lia.
Qed.

Lemma spend_wf key t : wf t → wf (spend key t).
Proof.
  intros Hwf. unfold spend. destruct (buckets t !! key) as [l|] eqn:E; [|done].
  split; cbn; try by apply Hwf.
  - rewrite map_size_insert_Some by eauto. apply Hwf.
  - intros k l' [[<- <-]|[_ Hk]]%lookup_insert_Some; cbn; by apply Hwf.
  - intros n k Hn. destruct (wf_order _ Hwf _ _ Hn) as (l' & Hl' & <-).
    destruct (decide (key = k)) as [->|].
    + rewrite lookup_insert_eq. simplify_eq. by eexists.
    + rewrite lookup_insert_ne by done. eauto.
Qed.

(** The tokens [key]'s bucket holds when a [take] looks at it. *)
Definition found key (rate burst now_ms : N) t : N :=
  refilled (bucket_or_full key burst now_ms t) rate burst now_ms.

(** [take], whole: the table stays well formed, and the bucket of [key] is left with one token
    less exactly when it held one. *)
Lemma take_spec key rate burst now_ms t :
  wf t → tick t < u64_max → burst <= u32_max →
  ∃ t', take key rate burst now_ms t = Some (t', TOKEN <=? found key rate burst now_ms t)
    ∧ wf t' ∧ capacity t' = capacity t ∧ tick t' = tick t + 1
    ∧ buckets t' =
        <[key := mkLevel (if TOKEN <=? found key rate burst now_ms t
                          then found key rate burst now_ms t - TOKEN
                          else found key rate burst now_ms t)
                   (N.max (at_ms (bucket_or_full key burst now_ms t)) now_ms)
                   (tick t + 1)]> (buckets (make_room key t)).
Proof.
  intros Hwf Ht Hb.
  destruct (level_spec key rate burst now_ms t Hwf Ht Hb) as (t' & Hl & Hwf' & Hc & Htk & Hbk).
  unfold take. rewrite Hl. cbn. fold (found key rate burst now_ms t).
  fold (found key rate burst now_ms t) in Hbk.
  rewrite N.ltb_antisym. destruct (TOKEN <=? found key rate burst now_ms t) eqn:E; cbn; [|by eauto 10].
  eexists. split; [done|]. split; [by apply spend_wf|].
  unfold spend. rewrite Hbk, lookup_insert_eq. cbn. by rewrite insert_insert_eq.
Qed.

(** ** Sequences of messages *)

Record call := mkCall {
  c_key : K;
  c_rate : N;
  c_burst : N;
  c_now : N;
}.

(** The calls of [take] one after the other, with what each answered. *)
Fixpoint run (calls : list call) t : option (Table K * list bool) :=
  match calls with
  | [] => Some (t, [])
  | c :: calls =>
      '(t, ok) ← take (c_key c) (c_rate c) (c_burst c) (c_now c) t;
      '(t, oks) ← run calls t;
      Some (t, ok :: oks)
  end.

(** How many of the calls for [k] were granted. *)
Fixpoint granted k (calls : list call) (oks : list bool) : N :=
  match calls, oks with
  | c :: calls, ok :: oks =>
      (if bool_decide (c_key c = k) && ok then 1 else 0) + granted k calls oks
  | _, _ => 0
  end.

Definition keys_of (calls : list call) : gset K := list_to_set (c_key <$> calls).

Lemma make_room_id key t :
  (size (dom (buckets t) ∪ {[key]}) <= capacity t)%nat → make_room key t = t.
Proof.
  intros Hs. unfold make_room. case_bool_decide as Hk; [cbn|done].
  destruct (Nat.leb_spec (capacity t) (size (buckets t))) as [Hc|Hc]; [|done]. exfalso.
  rewrite size_union, size_singleton, size_dom in Hs; [lia|].
  apply not_elem_of_dom in Hk. set_solver.
Qed.

Section one_key.
Context (k : K) (rate burst t0 T : N).

Definition fits (c : call) : Prop :=
  c_burst c <= u32_max
  ∧ (c_key c = k → c_rate c = rate ∧ c_burst c = burst ∧ t0 <= c_now c <= T).

(** What [g] tokens granted since [t0] leave in the bucket, at most; one not asked since is whatever it
    was. *)
Definition potential (g : N) t : Prop :=
  match buckets t !! k with
  | None => g = 0
  | Some l =>
      at_ms l < t0 ∧ g = 0 ∨
      t0 <= at_ms l <= T ∧ TOKEN * g + milli l <= TOKEN * burst + rate * (at_ms l - t0)
  end.

(** The bucket was asked since [t0]. *)
Definition heard t : Prop := ∀ l, buckets t !! k = Some l → t0 <= at_ms l.

Lemma refilled_bound l now g :
  t0 <= at_ms l →
  TOKEN * g + milli l <= TOKEN * burst + rate * (at_ms l - t0) →
  TOKEN * g + refilled l rate burst now
    <= TOKEN * burst + rate * (N.max (at_ms l) now - t0).
Proof.
  intros H0 Hpot. unfold refilled.
  etrans; [apply N.add_le_mono_l, N.le_min_l|].
  destruct (N.le_ge_cases (at_ms l) now).
  - rewrite N.max_r by done. replace (now - t0) with ((at_ms l - t0) + (now - at_ms l)) by lia.
    nia.
  - rewrite N.max_l by done. replace (now - at_ms l) with 0 by lia. lia.
Qed.

Lemma potential_level key r b now g t t' lv :
  b <= u32_max → (key = k → r = rate ∧ b = burst ∧ t0 <= now <= T) →
  wf t → tick t < u64_max → (size (dom (buckets t) ∪ {[key]}) <= capacity t)%nat →
  potential g t → level key r b now t = Some (t', lv) → potential g t' ∧ (key = k → heard t').
Proof.
  intros Hb Hk Hwf Ht Hs Hpot Hl.
  destruct (level_spec key r b now t Hwf Ht Hb) as (t'' & Hl' & _ & _ & _ & Hbk).
  rewrite Hl in Hl'. simplify_eq. rewrite make_room_id in Hbk by done.
  unfold potential, heard in *. rewrite Hbk. destruct (decide (key = k)) as [->|Hne].
  2:{ by rewrite lookup_insert_ne. }
  destruct (Hk eq_refl) as (-> & -> & Hnow). rewrite lookup_insert_eq.
  split; [|intros _ l' [= <-]; cbn; lia]. right. cbn [at_ms milli].
  unfold bucket_or_full. destruct (buckets t !! k) as [l|] eqn:E; cbn.
  - destruct Hpot as [[Hat ->]|[Hat Hpot]].
    + rewrite N.mul_0_r, N.add_0_l. split; [lia|].
      etrans; [apply N.le_min_r|]. rewrite N.mul_comm. apply N.le_add_r.
    + split; [lia|]. apply refilled_bound; [lia|done].
  - subst g. rewrite N.max_id, N.mul_0_r, N.add_0_l. split; [done|].
    etrans; [apply N.le_min_r|]. rewrite N.mul_comm. apply N.le_add_r.
Qed.

Lemma potential_spend key g t :
  (key = k → heard t ∧ ∃ l, buckets t !! k = Some l ∧ TOKEN <= milli l) → potential g t →
  potential ((if bool_decide (key = k) then 1 else 0) + g) (spend key t).
Proof.
  intros Hk. unfold potential, spend. case_bool_decide as E.
  - subst key. destruct (Hk eq_refl) as (Hh & l & Hl & Hm). pose proof (Hh l Hl). rewrite Hl. cbn.
    rewrite lookup_insert_eq. cbn. intros [[? _]|[Hat Hpot]]; [lia|]. right. split; [done|].
    revert Hpot Hm. unfold saturating_sub, TOKEN. generalize (rate * (at_ms l - t0)). lia.
  - destruct (buckets t !! key); [cbn; by rewrite lookup_insert_ne|done].
Qed.

Lemma potential_step c g t t' ok :
  fits c → wf t → tick t < u64_max →
  (size (dom (buckets t) ∪ {[c_key c]}) <= capacity t)%nat →
  potential g t →
  take (c_key c) (c_rate c) (c_burst c) (c_now c) t = Some (t', ok) →
  potential ((if bool_decide (c_key c = k) && ok then 1 else 0) + g) t'.
Proof.
  intros [Hb Hk] Hwf Ht Hs Hpot Htake. unfold take in Htake.
  destruct (level_spec (c_key c) (c_rate c) (c_burst c) (c_now c) t Hwf Ht Hb)
    as (t1 & Hl & _ & _ & _ & Hbk).
  rewrite Hl in Htake. cbn in Htake.
  pose proof (potential_level _ _ _ _ _ _ _ _ Hb Hk Hwf Ht Hs Hpot Hl) as [Hpot1 Hheard].
  destruct (N.ltb_spec (refilled (bucket_or_full (c_key c) (c_burst c) (c_now c) t)
    (c_rate c) (c_burst c) (c_now c)) TOKEN); simplify_eq.
  - by rewrite andb_false_r.
  - rewrite andb_true_r. apply potential_spend; [|done]. intros E. split; [by apply Hheard|]. rewrite <- E, Hbk, lookup_insert_eq.
    eauto.
Qed.

Lemma potential_bound g t :
  t0 <= T → potential g t → TOKEN * g <= TOKEN * burst + rate * (T - t0).
Proof.
  intros HT. unfold potential.
  destruct (buckets t !! k) as [l|]; [|intros ->; rewrite N.mul_0_r; apply N.le_0_l].
  intros [[_ ->]|[Hat Hpot]]; [rewrite N.mul_0_r; apply N.le_0_l|].
  assert (rate * (at_ms l - t0) <= rate * (T - t0)) as Hr by (apply N.mul_le_mono_l; lia).
  revert Hr Hpot. generalize (rate * (at_ms l - t0)), (rate * (T - t0)). lia.
Qed.

Lemma run_potential calls g t :
  Forall fits calls → wf t → tick t + N.of_nat (length calls) <= u64_max →
  (size (dom (buckets t) ∪ keys_of calls) <= capacity t)%nat →
  potential g t →
  ∃ t' oks, run calls t = Some (t', oks) ∧ wf t' ∧ potential (granted k calls oks + g) t'.
Proof.
  intros Hfits. revert g t. induction Hfits as [|c calls Hc _ IH]; intros g t Hwf Ht Hs Hpot.
  { exists t, []. done. }
  cbn [length] in Ht. rewrite Nat2N.inj_succ in Ht.
  assert ((size (dom (buckets t) ∪ {[c_key c]}) <= capacity t)%nat) as Hs1.
  { etrans; [|exact Hs]. apply subseteq_size. unfold keys_of. cbn. set_solver. }
  pose proof (proj1 Hc) as Hb.
  destruct (take_spec (c_key c) (c_rate c) (c_burst c) (c_now c) t Hwf ltac:(lia) Hb)
    as (t1 & Htake & Hwf1 & Hcap1 & Htick1 & Hbk1).
  rewrite make_room_id in Hbk1 by done.
  pose proof (potential_step c g t t1 _ Hc Hwf ltac:(lia) Hs1 Hpot Htake) as Hpot1.
  edestruct IH as (t2 & oks & Hrun & Hwf2 & Hpot2); [exact Hwf1|lia| |exact Hpot1|].
  { rewrite Hcap1, Hbk1, dom_insert_L. etrans; [|exact Hs]. apply subseteq_size.
    unfold keys_of. cbn. set_solver. }
  exists t2, ((TOKEN <=? found (c_key c) (c_rate c) (c_burst c) (c_now c) t) :: oks).
  split; [|split; [done|]].
  - cbn. rewrite Htake. cbn. by rewrite Hrun.
  - cbn [granted]. revert Hpot2. generalize (granted k calls oks). intros n Hn.
    rewrite <- N.add_assoc, (N.add_comm n g), N.add_assoc.
    by rewrite (N.add_comm _ n).
Qed.
End one_key.

(** ** What a sender may still send

    [found k rate burst now t] is what [k] has at [now]. Asking for a level takes nothing from
    anyone: it can only refill a bucket it makes the table forget. *)
Lemma found_le_full k rate burst now t : found k rate burst now t <= burst * TOKEN.
Proof. apply N.le_min_r. Qed.

Lemma level_found key rate burst now t :
  wf t → tick t < u64_max → burst <= u32_max →
  ∃ t', level key rate burst now t = Some (t', found key rate burst now t)
    ∧ wf t' ∧ capacity t' = capacity t ∧ tick t' = tick t + 1
    ∧ dom (buckets t') ⊆ dom (buckets t) ∪ {[key]}
    ∧ (milli <$> buckets t' !! key = Some (found key rate burst now t))
    ∧ ∀ k r b, (k = key → r = rate ∧ b = burst) → found k r b now t <= found k r b now t'.
Proof.
  intros Hwf Ht Hb. destruct (level_spec key rate burst now t Hwf Ht Hb) as (t' & Hl & Hwf' & Hc & Htk & Hbk).
  exists t'. assert (buckets (make_room key t) ⊆ buckets t) as Hsub.
  { unfold make_room. case_match; [|done]. destruct (first_entry (order t)) as [[]|]; [|done].
    apply delete_subseteq. }
  split_and!; [done..| | |].
  - rewrite Hbk, dom_insert_L. apply subseteq_dom in Hsub. set_solver.
  - by rewrite Hbk, lookup_insert_eq.
  - intros k r b Hk. destruct (decide (k = key)) as [->|Hne].
    + destruct (Hk eq_refl) as [-> ->].
      unfold found at 2, bucket_or_full. rewrite Hbk, lookup_insert_eq. cbn.
      unfold refilled at 1. cbn. fold (found key rate burst now t).
      apply N.min_glb; [apply N.le_add_r|apply found_le_full].
    + destruct (buckets (make_room key t) !! k) as [l|] eqn:E.
      * pose proof (lookup_weaken _ _ _ _ E Hsub) as E'.
        unfold found, bucket_or_full. by rewrite Hbk, lookup_insert_ne, E, E'.
      * etrans; [apply found_le_full|].
        unfold found at 1, bucket_or_full. rewrite Hbk, lookup_insert_ne, E by done. cbn.
        unfold refilled. cbn. lia.
Qed.

Lemma spend_found key k r b now t : k ≠ key → found k r b now (spend key t) = found k r b now t.
Proof.
  intros Hne. unfold found, bucket_or_full, spend.
  destruct (buckets t !! key); [cbn; by rewrite lookup_insert_ne|done].
Qed.

Lemma spend_same key t :
  capacity (spend key t) = capacity t ∧ tick (spend key t) = tick t
  ∧ dom (buckets (spend key t)) = dom (buckets t).
Proof.
  unfold spend. destruct (buckets t !! key) eqn:E; [cbn|done]. split_and!; [done..|].
  rewrite dom_insert_L. apply elem_of_dom_2 in E. set_solver.
Qed.

(** What a [take] does to the bucket of another key: nothing, or it was the one used least
    recently in a full table and is forgotten. *)
Lemma take_other key rate burst now_ms t t' ok k :
  wf t → tick t < u64_max → burst <= u32_max → k ≠ key →
  take key rate burst now_ms t = Some (t', ok) →
  buckets t' !! k = buckets t !! k
  ∨ (buckets t !! key = None ∧ size (buckets t) = capacity t ∧ buckets t' !! k = None
     ∧ ∃ l, buckets t !! k = Some l
       ∧ ∀ k' l', buckets t !! k' = Some l' → used l <= used l').
Proof.
  intros Hwf Ht Hb Hne Htake.
  destruct (take_spec key rate burst now_ms t Hwf Ht Hb) as (t'' & Htake' & _ & _ & _ & Hbk).
  rewrite Htake in Htake'. simplify_eq. rewrite Hbk, lookup_insert_ne by done.
  unfold make_room. case_bool_decide as Hk; cbn; [|by left].
  destruct (Nat.leb_spec (capacity t) (size (buckets t))) as [Hc|Hc]; [|by left].
  destruct (first_entry (order t)) as [[n oldest]|] eqn:E; [|by left]. cbn.
  destruct (decide (oldest = k)) as [->|]; [|left; by rewrite lookup_delete_ne].
  right. apply first_entry_Some in E as [Hn Hmin].
  destruct (wf_order _ Hwf _ _ Hn) as (l & Hl & Hu). pose proof (wf_size _ Hwf).
  split_and!; [done|lia|by rewrite lookup_delete_eq|]. exists l. split; [done|].
  intros k' l' Hl'. rewrite Hu. eapply Hmin. by apply (wf_used _ Hwf).
Qed.
End table.

(** ** Properties *)

(** Over any sequence of messages, as long as the table has room for everyone who sends, the
    messages of one sender that are admitted between two moments [t0] and [T] are at most its burst
    and what its bucket gained in between: [1000 * granted <= 1000 * burst + rate * (T - t0)],
    whatever the clock does in between. The calls themselves all return. *)
Theorem take_rate_bound {K} `{Countable K} (k : K) rate burst t0 T (calls : list call) (t : Table K) :
  wf t → buckets t !! k = None → tick t + N.of_nat (length calls) <= u64_max →
  (size (dom (buckets t) ∪ keys_of calls) <= capacity t)%nat →
  Forall (fits k rate burst t0 T) calls → t0 <= T →
  ∃ t' oks, run calls t = Some (t', oks)
    ∧ TOKEN * granted k calls oks <= TOKEN * burst + rate * (T - t0).
Proof.
  intros Hwf Hk Ht Hs Hfits HT.
  destruct (run_potential k rate burst t0 T calls 0 t Hfits Hwf Ht Hs) as (t' & oks & Hrun & _ & Hpot).
  { unfold potential. by rewrite Hk. }
  exists t', oks. split; [done|]. revert Hpot. rewrite N.add_0_r. by apply potential_bound.
Qed.

Lemma take_rate_bound_witness :
  ∃ t' oks,
    run [mkCall 7 1 2 0; mkCall 7 1 2 0; mkCall 8 5 5 0; mkCall 7 1 2 0; mkCall 7 1 2 1000]
      (new 3 : Table N) = Some (t', oks)
    ∧ TOKEN * granted 7 [mkCall 7 1 2 0; mkCall 7 1 2 0; mkCall 8 5 5 0; mkCall 7 1 2 0; mkCall 7 1 2 1000] oks
        <= TOKEN * 2 + 1 * (1000 - 0).
Proof.
  apply (take_rate_bound 7 1 2 0 1000); [apply wf_new|reflexivity|vm_compute; discriminate| | |lia].
  - vm_compute. lia.
  - repeat constructor; cbn; unfold u32_max; try lia; discriminate.
Defined.

(** The table's invariant is kept by every [take], whatever key it names: the order of use names
    exactly the buckets, and the table never holds more than its capacity; a [take] that returns
    [true] has taken one token from the bucket, and one that returns [false] none. *)
Theorem take_invariant {K} `{Countable K} (key : K) rate burst now_ms (t : Table K) :
  wf t → tick t < u64_max → burst <= u32_max →
  ∃ t' ok, take key rate burst now_ms t = Some (t', ok)
    ∧ wf t' ∧ (len t' <= capacity t)%nat
    ∧ ok = (TOKEN <=? found key rate burst now_ms t)
    ∧ milli <$> (buckets t' !! key)
      = Some (if ok then found key rate burst now_ms t - TOKEN else found key rate burst now_ms t).
Proof.
  intros Hwf Ht Hb. destruct (take_spec key rate burst now_ms t Hwf Ht Hb) as (t' & Htk & Hwf' & Hc & _ & Hbk).
  exists t', (TOKEN <=? found key rate burst now_ms t). split_and!; [done..| |done|].
  - rewrite <- Hc. apply (wf_size _ Hwf').
  - by rewrite Hbk, lookup_insert_eq.
Qed.

Lemma take_invariant_witness :
  ∃ t' ok, take 7 1 2 0 (new 1 : Table N) = Some (t', ok)
    ∧ wf t' ∧ (len t' <= 1)%nat
    ∧ ok = (TOKEN <=? found 7 1 2 0 (new 1 : Table N))
    ∧ milli <$> (buckets t' !! 7)
      = Some (if ok then found 7 1 2 0 (new 1 : Table N) - TOKEN else found 7 1 2 0 (new 1 : Table N)).
Proof. apply (take_invariant 7 1 2 0 (new 1)); [apply wf_new|done|vm_compute; discriminate]. Defined.

(** A [take] leaves every other sender's bucket as it was, except that a new sender in a full
    table makes it forget the one bucket used least recently: no sender can spend another's tokens,
    and forgetting one can only refill it. *)
Theorem take_isolation {K} `{Countable K} (key k : K) rate burst now_ms (t t' : Table K) ok :
  wf t → tick t < u64_max → burst <= u32_max → k ≠ key →
  take key rate burst now_ms t = Some (t', ok) →
  buckets t' !! k = buckets t !! k
  ∨ (buckets t !! key = None ∧ len t = capacity t ∧ buckets t' !! k = None
     ∧ ∃ l, buckets t !! k = Some l
       ∧ ∀ k' l', buckets t !! k' = Some l' → used l <= used l').
Proof. apply take_other. Qed.

Lemma take_isolation_witness :
  let t := default (new 1) (fst <$> take 8 1 2 0 (new 1 : Table N)) in
  let t' := default (new 1) (fst <$> take 7 1 2 5 t) in
  buckets t' !! 8 = None
  ∧ (buckets t' !! 8 = buckets t !! 8
     ∨ (buckets t !! 7 = None ∧ len t = capacity t ∧ buckets t' !! 8 = None
        ∧ ∃ l, buckets t !! 8 = Some l
          ∧ ∀ k' l', buckets t !! k' = Some l' → used l <= used l')).
Proof.
  split; [reflexivity|].
  apply (take_isolation 7 8 1 2 5 (default (new 1) (fst <$> take 8 1 2 0 (new 1 : Table N)))
           (default (new 1) (fst <$> take 7 1 2 5
              (default (new 1) (fst <$> take 8 1 2 0 (new 1 : Table N))))) true).
  - destruct (take_spec 8 1 2 0 (new 1 : Table N) (wf_new 1)) as (t' & E & Hwf & _);
      [vm_compute; reflexivity|vm_compute; discriminate|]. by rewrite E.
  - vm_compute. reflexivity.
  - vm_compute. discriminate.
  - discriminate.
  - vm_compute. reflexivity.
Defined.

(** A peer cannot step past its bucket or its back-off by changing the low half of an IPv6
    address: the key of an address that is not IPv4-mapped depends on its upper 64 bits alone, an
    IPv4-mapped address counts as the IPv4 address it maps, and taking the key again changes
    nothing. *)
Theorem peer_key_spec (bits bits' : N) :
  (peer_key (peer_key (V6 bits)) = peer_key (V6 bits))
  ∧ (to_ipv4_mapped bits = None → to_ipv4_mapped bits' = None →
     peer_key (V6 bits) = peer_key (V6 bits') ↔ N.shiftr bits 64 = N.shiftr bits' 64)
  ∧ (bits < 2 ^ 32 → peer_key (V6 (65535 * 2 ^ 32 + bits)) = peer_key (V4 bits)).
Proof.
  assert (∀ b, N.shiftr (N.shiftl (N.shiftr b 64) 64) 64 = N.shiftr b 64) as Hshift.
  { intros b. by rewrite N.shiftr_shiftl_l, N.sub_diag, N.shiftl_0_r by done. }
  split; [|split].
  - cbn. destruct (to_ipv4_mapped bits) as [v4|] eqn:E; [done|]. cbn.
    destruct (to_ipv4_mapped (N.shiftl (N.shiftr bits 64) 64)) as [v4|] eqn:E'; [|by rewrite Hshift].
    exfalso. unfold to_ipv4_mapped in E'.
    destruct (N.eqb_spec (N.shiftr (N.shiftl (N.shiftr bits 64) 64) 32) 65535) as [E''|]; [|done].
    rewrite N.shiftr_shiftl_l in E'' by done. change (64 - 32) with 32 in E''.
    apply (f_equal N.even) in E''. rewrite N.shiftl_mul_pow2, N.even_mul in E''.
    change (N.even (2 ^ 32)) with true in E''. by rewrite orb_true_r in E''.
  - intros E E'. cbn. rewrite E, E'. split; [|by intros ->].
    intros [= Heq]. by rewrite <- (Hshift bits), Heq, Hshift.
  - intros Hb. cbn. unfold to_ipv4_mapped.
    rewrite N.shiftr_div_pow2, N.div_add_l, (N.div_small bits) by done. cbn [N.eqb].
    rewrite N.add_0_r, N.eqb_refl. rewrite N.add_comm, N.Div0.mod_add, N.mod_small by done. done.
Qed.
