(* ===== verification/AgentRate.v ===== *)
(** * How often a sender is heard

    Two users of the token buckets of [Rate]: the Server's limit on admitted peers
    ([fleet-server], [agent_rate]) and a Gateway's limit on its downstream hosts ([fleet-agent],
    [gateway::rate]). The clock the code reads is the argument [now]; [None] is the panic of the
    table's tick at [u64::MAX]. *)

From S2P Require Import Prelude Rate.

Open Scope N_scope.

(** A certificate by its issuer and serial ([revocation::CertId]). *)
Record CertId := mkCertId {
  issuer : string;
  serial : string;
}.

#[export] Instance CertId_eq_dec : EqDecision CertId.
Proof. solve_decision. Defined.
#[export] Instance CertId_countable : Countable CertId.
Proof.
  refine (inj_countable' (λ c, (issuer c, serial c)) (λ p, mkCertId p.1 p.2) _). by intros [].
Defined.

Module Server.

Record Limits := mkLimits {
  messages_per_sec : N;
  burst : N;
  gateway_messages_per_sec : N;
  gateway_burst : N;
}.

Definition default_limits : Limits := mkLimits 10 300 500 10000.

Inductive Subject :=
| Host (host : string)
| Certificate (cert : CertId)
| Peer (peer : IpAddr).

(** [Subject::peer]: an unknown address counts as the unspecified one. *)
Definition Subject_peer (peer : option IpAddr) : Subject := Peer (peer_key (default (V4 0) peer)).

Inductive Bucket :=
| BAgent
| BHost
| BGateway
| BEnrolment
| BBootstrap
| BUncheckedEnrolment.

Definition Bucket_as_str (b : Bucket) : string :=
  match b with
  | BAgent => "agent"
  | BHost => "host"
  | BGateway => "gateway"
  | BEnrolment => "enrolment"
  | BBootstrap => "bootstrap"
  | BUncheckedEnrolment => "unchecked_enrolment"
  end.

Inductive Key :=
| Own (subject : Subject)
| Gateway (host : string)
| Enrolments (host : string)
| UncheckedEnrolments (host : string).

Inductive Named :=
| Agent (uid : list N)
| Enrolment (cert : CertId).

#[export] Instance Subject_eq_dec : EqDecision Subject.
Proof. solve_decision. Defined.
#[export] Instance Subject_countable : Countable Subject.
Proof.
  refine (inj_countable'
    (λ s, match s with Host h => inl (inl h) | Certificate c => inl (inr c) | Peer p => inr p end)
    (λ s, match s with inl (inl h) => Host h | inl (inr c) => Certificate c | inr p => Peer p end) _).
  by intros [].
Defined.
#[export] Instance Key_eq_dec : EqDecision Key.
Proof. solve_decision. Defined.
#[export] Instance Key_countable : Countable Key.
Proof.
  refine (inj_countable'
    (λ k, match k with
          | Own s => inl (inl s) | Gateway h => inl (inr h)
          | Enrolments h => inr (inl h) | UncheckedEnrolments h => inr (inr h) end)
    (λ k, match k with
          | inl (inl s) => Own s | inl (inr h) => Gateway h
          | inr (inl h) => Enrolments h | inr (inr h) => UncheckedEnrolments h end) _).
  by intros [].
Defined.
#[export] Instance Named_eq_dec : EqDecision Named.
Proof. solve_decision. Defined.
#[export] Instance Named_countable : Countable Named.
Proof.
  refine (inj_countable' (λ n, match n with Agent u => inl u | Enrolment c => inr c end)
    (λ n, match n with inl u => Agent u | inr c => Enrolment c end) _).
  by intros [].
Defined.

Record AgentRate := mkAgentRate {
  limits : Limits;
  own : Table Key;
  agents : Table (string * Named);
}.

Definition with_capacities (l : Limits) (subjects agents : nat) : AgentRate :=
  mkAgentRate l (new subjects) (new agents).

(** [take]: one token of the subject's own bucket, or — through a Gateway — one of the Gateway's
    aggregate and one of the bucket of what the message names. *)
Definition take_for (subject : Subject) (gateway : bool) (named : option Named) (now : N)
    (r : AgentRate) : option (AgentRate * result unit Bucket) :=
  let l := limits r in
  match subject, gateway with
  | Host host, true =>
      let aggregate := Gateway host in
      '(own', lvl) ← level aggregate (gateway_messages_per_sec l) (gateway_burst l) now (own r);
      if lvl <? TOKEN then Some (mkAgentRate l own' (agents r), Err BGateway)
      else
        match named with
        | Some named =>
            let key := (host, named) in
            '(agents', alvl) ← level key (messages_per_sec l) (burst l) now (agents r);
            if alvl <? TOKEN then Some (mkAgentRate l own' agents', Err BAgent)
            else Some (mkAgentRate l (spend aggregate own') (spend key agents'), Ok tt)
        | None => Some (mkAgentRate l (spend aggregate own') (agents r), Ok tt)
        end
  | _, _ =>
      let key := Own subject in
      '(own', ok) ← take key (messages_per_sec l) (burst l) now (own r);
      if ok : bool then Some (mkAgentRate l own' (agents r), Ok tt)
      else Some (mkAgentRate l own' (agents r), Err BHost)
  end.

(** [admit]: an [instance_uid] that is not 16 bytes names no Agent. *)
Definition admit_message (subject : Subject) (gateway : bool) (agent : option (list N)) (now : N)
    (r : AgentRate) : option (AgentRate * result unit Bucket) :=
  let named :=
    match agent with
    | Some uid => if (length uid =? 16)%nat then Some (Agent uid) else None
    | None => None
    end in
  take_for subject gateway named now r.

Definition admit_enrolment (subject : Subject) (gateway : bool) (bootstrap : option CertId)
    (now : N) (r : AgentRate) : option (AgentRate * result unit Bucket) :=
  let l := limits r in
  match subject, gateway with
  | Host host, true =>
      match bootstrap with
      | None =>
          '(own', ok) ← take (UncheckedEnrolments host) (messages_per_sec l) (burst l) now (own r);
          if ok : bool then Some (mkAgentRate l own' (agents r), Ok tt)
          else Some (mkAgentRate l own' (agents r), Err BUncheckedEnrolment)
      | Some bootstrap =>
          let aggregate := Enrolments host in
          '(own', lvl) ← level aggregate (gateway_messages_per_sec l) (gateway_burst l) now (own r);
          if lvl <? TOKEN then Some (mkAgentRate l own' (agents r), Err BEnrolment)
          else
            let key := (host, Enrolment bootstrap) in
            '(agents', alvl) ← level key (messages_per_sec l) (burst l) now (agents r);
            if alvl <? TOKEN then Some (mkAgentRate l own' agents', Err BBootstrap)
            else Some (mkAgentRate l (spend aggregate own') (spend key agents'), Ok tt)
      end
  | _, _ => take_for subject false None now r
  end.

(** ** What each bucket is sized by *)

Definition own_rate (l : Limits) (k : Key) : N :=
  match k with
  | Own _ | UncheckedEnrolments _ => messages_per_sec l
  | Gateway _ | Enrolments _ => gateway_messages_per_sec l
  end.
Definition own_burst (l : Limits) (k : Key) : N :=
  match k with
  | Own _ | UncheckedEnrolments _ => burst l
  | Gateway _ | Enrolments _ => gateway_burst l
  end.

(** The tokens of a bucket of each table at [now], in thousandths. *)
Definition own_tokens (r : AgentRate) (k : Key) (now : N) : N :=
  found k (own_rate (limits r) k) (own_burst (limits r) k) now (own r).
Definition agent_tokens (r : AgentRate) (k : string * Named) (now : N) : N :=
  found k (messages_per_sec (limits r)) (burst (limits r)) now (agents r).

(** A limit that runs: both tables well formed, ticks left, and settings within their [u32]. *)
Record running (r : AgentRate) : Prop := {
  run_own : wf (own r);
  run_agents : wf (agents r);
  run_own_tick : tick (own r) < u64_max;
  run_agents_tick : tick (agents r) < u64_max;
  run_burst : burst (limits r) <= u32_max;
  run_gateway_burst : gateway_burst (limits r) <= u32_max;
}.

(** [level] on the first table, at the size of the key's bucket. *)
Lemma own_level r k now :
  running r →
  ∃ t, level k (own_rate (limits r) k) (own_burst (limits r) k) now (own r)
       = Some (t, own_tokens r k now)
    ∧ wf t ∧ capacity t = capacity (own r) ∧ tick t = tick (own r) + 1
    ∧ dom (buckets t) ⊆ dom (buckets (own r)) ∪ {[k]}
    ∧ (milli <$> buckets t !! k = Some (own_tokens r k now))
    ∧ ∀ k', own_tokens r k' now <= own_tokens (mkAgentRate (limits r) t (agents r)) k' now.
Proof.
  intros Hr. destruct (level_found k (own_rate (limits r) k) (own_burst (limits r) k) now (own r))
    as (t & Hl & Hwf & Hc & Ht & Hd & Hm & Hf); [apply Hr|apply Hr|destruct k; apply Hr|].
  exists t. split_and!; [done..|]. intros k'. apply Hf. by intros ->.
Qed.

Lemma agent_level r k now :
  running r →
  ∃ t, level k (messages_per_sec (limits r)) (burst (limits r)) now (agents r)
       = Some (t, agent_tokens r k now)
    ∧ wf t ∧ tick t = tick (agents r) + 1
    ∧ ∀ k', agent_tokens r k' now <= agent_tokens (mkAgentRate (limits r) (own r) t) k' now.
Proof.
  intros Hr. destruct (level_found k (messages_per_sec (limits r)) (burst (limits r)) now (agents r))
    as (t & Hl & Hwf & Hc & Ht & Hd & Hm & Hf); [apply Hr..|].
  exists t. split_and!; [done..|]. intros k'. apply Hf. by intros ->.
Qed.

(** [take] on the first table, at the size of the key's bucket. *)
Lemma own_take r k now :
  running r →
  ∃ t, take k (own_rate (limits r) k) (own_burst (limits r) k) now (own r)
       = Some (t, TOKEN <=? own_tokens r k now)
    ∧ wf t ∧ capacity t = capacity (own r) ∧ tick t = tick (own r) + 1
    ∧ dom (buckets t) ⊆ dom (buckets (own r)) ∪ {[k]}
    ∧ ∀ k', (k' ≠ k ∨ own_tokens r k now < TOKEN) →
        own_tokens r k' now <= own_tokens (mkAgentRate (limits r) t (agents r)) k' now.
Proof.
  intros Hr. destruct (own_level r k now Hr) as (t & Hl & Hwf & Hc & Ht & Hd & Hm & Hf).
  unfold take. rewrite Hl. cbn. rewrite N.ltb_antisym.
  destruct (N.leb_spec TOKEN (own_tokens r k now)) as [H1|H1]; cbn; [|exists t; by eauto 10].
  destruct (spend_same k t) as (Sc & St & Sd).
  exists (spend k t). rewrite Sc, St, Sd. split_and!; [done|by apply spend_wf|done..|].
  intros k' [Hne|]; [|lia]. unfold own_tokens at 2. cbn. rewrite spend_found by done. apply Hf.
Qed.

(** The keys of each table a call may take from. *)
Inductive outcome (r : AgentRate) (now : N) (okeys : list Key) (akeys : list (string * Named)) :
    option (AgentRate * result unit Bucket) → Prop :=
| outcome_refused r' b :
    limits r' = limits r → wf (own r') → wf (agents r') →
    (∀ k, own_tokens r k now <= own_tokens r' k now) →
    (∀ k, agent_tokens r k now <= agent_tokens r' k now) →
    outcome r now okeys akeys (Some (r', Err b))
| outcome_admitted r' :
    limits r' = limits r → wf (own r') → wf (agents r') →
    (∀ k, k ∉ okeys → own_tokens r k now <= own_tokens r' k now) →
    (∀ k, k ∉ akeys → agent_tokens r k now <= agent_tokens r' k now) →
    Forall (λ k, TOKEN <= own_tokens r k now) okeys →
    Forall (λ k, TOKEN <= agent_tokens r k now) akeys →
    outcome r now okeys akeys (Some (r', Ok tt)).

Lemma own_take_outcome r k now b :
  running r →
  outcome r now [k] []
    ('(own', ok) ← take k (own_rate (limits r) k) (own_burst (limits r) k) now (own r);
     if ok : bool then Some (mkAgentRate (limits r) own' (agents r), Ok tt)
     else Some (mkAgentRate (limits r) own' (agents r), Err b)).
Proof.
  intros Hr. destruct (own_take r k now Hr) as (t & Htk & Hwf & _ & _ & _ & Hf). rewrite Htk. cbn.
  destruct (N.leb_spec TOKEN (own_tokens r k now)) as [H1|H1].
  - apply outcome_admitted; try done; [apply Hr| |by repeat constructor].
    intros k' Hk'. apply Hf. left. set_solver.
  - apply outcome_refused; try done; [apply Hr|]. intros k'. apply Hf. by right.
Qed.

(** The two-bucket path of a Gateway: the aggregate first, then what the message names. *)
Lemma gateway_outcome r agg key now b1 b2 :
  running r →
  outcome r now [agg] [key]
    ('(own', lvl) ← level agg (own_rate (limits r) agg) (own_burst (limits r) agg) now (own r);
     if lvl <? TOKEN then Some (mkAgentRate (limits r) own' (agents r), Err b1)
     else
       '(agents', alvl) ← level key (messages_per_sec (limits r)) (burst (limits r)) now (agents r);
       if alvl <? TOKEN then Some (mkAgentRate (limits r) own' agents', Err b2)
       else Some (mkAgentRate (limits r) (spend agg own') (spend key agents'), Ok tt)).
Proof.
  intros Hr. destruct (own_level r agg now Hr) as (t & Hl & Hwf & _ & _ & _ & _ & Hf). rewrite Hl. cbn.
  destruct (N.ltb_spec (own_tokens r agg now) TOKEN) as [H1|H1].
  { apply outcome_refused; try done; apply Hr. }
  destruct (agent_level r key now Hr) as (ta & Hla & Hwfa & _ & Hfa). rewrite Hla. cbn.
  destruct (N.ltb_spec (agent_tokens r key now) TOKEN) as [H2|H2].
  { by apply outcome_refused. }
  apply outcome_admitted; cbn; try done; try by apply spend_wf.
  - intros k Hk. unfold own_tokens at 2. cbn. rewrite spend_found by set_solver. apply Hf.
  - intros k Hk. unfold agent_tokens at 2. cbn. rewrite spend_found by set_solver. apply Hfa.
  - by repeat constructor.
  - by repeat constructor.
Qed.

Lemma gateway_only_outcome r agg now b :
  running r →
  outcome r now [agg] []
    ('(own', lvl) ← level agg (own_rate (limits r) agg) (own_burst (limits r) agg) now (own r);
     if lvl <? TOKEN then Some (mkAgentRate (limits r) own' (agents r), Err b)
     else Some (mkAgentRate (limits r) (spend agg own') (agents r), Ok tt)).
Proof.
  intros Hr. destruct (own_level r agg now Hr) as (t & Hl & Hwf & _ & _ & _ & _ & Hf). rewrite Hl. cbn.
  destruct (N.ltb_spec (own_tokens r agg now) TOKEN) as [H1|H1].
  { apply outcome_refused; try done; apply Hr. }
  apply outcome_admitted; cbn; try done; [by apply spend_wf|apply Hr| |by repeat constructor].
  intros k Hk. unfold own_tokens at 2. cbn. rewrite spend_found by set_solver. apply Hf.
Qed.

(** The buckets a message takes from. *)
Definition message_keys (subject : Subject) (gateway : bool) (named : option Named) :
    list Key * list (string * Named) :=
  match subject, gateway with
  | Host host, true =>
      ([Gateway host], match named with Some n => [(host, n)] | None => [] end)
  | _, _ => ([Own subject], [])
  end.

Definition enrolment_keys (subject : Subject) (gateway : bool) (bootstrap : option CertId) :
    list Key * list (string * Named) :=
  match subject, gateway with
  | Host host, true =>
      match bootstrap with
      | Some cert => ([Enrolments host], [(host, Enrolment cert)])
      | None => ([UncheckedEnrolments host], [])
      end
  | _, _ => ([Own subject], [])
  end.

Lemma take_for_outcome subject gateway named now r :
  running r →
  outcome r now (message_keys subject gateway named).1 (message_keys subject gateway named).2
    (take_for subject gateway named now r).
Proof.
  intros Hr. unfold take_for, message_keys.
  destruct subject as [host|c|p], gateway; try exact (own_take_outcome r (Own _) now _ Hr).
  destruct named as [named|]; cbn [fst snd].
  - exact (gateway_outcome r (Gateway host) (host, named) now BGateway BAgent Hr).
  - exact (gateway_only_outcome r (Gateway host) now BGateway Hr).
Qed.

Lemma admit_enrolment_outcome subject gateway bootstrap now r :
  running r →
  outcome r now (enrolment_keys subject gateway bootstrap).1
    (enrolment_keys subject gateway bootstrap).2 (admit_enrolment subject gateway bootstrap now r).
Proof.
  intros Hr. unfold admit_enrolment, enrolment_keys.
  destruct subject as [host|c|p], gateway;
    try exact (own_take_outcome r (Own _) now _ Hr).
  destruct bootstrap as [cert|]; cbn [fst snd].
  - exact (gateway_outcome r (Enrolments host) (host, Enrolment cert) now BEnrolment BBootstrap Hr).
  - exact (own_take_outcome r (UncheckedEnrolments host) now _ Hr).
Qed.

(** ** Sequences of messages *)

Record message := mkMessage {
  m_subject : Subject;
  m_gateway : bool;
  m_agent : option (list N);
  m_now : N;
}.

Fixpoint run_messages (ms : list message) (r : AgentRate) :
    option (AgentRate * list (result unit Bucket)) :=
  match ms with
  | [] => Some (r, [])
  | m :: ms =>
      '(r, res) ← admit_message (m_subject m) (m_gateway m) (m_agent m) (m_now m) r;
      '(r, ress) ← run_messages ms r;
      Some (r, res :: ress)
  end.

(** The bucket of the first table a message is counted in. *)
Definition message_key (m : message) : Key :=
  match m_subject m, m_gateway m with
  | Host host, true => Gateway host
  | subject, _ => Own subject
  end.

(** How many of the messages counted in [k] were admitted. *)
Fixpoint admitted (k : Key) (ms : list message) (ress : list (result unit Bucket)) : N :=
  match ms, ress with
  | m :: ms, res :: ress =>
      (if bool_decide (message_key m = k) && is_ok res then 1 else 0) + admitted k ms ress
  | _, _ => 0
  end.

Definition message_keys_of (ms : list message) : gset Key := list_to_set (message_key <$> ms).

Record ticking (r : AgentRate) (n : nat) : Prop := {
  ticking_own : wf (own r);
  ticking_agents : wf (agents r);
  ticking_own_tick : tick (own r) + N.of_nat n <= u64_max;
  ticking_agents_tick : tick (agents r) + N.of_nat n <= u64_max;
  ticking_burst : burst (limits r) <= u32_max;
  ticking_gateway_burst : gateway_burst (limits r) <= u32_max;
}.

Lemma ticking_running r n : ticking r (S n) → running r.
Proof. intros [? ? Ho Ha ? ?]. rewrite Nat2N.inj_succ in Ho, Ha. split; try done; lia. Qed.

(** One message, seen from the first table: a level of its key, and a token of it when admitted. *)
Lemma admit_own m r n :
  ticking r (S n) →
  ∃ r' res t lv,
    admit_message (m_subject m) (m_gateway m) (m_agent m) (m_now m) r = Some (r', res)
    ∧ level (message_key m) (own_rate (limits r) (message_key m))
        (own_burst (limits r) (message_key m)) (m_now m) (own r) = Some (t, lv)
    ∧ own r' = (if is_ok res then spend (message_key m) t else t)
    ∧ (is_ok res = true → TOKEN <= lv)
    ∧ limits r' = limits r ∧ ticking r' n.
Proof.
  intros Ht. pose proof (ticking_running r n Ht) as Hr. destruct Ht as [_ _ Ho Ha Hb Hgb].
  rewrite Nat2N.inj_succ in Ho, Ha.
  destruct (own_level r (message_key m) (m_now m) Hr) as (t & Hl & Hwf & _ & Htk & _).
  pose proof (spend_same (message_key m) t) as (_ & St & _).
  pose proof (spend_wf (message_key m) t Hwf) as Swf.
  rewrite Hl. unfold admit_message, take_for, take.
  set (named := match m_agent m with Some uid => _ | None => _ end).
  assert (∀ ow ag, wf ow → tick ow = tick (own r) + 1 → wf ag → tick ag <= tick (agents r) + 1 →
    ticking (mkAgentRate (limits r) ow ag) n) as Htick.
  { intros ow ag ? Eo ? Ea. split; cbn; try done; lia. }
  assert (tick (agents r) <= tick (agents r) + 1) as Hag by lia.
  pose proof (run_agents _ Hr) as Hwfa. pose proof (run_own _ Hr) as Hwfo.
  unfold message_key in *.
  destruct (m_subject m) as [host|c|p], (m_gateway m); cbn [own_rate own_burst] in *; rewrite Hl; cbn;
    match goal with |- context [?x <? TOKEN] => destruct (N.ltb_spec x TOKEN) as [H1|H1] end; cbn;
    try by (do 4 eexists; split_and!; [done..|by apply Htick; rewrite ?St]).
  destruct named as [named|]; cbn.
  2:{ do 4 eexists. split_and!; [done..|by apply Htick; rewrite ?St]. }
  destruct (agent_level r (host, named) (m_now m) Hr) as (ta & Hla & Hwa & Hta & _). rewrite Hla. cbn.
  destruct (spend_same (host, named) ta) as (_ & Sta & _).
  pose proof (spend_wf (host, named) ta Hwa).
  destruct (N.ltb_spec (agent_tokens r (host, named) (m_now m)) TOKEN) as [H2|H2]; cbn;
    do 4 eexists; split_and!; try done; apply Htick; rewrite ?St, ?Sta; try done; lia.
Qed.

Section aggregate.
Context (k : Key) (t0 T : N).

Definition in_window (m : message) : Prop := message_key m = k → t0 <= m_now m <= T.

Definition bounded (l : Limits) (g : N) (r : AgentRate) : Prop :=
  potential k (own_rate l k) (own_burst l k) t0 T g (own r).

Lemma run_messages_bounded ms g r :
  Forall in_window ms → ticking r (length ms) →
  (size (dom (buckets (own r)) ∪ message_keys_of ms) <= capacity (own r))%nat →
  bounded (limits r) g r →
  ∃ r' ress, run_messages ms r = Some (r', ress)
    ∧ bounded (limits r) (admitted k ms ress + g) r'.
Proof.
  intros Hwin. revert g r. induction Hwin as [|m ms Hm _ IH]; intros g r Ht Hs Hpot.
  { exists r, []. done. }
  destruct (admit_own m r (length ms) Ht) as (r1 & res & t & lv & Had & Hl & Ho & Hlv & Hlim & Ht1).
  pose proof (ticking_running r _ Ht) as Hr.
  destruct (own_level r (message_key m) (m_now m) Hr) as (t' & Hl' & Hwf & Hc & _ & Hd & Hmil & _).
  rewrite Hl in Hl'. simplify_eq.
  assert ((size (dom (buckets (own r)) ∪ {[message_key m]}) <= capacity (own r))%nat) as Hs1.
  { etrans; [|exact Hs]. apply subseteq_size. unfold message_keys_of. cbn. set_solver. }
  assert (bounded (limits r) ((if bool_decide (message_key m = k) && is_ok res then 1 else 0) + g) r1)
    as Hpot1.
  { assert (potential k (own_rate (limits r) k) (own_burst (limits r) k) t0 T g t' ∧
            (message_key m = k → heard k t0 t')) as [Hpt Hheard].
    { eapply (potential_level k (own_rate (limits r) k) (own_burst (limits r) k) t0 T
                (message_key m)); [| |apply Hr|apply Hr|exact Hs1|exact Hpot|exact Hl].
      - destruct (message_key m); apply Hr.
      - intros E. specialize (Hm E). by rewrite <- E. }
    unfold bounded. rewrite Ho. destruct (is_ok res) eqn:Er; [|by rewrite andb_false_r].
    rewrite andb_true_r. apply potential_spend; [|done]. intros E. split; [by apply Hheard|]. rewrite E in Hmil.
    destruct (buckets t' !! k) as [l|]; [|done]. exists l. split; [done|].
    cbn in Hmil. injection Hmil as ->. rewrite <- E. by apply Hlv. }
  rewrite <- Hlim in Hpot1.
  edestruct IH as (r2 & ress & Hrun & Hpot2); [exact Ht1| |exact Hpot1|].
  { assert (dom (buckets (own r1)) ⊆ dom (buckets (own r)) ∪ {[message_key m]}
            ∧ capacity (own r1) = capacity (own r)) as [Hd1 ->].
    { rewrite Ho. destruct (spend_same (message_key m) t') as (Sc & _ & Sd).
      destruct (is_ok res); [by rewrite Sd, Sc|done]. }
    etrans; [|exact Hs]. apply subseteq_size. unfold message_keys_of. cbn. set_solver. }
  exists r2, (res :: ress). split; [cbn; by rewrite Had; cbn; rewrite Hrun|].
  cbn [admitted]. rewrite Hlim in Hpot2.
  by rewrite <- N.add_assoc, N.add_assoc, (N.add_comm _ (admitted k ms ress)), <- N.add_assoc.
Qed.
End aggregate.

(** ** Properties *)

(** C35: the messages the Server admits through one Gateway, or from one host, from a moment [t0] on at
    which its bucket is fresh or was last asked before, to a moment [T] are at most the bucket's burst and
    what it gained in between, however many [instance_uid]s the sender cycles through and whatever
    every other peer sends, as long as the table has room for everyone who sends and so forgets no
    bucket; the counters of the tables have room for as many messages ([ticking]). *)
Theorem admitted_messages_bounded (k : Key) (t0 T : N) (ms : list message) (r : AgentRate) :
  ticking r (length ms) → (∀ l, buckets (own r) !! k = Some l → at_ms l < t0) → t0 <= T →
  (size (dom (buckets (own r)) ∪ message_keys_of ms) <= capacity (own r))%nat →
  Forall (in_window k t0 T) ms →
  ∃ r' ress, run_messages ms r = Some (r', ress)
    ∧ TOKEN * admitted k ms ress
      <= TOKEN * own_burst (limits r) k + own_rate (limits r) k * (T - t0).
Proof.
  intros Ht Hk HT Hs Hwin.
  destruct (run_messages_bounded k t0 T ms 0 r Hwin Ht Hs) as (r' & ress & Hrun & Hpot).
  { unfold bounded, potential. destruct (buckets (own r) !! k) as [l|] eqn:E; [left|done]. by specialize (Hk l eq_refl). }
  exists r', ress. split; [done|]. revert Hpot. rewrite N.add_0_r. apply potential_bound. done.
Qed.

(** A refusal takes nothing: when [admit] answers an empty bucket, no sender — the one
    refused, the Gateway's aggregate and every other one included — has fewer tokens than before
    it was asked. *)
Theorem admit_refusal_takes_nothing subject gateway agent now r r' b :
  running r → admit_message subject gateway agent now r = Some (r', Err b) →
  (∀ k, own_tokens r k now <= own_tokens r' k now)
  ∧ (∀ k, agent_tokens r k now <= agent_tokens r' k now).
Proof.
  intros Hr. unfold admit_message. set (named := match agent with Some _ => _ | None => _ end). intros H.
  pose proof (take_for_outcome subject gateway named now r Hr) as Ho. rewrite H in Ho.
  by inversion Ho.
Qed.

(** An enrolment request through a Gateway spends nothing of the Gateway's members, forged or
    checked, admitted or refused: the Gateway's message aggregate, every host's own bucket and the
    bucket of every Agent keep at least the tokens they had. *)
Theorem enrolment_spares_members host bootstrap now r r' res :
  running r → admit_enrolment (Host host) true bootstrap now r = Some (r', res) →
  (∀ s, own_tokens r (Own s) now <= own_tokens r' (Own s) now)
  ∧ (∀ h, own_tokens r (Gateway h) now <= own_tokens r' (Gateway h) now)
  ∧ (∀ h uid, agent_tokens r (h, Agent uid) now <= agent_tokens r' (h, Agent uid) now).
Proof.
  intros Hr H. pose proof (admit_enrolment_outcome (Host host) true bootstrap now r Hr) as Ho.
  rewrite H in Ho. destruct bootstrap as [cert|]; cbn in Ho;
    inversion Ho as [? ? _ _ _ Hown Hag|? _ _ _ Hown Hag]; subst;
    split_and!; intros; apply Hown || apply Hag; set_solver.
Qed.

Lemma running_default n m : running (with_capacities default_limits n m).
Proof. split; cbn; try apply wf_new; done. Qed.

Lemma ticking_default n m len :
  N.of_nat len <= u64_max → ticking (with_capacities default_limits n m) len.
Proof. intros H. split; cbn; try apply wf_new; done. Qed.

Definition sample_messages : list message :=
  [mkMessage (Host "gw") true (Some (repeat 1 16)) 0; mkMessage (Host "gw") true (Some (repeat 2 16)) 5;
   mkMessage (Host "h") false None 7; mkMessage (Host "gw") true (Some [1]) 9].

Lemma admitted_messages_bounded_witness :
  ∃ r' ress, run_messages sample_messages (with_capacities default_limits 4 4) = Some (r', ress)
    ∧ TOKEN * admitted (Gateway "gw") sample_messages ress <= TOKEN * 10000 + 500 * (9 - 0).
Proof.
  apply (admitted_messages_bounded (Gateway "gw") 0 9 sample_messages
           (with_capacities default_limits 4 4)).
  - apply ticking_default. vm_compute. discriminate.
  - intros l. cbn. by rewrite lookup_empty.
  - lia.
  - vm_compute. lia.
  - repeat constructor; cbn; intros; lia || discriminate.
Defined.

Definition one_token : Limits := mkLimits 1 1 1 1.
Definition after_one : AgentRate :=
  default (with_capacities one_token 4 4)
    (fst <$> admit_message (Host "gw") true None 0 (with_capacities one_token 4 4)).

Lemma after_one_running : running after_one.
Proof.
  assert (running (with_capacities one_token 4 4)) as Hr by (split; cbn; try apply wf_new; done).
  pose proof (take_for_outcome (Host "gw") true None 0 _ Hr) as Ho.
  unfold after_one, admit_message.
  split; [| |by vm_compute..]; inversion Ho; subst; done.
Qed.

Definition after_refusal : AgentRate :=
  default after_one (fst <$> admit_message (Host "gw") true (Some (repeat 1 16)) 5 after_one).
Definition after_enrolment : AgentRate :=
  default after_one (fst <$> admit_enrolment (Host "gw") true None 5 after_one).

Lemma after_refusal_eq :
  admit_message (Host "gw") true (Some (repeat 1 16)) 5 after_one = Some (after_refusal, Err BGateway).
Proof. vm_compute. reflexivity. Qed.
Lemma after_enrolment_eq :
  admit_enrolment (Host "gw") true None 5 after_one = Some (after_enrolment, Ok tt).
Proof. vm_compute. reflexivity. Qed.

Lemma admit_refusal_takes_nothing_witness :
  own_tokens after_one (Gateway "gw") 5 = 5
  ∧ ∀ k, own_tokens after_one k 5 <= own_tokens after_refusal k 5.
Proof.
  split; [vm_compute; reflexivity|].
  apply (admit_refusal_takes_nothing (Host "gw") true (Some (repeat 1 16)) 5 after_one
           after_refusal BGateway after_one_running after_refusal_eq).
Defined.

Lemma enrolment_spares_members_witness :
  own_tokens after_one (Gateway "gw") 5 = 5
  ∧ ∀ h, own_tokens after_one (Gateway h) 5 <= own_tokens after_enrolment (Gateway h) 5.
Proof.
  split; [vm_compute; reflexivity|].
  apply (enrolment_spares_members "gw" None 5 after_one after_enrolment (Ok tt)
           after_one_running after_enrolment_eq).
Defined.
End Server.

(** ** A Gateway's downstream hosts *)

Module Downstream.

(** [GatewayRateLimitConfig]. *)
Record Limits := mkLimits {
  messages_per_sec : N;
  burst : N;
}.

Definition LOG_EVERY_MS : N := 60000.
Definition LOGGED_HOSTS : nat := N.to_nat 4096.

Inductive Key :=
| Host (host : string)
| Peer (peer : IpAddr).

#[export] Instance Key_eq_dec : EqDecision Key.
Proof. solve_decision. Defined.
#[export] Instance Key_countable : Countable Key.
Proof.
  refine (inj_countable' (λ k, match k with Host h => inl h | Peer p => inr p end)
    (λ k, match k with inl h => Host h | inr p => Peer p end) _).
  by intros [].
Defined.

(** [Key::of]; a [SocketAddr] is its address here, as its port is not looked at. *)
Definition Key_of (enrolling : bool) (speaker : string) (peer : option IpAddr) : Key :=
  if enrolling then Peer (peer_key (default (V4 0) peer)) else Host speaker.

Record Refused := mkRefused {
  logged_ms : N;
  count : N;
}.

Record State := mkState {
  hosts : Table Key;
  refused : gmap Key Refused;
}.

(** [State::refused]: the refusals to log now, if its minute is up. [None] outside is the panic of
    the count at [u64::MAX]. *)
Definition count_refusal (key : Key) (now_ms : N) (refused : gmap Key Refused) :
    option (gmap Key Refused * option N) :=
  let refused :=
    if bool_decide (refused !! key = None) && (LOGGED_HOSTS <=? size refused)%nat
    then ∅ else refused in
  match refused !! key with
  | Some e =>
      if saturating_sub now_ms (logged_ms e) <? LOG_EVERY_MS then
        n ← checked_add u64_max (count e) 1;
        Some (<[key := mkRefused (logged_ms e) n]> refused, None)
      else
        n ← checked_add u64_max (count e) 1;
        Some (<[key := mkRefused now_ms 0]> refused, Some n)
  | None => Some (<[key := mkRefused now_ms 0]> refused, Some 1)
  end.

(** [HostRate::admit_at], with the count it logs beside its answer. *)
Definition admit_at (l : Limits) (key : Key) (now_ms : N) (s : State) :
    option (State * bool * option N) :=
  '(hosts', ok) ← take key (messages_per_sec l) (burst l) now_ms (hosts s);
  if ok : bool then Some (mkState hosts' (refused s), true, None)
  else
    '(refused', logged) ← count_refusal key now_ms (refused s);
    Some (mkState hosts' refused', false, logged).

(** ** The log of refusals *)

(** The refusals of one host one after the other, with what each logged. *)
Fixpoint refusals (key : Key) (nows : list N) (m : gmap Key Refused) :
    option (gmap Key Refused * list (option N)) :=
  match nows with
  | [] => Some (m, [])
  | now :: nows =>
      '(m, logged) ← count_refusal key now m;
      '(m, ls) ← refusals key nows m;
      Some (m, logged :: ls)
  end.

Definition sum_logged (ls : list (option N)) : N := foldr (λ o n, default 0 o + n) 0 ls.

(** The refusals of [key] counted and not yet logged. *)
Definition pending (key : Key) (m : gmap Key Refused) : N :=
  default 0 (count <$> m !! key).

Lemma count_refusal_spec key now m :
  pending key m < u64_max →
  ∃ m' logged, count_refusal key now m = Some (m', logged)
    ∧ default 0 logged + pending key m' = pending key m + 1
    ∧ (size m <= LOGGED_HOSTS → size m' <= LOGGED_HOSTS)%nat.
Proof.
  intros Hp. unfold count_refusal, pending in *.
  set (m0 := if bool_decide _ && _ then ∅ else m).
  assert (m0 !! key = m !! key ∧ (size m <= LOGGED_HOSTS → m0 !! key = None →
    size m0 < LOGGED_HOSTS)%nat ∧ (size m0 <= size m)%nat) as (Hk & Hs & Hle).
  { unfold m0. case_bool_decide as E; cbn [andb].
    - destruct (Nat.leb_spec LOGGED_HOSTS (size m)) as [Hfull|Hroom].
      + rewrite E. change (size (∅ : gmap Key Refused)) with 0%nat.
        split_and!; [apply lookup_empty|intros _ _; unfold LOGGED_HOSTS; lia|lia].
      + split_and!; [done|lia|lia].
    - split_and!; [done|done|lia]. }
  clearbody m0. rewrite <- Hk in *. destruct (m0 !! key) as [e|] eqn:E; cbn in *.
  - assert (checked_add u64_max (count e) 1 = Some (count e + 1)) as -> by (apply checked_add_Some; lia).
    cbn. destruct (_ <? _); do 2 eexists; (split; [done|]); rewrite lookup_insert_eq; cbn;
      rewrite map_size_insert_Some by eauto; split; lia.
  - do 2 eexists. split; [done|]. rewrite lookup_insert_eq. cbn. split; [lia|].
    rewrite map_size_insert_None by done. intros Hm. specialize (Hs Hm eq_refl). lia.
Qed.

(** No refusal is lost from the log and none is counted twice: after any sequence of refusals
    of one downstream host, what the log lines have said and what is still being counted add up to
    the refusals there were. *)
Theorem refusals_all_accounted key nows m :
  pending key m + N.of_nat (length nows) <= u64_max →
  ∃ m' ls, refusals key nows m = Some (m', ls)
    ∧ sum_logged ls + pending key m' = pending key m + N.of_nat (length nows).
Proof.
  revert m. induction nows as [|now nows IH]; intros m Hm.
  { exists m, []. cbn. split; [done|lia]. }
  cbn [length] in *. rewrite Nat2N.inj_succ in *.
  destruct (count_refusal_spec key now m) as (m1 & logged & Hc & Hs & _); [lia|].
  destruct (IH m1) as (m2 & ls & Hr & Hsum); [lia|].
  exists m2, (logged :: ls). split; [cbn; rewrite Hc; cbn; by rewrite Hr|].
  change (sum_logged (logged :: ls)) with (default 0 logged + sum_logged ls). lia.
Qed.

Lemma refusals_all_accounted_witness :
  ∃ m' ls, refusals (Host "h") [0; 10; 20; 60000; 60001] ∅ = Some (m', ls)
    ∧ sum_logged ls + pending (Host "h") m'
      = pending (Host "h") ∅ + N.of_nat (length [0; 10; 20; 60000; 60001]).
Proof.
  apply (refusals_all_accounted (Host "h") [0; 10; 20; 60000; 60001] ∅).
  vm_compute. discriminate.
Defined.
End Downstream.
