(* ===== verification/Throttle.v ===== *)
(** * The back-off after repeated admission failures

    The model of [fleet-server]'s [throttle]: one bounded table of peer addresses and their
    failures. The clock is the argument [now]. The order in which a [HashMap] is walked is not
    specified, so the walk is a parameter, [HashIter] below, of which only that it visits every
    entry once is known; it decides which of several equally old entries is dropped. [None] is the
    panic of an overflowing [+] or [*]. *)

From S2P Require Import Prelude Rate.

Open Scope N_scope.

Record Limits := mkLimits {
  max_failures : N;
  window_secs : N;
  backoff_secs : N;
}.

Definition default_limits : Limits := mkLimits 10 60 300.
Definition DEFAULT_CAPACITY : nat := N.to_nat 10000.

Record Entry := mkEntry {
  since_ms : N;
  failures : N;
  blocked_until_ms : option N;
  last_ms : N;
  in_flight : N;
}.

Record Throttle := mkThrottle {
  limits : Limits;
  capacity : nat;
  entries : gmap IpAddr Entry;
}.

Definition with_capacity (l : Limits) (cap : nat) : Throttle := mkThrottle l (Nat.max cap 1) ∅.

(** The key of the eviction: an entry in back-off or with attempts under way is [busy]. *)
Definition busy (now : N) (e : Entry) : bool :=
  match blocked_until_ms e with Some until => now <? until | None => false end || (0 <? in_flight e).

(** [(bool, u64)] in its derived order. *)
Definition evict_before (now : N) (a b : Entry) : bool :=
  match busy now a, busy now b with
  | false, true => true
  | true, false => false
  | _, _ => last_ms a <? last_ms b
  end.

(** [Iterator::min_by_key]: the first of the least. *)
Fixpoint min_by (now : N) (l : list (IpAddr * Entry)) : option (IpAddr * Entry) :=
  match l with
  | [] => None
  | x :: l =>
      match min_by now l with
      | Some y => if evict_before now y.2 x.2 then Some y else Some x
      | None => Some x
      end
  end.

Section throttle.
Context `{!HashIter IpAddr Entry}.
Implicit Types (t : Throttle) (peer : IpAddr).

(** The seconds [peer] still has to wait. *)
Definition retry_after peer (now : N) t : option N :=
  e ← entries t !! peer_key peer;
  until ← blocked_until_ms e;
  if now <? until then Some (N.max ((until - now + 999) / 1000) 1) else None.

Definition fresh_entry (now : N) : Entry := mkEntry now 0 None now 0.

(** [entry_for]: the entries with room made for [key] and its entry among them. *)
Definition entry_for (m : gmap IpAddr Entry) (cap : nat) (key : IpAddr) (now : N) :
    gmap IpAddr Entry * Entry :=
  let m :=
    if bool_decide (m !! key = None) && (cap <=? size m)%nat
    then match min_by now (hash_iter m) with
         | Some (oldest, _) => delete oldest m
         | None => m
         end
    else m in
  match m !! key with
  | Some e => (m, e)
  | None => (<[key := fresh_entry now]> m, fresh_entry now)
  end.

Definition set_entry t (m : gmap IpAddr Entry) (key : IpAddr) (e : Entry) : Throttle :=
  mkThrottle (limits t) (capacity t) (<[key := e]> m).

(** [begin]: the key of the attempt when it may be made. *)
Definition begin peer (now : N) t : option (Throttle * option IpAddr) :=
  let key := peer_key peer in
  let '(m, e) := entry_for (entries t) (capacity t) key now in
  s ← checked_add u32_max (failures e) (in_flight e);
  if max_failures (limits t) <=? s then Some (mkThrottle (limits t) (capacity t) m, None)
  else
    n ← checked_add u32_max (in_flight e) 1;
    Some (set_entry t m key
            (mkEntry (since_ms e) (failures e) (blocked_until_ms e) (last_ms e) n), Some key).

(** [Drop for Attempt]. *)
Definition drop_attempt (key : IpAddr) t : Throttle :=
  match entries t !! key with
  | Some e =>
      set_entry t (entries t) key
        (mkEntry (since_ms e) (failures e) (blocked_until_ms e) (last_ms e)
           (saturating_sub (in_flight e) 1))
  | None => t
  end.

Definition failed peer (now : N) t : option Throttle :=
  let key := peer_key peer in
  window_ms ← checked_mul u64_max (window_secs (limits t)) 1000;
  let '(m, e) := entry_for (entries t) (capacity t) key now in
  let e := if window_ms <? saturating_sub now (since_ms e)
           then mkEntry now 0 (blocked_until_ms e) (last_ms e) (in_flight e) else e in
  let e := mkEntry (since_ms e) (saturating_add u32_max (failures e) 1) (blocked_until_ms e) now
             (in_flight e) in
  if max_failures (limits t) <=? failures e then
    backoff ← checked_mul u64_max (backoff_secs (limits t)) 1000;
    until ← checked_add u64_max now backoff;
    Some (set_entry t m key (mkEntry now 0 (Some until) (last_ms e) (in_flight e)))
  else Some (set_entry t m key e).

(** ** Eviction *)

Lemma min_by_None now l : min_by now l = None ↔ l = [].
Proof. destruct l as [|x l]; [done|]. cbn. destruct (min_by now l); [case_match|]; done. Qed.

Lemma evict_before_trans now a b c :
  evict_before now b a = false → evict_before now c b = false → evict_before now c a = false.
Proof.
  unfold evict_before. destruct (busy now a), (busy now b), (busy now c); try done;
    rewrite !N.ltb_ge; lia.
Qed.

Lemma min_by_Some now l x :
  min_by now l = Some x → x ∈ l ∧ ∀ y, y ∈ l → evict_before now y.2 x.2 = false.
Proof.
  revert x. induction l as [|z l IH]; intros x; [done|]. cbn.
  assert (∀ e, evict_before now e e = false) as Hrefl.
  { intros e. unfold evict_before. destruct (busy now e); apply N.ltb_irrefl. }
  destruct (min_by now l) as [y|] eqn:E.
  - destruct (IH y eq_refl) as [Hy Hmin]. destruct (evict_before now y.2 z.2) eqn:Eyz; intros [= <-].
    + split; [set_solver|]. intros w [->|Hw]%elem_of_cons; [|by apply Hmin].
      unfold evict_before in *. destruct (busy now y.2), (busy now z.2); try done.
      all: rewrite N.ltb_lt in Eyz; rewrite N.ltb_ge; lia.
    + split; [set_solver|]. intros w [->|Hw]%elem_of_cons; [apply Hrefl|].
      eapply evict_before_trans; [exact Eyz|by apply Hmin].
  - apply min_by_None in E as ->. intros [= <-]. split; [set_solver|].
    intros w [->|Hw]%elem_of_cons; [apply Hrefl|by apply elem_of_nil in Hw].
Qed.

Lemma elem_of_hash_iter (m : gmap IpAddr Entry) k e : (k, e) ∈ hash_iter m ↔ m !! k = Some e.
Proof. rewrite hash_iter_perm. apply elem_of_map_to_list. Qed.

(** [entry_for], whole. *)
Lemma entry_for_spec m cap key now m' e :
  (1 <= cap)%nat → (size m <= cap)%nat → entry_for m cap key now = (m', e) →
  m' !! key = Some e ∧ (size m' <= cap)%nat
  ∧ (m !! key = Some e ∨ (m !! key = None ∧ e = fresh_entry now))
  ∧ (∀ k, k ≠ key → m' !! k = m !! k
       ∨ (m' !! k = None ∧ m !! key = None ∧ size m = cap
          ∧ ∃ e', m !! k = Some e'
            ∧ ∀ k2 e2, m !! k2 = Some e2 → evict_before now e2 e' = false)).
Proof.
  intros Hcap Hsize. unfold entry_for.
  destruct (bool_decide_reflect (m !! key = None)) as [Hk|Hk]; cbn.
  2:{ destruct (m !! key) as [e'|] eqn:E; [|done]. intros [= <- <-]. naive_solver. }
  destruct (Nat.leb_spec cap (size m)) as [Hf|Hf].
  2:{ rewrite Hk. intros [= <- <-]. split_and!; [by rewrite lookup_insert_eq| |by right|].
      - rewrite map_size_insert_None by done. lia.
      - intros k Hne. left. by rewrite lookup_insert_ne. }
  destruct (min_by now (hash_iter m)) as [[oldest eo]|] eqn:E.
  2:{ apply min_by_None in E. exfalso.
      assert (length (hash_iter m) = 0%nat) as Hl by by rewrite E.
      rewrite hash_iter_perm, length_map_to_list in Hl. lia. }
  apply min_by_Some in E as [Ho%elem_of_hash_iter Hmin].
  assert (oldest ≠ key) as Hne by (intros ->; congruence).
  rewrite lookup_delete_ne, Hk by done. intros [= <- <-].
  split_and!; [by rewrite lookup_insert_eq| |by right|].
  - rewrite map_size_insert_None by (by rewrite lookup_delete_ne).
    rewrite map_size_delete_Some by eauto. lia.
  - intros k Hkk. rewrite lookup_insert_ne by done.
    destruct (decide (oldest = k)) as [->|]; [|left; by rewrite lookup_delete_ne].
    right. split_and!; [by rewrite lookup_delete_eq|done|lia|]. exists eo. split; [done|].
    intros k2 e2 He2. apply (Hmin (k2, e2)). by apply elem_of_hash_iter.
Qed.

(** ** The invariant *)

(** Settings with which no arithmetic of the throttle can leave its width before [latest]. *)
Record sane (l : Limits) (latest : N) : Prop := {
  sane_max : 1 <= max_failures l;
  sane_sum : 2 * max_failures l <= u32_max;
  sane_window : window_secs l * 1000 <= u64_max;
  sane_backoff : latest + backoff_secs l * 1000 <= u64_max;
}.

Definition entry_ok (l : Limits) (e : Entry) : Prop :=
  failures e < max_failures l ∧ in_flight e <= max_failures l.

Record throttle_ok t : Prop := {
  ok_capacity : (1 <= capacity t)%nat;
  ok_size : (size (entries t) <= capacity t)%nat;
  ok_entries k e : entries t !! k = Some e → entry_ok (limits t) e;
}.

Lemma with_capacity_ok l cap : throttle_ok (with_capacity l cap).
Proof. split; cbn; [lia|rewrite map_size_empty; lia|done]. Qed.

(** The operations, as one step. *)
Inductive op :=
| Begin (peer : IpAddr) (now : N)
| Drop (key : IpAddr)
| Failed (peer : IpAddr) (now : N).

Definition op_time (o : op) : N :=
  match o with Begin _ now | Failed _ now => now | Drop _ => 0 end.

Definition step (o : op) t : option Throttle :=
  match o with
  | Begin peer now => fst <$> begin peer now t
  | Drop key => Some (drop_attempt key t)
  | Failed peer now => failed peer now t
  end.

Lemma entry_for_ok t key now m e :
  1 <= max_failures (limits t) → throttle_ok t →
  entry_for (entries t) (capacity t) key now = (m, e) →
  (size m <= capacity t)%nat ∧ m !! key = Some e
  ∧ entry_ok (limits t) e ∧ ∀ k e', m !! k = Some e' → entry_ok (limits t) e'.
Proof.
  intros Hmax Hok He.
  destruct (entry_for_spec _ _ _ _ _ _ (ok_capacity _ Hok) (ok_size _ Hok) He) as (Hk & Hs & Hkey & Ho).
  assert (entry_ok (limits t) e) as Hee.
  { destruct Hkey as [H|[_ ->]]; [by eapply ok_entries|]. split; cbn; lia. }
  split_and!; [done..|]. intros k e' Hk'. destruct (decide (k = key)) as [->|Hne]; [congruence|].
  destruct (Ho k Hne) as [E|(E & _)]; [|congruence]. rewrite E in Hk'. by eapply ok_entries.
Qed.

Lemma set_entry_ok t m key e :
  throttle_ok t → (size m <= capacity t)%nat → is_Some (m !! key) → entry_ok (limits t) e →
  (∀ k e', m !! k = Some e' → entry_ok (limits t) e') → throttle_ok (set_entry t m key e).
Proof.
  intros Hok Hs [e0 He0] He Hm. split; cbn.
  - apply Hok.
  - by rewrite map_size_insert_Some by eauto.
  - intros k e' [[_ <-]|[_ Hk]]%lookup_insert_Some; [done|by eapply Hm].
Qed.

Lemma begin_spec peer now t :
  sane (limits t) now → throttle_ok t →
  let '(m, e) := entry_for (entries t) (capacity t) (peer_key peer) now in
  let t' := if max_failures (limits t) <=? failures e + in_flight e
            then mkThrottle (limits t) (capacity t) m
            else set_entry t m (peer_key peer)
                   (mkEntry (since_ms e) (failures e) (blocked_until_ms e) (last_ms e) (in_flight e + 1)) in
  begin peer now t =
    Some (t', if max_failures (limits t) <=? failures e + in_flight e then None else Some (peer_key peer))
  ∧ throttle_ok t'.
Proof.
  intros Hs Hok. unfold begin. destruct (entry_for _ _ _ _) as [m e] eqn:E.
  destruct (entry_for_ok _ _ _ _ _ (sane_max _ _ Hs) Hok E) as (Hsz & Hk & He & Hm).
  pose proof He as [Hf Hi]. pose proof (sane_sum _ _ Hs).
  assert (checked_add u32_max (failures e) (in_flight e) = Some (failures e + in_flight e)) as ->
    by (apply checked_add_Some; lia). cbn.
  destruct (N.leb_spec (max_failures (limits t)) (failures e + in_flight e)) as [Hcmp|Hcmp].
  { split; [done|]. split; [apply Hok|done|done]. }
  assert (checked_add u32_max (in_flight e) 1 = Some (in_flight e + 1)) as ->
    by (apply checked_add_Some; lia). cbn.
  split; [done|]. apply set_entry_ok; eauto. split; cbn; [done|lia].
Qed.

(** The entry [failed] counts in, its window renewed when it is over. *)
Definition current (l : Limits) (now : N) (e : Entry) : Entry :=
  if window_secs l * 1000 <? now - since_ms e
  then mkEntry now 0 (blocked_until_ms e) (last_ms e) (in_flight e) else e.

Definition counted (l : Limits) (now : N) (e : Entry) : Entry :=
  let e := current l now e in
  if max_failures l <=? failures e + 1
  then mkEntry now 0 (Some (now + backoff_secs l * 1000)) now (in_flight e)
  else mkEntry (since_ms e) (failures e + 1) (blocked_until_ms e) now (in_flight e).

Lemma failed_spec peer now t :
  sane (limits t) now → throttle_ok t →
  let '(m, e) := entry_for (entries t) (capacity t) (peer_key peer) now in
  let t' := set_entry t m (peer_key peer) (counted (limits t) now e) in
  failed peer now t = Some t' ∧ throttle_ok t'.
Proof.
  intros Hs Hok. unfold failed.
  assert (checked_mul u64_max (window_secs (limits t)) 1000 = Some (window_secs (limits t) * 1000)) as ->
    by (apply checked_mul_Some; pose proof (sane_window _ _ Hs); lia). cbn.
  destruct (entry_for _ _ _ _) as [m e] eqn:E.
  destruct (entry_for_ok _ _ _ _ _ (sane_max _ _ Hs) Hok E) as (Hsz & Hk & He & Hm).
  pose proof (sane_sum _ _ Hs). pose proof (sane_max _ _ Hs). pose proof (sane_backoff _ _ Hs).
  change (if window_secs (limits t) * 1000 <? saturating_sub now (since_ms e) then _ else e)
    with (current (limits t) now e).
  assert (entry_ok (limits t) (current (limits t) now e)) as [Hf Hi].
  { unfold current. case_match; [|done]. split; cbn; [lia|apply He]. }
  assert (saturating_add u32_max (failures (current (limits t) now e)) 1
          = failures (current (limits t) now e) + 1) as ->.
  { unfold saturating_add. apply N.min_r. lia. }
  unfold counted. cbn.
  destruct (N.leb_spec (max_failures (limits t)) (failures (current (limits t) now e) + 1)) as [Hcmp|Hcmp].
  - assert (checked_mul u64_max (backoff_secs (limits t)) 1000 = Some (backoff_secs (limits t) * 1000)) as ->
      by (apply checked_mul_Some; lia). cbn.
    assert (checked_add u64_max now (backoff_secs (limits t) * 1000)
            = Some (now + backoff_secs (limits t) * 1000)) as -> by (apply checked_add_Some; lia). cbn.
    split; [done|]. apply set_entry_ok; eauto. split; cbn; [lia|done].
  - split; [done|]. apply set_entry_ok; eauto. split; cbn; [lia|done].
Qed.

Lemma drop_attempt_ok key t : throttle_ok t → throttle_ok (drop_attempt key t).
Proof.
  intros Hok. unfold drop_attempt. destruct (entries t !! key) as [e|] eqn:E; [|done].
  pose proof (ok_entries _ Hok _ _ E) as [Hf Hi].
  apply set_entry_ok; eauto; [apply Hok| |apply Hok]. split; cbn; [done|]. unfold saturating_sub. lia.
Qed.

Lemma step_ok o t :
  sane (limits t) (op_time o) → throttle_ok t →
  ∃ t', step o t = Some t' ∧ throttle_ok t' ∧ limits t' = limits t ∧ capacity t' = capacity t.
Proof.
  intros Hs Hok. destruct o as [peer now|key|peer now]; cbn in *.
  - pose proof (begin_spec peer now t Hs Hok) as H. destruct (entry_for _ _ _ _) as [m e].
    cbn in H. destruct H as [-> Hok']. cbn. eexists. split_and!; [done..| |]; by case_match.
  - eexists. split; [done|]. split; [by apply drop_attempt_ok|].
    unfold drop_attempt. by destruct (entries t !! key).
  - pose proof (failed_spec peer now t Hs Hok) as H. destruct (entry_for _ _ _ _) as [m e].
    cbn in H. destruct H as [-> Hok']. eauto.
Qed.

Fixpoint run_ops (os : list op) t : option Throttle :=
  match os with
  | [] => Some t
  | o :: os => t ← step o t; run_ops os t
  end.

(** ** A run of failures *)

Fixpoint fail_all peer (nows : list N) t : option Throttle :=
  match nows with
  | [] => Some t
  | now :: nows => t ← failed peer now t; fail_all peer nows t
  end.

Definition known t (key : IpAddr) (n first : N) : Prop :=
  ∃ e, entries t !! key = Some e ∧ failures e = n ∧ since_ms e = first
    ∧ blocked_until_ms e = None.

Lemma failed_known peer now t n first :
  sane (limits t) now → throttle_ok t →
  known t (peer_key peer) n first → now <= first + window_secs (limits t) * 1000 →
  ∃ t', failed peer now t = Some t' ∧ throttle_ok t' ∧ limits t' = limits t
    ∧ (if n + 1 <? max_failures (limits t) then known t' (peer_key peer) (n + 1) first
       else blocked_until_ms <$> entries t' !! peer_key peer
            = Some (Some (now + backoff_secs (limits t) * 1000))).
Proof.
  intros Hs Hok (e & He & Hn & Hf & Hb) Hnow. pose proof (failed_spec peer now t Hs Hok) as H.
  unfold entry_for in H. rewrite bool_decide_eq_false_2 in H by congruence. cbn in H.
  rewrite He in H. destruct H as [-> Hok']. eexists. split_and!; [done..|].
  assert (current (limits t) now e = e) as Hcur.
  { unfold current. destruct (N.ltb_spec (window_secs (limits t) * 1000) (now - since_ms e)); [lia|done]. }
  unfold set_entry, counted. cbn. rewrite lookup_insert_eq, Hcur, Hn, N.leb_antisym.
  destruct (n + 1 <? max_failures (limits t)); cbn; [|done].
  unfold known. cbn. rewrite lookup_insert_eq. eexists. split; [done|]. cbn. by rewrite Hf.
Qed.

Lemma fail_all_blocks peer nows t n first latest :
  sane (limits t) latest → throttle_ok t → known t (peer_key peer) n first →
  Forall (λ now, now <= latest ∧ now <= first + window_secs (limits t) * 1000) nows →
  n + N.of_nat (length nows) = max_failures (limits t) → nows ≠ [] →
  ∃ t', fail_all peer nows t = Some t'
    ∧ blocked_until_ms <$> entries t' !! peer_key peer
      = Some (Some (List.last nows 0 + backoff_secs (limits t) * 1000)).
Proof.
  intros Hs Hok Hk Hall. revert n t Hs Hok Hk Hall.
  induction nows as [|now nows IH]; intros n t Hs Hok Hk Hall Hn Hne; [done|].
  apply Forall_cons in Hall as [[Hl Hnow] Hall]. cbn [length] in Hn. rewrite Nat2N.inj_succ in Hn.
  assert (sane (limits t) now) as Hs' by (destruct Hs; split; try done; lia).
  destruct (failed_known peer now t n first Hs' Hok Hk Hnow) as (t1 & Hf & Hok1 & Hl1 & Hk1).
  cbn [fail_all]. rewrite Hf. cbn. destruct nows as [|now2 nows].
  - exists t1. split; [done|]. cbn in *.
    destruct (N.ltb_spec (n + 1) (max_failures (limits t))); [lia|done].
  - destruct (N.ltb_spec (n + 1) (max_failures (limits t))); [|cbn [length] in Hn; lia].
    change (List.last (now :: now2 :: nows) 0) with (List.last (now2 :: nows) 0).
    rewrite <- Hl1 in *. eapply IH; eauto. lia.
Qed.
End throttle.

(** ** Properties *)

(** The throttle never panics and keeps its invariant, whatever sequence of attempts begun and
    dropped and of failures counted it is given, from whichever addresses: the table never holds more
    than its capacity, no address ever holds [max_failures] failures, and no address has more than
    [max_failures] attempts under way. *)
Theorem throttle_run_ok `{!HashIter IpAddr Entry} (os : list op) (t : Throttle) (latest : N) :
  sane (limits t) latest → throttle_ok t → Forall (λ o, op_time o <= latest) os →
  ∃ t', run_ops os t = Some t' ∧ throttle_ok t' ∧ limits t' = limits t.
Proof.
  intros Hs Hok Hall. revert t Hs Hok. induction Hall as [|o os Ho _ IH]; intros t Hs Hok; cbn; [by eauto|].
  destruct (step_ok o t) as (t1 & Hst & Hok1 & Hl1 & _); [destruct Hs; split; try done; lia|done|].
  rewrite Hst. cbn. rewrite <- Hl1 in *. by apply IH.
Qed.

Lemma throttle_run_ok_witness :
  ∃ t', run_ops [Begin (V4 1) 0; Failed (V4 1) 5; Drop (V4 1); Failed (V4 2) 9]
          (with_capacity default_limits 1) = Some t'
    ∧ throttle_ok t' ∧ limits t' = default_limits.
Proof.
  apply (throttle_run_ok [Begin (V4 1) 0; Failed (V4 1) 5; Drop (V4 1); Failed (V4 2) 9]
           (with_capacity default_limits 1) 9).
  - split; vm_compute; discriminate.
  - apply with_capacity_ok.
  - repeat constructor; vm_compute; discriminate.
Defined.

(** C6: [max_failures] failures of one address within one window put it in back-off for
    [backoff_secs]: right after the last of them [retry_after] answers exactly that many seconds (at
    least one), and it answers [None] again from the moment the back-off is over. *)
Theorem failures_block `{!HashIter IpAddr Entry} peer first nows latest (t : Throttle) :
  sane (limits t) latest → throttle_ok t → known t (peer_key peer) 0 first →
  Forall (λ now, now <= latest ∧ now <= first + window_secs (limits t) * 1000) nows →
  N.of_nat (length nows) = max_failures (limits t) →
  ∃ t', fail_all peer nows t = Some t'
    ∧ (1 <= backoff_secs (limits t) →
       retry_after peer (List.last nows 0) t' = Some (backoff_secs (limits t)))
    ∧ ∀ later, List.last nows 0 + backoff_secs (limits t) * 1000 <= later →
        retry_after peer later t' = None.
Proof.
  intros Hs Hok Hk Hall Hn.
  assert (nows ≠ []) by (intros ->; pose proof (sane_max _ _ Hs); cbn in Hn; lia).
  destruct (fail_all_blocks peer nows t 0 first latest) as (t' & Hf & Hb); try done.
  exists t'. split; [done|]. unfold retry_after.
  destruct (entries t' !! peer_key peer) as [e|]; [|done]. cbn in *. injection Hb as ->. cbn.
  generalize (List.last nows 0). intros l. split.
  - intros Hbo. destruct (N.ltb_spec l (l + backoff_secs (limits t) * 1000)); [|lia]. f_equal.
    replace (l + backoff_secs (limits t) * 1000 - l + 999) with (999 + backoff_secs (limits t) * 1000) by lia.
    rewrite N.div_add by done. change (999 / 1000) with 0. lia.
  - intros later Hl. by destruct (N.ltb_spec later (l + backoff_secs (limits t) * 1000)); [lia|].
Qed.

Definition throttle_of_two : Throttle :=
  default (with_capacity (mkLimits 2 60 300) 4)
    (fst <$> begin (V4 1) 0 (with_capacity (mkLimits 2 60 300) 4)).

Lemma failures_block_witness :
  ∃ t', fail_all (V4 1) [5; 9] throttle_of_two = Some t'
    ∧ (1 <= 300 → retry_after (V4 1) 9 t' = Some 300)
    ∧ ∀ later, 9 + 300 * 1000 <= later → retry_after (V4 1) later t' = None.
Proof.
  apply (failures_block (V4 1) 0 [5; 9] 9 throttle_of_two).
  - split; vm_compute; discriminate.
  - destruct (step_ok (Begin (V4 1) 0) (with_capacity (mkLimits 2 60 300) 4)) as (t' & E & Hok & _);
      [split; vm_compute; discriminate|apply with_capacity_ok|].
    unfold throttle_of_two. cbn in E. rewrite E. exact Hok.
  - eexists. vm_compute. split_and!; reflexivity.
  - repeat constructor; vm_compute; discriminate.
  - reflexivity.
Defined.

(** An attempt is begun only while the failures of its address and the attempts already under
    way leave room: after [begin] said yes the two together are at most [max_failures], so however
    many attempts are sent at once, no more than that many are verified before one has failed. A
    refused [begin] changes no entry's count. *)
Theorem begin_bounds_attempts `{!HashIter IpAddr Entry} peer now (t : Throttle) :
  sane (limits t) now → throttle_ok t →
  ∃ t' key, begin peer now t = Some (t', key) ∧ ∃ e, entries t' !! peer_key peer = Some e
    ∧ match key with
      | Some k => k = peer_key peer ∧ 1 <= in_flight e ∧ failures e + in_flight e <= max_failures (limits t)
      | None => max_failures (limits t) <= failures e + in_flight e
                ∧ entries t !! peer_key peer = Some e
      end.
Proof.
  intros Hs Hok. pose proof (begin_spec peer now t Hs Hok) as H.
  destruct (entry_for (entries t) (capacity t) (peer_key peer) now) as [m e] eqn:E. cbn in H.
  destruct H as [-> _]. destruct (entry_for_spec _ _ _ _ _ _ (ok_capacity _ Hok) (ok_size _ Hok) E)
    as (Hk & _ & Hkey & _).
  do 2 eexists. split; [done|].
  destruct (N.leb_spec (max_failures (limits t)) (failures e + in_flight e)) as [Hle|Hle]; cbn.
  - exists e. split_and!; [done..|]. destruct Hkey as [?|[_ ->]]; [done|]. cbn in Hle.
    pose proof (sane_max _ _ Hs). lia.
  - rewrite lookup_insert_eq. eexists. split; [done|]. cbn. split_and!; [done|lia|lia].
Qed.

Lemma begin_bounds_attempts_witness :
  ∃ t' key, begin (V4 7) 3 (with_capacity default_limits 1) = Some (t', key)
    ∧ ∃ e, entries t' !! V4 7 = Some e
    ∧ match key with
      | Some k => k = V4 7 ∧ 1 <= in_flight e ∧ failures e + in_flight e <= 10
      | None => 10 <= failures e + in_flight e ∧ entries (with_capacity default_limits 1) !! V4 7 = Some e
      end.
Proof.
  apply (begin_bounds_attempts (V4 7) 3 (with_capacity default_limits 1)).
  - split; vm_compute; discriminate.
  - apply with_capacity_ok.
Defined.

(** A flood of fresh addresses cannot push a blocked one out: whatever entry a failure of
    another address makes the table forget, it is one that is neither in back-off nor has attempts
    under way, unless every entry of the full table is; and among those it is one heard from least
    recently. *)
Theorem eviction_spares_busy `{!HashIter IpAddr Entry} peer now (t t' : Throttle) k e :
  sane (limits t) now → throttle_ok t → failed peer now t = Some t' →
  entries t !! k = Some e → entries t' !! k = None →
  size (entries t) = capacity t ∧ entries t !! peer_key peer = None
  ∧ (busy now e = true → ∀ k2 e2, entries t !! k2 = Some e2 → busy now e2 = true)
  ∧ (∀ k2 e2, entries t !! k2 = Some e2 → busy now e2 = busy now e → last_ms e <= last_ms e2).
Proof.
  intros Hs Hok Hf Hk Hk'. pose proof (failed_spec peer now t Hs Hok) as H. rewrite Hf in H.
  destruct (entry_for (entries t) (capacity t) (peer_key peer) now) as [m e0] eqn:E. cbn in H.
  destruct H as [[= ->] _]. cbn in Hk'. apply lookup_insert_None in Hk' as [Hm Hne].
  destruct (entry_for_spec _ _ _ _ _ _ (ok_capacity _ Hok) (ok_size _ Hok) E) as (_ & _ & _ & Ho).
  destruct (Ho k) as [Heq|(_ & Hnone & Hsz & e' & He' & Hmin)]; [congruence..|]. simplify_eq.
  split_and!; [done..| |].
  - intros Hb k2 e2 Hk2. specialize (Hmin _ _ Hk2). unfold evict_before in Hmin.
    rewrite Hb in Hmin. by destruct (busy now e2).
  - intros k2 e2 Hk2 Hbe. specialize (Hmin _ _ Hk2). unfold evict_before in Hmin. rewrite Hbe in Hmin.
    by destruct (busy now e); apply N.ltb_ge in Hmin.
Qed.

Definition throttle_full : Throttle :=
  default (with_capacity default_limits 1) (failed (V4 1) 0 (with_capacity default_limits 1)).

Lemma eviction_spares_busy_witness :
  ∃ t', failed (V4 2) 5 throttle_full = Some t' ∧ entries t' !! V4 1 = None
    ∧ size (entries throttle_full) = capacity throttle_full.
Proof.
  eexists. split; [vm_compute; reflexivity|]. split; [vm_compute; reflexivity|].
  eapply (eviction_spares_busy (V4 2) 5 throttle_full _ (V4 1)).
  - split; vm_compute; discriminate.
  - destruct (step_ok (Failed (V4 1) 0) (with_capacity default_limits 1)) as (t' & E & Hok & _);
      [split; vm_compute; discriminate|apply with_capacity_ok|].
    unfold throttle_full. cbn [step] in E. rewrite E. exact Hok.
  - vm_compute. reflexivity.
  - vm_compute. reflexivity.
  - vm_compute. reflexivity.
Defined.
