(* ===== verification/Proto.v ===== *)
(** * Messages and attributes

    The parts of the generated protobuf types the models share ([opamp/proto]), and
    [opamp::attributes], which reads a string out of a set of attributes, and [opamp::uid]. *)

From S2P Require Import Prelude RustStr.

(** [AnyValue], a message around the [oneof] of a value; a [double] is its bits. *)
Inductive AnyValue :=
| mkAnyValue (value : option Value)
with Value :=
| StringValue (s : string)
| BoolValue (b : bool)
| IntValue (i : Z)
| DoubleValue (bits : N)
| ArrayValue (values : list AnyValue)
| KvlistValue (values : list (string * option AnyValue))
| BytesValue (bytes : list N).

Record KeyValue := mkKeyValue {
  key : string;
  value : option AnyValue;
}.

Record AgentDescription := mkDescription {
  identifying_attributes : list KeyValue;
  non_identifying_attributes : list KeyValue;
}.

Definition any_value (a : AnyValue) : option Value := let 'mkAnyValue v := a in v.

(** [string_value]: the first attribute of that key decides, and an empty string is not a value. *)
Definition string_value (attributes : list KeyValue) (k : string) : option string :=
  match List.find (λ kv, bool_decide (key kv = k)) attributes with
  | Some kv =>
      match value kv with
      | Some a =>
          match any_value a with
          | Some (StringValue s) => if is_empty s then None else Some s
          | _ => None
          end
      | None => None
      end
  | None => None
  end.

(** A string attribute of a description, identifying before non-identifying. *)
Definition attribute (description : AgentDescription) (k : string) : option string :=
  match string_value (identifying_attributes description) k with
  | Some v => Some v
  | None => string_value (non_identifying_attributes description) k
  end.

Definition string_attr (k v : string) : KeyValue :=
  mkKeyValue k (Some (mkAnyValue (Some (StringValue v)))).

Definition string_array_attr (k : string) (values : list string) : KeyValue :=
  mkKeyValue k (Some (mkAnyValue (Some (ArrayValue
    (map (λ v, mkAnyValue (Some (StringValue v))) values))))).

(** An [InstanceUid] is its bytes; [from_wire] takes sixteen of them and nothing else. *)
Definition InstanceUid : Type := list N.

Definition from_wire (bytes : list N) : option InstanceUid :=
  if (length bytes =? 16)%nat then Some bytes else None.

(** ** Lemmas *)

Lemma from_wire_same (bytes uid : list N) : from_wire bytes = Some uid → uid = bytes.
Proof. unfold from_wire. destruct (_ =? _)%nat; congruence. Qed.

Lemma string_value_cons kv attributes k :
  string_value (kv :: attributes) k =
  if bool_decide (key kv = k) then string_value [kv] k else string_value attributes k.
Proof. unfold string_value. cbn. by case_bool_decide. Qed.

Lemma string_value_attr k v : v ≠ ""%string → string_value [string_attr k v] k = Some v.
Proof. unfold string_value. cbn. rewrite bool_decide_true by done. by destruct v. Qed.

(** Only the first attribute of a key is looked at. *)
Lemma string_value_app_absent l1 l2 k :
  k ∉ key <$> l1 → string_value (l1 ++ l2) k = string_value l2 k.
Proof.
  induction l1 as [|kv l1 IH]; [done|]. cbn. intros [Hne Hin]%not_elem_of_cons.
  rewrite string_value_cons, bool_decide_false by done. by apply IH.
Qed.

Lemma string_value_app_present l1 l2 k :
  k ∈ key <$> l1 → string_value (l1 ++ l2) k = string_value l1 k.
Proof.
  induction l1 as [|kv l1 IH]; [by intros ?%elem_of_nil|]. cbn [app fmap list_fmap].
  intros Hin. rewrite (string_value_cons kv (l1 ++ l2)), (string_value_cons kv l1).
  case_bool_decide; [done|].
  apply IH. set_solver.
Qed.

Lemma string_value_absent l k : k ∉ key <$> l → string_value l k = None.
Proof.
  intros H. rewrite <- (app_nil_r l). by rewrite string_value_app_absent.
Qed.

(** A value an attribute can have: [string_value] reads an empty string as none. *)
Definition nonempty (v : option string) : option string :=
  match v with
  | Some s => if is_empty s then None else Some s
  | None => None
  end.

Lemma string_value_pairs (l : list (string * string)) k :
  string_value (uncurry string_attr <$> l) k = nonempty ((list_to_map l : gmap string string) !! k).
Proof.
  induction l as [|[k' v'] l IH]; [done|]. cbn [fmap list_fmap uncurry list_to_map foldr].
  rewrite string_value_cons. cbn [key string_attr]. case_bool_decide as Hk; subst.
  - rewrite lookup_insert_eq. unfold string_value. cbn. by rewrite bool_decide_true.
  - rewrite lookup_insert_ne by done. apply IH.
Qed.

Lemma string_value_filter (p : string → bool) l k :
  string_value (List.filter (λ kv, p (key kv)) l) k = if p k then string_value l k else None.
Proof.
  induction l as [|kv l IH]; cbn [List.filter]; [by destruct (p k)|].
  rewrite (string_value_cons kv l). destruct (p (key kv)) eqn:Hp.
  - rewrite string_value_cons, IH. case_bool_decide; subst; [by rewrite Hp|done].
  - rewrite IH. case_bool_decide; subst; [by rewrite Hp|done].
Qed.

Lemma string_value_app l1 l2 k :
  string_value (l1 ++ l2) k =
  if bool_decide (k ∈ key <$> l1) then string_value l1 k else string_value l2 k.
Proof.
  case_bool_decide; [by apply string_value_app_present|by apply string_value_app_absent].
Qed.

Lemma keys_pairs (l : list (string * string)) : key <$> (uncurry string_attr <$> l) = l.*1.
Proof. rewrite <- list_fmap_compose. apply list_fmap_ext. by intros ? []. Qed.

Lemma elem_of_keys_filter (p : string → bool) l k :
  k ∈ key <$> List.filter (λ kv, p (key kv)) l ↔ p k = true ∧ k ∈ key <$> l.
Proof.
  rewrite !list_elem_of_fmap. setoid_rewrite list_elem_of_In. setoid_rewrite filter_In.
  naive_solver.
Qed.
