(* ===== verification/Labels.v ===== *)
(** * Labels and the effective description

    [fleet-server/src/labels.rs]: the labels an operator puts on an Agent, and the description a
    Selector is matched against. A refusal message is the data it is formatted from. *)

From S2P Require Import Prelude RustStr Proto.

Definition RESERVED_PREFIX : string := "fleet.".
Definition CLIENT_KIND_PREFIX : string := "supervisor.kind.".

Definition ours (k : string) : bool := starts_with RESERVED_PREFIX k.

(** The three refusals of [check_pairs]. *)
Inductive PairRefusal :=
| EmptyKey
| ReservedKey (key : string)
| EmptyValue (key : string).

Definition check_pair (pair : string * string) : option PairRefusal :=
  let (k, v) := pair in
  if is_blank k then Some EmptyKey
  else if ours k then Some (ReservedKey k)
  else if is_blank v then Some (EmptyValue k)
  else None.

Definition check_pairs (set : gmap string string) : result unit PairRefusal :=
  check_each check_pair (btree_iter set).

Definition reported_keys (description : option AgentDescription) : list string :=
  match description with
  | None => []
  | Some d => key <$> (identifying_attributes d ++ non_identifying_attributes d)
  end.

Record Sources := mkSources {
  host : gmap string string;
  reported : option AgentDescription;
  own : gmap string string;
  inherited : gmap string string;
}.

Definition adds_nothing (s : Sources) : bool :=
  bool_decide (host s = ∅) && bool_decide (own s = ∅) && bool_decide (inherited s = ∅)
  && negb (match reported s with
           | Some d => existsb (λ kv, ours (key kv))
                         (identifying_attributes d ++ non_identifying_attributes d)
           | None => false
           end).

(** The loop that appends the labels whose key is not taken yet. *)
Fixpoint push_labels (taken : gset string) (attributes : list KeyValue)
    (labels : list (string * string)) : list KeyValue :=
  match labels with
  | [] => attributes
  | (k, v) :: labels =>
      if ours k || bool_decide (k ∈ taken) then push_labels taken attributes labels
      else push_labels ({[k]} ∪ taken) (attributes ++ [string_attr k v]) labels
  end.

Definition effective_description (s : Sources) : option AgentDescription :=
  if adds_nothing s then reported s
  else
    let r := default (mkDescription [] []) (reported s) in
    let not_ours := List.filter (λ kv, negb (ours (key kv))) in
    let effective := mkDescription
      (not_ours (identifying_attributes r))
      ((uncurry string_attr <$> btree_iter (host s))
       ++ not_ours (non_identifying_attributes r)) in
    let taken := list_to_set (reported_keys (Some effective)) in
    Some (mkDescription (identifying_attributes effective)
            (push_labels taken (non_identifying_attributes effective)
               (btree_iter (own s) ++ btree_iter (inherited s)))).

Definition shadowed (description : option AgentDescription) (labels : gmap string string)
    : list string :=
  List.filter (λ k, bool_decide (k ∈ reported_keys description)) (btree_keys labels).

Definition ignored (description : option AgentDescription) : list string :=
  List.filter ours (reported_keys description).

Definition is_client_agent (description : option AgentDescription) : bool :=
  match description with
  | Some d => existsb (λ kv, starts_with CLIENT_KIND_PREFIX (key kv)) (non_identifying_attributes d)
  | None => false
  end.

Definition machine (description : option AgentDescription) : option string :=
  match description with
  | None => None
  | Some d =>
      match nonempty (attribute d "host.id") with
      | Some id => Some ("host.id=" +:+ id)
      | None =>
          match nonempty (attribute d "host.name") with
          | Some name => Some ("host.name=" +:+ name)
          | None => None
          end
      end
  end.

(** ** Lemmas *)

Lemma push_labels_app taken attributes labels :
  push_labels taken attributes labels = attributes ++ push_labels taken [] labels.
Proof.
  revert taken attributes. induction labels as [|[k v] labels IH]; intros taken attributes; cbn.
  - by rewrite app_nil_r.
  - case_match; [apply IH|]. rewrite IH, (IH _ [_]). by rewrite <- app_assoc.
Qed.

(** What a label contributes to a key: nothing when the key is the Server's or taken, and
    otherwise the first label of that key. *)
Lemma string_value_push_labels taken labels k :
  string_value (push_labels taken [] labels) k =
  if ours k || bool_decide (k ∈ taken) then None
  else nonempty ((list_to_map labels : gmap string string) !! k).
Proof.
  revert taken. induction labels as [|[k' v'] labels IH]; intros taken; cbn.
  - by case_match.
  - destruct (ours k' || bool_decide (k' ∈ taken)) eqn:Htaken.
    + rewrite IH. destruct (decide (k = k')) as [->|Hne]; [by rewrite Htaken|].
      by rewrite lookup_insert_ne.
    + rewrite push_labels_app. cbn [app]. rewrite string_value_cons. cbn [key string_attr].
      destruct (decide (k' = k)) as [->|Hne].
      * rewrite Htaken, lookup_insert_eq, bool_decide_true by done. unfold string_value. cbn.
        by rewrite bool_decide_true.
      * rewrite bool_decide_false, IH, lookup_insert_ne by done.
        by rewrite (bool_decide_ext (k ∈ {[k']} ∪ taken) (k ∈ taken)) by set_solver.
Qed.

Definition host_keys_reserved (s : Sources) : Prop :=
  ∀ k, is_Some (host s !! k) → ours k = true.

(** The first source that has a key, in the order of precedence: the Host's values, what the Agent
    reported, its own labels, the labels of its Client Agent. *)
Definition first_source (s : Sources) (k : string) : option string :=
  if ours k then nonempty (host s !! k)
  else if bool_decide (k ∈ reported_keys (reported s)) then reported s ≫= λ d, attribute d k
  else nonempty ((own s ∪ inherited s) !! k).

Lemma reported_none k d :
  k ∉ reported_keys (Some d) → attribute d k = None.
Proof.
  unfold reported_keys, attribute. rewrite fmap_app. intros H.
  rewrite !string_value_absent by set_solver. done.
Qed.

Lemma adds_nothing_spec s :
  adds_nothing s = true ↔
  host s = ∅ ∧ own s = ∅ ∧ inherited s = ∅ ∧
  ∀ k, k ∈ reported_keys (reported s) → ours k = false.
Proof.
  unfold adds_nothing. rewrite !andb_true_iff, !bool_decide_eq_true, negb_true_iff.
  assert (H : (match reported s with
     | Some d => existsb (λ kv, ours (key kv)) (identifying_attributes d ++ non_identifying_attributes d)
     | None => false end = false) ↔ ∀ k, k ∈ reported_keys (reported s) → ours k = false);
    [|rewrite H; tauto].
  destruct (reported s) as [d|]; cbn; [|split; [by intros _ k ?%elem_of_nil|done]].
  rewrite <- not_true_iff_false, existsb_exists. setoid_rewrite list_elem_of_fmap.
  setoid_rewrite list_elem_of_In. split.
  - intros H k (kv & -> & Hin). destruct (ours (key kv)) eqn:E; [|done]. exfalso. eauto.
  - intros H (kv & Hin & E). rewrite (H (key kv)) in E; [done|eauto].
Qed.

(** The effective description a Selector is matched against has, for every key, the value of
    the first source that has the key: the Server's own [fleet.] keys come from the Host alone, what
    the Agent reports wins over every label, and an own label over an inherited one. *)
Theorem effective_description_precedence (s : Sources) (k : string) :
  host_keys_reserved s →
  (effective_description s ≫= λ d, attribute d k) = first_source s k.
Proof.
  intros Hhost. unfold effective_description, first_source.
  destruct (adds_nothing s) eqn:Hnothing.
  - apply adds_nothing_spec in Hnothing as (Hh & Ho & Hi & Hours).
    rewrite Hh, Ho, Hi, (left_id_L ∅ (∪)), !lookup_empty. cbn.
    destruct (reported s) as [d|]; cbn [mbind option_bind]; [|by repeat case_match].
    case_bool_decide as Hin; [by rewrite (Hours _ Hin)|].
    rewrite reported_none by done. by case_match.
  - set (d := default (mkDescription [] []) (reported s)). cbn [mbind option_bind].
    assert (Hr : reported s ≫= (λ d, attribute d k) = attribute d k)
      by (subst d; by destruct (reported s)).
    assert (Hd : k ∈ reported_keys (reported s) ↔ k ∈ reported_keys (Some d))
      by (subst d; by destruct (reported s)).
    rewrite Hr, (bool_decide_ext _ _ Hd). clear Hr Hd Hnothing. clearbody d.
    unfold attribute. cbn [identifying_attributes non_identifying_attributes].
    rewrite push_labels_app, !(string_value_filter (λ k, negb (ours k))), <- app_assoc, !string_value_app, keys_pairs.
    rewrite (string_value_filter (λ k, negb (ours k))), string_value_pairs, list_to_map_btree_iter,
      string_value_push_labels, list_to_map_app, !list_to_map_btree_iter.
    rewrite (bool_decide_ext (k ∈ (btree_iter (host s)).*1) (is_Some (host s !! k)))
      by apply elem_of_btree_keys.
    destruct (ours k) eqn:Hk; cbn [negb orb].
    + case_bool_decide as Hin; [done|]. apply eq_None_not_Some in Hin as ->. by case_match.
    + rewrite (bool_decide_false (is_Some _)) by (intros H; by rewrite Hhost in Hk).
      unfold reported_keys. cbn [identifying_attributes non_identifying_attributes].
      rewrite !fmap_app.
      assert (Hkeys : ∀ l, k ∈ key <$> List.filter (λ kv, negb (ours (key kv))) l ↔ k ∈ key <$> l)
        by (intros l; rewrite (elem_of_keys_filter (λ k, negb (ours k))), Hk; naive_solver).
      rewrite (bool_decide_ext _ _ (Hkeys _)).
      rewrite (bool_decide_ext (k ∈ list_to_set _) (k ∈ reported_keys (Some d))); cycle 1.
      { unfold reported_keys. rewrite elem_of_list_to_set, !elem_of_app, !fmap_app, !elem_of_app,
          keys_pairs, !Hkeys. rewrite (elem_of_btree_keys (host s)).
        assert (¬ is_Some (host s !! k)) by (intros H; by rewrite Hhost in Hk). tauto. }
      unfold reported_keys. rewrite fmap_app.
      do 2 case_bool_decide; try done; [set_solver|..].
      * rewrite (string_value_absent (non_identifying_attributes d)) by done. done.
      * rewrite string_value_absent by set_solver. done.
Qed.

(** A source as the control loop builds it: a Host value, a reported attribute that claims to be
    one, a reported key that is labelled too, and two layers of labels. *)
Definition sample_sources : Sources := mkSources
  {["fleet.host.site" := "Werk Nord"]}
  (Some (mkDescription [string_attr "service.name" "otelcol"]
     [string_attr "fleet.host.site" "elsewhere"; string_attr "os.type" "linux"]))
  (<["os.type" := "windows"]> {["rollout" := "canary"]})
  (<["rollout" := "stable"]> {["tenant" := "acme"]}).

Lemma sample_host_keys : host_keys_reserved sample_sources.
Proof. intros k [v H]. cbn in H. apply lookup_singleton_Some in H as [<- _]. reflexivity. Qed.

Lemma effective_description_precedence_witness :
  host_keys_reserved sample_sources ∧
  (effective_description sample_sources ≫= λ d, attribute d "os.type") = Some "linux" ∧
  (effective_description sample_sources ≫= λ d, attribute d "fleet.host.site") = Some "Werk Nord" ∧
  (effective_description sample_sources ≫= λ d, attribute d "rollout") = Some "canary" ∧
  (effective_description sample_sources ≫= λ d, attribute d "tenant") = Some "acme".
Proof.
  pose proof sample_host_keys as H.
  split; [exact H|].
  rewrite !(effective_description_precedence sample_sources _ H). vm_compute. done.
Defined.

(** A label set is accepted exactly when every pair has a key and a value that are not blank
    and no key is in the Server's reserved space. *)
Theorem check_pairs_spec (set : gmap string string) :
  check_pairs set = Ok tt ↔
  ∀ k v, set !! k = Some v → is_blank k = false ∧ ours k = false ∧ is_blank v = false.
Proof.
  unfold check_pairs. rewrite check_each_Ok. split.
  - intros H k v Hkv. specialize (H (k, v)). rewrite elem_of_btree_iter in H.
    specialize (H Hkv). cbn in H. split_cases. done.
  - intros H [k v] (Hk & Ho & Hv)%elem_of_btree_iter%H. cbn. by rewrite Hk, Ho, Hv.
Qed.

(** A label the Agent's own reports shadow matches nothing: without it the effective
    description has the same value for every key. *)
Theorem shadowed_label_matches_nothing (s : Sources) (l k : string) :
  host_keys_reserved s → ours l = false → l ∈ shadowed (reported s) (own s) →
  (effective_description s ≫= λ d, attribute d k) =
  (effective_description (mkSources (host s) (reported s) (delete l (own s)) (inherited s))
     ≫= λ d, attribute d k).
Proof.
  intros Hhost Hl Hin. rewrite !effective_description_precedence by done.
  unfold first_source. cbn [host reported own inherited].
  unfold shadowed in Hin. apply list_elem_of_In, filter_In in Hin as [_ Hin].
  apply bool_decide_eq_true in Hin.
  destruct (decide (k = l)) as [->|Hne]; [by rewrite Hl, bool_decide_true|].
  by rewrite !lookup_union, lookup_delete_ne by done.
Qed.

Lemma shadowed_label_matches_nothing_witness :
  shadowed (reported sample_sources) (own sample_sources) = ["os.type"] ∧
  (effective_description sample_sources ≫= λ d, attribute d "os.type") =
  (effective_description (mkSources (host sample_sources) (reported sample_sources)
     (delete "os.type" (own sample_sources)) (inherited sample_sources))
     ≫= λ d, attribute d "os.type").
Proof.
  pose proof sample_host_keys as H.
  assert (Hs : shadowed (reported sample_sources) (own sample_sources) = ["os.type"])
    by (vm_compute; reflexivity).
  split; [exact Hs|].
  apply (shadowed_label_matches_nothing sample_sources "os.type" "os.type" H eq_refl).
  rewrite Hs. apply list_elem_of_here.
Defined.
