(* ===== verification/Packages.v ===== *)
(** * Packages: platforms, identities and what a signature covers

    [fleet_core::platform] and [fleet_core::package], and the identities of
    [fleet-server/src/packages.rs]: a [Platform] folds the spellings of an operating system and an
    architecture onto canonical tokens, and a [PackageId] is an Agent type at a version. A refusal
    message is the data it is formatted from. *)

From S2P Require Import Prelude RustStr Version Proto.

Open Scope string_scope.

(** ** The alias tables *)

Definition OS_ALIASES : list (string * string) :=
  [("macos", "darwin"); ("osx", "darwin"); ("win", "windows"); ("win32", "windows");
   ("win64", "windows")].

Definition ARCH_ALIASES : list (string * string) :=
  [("x86_64", "amd64"); ("x86-64", "amd64"); ("x64", "amd64"); ("aarch64", "arm64")].

Definition eq_ignore_ascii_case (a b : string) : bool :=
  bool_decide (map_bytes to_ascii_lowercase a = map_bytes to_ascii_lowercase b).

Definition canonical (raw : string) (aliases : list (string * string)) : string :=
  match List.find (λ alias, eq_ignore_ascii_case alias.1 raw) aliases with
  | Some (_, to) => to
  | None => raw
  end.

Definition canonical_os (raw : string) : string := canonical raw OS_ALIASES.
Definition canonical_arch (raw : string) : string := canonical raw ARCH_ALIASES.

(** ** Platforms *)

Record Platform := mkPlatform {
  os : string;
  arch : string;
}.

#[export] Instance Platform_eq_dec : EqDecision Platform.
Proof. solve_decision. Defined.
#[export] Instance Platform_countable : Countable Platform.
Proof. refine (inj_countable' (λ p, (os p, arch p)) (λ p, mkPlatform p.1 p.2) _). by intros []. Defined.

Inductive TokenRefusal :=
| TokenLength (what raw : string)
| TokenBytes (what raw : string).

Definition token_byte (b : ascii) : bool :=
  is_ascii_lowercase b || is_ascii_digit b || ascii_eqb b "_".

Definition token (raw what : string) (canonicalise : string → string)
    : result string TokenRefusal :=
  let lowered := map_bytes to_ascii_lowercase (trim raw) in
  let canonical := canonicalise lowered in
  if is_empty canonical || (16 <? String.length canonical)%nat then Err (TokenLength what raw)
  else if negb (all_bytes token_byte canonical) then Err (TokenBytes what raw)
  else Ok canonical.

(** [Platform::new]. *)
Definition platform_new (o a : string) : result Platform TokenRefusal :=
  o <-? token o "os" canonical_os ;;
  a <-? token a "arch" canonical_arch ;;
  Ok (mkPlatform o a).

(** The attribute of a description, non-identifying before identifying. *)
Definition attribute_reported (d : AgentDescription) (k : string) : option string :=
  match string_value (non_identifying_attributes d) k with
  | Some v => Some v
  | None => string_value (identifying_attributes d) k
  end.

Definition OS_TYPE : string := "os.type".
Definition HOST_ARCH : string := "host.arch".
Definition SERVICE_NAME : string := "service.name".
Definition SERVICE_VERSION : string := "service.version".

(** [Platform::reported]. *)
Definition platform_reported (description : option AgentDescription) : option Platform :=
  d ← description;
  o ← attribute_reported d OS_TYPE;
  a ← attribute_reported d HOST_ARCH;
  match platform_new o a with Ok p => Some p | Err _ => None end.

Definition tag (p : Platform) : string := os p +:+ "-" +:+ arch p.

(** ** Package identities *)

Inductive IdentityRefusal :=
| IdentityLength (what : string)
| IdentityBytes (what value : string)
| NotSemver (version : string)
| NotAnIdentity (text : string).

Definition identity_byte (b : ascii) : bool :=
  is_ascii_alphanumeric b || ascii_eqb b "." || ascii_eqb b "_" || ascii_eqb b "+"
  || ascii_eqb b "-".

Definition validate_identity_token (value what : string) : result unit IdentityRefusal :=
  if is_empty value || (64 <? String.length value)%nat then Err (IdentityLength what)
  else if negb (all_bytes identity_byte value) then Err (IdentityBytes what value)
  else Ok tt.

Record PackageId := mkPackageId {
  agent_type : string;
  version : string;
}.

#[export] Instance PackageId_eq_dec : EqDecision PackageId.
Proof. solve_decision. Defined.
#[export] Instance PackageId_countable : Countable PackageId.
Proof.
  refine (inj_countable' (λ p, (agent_type p, version p)) (λ p, mkPackageId p.1 p.2) _).
  by intros [].
Defined.

(** [PackageId::load], [is_semver], [new]. *)
Definition package_id_load (agent_type version : string) : result PackageId IdentityRefusal :=
  _ <-? validate_identity_token agent_type "agent type" ;;
  _ <-? validate_identity_token version "version" ;;
  Ok (mkPackageId agent_type version).

Definition package_id_is_semver (id : PackageId) : bool := Version.is_semver (version id).

Definition package_id_new (agent_type version : string) : result PackageId IdentityRefusal :=
  id <-? package_id_load agent_type version ;;
  if negb (package_id_is_semver id) then Err (NotSemver version) else Ok id.

Definition display_name (id : PackageId) : string := agent_type id +:+ " " +:+ version id.

(** [PackageId::parse] and [Display for PackageId]. *)
Definition package_id_parse (text : string) : result PackageId IdentityRefusal :=
  match split "@" text with
  | [agent_type; version] => package_id_load agent_type version
  | _ => Err (NotAnIdentity text)
  end.

Definition package_id_display (id : PackageId) : string :=
  agent_type id +:+ String "@" (version id).

(** ** What a signature covers

    [fleet_core::package]: the statements, as the bytes they are. *)

Definition HEX_DIGITS : list ascii :=
  ["0"; "1"; "2"; "3"; "4"; "5"; "6"; "7"; "8"; "9"; "a"; "b"; "c"; "d"; "e"; "f"]%char.

Definition hex_digit (n : N) : ascii := nth (N.to_nat n) HEX_DIGITS "0"%char.

Fixpoint hex_of (bytes : list N) : string :=
  match bytes with
  | [] => EmptyString
  | b :: bytes =>
      String (hex_digit (N.shiftr b 4)) (String (hex_digit (N.land b 15)) (hex_of bytes))
  end.

Definition newline : ascii := ascii_of_N 10.

Definition statement (agent_type version : string) (content_hash : list N) : string :=
  "opamp-fleet-package-v1" +:+ String newline (agent_type +:+ String newline
    (version +:+ String newline (hex_of content_hash +:+ String newline EmptyString))).

Definition floor_statement (agent_type version : string) : string :=
  "opamp-fleet-floor-v1" +:+ String newline (agent_type +:+ String newline
    (version +:+ String newline EmptyString)).

(** ** Lemmas *)

Definition byte_list (bytes : list N) : Prop := Forall (λ b, b < 256)%N bytes.

Lemma hex_digit_inj n m : (n < 16)%N → (m < 16)%N → hex_digit n = hex_digit m → n = m.
Proof.
  intros Hn Hm H.
  assert (Hall : ∀ x, (x < 16)%N →
    List.find (λ i, ascii_eqb (hex_digit i) (hex_digit x))
      [0; 1; 2; 3; 4; 5; 6; 7; 8; 9; 10; 11; 12; 13; 14; 15]%N = Some x).
  { intros x Hx. destruct x as [|p]; [reflexivity|].
    do 4 (destruct p as [p|p|]; try reflexivity; try lia). }
  pose proof (Hall n Hn) as En. rewrite H, (Hall m Hm) in En. by simplify_eq.
Qed.

Lemma nibbles b : (b < 256)%N →
  (N.shiftr b 4 < 16)%N ∧ (N.land b 15 < 16)%N ∧ b = (16 * N.shiftr b 4 + N.land b 15)%N.
Proof.
  intros Hb. rewrite N.shiftr_div_pow2. change 15%N with (N.ones 4). rewrite N.land_ones.
  change (2 ^ 4)%N with 16%N.
  pose proof (N.div_mod b 16). pose proof (N.mod_lt b 16).
  assert (b / 16 < 16)%N by (apply N.Div0.div_lt_upper_bound; lia). lia.
Qed.

Lemma hex_of_inj a b : byte_list a → byte_list b → hex_of a = hex_of b → a = b.
Proof.
  intros Ha. revert b. induction Ha as [|x a Hx Ha IH]; intros [|y b] Hb; cbn; try done.
  apply Forall_cons in Hb as [Hy Hb]. intros [= H1 H2 H3].
  destruct (nibbles x Hx) as (? & ? & Ex), (nibbles y Hy) as (? & ? & Ey).
  apply hex_digit_inj in H1, H2; [|done..]. f_equal; [|auto]. by rewrite Ex, Ey, H1, H2.
Qed.

Lemma hex_digit_byte n : contains_byte newline (String (hex_digit n) EmptyString) = false.
Proof.
  unfold hex_digit. destruct (N.to_nat n) as [|k]; [reflexivity|].
  do 16 (destruct k as [|k]; [reflexivity|]). reflexivity.
Qed.

Lemma hex_of_no_newline bytes : contains_byte newline (hex_of bytes) = false.
Proof.
  induction bytes as [|b bytes IH]; [done|]. cbn [hex_of contains_byte].
  pose proof (hex_digit_byte (N.shiftr b 4)) as H1. pose proof (hex_digit_byte (N.land b 15)) as H2.
  cbn [contains_byte] in H1, H2. rewrite orb_false_r in H1, H2. by rewrite H1, H2, IH.
Qed.

Lemma validate_identity_token_Ok value what :
  validate_identity_token value what = Ok tt ↔
  (0 < String.length value ≤ 64)%nat ∧ all_bytes identity_byte value = true.
Proof.
  unfold validate_identity_token.
  destruct (is_empty value || (64 <? String.length value)%nat) eqn:E.
  - split; [done|]. intros [Hl _]. exfalso. apply orb_true_iff in E as [E|E].
    + destruct value; [cbn in Hl; lia|done].
    + apply Nat.ltb_lt in E. lia.
  - apply orb_false_iff in E as [E1 E2%Nat.ltb_ge].
    destruct (all_bytes identity_byte value); cbn; [|naive_solver].
    split; [|done]. intros _. destruct value; [done|]. cbn in *. lia.
Qed.

Lemma identity_no_byte value what c :
  validate_identity_token value what = Ok tt → identity_byte c = false →
  contains_byte c value = false.
Proof. intros [_ H]%validate_identity_token_Ok Hc. by eapply all_bytes_not_contains. Qed.

Lemma package_id_load_Ok t v id :
  package_id_load t v = Ok id ↔
  id = mkPackageId t v ∧ validate_identity_token t "agent type" = Ok tt
  ∧ validate_identity_token v "version" = Ok tt.
Proof.
  unfold package_id_load.
  destruct (validate_identity_token t _) as [[]|]; cbn; [|naive_solver].
  destruct (validate_identity_token v _) as [[]|]; cbn; naive_solver.
Qed.

(** The pieces of a string with one separator. *)
Lemma split_no_sep c s : contains_byte c s = false → split c s = [s].
Proof.
  unfold split. induction s as [|d s IH]; [done|]. cbn. rewrite orb_false_iff.
  intros [Hd Hs]. rewrite (IH Hs), Hd. done.
Qed.

Lemma split_app_sep c l r :
  contains_byte c l = false → split c (l +:+ String c r) = l :: split c r.
Proof.
  unfold split. induction l as [|d l IH]; cbn [contains_byte].
  - intros _. rewrite append_nil_l. cbn. rewrite ascii_eqb_refl.
    destruct (split_by (ascii_eqb c) r) eqn:E; [by destruct (split_by_nonempty (ascii_eqb c) r)|done].
  - rewrite orb_false_iff. intros [Hd Hl]. rewrite append_cons. cbn.
    by rewrite (IH Hl), Hd.
Qed.

(** A Package identity and its written form [<agent type>@<version>] determine each other:
    what [load] accepts parses back from its display, and what parses is displayed as it was. *)
Theorem package_id_round_trip (text : string) (id : PackageId) :
  package_id_parse text = Ok id ↔
  text = package_id_display id ∧ package_id_load (agent_type id) (version id) = Ok id.
Proof.
  unfold package_id_parse, package_id_display. split.
  - destruct (split "@" text) as [|t [|v []]] eqn:E; try done.
    intros H. apply package_id_load_Ok in H as Hid. destruct Hid as (-> & _). cbn.
    split; [|done]. rewrite <- (join_split "@" text), E. done.
  - intros [-> H]. apply package_id_load_Ok in H as Hid. destruct Hid as (_ & Ht & Hv).
    rewrite split_app_sep by (by eapply identity_no_byte).
    rewrite split_no_sep by (by eapply identity_no_byte). done.
Qed.

(** What a signature covers is unambiguous: two package statements over valid identities are
    equal only for the same Agent type, version and hash, so are two floor statements for the same
    type and version, and no package statement is a floor statement, whatever it is over. *)
Theorem statements_unambiguous (t v t' v' : string) (h h' : list N) :
  is_ok (package_id_load t v) = true → is_ok (package_id_load t' v') = true →
  byte_list h → byte_list h' →
  (statement t v h = statement t' v' h' ↔ (t, v, h) = (t', v', h')) ∧
  (floor_statement t v = floor_statement t' v' ↔ (t, v) = (t', v')) ∧
  (∀ a b c d e, statement a b c ≠ floor_statement d e).
Proof.
  intros Hid Hid' Hh Hh'.
  assert (Htok : ∀ t v, is_ok (package_id_load t v) = true →
    contains_byte newline t = false ∧ contains_byte newline v = false).
  { intros a b H. destruct (package_id_load a b) as [id|] eqn:E; [|done].
    apply package_id_load_Ok in E as (_ & Ha & Hb). split; by eapply identity_no_byte. }
  apply Htok in Hid as [Ht Hv], Hid' as [Ht' Hv']. clear Htok.
  split; [|split].
  - split; [|naive_solver]. unfold statement. intros H.
    apply append_sep_inj in H as [_ H]; [|done..].
    apply append_sep_inj in H as [-> H]; [|done..].
    apply append_sep_inj in H as [-> H]; [|done..].
    apply append_sep_inj in H as [H _]; [|apply hex_of_no_newline..].
    by rewrite (hex_of_inj h h').
  - split; [|naive_solver]. unfold floor_statement. intros H.
    apply append_sep_inj in H as [_ H]; [|done..].
    apply append_sep_inj in H as [-> H]; [|done..].
    apply append_sep_inj in H as [-> H]; done.
  - intros a b c d e. unfold statement, floor_statement. intros H.
    by apply append_sep_inj in H as [H _].
Qed.

Lemma statements_unambiguous_witness :
  statement "otelcol" "1.0.0" [1; 255]%N ≠ statement "otelcol" "1.0.1" [1; 255]%N ∧
  floor_statement "otelcol" "1.0.0" ≠ floor_statement "otel" "1.0.0".
Proof.
  destruct (statements_unambiguous "otelcol" "1.0.0" "otelcol" "1.0.1" [1; 255]%N [1; 255]%N
    eq_refl eq_refl) as [H1 _]; [repeat constructor..|].
  destruct (statements_unambiguous "otelcol" "1.0.0" "otel" "1.0.0" [] []
    eq_refl eq_refl) as [_ [H2 _]]; [repeat constructor..|].
  rewrite H1, H2. done.
Defined.

Lemma token_Ok raw what f t :
  token raw what f = Ok t →
  t = f (map_bytes to_ascii_lowercase (trim raw)) ∧
  is_empty t = false ∧ (String.length t ≤ 16)%nat ∧ all_bytes token_byte t = true.
Proof.
  unfold token. set (c := f _). destruct (is_empty c || _) eqn:E; [done|].
  apply orb_false_iff in E as [E1 E2%Nat.ltb_ge].
  destruct (all_bytes token_byte c) eqn:E3; [|done]. cbn. naive_solver.
Qed.

Lemma token_byte_graphic b : token_byte b = true → ascii_graphic b = true.
Proof. destruct b as [[] [] [] [] [] [] [] []]; vm_compute; done. Qed.

Lemma token_byte_lower b : token_byte b = true → to_ascii_lowercase b = b.
Proof. destruct b as [[] [] [] [] [] [] [] []]; vm_compute; done. Qed.

Lemma map_bytes_id (f : ascii → ascii) (p : ascii → bool) s :
  (∀ b, p b = true → f b = b) → all_bytes p s = true → map_bytes f s = s.
Proof.
  intros Hf. induction s as [|c s IH]; [done|]. cbn. rewrite andb_true_iff. intros [Hc Hs].
  by rewrite Hf, IH.
Qed.

(** The alias tables fold onto tokens that are no alias themselves, in lower case. *)
Definition table_closed (aliases : list (string * string)) : bool :=
  forallb (λ alias, bool_decide (canonical alias.2 aliases = alias.2)) aliases.

Lemma canonical_idempotent aliases raw :
  table_closed aliases = true → canonical (canonical raw aliases) aliases = canonical raw aliases.
Proof.
  intros Hclosed. unfold canonical at 2 3.
  destruct (List.find _ aliases) as [[from to]|] eqn:E.
  - apply find_some in E as [Hin _].
    unfold table_closed in Hclosed. rewrite forallb_forall in Hclosed.
    apply Hclosed in Hin. by apply bool_decide_eq_true in Hin.
  - unfold canonical. by rewrite E.
Qed.

Lemma token_idempotent raw what what' aliases t :
  table_closed aliases = true →
  token raw what (λ s, canonical s aliases) = Ok t → token t what' (λ s, canonical s aliases) = Ok t.
Proof.
  intros Hclosed (Et & He & Hl & Hb)%token_Ok. unfold token.
  rewrite trim_graphic by (eapply all_bytes_impl, Hb; apply token_byte_graphic).
  rewrite (map_bytes_id _ token_byte) by (auto using token_byte_lower).
  replace (canonical t aliases) with t by (rewrite Et; by rewrite canonical_idempotent).
  rewrite He, Hb, (proj2 (Nat.ltb_ge _ _)) by done. done.
Qed.

(** Canonicalisation is idempotent: the Platform of a canonical spelling is itself, so what is
    stored under a Platform's tokens is read back as that Platform, and the tag [<os>-<arch>] of
    two Platforms is equal only for the same Platform. *)
Theorem platform_canonical (o a o' a' : string) (p q : Platform) :
  platform_new o a = Ok p → platform_new o' a' = Ok q →
  platform_new (os p) (arch p) = Ok p ∧ (tag p = tag q → p = q).
Proof.
  unfold platform_new. intros Hp Hq.
  destruct (token o "os" canonical_os) as [o1|] eqn:Eo; [|done].
  destruct (token a "arch" canonical_arch) as [a1|] eqn:Ea; [|done].
  destruct (token o' "os" canonical_os) as [o2|] eqn:Eo'; [|done].
  destruct (token a' "arch" canonical_arch) as [a2|] eqn:Ea'; [|done].
  cbn in Hp, Hq. simplify_eq. cbn [os arch]. split.
  - unfold canonical_os, canonical_arch in *.
    rewrite (token_idempotent o "os" "os" OS_ALIASES o1), (token_idempotent a "arch" "arch" ARCH_ALIASES a1)
      by done. done.
  - unfold tag. cbn [os arch]. intros H.
    apply token_Ok in Eo as (_ & _ & _ & Ho1), Eo' as (_ & _ & _ & Ho2).
    change ("-" +:+ a1) with (String "-" a1) in H. change ("-" +:+ a2) with (String "-" a2) in H.
    apply append_sep_inj in H as [-> ->]; [done|by eapply all_bytes_not_contains..].
Qed.

Lemma platform_canonical_witness :
  platform_new " MacOS" "x86_64" = Ok (mkPlatform "darwin" "amd64") ∧
  platform_new "darwin" "amd64" = Ok (mkPlatform "darwin" "amd64").
Proof.
  split; [reflexivity|].
  apply (platform_canonical " MacOS" "x86_64" "linux" "arm64" (mkPlatform "darwin" "amd64")
           (mkPlatform "linux" "arm64")); reflexivity.
Defined.
