(* ===== verification/Fs.v ===== *)
(** * The filesystem adapters' shared moves

    [fleet-server/src/fs/mod.rs]: a directory of documents, each replaced in one step. A directory
    is a finite map from names to nodes; every call into the operating system that can fail takes
    its outcome from a list the environment chooses, and a write that fails leaves a prefix of its
    bytes behind, as a crash in it does. An error message is the data it is formatted from. *)

From S2P Require Import Prelude RustStr.

Open Scope string_scope.

Inductive Node :=
| File (contents : string)
| Folder.

#[export] Instance Node_eq_dec : EqDecision Node.
Proof. solve_decision. Defined.

(** How one call into the operating system ends: done, or failed, having written so many bytes. *)
Inductive Outcome :=
| Done
| Fails (written : nat).

Record Fs := mkFs {
  files : gmap string Node;
  outcomes : list Outcome;
  read_only : bool;
}.

Inductive FsError :=
| CannotRead (path : string)
| CannotWrite (path : string)
| CannotPersist (path : string)
| CannotDelete (path : string)
| CannotRemove (path : string)
| CannotParse (path : string)
| UnknownPath (path : string)
| Misnamed (path : string)
| WrittenWhileReading (path : string)
| InvalidDocument (path : string)
| NoDocument (name : string).

(** The next call's outcome; past the end of the list a call is done. *)
Definition system_call : Eff Fs FsError Outcome := λ fs,
  match outcomes fs with
  | [] => (fs, Ok Done)
  | o :: rest => (mkFs (files fs) rest (read_only fs), Ok o)
  end.

Definition set_files (f : gmap string Node → gmap string Node) : Eff Fs FsError unit := λ fs,
  (mkFs (f (files fs)) (outcomes fs) (read_only fs), Ok tt).

Definition get_files : Eff Fs FsError (gmap string Node) := λ fs, (fs, Ok (files fs)).

(** The guard every write opens with: nothing is written while a directory is read in place. *)
Definition refuse_read_only (path : string) : Eff Fs FsError unit := λ fs,
  (fs, if read_only fs then Err (WrittenWhileReading path) else Ok tt).

Definition temp_of (path : string) : string := path +:+ ".tmp".

(** [create_owner_only]: creates the file, or truncates it. *)
Definition create_owner_only (path : string) : Eff Fs FsError unit :=
  _ <-! refuse_read_only path ;;
  outcome <-! system_call ;;
  fs <-! get_files ;;
  match outcome, fs !! path with
  | Fails _, _ | _, Some Folder => eff_fail (CannotWrite path)
  | Done, _ => set_files <[path := File ""]>
  end.

(** [write_temp]: the new contents beside the document, synced when [durable]. *)
Definition write_temp (path bytes : string) (durable : bool) : Eff Fs FsError unit :=
  let temp := temp_of path in
  _ <-! create_owner_only temp ;;
  outcome <-! system_call ;;
  match outcome with
  | Fails written =>
      _ <-! set_files <[temp := File (String.substring 0 written bytes)]> ;;
      eff_fail (CannotWrite temp)
  | Done =>
      _ <-! set_files <[temp := File bytes]> ;;
      if durable then
        synced <-! system_call ;;
        match synced with
        | Fails _ => eff_fail (CannotWrite temp)
        | Done => eff_ret tt
        end
      else eff_ret tt
  end.

(** [rename_into_place]: in one step, or not at all. *)
Definition rename_into_place (temp path : string) : Eff Fs FsError unit :=
  _ <-! refuse_read_only path ;;
  outcome <-! system_call ;;
  fs <-! get_files ;;
  match outcome, fs !! temp, fs !! path with
  | Done, Some (File bytes), None | Done, Some (File bytes), Some (File _) =>
      set_files (λ fs, <[path := File bytes]> (delete temp fs))
  | _, _, _ => eff_fail (CannotPersist path)
  end.

(** [sync_dir_of], on Unix. *)
Definition sync_dir_of (path : string) : Eff Fs FsError unit :=
  outcome <-! system_call ;;
  match outcome with
  | Fails _ => eff_fail (CannotPersist path)
  | Done => eff_ret tt
  end.

Definition replace (path bytes : string) : Eff Fs FsError unit :=
  _ <-! write_temp path bytes false ;;
  rename_into_place (temp_of path) path.

Definition replace_owner_only (path bytes : string) : Eff Fs FsError unit :=
  _ <-! write_temp path bytes true ;;
  _ <-! rename_into_place (temp_of path) path ;;
  sync_dir_of path.

(** [remove_file]: content when the file is not there. *)
Definition remove_file (path : string) : Eff Fs FsError unit :=
  _ <-! refuse_read_only path ;;
  outcome <-! system_call ;;
  fs <-! get_files ;;
  match outcome, fs !! path with
  | Fails _, _ | _, Some Folder => eff_fail (CannotDelete path)
  | Done, None => eff_ret tt
  | Done, Some (File _) => set_files (delete path)
  end.

(** [read_to_string]. *)
Definition read_to_string (path : string) : Eff Fs FsError string :=
  outcome <-! system_call ;;
  fs <-! get_files ;;
  match outcome, fs !! path with
  | Done, Some (File contents) => eff_ret contents
  | _, _ => eff_fail (CannotRead path)
  end.

Definition is_file (node : Node) : bool := match node with File _ => true | Folder => false end.

(** One round of the loop of [entries]: a temporary file a crash left is removed, or passed over
    while the directory is read in place; anything else is listed. *)
Definition entry (found : string * Node) : Eff Fs FsError (option string) :=
  let (name, node) := found in
  if ends_with ".tmp" name && is_file node then λ fs,
    if read_only fs then (fs, Ok None)
    else
      (outcome <-! system_call ;;
       match outcome with
       | Fails _ => eff_fail (CannotRemove name)
       | Done => _ <-! set_files (delete name) ;; eff_ret None
       end) fs
  else eff_ret (Some name).

(** [entries]: the names in the directory, sorted. The names are UTF-8 here, as the ones a Server
    writes are. *)
Definition entries : Eff Fs FsError (list string) :=
  outcome <-! system_call ;;
  fs <-! get_files ;;
  match outcome with
  | Fails _ => eff_fail (CannotRead ".")
  | Done => found <-! eff_each entry (btree_iter fs) ;; eff_ret (omap id found)
  end.

Definition json_file (name : string) : Eff Fs FsError (string * string) :=
  fs <-! get_files ;;
  match strip_suffix ".json" name, fs !! name with
  | Some stem, Some (File _) =>
      if is_empty stem then eff_fail (UnknownPath name) else eff_ret (stem, name)
  | _, _ => eff_fail (UnknownPath name)
  end.

(** [json_files]: the stem and the path of each document. *)
Definition json_files : Eff Fs FsError (list (string * string)) :=
  names <-! entries ;;
  eff_each json_file names.

(** ** Lemmas *)

Lemma eff_bind_Ok {S E A B} (m : Eff S E A) (k : A → Eff S E B) s s' b :
  eff_bind m k s = (s', Ok b) → ∃ s1 a, m s = (s1, Ok a) ∧ k a s1 = (s', Ok b).
Proof. unfold eff_bind. destruct (m s) as [s1 [a|e]]; naive_solver. Qed.

Lemma temp_of_ne path : temp_of path ≠ path.
Proof.
  unfold temp_of. intros H. apply (f_equal String.length) in H.
  rewrite length_append in H. cbn in H. lia.
Qed.

(** What a step of a write leaves of the directory: [touched] may change, every other file is as
    it was, and the mode of reading stays. *)
Definition only_touches (touched : list string) (fs fs' : Fs) : Prop :=
  read_only fs' = read_only fs ∧ ∀ path, path ∉ touched → files fs' !! path = files fs !! path.

(** A temporary file a crash left behind, and the directory without them. *)
Definition leftover (name : string) (node : Node) : bool := ends_with ".tmp" name && is_file node.

Definition documents (m : gmap string Node) : gmap string Node :=
  filter (λ kv, leftover kv.1 kv.2 = false) m.

Lemma write_temp_spec path bytes durable fs fs' r :
  write_temp path bytes durable fs = (fs', r) →
  only_touches [temp_of path] fs fs' ∧
  (r = Ok tt → files fs' !! temp_of path = Some (File bytes)) ∧
  (files fs' = files fs ∨ ∃ c, files fs' !! temp_of path = Some (File c) ∧
                             files fs !! temp_of path ≠ Some Folder).
Proof.
  unfold write_temp, only_touches. destruct fs as [fl os ro]. intros H. cbn in *.
  assert (Hother : ∀ path' (n m : Node), path' ∉ [temp_of path] →
    <[temp_of path := n]> (<[temp_of path := m]> fl) !! path' = fl !! path').
  { intros path' n m Hp. rewrite !lookup_insert_ne by set_solver. done. }
  destruct ro, os as [|[|] [|[|] [|[|] os]]], (fl !! temp_of path) as [[]|] eqn:Et, durable;
    unfold create_owner_only, refuse_read_only, system_call, get_files, set_files, eff_bind,
      eff_fail, eff_ret in H; cbn in H; rewrite ?Et in H; cbn in H; simplify_eq/=;
    (split; [split; [done|]; intros; auto|split; [intros; simplify_map_eq; done|]]);
    (try by left); right; eexists; by rewrite lookup_insert_eq.
Qed.

Lemma rename_into_place_spec temp path fs fs' r :
  temp ≠ path → rename_into_place temp path fs = (fs', r) →
  only_touches [temp; path] fs fs' ∧
  (r = Ok tt ∧ files fs' !! path = files fs !! temp ∧ files fs' !! temp = None
   ∨ is_ok r = false ∧ files fs' = files fs).
Proof.
  unfold rename_into_place, only_touches. destruct fs as [fl os ro]. intros Hne H. cbn in *.
  destruct ro, os as [|[|] os], (fl !! temp) as [[]|] eqn:Et, (fl !! path) as [[]|] eqn:Ep;
    unfold refuse_read_only, system_call, get_files, set_files, eff_bind,
      eff_fail, eff_ret in H; cbn in H; rewrite ?Et, ?Ep in H; cbn in H; simplify_eq/=;
    (split; [split; [done|]; intros p Hp|]); try done; try (by right);
    try (left; split; [done|]; split; simplify_map_eq; done).
  all: rewrite lookup_insert_ne, lookup_delete_ne by set_solver; done.
Qed.

Lemma lookup_documents m k n :
  documents m !! k = Some n ↔ m !! k = Some n ∧ leftover k n = false.
Proof. apply map_lookup_filter_Some. Qed.

Lemma documents_ext m m' :
  (∀ k, ends_with ".tmp" k = false → m' !! k = m !! k) →
  (∀ k, ends_with ".tmp" k = true → m' !! k = Some Folder ↔ m !! k = Some Folder) →
  documents m' = documents m.
Proof.
  intros Hdoc Htmp. apply map_eq. intros k. apply option_eq. intros n.
  rewrite !lookup_documents. unfold leftover. destruct (ends_with ".tmp" k) eqn:E.
  - specialize (Htmp k E). destruct n; cbn; [naive_solver|]. tauto.
  - by rewrite (Hdoc k E).
Qed.

Lemma documents_insert m path n :
  ends_with ".tmp" path = false → documents (<[path := n]> m) = <[path := n]> (documents m).
Proof.
  intros Hp. apply map_eq. intros k. apply option_eq. intros n'.
  rewrite lookup_documents, !lookup_insert_Some, lookup_documents. unfold leftover.
  destruct (decide (path = k)) as [->|]; [rewrite Hp|]; naive_solver.
Qed.

Lemma temp_of_is_temp path : ends_with ".tmp" (temp_of path) = true.
Proof. apply ends_with_app. Qed.

(** The shape both replacements share: the temporary file is written and renamed. *)
Lemma write_rename_spec path bytes durable fs fs' r :
  ends_with ".tmp" path = false →
  (_ <-! write_temp path bytes durable ;; rename_into_place (temp_of path) path) fs = (fs', r) →
  read_only fs' = read_only fs ∧
  (r = Ok tt ∧ documents (files fs') = <[path := File bytes]> (documents (files fs)) ∨
   is_ok r = false ∧ documents (files fs') = documents (files fs)).
Proof.
  intros Hpath. unfold eff_bind.
  destruct (write_temp path bytes durable fs) as [fs1 r1] eqn:E1.
  apply write_temp_spec in E1 as ([Hro1 Hout1] & Hok1 & Htemp1).
  assert (Hdoc1 : documents (files fs1) = documents (files fs)).
  { apply documents_ext.
    - intros k Hk. apply Hout1. intros ->%list_elem_of_singleton. by rewrite temp_of_is_temp in Hk.
    - intros k _. destruct (decide (k = temp_of path)) as [->|Hne].
      + destruct Htemp1 as [->|(c & Hc & Hnf)]; [done|]. rewrite Hc. naive_solver.
      + by rewrite Hout1 by (by intros ?%list_elem_of_singleton). }
  destruct r1 as [[]|e]; [|intros [= <- <-]; by rewrite Hdoc1; auto].
  intros E2. apply rename_into_place_spec in E2 as ([Hro2 Hout2] & Hcase);
    [|apply temp_of_ne].
  split; [congruence|]. destruct Hcase as [(-> & Hnew & Hgone)|(Hr & Hsame)].
  - left. split; [done|]. rewrite <- Hdoc1, <- documents_insert by done. apply documents_ext.
    + intros k Hk. destruct (decide (path = k)) as [<-|Hne].
      * rewrite lookup_insert_eq, Hnew. auto.
      * rewrite lookup_insert_ne by done. apply Hout2.
        intros [->| ->%list_elem_of_singleton]%elem_of_cons; [|done].
        by rewrite temp_of_is_temp in Hk.
    + intros k Hk. assert (path ≠ k) by (intros <-; congruence). rewrite lookup_insert_ne by done.
      destruct (decide (k = temp_of path)) as [->|Hne].
      * rewrite Hgone. rewrite (Hok1 eq_refl). naive_solver.
      * rewrite Hout2; [done|]. intros [->| ->%list_elem_of_singleton]%elem_of_cons; done.
  - right. by rewrite Hsame.
Qed.

Lemma replace_spec path bytes fs fs' r :
  ends_with ".tmp" path = false → replace path bytes fs = (fs', r) →
  read_only fs' = read_only fs ∧
  (r = Ok tt ∧ documents (files fs') = <[path := File bytes]> (documents (files fs)) ∨
   is_ok r = false ∧ documents (files fs') = documents (files fs)).
Proof. apply (write_rename_spec path bytes false). Qed.

(** A durable replacement that fails may have reached the directory already: the last sync. *)
Lemma replace_owner_only_spec path bytes fs fs' r :
  ends_with ".tmp" path = false → replace_owner_only path bytes fs = (fs', r) →
  read_only fs' = read_only fs ∧
  (documents (files fs') = <[path := File bytes]> (documents (files fs)) ∨
   is_ok r = false ∧ documents (files fs') = documents (files fs)).
Proof.
  intros Hpath H.
  assert (Hassoc : replace_owner_only path bytes fs =
    (_ <-! (_ <-! write_temp path bytes true ;; rename_into_place (temp_of path) path) ;;
     sync_dir_of path) fs).
  { unfold replace_owner_only, eff_bind. by destruct (write_temp path bytes true fs) as [? []]. }
  rewrite Hassoc in H. clear Hassoc. unfold eff_bind at 1 in H.
  destruct ((_ <-! write_temp path bytes true ;; rename_into_place (temp_of path) path) fs)
    as [fs1 r1] eqn:E. apply write_rename_spec in E as [Hro Hcase]; [|done].
  destruct r1 as [[]|e]; [|simplify_eq; naive_solver].
  destruct Hcase as [[_ Hdoc]|[? _]]; [|done]. rewrite <- Hro, <- Hdoc.
  unfold sync_dir_of, eff_bind, system_call, eff_fail, eff_ret in H.
  destruct fs1 as [fl os ro]. cbn in H. destruct os as [|[|] os]; simplify_eq/=; auto.
Qed.

(** A document is replaced in one step: whichever call into the operating system fails, and
    however much of the write it left, the directory's documents are the ones before or the ones
    with the new contents in that one place, and after success they are the latter. *)
Theorem replacement_is_atomic (path bytes : string) (durable : bool) (fs fs' : Fs) r :
  ends_with ".tmp" path = false →
  (if durable then replace_owner_only path bytes else replace path bytes) fs = (fs', r) →
  (documents (files fs') = <[path := File bytes]> (documents (files fs)) ∨
   is_ok r = false ∧ documents (files fs') = documents (files fs)).
Proof.
  destruct durable; intros Hpath H; [apply replace_owner_only_spec in H|apply replace_spec in H];
    naive_solver.
Qed.

Lemma replacement_is_atomic_witness :
  let fs := mkFs {["a.json" := File "old"]} [Done; Fails 2] false in
  let fs' := (replace_owner_only "a.json" "new" fs).1 in
  files fs' !! "a.json.tmp" = Some (File "ne") ∧
  (documents (files fs') = <["a.json" := File "new"]> (documents (files fs)) ∨
   documents (files fs') = documents (files fs)).
Proof.
  intros fs fs'. split; [vm_compute; reflexivity|].
  destruct (replace_owner_only "a.json" "new" fs) as [fs1 r] eqn:E.
  assert (fs' = fs1) as -> by (subst fs'; reflexivity).
  destruct (replacement_is_atomic "a.json" "new" true fs fs1 r eq_refl E) as [?|[_ ?]]; auto.
Defined.

(** ** Listing *)

Lemma remove_file_spec path fs fs' r :
  remove_file path fs = (fs', r) →
  read_only fs' = read_only fs ∧
  (r = Ok tt ∧ files fs' = delete path (files fs) ∨ is_ok r = false ∧ files fs' = files fs).
Proof.
  unfold remove_file. destruct fs as [fl os ro]. intros H.
  destruct ro, os as [|[|] os], (fl !! path) as [[]|] eqn:Ep;
    unfold refuse_read_only, system_call, get_files, set_files, eff_bind,
      eff_fail, eff_ret in H; cbn in H; rewrite ?Ep in H; cbn in H; simplify_eq/=; auto.
  all: split; [done|]; left; by rewrite delete_id.
Qed.

Lemma read_to_string_spec path fs fs' r :
  read_to_string path fs = (fs', r) →
  files fs' = files fs ∧ read_only fs' = read_only fs ∧
  ∀ c, r = Ok c → files fs !! path = Some (File c).
Proof.
  unfold read_to_string. destruct fs as [fl os ro]. intros H.
  destruct os as [|[|] os], (fl !! path) as [[]|] eqn:Ep;
    unfold system_call, get_files, eff_bind, eff_fail, eff_ret in H; cbn in H; rewrite ?Ep in H;
    cbn in H; simplify_eq/=; naive_solver.
Qed.

Lemma entry_spec name node fs fs' r :
  files fs !! name = Some node → entry (name, node) fs = (fs', r) →
  documents (files fs') = documents (files fs) ∧ read_only fs' = read_only fs ∧
  (∀ k, k ≠ name → files fs' !! k = files fs !! k) ∧
  ∀ x, r = Ok x → x = if leftover name node then None else Some name.
Proof.
  intros Hn. unfold entry, leftover. destruct fs as [fl os ro]. cbn in Hn.
  destruct (ends_with ".tmp" name && is_file node) eqn:Hl;
    [|intros [= <- <-]; naive_solver].
  assert (Hdel : documents (delete name fl) = documents fl).
  { apply map_eq. intros k. apply option_eq. intros n.
    rewrite !lookup_documents, lookup_delete_Some. unfold leftover.
    split; [naive_solver|]. intros [Hk Hk']. split; [|done]. split; [|done].
    intros ->. simplify_eq. by rewrite Hl in Hk'. }
  intros H. destruct ro, os as [|[|] os];
    unfold system_call, set_files, eff_bind, eff_fail, eff_ret in H; cbn in H; simplify_eq/=;
    repeat split_and!; try done; try naive_solver; intros k Hk; by rewrite lookup_delete_ne.
Qed.

Lemma each_entry_spec l fs fs' r :
  NoDup l.*1 → (∀ k n, (k, n) ∈ l → files fs !! k = Some n) →
  eff_each entry l fs = (fs', r) →
  documents (files fs') = documents (files fs) ∧ read_only fs' = read_only fs ∧
  ∀ found, r = Ok found →
    omap id found = (List.filter (λ kn, negb (leftover kn.1 kn.2)) l).*1.
Proof.
  revert fs fs' r. induction l as [|[k n] l IH]; intros fs fs' r; cbn [eff_each].
  { intros _ _ [= <- <-]. repeat split; try done. by intros found [= <-]. }
  intros [Hk Hnd]%NoDup_cons Hl. unfold eff_bind, eff_ret.
  destruct (entry (k, n) fs) as [fs1 r1] eqn:E1.
  apply entry_spec in E1 as (Hdoc1 & Hro1 & Hother & Hx1); [|apply Hl, list_elem_of_here].
  destruct r1 as [x|e]; [|intros [= <- <-]; naive_solver].
  destruct (eff_each entry l fs1) as [fs2 r2] eqn:E2.
  apply IH in E2 as (Hdoc2 & Hro2 & Hx2); [|done|].
  2:{ intros k' n' Hin. rewrite Hother; [apply Hl; by right|]. intros ->. destruct Hk.
      apply list_elem_of_fmap. by exists (k, n'). }
  specialize (Hx1 x eq_refl).
  destruct r2 as [xs|e]; intros [= <- <-]; (split; [congruence|split; [congruence|]]); [|done].
  intros found [= <-]. cbn. rewrite (Hx2 xs eq_refl), Hx1.
  by destruct (leftover k n).
Qed.

Lemma each_json_file_spec names fs fs' r :
  eff_each json_file names fs = (fs', r) →
  fs' = fs ∧ ∀ l, r = Ok l → l.*2 = names ∧
    ∀ stem path, (stem, path) ∈ l →
      path = stem +:+ ".json" ∧ is_empty stem = false ∧ ∃ c, files fs !! path = Some (File c).
Proof.
  revert fs' r. induction names as [|n names IH]; intros fs' r; cbn [eff_each].
  { intros [= <- <-]. split; [done|]. intros l [= <-]. split; [done|]. by intros ?? ?%elem_of_nil. }
  unfold eff_bind, eff_ret. destruct (json_file n fs) as [fs1 r1] eqn:E1.
  assert (fs1 = fs ∧ ∀ x, r1 = Ok x → x.2 = n ∧ n = x.1 +:+ ".json" ∧ is_empty x.1 = false ∧
    ∃ c, files fs !! n = Some (File c)) as [-> Hx].
  { revert E1. unfold json_file, get_files, eff_bind, eff_fail, eff_ret.
    destruct (strip_suffix ".json" n) as [stem|] eqn:Es, (files fs !! n) as [[]|] eqn:En;
      cbn; try (intros [= <- <-]; naive_solver).
    apply strip_suffix_Some in Es. destruct (is_empty stem) eqn:Ee;
      intros [= <- <-]; (split; [done|]); [done|]. intros x [= <-]. cbn. eauto. }
  destruct r1 as [x|e]; [|intros [= <- <-]; naive_solver].
  destruct (eff_each json_file names fs) as [fs2 r2].
  destruct (IH fs2 r2 eq_refl) as [-> Hl].
  destruct (Hx x eq_refl) as (Hx2 & Hx1 & Hne & Hc).
  destruct r2 as [xs|e]; intros [= <- <-]; (split; [done|]); [|done].
  intros l [= <-]. destruct (Hl xs eq_refl) as [Hnames Hin]. cbn. rewrite Hnames, Hx2.
  split; [done|]. intros stem path [H|H]%elem_of_cons; [|auto]. subst x. cbn in *. by subst.
Qed.

(** What [entries] lists: the documents' names. *)
Lemma entries_spec fs fs' r :
  entries fs = (fs', r) →
  documents (files fs') = documents (files fs) ∧ read_only fs' = read_only fs ∧
  ∀ l, r = Ok l → NoDup l ∧ ∀ path, path ∈ l ↔ is_Some (documents (files fs) !! path).
Proof.
  unfold entries. unfold eff_bind at 1 2, get_files.
  destruct (system_call fs) as [fs0 r0] eqn:E0.
  assert (files fs0 = files fs ∧ read_only fs0 = read_only fs) as [Hf0 Hro0].
  { revert E0. unfold system_call. destruct (outcomes fs); by intros [= <- <-]. }
  destruct r0 as [[|]|e]; [|intros [= <- <-]; by rewrite Hf0..].
  unfold eff_bind at 1. destruct (eff_each entry (btree_iter (files fs0)) fs0) as [fs1 r1] eqn:E1.
  apply each_entry_spec in E1 as (Hdoc1 & Hro1 & Hfound);
    [|apply NoDup_btree_keys|intros k n; by rewrite elem_of_btree_iter].
  destruct r1 as [found|e]; intros [= <- <-]; rewrite Hdoc1, Hro1, Hf0, Hro0; [|done].
  split; [done|]. split; [done|]. intros l [= <-]. rewrite (Hfound found eq_refl). split.
  - eapply sublist_NoDup; [apply (NoDup_btree_keys (files fs0))|].
    unfold btree_keys. generalize (btree_iter (files fs0)) as bl. clear. intros bl.
    induction bl as [|x bl IH]; cbn; [constructor|]. case_match; cbn; by constructor.
  - intros path. rewrite list_elem_of_fmap. setoid_rewrite list_elem_of_In.
    setoid_rewrite filter_In. setoid_rewrite <- list_elem_of_In. rewrite <- Hf0. split.
    + intros ([k n] & -> & Hk%elem_of_btree_iter & Hn%negb_true_iff). exists n. by apply lookup_documents.
    + intros [n [Hk Hn]%lookup_documents]. exists (path, n). split; [done|].
      rewrite elem_of_btree_iter. cbn. by rewrite Hn.
Qed.

(** What [json_files] lists: the documents, each with its stem, and nothing else. *)
Lemma json_files_spec fs fs' r :
  json_files fs = (fs', r) →
  documents (files fs') = documents (files fs) ∧ read_only fs' = read_only fs ∧
  ∀ l, r = Ok l → NoDup l.*2 ∧
    (∀ stem path, (stem, path) ∈ l →
       path = stem +:+ ".json" ∧ is_empty stem = false ∧
       ∃ c, documents (files fs) !! path = Some (File c)) ∧
    (∀ path n, documents (files fs) !! path = Some n → path ∈ l.*2).
Proof.
  unfold json_files. unfold eff_bind at 1. destruct (entries fs) as [fs1 r1] eqn:E1.
  apply entries_spec in E1 as (Hdoc1 & Hro1 & Hnames).
  destruct r1 as [names|e]; [|intros [= <- <-]; done].
  intros E2. apply each_json_file_spec in E2 as [-> Hl]. split; [done|]. split; [done|].
  intros l ->. destruct (Hl l eq_refl) as [<- Hin]. destruct (Hnames _ eq_refl) as [Hnd Hkeys].
  split; [done|]. split; [|intros path n Hn; apply Hkeys; eauto].
  intros stem path Hsp. destruct (Hin stem path Hsp) as (Hp & Hs & c & Hc).
  split; [done|]. split; [done|]. destruct (proj1 (Hkeys path)) as [n Hn].
  { apply list_elem_of_fmap. by exists (stem, path). }
  destruct n as [c'|]; [eauto|]. rewrite <- Hdoc1 in Hn. apply lookup_documents in Hn as [Hn _]. congruence.
Qed.

Lemma documents_delete path m : documents (delete path m) = delete path (documents m).
Proof. apply map_filter_delete. Qed.

Lemma documents_lookup path m : ends_with ".tmp" path = false → documents m !! path = m !! path.
Proof.
  intros Hp. apply option_eq. intros n. rewrite lookup_documents. unfold leftover. rewrite Hp. naive_solver.
Qed.

(** ** A concrete codec

    Any countable type written as the bits of its code: a pair of functions to stand for a JSON
    writer and reader where a statement about the adapters is applied. *)

Fixpoint bits_of (p : positive) : string :=
  match p with
  | xH => ""
  | xO p => String "0" (bits_of p)
  | xI p => String "1" (bits_of p)
  end.

Fixpoint of_bits (s : string) : positive :=
  match s with
  | EmptyString => xH
  | String c s => if ascii_eqb c "0" then xO (of_bits s) else xI (of_bits s)
  end.

Definition write_code {A} `{Countable A} (a : A) : string := bits_of (encode a).
Definition read_code {A} `{Countable A} (s : string) : option A := decode (of_bits s).

Lemma read_write_code {A} `{Countable A} (a : A) : read_code (write_code a) = Some a.
Proof.
  unfold read_code, write_code.
  assert (H1 : ∀ p, of_bits (bits_of p) = p).
  { intros p. induction p as [p IH|p IH|]; [| |done]; cbn [bits_of of_bits].
    - change (ascii_eqb "1" "0") with false. by rewrite IH.
    - change (ascii_eqb "0" "0") with true. by rewrite IH. }
  by rewrite H1, decode_encode.
Qed.
