(* ===== verification/Configs.v ===== *)
(** * Configurations

    [fleet-server/src/configs.rs]: named Configurations with their saved and retained revisions,
    the hashes that pin a revision and gate a push, the store over a [ConfigBackend], and what an
    Agent's assignments compose. SHA-256 and the [hex] crate are parameters. A refusal message is
    the data it is formatted from. *)

From S2P Require Import Prelude RustStr Proto Packages.

Open Scope string_scope.
Open Scope list_scope.

Record Revision := mkRevision {
  body : string;
  role : string;
  service_name : string;
}.

#[export] Instance Revision_eq_dec : EqDecision Revision.
Proof. solve_decision. Defined.

Record Configuration := mkConfiguration {
  config_name : string;
  saved : Revision;
  retained : gmap string Revision;
}.

Record ConfigEntry := mkConfigEntry {
  entry_name : string;
  entry_body : string;
  entry_role : string;
}.

#[export] Instance ConfigEntry_eq_dec : EqDecision ConfigEntry.
Proof. solve_decision. Defined.

Record DesiredConfig := mkDesired {
  desired_entries : list ConfigEntry;
  desired_hash : list N;
}.

Record Pinned := mkPinned {
  pinned_configuration : string;
  pinned_hash : string;
  pinned_revision : Revision;
}.

Inductive Removal :=
| Removed
| Absent
| PinnedBy (agents : nat).

(** What the store refuses; [BackendFailed] is an error of the backend. *)
Inductive ConfigError :=
| InvalidName (name : string)
| EmptyBody
| NoType
| NoConfiguration (name : string)
| BackendFailed
| WriteFailed.

(** A field of a hashed frame: its length in eight little-endian bytes, then its bytes. *)
Definition field (s : string) : list N :=
  le_bytes 8 (N.of_nat (String.length s)) ++ bytes_of s.

(** The bytes [revision_hash] is over. *)
Definition revision_frame (r : Revision) : list N := field (body r) ++ field (role r).

(** The bytes [DesiredConfig::new] hashes for one entry: an empty role is hashed as nothing. *)
Definition entry_frame (e : ConfigEntry) : list N :=
  field (entry_name e) ++ field (entry_body e)
  ++ (if is_empty (entry_role e) then [] else field (entry_role e)).

Definition entries_frame (entries : list ConfigEntry) : list N := entries ≫= entry_frame.

Definition entry_name_le (a b : ConfigEntry) : Prop := String.le (entry_name a) (entry_name b).

#[export] Instance entry_name_le_dec : RelDecision entry_name_le.
Proof. intros a b. unfold entry_name_le. apply _. Defined.
#[export] Instance entry_name_le_total : Total entry_name_le.
Proof. intros a b. apply (total String.le). Qed.
#[export] Instance entry_name_le_trans : Transitive entry_name_le.
Proof. intros a b c. apply (transitivity (R := String.le)). Qed.

Definition check_type (r : Revision) : result unit ConfigError :=
  if is_blank (service_name r) then Err NoType else Ok tt.

(** Does the revision fit an Agent that reports this description? *)
Definition fits (r : Revision) (description : option AgentDescription) : bool :=
  if is_empty (service_name r) then false
  else match description with
       | None => false
       | Some d => bool_decide (attribute d SERVICE_NAME = Some (service_name r))
       end.

Definition WINDOWS_RESERVED : list string :=
  ["con"; "prn"; "aux"; "nul"; "com1"; "com2"; "com3"; "com4"; "com5"; "com6"; "com7"; "com8";
   "com9"; "lpt1"; "lpt2"; "lpt3"; "lpt4"; "lpt5"; "lpt6"; "lpt7"; "lpt8"; "lpt9"].

Inductive NameRefusal :=
| NameLength
| NameBytes
| NameDash
| NameReserved (name : string).

Definition name_byte (b : ascii) : bool :=
  is_ascii_lowercase b || is_ascii_digit b || ascii_eqb b "-".

Definition validate_name (name : string) : result unit NameRefusal :=
  if is_empty name || (32 <? String.length name)%nat then Err NameLength
  else if negb (all_bytes name_byte name) then Err NameBytes
  else if starts_with_char "-" name || ends_with "-" name then Err NameDash
  else if bool_decide (name ∈ WINDOWS_RESERVED) then Err (NameReserved name)
  else Ok tt.

(** ** The backend's port *)

Class ConfigBackend (B : Type) := {
  config_load : Eff B ConfigError (list Configuration);
  config_save : string → Revision → Eff B ConfigError unit;
  config_collect : string → gset string → Eff B ConfigError (gmap string Revision);
  config_remove : string → Eff B ConfigError Removal;
}.

(** ** The store *)

Record ConfigStore (B : Type) := mkConfigStore {
  config_backend : B;
  configs : gmap string Configuration;
}.
Arguments mkConfigStore {B}.
Arguments config_backend {B}.
Arguments configs {B}.

Definition by_name (l : list Configuration) : gmap string Configuration :=
  collect_map ((λ c, (config_name c, c)) <$> l).

Section Store.
Context {B : Type} `{!ConfigBackend B}.
Context (sha256 : list N → list N) (hex_encode : list N → string).

Definition revision_hash (r : Revision) : string := hex_encode (sha256 (revision_frame r)).

(** [DesiredConfig::new]. *)
Definition desired_new (entries : list ConfigEntry) : DesiredConfig :=
  let entries := merge_sort entry_name_le entries in
  mkDesired entries (sha256 (entries_frame entries)).

(** A call of the backend from the store. *)
Definition through {A} (call : Eff B ConfigError A) : Eff (ConfigStore B) ConfigError A := λ s,
  let (b, r) := call (config_backend s) in (mkConfigStore b (configs s), r).

Definition hold (f : gmap string Configuration → gmap string Configuration)
    : Eff (ConfigStore B) ConfigError unit := λ s,
  (mkConfigStore (config_backend s) (f (configs s)), Ok tt).

Definition held : Eff (ConfigStore B) ConfigError (gmap string Configuration) := λ s,
  (s, Ok (configs s)).

(** [ConfigStore::open]: a name that breaks the grammar is refused. *)
Definition config_open (b : B) : B * result (ConfigStore B) ConfigError :=
  match config_load b with
  | (b, Err e) => (b, Err e)
  | (b, Ok l) =>
      match check_each (λ c, if is_ok (validate_name (config_name c)) then None
                             else Some (InvalidName (config_name c))) l with
      | Err e => (b, Err e)
      | Ok _ => (b, Ok (mkConfigStore b (by_name l)))
      end
  end.

Definition config_reload : Eff (ConfigStore B) ConfigError unit :=
  l <-! through config_load ;;
  hold (λ _, by_name l).

Definition config_list (s : ConfigStore B) : list Configuration := btree_values (configs s).
Definition config_get (s : ConfigStore B) (name : string) : option Configuration := configs s !! name.

Definition put_saved (name : string) (r : Revision) : Eff (ConfigStore B) ConfigError Configuration :=
  if negb (is_ok (validate_name name)) then eff_fail (InvalidName name)
  else if is_blank (body r) then eff_fail EmptyBody
  else
    _ <-! eff_of (check_type r) ;;
    _ <-! through (config_save name r) ;;
    m <-! held ;;
    let config := match m !! name with
                  | Some existing => mkConfiguration (config_name existing) r (retained existing)
                  | None => mkConfiguration name r ∅
                  end in
    _ <-! hold <[config_name config := config]> ;;
    eff_ret config.

(** The revisions [pin] hands on: each saved one, with its hash. *)
Fixpoint pins (m : gmap string Configuration) (names : list string)
    : result (list Pinned) ConfigError :=
  match names with
  | [] => Ok []
  | name :: names =>
      match m !! name with
      | None => Err (NoConfiguration name)
      | Some existing =>
          rest <-? pins m names ;;
          Ok (mkPinned name (revision_hash (saved existing)) (saved existing) :: rest)
      end
  end.

Definition hashes_of (pinned : list Pinned) : gmap string string :=
  collect_map ((λ p, (pinned_configuration p, pinned_hash p)) <$> pinned).

Definition retain_pinned (m : gmap string Configuration) (p : Pinned) : gmap string Configuration :=
  match m !! pinned_configuration p with
  | Some c => <[pinned_configuration p :=
      mkConfiguration (config_name c) (saved c)
        (<[pinned_hash p := pinned_revision p]> (retained c))]> m
  | None => m
  end.

(** [pin]: the revisions are the store's even when [write] fails. *)
Definition pin {T} (names : gset string)
    (write : gmap string string → list Pinned → Eff B ConfigError T)
    : Eff (ConfigStore B) ConfigError T :=
  m <-! held ;;
  pinned <-! eff_of (pins m (btree_elements names)) ;;
  λ s, match through (write (hashes_of pinned) pinned) s with
       | (s, written) =>
           (mkConfigStore (config_backend s) (foldl retain_pinned (configs s) pinned), written)
       end.

Definition retain_only (name : string) (referenced : gset string)
    : Eff (ConfigStore B) ConfigError unit :=
  m <-! held ;;
  match m !! name with
  | None => eff_ret tt
  | Some _ =>
      kept <-! through (config_collect name referenced) ;;
      hold (alter (λ c, mkConfiguration (config_name c) (saved c) kept) name)
  end.

Definition config_delete (name : string) : Eff (ConfigStore B) ConfigError Removal :=
  m <-! held ;;
  match m !! name with
  | None => eff_ret Absent
  | Some _ =>
      removal <-! through (config_remove name) ;;
      match removal with
      | PinnedBy _ => eff_ret removal
      | _ => _ <-! hold (delete name) ;; eff_ret removal
      end
  end.

Definition candidates_in (s : ConfigStore B) (names : gset string)
    (description : option AgentDescription) : gmap string string :=
  collect_map ((λ c, (config_name c, revision_hash (saved c)))
    <$> List.filter (λ c, fits (saved c) description) (omap (λ name, configs s !! name) (btree_elements names))).

Definition compose_entry (s : ConfigStore B) (assignment : string * string) : option ConfigEntry :=
  let (name, hash) := assignment in
  config ← configs s !! name;
  revision ← retained config !! hash;
  Some (mkConfigEntry name (body revision) (role revision)).

Definition compose (s : ConfigStore B) (assignments : gmap string string) : option DesiredConfig :=
  match omap (compose_entry s) (btree_iter assignments) with
  | [] => None
  | entries => Some (desired_new entries)
  end.
End Store.

(** ** What a backend promises

    [config_stored b m]: the backend [b] holds the Configurations [m]. A call that fails may have
    reached the store or not, and nothing in between. *)

Definition with_saved (m : gmap string Configuration) (name : string) (r : Revision)
    : Configuration :=
  mkConfiguration name r (from_option retained ∅ (m !! name)).

Definition with_retained (kept : gmap string Revision) (c : Configuration) : Configuration :=
  mkConfiguration (config_name c) (saved c) kept.

Class ConfigBackendSpec {B : Type} `{!ConfigBackend B}
    (config_stored : B → gmap string Configuration → Prop) : Prop := {
  config_stored_names b m k c : config_stored b m → m !! k = Some c → config_name c = k;
  config_load_law b m b' x :
    config_stored b m → config_load b = (b', x) →
    config_stored b' m ∧ ∀ l, x = Ok l → by_name l = m;
  config_save_law b m name r b' x :
    config_stored b m → validate_name name = Ok tt → check_type r = Ok tt →
    config_save name r b = (b', x) →
    config_stored b' (<[name := with_saved m name r]> m) ∨ x ≠ Ok tt ∧ config_stored b' m;
  config_collect_law b m name referenced c b' x :
    config_stored b m → m !! name = Some c → config_collect name referenced b = (b', x) →
    ∃ kept, (∀ h, h ∈ referenced → kept !! h = retained c !! h) ∧ kept ⊆ retained c ∧
      (∀ y, x = Ok y → y = kept ∧ config_stored b' (<[name := with_retained kept c]> m)) ∧
      (is_ok x = false → config_stored b' m ∨ config_stored b' (<[name := with_retained kept c]> m));
  config_collect_absent_law b m name referenced b' x :
    config_stored b m → m !! name = None → config_collect name referenced b = (b', x) →
    config_stored b' m;
  config_remove_law b m name b' x :
    config_stored b m → config_remove name b = (b', x) →
    (∀ n, x = Ok (PinnedBy n) → config_stored b' m) ∧
    (x = Ok Removed ∨ x = Ok Absent → config_stored b' (delete name m)) ∧
    (is_ok x = false → config_stored b' m ∨ config_stored b' (delete name m));
}.

(** ** Lemmas on the frames *)

Definition u64_len (s : string) : Prop := (N.of_nat (String.length s) < 2 ^ 64)%N.

Lemma field_app_inj s t x y :
  u64_len s → u64_len t → field s ++ x = field t ++ y → s = t ∧ x = y.
Proof.
  unfold u64_len, field. intros Hs Ht H. rewrite <- !app_assoc in H.
  apply app_inj_1 in H as [Hlen H]; [|by rewrite !length_le_bytes].
  apply le_bytes_inj in Hlen; [|done..].
  apply app_inj_1 in H as [H ->]; [|rewrite !length_bytes_of; lia].
  by apply bytes_of_inj in H.
Qed.

Definition entry_u64 (e : ConfigEntry) : Prop :=
  u64_len (entry_name e) ∧ u64_len (entry_body e) ∧ u64_len (entry_role e).

Definition has_role (e : ConfigEntry) : bool := negb (is_empty (entry_role e)).

Lemma entry_frame_app_inj e e' x y :
  entry_u64 e → entry_u64 e' → has_role e = has_role e' →
  entry_frame e ++ x = entry_frame e' ++ y → e = e' ∧ x = y.
Proof.
  unfold entry_u64, has_role, entry_frame.
  destruct e as [n b r], e' as [n' b' r']; cbn [entry_name entry_body entry_role]. intros (Hn & Hb & Hr) (Hn' & Hb' & Hr') Hrole H.
  rewrite <- !app_assoc in H.
  apply field_app_inj in H as [-> H]; [|done..]. apply field_app_inj in H as [-> H]; [|done..].
  destruct r as [|c r], r' as [|c' r']; try done; cbn [is_empty] in H.
  apply field_app_inj in H as [-> ->]; done.
Qed.

Lemma field_nonempty s x : field s ++ x ≠ [].
Proof. done. Qed.

Lemma entry_frame_nonempty e x : entry_frame e ++ x ≠ [].
Proof. unfold entry_frame. rewrite <- !app_assoc. apply field_nonempty. Qed.

(** The hash an assignment pins a revision by is over an unambiguous frame: two revisions have
    the same frame exactly when an Agent is delivered the same body and role. *)
Theorem revision_frame_injective (r r' : Revision) :
  u64_len (body r) → u64_len (role r) → u64_len (body r') → u64_len (role r') →
  revision_frame r = revision_frame r' ↔ body r = body r' ∧ role r = role r'.
Proof.
  intros H1 H2 H3 H4. unfold revision_frame. split; [|by intros [-> ->]].
  intros H. apply field_app_inj in H as [-> H]; [|done..].
  rewrite <- (app_nil_r (field (role r))), <- (app_nil_r (field (role r'))) in H.
  apply field_app_inj in H as [-> _]; done.
Qed.

Lemma revision_frame_injective_witness :
  revision_frame (mkRevision "ab" "" "otelcol") ≠ revision_frame (mkRevision "a" "b" "otelcol").
Proof.
  rewrite revision_frame_injective by (vm_compute; reflexivity). cbn. naive_solver.
Defined.

(** The frame of a composed configuration determines its entries among those that carry a role
    in the same places — where no entry has one, it determines them outright. *)
Theorem entries_frame_injective (es es' : list ConfigEntry) :
  Forall entry_u64 es → Forall entry_u64 es' → has_role <$> es = has_role <$> es' →
  entries_frame es = entries_frame es' → es = es'.
Proof.
  intros Hes. revert es'. induction Hes as [|e es He Hes IH]; intros [|e' es'] Hes' Hroles H;
    try done. cbn in Hroles. injection Hroles as Hrole Hroles.
  apply Forall_cons in Hes' as [He' Hes']. unfold entries_frame in H; cbn [mbind list_bind] in H.
  apply entry_frame_app_inj in H as [-> H]; [|done..]. by rewrite (IH es').
Qed.

Lemma entries_frame_injective_witness :
  entries_frame [mkConfigEntry "a" "b" ""] ≠ entries_frame [mkConfigEntry "a" "bc" ""].
Proof.
  intros H. apply entries_frame_injective in H; [done|..|done];
    repeat constructor; vm_compute; reflexivity.
Defined.

(** With roles the frame is ambiguous: because an empty role is hashed as nothing, a role can be
    read as the name of the next entry. These two compositions have valid, distinct names and
    different bodies and roles, and the same hash, whatever the hash function — so an Agent that
    runs the one is taken to be in sync with the other. *)
Theorem desired_hash_ambiguous :
  ∃ es es' : list ConfigEntry,
    Forall (λ e, validate_name (entry_name e) = Ok tt) (es ++ es') ∧
    entry_name <$> es = entry_name <$> es' ∧ NoDup (entry_name <$> es) ∧
    ∀ sha256, desired_entries (desired_new sha256 es) ≠ desired_entries (desired_new sha256 es') ∧
      desired_hash (desired_new sha256 es) = desired_hash (desired_new sha256 es').
Proof.
  exists [mkConfigEntry "base" "x" "extra"; mkConfigEntry "extra" "y" ""].
  exists [mkConfigEntry "base" "x" ""; mkConfigEntry "extra" "extra" "y"].
  split; [|split; [|split]].
  - repeat constructor; vm_compute; reflexivity.
  - reflexivity.
  - apply (bool_decide_unpack _). vm_compute. exact I.
  - intros sha256. split; [vm_compute; congruence|]. cbn [desired_new desired_hash].
    f_equal.
Qed.

(** ** The store *)

Section Memory.
Context {B : Type} `{!ConfigBackend B}.
Context (sha256 : list N → list N) (hex_encode : list N → string).
Implicit Types s : ConfigStore B.

(** Every Configuration is held under its name. *)
Definition names_match s : Prop := ∀ k c, configs s !! k = Some c → config_name c = k.

Lemma compose_entry_alter s s' name f a :
  configs s' = alter f name (configs s) →
  (∀ c, configs s !! name = Some c → a.1 = name → retained (f c) !! a.2 = retained c !! a.2) →
  compose_entry s' a = compose_entry s a.
Proof.
  intros Hs Hf. destruct a as [n h]. unfold compose_entry. cbn in Hf. rewrite Hs.
  destruct (decide (n = name)) as [->|Hne]; [|by rewrite lookup_alter_ne].
  rewrite lookup_alter_eq. destruct (configs s !! name) as [c|]; [|done]. cbn. by rewrite Hf.
Qed.

Lemma compose_ext s s' assignments :
  (∀ n h, assignments !! n = Some h → compose_entry s' (n, h) = compose_entry s (n, h)) →
  compose sha256 s' assignments = compose sha256 s assignments.
Proof.
  intros H. unfold compose.
  assert (E : omap (compose_entry s') (btree_iter assignments)
            = omap (compose_entry s) (btree_iter assignments)); [|by rewrite E].
  assert (Hl : ∀ a, a ∈ btree_iter assignments → compose_entry s' a = compose_entry s a).
  { intros [n h]. rewrite elem_of_btree_iter. apply H. }
  induction (btree_iter assignments) as [|a l IH]; [done|]. cbn.
  rewrite Hl, IH; [done|set_solver|set_solver].
Qed.

(** What [put_saved] does to memory. *)
Lemma put_saved_configs name r s s' x :
  names_match s → put_saved name r s = (s', x) →
  configs s' = configs s ∧ is_ok x = false ∨
  configs s' = <[name := with_saved (configs s) name r]> (configs s) ∧
    x = Ok (with_saved (configs s) name r).
Proof.
  intros Hn. unfold put_saved, eff_of, eff_bind, through, held, hold, eff_fail, eff_ret.
  destruct (is_ok (validate_name name)); cbn; [|naive_solver].
  destruct (is_blank (body r)); [naive_solver|].
  destruct (check_type r); [|naive_solver].
  destruct (config_save name r (config_backend s)) as [b [[]|e]]; [|naive_solver].
  cbn. unfold with_saved. destruct (configs s !! name) as [c|] eqn:E; cbn.
  - apply Hn in E. naive_solver.
  - naive_solver.
Qed.

(** Saving reaches nobody: whatever is saved, accepted or refused, what any Agent's assignments
    compose is what they composed before. *)
Theorem saving_reaches_nobody (name : string) (r : Revision) s s' x
    (assignments : gmap string string) :
  names_match s → put_saved name r s = (s', x) →
  compose sha256 s' assignments = compose sha256 s assignments.
Proof.
  intros Hn Hput. apply compose_ext. intros n h _. unfold compose_entry.
  apply put_saved_configs in Hput as [[-> _]|[-> _]]; [done| |done].
  destruct (decide (n = name)) as [->|Hne]; [|by rewrite lookup_insert_ne].
  rewrite lookup_insert_eq. cbn. by destruct (configs s !! name).
Qed.

Lemma foldl_retain_lookup pinned m name :
  NoDup (pinned_configuration <$> pinned) →
  foldl retain_pinned m pinned !! name =
  match List.find (λ p, bool_decide (pinned_configuration p = name)) pinned with
  | Some p => (λ c, with_retained (<[pinned_hash p := pinned_revision p]> (retained c)) c) <$> m !! name
  | None => m !! name
  end.
Proof.
  revert m. induction pinned as [|p pinned IH]; intros m; [done|].
  cbn [fmap list_fmap foldl List.find]. intros [Hp Hl]%NoDup_cons. rewrite IH by done.
  case_bool_decide as Hname.
  - subst. assert (List.find (λ q, bool_decide (pinned_configuration q = pinned_configuration p))
      pinned = None) as ->.
    { destruct (List.find _ pinned) as [q|] eqn:E; [|done].
      apply find_some in E as [Hin Hq%bool_decide_eq_true]. destruct Hp.
      rewrite <- Hq. apply list_elem_of_fmap. exists q. split; [done|].
      by apply list_elem_of_In. }
    unfold retain_pinned. destruct (m !! pinned_configuration p) as [c|] eqn:E; [|by rewrite E].
    by rewrite lookup_insert_eq.
  - assert (retain_pinned m p !! name = m !! name) as ->; [|done].
    unfold retain_pinned. destruct (m !! pinned_configuration p); [|done].
    by rewrite lookup_insert_ne.
Qed.

Lemma pins_Ok m names pinned :
  pins sha256 hex_encode m names = Ok pinned →
  pinned_configuration <$> pinned = names ∧
  ∀ p, p ∈ pinned → ∃ c, m !! pinned_configuration p = Some c ∧
    p = mkPinned (pinned_configuration p) (revision_hash sha256 hex_encode (saved c)) (saved c).
Proof.
  revert pinned. induction names as [|n names IH]; intros pinned; cbn.
  { intros [= <-]. split; [done|]. by intros p ?%elem_of_nil. }
  destruct (m !! n) as [c|] eqn:E; [|done].
  destruct (pins sha256 hex_encode m names) as [rest|]; [|done]. cbn. intros [= <-].
  destruct (IH rest eq_refl) as [Hnames Hrest]. cbn. split; [by rewrite Hnames|].
  intros p [->|Hp]%elem_of_cons; [|auto]. cbn. eauto.
Qed.

(** A rollout's pin: once [pin] has handed the revisions to [write] — whatever [write] answers —
    every named Configuration retains its saved revision under that revision's hash, so an
    assignment of the hash composes it, and every other retained revision is still there. *)
Theorem pin_retains {T} (names : gset string)
    (write : gmap string string → list Pinned → Eff B ConfigError T) s s' (x : result T ConfigError) :
  (∀ n, n ∈ names → is_Some (configs s !! n)) →
  pin sha256 hex_encode names write s = (s', x) →
  ∀ n c, configs s !! n = Some c →
    ∃ c', configs s' !! n = Some c' ∧ saved c' = saved c ∧ config_name c' = config_name c ∧
      (n ∈ names → retained c' =
         <[revision_hash sha256 hex_encode (saved c) := saved c]> (retained c)) ∧
      (n ∉ names → retained c' = retained c).
Proof.
  intros Hnames. unfold pin, eff_bind, held, eff_of, through.
  destruct (pins sha256 hex_encode (configs s) (btree_elements names)) as [pinned|e] eqn:Ep; cycle 1.
  { exfalso. revert Ep. clear -Hnames.
    assert (H : ∀ n, n ∈ btree_elements names → is_Some (configs s !! n))
      by (intros n; rewrite elem_of_btree_elements; auto).
    revert H. generalize (btree_elements names) as l. intros l. induction l as [|n l IH]; [done|].
    cbn. intros H. destruct (H n) as [c ->]; [set_solver|].
    destruct (pins sha256 hex_encode (configs s) l); [done|]. intros [= ->].
    apply IH; [set_solver|done]. }
  destruct (write _ _ _) as [b w]. intros [= <- <-] n c Hc. cbn.
  apply pins_Ok in Ep as [Hmap Hpin].
  rewrite foldl_retain_lookup by (rewrite Hmap; apply NoDup_btree_elements).
  destruct (List.find _ pinned) as [p|] eqn:Ef.
  - apply find_some in Ef as [Hin Hn%bool_decide_eq_true]. apply list_elem_of_In in Hin.
    destruct (Hpin p Hin) as (c0 & Hc0 & Hp). rewrite Hn, Hc in Hc0. simplify_eq.
    rewrite Hc. cbn. eexists; split; [done|]. split; [done|]. split; [done|].
    split; [by rewrite Hp|]. intros Hnot. destruct Hnot. rewrite <- elem_of_btree_elements, <- Hmap.
    apply list_elem_of_fmap. eauto.
  - exists c. rewrite Hc. split; [done|]. split; [done|]. split; [done|].
    split; [|done]. intros Hn. exfalso.
    rewrite <- elem_of_btree_elements, <- Hmap in Hn. apply list_elem_of_fmap in Hn as (p & -> & Hin).
    apply list_elem_of_In in Hin. eapply find_none in Ef; [|done].
    by apply bool_decide_eq_false in Ef.
Qed.

End Memory.

Section StoreSpec.
Context {B : Type} `{!ConfigBackend B} (config_stored : B → gmap string Configuration → Prop).
Context `{!ConfigBackendSpec config_stored}.
Implicit Types s : ConfigStore B.

(** Memory holds what the backend stores. *)
Definition config_coherent s : Prop := config_stored (config_backend s) (configs s).

Lemma coherent_names s : config_coherent s → names_match s.
Proof. intros H k c. by apply (config_stored_names (config_stored := config_stored) (config_backend s)). Qed.

(** Collection never takes what an assignment still references: after [retain_only] an Agent
    whose assignments are among the referenced revisions composes what it composed before. *)
Theorem collection_keeps_referenced (sha256 : list N → list N) (name : string) (referenced : gset string) s s' x
    (assignments : gmap string string) :
  config_coherent s → retain_only name referenced s = (s', x) →
  (∀ h, assignments !! name = Some h → h ∈ referenced) →
  compose sha256 s' assignments = compose sha256 s assignments.
Proof.
  intros Hco. unfold retain_only, eff_bind, held, through, hold, eff_ret.
  destruct (configs s !! name) as [c|] eqn:Ec; [|by intros [= <- <-]].
  destruct (config_collect name referenced (config_backend s)) as [b [kept|e]] eqn:E; cbn;
    [|by intros [= <- <-]].
  intros [= <- <-] Hass. eapply config_collect_law in E as (kept' & Hkept & _ & Hok & _); [|done..].
  destruct (Hok kept eq_refl) as [-> _].
  apply compose_ext. intros n h Hn. eapply compose_entry_alter; [reflexivity|].
  intros c0 Hc0 Heq. cbn in *. simplify_eq. auto.
Qed.

(** The calls of the store that write. *)
Inductive ConfigOp :=
| OpReload
| OpPutSaved (name : string) (r : Revision)
| OpRetainOnly (name : string) (referenced : gset string)
| OpDelete (name : string).

Definition run_op (op : ConfigOp) : Eff (ConfigStore B) ConfigError unit :=
  match op with
  | OpReload => config_reload
  | OpPutSaved name r => _ <-! put_saved name r ;; eff_ret tt
  | OpRetainOnly name referenced => retain_only name referenced
  | OpDelete name => _ <-! config_delete name ;; eff_ret tt
  end.

Lemma insert_alter (m : gmap string Configuration) name f c :
  m !! name = Some c → alter f name m = <[name := f c]> m.
Proof.
  intros Hc. apply map_eq. intros k. destruct (decide (k = name)) as [->|Hne].
  - by rewrite lookup_alter_eq, lookup_insert_eq, Hc.
  - by rewrite lookup_alter_ne, lookup_insert_ne.
Qed.

Lemma put_saved_coherent name r s s' x :
  config_coherent s → put_saved name r s = (s', x) → is_ok x = true → config_coherent s'.
Proof.
  intros Hco Hput Hx. pose proof (coherent_names _ Hco) as Hn.
  destruct (put_saved_configs _ _ _ _ _ Hn Hput) as [[_ Hx']|[Hs' _]]; [by rewrite Hx' in Hx|].
  unfold config_coherent. rewrite Hs'. revert Hput.
  unfold put_saved, eff_of, eff_bind, through, held, hold, eff_fail, eff_ret.
  destruct (validate_name name) as [[]|] eqn:Ev; cbn; [|by intros [= <- <-]].
  destruct (is_blank (body r)); [by intros [= <- <-]|].
  destruct (check_type r) as [[]|] eqn:Et; [|by intros [= <- <-]].
  destruct (config_save name r (config_backend s)) as [b [[]|e]] eqn:E; [|by intros [= <- <-]].
  intros [= <- <-]. cbn. eapply config_save_law in E as [?|[]]; done.
Qed.

(** Memory and store stay one: a write that succeeds leaves in memory exactly what the backend
    stores, and a write that is refused or fails leaves memory as it was. *)
Theorem config_store_coherent (op : ConfigOp) s s' x :
  config_coherent s → run_op op s = (s', x) →
  (is_ok x = true → config_coherent s') ∧ (is_ok x = false → configs s' = configs s).
Proof.
  intros Hco. destruct op as [|name r|name referenced|name]; cbn [run_op].
  - unfold config_reload, eff_bind, through, hold.
    destruct (config_load (config_backend s)) as [b [l|e]] eqn:E; intros [= <- <-]; [|done].
    split; [intros _|done]. unfold config_coherent. cbn.
    eapply config_load_law in E as [Hst Hl]; [|done]. by rewrite (Hl l).
  - unfold eff_bind. destruct (put_saved name r s) as [s1 [c|e]] eqn:E; intros [= <- <-].
    + split; [intros _|done]. by eapply put_saved_coherent.
    + split; [done|intros _]. apply put_saved_configs in E; [naive_solver|by apply coherent_names].
  - unfold retain_only, eff_bind, held, through, hold, eff_ret.
    destruct (configs s !! name) as [c|] eqn:Ec; [|by intros [= <- <-]].
    destruct (config_collect name referenced (config_backend s)) as [b [kept|e]] eqn:E; cbn;
      intros [= <- <-]; [|done]. split; [intros _|done].
    eapply config_collect_law in E as (kept' & _ & _ & Hok & _); [|done..].
    destruct (Hok kept eq_refl) as [-> Hst]. unfold config_coherent. cbn.
    by erewrite insert_alter.
  - unfold config_delete, eff_bind, held, through, hold, eff_ret.
    destruct (configs s !! name) as [c|] eqn:Ec; [|by intros [= <- <-]].
    destruct (config_remove name (config_backend s)) as [b [removal|e]] eqn:E; cbn;
      [|by intros [= <- <-]].
    eapply config_remove_law in E as (Hpin & Hrem & _); [|done].
    destruct removal; intros [= <- <-]; (split; [intros _|done]); unfold config_coherent; cbn; eauto.
Qed.
End StoreSpec.

(** ** A backend in memory

    The port's contract met by a map: what a backend is taken to be by the store's theorems. *)

#[export] Instance memory_configs : ConfigBackend (gmap string Configuration) := {|
  config_load := λ m, (m, Ok (btree_values m));
  config_save := λ name r m, (<[name := with_saved m name r]> m, Ok tt);
  config_collect := λ name referenced m,
    match m !! name with
    | None => (m, Ok ∅)
    | Some c =>
        let kept := filter (λ hr, hr.1 ∈ referenced) (retained c) in
        (<[name := with_retained kept c]> m, Ok kept)
    end;
  config_remove := λ name m, (delete name m, Ok Removed);
|}.

Definition memory_stored (m m' : gmap string Configuration) : Prop :=
  m = m' ∧ ∀ k c, m !! k = Some c → config_name c = k.

Lemma by_config_name_values (m : gmap string Configuration) :
  (∀ k c, m !! k = Some c → config_name c = k) → by_name (btree_values m) = m.
Proof.
  intros Hm. unfold by_name, btree_values.
  assert (E : (λ c, (config_name c, c)) <$> (btree_iter m).*2 = btree_iter m).
  { rewrite <- list_fmap_compose. rewrite <- (list_fmap_id (btree_iter m)) at 2.
    apply list_fmap_ext. intros i [k c] Hi. cbn. apply list_elem_of_lookup_2, elem_of_btree_iter in Hi.
    by rewrite (Hm k c Hi). }
  rewrite E. apply map_eq. intros k. apply option_eq. intros c.
  rewrite lookup_collect_map by apply NoDup_btree_keys. apply elem_of_btree_iter.
Qed.

#[export] Instance memory_configs_spec : ConfigBackendSpec memory_stored.
Proof.
  split.
  - intros b m k c [-> H]. apply H.
  - intros b m b' x [<- H] [= <- <-]. split; [done|]. intros l [= <-]. by apply by_config_name_values.
  - intros b m name r b' x [<- H] _ _ [= <- <-]. left. split; [done|].
    intros k c. destruct (decide (k = name)) as [->|Hne].
    + rewrite lookup_insert_eq. by intros [= <-].
    + rewrite lookup_insert_ne by done. apply H.
  - intros b m name referenced c b' x [<- H] Hc. cbn. rewrite Hc. intros [= <- <-].
    exists (filter (λ hr, hr.1 ∈ referenced) (retained c)).
    split; [|split; [apply map_filter_subseteq|split]].
    + intros h Hh. apply option_eq. intros r. rewrite map_lookup_filter_Some. naive_solver.
    + intros y [= <-]. split; [done|]. split; [done|]. intros k c'.
      destruct (decide (k = name)) as [->|Hne].
      * rewrite lookup_insert_eq. intros [= <-]. cbn. by apply H.
      * rewrite lookup_insert_ne by done. apply H.
    + done.
  - intros b m name referenced b' x [<- H] Hc. cbn. rewrite Hc. by intros [= <- <-].
  - intros b m name b' x [<- H] [= <- <-]. split; [done|split; [|done]]. intros _. split; [done|].
    intros k c [_ Hk]%lookup_delete_Some. by apply H.
Qed.

(** A store that holds one Configuration with a retained revision. *)
Definition sample_config : Configuration :=
  mkConfiguration "base" (mkRevision "new" "" "otelcol") {["h0" := mkRevision "old" "" "otelcol"]}.
Definition sample_store : ConfigStore (gmap string Configuration) :=
  mkConfigStore {["base" := sample_config]} {["base" := sample_config]}.

Lemma sample_names : names_match sample_store.
Proof. intros k c H. cbn in H. apply lookup_singleton_Some in H as [<- <-]. done. Qed.

Lemma sample_config_coherent : config_coherent memory_stored sample_store.
Proof. split; [done|]. apply sample_names. Qed.

Lemma saving_reaches_nobody_witness :
  ∃ s' x, put_saved "base" (mkRevision "newer" "" "otelcol") sample_store = (s', x) ∧ is_ok x = true ∧
    compose id s' {["base" := "h0"]} = compose id sample_store {["base" := "h0"]} ∧
    is_Some (compose id s' {["base" := "h0"]}).
Proof.
  destruct (put_saved "base" (mkRevision "newer" "" "otelcol") sample_store) as [s' x] eqn:E.
  exists s', x. split; [done|]. split; [vm_compute in E; by simplify_eq|].
  rewrite (saving_reaches_nobody id "base" (mkRevision "newer" "" "otelcol") sample_store s' x
    {["base" := "h0"]} sample_names E).
  split; [done|]. vm_compute. eauto.
Defined.

Lemma pin_retains_witness :
  ∃ s' x c', pin id (λ _, "h1") {["base"]} (λ _ _, eff_ret tt) sample_store = (s', x) ∧
    configs s' !! "base" = Some c' ∧ retained c' !! "h1" = Some (mkRevision "new" "" "otelcol").
Proof.
  destruct (pin id (λ _, "h1") {["base"]} (λ _ _, eff_ret tt) sample_store) as [s' x] eqn:E.
  destruct (pin_retains id (λ _, "h1") {["base"]} (λ _ _, eff_ret tt) sample_store s' x)
    with (n := "base") (c := sample_config) as (c' & Hc' & _ & _ & Hr & _).
  - intros n Hn%elem_of_singleton. subst. vm_compute. eauto.
  - exact E.
  - reflexivity.
  - exists s', x, c'. split; [done|]. split; [done|].
    rewrite Hr by (by apply elem_of_singleton). by rewrite lookup_insert_eq.
Defined.

Lemma collection_keeps_referenced_witness :
  ∃ s' x, retain_only "base" {["h0"]} sample_store = (s', x) ∧
    compose id s' {["base" := "h0"]} = compose id sample_store {["base" := "h0"]}.
Proof.
  destruct (retain_only "base" {["h0"]} sample_store) as [s' x] eqn:E.
  exists s', x. split; [done|].
  apply (collection_keeps_referenced memory_stored id "base" {["h0"]} sample_store s' x);
    [apply sample_config_coherent|exact E|].
  intros h Hh. rewrite lookup_singleton_eq in Hh. simplify_eq. by apply elem_of_singleton.
Defined.

Lemma config_store_coherent_witness :
  ∃ s' x, run_op (OpDelete "base") sample_store = (s', x) ∧ config_coherent memory_stored s'.
Proof.
  destruct (run_op (OpDelete "base") sample_store) as [s' x] eqn:E.
  exists s', x. split; [done|].
  apply (config_store_coherent memory_stored (OpDelete "base") sample_store s' x sample_config_coherent E).
  vm_compute in E. by simplify_eq.
Defined.
