(* ===== verification/Deployments.v ===== *)
(** * Deployments

    [fleet-server/src/deployments.rs]: what reaches a channel of hosts — the Selector that aims, the
    one Deployment an Agent belongs to, the changes to a Deployment's members, and the store over a
    [DeploymentBackend]. A refusal message is the data it is formatted from. *)

From S2P Require Import Prelude RustStr Proto Packages Configs.

Open Scope string_scope.
Open Scope list_scope.

Record Deployment := mkDeployment {
  name : string;
  selector : gmap string string;
  packages : gmap string PackageId;
  configurations : gset string;
}.

#[export] Instance Deployment_eq_dec : EqDecision Deployment.
Proof. solve_decision. Defined.

(** Does this Selector match this Agent? *)
Definition matches (selector : gmap string string) (description : option AgentDescription) : bool :=
  if bool_decide (selector = ∅) then true
  else match description with
       | None => false
       | Some d => forallb (λ kv, bool_decide (attribute d kv.1 = Some kv.2)) (btree_iter selector)
       end.

Definition package_for (d : Deployment) (agent_type : string) : option PackageId :=
  packages d !! agent_type.

Definition holds_nothing (d : Deployment) : bool :=
  bool_decide (packages d = ∅) && bool_decide (configurations d = ∅).

Inductive SelectorRefusal :=
| EmptySelector
| BlankPair (k v : string).

Inductive DeploymentError :=
| InvalidDeploymentName (name : string)
| InvalidSelector (why : SelectorRefusal)
| NotFound
| Missing (name configuration : string)
| TypeTaken (agent_type : string) (held : PackageId)
| Conflict
| Storage.

Definition check_selector (selector : gmap string string) : result unit SelectorRefusal :=
  if bool_decide (selector = ∅) then Err EmptySelector
  else check_each (λ kv, if is_blank kv.1 || is_blank kv.2 then Some (BlankPair kv.1 kv.2) else None)
         (btree_iter selector).

(** The Deployment one Agent belongs to; the error carries the names of all that claim it. *)
Definition deployment_for (deployments : gmap string Deployment)
    (description : option AgentDescription) : result (option Deployment) (list string) :=
  match List.filter (λ d, matches (selector d) description) (btree_values deployments) with
  | [] => Ok None
  | [only] => Ok (Some only)
  | all => Err (name <$> all)
  end.

Inductive Change :=
| PutPackage (id : PackageId) (replace : bool)
| RemovePackage (id : PackageId)
| PutConfiguration (configuration : string)
| RemoveConfiguration (configuration : string).

Definition not_held (name configuration : string) : DeploymentError := Missing name configuration.

(** [Change::apply]: the Deployment changed, or the refusal. *)
Definition apply (change : Change) (d : Deployment) : result Deployment DeploymentError :=
  let with_packages p := mkDeployment (name d) (selector d) p (configurations d) in
  let with_configurations c := mkDeployment (name d) (selector d) (packages d) c in
  match change with
  | PutPackage id replace =>
      let put := Ok (with_packages (<[agent_type id := id]> (packages d))) in
      if replace then put
      else match packages d !! agent_type id with
           | Some held =>
               if bool_decide (held = id) then put else Err (TypeTaken (agent_type id) held)
           | None => put
           end
  | RemovePackage id =>
      if bool_decide (packages d !! agent_type id = Some id)
      then Ok (with_packages (delete (agent_type id) (packages d)))
      else Err NotFound
  | PutConfiguration c => Ok (with_configurations ({[c]} ∪ configurations d))
  | RemoveConfiguration c =>
      if bool_decide (c ∈ configurations d)
      then Ok (with_configurations (configurations d ∖ {[c]}))
      else Err (not_held (name d) c)
  end.

Inductive Member :=
| MemberConfiguration (configuration : string)
| MemberPackage (id : PackageId).

(** [Member::drop_from]: the Deployment without the member, and whether it held it. *)
Definition drop_from (member : Member) (d : Deployment) : Deployment * bool :=
  match member with
  | MemberConfiguration c =>
      (mkDeployment (name d) (selector d) (packages d) (configurations d ∖ {[c]}),
       bool_decide (c ∈ configurations d))
  | MemberPackage id =>
      if bool_decide (packages d !! agent_type id = Some id)
      then (mkDeployment (name d) (selector d) (delete (agent_type id) (packages d))
              (configurations d), true)
      else (d, false)
  end.

(** ** The backend's port *)

Class DeploymentBackend (B : Type) := {
  load : Eff B DeploymentError (list Deployment);
  save : string → gmap string string → Eff B DeploymentError Deployment;
  amend : string → Change → Eff B DeploymentError Deployment;
  drop_member : Member → Eff B DeploymentError (list Deployment);
  remove : string → Eff B DeploymentError unit;
}.

(** ** The store *)

Record DeploymentStore (B : Type) := mkDeploymentStore {
  backend : B;
  deployments : gmap string Deployment;
}.
Arguments mkDeploymentStore {B}.
Arguments backend {B}.
Arguments deployments {B}.

Definition by_name (l : list Deployment) : gmap string Deployment :=
  collect_map ((λ d, (name d, d)) <$> l).

Section Store.
Context {B : Type} `{!DeploymentBackend B}.

Definition through {A} (call : Eff B DeploymentError A) : Eff (DeploymentStore B) DeploymentError A :=
  λ s, let (b, r) := call (backend s) in (mkDeploymentStore b (deployments s), r).

Definition hold (f : gmap string Deployment → gmap string Deployment)
    : Eff (DeploymentStore B) DeploymentError unit :=
  λ s, (mkDeploymentStore (backend s) (f (deployments s)), Ok tt).

Definition held : Eff (DeploymentStore B) DeploymentError (gmap string Deployment) :=
  λ s, (s, Ok (deployments s)).

(** [DeploymentStore::open] and [reload]. *)
Definition store_open (b : B) : B * result (DeploymentStore B) DeploymentError :=
  match load b with
  | (b, Err e) => (b, Err e)
  | (b, Ok l) => (b, Ok (mkDeploymentStore b (by_name l)))
  end.

Definition store_reload : Eff (DeploymentStore B) DeploymentError unit :=
  l <-! through load ;;
  hold (λ _, by_name l).

Definition store_list (s : DeploymentStore B) : list Deployment := btree_values (deployments s).
Definition store_get (s : DeploymentStore B) (name : string) : option Deployment :=
  deployments s !! name.

(** [DeploymentStore::put]. *)
Definition store_put (name : string) (selector : gmap string string)
    : Eff (DeploymentStore B) DeploymentError Deployment :=
  _ <-! eff_of (map_err (λ _, InvalidDeploymentName name) (validate_name name)) ;;
  _ <-! eff_of (map_err InvalidSelector (check_selector selector)) ;;
  d <-! through (save name selector) ;;
  _ <-! hold <[name := d]> ;;
  eff_ret d.

(** [DeploymentStore::amend], the path of [put_package], [remove_package], [put_configuration] and
    [remove_configuration]. *)
Definition store_amend (name : string) (change : Change)
    : Eff (DeploymentStore B) DeploymentError Deployment :=
  d <-! through (amend name change) ;;
  _ <-! hold <[name := d]> ;;
  eff_ret d.

Definition put_package (name : string) (id : PackageId) (replace : bool) :=
  store_amend name (PutPackage id replace).
Definition remove_package (name : string) (id : PackageId) := store_amend name (RemovePackage id).
Definition put_configuration (name configuration : string) :=
  store_amend name (PutConfiguration configuration).
Definition remove_configuration (name configuration : string) :=
  store_amend name (RemoveConfiguration configuration).

(** [drop_everywhere], the path of [drop_configuration] and [drop_package]. *)
Definition drop_everywhere (member : Member) : Eff (DeploymentStore B) DeploymentError (list string) :=
  changed <-! through (drop_member member) ;;
  _ <-! hold (λ m, foldl (λ m d, <[name d := d]> m) m changed) ;;
  eff_ret (name <$> changed).

Definition drop_configuration (configuration : string) :=
  drop_everywhere (MemberConfiguration configuration).
Definition drop_package (id : PackageId) := drop_everywhere (MemberPackage id).

(** [DeploymentStore::delete]. *)
Definition store_delete (name : string) : Eff (DeploymentStore B) DeploymentError bool :=
  m <-! held ;;
  match m !! name with
  | None => eff_ret false
  | Some _ =>
      _ <-! through (remove name) ;;
      _ <-! hold (delete name) ;;
      eff_ret true
  end.
End Store.

(** ** What a backend promises

    [stored b m]: the backend [b] holds the Deployments [m]. *)

Definition with_selector (m : gmap string Deployment) (n : string) (sel : gmap string string)
    : Deployment :=
  match m !! n with
  | Some d => mkDeployment n sel (packages d) (configurations d)
  | None => mkDeployment n sel ∅ ∅
  end.

Definition drop_all (member : Member) (m : gmap string Deployment) : gmap string Deployment :=
  (λ d, (drop_from member d).1) <$> m.

(** What a write may add to a Deployment: a Package identity and a Configuration name that pass
    their grammars. *)
Definition change_wf (change : Change) : Prop :=
  match change with
  | PutPackage id _ => package_id_load (agent_type id) (version id) = Ok id
  | PutConfiguration c => validate_name c = Ok tt
  | _ => True
  end.

Class DeploymentBackendSpec {B : Type} `{!DeploymentBackend B}
    (stored : B → gmap string Deployment → Prop) : Prop := {
  stored_names b m k d : stored b m → m !! k = Some d → name d = k;
  load_law b m b' x :
    stored b m → load b = (b', x) → stored b' m ∧ ∀ l, x = Ok l → by_name l = m;
  save_law b m n sel b' x :
    stored b m → validate_name n = Ok tt → check_selector sel = Ok tt → save n sel b = (b', x) →
    x = Ok (with_selector m n sel) ∧ stored b' (<[n := with_selector m n sel]> m) ∨
    is_ok x = false ∧ (stored b' m ∨ stored b' (<[n := with_selector m n sel]> m));
  amend_law b m n change b' x :
    stored b m → change_wf change → amend n change b = (b', x) →
    match m !! n with
    | None => is_ok x = false ∧ stored b' m
    | Some d =>
        match apply change d with
        | Err _ => is_ok x = false ∧ stored b' m
        | Ok d' => x = Ok d' ∧ stored b' (<[n := d']> m) ∨
                   is_ok x = false ∧ (stored b' m ∨ stored b' (<[n := d']> m))
        end
    end;
  drop_law b m member b' x :
    stored b m → drop_member member b = (b', x) →
    (∀ l, x = Ok l → stored b' (drop_all member m) ∧ NoDup (name <$> l) ∧
       ∀ d, d ∈ l ↔ ∃ k d0, m !! k = Some d0 ∧ drop_from member d0 = (d, true)) ∧
    (is_ok x = false →
       ∃ m', stored b' m' ∧ ∀ k, m' !! k = m !! k ∨ m' !! k = drop_all member m !! k);
  remove_law b m n b' x :
    stored b m → remove n b = (b', x) →
    (is_ok x = true → stored b' (delete n m)) ∧
    (is_ok x = false → stored b' m ∨ stored b' (delete n m));
}.

(** ** Selectors *)

Lemma matches_spec sel description :
  matches sel description = true ↔
  ∀ k v, sel !! k = Some v → (description ≫= λ d, attribute d k) = Some v.
Proof.
  unfold matches. case_bool_decide as Hempty; [subst; split; [|done]; intros _ k v H; done|].
  assert (∃ k v, sel !! k = Some v) as (k0 & v0 & Hk0).
  { destruct (map_choose sel Hempty) as (k & v & ?). eauto. }
  destruct description as [d|]; cbn.
  - rewrite forallb_forall. setoid_rewrite <- list_elem_of_In. split.
    + intros H k v Hk. specialize (H (k, v)). rewrite elem_of_btree_iter in H. cbn in H.
      by apply (proj1 (bool_decide_eq_true _)), H.
    + intros H [k v] Hk%elem_of_btree_iter. cbn. by apply (proj2 (bool_decide_eq_true _)), H.
  - split; [done|]. intros H. by specialize (H k0 v0 Hk0).
Qed.

Lemma check_selector_spec sel :
  check_selector sel = Ok tt ↔
  sel ≠ ∅ ∧ ∀ k v, sel !! k = Some v → is_blank k = false ∧ is_blank v = false.
Proof.
  unfold check_selector. case_bool_decide as Hempty; [naive_solver|].
  rewrite check_each_Ok. split.
  - intros H. split; [done|]. intros k v Hk. specialize (H (k, v)).
    rewrite elem_of_btree_iter in H. specialize (H Hk). cbn in H.
    destruct (is_blank k), (is_blank v); naive_solver.
  - intros [_ H] [k v] [Hk Hv]%elem_of_btree_iter%H. cbn. by rewrite Hk, Hv.
Qed.

(** The Deployments that claim an Agent, by their names. *)
Definition claims (m : gmap string Deployment) (description : option AgentDescription) (k : string)
    : Prop :=
  ∃ d, m !! k = Some d ∧ matches (selector d) description = true.

Lemma elem_of_claiming m description d :
  d ∈ List.filter (λ d, matches (selector d) description) (btree_values m) ↔
  ∃ k, m !! k = Some d ∧ matches (selector d) description = true.
Proof.
  rewrite list_elem_of_In, filter_In, <- list_elem_of_In, elem_of_btree_values. naive_solver.
Qed.

Lemma NoDup_claiming m description :
  (∀ k d, m !! k = Some d → name d = k) →
  NoDup (name <$> List.filter (λ d, matches (selector d) description) (btree_values m)).
Proof.
  intros Hn.
  assert (NoDup (name <$> btree_values m)) as Hall.
  { unfold btree_values. rewrite <- list_fmap_compose.
    replace ((name ∘ snd) <$> btree_iter m) with (btree_keys m); [apply NoDup_btree_keys|].
    apply list_fmap_ext. intros i [k d] Hi. cbn.
    apply list_elem_of_lookup_2, elem_of_btree_iter in Hi. symmetry. by apply Hn. }
  induction (btree_values m) as [|d l IH]; [done|]. cbn in *.
  apply NoDup_cons in Hall as [Hd Hl]. case_match; [|auto]. cbn. apply NoDup_cons. split; [|auto].
  intros (d' & Hd' & Hin)%list_elem_of_fmap. destruct Hd. apply list_elem_of_fmap.
  exists d'. split; [done|]. apply list_elem_of_In, filter_In in Hin as [Hin _]. by apply list_elem_of_In.
Qed.

(** An Agent belongs to at most one Deployment: none is answered when none matches it, one when
    exactly that one does, and otherwise the refusal names exactly the Deployments that match, two
    or more of them. *)
Theorem deployment_for_spec (m : gmap string Deployment) (description : option AgentDescription) :
  (∀ k d, m !! k = Some d → name d = k) →
  match deployment_for m description with
  | Ok None => ∀ k, ¬ claims m description k
  | Ok (Some d) => m !! name d = Some d ∧ ∀ k, claims m description k ↔ k = name d
  | Err names => (2 ≤ length names)%nat ∧ NoDup names ∧ ∀ k, claims m description k ↔ k ∈ names
  end.
Proof.
  intros Hn. unfold deployment_for, claims.
  pose proof (elem_of_claiming m description) as Hin. pose proof (NoDup_claiming m description Hn) as Hnd.
  destruct (List.filter _ (btree_values m)) as [|d1 [|d2 l]].
  - intros k (d & Hk & Hm). apply (not_elem_of_nil d), Hin. eauto.
  - destruct (proj1 (Hin d1)) as (k1 & Hk1 & Hm1); [apply list_elem_of_here|].
    pose proof (Hn _ _ Hk1) as <-. split; [done|]. intros k. split; [|naive_solver].
    intros (d & Hk & Hm). assert (d ∈ [d1]) as ->%list_elem_of_singleton by (apply Hin; eauto).
    symmetry. eauto.
  - cbn [length fmap list_fmap]. split; [lia|]. split; [done|]. intros k. split.
    + intros (d & Hk & Hm). rewrite <- (Hn _ _ Hk). apply (list_elem_of_fmap_2 name (d1 :: d2 :: l)).
      apply Hin. eauto.
    + intros H. apply (list_elem_of_fmap name (d1 :: d2 :: l)) in H as (d & -> & (k & Hk & Hm)%Hin).
      exists d. by rewrite (Hn _ _ Hk).
Qed.

Definition channel (n v : string) : Deployment := mkDeployment n {["channel" := v]} ∅ ∅.
Definition two_channels : gmap string Deployment :=
  <["canary" := channel "canary" "canary"]> {["stable" := channel "stable" "stable"]}.

Lemma deployment_for_spec_witness :
  let d := Some (mkDescription [] [string_attr "channel" "stable"]) in
  deployment_for two_channels d = Ok (Some (channel "stable" "stable")) ∧
  (claims two_channels d "canary" ↔ "canary" = "stable").
Proof.
  intros d.
  assert (E : deployment_for two_channels d = Ok (Some (channel "stable" "stable")))
    by (vm_compute; reflexivity).
  split; [exact E|].
  pose proof (deployment_for_spec two_channels d) as H. rewrite E in H.
  apply H. intros k dep Hk. unfold two_channels in Hk.
  apply lookup_insert_Some in Hk as [[<- <-]|[_ Hk]]; [done|].
  by apply lookup_singleton_Some in Hk as [<- <-].
Defined.

(** ** Changes *)

(** What a stored Deployment is: a name, a Selector and members that pass their grammars, each
    Package under its own Agent type. *)
Definition wf_deployment (d : Deployment) : Prop :=
  validate_name (name d) = Ok tt ∧ check_selector (selector d) = Ok tt ∧
  (∀ t id, packages d !! t = Some id →
     t = agent_type id ∧ package_id_load (agent_type id) (version id) = Ok id) ∧
  (∀ c, c ∈ configurations d → validate_name c = Ok tt).

Lemma apply_wf change d d' :
  wf_deployment d → change_wf change → apply change d = Ok d' → wf_deployment d'.
Proof.
  intros (Hname & Hsel & Hpk & Hcf) Hch. unfold apply, wf_deployment.
  destruct change as [id replace|id|c|c]; cbn in Hch.
  - intros H.
    assert (d' = mkDeployment (name d) (selector d) (<[agent_type id := id]> (packages d))
              (configurations d)) as -> by (repeat case_match; by simplify_eq).
    cbn. repeat split_and!; try done; intros t id' [[<- <-]|[_ ?]]%lookup_insert_Some; eauto;
      by edestruct Hpk.
  - case_bool_decide; [|done]. intros [= <-]. cbn. repeat split_and!; try done.
    intros t id' [_ ?]%lookup_delete_Some. eauto.
  - intros [= <-]. cbn. repeat split_and!; try done.
    intros c' [->%elem_of_singleton|?]%elem_of_union; eauto.
  - case_bool_decide; [|done]. intros [= <-]. cbn. repeat split_and!; try done.
    intros c' [? _]%elem_of_difference. eauto.
Qed.

(** The Agent type and the Configuration a change names. *)
Definition changed_type (change : Change) : option string :=
  match change with
  | PutPackage id _ | RemovePackage id => Some (agent_type id)
  | _ => None
  end.
Definition changed_configuration (change : Change) : option string :=
  match change with
  | PutConfiguration c | RemoveConfiguration c => Some c
  | _ => None
  end.

(** A change writes the member it names and no other: the name, the Selector, every Package of
    another type and every other Configuration stay, what is put in is held afterwards, and what is
    taken out is not. *)
Theorem apply_touches_one_member (change : Change) (d d' : Deployment) :
  apply change d = Ok d' →
  name d' = name d ∧ selector d' = selector d ∧
  (∀ t, changed_type change ≠ Some t → packages d' !! t = packages d !! t) ∧
  (∀ c, changed_configuration change ≠ Some c → c ∈ configurations d' ↔ c ∈ configurations d) ∧
  match change with
  | PutPackage id _ => packages d' !! agent_type id = Some id
  | RemovePackage id => packages d !! agent_type id = Some id ∧ packages d' !! agent_type id = None
  | PutConfiguration c => c ∈ configurations d'
  | RemoveConfiguration c => c ∈ configurations d ∧ c ∉ configurations d'
  end.
Proof.
  unfold apply. destruct change as [id replace|id|c|c]; cbn [changed_type changed_configuration].
  - intros H.
    assert (d' = mkDeployment (name d) (selector d) (<[agent_type id := id]> (packages d))
              (configurations d)) as -> by (repeat case_match; by simplify_eq).
    cbn. repeat split_and!; try done; [|by rewrite lookup_insert_eq].
    intros t Ht. rewrite lookup_insert_ne; congruence.
  - case_bool_decide; [|done]. intros [= <-]. cbn. repeat split_and!; try done;
      [|by rewrite lookup_delete_eq]. intros t Ht. rewrite lookup_delete_ne; congruence.
  - intros [= <-]. cbn. repeat split_and!; try done; set_solver.
  - case_bool_decide; [|done]. intros [= <-]. cbn. repeat split_and!; try done; set_solver.
Qed.

Lemma apply_touches_one_member_witness :
  ∃ d', apply (PutPackage (mkPackageId "otelcol" "1.0.0") false) (channel "stable" "stable") = Ok d' ∧
    packages d' !! "otelcol" = Some (mkPackageId "otelcol" "1.0.0") ∧ name d' = "stable".
Proof.
  eexists. split; [vm_compute; reflexivity|].
  edestruct (apply_touches_one_member (PutPackage (mkPackageId "otelcol" "1.0.0") false)
    (channel "stable" "stable")) as (Hn & _ & _ & _ & Hp); [vm_compute; reflexivity|].
  split; [exact Hp|exact Hn].
Defined.

(** An Agent type is held by one Package: without [replace] a second Package of a type already
    held is refused, naming the one that is held, and with it the held one is replaced. *)
Theorem put_package_type_taken (d : Deployment) (id held : PackageId) :
  packages d !! agent_type id = Some held →
  (held ≠ id → apply (PutPackage id false) d = Err (TypeTaken (agent_type id) held)) ∧
  ∃ d', apply (PutPackage id true) d = Ok d' ∧ packages d' !! agent_type id = Some id.
Proof.
  intros Hheld. unfold apply. rewrite Hheld. split.
  - intros Hne. by rewrite bool_decide_false.
  - eexists. split; [done|]. cbn. by rewrite lookup_insert_eq.
Qed.

Lemma put_package_type_taken_witness :
  let d := mkDeployment "stable" {["channel" := "stable"]}
             {["otelcol" := mkPackageId "otelcol" "1.0.0"]} ∅ in
  apply (PutPackage (mkPackageId "otelcol" "2.0.0") false) d =
  Err (TypeTaken "otelcol" (mkPackageId "otelcol" "1.0.0")).
Proof.
  intros d. apply (put_package_type_taken d (mkPackageId "otelcol" "2.0.0")
    (mkPackageId "otelcol" "1.0.0")); [reflexivity|congruence].
Defined.

(** ** The store *)

(** The calls of the store that write. *)
Inductive StoreOp :=
| OpReload
| OpPut (name : string) (selector : gmap string string)
| OpAmend (name : string) (change : Change)
| OpDrop (member : Member)
| OpDelete (name : string).

Definition op_wf (op : StoreOp) : Prop :=
  match op with
  | OpAmend _ change => change_wf change
  | _ => True
  end.

Definition run_op {B} `{!DeploymentBackend B} (op : StoreOp)
    : Eff (DeploymentStore B) DeploymentError unit :=
  match op with
  | OpReload => store_reload
  | OpPut name selector => _ <-! store_put name selector ;; eff_ret tt
  | OpAmend name change => _ <-! store_amend name change ;; eff_ret tt
  | OpDrop member => _ <-! drop_everywhere member ;; eff_ret tt
  | OpDelete name => _ <-! store_delete name ;; eff_ret tt
  end.

(** The Deployments an operation asks for, from those there are. *)
Definition op_effect (op : StoreOp) (m : gmap string Deployment) : gmap string Deployment :=
  match op with
  | OpReload => m
  | OpPut n sel => <[n := with_selector m n sel]> m
  | OpAmend n change =>
      match m !! n with
      | Some d => match apply change d with Ok d' => <[n := d']> m | Err _ => m end
      | None => m
      end
  | OpDrop member => drop_all member m
  | OpDelete n => delete n m
  end.

Lemma drop_from_name member d : name (drop_from member d).1 = name d.
Proof. destruct member; cbn; [done|]. by case_bool_decide. Qed.

Lemma drop_from_false member d d' : drop_from member d = (d', false) → d' = d.
Proof.
  destruct member as [c|id]; cbn; [|case_bool_decide; naive_solver].
  intros [= <- Hc]. apply bool_decide_eq_false in Hc. destruct d as [n sel ps cs]. cbn in *.
  f_equal. set_solver.
Qed.

Lemma foldl_insert_drops member m l :
  (∀ k d, m !! k = Some d → name d = k) → NoDup (name <$> l) →
  (∀ d, d ∈ l ↔ ∃ k d0, m !! k = Some d0 ∧ drop_from member d0 = (d, true)) →
  foldl (λ m d, <[name d := d]> m) m l = drop_all member m.
Proof.
  intros Hn Hnd Hl.
  assert (E : foldl (λ m d, <[name d := d]> m) m l
    = foldl (λ m kv, <[kv.1 := kv.2]> m) m ((λ d, (name d, d)) <$> l)).
  { clear. revert m. induction l as [|d l IH]; intros m; [done|]. cbn. apply IH. }
  rewrite E. clear E.
  assert (Hfst : ((λ d, (name d, d)) <$> l).*1 = name <$> l)
    by (rewrite <- list_fmap_compose; done).
  apply map_eq. intros k. apply option_eq. intros d.
  rewrite lookup_foldl_insert by (by rewrite Hfst). rewrite Hfst. unfold drop_all.
  rewrite lookup_fmap_Some, list_elem_of_fmap. split.
  - intros [(d' & [= -> ->] & (k0 & d0 & Hk0 & Hd)%Hl)|[Hk Hm]].
    + exists d0. rewrite Hd. split; [done|].
      assert (name d' = k0) as ->; [|done]. rewrite <- (Hn _ _ Hk0), <- (drop_from_name member d0), Hd.
      done.
    + destruct (drop_from member d) as [d1 []] eqn:Hd.
      * destruct Hk. apply list_elem_of_fmap. exists d1. split.
        -- rewrite <- (Hn _ _ Hm), <- (drop_from_name member d), Hd. done.
        -- apply Hl. eauto.
      * apply drop_from_false in Hd as Heq. subst. exists d. by rewrite Hd.
  - intros (d0 & <- & Hd0). destruct (drop_from member d0) as [d1 []] eqn:Hd; cbn.
    + left. exists d1. split; [|apply Hl; eauto]. f_equal.
      rewrite <- (Hn _ _ Hd0), <- (drop_from_name member d0), Hd. done.
    + apply drop_from_false in Hd as Heq. subst. right. split; [|done].
      intros (d & -> & (k1 & d2 & Hk1 & Hd2)%Hl)%list_elem_of_fmap.
      assert (name d = k1) as Hk.
      { rewrite <- (Hn _ _ Hk1), <- (drop_from_name member d2), Hd2. done. }
      rewrite Hk, Hk1 in Hd0. simplify_eq. congruence.
Qed.

Section StoreSpec.
Context {B : Type} `{!DeploymentBackend B} (stored : B → gmap string Deployment → Prop).
Context `{!DeploymentBackendSpec stored}.
Implicit Types s : DeploymentStore B.

(** Memory holds what the backend stores. *)
Definition coherent s : Prop := stored (backend s) (deployments s).

(** The store does what it says to both of its halves: a call that succeeds leaves in memory and
    in the backend exactly the Deployments it asks for, and one that is refused or fails leaves
    memory as it was. *)
Theorem deployment_store_coherent (op : StoreOp) s s' x :
  coherent s → op_wf op → run_op op s = (s', x) →
  (is_ok x = true → coherent s' ∧
     (deployments s' = op_effect op (deployments s) ∨
      ∃ n, op = OpDelete n ∧ deployments s' = deployments s ∧ deployments s !! n = None)) ∧
  (is_ok x = false → deployments s' = deployments s).
Proof.
  intros Hco Hwf. destruct op as [|n sel|n change|member|n]; cbn [run_op op_effect].
  - unfold store_reload, eff_bind, through, hold.
    destruct (load (backend s)) as [b [l|e]] eqn:E; intros [= <- <-]; [|done].
    split; [intros _|done]. eapply load_law in E as [Hst Hl]; [|done].
    unfold coherent. cbn. rewrite (Hl l) by done. auto.
  - unfold store_put, eff_bind, eff_of, through, hold, eff_ret.
    destruct (validate_name n) as [[]|] eqn:Ev; cbn; [|by intros [= <- <-]].
    destruct (check_selector sel) as [[]|] eqn:Es; cbn; [|by intros [= <- <-]].
    destruct (save n sel (backend s)) as [b [d|e]] eqn:E; cbn; [|by intros [= <- <-]].
    intros [= <- <-]. split; [intros _|done].
    eapply save_law in E as [[[= ->] Hst]|[]]; try done. unfold coherent. cbn. auto.
  - unfold store_amend, eff_bind, through, hold, eff_ret.
    destruct (amend n change (backend s)) as [b [d|e]] eqn:E; cbn; [|by intros [= <- <-]].
    intros [= <- <-]. split; [intros _|done]. eapply amend_law in E; [|done..].
    destruct (deployments s !! n) as [d0|]; [|by destruct E].
    destruct (apply change d0) as [d'|]; [|by destruct E].
    destruct E as [[[= ->] Hst]|[]]; [|done]. unfold coherent. cbn. auto.
  - unfold drop_everywhere, eff_bind, through, hold, eff_ret.
    destruct (drop_member member (backend s)) as [b [l|e]] eqn:E; cbn; [|by intros [= <- <-]].
    intros [= <- <-]. split; [intros _|done]. eapply drop_law in E as [Hok _]; [|done].
    destruct (Hok l eq_refl) as (Hst & Hnd & Hl). unfold coherent. cbn.
    rewrite (foldl_insert_drops member); auto. intros k d. by apply (stored_names (stored := stored) (backend s)).
  - unfold store_delete, eff_bind, held, through, hold, eff_ret.
    destruct (deployments s !! n) as [d0|] eqn:Hd; cbn; [|intros [= <- <-]; cbn; naive_solver].
    destruct (remove n (backend s)) as [b [[]|e]] eqn:E; cbn; [|by intros [= <- <-]].
    intros [= <- <-]. split; [intros _|done]. eapply remove_law in E as [Hok _]; [|done].
    unfold coherent. cbn. auto.
Qed.

(** A write against a name no Deployment has, or a change the Deployment refuses, reaches
    neither the store nor memory. *)
Theorem refused_change_reaches_nothing (n : string) (change : Change) s s' x :
  coherent s → change_wf change → store_amend n change s = (s', x) →
  (deployments s !! n = None ∨
   ∃ d e, deployments s !! n = Some d ∧ apply change d = Err e) →
  is_ok x = false ∧ deployments s' = deployments s ∧ coherent s'.
Proof.
  intros Hco Hwf Hrun Hrefused. revert Hrun.
  unfold store_amend, eff_bind, through, hold, eff_ret.
  destruct (amend n change (backend s)) as [b r] eqn:E. eapply amend_law in E; [|done..].
  assert (is_ok r = false ∧ stored b (deployments s)) as [Hr Hst].
  { destruct Hrefused as [Hd|(d & e & Hd & Ha)]; rewrite Hd in E; [done|]. by rewrite Ha in E. }
  destruct r as [d|e]; [done|]. by intros [= <- <-].
Qed.
End StoreSpec.

(** ** A backend in memory: the port's contract met by a map. *)

Definition memory_amend (n : string) (change : Change) (m : gmap string Deployment)
    : gmap string Deployment * result Deployment DeploymentError :=
  match m !! n with
  | None => (m, Err NotFound)
  | Some d => match apply change d with
              | Ok d' => (<[n := d']> m, Ok d')
              | Err e => (m, Err e)
              end
  end.

#[export] Instance memory_deployments : DeploymentBackend (gmap string Deployment) := {|
  load := λ m, (m, Ok (btree_values m));
  save := λ n sel m, (<[n := with_selector m n sel]> m, Ok (with_selector m n sel));
  amend := memory_amend;
  drop_member := λ member m,
    (drop_all member m,
     Ok (fst <$> List.filter snd (drop_from member <$> btree_values m)));
  remove := λ n m, (delete n m, Ok tt);
|}.

Definition names_match (m : gmap string Deployment) : Prop :=
  ∀ k d, m !! k = Some d → name d = k.

Definition memory_stored (m m' : gmap string Deployment) : Prop := m = m' ∧ names_match m.

Lemma names_match_insert m k d : names_match m → name d = k → names_match (<[k := d]> m).
Proof.
  intros Hm Hd k' d'. rewrite lookup_insert_Some. intros [[<- <-]|[_ ?]]; [done|auto].
Qed.

Lemma apply_name change d d' : apply change d = Ok d' → name d' = name d.
Proof.
  unfold apply. destruct change; [| | |]; repeat case_match; intros; by simplify_eq/=.
Qed.

Lemma with_selector_name m n sel : name (with_selector m n sel) = n.
Proof. unfold with_selector. by destruct (m !! n). Qed.

Lemma names_btree_values m :
  names_match m → (λ d, (name d, d)) <$> btree_values m = btree_iter m.
Proof.
  intros Hm. unfold btree_values. rewrite <- list_fmap_compose.
  rewrite <- (list_fmap_id (btree_iter m)) at 2. apply list_fmap_ext. intros i [k c] Hi. cbn.
  apply list_elem_of_lookup_2, elem_of_btree_iter in Hi. by rewrite (Hm k c Hi).
Qed.

Lemma by_name_values m : names_match m → by_name (btree_values m) = m.
Proof.
  intros Hm. unfold by_name. rewrite names_btree_values by done.
  apply map_eq. intros k. apply option_eq. intros c.
  rewrite lookup_collect_map by apply NoDup_btree_keys. apply elem_of_btree_iter.
Qed.

Lemma drops_spec member (l : list Deployment) d :
  d ∈ fst <$> List.filter snd (drop_from member <$> l) ↔
  ∃ d0, d0 ∈ l ∧ drop_from member d0 = (d, true).
Proof.
  rewrite list_elem_of_fmap. setoid_rewrite list_elem_of_In. setoid_rewrite filter_In.
  setoid_rewrite <- list_elem_of_In. setoid_rewrite list_elem_of_fmap. split.
  - intros ([d' []] & -> & (d0 & Heq & Hin) & Hb); [|done]. exists d0. by rewrite <- Heq.
  - intros (d0 & Hin & Hd). exists (d, true). cbn. split; [done|]. split; [|done]. by exists d0.
Qed.

Lemma drops_NoDup member (l : list Deployment) :
  NoDup (name <$> l) → NoDup (name <$> (fst <$> List.filter snd (drop_from member <$> l))).
Proof.
  induction l as [|d l IH]; [done|]. cbn. intros [Hd Hl]%NoDup_cons.
  destruct (drop_from member d) as [d' []] eqn:E; cbn; [|auto].
  apply NoDup_cons. split; [|auto]. intros (d1 & Hn & (d0 & Hin & Hd0)%drops_spec)%list_elem_of_fmap.
  destruct Hd. apply list_elem_of_fmap. exists d0. split; [|done].
  rewrite <- (drop_from_name member d), E, <- (drop_from_name member d0), Hd0. done.
Qed.

#[export] Instance memory_deployments_spec : DeploymentBackendSpec memory_stored.
Proof.
  split.
  - intros b m k d [-> H]. apply H.
  - intros b m b' x [<- H] [= <- <-]. split; [done|]. intros l [= <-]. by apply by_name_values.
  - intros b m n sel b' x [<- H] _ _ [= <- <-]. left. split; [done|]. split; [done|].
    apply names_match_insert; [done|apply with_selector_name].
  - intros b m n change b' x [<- H] _. cbn. unfold memory_amend.
    destruct (b !! n) as [d|] eqn:Hd; [|by intros [= <- <-]].
    destruct (apply change d) as [d'|e] eqn:Ha; [|by intros [= <- <-]].
    intros [= <- <-]. left. split; [done|]. split; [done|]. apply names_match_insert; [done|].
    apply apply_name in Ha. rewrite Ha. by apply H.
  - intros b m member b' x [<- H] [= <- <-]. split; [|done]. intros l [= <-].
    split; [split; [done|]|split].
    + intros k d. unfold drop_all. rewrite lookup_fmap_Some. intros (d0 & <- & Hd0).
      rewrite drop_from_name. by apply H.
    + apply drops_NoDup. unfold btree_values. rewrite <- list_fmap_compose.
      replace ((name ∘ snd) <$> btree_iter b) with (btree_keys b); [apply NoDup_btree_keys|].
      apply list_fmap_ext. intros i [k d] Hi. cbn.
      apply list_elem_of_lookup_2, elem_of_btree_iter in Hi. symmetry. by apply H.
    + intros d. rewrite drops_spec. setoid_rewrite elem_of_btree_values. naive_solver.
  - intros b m n b' x [<- H] [= <- <-]. split; [intros _|done]. split; [done|].
    intros k d [_ Hk]%lookup_delete_Some. by apply H.
Qed.

Definition sample_store : DeploymentStore (gmap string Deployment) :=
  mkDeploymentStore two_channels two_channels.

Lemma sample_coherent : coherent memory_stored sample_store.
Proof.
  split; [done|]. apply names_match_insert; [|done].
  intros k d Hk. by apply lookup_singleton_Some in Hk as [<- <-].
Qed.

Lemma deployment_store_coherent_witness :
  ∃ s' x, run_op (OpAmend "stable" (PutConfiguration "base")) sample_store = (s', x) ∧
    coherent memory_stored s'.
Proof.
  destruct (run_op (OpAmend "stable" (PutConfiguration "base")) sample_store) as [s' x] eqn:E.
  exists s', x. split; [done|].
  apply (deployment_store_coherent memory_stored (OpAmend "stable" (PutConfiguration "base"))
    sample_store s' x sample_coherent eq_refl E).
  vm_compute in E. by simplify_eq.
Defined.

Lemma refused_change_reaches_nothing_witness :
  ∃ s' x, store_amend "stable" (RemoveConfiguration "base") sample_store = (s', x) ∧
    deployments s' = two_channels ∧ coherent memory_stored s'.
Proof.
  destruct (store_amend "stable" (RemoveConfiguration "base") sample_store) as [s' x] eqn:E.
  exists s', x. split; [done|].
  destruct (refused_change_reaches_nothing memory_stored "stable" (RemoveConfiguration "base")
    sample_store s' x sample_coherent I E) as (_ & ? & ?); [|done].
  right. exists (channel "stable" "stable"), (Missing "stable" "base"). split; reflexivity.
Defined.
