(* ===== verification/FsDocs.v ===== *)
(** * A directory of JSON documents

    What the filesystem adapters share: one document per record, named after it. [docs_stored] says
    which records a directory holds, and the lemmas here show what reading, listing and replacing a
    document do to it, for any type of record and any reader of its text. *)

From S2P Require Import Prelude RustStr Fs.

Open Scope string_scope.
Open Scope list_scope.

Definition path_of (n : string) : string := n +:+ ".json".

Lemma path_of_inj n n' : path_of n = path_of n' → n = n'.
Proof.
  unfold path_of. intros H.
  pose proof (proj2 (strip_suffix_Some ".json" _ n) eq_refl) as E.
  pose proof (proj2 (strip_suffix_Some ".json" _ n') eq_refl) as E'.
  rewrite H in E. congruence.
Qed.

Lemma path_of_not_temp n : ends_with ".tmp" (path_of n) = false.
Proof.
  unfold ends_with, starts_with, path_of. rewrite rev_str_app.
  destruct (strip_prefix _ _) as [r|] eqn:E; [|done]. apply strip_prefix_Some in E.
  discriminate.
Qed.

Lemma lookup_path fs n node :
  files fs !! path_of n = Some node ↔ documents (files fs) !! path_of n = Some node.
Proof.
  rewrite lookup_documents. unfold leftover. rewrite path_of_not_temp. naive_solver.
Qed.

Section Documents.
Context {D : Type}.
Context (parse_text : string → string → string → result D FsError).

Definition parse_document (stem path : string) : Eff Fs FsError D :=
  text <-! read_to_string path ;;
  eff_of (parse_text stem path text).

Definition load_documents : Eff Fs FsError (list D) :=
  l <-! json_files ;;
  eff_each (λ sp, parse_document sp.1 sp.2) l.

(** The directory holds the records [m]: each in the document of its name, and no other
    document. *)
Definition docs_stored (fs : Fs) (m : gmap string D) : Prop :=
  (∀ n d, m !! n = Some d ↔
     ∃ text, documents (files fs) !! path_of n = Some (File text) ∧
             parse_text n (path_of n) text = Ok d) ∧
  (∀ path node, documents (files fs) !! path = Some node →
     ∃ n d, path = path_of n ∧ m !! n = Some d).

Lemma stored_empty os ro : docs_stored (mkFs ∅ os ro) ∅.
Proof.
  split; cbn; unfold documents; rewrite map_filter_empty; [|done].
  intros n d. rewrite !lookup_empty. naive_solver.
Qed.

(** The relation reads the documents only. *)
Lemma stored_documents fs fs' m :
  documents (files fs') = documents (files fs) → docs_stored fs m → docs_stored fs' m.
Proof. unfold docs_stored. by intros ->. Qed.

Lemma stored_insert fs fs' m n d text :
  parse_text n (path_of n) text = Ok d → docs_stored fs m →
  documents (files fs') = <[path_of n := File text]> (documents (files fs)) →
  docs_stored fs' (<[n := d]> m).
Proof.
  intros Hd [H1 H2] E. split.
  - intros n' d'. rewrite E. destruct (decide (n = n')) as [<-|Hne].
    + rewrite !lookup_insert_eq. split; [intros [= <-]; eauto|].
      intros (text' & [= <-] & Hp). congruence.
    + rewrite !lookup_insert_ne by (auto using path_of_inj). apply H1.
  - intros path node. rewrite E. intros [[<- <-]|[Hne Hp]]%lookup_insert_Some.
    + exists n, d. by rewrite lookup_insert_eq.
    + destruct (H2 _ _ Hp) as (n' & d' & -> & Hn). exists n', d'. split; [done|].
      rewrite lookup_insert_ne; [done|]. intros <-. done.
Qed.

Lemma stored_delete fs fs' m n :
  docs_stored fs m → documents (files fs') = delete (path_of n) (documents (files fs)) →
  docs_stored fs' (delete n m).
Proof.
  intros [H1 H2] E. split.
  - intros n' d'. rewrite E. destruct (decide (n = n')) as [<-|Hne].
    + rewrite !lookup_delete_eq. naive_solver.
    + rewrite !lookup_delete_ne by (auto using path_of_inj). apply H1.
  - intros path node. rewrite E. intros [Hne Hp]%lookup_delete_Some.
    destruct (H2 _ _ Hp) as (n' & d' & -> & Hn). exists n', d'. split; [done|].
    rewrite lookup_delete_ne; [done|]. by intros <-.
Qed.

Lemma stored_remove_file fs fs' m n r :
  docs_stored fs m → remove_file (path_of n) fs = (fs', r) →
  r = Ok tt ∧ docs_stored fs' (delete n m) ∨ is_ok r = false ∧ docs_stored fs' m.
Proof.
  intros Hst E. apply remove_file_spec in E as [_ [[-> Hf]|[Hr Hf]]].
  - left. split; [done|]. eapply stored_delete; [done|]. rewrite Hf.
    unfold documents. by rewrite map_filter_delete.
  - right. split; [done|]. eapply stored_documents; [|done]. by rewrite Hf.
Qed.

Lemma stored_None fs m n : docs_stored fs m → files fs !! path_of n = None → m !! n = None.
Proof.
  intros Hst E. destruct (m !! n) as [d|] eqn:Hm; [|done].
  apply (proj1 Hst) in Hm as (text & Ht & _). apply lookup_path in Ht. congruence.
Qed.

Lemma parse_document_spec fs m n fs' r :
  docs_stored fs m → parse_document n (path_of n) fs = (fs', r) →
  docs_stored fs' m ∧ ∀ d, r = Ok d → m !! n = Some d.
Proof.
  intros Hst. unfold parse_document, eff_bind, eff_of.
  destruct (read_to_string (path_of n) fs) as [fs1 r1] eqn:E.
  apply read_to_string_spec in E as (Hf & _ & Hr).
  assert (Hst1 : docs_stored fs1 m) by (eapply stored_documents; [by rewrite Hf|done]).
  destruct r1 as [text|e]; intros [= <- <-]; (split; [done|]); [|done].
  intros d Hp. apply (proj1 Hst). exists text. split; [|done].
  apply lookup_path. by apply Hr.
Qed.

(** The loop of [load]. *)
Lemma each_parse_spec l fs m fs' r :
  docs_stored fs m →
  (∀ stem path, (stem, path) ∈ l → path = path_of stem) →
  eff_each (λ sp, parse_document sp.1 sp.2) l fs = (fs', r) →
  docs_stored fs' m ∧ ∀ ds, r = Ok ds → Forall2 (λ sp d, m !! sp.1 = Some d) l ds.
Proof.
  revert fs fs' r. induction l as [|[stem path] l IH]; intros fs fs' r Hst Hl; cbn [eff_each].
  { intros [= <- <-]. split; [done|]. intros ds [= <-]. constructor. }
  unfold eff_bind, eff_ret. rewrite (Hl stem path) by apply list_elem_of_here.
  cbn [fst snd]. destruct (parse_document stem (path_of stem) fs) as [fs1 r1] eqn:E1.
  eapply parse_document_spec in E1 as [Hst1 Hd]; [|done].
  destruct r1 as [d|e]; [|by intros [= <- <-]].
  destruct (eff_each _ l fs1) as [fs2 r2] eqn:E2.
  eapply IH in E2 as [Hst2 Hds]; [|done|intros s p ?; apply Hl; by right].
  destruct r2 as [ds|e]; intros [= <- <-]; (split; [done|]); [|done].
  intros ds' [= <-]. constructor; auto.
Qed.

Context (doc_name : D → string).
Hypothesis parse_names : ∀ stem path text d, parse_text stem path text = Ok d → doc_name d = stem.

Lemma stored_doc_name fs m n d : docs_stored fs m → m !! n = Some d → doc_name d = n.
Proof. intros [H _] (text & _ & Hp)%H. by eapply parse_names. Qed.

Lemma load_documents_spec fs m fs' r :
  docs_stored fs m → load_documents fs = (fs', r) →
  docs_stored fs' m ∧ ∀ ds, r = Ok ds → NoDup (doc_name <$> ds) ∧
    ∀ d, d ∈ ds ↔ m !! doc_name d = Some d.
Proof.
  intros Hst. unfold load_documents, eff_bind. destruct (json_files fs) as [fs1 r1] eqn:E1.
  apply json_files_spec in E1 as (Hdoc1 & _ & Hl).
  assert (Hst1 : docs_stored fs1 m) by (by eapply stored_documents).
  destruct r1 as [l|e]; [|by intros [= <- <-]]. destruct (Hl l eq_refl) as (Hnd & Hin & Hall).
  assert (Hlm : ∀ stem path, (stem, path) ∈ l → path = path_of stem) by naive_solver.
  intros E2. eapply each_parse_spec in E2 as [Hst2 Hds]; [|done..]. split; [done|].
  intros ds ->. specialize (Hds ds eq_refl).
  assert (Hnames : doc_name <$> ds = l.*1).
  { clear -Hds Hst parse_names. induction Hds as [|[stem path] d l ds Hd _ IH]; [done|]. cbn in *.
    rewrite IH. f_equal. by eapply stored_doc_name. }
  split.
  - rewrite Hnames. assert (Hpaths : l.*2 = path_of <$> l.*1).
    { clear -Hlm. induction l as [|[stem path] l IH]; [done|]. cbn.
      rewrite (Hlm stem path) by apply list_elem_of_here.
      rewrite IH; [done|]. intros s p ?. apply Hlm. by right. }
    rewrite Hpaths in Hnd. by eapply NoDup_fmap_1.
  - intros d. split.
    + intros Hd. apply list_elem_of_lookup in Hd as [i Hi].
      destruct (Forall2_lookup_r _ _ _ _ _ Hds Hi) as ([stem path] & _ & Hm). cbn in Hm.
      by rewrite (stored_doc_name _ _ _ _ Hst Hm).
    + intros Hm. pose proof Hm as (text & Ht & _)%(proj1 Hst).
      apply Hall, list_elem_of_fmap in Ht as ([stem path] & Hp & Hsp). cbn in Hp.
      rewrite (Hlm stem path Hsp) in *. apply path_of_inj in Hp as <-.
      apply list_elem_of_lookup in Hsp as [i Hi].
      destruct (Forall2_lookup_l _ _ _ _ _ Hds Hi) as (d' & Hd' & Hm'). cbn in Hm'.
      rewrite Hm in Hm'. simplify_eq. by eapply list_elem_of_lookup_2.
Qed.

(** What is loaded, collected by name, is what the directory holds. *)
Lemma collect_loaded m ds :
  (∀ k d, m !! k = Some d → doc_name d = k) → NoDup (doc_name <$> ds) →
  (∀ d, d ∈ ds ↔ m !! doc_name d = Some d) →
  collect_map ((λ d, (doc_name d, d)) <$> ds) = m.
Proof.
  intros Hn Hnd Hin. apply map_eq. intros k. apply option_eq. intros d.
  rewrite lookup_collect_map by (rewrite <- list_fmap_compose; exact Hnd).
  rewrite list_elem_of_fmap. split.
  - intros (d' & [= -> ->] & Hd'). by apply Hin.
  - intros Hk. pose proof (Hn _ _ Hk) as <-. exists d. split; [done|]. by apply Hin.
Qed.
End Documents.
