(* ===== verification/FsDeployments.v ===== *)
(** * Deployments on the filesystem

    [fleet-server/src/fs/deployments.rs]: the adapter behind [DeploymentBackend], one JSON document
    per Deployment. [serde_json] is a parameter that writes and reads a [DeploymentMeta]; that it
    reads back what it wrote is the hypothesis. The adapter keeps the port's contract. *)

From S2P Require Import Prelude RustStr Packages Configs Deployments Fs FsDocs.

Open Scope string_scope.
Open Scope list_scope.

(** A Deployment as persisted. *)
Record DeploymentMeta := mkMeta {
  meta_name : string;
  meta_selector : gmap string string;
  meta_packages : list (string * string);
  meta_configurations : list string;
}.

#[export] Instance DeploymentMeta_eq_dec : EqDecision DeploymentMeta.
Proof. solve_decision. Defined.
#[export] Instance DeploymentMeta_countable : Countable DeploymentMeta.
Proof.
  refine (inj_countable'
    (λ m, (meta_name m, meta_selector m, meta_packages m, meta_configurations m))
    (λ t, mkMeta t.1.1.1 t.1.1.2 t.1.2 t.2) _). by intros [].
Defined.

(** [DeploymentMeta::of]. *)
Definition meta_of (d : Deployment) : DeploymentMeta :=
  mkMeta (name d) (selector d)
    ((λ id, (agent_type id, version id)) <$> btree_values (packages d))
    (btree_elements (configurations d)).

Fixpoint into_packages (references : list (string * string)) (acc : gmap string PackageId)
    : result (gmap string PackageId) IdentityRefusal :=
  match references with
  | [] => Ok acc
  | (t, v) :: references =>
      id <-? package_id_load t v ;;
      into_packages references (<[agent_type id := id]> acc)
  end.

Fixpoint into_configurations (l : list string) (acc : gset string)
    : result (gset string) NameRefusal :=
  match l with
  | [] => Ok acc
  | c :: l =>
      _ <-? validate_name c ;;
      into_configurations l ({[c]} ∪ acc)
  end.

(** [DeploymentMeta::into_deployment]. *)
Definition into_deployment (path : string) (meta : DeploymentMeta) : result Deployment FsError :=
  _ <-? map_err (λ _, InvalidDocument path) (validate_name (meta_name meta)) ;;
  _ <-? map_err (λ _, InvalidDocument path) (check_selector (meta_selector meta)) ;;
  ps <-? map_err (λ _, InvalidDocument path) (into_packages (meta_packages meta) ∅) ;;
  cs <-? map_err (λ _, InvalidDocument path) (into_configurations (meta_configurations meta) ∅) ;;
  Ok (mkDeployment (meta_name meta) (meta_selector meta) ps cs).

Section Adapter.
Context (to_json : DeploymentMeta → string) (from_json : string → option DeploymentMeta).

(** [put]: the whole document, durably. *)
Definition fs_put (d : Deployment) : Eff Fs FsError unit :=
  replace_owner_only (path_of (name d)) (to_json (meta_of d)).

(** The part of [parse] after the text is read. *)
Definition parse_text (stem path text : string) : result Deployment FsError :=
  match from_json text with
  | None => Err (CannotParse path)
  | Some meta =>
      d <-? into_deployment path meta ;;
      if bool_decide (stem = name d) then Ok d else Err (Misnamed path)
  end.

Definition parse : string → string → Eff Fs FsError Deployment := parse_document parse_text.

Definition fs_read (n : string) : Eff Fs FsError (option Deployment) :=
  fs <-! get_files ;;
  match fs !! path_of n with
  | None => eff_ret None
  | Some _ => d <-! parse n (path_of n) ;; eff_ret (Some d)
  end.

Definition fs_load : Eff Fs FsError (list Deployment) := load_documents parse_text.

Definition fs_save (n : string) (sel : gmap string string) : Eff Fs FsError Deployment :=
  existing <-! fs_read n ;;
  let d := match existing with
           | Some e => mkDeployment (name e) sel (packages e) (configurations e)
           | None => mkDeployment n sel ∅ ∅
           end in
  _ <-! fs_put d ;;
  eff_ret d.

Definition fs_amend (n : string) (change : Change) : Eff Fs DeploymentError Deployment :=
  found <-! eff_map_err (λ _, Storage) (fs_read n) ;;
  match found with
  | None => eff_fail NotFound
  | Some d =>
      d <-! eff_of (apply change d) ;;
      _ <-! eff_map_err (λ _, Storage) (fs_put d) ;;
      eff_ret d
  end.

(** One round of the loop of [drop_member]. *)
Definition drop_one (member : Member) (d : Deployment) : Eff Fs FsError (option Deployment) :=
  match drop_from member d with
  | (d, true) => _ <-! fs_put d ;; eff_ret (Some d)
  | (_, false) => eff_ret None
  end.

Definition fs_drop_member (member : Member) : Eff Fs FsError (list Deployment) :=
  all <-! fs_load ;;
  changed <-! eff_each (drop_one member) all ;;
  eff_ret (omap id changed).

Definition fs_remove (n : string) : Eff Fs DeploymentError unit :=
  eff_map_err (λ _, Storage) (remove_file (path_of n)).

#[local] Instance fs_deployments : DeploymentBackend Fs := {|
  load := eff_map_err (λ _, Storage) fs_load;
  save := λ n sel, eff_map_err (λ _, Storage) (fs_save n sel);
  amend := fs_amend;
  drop_member := λ member, eff_map_err (λ _, Storage) (fs_drop_member member);
  remove := fs_remove;
|}.

(** The directory holds the Deployments [m]. *)
Definition fs_stored : Fs → gmap string Deployment → Prop := docs_stored parse_text.
End Adapter.

(** ** Lemmas *)

Lemma into_packages_Ok ids acc :
  (∀ id, id ∈ ids → package_id_load (agent_type id) (version id) = Ok id) →
  into_packages ((λ id, (agent_type id, version id)) <$> ids) acc =
  Ok (foldl (λ m kv, <[kv.1 := kv.2]> m) acc ((λ id, (agent_type id, id)) <$> ids)).
Proof.
  revert acc. induction ids as [|id ids IH]; intros acc H; [done|]. cbn.
  rewrite H by apply list_elem_of_here. cbn. apply IH. intros id' ?. apply H. by right.
Qed.

Lemma into_packages_wf refs acc ps :
  (∀ t id, acc !! t = Some id → t = agent_type id ∧ package_id_load (agent_type id) (version id) = Ok id) →
  into_packages refs acc = Ok ps →
  ∀ t id, ps !! t = Some id → t = agent_type id ∧ package_id_load (agent_type id) (version id) = Ok id.
Proof.
  revert acc. induction refs as [|[t v] refs IH]; intros acc Hacc; cbn; [by intros [= <-]|].
  destruct (package_id_load t v) as [id|] eqn:E; [|done]. cbn. apply IH.
  apply package_id_load_Ok in E as Hid. destruct Hid as (-> & _). cbn.
  intros t' id' [[<- <-]|[_ ?]]%lookup_insert_Some; [done|auto].
Qed.

Lemma into_configurations_Ok l acc :
  (∀ c, c ∈ l → validate_name c = Ok tt) →
  into_configurations l acc = Ok (acc ∪ list_to_set l).
Proof.
  revert acc. induction l as [|c l IH]; intros acc H; cbn; [f_equal; set_solver|].
  rewrite H by apply list_elem_of_here. cbn. rewrite IH; [f_equal; set_solver|].
  intros c' ?. apply H. by right.
Qed.

Lemma into_configurations_wf l acc cs :
  (∀ c, c ∈ acc → validate_name c = Ok tt) → into_configurations l acc = Ok cs →
  ∀ c, c ∈ cs → validate_name c = Ok tt.
Proof.
  revert acc. induction l as [|c l IH]; intros acc Hacc; cbn; [by intros [= <-]|].
  destruct (validate_name c) as [[]|] eqn:E; [|done]. cbn. apply IH.
  intros c' [->%elem_of_singleton|?]%elem_of_union; auto.
Qed.

(** A Deployment's document reads back as the Deployment: of every well-formed one, members and
    all. *)
Theorem deployment_meta_round_trip (path : string) (d : Deployment) :
  wf_deployment d → into_deployment path (meta_of d) = Ok d.
Proof.
  intros (Hname & Hsel & Hps & Hcs). unfold into_deployment, meta_of. cbn.
  rewrite Hname, Hsel. cbn.
  rewrite into_packages_Ok by (intros id (t & Hid)%elem_of_btree_values; by eapply Hps).
  rewrite into_configurations_Ok by (intros c Hc; apply Hcs; by apply elem_of_btree_elements).
  cbn. f_equal. destruct d as [n sel ps cs]. cbn in *. f_equal.
  - assert (E : (λ id, (agent_type id, id)) <$> btree_values ps = btree_iter ps).
    { unfold btree_values. rewrite <- list_fmap_compose.
      rewrite <- (list_fmap_id (btree_iter ps)) at 2. apply list_fmap_ext. intros i [t id] Hi. cbn.
      apply list_elem_of_lookup_2, elem_of_btree_iter in Hi. by rewrite (proj1 (Hps t id Hi)). }
    rewrite E. apply map_eq. intros t. apply option_eq. intros id.
    rewrite (lookup_collect_map (btree_iter ps)) by apply NoDup_btree_keys. apply elem_of_btree_iter.
  - apply set_eq. intros c. rewrite elem_of_union, elem_of_list_to_set, elem_of_btree_elements.
    set_solver.
Qed.

Definition sample_deployment : Deployment :=
  mkDeployment "stable" {["channel" := "stable"]} {["otelcol" := mkPackageId "otelcol" "1.0.0"]}
    {["base"]}.

Lemma sample_deployment_wf : wf_deployment sample_deployment.
Proof.
  repeat split_and!; [vm_compute; reflexivity|vm_compute; reflexivity|..].
  - intros t id Hid. cbn in Hid. apply lookup_singleton_Some in Hid as [<- <-].
    split; vm_compute; reflexivity.
  - intros c Hc. cbn in Hc. apply elem_of_singleton in Hc as ->. vm_compute. reflexivity.
Qed.

Lemma deployment_meta_round_trip_witness :
  into_deployment "stable.json" (meta_of sample_deployment) = Ok sample_deployment.
Proof. apply (deployment_meta_round_trip "stable.json" _ sample_deployment_wf). Defined.

Section Contract.
Context (to_json : DeploymentMeta → string) (from_json : string → option DeploymentMeta).
Hypothesis json_round_trip : ∀ meta, from_json (to_json meta) = Some meta.
Notation stored := (fs_stored from_json).
Notation parse_text := (parse_text from_json).

Lemma parse_text_wf stem path text d :
  parse_text stem path text = Ok d → name d = stem ∧ wf_deployment d.
Proof.
  unfold FsDeployments.parse_text, into_deployment. destruct (from_json text) as [meta|]; [|done].
  destruct (validate_name (meta_name meta)) as [[]|] eqn:E1; [|done]. cbn.
  destruct (check_selector (meta_selector meta)) as [[]|] eqn:E2; [|done]. cbn.
  destruct (into_packages (meta_packages meta) ∅) as [ps|] eqn:E3; [|done]. cbn.
  destruct (into_configurations (meta_configurations meta) ∅) as [cs|] eqn:E4; [|done]. cbn.
  case_bool_decide as Hname; [|done]. intros [= <-]. cbn. split; [done|].
  split_and!; cbn; [done|done| |].
  - eapply into_packages_wf; [|exact E3]. intros t id H. by rewrite lookup_empty in H.
  - eapply into_configurations_wf; [|exact E4]. set_solver.
Qed.

Lemma parse_text_put d :
  wf_deployment d → parse_text (name d) (path_of (name d)) (to_json (meta_of d)) = Ok d.
Proof.
  intros Hd. unfold FsDeployments.parse_text. rewrite json_round_trip.
  rewrite deployment_meta_round_trip by done. cbn. by rewrite bool_decide_true.
Qed.

Lemma stored_wf fs m n d : stored fs m → m !! n = Some d → name d = n ∧ wf_deployment d.
Proof. intros [H _] (text & _ & Hp)%H. by eapply parse_text_wf. Qed.

Lemma fs_read_spec fs m n fs' r :
  stored fs m → fs_read from_json n fs = (fs', r) →
  stored fs' m ∧ ∀ o, r = Ok o → o = m !! n.
Proof.
  intros Hst. unfold fs_read, get_files, eff_ret. unfold eff_bind at 1.
  destruct (files fs !! path_of n) as [node|] eqn:E; cycle 1.
  { intros [= <- <-]. split; [done|]. intros o [= <-]. symmetry.
    by eapply stored_None. }
  unfold eff_bind. destruct (parse from_json n (path_of n) fs) as [fs1 r1] eqn:Ep.
  eapply parse_document_spec in Ep as [Hst1 Hd]; [|done].
  destruct r1 as [d|e]; intros [= <- <-]; (split; [done|]); [|done].
  intros o [= <-]. symmetry. auto.
Qed.

Lemma fs_put_spec fs m d fs' r :
  stored fs m → wf_deployment d → fs_put to_json d fs = (fs', r) →
  stored fs' (<[name d := d]> m) ∨ is_ok r = false ∧ stored fs' m.
Proof.
  intros Hst Hd E. apply replace_owner_only_spec in E as [_ [Hdoc|[Hr Hdoc]]];
    [left|right; split; [done|by eapply stored_documents]|apply path_of_not_temp].
  eapply stored_insert; [by apply parse_text_put|done|done].
Qed.

Lemma fs_load_spec fs m fs' r :
  stored fs m → fs_load from_json fs = (fs', r) →
  stored fs' m ∧ ∀ ds, r = Ok ds → NoDup (name <$> ds) ∧
    ∀ d, d ∈ ds ↔ m !! name d = Some d.
Proof. apply load_documents_spec. intros stem path text d Hp. by apply parse_text_wf in Hp as [? _]. Qed.

Lemma drop_from_wf member d : wf_deployment d → wf_deployment (drop_from member d).1.
Proof.
  intros (H1 & H2 & H3 & H4). destruct member as [c|id]; cbn.
  - split_and!; cbn; try done. intros c' [? _]%elem_of_difference. auto.
  - case_bool_decide; [|done]. split_and!; cbn; try done.
    intros t id' [_ ?]%lookup_delete_Some. auto.
Qed.

(** The loop of [drop_member]: what it has dropped when it stops, wherever it stops. *)
Lemma each_drop_spec member l fs m fs' r :
  stored fs m → NoDup (name <$> l) → (∀ d, d ∈ l → m !! name d = Some d) →
  eff_each (drop_one to_json member) l fs = (fs', r) →
  ∃ m', stored fs' m' ∧
    (∀ k, k ∉ name <$> l → m' !! k = m !! k) ∧
    (∀ k, m' !! k = m !! k ∨ m' !! k = drop_all member m !! k) ∧
    ∀ xs, r = Ok xs →
      (∀ k, k ∈ name <$> l → m' !! k = drop_all member m !! k) ∧
      omap id xs = fst <$> List.filter snd (drop_from member <$> l).
Proof.
  revert fs m fs' r. induction l as [|d l IH]; intros fs m fs' r Hst Hnd Hl; cbn [eff_each].
  { intros [= <- <-]. exists m. split_and!; auto. intros xs [= <-]. split; [|done].
    by intros k ?%elem_of_nil. }
  cbn in Hnd. apply NoDup_cons in Hnd as [Hd Hnd].
  pose proof (Hl d (list_elem_of_here _ _)) as Hmd.
  destruct (stored_wf _ _ _ _ Hst Hmd) as [_ Hwf].
  unfold eff_bind, eff_ret. destruct (drop_one to_json member d fs) as [fs1 r1] eqn:E1.
  set (d' := (drop_from member d).1).
  assert (Hname : name d' = name d) by apply drop_from_name.
  assert (Hstep : stored fs1 (<[name d := d']> m) ∨ is_ok r1 = false ∧ stored fs1 m).
  { revert E1. unfold drop_one, eff_bind, eff_ret.
    pose proof (drop_from_wf member d Hwf) as Hwf'. fold d' in Hwf'.
    destruct (drop_from member d) as [d1 []] eqn:Edrop; cbn in d'; subst d'.
    - destruct (fs_put to_json d1 fs) as [fs2 r2] eqn:Ep.
      eapply fs_put_spec in Ep as [Hp|[Hr Hp]]; [|..|done|done].
      + rewrite Hname in Hp. destruct r2; intros [= <- <-]; auto.
      + destruct r2; [done|]. intros [= <- <-]. auto.
    - intros [= <- <-]. apply drop_from_false in Edrop as ->. left. by rewrite insert_id. }
  assert (Hr1 : ∀ x, r1 = Ok x → x = if (drop_from member d).2 then Some d' else None).
  { revert E1. unfold drop_one, eff_bind, eff_ret. subst d'.
    destruct (drop_from member d) as [d1 []]; cbn; [|intros [= <- <-]; naive_solver].
    destruct (fs_put to_json d1 fs) as [fs2 []]; intros [= <- <-]; naive_solver. }
  assert (Hdm : drop_all member m !! name d = Some d').
  { unfold drop_all. by rewrite lookup_fmap, Hmd. }
  destruct r1 as [x|e]; cycle 1.
  { intros [= <- <-]. destruct Hstep as [Hst1|[_ Hst1]].
    - exists (<[name d := d']> m). split_and!; [done|..|done].
      + intros k Hk. rewrite lookup_insert_ne; [done|]. set_solver.
      + intros k. destruct (decide (name d = k)) as [<-|]; [|rewrite lookup_insert_ne by done; auto].
        rewrite lookup_insert_eq. auto.
    - exists m. split_and!; auto. done. }
  destruct Hstep as [Hst1|[? _]]; [|done].
  destruct (eff_each (drop_one to_json member) l fs1) as [fs2 r2] eqn:E2.
  eapply IH in E2 as (m' & Hst2 & Hout & Heach & Hxs); [|done|done|].
  2:{ intros d2 Hd2. rewrite lookup_insert_ne; [apply Hl; by right|].
      intros Heq. destruct Hd. rewrite Heq. by apply list_elem_of_fmap_2. }
  assert (Hdrop : ∀ k, k ≠ name d →
    drop_all member (<[name d := d']> m) !! k = drop_all member m !! k).
  { intros k Hk. unfold drop_all. by rewrite !lookup_fmap, lookup_insert_ne by done. }
  assert (Hmd' : m' !! name d = Some d') by (rewrite Hout, lookup_insert_eq by done; done).
  intros Hres. exists m'. split_and!.
  - destruct r2; by simplify_eq.
  - intros k Hk. cbn in Hk. apply not_elem_of_cons in Hk as [Hk1 Hk2].
    by rewrite Hout, lookup_insert_ne.
  - intros k. destruct (decide (k = name d)) as [->|Hk]; [right; congruence|].
    specialize (Heach k). rewrite Hdrop, lookup_insert_ne in Heach by done. done.
  - intros xs Hxs'. destruct r2 as [ys|]; simplify_eq. destruct (Hxs ys eq_refl) as [Hks Hys].
    split.
    + intros k. cbn. intros [->|Hk]%elem_of_cons; [congruence|]. rewrite Hks by done.
      apply Hdrop. intros ->. done.
    + cbn. rewrite (Hr1 x eq_refl), Hys. subst d'. by destruct (drop_from member d) as [? []].
Qed.

Lemma fs_load_law fs m fs' x :
  stored fs m → eff_map_err (λ _, Storage) (fs_load from_json) fs = (fs', x) →
  stored fs' m ∧ ∀ l, x = Ok l → by_name l = m.
Proof.
  intros Hst. unfold eff_map_err.
  destruct (fs_load from_json fs) as [fs1 r] eqn:E. intros [= <- <-].
  eapply fs_load_spec in E as [Hst1 Hds]; [|done]. split; [done|].
  intros l Hl. destruct r as [ds|]; cbn in Hl; simplify_eq.
  destruct (Hds l eq_refl) as [Hnd Hin].
  apply collect_loaded; [|done..]. intros k d Hk. by eapply stored_wf.
Qed.

Lemma fs_save_law fs m n sel fs' x :
  stored fs m → validate_name n = Ok tt → check_selector sel = Ok tt →
  eff_map_err (λ _, Storage) (fs_save to_json from_json n sel) fs = (fs', x) →
  x = Ok (with_selector m n sel) ∧ stored fs' (<[n := with_selector m n sel]> m) ∨
  is_ok x = false ∧ (stored fs' m ∨ stored fs' (<[n := with_selector m n sel]> m)).
Proof.
  intros Hst Hn Hsel. unfold eff_map_err, fs_save, eff_bind, eff_ret.
  destruct (fs_read from_json n fs) as [fs1 r1] eqn:E1.
  eapply fs_read_spec in E1 as [Hst1 Ho]; [|done].
  destruct r1 as [o|e]; [|intros [= <- <-]; by auto].
  rewrite (Ho o eq_refl). clear Ho o.
  set (d := match m !! n with Some e => _ | None => _ end).
  assert (d = with_selector m n sel ∧ wf_deployment d) as [Hdw Hwf].
  { unfold with_selector. destruct (m !! n) as [e|] eqn:Hm; subst d.
    - destruct (stored_wf _ _ _ _ Hst Hm) as [-> (? & ? & ? & ?)]. done.
    - split; [done|]. by split_and!. }
  assert (Hdn : name d = n) by (rewrite Hdw; apply with_selector_name).
  destruct (fs_put to_json d fs1) as [fs2 r2] eqn:E2.
  eapply fs_put_spec in E2; [|done..]. rewrite Hdn in E2. rewrite <- Hdw.
  destruct r2 as [[]|e]; intros [= <- <-]; cbn; naive_solver.
Qed.

Lemma fs_amend_law fs m n change fs' x :
  stored fs m → change_wf change → fs_amend to_json from_json n change fs = (fs', x) →
  match m !! n with
  | None => is_ok x = false ∧ stored fs' m
  | Some d =>
      match apply change d with
      | Err _ => is_ok x = false ∧ stored fs' m
      | Ok d' => x = Ok d' ∧ stored fs' (<[n := d']> m) ∨
                 is_ok x = false ∧ (stored fs' m ∨ stored fs' (<[n := d']> m))
      end
  end.
Proof.
  intros Hst Hch. unfold fs_amend, eff_bind, eff_map_err, eff_of, eff_ret,
    eff_fail.
  destruct (fs_read from_json n fs) as [fs1 r1] eqn:E1.
  eapply fs_read_spec in E1 as [Hst1 Ho]; [|done].
  destruct r1 as [o|e]; cbn.
  2:{ intros [= <- <-]. destruct (m !! n); [|done]. destruct (apply change d); auto. }
  rewrite (Ho o eq_refl). clear Ho o.
  destruct (m !! n) as [d|] eqn:Hm; [|by intros [= <- <-]].
  destruct (stored_wf _ _ _ _ Hst Hm) as [Hdn Hwf].
  destruct (apply change d) as [d'|e] eqn:Ha; [|by intros [= <- <-]].
  assert (Hd'n : name d' = n) by (rewrite (apply_name _ _ _ Ha); done).
  destruct (fs_put to_json d' fs1) as [fs2 r2] eqn:E2.
  eapply fs_put_spec in E2; [|done|by eapply apply_wf]. rewrite Hd'n in E2.
  destruct r2 as [[]|e]; intros [= <- <-]; cbn; naive_solver.
Qed.

Lemma fs_drop_law fs m member fs' x :
  stored fs m →
  eff_map_err (λ _, Storage) (fs_drop_member to_json from_json member) fs = (fs', x) →
  (∀ l, x = Ok l → stored fs' (drop_all member m) ∧ NoDup (name <$> l) ∧
     ∀ d, d ∈ l ↔ ∃ k d0, m !! k = Some d0 ∧ drop_from member d0 = (d, true)) ∧
  (is_ok x = false →
     ∃ m', stored fs' m' ∧ ∀ k, m' !! k = m !! k ∨ m' !! k = drop_all member m !! k).
Proof.
  intros Hst. unfold eff_map_err, fs_drop_member, eff_bind, eff_ret.
  destruct (fs_load from_json fs) as [fs1 r1] eqn:E1.
  eapply fs_load_spec in E1 as [Hst1 Hds]; [|done].
  destruct r1 as [ds|e]; [|intros [= <- <-]; split; [done|]; intros _; exists m; auto].
  destruct (Hds ds eq_refl) as [Hnd Hin].
  destruct (eff_each (drop_one to_json member) ds fs1) as [fs2 r2] eqn:E2.
  eapply each_drop_spec in E2 as (m' & Hst2 & Hout & Heach & Hxs); [|done|done|by intros; apply Hin].
  destruct r2 as [xs|e]; intros [= <- <-]; cbn; [|by split; [|eauto]].
  split; [|done]. intros l [= <-]. destruct (Hxs xs eq_refl) as [Hks Hl]. rewrite Hl.
  assert (m' = drop_all member m) as ->.
  { apply map_eq. intros k. destruct (decide (k ∈ name <$> ds)) as [|Hk]; [auto|].
    rewrite Hout by done. unfold drop_all. rewrite lookup_fmap.
    destruct (m !! k) as [d|] eqn:Hm; [|done]. destruct Hk.
    pose proof (stored_wf _ _ _ _ Hst Hm) as [<- _]. apply list_elem_of_fmap_2. by apply Hin. }
  split; [done|]. split; [by apply drops_NoDup|]. intros d. rewrite drops_spec. split.
  + intros (d0 & Hd0%Hin & Hd). eauto.
  + intros (k & d0 & Hk & Hd). exists d0. split; [|done]. apply Hin.
    by pose proof (stored_wf _ _ _ _ Hst Hk) as [-> _].
Qed.

Lemma fs_remove_law fs m n fs' x :
  stored fs m → fs_remove n fs = (fs', x) →
  (is_ok x = true → stored fs' (delete n m)) ∧
  (is_ok x = false → stored fs' m ∨ stored fs' (delete n m)).
Proof.
  intros Hst. unfold fs_remove, eff_map_err.
  destruct (remove_file (path_of n) fs) as [fs1 r] eqn:E. intros [= <- <-].
  apply (stored_remove_file (FsDeployments.parse_text from_json) fs fs1 m) in E as [[-> Hst1]|[Hr Hst1]]; [..|done].
  + split; [intros _|]; done.
  + destruct r; [done|]. split; [done|]. auto.
Qed.

(** The filesystem adapter keeps the port's contract: loading answers the Deployments the
    directory holds; a save, a change, a drop or a removal that succeeds leaves the directory
    holding exactly what it asked for; and one that fails leaves each Deployment as it was or as
    asked, never in between. *)
Theorem fs_deployments_implement_port :
  @DeploymentBackendSpec Fs (fs_deployments to_json from_json) stored.
Proof.
  split.
  - intros fs m k d Hst Hk. by eapply stored_wf.
  - apply fs_load_law.
  - apply fs_save_law.
  - apply fs_amend_law.
  - apply fs_drop_law.
  - apply fs_remove_law.
Qed.
End Contract.

Lemma fs_deployments_implement_port_witness :
  @DeploymentBackendSpec Fs (fs_deployments write_code read_code) (fs_stored read_code) ∧
  fs_stored read_code
    (mkFs {[path_of "stable" := File (write_code (meta_of sample_deployment))]} [] false)
    {["stable" := sample_deployment]}.
Proof.
  split; [apply (fs_deployments_implement_port write_code read_code read_write_code)|].
  eapply (stored_insert _ (mkFs ∅ [] false) _ ∅).
  - exact (parse_text_put write_code read_code read_write_code sample_deployment sample_deployment_wf).
  - apply stored_empty.
  - cbn [files]. rewrite <- insert_empty. by rewrite documents_insert by apply path_of_not_temp.
Defined.
