(* ===== verification/FsConfigs.v ===== *)
(** * Configurations on the filesystem

    [fleet-server/src/fs/configs.rs]: the adapter behind [ConfigBackend], one JSON document per
    Configuration. The writer and the reader of JSON and the derived (de)serialization are
    parameters; that they round-trip, and that what is written names no selector, is the
    hypothesis. *)

From S2P Require Import Prelude RustStr Configs Fs FsDocs.

Open Scope string_scope.
Open Scope list_scope.

(** A JSON value, as [serde_json::Value] has it; a number is its text. *)
Inductive Json :=
| JNull
| JBool (b : bool)
| JNumber (text : string)
| JString (s : string)
| JArray (values : list Json)
| JObject (fields : list (string * Json)).

(** [Value::get] of a string and [Value::as_object]. *)
Definition json_get (key : string) (v : Json) : option Json :=
  match v with
  | JObject fields => snd <$> List.find (λ kv, bool_decide (kv.1 = key)) fields
  | _ => None
  end.

Definition as_object (v : Json) : option (list (string * Json)) :=
  match v with
  | JObject fields => Some fields
  | _ => None
  end.

Definition is_some_and {A} (p : A → bool) (o : option A) : bool :=
  match o with Some a => p a | None => false end.

(** A stored Configuration that names a selector where a revision could carry one. *)
Definition carries (v : Json) : bool := is_some_and (λ _, true) (json_get "selector" v).

Definition names_a_selector (v : Json) : bool :=
  carries v
  || is_some_and carries (json_get "saved" v)
  || is_some_and (λ fields, existsb (λ kv, carries kv.2) fields) (json_get "retained" v ≫= as_object).

Section Adapter.
Context (to_json : Configuration → string).
Context (from_str : string → option Json) (from_value : Json → option Configuration).

Definition write (c : Configuration) : Eff Fs FsError unit :=
  replace (path_of (config_name c)) (to_json c).

(** [parse]: a document in a shape this Server does not write is refused. *)
Definition parse (stem path text : string) : result Configuration FsError :=
  match from_str text with
  | None => Err (CannotParse path)
  | Some v =>
      if names_a_selector v then Err (InvalidDocument path)
      else match from_value v with
           | None => Err (CannotParse path)
           | Some c =>
               if bool_decide (config_name c ≠ stem) then Err (Misnamed path)
               else _ <-? map_err (λ _, InvalidDocument path) (check_type (saved c)) ;; Ok c
           end
  end.

(** [read]: an absent file is no error, any other failure to read is. *)
Definition read (n : string) : Eff Fs FsError (option Configuration) :=
  outcome <-! system_call ;;
  fs <-! get_files ;;
  match outcome, fs !! path_of n with
  | Done, Some (File text) => eff_of (c <-? parse n (path_of n) text ;; Ok (Some c))
  | Done, None => eff_ret None
  | _, _ => eff_fail (CannotRead (path_of n))
  end.

(** [retain]: adds one retained revision to the Configuration's document. *)
Definition retain (p : Pinned) : Eff Fs FsError unit :=
  found <-! read (pinned_configuration p) ;;
  match found with
  | None => eff_fail (NoDocument (pinned_configuration p))
  | Some c =>
      if bool_decide (retained c !! pinned_hash p = Some (pinned_revision p)) then eff_ret tt
      else write (with_retained (<[pinned_hash p := pinned_revision p]> (retained c)) c)
  end.

Definition fs_load : Eff Fs FsError (list Configuration) := load_documents parse.

Definition fs_save (n : string) (r : Revision) : Eff Fs FsError unit :=
  existing <-! read n ;;
  write (match existing with
         | Some e => mkConfiguration (config_name e) r (retained e)
         | None => mkConfiguration n r ∅
         end).

Definition fs_collect (n : string) (referenced : gset string)
    : Eff Fs FsError (gmap string Revision) :=
  found <-! read n ;;
  match found with
  | None => eff_ret ∅
  | Some c =>
      if forallb (λ h, bool_decide (h ∈ referenced)) (btree_keys (retained c))
      then eff_ret (retained c)
      else
        let kept := filter (λ hr, hr.1 ∈ referenced) (retained c) in
        _ <-! write (with_retained kept c) ;;
        eff_ret kept
  end.

Definition fs_remove (n : string) : Eff Fs FsError Removal :=
  _ <-! remove_file (path_of n) ;;
  eff_ret Removed.

Definition fs_configs : ConfigBackend Fs := {|
  config_load := eff_map_err (λ _, BackendFailed) fs_load;
  config_save := λ n r, eff_map_err (λ _, BackendFailed) (fs_save n r);
  config_collect := λ n referenced, eff_map_err (λ _, BackendFailed) (fs_collect n referenced);
  config_remove := λ n, eff_map_err (λ _, BackendFailed) (fs_remove n);
|}.

Definition fs_config_stored : Fs → gmap string Configuration → Prop := docs_stored parse.
End Adapter.

Section Contract.
Context (to_json : Configuration → string).
Context (from_str : string → option Json) (from_value : Json → option Configuration).
Hypothesis json_round_trip : ∀ c, ∃ v,
  from_str (to_json c) = Some v ∧ names_a_selector v = false ∧ from_value v = Some c.
Notation stored := (fs_config_stored from_str from_value).
Notation parse := (parse from_str from_value).

Lemma parse_Ok stem path text c :
  parse stem path text = Ok c → config_name c = stem ∧ check_type (saved c) = Ok tt.
Proof.
  unfold FsConfigs.parse. destruct (from_str text) as [v|]; [|done].
  destruct (names_a_selector v); [done|]. destruct (from_value v) as [c'|]; [|done].
  case_bool_decide as Hn; [done|]. destruct (check_type (saved c')) as [[]|] eqn:E; [|done].
  cbn. intros [= <-]. split; [|done]. destruct (decide (config_name c' = stem)); [done|]. by destruct Hn.
Qed.

Lemma parse_written path c :
  check_type (saved c) = Ok tt → parse (config_name c) path (to_json c) = Ok c.
Proof.
  intros Hc. unfold FsConfigs.parse. destruct (json_round_trip c) as (v & -> & -> & ->).
  rewrite bool_decide_false by (intros H; by apply H). by rewrite Hc.
Qed.

Lemma stored_Ok fs m n c :
  stored fs m → m !! n = Some c → config_name c = n ∧ check_type (saved c) = Ok tt.
Proof. intros [H _] (text & _ & Hp)%H. by eapply parse_Ok. Qed.

Lemma write_spec fs m c fs' r :
  stored fs m → check_type (saved c) = Ok tt → write to_json c fs = (fs', r) →
  r = Ok tt ∧ stored fs' (<[config_name c := c]> m) ∨ is_ok r = false ∧ stored fs' m.
Proof.
  intros Hst Hc E. apply replace_spec in E as [_ [[-> Hdoc]|[Hr Hdoc]]]; [..|apply path_of_not_temp].
  - left. split; [done|]. eapply stored_insert; [by apply parse_written|done|done].
  - right. split; [done|]. by eapply stored_documents.
Qed.

Lemma read_spec fs m n fs' r :
  stored fs m → read from_str from_value n fs = (fs', r) →
  stored fs' m ∧ ∀ o, r = Ok o → o = m !! n.
Proof.
  intros Hst. unfold read, eff_bind, get_files.
  destruct (system_call fs) as [fs0 r0] eqn:E0.
  assert (files fs0 = files fs ∧ is_ok r0 = true) as [Hf0 Hr0].
  { revert E0. unfold system_call. destruct (outcomes fs); by intros [= <- <-]. }
  assert (Hst0 : stored fs0 m) by (eapply stored_documents; [by rewrite Hf0|done]).
  destruct r0 as [[|]|e]; [|by intros [= <- <-]|done].
  destruct (files fs0 !! path_of n) as [[text|]|] eqn:E.
  - unfold eff_of. destruct (parse n (path_of n) text) as [c|] eqn:Ep; cbn;
      intros [= <- <-]; (split; [done|]); [|done]. intros o [= <-]. symmetry.
    apply (proj1 Hst0). exists text. split; [|done]. by apply lookup_path.
  - by intros [= <- <-].
  - intros [= <- <-]. split; [done|]. intros o [= <-]. symmetry. by eapply stored_None.
Qed.

Lemma fs_save_config_law fs m n r fs' x :
  stored fs m → check_type r = Ok tt →
  eff_map_err (λ _, BackendFailed) (fs_save to_json from_str from_value n r) fs = (fs', x) →
  stored fs' (<[n := with_saved m n r]> m) ∨ x ≠ Ok tt ∧ stored fs' m.
Proof.
  intros Hst Hr. unfold eff_map_err, fs_save, eff_bind.
  destruct (read from_str from_value n fs) as [fs1 r1] eqn:E1.
  eapply read_spec in E1 as [Hst1 Ho]; [|done].
  destruct r1 as [o|e]; [|intros [= <- <-]; right; done].
  rewrite (Ho o eq_refl). clear Ho o.
  set (c := match m !! n with Some e => _ | None => _ end).
  assert (c = with_saved m n r) as Hc.
  { unfold with_saved. subst c. destruct (m !! n) as [e|] eqn:Hm; [|done]. cbn.
    by destruct (stored_Ok _ _ _ _ Hst Hm) as [-> _]. }
  destruct (write to_json c fs1) as [fs2 r2] eqn:E2.
  eapply write_spec in E2; [|done|by rewrite Hc]. rewrite Hc in E2. cbn [config_name with_saved] in E2.
  intros [= <- <-]. destruct E2 as [[-> Hst2]|[Hr2 Hst2]]; [by left|]. right. by destruct r2.
Qed.

Lemma fs_collect_law fs m n referenced c fs' x :
  stored fs m → m !! n = Some c →
  eff_map_err (λ _, BackendFailed) (fs_collect to_json from_str from_value n referenced) fs = (fs', x) →
  ∃ kept, (∀ h, h ∈ referenced → kept !! h = retained c !! h) ∧ kept ⊆ retained c ∧
    (∀ y, x = Ok y → y = kept ∧ stored fs' (<[n := with_retained kept c]> m)) ∧
    (is_ok x = false → stored fs' m ∨ stored fs' (<[n := with_retained kept c]> m)).
Proof.
  intros Hst Hm. unfold eff_map_err, fs_collect, eff_bind, eff_ret.
  set (kept := filter (λ hr, hr.1 ∈ referenced) (retained c)). intros Hrun.
  destruct (stored_Ok _ _ _ _ Hst Hm) as [Hn Hc].
  exists kept. split.
  { intros h Hh. subst kept. apply option_eq. intros r. rewrite map_lookup_filter_Some. naive_solver. }
  split; [apply map_filter_subseteq|].
  destruct (read from_str from_value n fs) as [fs1 r1] eqn:E1.
  eapply read_spec in E1 as [Hst1 Ho]; [|done].
  destruct r1 as [o|e]; [|simplify_eq; split; [done|auto]].
  rewrite (Ho o eq_refl), Hm in Hrun. clear Ho o.
  destruct (forallb _ _) eqn:Hall.
  - assert (kept = retained c) as ->.
    { subst kept. apply map_filter_id. intros h r Hh. rewrite forallb_forall in Hall.
      assert (Hin : h ∈ btree_keys (retained c)) by (apply elem_of_btree_keys; eauto).
      apply list_elem_of_In, Hall in Hin. by apply bool_decide_eq_true in Hin. }
    simplify_eq/=. split; [|done]. intros y [= <-]. split; [done|].
    replace (with_retained (retained c) c) with c by (by destruct c). by rewrite insert_id.
  - fold kept in Hrun. destruct (write to_json (with_retained kept c) fs1) as [fs2 r2] eqn:E2.
    eapply write_spec in E2; [|done|done]. cbn [config_name with_retained] in E2. rewrite Hn in E2.
    destruct E2 as [[-> Hst2]|[Hr2 Hst2]]; [simplify_eq/=; naive_solver|].
    destruct r2; [done|]. simplify_eq/=. split; [done|auto].
Qed.

(** The filesystem adapter keeps the Configuration port's contract: a save writes the saved
    revision and keeps every retained one, a collection keeps exactly the referenced revisions, a
    removal removes the one document, and a call that fails leaves the directory as it was or as
    asked. *)
Theorem fs_configs_implement_port :
  @ConfigBackendSpec Fs (fs_configs to_json from_str from_value) stored.
Proof.
  split.
  - intros fs m k c Hst Hk. by eapply stored_Ok.
  - intros fs m fs' x Hst. cbn. unfold eff_map_err.
    destruct (fs_load from_str from_value fs) as [fs1 r] eqn:E. intros [= <- <-].
    eapply (load_documents_spec parse config_name) in E as [Hst1 Hds];
      [|intros stem path text d Hp; by apply parse_Ok in Hp as [? _]|done].
    split; [done|]. intros l Hl. destruct r as [ds|]; cbn in Hl; simplify_eq.
    destruct (Hds l eq_refl) as [Hnd Hin]. apply collect_loaded; [|done..].
    intros k d Hk. by eapply stored_Ok.
  - intros fs m n r fs' x Hst _. by apply fs_save_config_law.
  - intros fs m n referenced c fs' x. apply fs_collect_law.
  - intros fs m n referenced fs' x Hst Hm. cbn. unfold eff_map_err, fs_collect, eff_bind, eff_ret.
    destruct (read from_str from_value n fs) as [fs1 r1] eqn:E1.
    eapply read_spec in E1 as [Hst1 Ho]; [|done]. destruct r1 as [o|e]; [|by intros [= <- _]].
    rewrite (Ho o eq_refl), Hm. by intros [= <- _].
  - intros fs m n fs' x Hst. cbn. unfold eff_map_err, fs_remove, eff_bind, eff_ret.
    destruct (remove_file (path_of n) fs) as [fs1 r] eqn:E.
    apply (stored_remove_file parse fs fs1 m) in E as [[-> Hst1]|[Hr Hst1]]; [..|done].
    + intros [= <- <-]. cbn. naive_solver.
    + destruct r; [done|]. intros [= <- <-]. cbn. split; [done|]. split; [naive_solver|auto].
Qed.

(** A rollout's revision reaches the document: [retain] adds the pinned revision under its hash
    and changes nothing else, or fails and changes nothing. *)
Theorem retain_adds_pinned (p : Pinned) fs m fs' x :
  stored fs m → retain to_json from_str from_value p fs = (fs', x) →
  x = Ok tt ∧ is_Some (m !! pinned_configuration p) ∧ stored fs' (retain_pinned m p) ∨
  is_ok x = false ∧ stored fs' m.
Proof.
  intros Hst. unfold retain, eff_bind, eff_ret, eff_fail.
  destruct (read from_str from_value (pinned_configuration p) fs) as [fs1 r1] eqn:E1.
  eapply read_spec in E1 as [Hst1 Ho]; [|done].
  destruct r1 as [o|e]; [|intros [= <- <-]; auto].
  rewrite (Ho o eq_refl). clear Ho o. unfold retain_pinned.
  destruct (m !! pinned_configuration p) as [c|] eqn:Hm; [|intros [= <- <-]; auto].
  destruct (stored_Ok _ _ _ _ Hst Hm) as [Hn Hc].
  case_bool_decide as Hr.
  - intros [= <- <-]. left. split; [done|]. split; [eauto|].
    rewrite (insert_id (retained c)) by done.
    replace (mkConfiguration (config_name c) (saved c) (retained c)) with c by (by destruct c).
    by rewrite insert_id.
  - intros E2. eapply write_spec in E2; [|done|done]. cbn [config_name with_retained] in E2.
    rewrite Hn in E2. unfold with_retained in E2. rewrite Hn in *. naive_solver.
Qed.
End Contract.

#[export] Instance Revision_countable : Countable Revision.
Proof.
  refine (inj_countable' (λ r, (body r, role r, service_name r))
    (λ t, mkRevision t.1.1 t.1.2 t.2) _). by intros [].
Defined.
#[export] Instance Configuration_eq_dec : EqDecision Configuration.
Proof. solve_decision. Defined.
#[export] Instance Configuration_countable : Countable Configuration.
Proof.
  refine (inj_countable' (λ c, (config_name c, saved c, retained c))
    (λ t, mkConfiguration t.1.1 t.1.2 t.2) _). by intros [].
Defined.

(** A document as one JSON string: a concrete writer and reader. *)
Definition code_value (v : Json) : option Configuration :=
  match v with JString s => read_code s | _ => None end.
Definition code_str (s : string) : option Json := Some (JString s).

Lemma code_round_trip (c : Configuration) : ∃ v,
  code_str (write_code c) = Some v ∧ names_a_selector v = false ∧ code_value v = Some c.
Proof. eexists. split; [done|]. split; [done|]. apply read_write_code. Qed.

Definition one_document (c : Configuration) : Fs :=
  mkFs {[path_of (config_name c) := File (write_code c)]} [] false.

Lemma one_document_stored c :
  check_type (saved c) = Ok tt →
  fs_config_stored code_str code_value (one_document c) {[config_name c := c]}.
Proof.
  intros Hc. eapply (stored_insert _ (mkFs ∅ [] false) _ ∅).
  - by apply (parse_written write_code code_str code_value code_round_trip).
  - apply stored_empty.
  - cbn [files one_document]. rewrite <- insert_empty. by rewrite documents_insert by apply path_of_not_temp.
Qed.

Lemma fs_configs_implement_port_witness :
  @ConfigBackendSpec Fs (fs_configs write_code code_str code_value)
    (fs_config_stored code_str code_value).
Proof. apply (fs_configs_implement_port write_code code_str code_value code_round_trip). Defined.

Lemma retain_adds_pinned_witness :
  ∃ fs' x, retain write_code code_str code_value (mkPinned "base" "h1" (mkRevision "b" "" "otelcol"))
    (one_document sample_config) = (fs', x) ∧
  (x = Ok tt ∧ is_Some (({["base" := sample_config]} : gmap string Configuration) !! "base") ∧
   fs_config_stored code_str code_value fs'
     (retain_pinned {["base" := sample_config]} (mkPinned "base" "h1" (mkRevision "b" "" "otelcol"))) ∨
   is_ok x = false ∧ fs_config_stored code_str code_value fs' {["base" := sample_config]}).
Proof.
  destruct (retain _ _ _ _ (one_document sample_config)) as [fs' x] eqn:E.
  exists fs', x. split; [done|].
  exact (retain_adds_pinned write_code code_str code_value code_round_trip
    (mkPinned "base" "h1" (mkRevision "b" "" "otelcol")) (one_document sample_config)
    {["base" := sample_config]} fs' x (one_document_stored sample_config eq_refl) E).
Defined.
