(* ===== verification/Offers.v ===== *)
(** * Offers: which artifact of which Package an Agent is offered

    The part of [fleet-server/src/packages.rs] that decides: the entry an assignment names for the
    platform an Agent reports, the candidate a rollout would release, whether it is an upgrade, and
    the hashes an offer travels with. SHA-256 and the check of a signature are parameters. *)

From S2P Require Import Prelude RustStr Version Proto Packages Configs Deployments.

Open Scope string_scope.
Open Scope list_scope.

Record Entry := mkEntry {
  platform : Platform;
  content_hash : list N;
  size : N;
  signature : option (list N);
}.

Record Package := mkPackage {
  id : PackageId;
  entries : gmap Platform Entry;
}.

Definition Sets : Type := gmap PackageId Package.

(** A [BTreeMap] keyed by Platforms, in its order. *)
Definition platform_compare (p q : Platform) : comparison :=
  then_with (String.compare (os p) (os q)) (String.compare (arch p) (arch q)).

Definition entry_le (x y : Platform * Entry) : Prop := platform_compare x.1 y.1 ≠ Gt.

#[export] Instance entry_le_dec : RelDecision entry_le.
Proof. intros x y. unfold entry_le. apply _. Defined.

Definition entry_values (m : gmap Platform Entry) : list Entry :=
  (merge_sort entry_le (map_to_list m)).*2.

Inductive SignatureState := SigMissing | SigValid | SigInvalid | SigUnchecked.

Definition signature_state (verifier : option (string → list N → bool)) (i : PackageId) (e : Entry)
    : SignatureState :=
  match signature e with
  | None => SigMissing
  | Some s =>
      match verifier with
      | None => SigUnchecked
      | Some verifies =>
          if verifies (statement (agent_type i) (version i) (content_hash e)) s
          then SigValid else SigInvalid
      end
  end.

(** The bytes [package_hash] is over. *)
Definition package_frame (p : Package) (e : Entry) : list N :=
  field (version (id p)) ++ content_hash e.

Definition reported_agent_type (description : option AgentDescription) : option string :=
  description ≫= λ d, string_value (identifying_attributes d) SERVICE_NAME.

Definition reported_service_version (description : option AgentDescription) : option string :=
  description ≫= λ d, nonempty (string_value (identifying_attributes d) SERVICE_VERSION).

Definition InstalledVersions : Type := gmap string string.

Definition claimed_version (p : Package) (installed : InstalledVersions) : option string :=
  nonempty (installed !! agent_type (id p)).

Definition greater (p : Package) (has : string) : bool :=
  match precedence (version (id p)) has with
  | Some Gt => true
  | _ => false
  end.

(** What the Agent runs, where it can be ordered. *)
Definition running_version (description : option AgentDescription) : option string :=
  match reported_service_version description with
  | Some running => match Version.parse running with Some _ => Some running | None => None end
  | None => None
  end.

Definition upgrades (p : Package) (installed : InstalledVersions)
    (description : option AgentDescription) : bool :=
  match running_version description with
  | Some running => greater p running
  | None =>
      match claimed_version p installed with
      | Some claimed => greater p claimed
      | None => true
      end
  end.

(** What one Agent's Deployment would release to it. *)
Definition resolve (sets : Sets) (deployment : Deployment) (description : option AgentDescription)
    (installed : InstalledVersions) : option (Package * Entry) :=
  p ← platform_reported description;
  t ← reported_agent_type description;
  i ← package_for deployment t;
  set ← sets !! i;
  if negb (package_id_is_semver (id set)) then None
  else
    e ← entries set !! p;
    if upgrades set installed description then Some (set, e) else None.

Definition candidate (sets : Sets) (deployment : Deployment) (description : option AgentDescription)
    (installed : InstalledVersions) : option PackageId :=
  (λ se, id se.1) <$> resolve sets deployment description installed.

(** Why [fits_agent] refuses; the versions an [NotAnUpgrade] names are what the Agent runs and what
    it claims. *)
Inductive FitRefusal :=
| NoSet
| NoCandidate
| NoEntries
| NoPlatform
| OtherType
| NoEntryFor (p : Platform)
| NotAnUpgrade (runs has : option string).

Definition fits_agent (sets : Sets) (i : PackageId) (description : option AgentDescription)
    (installed : InstalledVersions) : result unit FitRefusal :=
  match sets !! i with
  | None => Err NoSet
  | Some set =>
      if negb (package_id_is_semver (id set)) then Err NoCandidate
      else if bool_decide (entries set = ∅) then Err NoEntries
      else match platform_reported description with
           | None => Err NoPlatform
           | Some p =>
               if bool_decide (reported_agent_type description ≠ Some (agent_type (id set)))
               then Err OtherType
               else match entries set !! p with
                    | None => Err (NoEntryFor p)
                    | Some _ =>
                        if negb (upgrades set installed description)
                        then Err (NotAnUpgrade (running_version description)
                                    (claimed_version set installed))
                        else Ok tt
                    end
           end
  end.

(** Whether an Agent is one the artifact is built for. *)
Definition artifact_fits (description : option AgentDescription) (i : PackageId) (p : Platform)
    : bool :=
  bool_decide (reported_agent_type description = Some (agent_type i))
  && bool_decide (platform_reported description = Some p).

(** The entry one Agent is offered, with the signature it travels with. *)
Definition offered_entry (sets : Sets) (assigned : option PackageId)
    (description : option AgentDescription) : option (Package * Entry * list N) :=
  i ← assigned;
  set ← sets !! i;
  p ← platform_reported description;
  if negb (artifact_fits description (id set) p) then None
  else
    e ← entries set !! p;
    s ← signature e;
    Some (set, e, s).

(** A signed artifact this Server holds, and whether an Agent is offered it. *)
Definition offerable (sets : Sets) (i : PackageId) (p : Platform) : option (PackageId * Platform) :=
  set ← sets !! i;
  e ← entries set !! p;
  match signature e with
  | Some _ => Some (i, p)
  | None => None
  end.

Definition offered_to (artifact : PackageId * Platform) (assigned : option PackageId)
    (description : option AgentDescription) : bool :=
  bool_decide (assigned = Some artifact.1) && artifact_fits description artifact.1 artifact.2.

(** The entries of a Deployment's Packages that carry no signature. *)
Definition unsigned_in (sets : Sets) (deployment : Deployment) : list (PackageId * list Platform) :=
  omap (λ i,
    set ← sets !! i;
    match List.filter (λ e, bool_decide (signature e = None)) (entry_values (entries set)) with
    | [] => None
    | missing => Some (i, platform <$> missing)
    end) (btree_values (packages deployment)).

Record DownloadableFile := mkFile {
  download_url : string;
  file_content_hash : list N;
  file_signature : list N;
}.

Record PackageAvailable := mkAvailable {
  available_version : string;
  available_file : DownloadableFile;
  available_hash : list N;
}.

Record PackagesAvailable := mkPackagesAvailable {
  available_packages : gmap string PackageAvailable;
  all_packages_hash : list N;
}.

Section Hashes.
Context (sha256 : list N → list N).

Definition package_hash (p : Package) (e : Entry) : list N := sha256 (package_frame p e).

(** [aggregate_hash]. *)
Definition aggregate_frame (p : Package) (e : Entry) : list N :=
  field (agent_type (id p)) ++ package_hash p e.
Definition aggregate_hash (p : Package) (e : Entry) : list N := sha256 (aggregate_frame p e).

Definition to_available (p : Package) (e : Entry) (s : list N) : PackageAvailable :=
  mkAvailable (version (id p))
    (mkFile ("/api/v1/packages/" +:+ agent_type (id p) +:+ "/" +:+ version (id p) +:+ "/file?os="
             +:+ os (platform e) +:+ "&arch=" +:+ arch (platform e))
       (content_hash e) s)
    (package_hash p e).

Definition offer_for_assigned (sets : Sets) (assigned : option PackageId)
    (description : option AgentDescription) : option PackagesAvailable :=
  '(set, e, s) ← offered_entry sets assigned description;
  Some (mkPackagesAvailable {[agent_type (id set) := to_available set e s]} (aggregate_hash set e)).

Definition assigned_hash_for (sets : Sets) (assigned : option PackageId)
    (description : option AgentDescription) : list N :=
  match offered_entry sets assigned description with
  | Some (set, e, _) => aggregate_hash set e
  | None => []
  end.
End Hashes.

(** ** Lemmas *)

(** The Packages are held under their identities. *)
Definition sets_wf (sets : Sets) : Prop := ∀ i set, sets !! i = Some set → id set = i.

(** A Deployment holds each Package under its own Agent type. *)
Definition packages_wf (d : Deployment) : Prop :=
  ∀ t i, packages d !! t = Some i → agent_type i = t.

Lemma resolve_Some sets d description installed set e :
  resolve sets d description installed = Some (set, e) ↔
  ∃ p t i, platform_reported description = Some p ∧ reported_agent_type description = Some t ∧
    packages d !! t = Some i ∧ sets !! i = Some set ∧ package_id_is_semver (id set) = true ∧
    entries set !! p = Some e ∧ upgrades set installed description = true.
Proof.
  unfold resolve, package_for. split.
  - intros H.
    destruct (platform_reported description) as [p|]; [|done]. cbn in H.
    destruct (reported_agent_type description) as [t|]; [|done]. cbn in H.
    destruct (packages d !! t) as [i|] eqn:Ei; [|done]. cbn in H.
    destruct (sets !! i) as [set'|] eqn:Es; [|done]. cbn in H.
    destruct (package_id_is_semver (id set')) eqn:Ev; [|done]. cbn in H.
    destruct (entries set' !! p) as [e'|] eqn:Ee; [|done]. cbn in H.
    destruct (upgrades set' installed description) eqn:Eu; [|done].
    simplify_eq. by exists p, t, i.
  - intros (p & t & i & -> & -> & Hi & Hs & Hv & He & Hu). cbn. rewrite Hi. cbn.
    rewrite Hs. cbn. rewrite Hv. cbn. rewrite He. cbn. by rewrite Hu.
Qed.

Lemma fits_agent_Ok sets i description installed :
  fits_agent sets i description installed = Ok tt ↔
  ∃ set p e, sets !! i = Some set ∧ package_id_is_semver (id set) = true ∧
    platform_reported description = Some p ∧
    reported_agent_type description = Some (agent_type (id set)) ∧
    entries set !! p = Some e ∧ upgrades set installed description = true.
Proof.
  unfold fits_agent. split.
  - destruct (sets !! i) as [set|]; [|done].
    destruct (package_id_is_semver (id set)) eqn:Ev; [|done]. cbn.
    case_bool_decide as Hempty; [done|].
    destruct (platform_reported description) as [p|]; [|done].
    case_bool_decide as Ht; [done|].
    destruct (entries set !! p) as [e|] eqn:Ee; [|done].
    destruct (upgrades set installed description) eqn:Eu; [|done]. intros _.
    exists set, p, e. split_and!; try done.
  - intros (set & p & e & -> & Hv & -> & Ht & He & Hu). rewrite Hv. cbn.
    rewrite (bool_decide_false (entries set = ∅)) by (intros H; by rewrite H in He).
    rewrite bool_decide_false by (intros H; by apply H). rewrite He, Hu. done.
Qed.

Lemma offered_entry_Some sets assigned description set e s :
  offered_entry sets assigned description = Some (set, e, s) ↔
  ∃ i p, assigned = Some i ∧ sets !! i = Some set ∧ platform_reported description = Some p ∧
    reported_agent_type description = Some (agent_type (id set)) ∧ entries set !! p = Some e ∧
    signature e = Some s.
Proof.
  unfold offered_entry, artifact_fits. split.
  - destruct assigned as [i|]; [|done]. cbn.
    destruct (sets !! i) as [set'|] eqn:Hset; [|done]. cbn.
    destruct (platform_reported description) as [p|]; [|done]. cbn.
    rewrite (bool_decide_true (Some p = Some p)), andb_true_r by done.
    case_bool_decide as Ht; [|done]. cbn.
    destruct (entries set' !! p) as [e'|] eqn:He; [|done]. cbn.
    destruct (signature e') as [s'|] eqn:Hs; [|done]. cbn. intros [= <- <- <-]. by exists i, p.
  - intros (i & p & -> & Hset & Hp & Ht & He & Hs). cbn. rewrite Hset. cbn. rewrite Hp, Ht. cbn.
    rewrite !bool_decide_true by done. cbn. rewrite He. cbn. by rewrite Hs.
Qed.

(** The act and the candidate agree: for a Package a Deployment holds for the type the Agent
    reports, an explicit rollout is accepted exactly when that Package is the Agent's candidate. *)
Theorem act_and_candidate_agree (sets : Sets) (d : Deployment)
    (description : option AgentDescription) (installed : InstalledVersions) (i : PackageId) :
  sets_wf sets → packages_wf d → packages d !! agent_type i = Some i →
  fits_agent sets i description installed = Ok tt ↔
  candidate sets d description installed = Some i.
Proof.
  intros Hs Hd Hi. rewrite fits_agent_Ok. unfold candidate. rewrite fmap_Some. split.
  - intros (set & p & e & Hset & Hv & Hp & Ht & He & Hu). pose proof (Hs _ _ Hset) as Hid.
    exists (set, e). split; [|done]. apply resolve_Some. rewrite Hid in *. naive_solver.
  - intros ([set e] & (p & t & i' & Hp & Ht & Hi' & Hset & Hv & He & Hu)%resolve_Some & Hid).
    cbn in Hid. pose proof (Hs _ _ Hset) as Hid'. pose proof (Hd _ _ Hi') as Htt.
    assert (i' = i) as -> by congruence.
    exists set, p, e. rewrite Hid'. split_and!; try done; congruence.
Qed.

(** A candidate is always an upgrade: over the version the Agent runs where that can be ordered,
    and over the one it claims to have installed where it cannot; and an Agent that runs the
    candidate's version has no candidate any more. *)
Theorem candidate_is_upgrade (sets : Sets) (d : Deployment)
    (description : option AgentDescription) (installed : InstalledVersions) (set : Package) (e : Entry) :
  resolve sets d description installed = Some (set, e) →
  (∀ running, running_version description = Some running →
     precedence (version (id set)) running = Some Gt ∧ running ≠ version (id set)) ∧
  (running_version description = None → ∀ claimed, claimed_version set installed = Some claimed →
     precedence (version (id set)) claimed = Some Gt).
Proof.
  intros (p & t & i & _ & _ & _ & _ & Hv & _ & Hu)%resolve_Some. unfold upgrades, greater in Hu.
  assert (Hself : precedence (version (id set)) (version (id set)) = Some Eq)
    by (by apply precedence_refl, semver_parses).
  split.
  - intros running Hr. rewrite Hr in Hu.
    destruct (precedence (version (id set)) running) as [[]|] eqn:E; try done.
    split; [done|]. intros ->. congruence.
  - intros Hr claimed Hc. rewrite Hr, Hc in Hu. by destruct (precedence _ claimed) as [[]|].
Qed.

(** What is offered is what is downloadable: the entry an offer names is exactly the artifact
    the download route serves that Agent, and it is signed, of the Agent's type and for its
    platform. *)
Theorem offer_and_download_agree (sets : Sets) (assigned : option PackageId)
    (description : option AgentDescription) (i : PackageId) (p : Platform) :
  sets_wf sets →
  (∃ a, offerable sets i p = Some a ∧ offered_to a assigned description = true) ↔
  ∃ set e s, offered_entry sets assigned description = Some (set, e, s) ∧
    assigned = Some i ∧ sets !! i = Some set ∧ entries set !! p = Some e ∧ signature e = Some s ∧
    platform_reported description = Some p ∧
    reported_agent_type description = Some (agent_type i).
Proof.
  intros Hs. unfold offerable, offered_to, artifact_fits. split.
  - intros (a & Ha & Hto). destruct (sets !! i) as [set|] eqn:Eset; [|done]. cbn in Ha.
    destruct (entries set !! p) as [e|] eqn:Ee; [|done]. cbn in Ha.
    destruct (signature e) as [s|] eqn:Es; [|done]. simplify_eq. cbn in Hto.
    rewrite !andb_true_iff, !bool_decide_eq_true in Hto. destruct Hto as (-> & Ht & Hp).
    exists set, e, s. split; [|done]. apply offered_entry_Some. exists i, p.
    by rewrite (Hs _ _ Eset).
  - intros (set & e & s & _ & -> & Hset & He & Hsig & Hp & Ht). exists (i, p).
    rewrite Hset. cbn. rewrite He. cbn. rewrite Hsig. split; [done|]. cbn.
    rewrite Hp, Ht. by rewrite !bool_decide_true.
Qed.

(** The gate and the offer agree: the hash that gates re-offering is the one the offer carries,
    and empty exactly when nothing is offered; what is offered is the one Package under the Agent's
    own type. *)
Theorem gate_matches_offer (sha256 : list N → list N) (sets : Sets) (assigned : option PackageId)
    (description : option AgentDescription) :
  (∀ x, sha256 x ≠ []) →
  assigned_hash_for sha256 sets assigned description =
    from_option all_packages_hash [] (offer_for_assigned sha256 sets assigned description) ∧
  (assigned_hash_for sha256 sets assigned description = [] ↔
   offer_for_assigned sha256 sets assigned description = None) ∧
  (∀ offer, offer_for_assigned sha256 sets assigned description = Some offer →
     ∃ t a, reported_agent_type description = Some t ∧ available_packages offer = {[t := a]} ∧
       is_Some (assigned)).
Proof.
  intros Hsha. unfold assigned_hash_for, offer_for_assigned.
  destruct (offered_entry sets assigned description) as [[[set e] s]|] eqn:E; cbn; [|done].
  split; [done|]. split; [split; [|done]; intros H; by apply Hsha in H|].
  intros offer [= <-]. cbn.
  apply offered_entry_Some in E as (i & p & -> & _ & _ & Ht & _). eauto.
Qed.

(** The hash of one Package does not depend on the Agent type: it is over the version and the
    content alone, so two types at one version with the same artifact have the same hash; the
    aggregate over the offer tells them apart. *)
Theorem package_hash_leaves_out_type (sha256 : list N → list N) (p q : Package) (e : Entry) :
  version (id p) = version (id q) →
  package_hash sha256 p e = package_hash sha256 q e ∧
  (u64_len (agent_type (id p)) → u64_len (agent_type (id q)) →
   aggregate_frame sha256 p e = aggregate_frame sha256 q e → agent_type (id p) = agent_type (id q)).
Proof.
  intros Hv. split; [unfold package_hash, package_frame; by rewrite Hv|].
  unfold aggregate_frame. intros Hp Hq H. by apply field_app_inj in H as [? _].
Qed.

Definition sample_id : PackageId := mkPackageId "otelcol" "1.2.0".
Definition linux : Platform := mkPlatform "linux" "amd64".
Definition sample_package : Package :=
  mkPackage sample_id {[linux := mkEntry linux [1; 2; 3]%N 3 (Some [9]%N)]}.
Definition sample_sets : Sets := {[sample_id := sample_package]}.
Definition sample_channel : Deployment :=
  mkDeployment "stable" {["channel" := "stable"]} {["otelcol" := sample_id]} ∅.
Definition sample_agent : option AgentDescription :=
  Some (mkDescription
    [string_attr "service.name" "otelcol"; string_attr "service.version" "1.1.9"]
    [string_attr "os.type" "Linux"; string_attr "host.arch" "x86_64"]).

Lemma sample_sets_wf : sets_wf sample_sets.
Proof. intros i set H. unfold sample_sets in H. apply lookup_singleton_Some in H as [<- <-]. done. Qed.

Lemma act_and_candidate_agree_witness :
  fits_agent sample_sets sample_id sample_agent ∅ = Ok tt ∧
  candidate sample_sets sample_channel sample_agent ∅ = Some sample_id.
Proof.
  assert (H : fits_agent sample_sets sample_id sample_agent ∅ = Ok tt) by (vm_compute; reflexivity).
  split; [exact H|].
  apply (act_and_candidate_agree sample_sets sample_channel sample_agent ∅ sample_id);
    [apply sample_sets_wf| |reflexivity|exact H].
  intros t i Hi. cbn in Hi. apply lookup_singleton_Some in Hi as [<- <-]. done.
Defined.

Lemma candidate_is_upgrade_witness :
  ∃ set e, resolve sample_sets sample_channel sample_agent ∅ = Some (set, e) ∧
    precedence (version (id set)) "1.1.9" = Some Gt.
Proof.
  exists sample_package, (mkEntry linux [1; 2; 3]%N 3 (Some [9]%N)).
  assert (H : resolve sample_sets sample_channel sample_agent ∅ =
    Some (sample_package, mkEntry linux [1; 2; 3]%N 3 (Some [9]%N))) by (vm_compute; reflexivity).
  split; [exact H|].
  apply (proj1 (candidate_is_upgrade sample_sets sample_channel sample_agent ∅ _ _ H) "1.1.9").
  vm_compute. reflexivity.
Defined.

Lemma offer_and_download_agree_witness :
  ∃ set e s, offered_entry sample_sets (Some sample_id) sample_agent = Some (set, e, s) ∧
    signature e = Some s.
Proof.
  destruct (proj1 (offer_and_download_agree sample_sets (Some sample_id) sample_agent sample_id linux
    sample_sets_wf)) as (set & e & s & H & _ & _ & _ & Hs & _).
  - exists (sample_id, linux). split; vm_compute; reflexivity.
  - by exists set, e, s.
Defined.

Lemma gate_matches_offer_witness :
  assigned_hash_for (cons 0%N) sample_sets (Some sample_id) sample_agent =
  from_option all_packages_hash []
    (offer_for_assigned (cons 0%N) sample_sets (Some sample_id) sample_agent).
Proof. apply (gate_matches_offer (cons 0%N)). done. Defined.

Lemma package_hash_leaves_out_type_witness :
  package_hash (λ x, x) sample_package (mkEntry linux [1]%N 1 None) =
  package_hash (λ x, x) (mkPackage (mkPackageId "fluent-bit" "1.2.0") ∅) (mkEntry linux [1]%N 1 None).
Proof. by apply package_hash_leaves_out_type. Defined.
