(* ===== verification/Agents.v ===== *)
(** * Agent records and their store

    [fleet-server/src/fleet.rs] (the record, what of it is kept, what it says) and
    [fleet-server/src/agent_store.rs] (the storage port and the digest of the dirty check). The
    encoders of the protobuf messages and SHA-256 are parameters. *)

From S2P Require Import Prelude RustStr Proto Labels Packages Configs Offers.

Open Scope string_scope.
Open Scope list_scope.

(** The identity an Agent is known by. *)
Notation Uid := (list N) (only parsing).

(** ** The messages a record keeps

    As [opamp.proto] has them; a [double] is its bits and an enum its number. *)

Inductive ComponentHealth :=
| mkHealth (healthy : bool) (start_time_unix_nano : N) (last_error status : string)
    (status_time_unix_nano : N) (component_health_map : list (string * ComponentHealth))
    (attributes : list KeyValue).

Inductive ComponentDetails :=
| mkDetails (metadata : list KeyValue) (sub_component_map : list (string * ComponentDetails)).

Record AvailableComponents := mkAvailableComponents {
  available_components_map : list (string * ComponentDetails);
  available_components_hash : list N;
}.

Record RemoteConfigStatus := mkConfigStatus {
  last_remote_config_hash : list N;
  remote_config_state : Z;
  remote_config_error : string;
}.

Record ConnectionSettingsStatus := mkSettingsStatus {
  last_connection_settings_hash : list N;
  connection_settings_state : Z;
  connection_settings_error : string;
}.

Record PackageStatus := mkPackageStatus {
  status_name : string;
  agent_has_version : string;
  agent_has_hash : list N;
  server_offered_version : string;
  server_offered_hash : list N;
  package_state : Z;
  package_error : string;
  download_details : option (N * N);
}.

Record PackageStatuses := mkPackageStatuses {
  statuses_packages : gmap string PackageStatus;
  server_provided_all_packages_hash : list N;
  statuses_error : string;
}.

Inductive Transport := Http | WebSocket.

#[export] Instance Transport_eq_dec : EqDecision Transport.
Proof. solve_decision. Defined.

Definition transport_as_str (t : Transport) : string :=
  match t with
  | Http => "http"
  | WebSocket => "websocket"
  end.

Definition transport_parse (text : string) : Transport :=
  if bool_decide (text = "websocket") then WebSocket else Http.

(** ** Assignments *)

Record Assignment := mkAssignment {
  a_deployment : string;
  a_package : option PackageId;
  a_configurations : gmap string string;
}.

#[export] Instance Assignment_eq_dec : EqDecision Assignment.
Proof. solve_decision. Defined.

(** What an assignment can pin. *)
Inductive Pin :=
| PinConfiguration (name : string)
| PinPackage (i : PackageId)
| PinDeployment (name : string).

Definition pinned_by (p : Pin) (a : Assignment) : bool :=
  match p with
  | PinConfiguration name => bool_decide (is_Some (a_configurations a !! name))
  | PinPackage i => bool_decide (a_package a = Some i)
  | PinDeployment name => bool_decide (a_deployment a = name)
  end.

(** ** Records *)

Inductive Group :=
| GroupHost (host : string)
| GroupBehind (gateway machine : string).

#[export] Instance Group_eq_dec : EqDecision Group.
Proof. solve_decision. Defined.
#[export] Instance Group_countable : Countable Group.
Proof.
  refine (inj_countable' (λ g, match g with GroupHost h => inl h | GroupBehind g m => inr (g, m) end)
    (λ s, match s with inl h => GroupHost h | inr (g, m) => GroupBehind g m end) _). by intros [].
Defined.

Record Placement := mkPlacement {
  host_values : gmap string string;
  group : option Group;
  client_agent : option Uid;
  inherited_labels : gmap string string;
  ambiguous : bool;
}.

Definition placement_default : Placement := mkPlacement ∅ None None ∅ false.

Record AgentRecord := mkRecord {
  r_sequence_num : N;
  r_capabilities : N;
  r_description : option AgentDescription;
  r_health : option ComponentHealth;
  r_effective_config : option string;
  r_remote_config_status : option RemoteConfigStatus;
  r_transport : Transport;
  r_connected : bool;
  r_last_seen_ms : N;
  r_restart_pending : bool;
  r_available_components : option AvailableComponents;
  r_components_demanded : option (list N);
  r_connection_settings_status : option ConnectionSettingsStatus;
  r_package_statuses : option PackageStatuses;
  r_owner : option N;
  r_heard : bool;
  r_labels : gmap string string;
  r_host : option string;
  r_placement : Placement;
  r_assignment : option Assignment;
}.

Record PersistedAgent := mkPersisted {
  p_sequence_num : N;
  p_capabilities : N;
  p_description : option AgentDescription;
  p_health : option ComponentHealth;
  p_effective_config : option string;
  p_remote_config_status : option RemoteConfigStatus;
  p_connection_settings_status : option ConnectionSettingsStatus;
  p_package_statuses : option PackageStatuses;
  p_available_components : option AvailableComponents;
  p_transport : Transport;
  p_last_seen_ms : N;
  p_restart_pending : bool;
  p_assignment : option Assignment;
  p_labels : gmap string string;
  p_host : option string;
}.

Definition sources (r : AgentRecord) : Sources :=
  mkSources (host_values (r_placement r)) (r_description r) (r_labels r)
    (inherited_labels (r_placement r)).

(** [AgentRecord::effective_description]. *)
Definition record_description (r : AgentRecord) : option AgentDescription :=
  if adds_nothing (sources r) then r_description r else effective_description (sources r).

Definition assigned_package (r : AgentRecord) : option PackageId := r_assignment r ≫= a_package.

Definition assigned_configurations (r : AgentRecord) : gmap string string :=
  from_option a_configurations ∅ (r_assignment r).

Definition installed_package_versions (r : AgentRecord) : InstalledVersions :=
  match r_package_statuses r with
  | None => ∅
  | Some statuses =>
      agent_has_version
        <$> filter (λ ns, is_empty (agent_has_version ns.2) = false) (statuses_packages statuses)
  end.

Definition to_persisted (r : AgentRecord) : PersistedAgent :=
  mkPersisted (r_sequence_num r) (r_capabilities r) (r_description r) (r_health r)
    (r_effective_config r) (r_remote_config_status r) (r_connection_settings_status r)
    (r_package_statuses r) (r_available_components r) (r_transport r) (r_last_seen_ms r)
    (r_restart_pending r) (r_assignment r) (r_labels r) (r_host r).

Definition from_persisted (p : PersistedAgent) : AgentRecord :=
  mkRecord (p_sequence_num p) (p_capabilities p) (p_description p) (p_health p)
    (p_effective_config p) (p_remote_config_status p) (p_transport p) false (p_last_seen_ms p)
    (p_restart_pending p) (p_available_components p) None (p_connection_settings_status p)
    (p_package_statuses p) None false (p_labels p) (p_host p) placement_default (p_assignment p).

(** The same record with another assignment, held and stored. *)
Definition with_assignment (a : option Assignment) (r : AgentRecord) : AgentRecord :=
  mkRecord (r_sequence_num r) (r_capabilities r) (r_description r) (r_health r)
    (r_effective_config r) (r_remote_config_status r) (r_transport r) (r_connected r)
    (r_last_seen_ms r) (r_restart_pending r) (r_available_components r) (r_components_demanded r)
    (r_connection_settings_status r) (r_package_statuses r) (r_owner r) (r_heard r) (r_labels r)
    (r_host r) (r_placement r) a.

Definition p_with_assignment (a : option Assignment) (p : PersistedAgent) : PersistedAgent :=
  mkPersisted (p_sequence_num p) (p_capabilities p) (p_description p) (p_health p)
    (p_effective_config p) (p_remote_config_status p) (p_connection_settings_status p)
    (p_package_statuses p) (p_available_components p) (p_transport p) (p_last_seen_ms p)
    (p_restart_pending p) a (p_labels p) (p_host p).

(** ** Silence *)

Definition ReportsHeartbeat : N := 8192.

Definition has_capability (r : AgentRecord) (bit : N) : bool :=
  negb (N.land (r_capabilities r) bit =? 0)%N.

(** Nothing heard for longer than [budget] milliseconds. *)
Definition is_silent (r : AgentRecord) (budget now_ms : N) : bool :=
  (budget <? saturating_sub now_ms (r_last_seen_ms r))%N.

Definition is_stale (r : AgentRecord) (stale_after now_ms : N) : bool :=
  if negb (has_capability r ReportsHeartbeat) then false else is_silent r stale_after now_ms.

(** ** The digest of the dirty check *)

(** What [prost] writes and reads a message as. *)
Record Codec (M : Type) := mkCodec {
  encode_to_vec : M → list N;
  decode_vec : list N → option M;
}.
Arguments mkCodec {M}.
Arguments encode_to_vec {M}.
Arguments decode_vec {M}.

Record Codecs := mkCodecs {
  description_codec : Codec AgentDescription;
  health_codec : Codec ComponentHealth;
  config_status_codec : Codec RemoteConfigStatus;
  settings_status_codec : Codec ConnectionSettingsStatus;
  package_statuses_codec : Codec PackageStatuses;
  components_codec : Codec AvailableComponents;
}.

Section Digest.
Context (codecs : Codecs).

Definition digest_field (bytes : list N) : list N :=
  le_bytes 8 (N.of_nat (length bytes)) ++ bytes.

Definition digest_flag (b : bool) : list N := digest_field [if b then 1%N else 0%N].

Definition digest_message {M} (encode : M → list N) (value : option M) : list N :=
  digest_flag (bool_decide (is_Some value)) ++ digest_field (from_option encode [] value).

Definition digest_text (value : option string) : list N :=
  digest_flag (bool_decide (is_Some value)) ++ digest_field (bytes_of (default "" value)).

Definition digest_pairs (pairs : gmap string string) : list N :=
  digest_field (le_bytes 8 (N.of_nat (base.size pairs)))
  ++ (btree_iter pairs ≫= λ kv, digest_field (bytes_of kv.1) ++ digest_field (bytes_of kv.2)).

Definition digest_assignment (a : option Assignment) : list N :=
  digest_flag (bool_decide (is_Some a))
  ++ match a with
     | None => []
     | Some a =>
         digest_field (bytes_of (a_deployment a))
         ++ digest_flag (bool_decide (is_Some (a_package a)))
         ++ match a_package a with
            | None => []
            | Some i => digest_field (bytes_of (agent_type i)) ++ digest_field (bytes_of (version i))
            end
         ++ digest_pairs (a_configurations a)
     end.

(** The bytes [durable_digest] hashes: everything but what moves on every report. *)
Definition durable_frame (p : PersistedAgent) : list N :=
  digest_field (le_bytes 8 (p_capabilities p))
  ++ digest_message (encode_to_vec (description_codec codecs)) (p_description p)
  ++ digest_message (encode_to_vec (health_codec codecs)) (p_health p)
  ++ digest_text (p_effective_config p)
  ++ digest_message (encode_to_vec (config_status_codec codecs)) (p_remote_config_status p)
  ++ digest_message (encode_to_vec (settings_status_codec codecs)) (p_connection_settings_status p)
  ++ digest_message (encode_to_vec (package_statuses_codec codecs)) (p_package_statuses p)
  ++ digest_message (encode_to_vec (components_codec codecs)) (p_available_components p)
  ++ digest_field (bytes_of (transport_as_str (p_transport p)))
  ++ digest_flag (p_restart_pending p)
  ++ digest_assignment (p_assignment p)
  ++ digest_pairs (p_labels p)
  ++ digest_text (p_host p).
End Digest.

(** ** The storage port

    What the fleet asks of the store that keeps the records. [B] is the storage behind it and behind
    the Configurations' port. *)
Inductive Creation := Created | Found (stored : PersistedAgent) | Full.

(** [Taken], but for the holder it replaced and the warning, which are logged. *)
Notation Take := N (only parsing).

Class AgentStore (B : Type) := {
  agents_is_shared : bool;
  agents_get : Uid → Eff B ConfigError (option PersistedAgent);
  agents_write_report : Uid → PersistedAgent → Eff B ConfigError bool;
  agents_create_within : Uid → PersistedAgent → N → Eff B ConfigError Creation;
  agents_rekey : Uid → Uid → PersistedAgent → Eff B ConfigError unit;
  agents_take : Uid → string → N → Eff B ConfigError (option Take);
  agents_remove_if_silent : Uid → N → Eff B ConfigError (option bool);
  agents_release : list Pinned → list (Uid * PersistedAgent) → Eff B ConfigError (list (list N));
  agents_remove : Uid → Eff B ConfigError unit;
  agents_set_labels : Uid → gmap string string → Eff B ConfigError bool;
  agents_set_restart_pending : Uid → bool → Eff B ConfigError (option bool);
  agents_pinning : Pin → B → nat;
  agents_referenced_revisions : string → B → gset string;
}.

(** Whether a record's assignment pins [p]. *)
Definition record_pins (p : Pin) (record : PersistedAgent) : bool :=
  match p_assignment record with
  | Some a => pinned_by p a
  | None => false
  end.

(** What one record of a release leaves stored: a store that one Server writes takes the record, a
    shared one its assignment alone. *)
Definition took (agents : list (Uid * PersistedAgent)) (uid : Uid) (stored : option PersistedAgent)
    : Prop :=
  ∃ p p', (uid, p) ∈ agents ∧ stored = Some p' ∧ p_assignment p' = p_assignment p.

(** [agents_stored b m]: the store [b] holds the records [m]. The revisions of a release are written
    before its records, and a release that fails puts back what it wrote where it can. *)
Class AgentStoreSpec {B : Type} `{!ConfigBackend B} `{!AgentStore B}
    (config_stored : B → gmap string Configuration → Prop)
    (agents_stored : B → gmap (list N) PersistedAgent → Prop) : Prop := {
  agents_release_law b cfg m revisions agents b' x :
    config_stored b cfg → agents_stored b m → NoDup agents.*1 →
    agents_release revisions agents b = (b', x) →
    ∃ done m', done `prefix_of` revisions ∧ config_stored b' (foldl retain_pinned cfg done) ∧
      Forall (λ p, is_Some (cfg !! pinned_configuration p)) done ∧ agents_stored b' m' ∧
      (∀ wrote, x = Ok wrote → done = revisions ∧ ∀ uid,
         uid ∈ wrote ∧ took agents uid (m' !! uid) ∨ uid ∉ wrote ∧ m' !! uid = m !! uid) ∧
      (is_ok x = false → ∀ uid,
         m' !! uid = m !! uid ∨ done = revisions ∧ took agents uid (m' !! uid));
  agents_remove_law b cfg m uid b' x :
    config_stored b cfg → agents_stored b m → agents_remove uid b = (b', x) →
    config_stored b' cfg ∧
      (agents_stored b' (delete uid m) ∨ is_ok x = false ∧ agents_stored b' m);
  agents_pinning_law b m p :
    agents_stored b m → agents_pinning p b = base.size (filter (λ ur, record_pins p ur.2 = true) m);
  agents_referenced_law b m n h :
    agents_stored b m →
    h ∈ agents_referenced_revisions n b ↔
    ∃ uid p a, m !! uid = Some p ∧ p_assignment p = Some a ∧ a_configurations a !! n = Some h;
  agents_config_load b m b' x : agents_stored b m → config_load b = (b', x) → agents_stored b' m;
  agents_config_save b m n r b' x : agents_stored b m → config_save n r b = (b', x) → agents_stored b' m;
  agents_config_collect b m n hs b' x :
    agents_stored b m → config_collect n hs b = (b', x) → agents_stored b' m;
  agents_config_remove b m n b' x : agents_stored b m → config_remove n b = (b', x) → agents_stored b' m;
}.

(** ** The digest reads every durable field *)

(** A frame that can be read back whatever follows it. *)
Definition self_delimiting {A} (ok : A → Prop) (f : A → list N) : Prop :=
  ∀ x y k k', ok x → ok y → f x ++ k = f y ++ k' → x = y ∧ k = k'.

Definition small (bytes : list N) : Prop := (N.of_nat (length bytes) < 2 ^ 64)%N.

Lemma delimit_field : self_delimiting small digest_field.
Proof.
  unfold self_delimiting, digest_field, small. intros x y k k' Hx Hy H. rewrite <- !app_assoc in H.
  apply app_inj_1 in H as [Hlen H]; [|by rewrite !length_le_bytes].
  apply le_bytes_inj in Hlen; [|done..]. apply app_inj_1 in H; [done|lia].
Qed.

(** A frame of a part that determines it. *)
Lemma delimit_part {A B} (ok : A → Prop) (okB : B → Prop) (g : A → B) (f : B → list N) :
  self_delimiting okB f → (∀ x, ok x → okB (g x)) → (∀ x y, ok x → ok y → g x = g y → x = y) →
  self_delimiting ok (λ x, f (g x)).
Proof.
  intros Hf Hok Hg x y k k' Hx Hy H. apply Hf in H as [H ->]; [|auto..]. split; [|done]. by apply Hg.
Qed.

(** Two frames one after the other. *)
Lemma delimit_app {A B} (okA : A → Prop) (okB : A → B → Prop) (f : A → list N) (g : A → B → list N) :
  self_delimiting okA f → (∀ a, self_delimiting (okB a) (g a)) →
  self_delimiting (λ ab, okA ab.1 ∧ okB ab.1 ab.2) (λ ab, f ab.1 ++ g ab.1 ab.2).
Proof.
  intros Hf Hg [a b] [a' b'] k k' [Ha Hb] [Ha' Hb'] H. cbn in *. rewrite <- !app_assoc in H.
  apply Hf in H as [-> H]; [|done..]. apply Hg in H as [-> ->]; done.
Qed.

Lemma delimit_flag : self_delimiting (λ _, True) digest_flag.
Proof.
  apply (delimit_part _ small (λ b : bool, [if b then 1%N else 0%N]) digest_field); [apply delimit_field|..].
  - intros b _. unfold small. cbn. lia.
  - by intros [] [].
Qed.

Lemma delimit_string : self_delimiting (λ s, small (bytes_of s)) (λ s, digest_field (bytes_of s)).
Proof.
  apply (delimit_part _ small); [apply delimit_field|done|]. intros x y _ _. apply bytes_of_inj.
Qed.

Lemma delimit_u64 : self_delimiting (λ n, n < 2 ^ 64)%N (λ n, digest_field (le_bytes 8 n)).
Proof.
  apply (delimit_part _ small); [apply delimit_field|..].
  - intros n _. unfold small. rewrite length_le_bytes. done.
  - intros x y Hx Hy. by apply le_bytes_inj.
Qed.

(** A message that is read back as it was written, and is no longer than a [u64] can say. *)
Definition read_back {M} (codec : Codec M) (v : option M) : Prop :=
  match v with
  | None => True
  | Some m => small (encode_to_vec codec m) ∧ decode_vec codec (encode_to_vec codec m) = Some m
  end.

Lemma delimit_message {M} (codec : Codec M) :
  self_delimiting (read_back codec) (digest_message (encode_to_vec codec)).
Proof.
  intros x y k k' Hx Hy H. unfold digest_message in H. rewrite <- !app_assoc in H.
  apply delimit_flag in H as [Hsome H]; [|done..].
  assert (small (from_option (encode_to_vec codec) [] x) ∧ small (from_option (encode_to_vec codec) [] y))
    as [Hsx Hsy] by (destruct x, y; try done; by destruct Hx, Hy).
  apply delimit_field in H as [H ->]; [|done..]. split; [|done].
  destruct x, y; try done. destruct Hx as [_ Hx], Hy as [_ Hy]. cbn [from_option] in H.
  rewrite H in Hx. congruence.
Qed.

Lemma delimit_text : self_delimiting (λ v, small (bytes_of (default "" v))) digest_text.
Proof.
  intros x y k k' Hx Hy H. unfold digest_text in H. rewrite <- !app_assoc in H.
  apply delimit_flag in H as [Hsome H]; [|done..]. apply delimit_string in H as [H ->]; [|done..].
  split; [|done]. destruct x, y; try done. cbn in H. by subst.
Qed.

Definition pair_small (kv : string * string) : Prop := small (bytes_of kv.1) ∧ small (bytes_of kv.2).

Lemma delimit_pair :
  self_delimiting pair_small (λ kv, digest_field (bytes_of kv.1) ++ digest_field (bytes_of kv.2)).
Proof.
  intros [a b] [a' b'] k k' [Ha Hb] [Ha' Hb'] H. cbn in *. rewrite <- !app_assoc in H.
  apply delimit_string in H as [-> H]; [|done..]. apply delimit_string in H as [-> ->]; done.
Qed.

(** Frames of as many elements, one after the other. *)
Lemma delimit_each {A} (ok : A → Prop) (f : A → list N) l l' k k' :
  self_delimiting ok f → Forall ok l → Forall ok l' → length l = length l' →
  (l ≫= f) ++ k = (l' ≫= f) ++ k' → l = l' ∧ k = k'.
Proof.
  intros Hf Hl. revert l'. induction Hl as [|x l Hx Hl IH]; intros [|y l'] Hl' Hlen H; try done.
  apply Forall_cons in Hl' as [Hy Hl']. cbn [mbind list_bind] in H. rewrite <- !app_assoc in H.
  apply Hf in H as [-> H]; [|done..]. apply IH in H as [-> ->]; [done..|]. cbn in Hlen. lia.
Qed.

Definition pairs_small (m : gmap string string) : Prop :=
  (N.of_nat (base.size m) < 2 ^ 64)%N ∧ Forall pair_small (btree_iter m).

Lemma length_btree_iter {A} (m : gmap string A) : length (btree_iter m) = base.size m.
Proof. unfold btree_iter. rewrite merge_sort_Permutation. apply length_map_to_list. Qed.

Lemma delimit_pairs : self_delimiting pairs_small digest_pairs.
Proof.
  intros x y k k' [Hx Hx'] [Hy Hy'] H. unfold digest_pairs in H. rewrite <- !app_assoc in H.
  apply delimit_u64 in H as [Hsize H]; [|done..].
  eapply delimit_each in H as [H ->]; [|apply delimit_pair|done..|]; cycle 1.
  { rewrite !length_btree_iter. lia. }
  split; [|done]. rewrite <- (list_to_map_btree_iter x), <- (list_to_map_btree_iter y). by rewrite H.
Qed.

Definition package_small (i : PackageId) : Prop :=
  small (bytes_of (agent_type i)) ∧ small (bytes_of (version i)).

Definition assignment_small (a : Assignment) : Prop :=
  small (bytes_of (a_deployment a)) ∧ from_option package_small True (a_package a) ∧
  pairs_small (a_configurations a).

Lemma delimit_assignment :
  self_delimiting (from_option assignment_small True) digest_assignment.
Proof.
  intros x y k k' Hx Hy H. unfold digest_assignment in H. rewrite <- !app_assoc in H.
  apply delimit_flag in H as [Hsome H]; [|done..].
  destruct x as [[d p cs]|], y as [[d' p' cs']|]; try done.
  destruct Hx as (Hd & Hp & Hc), Hy as (Hd' & Hp' & Hc').
  cbn [a_deployment a_package a_configurations from_option] in *. rewrite <- !app_assoc in H. apply delimit_string in H as [-> H]; [|done..].
  apply delimit_flag in H as [Hsome' H]; [|done..].
  destruct p as [[t v]|], p' as [[t' v']|]; try done; cbn [from_option agent_type version package_small] in *.
  - rewrite <- !app_assoc in H. destruct Hp, Hp'.
    apply delimit_string in H as [-> H]; [|done..]. apply delimit_string in H as [-> H]; [|done..].
    apply delimit_pairs in H as [-> ->]; done.
  - apply delimit_pairs in H as [-> ->]; done.
Qed.

(** What of a record a write would keep; the rest moves on every report. *)
Definition durable (p : PersistedAgent) : PersistedAgent :=
  mkPersisted 0 (p_capabilities p) (p_description p) (p_health p) (p_effective_config p)
    (p_remote_config_status p) (p_connection_settings_status p) (p_package_statuses p)
    (p_available_components p) (p_transport p) 0 (p_restart_pending p) (p_assignment p)
    (p_labels p) (p_host p).

Section DigestInjective.
Context (codecs : Codecs).

Notation frame := (durable_frame codecs).

(** Every message is read back as it was written, and no field is longer than a [u64] can say. *)
Definition durable_small (p : PersistedAgent) : Prop :=
  (p_capabilities p < 2 ^ 64)%N ∧
  read_back (description_codec codecs) (p_description p) ∧
  read_back (health_codec codecs) (p_health p) ∧
  small (bytes_of (default "" (p_effective_config p))) ∧
  read_back (config_status_codec codecs) (p_remote_config_status p) ∧
  read_back (settings_status_codec codecs) (p_connection_settings_status p) ∧
  read_back (package_statuses_codec codecs) (p_package_statuses p) ∧
  read_back (components_codec codecs) (p_available_components p) ∧
  from_option assignment_small True (p_assignment p) ∧ pairs_small (p_labels p) ∧
  small (bytes_of (default "" (p_host p))).

Lemma transport_small t : small (bytes_of (transport_as_str t)).
Proof. unfold small. destruct t; vm_compute; done. Qed.

Lemma transport_round_trip t : transport_parse (transport_as_str t) = t.
Proof. by destruct t. Qed.

(** The dirty check misses nothing: the bytes two records are digested over are equal exactly
    when nothing durable differs between them — every field but the sequence number and the time
    last heard is in the frame, an absent value is not an empty one, and no two fields can run
    together. *)
Theorem durable_frame_exact (p q : PersistedAgent) :
  durable_small p → durable_small q → frame p = frame q ↔ durable p = durable q.
Proof.
  intros (Hp1 & Hp2 & Hp3 & Hp4 & Hp5 & Hp6 & Hp7 & Hp8 & Hp9 & Hp10 & Hp11)
    (Hq1 & Hq2 & Hq3 & Hq4 & Hq5 & Hq6 & Hq7 & Hq8 & Hq9 & Hq10 & Hq11).
  split.
  - intros H. unfold durable_frame in H.
    apply delimit_u64 in H as [E1 H]; [|done..].
    apply delimit_message in H as [E2 H]; [|done..].
    apply delimit_message in H as [E3 H]; [|done..].
    apply delimit_text in H as [E4 H]; [|done..].
    apply delimit_message in H as [E5 H]; [|done..].
    apply delimit_message in H as [E6 H]; [|done..].
    apply delimit_message in H as [E7 H]; [|done..].
    apply delimit_message in H as [E8 H]; [|done..].
    apply delimit_string in H as [E9 H]; [|apply transport_small..].
    apply (f_equal transport_parse) in E9. rewrite !transport_round_trip in E9.
    apply delimit_flag in H as [E10 H]; [|done..].
    apply delimit_assignment in H as [E11 H]; [|done..].
    apply delimit_pairs in H as [E12 H]; [|done..].
    rewrite <- (app_nil_r (digest_text (p_host p))), <- (app_nil_r (digest_text (p_host q))) in H.
    apply delimit_text in H as [E13 _]; [|done..].
    unfold durable. by rewrite E1, E2, E3, E4, E5, E6, E7, E8, E9, E10, E11, E12, E13.
  - destruct p, q. unfold durable. cbn. intros [= -> -> -> -> -> -> -> -> -> -> -> -> ->]. done.
Qed.
End DigestInjective.

(** A record with a label, an assignment and a message of each kind absent but the description. *)
Definition sample_codec {M} (m : M) : Codec M := mkCodec (λ _, [7%N]) (λ _, Some m).

Definition sample_persisted (d : AgentDescription) (host : option string) (seen : N) : PersistedAgent :=
  mkPersisted seen 1 (Some d) None None None None None None WebSocket seen false
    (Some (mkAssignment "stable" (Some (mkPackageId "otelcol" "1.2.3")) {["base" := "h0"]}))
    {["team" := "edge"]} host.

Definition sample_codecs (d : AgentDescription) : Codecs :=
  mkCodecs (sample_codec d) (sample_codec (mkHealth true 0 "" "" 0 [] []))
    (sample_codec (mkConfigStatus [] 0 "")) (sample_codec (mkSettingsStatus [] 0 ""))
    (sample_codec (mkPackageStatuses ∅ [] "")) (sample_codec (mkAvailableComponents [] [])).

Lemma sample_small d host seen :
  default "" host = "" → durable_small (sample_codecs d) (sample_persisted d host seen).
Proof.
  intros Hh. assert (Hpair : ∀ k v : string, pair_small (k, v) → pairs_small {[k := v]}).
  { intros k v H. split; [by rewrite map_size_singleton|]. unfold btree_iter.
    rewrite map_to_list_singleton. by constructor. }
  unfold durable_small, assignment_small, package_small.
  cbn [p_capabilities p_description p_health p_effective_config p_remote_config_status
    p_connection_settings_status p_package_statuses p_available_components p_assignment p_labels p_host
    sample_persisted from_option a_deployment a_package a_configurations agent_type version read_back].
  rewrite Hh. split_and!; try exact I; try apply Hpair; try (split; [vm_compute; done|done]);
    try split; vm_compute; done.
Qed.

Lemma durable_frame_exact_witness :
  let d := mkDescription [string_attr "service.name" "otelcol"] [] in
  let frame := durable_frame (sample_codecs d) in
  frame (sample_persisted d (Some "") 1) = frame (sample_persisted d (Some "") 2) ∧
  frame (sample_persisted d (Some "") 1) ≠ frame (sample_persisted d None 1).
Proof.
  intros d frame.
  split.
  - apply (durable_frame_exact (sample_codecs d)); [by apply sample_small..|done].
  - intros H. apply (durable_frame_exact (sample_codecs d)) in H; [discriminate H|by apply sample_small..].
Defined.

(** ** A store in memory

    The Configurations' port and the records' port met by two maps. *)

Record Memory := mkMemory {
  memory_configurations : gmap string Configuration;
  memory_agents : gmap (list N) PersistedAgent;
}.

#[export] Instance memory_store_configs : ConfigBackend Memory := {|
  config_load := λ b, (b, Ok (btree_values (memory_configurations b)));
  config_save := λ n r b,
    (mkMemory (config_save n r (memory_configurations b)).1 (memory_agents b), Ok tt);
  config_collect := λ n hs b,
    let (m, x) := config_collect n hs (memory_configurations b) in (mkMemory m (memory_agents b), x);
  config_remove := λ n b, (mkMemory (delete n (memory_configurations b)) (memory_agents b), Ok Removed);
|}.

Definition referenced_by (n : string) (m : gmap (list N) PersistedAgent) : gset string :=
  list_to_set (omap (λ up, a ← p_assignment up.2; a_configurations a !! n) (map_to_list m)).

Definition p_with_labels (labels : gmap string string) (p : PersistedAgent) : PersistedAgent :=
  mkPersisted (p_sequence_num p) (p_capabilities p) (p_description p) (p_health p)
    (p_effective_config p) (p_remote_config_status p) (p_connection_settings_status p)
    (p_package_statuses p) (p_available_components p) (p_transport p) (p_last_seen_ms p)
    (p_restart_pending p) (p_assignment p) labels (p_host p).

Definition p_with_restart (pending : bool) (p : PersistedAgent) : PersistedAgent :=
  mkPersisted (p_sequence_num p) (p_capabilities p) (p_description p) (p_health p)
    (p_effective_config p) (p_remote_config_status p) (p_connection_settings_status p)
    (p_package_statuses p) (p_available_components p) (p_transport p) (p_last_seen_ms p)
    pending (p_assignment p) (p_labels p) (p_host p).

(** The records' port of one Server alone, by its default methods: a report is put, and nothing is
    kept of presence. *)
Definition memory_put (uid : Uid) (p : PersistedAgent) (b : Memory) : Memory :=
  mkMemory (memory_configurations b) (<[uid := p]> (memory_agents b)).

#[export] Instance memory_store_agents : AgentStore Memory := {|
  agents_is_shared := false;
  agents_get := λ uid b, (b, Ok (memory_agents b !! uid));
  agents_write_report := λ uid p b, (memory_put uid p b, Ok true);
  agents_create_within := λ uid p _ b, (memory_put uid p b, Ok Created);
  agents_rekey := λ old new p b,
    (mkMemory (memory_configurations b) (delete old (<[new := p]> (memory_agents b))), Ok tt);
  agents_take := λ _ _ _ b, (b, Ok (Some 0%N));
  agents_remove_if_silent := λ _ _ b, (b, Err BackendFailed);
  agents_release := λ revisions agents b,
    if forallb (λ p, bool_decide (is_Some (memory_configurations b !! pinned_configuration p))) revisions
    then (mkMemory (foldl retain_pinned (memory_configurations b) revisions)
            (foldl (λ m ap, <[ap.1 := ap.2]> m) (memory_agents b) agents), Ok agents.*1)
    else (b, Err BackendFailed);
  agents_remove := λ uid b, (mkMemory (memory_configurations b) (delete uid (memory_agents b)), Ok tt);
  agents_set_labels := λ uid labels b,
    (mkMemory (memory_configurations b) (alter (p_with_labels labels) uid (memory_agents b)),
     Ok (bool_decide (is_Some (memory_agents b !! uid))));
  agents_set_restart_pending := λ uid pending b,
    (mkMemory (memory_configurations b) (alter (p_with_restart pending) uid (memory_agents b)),
     Ok (p_restart_pending <$> (memory_agents b !! uid)));
  agents_pinning := λ p b, base.size (filter (λ ur, record_pins p ur.2 = true) (memory_agents b));
  agents_referenced_revisions := λ n b, referenced_by n (memory_agents b);
|}.

Definition memory_store_configs_hold (b : Memory) (m : gmap string Configuration) : Prop :=
  memory_stored (memory_configurations b) m.
Definition memory_store_agents_hold (b : Memory) (m : gmap (list N) PersistedAgent) : Prop :=
  memory_agents b = m.

#[export] Instance memory_store_configs_spec : ConfigBackendSpec memory_store_configs_hold.
Proof.
  split; unfold memory_store_configs_hold.
  - intros b m k c. apply (config_stored_names (config_stored := memory_stored)).
  - intros b m b' x Hst [= <- <-].
    split; [done|]. intros l [= <-]. destruct Hst as [<- Hn]. by apply by_config_name_values.
  - intros b m n r b' x Hst Hn Hr [= <- <-]. cbn [memory_configurations].
    eapply (config_save_law (config_stored := memory_stored)); [done..|reflexivity].
  - intros b m n hs c b' x Hst Hc. cbn. destruct (memory_configurations b !! n) as [c0|] eqn:E.
    + intros [= <- <-]. cbn [memory_configurations].
      eapply (config_collect_law (config_stored := memory_stored)); [done|done|]. cbn. by rewrite E.
    + destruct Hst as [Heq _]. rewrite Heq in E. congruence.
  - intros b m n hs b' x Hst Hc. cbn. destruct Hst as [Heq Hn]. rewrite Heq, Hc.
    intros [= <- <-]. by rewrite <- Heq in *.
  - intros b m n b' x Hst [= <- <-]. cbn [memory_configurations].
    eapply (config_remove_law (config_stored := memory_stored)); [done|reflexivity].
Qed.

Lemma elem_of_referenced_by (n : string) (m : gmap (list N) PersistedAgent) (h : string) :
  h ∈ referenced_by n m ↔
  ∃ uid p a, m !! uid = Some p ∧ p_assignment p = Some a ∧ a_configurations a !! n = Some h.
Proof.
  unfold referenced_by. rewrite elem_of_list_to_set, list_elem_of_omap. split.
  - intros ([u p] & Hin%elem_of_map_to_list & Hh). cbn in Hh.
    destruct (p_assignment p) as [a|] eqn:Ha; [|done]. eauto 10.
  - intros (u & p & a & Hu & Ha & Hh). exists (u, p). rewrite elem_of_map_to_list. split; [done|].
    cbn. by rewrite Ha.
Qed.

Lemma foldl_insert_lookup (l : list (list N * PersistedAgent)) (m : gmap (list N) PersistedAgent) u :
  (∃ p, (u, p) ∈ l ∧ foldl (λ m ap, <[ap.1 := ap.2]> m) m l !! u = Some p) ∧ u ∈ l.*1 ∨
  u ∉ l.*1 ∧ foldl (λ m ap, <[ap.1 := ap.2]> m) m l !! u = m !! u.
Proof.
  revert m. induction l as [|[v q] l IH]; intros m; [right; split; [by intros ?%elem_of_nil|done]|].
  cbn [foldl fmap list_fmap fst snd].
  destruct (IH (<[v := q]> m)) as [[(p & Hp & Hf) Hin]|[Hin Hf]].
  - left. split; [|by right]. exists p. split; [by right|done].
  - rewrite Hf. destruct (decide (u = v)) as [->|Hne].
    + left. split; [|by left]. exists q. rewrite lookup_insert_eq. split; [by left|done].
    + right. rewrite lookup_insert_ne by done. split; [|done]. by intros [?|?]%elem_of_cons.
Qed.

#[export] Instance memory_store_agents_spec :
  AgentStoreSpec memory_store_configs_hold memory_store_agents_hold.
Proof.
  split; unfold memory_store_configs_hold, memory_store_agents_hold.
  - intros b cfg m revisions agents b' x [Hcfg Hn] <- Hnd. cbn.
    destruct (forallb _ revisions) eqn:Eall; intros [= <- <-].
    + exists revisions, (foldl (λ m ap, <[ap.1 := ap.2]> m) (memory_agents b) agents).
      cbn [memory_configurations memory_agents]. rewrite Hcfg. split; [done|]. split; [split; [done|]|split; [|split; [done|split]]].
      * intros k c Hk.
        assert (Hv : (λ c, (config_name c, saved c)) <$> (foldl retain_pinned cfg revisions !! k)
                   = (λ c, (config_name c, saved c)) <$> (cfg !! k)).
        { clear. revert cfg. induction revisions as [|p l IH]; intros cfg; [done|]. cbn. rewrite IH.
          unfold retain_pinned. destruct (cfg !! pinned_configuration p) as [c|] eqn:E; [|done].
          destruct (decide (k = pinned_configuration p)) as [->|Hne];
            [by rewrite lookup_insert_eq, E|by rewrite lookup_insert_ne]. }
        rewrite Hk in Hv. destruct (cfg !! k) as [c0|] eqn:E; [|done]. cbn in Hv.
        injection Hv as -> _. rewrite <- Hcfg in E. by apply Hn.
      * apply Forall_forall. intros p Hp. rewrite forallb_forall in Eall.
        apply list_elem_of_In, Eall, bool_decide_eq_true in Hp. by rewrite Hcfg in Hp.
      * intros wrote [= <-]. split; [done|]. intros u.
        destruct (foldl_insert_lookup agents (memory_agents b) u) as [[(p & Hp & Hf) Hin]|[Hin Hf]];
          [left|by right]. split; [done|]. exists p, p. done.
      * done.
    + exists [], (memory_agents b). split; [apply prefix_nil|]. split; [by split|]. split; [constructor|].
      split; [done|]. split; [done|]. by left.
  - intros b cfg m uid b' x Hcfg <- [= <- <-]. split; [done|]. by left.
  - by intros b m p <-.
  - intros b m n h <-. apply elem_of_referenced_by.
  - by intros b m b' x <- [= <- <-].
  - by intros b m n r b' x <- [= <- <-].
  - intros b m n hs b' x <-. cbn. destruct (memory_configurations b !! n); by intros [= <- <-].
  - by intros b m n b' x <- [= <- <-].
Qed.
