(* ===== verification/Placement.v ===== *)
(** * Where an Agent is placed

    The part of [fleet-server/src/fleet.rs] that derives, from the Host an Agent arrived over and the
    Client Agent of its group, what they add to its effective description: [locate], [inherit],
    [unindex], [place], [unplace], [place_all], [take_labels]; and [SubjectValues] and the register's
    [placement] of [fleet-server/src/revocation.rs]. The index of the groups is kept beside the
    fleet, so that placing one Agent touches its group alone. *)

From S2P Require Import Prelude RustStr Proto Labels Agents.

Open Scope string_scope.
Open Scope list_scope.

Notation Fleet := (gmap (list N) AgentRecord) (only parsing).
Notation Groups := (gmap Group (gset (list N))) (only parsing).

(** ** The host register's part *)

Record SubjectValues := mkSubject {
  country : string;
  state : string;
  locality : string;
  organization : string;
  organizational_unit : string;
  organization_identifier : string;
}.

Definition subject_default : SubjectValues := mkSubject "" "" "" "" "" "".

(** [SubjectValues::attributes], collected. *)
Definition subject_attributes (s : SubjectValues) : gmap string string :=
  collect_map (List.filter (λ kv, negb (is_empty kv.2))
    [("fleet.host.country", country s); ("fleet.host.state", state s);
     ("fleet.host.locality", locality s); ("fleet.host.organization", organization s);
     ("fleet.host.site", organizational_unit s);
     ("fleet.host.organization_id", organization_identifier s)]).

Record HostMark := mkHostMark {
  gateway : bool;
  subject : SubjectValues;
}.

(** [Revocations::placement]. *)
Definition placement (hosts : gmap string HostMark) (host : string) : bool * SubjectValues :=
  match hosts !! host with
  | Some h => (gateway h, subject h)
  | None => (false, subject_default)
  end.

(** ** Records with another placement *)

Definition with_placement (p : Placement) (r : AgentRecord) : AgentRecord :=
  mkRecord (r_sequence_num r) (r_capabilities r) (r_description r) (r_health r)
    (r_effective_config r) (r_remote_config_status r) (r_transport r) (r_connected r)
    (r_last_seen_ms r) (r_restart_pending r) (r_available_components r) (r_components_demanded r)
    (r_connection_settings_status r) (r_package_statuses r) (r_owner r) (r_heard r) (r_labels r)
    (r_host r) p (r_assignment r).

Definition with_labels (labels : gmap string string) (r : AgentRecord) : AgentRecord :=
  mkRecord (r_sequence_num r) (r_capabilities r) (r_description r) (r_health r)
    (r_effective_config r) (r_remote_config_status r) (r_transport r) (r_connected r)
    (r_last_seen_ms r) (r_restart_pending r) (r_available_components r) (r_components_demanded r)
    (r_connection_settings_status r) (r_package_statuses r) (r_owner r) (r_heard r) labels
    (r_host r) (r_placement r) (r_assignment r).

(** ** The groups *)

Definition unindex (groups : Groups) (g : Group) (uid : Uid) : Groups :=
  match groups !! g with
  | None => groups
  | Some members =>
      let members := members ∖ {[uid]} in
      if bool_decide (members = ∅) then delete g groups else <[g := members]> groups
  end.

Definition index (groups : Groups) (g : Group) (uid : Uid) : Groups :=
  <[g := {[uid]} ∪ default ∅ (groups !! g)]> groups.

(** The Client Agents of a group: the ones the fleet holds, then the ones held elsewhere. *)
Definition clients_of (fleet : Fleet) (members : gset (list N))
    (elsewhere : list (Uid * gmap string string)) : list (Uid * gmap string string) :=
  omap (λ uid,
    r ← fleet !! uid;
    if is_client_agent (r_description r) then Some (uid, r_labels r) else None) (elements members)
  ++ elsewhere.

(** What the Client Agents of its group make of a member's placement. *)
Definition inherit_from (clients : list (Uid * gmap string string)) (uid : Uid) (p : Placement)
    : Placement :=
  match clients with
  | [(one, labels)] =>
      mkPlacement (host_values p) (group p) (Some one)
        (if bool_decide (one = uid) then ∅ else labels) false
  | _ => mkPlacement (host_values p) (group p) None ∅ (1 <? length clients)%nat
  end.

Definition inherit (fleet : Fleet) (groups : Groups) (g : Group)
    (elsewhere : list (Uid * gmap string string)) : Fleet :=
  match groups !! g with
  | None => fleet
  | Some members =>
      let clients := clients_of fleet members elsewhere in
      map_imap (λ uid r, Some (if bool_decide (uid ∈ members)
                               then with_placement (inherit_from clients uid (r_placement r)) r
                               else r)) fleet
  end.

Section Place.
(** The host register, when there is one, and the Client Agents of a group that the fleet does not
    hold, as a shared store answers them. *)
Context (register : option (gmap string HostMark)).
Context (elsewhere : Fleet → Group → list (Uid * gmap string string)).

Definition locate (r : AgentRecord) : gmap string string * option Group :=
  match r_host r, register with
  | Some host, Some hosts =>
      let (gw, subject) := placement hosts host in
      if gw : bool then (∅, (λ machine, GroupBehind host machine) <$> machine (r_description r))
      else (subject_attributes subject, Some (GroupHost host))
  | _, _ => (∅, None)
  end.

Definition inherit_held (fleet : Fleet) (groups : Groups) (g : Group) : Fleet :=
  inherit fleet groups g (elsewhere fleet g).

(** [locate_all]: each Agent under its own place, and the index of the groups. *)
Definition located (r : AgentRecord) : AgentRecord :=
  with_placement (mkPlacement (locate r).1 (locate r).2 None ∅ false) r.

Definition index_all (fleet : Fleet) (groups : Groups) : Groups :=
  foldr (λ ur groups, match (locate ur.2).2 with
                      | Some g => index groups g ur.1
                      | None => groups
                      end) groups (map_to_list fleet).

Definition place_all (fleet : Fleet) : Fleet * Groups :=
  let groups := index_all fleet ∅ in
  (foldr (λ gm fleet, inherit_held fleet groups gm.1) (located <$> fleet) (map_to_list groups), groups).

(** [place]: one Agent, after what places it may have changed. *)
Definition place (uid : Uid) (fleet : Fleet) (groups : Groups) : Fleet * Groups :=
  match fleet !! uid with
  | None => (fleet, groups)
  | Some r =>
      let (values, joined) := locate r in
      let left := group (r_placement r) in
      let p := match joined with
               | None => mkPlacement values None None ∅ false
               | Some _ => mkPlacement values joined (client_agent (r_placement r))
                             (inherited_labels (r_placement r)) (ambiguous (r_placement r))
               end in
      let fleet := <[uid := with_placement p r]> fleet in
      let groups := match left with
                    | Some g => if bool_decide (left = joined) then groups else unindex groups g uid
                    | None => groups
                    end in
      let '(fleet, groups) :=
        match joined with
        | Some g => let groups := index groups g uid in (inherit_held fleet groups g, groups)
        | None => (fleet, groups)
        end in
      match left with
      | Some g => if bool_decide (left = joined) then (fleet, groups)
                  else (inherit_held fleet groups g, groups)
      | None => (fleet, groups)
      end
  end.

(** [unplace]: an Agent that has left the fleet leaves its group. *)
Definition unplace (uid : Uid) (g : option Group) (fleet : Fleet) (groups : Groups) : Fleet * Groups :=
  match g with
  | None => (fleet, groups)
  | Some g => let groups := unindex groups g uid in (inherit_held fleet groups g, groups)
  end.

(** [take_labels]. *)
Definition take_labels (uid : Uid) (labels : gmap string string) (fleet : Fleet) (groups : Groups)
    : Fleet :=
  match fleet !! uid with
  | None => fleet
  | Some r =>
      let fleet := <[uid := with_labels labels r]> fleet in
      match group (r_placement r) with
      | Some g => inherit_held fleet groups g
      | None => fleet
      end
  end.
End Place.

(** ** Placing changes placements alone *)

Definition unplaced (r : AgentRecord) : AgentRecord := with_placement placement_default r.

Lemma unplaced_with_placement p r : unplaced (with_placement p r) = unplaced r.
Proof. done. Qed.

Lemma inherit_unplaced f g gr els : unplaced <$> inherit f g gr els = unplaced <$> f.
Proof.
  unfold inherit. destruct (g !! gr); [|done]. apply map_eq. intros u. rewrite !lookup_fmap, map_lookup_imap.
  destruct (f !! u); [|done]. cbn. by case_bool_decide.
Qed.

Section Unplaced.
Context (register : option (gmap string HostMark)).
Context (elsewhere : Fleet → Group → list (Uid * gmap string string)).

Lemma place_unplaced uid f g : unplaced <$> (place register elsewhere uid f g).1 = unplaced <$> f.
Proof.
  unfold place. destruct (f !! uid) as [r|] eqn:Hr; [|done].
  destruct (locate register r) as [values joined].
  assert (Hi : ∀ p, unplaced <$> <[uid := with_placement p r]> f = unplaced <$> f).
  { intros p. rewrite fmap_insert. apply insert_id. by rewrite lookup_fmap, Hr. }
  unfold inherit_held.
  destruct joined as [j|], (group (r_placement r)) as [l|]; try case_bool_decide; cbn [fst];
    rewrite ?inherit_unplaced; apply Hi.
Qed.

Lemma unplace_unplaced uid gr f g : unplaced <$> (unplace elsewhere uid gr f g).1 = unplaced <$> f.
Proof. destruct gr; [apply inherit_unplaced|done]. Qed.
End Unplaced.

Lemma unplaced_lookup (f f' : Fleet) u :
  unplaced <$> f = unplaced <$> f' → unplaced <$> (f !! u) = unplaced <$> (f' !! u).
Proof. intros H. by rewrite <- !lookup_fmap, H. Qed.

Lemma unplaced_size (f f' : Fleet) : unplaced <$> f = unplaced <$> f' → base.size f = base.size f'.
Proof. intros H. by rewrite <- (map_size_fmap unplaced f), H, map_size_fmap. Qed.

(** ** Placing from scratch, as the reference *)

Section Reference.
Context (register : option (gmap string HostMark)).
Implicit Types F : Fleet.
Implicit Types G : Groups.
Implicit Types r : AgentRecord.

Notation locate := (locate register).
Notation alone := (λ (_ : Fleet) (_ : Group), @nil (list N * gmap string string)).
Notation inherits F G g := (inherit F G g []).

(** The Agents located in a group. *)
Definition members F (g : Group) : gset (list N) :=
  dom (filter (λ ur, (locate ur.2).2 = Some g) F).

(** What the Host and the group give one Agent. *)
Definition reference F (uid : Uid) r : Placement :=
  let p := mkPlacement (locate r).1 (locate r).2 None ∅ false in
  match (locate r).2 with
  | None => p
  | Some g => inherit_from (clients_of F (members F g) []) uid p
  end.

(** The index holds each group that has a member, with its members. *)
Definition indexed F G : Prop :=
  ∀ g, G !! g = if bool_decide (members F g = ∅) then None else Some (members F g).

(** The index is exact and every Agent is placed as the reference places it. *)
Definition placed F G : Prop :=
  indexed F G ∧ ∀ uid r, F !! uid = Some r → r_placement r = reference F uid r.

(** What placing reads of a record. *)
Definition core r : option string * option AgentDescription * gmap string string :=
  (r_host r, r_description r, r_labels r).

Lemma locate_core r r' : core r = core r' → locate r = locate r'.
Proof. unfold core, Placement.locate. intros [= -> -> _]. done. Qed.

Lemma core_lookup F F' uid :
  core <$> F = core <$> F' → core <$> (F !! uid) = core <$> (F' !! uid).
Proof. intros H. by rewrite <- !lookup_fmap, H. Qed.

Lemma elem_of_members F g uid :
  uid ∈ members F g ↔ ∃ r, F !! uid = Some r ∧ (locate r).2 = Some g.
Proof.
  unfold members. rewrite elem_of_dom. split.
  - intros [r [Hr Hg]%map_lookup_filter_Some]. eauto.
  - intros (r & Hr & Hg). exists r. by apply map_lookup_filter_Some.
Qed.

Lemma members_ext F F' g :
  (∀ uid r, F !! uid = Some r → (locate r).2 = Some g →
     ∃ r', F' !! uid = Some r' ∧ (locate r').2 = Some g) →
  (∀ uid r, F' !! uid = Some r → (locate r).2 = Some g →
     ∃ r', F !! uid = Some r' ∧ (locate r').2 = Some g) →
  members F g = members F' g.
Proof.
  intros H1 H2. apply set_eq. intros uid. rewrite !elem_of_members. naive_solver.
Qed.

Lemma clients_of_ext F F' ms :
  (∀ uid, uid ∈ ms → core <$> (F !! uid) = core <$> (F' !! uid)) →
  clients_of F ms [] = clients_of F' ms [].
Proof.
  intros H. unfold clients_of. f_equal.
  assert (Hl : ∀ uid, uid ∈ elements ms → core <$> (F !! uid) = core <$> (F' !! uid))
    by (intros uid; rewrite elem_of_elements; auto).
  induction (elements ms) as [|u l IH]; [done|]. cbn.
  rewrite IH by (intros; apply Hl; by right).
  specialize (Hl u (list_elem_of_here _ _)).
  destruct (F !! u) as [r|], (F' !! u) as [r'|]; try done. cbn in *.
  unfold core in Hl. injection Hl as _ Hd Hb. by rewrite Hd, Hb.
Qed.

(** The reference reads nothing but the cores of the members of the group. *)
Lemma reference_ext F F' uid r r' :
  core r = core r' →
  (∀ g, (locate r).2 = Some g → ∀ u, u ∈ members F g ∪ members F' g →
     core <$> (F !! u) = core <$> (F' !! u)) →
  reference F uid r = reference F' uid r'.
Proof.
  intros Hc H. unfold reference. rewrite (locate_core r' r) by done.
  destruct (locate r).2 as [g|] eqn:Hg; [|done]. specialize (H g eq_refl).
  assert (Hm : members F g = members F' g).
  { apply members_ext; intros u ru Hu Hgu;
      (assert (Hcu : core <$> (F !! u) = core <$> (F' !! u));
       [apply H; rewrite elem_of_union, !elem_of_members; eauto|]); rewrite Hu in Hcu.
    - destruct (F' !! u) as [ru'|]; [|done]. apply (inj Some) in Hcu.
      exists ru'. by rewrite <- (locate_core ru ru').
    - destruct (F !! u) as [ru'|]; [|done]. apply (inj Some) in Hcu.
      exists ru'. by rewrite (locate_core ru' ru). }
  rewrite <- Hm. f_equal. apply clients_of_ext. intros u Hu. apply H. set_solver.
Qed.

Lemma reference_cores F F' uid r : core <$> F = core <$> F' → reference F uid r = reference F' uid r.
Proof. intros H. apply reference_ext; [done|]. intros g _ u _. by apply core_lookup. Qed.

Lemma members_cores F F' g : core <$> F = core <$> F' → members F g = members F' g.
Proof.
  intros H. apply members_ext; intros u r Hu Hg; pose proof (core_lookup F F' u H) as Hc;
    rewrite Hu in Hc.
  - destruct (F' !! u) as [r'|]; [|done]. apply (inj Some) in Hc.
    exists r'. by rewrite <- (locate_core r r').
  - destruct (F !! u) as [r'|]; [|done]. apply (inj Some) in Hc.
    exists r'. by rewrite (locate_core r' r).
Qed.

Lemma indexed_cores F F' G : core <$> F = core <$> F' → indexed F G → indexed F' G.
Proof. intros H HG g. by rewrite (HG g), (members_cores F F'). Qed.

(** An Agent under its own place: all but what its group adds. *)
Definition sited r : Prop :=
  host_values (r_placement r) = (locate r).1 ∧ group (r_placement r) = (locate r).2.

Lemma inherit_from_place clients uid p :
  host_values (inherit_from clients uid p) = host_values p ∧
  group (inherit_from clients uid p) = group p.
Proof. by destruct clients as [|[] []]. Qed.

Lemma inherit_from_ext clients uid p p' :
  host_values p = host_values p' → group p = group p' →
  inherit_from clients uid p = inherit_from clients uid p'.
Proof. intros H1 H2. by destruct clients as [|[] []]; cbn; rewrite H1, H2. Qed.

Lemma reference_sited F uid r : r_placement r = reference F uid r → sited r.
Proof.
  intros H. unfold sited, reference in *. destruct (locate r).2 as [g|] eqn:Hg; rewrite H; [|done].
  destruct (inherit_from_place (clients_of F (members F g) []) uid
    (mkPlacement (locate r).1 (Some g) None ∅ false)) as [-> ->]. done.
Qed.

Lemma inherit_lookup F G g u :
  inherits F G g !! u =
  (λ r, if bool_decide (u ∈ default ∅ (G !! g))
        then with_placement (inherit_from (clients_of F (default ∅ (G !! g)) []) u (r_placement r)) r
        else r) <$> (F !! u).
Proof.
  unfold inherit. destruct (G !! g) as [ms|]; cbn [default].
  - rewrite map_lookup_imap. by destruct (F !! u).
  - destruct (F !! u); cbn; [|done]. by rewrite bool_decide_false by set_solver.
Qed.

Lemma inherit_cores F G g : core <$> inherits F G g = core <$> F.
Proof.
  apply map_eq. intros u. rewrite !lookup_fmap, inherit_lookup.
  destruct (F !! u) as [r|]; [|done]. cbn. by case_bool_decide.
Qed.

(** The Agents of the groups [P] and the ones in no group are placed as the reference places them,
    and every Agent is under its own place. *)
Definition settled F (P : Group → Prop) : Prop :=
  ∀ uid r, F !! uid = Some r → sited r ∧
    match (locate r).2 with
    | Some g => P g → r_placement r = reference F uid r
    | None => r_placement r = reference F uid r
    end.

Lemma placed_settled F G : placed F G ↔ indexed F G ∧ settled F (λ _, True).
Proof.
  split; intros [HG H]; (split; [done|]); intros u r Hu.
  - split; [by apply (reference_sited F u), H|]. destruct (locate r).2; auto.
  - destruct (H u r Hu) as [_ Hr]. destruct (locate r).2; auto.
Qed.

Lemma settled_mono F (P Q : Group → Prop) : (∀ g, Q g → P g) → settled F P → settled F Q.
Proof.
  intros HPQ H u r Hu. destruct (H u r Hu) as [Hs Hr]. split; [done|].
  destruct (locate r).2; auto.
Qed.

Lemma indexed_default F G g : indexed F G → default ∅ (G !! g) = members F g.
Proof. intros HG. rewrite (HG g). case_bool_decide as Hm; [by rewrite Hm|done]. Qed.

(** [inherit] settles its group and disturbs no other. *)
Lemma inherit_settles F G P g :
  indexed F G → settled F P →
  indexed (inherits F G g) G ∧ settled (inherits F G g) (λ g', P g' ∨ g' = g).
Proof.
  intros HG HF. pose proof (inherit_cores F G g) as Hcore.
  split; [by apply (indexed_cores F)|]. intros u r' Hu. rewrite inherit_lookup in Hu.
  apply fmap_Some in Hu as (r & Hr & Hr'). destruct (HF u r Hr) as [Hs Hp].
  assert (Hc : core r' = core r) by (subst r'; by case_bool_decide).
  assert (Hloc : locate r' = locate r) by by apply locate_core.
  assert (Href : reference (inherits F G g) u r' = reference F u r).
  { rewrite (reference_cores _ F) by done. apply reference_ext; [done|]. done. }
  rewrite (indexed_default F G g HG) in Hr'. unfold sited. rewrite Hloc, Href. case_bool_decide as Hin.
  - apply elem_of_members in Hin as (r0 & Hr0 & Hg). rewrite Hr in Hr0. injection Hr0 as <-.
    destruct Hs as [Hv Hgr]. subst r'. cbn [r_placement with_placement].
    destruct (inherit_from_place (clients_of F (members F g) []) u (r_placement r)) as [-> ->].
    split; [done|]. rewrite Hg. intros _. unfold reference. rewrite Hg. by apply inherit_from_ext; cbn; rewrite ?Hv, ?Hgr.
  - subst r'. split; [done|]. destruct (locate r).2 as [g'|] eqn:Hg; [|done].
    intros [HP| ->]; [auto|]. destruct Hin. apply elem_of_members. eauto.
Qed.

(** The members of a group once one record is another's, or gone. *)
Lemma members_insert F uid r g :
  members (<[uid := r]> F) g =
  if bool_decide ((locate r).2 = Some g) then {[uid]} ∪ members F g else members F g ∖ {[uid]}.
Proof.
  apply set_eq. intros u. case_bool_decide as Hg; rewrite ?elem_of_union, ?elem_of_difference,
    elem_of_singleton, !elem_of_members; destruct (decide (u = uid)) as [->|Hne];
    rewrite ?lookup_insert_eq, ?lookup_insert_ne by done; naive_solver.
Qed.

Lemma members_delete F uid g : members (delete uid F) g = members F g ∖ {[uid]}.
Proof.
  apply set_eq. intros u. rewrite elem_of_difference, elem_of_singleton, !elem_of_members.
  destruct (decide (u = uid)) as [->|Hne];
    rewrite ?lookup_delete_eq, ?lookup_delete_ne by done; naive_solver.
Qed.

Lemma unindex_lookup G g uid g' :
  unindex G g uid !! g' =
  if bool_decide (g' = g) then
    ms ← G !! g; (if bool_decide (ms ∖ {[uid]} = ∅) then None else Some (ms ∖ {[uid]}))
  else G !! g'.
Proof.
  unfold unindex. case_bool_decide as Hg; [subst g'|].
  - destruct (G !! g) as [ms|] eqn:E; [|done]. cbn. case_bool_decide;
      [by rewrite lookup_delete_eq|by rewrite lookup_insert_eq].
  - destruct (G !! g); [|done]. case_bool_decide; by rewrite ?lookup_delete_ne, ?lookup_insert_ne.
Qed.

(** The group an Agent of the fleet is located in. *)
Definition group_in F (uid : Uid) : option Group := F !! uid ≫= λ r, (locate r).2.

Lemma members_without F uid g : group_in F uid ≠ Some g → members F g ∖ {[uid]} = members F g.
Proof.
  intros H. apply set_eq. intros u. rewrite elem_of_difference, elem_of_singleton, elem_of_members.
  split; [naive_solver|]. intros (r & Hr & Hg). split; [eauto|]. intros ->. apply H.
  unfold group_in. by rewrite Hr.
Qed.

Definition nonempty_set (ms : gset (list N)) : option (gset (list N)) :=
  if bool_decide (ms = ∅) then None else Some ms.

Lemma unindex_indexed F G g uid g' :
  indexed F G →
  unindex G g uid !! g' =
  if bool_decide (g' = g) then nonempty_set (members F g ∖ {[uid]}) else G !! g'.
Proof.
  intros HG. rewrite unindex_lookup. case_bool_decide as Hg; [|done]. rewrite (HG g).
  case_bool_decide as Hm; [|done]. rewrite Hm. cbn. unfold nonempty_set.
  by rewrite bool_decide_true by set_solver.
Qed.

Lemma index_lookup G g uid g' :
  index G g uid !! g' =
  if bool_decide (g' = g) then Some ({[uid]} ∪ default ∅ (G !! g)) else G !! g'.
Proof.
  unfold index. case_bool_decide as Hg; [subst|]; by rewrite ?lookup_insert_eq, ?lookup_insert_ne.
Qed.

(** The index after one Agent's place changed. *)
Definition reindex (left joined : option Group) (uid : Uid) G : Groups :=
  let G := match left with
           | Some g => if bool_decide (left = joined) then G else unindex G g uid
           | None => G
           end in
  match joined with
  | Some g => index G g uid
  | None => G
  end.

Lemma reindex_indexed F G uid r :
  indexed F G → indexed (<[uid := r]> F) (reindex (group_in F uid) (locate r).2 uid G).
Proof.
  intros HG g'. rewrite members_insert. unfold reindex.
  set (left := group_in F uid). set (joined := (locate r).2).
  assert (H1 : ∀ g, match left with
                   | Some g0 => if bool_decide (left = joined) then G else unindex G g0 uid
                   | None => G
                   end !! g
             = if bool_decide (left = Some g ∧ left ≠ joined)
               then nonempty_set (members F g ∖ {[uid]}) else G !! g).
  { intros g. destruct left as [g0|] eqn:El; cycle 1.
    { by rewrite bool_decide_false by naive_solver. }
    destruct (decide (Some g0 = joined)) as [Hj|Hj].
    - rewrite (bool_decide_true _ Hj), bool_decide_false by naive_solver. done.
    - rewrite (bool_decide_false _ Hj), (unindex_indexed F) by done.
      destruct (decide (g = g0)) as [->|Hne].
      + by rewrite !bool_decide_true by done.
      + by rewrite !bool_decide_false by naive_solver. }
  assert (H2 : G !! g' = nonempty_set (members F g')) by apply HG.
  destruct joined as [gj|] eqn:Ej.
  - rewrite index_lookup, !H1. destruct (decide (g' = gj)) as [->|Hne].
    + rewrite (bool_decide_true (gj = gj)), (bool_decide_true (Some gj = Some gj)) by done.
      rewrite (bool_decide_false (_ ∧ _)) by naive_solver.
      rewrite bool_decide_false by set_solver. do 2 f_equal. by apply indexed_default.
    + rewrite !(bool_decide_false (_ = gj)), (bool_decide_false (Some gj = Some g')) by congruence.
      fold (nonempty_set (members F g' ∖ {[uid]})).
      destruct (decide (left = Some g' ∧ left ≠ Some gj)) as [Hl|Hl];
        [by rewrite (bool_decide_true _ Hl)|].
      rewrite (bool_decide_false _ Hl), H2, members_without; [done|]. fold left. naive_solver.
  - rewrite H1, (bool_decide_false (None = Some g')) by done.
    fold (nonempty_set (members F g' ∖ {[uid]})).
    destruct (decide (left = Some g' ∧ left ≠ None)) as [Hl|Hl]; [by rewrite (bool_decide_true _ Hl)|].
    rewrite (bool_decide_false _ Hl), H2, members_without; [done|]. fold left. naive_solver.
Qed.

(** One record's change settles nothing in the groups it left and joined, and disturbs no other. *)
Lemma insert_settled F uid r :
  settled F (λ _, True) → sited r →
  ((locate r).2 = None → r_placement r = mkPlacement (locate r).1 None None ∅ false) →
  settled (<[uid := r]> F) (λ g, Some g ≠ group_in F uid ∧ Some g ≠ (locate r).2).
Proof.
  intros HF Hs Hnone u ru Hu. destruct (decide (u = uid)) as [->|Hne].
  - rewrite lookup_insert_eq in Hu. injection Hu as <-. split; [done|].
    destruct (locate r).2 as [g|] eqn:Hg; [by intros []|]. rewrite Hnone by done.
    unfold reference. by rewrite Hg.
  - rewrite lookup_insert_ne in Hu by done. destruct (HF u ru Hu) as [Hsu Hp]. split; [done|].
    destruct (locate ru).2 as [g|] eqn:Hg.
    + intros [Hl Hj]. rewrite Hp by done. apply reference_ext; [done|]. rewrite Hg.
      intros g' [= <-] u' Hu'. rewrite members_insert, bool_decide_false in Hu' by congruence.
      rewrite members_without in Hu' by congruence.
      destruct (decide (u' = uid)) as [->|Hne']; [|by rewrite lookup_insert_ne].
      exfalso. assert (Hin : uid ∈ members F g) by set_solver.
      apply elem_of_members in Hin as (r0 & Hr0 & Hg0). apply Hl. unfold group_in. by rewrite Hr0.
    + rewrite Hp. unfold reference. by rewrite Hg.
Qed.

(** [place], after what places one Agent changed; the Agent may be new. *)
Lemma place_placed F G (uid : Uid) r :
  placed F G → r_placement r = from_option r_placement placement_default (F !! uid) →
  placed (place register alone uid (<[uid := r]> F) G).1 (place register alone uid (<[uid := r]> F) G).2.
Proof.
  intros HFG Hpl. pose proof HFG as [HG HF]%placed_settled.
  assert (Hleft : group (r_placement r) = group_in F uid).
  { rewrite Hpl. unfold group_in. destruct (F !! uid) as [r0|] eqn:E; [|done]. cbn.
    by destruct (HF uid r0 E) as [[_ ->] _]. }
  unfold place. rewrite lookup_insert_eq.
  destruct (locate r) as [values joined] eqn:El. cbv zeta. rewrite !insert_insert_eq.
  set (p := match joined with
            | Some _ => mkPlacement values joined (client_agent (r_placement r))
                          (inherited_labels (r_placement r)) (ambiguous (r_placement r))
            | None => mkPlacement values None None ∅ false
            end).
  set (r' := with_placement p r).
  assert (Hloc : locate r' = (values, joined)) by (rewrite <- El; by apply locate_core).
  assert (Hs : settled (<[uid := r']> F) (λ g, Some g ≠ group_in F uid ∧ Some g ≠ joined)).
  { pose proof (insert_settled F uid r' HF) as H. rewrite Hloc in H. apply H.
    - unfold sited. rewrite Hloc. subst p r'. by destruct joined.
    - cbn. intros ->. done. }
  assert (Hi : indexed (<[uid := r']> F) (reindex (group_in F uid) joined uid G)).
  { pose proof (reindex_indexed F G uid r' HG) as H. by rewrite Hloc in H. }
  rewrite Hleft. set (left := group_in F uid) in *. unfold inherit_held.
  assert (Hdone : ∀ F' P, indexed F' (reindex left joined uid G) → settled F' P → (∀ g, P g) →
                    placed F' (reindex left joined uid G)).
  { intros F' P H1 H2 H3. apply placed_settled. split; [done|]. eapply settled_mono; [|done]. auto. }
  unfold reindex in *. destruct joined as [gj|].
  - destruct (inherit_settles _ _ _ gj Hi Hs) as [Hi1 Hs1]. destruct left as [gl|].
    + case_bool_decide as Hlj; cbn [fst snd].
      * eapply Hdone; [done|exact Hs1|]. intros g. destruct (decide (g = gj)); naive_solver.
      * destruct (inherit_settles _ _ _ gl Hi1 Hs1) as [Hi2 Hs2].
        eapply Hdone; [done|exact Hs2|]. intros g. cbn.
        destruct (decide (g = gj)), (decide (g = gl)); naive_solver.
    + eapply Hdone; [done|exact Hs1|]. intros g. cbn. destruct (decide (g = gj)); naive_solver.
  - destruct left as [gl|].
    + rewrite (bool_decide_false (Some gl = None)) in * by done.
      destruct (inherit_settles _ _ _ gl Hi Hs) as [Hi2 Hs2].
      eapply Hdone; [done|exact Hs2|]. intros g. cbn. destruct (decide (g = gl)); naive_solver.
    + eapply Hdone; [done|exact Hs|]. naive_solver.
Qed.

(** [unplace], once the Agent is gone. *)
Lemma unplace_placed F G uid r :
  placed F G → F !! uid = Some r →
  placed (unplace alone uid (group (r_placement r)) (delete uid F) G).1
    (unplace alone uid (group (r_placement r)) (delete uid F) G).2.
Proof.
  intros HFG Hr. pose proof HFG as [HG HF]%placed_settled.
  assert (Hleft : group (r_placement r) = group_in F uid).
  { unfold group_in. rewrite Hr. by destruct (HF uid r Hr) as [[_ ->] _]. }
  rewrite Hleft. set (left := group_in F uid) in *.
  set (G' := match left with Some g => unindex G g uid | None => G end).
  assert (Hi : indexed (delete uid F) G').
  { intros g. rewrite members_delete. fold (nonempty_set (members F g ∖ {[uid]})). subst G'.
    destruct (decide (left = Some g)) as [Hg|Hg].
    - rewrite Hg, (unindex_indexed F) by done. by rewrite bool_decide_true.
    - assert (E : match left with Some g => unindex G g uid | None => G end !! g = G !! g).
      { destruct left as [gl|]; [|done]. rewrite (unindex_indexed F) by done.
        by rewrite bool_decide_false by congruence. }
      rewrite E, members_without by done. apply HG. }
  assert (Hs : settled (delete uid F) (λ g, Some g ≠ left)).
  { intros u ru [Hne Hu]%lookup_delete_Some. destruct (HF u ru Hu) as [Hsu Hp]. split; [done|].
    destruct (locate ru).2 as [g|] eqn:Hg; [|rewrite Hp; unfold reference; by rewrite Hg].
    intros Hl. rewrite Hp by done. apply reference_ext; [done|]. rewrite Hg. intros g' [= <-] u' Hu'.
    rewrite members_delete, members_without in Hu' by (fold left; congruence).
    destruct (decide (u' = uid)) as [->|Hne']; [|by rewrite lookup_delete_ne].
    exfalso. assert (Hin : uid ∈ members F g) by set_solver.
    apply elem_of_members in Hin as (r0 & Hr0 & Hg0). apply Hl. unfold left, group_in. by rewrite Hr0. }
  unfold unplace, inherit_held. destruct left as [gl|]; cbn [fst snd]; apply placed_settled.
  - destruct (inherit_settles _ _ _ gl Hi Hs) as [Hi1 Hs1]. split; [done|].
    eapply settled_mono; [|exact Hs1]. intros g _. cbn. destruct (decide (g = gl)); naive_solver.
  - split; [done|]. eapply settled_mono; [|exact Hs]. done.
Qed.

(** [take_labels]. *)
Lemma take_labels_placed F G uid labels :
  placed F G → placed (take_labels alone uid labels F G) G.
Proof.
  intros HFG. pose proof HFG as [HG HF]%placed_settled. unfold take_labels.
  destruct (F !! uid) as [r|] eqn:Hr; [|done]. destruct (HF uid r Hr) as [Hs Hp].
  set (r' := with_labels labels r). assert (Hloc : locate r' = locate r) by done.
  assert (Hleft : group_in F uid = (locate r).2) by (unfold group_in; by rewrite Hr).
  assert (Hi : indexed (<[uid := r']> F) G).
  { intros g. rewrite members_insert, Hloc, <- Hleft. fold (nonempty_set (members F g)).
    destruct (decide (group_in F uid = Some g)) as [Hg|Hg].
    - rewrite (bool_decide_true (group_in F uid = Some g)) by done.
      assert (uid ∈ members F g) by (apply elem_of_members; rewrite Hleft in Hg; eauto).
      rewrite (subseteq_union_1_L {[uid]} (members F g)) by set_solver. apply HG.
    - rewrite (bool_decide_false (group_in F uid = Some g)), members_without by done. apply HG. }
  assert (Hset : settled (<[uid := r']> F) (λ g, Some g ≠ (locate r).2)).
  { eapply settled_mono; [|apply (insert_settled F uid r' HF)].
    - cbn. rewrite Hloc, Hleft. naive_solver.
    - exact Hs.
    - rewrite Hloc. intros Hn. rewrite Hn in Hp. change (r_placement r') with (r_placement r).
      rewrite Hp. unfold reference. by rewrite Hn. }
  destruct Hs as [_ ->]. unfold inherit_held. apply placed_settled.
  destruct (locate r).2 as [g|] eqn:Hg.
  - destruct (inherit_settles _ _ _ g Hi Hset) as [Hi1 Hs1]. split; [done|].
    eapply settled_mono; [|exact Hs1]. intros g' _. cbn. destruct (decide (g' = g)); naive_solver.
  - split; [done|]. eapply settled_mono; [|exact Hset]. done.
Qed.

Lemma index_all_lookup l g :
  foldr (λ ur G, match (locate ur.2).2 with Some g => index G g ur.1 | None => G end) ∅ l !! g
  = nonempty_set (list_to_set (omap (λ ur, if bool_decide ((locate ur.2).2 = Some g)
                                          then Some ur.1 else None) l)).
Proof.
  induction l as [|[u r] l IH].
  { cbn. unfold nonempty_set. rewrite bool_decide_true by done. apply lookup_empty. }
  cbn [foldr omap list_omap fst snd]. destruct (locate r).2 as [g'|].
  - rewrite index_lookup. destruct (decide (g = g')) as [->|Hne].
    + rewrite !bool_decide_true, IH by done. cbn [list_to_set]. unfold nonempty_set at 2.
      rewrite bool_decide_false by set_solver. do 2 f_equal. unfold nonempty_set.
      case_bool_decide as He; [by rewrite He|done].
    + by rewrite !bool_decide_false, IH by congruence.
  - by rewrite bool_decide_false, IH by done.
Qed.

Lemma index_all_indexed F : indexed F (index_all register F ∅).
Proof.
  intros g. unfold index_all. rewrite index_all_lookup. unfold nonempty_set.
  assert (E : list_to_set (omap (λ ur, if bool_decide ((locate ur.2).2 = Some g) then Some ur.1 else None)
            (map_to_list F)) = members F g); [|by rewrite E].
  apply set_eq. intros u. rewrite elem_of_list_to_set, list_elem_of_omap, elem_of_members. split.
  - intros ([u' r] & Hin & Hg). apply elem_of_map_to_list in Hin. case_bool_decide as H; [|done].
    cbn in *. simplify_eq. eauto.
  - intros (r & Hr & Hg). exists (u, r). rewrite elem_of_map_to_list. split; [done|].
    by rewrite bool_decide_true.
Qed.

Lemma located_cores F : core <$> (located register <$> F) = core <$> F.
Proof. rewrite <- map_fmap_compose. by apply map_fmap_ext. Qed.

Lemma inherit_each_settles F G (l : list (Group * gset (list N))) :
  indexed F G → settled F (λ _, False) →
  let F' := foldr (λ gm F, inherit_held alone F G gm.1) F l in
  indexed F' G ∧ settled F' (λ g, g ∈ l.*1).
Proof.
  intros HG HF. induction l as [|[g ms] l [IH1 IH2]]; cbn [foldr fmap list_fmap].
  - split; [done|]. eapply settled_mono; [|done]. by intros g ?%elem_of_nil.
  - destruct (inherit_settles _ _ _ g IH1 IH2) as [H1 H2]. split; [done|].
    eapply settled_mono; [|exact H2]. cbn. intros g' [->|]%elem_of_cons; auto.
Qed.

(** [place_all] places every Agent as the reference does. *)
Lemma place_all_placed F : placed (place_all register alone F).1 (place_all register alone F).2.
Proof.
  unfold place_all. cbn [fst snd]. set (G := index_all register F ∅).
  assert (HG : indexed (located register <$> F) G).
  { apply (indexed_cores F); [by rewrite located_cores|]. apply index_all_indexed. }
  destruct (inherit_each_settles (located register <$> F) G (map_to_list G) HG) as [H1 H2].
  { intros u r Hu. apply lookup_fmap_Some in Hu as (r0 & <- & Hr0). split; [done|].
    unfold reference. change (locate (located register r0)) with (locate r0).
    by destruct (locate r0).2 eqn:E; [|cbn; rewrite E]. }
  split; [done|]. intros u r Hu. destruct (H2 u r Hu) as [_ Hp].
  destruct (locate r).2 as [g|] eqn:Hg; [|done]. apply Hp.
  assert (Hm : u ∈ members (foldr (λ gm F, inherit_held alone F G gm.1) (located register <$> F)
    (map_to_list G)) g) by (apply elem_of_members; eauto).
  pose proof (H1 g) as HGg. rewrite bool_decide_false in HGg by set_solver.
  apply list_elem_of_fmap. eexists (g, _). split; [done|]. by apply elem_of_map_to_list.
Qed.

(** A record without its placement. *)
Definition strip r : AgentRecord := with_placement placement_default r.

Lemma strip_core r r' : strip r = strip r' → core r = core r'.
Proof. unfold strip, core. intros H. injection H. intros. congruence. Qed.

Lemma strip_placement r r' : strip r = strip r' → r_placement r = r_placement r' → r = r'.
Proof. destruct r, r'. unfold strip. cbn. intros [=] ->. by subst. Qed.

Lemma strip_cores F F' : strip <$> F = strip <$> F' → core <$> F = core <$> F'.
Proof.
  intros H. apply map_eq. intros u. apply (f_equal (λ m, m !! u)) in H. rewrite !lookup_fmap in H.
  rewrite !lookup_fmap. destruct (F !! u), (F' !! u); try done. cbn in *.
  apply (inj Some) in H. by rewrite (strip_core _ _ H).
Qed.

(** The reference leaves nothing open. *)
Lemma placed_unique F G F' G' :
  placed F G → placed F' G' → strip <$> F = strip <$> F' → F = F' ∧ G = G'.
Proof.
  intros [HG HF] [HG' HF'] H. pose proof (strip_cores _ _ H) as Hc. split.
  - apply map_eq. intros u. pose proof (f_equal (λ m, m !! u) H) as Hu. rewrite !lookup_fmap in Hu.
    destruct (F !! u) as [r|] eqn:E, (F' !! u) as [r'|] eqn:E'; try done. apply (inj Some) in Hu.
    f_equal. apply strip_placement; [done|]. rewrite (HF u r E), (HF' u r' E').
    rewrite (reference_cores F F' u r) by done. apply reference_ext; [by apply strip_core|]. done.
  - apply map_eq. intros g. by rewrite (HG g), (HG' g), (members_cores F F').
Qed.

Lemma inherit_strip F G g : strip <$> inherits F G g = strip <$> F.
Proof.
  apply map_eq. intros u. rewrite !lookup_fmap, inherit_lookup.
  destruct (F !! u) as [r|]; [|done]. cbn. by case_bool_decide.
Qed.

Lemma place_all_strip F : strip <$> (place_all register alone F).1 = strip <$> F.
Proof.
  unfold place_all. cbn [fst]. generalize (map_to_list (index_all register F ∅)) as l.
  generalize (index_all register F ∅) as G. intros G l. induction l as [|[g ms] l IH]; cbn [foldr].
  - rewrite <- map_fmap_compose. by apply map_fmap_ext.
  - unfold inherit_held. by rewrite inherit_strip.
Qed.

Lemma place_strip uid F G : strip <$> (place register alone uid F G).1 = strip <$> F.
Proof.
  unfold place. destruct (F !! uid) as [r|] eqn:E; [|done].
  destruct (locate r) as [values joined]. cbv zeta.
  set (p := match joined with Some _ => mkPlacement _ _ _ _ _ | None => _ end).
  assert (H : strip <$> <[uid := with_placement p r]> F = strip <$> F).
  { rewrite fmap_insert. change (strip (with_placement p r)) with (strip r).
    apply insert_id. by rewrite lookup_fmap, E. }
  unfold inherit_held. destruct joined, (group (r_placement r));
    repeat (case_bool_decide); cbn [fst]; by rewrite ?inherit_strip.
Qed.

(** What moves an Agent between places: a report that changed its record, its departure, its
    labels. *)
Inductive PlacingAct :=
| Reported (uid : Uid) (r : AgentRecord)
| Forgotten (uid : Uid)
| Labelled (uid : Uid) (labels : gmap string string).

(** A report is taken into the record held, its placement with it, or into a new one. *)
Definition act_ok (act : PlacingAct) F : Prop :=
  match act with
  | Reported uid r => r_placement r = from_option r_placement placement_default (F !! uid)
  | _ => True
  end.

(** The fleet with the change, before anything is placed again. *)
Definition changed (act : PlacingAct) F : Fleet :=
  match act with
  | Reported uid r => <[uid := r]> F
  | Forgotten uid => delete uid F
  | Labelled uid labels => alter (with_labels labels) uid F
  end.

(** What the code does about it. *)
Definition placed_again (act : PlacingAct) F G : Fleet * Groups :=
  match act with
  | Reported uid r => place register alone uid (<[uid := r]> F) G
  | Forgotten uid => unplace alone uid (F !! uid ≫= λ r, group (r_placement r)) (delete uid F) G
  | Labelled uid labels => (take_labels alone uid labels F G, G)
  end.

Lemma placed_again_placed act F G :
  placed F G → act_ok act F → placed (placed_again act F G).1 (placed_again act F G).2.
Proof.
  intros H Hok. destruct act as [uid r|uid|uid labels]; cbn [placed_again fst snd].
  - by apply place_placed.
  - destruct (F !! uid) as [r|] eqn:E; cbn [mbind option_bind]; [by apply unplace_placed|].
    cbn. by rewrite delete_id.
  - by apply take_labels_placed.
Qed.

Lemma placed_again_strip act F G : strip <$> (placed_again act F G).1 = strip <$> changed act F.
Proof.
  destruct act as [uid r|uid|uid labels]; cbn [placed_again changed fst].
  - apply place_strip.
  - unfold unplace, inherit_held. destruct (F !! uid ≫= _); cbn [fst]; [apply inherit_strip|done].
  - unfold take_labels, inherit_held. destruct (F !! uid) as [r|] eqn:E.
    + assert (alter (with_labels labels) uid F = <[uid := with_labels labels r]> F) as ->.
      { apply map_eq. intros u. destruct (decide (u = uid)) as [->|Hne].
        - by rewrite lookup_alter_eq, lookup_insert_eq, E.
        - by rewrite lookup_alter_ne, lookup_insert_ne. }
      destruct (group (r_placement r)); [apply inherit_strip|done].
    + by rewrite alter_id by (intros; congruence).
Qed.

(** C33: placing one Agent again is placing them all: where the Server alone writes its store, after
    a report changed what places an Agent, after an Agent was forgotten, and after its labels were
    set, what the Server does about its group alone leaves the fleet and the index of the groups
    exactly as placing every Agent from scratch does — the Host's values, the Client Agent of the
    group, the labels it hands on, and whether the group is ambiguous. *)
Theorem placing_is_incremental (act : PlacingAct) F G :
  placed F G → act_ok act F → placed_again act F G = place_all register alone (changed act F).
Proof.
  intros H Hok. pose proof (placed_again_placed act F G H Hok) as H1.
  pose proof (place_all_placed (changed act F)) as H2.
  destruct (placed_unique _ _ _ _ H1 H2) as [E1 E2].
  - by rewrite placed_again_strip, place_all_strip.
  - destruct (placed_again act F G), (place_all register alone (changed act F)). cbn in *. by subst.
Qed.
End Reference.

(** Two Agents of one Host, the second the Client Agent with a label. *)
Definition sample_record (kind : list KeyValue) (labels : gmap string string) : AgentRecord :=
  mkRecord 0 0 (Some (mkDescription [] kind)) None None None Http true 0 false None None None None
    None true labels (Some "h1") placement_default None.

Definition sample_register : option (gmap string HostMark) :=
  Some {["h1" := mkHostMark false (mkSubject "CH" "" "" "" "" "")]}.

Definition sample_fleet : gmap (list N) AgentRecord :=
  <[[2%N] := sample_record [string_attr "supervisor.kind.otelcol" "1"] {["team" := "edge"]}]>
    {[[1%N] := sample_record [] ∅]}.

Lemma placing_is_incremental_witness :
  let placed_fleet := place_all sample_register (λ _ _, []) sample_fleet in
  let after := placed_again sample_register (Labelled [2%N] {["team" := "core"]})
                 placed_fleet.1 placed_fleet.2 in
  after = place_all sample_register (λ _ _, []) (changed (Labelled [2%N] {["team" := "core"]})
            placed_fleet.1) ∧
  (inherited_labels ∘ r_placement <$> (after.1 !! [1%N])) = Some {["team" := "core"]}.
Proof.
  intros placed_fleet after. split.
  - apply (placing_is_incremental sample_register (Labelled [2%N] {["team" := "core"]})
      placed_fleet.1 placed_fleet.2); [apply place_all_placed|exact I].
  - vm_compute. reflexivity.
Defined.
