(* ===== verification/Revocation.v ===== *)
(** * What the Server signed, and what it no longer trusts

    [fleet-server/src/revocation.rs]: the register of the certificates the client CA signed, the
    revocation list, and the Hosts the certificates name with the Agents each speaks for. The store
    behind them is a port ([LedgerStore]), the clock an argument, the hash a parameter. A refusal is
    the data its text is formatted from. *)

From S2P Require Import Prelude RustStr Proto Placement.

Open Scope string_scope.
Open Scope list_scope.

(** ** Certificates *)

Record CertId := mkCertId {
  issuer : string;
  serial : string;
}.

#[export] Instance CertId_eq_dec : EqDecision CertId.
Proof. solve_decision. Defined.
#[export] Instance CertId_countable : Countable CertId.
Proof.
  refine (inj_countable' (λ c, (issuer c, serial c)) (λ p, mkCertId p.1 p.2) _). by intros [].
Defined.

(** The derived [Ord]: by issuer, then by serial. *)
Definition cert_le (x y : CertId) : Prop :=
  issuer x = issuer y ∧ String.le (serial x) (serial y) ∨
  issuer x ≠ issuer y ∧ String.le (issuer x) (issuer y).

#[export] Instance cert_le_dec : RelDecision cert_le.
Proof. intros x y. unfold cert_le. apply _. Defined.

Record Authority := mkAuthority {
  role : string;
  authority_subject : string;
  authority_name : string;
}.

#[export] Instance SubjectValues_eq_dec : EqDecision SubjectValues.
Proof. solve_decision. Defined.

Record Facts := mkFacts {
  cert_id : CertId;
  issuer_name : string;
  cert_subject : string;
  key_fingerprint : string;
  not_after_ms : N;
  cert_host : option string;
  subject_values : SubjectValues;
}.

Record Issued := mkIssued {
  facts : Facts;
  issued_uid : string;
  predecessor : option CertId;
  issued_ms : N;
}.

(** [Revoked::Certificate]. *)
Record Revoked := mkRevoked {
  revoked_authority : string;
  issuers : list string;
  revoked_serial : string;
}.

Record Revocation := mkRevocation {
  revocation_id : string;
  what_revoked : Revoked;
  revoked_ms : N;
}.

#[export] Instance Revoked_eq_dec : EqDecision Revoked.
Proof. solve_decision. Defined.
#[export] Instance Revocation_eq_dec : EqDecision Revocation.
Proof. solve_decision. Defined.

Record Presented := mkPresented {
  presented_id : CertId;
  presented_host : option string;
  presented_subject : SubjectValues;
  presented_not_after_ms : N;
}.

(** ** Hosts *)

Record Host := mkHost {
  is_marked : bool;
  instance_uids : gset string;
  host_subject : SubjectValues;
  approved_ms : option N;
  valid_until_ms : option N;
}.

Definition host_default : Host := mkHost false ∅ subject_default None None.

Definition with_uids (f : gset string → gset string) (h : Host) : Host :=
  mkHost (is_marked h) (f (instance_uids h)) (host_subject h) (approved_ms h) (valid_until_ms h).

Definition with_mark (b : bool) (h : Host) : Host :=
  mkHost b (instance_uids h) (host_subject h) (approved_ms h) (valid_until_ms h).

(** [Option<u64>]'s order puts [None] first. *)
Definition covers (until : option N) (not_after : N) : bool :=
  match until with Some t => (not_after <=? t)%N | None => false end.

(** [Host::extend]: never back. *)
Definition extend (not_after : N) (h : Host) : Host * bool :=
  if covers (valid_until_ms h) not_after then (h, false)
  else (mkHost (is_marked h) (instance_uids h) (host_subject h) (approved_ms h) (Some not_after), true).

Definition MAX_REVOCATIONS : N := 100000.
Definition MAX_ISSUED : N := 100000.
Definition MAX_DESCENDANTS_PER_ROOT : N := 10000.
Definition ENROLMENT_RESERVE : N := 1000.
Definition MAX_PER_HOST : N := 3.
Definition MAX_UIDS_PER_HOST : N := 256.

(** ** Refusals and the port *)

Inductive LedgerError :=
| RegisterFull (held : nat)
| ChainFull
| RenewsRevoked
| BootstrapRevoked
| HostFull
| AnotherHost
| SpeaksForTooMany
| BoundElsewhere (uid host : string)
| LedgerFailed.

Inductive Bound := BoundTo | Taken (holder : string) | BoundGateway.

Inductive HostAct :=
| ActSeen (host : string) (entry : Host)
| ActExtended (untils : list (string * N))
| ActGateway (host : string) (marked : bool)
| ActForgotten (hosts : list string) (now_ms : N).

Record RegisterBounds := mkBounds {
  bound_size : N;
  per_root : N;
}.

Inductive Registered := IsRegistered | IsFull (why : LedgerError) | IsRevoked | IsBootstrapRevoked.

Inductive Added := IsAdded | IsPresent (held : Revocation) | IsWidened (wider : Revocation) | ListFull.

Record Ledger := mkLedger {
  ledger_issued : list Issued;
  ledger_revocations : list Revocation;
  ledger_hosts : gmap string Host;
  ledger_version : option N;
}.

Class LedgerStore (L : Type) := {
  ledger_load : Eff L LedgerError Ledger;
  remove_issued : CertId → Eff L LedgerError unit;
  register_minting :
    Issued → RegisterBounds → option (string * Host) → option CertId → Eff L LedgerError Registered;
  add_revocation : Revocation → N → Eff L LedgerError Added;
  remove_revocation : string → Eff L LedgerError bool;
  store_list_version : L → option N;
  ledger_bind : string → string → Eff L LedgerError Bound;
  bind_seen : string → string → Host → Eff L LedgerError Bound;
  unbind : string → Eff L LedgerError (option string);
  ledger_rebind : string → string → Eff L LedgerError (option (string * Bound));
  unbind_host : string → Eff L LedgerError unit;
  writes_hosts_by_act : bool;
  write_host_act : HostAct → Eff L LedgerError unit;
  ledger_save_hosts : gmap string Host → Eff L LedgerError unit;
}.

(** ** The state *)

Record State := mkState {
  issued : gmap CertId Issued;
  revocations : list Revocation;
  roots : gmap CertId CertId;
  descendants : gmap CertId nat;
  earliest_expiry_ms : N;
  hosts : gmap string Host;
  hosts_version : N;
  list_version : option N;
  owners : gmap string string;
  revoked_cache : option (gset CertId);
  acts : N;
}.

Definition set_cache (c : option (gset CertId)) (s : State) : State :=
  mkState (issued s) (revocations s) (roots s) (descendants s) (earliest_expiry_ms s) (hosts s)
    (hosts_version s) (list_version s) (owners s) c (acts s).

Definition set_hosts (h : gmap string Host) (o : gmap string string) (s : State) : State :=
  mkState (issued s) (revocations s) (roots s) (descendants s) (earliest_expiry_ms s) h
    (hosts_version s) (list_version s) o (revoked_cache s) (acts s).

Definition set_expiry (t : N) (s : State) : State :=
  mkState (issued s) (revocations s) (roots s) (descendants s) t (hosts s)
    (hosts_version s) (list_version s) (owners s) (revoked_cache s) (acts s).

Definition set_list (l : list Revocation) (v : option N) (c : option (gset CertId)) (s : State) : State :=
  mkState (issued s) l (roots s) (descendants s) (earliest_expiry_ms s) (hosts s)
    (hosts_version s) v (owners s) c (acts s).

Definition acted (s : State) : State :=
  mkState (issued s) (revocations s) (roots s) (descendants s) (earliest_expiry_ms s) (hosts s)
    (hosts_version s) (list_version s) (owners s) (revoked_cache s) (acts s + 1).

(** The certificates in the order of the register. *)
Definition register_keys (m : gmap CertId Issued) : list CertId :=
  merge_sort cert_le (elements (dom m)).

(** The certificate [id] renewed, where the register has [id]. *)
Definition renewed (m : gmap CertId Issued) (id : CertId) : option CertId := m !! id ≫= predecessor.

(** [named_in]. *)
Definition named_in (l : list Revocation) : gset CertId :=
  list_to_set (l ≫= λ e, (λ i, mkCertId i (revoked_serial (what_revoked e))) <$> issuers (what_revoked e)).

(** The inner loop of [resolve]: the chain walked from [current], and whether it is revoked. *)
Fixpoint resolve_walk (m : gmap CertId Issued) (named : gset CertId) (answered : gmap CertId bool)
    (rounds : nat) (current : option CertId) (path : list CertId) : list CertId * bool :=
  match rounds with
  | O => (path, false)
  | S rounds =>
      match current with
      | None => (path, false)
      | Some at_ =>
          match answered !! at_ with
          | Some known => (path, known)
          | None =>
              if bool_decide (at_ ∈ named) then (path, true)
              else resolve_walk m named answered rounds (renewed m at_) (path ++ [at_])
          end
      end
  end.

(** One round of the outer loop. *)
Definition resolve_one (m : gmap CertId Issued) (named : gset CertId) (answered : gmap CertId bool)
    (id : CertId) : gmap CertId bool :=
  let (path, found) := resolve_walk m named answered (S (base.size m)) (Some id) [] in
  foldl (λ answered a, <[a := found]> answered) answered path.

(** [State::resolve]: the certificates the list names and every register entry that renewed one. *)
Definition resolve (s : State) : gset CertId :=
  let named := named_in (revocations s) in
  if bool_decide (named = ∅) then named
  else
    let answered := foldl (resolve_one (issued s) named) ∅ (register_keys (issued s)) in
    named ∪ dom (filter (λ af : CertId * bool, af.2 = true) answered).

(** [State::revoked]: the set, built once after the list or the register changed. *)
Definition revoked (s : State) : gset CertId * State :=
  let c := match revoked_cache s with Some c => c | None => resolve s end in (c, set_cache (Some c) s).

(** [State::chain_root]. *)
Fixpoint chain_up (m : gmap CertId Issued) (rounds : nat) (current : CertId) : CertId :=
  match rounds with
  | O => current
  | S rounds =>
      match renewed m current with
      | None => current
      | Some p => chain_up m rounds p
      end
  end.

Definition chain_root (m : gmap CertId Issued) (id : CertId) : CertId := chain_up m (S (base.size m)) id.

(** [State::root_below]. *)
Definition root_below (s : State) (predecessor : option CertId) (id : CertId) : CertId :=
  match predecessor with
  | None => id
  | Some p => default p (roots s !! p)
  end.

Definition count_up (root : CertId) (d : gmap CertId nat) : gmap CertId nat :=
  <[root := S (default 0%nat (d !! root))]> d.

Definition count_down (root : CertId) (d : gmap CertId nat) : gmap CertId nat :=
  match d !! root with
  | None => d
  | Some n => if (n - 1 =? 0)%nat then delete root d else <[root := (n - 1)%nat]> d
  end.

(** [State::remove]. *)
Definition state_remove (id : CertId) (s : State) : State :=
  match issued s !! id with
  | None => s
  | Some _ =>
      mkState (delete id (issued s)) (revocations s) (delete id (roots s))
        (match roots s !! id with Some root => count_down root (descendants s) | None => descendants s end)
        (earliest_expiry_ms s) (hosts s) (hosts_version s) (list_version s) (owners s) None (acts s)
  end.

(** [State::insert]. *)
Definition state_insert (i : Issued) (s : State) : State :=
  let id := cert_id (facts i) in
  let s := state_remove id s in
  let cache :=
    match revoked_cache s, predecessor i with
    | Some c, Some p => if bool_decide (p ∈ c ∧ id ∉ c) then None else Some c
    | c, _ => c
    end in
  let root := root_below s (predecessor i) id in
  mkState (<[id := i]> (issued s)) (revocations s) (<[id := root]> (roots s))
    (count_up root (descendants s)) (N.min (earliest_expiry_ms s) (not_after_ms (facts i)))
    (hosts s) (hosts_version s) (list_version s) (owners s) cache (acts s).

(** [owners_of]. *)
Definition owners_of (h : gmap string Host) : gmap string string :=
  collect_map (btree_iter h ≫= λ he, (λ uid, (uid, he.1)) <$> btree_elements (instance_uids he.2)).

(** [State::take_up_register]. *)
Definition take_up_register (l : list Issued) (s : State) : State :=
  let m := foldl (λ m i, <[cert_id (facts i) := i]> m) ∅ l in
  let expiry := foldl (λ t i, N.min t (not_after_ms (facts i))) u64_max l in
  let expiry := foldl (λ t h, if is_marked h : bool then t else N.min t (default 0%N (valid_until_ms h)))
                  expiry (btree_values (hosts s)) in
  let s := mkState m (revocations s) ∅ ∅ expiry (hosts s) (hosts_version s) (list_version s)
             (owners s) None (acts s) in
  let '(r, d) := foldl (λ '(r, d) id, let root := chain_root m id in (<[id := root]> r, count_up root d))
                   (∅, ∅) (register_keys m) in
  mkState m (revocations s) r d (earliest_expiry_ms s) (hosts s) (hosts_version s) (list_version s)
    (owners s) None (acts s).

(** [State::loaded]. *)
Definition loaded (l : Ledger) : State :=
  take_up_register (ledger_issued l)
    (mkState ∅ (ledger_revocations l) ∅ ∅ u64_max (ledger_hosts l) 0 (ledger_version l)
       (owners_of (ledger_hosts l)) None 0).

(** [State::took_up_own_write]. *)
Definition own_write (written : option N) (held : option N) : option N :=
  if bool_decide (written = (λ v, (v + 1)%N) <$> held) then written else None.

(** ** The operations *)

(** [Revocations]: the store, and the state in memory. *)
Record Revocations (L : Type) := mkRevocations {
  ledger : L;
  trust : State;
  authorities : list Authority;
  hosts_written : N;
  changes : N;
}.
Arguments mkRevocations {L}.
Arguments ledger {L}.
Arguments trust {L}.
Arguments authorities {L}.
Arguments hosts_written {L}.
Arguments changes {L}.

(** What a certificate serial is known by, on the Server and on a Gateway. *)
Fixpoint trim_zeros (s : string) : string :=
  match s with
  | String c t => if ascii_eqb c "0" then trim_zeros t else s
  | EmptyString => EmptyString
  end.

Definition normalize_serial (s : string) : string :=
  let hex := map_bytes to_ascii_lowercase
               (filter_bytes (λ c, negb (ascii_eqb c ":" || ascii_eqb c " ")) s) in
  let trimmed := trim_zeros hex in
  if is_empty trimmed then "0" else trimmed.

Definition MAX_SERIAL_HEX : N := 40.

Definition is_ascii_hexdigit (c : ascii) : bool :=
  is_ascii_digit c || in_range 65 70 c || in_range 97 102 c.

Inductive RevokeError := NoAuthority | NotHexadecimal | SerialTooLong | ListIsFull | RevokeStore.

(** [widened]. *)
Definition widened (held entry : Revocation) : option Revocation :=
  let h := what_revoked held in
  match List.filter (λ i, negb (bool_decide (i ∈ issuers h))) (issuers (what_revoked entry)) with
  | [] => None
  | added => Some (mkRevocation (revocation_id held)
                     (mkRevoked (revoked_authority h) (issuers h ++ added) (revoked_serial h))
                     (revoked_ms held))
  end.

(** [add_to] and [remove_from]: what a store that is its only writer decides with. *)
Fixpoint replace_first (id : string) (e : Revocation) (l : list Revocation) : list Revocation :=
  match l with
  | [] => []
  | held :: l => if bool_decide (revocation_id held = id) then e :: l else held :: replace_first id e l
  end.

Definition find_revocation (id : string) (l : list Revocation) : option Revocation :=
  List.find (λ held, bool_decide (revocation_id held = id)) l.

Definition add_to (l : list Revocation) (entry : Revocation) (bound : N) : list Revocation * Added :=
  match find_revocation (revocation_id entry) l with
  | Some held =>
      match widened held entry with
      | Some wider => (replace_first (revocation_id entry) wider l, IsWidened wider)
      | None => (l, IsPresent held)
      end
  | None => if (bound <=? N.of_nat (length l))%N then (l, ListFull) else (l ++ [entry], IsAdded)
  end.

Definition without (id : string) (l : list Revocation) : list Revocation :=
  List.filter (λ e, negb (bool_decide (revocation_id e = id))) l.

Definition remove_from (l : list Revocation) (id : string) : list Revocation * bool :=
  (without id l, negb (length (without id l) =? length l)%nat).

(** A stable id: the same revocation twice is one entry. *)
Definition entry_id (hex_encode : list N → string) (sha256 : list N → list N) (w : Revoked) : string :=
  hex_encode (take 8 (sha256 (bytes_of
    ("certificate" +:+ String "010" (revoked_authority w +:+ String "010" (revoked_serial w)))))).

Section Operations.
Context {L : Type} `{!LedgerStore L}.
Context (hex_encode : list N → string) (sha256 : list N → list N).
Notation Reg := (Revocations L).

Definition on_state (f : State → State) (r : Reg) : Reg :=
  mkRevocations (ledger r) (f (trust r)) (authorities r) (hosts_written r) (changes r).

(** A call of the store, under the lock of the state. *)
Definition stored {A} (call : Eff L LedgerError A) : Eff Reg LedgerError A := λ r,
  let (l, x) := call (ledger r) in
  (mkRevocations l (trust r) (authorities r) (hosts_written r) (changes r), x).

(** A call whose failure is logged and passed over. *)
Definition logged (call : Eff Reg LedgerError unit) (r : Reg) : Reg := (call r).1.

(** [hosts_changed]: the Hosts as a new version of them. *)
Definition hosts_changed (r : Reg) : N * gmap string Host * Reg :=
  let s := trust r in
  let v := (hosts_version s + 1)%N in
  (v, hosts s,
   on_state (λ s, mkState (issued s) (revocations s) (roots s) (descendants s) (earliest_expiry_ms s)
                    (hosts s) v (list_version s) (owners s) (revoked_cache s) (acts s)) r).

(** [write_hosts]: never an older version over a newer. *)
Definition write_hosts (version : N) (h : gmap string Host) : Eff Reg LedgerError unit := λ r,
  if (version <=? hosts_written r)%N then (r, Ok tt)
  else
    match ledger_save_hosts h (ledger r) with
    | (l, Ok _) => (mkRevocations l (trust r) (authorities r) version (changes r), Ok tt)
    | (l, Err e) => (mkRevocations l (trust r) (authorities r) (hosts_written r) (changes r), Err e)
    end.

(** [save_hosts]. *)
Definition save_hosts : Eff Reg LedgerError unit := λ r,
  let '(v, h, r) := hosts_changed r in write_hosts v h r.

Definition write_forgotten (forgotten : option (N * gmap string Host)) (r : Reg) : Reg :=
  match forgotten with
  | Some (v, h) => logged (write_hosts v h) r
  | None => r
  end.

Definition write_act_logged (act : HostAct) (r : Reg) : Reg := logged (stored (write_host_act act)) r.

(** *** Bindings *)

(** [admits]: whether [host] may report for [uid], and whether that would bind it. *)
Definition admits (s : State) (host uid : string) : result bool LedgerError :=
  let marked h := from_option is_marked false (hosts s !! h) in
  if marked host then Ok false
  else
    let room :=
      if (MAX_UIDS_PER_HOST <=? N.of_nat (base.size (from_option instance_uids ∅ (hosts s !! host))))%N
      then Err SpeaksForTooMany else Ok true in
    match owners s !! uid with
    | Some owner => if bool_decide (owner = host) then Ok false
                    else if marked owner then room else Err AnotherHost
    | None => room
    end.

Definition may_report (r : Reg) (host : string) (instance_uid : list N) : result unit LedgerError :=
  match admits (trust r) host (hex_encode instance_uid) with Ok _ => Ok tt | Err e => Err e end.

(** [take_up]: what the store answered for binding [uid] to [host]. *)
Definition take_up (uid host : string) (bound : Bound) : Eff State LedgerError bool := λ s,
  match bound with
  | BoundTo => (set_hosts (hosts s) (<[uid := host]> (owners s)) s, Ok true)
  | Taken holder =>
      (set_hosts (alter (with_uids (λ u, {[uid]} ∪ u)) holder (hosts s)) (<[uid := holder]> (owners s)) s,
       Err (BoundElsewhere uid holder))
  | BoundGateway =>
      (set_hosts (alter (λ h, with_mark true (with_uids (λ _, ∅) h)) host (hosts s))
         (filter (λ uo, uo.2 ≠ host) (owners s)) s, Ok false)
  end.

Definition state_eff {A} (call : Eff State LedgerError A) : Eff Reg LedgerError A := λ r,
  let (s, x) := call (trust r) in
  (mkRevocations (ledger r) s (authorities r) (hosts_written r) (changes r), x).

(** [bind]. *)
Definition bind (uid host : string) (row : Host) : Eff Reg LedgerError bool := λ r,
  (bound <-! stored (bind_seen uid host row) ;; state_eff (take_up uid host bound)) (on_state acted r).

(** [check_report]: the binding ([bind_admitted]), the Hosts after it ([admitted_hosts]), the write. *)
Definition bind_admitted (host uid : string) (row : Host) : Eff Reg LedgerError bool := λ r,
  match admits (trust r) host uid with
  | Err e => (r, Err e)
  | Ok false => (r, Ok false)
  | Ok true => bind uid host row r
  end.

Definition extend_in (host : string) (not_after : N) (h : gmap string Host) : gmap string Host * bool :=
  match h !! host with
  | Some entry => let (entry, moved) := extend not_after entry in (<[host := entry]> h, moved)
  | None => (h, false)
  end.

Definition bound_hosts (host uid : string) (subject : SubjectValues) (h : gmap string Host)
    : gmap string Host :=
  <[host := with_uids (λ u, {[uid]} ∪ u) (default (mkHost false ∅ subject None None) (h !! host))]> h.

Definition check_report (host : string) (subject : SubjectValues) (not_after : N)
    (instance_uid : list N) : Eff Reg LedgerError unit := λ r,
  let uid := hex_encode instance_uid in
  match bind_admitted host uid (mkHost false ∅ subject None (Some not_after)) r with
  | (r, Err e) => (r, Err e)
  | (r, Ok binds) =>
      let s := trust r in
      let h := if binds : bool then bound_hosts host uid subject (hosts s) else hosts s in
      let '(h, extended) := extend_in host not_after h in
      let s := set_hosts h (owners s) s in
      let s := if extended : bool
               then acted (set_expiry (N.min (earliest_expiry_ms s) not_after) s) else s in
      let r := on_state (λ _, s) r in
      if negb (binds || extended) then (r, Ok tt)
      else if writes_hosts_by_act then
        match hosts s !! host with
        | Some entry => stored (write_host_act (ActSeen host entry)) r
        | None => (r, Ok tt)
        end
      else save_hosts r
  end.

(** A Host no longer speaks for [uid]. *)
Definition drop_uid (uid host : string) (h : gmap string Host) : gmap string Host :=
  alter (with_uids (λ u, u ∖ {[uid]})) host h.

(** [Revocations::release]: an operator forgets an Agent. *)
Definition release_uid (instance_uid : list N) : Eff Reg LedgerError unit := λ r,
  let uid := hex_encode instance_uid in
  (found <-! stored (unbind uid) ;;
   λ r,
     let s := trust r in
     let held := owners s !! uid in
     let h := foldl (λ h host, drop_uid uid host h) (hosts s) (option_list found ++ option_list held) in
     let r := on_state (λ s, set_hosts h (delete uid (owners s)) s) r in
     if writes_hosts_by_act then (r, Ok tt) else save_hosts r) (on_state acted r).

(** [rebind]: a re-key keeps the Agent's Host. [move_binding] is its part after what is held in
    memory was let go; [held] is the Host it was held for. *)
Definition move_binding (old new : string) (held : option string) : Eff Reg LedgerError unit :=
  moved <-! stored (ledger_rebind old new) ;;
  target <-! (match moved, held with
              | Some (host, bound), _ => eff_ret (Some (host, bound))
              | None, Some host =>
                  if writes_hosts_by_act then eff_ret None
                  else bound <-! stored (ledger_bind new host) ;; eff_ret (Some (host, bound))
              | None, None => eff_ret None
              end) ;;
  match target with
  | None => eff_ret tt
  | Some (host, bound) => λ r,
      (taken <-! state_eff (take_up new host bound) ;;
       λ r,
         let r := if taken : bool
                  then on_state (λ s, set_hosts (alter (with_uids (λ u, {[new]} ∪ u)) host (hosts s))
                                        (owners s) s) r
                  else r in
         if writes_hosts_by_act then (r, Ok tt) else save_hosts r)
        (on_state (λ s, set_hosts (drop_uid old host (hosts s)) (owners s) s) r)
  end.

Definition let_go (uid : string) (s : State) : State :=
  set_hosts (match owners s !! uid with Some host => drop_uid uid host (hosts s) | None => hosts s end)
    (delete uid (owners s)) s.

Definition rebind (old new : list N) : Eff Reg LedgerError unit := λ r,
  let old := hex_encode old in
  let r := on_state acted r in
  move_binding old (hex_encode new) (owners (trust r) !! old) (on_state (let_go old) r).

(** [set_gateway]: whether this Server knows the host. *)
Definition set_gateway (host : string) (marked : bool) : Eff Reg LedgerError bool := λ r,
  let s := trust r in
  let known := bool_decide (is_Some (hosts s !! host))
               || existsb (λ i, bool_decide (cert_host (facts i) = Some host))
                    (map_to_list (issued s)).*2 in
  if negb known then (r, Ok false)
  else
    (_ <-! (if writes_hosts_by_act then stored (write_host_act (ActGateway host marked))
            else if marked then stored (unbind_host host) else eff_ret tt) ;;
     λ r,
       let s := trust r in
       let s := if marked
                then set_hosts (alter (with_uids (λ _, ∅)) host (hosts s))
                       (filter (λ uo, uo.2 ≠ host) (owners s)) s
                else s in
       let entry := with_mark marked (default host_default (hosts s !! host)) in
       let s := set_hosts (<[host := entry]> (hosts s)) (owners s) s in
       let s := if marked then s
                else set_expiry (N.min (earliest_expiry_ms s) (default 0%N (valid_until_ms entry))) s in
       let r := on_state (λ _, s) r in
       if writes_hosts_by_act then (r, Ok true)
       else (_ <-! save_hosts ;; eff_ret true) r) (on_state acted r).

Definition bound_host (r : Reg) (instance_uid : list N) : option string :=
  owners (trust r) !! hex_encode instance_uid.

(** [speaks_for]: [None] is [SpeaksFor::Any]. *)
Definition speaks_for (r : Reg) (host : string) : option (gset string) :=
  match hosts (trust r) !! host with
  | Some h => if is_marked h then None else Some (instance_uids h)
  | None => Some ∅
  end.

(** *** The register *)

(** The chains of the certificates still valid: every entry one of them descends from. *)
Fixpoint needed_walk (m : gmap CertId Issued) (rounds : nat) (current : option CertId)
    (needed : gset CertId) : gset CertId :=
  match rounds with
  | O => needed
  | S rounds =>
      match current with
      | None => needed
      | Some id => if bool_decide (id ∈ needed) then needed
                   else needed_walk m rounds (renewed m id) ({[id]} ∪ needed)
      end
  end.

Definition needed_one (m : gmap CertId Issued) (now : N) (acc : gset CertId) (id : CertId) : gset CertId :=
  match m !! id with
  | Some i => if (not_after_ms (facts i) <=? now)%N then acc
              else needed_walk m (S (base.size m)) (Some id) acc
  | None => acc
  end.

Definition needed (m : gmap CertId Issued) (now : N) : gset CertId :=
  foldl (needed_one m now) ∅ (register_keys m).

(** The latest [not_after] the register holds for each Host. *)
Definition latest (m : gmap CertId Issued) : gmap string N :=
  foldl (λ acc i, match cert_host (facts i) with
                  | Some h => <[h := N.max (default 0%N (acc !! h)) (not_after_ms (facts i))]> acc
                  | None => acc
                  end) ∅ (omap (λ id, m !! id) (register_keys m)).

Definition extended_by (l : gmap string N) (name : string) (h : Host) : Host * bool :=
  match l !! name with Some until => extend until h | None => (h, false) end.

Definition ended (now : N) (h : Host) : bool :=
  negb (is_marked h) && from_option (λ t, (t <=? now)%N) false (valid_until_ms h).

Definition least_after (now : N) (l : list N) : N :=
  match List.filter (λ t, (now <? t)%N) l with
  | [] => u64_max
  | t :: l => foldl N.min t l
  end.

Definition names_gone (gone : list CertId) (e : Revocation) : bool :=
  existsb (λ id, bool_decide (serial id = revoked_serial (what_revoked e))
                 && bool_decide (issuer id ∈ issuers (what_revoked e))) gone.

(** The Hosts of a prune: valid untils taken from the register, the ended ones gone; and the acts a
    store that writes by act is told of. *)
Definition prune_hosts (now : N) (s : State) : State * list (string * N) * list string :=
  let l := latest (issued s) in
  let h := map_imap (λ n e, Some (extended_by l n e).1) (hosts s) in
  let extended := omap (λ ne, if (extended_by l ne.1 ne.2).2 then (λ t, (ne.1, t)) <$> l !! ne.1 else None)
                    (btree_iter (hosts s)) in
  let gone := btree_keys (filter (λ ne, ended now ne.2 = true) h) in
  (set_hosts (filter (λ ne, ended now ne.2 = false) h)
     (filter (λ uo, uo.2 ∉ gone) (owners s)) s, extended, gone).

(** [prune]. *)
Definition prune (now : N) : Eff Reg LedgerError (option (N * gmap string Host)) := λ r,
  let s := trust r in
  if (now <? earliest_expiry_ms s)%N then (r, Ok None)
  else
    let keep := needed (issued s) now in
    let gone := List.filter (λ id, negb (bool_decide (id ∈ keep))) (register_keys (issued s)) in
    let '(s, extended, over) := prune_hosts now s in
    let r := on_state (λ _, s) r in
    let changed := negb (bool_decide (extended = []) && bool_decide (over = [])) in
    let '(forgotten, r) :=
      if writes_hosts_by_act then
        let r := if bool_decide (extended = []) then r else write_act_logged (ActExtended extended) r in
        let r := if bool_decide (over = []) then r else write_act_logged (ActForgotten over now) r in
        (None, r)
      else if changed then let '(v, h, r) := hosts_changed r in (Some (v, h), r)
      else (None, r) in
    let untils := ((λ i, not_after_ms (facts i)) <$> (map_to_list (issued s)).*2)
                  ++ omap valid_until_ms (List.filter (λ h, negb (is_marked h)) (btree_values (hosts s))) in
    let r := on_state (set_expiry (least_after now untils)) r in
    if bool_decide (gone = []) then (r, Ok forgotten)
    else
      (_ <-! eff_each (λ id, _ <-! stored (remove_issued id) ;; λ r, (on_state (state_remove id) r, Ok tt)) gone ;;
       λ r,
         let dropped := revocation_id <$> List.filter (names_gone gone) (revocations (trust r)) in
         (_ <-! eff_each (λ id, lifted <-! stored (remove_revocation id) ;; λ r,
                 let s := trust r in
                 let v := if lifted : bool then own_write (store_list_version (ledger r)) (list_version s)
                          else list_version s in
                 (on_state (set_list (without id (revocations s)) v None) r, Ok tt)) dropped ;;
          eff_ret forgotten) r) r.

(** [admit]: what the bounds of the register refuse ([unadmitted]), and the write. *)
Definition register_limit (p : option CertId) : N :=
  if bool_decide (is_Some p) then (MAX_ISSUED - ENROLMENT_RESERVE)%N else MAX_ISSUED.

Definition live_of (host : string) (now : N) (m : gmap CertId Issued) : gmap CertId Issued :=
  filter (λ ki, cert_host (facts ki.2) = Some host ∧ (now < not_after_ms (facts ki.2))%N) m.

Definition unadmitted (now : N) (f : Facts) (p : option CertId) (s : State) : option LedgerError :=
  if (register_limit p <=? N.of_nat (base.size (issued s)))%N
  then Some (RegisterFull (base.size (issued s)))
  else if (MAX_DESCENDANTS_PER_ROOT <=? N.of_nat (default 0%nat (descendants s !! root_below s p (cert_id f))))%N
  then Some ChainFull
  else match cert_host f with
       | Some host => if (MAX_PER_HOST <=? N.of_nat (base.size (live_of host now (issued s))))%N
                      then Some HostFull else None
       | None => None
       end.

Definition admit_issued (now : N) (f : Facts) (instance_uid : list N) (p : option CertId)
    (mint : option (string * Host)) (bootstrap : option CertId) : Eff Reg LedgerError unit := λ r,
  match unadmitted now f p (trust r) with
  | Some e => (r, Err e)
  | None =>
      let i := mkIssued f (hex_encode instance_uid) p now in
      (answer <-! stored (register_minting i (mkBounds (register_limit p) MAX_DESCENDANTS_PER_ROOT)
                            mint bootstrap) ;;
       match answer with
       | IsRegistered => λ r, (on_state (state_insert i) r, Ok tt)
       | IsFull why => eff_fail why
       | IsRevoked => eff_fail RenewsRevoked
       | IsBootstrapRevoked => eff_fail BootstrapRevoked
       end) r
  end.

(** The Host of a new certificate, in [record_with]: minted, or its valid until moved forward. *)
Definition host_of_issuance (f : Facts) (mint : option (string * Host)) (recorded : result unit LedgerError)
    (h : gmap string Host) : option HostAct * gmap string Host :=
  match recorded, mint, cert_host f with
  | Ok _, Some (host, entry), _ =>
      (if writes_hosts_by_act then None else Some (ActSeen host entry), <[host := entry]> h)
  | Ok _, None, Some host =>
      let (h, moved) := extend_in host (not_after_ms f) h in
      (if moved : bool then Some (ActExtended [(host, not_after_ms f)]) else None, h)
  | _, _, _ => (None, h)
  end.

Definition mint_of (now : N) (f : Facts) (p : option CertId) (h : gmap string Host)
    : option (string * Host) :=
  match p, cert_host f with
  | None, Some host =>
      match h !! host with
      | Some _ => None
      | None => Some (host, mkHost false ∅ (subject_values f) (Some now) (Some (not_after_ms f)))
      end
  | _, _ => None
  end.

(** [record_with]. *)
Definition record_with (now : N) (f : Facts) (instance_uid : list N) (p : option CertId)
    (bootstrap : option CertId) : Eff Reg LedgerError unit := λ r,
  let r := on_state acted r in
  let '(refused, r) :=
    match bootstrap with
    | Some b => let (c, s) := revoked (trust r) in (bool_decide (b ∈ c), on_state (λ _, s) r)
    | None => (false, r)
    end in
  if refused then (r, Err BootstrapRevoked)
  else
    match prune now r with
    | (r, Err e) => (r, Err e)
    | (r, Ok forgotten) =>
        let mint := mint_of now f p (hosts (trust r)) in
        let (r, recorded) := admit_issued now f instance_uid p mint bootstrap r in
        let '(act, h) := host_of_issuance f mint recorded (hosts (trust r)) in
        let r := on_state (λ s, set_hosts h (owners s) s) r in
        if writes_hosts_by_act then
          (match act with Some act => write_act_logged act r | None => r end, recorded)
        else
          let '(forgotten, r) :=
            match act with
            | Some _ => let '(v, h, r) := hosts_changed r in (Some (v, h), r)
            | None => (forgotten, r)
            end in
          (write_forgotten forgotten r, recorded)
    end.

(** *** The list *)

(** [add]. *)
Definition add (now : N) (what : Revoked) : Eff Reg RevokeError Revocation := λ r,
  let r := on_state acted r in
  let entry := mkRevocation (entry_id hex_encode sha256 what) what now in
  match stored (add_revocation entry MAX_REVOCATIONS) r with
  | (r, Err _) => (r, Err RevokeStore)
  | (r, Ok ListFull) => (r, Err ListIsFull)
  | (r, Ok answer) =>
      let '(entry, written) := match answer with
                               | IsPresent existing => (existing, false)
                               | IsWidened wider => (wider, true)
                               | _ => (entry, true)
                               end in
      let s := trust r in
      let v := if written : bool then own_write (store_list_version (ledger r)) (list_version s)
               else list_version s in
      match find_revocation (revocation_id entry) (revocations s) with
      | Some held =>
          if bool_decide (held = entry)
          then (on_state (set_list (revocations s) v (revoked_cache s)) r, Ok entry)
          else (mkRevocations (ledger r)
                  (set_list (replace_first (revocation_id entry) entry (revocations s)) v None s)
                  (authorities r) (hosts_written r) (changes r + 1), Ok entry)
      | None => (mkRevocations (ledger r) (set_list (revocations s ++ [entry]) v None s)
                   (authorities r) (hosts_written r) (changes r + 1), Ok entry)
      end
  end.

(** [revoke_certificate]. *)
Definition revoke_certificate (now : N) (authority serial : string) : Eff Reg RevokeError Revocation := λ r,
  let named := authority_subject <$> List.filter (λ a, bool_decide (role a = authority)) (authorities r) in
  let text := normalize_serial serial in
  if bool_decide (named = []) then (r, Err NoAuthority)
  else if is_blank serial || negb (all_bytes is_ascii_hexdigit text) then (r, Err NotHexadecimal)
  else if (MAX_SERIAL_HEX <? N.of_nat (String.length text))%N then (r, Err SerialTooLong)
  else add now (mkRevoked authority named text) r.

(** [lift]. *)
Definition lift (id : string) : Eff Reg LedgerError bool := λ r,
  (lifted <-! stored (remove_revocation id) ;;
   λ r,
     let s := trust r in
     let v := if lifted : bool then own_write (store_list_version (ledger r)) (list_version s)
              else list_version s in
     let l := without id (revocations s) in
     let c := if (length l =? length (revocations s))%nat then revoked_cache s else None in
     (on_state (set_list l v c) r, Ok lifted)) (on_state acted r).

Definition is_certificate_revoked (c : CertId) (r : Reg) : Reg * bool :=
  let (set, s) := revoked (trust r) in (on_state (λ _, s) r, bool_decide (c ∈ set)).

(** [revoked_certificates_at]: what the Gateways' list is served as. *)
Definition revoked_certificates_at (of_role : string) (r : Reg) : Reg * (gset CertId * option N) :=
  let named := authority_subject <$> List.filter (λ a, bool_decide (role a = of_role)) (authorities r) in
  let (set, s) := revoked (trust r) in
  (on_state (λ _, s) r, (filter (λ id, issuer id ∈ named) set, list_version (trust r))).

(** *** Opening and reading again *)

Definition open_ledger (now : N) (l : L) (a : list Authority) : L * result Reg LedgerError :=
  match ledger_load l with
  | (l, Err e) => (l, Err e)
  | (l, Ok held) =>
      match prune now (mkRevocations l (loaded held) a 0 0) with
      | (r, Err e) => (ledger r, Err e)
      | (r, Ok forgotten) => let r := write_forgotten forgotten r in (ledger r, Ok r)
      end
  end.

Definition max_version (x y : option N) : option N :=
  match x, y with
  | Some x, Some y => Some (N.max x y)
  | Some x, None => Some x
  | None, y => y
  end.

(** [read_ledger]: the state the store holds, its revoked set built. *)
Definition read_ledger : Eff Reg LedgerError State :=
  held <-! stored ledger_load ;; eff_ret (revoked (loaded held)).2.

(** [swap]: [fresh] in for what is held. *)
Definition swap (fresh : State) (r : Reg) : Reg :=
  let s := trust r in
  mkRevocations (ledger r)
    (mkState (issued fresh) (revocations fresh) (roots fresh) (descendants fresh)
       (earliest_expiry_ms fresh) (hosts fresh) (hosts_version s)
       (max_version (list_version fresh) (list_version s)) (owners fresh) (revoked_cache fresh) (acts s))
    (authorities r) (hosts_written r)
    (if bool_decide (revocations s = revocations fresh) then changes r else changes r + 1).

(** [reload_ledger]. [meanwhile] is what the acts of this instance make of the state between a read
    and its swap, in each of the three rounds that read outside the lock. *)
Fixpoint reload_rounds (meanwhile : list (Reg → Reg)) : Eff Reg LedgerError unit := λ r,
  match meanwhile with
  | act :: meanwhile =>
      let began := acts (trust r) in
      (fresh <-! read_ledger ;;
       λ r, let r := act r in
            if (acts (trust r) =? began)%N then (swap fresh r, Ok tt)
            else reload_rounds meanwhile r) r
  | [] => (fresh <-! read_ledger ;; λ r, (swap fresh r, Ok tt)) r
  end.

Definition reload_ledger (a b c : Reg → Reg) : Eff Reg LedgerError unit := reload_rounds [a; b; c].
End Operations.

(** ** What is revoked *)

(** A certificate the list names, or one that renewed such a certificate, however often. *)
Inductive distrusted (m : gmap CertId Issued) (named : gset CertId) : CertId → Prop :=
| distrusted_named id : id ∈ named → distrusted m named id
| distrusted_renewal id p : renewed m id = Some p → distrusted m named p → distrusted m named id.

Section Resolve.
Context (m : gmap CertId Issued) (named : gset CertId).
Notation distrust := (distrusted m named).

(** The path of a walk: none of it is named, and each of it renewed another of it or [current]. *)
Definition walked (path : list CertId) (current : option CertId) : Prop :=
  (∀ a, a ∈ path → a ∉ named ∧
     (renewed m a = current ∨ ∃ b, b ∈ path ∧ renewed m a = Some b)) ∧
  (NoDup path ∨ current = None ∨ ∃ b, b ∈ path ∧ current = Some b).

Lemma walked_push path at_ :
  at_ ∉ named → walked path (Some at_) → walked (path ++ [at_]) (renewed m at_).
Proof.
  intros Hat [Hp Hnd]. split.
  - intros a [Ha|Ha%list_elem_of_singleton]%elem_of_app.
    + destruct (Hp a Ha) as [Hn [Hc|(b & Hb & Hc)]]; (split; [done|right]).
      * exists at_. split; [set_solver|done].
      * exists b. split; [set_solver|done].
    + subst a. split; [done|by left].
  - destruct (decide (at_ ∈ path)) as [Hin|Hin].
    + right. destruct (Hp at_ Hin) as [_ [Hc|(b & Hb & Hc)]]; right.
      * exists at_. split; [set_solver|done].
      * exists b. split; [set_solver|done].
    + destruct Hnd as [Hnd|[?|(b & Hb & [= ->])]]; [|done..]. left.
      apply NoDup_app. split; [done|]. split; [|apply NoDup_singleton].
      intros x Hx ->%list_elem_of_singleton. done.
Qed.

(** A path that leads nowhere else is trusted. *)
Lemma walked_closed path current :
  walked path current → (current = None ∨ ∃ b, b ∈ path ∧ current = Some b) →
  ∀ a, a ∈ path → ¬ distrust a.
Proof.
  intros [Hp _] Hc a Ha HD. induction HD as [a Hn|a p Hr HD IH]; [by apply (Hp a Ha)|].
  apply IH. destruct (Hp a Ha) as [_ [Hcur|(b & Hb & Hrb)]].
  - destruct Hc as [->|(b & Hb & ->)]; congruence.
  - congruence.
Qed.

(** A path is as [current] is. *)
Lemma walked_as path current :
  walked path current →
  ∀ a, a ∈ path → distrust a → ∃ c, current = Some c ∧ distrust c.
Proof.
  intros [Hp _] a Ha HD. induction HD as [a Hn|a p Hr HD IH]; [by apply (Hp a Ha) in Hn|].
  destruct (Hp a Ha) as [_ [Hcur|(b & Hb & Hrb)]]; [exists p; by rewrite <- Hcur|].
  apply IH. congruence.
Qed.

(** Every certificate of the path leads to [current]. *)
Definition leads (path : list CertId) (current : option CertId) : Prop :=
  ∀ a c, a ∈ path → current = Some c → distrust c → distrust a.

Lemma leads_push path at_ : leads path (Some at_) → leads (path ++ [at_]) (renewed m at_).
Proof.
  intros H a c Ha Hc HD.
  assert (Hat : distrust at_) by by eapply distrusted_renewal.
  apply elem_of_app in Ha as [Ha| ->%list_elem_of_singleton]; [|done]. by eapply H.
Qed.

Lemma walked_long path current :
  walked path current → (base.size m < length path)%nat →
  current = None ∨ ∃ b, b ∈ path ∧ current = Some b.
Proof.
  intros [Hp Hnd] Hlen. destruct current as [c|]; [right|by left].
  destruct Hnd as [Hnd|[?|?]]; [|done..]. destruct (decide (c ∈ path)) as [|Hc]; [by exists c|].
  exfalso. assert (Hsub : (list_to_set path : gset CertId) ⊆ dom m).
  { intros a Ha%elem_of_list_to_set. apply elem_of_dom.
    assert (Hr : is_Some (renewed m a)) by (destruct (Hp a Ha) as [_ [->|(b & _ & ->)]]; eauto).
    unfold renewed in Hr. destruct (m !! a); [by eexists|by destruct Hr]. }
  apply subseteq_size in Hsub. rewrite size_list_to_set, size_dom in Hsub by done. lia.
Qed.

Definition answers_right (answered : gmap CertId bool) : Prop :=
  ∀ a b, answered !! a = Some b → b = true ↔ distrust a.

Lemma resolve_walk_spec answered rounds : ∀ current path p found,
  answers_right answered → walked path current → leads path current →
  (base.size m < rounds + length path)%nat →
  resolve_walk m named answered rounds current path = (p, found) →
  ∀ a, a ∈ p → found = true ↔ distrust a.
Proof.
  induction rounds as [|rounds IH]; intros current path p found Hans Hw Hl Hlen; cbn.
  - intros [= <- <-]. intros a Ha. split; [done|]. intros HD.
    destruct (walked_closed path current Hw (walked_long _ _ Hw Hlen) a Ha HD).
  - destruct current as [at_|].
    + destruct (answered !! at_) as [known|] eqn:Hk.
      { intros [= <- <-]. intros a Ha. rewrite (Hans _ _ Hk). split.
        - intros HD. by eapply Hl.
        - intros HD. destruct (walked_as _ _ Hw a Ha HD) as (c & [= <-] & HD'). done. }
      case_bool_decide as Hn.
      { intros [= <- <-]. intros a Ha. split; [|done]. intros _.
        eapply Hl; [done..|]. by apply distrusted_named. }
      intros Hr. eapply IH; [done|by apply walked_push|by apply leads_push| |exact Hr].
      rewrite length_app. cbn. lia.
    + intros [= <- <-]. intros a Ha. split; [done|]. intros HD.
      destruct (walked_as _ _ Hw a Ha HD) as (c & ? & _). done.
Qed.

Lemma resolve_walk_prefix answered rounds : ∀ current path p found,
  resolve_walk m named answered rounds current path = (p, found) → path `prefix_of` p.
Proof.
  induction rounds as [|rounds IH]; intros current path p found; cbn; [by intros [= <- <-]|].
  destruct current as [at_|]; [|by intros [= <- <-]].
  destruct (answered !! at_); [by intros [= <- <-]|]. case_bool_decide; [by intros [= <- <-]|].
  intros Hr%IH. etrans; [|done]. by exists [at_].
Qed.

Lemma lookup_foldl_answer (found : bool) path (answered : gmap CertId bool) a :
  foldl (λ answered a, <[a := found]> answered) answered path !! a
  = if bool_decide (a ∈ path) then Some found else answered !! a.
Proof.
  revert answered. induction path as [|x path IH]; intros answered; cbn; [done|]. rewrite IH.
  destruct (decide (a = x)) as [->|Hne].
  - rewrite lookup_insert_eq. rewrite (bool_decide_true (x ∈ x :: path)) by set_solver.
    by case_bool_decide.
  - rewrite lookup_insert_ne by done.
    rewrite (bool_decide_ext (a ∈ x :: path) (a ∈ path)); [done|]. set_solver.
Qed.

Lemma resolve_one_spec answered id :
  answers_right answered →
  answers_right (resolve_one m named answered id) ∧
  (∀ a, is_Some (answered !! a) → is_Some (resolve_one m named answered id !! a)) ∧
  (id ∈ named ∨ is_Some (resolve_one m named answered id !! id)).
Proof.
  intros Hans. unfold resolve_one.
  destruct (resolve_walk m named answered (S (base.size m)) (Some id) []) as [p found] eqn:Hw.
  assert (Hr : ∀ a, a ∈ p → found = true ↔ distrust a).
  { eapply resolve_walk_spec; [done| | | |exact Hw]; [| |cbn; lia].
    - split; [by intros a ?%elem_of_nil|]. left. constructor.
    - by intros a c ?%elem_of_nil. }
  split; [|split].
  - intros a b. rewrite lookup_foldl_answer. case_bool_decide; [intros [= <-]; auto|apply Hans].
  - intros a Ha. rewrite lookup_foldl_answer. by case_bool_decide.
  - rewrite lookup_foldl_answer. cbn in Hw. destruct (answered !! id) as [known|] eqn:Hk.
    { right. by case_bool_decide. }
    revert Hw. case_bool_decide as Hn; [by left|]. intros Hw. right.
    apply resolve_walk_prefix in Hw. rewrite bool_decide_true; [done|].
    destruct Hw as [l ->]. set_solver.
Qed.

Lemma resolve_all_spec ids answered :
  answers_right answered →
  answers_right (foldl (resolve_one m named) answered ids) ∧
  (∀ a, is_Some (answered !! a) → is_Some (foldl (resolve_one m named) answered ids !! a)) ∧
  (∀ id, id ∈ ids → id ∈ named ∨ is_Some (foldl (resolve_one m named) answered ids !! id)).
Proof.
  revert answered. induction ids as [|x ids IH]; intros answered Hans; cbn.
  { split; [done|]. split; [done|]. by intros id ?%elem_of_nil. }
  destruct (resolve_one_spec answered x Hans) as (H1 & H2 & H3).
  destruct (IH _ H1) as (G1 & G2 & G3). split; [done|]. split; [auto|].
  intros id [->|Hid]%elem_of_cons; [|auto]. destruct H3; [by left|right; auto].
Qed.
End Resolve.

Lemma elem_of_register_keys m id : id ∈ register_keys m ↔ is_Some (m !! id).
Proof.
  unfold register_keys. rewrite merge_sort_Permutation, elem_of_elements. apply elem_of_dom.
Qed.

(** The set the walk builds is the certificates that are distrusted. *)
Lemma elem_of_resolve s id :
  id ∈ resolve s ↔ distrusted (issued s) (named_in (revocations s)) id.
Proof.
  unfold resolve. set (named := named_in (revocations s)). set (m := issued s).
  case_bool_decide as Hempty.
  { rewrite Hempty. split; [set_solver|]. intros HD. exfalso. induction HD; set_solver. }
  destruct (resolve_all_spec m named (register_keys m) ∅) as (Hans & _ & Hall);
    [by intros a b; rewrite lookup_empty|].
  rewrite elem_of_union, elem_of_dom. split.
  - intros [Hn|[b [Hb Ht]%map_lookup_filter_Some]]; [by apply distrusted_named|]. by apply (Hans _ _ Hb).
  - intros HD. destruct (decide (id ∈ named)) as [|Hn]; [by left|right].
    assert (Hreg : is_Some (m !! id)).
    { destruct HD as [|id p Hr _]; [done|]. unfold renewed in Hr. by destruct (m !! id). }
    destruct (Hall id) as [|[b Hb]]; [by apply elem_of_register_keys|done|].
    exists b. apply map_lookup_filter_Some. split; [done|]. by apply (Hans _ _ Hb).
Qed.

(** ** A ledger in memory

    The port by its default methods: what is stored is what the Server decided. *)
#[export] Instance memory_ledger : LedgerStore Ledger := {|
  ledger_load := λ l, (l, Ok l);
  remove_issued := λ id l,
    (mkLedger (List.filter (λ i, negb (bool_decide (cert_id (facts i) = id))) (ledger_issued l))
       (ledger_revocations l) (ledger_hosts l) (ledger_version l), Ok tt);
  register_minting := λ i _ _ _ l,
    (mkLedger (ledger_issued l ++ [i]) (ledger_revocations l) (ledger_hosts l) (ledger_version l),
     Ok IsRegistered);
  add_revocation := λ e bound l,
    let (list, x) := add_to (ledger_revocations l) e bound in
    (mkLedger (ledger_issued l) list (ledger_hosts l) (ledger_version l), Ok x);
  remove_revocation := λ id l,
    let (list, x) := remove_from (ledger_revocations l) id in
    (mkLedger (ledger_issued l) list (ledger_hosts l) (ledger_version l), Ok x);
  store_list_version := λ _, None;
  ledger_bind := λ _ _ l, (l, Ok BoundTo);
  bind_seen := λ _ _ _ l, (l, Ok BoundTo);
  unbind := λ _ l, (l, Ok None);
  ledger_rebind := λ _ _ l, (l, Ok None);
  unbind_host := λ _ l, (l, Ok tt);
  writes_hosts_by_act := false;
  write_host_act := λ _ l, (l, Ok tt);
  ledger_save_hosts := λ h l,
    (mkLedger (ledger_issued l) (ledger_revocations l) h (ledger_version l), Ok tt);
|}.
