(* ===== verification/Trust.v ===== *)
(** * What the trust state promises

    The theorems on [fleet-server/src/revocation.rs]: what the revoked set answers, what a prune
    keeps, and which Host speaks for an Agent. *)

From S2P Require Import Prelude RustStr Proto Placement Revocation.

Open Scope string_scope.
Open Scope list_scope.

(** ** Invariants of the operations *)

Section Keeps.
Context {L : Type}.
Notation Reg := (Revocations L).

(** A call that leaves [P] of the state as it found it, whatever it answers. *)
Definition keeps {E A : Type} (P : State → Prop) (call : Eff Reg E A) : Prop :=
  ∀ r r' x, P (trust r) → call r = (r', x) → P (trust r').

Context (P : State → Prop).

Lemma keeps_ret {E A} (a : A) : keeps P (eff_ret a : Eff Reg E A).
Proof. by intros r r' x H [= <- <-]. Qed.

Lemma keeps_fail {E A} (e : E) : keeps P (eff_fail e : Eff Reg E A).
Proof. by intros r r' x H [= <- <-]. Qed.

Lemma keeps_of {E A} (x : result A E) : keeps P (eff_of x).
Proof. by intros r r' y H [= <- <-]. Qed.

Lemma keeps_bind {E A B} (call : Eff Reg E A) (k : A → Eff Reg E B) :
  keeps P call → (∀ a, keeps P (k a)) → keeps P (eff_bind call k).
Proof.
  intros Hc Hk r r' x Hr. unfold eff_bind. destruct (call r) as [r1 [a|e]] eqn:E1.
  - intros H. eapply Hk; [|done]. by eapply Hc.
  - intros [= <- <-]. by eapply Hc.
Qed.

Lemma keeps_each {E A B} (body : A → Eff Reg E B) l :
  (∀ a, a ∈ l → keeps P (body a)) → keeps P (eff_each body l).
Proof.
  induction l as [|a l IH]; intros H; cbn; [apply keeps_ret|].
  apply keeps_bind; [apply H; by left|]. intros b. apply keeps_bind; [|intros; apply keeps_ret].
  apply IH. intros a' Ha'. apply H. by right.
Qed.

Lemma keeps_stored {A} (call : Eff L LedgerError A) : keeps P (stored call).
Proof. intros r r' x H. unfold stored. by destruct (call (ledger r)) as [l y]; intros [= <- <-]. Qed.

Lemma keeps_state {A} (call : Eff State LedgerError A) :
  (∀ s s' x, P s → call s = (s', x) → P s') → keeps P (state_eff call).
Proof.
  intros Hc r r' x Hr. unfold state_eff. destruct (call (trust r)) as [s y] eqn:E1.
  intros [= <- <-]. by eapply Hc.
Qed.

Lemma keeps_after {E A} (f : State → State) (call : Eff Reg E A) :
  (∀ s, P s → P (f s)) → keeps P call → keeps P (λ r, call (on_state f r)).
Proof. intros Hf Hc r r' x Hr Hx. eapply Hc; [|exact Hx]. by apply Hf. Qed.

Lemma keeps_logged (call : Eff Reg LedgerError unit) r :
  keeps P call → P (trust r) → P (trust (logged call r)).
Proof. intros Hc Hr. unfold logged. destruct (call r) as [r' x] eqn:E1. by eapply Hc. Qed.

Lemma keeps_write_hosts `{!LedgerStore L} v h : keeps P (write_hosts v h).
Proof.
  intros r r' x H. unfold write_hosts. destruct (_ <=? _)%N; [by intros [= <- <-]|].
  destruct (ledger_save_hosts h (ledger r)) as [l [?|?]]; by intros [= <- <-].
Qed.
End Keeps.

Create HintDb keeps.
#[export] Hint Resolve keeps_ret keeps_fail keeps_of keeps_stored keeps_write_hosts : keeps.

(** Splits a call into the calls it is made of. *)
Ltac keep := repeat first
  [ apply keeps_bind | apply keeps_ret | apply keeps_fail | apply keeps_of | apply keeps_stored
  | apply keeps_write_hosts | match goal with |- ∀ _, _ => intros ? end ].

(** What the revoked set is built from, and the set kept of it. *)
Definition verdicts (s : State) : gmap CertId Issued * list Revocation * option (gset CertId) :=
  (issued s, revocations s, revoked_cache s).

(** The set kept is the set the walk would build. *)
Definition cache_right (s : State) : Prop := ∀ c, revoked_cache s = Some c → c = resolve s.

Lemma resolve_same s s' :
  issued s = issued s' → revocations s = revocations s' → resolve s = resolve s'.
Proof. unfold resolve. by intros -> ->. Qed.

Lemma cache_same s s' : verdicts s = verdicts s' → cache_right s → cache_right s'.
Proof.
  unfold verdicts, cache_right. intros [= Hi Hl Hc] H c Hc'. rewrite <- (resolve_same s s') by done.
  apply H. congruence.
Qed.

Lemma cache_none s : revoked_cache s = None → cache_right s.
Proof. intros Hn c. congruence. Qed.

Lemma cache_remove id s : cache_right s → cache_right (state_remove id s).
Proof. intros H. unfold state_remove. destruct (issued s !! id); [by apply cache_none|done]. Qed.

(** A new entry changes no answer unless it renews a distrusted certificate. *)
Lemma distrusted_insert m named id i x :
  m !! id = None →
  (∀ p, predecessor i = Some p → distrusted m named p → distrusted m named id) →
  distrusted (<[id := i]> m) named x ↔ distrusted m named x.
Proof.
  intros Hid Hp. split; intros HD.
  - induction HD as [|x p Hr HD IH]; [by apply distrusted_named|].
    unfold renewed in Hr. destruct (decide (x = id)) as [->|Hne].
    + rewrite lookup_insert_eq in Hr. cbn in Hr. eauto.
    + rewrite lookup_insert_ne in Hr by done. by eapply distrusted_renewal.
  - induction HD as [|x p Hr HD IH]; [by apply distrusted_named|].
    eapply distrusted_renewal; [|exact IH]. unfold renewed in *.
    destruct (decide (x = id)) as [->|Hne]; [by rewrite Hid in Hr|]. by rewrite lookup_insert_ne.
Qed.

Lemma cache_insert i s : cache_right s → cache_right (state_insert i s).
Proof.
  intros H. unfold state_insert. set (id := cert_id (facts i)).
  destruct (issued s !! id) as [j|] eqn:Hid; unfold state_remove; rewrite Hid.
  { by apply cache_none. }
  intros c Hc. cbn in Hc.
  assert (Hcs : revoked_cache s = Some c ∧
    ∀ p, predecessor i = Some p → p ∈ c → id ∈ c).
  { destruct (revoked_cache s) as [c'|], (predecessor i) as [p|]; try done.
    case_bool_decide as Hb; [done|]. injection Hc as ->. split; [done|]. intros p' [= <-] Hp.
    destruct (decide (id ∈ c)); [done|]. by destruct Hb. }
  destruct Hcs as [Hcs Hp]. apply H in Hcs as ->. apply set_eq. intros x.
  rewrite !elem_of_resolve. cbn. rewrite distrusted_insert; [done|done|].
  intros p Hpi. rewrite <- !elem_of_resolve. eauto.
Qed.

Lemma cache_revoked s : cache_right s → cache_right (revoked s).2 ∧ (revoked s).1 = resolve s.
Proof.
  intros H. unfold revoked. destruct (revoked_cache s) as [c|] eqn:Hc; cbn.
  - pose proof (H c Hc) as ->. split; [|done]. by intros c [= <-].
  - split; [|done]. by intros c [= <-].
Qed.

(** *** The revoked set through every operation *)

Lemma cache_set_hosts h o s : cache_right s → cache_right (set_hosts h o s).
Proof. by apply cache_same. Qed.
Lemma cache_acted s : cache_right s → cache_right (acted s).
Proof. by apply cache_same. Qed.
Lemma cache_set_expiry t s : cache_right s → cache_right (set_expiry t s).
Proof. by apply cache_same. Qed.

Section Cache.
Context {L : Type} `{!LedgerStore L} (hex_encode : list N → string) (sha256 : list N → list N).
Notation Reg := (Revocations L).
Implicit Types r : Reg.

Lemma cache_hosts_changed r v h r' :
  cache_right (trust r) → hosts_changed r = (v, h, r') → cache_right (trust r').
Proof. intros H [= <- <- <-]. by apply (cache_same (trust r)). Qed.

Lemma cache_save_hosts : keeps (L := L) cache_right save_hosts.
Proof.
  intros r r' x Hr. unfold save_hosts. destruct (hosts_changed r) as [[v h] r1] eqn:E1.
  eapply keeps_write_hosts, cache_hosts_changed; done.
Qed.

Lemma cache_take_up uid host bound s s' x :
  cache_right s → take_up uid host bound s = (s', x) → cache_right s'.
Proof. intros H. destruct bound; intros [= <- <-]; by apply cache_set_hosts. Qed.

Lemma cache_bind uid host row : keeps (L := L) cache_right (bind uid host row).
Proof.
  apply (keeps_after _ acted (bound <-! stored (bind_seen uid host row) ;; state_eff (take_up uid host bound)));
    [apply cache_acted|]. keep. apply keeps_state. intros s s' x. apply cache_take_up.
Qed.

Lemma cache_bind_admitted host uid row : keeps (L := L) cache_right (bind_admitted host uid row).
Proof.
  intros r r' x Hr. unfold bind_admitted.
  destruct (admits _ _ _) as [[]|]; [by apply cache_bind|by intros [= <- <-]..].
Qed.

Lemma cache_check_report host subject t uid :
  keeps (L := L) cache_right (check_report hex_encode host subject t uid).
Proof.
  intros r r' x Hr. unfold check_report.
  destruct (bind_admitted _ _ _ r) as [r1 [binds|e]] eqn:E1; apply cache_bind_admitted in E1; [|done| |done].
  - destruct (extend_in _ _ _) as [h' extended]. set (s := if extended : bool then _ else _).
    assert (Hs : cache_right s) by (destruct extended; by apply (cache_same (trust r1))).
    destruct (negb _); [by intros [= <- <-]|]. destruct writes_hosts_by_act.
    + destruct (hosts s !! host); [|by intros [= <- <-]]. by apply keeps_stored.
    + by apply cache_save_hosts.
  - by intros [= <- <-].
Qed.

Lemma cache_save_or_not : keeps (L := L) cache_right
  (λ r, if writes_hosts_by_act then (r, Ok tt) else save_hosts r).
Proof. intros r r' x Hr. destruct writes_hosts_by_act; [by intros [= <- <-]|by apply cache_save_hosts]. Qed.

Lemma cache_release uid : keeps (L := L) cache_right (release_uid hex_encode uid).
Proof.
  refine (keeps_after cache_right acted _ cache_acted _). keep. intros r r' x Hr Hx. eapply cache_save_or_not; [|exact Hx]. by apply cache_set_hosts.
Qed.

Lemma cache_move_binding old new held : keeps (L := L) cache_right (move_binding old new held).
Proof.
  unfold move_binding. keep.
  - destruct a as [[]|], held; try destruct writes_hosts_by_act; keep.
  - destruct a0 as [[host bound]|]; [|keep].
    apply (keeps_after cache_right (λ s, set_hosts _ (owners s) s)); [intros; by apply cache_set_hosts|].
    apply keeps_bind; [apply keeps_state; intros ???; apply cache_take_up|]. intros [].
    + refine (keeps_after cache_right (λ s, set_hosts _ (owners s) s) _ _ cache_save_or_not).
      intros. by apply cache_set_hosts.
    + apply cache_save_or_not.
Qed.

Lemma cache_rebind old new : keeps (L := L) cache_right (rebind hex_encode old new).
Proof.
  intros r r' x Hr Hx. eapply cache_move_binding; [|exact Hx]. by apply (cache_same (trust r)).
Qed.

Lemma cache_set_gateway host marked : keeps (L := L) cache_right (set_gateway host marked).
Proof.
  intros r r' x Hr. unfold set_gateway. destruct (negb _); [by intros [= <- <-]|].
  revert Hr. revert r r' x. refine (keeps_after cache_right acted _ cache_acted _). apply keeps_bind.
  - destruct writes_hosts_by_act; [keep|destruct marked; keep].
  - intros _ r r' x Hr. set (s := if marked then set_hosts _ _ _ else trust r).
    set (entry := with_mark _ _). set (s' := if marked then _ else set_expiry _ _).
    assert (Hs' : cache_right s') by (subst s' s; destruct marked; by apply (cache_same (trust r))).
    destruct writes_hosts_by_act; [by intros [= <- <-]|]. intros Hx.
    assert (Hk : keeps (L := L) cache_right (_ <-! save_hosts ;; eff_ret true)).
    { apply keeps_bind; [apply cache_save_hosts|]. intros. apply keeps_ret. }
    by eapply Hk; [|exact Hx].
Qed.

Lemma cache_set_list l v s : cache_right (set_list l v None s).
Proof. by apply cache_none. Qed.

Lemma cache_remove_each ids : keeps (L := L) cache_right
  (eff_each (λ id, _ <-! stored (remove_issued id) ;; λ r, (on_state (state_remove id) r, Ok tt)) ids).
Proof.
  apply keeps_each. intros id _. keep. intros r r' x Hr [= <- <-]. by apply cache_remove.
Qed.

Lemma cache_prune_hosts now s s' a b :
  cache_right s → prune_hosts now s = (s', a, b) → cache_right s'.
Proof. intros H [= <- <- <-]. by apply cache_set_hosts. Qed.

Lemma cache_act_logged act r : cache_right (trust r) → cache_right (trust (write_act_logged act r)).
Proof. intros H. by apply (keeps_logged cache_right (stored (write_host_act act))); [apply keeps_stored|]. Qed.

Lemma cache_prune now : keeps (L := L) cache_right (prune now).
Proof.
  intros r r' x Hr. unfold prune. destruct (_ <? _)%N; [by intros [= <- <-]|].
  destruct (prune_hosts now (trust r)) as [[s extended] over] eqn:Es.
  assert (Hs : cache_right s) by by eapply cache_prune_hosts.
  set (told := if writes_hosts_by_act then _ else _). destruct told as [forgotten r1] eqn:Et.
  assert (H1 : cache_right (trust r1)).
  { subst told. revert Et. destruct writes_hosts_by_act.
    - intros [= <- <-]. repeat case_bool_decide; try apply cache_act_logged; try apply cache_act_logged; done.
    - destruct (negb _); [|by intros [= <- <-]].
      destruct (hosts_changed _) as [[v h] r2] eqn:Eh. intros [= <- <-].
      by eapply cache_hosts_changed in Eh. }
  case_bool_decide; [intros [= <- <-]; by apply cache_set_expiry|].
  intros Hx. eapply (keeps_bind cache_right); [apply cache_remove_each| | |exact Hx]; [|by apply cache_set_expiry].
  intros _ r2 r3 y H2 Hy. eapply (keeps_bind cache_right); [|intros; apply keeps_ret|exact H2|exact Hy].
  apply keeps_each. intros id _. keep. intros r4 r5 z H4 [= <- <-]. apply cache_set_list.
Qed.

Lemma cache_admit now f uid p mint boot :
  keeps (L := L) cache_right (admit_issued hex_encode now f uid p mint boot).
Proof.
  intros r r' x Hr. unfold admit_issued. destruct (unadmitted now f p (trust r)); [by intros [= <- <-]|].
  revert Hr. eapply (keeps_bind cache_right); [apply keeps_stored|]. intros []; keep.
  intros ? ? ? ? [= <- <-]. by apply cache_insert.
Qed.

Lemma cache_write_forgotten fg r :
  cache_right (trust r) → cache_right (trust (write_forgotten fg r)).
Proof.
  intros H. destruct fg as [[v h]|]; [|done].
  by apply (keeps_logged cache_right (write_hosts v h)); [apply keeps_write_hosts|].
Qed.

Lemma cache_record now f uid p boot :
  keeps (L := L) cache_right (record_with hex_encode now f uid p boot).
Proof.
  intros r r' x Hr. unfold record_with.
  set (checked := match boot with Some _ => _ | None => _ end). destruct checked as [refused r1] eqn:E1.
  assert (H1 : cache_right (trust r1)).
  { subst checked. destruct boot as [b|]; [|by injection E1 as <- <-].
    destruct (cache_revoked (trust (on_state acted r))) as [Hc _]; [done|].
    destruct (revoked _) as [c s]. by injection E1 as <- <-. }
  destruct refused; [by intros [= <- <-]|]. destruct (prune now r1) as [r2 [fg|e]] eqn:E2.
  - assert (H2 : cache_right (trust r2)) by (by eapply cache_prune in E2).
    destruct (admit_issued _ _ _ _ _ _ _ r2) as [r3 recorded] eqn:E3.
    assert (H3 : cache_right (trust r3)) by (by eapply cache_admit in E3).
    destruct (host_of_issuance _ _ _ _) as [act h].
    assert (H4 : cache_right (trust (on_state (λ s, set_hosts h (owners s) s) r3))) by done.
    destruct writes_hosts_by_act.
    + intros [= <- <-]. destruct act; [by apply cache_act_logged|done].
    + destruct act as [act|].
      * destruct (hosts_changed _) as [[v h'] r4] eqn:E4. intros [= <- <-].
        apply (cache_write_forgotten (Some (v, h'))). by eapply cache_hosts_changed.
      * intros [= <- <-]. by apply cache_write_forgotten.
  - intros [= <- <-]. by eapply cache_prune in E2.
Qed.

Lemma cache_add now what : keeps (L := L) cache_right (add hex_encode sha256 now what).
Proof.
  intros r r' x Hr. unfold add.
  destruct (stored _ (on_state acted r)) as [r1 [answer|e]] eqn:E1; [|intros [= <- <-]; by eapply keeps_stored in E1].
  assert (H1 : cache_right (trust r1)) by (by eapply keeps_stored in E1).
  destruct answer; [| | |by intros [= <- <-]];
    (destruct (find_revocation _ _);
     [case_bool_decide|]; intros [= <- <-]; [by apply (cache_same (trust r1))|apply cache_set_list..]).
Qed.

Lemma cache_revoke now authority serial :
  keeps (L := L) cache_right (revoke_certificate hex_encode sha256 now authority serial).
Proof.
  intros r r' x Hr. unfold revoke_certificate.
  case_bool_decide; [by intros [= <- <-]|]. destruct (_ || _); [by intros [= <- <-]|].
  destruct (_ <? _)%N; [by intros [= <- <-]|]. by apply cache_add.
Qed.

Lemma filter_same_length {A} (f : A → bool) l : length (List.filter f l) = length l → List.filter f l = l.
Proof.
  induction l as [|x l IH]; cbn; [done|]. destruct (f x); cbn; [intros [= H]; by rewrite IH|].
  intros H. pose proof (List.filter_length_le f l). lia.
Qed.

Lemma cache_lift id : keeps (L := L) cache_right (lift id).
Proof.
  refine (keeps_after cache_right acted _ cache_acted _). keep. intros r r' x Hr [= <- <-].
  destruct (Nat.eqb_spec (length (without id (revocations (trust r)))) (length (revocations (trust r)))) as [He|];
    [|apply cache_set_list].
  apply (cache_same (trust r)); [|done]. unfold verdicts. cbn. unfold without.
  by rewrite filter_same_length.
Qed.

Lemma loaded_cache held : revoked_cache (loaded held) = None.
Proof. unfold loaded, take_up_register. by destruct (foldl _ (∅, ∅) _). Qed.

Lemma cache_read_ledger r r' fresh : read_ledger r = (r', Ok fresh) → cache_right fresh ∧ trust r' = trust r.
Proof.
  unfold read_ledger, eff_bind, stored, eff_ret. destruct (ledger_load (ledger r)) as [l [held|e]]; [|done].
  intros [= <- <-]. split; [|done]. apply (cache_revoked (loaded held)). apply cache_none, loaded_cache.
Qed.

Lemma cache_reload_rounds meanwhile :
  Forall (λ act : Reg → Reg, ∀ r, cache_right (trust r) → cache_right (trust (act r))) meanwhile →
  keeps (L := L) cache_right (reload_rounds meanwhile).
Proof.
  induction 1 as [|act meanwhile Hact _ IH]; intros r r' x Hr; cbn; unfold eff_bind.
  - destruct (read_ledger r) as [r1 [fresh|e]] eqn:E1; intros [= <- <-].
    + apply cache_read_ledger in E1 as [Hf _]. by apply (cache_same fresh).
    + revert E1. unfold read_ledger, eff_bind, stored, eff_ret.
      destruct (ledger_load (ledger r)) as [l []]; [done|]. by intros [= <- <-].
  - destruct (read_ledger r) as [r1 [fresh|e]] eqn:E1.
    + apply cache_read_ledger in E1 as [Hf Ht]. destruct (_ =? _)%N.
      * intros [= <- <-]. by apply (cache_same fresh).
      * intros Hx. eapply IH; [|exact Hx]. apply Hact. by rewrite Ht.
    + intros [= <- <-]. revert E1. unfold read_ledger, eff_bind, stored, eff_ret.
      destruct (ledger_load (ledger r)) as [l []]; [done|]. by intros [= <- <-].
Qed.
End Cache.

(** ** What an instance lives through *)

Section Lives.
Context {L : Type} `{!LedgerStore L} (hex_encode : list N → string) (sha256 : list N → list N).
Notation Reg := (Revocations L).

(** One act of this instance, whatever it answers; an Agent is re-keyed to an identity just minted,
    which no Host speaks for. *)
Inductive act : Reg → Reg → Prop :=
| act_report r host subject t uid : act r (check_report hex_encode host subject t uid r).1
| act_release r uid : act r (release_uid hex_encode uid r).1
| act_rebind r old new : owners (trust r) !! hex_encode new = None → act r (rebind hex_encode old new r).1
| act_mark r host marked : act r (set_gateway host marked r).1
| act_record r now f uid p boot : act r (record_with hex_encode now f uid p boot r).1
| act_revoke r now authority serial : act r (revoke_certificate hex_encode sha256 now authority serial r).1
| act_lift r id : act r (lift id r).1
| act_check r c : act r (is_certificate_revoked c r).1
| act_serve r of_role : act r (revoked_certificates_at of_role r).1.

(** Its acts, and what it reads of the other instances' between them. *)
Inductive lives : Reg → Reg → Prop :=
| lives_refl r : lives r r
| lives_act r r1 r2 : act r r1 → lives r1 r2 → lives r r2
| lives_reload r a b c r2 :
    (∀ r, rtc act r (a r)) → (∀ r, rtc act r (b r)) → (∀ r, rtc act r (c r)) →
    lives (reload_ledger a b c r).1 r2 → lives r r2.

Lemma keeps_fst {E A} (P : State → Prop) (call : Eff Reg E A) r :
  keeps P call → P (trust r) → P (trust (call r).1).
Proof. intros Hk Hr. destruct (call r) as [r' x] eqn:E1. by eapply Hk. Qed.

Lemma cache_read (r : Reg) : cache_right (trust r) →
  (∀ c, cache_right (trust (is_certificate_revoked c r).1)) ∧
  (∀ k, cache_right (trust (revoked_certificates_at k r).1)).
Proof.
  intros Hr. destruct (cache_revoked _ Hr) as [Hc _].
  unfold is_certificate_revoked, revoked_certificates_at. by destruct (revoked (trust r)).
Qed.

Lemma cache_act r r' : act r r' → cache_right (trust r) → cache_right (trust r').
Proof.
  destruct 1; intros Hr; try (apply keeps_fst; [|done]).
  - apply cache_check_report.
  - apply cache_release.
  - apply cache_rebind.
  - apply cache_set_gateway.
  - apply cache_record.
  - apply cache_revoke.
  - apply cache_lift.
  - by apply cache_read.
  - by apply cache_read.
Qed.

Lemma cache_acts r r' : rtc act r r' → cache_right (trust r) → cache_right (trust r').
Proof. induction 1; eauto using cache_act. Qed.

Lemma cache_lives r r' : lives r r' → cache_right (trust r) → cache_right (trust r').
Proof.
  induction 1 as [r|r r1 r2 H _ IH|r a b c r2 Ha Hb Hc _ IH]; intros Hr; [done|eauto using cache_act|].
  apply IH. apply (keeps_fst cache_right); [|done]. apply cache_reload_rounds.
  repeat constructor; intros; eauto using cache_acts.
Qed.

Lemma cache_open now (l : L) a l' r : open_ledger now l a = (l', Ok r) → cache_right (trust r).
Proof.
  unfold open_ledger. destruct (ledger_load l) as [l1 [held|e]]; [|done].
  destruct (prune now _) as [r1 [fg|e]] eqn:E1; [|done]. intros [= <- <-].
  apply cache_write_forgotten. eapply cache_prune; [|exact E1]. apply cache_none, loaded_cache.
Qed.

(** C3: a certificate is refused exactly when the list names it or a certificate it renewed, however
    many renewals ago: whatever the instance lived through since it opened its ledger — reports,
    issuances, prunes, revocations, lifts, and reads of what other instances wrote, each answered or
    failed by the store — the set it keeps answers as the chains say, also where the register's
    chains run in a circle; and the list it serves the Gateways of a role is those of the role's
    CAs. *)
Theorem revoked_set_follows_the_chains now (l : L) a l' r0 r c :
  open_ledger now l a = (l', Ok r0) → lives r0 r →
  let distrust := distrusted (issued (trust r)) (named_in (revocations (trust r))) in
  ((is_certificate_revoked c r).2 = true ↔ distrust c) ∧
  ∀ of_role, c ∈ (revoked_certificates_at of_role r).2.1 ↔
    distrust c ∧ ∃ au, au ∈ authorities r ∧ role au = of_role ∧ authority_subject au = issuer c.
Proof.
  intros Ho Hl distrust. destruct (cache_revoked (trust r)) as [_ Hc]; [by eapply cache_lives, cache_open|].
  unfold is_certificate_revoked, revoked_certificates_at. destruct (revoked (trust r)) as [set s].
  cbn in Hc. subst set. split.
  - cbn. rewrite bool_decide_eq_true. apply elem_of_resolve.
  - intros k. cbn. rewrite elem_of_filter, elem_of_resolve, list_elem_of_fmap.
    setoid_rewrite list_elem_of_In. setoid_rewrite filter_In. setoid_rewrite bool_decide_eq_true.
    naive_solver.
Qed.
End Lives.

(** ** What a prune keeps *)

(** [a] is [c] or a certificate [c] renewed, however many renewals ago. *)
Definition ancestor (m : gmap CertId Issued) : CertId → CertId → Prop :=
  rtc (λ x y, renewed m x = Some y).

Definition valid_in (m : gmap CertId Issued) (now : N) (c : CertId) : Prop :=
  ∃ i, m !! c = Some i ∧ (now < not_after_ms (facts i))%N.

Section Needed.
Context (m : gmap CertId Issued).

(** Every certificate of [X] renewed another of [X], or [current]. *)
Definition closed_but (current : option CertId) (X : gset CertId) : Prop :=
  ∀ a p, a ∈ X → renewed m a = Some p → p ∈ X ∨ current = Some p.

Lemma needed_walk_spec rounds : ∀ current X new,
  closed_but current X → new ⊆ X →
  (∀ a, a ∈ new → renewed m a = current ∨ is_Some (renewed m a)) →
  (base.size m < rounds + base.size new)%nat →
  let Y := needed_walk m rounds current X in
  closed_but None Y ∧ X ⊆ Y ∧ (∀ c, rounds ≠ 0%nat → current = Some c → c ∈ Y) ∧
  (∀ y, y ∈ Y → y ∈ X ∨ ∃ c, current = Some c ∧ ancestor m c y).
Proof.
  induction rounds as [|rounds IH]; intros current X new HX Hnew Hr Hlen; cbn.
  - destruct current as [c|]; [|by split_and!; auto].
    exfalso. assert (Hsub : new ⊆ dom m).
    { intros a Ha. apply elem_of_dom. assert (Hs : is_Some (renewed m a)) by (destruct (Hr a Ha) as [->|]; eauto).
      unfold renewed in Hs. destruct (m !! a); [by eexists|by destruct Hs]. }
    apply subseteq_size in Hsub. rewrite size_dom in Hsub. lia.
  - destruct current as [c|]; [|by split_and!; auto]. case_bool_decide as Hc.
    { split_and!; [|done|by intros ? _ [= <-]|by left]. intros a p Ha Hp. left.
      destruct (HX a p Ha Hp) as [|[= ->]]; done. }
    destruct (IH (renewed m c) ({[c]} ∪ X) ({[c]} ∪ new)) as (H1 & H2 & _ & H4).
    + intros a p [->%elem_of_singleton|Ha]%elem_of_union Hp; [by right|].
      left. destruct (HX a p Ha Hp) as [|[= ->]]; set_solver.
    + set_solver.
    + intros a [->%elem_of_singleton|Ha]%elem_of_union; [by left|].
      destruct (Hr a Ha) as [->|]; [right; eauto|by right].
    + rewrite size_union, size_singleton by set_solver. lia.
    + split_and!; [done|set_solver|intros ? _ [= <-]; set_solver|].
      intros y Hy. destruct (H4 y Hy) as [[->%elem_of_singleton|]%elem_of_union|(p & Hp & Ha)].
      * right. exists c. split; [done|apply rtc_refl].
      * by left.
      * right. exists c. split; [done|]. by eapply rtc_l.
Qed.

Lemma needed_one_spec now X id :
  closed_but None X →
  let Y := needed_one m now X id in
  closed_but None Y ∧ X ⊆ Y ∧ (valid_in m now id → id ∈ Y) ∧
  (∀ y, y ∈ Y → y ∈ X ∨ valid_in m now id ∧ ancestor m id y).
Proof.
  intros HX. unfold needed_one, valid_in. destruct (m !! id) as [i|] eqn:Hi; [|split_and!; naive_solver].
  destruct (N.leb_spec (not_after_ms (facts i)) now) as [Hle|Hlt].
  { split_and!; [done..| |by left]. intros (j & [= <-] & Hn). lia. }
  destruct (needed_walk_spec (S (base.size m)) (Some id) X ∅) as (G1 & G2 & G3 & G4);
    [intros a' p Ha Hp; destruct (HX a' p Ha Hp); [by left|done]|set_solver|set_solver|lia|].
  split_and!; [done..|intros _; by apply G3|].
  intros y Hy. destruct (G4 y Hy) as [|(c & [= <-] & Hc)]; [by left|right; eauto].
Qed.

Lemma needed_all_spec now l : ∀ X,
  closed_but None X →
  let Y := foldl (needed_one m now) X l in
  closed_but None Y ∧ X ⊆ Y ∧ (∀ c, c ∈ l → valid_in m now c → c ∈ Y) ∧
  (∀ y, y ∈ Y → y ∈ X ∨ ∃ c, valid_in m now c ∧ ancestor m c y).
Proof.
  induction l as [|id l IH]; intros X HX; cbn [foldl].
  { split_and!; [done..|by intros c ?%elem_of_nil|by left]. }
  destruct (needed_one_spec now X id HX) as (G1 & G2 & G3 & G4).
  destruct (IH _ G1) as (H1 & H2 & H3 & H4). split_and!; [done|by etrans| |].
  - intros c [->|Hc]%elem_of_cons Hv; auto.
  - intros y Hy. destruct (H4 y Hy) as [Hy'|]; [|by right]. destruct (G4 y Hy'); [by left|right; eauto].
Qed.

(** The entries a prune keeps: the ancestors of the certificates still valid. *)
Lemma elem_of_needed now a :
  a ∈ needed m now ↔ ∃ c, valid_in m now c ∧ ancestor m c a.
Proof.
  destruct (needed_all_spec now (register_keys m) ∅) as (Hclosed & _ & Hall & Honly);
    [by intros ? ? ?%not_elem_of_empty|]. split.
  - intros Ha. destruct (Honly a Ha) as [?%not_elem_of_empty|]; done.
  - intros (c & Hv & Hanc). assert (Hc : c ∈ needed m now).
    { apply Hall; [|done]. apply elem_of_register_keys. destruct Hv as (i & -> & _). by eexists. }
    clear Hv. induction Hanc as [|x y z Hxy _ IH]; [done|]. apply IH.
    by destruct (Hclosed x y Hc Hxy).
Qed.
End Needed.

Section Prune.
Context {L : Type} `{!LedgerStore L}.
Notation Reg := (Revocations L).

(** A state some of a prune of the register [m] and the list [l] has passed over. *)
Definition pruned (now : N) (m : gmap CertId Issued) (l : list Revocation) (s : State) : Prop :=
  (∀ id, issued s !! id = m !! id ∨ id ∉ needed m now ∧ issued s !! id = None) ∧
  (∀ e, e ∈ revocations s → e ∈ l) ∧
  (∀ e, e ∈ l → e ∈ revocations s ∨
     ∃ g, g ∉ needed m now ∧ is_Some (m !! g) ∧
       serial g = revoked_serial (what_revoked e) ∧ issuer g ∈ issuers (what_revoked e)).

Lemma pruned_same now m l s s' :
  issued s = issued s' → revocations s = revocations s' → pruned now m l s → pruned now m l s'.
Proof. unfold pruned. by intros -> ->. Qed.

Lemma pruned_remove now m l id s :
  id ∉ needed m now → pruned now m l s → pruned now m l (state_remove id s).
Proof.
  intros Hid (H1 & H2 & H3). unfold state_remove. destruct (issued s !! id); [|done].
  split; [|done]. intros k. cbn. destruct (decide (k = id)) as [->|Hne].
  - rewrite lookup_delete_eq. by right.
  - by rewrite lookup_delete_ne.
Qed.

Lemma names_gone_spec gone e :
  names_gone gone e = true ↔
  ∃ g, g ∈ gone ∧ serial g = revoked_serial (what_revoked e) ∧ issuer g ∈ issuers (what_revoked e).
Proof.
  unfold names_gone. rewrite existsb_exists. setoid_rewrite andb_true_iff.
  setoid_rewrite bool_decide_eq_true. by setoid_rewrite list_elem_of_In.
Qed.

Lemma elem_of_without id l e : e ∈ without id l ↔ e ∈ l ∧ revocation_id e ≠ id.
Proof.
  unfold without. rewrite !list_elem_of_In, filter_In, negb_true_iff, bool_decide_eq_false. done.
Qed.

Lemma NoDup_ids_eq (l : list Revocation) e e' :
  NoDup (revocation_id <$> l) → e ∈ l → e' ∈ l → revocation_id e = revocation_id e' → e = e'.
Proof.
  induction l as [|x l IH]; cbn; [by intros _ ?%elem_of_nil|].
  intros [Hx Hl]%NoDup_cons [->|He]%elem_of_cons [->|He']%elem_of_cons Heq; [done| | |auto];
    destruct Hx; apply list_elem_of_fmap; eauto.
Qed.

(** The entries of the register a prune takes out, in the order of the register. *)
Definition gone_of (m : gmap CertId Issued) (now : N) : list CertId :=
  List.filter (λ id, negb (bool_decide (id ∈ needed m now))) (register_keys m).

Lemma elem_of_gone m now id : id ∈ gone_of m now ↔ id ∉ needed m now ∧ is_Some (m !! id).
Proof.
  unfold gone_of. rewrite list_elem_of_In, filter_In, negb_true_iff, bool_decide_eq_false.
  rewrite <- list_elem_of_In, elem_of_register_keys. naive_solver.
Qed.

(** What one round of the second loop drops. *)
Lemma pruned_drop now m l id v c s :
  NoDup (revocation_id <$> l) →
  (∃ e, e ∈ l ∧ revocation_id e = id ∧ names_gone (gone_of m now) e = true) →
  pruned now m l s → pruned now m l (set_list (without id (revocations s)) v c s).
Proof.
  intros Hnd (e0 & He0 & Hid & Hgone) (H1 & H2 & H3). split; [done|]. cbn. split.
  - intros e [He _]%elem_of_without. auto.
  - intros e He. destruct (H3 e He) as [Hin|]; [|by right]. rewrite elem_of_without.
    destruct (decide (revocation_id e = id)) as [Heq|]; [right|by left].
    assert (e = e0) as -> by (eapply NoDup_ids_eq; [done..|congruence]).
    apply names_gone_spec in Hgone as (g & [Hg Hm]%elem_of_gone & ?). eauto.
Qed.

Lemma pruned_hosts now s s' a b :
  prune_hosts now s = (s', a, b) → issued s' = issued s ∧ revocations s' = revocations s.
Proof. by intros [= <- <- <-]. Qed.

Lemma pruned_told now m l s (r r1 : Reg) extended over fg :
  pruned now m l s →
  (if writes_hosts_by_act then
     let r := if bool_decide (extended = []) then on_state (λ _, s) r
              else write_act_logged (ActExtended extended) (on_state (λ _, s) r) in
     let r := if bool_decide (over = []) then r else write_act_logged (ActForgotten over now) r in
     (None, r)
   else if negb (bool_decide (extended = []) && bool_decide (over = []))
        then let '(v, h, r) := hosts_changed (on_state (λ _, s) r) in (Some (v, h), r)
        else (None, on_state (λ _, s) r)) = (fg, r1) →
  pruned now m l (trust r1).
Proof.
  intros Hs. assert (Hlog : ∀ act (r : Reg), trust (write_act_logged act r) = trust r).
  { intros act r0. unfold write_act_logged, logged, stored. by destruct (write_host_act act (ledger r0)). }
  destruct writes_hosts_by_act.
  - intros [= <- <-]. repeat case_bool_decide; rewrite ?Hlog; done.
  - destruct (negb _); intros [= <- <-]; exact Hs.
Qed.

Lemma prune_spec now r r' x :
  let m := issued (trust r) in let l := revocations (trust r) in
  NoDup (revocation_id <$> l) → prune now r = (r', x) → pruned now m l (trust r').
Proof.
  intros m l Hnd. assert (H0 : pruned now m l (trust r)) by (split_and!; auto).
  unfold prune. destruct (_ <? _)%N; [by intros [= <- <-]|].
  destruct (prune_hosts now (trust r)) as [[s extended] over] eqn:Es.
  apply pruned_hosts in Es as [Hi Hl].
  assert (Hs : pruned now m l s) by (by eapply pruned_same; [..|exact H0]).
  set (told := if writes_hosts_by_act then _ else _). destruct told as [forgotten r1] eqn:Et.
  assert (H1 : pruned now m l (trust r1)) by by eapply pruned_told.
  case_bool_decide; [intros [= <- <-]; by eapply pruned_same; [..|exact H1]|].
  intros Hx. eapply (keeps_bind (pruned now m l)); [| | |exact Hx]; [| |by eapply pruned_same; [..|exact H1]].
  - apply keeps_each. intros id [Hid _]%elem_of_gone. keep. intros r2 r3 y H2 [= <- <-]. by apply pruned_remove.
  - intros _ r2 r3 y H2 Hy. eapply (keeps_bind (pruned now m l)); [|intros; apply keeps_ret|exact H2|exact Hy].
    apply keeps_each. intros id Hid. keep. intros r4 r5 z H4 [= <- <-]. apply pruned_drop; [done| |done].
    apply list_elem_of_fmap in Hid as (e & -> & He). exists e.
    apply list_elem_of_In, filter_In in He as [He%list_elem_of_In Hg]. split; [by apply H2|done].
Qed.

Lemma distrusted_ancestor m named c :
  distrusted m named c ↔ ∃ a, ancestor m c a ∧ a ∈ named.
Proof.
  split.
  - induction 1 as [|id p Hr _ (a & Ha & Hn)]; [eexists; split; [apply rtc_refl|done]|].
    exists a. split; [by eapply rtc_l|done].
  - intros (a & Ha & Hn). induction Ha as [|x y z Hxy _ IH]; [by apply distrusted_named|].
    eapply distrusted_renewal; [done|auto].
Qed.

Lemma elem_of_named_in l id :
  id ∈ named_in l ↔ ∃ e, e ∈ l ∧ issuer id ∈ issuers (what_revoked e) ∧
    serial id = revoked_serial (what_revoked e).
Proof.
  unfold named_in. rewrite elem_of_list_to_set, list_elem_of_bind. setoid_rewrite list_elem_of_fmap.
  split.
  - intros (e & (i & -> & Hi) & He). eauto.
  - intros (e & He & Hi & Hs). exists e. split; [|done]. exists (issuer id).
    split; [by destruct id; cbn in *; subst|done].
Qed.

(** A prune forgets nothing that still holds. Whatever the store answers half way, every
    certificate still valid keeps its entry and every entry it descends from, and stays refused
    exactly when it was: a revocation leaves the list only with a certificate from which no valid
    one descends — provided no entry of the list names the serial under two CAs. *)
Theorem valid_certificates_survive_a_prune now r r' x c :
  NoDup (revocation_id <$> revocations (trust r)) →
  Forall (λ e, length (issuers (what_revoked e)) ≤ 1)%nat (revocations (trust r)) →
  prune now r = (r', x) → valid_in (issued (trust r)) now c →
  (∀ a, ancestor (issued (trust r)) c a → issued (trust r') !! a = issued (trust r) !! a) ∧
  (distrusted (issued (trust r')) (named_in (revocations (trust r'))) c ↔
   distrusted (issued (trust r)) (named_in (revocations (trust r))) c).
Proof.
  intros Hnd Hone Hp Hv. destruct (prune_spec now r r' x Hnd Hp) as (H1 & H2 & H3).
  set (m := issued (trust r)) in *. set (m' := issued (trust r')) in *.
  assert (Hkept : ∀ a, ancestor m c a → m' !! a = m !! a).
  { intros a Ha. destruct (H1 a) as [|[Hn _]]; [done|]. destruct Hn. apply elem_of_needed. eauto. }
  split; [done|].
  assert (Hanc : ∀ a, ancestor m' c a ↔ ancestor m c a).
  { intros a. split; intros Ha.
    - revert Hkept. clear -Ha H1. unfold ancestor. induction Ha as [|x y z Hxy _ IH]; intros Hk; [apply rtc_refl|].
      assert (Hm : renewed m x = Some y).
      { unfold renewed in *. rewrite Hk in Hxy; [done|apply rtc_refl]. }
      eapply rtc_l; [done|]. apply IH. intros b Hb. apply Hk. by eapply rtc_l.
    - revert Hkept. clear -Ha. unfold ancestor. induction Ha as [|x y z Hxy _ IH]; intros Hk; [apply rtc_refl|].
      eapply rtc_l; [|apply IH; intros b Hb; apply Hk; by eapply rtc_l].
      unfold renewed in *. rewrite Hk; [done|apply rtc_refl]. }
  rewrite !distrusted_ancestor. setoid_rewrite Hanc. setoid_rewrite elem_of_named_in. split.
  - intros (a & Ha & e & He & Hi). eauto 10.
  - intros (a & Ha & e & He & Hi & Hs). exists a. split; [done|]. exists e. split; [|done].
    destruct (H3 e He) as [|(g & Hg & _ & Hgs & Hgi)]; [done|]. destruct Hg. apply elem_of_needed.
    exists c. split; [done|]. rewrite Forall_forall in Hone. specialize (Hone e He).
    destruct (issuers (what_revoked e)) as [|i [|]]; cbn in Hone; [by apply elem_of_nil in Hi| |lia].
    apply list_elem_of_singleton in Hi, Hgi. destruct g, a; cbn in *. congruence.
Qed.
End Prune.
