(* ===== verification/Bindings.v ===== *)
(** * Which Host speaks for an Agent

    The bindings of [fleet-server/src/revocation.rs] between the Agents and the Hosts, through every
    act of an instance. *)

From S2P Require Import Prelude RustStr Proto Placement Revocation Trust.

Open Scope string_scope.
Open Scope list_scope.

(** An Agent is bound to the one Host that lists it; a Gateway's Host lists none, and no Host lists
    more than it may. *)
Definition bindings (s : State) : Prop :=
  (∀ u h, owners s !! u = Some h ↔ ∃ e, hosts s !! h = Some e ∧ u ∈ instance_uids e) ∧
  (∀ h e, hosts s !! h = Some e →
     (is_marked e = true → instance_uids e = ∅) ∧
     (N.of_nat (base.size (instance_uids e)) ≤ MAX_UIDS_PER_HOST)%N).

Lemma bindings_same s s' :
  hosts s = hosts s' → owners s = owners s' → bindings s → bindings s'.
Proof. unfold bindings. by intros -> ->. Qed.

(** Changing a Host in what the bindings do not read. *)
Lemma bindings_host s host e e' :
  bindings s → hosts s !! host = Some e →
  is_marked e' = is_marked e → instance_uids e' = instance_uids e →
  bindings (set_hosts (<[host := e']> (hosts s)) (owners s) s).
Proof.
  intros [H1 H2] He Hm Hu. split; cbn.
  - intros u h. rewrite H1. destruct (decide (h = host)) as [->|Hne].
    + rewrite lookup_insert_eq, He. naive_solver congruence.
    + by rewrite lookup_insert_ne.
  - intros h e0. destruct (decide (h = host)) as [->|Hne].
    + rewrite lookup_insert_eq. intros [= <-]. rewrite Hm, Hu. by apply (H2 host).
    + rewrite lookup_insert_ne by done. apply H2.
Qed.

Lemma bindings_new_host s host e :
  bindings s → hosts s !! host = None → instance_uids e = ∅ →
  bindings (set_hosts (<[host := e]> (hosts s)) (owners s) s).
Proof.
  intros [H1 H2] Hn Hu. split; cbn.
  - intros u h. rewrite H1. destruct (decide (h = host)) as [->|Hne].
    + rewrite lookup_insert_eq, Hn. split; [naive_solver|]. intros (e0 & [= <-] & Hin). rewrite Hu in Hin. set_solver.
    + by rewrite lookup_insert_ne.
  - intros h e0. destruct (decide (h = host)) as [->|Hne].
    + rewrite lookup_insert_eq. intros [= <-]. rewrite Hu, size_empty. done.
    + rewrite lookup_insert_ne by done. apply H2.
Qed.

(** An Agent no Host speaks for, bound to a Host that has room. *)
Lemma bindings_bind s host e u :
  bindings s → owners s !! u = None → instance_uids e = from_option instance_uids ∅ (hosts s !! host) →
  is_marked e = false → (N.of_nat (base.size (instance_uids e)) < MAX_UIDS_PER_HOST)%N →
  bindings (set_hosts (<[host := with_uids (λ x, {[u]} ∪ x) e]> (hosts s)) (<[u := host]> (owners s)) s).
Proof.
  intros [H1 H2] Hu He Hm Hsize.
  assert (Hfree : ∀ h e', hosts s !! h = Some e' → u ∉ instance_uids e').
  { intros h e' He' Hin. assert (owners s !! u = Some h) by (apply H1; eauto). congruence. }
  assert (Hnew : u ∉ instance_uids e).
  { rewrite He. destruct (hosts s !! host) as [e'|] eqn:E; [by eapply Hfree|]. apply not_elem_of_empty. }
  split; cbn.
  - intros u' h. destruct (decide (u' = u)) as [->|Hne].
    + rewrite lookup_insert_eq. split.
      * intros [= <-]. rewrite lookup_insert_eq. eexists. split; [done|]. cbn. set_solver.
      * intros (e' & He' & Hin). destruct (decide (h = host)) as [->|Hh]; [done|].
        rewrite lookup_insert_ne in He' by done. by destruct (Hfree h e' He').
    + rewrite lookup_insert_ne by done. rewrite H1.
      destruct (decide (h = host)) as [->|Hh]; [|by rewrite lookup_insert_ne].
      rewrite lookup_insert_eq. split.
      * intros (e' & He' & Hin). rewrite He' in He. cbn in He. eexists. split; [done|]. cbn. set_solver.
      * intros (e' & [= <-] & Hin). cbn in Hin. destruct (hosts s !! host) as [e'|]; cbn in He; [|set_solver].
        exists e'. split; [done|]. set_solver.
  - intros h e'. destruct (decide (h = host)) as [->|Hh].
    + rewrite lookup_insert_eq. intros [= <-]. cbn. split; [congruence|].
      rewrite size_union, size_singleton by set_solver. lia.
    + rewrite lookup_insert_ne by done. apply H2.
Qed.

(** An Agent let go. *)
Lemma bindings_drop s u :
  bindings s →
  bindings (set_hosts (match owners s !! u with Some h => drop_uid u h (hosts s) | None => hosts s end)
              (delete u (owners s)) s).
Proof.
  intros [H1 H2].
  assert (Hl : ∀ h, (match owners s !! u with Some h => drop_uid u h (hosts s) | None => hosts s end) !! h
                    = (λ e, with_uids (λ x, x ∖ {[u]}) e) <$> (hosts s !! h) ∨
                    (match owners s !! u with Some h => drop_uid u h (hosts s) | None => hosts s end) !! h
                    = hosts s !! h ∧ ∀ e, hosts s !! h = Some e → u ∉ instance_uids e).
  { intros h. destruct (owners s !! u) as [o|] eqn:Ho.
    - unfold drop_uid. destruct (decide (h = o)) as [->|Hne].
      + left. by rewrite lookup_alter_eq.
      + right. rewrite lookup_alter_ne by done. split; [done|]. intros e He Hin.
        assert (owners s !! u = Some h) by (apply H1; eauto). congruence.
    - right. split; [done|]. intros e He Hin.
      assert (owners s !! u = Some h) by (apply H1; eauto). congruence. }
  split; cbn.
  - intros u' h. destruct (decide (u' = u)) as [->|Hne].
    + rewrite lookup_delete_eq. split; [done|]. intros (e & He & Hin). exfalso.
      destruct (Hl h) as [Hh|[Hh Hfree]]; rewrite Hh in He.
      * destruct (hosts s !! h); [|done]. injection He as <-. cbn in Hin. set_solver.
      * by eapply Hfree.
    + rewrite lookup_delete_ne by done. rewrite H1.
      destruct (Hl h) as [Hh|[Hh _]]; rewrite Hh; [|done].
      destruct (hosts s !! h) as [e|]; cbn; [|naive_solver]. split.
      * intros (e' & [= <-] & Hin). eexists. split; [done|]. cbn. set_solver.
      * intros (e' & [= <-] & Hin). exists e. split; [done|]. cbn in Hin. set_solver.
  - intros h e He. destruct (Hl h) as [Hh|[Hh _]]; rewrite Hh in He; [|by apply (H2 h)].
    destruct (hosts s !! h) as [e0|] eqn:E; [|done]. injection He as <-. cbn.
    destruct (H2 h e0 E) as [Hm Hs]. split; [intros Hm'; rewrite Hm by done; set_solver|].
    assert (base.size (instance_uids e0 ∖ {[u]}) ≤ base.size (instance_uids e0))%nat
      by (apply subseteq_size; set_solver). lia.
Qed.

(** Dropping an Agent from Hosts that do not list it. *)
Lemma bindings_drop_absent s u h :
  bindings s → owners s !! u = None → bindings (set_hosts (drop_uid u h (hosts s)) (owners s) s).
Proof.
  intros HB Hu. pose proof HB as [H1 _]. destruct (hosts s !! h) as [e|] eqn:E.
  - unfold drop_uid. replace (alter _ h (hosts s)) with (<[h := with_uids (λ x, x ∖ {[u]}) e]> (hosts s)).
    + eapply bindings_host; [done..|]. cbn. assert (u ∉ instance_uids e); [|set_solver].
      intros Hin. assert (owners s !! u = Some h) by (apply H1; eauto). congruence.
    + apply map_eq. intros k. destruct (decide (k = h)) as [->|];
        [by rewrite lookup_insert_eq, lookup_alter_eq, E|by rewrite lookup_insert_ne, lookup_alter_ne].
  - eapply bindings_same; [| |exact HB]; [|done]. cbn. unfold drop_uid.
    apply map_eq. intros k. destruct (decide (k = h)) as [->|];
      [by rewrite lookup_alter_eq, E|by rewrite lookup_alter_ne].
Qed.

Lemma extend_binds t e : is_marked (extend t e).1 = is_marked e ∧ instance_uids (extend t e).1 = instance_uids e.
Proof. unfold extend. by destruct (covers _ _). Qed.

Lemma extended_by_binds l n e :
  is_marked (extended_by l n e).1 = is_marked e ∧ instance_uids (extended_by l n e).1 = instance_uids e.
Proof. unfold extended_by. destruct (l !! n); [apply extend_binds|done]. Qed.

(** A Host that ends takes its bindings with it. *)
Lemma bindings_prune_hosts now s s' a b :
  prune_hosts now s = (s', a, b) → bindings s → bindings s'.
Proof.
  intros [= <- <- <-] [H1 H2]. split; cbn.
  - intros u h. rewrite map_lookup_filter_Some, H1. cbn. rewrite elem_of_btree_keys.
    setoid_rewrite map_lookup_filter_Some. rewrite map_lookup_imap.
    destruct (hosts s !! h) as [e|] eqn:E; cbn; [|naive_solver].
    destruct (extended_by_binds (latest (issued s)) h e) as [_ Hu]. split.
    + intros [(e0 & [= <-] & Hin) Hk]. eexists. split; [split; [done|]|by rewrite Hu].
      destruct (ended now _) eqn:Ee; [|done]. destruct Hk. eexists. apply map_lookup_filter_Some.
      rewrite map_lookup_imap, E. split; [done|]. exact Ee.
    + intros (e0 & [[= <-] Hk] & Hin). rewrite Hu in Hin. split; [eauto|].
      intros [e0 [He0 He1]%map_lookup_filter_Some]. rewrite map_lookup_imap, E in He0.
      injection He0 as <-. cbn in He1. congruence.
  - intros h e0 [Hl _]%map_lookup_filter_Some. rewrite map_lookup_imap in Hl.
    destruct (hosts s !! h) as [e|] eqn:E; [|done]. injection Hl as <-.
    destruct (extended_by_binds (latest (issued s)) h e) as [-> ->]. by apply (H2 h).
Qed.

(** A Host marked as a Gateway is bound none. *)
Lemma bindings_clear s host e :
  bindings s → instance_uids e = ∅ →
  bindings (set_hosts (<[host := e]> (hosts s)) (filter (λ uo, uo.2 ≠ host) (owners s)) s).
Proof.
  intros [H1 H2] He. split; cbn.
  - intros u h. rewrite map_lookup_filter_Some, H1. cbn. destruct (decide (h = host)) as [->|Hne].
    + rewrite lookup_insert_eq. split; [naive_solver|]. intros (e0 & [= <-] & Hin). rewrite He in Hin. set_solver.
    + rewrite lookup_insert_ne by done. naive_solver.
  - intros h e0. destruct (decide (h = host)) as [->|Hne].
    + rewrite lookup_insert_eq. intros [= <-]. rewrite He, size_empty. done.
    + rewrite lookup_insert_ne by done. apply H2.
Qed.

(** A store that is its only writer binds what the Server decided in memory. *)
Class SoleWriter (L : Type) `{!LedgerStore L} : Prop := {
  sole_bind_seen u h row (l l' : L) b : bind_seen u h row l = (l', Ok b) → b = BoundTo;
  sole_bind u h (l l' : L) b : ledger_bind u h l = (l', Ok b) → b = BoundTo;
  sole_rebind old new (l l' : L) x : ledger_rebind old new l = (l', Ok x) → x = None;
}.

Section Bindings.
Context {L : Type} `{!LedgerStore L} `{!SoleWriter L}.
Context (hex_encode : list N → string) (sha256 : list N → list N).
Notation Reg := (Revocations L).
Implicit Types r : Reg.

Definition marked_in (s : State) (host : string) : bool := from_option is_marked false (hosts s !! host).

Lemma bindings_hosts_changed r v h r' :
  bindings (trust r) → hosts_changed r = (v, h, r') → bindings (trust r').
Proof. intros H [= <- <- <-]. exact H. Qed.

Lemma save_hosts_trust r r' x :
  save_hosts r = (r', x) → hosts (trust r') = hosts (trust r) ∧ owners (trust r') = owners (trust r).
Proof.
  unfold save_hosts, hosts_changed, write_hosts. destruct (_ <=? _)%N; [by intros [= <- <-]|].
  destruct (ledger_save_hosts _ _) as [l []]; by intros [= <- <-].
Qed.

Lemma bindings_save_hosts : keeps (L := L) bindings save_hosts.
Proof. intros r r' x Hr [H1 H2]%save_hosts_trust. by eapply bindings_same; [..|exact Hr]. Qed.

Lemma stored_trust {A} (call : Eff L LedgerError A) r r' x : stored call r = (r', x) → trust r' = trust r.
Proof. unfold stored. destruct (call (ledger r)). by intros [= <- <-]. Qed.

Lemma marked_lists_none s h u : bindings s → marked_in s h = true → owners s !! u ≠ Some h.
Proof.
  intros [H1 H2] Hm (e & He & Hin)%H1. unfold marked_in in Hm. rewrite He in Hm.
  apply (H2 h e He) in Hm. rewrite Hm in Hin. set_solver.
Qed.

(** What the answer of [admits] says, where the bindings hold. *)
Lemma admits_spec s host u :
  bindings s →
  match admits s host u with
  | Ok false => marked_in s host = true ∨ owners s !! u = Some host
  | Ok true => marked_in s host = false ∧ owners s !! u = None ∧
               (N.of_nat (base.size (from_option instance_uids ∅ (hosts s !! host))) < MAX_UIDS_PER_HOST)%N
  | Err e => marked_in s host = false ∧ owners s !! u ≠ Some host
  end.
Proof.
  intros HB. unfold admits. fold (marked_in s host). destruct (marked_in s host) eqn:Hm; [by left|].
  destruct (owners s !! u) as [o|] eqn:Ho.
  - case_bool_decide as Heq; [subst; by right|]. fold (marked_in s o).
    destruct (marked_in s o) eqn:Hmo; [|split; [done|congruence]].
    by destruct (marked_lists_none s o u HB Hmo).
  - destruct (N.leb_spec MAX_UIDS_PER_HOST
      (N.of_nat (base.size (from_option instance_uids ∅ (hosts s !! host))))); split; done.
Qed.

(** What an Agent of another Host's is refused with. *)
Lemma admits_another s host other u :
  bindings s → marked_in s host = false → owners s !! u = Some other → other ≠ host →
  admits s host u = Err AnotherHost.
Proof.
  intros HB Hm Ho Hne. unfold admits. fold (marked_in s host). rewrite Hm, Ho.
  rewrite bool_decide_false by done. fold (marked_in s other).
  destruct (marked_in s other) eqn:Hmo; [|done]. by destruct (marked_lists_none s other u HB Hmo).
Qed.

Lemma bind_sole u host row r r' x :
  bind u host row r = (r', x) →
  hosts (trust r') = hosts (trust r) ∧
  (x = Ok true ∧ owners (trust r') = <[u := host]> (owners (trust r)) ∨
   is_ok x = false ∧ owners (trust r') = owners (trust r)).
Proof.
  unfold bind, eff_bind, stored, state_eff. cbn.
  destruct (bind_seen u host row (ledger r)) as [l [b|e]] eqn:E1; cbn.
  - apply sole_bind_seen in E1 as ->. intros [= <- <-]. by auto.
  - intros [= <- <-]. by auto.
Qed.

Lemma bindings_extended (s : State) h o host t h' moved :
  bindings (set_hosts h o s) → extend_in host t h = (h', moved) → bindings (set_hosts h' o s).
Proof.
  intros HB. unfold extend_in. destruct (h !! host) as [e|] eqn:E; [|by intros [= <- <-]].
  destruct (extend_binds t e) as [Hm Hu]. destruct (extend t e) as [e' mv]. intros [= <- <-].
  exact (bindings_host (set_hosts h o s) host e e' HB E Hm Hu).
Qed.

(** What [bind_admitted] leaves, where the bindings hold. *)
Lemma bind_admitted_spec host u row subject r r' x :
  bindings (trust r) → bind_admitted host u row r = (r', x) →
  match x with
  | Ok binds =>
      bindings (set_hosts (if binds : bool then bound_hosts host u subject (hosts (trust r')) else hosts (trust r'))
                  (owners (trust r')) (trust r')) ∧
      (marked_in (trust r) host = true ∨ owners (trust r') !! u = Some host)
  | Err e => bindings (trust r')
  end.
Proof.
  intros HB. unfold bind_admitted. pose proof (admits_spec (trust r) host u HB) as Ha.
  destruct (admits (trust r) host u) as [[]|e].
  - destruct Ha as (Hm & Hu & Hsize). intros [Hh [[-> Ho]|[Hx Ho]]]%bind_sole.
    + rewrite Hh, Ho. split; [|right; by rewrite lookup_insert_eq].
      eapply (bindings_same (set_hosts _ _ (trust r))); [reflexivity..|]. unfold marked_in in Hm.
      apply bindings_bind; [done|done|..]; by destruct (hosts (trust r) !! host).
    + destruct x; [done|]. by eapply bindings_same; [..|exact HB].
  - intros [= <- <-]. split; [|done]. by eapply bindings_same; [..|exact HB].
  - intros [= <- <-]. done.
Qed.

Lemma report_spec host subject t uid r r' x :
  let u := hex_encode uid in
  bindings (trust r) → check_report hex_encode host subject t uid r = (r', x) →
  bindings (trust r') ∧
  (x = Ok tt → marked_in (trust r) host = true ∨ owners (trust r') !! u = Some host) ∧
  (∀ e, admits (trust r) host u = Err e → r' = r ∧ x = Err e).
Proof.
  intros u HB. unfold check_report. fold u.
  destruct (bind_admitted host u _ r) as [r1 [binds|e]] eqn:E1;
    pose proof (bind_admitted_spec host u _ subject r _ _ HB E1) as H0; unfold bind_admitted in E1.
  2: { intros [= <- <-]. split; [done|]. split; [done|]. intros e' He. rewrite He in E1. by injection E1 as <- <-. }
  destruct H0 as [H0 Hbound].
  destruct (extend_in _ _ _) as [h1 extended] eqn:Eh. eapply bindings_extended in H0; [|exact Eh].
  set (s := if extended : bool then _ else _).
  assert (Hs : hosts s = h1 ∧ owners s = owners (trust r1)) by by destruct extended.
  destruct Hs as [Hs1 Hs2]. assert (HBs : bindings s) by (by eapply bindings_same; [..|exact H0]).
  clearbody s. intros Hx. cut (hosts (trust r') = hosts s ∧ owners (trust r') = owners s).
  { intros [Hr1 Hr2]. split; [by eapply bindings_same; [..|exact HBs]|]. split; [by rewrite Hr2, Hs2|].
    intros e He. by rewrite He in E1. }
  destruct (negb _); [by injection Hx as <- <-|]. destruct writes_hosts_by_act.
  - destruct (hosts s !! host); [|by injection Hx as <- <-]. apply stored_trust in Hx. by rewrite Hx.
  - by apply save_hosts_trust in Hx.
Qed.

Lemma bindings_save_or_not : keeps (L := L) bindings
  (λ r, if writes_hosts_by_act then (r, Ok tt) else save_hosts r).
Proof.
  intros r r' x Hr. destruct writes_hosts_by_act; [by intros [= <- <-]|by apply bindings_save_hosts].
Qed.

Lemma bindings_acted s : bindings s → bindings (acted s).
Proof. by apply bindings_same. Qed.

Lemma drop_uid_comm u a b h : drop_uid u a (drop_uid u b h) = drop_uid u b (drop_uid u a h).
Proof.
  unfold drop_uid. destruct (decide (a = b)) as [->|Hab]; [done|]. apply map_eq. intros k.
  destruct (decide (k = a)) as [<-|Ha], (decide (k = b)) as [<-|Hb];
    rewrite ?lookup_alter_eq, ?lookup_alter_ne by done; rewrite ?lookup_alter_eq, ?lookup_alter_ne by done; done.
Qed.

Lemma bindings_release uid : keeps (L := L) bindings (release_uid hex_encode uid).
Proof.
  refine (keeps_after bindings acted _ bindings_acted _). apply keeps_bind; [apply keeps_stored|].
  intros found r r' x Hr Hx. eapply bindings_save_or_not; [|exact Hx]. set (u := hex_encode uid).
  set (s := trust r) in *. rewrite foldl_app.
  assert (Hf : bindings (set_hosts (foldl (λ h host, drop_uid u host h) (hosts s) (option_list (owners s !! u)))
                           (delete u (owners s)) s)).
  { pose proof (bindings_drop s u Hr) as Hd. by destruct (owners s !! u). }
  destruct found as [h|]; [|exact Hf]. cbn [option_list foldl].
  eapply bindings_drop_absent with (u := u) (h := h) in Hf; [|apply lookup_delete_eq].
  eapply bindings_same; [| |exact Hf]; [|reflexivity]. cbn.
  destruct (owners s !! u) as [o|]; [|done]. cbn. apply drop_uid_comm.
Qed.

Lemma bindings_let_go u s : bindings s → bindings (let_go u s) ∧ owners (let_go u s) !! u = None.
Proof. intros H. split; [by apply bindings_drop|apply lookup_delete_eq]. Qed.

(** The Host an Agent was let go from still has room, for the identity it is re-keyed to. *)
Lemma let_go_room u host s :
  bindings s → owners s !! u = Some host →
  ∃ e, hosts (let_go u s) !! host = Some e ∧ is_marked e = false ∧
    (N.of_nat (base.size (instance_uids e)) < MAX_UIDS_PER_HOST)%N.
Proof.
  intros [H1 H2] Ho. pose proof Ho as (e & He & Hin)%H1. destruct (H2 host e He) as [Hm Hs].
  exists (with_uids (λ x, x ∖ {[u]}) e). unfold let_go. rewrite Ho. cbn. unfold drop_uid.
  rewrite lookup_alter_eq, He. split; [done|]. cbn. split.
  - destruct (is_marked e); [|done]. rewrite Hm in Hin by done. set_solver.
  - rewrite size_difference by set_solver. rewrite size_singleton.
    assert (0 < base.size (instance_uids e))%nat; [|lia].
    assert (Hne : instance_uids e ≢ ∅) by set_solver. apply size_non_empty_iff in Hne. lia.
Qed.

Lemma bindings_rebind old new r r' x :
  bindings (trust r) → owners (trust r) !! hex_encode new = None →
  rebind hex_encode old new r = (r', x) → bindings (trust r').
Proof.
  intros HB Hnew. unfold rebind, move_binding. set (o := hex_encode old). set (n := hex_encode new) in *.
  set (s := acted (trust r)). assert (HBs : bindings s) by by apply bindings_acted.
  change (trust (on_state acted r)) with s. destruct (bindings_let_go o s HBs) as [HBl Hol].
  set (r1 := on_state (let_go o) (on_state acted r)). assert (Ht1 : trust r1 = let_go o s) by done.
  assert (Hn1 : owners (let_go o s) !! n = None) by (cbn; rewrite lookup_delete_None; auto).
  clearbody r1. unfold eff_bind at 1. destruct (stored (ledger_rebind o n) r1) as [r2 [moved|e]] eqn:E2;
    pose proof (stored_trust _ _ _ _ E2) as Ht2; rewrite Ht1 in Ht2; [|intros [= <- <-]; by rewrite Ht2].
  assert (moved = None) as ->.
  { unfold stored in E2. destruct (ledger_rebind o n (ledger r1)) as [l y] eqn:El.
    injection E2 as _ ->. by apply sole_rebind in El. }
  destruct (owners s !! o) as [host|] eqn:Ho; [|intros [= <- <-]; by rewrite Ht2].
  destruct writes_hosts_by_act eqn:Hw; [intros [= <- <-]; by rewrite Ht2|].
  unfold eff_bind at 1 2. destruct (stored (ledger_bind n host) r2) as [r3 [b|e]] eqn:E3;
    pose proof (stored_trust _ _ _ _ E3) as Ht3; rewrite Ht2 in Ht3; [|intros [= <- <-]; by rewrite Ht3].
  assert (b = BoundTo) as ->.
  { unfold stored in E3. destruct (ledger_bind n host (ledger r2)) as [l y] eqn:El.
    injection E3 as _ ->. by apply sole_bind in El. }
  cbn [eff_ret]. unfold eff_bind, state_eff. cbn [take_up]. intros Hx.
  eapply bindings_save_or_not; [|rewrite Hw; exact Hx]. cbn. rewrite Ht3.
  destruct (let_go_room o host s HBs Ho) as (e & He & Hm & Hsize).
  pose proof (bindings_drop_absent (let_go o s) o host HBl Hol) as HBd.
  set (d := set_hosts (drop_uid o host (hosts (let_go o s))) (owners (let_go o s)) (let_go o s)) in *.
  assert (Hd : hosts d !! host = Some (with_uids (λ x, x ∖ {[o]}) e)).
  { change (hosts d) with (drop_uid o host (hosts (let_go o s))). unfold drop_uid.
    by rewrite lookup_alter_eq, He. }
  pose proof (bindings_bind d host (with_uids (λ x, x ∖ {[o]}) e) n HBd) as HBn.
  eapply bindings_same; [| |apply HBn]; [|done|done|by rewrite Hd|done|].
  - change (<[host := with_uids (λ x, {[n]} ∪ x) (with_uids (λ x, x ∖ {[o]}) e)]> (hosts d)
            = alter (with_uids (λ x, {[n]} ∪ x)) host (hosts d)). apply map_eq. intros k.
    destruct (decide (k = host)) as [->|];
      [by rewrite lookup_insert_eq, lookup_alter_eq, Hd|by rewrite lookup_insert_ne, lookup_alter_ne].
  - cbn. assert (base.size (instance_uids e ∖ {[o]}) ≤ base.size (instance_uids e))%nat
      by (apply subseteq_size; set_solver). lia.
Qed.

Lemma bindings_set_gateway host marked : keeps (L := L) bindings (set_gateway host marked).
Proof.
  intros r r' x Hr. unfold set_gateway. destruct (negb _); [by intros [= <- <-]|].
  revert Hr. revert r r' x. refine (keeps_after bindings acted _ bindings_acted _). apply keeps_bind.
  - destruct writes_hosts_by_act; [keep|destruct marked; keep].
  - intros _ r r' x Hr. set (s1 := if marked then set_hosts _ _ _ else trust r).
    set (entry := with_mark _ _). set (s2 := if marked then _ else set_expiry _ _).
    assert (Hs : bindings s2).
    { subst s2 s1 entry. destruct marked; cbn.
      - pose proof (bindings_clear (trust r) host
          (with_mark true (default host_default (alter (with_uids (λ _, ∅)) host (hosts (trust r)) !! host))) Hr) as Hc.
        eapply bindings_same; [| |apply Hc]; [cbn|reflexivity|].
        + apply map_eq. intros k. destruct (decide (k = host)) as [->|];
            [by rewrite !lookup_insert_eq|by rewrite !lookup_insert_ne, lookup_alter_ne].
        + rewrite lookup_alter_eq. by destruct (hosts (trust r) !! host).
      - destruct (hosts (trust r) !! host) as [e|] eqn:E; cbn.
        + pose proof Hr as [_ H2]. destruct (H2 host e E) as [Hm Hsz].
          destruct (is_marked e) eqn:Em.
          * eapply bindings_same; [| |apply (bindings_clear (trust r) host (with_mark false e) Hr)];
              [reflexivity| |by apply Hm]. cbn. apply map_filter_id. intros u h Ho. cbn. intros ->.
            destruct (marked_lists_none (trust r) host u Hr); [|done]. unfold marked_in. by rewrite E.
          * eapply bindings_same; [| |by apply (bindings_host (trust r) host e (with_mark false e) Hr E)]; done.
        + eapply bindings_same; [| |by apply (bindings_new_host (trust r) host (with_mark false host_default) Hr E)];
            done. }
    clearbody s2. destruct writes_hosts_by_act; [by intros [= <- <-]|]. intros Hx.
    assert (Hk : keeps (L := L) bindings (_ <-! save_hosts ;; eff_ret true)).
    { apply keeps_bind; [apply bindings_save_hosts|]. intros. apply keeps_ret. }
    by eapply Hk; [|exact Hx].
Qed.

Lemma logged_trust act r : trust (write_act_logged act r) = trust r.
Proof.
  unfold write_act_logged, logged, stored. by destruct (write_host_act act (ledger r)).
Qed.

Lemma forgotten_trust fg r : trust (write_forgotten fg r) = trust r.
Proof.
  destruct fg as [[v h]|]; [|done]. cbn. unfold logged, write_hosts. destruct (_ <=? _)%N; [done|].
  by destruct (ledger_save_hosts h (ledger r)) as [l []].
Qed.

Lemma bindings_remove id s : bindings s → bindings (state_remove id s).
Proof. intros H. unfold state_remove. by destruct (issued s !! id). Qed.

Lemma bindings_prune now : keeps (L := L) bindings (prune now).
Proof.
  intros r r' x Hr. unfold prune. destruct (_ <? _)%N; [by intros [= <- <-]|].
  destruct (prune_hosts now (trust r)) as [[s extended] over] eqn:Es.
  apply bindings_prune_hosts in Es as Hs; [|done].
  set (told := if writes_hosts_by_act then _ else _). destruct told as [forgotten r1] eqn:Et.
  assert (H1 : bindings (trust r1)).
  { subst told. revert Et. destruct writes_hosts_by_act.
    - intros [= <- <-]. repeat case_bool_decide; rewrite ?logged_trust; exact Hs.
    - destruct (negb _); intros [= <- <-]; exact Hs. }
  case_bool_decide; [intros [= <- <-]; exact H1|].
  intros Hx. eapply (keeps_bind bindings); [| | |exact Hx]; [| |exact H1].
  - apply keeps_each. intros id _. keep. intros r2 r3 y H2 [= <- <-]. by apply bindings_remove.
  - intros _ r2 r3 y H2 Hy. eapply (keeps_bind bindings); [|intros; apply keeps_ret|exact H2|exact Hy].
    apply keeps_each. intros id _. keep. intros r4 r5 z H4 [= <- <-]. exact H4.
Qed.

Lemma admit_trust now f uid p mint boot r r' x :
  admit_issued hex_encode now f uid p mint boot r = (r', x) →
  hosts (trust r') = hosts (trust r) ∧ owners (trust r') = owners (trust r).
Proof.
  unfold admit_issued. destruct (unadmitted _ _ _ _); [by intros [= <- <-]|].
  unfold eff_bind, stored. destruct (register_minting _ _ _ _ _) as [l [[]|]]; intros [= <- <-]; try done.
  unfold state_insert, state_remove. cbn. by destruct (issued (trust r) !! cert_id f).
Qed.

Lemma bindings_issuance f p now s mint recorded act h :
  bindings s → mint = mint_of now f p (hosts s) →
  host_of_issuance f mint recorded (hosts s) = (act, h) → bindings (set_hosts h (owners s) s).
Proof.
  intros HB -> . unfold host_of_issuance, mint_of.
  assert (Hsame : bindings (set_hosts (hosts s) (owners s) s)) by done.
  destruct recorded as [[]|e]; [|by intros [= <- <-]].
  destruct p as [p|], (cert_host f) as [host|]; try by intros [= <- <-].
  - destruct (extend_in _ _ _) as [h' moved] eqn:E. intros [= <- <-].
    by eapply bindings_extended in Hsame.
  - destruct (hosts s !! host) as [e|] eqn:Eh.
    + destruct (extend_in _ _ _) as [h' moved] eqn:E. intros [= <- <-].
      by eapply bindings_extended in Hsame.
    + intros [= <- <-]. by apply bindings_new_host.
Qed.

Lemma bindings_record now f uid p boot :
  keeps (L := L) bindings (record_with hex_encode now f uid p boot).
Proof.
  intros r r' x Hr. unfold record_with.
  set (checked := match boot with Some _ => _ | None => _ end). destruct checked as [refused r1] eqn:E1.
  assert (H1 : bindings (trust r1)).
  { subst checked. destruct boot as [b|]; [|by injection E1 as <- <-].
    destruct (revoked _) as [c s] eqn:Er. injection E1 as <- <-. injection Er as <- <-. exact Hr. }
  destruct refused; [by intros [= <- <-]|]. destruct (prune now r1) as [r2 [fg|e]] eqn:E2;
    apply bindings_prune in E2; [|done| |done]; [|by intros [= <- <-]].
  destruct (admit_issued _ _ _ _ _ _ _ r2) as [r3 recorded] eqn:E3.
  apply admit_trust in E3 as [Hh Ho]. destruct (host_of_issuance _ _ _ _) as [act h] eqn:E4. rewrite Hh in E4.
  assert (H4 : bindings (trust (on_state (λ s, set_hosts h (owners s) s) r3))).
  { eapply (bindings_same (set_hosts h (owners (trust r2)) (trust r2))); [reflexivity|by cbn|].
    eapply bindings_issuance; [done|reflexivity|exact E4]. }
  destruct writes_hosts_by_act.
  - intros [= <- <-]. destruct act; rewrite ?logged_trust; done.
  - destruct act as [act|]; [destruct (hosts_changed _) as [[v h'] r4] eqn:E5|]; intros Hx; injection Hx as <- <-.
    + change (logged _ r4) with (write_forgotten (Some (v, h')) r4). rewrite forgotten_trust.
      by eapply bindings_hosts_changed.
    + by rewrite forgotten_trust.
Qed.

Lemma bindings_list_acts :
  (∀ now authority serial, keeps (L := L) bindings (revoke_certificate hex_encode sha256 now authority serial)) ∧
  (∀ id, keeps (L := L) bindings (lift id)).
Proof.
  split.
  - intros now authority serial r r' x Hr. unfold revoke_certificate.
    case_bool_decide; [by intros [= <- <-]|]. destruct (_ || _); [by intros [= <- <-]|].
    destruct (_ <? _)%N; [by intros [= <- <-]|]. unfold add.
    destruct (stored _ (on_state acted r)) as [r1 y] eqn:E1. apply stored_trust in E1.
    assert (H1 : bindings (trust r1)) by (rewrite E1; exact Hr).
    destruct y as [[]|]; try by intros [= <- <-].
    all: destruct (find_revocation _ _); [case_bool_decide|]; intros [= <- <-]; exact H1.
  - intros id. refine (keeps_after bindings acted _ bindings_acted _). keep.
    intros r r' x Hr [= <- <-]. exact Hr.
Qed.

Lemma bindings_act r r' : act hex_encode sha256 r r' → bindings (trust r) → bindings (trust r').
Proof.
  destruct 1; intros Hr.
  - destruct (check_report _ _ _ _ _ r) as [r' x] eqn:E. by apply report_spec in E as [? _].
  - apply keeps_fst; [apply bindings_release|done].
  - destruct (rebind _ _ _ r) as [r' x] eqn:E. by eapply bindings_rebind.
  - apply keeps_fst; [apply bindings_set_gateway|done].
  - apply keeps_fst; [apply bindings_record|done].
  - apply keeps_fst; [apply bindings_list_acts|done].
  - apply keeps_fst; [apply bindings_list_acts|done].
  - exact Hr.
  - exact Hr.
Qed.

(** A certificate speaks for its own Host's Agents only. Whatever acts an instance that alone
    writes its ledger has made, answered or failed, each Agent is bound to the one Host that lists
    it, a Host marked as a Gateway lists none and no Host more than 256; a report admitted over the
    certificate of a Host not so marked leaves its Agent bound to that Host, and one for an Agent
    bound to another Host is refused and changes nothing. *)
Theorem hosts_speak_for_their_own_agents r0 r host subject t uid r' x :
  bindings (trust r0) → rtc (act hex_encode sha256) r0 r →
  check_report hex_encode host subject t uid r = (r', x) → marked_in (trust r) host = false →
  bindings (trust r') ∧
  (x = Ok tt → bound_host hex_encode r' uid = Some host ∧
     ∀ other, other ≠ host → marked_in (trust r') other = false →
       may_report hex_encode r' other uid = Err AnotherHost) ∧
  (∀ other, bound_host hex_encode r uid = Some other → other ≠ host → r' = r ∧ x = Err AnotherHost).
Proof.
  intros H0 Hacts Hx Hm. assert (HB : bindings (trust r)).
  { clear Hx Hm. induction Hacts; eauto using bindings_act. }
  destruct (report_spec host subject t uid r r' x HB Hx) as (HB' & Hok & Herr). split; [done|]. split.
  - intros Hxo. destruct (Hok Hxo) as [|Hb]; [congruence|]. split; [exact Hb|].
    intros other Hne Hmo. unfold may_report. by rewrite (admits_another _ other host).
  - intros other Hb Hne. apply Herr. by eapply admits_another.
Qed.
End Bindings.

#[export] Instance memory_sole_writer : SoleWriter Ledger.
Proof. split; intros; cbn in *; congruence. Qed.

(** ** On concrete ledgers *)

(** The client CA during a rotation: two CAs of one role. *)
Definition sample_authorities : list Authority :=
  [mkAuthority "client" "ca-old" "CN=old"; mkAuthority "client" "ca-new" "CN=new"].

Definition sample_facts (i s : string) (until : N) (host : option string) : Facts :=
  mkFacts (mkCertId i s) "CN" "CN" "fp" until host subject_default.

Definition sample_sha (bytes : list N) : list N := bytes.

(** [a1] was renewed to [a2], [a2] to [a3]; [b1] is of the other CA, with [a1]'s serial. *)
Definition sample_ledger : Ledger :=
  mkLedger
    [mkIssued (sample_facts "ca-old" "a1" 10 (Some "web")) "00" None 1;
     mkIssued (sample_facts "ca-old" "a2" 20 (Some "web")) "00" (Some (mkCertId "ca-old" "a1")) 2;
     mkIssued (sample_facts "ca-old" "a3" 90 (Some "web")) "00" (Some (mkCertId "ca-old" "a2")) 3;
     mkIssued (sample_facts "ca-new" "b1" 90 (Some "db")) "01" None 4]
    [] ∅ None.

Definition opened : Revocations Ledger :=
  match (open_ledger 5 sample_ledger sample_authorities).2 with
  | Ok r => r
  | Err _ => mkRevocations sample_ledger (loaded sample_ledger) sample_authorities 0 0
  end.

Definition sample_hex (uid : list N) : string := match uid with [] => "none" | _ => "one" end.

(** Revoking the first certificate of a chain refuses the last. *)
Lemma revoked_set_follows_the_chains_witness :
  let r := (revoke_certificate sample_hex sample_sha 6 "client" "00:A1" opened).1 in
  (is_certificate_revoked (mkCertId "ca-old" "a3") r).2 = true ∧
  mkCertId "ca-old" "a3" ∈ (revoked_certificates_at "client" r).2.1.
Proof.
  intros r.
  destruct (revoked_set_follows_the_chains sample_hex sample_sha 5 sample_ledger sample_authorities
    (ledger opened) opened r (mkCertId "ca-old" "a3")) as [H1 H2].
  - vm_compute. reflexivity.
  - eapply lives_act; [apply act_revoke|apply lives_refl].
  - assert (Hc : (is_certificate_revoked (mkCertId "ca-old" "a3") r).2 = true) by (vm_compute; reflexivity).
    split; [exact Hc|]. apply H2. split; [exact (proj1 H1 Hc)|]. clear Hc H1 H2.
    exists (mkAuthority "client" "ca-old" "CN=old"). split; [|split; reflexivity].
    assert (Ha : authorities r = sample_authorities) by (vm_compute; reflexivity).
    rewrite Ha. apply list_elem_of_here.
Defined.

(** A prune at 50 drops [b1]'s entry only when nothing descends from it; [a1], expired, stays under
    [a3], and so does its revocation. *)
Lemma valid_certificates_survive_a_prune_witness :
  let r := on_state (set_list [mkRevocation "e" (mkRevoked "client" ["ca-old"] "a1") 6] None None) opened in
  let r' := (prune 50 r).1 in
  distrusted (issued (trust r')) (named_in (revocations (trust r'))) (mkCertId "ca-old" "a3").
Proof.
  intros r r'.
  apply (valid_certificates_survive_a_prune 50 r r' (prune 50 r).2 (mkCertId "ca-old" "a3")).
  - apply (bool_decide_unpack _). vm_compute. exact I.
  - apply (bool_decide_unpack _). vm_compute. exact I.
  - subst r'. by destruct (prune 50 r).
  - eexists. split; [vm_compute; reflexivity|]. vm_compute. reflexivity.
  - eapply distrusted_renewal; [vm_compute; reflexivity|].
    eapply distrusted_renewal; [vm_compute; reflexivity|]. apply distrusted_named.
    apply (bool_decide_unpack _). vm_compute. exact I.
Defined.

(** Where one entry names a serial under two CAs, the end of one certificate lifts the other's. *)
Lemma rotation_prune_lifts :
  let r0 := on_state (λ s, set_list (revocations s) None None
     (state_insert (mkIssued (sample_facts "ca-new" "a9" 90 (Some "db")) "02" None 4)
       (state_insert (mkIssued (sample_facts "ca-old" "a9" 30 (Some "web")) "03" None 4) s))) opened in
  let r := (revoke_certificate sample_hex sample_sha 6 "client" "a9" r0).1 in
  let r' := (prune 50 r).1 in
  let c := mkCertId "ca-new" "a9" in
  (is_certificate_revoked c r).2 = true ∧ is_Some (issued (trust r') !! c) ∧
  (is_certificate_revoked c r').2 = false.
Proof. vm_compute. split; [reflexivity|]. split; [by eexists|reflexivity]. Qed.

Lemma hosts_speak_for_their_own_agents_witness :
  let r := (check_report sample_hex "web" subject_default 90 [1%N] opened).1 in
  let after := check_report sample_hex "db" subject_default 90 [1%N] r in
  bound_host sample_hex r [1%N] = Some "web" ∧ after = (r, Err AnotherHost).
Proof.
  intros r after.
  assert (Hb : bound_host sample_hex r [1%N] = Some "web") by (vm_compute; reflexivity).
  split; [exact Hb|].
  destruct (hosts_speak_for_their_own_agents sample_hex sample_sha opened r "db" subject_default 90 [1%N]
    after.1 after.2) as (_ & _ & H).
  - assert (He : hosts (trust opened) = ∅ ∧ owners (trust opened) = ∅) by (vm_compute; split; reflexivity).
    destruct He as [Hh Ho]. unfold bindings. rewrite Hh, Ho. split.
    + intros u h. rewrite lookup_empty. split; [done|]. intros (e & He & _). by rewrite lookup_empty in He.
    + intros h e He. by rewrite lookup_empty in He.
  - apply rtc_once. apply act_report.
  - subst after. by destruct (check_report _ _ _ _ _ r).
  - vm_compute. reflexivity.
  - destruct (H "web" Hb) as [H1 H2]; [done|]. destruct after as [a b]. cbn in *. by subst.
Defined.
