(* ===== verification/Rollouts.v ===== *)
(** * Rollouts: what is released to an Agent, and what it is offered

    The rollout acts of [fleet-server/src/fleet.rs]: what a press of a Deployment would release to an
    Agent ([release]), what waits for it ([waiting]), how releases are written ([write_releases]) and
    the revisions they no longer need collected, the two acts ([rollout_to_agent],
    [rollout_deployment]), the deletions an assignment stands in the way of, and the offers composed
    from an assignment. A refusal message is the data it is formatted from; what a shared store is
    read for is an argument of the act. *)

From S2P Require Import Prelude RustStr Proto Packages Labels Deployments Configs Offers Agents Placement.

Open Scope string_scope.
Open Scope list_scope.

Inductive Inapplicable :=
| InNoDeployment
| InConflict (names : list string)
| InAnother (deployment : string)
| HoldsNothing (deployment : string)
| Unsigned (packages : list (PackageId * list Platform))
| LeftOut (why : FitRefusal).

Inductive RolloutError :=
| UnknownAgent
| UnknownResource
| NotApplicable (why : Inapplicable)
| RolloutStorage (e : ConfigError).

Inductive DeleteError :=
| DeletePinned (agents : nat)
| DeleteStorage.

(** ** What waits *)

Inductive PendingChange := ChangeNew | ChangeUpdate | ChangeRemove | ChangeKept.

#[export] Instance PendingChange_eq_dec : EqDecision PendingChange.
Proof. solve_decision. Defined.

Record PendingPackage := mkPendingPackage {
  pending_through : string;
  pending_id : PackageId;
  pending_package_change : PendingChange;
}.

Record Waiting := mkWaiting {
  waiting_configurations : list (string * PendingChange);
  waiting_packages : list PendingPackage;
  waiting_deployment : string;
}.

Definition pending_le (x y : string * PendingChange) : Prop := String.le x.1 y.1.

#[export] Instance pending_le_dec : RelDecision pending_le.
Proof. intros x y. unfold pending_le. apply _. Defined.

Definition configuration_change (pinned : gmap string string) (nh : string * string)
    : option (string * PendingChange) :=
  match pinned !! nh.1 with
  | Some h => if bool_decide (h = nh.2) then None else Some (nh.1, ChangeUpdate)
  | None => Some (nh.1, ChangeNew)
  end.

Definition waiting (assigned released : option Assignment) (deployment : Deployment) : Waiting :=
  let dropped := if released then ChangeRemove else ChangeKept in
  let pinned_configs := from_option a_configurations ∅ assigned in
  let released_configs := from_option a_configurations ∅ released in
  let configurations :=
    omap (configuration_change pinned_configs) (btree_iter released_configs)
    ++ ((λ n, (n, dropped))
          <$> List.filter (λ n, bool_decide (released_configs !! n = None)) (btree_keys pinned_configs)) in
  let package :=
    match assigned ≫= a_package, released ≫= a_package with
    | Some pinned, Some released =>
        if bool_decide (pinned = released) then None else Some (released, ChangeUpdate)
    | None, Some released => Some (released, ChangeNew)
    | Some pinned, None => Some (pinned, dropped)
    | None, None => None
    end in
  let through :=
    match released with
    | Some r => if bool_decide (a_deployment <$> assigned = Some (a_deployment r)) then ""
                else a_deployment r
    | None => ""
    end in
  mkWaiting (merge_sort pending_le configurations)
    (option_list ((λ ic, mkPendingPackage (name deployment) ic.1 ic.2) <$> package))
    through.

(** ** The state of the acts *)

Record PresenceWritten := mkPresence {
  presence_holder : option string;
  presence_agents : gmap (list N) (bool * N);
  presence_takes : gmap (list N) N;
}.

Definition presence_remove (uid : Uid) (p : PresenceWritten) : PresenceWritten :=
  mkPresence (presence_holder p) (delete uid (presence_agents p)) (delete uid (presence_takes p)).

(** [AppState], as far as the acts read and write it; the package store is what it holds in memory.
    [offering] is [None] where package delivery is not configured. *)
Record AppState (B D : Type) := mkApp {
  fleet : gmap (list N) AgentRecord;
  groups : gmap Group (gset (list N));
  store : ConfigStore B;
  offering : option (Sets * DeploymentStore D);
  written : gmap (list N) (list N);
  presence : PresenceWritten;
  forgotten : gmap N (list (list N));
  push : N;
}.
Arguments mkApp {B D}.
Arguments fleet {B D}.
Arguments groups {B D}.
Arguments store {B D}.
Arguments offering {B D}.
Arguments written {B D}.
Arguments presence {B D}.
Arguments forgotten {B D}.
Arguments push {B D}.

Section Setters.
Context {B D : Type}.
Implicit Types s : AppState B D.

Definition set_store (cs : ConfigStore B) s : AppState B D :=
  mkApp (fleet s) (groups s) cs (offering s) (written s) (presence s) (forgotten s) (push s).

Definition set_fleet (f : gmap (list N) AgentRecord) s : AppState B D :=
  mkApp f (groups s) (store s) (offering s) (written s) (presence s) (forgotten s) (push s).

(** [push.send_modify(|rev| *rev += 1)]: the WebSocket loops are woken. *)
Definition wake s : AppState B D :=
  mkApp (fleet s) (groups s) (store s) (offering s) (written s) (presence s) (forgotten s) (push s + 1).
End Setters.

(** The order of the bytes of two identities. *)
Fixpoint bytes_leb (x y : list N) : bool :=
  match x, y with
  | [], _ => true
  | _ :: _, [] => false
  | a :: x, b :: y => (a <? b)%N || ((a =? b)%N && bytes_leb x y)
  end.

(** One record to write, and the release it takes. *)
Notation Release := (list N * PersistedAgent * option Assignment)%type (only parsing).

Definition release_le (x y : Release) : Prop := bytes_leb x.1.1 y.1.1 = true.

#[export] Instance release_le_dec : RelDecision release_le.
Proof. intros x y. unfold release_le. apply _. Defined.

Section Acts.
Context {B D : Type} `{!ConfigBackend B} `{!AgentStore B} `{!DeploymentBackend D}.
Context (sha256 : list N → list N) (hex_encode : list N → string) (codecs : Codecs).
Context (register : option (gmap string HostMark)).
Context (elsewhere : gmap (list N) AgentRecord → Group → list (Uid * gmap string string)).
Notation App := (AppState B D).

Definition durable_digest (p : PersistedAgent) : list N := sha256 (durable_frame codecs p).

(** ** What a press would release *)

(** [release]: the Package where it is a candidate, else the one pinned where the Deployment still
    holds one for the Agent's type; and every Configuration that fits, at its saved revision. *)
Definition release (cs : ConfigStore B) (sets : Sets) (deployment : Deployment) (r : AgentRecord)
    : option Assignment :=
  let description := record_description r in
  let configurations := candidates_in sha256 hex_encode cs (configurations deployment) description in
  let type := reported_agent_type description in
  let held := type ≫= package_for deployment in
  let package :=
    match candidate sets deployment description (installed_package_versions r) with
    | Some i => Some i
    | None =>
        match held, assigned_package r with
        | Some _, Some pinned =>
            if bool_decide (Some (agent_type pinned) = type) then Some pinned else None
        | _, _ => None
        end
    end in
  if bool_decide (is_Some package) || negb (bool_decide (configurations = ∅))
  then Some (mkAssignment (name deployment) package configurations)
  else None.

Definition refuse_unreleasable (sets : Sets) (deployment : Deployment) : result unit RolloutError :=
  if holds_nothing deployment then Err (NotApplicable (HoldsNothing (name deployment)))
  else match unsigned_in sets deployment with
       | [] => Ok tt
       | unsigned => Err (NotApplicable (Unsigned unsigned))
       end.

Definition refuse_a_package_left_out (sets : Sets) (deployment : Deployment) (r : AgentRecord)
    (released : option Assignment) : result unit RolloutError :=
  let description := record_description r in
  match reported_agent_type description ≫= package_for deployment with
  | None => Ok tt
  | Some held =>
      if bool_decide (released ≫= a_package = Some held) then Ok tt
      else map_err (λ why, NotApplicable (LeftOut why))
             (fits_agent sets held description (installed_package_versions r))
  end.

(** [deployment_of]. *)
Definition deployment_of (s : App) (r : AgentRecord) : result (option Deployment) (list string) :=
  match offering s with
  | None => Ok None
  | Some (_, ds) => deployment_for (deployments ds) (record_description r)
  end.

(** [release_to]: what the per-Agent act releases, and through which Deployment. *)
Definition release_to (s : App) (r : AgentRecord) (named : option string)
    : result (string * option Assignment) RolloutError :=
  found <-? map_err (λ names, NotApplicable (InConflict names)) (deployment_of s r) ;;
  match found with
  | None => Err (NotApplicable InNoDeployment)
  | Some deployment =>
      if match named with Some n => bool_decide (n ≠ name deployment) | None => false end
      then Err (NotApplicable (InAnother (name deployment)))
      else
        match offering s with
        | None => Err UnknownResource
        | Some (sets, _) =>
            _ <-? refuse_unreleasable sets deployment ;;
            let released := release (store s) sets deployment r in
            _ <-? (if bool_decide (released = r_assignment r)
                   then refuse_a_package_left_out sets deployment r released else Ok tt) ;;
            Ok (name deployment, released)
        end
  end.

(** ** Writing releases *)

Definition collect_one (cs : ConfigStore B) (n : string) : ConfigStore B :=
  (retain_only n (agents_referenced_revisions n (config_backend cs)) cs).1.

(** [collect_revisions]: a collection that fails is logged and passed over. *)
Definition collect_revisions (names : gset string) (s : App) : App :=
  set_store (foldl collect_one (store s) (btree_elements names)) s.

Definition end_session (uid : Uid) (r : AgentRecord) (s : App) : App :=
  match r_connected r, r_owner r with
  | true, Some conn =>
      mkApp (fleet s) (groups s) (store s) (offering s) (written s) (presence s)
        (<[conn := default [] (forgotten s !! conn) ++ [uid]]> (forgotten s)) (push s)
  | _, _ => s
  end.

(** [drop_forgotten]: an Agent another instance forgot leaves what this one holds. *)
Definition drop_forgotten (s : App) (uid : Uid) : App :=
  match fleet s !! uid with
  | None => s
  | Some r =>
      let s := end_session uid r s in
      let '(f, g) := unplace elsewhere uid (group (r_placement r)) (delete uid (fleet s)) (groups s) in
      mkApp f g (store s) (offering s) (delete uid (written s)) (presence_remove uid (presence s))
        (forgotten s) (push s)
  end.

(** The Configurations a list of releases, and the assignments they replace, name. *)
Definition named_by (a : option Assignment) : gset string :=
  from_option (λ a, dom (a_configurations a)) ∅ a.

Definition released_names (releases : list Release) : gset string :=
  ⋃ ((λ r, named_by r.2) <$> releases).

Definition replaced_names (releases : list Release) : gset string :=
  ⋃ ((λ r, named_by (p_assignment r.1.2)) <$> releases).

(** The release as it is pinned: every revision by the hash [pin] took. *)
Definition repin (hashes : gmap string string) (a : Assignment) : Assignment :=
  mkAssignment (a_deployment a) (a_package a)
    (map_imap (λ n h, Some (default h (hashes !! n))) (a_configurations a)).

Definition agents_of (hashes : gmap string string) (releases : list Release)
    : list (list N * PersistedAgent) :=
  (λ r, (r.1.1, p_with_assignment (repin hashes <$> r.2) r.1.2)) <$> releases.

(** One released record as the fleet holds it. *)
Definition take_release (s : App) (ap : list N * PersistedAgent) : App :=
  match fleet s !! ap.1 with
  | None => s
  | Some r =>
      mkApp (<[ap.1 := with_assignment (p_assignment ap.2) r]> (fleet s)) (groups s) (store s)
        (offering s) (<[ap.1 := durable_digest ap.2]> (written s)) (presence s) (forgotten s) (push s)
  end.

(** [write_releases]: the answer is how many Agents were released to, and the Configurations whose
    revisions may no longer be referenced. *)
Definition write_releases (releases : list Release) : Eff App RolloutError (nat * gset string) := λ s,
  let names := released_names releases in
  match pin sha256 hex_encode names
          (λ hashes revisions,
             let agents := agents_of hashes releases in
             wrote <-! agents_release revisions agents ;; eff_ret (agents, wrote)) (store s) with
  | (cs, Err e) => (collect_revisions names (set_store cs s), Err (RolloutStorage e))
  | (cs, Ok (agents, wrote)) =>
      let s := set_store cs s in
      let gone := List.filter (λ ap, negb (bool_decide (ap.1 ∈ wrote))) agents in
      let released := List.filter (λ ap, bool_decide (ap.1 ∈ wrote)) agents in
      let s := foldl drop_forgotten s gone.*1 in
      let s := foldl take_release s released in
      (s, Ok (length released,
              replaced_names releases ∪ ⋃ ((λ ap, named_by (p_assignment ap.2)) <$> released)))
  end.

(** ** The acts *)

(** [rollout_to_agent]; [read] is the record as a shared store answers it, [Ok None] otherwise. *)
Definition rollout_to_agent (read : result (option AgentRecord) ConfigError) (uid : Uid)
    (named : option string) : Eff App RolloutError unit := λ s,
  match read with
  | Err e => (s, Err (RolloutStorage e))
  | Ok stored =>
      match (match stored with Some r => Some r | None => fleet s !! uid end) with
      | None => (s, Err UnknownAgent)
      | Some r =>
          match release_to s r named with
          | Err e => (s, Err e)
          | Ok (_, released) =>
              let base := to_persisted (default r (fleet s !! uid)) in
              match write_releases [(uid, base, released)] s with
              | (s, Err e) => (s, Err e)
              | (s, Ok (n, touched)) =>
                  let s := wake (collect_revisions touched s) in
                  (s, if (n =? 0)%nat then Err UnknownAgent else Ok tt)
              end
          end
      end
  end.

(** What one Agent of a press is released, when the press moves it. *)
Definition release_of (s : App) (sets : Sets) (channels : gmap string Deployment)
    (n : string) (deployment : Deployment) (ur : list N * AgentRecord) : option Release :=
  let (uid, r) := ur in
  match deployment_for channels (record_description r) with
  | Ok (Some claimed) =>
      if bool_decide (name claimed = n) then
        let released := release (store s) sets deployment r in
        if bool_decide (released = r_assignment r) then None
        else Some (uid, to_persisted (default r (fleet s !! uid)), released)
      else None
  | _ => None
  end.

(** [rollout_deployment]; [read] is the fleet as a shared store answers it, [Ok None] otherwise. *)
Definition rollout_deployment (read : result (option (gmap (list N) AgentRecord)) ConfigError)
    (n : string) : Eff App RolloutError nat := λ s,
  match offering s with
  | None => (s, Err UnknownResource)
  | Some (sets, ds) =>
      match read with
      | Err e => (s, Err (RolloutStorage e))
      | Ok stored =>
          match deployments ds !! n with
          | None => (s, Err UnknownResource)
          | Some deployment =>
              match refuse_unreleasable sets deployment with
              | Err e => (s, Err e)
              | Ok _ =>
                  let candidates :=
                    match stored with
                    | Some m => map_to_list m ++ map_to_list (fleet s ∖ m)
                    | None => map_to_list (fleet s)
                    end in
                  let releases :=
                    omap (release_of s sets (deployments ds) n deployment) candidates in
                  match write_releases (merge_sort release_le releases) s with
                  | (s, Err e) => (s, Err e)
                  | (s, Ok (moved, touched)) => (wake (collect_revisions touched s), Ok moved)
                  end
              end
          end
      end
  end.

(** [save_configuration]: saving only saves. *)
Definition save_configuration (n : string) (r : Revision) (s : App) : App * result Configuration ConfigError :=
  let (cs, x) := put_saved n r (store s) in (set_store cs s, x).

(** [delete_configuration]: refused while a stored assignment pins it. *)
Definition delete_configuration (n : string) (s : App) : App * result bool DeleteError :=
  let pinning := agents_pinning (PinConfiguration n) (config_backend (store s)) in
  if (0 <? pinning)%nat then (s, Err (DeletePinned pinning))
  else
    match config_delete n (store s) with
    | (cs, Err _) => (set_store cs s, Err DeleteStorage)
    | (cs, Ok (PinnedBy k)) => (set_store cs s, Err (DeletePinned k))
    | (cs, Ok Absent) => (set_store cs s, Ok false)
    | (cs, Ok Removed) =>
        let s := set_store cs s in
        match offering s with
        | None => (s, Ok true)
        | Some (sets, ds) =>
            let (ds, x) := drop_configuration n ds in
            (mkApp (fleet s) (groups s) (store s) (Some (sets, ds)) (written s) (presence s)
               (forgotten s) (push s),
             match x with Ok _ => Ok true | Err _ => Err DeleteStorage end)
        end
    end.

(** [put_deployment_configuration] and [delete_deployment]. *)
Definition put_deployment_configuration (n configuration : string) (s : App)
    : App * result Deployment DeploymentError :=
  match offering s with
  | None => (s, Err NotFound)
  | Some (sets, ds) =>
      match config_get (store s) configuration with
      | None => (s, Err (Missing n configuration))
      | Some _ =>
          let (ds, x) := put_configuration n configuration ds in
          (mkApp (fleet s) (groups s) (store s) (Some (sets, ds)) (written s) (presence s)
             (forgotten s) (push s), x)
      end
  end.

Definition delete_deployment (n : string) (s : App) : App * result bool DeploymentError :=
  match offering s with
  | None => (s, Err NotFound)
  | Some (sets, ds) =>
      if (0 <? agents_pinning (PinDeployment n) (config_backend (store s)))%nat then (s, Err Conflict)
      else
        let (ds, x) := store_delete n ds in
        (mkApp (fleet s) (groups s) (store s) (Some (sets, ds)) (written s) (presence s)
           (forgotten s) (push s), x)
  end.

(** ** Reach *)

Record DeploymentReach := mkReach {
  claiming : nat;
  targeted : nat;
  conflicting : nat;
}.

Definition reach_default : DeploymentReach := mkReach 0 0 0.

(** [reach_of]: one Agent's part of the counts. *)
Definition count_agent (cs : ConfigStore B) (sets : Sets) (all : gmap string Deployment)
    (reach : gmap string DeploymentReach) (r : AgentRecord) : gmap string DeploymentReach :=
  let description := record_description r in
  match deployment_for all description with
  | Ok (Some d) =>
      let e := default reach_default (reach !! name d) in
      let moved := if bool_decide (release cs sets d r = r_assignment r) then 0 else 1 in
      <[name d := mkReach (S (claiming e)) (targeted e + moved) (conflicting e)]> reach
  | Ok None => reach
  | Err _ =>
      foldl (λ reach (nd : string * Deployment),
               if matches (selector nd.2) description then
                 let e := default reach_default (reach !! nd.1) in
                 <[nd.1 := mkReach (claiming e) (targeted e) (S (conflicting e))]> reach
               else reach) reach (btree_iter all)
  end.

Definition reach_of (cs : ConfigStore B) (sets : Sets) (all : gmap string Deployment)
    (f : gmap (list N) AgentRecord) : gmap string DeploymentReach :=
  foldl (count_agent cs sets all) ((λ _, reach_default) <$> all) (map_to_list f).*2.

(** ** Offers *)

Definition AcceptsRemoteConfig : N := 2.
Definition AcceptsPackages : N := 8.

Definition accepts_packages (r : AgentRecord) : bool := has_capability r AcceptsPackages.

Record AgentRemoteConfig := mkRemoteConfig {
  config_map : gmap string (list N * string);
  config_hash : list N;
}.

(** [offer]: a configuration the Agent has not reported the hash of; an entry is its body and its
    role. *)
Definition config_offer (r : AgentRecord) (desired : option DesiredConfig) : option AgentRemoteConfig :=
  desired ← desired;
  if negb (has_capability r AcceptsRemoteConfig) then None
  else
    let reported := from_option last_remote_config_hash [] (r_remote_config_status r) in
    if bool_decide (reported = desired_hash desired) then None
    else Some (mkRemoteConfig
                 (collect_map ((λ e, (entry_name e, (bytes_of (entry_body e), entry_role e)))
                                 <$> desired_entries desired))
                 (desired_hash desired)).

Definition packages_offer (s : App) (r : AgentRecord) : option PackagesAvailable :=
  match offering s with
  | None => None
  | Some (sets, _) =>
      if negb (accepts_packages r) then None
      else
        let description := record_description r in
        let assigned := assigned_package r in
        let reported := from_option server_provided_all_packages_hash [] (r_package_statuses r) in
        if bool_decide (reported = assigned_hash_for sha256 sets assigned description) then None
        else offer_for_assigned sha256 sets assigned description
  end.

(** The Server's capabilities: [settings] while there is a connection or telemetry offer, [ca] while
    it signs certificates. *)
Definition capabilities (settings ca : bool) (s : App) : N :=
  let caps := 7%N in
  let caps := if settings || ca then N.lor caps 32 else caps in
  let caps := match offering s with
              | Some (sets, _) => if bool_decide (sets = ∅) then caps else N.lor caps (N.lor 8 16)
              | None => caps
              end in
  if ca then N.lor caps 64 else caps.

(** [offer_for]: what a WebSocket loop pushes after a rollout. *)
Record PushedOffer := mkPushed {
  pushed_uid : Uid;
  pushed_capabilities : N;
  pushed_config : option AgentRemoteConfig;
  pushed_packages : option PackagesAvailable;
}.

Definition offer_for (settings ca : bool) (s : App) (uid : Uid) : option PushedOffer :=
  r ← fleet s !! uid;
  let desired := compose sha256 (store s) (assigned_configurations r) in
  match config_offer r desired, packages_offer s r with
  | None, None => None
  | config, packages => Some (mkPushed uid (capabilities settings ca s) config packages)
  end.
End Acts.

(** ** What the acts leave of the Configurations *)

Section Views.
Context {B : Type} `{!ConfigBackend B} `{!AgentStore B}.
Context (sha256 : list N → list N) (hex_encode : list N → string).
Implicit Types cs : ConfigStore B.

(** What a release reads of the Configurations. *)
Definition saved_view cs : gmap string (string * Revision) :=
  (λ c, (config_name c, saved c)) <$> configs cs.

Lemma saved_view_lookup cs cs' n :
  saved_view cs = saved_view cs' →
  (λ c, (config_name c, saved c)) <$> (configs cs !! n)
  = (λ c, (config_name c, saved c)) <$> (configs cs' !! n).
Proof. intros H. apply (f_equal (λ m, m !! n)) in H. unfold saved_view in H. by rewrite !lookup_fmap in H. Qed.

Lemma candidates_in_view cs cs' names description :
  saved_view cs = saved_view cs' →
  candidates_in sha256 hex_encode cs names description
  = candidates_in sha256 hex_encode cs' names description.
Proof.
  intros H. unfold candidates_in. f_equal.
  induction (btree_elements names) as [|n l IH]; [done|].
  cbn [omap list_omap]. pose proof (saved_view_lookup cs cs' n H) as Hn.
  destruct (configs cs !! n) as [c|], (configs cs' !! n) as [c'|]; try done.
  cbn in Hn. injection Hn as Hname Hsaved. cbn [List.filter]. rewrite Hsaved.
  destruct (fits (saved c') description); [|done]. cbn. by rewrite IH, Hname, Hsaved.
Qed.

Lemma names_match_view cs cs' : saved_view cs = saved_view cs' → names_match cs → names_match cs'.
Proof.
  intros H Hn k c Hc. pose proof (saved_view_lookup cs cs' k H) as Hk. rewrite Hc in Hk.
  destruct (configs cs !! k) as [c'|] eqn:E; [|done]. cbn in Hk. injection Hk as <- _. by apply Hn.
Qed.

(** What is assigned of a Deployment's Configurations. *)
Lemma lookup_candidates_in cs names description n h :
  names_match cs →
  candidates_in sha256 hex_encode cs names description !! n = Some h ↔
  n ∈ names ∧ ∃ c, configs cs !! n = Some c ∧ fits (saved c) description = true ∧
    h = revision_hash sha256 hex_encode (saved c).
Proof.
  intros Hn. unfold candidates_in.
  set (found := omap (λ name, configs cs !! name) (btree_elements names)).
  assert (Hfound : ∀ c, c ∈ found ↔ config_name c ∈ names ∧ configs cs !! config_name c = Some c).
  { intros c. subst found. rewrite list_elem_of_omap. split.
    - intros (k & Hk & Hc). pose proof (Hn _ _ Hc) as ->. by rewrite <- elem_of_btree_elements.
    - intros [Hin Hc]. exists (config_name c). by rewrite elem_of_btree_elements. }
  assert (Hnd : NoDup (config_name <$> found)).
  { subst found. pose proof (NoDup_btree_elements names) as Hl. clear Hfound.
    revert Hl. generalize (btree_elements names) as l. induction l as [|k l IH]; [constructor|].
    intros [Hk Hl]%NoDup_cons. cbn [omap list_omap]. destruct (configs cs !! k) as [c|] eqn:E; [|auto].
    cbn. constructor; [|auto]. rewrite (Hn _ _ E). intros Hin.
    apply list_elem_of_fmap in Hin as (c' & Hkc & Hc'). apply list_elem_of_omap in Hc' as (k' & Hk' & Hc').
    pose proof (Hn _ _ Hc') as Heq. congruence. }
  rewrite lookup_collect_map.
  - rewrite list_elem_of_fmap. split.
    + intros (c & Heq & Hc). injection Heq as -> ->.
      apply list_elem_of_In, filter_In in Hc as [Hc Hfit]. apply list_elem_of_In, Hfound in Hc as [Hin Hc].
      eauto.
    + intros (Hin & c & Hc & Hfit & ->). pose proof (Hn _ _ Hc) as <-. exists c. split; [done|].
      apply list_elem_of_In, filter_In. split; [|done]. apply list_elem_of_In, Hfound. done.
  - rewrite <- list_fmap_compose.
    change (fst ∘ (λ c, (config_name c, revision_hash sha256 hex_encode (saved c)))) with config_name.
    clear Hfound. induction found as [|c l IH]; [constructor|]. cbn in Hnd |- *.
    apply NoDup_cons in Hnd as [Hc Hl]. destruct (fits _ _); [|auto]. cbn. constructor; [|auto].
    intros Hin. apply Hc. apply list_elem_of_fmap in Hin as (c' & -> & Hc').
    apply list_elem_of_fmap. exists c'. split; [done|].
    apply list_elem_of_In, filter_In in Hc' as [Hc' _]. by apply list_elem_of_In.
Qed.

(** [pin] in one equation. *)
Lemma pin_run {T} names (write : gmap string string → list Pinned → Eff B ConfigError T) cs :
  pin sha256 hex_encode names write cs =
  match pins sha256 hex_encode (configs cs) (btree_elements names) with
  | Err e => (cs, Err e)
  | Ok pinned =>
      let (b, x) := write (hashes_of pinned) pinned (config_backend cs) in
      (mkConfigStore b (foldl retain_pinned (configs cs) pinned), x)
  end.
Proof.
  unfold pin, eff_bind, held, eff_of, through. destruct (pins _ _ _ _) as [pinned|e]; [|done].
  by destruct (write _ _ _).
Qed.

Lemma retain_pinned_view (m : gmap string Configuration) l :
  (λ c, (config_name c, saved c)) <$> foldl retain_pinned m l = (λ c, (config_name c, saved c)) <$> m.
Proof.
  revert m. induction l as [|p l IH]; intros m; [done|]. cbn. rewrite IH. unfold retain_pinned.
  destruct (m !! pinned_configuration p) as [c|] eqn:E; [|done]. rewrite fmap_insert. cbn.
  apply insert_id. by rewrite lookup_fmap, E.
Qed.

Lemma retain_only_view n hs cs : saved_view (retain_only n hs cs).1 = saved_view cs.
Proof.
  unfold retain_only, eff_bind, held, through, hold, eff_ret.
  destruct (configs cs !! n) as [c|] eqn:E; [|done].
  destruct (config_collect n hs (config_backend cs)) as [b [kept|e]]; cbn; [|done].
  unfold saved_view. cbn. apply map_eq. intros k. rewrite !lookup_fmap.
  destruct (decide (k = n)) as [->|Hne].
  - by rewrite lookup_alter_eq, E.
  - by rewrite lookup_alter_ne.
Qed.

Lemma collect_view names cs : saved_view (foldl collect_one cs names) = saved_view cs.
Proof.
  revert cs. induction names as [|n names IH]; intros cs; [done|]. cbn. rewrite IH.
  apply retain_only_view.
Qed.

(** The hashes [pin] takes are the ones a release names. *)
Lemma hashes_of_pins m names pinned n :
  NoDup names → pins sha256 hex_encode m names = Ok pinned →
  hashes_of pinned !! n =
  if bool_decide (n ∈ names) then (λ c, revision_hash sha256 hex_encode (saved c)) <$> (m !! n) else None.
Proof.
  intros Hnd Hp. destruct (pins_Ok _ _ _ _ _ Hp) as [Hmap Hpin].
  assert (Hl : ∀ h, hashes_of pinned !! n = Some h ↔
    ∃ p, p ∈ pinned ∧ pinned_configuration p = n ∧ pinned_hash p = h).
  { intros h. unfold hashes_of. rewrite lookup_collect_map.
    - rewrite list_elem_of_fmap. naive_solver.
    - rewrite <- list_fmap_compose. change (fst ∘ _) with pinned_configuration. by rewrite Hmap. }
  apply option_eq. intros h. rewrite Hl. case_bool_decide as Hn.
  - rewrite <- Hmap in Hn. apply list_elem_of_fmap in Hn as (p & -> & Hin).
    destruct (Hpin p Hin) as (c & Hc & Hpc). rewrite Hc. cbn. split.
    + intros (p' & Hin' & Heq & <-). destruct (Hpin p' Hin') as (c' & Hc' & Hpc').
      rewrite Heq in Hc'. rewrite Hc in Hc'. injection Hc' as <-. by rewrite Hpc'.
    + intros [= <-]. exists p. split; [done|]. split; [done|]. by rewrite Hpc.
  - split; [|done]. intros (p & Hin & <- & _). destruct Hn. rewrite <- Hmap.
    apply list_elem_of_fmap. eauto.
Qed.
End Views.

(** ** What waits, and what a press moves *)

(** An assignment a rollout can have written: it names its Deployment and pins something. *)
Definition real_assignment (a : Assignment) : Prop :=
  a_deployment a ≠ "" ∧ (is_Some (a_package a) ∨ a_configurations a ≠ ∅).

Lemma merge_sort_nil {A} (R : relation A) `{!RelDecision R} l : merge_sort R l = [] ↔ l = [].
Proof.
  split; [|by intros ->]. intros H. pose proof (merge_sort_Permutation R l) as Hp. rewrite H in Hp.
  by apply Permutation_nil_l in Hp.
Qed.

Lemma omap_nil {A C} (f : A → option C) l : omap f l = [] ↔ ∀ x, x ∈ l → f x = None.
Proof.
  induction l as [|x l IH]; [split; [by intros _ x ?%elem_of_nil|done]|]. cbn.
  destruct (f x) eqn:E.
  - split; [done|]. intros H. by rewrite (H x (list_elem_of_here _ _)) in E.
  - rewrite IH. split; [intros H y [->|Hy]%elem_of_cons; auto|]. intros H y Hy. apply H. by right.
Qed.

(** No Configuration waits exactly when the two maps are one. *)
Lemma no_configuration_waits (pinned released : gmap string string) dropped :
  omap (configuration_change pinned) (btree_iter released)
    ++ ((λ n : string, (n, dropped))
          <$> List.filter (λ n, bool_decide (released !! n = None)) (btree_keys pinned)) = []
  ↔ released = pinned.
Proof.
  split.
  - intros [H1 H2]%app_nil. rewrite omap_nil in H1. apply fmap_nil_inv in H2.
    assert (H1' : ∀ n h, released !! n = Some h → pinned !! n = Some h).
    { intros n h Hn. apply elem_of_btree_iter, H1 in Hn. unfold configuration_change in Hn. cbn in Hn.
      destruct (pinned !! n) as [h'|]; [|done]. case_bool_decide; [by subst|done]. }
    apply map_eq. intros n. destruct (released !! n) as [h|] eqn:Hn; [by rewrite (H1' n h)|].
    destruct (pinned !! n) as [h|] eqn:Hp; [|done]. exfalso.
    assert (Hin : n ∈ List.filter (λ n, bool_decide (released !! n = None)) (btree_keys pinned)).
    { apply list_elem_of_In, filter_In. split; [|by apply bool_decide_eq_true].
      apply list_elem_of_In, elem_of_btree_keys. eauto. }
    rewrite H2 in Hin. by apply elem_of_nil in Hin.
  - intros ->. apply app_nil. split.
    + apply omap_nil. intros [n h] Hn%elem_of_btree_iter. unfold configuration_change. cbn.
      rewrite Hn. by rewrite bool_decide_true.
    + destruct (List.filter _ _) as [|n l] eqn:E; [done|]. exfalso.
      assert (Hin : In n (n :: l)) by by left. rewrite <- E in Hin. apply filter_In in Hin as [Hk Hn].
      apply bool_decide_eq_true in Hn. apply list_elem_of_In, elem_of_btree_keys in Hk as [h Hh].
      congruence.
Qed.

(** What waits is what a press would move: the fleet view shows nothing waiting for an Agent — no
    Configuration, no Package, no Deployment — exactly when the release its Deployment would make is
    the assignment it has. *)
Theorem nothing_waits_iff_settled (assigned released : option Assignment) (d : Deployment) :
  (∀ a, assigned = Some a ∨ released = Some a → real_assignment a) →
  waiting assigned released d = mkWaiting [] [] "" ↔ released = assigned.
Proof.
  intros Hreal. unfold waiting.
  assert (Hiff : ∀ cs ps t, mkWaiting (merge_sort pending_le cs) ps t = mkWaiting [] [] "" ↔
                   cs = [] ∧ ps = [] ∧ t = "").
  { intros cs ps t. rewrite <- (merge_sort_nil pending_le cs). split; [by intros [=]|].
    by intros (-> & -> & ->). }
  rewrite Hiff, no_configuration_waits. clear Hiff.
  destruct assigned as [[ad ap ac]|], released as [[rd rp rc]|]; cbn.
  - destruct (Hreal (mkAssignment rd rp rc)) as [Hd _]; [by right|]. cbn in Hd. split.
    + intros (-> & Hp & Ht). case_bool_decide as Hdep; [|done]. injection Hdep as ->.
      destruct ap as [i|], rp as [j|]; try done. by case_bool_decide; subst.
    + intros [= -> -> ->]. rewrite bool_decide_true by done. split; [done|]. split; [|done].
      destruct ap as [i|]; [|done]. by rewrite bool_decide_true.
  - destruct (Hreal (mkAssignment ad ap ac)) as [_ Hs]; [by left|]. cbn in Hs. split; [|done].
    intros (Hc & Hp & _). destruct ap; [done|]. destruct Hs as [[]|Hs]; done.
  - destruct (Hreal (mkAssignment rd rp rc)) as [Hd _]; [by right|]. cbn in Hd. split; [|done].
    intros (_ & _ & Ht). done.
  - done.
Qed.

Lemma nothing_waits_iff_settled_witness :
  let a := mkAssignment "stable" None {["base" := "h1"]} in
  let b := mkAssignment "stable" None {["base" := "h2"]} in
  real_assignment a ∧ waiting (Some a) (Some b) (mkDeployment "stable" ∅ ∅ ∅) ≠ mkWaiting [] [] "".
Proof.
  intros a b. assert (Ha : real_assignment a) by (split; [done|right; vm_compute; done]).
  split; [done|]. rewrite nothing_waits_iff_settled; [vm_compute; done|].
  intros c [[= <-]|[= <-]]; [done|]. split; [done|]. right. vm_compute. done.
Defined.

Section Press.
Context {B D : Type} `{!ConfigBackend B} `{!AgentStore B} `{!DeploymentBackend D}.
Context (sha256 : list N → list N) (hex_encode : list N → string) (codecs : Codecs).
Context (elsewhere : gmap (list N) AgentRecord → Group → list (Uid * gmap string string)).
Implicit Types s : AppState B D.
Implicit Types cs : ConfigStore B.

Notation release := (release sha256 hex_encode).
Notation write_releases := (write_releases sha256 hex_encode codecs elsewhere).
Notation rollout_deployment := (rollout_deployment sha256 hex_encode codecs elsewhere).
Notation rollout_to_agent := (rollout_to_agent sha256 hex_encode codecs elsewhere).
Notation pins := (pins sha256 hex_encode).

Lemma release_view cs cs' sets d r :
  saved_view cs = saved_view cs' → release cs sets d r = release cs' sets d r.
Proof. intros H. unfold Rollouts.release. by rewrite (candidates_in_view _ _ cs cs'). Qed.

Lemma release_configurations cs sets d r a :
  release cs sets d r = Some a →
  a_deployment a = name d ∧
  a_configurations a = candidates_in sha256 hex_encode cs (configurations d) (record_description r).
Proof. unfold Rollouts.release. destruct (_ || _); [|done]. by intros [= <-]. Qed.

(** Releasing what is already released is releasing it again: what a press wrote, the next press
    would write. *)
Lemma release_idempotent cs sets d r :
  release cs sets d (with_assignment (release cs sets d r) r) = release cs sets d r.
Proof.
  set (cand := candidate sets d (record_description r) (installed_package_versions r)).
  set (type := reported_agent_type (record_description r)).
  set (configs := candidates_in sha256 hex_encode cs (configurations d) (record_description r)).
  set (package := λ assigned, match cand with
    | Some i => Some i
    | None => match type ≫= package_for d, assigned with
              | Some _, Some pinned =>
                  if bool_decide (Some (agent_type pinned) = type) then Some pinned else None
              | _, _ => None
              end
    end).
  set (rel := λ assigned,
    if bool_decide (is_Some (package assigned)) || negb (bool_decide (configs = ∅))
    then Some (mkAssignment (name d) (package assigned) configs) else None).
  change (rel (release cs sets d r ≫= a_package) = rel (assigned_package r)).
  change (release cs sets d r) with (rel (assigned_package r)).
  assert (Hpkg : ∀ x, package (package x) = package x).
  { intros x. unfold package. destruct cand; [done|]. destruct (type ≫= package_for d); [|done].
    destruct x as [i|]; [|done]. case_bool_decide as Ht; [by rewrite bool_decide_true|done]. }
  assert (Hrel : ∀ x, rel x ≫= a_package = package x).
  { intros x. unfold rel. destruct (package x); [done|]. cbn. by destruct (negb _). }
  rewrite Hrel. unfold rel. by rewrite Hpkg.
Qed.

(** The hashes [pin] took are the ones the release has. *)
Lemma repin_release cs sets d r a names pinned :
  names_match cs → release cs sets d r = Some a → dom (a_configurations a) ⊆ names →
  pins (configs cs) (btree_elements names) = Ok pinned → repin (hashes_of pinned) a = a.
Proof.
  intros Hn Hr Hdom Hp. destruct (release_configurations _ _ _ _ _ Hr) as [_ Hc].
  unfold repin. destruct a as [ad ap ac]. cbn in *. f_equal. apply map_eq. intros n.
  rewrite map_lookup_imap. destruct (ac !! n) as [h|] eqn:E; [|done]. cbn. f_equal.
  rewrite (hashes_of_pins _ _ _ _ _ n (NoDup_btree_elements names) Hp), bool_decide_true; cycle 1.
  { rewrite elem_of_btree_elements. apply Hdom, elem_of_dom. eauto. }
  rewrite Hc in E. apply lookup_candidates_in in E as (_ & c & -> & _ & ->); done.
Qed.

(** A release of the store's own making. *)
Definition own_release cs (x : list N * PersistedAgent * option Assignment) : Prop :=
  ∃ sets d r, x.2 = release cs sets d r.

Lemma agents_of_own cs releases pinned :
  names_match cs → Forall (own_release cs) releases →
  pins (configs cs) (btree_elements (released_names releases)) = Ok pinned →
  agents_of (hashes_of pinned) releases = (λ x, (x.1.1, p_with_assignment x.2 x.1.2)) <$> releases.
Proof.
  intros Hn Hown Hp. unfold agents_of. apply list_fmap_ext. intros i [[u p] rel] Hi. cbn. do 2 f_equal.
  destruct rel as [a|]; [|done]. cbn. f_equal.
  rewrite Forall_lookup in Hown. destruct (Hown _ _ Hi) as (sets & d & r & Hr). cbn in Hr.
  apply (repin_release cs sets d r a (released_names releases) pinned); [done|done| |done].
  unfold released_names. intros n Hin. apply elem_of_union_list. exists (dom (a_configurations a)).
  split; [|done]. apply list_elem_of_fmap. exists (u, p, Some a). split; [done|].
  by eapply list_elem_of_lookup_2.
Qed.

(** The loop that takes the written releases into the fleet. *)
Lemma take_releases_other l s :
  let s' := foldl (take_release sha256 codecs) s l in
  store s' = store s ∧ offering s' = offering s ∧ groups s' = groups s ∧ push s' = push s ∧
  presence s' = presence s ∧ forgotten s' = forgotten s.
Proof.
  revert s. induction l as [|ap l IH]; intros s; [done|]. cbn [foldl].
  destruct (IH (take_release sha256 codecs s ap)) as (-> & -> & -> & -> & -> & ->).
  unfold take_release. by destruct (fleet s !! ap.1).
Qed.

Lemma take_releases_fleet l s u :
  NoDup l.*1 →
  fleet (foldl (take_release sha256 codecs) s l) !! u =
  match List.find (λ ap, bool_decide (ap.1 = u)) l with
  | Some ap => with_assignment (p_assignment ap.2) <$> (fleet s !! u)
  | None => fleet s !! u
  end.
Proof.
  revert s. induction l as [|[v p] l IH]; intros s; [done|].
  cbn [fmap list_fmap fst foldl List.find]. intros [Hv Hl]%NoDup_cons. rewrite IH by done.
  unfold take_release. cbn [fst snd]. case_bool_decide as Huv.
  - subst v. assert (List.find (λ ap, bool_decide (ap.1 = u)) l = None) as ->.
    { destruct (List.find _ l) as [ap|] eqn:E; [|done]. apply find_some in E as [Hin Hap%bool_decide_eq_true].
      destruct Hv. rewrite <- Hap. apply list_elem_of_fmap. exists ap. split; [done|]. by apply list_elem_of_In. }
    destruct (fleet s !! u) eqn:E; cbn [fleet]; [by rewrite lookup_insert_eq|by rewrite E].
  - assert (fleet match fleet s !! v with
                  | Some r => mkApp (<[v := with_assignment (p_assignment p) r]> (fleet s)) (groups s) (store s) (offering s) (<[v := durable_digest sha256 codecs p]> (written s)) (presence s) (forgotten s) (push s)
                  | None => s
                  end !! u = fleet s !! u) as ->; [|done].
    destruct (fleet s !! v); [|done]. cbn [fleet]. by rewrite lookup_insert_ne.
Qed.

Lemma collect_revisions_other names s :
  fleet (collect_revisions names s) = fleet s ∧ offering (collect_revisions names s) = offering s ∧
  written (collect_revisions names s) = written s ∧ groups (collect_revisions names s) = groups s ∧
  push (collect_revisions names s) = push s ∧
  saved_view (store (collect_revisions names s)) = saved_view (store s).
Proof. split_and!; try done. apply collect_view. Qed.

(** Refused or failed, writing releases leaves the fleet as it was. *)
Lemma write_releases_Err releases s s' e :
  write_releases releases s = (s', Err e) →
  fleet s' = fleet s ∧ offering s' = offering s ∧ written s' = written s ∧ groups s' = groups s ∧
  push s' = push s ∧ saved_view (store s') = saved_view (store s).
Proof.
  unfold Rollouts.write_releases. rewrite pin_run.
  destruct (pins _ _) as [pinned|e'] eqn:Ep; [|intros [= <- _]; apply (collect_revisions_other _ (set_store _ s))].
  unfold eff_bind, eff_ret. destruct (agents_release _ _ _) as [b [wrote|e']]; [done|].
  intros [= <- _]. destruct (collect_revisions_other (released_names releases)
    (set_store (mkConfigStore b (foldl retain_pinned (configs (store s)) pinned)) s))
    as (-> & -> & -> & -> & -> & ->). split_and!; try done. apply retain_pinned_view.
Qed.

(** The store is one Server's own: it writes every record it is given. *)
Hypothesis writes_all : ∀ revisions agents b b' wrote,
  agents_release revisions agents b = (b', Ok wrote) → wrote = agents.*1.

Lemma write_releases_Ok releases s s' n touched :
  names_match (store s) → NoDup ((λ x, x.1.1) <$> releases) → Forall (own_release (store s)) releases →
  write_releases releases s = (s', Ok (n, touched)) →
  n = length releases ∧ offering s' = offering s ∧ groups s' = groups s ∧ push s' = push s ∧
  saved_view (store s') = saved_view (store s) ∧
  ∀ u, fleet s' !! u = match List.find (λ x, bool_decide (x.1.1 = u)) releases with
                       | Some x => with_assignment x.2 <$> (fleet s !! u)
                       | None => fleet s !! u
                       end.
Proof.
  intros Hn Hnd Hown. unfold Rollouts.write_releases. rewrite pin_run.
  destruct (pins _ _) as [pinned|e'] eqn:Ep; [|done].
  rewrite (agents_of_own (store s) releases pinned) by done.
  set (agents := (λ x, (x.1.1, p_with_assignment x.2 x.1.2)) <$> releases).
  unfold eff_bind, eff_ret. destruct (agents_release pinned agents _) as [b [wrote|e']] eqn:Er; [|done].
  apply writes_all in Er as ->.
  assert (Huids : agents.*1 = (λ x, x.1.1) <$> releases)
    by (unfold agents; by rewrite <- list_fmap_compose).
  assert (Hall : ∀ ap, ap ∈ agents → bool_decide (ap.1 ∈ agents.*1) = true).
  { intros ap Hap. apply bool_decide_eq_true. apply list_elem_of_fmap. eauto. }
  assert (List.filter (λ ap, bool_decide (ap.1 ∈ agents.*1)) agents = agents) as ->.
  { apply forallb_filter_id, forallb_forall. intros ap Hap. apply Hall. by apply list_elem_of_In. }
  assert (List.filter (λ ap, negb (bool_decide (ap.1 ∈ agents.*1))) agents = []) as ->.
  { destruct (List.filter _ agents) as [|ap l] eqn:E; [done|]. exfalso.
    assert (Hin : In ap (ap :: l)) by by left. rewrite <- E in Hin. apply filter_In in Hin as [Hin Hf].
    by rewrite Hall in Hf by by apply list_elem_of_In. }
  cbn [fmap list_fmap foldl]. intros [= <- <- <-].
  destruct (take_releases_other agents
    (set_store (mkConfigStore b (foldl retain_pinned (configs (store s)) pinned)) s))
    as (-> & -> & -> & -> & _ & _).
  split_and!; try done.
  - unfold agents. by rewrite length_fmap.
  - apply retain_pinned_view.
  - intros u. rewrite take_releases_fleet by by rewrite Huids. unfold agents. cbn [fleet set_store].
    clear. induction releases as [|[[v p] a] l IH]; [done|]. cbn [fmap list_fmap List.find fst snd].
    case_bool_decide; [done|apply IH].
Qed.

(** Whether the one Deployment that claims the Agent is the one pressed. *)
Definition claims_agent (channels : gmap string Deployment) (n : string) (r : AgentRecord) : bool :=
  match deployment_for channels (record_description r) with
  | Ok (Some claimed) => bool_decide (name claimed = n)
  | _ => false
  end.

Lemma release_of_Some s sets channels n d u r x :
  release_of sha256 hex_encode s sets channels n d (u, r) = Some x ↔
  claims_agent channels n r = true ∧ release (store s) sets d r ≠ r_assignment r ∧
  x = (u, to_persisted (default r (fleet s !! u)), release (store s) sets d r).
Proof.
  unfold release_of, claims_agent.
  destruct (deployment_for channels (record_description r)) as [[c|]|names]; [|naive_solver..].
  case_bool_decide as Hc; [|naive_solver]. case_bool_decide as Hr; [naive_solver|].
  split; [intros [= <-]; naive_solver|]. by intros (_ & _ & ->).
Qed.

Lemma find_unique {A C} `{!EqDecision C} (f : A → C) l u x :
  NoDup (f <$> l) → List.find (λ x, bool_decide (f x = u)) l = Some x ↔ x ∈ l ∧ f x = u.
Proof.
  intros Hnd. split.
  - intros [Hin Hx%bool_decide_eq_true]%find_some. by rewrite list_elem_of_In.
  - induction l as [|y l IH]; [by intros [?%elem_of_nil _]|]. cbn [fmap list_fmap List.find] in *.
    apply NoDup_cons in Hnd as [Hy Hl]. intros [Hin Hx]. apply elem_of_cons in Hin as [->|Hin].
    + by rewrite bool_decide_true.
    + rewrite bool_decide_false; [auto|]. intros Hyx. apply Hy. apply list_elem_of_fmap.
      exists x. by rewrite Hyx, Hx.
Qed.

(** The releases of a press, as they are written. *)
Definition press_releases s sets channels n d : list (list N * PersistedAgent * option Assignment) :=
  merge_sort release_le (omap (release_of sha256 hex_encode s sets channels n d) (map_to_list (fleet s))).

Lemma elem_of_press_releases s sets channels n d x :
  x ∈ press_releases s sets channels n d ↔
  ∃ r, fleet s !! x.1.1 = Some r ∧ claims_agent channels n r = true ∧
    release (store s) sets d r ≠ r_assignment r ∧ x.2 = release (store s) sets d r ∧
    x.1.2 = to_persisted r.
Proof.
  unfold press_releases. rewrite (merge_sort_Permutation release_le), list_elem_of_omap. split.
  - intros ([u r] & Hin%elem_of_map_to_list & Hx%release_of_Some). destruct Hx as (H1 & H2 & ->).
    cbn. rewrite Hin. exists r. split_and!; done.
  - intros (r & Hr & H1 & H2 & Hx & Hp). exists (x.1.1, r). rewrite elem_of_map_to_list. split; [done|].
    apply release_of_Some. split; [done|]. split; [done|]. rewrite Hr. cbn.
    destruct x as [[u p] a]. cbn in *. congruence.
Qed.

Lemma NoDup_press_releases s sets channels n d :
  NoDup ((λ x, x.1.1) <$> press_releases s sets channels n d).
Proof.
  unfold press_releases. rewrite (merge_sort_Permutation release_le).
  pose proof (NoDup_fst_map_to_list (fleet s)) as Hnd.
  induction (map_to_list (fleet s)) as [|[u r] l IH]; [constructor|]. cbn in Hnd.
  apply NoDup_cons in Hnd as [Hu Hl]. cbn [omap list_omap].
  destruct (release_of _ _ s sets channels n d (u, r)) as [x|] eqn:Ex; [|auto]. cbn.
  constructor; [|auto]. apply release_of_Some in Ex as (_ & _ & ->). cbn. intros Hin. apply Hu.
  apply list_elem_of_fmap in Hin as (y & -> & Hy). apply list_elem_of_omap in Hy as ([v q] & Hv & Hy).
  apply release_of_Some in Hy as (_ & _ & ->). cbn. apply list_elem_of_fmap. by exists (v, q).
Qed.

Lemma length_press_releases s sets channels n d :
  length (press_releases s sets channels n d) =
  base.size (filter (λ ur, claims_agent channels n ur.2 = true ∧
                      release (store s) sets d ur.2 ≠ r_assignment ur.2) (fleet s)).
Proof.
  rewrite <- (length_fmap (λ x, x.1.1)), <- size_dom.
  rewrite <- (size_list_to_set (C := gset (list N))) by apply NoDup_press_releases.
  f_equal. apply set_eq. intros u. rewrite elem_of_list_to_set, list_elem_of_fmap, elem_of_dom. split.
  - intros (x & -> & (r & Hr & H1 & H2 & _)%elem_of_press_releases). exists r.
    by apply map_lookup_filter_Some.
  - intros [r [Hr [H1 H2]]%map_lookup_filter_Some].
    exists (u, to_persisted r, release (store s) sets d r). split; [done|].
    apply elem_of_press_releases. exists r. split_and!; done.
Qed.

(** C26: a press moves exactly the Agents it claims: where the Server alone writes its store, after a
    press of a Deployment every Agent that this Deployment and no other claims has the release as its
    assignment, no other Agent and no other field of a record changed, the answer is how many Agents
    moved, and nothing of the Deployment waits for any of them any more. *)
Theorem press_moves_the_claimed n s s' k sets ds d :
  names_match (store s) → offering s = Some (sets, ds) → deployments ds !! n = Some d →
  rollout_deployment (Ok None) n s = (s', Ok k) →
  fleet s' = (λ r, if claims_agent (deployments ds) n r
                   then with_assignment (release (store s) sets d r) r else r) <$> fleet s ∧
  k = base.size (filter (λ ur, claims_agent (deployments ds) n ur.2 = true ∧
                           release (store s) sets d ur.2 ≠ r_assignment ur.2) (fleet s)) ∧
  ∀ u r, fleet s' !! u = Some r → claims_agent (deployments ds) n r = true →
    release (store s') sets d r = r_assignment r.
Proof.
  intros Hn Hoff Hd. unfold Rollouts.rollout_deployment. rewrite Hoff, Hd.
  destruct (refuse_unreleasable sets d); [|done].
  fold (press_releases s sets (deployments ds) n d).
  destruct (write_releases _ s) as [s1 [[moved touched]|e]] eqn:Ew; [|done]. intros [= <- <-].
  apply write_releases_Ok in Ew as (-> & _ & _ & _ & Hview & Hfleet); [|done| |]; cycle 1.
  { apply NoDup_press_releases. }
  { apply Forall_forall. intros x (r & _ & _ & _ & Hx & _)%elem_of_press_releases. by exists sets, d, r. }
  destruct (collect_revisions_other touched s1) as (Hf & _ & _ & _ & _ & Hv).
  cbn [fleet store wake]. rewrite Hf.
  assert (Hmap : fleet s1 = (λ r, if claims_agent (deployments ds) n r
                   then with_assignment (release (store s) sets d r) r else r) <$> fleet s).
  { apply map_eq. intros u. rewrite Hfleet, lookup_fmap.
    destruct (List.find _ _) as [x|] eqn:Ex.
    - apply (find_unique (λ x, x.1.1)) in Ex as [Hx <-]; [|apply NoDup_press_releases].
      apply elem_of_press_releases in Hx as (r & -> & Hc & _ & -> & _). cbn. by rewrite Hc.
    - destruct (fleet s !! u) as [r|] eqn:Er; [|done]. cbn. f_equal.
      destruct (claims_agent (deployments ds) n r) eqn:Hc; [|done].
      destruct (decide (release (store s) sets d r = r_assignment r)) as [Heq|Hne];
        [rewrite Heq; by destruct r|]. exfalso.
      assert (Hin : (u, to_persisted r, release (store s) sets d r) ∈ press_releases s sets (deployments ds) n d)
        by (apply elem_of_press_releases; exists r; split_and!; done).
      rewrite (proj2 (find_unique (λ x, x.1.1) _ _ _ (NoDup_press_releases s sets (deployments ds) n d))
        (conj Hin eq_refl)) in Ex. done. }
  split; [done|]. split; [apply length_press_releases|].
  intros u r Hu Hc. rewrite Hmap in Hu. apply lookup_fmap_Some in Hu as (r0 & <- & Hr0).
  rewrite (release_view _ (store s)) by by rewrite Hv, Hview.
  destruct (claims_agent (deployments ds) n r0) eqn:Hc0; [apply release_idempotent|congruence].
Qed.

(** The two rollout acts of a Server that alone writes its store. *)
Inductive Press :=
| PressAgent (uid : Uid) (named : option string)
| PressDeployment (n : string).

Definition press (p : Press) s : AppState B D * result nat RolloutError :=
  match p with
  | PressAgent uid named =>
      match rollout_to_agent (Ok None) uid named s with
      | (s, Ok _) => (s, Ok 1%nat)
      | (s, Err e) => (s, Err e)
      end
  | PressDeployment n => rollout_deployment (Ok None) n s
  end.

Lemma release_to_own s r named n a :
  release_to sha256 hex_encode s r named = Ok (n, a) →
  ∃ sets d, a = release (store s) sets d r.
Proof.
  unfold release_to. destruct (deployment_of s r) as [[d|]|]; cbn; [|done..].
  destruct (match named with Some _ => _ | None => _ end); [done|].
  destruct (offering s) as [[sets ds]|]; [|done].
  destruct (refuse_unreleasable sets d); [|done]. cbn. destruct (if bool_decide _ then _ else _); [|done].
  cbn. intros [= _ <-]. by exists sets, d.
Qed.

(** A press that is refused, or that the store fails, moves nobody: no record of the fleet
    changes, no group, no digest of what was last written, no Deployment, no saved revision, and no
    WebSocket loop is woken. *)
Theorem refused_press_moves_nobody (p : Press) s s' e :
  names_match (store s) → press p s = (s', Err e) →
  fleet s' = fleet s ∧ offering s' = offering s ∧ written s' = written s ∧ groups s' = groups s ∧
  push s' = push s ∧ saved_view (store s') = saved_view (store s).
Proof.
  intros Hn. destruct p as [uid named|n]; cbn [press].
  - unfold Rollouts.rollout_to_agent. destruct (fleet s !! uid) as [r|] eqn:Er; [|by intros [= <- _]].
    destruct (release_to sha256 hex_encode s r named) as [[m a]|e'] eqn:Et; [|by intros [= <- _]].
    apply release_to_own in Et as (sets & d & Ha).
    destruct (write_releases _ s) as [s1 [[k touched]|e']] eqn:Ew.
    + apply write_releases_Ok in Ew as (-> & _); [done|done| |].
      * cbn. by apply NoDup_singleton.
      * repeat constructor. by exists sets, d, r.
    + intros [= <- _]. by apply write_releases_Err in Ew.
  - unfold Rollouts.rollout_deployment.
    destruct (offering s) as [[sets ds]|] eqn:Eo; [rewrite <- Eo|by intros [= <- _]].
    destruct (deployments ds !! n) as [d|]; [|by intros [= <- _]].
    destruct (refuse_unreleasable sets d); [|by intros [= <- _]].
    destruct (write_releases _ s) as [s1 [[k touched]|e']] eqn:Ew; [done|].
    intros [= <- _]. by apply write_releases_Err in Ew.
Qed.
End Press.
