(* ===== verification/Reports.v ===== *)
(** * The reply to a report

    [process_presented] of [fleet-server/src/fleet.rs] and what it calls: the identity a report is
    taken for, the ceiling of the records, the record it updates, the certificate it may ask for,
    the restart it may be answered with, and the offers. A report is one step: the fleet lock is held
    from the identity to the reply.
    The identities the Server mints are arguments, the signer of certificates and the encoding of an
    offer are parameters, a refusal is the data its text is formatted from. *)

From S2P Require Import Prelude RustStr Proto Packages Labels Deployments Configs Offers Agents Placement Revocation Rollouts.

Open Scope string_scope.
Open Scope list_scope.

(** ** Messages *)

Record TlsCertificate := mkTls {
  tls_cert : list N;
  tls_private_key : list N;
  tls_ca_cert : list N;
}.

(** [OpAmpConnectionSettings] and [TelemetryConnectionSettings]; what no code here reads of them —
    headers, the TLS and proxy settings — is [rest]. *)
Record ConnectionSettings := mkConnection {
  destination_endpoint : string;
  settings_certificate : option TlsCertificate;
  heartbeat_interval_seconds : N;
  settings_rest : list N;
}.

Definition connection_default : ConnectionSettings := mkConnection "" None 0 [].

Record TelemetrySettings := mkTelemetry {
  telemetry_endpoint : string;
  telemetry_rest : list N;
}.

Record TelemetryOffer := mkTelemetryOffer {
  own_metrics : option TelemetrySettings;
  own_traces : option TelemetrySettings;
  own_logs : option TelemetrySettings;
}.

Definition telemetry_is_empty (t : TelemetryOffer) : bool :=
  match own_metrics t, own_traces t, own_logs t with None, None, None => true | _, _, _ => false end.

Record SettingsOffer := mkSettingsOffer {
  offer_opamp : option ConnectionSettings;
  offer_telemetry : TelemetryOffer;
  offer_hash : list N;
}.

(** [AgentToServer], with what the Server reads of it; an entry of a reported config map is its
    body. *)
Record Report := mkReport {
  m_instance_uid : list N;
  m_sequence_num : N;
  m_description : option AgentDescription;
  m_capabilities : N;
  m_health : option ComponentHealth;
  m_effective_config : option (option (gmap string (list N)));
  m_remote_config_status : option RemoteConfigStatus;
  m_package_statuses : option PackageStatuses;
  m_disconnect : bool;
  m_flags : N;
  m_csr : option (list N);
  m_available_components : option AvailableComponents;
  m_connection_settings_status : option ConnectionSettingsStatus;
}.

(** Why a report is refused; [BadRequest] and [Unavailable] with what their text is formatted from. *)
Inductive Refusal :=
| MalformedUid
| NotAdmitted (why : LedgerError)
| CannotStore
| AtCeiling
| AuditUnavailable
| CannotRecord (why : LedgerError)
| CsrRefused (why : string).

Inductive ErrorResponse := BadRequest (why : Refusal) | Unavailable (why : Refusal) (retry_after_ns : N).

Record ServerToAgent := mkReply {
  s_instance_uid : list N;
  s_error : option ErrorResponse;
  s_remote_config : option AgentRemoteConfig;
  s_connection_settings : option SettingsOffer;
  s_packages : option PackagesAvailable;
  s_flags : N;
  s_capabilities : N;
  s_identification : option Uid;
  s_restart : bool;
}.

Record Processed := mkProcessed {
  reply : ServerToAgent;
  processed_uid : option Uid;
  disconnected : bool;
}.

Definition SERVER_CAPABILITIES : N := 7.
Definition RETRY_AFTER_NS : N := 30000000000.

Definition bad_request (why : Refusal) : ServerToAgent :=
  mkReply [] (Some (BadRequest why)) None None None 0 SERVER_CAPABILITIES None false.

Definition unavailable (uid : list N) (why : Refusal) : ServerToAgent :=
  mkReply uid (Some (Unavailable why RETRY_AFTER_NS)) None None None 0 SERVER_CAPABILITIES None false.

Definition restart_command (uid : Uid) (caps : N) : ServerToAgent :=
  mkReply uid None None None None 0 caps None true.

Definition refused (reply : ServerToAgent) : Processed := mkProcessed reply None false.

Definition RequestInstanceUid : N := 1.
Definition ReportFullState : N := 1.
Definition ReportAvailableComponents : N := 2.
Definition ReportsOwnTraces : N := 32.
Definition ReportsOwnMetrics : N := 64.
Definition ReportsOwnLogs : N := 128.
Definition AcceptsOpAmpConnectionSettings : N := 256.
Definition AcceptsRestartCommand : N := 1024.
Definition ReportsAvailableComponents : N := 16384.

Definition StatusInstalled : Z := 0.
Definition StatusInstallFailed : Z := 3.
Definition SettingsApplying : Z := 2.

(** ** Rendering a reported configuration *)

Fixpoint join_lines (l : list string) : string :=
  match l with
  | [] => ""
  | [x] => x
  | x :: l => x +:+ String "010" (join_lines l)
  end.

Definition config_map_text (map : option (gmap string (list N))) : string :=
  match map with
  | None => ""
  | Some m =>
      join_lines ((λ nb, let body := from_utf8_lossy nb.2 in
                         if is_empty nb.1 then body else "# " +:+ nb.1 +:+ String "010" body)
                    <$> btree_iter m)
  end.

(** ** What a report changes of its record *)

Definition wrapping_succ (n : N) : N := ((n + 1) mod 18446744073709551616)%N.

Definition compressed (m : Report) : bool := bool_decide (m_description m = None).

(** A message was lost, where the record was known before. *)
Definition gap (known : bool) (m : Report) (r : AgentRecord) : bool :=
  known && negb (m_sequence_num m =? wrapping_succ (r_sequence_num r))%N.

Definition restarted (known : bool) (m : Report) (r : AgentRecord) : bool :=
  known && (m_sequence_num m <? r_sequence_num r)%N.

(** The flags the reply starts with. *)
Definition full_state_flag (known : bool) (m : Report) (r : AgentRecord) : N :=
  if compressed m && (negb known || gap known m r) then ReportFullState else 0%N.

(** A hash alone never degrades the map already fetched under it. *)
Definition keep_stored_full (stored : option AvailableComponents) (incoming : AvailableComponents) : bool :=
  match stored with
  | Some s => bool_decide (available_components_map incoming = []) &&
              negb (bool_decide (available_components_map s = [])) &&
              bool_decide (available_components_hash s = available_components_hash incoming)
  | None => false
  end.

Definition take_components (stored incoming : option AvailableComponents) : option AvailableComponents :=
  match incoming with
  | None => stored
  | Some i => if keep_stored_full stored i then stored else Some i
  end.

Definition or_held {A} (reported held : option A) : option A :=
  match reported with Some a => Some a | None => held end.

(** Whether the report is the first over its connection, of a record not [created] by it. *)
Definition connects (created : bool) (conn : option N) (r : AgentRecord) : bool :=
  created || negb (r_connected r) || negb (bool_decide (r_owner r = conn)).

(** Every field the report decides. *)
Definition take_report (known : bool) (m : Report) (t : Transport) (conn : option N)
    (host : option string) (now : N) (r : AgentRecord) : AgentRecord :=
  mkRecord (m_sequence_num m)
    (if (m_capabilities m =? 0)%N then r_capabilities r else m_capabilities m)
    (or_held (m_description m) (r_description r)) (or_held (m_health m) (r_health r))
    (or_held (config_map_text <$> m_effective_config m) (r_effective_config r))
    (or_held (m_remote_config_status m) (r_remote_config_status r))
    t true now (r_restart_pending r)
    (take_components (r_available_components r) (m_available_components m))
    (if connects false conn r || restarted known m r then None else r_components_demanded r)
    (or_held (m_connection_settings_status m) (r_connection_settings_status r))
    (or_held (m_package_statuses m) (r_package_statuses r))
    conn true (r_labels r) host (r_placement r) (r_assignment r).

(** [new_record]: a new Agent waits, assigned nothing. *)
Definition new_record (seq : N) (t : Transport) (conn : option N) (now : N) : AgentRecord :=
  mkRecord seq 0 None None None None t true now false None None None None conn true ∅ None
    placement_default None.

Definition with_connection (connected : bool) (owner : option N) (r : AgentRecord) : AgentRecord :=
  mkRecord (r_sequence_num r) (r_capabilities r) (r_description r) (r_health r)
    (r_effective_config r) (r_remote_config_status r) (r_transport r) connected
    (r_last_seen_ms r) (r_restart_pending r) (r_available_components r) (r_components_demanded r)
    (r_connection_settings_status r) (r_package_statuses r) owner (r_heard r) (r_labels r)
    (r_host r) (r_placement r) (r_assignment r).

Definition with_demanded (hash : option (list N)) (r : AgentRecord) : AgentRecord :=
  mkRecord (r_sequence_num r) (r_capabilities r) (r_description r) (r_health r)
    (r_effective_config r) (r_remote_config_status r) (r_transport r) (r_connected r)
    (r_last_seen_ms r) (r_restart_pending r) (r_available_components r) hash
    (r_connection_settings_status r) (r_package_statuses r) (r_owner r) (r_heard r) (r_labels r)
    (r_host r) (r_placement r) (r_assignment r).

Definition with_restart (pending : bool) (r : AgentRecord) : AgentRecord :=
  mkRecord (r_sequence_num r) (r_capabilities r) (r_description r) (r_health r)
    (r_effective_config r) (r_remote_config_status r) (r_transport r) (r_connected r)
    (r_last_seen_ms r) pending (r_available_components r) (r_components_demanded r)
    (r_connection_settings_status r) (r_package_statuses r) (r_owner r) (r_heard r) (r_labels r)
    (r_host r) (r_placement r) (r_assignment r).

(** The hash whose components are demanded, when they are. *)
Definition demands_components (r : AgentRecord) : option (list N) :=
  if has_capability r ReportsAvailableComponents then
    match r_available_components r with
    | Some c =>
        if bool_decide (available_components_map c = [])
           && negb (bool_decide (r_components_demanded r = Some (available_components_hash c)))
        then Some (available_components_hash c) else None
    | None => None
    end
  else None.

(** ** The settings offer *)

Section SettingsOffer.
Context (sha256 : list N → list N) (encode_offer : SettingsOffer → list N).
Context (connection_offer : option ConnectionSettings) (telemetry_offer : TelemetryOffer).

(** [compose_settings_offer]: one hash over everything it carries. *)
Definition compose_settings_offer (opamp : option ConnectionSettings) (t : TelemetryOffer) : SettingsOffer :=
  mkSettingsOffer opamp t (sha256 (encode_offer (mkSettingsOffer opamp t []))).

(** [gate]. *)
Definition settings_gate (r : AgentRecord) (o : SettingsOffer) : option SettingsOffer :=
  match r_connection_settings_status r with
  | Some st =>
      if bool_decide (last_connection_settings_hash st = offer_hash o)
         && negb (bool_decide (connection_settings_state st = SettingsApplying))
      then None else Some o
  | None => Some o
  end.

Definition telemetry_for (r : AgentRecord) : TelemetryOffer :=
  let only (bit : N) (o : option TelemetrySettings) := if has_capability r bit then o else None in
  mkTelemetryOffer (only ReportsOwnMetrics (own_metrics telemetry_offer))
    (only ReportsOwnTraces (own_traces telemetry_offer)) (only ReportsOwnLogs (own_logs telemetry_offer)).

(** [settings_offer]. *)
Definition settings_offer (r : AgentRecord) (issued : option TlsCertificate) : option SettingsOffer :=
  let telemetry := telemetry_for r in
  match issued with
  | Some cert =>
      let c := default connection_default connection_offer in
      Some (compose_settings_offer
              (Some (mkConnection (destination_endpoint c) (Some cert) (heartbeat_interval_seconds c)
                       (settings_rest c))) telemetry)
  | None =>
      let settings := if has_capability r AcceptsOpAmpConnectionSettings then connection_offer else None in
      match settings, telemetry_is_empty telemetry with
      | None, true => None
      | _, _ => settings_gate r (compose_settings_offer settings telemetry)
      end
  end.
End SettingsOffer.

(** ** Certificates *)

Record Signed := mkSigned {
  pem : list N;
  signed_facts : Facts;
}.

(** [CertificateSigner]. *)
Record Signer := mkSigner {
  sign : string → string → SubjectValues → result Signed string;
  renewal_proof : string → result (option Facts) string;
  bootstrap_proof_id : string → result (option CertId) string;
  check_claims : string → list N → result unit string;
}.

(** What the audit record is told of a report. *)
Inductive AuditEntry :=
| IdentityClaimed (claimed : Uid) (host : string)
| PackageOutcome (installed : bool) (uid : Uid) (package : string) (status : PackageStatus)
| IssuanceSigned (facts : Facts) (sender : list N) (renewed : option CertId)
| IssuanceRefused (uid : Uid) (why : string).

Class Audit (A : Type) := {
  audit_record : AuditEntry → A → A * bool;
  audit_refusal : AuditEntry → A → A;
}.

(** [fleet_core::host::derived]. *)
Definition substring (from len : nat) (s : string) : string := String.substring from len s.

Definition derived_host (sha256 : list N → list N) (hex_encode : list N → string) (id : CertId) : string :=
  let hex := hex_encode (take 16 (sha256 (bytes_of (issuer id +:+ String "010" (serial id))))) in
  substring 0 8 hex +:+ "-" +:+ substring 8 4 hex +:+ "-" +:+ substring 12 4 hex +:+ "-"
  +:+ substring 16 4 hex +:+ "-" +:+ substring 20 (String.length hex - 20) hex.

(** ** The Server, as far as a report reads and writes it *)

Record Server (B D L A : Type) := mkServer {
  app : AppState B D;
  ledger_of : option (Revocations L);
  audit : option A;
}.
Arguments mkServer {B D L A}.
Arguments app {B D L A}.
Arguments ledger_of {B D L A}.
Arguments audit {B D L A}.

(** What the Server was configured with. *)
Record ServerConfig := mkServerConfig {
  max_agents : N;
  client_ca : option Signer;
  connection_offer : option ConnectionSettings;
  telemetry_offer : TelemetryOffer;
  stale_budget_ms : N;
}.

Section Process.
Context {B D L A : Type} `{!ConfigBackend B} `{!AgentStore B} `{!DeploymentBackend D}.
Context `{!LedgerStore L} `{!Audit A}.
Context (sha256 : list N → list N) (hex_encode : list N → string) (codecs : Codecs).
Context (encode_offer : SettingsOffer → list N).
Context (elsewhere : gmap (list N) AgentRecord → Group → list (Uid * gmap string string)).
Context (cfg : ServerConfig).
Notation App := (AppState B D).
Notation Srv := (Server B D L A).

(** *** Parts of the state *)

Definition on_app (f : App → App) (s : Srv) : Srv := mkServer (f (app s)) (ledger_of s) (audit s).
Definition set_ledger (r : Revocations L) (s : Srv) : Srv := mkServer (app s) (Some r) (audit s).

Definition audit_refused (e : AuditEntry) (s : Srv) : Srv :=
  mkServer (app s) (ledger_of s) (audit_refusal e <$> audit s).

Definition agents_call {X} (call : Eff B ConfigError X) (s : App) : App * result X ConfigError :=
  let (b, x) := call (config_backend (store s)) in (set_store (mkConfigStore b (configs (store s))) s, x).

Definition set_record (uid : Uid) (r : AgentRecord) (s : App) : App := set_fleet (<[uid := r]> (fleet s)) s.

Definition set_written (f : gmap (list N) (list N) → gmap (list N) (list N)) (s : App) : App :=
  mkApp (fleet s) (groups s) (store s) (offering s) (f (written s)) (presence s) (forgotten s) (push s).

Definition set_presence (f : PresenceWritten → PresenceWritten) (s : App) : App :=
  mkApp (fleet s) (groups s) (store s) (offering s) (written s) (f (presence s)) (forgotten s) (push s).

Definition set_placed (fg : gmap (list N) AgentRecord * gmap Group (gset (list N))) (s : App) : App :=
  mkApp fg.1 fg.2 (store s) (offering s) (written s) (presence s) (forgotten s) (push s).

(** The host register as the placement reads it. *)
Definition register_of (s : Srv) : option (gmap string HostMark) :=
  (λ r, (λ h, mkHostMark (is_marked h) (host_subject h)) <$> hosts (trust r)) <$> ledger_of s.

Definition place_agent (uid : Uid) (s : Srv) : Srv :=
  on_app (λ a, set_placed (place (register_of s) elsewhere uid (fleet a) (groups a)) a) s.

Notation digest := (durable_digest sha256 codecs).

(** [persist], and [persist_if_dirty]: a record whose durable content is what was last written is not
    written again; [false] when another instance forgot it. *)
Definition persist (uid : Uid) (r : AgentRecord) (s : App) : App * result bool ConfigError :=
  let p := to_persisted r in
  if bool_decide (written s !! uid = Some (digest p)) then (s, Ok true)
  else
    match agents_call (agents_write_report uid p) s with
    | (s, Ok true) => (set_written (<[uid := digest p]>) s, Ok true)
    | (s, x) => (s, x)
    end.

Definition persist_if_dirty (uid : Uid) (r : AgentRecord) (s : App) : App * bool :=
  match persist uid r s with
  | (s, Ok stored) => (s, stored)
  | (s, Err _) => (s, true)
  end.

(** [unpersist]. *)
Definition unpersist (uid : Uid) (s : App) : App :=
  set_written (delete uid) (agents_call (agents_remove uid) s).1.

(** [PresenceWritten::under] and the answer of a take. *)
Definition presence_under (holder : string) (p : PresenceWritten) : PresenceWritten :=
  if bool_decide (presence_holder p = Some holder) then p else mkPresence (Some holder) ∅ ∅.

(** [write_connected]; [lease] is the id of the lease this instance serves under. *)
Definition write_connected (lease : option string) (uid : Uid) (seen : N) (s : App) : App :=
  if negb agents_is_shared then s
  else
    match lease with
    | None => s
    | Some holder =>
        match agents_call (agents_take uid holder seen) s with
        | (s, Ok (Some take)) =>
            set_presence (λ p, let p := presence_under holder p in
              mkPresence (presence_holder p) (<[uid := (true, seen)]> (presence_agents p))
                (<[uid := take]> (presence_takes p))) s
        | (s, _) => s
        end
    end.

(** [take_restart]: cleared in the store first, delivered only when it was still queued there. *)
Definition take_restart (uid : Uid) (r : AgentRecord) (s : App) : App * AgentRecord * bool :=
  match agents_call (agents_set_restart_pending uid false) s with
  | (s, Ok was) => (set_written (delete uid) s, with_restart false r, bool_decide (was = Some true))
  | (s, Err _) => (s, r, false)
  end.

Definition server_capabilities (s : App) : N :=
  capabilities (bool_decide (is_Some (connection_offer cfg)) || negb (telemetry_is_empty (telemetry_offer cfg)))
    (bool_decide (is_Some (client_ca cfg))) s.

(** [forgotten_elsewhere]. *)
Definition forgotten_elsewhere (uid : Uid) (reported : list N) (s : App) : App * Processed :=
  let s := wake (drop_forgotten elsewhere s uid) in
  (s, refused (mkReply reported None None None None 0 (server_capabilities s) None false)).

(** [hold_from_store]. *)
Definition hold_from_store (uid : Uid) (s : App) : App * bool :=
  if negb agents_is_shared || bool_decide (is_Some (fleet s !! uid)) then (s, false)
  else
    match agents_call (agents_get uid) s with
    | (s, Ok (Some p)) => (set_record uid (from_persisted p) (set_written (<[uid := digest p]>) s), true)
    | (s, _) => (s, false)
    end.

(** *** The identity a report is taken for *)

(** Code that may answer the report at once: an early [return] is the error. *)
Notation Step X := (Eff Srv Processed X).

Definition gets {X} (f : Srv → X) : Step X := λ s, (s, Ok (f s)).
Definition answer {X} (p : Processed) : Step X := eff_fail p.

(** What is settled of a report's identity so far. *)
Record Identity := mkIdentity {
  i_uid : Uid;
  i_sender : list N;
  i_new : option Uid;
  i_binding : option (string * Uid);
  i_rekeyed : option (Uid * Uid);
}.

(** A certificate of another host does not speak for the Agent: its reporter gets the identity
    [minted]. *)
Definition claim_identity (presented : option Presented) (minted uid : Uid) : Step Identity := λ s,
  match presented ≫= presented_host, ledger_of s with
  | Some host, Some r =>
      match may_report hex_encode r host uid with
      | Ok _ => (s, Ok (mkIdentity uid uid None (Some (host, uid)) None))
      | Err _ =>
          let s := audit_refused (IdentityClaimed uid host) s in
          match may_report hex_encode r host minted with
          | Ok _ => (s, Ok (mkIdentity minted minted (Some minted) (Some (host, minted)) None))
          | Err e => (s, Err (refused (bad_request (NotAdmitted e))))
          end
      end
  | _, _ => (s, Ok (mkIdentity uid uid None None None))
  end.

(** The record of a re-keyed Agent goes with it: the old identity leaves its group. *)
Definition move_record (old new : Uid) (s : App) : App :=
  match fleet s !! old with
  | None => s
  | Some r =>
      let p := r_placement r in
      let r' := with_placement (mkPlacement (host_values p) None (client_agent p) (inherited_labels p)
                                  (ambiguous p)) r in
      let s := set_placed (unplace elsewhere old (group p) (<[new := r']> (delete old (fleet s))) (groups s)) s in
      set_presence (presence_remove old) (set_written (delete old) s)
  end.

(** The Agent asked for an identity. *)
Definition assign_identity (m : Report) (minted : Uid) (i : Identity) : Step Identity := λ s,
  if bool_decide (i_new i = None) && negb (N.land (m_flags m) RequestInstanceUid =? 0)%N then
    let (a, moved) := match fleet (app s) !! i_uid i with
                      | None => (app s, Ok tt)
                      | Some r => agents_call (agents_rekey (i_uid i) minted (to_persisted r)) (app s)
                      end in
    match moved with
    | Ok _ => (on_app (λ _, move_record (i_uid i) minted a) s,
               Ok (mkIdentity minted (i_sender i) (Some minted) (i_binding i) (Some (i_uid i, minted))))
    | Err _ => (on_app (λ _, a) s, Ok i)
    end
  else (s, Ok i).

(** The identity is alive on another WebSocket: the newcomer gets one of its own. *)
Definition is_duplicate (conn : option N) (uid : Uid) (f : gmap (list N) AgentRecord) : bool :=
  match conn, f !! uid with
  | Some c, Some r => r_connected r && match r_owner r with
                                       | Some o => negb (o =? c)%N
                                       | None => false
                                       end
  | _, _ => false
  end.

Definition part_duplicate (conn : option N) (minted : Uid) (i : Identity) : Step Identity := λ s,
  if is_duplicate conn (i_uid i) (fleet (app s))
  then (s, Ok (mkIdentity minted (i_sender i) (Some minted) (i_binding i) (i_rekeyed i)))
  else (s, Ok i).

(** *** The ceiling of the records *)

(** What is known of the Agent's record: held before, loaded from the store, created by this report. *)
Record Standing := mkStanding {
  known : bool;
  was_loaded : bool;
  created : bool;
}.

Definition create_shared (m : Report) (t : Transport) (conn : option N) (now : N) (uid : Uid)
    (was_held : bool) : Step Standing := λ s,
  let r := new_record (m_sequence_num m) t conn now in
  match agents_call (agents_create_within uid (to_persisted r) (max_agents cfg)) (app s) with
  | (a, Ok Created) => (on_app (λ _, set_record uid r a) s, Ok (mkStanding false was_held true))
  | (a, Ok (Found p)) =>
      (on_app (λ _, set_record uid (from_persisted p) (set_written (<[uid := digest p]>) a)) s,
       Ok (mkStanding true true false))
  | (a, Ok Full) =>
      (on_app (λ _, a) s, Err (refused (unavailable (m_instance_uid m) AtCeiling)))
  | (a, Err _) => (on_app (λ _, a) s, Err (refused (unavailable (m_instance_uid m) CannotStore)))
  end.

Definition admit_record (m : Report) (t : Transport) (conn : option N) (now : N) (uid : Uid)
    (was_held : bool) : Step Standing := λ s,
  let f := fleet (app s) in
  if bool_decide (is_Some (f !! uid)) then (s, Ok (mkStanding true was_held false))
  else if (agents_is_shared : bool) then create_shared m t conn now uid was_held s
  else if (max_agents cfg <=? N.of_nat (base.size f))%N
  then (s, Err (refused (unavailable (m_instance_uid m) AtCeiling)))
  else (s, Ok (mkStanding false was_held false)).

(** *** The binding, and the record the report updates *)

Definition bind_report (presented : option Presented) (i : Identity) (st : Standing) : Step unit := λ s,
  match ledger_of s with
  | None => (s, Ok tt)
  | Some r =>
      let checked := match i_binding i with
                     | Some (host, bound) =>
                         check_report hex_encode host (from_option presented_subject subject_default presented)
                           (from_option presented_not_after_ms 0%N presented) bound r
                     | None => (r, Ok tt)
                     end in
      match checked with
      | (r, Err e) =>
          let s := set_ledger r s in
          let s := if created st
                   then on_app (λ a, unpersist (i_uid i) (set_fleet (delete (i_uid i) (fleet a)) a)) s
                   else s in
          (s, Err (refused (bad_request (NotAdmitted e))))
      | (r, Ok _) =>
          (set_ledger (match i_rekeyed i with
                       | Some (old, new) => (rebind hex_encode old new r).1
                       | None => r
                       end) s, Ok tt)
      end
  end.

(** The outcomes a report tells of its packages, each told once. *)
Definition outcome_of (s : PackageStatus) : option bool :=
  if bool_decide (package_state s = StatusInstalled) then Some true
  else if bool_decide (package_state s = StatusInstallFailed) then Some false
  else None.

Definition outcomes (uid : Uid) (held : option PackageStatuses) (m : Report) : list AuditEntry :=
  match m_package_statuses m with
  | None => []
  | Some incoming =>
      omap (λ ns : string * PackageStatus,
        let before := (λ p, (package_state p, agent_has_version p))
                        <$> (held ≫= λ h, statuses_packages h !! ns.1) in
        match outcome_of ns.2 with
        | Some installed =>
            if bool_decide (before = Some (package_state ns.2, agent_has_version ns.2)) then None
            else Some (PackageOutcome installed uid ns.1 ns.2)
        | None => None
        end) (map_to_list (statuses_packages incoming))
  end.

(** What the report is: where it arrived, over what, when. *)
Record Arrival := mkArrival {
  a_transport : Transport;
  a_conn : option N;
  a_now : N;
  a_lease : option string;
  a_presented : option Presented;
}.

(** The Host it arrived over, none without a host register. *)
Definition arrived_over (at_ : Arrival) (s : Srv) : option string :=
  match ledger_of s with Some _ => a_presented at_ ≫= presented_host | None => None end.

(** The record updated, placed where what places it may have changed; the flags of the reply. *)
Definition update_record (m : Report) (at_ : Arrival) (i : Identity) (st : Standing) : Step N := λ s,
  let uid := i_uid i in
  let r := default (new_record (m_sequence_num m) (a_transport at_) (a_conn at_) (a_now at_))
             (fleet (app s) !! uid) in
  let over := arrived_over at_ s in
  let r' := take_report (known st) m (a_transport at_) (a_conn at_) over (a_now at_) r in
  let s := on_app (set_record uid r') s in
  let s := if connects (created st) (a_conn at_) r
           then on_app (write_connected (a_lease at_) uid (a_now at_)) s else s in
  let s := foldl (λ s e, audit_refused e s) s (outcomes uid (r_package_statuses r) m) in
  let moved := negb (bool_decide (r_host r = over)) in
  let s := if negb (known st) || moved || negb (compressed m) || bool_decide (is_Some (i_rekeyed i))
              || was_loaded st
           then place_agent uid s else s in
  (s, Ok (full_state_flag (known st) m r)).

(** *** A certificate asked for *)

Definition is_revoked (id : CertId) (s : Srv) : Srv * bool :=
  match ledger_of s with
  | None => (s, false)
  | Some r => let (r, b) := is_certificate_revoked id r in (set_ledger r s, b)
  end.

Definition is_gateway (host : string) (s : Srv) : bool :=
  match ledger_of s with
  | None => false
  | Some r => from_option is_marked false (hosts (trust r) !! host)
  end.

(** [renews]: what a CSR renews, the host and the subject values of the new certificate; [minted] is
    the host of a certificate that renews none. *)
Definition renews (ca : Signer) (csr : string) (presented : option Presented) (minted : string)
    (s : Srv) : Srv * result (option CertId * string * SubjectValues) string :=
  match renewal_proof ca csr with
  | Err e => (s, Err e)
  | Ok (Some old) =>
      let (s, bad) := is_revoked (cert_id old) s in
      if bad then (s, Err "the certificate this request renews is revoked")
      else (s, Ok (Some (cert_id old), default (derived_host sha256 hex_encode (cert_id old)) (cert_host old),
                   subject_values old))
  | Ok None =>
      match bootstrap_proof_id ca csr with
      | Err e => (s, Err e)
      | Ok named =>
          match presented with
          | None => (s, Ok (None, minted, subject_default))
          | Some p =>
              let host := default (derived_host sha256 hex_encode (presented_id p)) (presented_host p) in
              let enrols := match named with Some n => negb (bool_decide (n = presented_id p)) | None => false end in
              if enrols then
                (s, Err (if is_gateway host s
                         then "a bootstrap proof through a Gateway is an enrolment request, not a renewal"
                         else "a certificate signing request with a bootstrap proof is an enrolment, and a member does not enrol"))
              else if is_gateway host s
              then (s, Err "a certificate requested through a Gateway needs a renewal proof or a bootstrap proof")
              else (s, Ok (Some (presented_id p), host, presented_subject p))
          end
      end
  end.

(** [record_issued]: the audit record first, then the register. *)
Definition record_issued (now : N) (signed : Signed) (sender : list N) (p : option CertId) (s : Srv)
    : Srv * result unit Refusal :=
  let '(s, told) :=
    match audit s with
    | None => (s, true)
    | Some a => let (a, ok) := audit_record (IssuanceSigned (signed_facts signed) sender p) a in
                (mkServer (app s) (ledger_of s) (Some a), ok)
    end in
  if negb told then (s, Err AuditUnavailable)
  else
    match ledger_of s with
    | None => (s, Ok tt)
    | Some r =>
        match record_with hex_encode now (signed_facts signed) sender p None r with
        | (r, Ok _) => (set_ledger r s, Ok tt)
        | (r, Err e) => (set_ledger r s, Err (CannotRecord e))
        end
    end.

(** The certificate issued, [Ok (Err _)] a request refused and [Err _] one that cannot be recorded. *)
Definition sign_request (now : N) (sender csr : list N) (presented : option Presented) (minted : string)
    (s : Srv) : Srv * result (result TlsCertificate string) Refusal :=
  match client_ca cfg with
  | None => (s, Ok (Err "this Server issues no client certificates"))
  | Some ca =>
      match from_utf8 csr with
      | None => (s, Ok (Err "the certificate signing request is not PEM"))
      | Some text =>
          match check_claims ca text sender with
          | Err e => (s, Ok (Err e))
          | Ok _ =>
              match renews ca text presented minted s with
              | (s, Err e) => (s, Ok (Err e))
              | (s, Ok (p, host, subject)) =>
                  match sign ca text host subject with
                  | Err e => (s, Ok (Err e))
                  | Ok signed =>
                      match record_issued now signed sender p s with
                      | (s, Err e) => (s, Err e)
                      | (s, Ok _) => (s, Ok (Ok (mkTls (pem signed) [] [])))
                      end
                  end
              end
          end
      end
  end.

(** The record of [uid] written if it is dirty; the report is answered at once when another instance
    forgot it. *)
Definition persist_or_leave (uid : Uid) (reported : list N) : Step unit := λ s,
  match fleet (app s) !! uid with
  | None => (s, Ok tt)
  | Some r =>
      let (a, held) := persist_if_dirty uid r (app s) in
      if held then (on_app (λ _, a) s, Ok tt)
      else let (a, p) := forgotten_elsewhere uid reported a in (on_app (λ _, a) s, Err p)
  end.

Definition issue_certificate (m : Report) (at_ : Arrival) (i : Identity) (minted : string)
    : Step (option TlsCertificate) := λ s,
  match m_csr m with
  | None => (s, Ok None)
  | Some csr =>
      match sign_request (a_now at_) (i_sender i) csr (a_presented at_) minted s with
      | (s, Ok (Ok cert)) => (s, Ok (Some cert))
      | (s, Ok (Err why)) =>
          let s := audit_refused (IssuanceRefused (i_uid i) why) s in
          (_ <-! persist_or_leave (i_uid i) (m_instance_uid m) ;;
           answer (mkProcessed (bad_request (CsrRefused why)) (Some (i_uid i)) false)) s
      | (s, Err why) =>
          (_ <-! persist_or_leave (i_uid i) (m_instance_uid m) ;;
           answer (mkProcessed (unavailable (m_instance_uid m) why) (Some (i_uid i)) false)) s
      end
  end.

(** *** The reply *)

(** The goodbye, and the components the Agent is asked for: the flags of the reply after them. *)
Definition close_and_demand (m : Report) (uid : Uid) (flags : N) : Step N := λ s,
  match fleet (app s) !! uid with
  | None => (s, Ok flags)
  | Some r =>
      if m_disconnect m then (on_app (set_record uid (with_connection false None r)) s, Ok flags)
      else
        match demands_components r with
        | Some hash => (on_app (set_record uid (with_demanded (Some hash) r)) s,
                        Ok (N.lor flags ReportAvailableComponents))
        | None => (s, Ok flags)
        end
  end.

(** A queued restart goes out alone, or waits. *)
Definition may_restart (m : Report) (i : Identity) (flags : N) (r : AgentRecord) : bool :=
  r_restart_pending r && negb (m_disconnect m) && bool_decide (i_new i = None) && (flags =? 0)%N
  && has_capability r AcceptsRestartCommand.

Definition restart_or_go_on (m : Report) (i : Identity) (flags : N) : Step unit := λ s,
  match fleet (app s) !! i_uid i with
  | None => (s, Ok tt)
  | Some r =>
      if may_restart m i flags r then
        let '(a, r, taken) := take_restart (i_uid i) r (app s) in
        let s := on_app (λ _, set_record (i_uid i) r a) s in
        if taken then
          (_ <-! persist_or_leave (i_uid i) (m_instance_uid m) ;;
           λ s, (s, Err (mkProcessed (restart_command (i_uid i) (server_capabilities (app s)))
                           (Some (i_uid i)) false))) s
        else (s, Ok tt)
      else (s, Ok tt)
  end.

(** The offers, none to an Agent that said goodbye. *)
Definition reply_to (m : Report) (i : Identity) (flags : N) (cert : option TlsCertificate) (s : Srv)
    : Processed :=
  let offers {X} (o : AgentRecord → option X) : option X :=
    if m_disconnect m then None else fleet (app s) !! i_uid i ≫= o in
  mkProcessed
    (mkReply (m_instance_uid m) None
       (offers (λ r, config_offer r (compose sha256 (store (app s)) (assigned_configurations r))))
       (offers (λ r, settings_offer sha256 encode_offer (connection_offer cfg) (telemetry_offer cfg) r cert))
       (offers (λ r, packages_offer sha256 (app s) r))
       flags (server_capabilities (app s)) (i_new i) false)
    (Some (i_uid i)) (m_disconnect m).

(** The identities the Server mints, in the order of the code, and a host. *)
Record Minted := mkMinted {
  minted_for_claim : Uid;
  minted_for_request : Uid;
  minted_for_duplicate : Uid;
  minted_host : string;
}.

(** [process_presented]: from the identity the report is admitted under ([process_as]), from where a
    record read from a shared store is held ([process_held]), and from the wire. *)
Definition process_as (m : Report) (at_ : Arrival) (n : Minted) (held : bool) (i : Identity) : Step Processed :=
  i <-! assign_identity m (minted_for_request n) i ;;
  i <-! part_duplicate (a_conn at_) (minted_for_duplicate n) i ;;
  st <-! admit_record m (a_transport at_) (a_conn at_) (a_now at_) (i_uid i) held ;;
  _ <-! bind_report (a_presented at_) i st ;;
  flags <-! update_record m at_ i st ;;
  cert <-! issue_certificate m at_ i (minted_host n) ;;
  flags <-! close_and_demand m (i_uid i) flags ;;
  _ <-! restart_or_go_on m i flags ;;
  _ <-! persist_or_leave (i_uid i) (m_instance_uid m) ;;
  gets (reply_to m i flags cert).

Definition process_held (m : Report) (at_ : Arrival) (n : Minted) (uid : Uid) (held : bool) : Step Processed :=
  i <-! claim_identity (a_presented at_) (minted_for_claim n) uid ;;
  process_as m at_ n held i.

Definition process_presented (m : Report) (at_ : Arrival) (n : Minted) (s : Srv) : Srv * Processed :=
  match from_wire (m_instance_uid m) with
  | None => (s, refused (bad_request MalformedUid))
  | Some uid =>
      let (a, held) := hold_from_store uid (app s) in
      match process_held m at_ n uid held (on_app (λ _, a) s) with
      | (s, Ok p) => (s, p)
      | (s, Err p) => (s, p)
      end
  end.
End Process.
