(* ===== verification/Replies.v ===== *)
(** * What a report does and is answered

    The theorems on [process_presented]: which records a report touches, how many the fleet holds,
    what the reply demands, when a restart goes out, and what a heartbeat writes. *)

From S2P Require Import Prelude RustStr Proto Packages Labels Deployments Configs Offers Agents Placement Revocation Trust Bindings Rollouts Reports.

Open Scope string_scope.
Open Scope list_scope.

Section Replies.
Context {B D L A : Type} `{!ConfigBackend B} `{!AgentStore B} `{!DeploymentBackend D}.
Context `{!LedgerStore L} `{!Audit A}.
Context (sha256 : list N → list N) (hex_encode : list N → string) (codecs : Codecs).
Context (encode_offer : SettingsOffer → list N).
Context (elsewhere : gmap (list N) AgentRecord → Group → list (Uid * gmap string string)).
Context (cfg : ServerConfig).
Notation App := (AppState B D).
Notation Srv := (Server B D L A).
Implicit Types s : Srv.
Implicit Types a : App.
Implicit Types m : Report.

(** The records a Server holds, without where they are placed. *)
Definition bare (s : Srv) : gmap (list N) AgentRecord := unplaced <$> fleet (app s).

Lemma agents_call_same {X} (call : Eff B ConfigError X) a a' x :
  agents_call call a = (a', x) → ∃ b, a' = set_store (mkConfigStore b (configs (store a))) a.
Proof. unfold agents_call. destruct (call (config_backend (store a))) as [b y]. intros [= <- <-]. eauto. Qed.

Lemma agents_call_fleet {X} (call : Eff B ConfigError X) a a' x :
  agents_call call a = (a', x) → fleet a' = fleet a.
Proof. by intros [b ->]%agents_call_same. Qed.

(** *** What each part does to the records *)

Lemma bare_set_record uid r s :
  bare (on_app (set_record uid r) s) = <[uid := unplaced r]> (bare s).
Proof. unfold bare. cbn. by rewrite fmap_insert. Qed.

Lemma persist_fleet uid r a a' x : persist sha256 codecs uid r a = (a', x) → fleet a' = fleet a.
Proof.
  unfold persist. case_bool_decide; [by intros [= <- <-]|].
  destruct (agents_call _ a) as [a1 y] eqn:E. apply agents_call_fleet in E.
  destruct y as [[]|]; intros [= <- <-]; done.
Qed.

Lemma persist_if_dirty_fleet uid r a a' x :
  persist_if_dirty sha256 codecs uid r a = (a', x) → fleet a' = fleet a.
Proof.
  unfold persist_if_dirty. destruct (persist _ _ uid r a) as [a1 y] eqn:E. apply persist_fleet in E.
  destruct y; by intros [= <- <-].
Qed.

Lemma drop_forgotten_bare a uid :
  unplaced <$> fleet (drop_forgotten elsewhere a uid) = delete uid (unplaced <$> fleet a).
Proof.
  unfold drop_forgotten. destruct (fleet a !! uid) as [r|] eqn:Hr.
  - assert (Hf : fleet (end_session uid r a) = fleet a) by (unfold end_session; by destruct (r_connected r), (r_owner r)).
    destruct (unplace elsewhere uid (group (r_placement r)) _ _) as [f g] eqn:E.
    pose proof (unplace_unplaced elsewhere uid (group (r_placement r)) (delete uid (fleet (end_session uid r a)))
      (groups (end_session uid r a))) as Hu. rewrite E, Hf in Hu. cbn in *. by rewrite Hu, fmap_delete.
  - symmetry. apply delete_id. by rewrite lookup_fmap, Hr.
Qed.

Lemma persist_or_leave_bare uid reported s s' x :
  persist_or_leave sha256 codecs elsewhere cfg uid reported s = (s', x) →
  (x = Ok tt ∧ bare s' = bare s) ∨ ((∃ p, x = Err p) ∧ bare s' = delete uid (bare s)).
Proof.
  unfold persist_or_leave. destruct (fleet (app s) !! uid) as [r|] eqn:Hr; [|intros [= <- <-]; by left].
  destruct (persist_if_dirty sha256 codecs uid r (app s)) as [a held] eqn:E.
  apply persist_if_dirty_fleet in E. destruct held.
  - intros [= <- <-]. left. split; [done|]. unfold bare. cbn. by rewrite E.
  - unfold forgotten_elsewhere. intros [= <- <-]. right. split; [by eexists|].
    unfold bare. cbn. by rewrite drop_forgotten_bare, E.
Qed.

Lemma claim_identity_spec presented minted uid s s' x :
  claim_identity hex_encode presented minted uid s = (s', x) →
  app s' = app s ∧ ledger_of s' = ledger_of s ∧
  match x with
  | Ok i => i_rekeyed i = None ∧ i_sender i = i_uid i ∧
            (i_uid i = uid ∧ i_new i = None ∨ i_uid i = minted ∧ i_new i = Some minted)
  | Err p => ∃ e, p = refused (bad_request (NotAdmitted e))
  end.
Proof.
  unfold claim_identity. destruct (presented ≫= presented_host) as [host|]; [|intros [= <- <-]; by auto 10].
  destruct (ledger_of s) as [r|] eqn:Hl; [|intros [= <- <-]; by auto 10].
  destruct (may_report hex_encode r host uid); [intros [= <- <-]; by auto 10|].
  destruct (may_report hex_encode r host minted); intros [= <- <-]; cbn; by eauto 10.
Qed.

Lemma move_record_bare old new a r :
  fleet a !! old = Some r →
  unplaced <$> fleet (move_record elsewhere old new a) = <[new := unplaced r]> (delete old (unplaced <$> fleet a)).
Proof.
  intros Hr. unfold move_record. rewrite Hr. cbn.
  rewrite unplace_unplaced, fmap_insert, fmap_delete. done.
Qed.

Lemma assign_identity_bare m minted i s s' x :
  assign_identity elsewhere m minted i s = (s', x) →
  ∃ i', x = Ok i' ∧ i_sender i' = i_sender i ∧ i_binding i' = i_binding i ∧
    (i' = i ∧ bare s' = bare s ∨
     i_uid i' = minted ∧ i_new i' = Some minted ∧ i_rekeyed i' = Some (i_uid i, minted) ∧
     bare s' = match bare s !! i_uid i with
               | Some r => <[minted := r]> (delete (i_uid i) (bare s))
               | None => bare s
               end).
Proof.
  unfold assign_identity. destruct (_ && _); [|intros [= <- <-]; eauto 10].
  destruct (fleet (app s) !! i_uid i) as [r|] eqn:Hr.
  - destruct (agents_call _ (app s)) as [a y] eqn:E. apply agents_call_fleet in E. rewrite <- E in Hr.
    destruct y as [[]|e]; intros [= <- <-]; eexists; (split; [reflexivity|]); (do 2 (split; [done|])).
    + right. do 3 (split; [done|]). unfold bare. cbn. rewrite (move_record_bare _ _ _ r) by done.
      rewrite lookup_fmap, <- E, Hr. done.
    + left. split; [done|]. unfold bare. cbn. by rewrite E.
  - intros [= <- <-]. eexists. split; [reflexivity|]. do 2 (split; [done|]). right. do 3 (split; [done|]).
    unfold bare, move_record. cbn. rewrite Hr. by rewrite lookup_fmap, Hr.
Qed.

Lemma part_duplicate_spec conn minted i s s' x :
  part_duplicate conn minted i s = (s', x) →
  s' = s ∧ ∃ i', x = Ok i' ∧ i_sender i' = i_sender i ∧ i_binding i' = i_binding i ∧ i_rekeyed i' = i_rekeyed i ∧
    (i' = i ∨ i_uid i' = minted ∧ i_new i' = Some minted).
Proof. unfold part_duplicate. destruct (is_duplicate _ _ _); intros [= <- <-]; eauto 10. Qed.

Lemma admit_record_spec m t conn now uid held s s' x :
  admit_record sha256 codecs cfg m t conn now uid held s = (s', x) →
  ledger_of s' = ledger_of s ∧
  match x with
  | Ok st =>
      known st = true ∧ created st = false ∧ s' = s ∧ is_Some (bare s !! uid) ∨
      agents_is_shared = true ∧ bare s !! uid = None ∧ (∃ r, bare s' = <[uid := r]> (bare s)) ∨
      agents_is_shared = false ∧ known st = false ∧ created st = false ∧ s' = s ∧ bare s !! uid = None ∧
        (N.of_nat (base.size (bare s)) < max_agents cfg)%N
  | Err p => bare s' = bare s ∧ ∃ why, p = refused (unavailable (m_instance_uid m) why)
  end.
Proof.
  assert (Hb : bare s !! uid = unplaced <$> (fleet (app s) !! uid)) by apply lookup_fmap.
  unfold admit_record. case_bool_decide as Hh.
  { intros [= <- <-]. split; [done|]. left. rewrite Hb. by rewrite fmap_is_Some. }
  apply eq_None_not_Some in Hh. rewrite Hh in Hb. destruct agents_is_shared eqn:Hs.
  - unfold create_shared. destruct (agents_call _ (app s)) as [a y] eqn:E. apply agents_call_fleet in E.
    destruct y as [[| |]|]; intros [= <- <-]; (split; [done|]).
    + right; left. do 2 (split; [done|]). eexists. unfold bare. cbn. by rewrite fmap_insert, E.
    + right; left. do 2 (split; [done|]). eexists. unfold bare. cbn. by rewrite fmap_insert, E.
    + split; [unfold bare; cbn; by rewrite E|by eexists].
    + split; [unfold bare; cbn; by rewrite E|by eexists].
  - destruct (N.leb_spec (max_agents cfg) (N.of_nat (base.size (fleet (app s))))); intros [= <- <-]; (split; [done|]).
    + split; [done|by eexists].
    + right; right. do 5 (split; [done|]). unfold bare. by rewrite map_size_fmap.
Qed.

Lemma bind_report_spec presented i st s s' x :
  bind_report hex_encode presented i st s = (s', x) →
  match x with
  | Ok _ => app s' = app s
  | Err p => (∃ e, p = refused (bad_request (NotAdmitted e))) ∧
             (app s' = app s ∨ created st = true ∧ bare s' = delete (i_uid i) (bare s))
  end.
Proof.
  unfold bind_report. destruct (ledger_of s) as [r|]; [|by intros [= <- <-]].
  destruct (match i_binding i with Some _ => _ | None => _ end) as [r1 [[]|e]]; [by intros [= <- <-]|].
  intros [= <- <-]. split; [by eexists|]. destruct (created st); [right|by left]. split; [done|].
  unfold bare, unpersist. cbn. destruct (agents_call _ _) as [a y] eqn:E. apply agents_call_fleet in E.
  cbn. rewrite E. cbn. by rewrite fmap_delete.
Qed.

Lemma write_connected_fleet lease uid seen a : fleet (write_connected lease uid seen a) = fleet a.
Proof.
  unfold write_connected. destruct (negb _); [done|]. destruct lease; [|done].
  destruct (agents_call _ a) as [a1 y] eqn:E. apply agents_call_fleet in E. destruct y as [[]|]; done.
Qed.

Lemma audit_refused_each (l : list AuditEntry) s :
  app (foldl (λ s e, audit_refused e s) s l) = app s ∧
  ledger_of (foldl (λ s e, audit_refused e s) s l) = ledger_of s.
Proof. revert s. induction l as [|e l IH]; intros s; [done|]. cbn. destruct (IH (audit_refused e s)) as [-> ->]. done. Qed.

Lemma place_agent_bare uid s : bare (place_agent elsewhere uid s) = bare s.
Proof. unfold bare, place_agent. cbn. by rewrite place_unplaced. Qed.

(** The record a report finds, or starts. *)
Definition found_record (m : Report) (at_ : Arrival) (uid : Uid) (s : Srv) : AgentRecord :=
  default (new_record (m_sequence_num m) (a_transport at_) (a_conn at_) (a_now at_)) (fleet (app s) !! uid).

Lemma update_record_spec m at_ i st s s' x :
  update_record elsewhere m at_ i st s = (s', x) →
  let r := found_record m at_ (i_uid i) s in
  x = Ok (full_state_flag (known st) m r) ∧ ledger_of s' = ledger_of s ∧
  bare s' = <[i_uid i := unplaced (take_report (known st) m (a_transport at_) (a_conn at_)
                                     (arrived_over at_ s) (a_now at_) r)]> (bare s).
Proof.
  intros [= <- <-]. split; [done|]. fold (found_record m at_ (i_uid i) s). set (r := found_record m at_ (i_uid i) s).
  set (s1 := on_app (set_record (i_uid i) _) s).
  set (s2 := if connects _ _ _ then _ else s1).
  set (s3 := foldl _ s2 _).
  assert (H1 : bare s1 = <[i_uid i := unplaced (take_report (known st) m (a_transport at_) (a_conn at_)
                                     (arrived_over at_ s) (a_now at_) r)]> (bare s)) by apply bare_set_record.
  assert (H2 : bare s2 = bare s1 ∧ ledger_of s2 = ledger_of s1).
  { subst s2. destruct (connects _ _ _); [|done]. split; [|done]. unfold bare. cbn. by rewrite write_connected_fleet. }
  destruct (audit_refused_each (outcomes (i_uid i) (r_package_statuses r) m) s2) as [H3 H3'].
  fold s3 in H3, H3'. assert (Hb3 : bare s3 = bare s2) by (unfold bare; by rewrite H3).
  destruct H2 as [H2 H2'].
  destruct (_ || was_loaded st); rewrite ?place_agent_bare, Hb3, H2, H1; (split; [|done]);
    [change (ledger_of s3 = ledger_of s)|]; by rewrite H3', H2'.
Qed.

Lemma sign_request_app now sender csr presented minted s s' x :
  sign_request sha256 hex_encode cfg now sender csr presented minted s = (s', x) → app s' = app s.
Proof.
  unfold sign_request. destruct (client_ca cfg) as [ca|]; [|by intros [= <- <-]].
  destruct (from_utf8 csr) as [text|]; [|by intros [= <- <-]].
  destruct (check_claims ca text sender); [|by intros [= <- <-]].
  destruct (renews _ _ ca text presented minted s) as [s1 y] eqn:E1.
  assert (H1 : app s1 = app s).
  { revert E1. unfold renews, is_revoked.
    destruct (renewal_proof ca text) as [[old|]|]; [destruct (ledger_of s) as [r|]; [destruct (is_certificate_revoked _ r) as [r' []]|]| |];
      try (intros [= <- <-]; done).
    destruct (bootstrap_proof_id ca text); [|by intros [= <- <-]]. destruct presented; [|by intros [= <- <-]].
    repeat case_match; by intros [= <- <-]. }
  destruct y as [[[p host] subject]|]; [|by intros [= <- <-]].
  destruct (sign ca text host subject) as [signed|]; [|by intros [= <- <-]].
  destruct (record_issued _ now signed sender p s1) as [s2 z] eqn:E2.
  assert (H2 : app s2 = app s1).
  { unfold record_issued in E2. repeat case_match; simplify_eq; done. }
  destruct z; intros [= <- <-]; congruence.
Qed.

Lemma persist_then_answer_bare {X} uid reported p s s' (x : result X Processed) :
  (_ <-! persist_or_leave sha256 codecs elsewhere cfg uid reported ;; answer p) s = (s', x) →
  (∃ p', x = Err p') ∧ (bare s' = bare s ∨ bare s' = delete uid (bare s)).
Proof.
  intros [(s2 & [] & Hp & [= <- <-])|(e & Hp & ->)]%eff_bind_inv;
    apply persist_or_leave_bare in Hp as [[? ?]|[? ?]]; eauto.
Qed.

Lemma issue_certificate_bare m at_ i minted s s' x :
  issue_certificate sha256 hex_encode codecs elsewhere cfg m at_ i minted s = (s', x) →
  bare s' = bare s ∨ (∃ p, x = Err p) ∧ bare s' = delete (i_uid i) (bare s).
Proof.
  unfold issue_certificate. destruct (m_csr m) as [csr|]; [|intros [= <- <-]; by left].
  destruct (sign_request _ _ _ _ _ _ _ _ s) as [s1 y] eqn:E. apply sign_request_app in E.
  assert (H1 : bare s1 = bare s) by (unfold bare; by rewrite E). unfold answer.
  destruct y as [[cert|why]|why]; [intros [= <- <-]; by left|..]; intros Hx;
    apply persist_then_answer_bare in Hx as [Hp Hx];
    [change (bare (audit_refused _ s1)) with (bare s1) in Hx|]; rewrite H1 in Hx; destruct Hx; auto.
Qed.

(** The record changed, if it is there, in what the change of [f] allows. *)
Definition adjusted (uid : Uid) (s s' : Srv) : Prop :=
  bare s' = bare s ∨ ∃ r, is_Some (bare s !! uid) ∧ bare s' = <[uid := r]> (bare s).

Lemma close_and_demand_bare m uid flags s s' x :
  close_and_demand m uid flags s = (s', x) → adjusted uid s s' ∧ ledger_of s' = ledger_of s.
Proof.
  unfold close_and_demand. destruct (fleet (app s) !! uid) as [r|] eqn:Hr; [|intros [= <- <-]; by split; [left|]].
  assert (Hi : is_Some (bare s !! uid)) by (unfold bare; rewrite lookup_fmap, Hr; by eexists).
  destruct (m_disconnect m); [|destruct (demands_components r)]; intros [= <- <-]; (split; [|done]);
    [right|right|by left]; eexists; (split; [done|apply bare_set_record]).
Qed.

Lemma take_restart_fleet uid r a a' r' b : take_restart uid r a = (a', r', b) → fleet a' = fleet a.
Proof.
  unfold take_restart. destruct (agents_call _ a) as [a1 y] eqn:E. apply agents_call_fleet in E.
  destruct y; by intros [= <- <- <-].
Qed.

Lemma restart_bare m i flags s s' x :
  restart_or_go_on sha256 codecs elsewhere cfg m i flags s = (s', x) →
  adjusted (i_uid i) s s' ∨ (∃ p, x = Err p) ∧ ∃ r, bare s' = delete (i_uid i) (<[i_uid i := r]> (bare s)).
Proof.
  unfold restart_or_go_on. destruct (fleet (app s) !! i_uid i) as [r|] eqn:Hr; [|intros [= <- <-]; by left; left].
  assert (Hi : is_Some (bare s !! i_uid i)) by (unfold bare; rewrite lookup_fmap, Hr; by eexists).
  destruct (may_restart _ _ _ _); [|intros [= <- <-]; by left; left].
  destruct (take_restart _ _ _) as [[a r'] taken] eqn:E. apply take_restart_fleet in E.
  set (s1 := on_app _ s). assert (H1 : bare s1 = <[i_uid i := unplaced r']> (bare s)).
  { unfold bare. cbn. by rewrite fmap_insert, E. }
  destruct taken; [|intros [= <- <-]; left; right; eauto].
  intros [(s2 & [] & Hp & [= <- <-])|(e & Hp & ->)]%eff_bind_inv;
    apply persist_or_leave_bare in Hp as [[Hx Hb]|[[p Hx] Hb]]; simplify_eq; rewrite H1 in Hb.
  - left. right. eauto.
  - right. eauto.
Qed.

(** *** The records a report leaves alone *)

(** Outside [X] the records are as in [s0], but for where they are placed. *)
Definition outside (X : gset (list N)) (s0 s : Srv) : Prop := ∀ u, u ∉ X → bare s !! u = bare s0 !! u.

Lemma outside_same X s0 s s' : bare s' = bare s → outside X s0 s → outside X s0 s'.
Proof. intros Hb H u Hu. rewrite Hb. by apply H. Qed.

Lemma outside_insert X s0 s s' uid r :
  uid ∈ X → bare s' = <[uid := r]> (bare s) → outside X s0 s → outside X s0 s'.
Proof. intros Hx Hb H u Hu. rewrite Hb, lookup_insert_ne by set_solver. by apply H. Qed.

Lemma outside_delete X s0 s s' uid :
  uid ∈ X → bare s' = delete uid (bare s) → outside X s0 s → outside X s0 s'.
Proof. intros Hx Hb H u Hu. rewrite Hb, lookup_delete_ne by set_solver. by apply H. Qed.

Lemma outside_adjusted X s0 s s' uid :
  uid ∈ X → adjusted uid s s' → outside X s0 s → outside X s0 s'.
Proof. intros Hx [Hb|(r & _ & Hb)] H; [by eapply outside_same|by eapply outside_insert]. Qed.

Lemma assign_outside X s0 m minted i :
  i_uid i ∈ X → (i_new i = None → minted ∈ X) →
  triple (outside X s0) (assign_identity elsewhere m minted i)
    (λ i' s, outside X s0 s ∧ i_uid i' ∈ X) (λ _, outside X s0).
Proof.
  intros Hi Hm s s' x Hs Hx. pose proof Hx as Hx'.
  apply assign_identity_bare in Hx as (i' & -> & _ & _ & [[-> Hb]|(Hu' & Hn & _ & Hb)]).
  - split; [by eapply outside_same|done].
  - destruct (decide (i_new i = None)) as [Hnone|Hsome].
    + specialize (Hm Hnone). rewrite Hu'. split; [|done]. destruct (bare s !! i_uid i) as [r|]; [|by eapply outside_same].
      intros u Hu. rewrite Hb, lookup_insert_ne, lookup_delete_ne by set_solver. by apply Hs.
    + unfold assign_identity in Hx'. rewrite bool_decide_false in Hx' by done. cbn in Hx'.
      injection Hx' as <- <-. split; assumption.
Qed.

Lemma process_as_outside X s0 m at_ n held i :
  i_uid i ∈ X → (i_new i = None → minted_for_request n ∈ X) → minted_for_duplicate n ∈ X →
  triple (outside X s0)
    (process_as sha256 hex_encode codecs encode_offer elsewhere cfg m at_ n held i)
    (λ _, outside X s0) (λ _, outside X s0).
Proof.
  intros Hi H2 H3. unfold process_as.
  eapply triple_bind; [by apply assign_outside|]. intros i1. cbn beta.
  eapply (triple_bind _ _ (λ i s, outside X s0 s ∧ i_uid i ∈ X)).
  { intros s s' x [Hs Hi1] Hx. apply part_duplicate_spec in Hx as (-> & i' & -> & _ & _ & _ & [->|[-> _]]); done. }
  intros i2. clear i i1 Hi H2. rename i2 into i.
  eapply (triple_bind _ _ (λ st s, outside X s0 s ∧ i_uid i ∈ X)).
  { intros s s' x [Hs Hi] Hx. apply admit_record_spec in Hx as [_ Hx]. destruct x as [st|p].
    - split; [|done]. destruct Hx as [(_ & _ & -> & _)|[(_ & _ & r & Hb)|(_ & _ & _ & -> & _)]]; try done.
      by eapply outside_insert.
    - destruct Hx as [Hb _]. by eapply outside_same. }
  intros st. eapply (triple_bind _ _ (λ _ s, outside X s0 s ∧ i_uid i ∈ X)).
  { intros s s' x [Hs Hi] Hx. apply bind_report_spec in Hx. destruct x as [[]|p].
    - split; [|done]. eapply outside_same; [|done]. unfold bare. by rewrite Hx.
    - destruct Hx as [_ [Ha|[_ Hb]]]; [|by eapply outside_delete].
      eapply outside_same; [|done]. unfold bare. by rewrite Ha. }
  intros _. eapply (triple_bind _ _ (λ _ s, outside X s0 s ∧ i_uid i ∈ X)).
  { intros s s' x [Hs Hi] Hx. apply update_record_spec in Hx as (-> & _ & Hb). split; [|done].
    by eapply outside_insert. }
  intros flags. eapply (triple_bind _ _ (λ _ s, outside X s0 s ∧ i_uid i ∈ X)).
  { intros s s' x [Hs Hi] Hx. apply issue_certificate_bare in Hx.
    assert (outside X s0 s') by (destruct Hx as [Hb|[_ Hb]]; [by eapply outside_same|by eapply outside_delete]).
    by destruct x. }
  intros cert. eapply (triple_bind _ _ (λ _ s, outside X s0 s ∧ i_uid i ∈ X)).
  { intros s s' x [Hs Hi] Hx. apply close_and_demand_bare in Hx as [Ha _].
    assert (outside X s0 s') by by eapply outside_adjusted. by destruct x. }
  intros flags'. eapply (triple_bind _ _ (λ _ s, outside X s0 s ∧ i_uid i ∈ X)).
  { intros s s' x [Hs Hi] Hx. apply restart_bare in Hx.
    assert (outside X s0 s').
    { destruct Hx as [Ha|[_ [r Hb]]]; [by eapply outside_adjusted|].
      intros u Hu. rewrite Hb, lookup_delete_ne, lookup_insert_ne by set_solver. by apply Hs. }
    by destruct x. }
  intros _. eapply (triple_bind _ _ (λ _ s, outside X s0 s)).
  { intros s s' x [Hs Hi] Hx. apply persist_or_leave_bare in Hx.
    assert (outside X s0 s') by (destruct Hx as [[_ Hb]|[_ Hb]]; [by eapply outside_same|by eapply outside_delete]).
    by destruct x. }
  intros _ s s' x Hs [= <- <-]. done.
Qed.
(** The identities a report can be taken for. *)
Definition identities (n : Minted) : gset (list N) :=
  {[minted_for_claim n; minted_for_request n; minted_for_duplicate n]}.

Lemma hold_from_store_bare uid a a' held s :
  hold_from_store sha256 codecs uid a = (a', held) →
  ∀ u, u ≠ uid ∨ is_Some (fleet a !! u) → bare (on_app (λ _, a') s) !! u = unplaced <$> fleet a !! u.
Proof.
  unfold hold_from_store, bare. intros H u Hu. cbn. rewrite lookup_fmap. revert H.
  case_bool_decide as Hh; [rewrite orb_true_r; by intros [= <- <-]|]. rewrite orb_false_r.
  destruct (negb _); [by intros [= <- <-]|].
  destruct (agents_call _ a) as [a1 y] eqn:E. apply agents_call_fleet in E.
  destruct y as [[q|]|]; intros [= <- <-]; cbn; rewrite E; try done.
  destruct Hu as [Hu|Hu]; [by rewrite lookup_insert_ne|].
  destruct (decide (u = uid)) as [->|]; [done|by rewrite lookup_insert_ne].
Qed.

Lemma process_held_outside m at_ n uid held s s' x :
  process_held sha256 hex_encode codecs encode_offer elsewhere cfg m at_ n uid held s = (s', x) →
  ∀ u, u ∉ identities n → u ≠ uid → bare s' !! u = bare s !! u.
Proof.
  intros [(s1 & i & Hc & Hx)|(e & Hc & ->)]%eff_bind_inv u Hu Hne;
    apply claim_identity_spec in Hc as (Ha & _ & Hc); [|unfold bare; by rewrite Ha].
  destruct Hc as (_ & _ & Hi). assert (Hb : bare s1 = bare s) by (unfold bare; by rewrite Ha).
  assert (Ho : outside ({[uid]} ∪ identities n) s s1) by (eapply outside_same; [exact Hb|]; by intros ? ?).
  apply (process_as_outside ({[uid]} ∪ identities n) s) in Hx; [|unfold identities in *; set_solver..|exact Ho].
  destruct x; apply Hx; set_solver.
Qed.

(** Over the certificate of a Host that does not speak for the Agent, its record is left alone too. *)
Lemma process_held_refused m at_ n uid held s s' x host r e :
  a_presented at_ ≫= presented_host = Some host → ledger_of s = Some r →
  may_report hex_encode r host uid = Err e →
  process_held sha256 hex_encode codecs encode_offer elsewhere cfg m at_ n uid held s = (s', x) →
  ∀ u, u ∉ identities n → bare s' !! u = bare s !! u.
Proof.
  intros Hp Hl Hm [(s1 & i & Hc & Hx)|(e' & Hc & ->)]%eff_bind_inv u Hu; revert Hc;
    unfold claim_identity; rewrite Hp, Hl, Hm;
    destruct (may_report hex_encode r host (minted_for_claim n)) as [[]|]; intros [= <- <-]; [|done].
  set (s1 := audit_refused _ s) in *.
  assert (Ho : outside (identities n) s s1) by by intros ? ?.
  apply (process_as_outside (identities n) s) in Hx; [|unfold identities; cbn; set_solver..|exact Ho].
  destruct x; by apply Hx.
Qed.

(** What a report leaves of the records of the others. *)
Lemma process_presented_outside m at_ n s s' p :
  process_presented sha256 hex_encode codecs encode_offer elsewhere cfg m at_ n s = (s', p) →
  ∀ u, u ∉ identities n → u ≠ m_instance_uid m → bare s' !! u = bare s !! u.
Proof.
  unfold process_presented. destruct (from_wire (m_instance_uid m)) as [uid|] eqn:Hw; [|by intros [= <- <-]].
  apply from_wire_same in Hw as ->. destruct (hold_from_store _ _ _ _) as [a held] eqn:Hh.
  destruct (process_held _ _ _ _ _ _ _ _ _ _ _ _) as [s1 x] eqn:Hx. intros Hp u Hu Hne.
  assert (s1 = s') as -> by (destruct x; congruence).
  rewrite (process_held_outside _ _ _ _ _ _ _ _ Hx u Hu Hne).
  rewrite (hold_from_store_bare _ _ _ _ s Hh u) by by left. unfold bare. by rewrite lookup_fmap.
Qed.

(** *** How a report ends *)

(** Why a report is answered with an error after its record was updated. *)
Definition no_certificate (m : Report) (uid : Uid) (p : Processed) : Prop :=
  ∃ why, p = mkProcessed (bad_request why) (Some uid) false ∨
         p = mkProcessed (unavailable (m_instance_uid m) why) (Some uid) false.

(** What becomes of the record [r] of an updated Agent before the reply: the goodbye, the demand. *)
Definition closed (m : Report) (r : AgentRecord) : AgentRecord :=
  if m_disconnect m then with_connection false None r
  else match demands_components r with Some hash => with_demanded (Some hash) r | None => r end.

Definition closing_flags (m : Report) (r : AgentRecord) (flags : N) : N :=
  if m_disconnect m then flags
  else match demands_components r with Some _ => N.lor flags ReportAvailableComponents | None => flags end.

(** The end of a report whose record was updated to [r], among the records [b], with the flags of its
    reply so far. *)
Inductive told (m : Report) (i : Identity) (flags : N) (b : gmap (list N) AgentRecord) (r : AgentRecord)
    : Srv → Processed → Prop :=
| told_gone s' p :
    bare s' = delete (i_uid i) b →
    p = refused (mkReply (m_instance_uid m) None None None None 0 (server_capabilities cfg (app s')) None false) →
    told m i flags b r s' p
| told_no_certificate s' p : bare s' = b → no_certificate m (i_uid i) p → told m i flags b r s' p
| told_restart s' :
    may_restart m i (closing_flags m r flags) (closed m r) = true →
    bare s' = <[i_uid i := unplaced (with_restart false (closed m r))]> b →
    told m i flags b r s'
      (mkProcessed (restart_command (i_uid i) (server_capabilities cfg (app s'))) (Some (i_uid i)) false)
| told_offers s' cert r' :
    r' = closed m r ∨ r' = with_restart false (closed m r) →
    bare s' = <[i_uid i := unplaced r']> b →
    told m i flags b r s'
      (reply_to sha256 encode_offer cfg m i (closing_flags m r flags) cert s').

Lemma persist_or_leave_ends uid reported s s' x :
  persist_or_leave sha256 codecs elsewhere cfg uid reported s = (s', x) →
  (x = Ok tt ∧ bare s' = bare s ∧ fleet (app s') = fleet (app s)) ∨
  x = Err (refused (mkReply reported None None None None 0 (server_capabilities cfg (app s')) None false)) ∧
  bare s' = delete uid (bare s).
Proof.
  intros H. pose proof H as Hb. apply persist_or_leave_bare in Hb. revert H. unfold persist_or_leave.
  destruct (fleet (app s) !! uid) as [r|] eqn:Hr; [|intros [= <- <-]; by left].
  destruct (persist_if_dirty sha256 codecs uid r (app s)) as [a held] eqn:E.
  apply persist_if_dirty_fleet in E. destruct held.
  - intros [= <- <-]. destruct Hb as [[_ Hb]|[[p Hb] _]]; [|done]. by left.
  - unfold forgotten_elsewhere. intros [= <- <-]. destruct Hb as [[Hb _]|[_ Hb]]; [done|]. by right.
Qed.

(** The answer of a step, returned at its end or early. *)
Definition answered (x : result Processed Processed) : Processed := match x with Ok p | Err p => p end.

(** The last stages of [process_as]. *)
Definition finish (m : Report) (at_ : Arrival) (n : Minted) (i : Identity) (flags : N) : Eff Srv Processed Processed :=
  cert <-! issue_certificate sha256 hex_encode codecs elsewhere cfg m at_ i (minted_host n) ;;
  flags <-! close_and_demand m (i_uid i) flags ;;
  _ <-! restart_or_go_on sha256 codecs elsewhere cfg m i flags ;;
  _ <-! persist_or_leave sha256 codecs elsewhere cfg (i_uid i) (m_instance_uid m) ;;
  gets (reply_to sha256 encode_offer cfg m i flags cert).

Lemma issue_certificate_ends m at_ i minted s s' x :
  issue_certificate sha256 hex_encode codecs elsewhere cfg m at_ i minted s = (s', x) →
  match x with
  | Ok _ => app s' = app s
  | Err p => ∀ flags r, told m i flags (bare s) r s' p
  end.
Proof.
  unfold issue_certificate. destruct (m_csr m) as [csr|]; [|by intros [= <- <-]].
  destruct (sign_request _ _ _ _ _ _ _ _ s) as [s1 y] eqn:E. apply sign_request_app in E.
  assert (Hend : ∀ s2 p, bare s2 = bare s → no_certificate m (i_uid i) p →
    (_ <-! persist_or_leave sha256 codecs elsewhere cfg (i_uid i) (m_instance_uid m) ;; answer p) s2 = (s', x) →
    match x with Ok _ => app s' = app s | Err p => ∀ flags r, told m i flags (bare s) r s' p end).
  { intros s2 p Hs2 Hp [(s3 & [] & Hl & [= <- <-])|(e & Hl & ->)]%eff_bind_inv;
      apply persist_or_leave_ends in Hl as [(Hx & Hb & _)|[Hx Hb]]; simplify_eq; intros flags r.
    - apply told_no_certificate; [congruence|done].
    - apply told_gone; [congruence|done]. }
  assert (H1 : bare s1 = bare s) by (unfold bare; by rewrite E).
  destruct y as [[cert|why]|why]; [by intros [= <- <-]|apply Hend|apply Hend]; try done; eexists; eauto.
Qed.

Lemma close_and_demand_ends m uid flags s s' x r :
  fleet (app s) !! uid = Some r → close_and_demand m uid flags s = (s', x) →
  x = Ok (closing_flags m r flags) ∧ fleet (app s') !! uid = Some (closed m r) ∧
  bare s' = <[uid := unplaced (closed m r)]> (bare s).
Proof.
  intros Hr. unfold close_and_demand, closing_flags, closed. rewrite Hr.
  assert (Hsame : <[uid := unplaced r]> (bare s) = bare s).
  { apply insert_id. unfold bare. by rewrite lookup_fmap, Hr. }
  destruct (m_disconnect m); [|destruct (demands_components r)]; intros [= <- <-];
    rewrite ?bare_set_record, ?Hsame; cbn; rewrite ?lookup_insert_eq; done.
Qed.

Lemma restart_ends m i flags s s' x r :
  fleet (app s) !! i_uid i = Some r →
  restart_or_go_on sha256 codecs elsewhere cfg m i flags s = (s', x) →
  match x with
  | Ok _ => ∃ r', (r' = r ∨ r' = with_restart false r) ∧ bare s' = <[i_uid i := unplaced r']> (bare s)
  | Err p =>
      may_restart m i flags r = true ∧
      (p = mkProcessed (restart_command (i_uid i) (server_capabilities cfg (app s'))) (Some (i_uid i)) false ∧
       bare s' = <[i_uid i := unplaced (with_restart false r)]> (bare s) ∨
       p = refused (mkReply (m_instance_uid m) None None None None 0 (server_capabilities cfg (app s')) None false) ∧
       bare s' = delete (i_uid i) (bare s))
  end.
Proof.
  intros Hr. unfold restart_or_go_on. rewrite Hr.
  assert (Hsame : <[i_uid i := unplaced r]> (bare s) = bare s).
  { apply insert_id. unfold bare. by rewrite lookup_fmap, Hr. }
  destruct (may_restart m i flags r); [|intros [= <- <-]; exists r; by auto].
  destruct (take_restart _ _ _) as [[a r'] taken] eqn:E.
  assert (Hrt : fleet a = fleet (app s) ∧ (r' = with_restart false r ∨ r' = r ∧ taken = false)).
  { pose proof (take_restart_fleet _ _ _ _ _ _ E). revert E. unfold take_restart.
    destruct (agents_call _ _) as [a1 []]; intros [= <- <- <-]; auto. }
  destruct Hrt as [Hf Hrt].
  set (s1 := on_app _ s). assert (H1 : bare s1 = <[i_uid i := unplaced r']> (bare s)).
  { unfold bare. cbn. by rewrite fmap_insert, Hf. }
  destruct taken; [|intros [= <- <-]; exists r'; naive_solver].
  destruct Hrt as [->|[_ ?]]; [|done].
  intros [(s2 & [] & Hp & [= <- <-])|(e & Hp & ->)]%eff_bind_inv; (split; [done|]);
    apply persist_or_leave_ends in Hp as [(Hx & Hb & _)|[Hx Hb]]; simplify_eq; rewrite H1 in Hb.
  - by left.
  - right. by rewrite delete_insert_eq in Hb.
Qed.

Lemma finish_told m at_ n i flags s s' x r :
  fleet (app s) !! i_uid i = Some r → finish m at_ n i flags s = (s', x) →
  told m i flags (bare s) r s' (answered x).
Proof.
  intros Hr [(s1 & cert & Hi & Hx)|(e & Hi & ->)]%eff_bind_inv; apply issue_certificate_ends in Hi; [|by apply Hi].
  rewrite <- Hi in Hr. assert (Hb1 : bare s1 = bare s) by (unfold bare; by rewrite Hi). rewrite <- Hb1. clear Hi Hb1 s.
  apply eff_bind_inv in Hx as [(s2 & fl & Hc & Hx)|(e & Hc & ->)];
    apply (close_and_demand_ends _ _ _ _ _ _ r Hr) in Hc as (He & Hr2 & Hb2); simplify_eq.
  apply eff_bind_inv in Hx as [(s3 & [] & Hc & Hx)|(e & Hc & ->)]; apply (restart_ends _ _ _ _ _ _ _ Hr2) in Hc.
  - destruct Hc as (r' & Hr' & Hb3). rewrite Hb2, insert_insert_eq in Hb3.
    apply eff_bind_inv in Hx as [(s4 & [] & Hc & [= <- <-])|(e & Hc & ->)];
      apply persist_or_leave_ends in Hc as [(Hxx & Hb & _)|[Hxx Hb]]; simplify_eq; rewrite Hb3 in Hb.
    + eapply told_offers; [|exact Hb]. naive_solver.
    + apply told_gone; [|done]. by rewrite delete_insert_eq in Hb.
  - destruct Hc as [Hm [[-> Hb]|[-> Hb]]]; rewrite Hb2 in Hb.
    + apply told_restart; [done|]. by rewrite insert_insert_eq in Hb.
    + apply told_gone; [|done]. by rewrite delete_insert_eq in Hb.
Qed.

(** The identity is the reporter's own, or one it is told. *)
Definition settled (uid : Uid) (i : Identity) : Prop :=
  match i_new i with Some v => v = i_uid i | None => i_uid i = uid end.

(** The records once the identity is settled: as they were, or one moved to a minted identity. *)
Definition settling (n : Minted) (i0 i : Identity) (s s1 : Srv) : Prop :=
  bare s1 = bare s ∧ (i_new i = None → i = i0) ∨
  is_Some (i_new i) ∧ i_new i0 = None ∧ ∃ r, bare s !! i_uid i0 = Some r ∧
    bare s1 = <[minted_for_request n := r]> (delete (i_uid i0) (bare s)).

Lemma settle_identity m at_ n uid i0 i1 i s s1 s2 :
  settled uid i0 →
  assign_identity elsewhere m (minted_for_request n) i0 s = (s1, Ok i1) →
  part_duplicate (a_conn at_) (minted_for_duplicate n) i1 s1 = (s2, Ok i) →
  s2 = s1 ∧ settled uid i ∧ settling n i0 i s s1 ∧ i_uid i ∈ {[i_uid i0]} ∪ identities n.
Proof.
  intros H0 Ha Hd. apply part_duplicate_spec in Hd as (-> & i' & [= <-] & _ & _ & _ & Hd). split; [done|].
  assert (Hkept : i1 = i0 → bare s1 = bare s → settled uid i ∧ settling n i0 i s s1 ∧ i_uid i ∈ {[i_uid i0]} ∪ identities n).
  { intros -> Hb. unfold settled, settling, identities in *.
    destruct Hd as [->|[-> ->]]; (split; [done|]); (split; [by left|set_solver]). }
  destruct (decide (i_new i0 = None)) as [Hi0|Hi0].
  2: { revert Ha. unfold assign_identity. rewrite bool_decide_false by done. intros [= <- <-]. by apply Hkept. }
  apply assign_identity_bare in Ha as (i' & [= <-] & _ & _ & [[-> Hb]|(Hu & Hn & _ & Hb)]); [by apply Hkept|].
  clear Hkept. unfold settled, settling, identities.
  assert (Hn' : i_new i = Some (i_uid i) ∧ i_uid i ∈ ({[minted_for_request n; minted_for_duplicate n]} : gset (list N))).
  { destruct Hd as [->|[-> ->]]; [rewrite Hn, Hu|]; (split; [done|set_solver]). }
  destruct Hn' as [-> Hin]. split; [done|]. split; [|set_solver].
  destruct (bare s !! i_uid i0) as [r|]; [right; eauto 10|by left].
Qed.

(** The whole of a report: refused before its record is touched, or told what became of it. *)
Lemma process_as_ends m at_ n held uid i0 s s' x :
  settled uid i0 →
  process_as sha256 hex_encode codecs encode_offer elsewhere cfg m at_ n held i0 s = (s', x) →
  ∃ s1 i, settled uid i ∧ settling n i0 i s s1 ∧ i_uid i ∈ {[i_uid i0]} ∪ identities n ∧
  ((bare s' = bare s1 ∨ agents_is_shared = true) ∧
   (∃ why, answered x = refused (bad_request why) ∨ answered x = refused (unavailable (m_instance_uid m) why)) ∨
   ∃ st s2 over r, admit_record sha256 codecs cfg m (a_transport at_) (a_conn at_) (a_now at_) (i_uid i) held s1 = (s2, Ok st) ∧
     let r0 := found_record m at_ (i_uid i) s2 in
     unplaced r = unplaced (take_report (known st) m (a_transport at_) (a_conn at_) over (a_now at_) r0) ∧
     told m i (full_state_flag (known st) m r0) (<[i_uid i := unplaced r]> (bare s2)) r s' (answered x)).
Proof.
  intros H0 Hx. unfold process_as in Hx.
  apply eff_bind_inv in Hx as [(s1 & i1 & Ha & Hx)|(e & Ha & ->)];
    [|by apply assign_identity_bare in Ha as (? & ? & _)].
  apply eff_bind_inv in Hx as [(s1' & i & Hd & Hx)|(e & Hd & ->)];
    [|by apply part_duplicate_spec in Hd as (_ & ? & ? & _)].
  destruct (settle_identity _ _ _ _ _ _ _ _ _ _ H0 Ha Hd) as (-> & Hs & Hset & Hin). clear Ha Hd H0.
  exists s1, i. do 3 (split; [done|]).
  apply eff_bind_inv in Hx as [(s2 & st & Hadm & Hx)|(e & Hadm & ->)];
    pose proof Hadm as Hadm'; apply admit_record_spec in Hadm' as [_ Hadm'].
  2: { left. destruct Hadm' as [Hb [why ->]]. eauto. }
  apply eff_bind_inv in Hx as [(s3 & [] & Hb & Hx)|(e & Hb & ->)]; apply bind_report_spec in Hb.
  2: { left. destruct Hb as [[e' ->] Hb]. split; [|eauto].
       destruct Hadm' as [(_ & Hc & -> & _)|[(Hsh & _)|(_ & _ & Hc & -> & _)]]; [|by right|];
         (left; destruct Hb as [Hb|[Hb _]]; [unfold bare; by rewrite Hb|congruence]). }
  right. apply eff_bind_inv in Hx as [(s4 & flags & Hu & Hx)|(e & Hu & ->)];
    apply update_record_spec in Hu as (He & _ & Hb4); [|done]. injection He as ->.
  assert (Hf : found_record m at_ (i_uid i) s3 = found_record m at_ (i_uid i) s2) by (unfold found_record; by rewrite Hb).
  assert (Hb3 : bare s3 = bare s2) by (unfold bare; by rewrite Hb). rewrite Hf, Hb3 in Hb4. rewrite Hf in Hx.
  assert (is_Some (fleet (app s4) !! i_uid i)) as [r Hr].
  { assert (Hl : is_Some (bare s4 !! i_uid i)) by (rewrite Hb4, lookup_insert_eq; by eexists).
    unfold bare in Hl. rewrite lookup_fmap in Hl. by apply fmap_is_Some in Hl. }
  assert (Hur : unplaced r = unplaced (take_report (known st) m (a_transport at_) (a_conn at_) (arrived_over at_ s3)
                                   (a_now at_) (found_record m at_ (i_uid i) s2))).
  { assert (Hl : bare s4 !! i_uid i = Some (unplaced r)) by (unfold bare; by rewrite lookup_fmap, Hr).
    rewrite Hb4, lookup_insert_eq in Hl. congruence. }
  exists st, s2, (arrived_over at_ s3), r. split; [done|]. split; [done|].
  rewrite Hur, <- Hb4. by eapply finish_told.
Qed.

(** C4: a report changes its own Agent's record and nobody else's. The record of every other Agent is
    afterwards as it was, but for where it is placed and unless the identity is one the Server mints in
    this very reply; and so is the record of the Agent a report claims to be, when the report came over
    the certificate of a Host that is not marked as a Gateway and the Agent is bound to another Host in a
    ledger whose bindings are one-to-one with its Hosts ([bindings]). *)
Theorem reports_keep_to_their_own_agents m at_ n s s' p u r :
  process_presented sha256 hex_encode codecs encode_offer elsewhere cfg m at_ n s = (s', p) →
  u ∉ identities n → fleet (app s) !! u = Some r →
  u ≠ m_instance_uid m ∨
  (∃ host other reg, a_presented at_ ≫= presented_host = Some host ∧ ledger_of s = Some reg ∧
     bindings (trust reg) ∧ marked_in (trust reg) host = false ∧
     bound_host hex_encode reg u = Some other ∧ other ≠ host) →
  unplaced <$> fleet (app s') !! u = Some (unplaced r).
Proof.
  intros Hp Hu Hr Hcase.
  assert (Hb : bare s !! u = Some (unplaced r)) by (unfold bare; by rewrite lookup_fmap, Hr).
  rewrite <- lookup_fmap. change (bare s' !! u = Some (unplaced r)). rewrite <- Hb.
  destruct (decide (u = m_instance_uid m)) as [->|Hne]; [|by eapply process_presented_outside].
  destruct Hcase as [|(host & other & reg & Hh & Hl & HB & Hm & Ho & Hne)]; [done|].
  revert Hp. unfold process_presented.
  destruct (from_wire (m_instance_uid m)) as [uid|] eqn:Hw; [|by intros [= <- <-]].
  apply from_wire_same in Hw as ->. destruct (hold_from_store _ _ _ _) as [a held] eqn:Hs.
  destruct (process_held _ _ _ _ _ _ _ _ _ _ _ _) as [s1 x] eqn:Hx. intros Hp.
  assert (s1 = s') as -> by (destruct x; congruence).
  eapply process_held_refused in Hx; [|exact Hh|exact Hl|unfold may_report; by erewrite admits_another|exact Hu].
  rewrite Hx, (hold_from_store_bare _ _ _ _ s Hs _) by (right; by eexists). by rewrite Hr, Hb.
Qed.

Lemma process_presented_ends m at_ n s s' p :
  process_presented sha256 hex_encode codecs encode_offer elsewhere cfg m at_ n s = (s', p) →
  (∃ why, p = refused (bad_request why)) ∧ (agents_is_shared = false → bare s' = bare s) ∨
  ∃ held i0 s0 x, from_wire (m_instance_uid m) = Some (m_instance_uid m) ∧ settled (m_instance_uid m) i0 ∧
    i_uid i0 ∈ ({[m_instance_uid m]} ∪ identities n) ∧ (agents_is_shared = false → bare s0 = bare s) ∧
    process_as sha256 hex_encode codecs encode_offer elsewhere cfg m at_ n held i0 s0 = (s', x) ∧ p = answered x.
Proof.
  unfold process_presented. destruct (from_wire (m_instance_uid m)) as [uid|] eqn:Hw; [|intros [= <- <-]; by eauto].
  pose proof (from_wire_same _ _ Hw) as ->. destruct (hold_from_store _ _ _ _) as [a held] eqn:Hh.
  assert (Hns : agents_is_shared = false → a = app s).
  { intros E. revert Hh. unfold hold_from_store. rewrite E. by intros [= <- <-]. }
  destruct (process_held _ _ _ _ _ _ _ _ _ _ _ _) as [s1 x] eqn:Hx. intros Hp.
  assert (s1 = s' ∧ p = answered x) as [-> ->] by (destruct x; by simplify_eq). clear Hp.
  apply eff_bind_inv in Hx as [(s0 & i0 & Hc & Hx)|(e & Hc & ->)]; apply claim_identity_spec in Hc as (Ha & _ & Hc).
  - right. exists held, i0, s0, x. split; [done|]. destruct Hc as (_ & _ & Hc). split; [|split; [|split]]; [..|done].
    + unfold settled. destruct Hc as [[-> ->]|[-> ->]]; done.
    + unfold identities. destruct Hc as [[-> _]|[-> _]]; set_solver.
    + intros E. unfold bare. rewrite Ha. cbn. by rewrite Hns.
  - left. destruct Hc as [e' ->]. split; [by eexists|]. intros E. unfold bare. rewrite Ha. cbn. by rewrite Hns.
Qed.

(** On a store nobody shares the report is taken up as it came. *)
Lemma process_presented_exact m at_ n s s' p :
  agents_is_shared = false →
  process_presented sha256 hex_encode codecs encode_offer elsewhere cfg m at_ n s = (s', p) →
  (∃ why, p = refused (bad_request why)) ∧ app s' = app s ∨
  ∃ held i0 s0 x, settled (m_instance_uid m) i0 ∧ app s0 = app s ∧ ledger_of s0 = ledger_of s ∧
    process_as sha256 hex_encode codecs encode_offer elsewhere cfg m at_ n held i0 s0 = (s', x) ∧ p = answered x.
Proof.
  intros Hns. unfold process_presented.
  destruct (from_wire (m_instance_uid m)) as [uid|] eqn:Hw; [|intros [= <- <-]; by eauto].
  pose proof (from_wire_same _ _ Hw) as ->. unfold hold_from_store. rewrite Hns. cbn [negb orb].
  destruct (process_held _ _ _ _ _ _ _ _ _ _ _ _) as [s1 x] eqn:Hx. intros Hp.
  assert (s1 = s' ∧ p = answered x) as [-> ->] by (destruct x; by simplify_eq). clear Hp.
  apply eff_bind_inv in Hx as [(s0 & i0 & Hc & Hx)|(e & Hc & ->)]; apply claim_identity_spec in Hc as (Ha & Hl & Hc).
  - right. exists false, i0, s0, x. split; [|done]. destruct Hc as (_ & _ & Hc).
    unfold settled. destruct Hc as [[-> ->]|[-> ->]]; done.
  - left. destruct Hc as [e' ->]. by eauto.
Qed.

Lemma told_size m i flags b r s' p :
  told m i flags b r s' p → is_Some (b !! i_uid i) → (base.size (bare s') ≤ base.size b)%nat.
Proof.
  intros H [r0 Hr]. destruct H as [s' p Hb ?|s' p Hb ?|s' ? Hb|s' c r' ? Hb]; rewrite Hb;
    rewrite ?map_size_insert, ?map_size_delete, ?Hr; cbn; lia.
Qed.

(** The fleet stays under its ceiling. Whoever reports, under whatever identity, a Server alone
    with its store holds no more records after the report than [max_agents] or what it held before. *)
Theorem records_stay_under_the_ceiling m at_ n s s' p :
  agents_is_shared = false →
  process_presented sha256 hex_encode codecs encode_offer elsewhere cfg m at_ n s = (s', p) →
  (N.of_nat (base.size (fleet (app s'))) ≤ N.max (max_agents cfg) (N.of_nat (base.size (fleet (app s)))))%N.
Proof.
  intros Hns Hp. 
  assert (Hsz : ∀ s, base.size (fleet (app s)) = base.size (bare s)) by (intros; symmetry; apply map_size_fmap).
  rewrite !Hsz. clear Hsz.
  apply process_presented_ends in Hp as [[_ Hb]|(held & i0 & s0 & x & _ & Hs & _ & Hb & Hx & _)];
    [rewrite Hb by done; lia|].
  specialize (Hb Hns). eapply process_as_ends in Hx as (s1 & i & _ & Hset & _ & Hx); [|exact Hs].
  assert (Hs1 : (base.size (bare s1) ≤ base.size (bare s))%nat).
  { destruct Hset as [[-> _]|(_ & _ & r & Hr & ->)]; [by rewrite Hb|]. rewrite Hb in *.
    rewrite map_size_insert, map_size_delete, Hr. destruct (delete _ _ !! _); cbn; [lia|].
    assert (base.size (bare s) ≠ 0%nat); [|lia]. intros Hz%map_size_empty_inv. by rewrite Hz in Hr. }
  destruct Hx as [[[Hx|Hx] _]|(st & s2 & over & r & Hadm & _ & Ht)]; [rewrite Hx; lia|congruence|].
  apply told_size in Ht; [|rewrite lookup_insert_eq; by eexists]. rewrite map_size_insert in Ht.
  apply admit_record_spec in Hadm as [_ [(_ & _ & -> & [q Hq])|[(Hsh & _)|(_ & _ & _ & -> & Hq & Hlt)]]];
    [|congruence|]; rewrite Hq in Ht; cbn in Ht; lia.
Qed.

(** What a reply says of the identity it is for. *)
Definition addressed (m : Report) (p : Processed) : Prop :=
  match s_error (reply p) with
  | Some (BadRequest _) => True
  | _ => s_instance_uid (reply p) = m_instance_uid m
  end ∧
  (s_error (reply p) = None →
   match processed_uid p with
   | Some u => default (m_instance_uid m) (s_identification (reply p)) = u
   | None => s_identification (reply p) = None
   end).

Lemma told_addressed m i flags b r s' p :
  settled (m_instance_uid m) i → told m i flags b r s' p → addressed m p.
Proof.
  intros Hs [? ? _ ->|? ? _ [why [->| ->]]|? Hm _|]; split; try done; cbn.
  - unfold may_restart, settled in *. repeat (apply andb_true_iff in Hm as [Hm ?]).
    destruct (i_new i) eqn:E; [|done]. naive_solver.
  - unfold settled in Hs. unfold may_restart in Hm. repeat (apply andb_true_iff in Hm as [Hm ?]).
    destruct (i_new i) eqn:E; [|done]. naive_solver.
  - unfold settled in Hs. by destruct (i_new i).
Qed.

Lemma process_addressed m at_ n s s' p :
  process_presented sha256 hex_encode codecs encode_offer elsewhere cfg m at_ n s = (s', p) → addressed m p.
Proof.
  intros [[[why ->] _]|(held & i0 & s0 & x & _ & Hs & _ & _ & Hx & ->)]%process_presented_ends; [done|].
  eapply process_as_ends in Hx as (s1 & i & Hi & _ & _ & [[_ [why [->| ->]]]|(st & s2 & over & r & _ & _ & Ht)]); [done..| |done].
  by eapply told_addressed.
Qed.

(** A reply is for the Agent that reported. Whatever is answered, but for a bad request, is
    addressed to the identity of the report; and where it is no error, the identity the Server goes
    on with is the reported one, or the one the reply tells the Agent to adopt. *)
Theorem replies_name_the_reporter m at_ n s s' p :
  process_presented sha256 hex_encode codecs encode_offer elsewhere cfg m at_ n s = (s', p) → addressed m p.
Proof. apply process_addressed. Qed.

(** The report does not stand on what the Server holds of its Agent. *)
Definition state_lost (m : Report) (held : option AgentRecord) : bool :=
  match held with
  | Some r => negb (m_sequence_num m =? wrapping_succ (r_sequence_num r))%N
  | None => true
  end.

Lemma told_full_state m i known_ r0 b r s' p u :
  let lost := compressed m && (negb known_ || gap known_ m r0) in
  told m i (full_state_flag known_ m r0) b r s' p → s_error (reply p) = None → processed_uid p = Some u →
  N.testbit (s_flags (reply p)) 0 = lost.
Proof.
  intros lost Ht. unfold full_state_flag in Ht. fold lost in Ht.
  destruct Ht as [? ? _ ->|? ? _ [why [->| ->]]|? Hm _|]; try done; cbn; intros _ _.
  - unfold may_restart in Hm. repeat (apply andb_true_iff in Hm as [Hm ?]).
    assert (Hz : closing_flags m r (if lost then ReportFullState else 0%N) = 0%N) by (by apply N.eqb_eq).
    revert Hz. unfold closing_flags. destruct (m_disconnect m), (demands_components r), lost; done.
  - unfold closing_flags. destruct (m_disconnect m), (demands_components r), lost; done.
Qed.

Lemma told_identity m i flags b r s' p u :
  told m i flags b r s' p → s_error (reply p) = None → processed_uid p = Some u →
  s_identification (reply p) = i_new i.
Proof.
  intros [? ? _ ->|? ? _ [why [->| ->]]|? Hm _|]; try done; cbn; intros _ _.
  unfold may_restart in Hm. repeat (apply andb_true_iff in Hm as [Hm ?]). symmetry. by eapply bool_decide_eq_true.
Qed.

Lemma full_state_exact m at_ n s s' p u :
  agents_is_shared = false →
  process_presented sha256 hex_encode codecs encode_offer elsewhere cfg m at_ n s = (s', p) →
  s_error (reply p) = None → processed_uid p = Some u → s_identification (reply p) = None →
  N.testbit (s_flags (reply p)) 0 = compressed m && state_lost m (fleet (app s) !! m_instance_uid m).
Proof.
  intros Hns Hp He Hu Hid. pose proof Hp as Hadr. apply process_addressed in Hadr as [_ Hadr].
  specialize (Hadr He). rewrite Hu, Hid in Hadr. cbn in Hadr. subst u.
  apply process_presented_ends in Hp as [[[why ->] _]|(held & i0 & s0 & x & _ & Hs & _ & Hb & Hx & ->)]; [done|].
  specialize (Hb Hns). eapply process_as_ends in Hx as (s1 & i & Hi & Hset & _ & Hx); [|exact Hs].
  destruct Hx as [[_ [why [Hx|Hx]]]|(st & s2 & over & r & Hadm & _ & Ht)]; [rewrite Hx in He; done..|].
  rewrite (told_full_state _ _ _ _ _ _ _ _ _ Ht He Hu). f_equal.
  rewrite (told_identity _ _ _ _ _ _ _ _ Ht He Hu) in Hid. unfold settled in Hi. rewrite Hid in Hi.
  assert (Hb1 : bare s1 = bare s).
  { destruct Hset as [[-> _]|[[v Hv] _]]; [done|congruence]. }
  assert (Hl : unplaced <$> fleet (app s) !! m_instance_uid m = bare s1 !! m_instance_uid m).
  { rewrite Hb1. unfold bare. by rewrite lookup_fmap. }
  rewrite Hi in *. apply admit_record_spec in Hadm as [_ [(Hk & _ & -> & Hq)|[(Hsh & _)|(_ & Hk & _ & -> & Hq & _)]]];
    [|congruence|]; rewrite Hk; unfold gap, state_lost; cbn.
  - unfold found_record. unfold bare in Hl. rewrite lookup_fmap in Hl.
    unfold bare in Hq. rewrite lookup_fmap in Hq.
    destruct (fleet (app s1) !! _) as [r1|]; [|by destruct Hq].
    destruct (fleet (app s) !! _) as [r2|]; [|done]. cbn in Hl. injection Hl as Hl.
    assert (Hseq : r_sequence_num r2 = r_sequence_num r1) by congruence. cbn. by rewrite Hseq.
  - rewrite Hq in Hl. by destruct (fleet (app s) !! _).
Qed.

(** The full state is demanded exactly when it was lost. To an Agent that keeps its identity, a
    Server alone with its store answers with the demand for a full report if and only if the report
    omits the description and either no record of the Agent is held or the sequence number is not
    the successor, modulo 2^64, of the last one. *)
Theorem full_state_demanded_when_lost m at_ n s s' p u :
  agents_is_shared = false →
  process_presented sha256 hex_encode codecs encode_offer elsewhere cfg m at_ n s = (s', p) →
  s_error (reply p) = None → processed_uid p = Some u → s_identification (reply p) = None →
  N.testbit (s_flags (reply p)) 0 = compressed m && state_lost m (fleet (app s) !! m_instance_uid m).
Proof. apply full_state_exact. Qed.

(** *** A queued restart *)

Definition queued (b : gmap (list N) AgentRecord) (u : list N) : bool :=
  from_option r_restart_pending false (b !! u).

Lemma queued_bare s u : queued (bare s) u = queued (fleet (app s)) u.
Proof. unfold queued, bare. rewrite lookup_fmap. by destruct (fleet (app s) !! u). Qed.

Lemma queued_insert b u v r :
  queued (<[v := r]> b) u = true → (u = v ∧ r_restart_pending r = true) ∨ queued b u = true.
Proof.
  unfold queued. destruct (decide (v = u)) as [->|Hne]; [rewrite lookup_insert_eq; auto|].
  rewrite lookup_insert_ne by done. auto.
Qed.

Lemma queued_delete b u v : queued (delete v b) u = true → queued b u = true.
Proof.
  unfold queued. destruct (decide (v = u)) as [->|Hne]; [by rewrite lookup_delete_eq|].
  by rewrite lookup_delete_ne.
Qed.

Lemma closed_pending m r : r_restart_pending (closed m r) = r_restart_pending r.
Proof. unfold closed. by destruct (m_disconnect m), (demands_components r). Qed.

Lemma told_queue m i flags b r s' p u :
  told m i flags (<[i_uid i := unplaced r]> b) r s' p → queued (bare s') u = true →
  queued (<[i_uid i := unplaced r]> b) u = true.
Proof.
  intros Ht Hq.
  assert (Hr : r_restart_pending r = true → queued (<[i_uid i := unplaced r]> b) (i_uid i) = true).
  { unfold queued. by rewrite lookup_insert_eq. }
  destruct Ht as [s' p Hb ?|s' p Hb ?|s' ? Hb|s' c r' Hr' Hb]; rewrite Hb in Hq.
  - by apply queued_delete in Hq.
  - done.
  - by apply queued_insert in Hq as [[_ ?]|].
  - apply queued_insert in Hq as [[-> Hq]|]; [|done]. apply Hr.
    destruct Hr' as [->| ->]; [|done]. cbn in Hq. by rewrite closed_pending in Hq.
Qed.

(** A report queues no restart; one that is answered with the restart found it queued, and it is not
    any more. *)
Lemma process_queue m at_ n s s' p u :
  agents_is_shared = false → u ∉ identities n →
  process_presented sha256 hex_encode codecs encode_offer elsewhere cfg m at_ n s = (s', p) →
  (queued (fleet (app s')) u = true → queued (fleet (app s)) u = true) ∧
  (s_restart (reply p) = true → s_instance_uid (reply p) = u →
   reply p = restart_command u (server_capabilities cfg (app s')) ∧ queued (fleet (app s)) u = true ∧
   queued (fleet (app s')) u = false).
Proof.
  intros Hns Hu Hp. rewrite <- !queued_bare.
  apply process_presented_ends in Hp as [[[why ->] Hb]|(held & i0 & s0 & x & _ & Hs & _ & Hb & Hx & ->)];
    [by rewrite Hb|].
  specialize (Hb Hns). eapply process_as_ends in Hx as (s1 & i & Hi & Hset & _ & Hx); [|exact Hs].
  assert (H1 : queued (bare s1) u = true → queued (bare s) u = true).
  { destruct Hset as [[-> _]|(_ & _ & r & _ & ->)]; rewrite Hb; [done|].
    intros [[-> _]|Hq]%queued_insert; [unfold identities in Hu; set_solver|by apply queued_delete in Hq]. }
  destruct Hx as [[[Hx|Hx] [why Hw]]|(st & s2 & over & r & Hadm & Hr & Ht)]; [|congruence|].
  { rewrite Hx. split; [done|]. by destruct Hw as [->| ->]. }
  assert (s2 = s1) as ->.
  { apply admit_record_spec in Hadm as [_ [(_ & _ & ? & _)|[[? _]|(_ & _ & _ & ? & _)]]]; congruence. }
  assert (H2 : queued (<[i_uid i := unplaced r]> (bare s1)) u = true → queued (bare s1) u = true).
  { intros [[-> Hq]|]%queued_insert; [|done]. rewrite Hr in Hq. cbn in Hq. rewrite queued_bare.
    unfold queued. revert Hq. unfold found_record. by destruct (fleet (app s1) !! i_uid i). }
  split; [intros Hq; by eapply H1, H2, told_queue|]. intros Hre Hto.
  destruct Ht as [s' p Hb' Hp'|s' p Hb' [why [Hp'|Hp']]|s' Hm Hb'|s' c r' Hr' Hb'];
    [rewrite Hp' in Hre; done..| |done].
  cbn in Hto. rewrite Hto in *. split; [done|]. split; [|by rewrite Hb'; unfold queued; rewrite lookup_insert_eq].
  apply H1, H2. unfold queued. rewrite lookup_insert_eq. cbn.
  unfold may_restart in Hm. repeat (apply andb_true_iff in Hm as [Hm ?]). by rewrite closed_pending in Hm.
Qed.

(** Reports one after the other, with their replies. *)
Fixpoint serve (reports : list (Report * Arrival * Minted)) (s : Srv) : list Processed :=
  match reports with
  | [] => []
  | (m, at_, n) :: rest =>
      let (s, p) := process_presented sha256 hex_encode codecs encode_offer elsewhere cfg m at_ n s in
      p :: serve rest s
  end.

Lemma serve_unqueued reports s u :
  agents_is_shared = false → Forall (λ mn, u ∉ identities mn.2) reports → queued (fleet (app s)) u = false →
  Forall (λ p, s_instance_uid (reply p) = u → s_restart (reply p) = false) (serve reports s).
Proof.
  intros Hns Hf. revert s. induction Hf as [|[[m at_] n] rest Hu Hf IH]; intros s Hq; [constructor|].
  cbn [serve]. destruct (process_presented _ _ _ _ _ _ m at_ n s) as [s' p] eqn:E.
  apply (process_queue _ _ _ _ _ _ u Hns Hu) in E as [Hkeep Hre]. constructor.
  - intros Hto. apply not_true_is_false. intros Hr. destruct (Hre Hr Hto) as (_ & ? & _). congruence.
  - apply IH. apply not_true_is_false. intros Hq'. specialize (Hkeep Hq'). congruence.
Qed.

(** A queued restart goes out once, and alone. Where a Server alone with its store answers a
    report with the restart, the restart was queued for that Agent, the reply carries nothing but the
    identity, the capabilities and the command, and no reply to whatever the fleet reports after it
    restarts that Agent again, until one is queued. *)
Theorem restarts_go_out_once m at_ n reports s s' p :
  agents_is_shared = false → Forall (λ mn, m_instance_uid m ∉ identities mn.2) ((m, at_, n) :: reports) →
  process_presented sha256 hex_encode codecs encode_offer elsewhere cfg m at_ n s = (s', p) →
  s_restart (reply p) = true →
  reply p = restart_command (m_instance_uid m) (server_capabilities cfg (app s')) ∧
  queued (fleet (app s)) (m_instance_uid m) = true ∧
  Forall (λ p', s_instance_uid (reply p') = m_instance_uid m → s_restart (reply p') = false) (serve reports s').
Proof.
  intros Hns [Hu Hf]%Forall_cons Hp Hre.
  assert (Hto : s_instance_uid (reply p) = m_instance_uid m).
  { pose proof Hp as [Ha _]%process_addressed. destruct (s_error (reply p)) as [[]|] eqn:E; [clear Ha|done..].
    apply process_presented_ends in Hp as [[[? ->] Hb]|(held & i0 & s0 & x & _ & Hs & _ & Hb & Hx & ->)]; [done|].
    eapply process_as_ends in Hx as (s1 & i & Hi & Hset & _ & Hx); [|exact Hs].
    destruct Hx as [[_ [? [Hx|Hx]]]|(st & s2 & over & r & _ & _ & Ht)]; [rewrite Hx in Hre; done..|].
    destruct Ht as [? ? _ Hp'|? ? _ [? [Hp'|Hp']]| |]; try done; rewrite Hp' in Hre; done. }
  apply (process_queue _ _ _ _ _ _ _ Hns Hu) in Hp as [_ H]. destruct (H Hre Hto) as (? & ? & ?).
  do 2 (split; [done|]). by apply serve_unqueued.
Qed.

(** *** What a report leaves of the store *)

Definition stored_part (s : Srv) : ConfigStore B * gmap (list N) (list N) := (store (app s), written (app s)).

Lemma update_record_stored m at_ i st s s' x :
  agents_is_shared = false → update_record elsewhere m at_ i st s = (s', x) →
  stored_part s' = stored_part s ∧
  ∃ r over, fleet (app s') !! i_uid i = Some r ∧ over = arrived_over at_ s ∧
    unplaced r = unplaced (take_report (known st) m (a_transport at_) (a_conn at_) over (a_now at_)
                             (found_record m at_ (i_uid i) s)).
Proof.
  intros Hns Hu. pose proof Hu as Hb. apply update_record_spec in Hb as (_ & _ & Hb). split.
  - revert Hu. intros [= <- _].
    set (s1 := on_app (set_record (i_uid i) _) s).
    assert (Hw : ∀ a, write_connected (a_lease at_) (i_uid i) (a_now at_) a = a).
    { intros a. unfold write_connected. by rewrite Hns. }
    assert (H2 : ∀ b : bool, app (if b then on_app (write_connected (a_lease at_) (i_uid i) (a_now at_)) s1 else s1) = app s1).
    { intros []; [|done]. cbn. apply Hw. }
    match goal with |- context [foldl _ ?s2 ?l] => destruct (audit_refused_each l s2) as [H3 _] end.
    rewrite H2 in H3. set (s3 := foldl _ _ _) in *.
    assert (Hs3 : stored_part s3 = stored_part s) by (unfold stored_part; by rewrite H3).
    by destruct (_ || was_loaded st).
  - assert (Hl : is_Some (bare s' !! i_uid i)) by (rewrite Hb, lookup_insert_eq; by eexists).
    unfold bare in Hl. rewrite lookup_fmap in Hl. apply fmap_is_Some in Hl as [r Hr].
    exists r, (arrived_over at_ s). split; [done|]. split; [done|].
    assert (Hl : bare s' !! i_uid i = Some (unplaced r)) by (unfold bare; by rewrite lookup_fmap, Hr).
    rewrite Hb, lookup_insert_eq in Hl. congruence.
Qed.

(** A report that asks neither for an identity nor for a certificate reaches the restart and the
    write of its record with the store as it was. *)
Lemma quiet_until_written m at_ n held i0 s s' x :
  agents_is_shared = false → m_csr m = None → N.land (m_flags m) RequestInstanceUid = 0%N →
  process_as sha256 hex_encode codecs encode_offer elsewhere cfg m at_ n held i0 s = (s', x) →
  s_error (reply (answered x)) = None →
  ∃ s1 s5 i st r flags,
    stored_part s5 = stored_part s ∧ app s1 = app s ∧ (i = i0 ∨ is_Some (i_new i)) ∧
    known st = bool_decide (is_Some (fleet (app s) !! i_uid i)) ∧
    flags = full_state_flag (known st) m (found_record m at_ (i_uid i) s) ∧
    unplaced r = unplaced (take_report (known st) m (a_transport at_) (a_conn at_) (arrived_over at_ s1) (a_now at_)
                             (found_record m at_ (i_uid i) s)) ∧
    arrived_over at_ s1 = arrived_over at_ s ∧
    fleet (app s5) !! i_uid i = Some (closed m r) ∧
    (_ <-! restart_or_go_on sha256 codecs elsewhere cfg m i (closing_flags m r flags) ;;
     _ <-! persist_or_leave sha256 codecs elsewhere cfg (i_uid i) (m_instance_uid m) ;;
     gets (reply_to sha256 encode_offer cfg m i (closing_flags m r flags) None)) s5 = (s', x).
Proof.
  intros Hns Hcsr Hfl Hx He. unfold process_as in Hx.
  apply eff_bind_inv in Hx as [(s1 & i1 & Ha & Hx)|(e & Ha & ->)];
    [|by apply assign_identity_bare in Ha as (? & ? & _)].
  revert Ha. unfold assign_identity. rewrite Hfl, andb_false_r. intros [= <- <-].
  apply eff_bind_inv in Hx as [(s1 & i & Hd & Hx)|(e & Hd & ->)];
    apply part_duplicate_spec in Hd as (-> & i' & Hi & _ & _ & _ & Hd); [injection Hi as <-|done].
  apply eff_bind_inv in Hx as [(s2 & st & Hadm & Hx)|(e & Hadm & ->)].
  2: { apply admit_record_spec in Hadm as (_ & _ & why & ->). done. }
  assert (s2 = s ∧ known st = bool_decide (is_Some (fleet (app s) !! i_uid i))) as [-> Hk].
  { revert Hadm. unfold admit_record. case_bool_decide; [by intros [= <- <-]|]. rewrite Hns.
    destruct (_ <=? _)%N; [done|]. by intros [= <- <-]. }
  apply eff_bind_inv in Hx as [(s3 & [] & Hb & Hx)|(e & Hb & ->)];
    pose proof Hb as Hb'; apply bind_report_spec in Hb'; [|by destruct Hb' as [[? ->] _]].
  assert (Hov : arrived_over at_ s3 = arrived_over at_ s).
  { revert Hb. unfold bind_report, arrived_over. destruct (ledger_of s) as [reg|] eqn:El; [|intros [= <-]; by rewrite El].
    destruct (match i_binding i with Some _ => _ | None => _ end) as [r1 []]; by intros [= <-]. }
  apply eff_bind_inv in Hx as [(s4 & flags & Hu & Hx)|(e & Hu & ->)];
    pose proof Hu as Hu'; apply update_record_spec in Hu' as (Hfe & _); [injection Hfe as ->|done].
  apply (update_record_stored _ _ _ _ _ _ _ Hns) in Hu as (Hst & r & over & Hr & -> & Hur).
  apply eff_bind_inv in Hx as [(s4' & cert & Hi' & Hx)|(e & Hi' & ->)];
    revert Hi'; unfold issue_certificate; rewrite Hcsr; intros Hi'; [injection Hi' as <- <-|done].
  apply eff_bind_inv in Hx as [(s5 & fl & Hc & Hx)|(e & Hc & ->)]; pose proof Hc as Hc';
    apply (close_and_demand_ends _ _ _ _ _ _ r Hr) in Hc' as (Hfe & Hr5 & _); [injection Hfe as ->|done].
  assert (Hst5 : stored_part s5 = stored_part s4).
  { revert Hc. unfold close_and_demand. rewrite Hr. destruct (m_disconnect m); [by intros [= <-]|].
    destruct (demands_components r); by intros [= <-]. }
  assert (Hf3 : found_record m at_ (i_uid i) s3 = found_record m at_ (i_uid i) s) by (unfold found_record; by rewrite Hb').
  rewrite Hf3 in *. exists s3, s5, i, st, r, (full_state_flag (known st) m (found_record m at_ (i_uid i) s)).
  split; [|split; [done|split; [naive_solver|]]]; [|split; [exact Hk|split; [done|split; [exact Hur|split; [exact Hov|split; [exact Hr5|exact Hx]]]]]].
  rewrite Hst5, Hst. unfold stored_part. by rewrite Hb'.
Qed.

(** A report that says nothing but that its Agent is there. *)
Definition heartbeat (m : Report) (at_ : Arrival) (r : AgentRecord) : Prop :=
  m_description m = None ∧ m_health m = None ∧ m_effective_config m = None ∧ m_remote_config_status m = None ∧
  m_package_statuses m = None ∧ m_available_components m = None ∧ m_connection_settings_status m = None ∧
  (m_capabilities m = 0%N ∨ m_capabilities m = r_capabilities r) ∧ m_csr m = None ∧
  N.land (m_flags m) RequestInstanceUid = 0%N ∧ a_transport at_ = r_transport r.

Lemma persisted_unplaced r r' : unplaced r = unplaced r' → to_persisted r = to_persisted r'.
Proof. intros H. change (to_persisted (unplaced r) = to_persisted (unplaced r')). by rewrite H. Qed.

Lemma digest_closed m r :
  durable_digest sha256 codecs (to_persisted (closed m r)) = durable_digest sha256 codecs (to_persisted r).
Proof. unfold closed. by destruct (m_disconnect m), (demands_components r). Qed.

Lemma heartbeat_digest m at_ r k :
  heartbeat m at_ r →
  durable_digest sha256 codecs
    (to_persisted (take_report k m (a_transport at_) (a_conn at_) (r_host r) (a_now at_) r))
  = durable_digest sha256 codecs (to_persisted r).
Proof.
  intros (H1 & H2 & H3 & H4 & H5 & H6 & H7 & Hc & _ & _ & Ht). unfold durable_digest, durable_frame, take_report. cbn.
  rewrite H1, H2, H3, H4, H5, H6, H7, Ht. destruct Hc as [-> | ->]; [done|].
  by destruct (r_capabilities r =? 0)%N.
Qed.

(** The identity of a report that is answered and told no other. *)
Lemma kept_identity uid i0 i :
  settled uid i0 → i = i0 ∨ is_Some (i_new i) → i_new i = None → i_uid i = uid.
Proof. unfold settled. intros Hs [->|[v Hv]] Hn; [by rewrite Hn in Hs|congruence]. Qed.

(** A heartbeat writes nothing. Where the stored record of an Agent is the one held, a report that
    repeats it, over the Host and the transport of the last one and with no restart queued, is
    answered with the store, and what is known of it, untouched. *)
Theorem heartbeats_write_nothing m at_ n s s' p u r :
  agents_is_shared = false → fleet (app s) !! m_instance_uid m = Some r → heartbeat m at_ r →
  written (app s) !! m_instance_uid m = Some (durable_digest sha256 codecs (to_persisted r)) →
  r_restart_pending r = false → arrived_over at_ s = r_host r →
  process_presented sha256 hex_encode codecs encode_offer elsewhere cfg m at_ n s = (s', p) →
  s_error (reply p) = None → processed_uid p = Some u → s_identification (reply p) = None →
  stored_part s' = stored_part s.
Proof.
  intros Hns Hr Hhb Hw Hpend Hover Hp He Hu Hid.
  apply process_presented_exact in Hp as [[[why ->] _]|(held & i0 & s0 & x & Hs & Ha & Hl & Hx & ->)]; [done| |done].
  pose proof Hhb as (_ & _ & _ & _ & _ & _ & _ & _ & Hcsr & Hfl & _).
  apply quiet_until_written in Hx as (s1 & s5 & i & st & r' & flags & Hst & _ & Hi & Hk & _ & Hur & Hov & Hr5 & Hx); [|done..].
  assert (Hf : found_record m at_ (i_uid i) s0 = found_record m at_ (i_uid i) s) by (unfold found_record; by rewrite Ha).
  assert (Hq : i_new i = None → r_restart_pending (closed m r') = false ∧ unplaced r' = unplaced
    (take_report (known st) m (a_transport at_) (a_conn at_) (r_host r) (a_now at_) r)).
  { intros Hn. pose proof (kept_identity _ _ _ Hs Hi Hn) as Heq. rewrite Hf in Hur. unfold found_record in Hur.
    rewrite Heq, Hr in Hur. cbn in Hur.
    assert (Ho : arrived_over at_ s1 = r_host r) by (rewrite Hov, <- Hover; unfold arrived_over; by rewrite Hl).
    rewrite Ho in Hur. split; [|done]. rewrite closed_pending, <- Hpend. exact (f_equal r_restart_pending Hur). }
  assert (Hnr : may_restart m i (closing_flags m r' flags) (closed m r') = false).
  { unfold may_restart. destruct (decide (i_new i = None)) as [Hn|Hn]; [by destruct (Hq Hn) as [-> _]|].
    rewrite (bool_decide_false (i_new i = None)) by done. by rewrite andb_false_r. }
  unfold eff_bind, restart_or_go_on, persist_or_leave, gets in Hx. rewrite Hr5, Hnr, Hr5 in Hx.
  destruct (persist_if_dirty sha256 codecs (i_uid i) (closed m r') (app s5)) as [a []] eqn:Epd; injection Hx as <- <-; [|done].
  cbn in Hid. destruct (Hq Hid) as [_ Hur']. pose proof (kept_identity _ _ _ Hs Hi Hid) as Heq.
  revert Epd. unfold persist_if_dirty, persist. rewrite bool_decide_true.
  - intros [= <-]. change (stored_part s5 = stored_part s). rewrite Hst. unfold stored_part. by rewrite Ha.
  - assert (Hws : written (app s5) = written (app s)).
    { rewrite <- Ha. exact (f_equal snd Hst). }
    rewrite Hws, Heq, Hw, digest_closed, (persisted_unplaced _ _ Hur'), heartbeat_digest; done.
Qed.
End Replies.
