(* ===== verification/Acts.v ===== *)
(** * The acts on one Agent

    What an operator, a closing connection or a WebSocket loop does to one Agent, beside its own
    reports: [request_restart], [set_labels], [forget_agent], [restart_command_for],
    [mark_disconnected] and [take_forgotten] of [fleet-server/src/fleet.rs]. Each is one step under
    the fleet lock. A refusal is the data its message is formatted from. *)

From S2P Require Import Prelude RustStr Proto Packages Labels Deployments Configs Offers Agents Placement Revocation Trust Bindings Rollouts Reports Replies.

Open Scope string_scope.
Open Scope list_scope.

Inductive RestartError := RestartUnknownAgent | NoCapability | RestartStorage (why : ConfigError).

Inductive LabelError :=
| InvalidLabels (why : PairRefusal)
| LabelUnknownAgent
| RestatesReported (key : string)
| LabelStorage (why : ConfigError).

Inductive ForgetError := ForgetUnknownAgent | StillReporting | ForgetStorage (why : ConfigError).

Section Acts.
Context {B D L A : Type} `{!ConfigBackend B} `{!AgentStore B} `{!DeploymentBackend D}.
Context `{!LedgerStore L}.
Context (sha256 : list N → list N) (hex_encode : list N → string) (codecs : Codecs).
Context (elsewhere : gmap (list N) AgentRecord → Group → list (Uid * gmap string string)).
Context (cfg : ServerConfig).
Notation App := (AppState B D).
Notation Srv := (Server B D L A).

(** What is read of the Agent's record: of the store where it is shared, of what is held otherwise. *)
Definition read_agent {X} (of_stored : PersistedAgent → X) (of_held : AgentRecord → X) (uid : Uid) (s : App)
    : App * result (option X) ConfigError :=
  if (agents_is_shared : bool) then
    match agents_call (agents_get uid) s with
    | (s, Ok p) => (s, Ok (of_stored <$> p))
    | (s, Err e) => (s, Err e)
    end
  else (s, Ok (of_held <$> fleet s !! uid)).

(** [request_restart]. *)
Definition request_restart (uid : Uid) (s : App) : App * result unit RestartError :=
  match read_agent p_capabilities r_capabilities uid s with
  | (s, Err e) => (s, Err (RestartStorage e))
  | (s, Ok None) => (s, Err RestartUnknownAgent)
  | (s, Ok (Some caps)) =>
      if (N.land caps AcceptsRestartCommand =? 0)%N then (s, Err NoCapability)
      else
        match agents_call (agents_set_restart_pending uid true) s with
        | (s, Err e) => (s, Err (RestartStorage e))
        | (s, Ok None) => (s, Err RestartUnknownAgent)
        | (s, Ok (Some _)) =>
            let s := match fleet s !! uid with
                     | Some r => set_written (delete uid) (set_record uid (with_restart true r) s)
                     | None => s
                     end in
            (wake s, Ok tt)
        end
  end.

(** [set_labels] and its [take_labels]. *)
Definition take_own_labels (uid : Uid) (labels : gmap string string) (s : App) : App :=
  match fleet s !! uid with
  | None => s
  | Some _ => set_written (delete uid) (set_fleet (take_labels elsewhere uid labels (fleet s) (groups s)) s)
  end.

Definition set_labels (uid : Uid) (set : gmap string string) (s : App) : App * result unit LabelError :=
  match check_pairs set with
  | Err e => (s, Err (InvalidLabels e))
  | Ok _ =>
      match read_agent p_description r_description uid s with
      | (s, Err e) => (s, Err (LabelStorage e))
      | (s, Ok None) => (s, Err LabelUnknownAgent)
      | (s, Ok (Some description)) =>
          match List.find (λ k, bool_decide (k ∈ reported_keys description)) (btree_keys set) with
          | Some clash => (s, Err (RestatesReported clash))
          | None =>
              match agents_call (agents_set_labels uid set) s with
              | (s, Err e) => (s, Err (LabelStorage e))
              | (s, Ok false) => (s, Err LabelUnknownAgent)
              | (s, Ok true) => (take_own_labels uid set s, Ok tt)
              end
          end
      end
  end.

(** [forget_agent]: the first half, which takes the record out of the store; it answers the
    Configurations an Agent this Server does not hold was assigned. *)
Definition forget_stored (now : N) (uid : Uid) (s : App) : App * result (gset string) ForgetError :=
  let held := bool_decide (is_Some (fleet s !! uid)) in
  if (agents_is_shared : bool) then
    let (s, unheld) :=
      if held then (s, ∅)
      else match agents_call (agents_get uid) s with
           | (s, Ok stored) => (s, named_by (stored ≫= p_assignment))
           | (s, Err _) => (s, ∅)
           end in
    match agents_call (agents_remove_if_silent uid (saturating_sub now (stale_budget_ms cfg))) s with
    | (s, Err e) => (s, Err (ForgetStorage e))
    | (s, Ok (Some false)) => (s, Err StillReporting)
    | (s, Ok None) => if held then (set_written (delete uid) s, Ok unheld) else (s, Err ForgetUnknownAgent)
    | (s, Ok (Some true)) => (set_written (delete uid) s, Ok unheld)
    end
  else if held then (unpersist uid s, Ok ∅)
  else (s, Err ForgetUnknownAgent).

Definition still_reporting (now : N) (uid : Uid) (f : gmap (list N) AgentRecord) : bool :=
  match f !! uid with
  | Some r => r_connected r && negb (is_silent r (stale_budget_ms cfg) now)
  | None => false
  end.

Definition forget_agent (now : N) (uid : Uid) (s : Srv) : Srv * result unit ForgetError :=
  if still_reporting now uid (fleet (app s)) then (s, Err StillReporting)
  else
    match forget_stored now uid (app s) with
    | (a, Err e) => (on_app (λ _, a) s, Err e)
    | (a, Ok unheld) =>
        let removed := fleet a !! uid in
        let a := set_presence (presence_remove uid) (set_fleet (delete uid (fleet a)) a) in
        let reg := (λ r, (release_uid hex_encode uid r).1) <$> ledger_of s in
        let a :=
          match removed with
          | Some r =>
              let a := end_session uid r a in
              let a := set_placed (unplace elsewhere uid (group (r_placement r)) (fleet a) (groups a)) a in
              collect_revisions (dom (assigned_configurations r)) a
          | None => collect_revisions unheld a
          end in
        (mkServer (wake a) reg (audit s), Ok tt)
    end.

(** [restart_command_for]: what a WebSocket loop pushes, the restart taken once. *)
Definition restart_command_for (uid : Uid) (s : App) : App * option ServerToAgent :=
  match fleet s !! uid with
  | None => (s, None)
  | Some r =>
      if negb (r_restart_pending r) || negb (r_connected r) then (s, None)
      else
        let '(s, r, taken) := take_restart uid r s in
        let s := set_record uid r s in
        (s, if taken then Some (restart_command uid (server_capabilities cfg s)) else None)
  end.

(** [mark_disconnected]: the Agents a closing connection still owns. *)
Definition disconnect_one (conn : N) (f : gmap (list N) AgentRecord) (uid : Uid) : gmap (list N) AgentRecord :=
  match f !! uid with
  | Some r => if bool_decide (r_owner r = Some conn) then <[uid := with_connection false None r]> f else f
  | None => f
  end.

Definition set_forgotten (f : gmap N (list (list N)) → gmap N (list (list N))) (s : App) : App :=
  mkApp (fleet s) (groups s) (store s) (offering s) (written s) (presence s) (f (forgotten s)) (push s).

Definition mark_disconnected (uids : list Uid) (conn : N) (s : App) : App :=
  set_forgotten (delete conn) (set_fleet (foldl (disconnect_one conn) (fleet s) uids) s).

(** [take_forgotten]. *)
Definition take_forgotten (conn : N) (s : App) : App * list (list N) :=
  (set_forgotten (delete conn) s, default [] (forgotten s !! conn)).
End Acts.

(** ** What the acts do *)

(** The store gives back the restart it was told to keep. *)
Class KeepsRestarts (B : Type) `{!AgentStore B} : Prop :=
  keeps_restarts (uid : Uid) (b b1 b2 : B) w x :
    agents_set_restart_pending uid true b = (b1, Ok (Some w)) →
    agents_set_restart_pending uid false b1 = (b2, Ok x) → x = Some true.

Section Results.
Context {B D L A : Type} `{!ConfigBackend B} `{!AgentStore B} `{!DeploymentBackend D}.
Context `{!LedgerStore L} `{!Audit A}.
Context (sha256 : list N → list N) (hex_encode : list N → string) (codecs : Codecs).
Context (encode_offer : SettingsOffer → list N).
Context (elsewhere : gmap (list N) AgentRecord → Group → list (Uid * gmap string string)).
Context (cfg : ServerConfig).
Notation App := (AppState B D).
Notation Srv := (Server B D L A).
Implicit Types s : Srv.
Implicit Types a : App.

(** A queued restart, where one Server holds the fleet. *)
Lemma request_restart_ok uid a a' :
  agents_is_shared = false → request_restart uid a = (a', Ok tt) →
  ∃ r b w, fleet a !! uid = Some r ∧ has_capability r AcceptsRestartCommand = true ∧
    agents_set_restart_pending uid true (config_backend (store a)) = (b, Ok (Some w)) ∧
    config_backend (store a') = b ∧ fleet a' !! uid = Some (with_restart true r).
Proof.
  intros Hns. unfold request_restart, read_agent. rewrite Hns.
  destruct (fleet a !! uid) as [r|] eqn:Hr; [|done]. cbn.
  destruct (N.land (r_capabilities r) AcceptsRestartCommand =? 0)%N eqn:Hc; [done|].
  unfold agents_call. destruct (agents_set_restart_pending uid true _) as [b [[w|]|]] eqn:E; [|done..].
  cbn. rewrite Hr. intros [= <-]. exists r, b, w. split; [done|]. split; [unfold has_capability; by rewrite Hc|].
  split; [done|]. split; [done|]. cbn. by rewrite lookup_insert_eq.
Qed.

(** A queued restart reaches its Agent. Once a Server alone with its store has answered that the
    restart is queued, the next report of the Agent that is answered without an error, asks for no
    identity or certificate, says no goodbye and is owed no flag is answered with the restart; or the
    restart stays queued, as where the store cannot clear it. *)
Theorem queued_restarts_are_delivered `{!KeepsRestarts B} m at_ n s a s' p u :
  agents_is_shared = false → request_restart (m_instance_uid m) (app s) = (a, Ok tt) →
  process_presented sha256 hex_encode codecs encode_offer elsewhere cfg m at_ n (on_app (λ _, a) s) = (s', p) →
  s_error (reply p) = None → processed_uid p = Some u → s_identification (reply p) = None →
  s_flags (reply p) = 0%N → m_disconnect m = false → m_csr m = None →
  N.land (m_flags m) RequestInstanceUid = 0%N →
  (m_capabilities m = 0%N ∨ N.land (m_capabilities m) AcceptsRestartCommand ≠ 0%N) →
  reply p = restart_command (m_instance_uid m) (server_capabilities cfg (app s')) ∨
  queued (fleet (app s')) (m_instance_uid m) = true.
Proof.
  intros Hns Hreq Hp He Hu Hid Hfl0 Hd Hcsr Hfl Hcap.
  apply (request_restart_ok _ _ _ Hns) in Hreq as (r & b & w & Hr & Hc & Hset & Hb & Hr1).
  apply process_presented_exact in Hp as [[[why ->] _]|(held & i0 & s0 & x & Hs & Ha & Hl & Hx & ->)]; [done| |done].
  apply quiet_until_written in Hx as (s1 & s5 & i & st & r' & flags & Hst & _ & Hi & Hk & _ & Hur & _ & Hr5 & Hx); [|done..].
  assert (Hq : i_new i = None → i_uid i = m_instance_uid m ∧ r_restart_pending (closed m r') = true ∧
    has_capability (closed m r') AcceptsRestartCommand = true).
  { intros Hn. pose proof (kept_identity _ _ _ Hs Hi Hn) as Heq. split; [done|].
    unfold found_record in Hur. rewrite Ha, Heq in Hur. cbn in Hur. rewrite Hr1 in Hur. cbn in Hur.
    assert (Hcaps : r_capabilities (closed m r') = r_capabilities r').
    { unfold closed. by destruct (m_disconnect m), (demands_components r'). }
    rewrite closed_pending. unfold has_capability in *. rewrite Hcaps.
    split; [exact (f_equal r_restart_pending Hur)|].
    pose proof (f_equal r_capabilities Hur) as Hcr. cbn in Hcr. rewrite Hcr.
    destruct Hcap as [->|Hcap]; [done|].
    destruct (N.eqb_spec (m_capabilities m) 0) as [Hz|]; [by rewrite Hz in Hcap|].
    by rewrite (proj2 (N.eqb_neq _ _) Hcap). }
  assert (Hbk : config_backend (store (app s5)) = b).
  { rewrite <- Hb. change a with (app (on_app (λ _, a) s)). rewrite <- Ha.
    exact (f_equal (λ q, config_backend q.1) Hst). }
  unfold eff_bind at 1 in Hx. unfold restart_or_go_on in Hx. rewrite Hr5 in Hx.
  destruct (may_restart m i (closing_flags m r' flags) (closed m r')) eqn:Hm.
  - assert (Hn : i_new i = None).
    { unfold may_restart in Hm. repeat (apply andb_true_iff in Hm as [Hm ?]). by eapply bool_decide_eq_true. }
    destruct (Hq Hn) as (Heq & Hpend & _). unfold take_restart, agents_call in Hx. rewrite Hbk in Hx.
    rewrite Heq in Hx.
    destruct (agents_set_restart_pending (m_instance_uid m) false b) as [b2 [y|e]] eqn:Etake.
    + rewrite (keeps_restarts _ _ _ _ _ _ Hset Etake) in Hx. cbn in Hx. rewrite bool_decide_true in Hx by done.
      destruct (eff_bind _ _ _) as [s6 z] eqn:Ez.
      apply eff_bind_inv in Ez as [(s7 & [] & Hpl & [= <- <-])|(e & Hpl & ->)].
      * injection Hx as <- <-. by left.
      * apply persist_or_leave_ends in Hpl as [(? & _)|[Hz _]]; [done|]. injection Hz as ->.
        injection Hx as <- <-. done.
    + right. cbn in Hx. set (s6 := on_app _ s5) in Hx.
      apply eff_bind_inv in Hx as [(s7 & [] & Hpl & [= <- <-])|(e' & Hpl & ->)];
        apply persist_or_leave_ends in Hpl as [(Hz & _ & Hf)|[Hz _]]; try done.
      * rewrite Hf. unfold queued. cbn. by rewrite lookup_insert_eq.
      * injection Hz as ->. done.
  - apply eff_bind_inv in Hx as [(s7 & [] & Hpl & [= <- <-])|(e' & Hpl & ->)].
    + cbn in Hid, Hfl0. destruct (Hq Hid) as (_ & Hpend & Hcp). exfalso. revert Hm.
      unfold may_restart. by rewrite Hpend, Hd, Hcp, (bool_decide_true (i_new i = None)), Hfl0.
    + apply persist_or_leave_ends in Hpl as [(? & _)|[Hz _]]; [done|]. injection Hz as ->. done.
Qed.

Lemma forget_ok now uid s s' :
  agents_is_shared = false → forget_agent hex_encode elsewhere cfg now uid s = (s', Ok tt) →
  bare s' = delete uid (bare s) ∧ written (app s') !! uid = None.
Proof.
  intros Hns. unfold forget_agent, forget_stored. destruct (still_reporting _ _ _ _); [done|]. rewrite Hns.
  destruct (fleet (app s) !! uid) as [r|] eqn:Hr; [|done]. rewrite bool_decide_true by by eexists.
  assert (Hun : fleet (unpersist uid (app s)) = fleet (app s)).
  { unfold unpersist. destruct (agents_call _ _) as [a y] eqn:E. cbn. by eapply agents_call_fleet. }
  rewrite Hun, Hr. intros [= <-].
  set (a1 := set_presence _ _).
  assert (Hes : ∀ a, fleet (end_session uid r a) = fleet a ∧ groups (end_session uid r a) = groups a ∧
    written (end_session uid r a) = written a).
  { intros a. unfold end_session. by destruct (r_connected r), (r_owner r). }
  destruct (Hes a1) as (Hf & Hg & Hw). split.
  - unfold bare. cbn. rewrite Hf, Hg. rewrite unplace_unplaced. cbn. by rewrite fmap_delete.
  - cbn. rewrite Hw. cbn. by rewrite lookup_delete_eq.
Qed.

(** Forgetting drops one Agent, and only one that does not report. Where one Server holds the
    fleet: an Agent that is connected and was heard within the budget is refused and nothing
    changes; one that is not known is refused; otherwise its record is gone, the others are as they
    were but for where they are placed, and the Agent comes back as a stranger — a report of it that
    leaves its description out is answered with the demand for its full state. *)
Theorem forgetting_drops_the_agent now uid s s' x :
  agents_is_shared = false → forget_agent hex_encode elsewhere cfg now uid s = (s', x) →
  match x with
  | Err e => app s' = app s ∧ (e = StillReporting ∧ still_reporting cfg now uid (fleet (app s)) = true ∨
                               e = ForgetUnknownAgent ∧ fleet (app s) !! uid = None)
  | Ok _ =>
      still_reporting cfg now uid (fleet (app s)) = false ∧ is_Some (fleet (app s) !! uid) ∧
      fleet (app s') !! uid = None ∧
      (∀ v, v ≠ uid → unplaced <$> fleet (app s') !! v = unplaced <$> fleet (app s) !! v) ∧
      ∀ m at_ n s'' p u, m_instance_uid m = uid → compressed m = true →
        process_presented sha256 hex_encode codecs encode_offer elsewhere cfg m at_ n s' = (s'', p) →
        s_error (reply p) = None → processed_uid p = Some u → s_identification (reply p) = None →
        N.testbit (s_flags (reply p)) 0 = true
  end.
Proof.
  intros Hns Hx. destruct x as [[]|e].
  - pose proof Hx as [Hb _]%(forget_ok _ _ _ _ Hns).
    assert (Hl : ∀ v, unplaced <$> fleet (app s') !! v = delete uid (bare s) !! v).
    { intros v. rewrite <- Hb. unfold bare. by rewrite lookup_fmap. }
    assert (Hgone : fleet (app s') !! uid = None).
    { specialize (Hl uid). rewrite lookup_delete_eq in Hl. by destruct (fleet (app s') !! uid). }
    revert Hx. unfold forget_agent, forget_stored. destruct (still_reporting _ _ _ _); [done|]. rewrite Hns.
    destruct (fleet (app s) !! uid) as [r|] eqn:Hr; [|done]. intros _.
    split; [done|]. split; [by eexists|]. split; [done|]. split.
    + intros v Hv. rewrite Hl, lookup_delete_ne by done. unfold bare. by rewrite lookup_fmap.
    + intros m at_ n s'' p u Hm Hc Hp He Hu Hid.
      rewrite (full_state_exact _ _ _ _ _ _ _ _ _ _ _ _ _ Hns Hp He Hu Hid), Hc, Hm, Hgone. done.
  - revert Hx. unfold forget_agent. destruct (still_reporting _ _ _ _) eqn:Hst; [intros [= <- <-]; by auto|].
    unfold forget_stored. rewrite Hns. destruct (fleet (app s) !! uid) as [r|] eqn:Hr; [done|].
    intros [= <- <-]. auto.
Qed.
End Results.
