(* ===== verification/Exchanges.v ===== *)
(** * Exchanges with a concrete Server

    One Server with two Agents in memory and a ledger, the reports of the theorems of [Replies] and
    [Acts] applied to it, and the reply that keeps a new identity from its Agent. *)

From S2P Require Import Prelude RustStr Proto Packages Labels Deployments Configs Offers Agents Placement Revocation Trust Bindings Rollouts Reports Replies Acts.

Open Scope string_scope.
Open Scope list_scope.

#[export] Instance silent_audit : Audit unit := {|
  audit_record := λ _ a, (a, true);
  audit_refusal := λ _ a, a;
|}.

#[export] Instance memory_keeps_restarts : KeepsRestarts Memory.
Proof.
  intros uid b b1 b2 w x. cbn. intros [= <- Hw] [= <- <-]. cbn. rewrite lookup_alter_eq.
  by destruct (memory_agents b !! uid).
Qed.

Definition first_uid : list N := repeat 1%N 16.
Definition second_uid : list N := repeat 2%N 16.
Definition sample_minted : Minted := mkMinted (repeat 7%N 16) (repeat 8%N 16) (repeat 9%N 16) "minted".

(** Connected over the WebSocket [conn], accepting restarts. *)
Definition held_record (conn : N) (pending : bool) : AgentRecord :=
  mkRecord 5 1024 None None None None WebSocket true 100 pending None None None None (Some conn) true ∅ None
    placement_default None.

Notation MemoryServer := (Server Memory (gmap string Deployment) Ledger unit).

Definition first_hex (uid : list N) : string := match uid with 1%N :: _ => "one" | _ => "other" end.
Definition encode_nothing (_ : SettingsOffer) : list N := [].
Definition same_bytes (b : list N) : list N := b.
Definition sample_codecs_ : Codecs := sample_codecs (mkDescription [] []).
Definition sample_config : ServerConfig := mkServerConfig 3 None None (mkTelemetryOffer None None None) 90000.

Definition digest_of (r : AgentRecord) : list N := durable_digest same_bytes sample_codecs_ (to_persisted r).

Definition sample_app : AppState Memory (gmap string Deployment) :=
  let f := <[first_uid := held_record 1 false]> {[second_uid := held_record 2 true]} in
  mkApp f ∅ (mkConfigStore (mkMemory ∅ (to_persisted <$> f)) ∅) None (digest_of <$> f) (mkPresence None ∅ ∅) ∅ 0.

Definition sample_server : MemoryServer := mkServer sample_app None None.

Definition sample_report (uid : list N) (seq flags : N) (csr : option (list N)) : Report :=
  mkReport uid seq None 0 None None None None false flags csr None None.

Definition over_socket (conn : N) : Arrival := mkArrival WebSocket (Some conn) 200 None None.

Definition process_sample (m : Report) (at_ : Arrival) (s : MemoryServer) : MemoryServer * Processed :=
  process_presented same_bytes first_hex sample_codecs_ encode_nothing (λ _ _, []) sample_config m at_ sample_minted s.

(** ** An identity its Agent is not told *)

Section Hidden.
Context {B D L A : Type} `{!ConfigBackend B} `{!AgentStore B} `{!DeploymentBackend D}.
Context `{!LedgerStore L} `{!Audit A}.
Context (sha256 : list N → list N) (hex_encode : list N → string) (codecs : Codecs).
Context (encode_offer : SettingsOffer → list N).
Context (elsewhere : gmap (list N) AgentRecord → Group → list (Uid * gmap string string)).
Context (cfg : ServerConfig).
Notation Srv := (Server B D L A).
Implicit Types s : Srv.

Lemma is_duplicate_bare conn uid s : is_duplicate conn uid (fleet (app s)) = is_duplicate conn uid (bare s).
Proof. unfold is_duplicate, bare. rewrite lookup_fmap. by destruct conn, (fleet (app s) !! uid). Qed.

(** The record of an Agent that asks for an identity goes with it, where the store moves it too. *)
Lemma assign_identity_moves m minted i s s' x r :
  N.land (m_flags m) RequestInstanceUid ≠ 0%N → i_new i = None → fleet (app s) !! i_uid i = Some r →
  is_ok (agents_rekey (i_uid i) minted (to_persisted r) (config_backend (store (app s)))).2 = true →
  assign_identity elsewhere m minted i s = (s', x) →
  x = Ok (mkIdentity minted (i_sender i) (Some minted) (i_binding i) (Some (i_uid i, minted))) ∧
  bare s' = <[minted := unplaced r]> (delete (i_uid i) (bare s)).
Proof.
  intros Hf Hn Hr Hok. unfold assign_identity.
  rewrite bool_decide_true, (proj2 (N.eqb_neq _ _) Hf), Hr by done. cbn [andb negb].
  destruct (agents_call _ (app s)) as [a y] eqn:E.
  assert (y = Ok tt) as ->.
  { revert E Hok. unfold agents_call. destruct (agents_rekey _ _ _ _) as [b0 z]. intros [= <- <-]. by destruct z as [[]|]. }
  apply agents_call_fleet in E. intros [= <- <-]. split; [done|]. unfold bare. cbn.
  rewrite (move_record_bare _ _ _ _ r) by (by rewrite E). by rewrite E.
Qed.

(** A report that is answered with a refused certificate has its record updated under the identity
    that was settled, and its answer names none. *)
Lemma refused_certificate_is_told m at_ n held i0 s s' x why r :
  N.land (m_flags m) RequestInstanceUid ≠ 0%N → i_new i0 = None → fleet (app s) !! i_uid i0 = Some r →
  is_ok (agents_rekey (i_uid i0) (minted_for_request n) (to_persisted r) (config_backend (store (app s)))).2 = true →
  is_duplicate (a_conn at_) (i_uid i0) (fleet (app s)) = false →
  process_as sha256 hex_encode codecs encode_offer elsewhere cfg m at_ n held i0 s = (s', x) →
  s_error (reply (answered x)) = Some (BadRequest (CsrRefused why)) →
  s_identification (reply (answered x)) = None ∧ s_instance_uid (reply (answered x)) = [] ∧
  ∃ over, bare s' = <[minted_for_request n :=
    unplaced (take_report true m (a_transport at_) (a_conn at_) over (a_now at_) (unplaced r))]> (delete (i_uid i0) (bare s)).
Proof.
  intros Hf Hn Hr Hok Hdup Hx He. unfold process_as in Hx.
  apply eff_bind_inv in Hx as [(s1 & i1 & Ha & Hx)|(e & Ha & ->)];
    apply (assign_identity_moves _ _ _ _ _ _ r) in Ha as [Hi Hb1]; try done. injection Hi as ->.
  set (i := mkIdentity _ _ _ _ _) in Hx.
  apply eff_bind_inv in Hx as [(s1' & i' & Hd & Hx)|(e & Hd & ->)];
    revert Hd; unfold part_duplicate; rewrite is_duplicate_bare, Hb1; unfold is_duplicate; cbn [i i_uid];
    rewrite lookup_insert_eq; unfold is_duplicate in Hdup; rewrite Hr in Hdup; cbn [unplaced with_placement r_connected r_owner];
    rewrite Hdup; [intros [= <- <-]|done].
  assert (Hl1 : bare s1 !! minted_for_request n = Some (unplaced r)) by (by rewrite Hb1, lookup_insert_eq).
  apply eff_bind_inv in Hx as [(s2 & st & Hadm & Hx)|(e & Hadm & ->)]; apply admit_record_spec in Hadm as [_ Hadm].
  2: { by destruct Hadm as (_ & why' & ->). }
  cbn [i i_uid] in Hadm. rewrite Hl1 in Hadm.
  destruct Hadm as [(Hk & _ & -> & _)|[(_ & ? & _)|Hadm]]; [|done|naive_solver].
  apply eff_bind_inv in Hx as [(s3 & [] & Hb & Hx)|(e & Hb & ->)]; apply bind_report_spec in Hb.
  2: { by destruct Hb as [[e' ->] _]. }
  assert (Hb3 : bare s3 = bare s1) by (unfold bare; by rewrite Hb).
  apply eff_bind_inv in Hx as [(s4 & flags & Hu & Hx)|(e & Hu & ->)];
    apply update_record_spec in Hu as (Hfl & _ & Hb4); [injection Hfl as ->|done]. cbn [i i_uid] in *.
  assert (Hfound : unplaced (found_record m at_ (minted_for_request n) s3) = unplaced r).
  { rewrite <- Hb3 in Hl1. unfold bare in Hl1. rewrite lookup_fmap in Hl1. unfold found_record.
    destruct (fleet (app s3) !! minted_for_request n) as [r3|]; [|done]. cbn in Hl1 |- *. congruence. }
  assert (is_Some (fleet (app s4) !! minted_for_request n)) as [r4 Hr4].
  { assert (Hl : is_Some (bare s4 !! minted_for_request n)) by (rewrite Hb4, lookup_insert_eq; by eexists).
    unfold bare in Hl. rewrite lookup_fmap in Hl. by apply fmap_is_Some in Hl. }
  assert (bare s' = bare s4 ∧ no_certificate m (minted_for_request n) (answered x)) as [Hb' [why' Hno]].
  { eapply finish_told in Hx; [|exact Hr4]. by destruct Hx as [? ? ? Hp|? ? ? ?|? ? ?|? ? ? ? ?]; [rewrite Hp in He|..]. }
  destruct Hno as [Hno|Hno]; rewrite Hno in He |- *; [|done]. split; [done|]. split; [done|].
  exists (arrived_over at_ s3). rewrite Hb', Hb4, Hb3, Hb1, insert_insert_eq, Hk. f_equal.
  rewrite <- Hfound. done.
Qed.

(** C34: an Agent that asks for an identity and for a certificate in one message may get the first and
    not hear of it: of an Agent whose record is held, speaking under its own identity and on no second
    connection, with a store that moves the record, any report that asks for an identity and is
    answered that its certificate is refused moves the record to the identity the Server mints, updated
    with what was reported, and the answer names no identity; so the Agent goes on under the old one,
    of which the Server holds no record. *)
Theorem refused_certificate_hides_the_new_identity m at_ n s s' p why r :
  let uid := m_instance_uid m in
  let minted := minted_for_request n in
  process_presented sha256 hex_encode codecs encode_offer elsewhere cfg m at_ n s = (s', p) →
  s_error (reply p) = Some (BadRequest (CsrRefused why)) →
  N.land (m_flags m) RequestInstanceUid ≠ 0%N → minted ≠ uid → fleet (app s) !! uid = Some r →
  (∀ host reg, a_presented at_ ≫= presented_host = Some host → ledger_of s = Some reg →
     may_report hex_encode reg host uid = Ok tt) →
  is_duplicate (a_conn at_) uid (fleet (app s)) = false →
  is_ok (agents_rekey uid minted (to_persisted r) (config_backend (store (app s)))).2 = true →
  s_identification (reply p) = None ∧ s_instance_uid (reply p) = [] ∧
  fleet (app s') !! uid = None ∧
  ∃ r', fleet (app s') !! minted = Some r' ∧ r_sequence_num r' = m_sequence_num m ∧ r_assignment r' = r_assignment r.
Proof.
  intros uid minted Hp He Hf Hne Hr Hmay Hdup Hok. revert Hp. unfold process_presented.
  destruct (from_wire (m_instance_uid m)) as [u|] eqn:Hw; [|intros [= <- <-]; done].
  apply from_wire_same in Hw as ->. unfold hold_from_store. fold uid.
  rewrite (bool_decide_true (is_Some (fleet (app s) !! uid))), orb_true_r by (by eexists).
  destruct (process_held _ _ _ _ _ _ _ _ _ _ _ _) as [s1 x] eqn:Hx. intros Hp.
  assert (s1 = s' ∧ p = answered x) as [-> ->] by (destruct x; by simplify_eq). clear Hp.
  apply eff_bind_inv in Hx as [(s0 & i0 & Hc & Hx)|(e & Hc & ->)].
  2: { apply claim_identity_spec in Hc as (_ & _ & e' & ->). done. }
  assert (app s0 = app s ∧ i_uid i0 = uid ∧ i_new i0 = None) as (Ha & Hu & Hn).
  { revert Hc. unfold claim_identity. cbn [on_app ledger_of].
    destruct (a_presented at_ ≫= presented_host) as [host|]; [|by intros [= <- <-]].
    destruct (ledger_of s) as [reg|]; [|by intros [= <- <-]]. rewrite (Hmay host reg eq_refl eq_refl). by intros [= <- <-]. }
  eapply refused_certificate_is_told in Hx as (Hid & Huid & over & Hb);
    [|done|done|rewrite Ha, Hu; exact Hr|by rewrite Ha, Hu|by rewrite Ha, Hu|exact He].
  split; [done|]. split; [done|].
  assert (Hlook : ∀ v, unplaced <$> fleet (app s') !! v = bare s' !! v) by (intros; unfold bare; by rewrite lookup_fmap).
  rewrite Hu in Hb. split.
  - specialize (Hlook uid). rewrite Hb, lookup_insert_ne, lookup_delete_eq in Hlook by done.
    by destruct (fleet (app s') !! uid).
  - specialize (Hlook minted). rewrite Hb, lookup_insert_eq in Hlook.
    destruct (fleet (app s') !! minted) as [r'|]; [|done]. apply (inj Some) in Hlook as Hl. exists r'. split; [done|].
    change (r_sequence_num r') with (r_sequence_num (unplaced r')).
    change (r_assignment r') with (r_assignment (unplaced r')). by rewrite Hl.
Qed.
End Hidden.

Lemma refused_certificate_hides_the_new_identity_witness :
  let out := process_sample (sample_report first_uid 6 RequestInstanceUid (Some [0%N])) (over_socket 1) sample_server in
  s_error (reply out.2) = Some (BadRequest (CsrRefused "this Server issues no client certificates")) ∧
  s_identification (reply out.2) = None ∧ fleet (app out.1) !! first_uid = None ∧
  r_sequence_num <$> fleet (app out.1) !! minted_for_request sample_minted = Some 6%N.
Proof.
  intros out. assert (He : s_error (reply out.2) = Some (BadRequest (CsrRefused "this Server issues no client certificates")))
    by (vm_compute; reflexivity).
  destruct (refused_certificate_hides_the_new_identity same_bytes first_hex sample_codecs_ encode_nothing (λ _ _, [])
    sample_config (sample_report first_uid 6 RequestInstanceUid (Some [0%N])) (over_socket 1) sample_minted sample_server
    out.1 out.2 "this Server issues no client certificates" (held_record 1 false)) as (H1 & _ & H2 & r' & H3 & H4 & _);
    [apply surjective_pairing|exact He|discriminate|discriminate|reflexivity|intros host reg; discriminate|reflexivity|reflexivity|].
  split_and!; [exact He|exact H1|exact H2|]. rewrite H3. cbn. by rewrite H4.
Defined.

(** ** The theorems on these exchanges *)

(** With [web]'s ledger: the first Agent bound to it, reported over the certificate of [db]. *)
Definition bound_register : Revocations Ledger :=
  (check_report first_hex "web" subject_default 90 first_uid opened).1.

Definition over_certificate (host : string) : Arrival :=
  mkArrival Http None 200 None
    (Some (mkPresented (mkCertId "ca-new" "b1") (Some host) subject_default 90)).

Lemma bound_register_bindings : bindings (trust bound_register).
Proof.
  assert (H0 : bindings (trust opened)).
  { assert (He : hosts (trust opened) = ∅ ∧ owners (trust opened) = ∅) by (vm_compute; split; reflexivity).
    destruct He as [Hh Ho]. unfold bindings. rewrite Hh, Ho. split.
    - intros u h. rewrite lookup_empty. split; [done|]. intros (e & He & _). by rewrite lookup_empty in He.
    - intros h e He. by rewrite lookup_empty in He. }
  eapply (bindings_act first_hex sample_sha); [apply act_report|exact H0].
Qed.

Lemma reports_keep_to_their_own_agents_witness :
  let s : MemoryServer := mkServer sample_app (Some bound_register) None in
  let after := process_sample (sample_report first_uid 6 0 None) (over_certificate "db") s in
  unplaced <$> fleet (app after.1) !! first_uid = Some (unplaced (held_record 1 false)) ∧
  s_identification (reply after.2) = Some (minted_for_claim sample_minted).
Proof.
  intros s after. split; [|vm_compute; reflexivity].
  eapply (reports_keep_to_their_own_agents same_bytes first_hex sample_codecs_ encode_nothing (λ _ _, []) sample_config
    (sample_report first_uid 6 0 None) (over_certificate "db") sample_minted s after.1 after.2 first_uid).
  - subst after. unfold process_sample. by destruct (process_presented _ _ _ _ _ _ _ _ _ s).
  - apply (bool_decide_unpack _). vm_compute. exact I.
  - reflexivity.
  - right. exists "db", "web", bound_register. split; [reflexivity|]. split; [reflexivity|].
    split; [apply bound_register_bindings|]. split; [vm_compute; reflexivity|]. split; [vm_compute; reflexivity|done].
Defined.

Lemma records_stay_under_the_ceiling_witness :
  let after := process_sample (sample_report (repeat 3%N 16) 0 0 None) (over_socket 3) sample_server in
  (N.of_nat (base.size (fleet (app after.1))) ≤ 3)%N ∧ base.size (fleet (app after.1)) = 3%nat.
Proof.
  intros after. split; [|vm_compute; reflexivity].
  eapply (records_stay_under_the_ceiling same_bytes first_hex sample_codecs_ encode_nothing (λ _ _, []) sample_config
    (sample_report (repeat 3%N 16) 0 0 None) (over_socket 3) sample_minted sample_server after.1 after.2).
  - reflexivity.
  - subst after. unfold process_sample. by destruct (process_presented _ _ _ _ _ _ _ _ _ sample_server).
Defined.

Lemma replies_name_the_reporter_witness :
  let after := process_sample (sample_report first_uid 6 0 None) (over_socket 3) sample_server in
  addressed (sample_report first_uid 6 0 None) after.2 ∧
  processed_uid after.2 = Some (minted_for_duplicate sample_minted).
Proof.
  intros after. split; [|vm_compute; reflexivity].
  apply (replies_name_the_reporter same_bytes first_hex sample_codecs_ encode_nothing (λ _ _, []) sample_config
    (sample_report first_uid 6 0 None) (over_socket 3) sample_minted sample_server after.1 after.2).
  subst after. unfold process_sample. by destruct (process_presented _ _ _ _ _ _ _ _ _ sample_server).
Defined.

Lemma full_state_demanded_when_lost_witness :
  let after := process_sample (sample_report first_uid 8 0 None) (over_socket 1) sample_server in
  N.testbit (s_flags (reply after.2)) 0 = true.
Proof.
  intros after.
  rewrite (full_state_demanded_when_lost same_bytes first_hex sample_codecs_ encode_nothing (λ _ _, []) sample_config
    (sample_report first_uid 8 0 None) (over_socket 1) sample_minted sample_server after.1 after.2 first_uid);
    [reflexivity|reflexivity| |vm_compute; reflexivity..].
  subst after. unfold process_sample. by destruct (process_presented _ _ _ _ _ _ _ _ _ sample_server).
Defined.

Lemma restarts_go_out_once_witness :
  let m := sample_report second_uid 6 0 None in
  let after := process_sample m (over_socket 2) sample_server in
  reply after.2 = restart_command second_uid (server_capabilities sample_config (app after.1)) ∧
  queued (fleet (app sample_server)) second_uid = true.
Proof.
  intros m after.
  destruct (restarts_go_out_once same_bytes first_hex sample_codecs_ encode_nothing (λ _ _, []) sample_config
    m (over_socket 2) sample_minted [(sample_report second_uid 7 0 None, over_socket 2, sample_minted)]
    sample_server after.1 after.2) as (H1 & H2 & _).
  - reflexivity.
  - apply (bool_decide_unpack _). vm_compute. exact I.
  - subst after. unfold process_sample. by destruct (process_presented _ _ _ _ _ _ _ _ _ sample_server).
  - vm_compute. reflexivity.
  - split; [exact H1|exact H2].
Defined.

Lemma heartbeats_write_nothing_witness :
  let after := process_sample (sample_report first_uid 6 0 None) (over_socket 1) sample_server in
  stored_part after.1 = stored_part sample_server.
Proof.
  intros after.
  apply (heartbeats_write_nothing same_bytes first_hex sample_codecs_ encode_nothing (λ _ _, []) sample_config
    (sample_report first_uid 6 0 None) (over_socket 1) sample_minted sample_server after.1 after.2 first_uid
    (held_record 1 false)); try reflexivity.
  - split_and!; try reflexivity. by left.
Defined.

Lemma queued_restarts_are_delivered_witness :
  let m := sample_report first_uid 6 0 None in
  let a := (request_restart first_uid (app sample_server)).1 in
  let after := process_sample m (over_socket 1) (on_app (λ _, a) sample_server) in
  reply after.2 = restart_command first_uid (server_capabilities sample_config (app after.1)) ∨
  queued (fleet (app after.1)) first_uid = true.
Proof.
  intros m a after.
  apply (queued_restarts_are_delivered same_bytes first_hex sample_codecs_ encode_nothing (λ _ _, []) sample_config
    m (over_socket 1) sample_minted sample_server a after.1 after.2 first_uid);
    [reflexivity|vm_compute; reflexivity| |vm_compute; reflexivity..|by left].
  subst after. unfold process_sample. by destruct (process_presented _ _ _ _ _ _ _ _ _ _).
Defined.

Lemma forgetting_drops_the_agent_witness :
  let forgot := forget_agent first_hex (λ _ _, []) sample_config 100000 first_uid sample_server in
  fleet (app forgot.1) !! first_uid = None ∧ forgot.2 = Ok tt.
Proof.
  intros forgot. assert (Hok : forgot.2 = Ok tt) by (vm_compute; reflexivity). split; [|exact Hok].
  pose proof (forgetting_drops_the_agent same_bytes first_hex sample_codecs_ encode_nothing (λ _ _, []) sample_config
    100000 first_uid sample_server forgot.1 forgot.2 eq_refl) as H.
  assert (He : forget_agent first_hex (λ _ _, []) sample_config 100000 first_uid sample_server = (forgot.1, forgot.2))
    by (subst forgot; by destruct (forget_agent _ _ _ _ _ sample_server)).
  specialize (H He). rewrite Hok in H. apply H.
Defined.
