(* ===== verification/Enrolment.v ===== *)
(** * Enrolment: the window and its queue

    [fleet-server/src/enrolment.rs] and [fleet-server/src/fs/enrolment.rs]: the window an operator
    holds open, the requests that wait in it, and what an operator decides. The port
    [EnrolmentStore] is a class with every act of the trait; the bodies the trait gives them are
    [default_take] to [default_end_window], over [load] and [save]. What an act does to the stored
    document is a function on [Persisted], [Queue]; a store that is its only writer
    ([SoleWriterQueue]) does that, or fails having done it or nothing. The clock is read where the
    code reads it: each read is an argument. *)

From S2P Require Import Prelude RustStr Rate Proto Placement Revocation Reports Fs.

Open Scope string_scope.
Open Scope list_scope.

Definition MAX_WINDOW_SECS : N := 86400.
Definition MAX_PENDING : nat := 1024.
Definition DEFAULT_MAX_PENDING_PER_BOOTSTRAP : nat := MAX_PENDING / 4.

(** ** Data *)

Record Request := mkRequest {
  csr_pem : string;
  csr_subject : string;
  request_key : string;
  request_uid : list N;
}.

Record Requester := mkRequester {
  bootstrap_subject : string;
  carried : result SubjectValues string;
  bootstrap_fingerprint : string;
  bootstrap : CertId;
  requester_peer : option IpAddr;
  requester_gateway : option string;
}.

Record Pending := mkPending {
  pending_id : string;
  pending_arrived : N;
  pending_key : string;
  pending_requester : Requester;
}.

Inductive Decision :=
| Approved (cert : list N)
| Rejected.

Inductive EnrolmentError :=
| EnrolmentStoreFailed
| InvalidUid (request : string).

Inductive DecisionError :=
| DecisionNotFound
| DecisionRevoked
| DecisionSubject (why : string)
| DecisionSign (why : string)
| DecisionStore (why : EnrolmentError)
| DecisionDeciding.

Inductive Approval :=
| ApprovalApproved (decision : Decision)
| ApprovalNotWaiting
| ApprovalRevoked
| ApprovalRefused (why : DecisionError)
| ApprovalDeciding.

Inductive Decided :=
| DecidedWritten
| DecidedNotWaiting
| DecidedDeciding.

Inductive Submitted :=
| SubmittedWaiting
| SubmittedIssued (cert : list N)
| SubmittedRejected
| SubmittedFull
| SubmittedOverShare (first : bool)
| SubmittedClosed.

Inductive WindowError :=
| WindowInvalid (secs : N)
| WindowStore (why : EnrolmentError).

(** One request as it persists; the [instance_uid] is hex. *)
Record PersistedRequest := mkPersistedRequest {
  stored_id : string;
  stored_arrived : N;
  stored_key : string;
  stored_requester : Requester;
  stored_csr : string;
  stored_uid : string;
  stored_decision : option Decision;
}.

(** The window and its requests as they persist. *)
Record Persisted := mkPersisted {
  stored_until : option N;
  requests : list PersistedRequest;
}.

Definition persisted_default : Persisted := mkPersisted None [].

Inductive Took :=
| TookAdded
| TookHeld (held : PersistedRequest)
| TookFull
| TookOverShare
| TookClosed.

#[export] Instance Requester_eq_dec : EqDecision Requester.
Proof. solve_decision. Defined.
#[export] Instance Decision_eq_dec : EqDecision Decision.
Proof. solve_decision. Defined.
#[export] Instance PersistedRequest_eq_dec : EqDecision PersistedRequest.
Proof. solve_decision. Defined.
#[export] Instance Persisted_eq_dec : EqDecision Persisted.
Proof. solve_decision. Defined.

(** ** What an act does to the document *)

Module Queue.

(** The one request [find] looks for. *)
Definition find (found : PersistedRequest → bool) (p : Persisted) : option PersistedRequest :=
  head (List.filter found (requests p)).

Definition named (id : string) (r : PersistedRequest) : bool := bool_decide (stored_id r = id).

Definition undecided (r : PersistedRequest) : bool :=
  match stored_decision r with None => true | Some _ => false end.

Definition waiting (id : string) (r : PersistedRequest) : bool := named id r && undecided r.

Definition ended (until : option N) (now : N) : bool :=
  match until with None => true | Some until => (until <=? now)%N end.

Definition of_bootstrap (b : CertId) (r : PersistedRequest) : bool :=
  bool_decide (bootstrap (stored_requester r) = b).

Definition take (request : PersistedRequest) (now : N) (max max_per_bootstrap : nat) (p : Persisted)
    : Persisted * Took :=
  if ended (stored_until p) now then (p, TookClosed)
  else
    match find (named (stored_id request)) p with
    | Some held => (p, TookHeld held)
    | None =>
        if (max <=? length (requests p))%nat then (p, TookFull)
        else
          let share := length (List.filter (of_bootstrap (bootstrap (stored_requester request))) (requests p)) in
          if (max_per_bootstrap <=? share)%nat then (p, TookOverShare)
          else (mkPersisted (stored_until p) (requests p ++ [request]), TookAdded)
    end.

Definition with_decision (d : Decision) (r : PersistedRequest) : PersistedRequest :=
  mkPersistedRequest (stored_id r) (stored_arrived r) (stored_key r) (stored_requester r) (stored_csr r)
    (stored_uid r) (Some d).

(** [iter_mut().find(..)] and the write through it: the first request found. *)
Fixpoint write_first (found : PersistedRequest → bool) (f : PersistedRequest → PersistedRequest)
    (l : list PersistedRequest) : list PersistedRequest :=
  match l with
  | [] => []
  | r :: l => if found r then f r :: l else r :: write_first found f l
  end.

Definition decided (id : string) (d : Decision) (p : Persisted) : Persisted :=
  mkPersisted (stored_until p) (write_first (waiting id) (with_decision d) (requests p)).

Definition decide (id : string) (d : Decision) (p : Persisted) : Persisted * Decided :=
  match find (waiting id) p with
  | None => (p, DecidedNotWaiting)
  | Some _ => (decided id d p, DecidedWritten)
  end.

Definition retain (kept : PersistedRequest → bool) (p : Persisted) : Persisted :=
  mkPersisted (stored_until p) (List.filter kept (requests p)).

Definition withdraw_bootstrap (issuers : list string) (sn : string) (p : Persisted) : Persisted * nat :=
  let p' := retain (λ r,
    let b := bootstrap (stored_requester r) in
    negb (undecided r) || negb (bool_decide (serial b = sn)) || negb (bool_decide (issuer b ∈ issuers))) p in
  (p', (length (requests p) - length (requests p'))%nat).

Definition withdraw (ids : list string) (p : Persisted) : Persisted * unit :=
  (retain (λ r, negb (undecided r) || negb (bool_decide (stored_id r ∈ ids))) p, tt).

Definition open_window (until : N) (p : Persisted) : Persisted * unit :=
  (mkPersisted (Some until) (requests p), tt).

Definition close_window (_ : Persisted) : Persisted * unit := (persisted_default, tt).

Definition end_window (until : N) (p : Persisted) : Persisted * bool :=
  if bool_decide (stored_until p = Some until) then (persisted_default, true) else (p, false).

End Queue.

(** ** The port *)

Class EnrolmentStore (B : Type) := {
  store_load : Eff B EnrolmentError (option Persisted);
  store_save : Persisted → Eff B EnrolmentError unit;
  store_take : PersistedRequest → N → nat → nat → Eff B EnrolmentError Took;
  store_decide : string → Decision → Eff B EnrolmentError Decided;
  store_approve : ∀ {X : Type}, string → CertId → Eff X DecisionError Decision →
    Eff (B * X) EnrolmentError Approval;
  store_withdraw_bootstrap : list string → string → Eff B EnrolmentError nat;
  store_withdraw : list string → Eff B EnrolmentError unit;
  store_open_window : N → Eff B EnrolmentError unit;
  store_close_window : Eff B EnrolmentError unit;
  store_end_window : N → Eff B EnrolmentError bool;
}.

(** *** The bodies of the trait *)

Section Defaults.
Context {B : Type} (load : Eff B EnrolmentError (option Persisted)) (save : Persisted → Eff B EnrolmentError unit).

Definition default_take (request : PersistedRequest) (now : N) (max max_per_bootstrap : nat)
    : Eff B EnrolmentError Took :=
  loaded <-! load ;;
  match Queue.take request now max max_per_bootstrap (default persisted_default loaded) with
  | (p, TookAdded) => _ <-! save p ;; eff_ret TookAdded
  | (_, took) => eff_ret took
  end.

Definition default_decide (id : string) (d : Decision) : Eff B EnrolmentError Decided :=
  loaded <-! load ;;
  match Queue.decide id d (default persisted_default loaded) with
  | (p, DecidedWritten) => _ <-! save p ;; eff_ret DecidedWritten
  | (_, answer) => eff_ret answer
  end.

(** Code over one part of a state, run on the whole. *)
Definition on_left {X E A} (m : Eff B E A) : Eff (B * X) E A := λ s,
  let (b, x) := m s.1 in ((b, s.2), x).

(** [approve]: [sign] runs over the world [X] the store is no part of. *)
Definition default_approve {X : Type} (id : string) (_ : CertId) (sign : Eff X DecisionError Decision)
    : Eff (B * X) EnrolmentError Approval :=
  loaded <-! on_left load ;;
  let p := default persisted_default loaded in
  match Queue.find (Queue.waiting id) p with
  | None => eff_ret ApprovalNotWaiting
  | Some _ => λ s,
      let (w, signed) := sign s.2 in
      match signed with
      | Err e => ((s.1, w), Ok (ApprovalRefused e))
      | Ok decision =>
          (_ <-! on_left (save (Queue.decided id decision p)) ;;
           eff_ret (ApprovalApproved decision)) (s.1, w)
      end
  end.

Definition default_withdraw_bootstrap (issuers : list string) (sn : string) : Eff B EnrolmentError nat :=
  loaded <-! load ;;
  match loaded with
  | None => eff_ret 0%nat
  | Some p =>
      let (p, withdrawn) := Queue.withdraw_bootstrap issuers sn p in
      _ <-! (if (0 <? withdrawn)%nat then save p else eff_ret tt) ;;
      eff_ret withdrawn
  end.

Definition default_withdraw (ids : list string) : Eff B EnrolmentError unit :=
  loaded <-! load ;;
  match loaded with
  | None => eff_ret tt
  | Some p => save (Queue.withdraw ids p).1
  end.

Definition default_open_window (until : N) : Eff B EnrolmentError unit :=
  loaded <-! load ;;
  save (Queue.open_window until (default persisted_default loaded)).1.

Definition default_close_window : Eff B EnrolmentError unit := save persisted_default.

Definition default_end_window (until : N) : Eff B EnrolmentError bool :=
  loaded <-! load ;;
  match Queue.end_window until (default persisted_default loaded) with
  | (_, false) => eff_ret false
  | (p, true) => _ <-! save p ;; eff_ret true
  end.

(** A store that keeps the trait's bodies. *)
Definition whole_store : EnrolmentStore B := {|
  store_load := load;
  store_save := save;
  store_take := default_take;
  store_decide := default_decide;
  store_approve X := default_approve (X := X);
  store_withdraw_bootstrap := default_withdraw_bootstrap;
  store_withdraw := default_withdraw;
  store_open_window := default_open_window;
  store_close_window := default_close_window;
  store_end_window := default_end_window;
|}.
End Defaults.

(** *** What a store promises that is its only writer *)

(** An act that does to the document what [f] says and answers as it says, or fails having done it
    or nothing. *)
Definition does {B A : Type} (stored : B → Persisted → Prop) (act : Eff B EnrolmentError A)
    (f : Persisted → Persisted * A) : Prop :=
  ∀ b p b' x, stored b p → act b = (b', x) →
    x = Ok (f p).2 ∧ stored b' (f p).1 ∨
    is_ok x = false ∧ (stored b' p ∨ stored b' (f p).1).

(** What an approval comes to: nothing is signed unless the request waits in the store, and what is
    signed is the request's decision there, or the write of it failed. *)
Inductive approves {B X : Type} (stored : B → Persisted → Prop) (id : string)
    (sign : Eff X DecisionError Decision) (p : Persisted) (w : X) : B → X → result Approval EnrolmentError → Prop :=
| approves_unread b e : stored b p → approves stored id sign p w b w (Err e)
| approves_not_waiting b :
    stored b p → Queue.find (Queue.waiting id) p = None →
    approves stored id sign p w b w (Ok ApprovalNotWaiting)
| approves_refused b r w' e :
    stored b p → Queue.find (Queue.waiting id) p = Some r → sign w = (w', Err e) →
    approves stored id sign p w b w' (Ok (ApprovalRefused e))
| approves_approved b r w' d :
    stored b (Queue.decided id d p) → Queue.find (Queue.waiting id) p = Some r → sign w = (w', Ok d) →
    approves stored id sign p w b w' (Ok (ApprovalApproved d))
| approves_unwritten b r w' d e :
    stored b p ∨ stored b (Queue.decided id d p) → Queue.find (Queue.waiting id) p = Some r →
    sign w = (w', Ok d) → approves stored id sign p w b w' (Err e).

Class SoleWriterQueue {B : Type} `{!EnrolmentStore B} (stored : B → Persisted → Prop) : Prop := {
  load_law b p b' x :
    stored b p → store_load b = (b', x) →
    stored b' p ∧ ∀ loaded, x = Ok loaded → default persisted_default loaded = p;
  take_law r now max per : does stored (store_take r now max per) (Queue.take r now max per);
  decide_law id d : does stored (store_decide id d) (Queue.decide id d);
  approve_law X id c (sign : Eff X DecisionError Decision) b p w b' w' x :
    stored b p → store_approve id c sign (b, w) = ((b', w'), x) → approves stored id sign p w b' w' x;
  withdraw_bootstrap_law issuers sn :
    does stored (store_withdraw_bootstrap issuers sn) (Queue.withdraw_bootstrap issuers sn);
  withdraw_law ids : does stored (store_withdraw ids) (Queue.withdraw ids);
  open_window_law until : does stored (store_open_window until) (Queue.open_window until);
  close_window_law : does stored store_close_window Queue.close_window;
  end_window_law until : does stored (store_end_window until) (Queue.end_window until);
}.

(** ** The window and its queue in memory *)

Record Entry := mkEntry {
  pending : Pending;
  entry_csr : string;
  entry_uid : list N;
  decision : option Decision;
}.

Record QueueState := mkQueueState {
  window_until_ms : option N;
  entries : gmap string Entry;
  over_share : gset CertId;
}.

Definition queue_default : QueueState := mkQueueState None ∅ ∅.

(** [Enrolment]. [audit_of] is what the audit record was told, [None] while none is set: the end of a
    window that ran out, with how many requests expired with it. [changes] counts what the watch
    channel was told. *)
Record Enrolment (B : Type) := mkEnrolment {
  queue : QueueState;
  max_per_bootstrap : nat;
  queue_store : option B;
  changes : N;
  audit_of : option (list (N * nat));
}.
Arguments mkEnrolment {B}.
Arguments queue {B}.
Arguments max_per_bootstrap {B}.
Arguments queue_store {B}.
Arguments changes {B}.
Arguments audit_of {B}.

Definition answer (d : option Decision) : Submitted :=
  match d with
  | None => SubmittedWaiting
  | Some (Approved cert) => SubmittedIssued cert
  | Some Rejected => SubmittedRejected
  end.

Definition entry_waits (e : Entry) : bool :=
  match decision e with None => true | Some _ => false end.

Definition entry_bootstrap (e : Entry) : CertId := bootstrap (pending_requester (pending e)).

Section Memory.
Context {B : Type} `{!EnrolmentStore B}.
Context (hex_encode : list N → string) (hex_decode : string → option (list N)).
Notation Enr := (Enrolment B).

Definition entry_persisted (e : Entry) : PersistedRequest :=
  mkPersistedRequest (pending_id (pending e)) (pending_arrived (pending e)) (pending_key (pending e))
    (pending_requester (pending e)) (entry_csr e) (hex_encode (entry_uid e)) (decision e).

Definition entry_restored (r : PersistedRequest) : result Entry EnrolmentError :=
  match hex_decode (stored_uid r) with
  | None => Err (InvalidUid (stored_id r))
  | Some uid =>
      Ok (mkEntry (mkPending (stored_id r) (stored_arrived r) (stored_key r) (stored_requester r))
            (stored_csr r) uid (stored_decision r))
  end.

(** [State::took]. *)
Definition took (e : Entry) (max per : nat) (s : QueueState) : Took :=
  if (max <=? size (entries s))%nat then TookFull
  else
    let share := length (List.filter (λ held, bool_decide (entry_bootstrap held = entry_bootstrap e))
                   (btree_values (entries s))) in
    if (per <=? share)%nat then TookOverShare else TookAdded.

Fixpoint restore_entries (l : list PersistedRequest) (m : gmap string Entry)
    : result (gmap string Entry) EnrolmentError :=
  match l with
  | [] => Ok m
  | r :: l =>
      e <-? entry_restored r ;;
      restore_entries l (<[pending_id (pending e) := e]> m)
  end.

(** [State::restored]. *)
Definition state_restored (p : Persisted) : result QueueState EnrolmentError :=
  m <-? restore_entries (requests p) ∅ ;;
  Ok (mkQueueState (stored_until p) m ∅).

Definition read_state (loaded : option Persisted) : result QueueState EnrolmentError :=
  match loaded with
  | Some p => state_restored p
  | None => Ok queue_default
  end.

(** *** Parts of the state *)

Definition set_queue (q : QueueState) (s : Enr) : Enr :=
  mkEnrolment q (max_per_bootstrap s) (queue_store s) (changes s) (audit_of s).
Definition set_store (b : option B) (s : Enr) : Enr :=
  mkEnrolment (queue s) (max_per_bootstrap s) b (changes s) (audit_of s).
Definition set_entries (m : gmap string Entry) (s : Enr) : Enr :=
  set_queue (mkQueueState (window_until_ms (queue s)) m (over_share (queue s))) s.

(** [changed]. *)
Definition changed (s : Enr) : Enr :=
  mkEnrolment (queue s) (max_per_bootstrap s) (queue_store s) (changes s + 1) (audit_of s).

(** [on_store]. *)
Definition on_store (act : Eff B EnrolmentError unit) : Eff Enr EnrolmentError unit := λ s,
  match queue_store s with
  | None => (s, Ok tt)
  | Some b => let (b, x) := act b in (set_store (Some b) s, x)
  end.

Definition on_store_logged (act : Eff B EnrolmentError unit) (s : Enr) : Enr := (on_store act s).1.

(** *** Construction *)

Definition enrolment_new : Enr :=
  mkEnrolment queue_default DEFAULT_MAX_PENDING_PER_BOOTSTRAP None 0 None.

(** [open_on]; the store is answered beside what was opened, as it is what a failed start leaves. *)
Definition open_on (now : N) (b : B) : B * result Enr EnrolmentError :=
  match store_load b with
  | (b, Err e) => (b, Err e)
  | (b, Ok loaded) =>
      match read_state loaded with
      | Err e => (b, Err e)
      | Ok q =>
          let opened q b := mkEnrolment q DEFAULT_MAX_PENDING_PER_BOOTSTRAP (Some b) 0 None in
          match window_until_ms q with
          | Some until =>
              if (until <=? now)%N then
                match store_end_window until b with
                | (b, Err e) => (b, Err e)
                | (b, Ok _) => (b, Ok (opened queue_default b))
                end
              else (b, Ok (opened q b))
          | None =>
              if bool_decide (entries q = ∅) then (b, Ok (opened q b))
              else
                match store_close_window b with
                | (b, Err e) => (b, Err e)
                | (b, Ok _) => (b, Ok (opened queue_default b))
                end
          end
      end
  end.

Definition with_max_pending_per_bootstrap (max : nat) (s : Enr) : Enr :=
  mkEnrolment (queue s) (Nat.min (Nat.max 1 max) MAX_PENDING) (queue_store s) (changes s) (audit_of s).

Definition set_audit (s : Enr) : Enr :=
  mkEnrolment (queue s) (max_per_bootstrap s) (queue_store s) (changes s)
    (Some (default [] (audit_of s))).

(** *** The window *)

(** [expire]. *)
Definition expire (now : N) (s : Enr) : Enr * option N :=
  match window_until_ms (queue s) with
  | None => (s, None)
  | Some until =>
      if (now <? until)%N then (s, Some until)
      else
        let expired := length (List.filter entry_waits (btree_values (entries (queue s)))) in
        let s := set_queue queue_default s in
        let '(s, ended) :=
          match queue_store s with
          | None => (s, true)
          | Some b =>
              let (b, x) := store_end_window until b in
              (set_store (Some b) s, match x with Ok ended => ended | Err _ => true end)
          end in
        let told := match audit_of s with
                    | Some told => Some (if ended then told ++ [(until, expired)] else told)
                    | None => None
                    end in
        (mkEnrolment (queue s) (max_per_bootstrap s) (queue_store s) (changes s + 1) told, None)
  end.

(** [open]: [None] for the end of a window past the last millisecond of a [u64]. *)
Definition window_end (now secs : N) : option N :=
  ms ← checked_mul u64_max secs 1000;
  checked_add u64_max now ms.

Definition open (now secs : N) (s : Enr) : option (Enr * result N WindowError) :=
  if negb ((1 <=? secs)%N && (secs <=? MAX_WINDOW_SECS)%N) then Some (s, Err (WindowInvalid secs))
  else
    until ← window_end now secs;
    Some match on_store (store_open_window until) s with
         | (s, Err e) => (s, Err (WindowStore e))
         | (s, Ok _) =>
             let q := queue s in
             (changed (set_queue (mkQueueState (Some until) (entries q) (over_share q)) s), Ok until)
         end.

Definition close (s : Enr) : Enr * result unit EnrolmentError :=
  let (s, saved) := on_store store_close_window (set_queue queue_default s) in
  (changed s, saved).

Definition window (now : N) (s : Enr) : Enr * option N := expire now s.

Definition is_open (now : N) (s : Enr) : Enr * bool :=
  let (s, w) := window now s in (s, match w with Some _ => true | None => false end).

(** *** Requests *)

(** [submit]; the clock is read by [expire], for the entry, and for the store. *)
Definition submit (now arrived taken : N) (request : Request) (requester : Requester) (s : Enr)
    : Enr * Submitted :=
  match expire now s with
  | (s, None) => (s, SubmittedClosed)
  | (s, Some _) =>
      match entries (queue s) !! request_key request with
      | Some e => (s, answer (decision e))
      | None =>
          let id := request_key request in
          let e := mkEntry (mkPending id arrived (request_key request) requester) (csr_pem request)
                     (request_uid request) None in
          let '(s, took) :=
            match queue_store s with
            | Some b =>
                let (b, x) := store_take (entry_persisted e) taken MAX_PENDING (max_per_bootstrap s) b in
                (set_store (Some b) s, x)
            | None => (s, Ok (took e MAX_PENDING (max_per_bootstrap s) (queue s)))
            end in
          match took with
          | Err _ => (s, SubmittedFull)
          | Ok TookAdded => (changed (set_entries (<[id := e]> (entries (queue s))) s), SubmittedWaiting)
          | Ok (TookHeld held) =>
              match entry_restored held with
              | Ok held => (set_entries (<[id := held]> (entries (queue s))) s, answer (decision held))
              | Err _ => (s, SubmittedFull)
              end
          | Ok TookFull => (s, SubmittedFull)
          | Ok TookOverShare =>
              let q := queue s in
              let first := bool_decide (bootstrap requester ∉ over_share q) in
              (set_queue (mkQueueState (window_until_ms q) (entries q) ({[bootstrap requester]} ∪ over_share q)) s,
               SubmittedOverShare first)
          | Ok TookClosed => (s, SubmittedClosed)
          end
      end
  end.

(** [sort_by_key(arrived_ms)]: stable, so requests of one millisecond stay in the order of their
    ids. *)
Fixpoint insert_by_arrival (p : Pending) (l : list Pending) : list Pending :=
  match l with
  | [] => [p]
  | q :: l => if (pending_arrived p <=? pending_arrived q)%N then p :: q :: l
              else q :: insert_by_arrival p l
  end.

(** [pending]. *)
Definition pending_list (now : N) (s : Enr) : Enr * list Pending :=
  let (s, _) := expire now s in
  (s, foldr insert_by_arrival []
        (pending <$> List.filter entry_waits (btree_values (entries (queue s))))).

(** The entry of a waiting request, for a decision. *)
Definition waiting_entry (id : string) (s : Enr) : option Entry :=
  match entries (queue s) !! id with
  | Some e => if entry_waits e then Some e else None
  | None => None
  end.

(** [withdrawn]. *)
Definition withdrawn (id : string) (s : Enr) : Enr :=
  let s := set_entries (delete id (entries (queue s))) s in
  changed (on_store_logged (store_withdraw [id]) s).

Definition entry_decided (d : Decision) (e : Entry) : Entry :=
  mkEntry (pending e) (entry_csr e) (entry_uid e) (Some d).

Definition hold_decision (id : string) (d : Decision) (s : Enr) : Enr :=
  set_entries (alter (entry_decided d) id (entries (queue s))) s.

Definition drop_entry (id : string) (s : Enr) : Enr := set_entries (delete id (entries (queue s))) s.

(** *** Approval

    The signing and the recording run over a world [X] of their own: the certificate authority, the
    register and the audit record. *)

Section Approve.
Context {X : Type} (signer : Signer) (host : string).
Context (record : Signed → list N → CertId → Eff X DecisionError unit).
Context (is_revoked : CertId → X → X * bool).

(** The closure [sign] of [approve]. *)
Definition sign_entry (e : Entry) (subject : SubjectValues) : Eff X DecisionError Decision :=
  signed <-! eff_of (map_err DecisionSign (sign signer (entry_csr e) host subject)) ;;
  _ <-! record signed (entry_uid e) (entry_bootstrap e) ;;
  eff_ret (Approved (pem signed)).

Definition approve (now : N) (id : string) (s : Enr) (w : X) : (Enr * X) * result unit DecisionError :=
  let (s, _) := expire now s in
  match waiting_entry id s with
  | None => ((s, w), Err DecisionNotFound)
  | Some e =>
      let (w, refused) := is_revoked (entry_bootstrap e) w in
      if refused then ((withdrawn id s, w), Err DecisionRevoked)
      else
        match carried (pending_requester (pending e)) with
        | Err why => ((s, w), Err (DecisionSubject why))
        | Ok subject =>
            let '(s, w, approval) :=
              match queue_store s with
              | Some b =>
                  let '((b, w), x) := store_approve id (entry_bootstrap e) (sign_entry e subject) (b, w) in
                  (set_store (Some b) s, w, x)
              | None =>
                  let (w, x) := sign_entry e subject w in
                  (s, w, Ok match x with Ok d => ApprovalApproved d | Err e => ApprovalRefused e end)
              end in
            match approval with
            | Err e => ((s, w), Err (DecisionStore e))
            | Ok (ApprovalApproved d) => ((changed (hold_decision id d s), w), Ok tt)
            | Ok ApprovalNotWaiting => ((drop_entry id s, w), Err DecisionNotFound)
            | Ok ApprovalRevoked | Ok (ApprovalRefused DecisionRevoked) => ((withdrawn id s, w), Err DecisionRevoked)
            | Ok (ApprovalRefused e) => ((s, w), Err e)
            | Ok ApprovalDeciding => ((s, w), Err DecisionDeciding)
            end
        end
  end.
End Approve.

(** [decided]. *)
Definition write_decision (id : string) (d : Decision) (s : Enr) : Enr * result unit DecisionError :=
  let '(s, decided) :=
    match queue_store s with
    | Some b => let (b, x) := store_decide id d b in (set_store (Some b) s, x)
    | None => (s, Ok DecidedWritten)
    end in
  match decided with
  | Err e => (s, Err (DecisionStore e))
  | Ok DecidedNotWaiting => (drop_entry id s, Err DecisionNotFound)
  | Ok DecidedDeciding => (s, Err DecisionDeciding)
  | Ok DecidedWritten => (hold_decision id d s, Ok tt)
  end.

Definition reject (now : N) (id : string) (s : Enr) : Enr * result unit DecisionError :=
  let (s, _) := expire now s in
  match waiting_entry id s with
  | None => (s, Err DecisionNotFound)
  | Some _ =>
      match write_decision id Rejected s with
      | (s, Ok _) => (changed s, Ok tt)
      | (s, Err e) => (s, Err e)
      end
  end.

(** *** Withdrawal *)

(** The ids of the waiting requests of the bootstrap certificates [named] names. *)
Definition waiting_of (named : CertId → bool) (s : Enr) : list string :=
  (λ e, pending_id (pending e)) <$>
    List.filter (λ e, entry_waits e && named (entry_bootstrap e)) (btree_values (entries (queue s))).

Definition drop_entries (ids : list string) (s : Enr) : Enr :=
  set_entries (foldl (λ m id, delete id m) (entries (queue s)) ids) s.

Definition withdraw (is_revoked : CertId → bool) (s : Enr) : Enr * nat :=
  let ids := waiting_of is_revoked s in
  let s := drop_entries ids s in
  let n := length ids in
  if (0 <? n)%nat then (changed (on_store_logged (store_withdraw ids) s), n) else (s, n).

Definition withdraw_revoked (issuers : list string) (sn : string) (s : Enr) : Enr * nat :=
  let ids := waiting_of (λ b, bool_decide (serial b = sn) && bool_decide (issuer b ∈ issuers)) s in
  let s := drop_entries ids s in
  let '(s, n) :=
    match queue_store s with
    | Some b =>
        let (b, x) := store_withdraw_bootstrap issuers sn b in
        (set_store (Some b) s, match x with Ok n => n | Err _ => length ids end)
    | None => (s, length ids)
    end in
  ((if (0 <? n)%nat || (0 <? length ids)%nat then changed s else s), n).

(** *** Reads *)

Definition is_rejected (key : string) (s : Enr) : bool :=
  match entries (queue s) !! key with
  | Some e => bool_decide (decision e = Some Rejected)
  | None => false
  end.

Definition reload (s : Enr) : Enr * result unit EnrolmentError :=
  match queue_store s with
  | None => (s, Ok tt)
  | Some b =>
      let (b, x) := store_load b in
      let s := set_store (Some b) s in
      match bind_result x read_state with
      | Err e => (s, Err e)
      | Ok fresh =>
          let kept := if bool_decide (window_until_ms fresh = window_until_ms (queue s))
                      then over_share (queue s) else over_share fresh in
          (changed (set_queue (mkQueueState (window_until_ms fresh) (entries fresh) kept) s), Ok tt)
      end
  end.
End Memory.
