(* ===== verification/EnrolmentPort.v ===== *)
(** * The enrolment's port, implemented

    The bodies the trait [EnrolmentStore] gives its acts keep the port of a sole writer over any
    [load] and [save] that read and replace one document, and [fleet-server/src/fs/enrolment.rs] is
    such a pair: [enrolment.json], replaced in one step. *)

From S2P Require Import Prelude RustStr Placement Revocation Reports Fs Enrolment.

Open Scope string_scope.
Open Scope list_scope.

(** ** The trait's bodies *)

Section Whole.
Context {B : Type} (load : Eff B EnrolmentError (option Persisted)) (save : Persisted → Eff B EnrolmentError unit).
Context (stored : B → Persisted → Prop).

Hypothesis load_reads : ∀ b p b' x,
  stored b p → load b = (b', x) →
  stored b' p ∧ ∀ loaded, x = Ok loaded → default persisted_default loaded = p.
Hypothesis save_replaces : ∀ b p q b' x,
  stored b p → save q b = (b', x) → stored b' q ∨ is_ok x = false ∧ stored b' p.

(** A document read, then perhaps replaced. *)
Lemma read_write_does {A} (f : Persisted → Persisted * A) (act : Eff B EnrolmentError A)
    (writes : option Persisted → bool) :
  (∀ b, act b = (loaded <-! load ;;
                 let p := default persisted_default loaded in
                 if writes loaded then _ <-! save (f p).1 ;; eff_ret (f p).2 else eff_ret (f p).2) b) →
  (∀ loaded, writes loaded = false →
     let p := default persisted_default loaded in (f p).1 = p) →
  does stored act f.
Proof.
  intros Hact Hsame b p b' x Hst Hx. rewrite Hact in Hx. unfold eff_bind in Hx.
  destruct (load b) as [b1 y] eqn:E1. apply (load_reads _ p) in E1 as [Hst1 Hp]; [|done].
  destruct y as [loaded|e]; [|simplify_eq; by auto].
  specialize (Hp loaded eq_refl). cbn in Hx. destruct (writes loaded) eqn:Ew.
  - rewrite Hp in Hx. destruct (save (f p).1 b1) as [b2 z] eqn:E2.
    apply (save_replaces _ p) in E2; [|done].
    destruct z as [[]|e]; unfold eff_ret in Hx; simplify_eq/=; naive_solver.
  - unfold eff_ret in Hx. simplify_eq. left. split; [done|]. by rewrite (Hsame loaded Ew).
Qed.

Lemma default_take_does r now max per :
  does stored (default_take load save r now max per) (Queue.take r now max per).
Proof.
  apply (read_write_does _ _ (λ loaded,
    match (Queue.take r now max per (default persisted_default loaded)).2 with TookAdded => true | _ => false end)).
  - intros b. unfold default_take, eff_bind. destruct (load b) as [b1 [loaded|e]]; [|done].
    by destruct (Queue.take _ _ _ _ _) as [p []].
  - intros loaded. unfold Queue.take. repeat case_match; done.
Qed.

Lemma default_decide_does id d :
  does stored (default_decide load save id d) (Queue.decide id d).
Proof.
  apply (read_write_does _ _ (λ loaded,
    match (Queue.decide id d (default persisted_default loaded)).2 with DecidedWritten => true | _ => false end)).
  - intros b. unfold default_decide, eff_bind. destruct (load b) as [b1 [loaded|e]]; [|done].
    by destruct (Queue.decide _ _ _) as [p []].
  - intros loaded. unfold Queue.decide. repeat case_match; done.
Qed.

Lemma retain_all kept p :
  (length (requests p) - length (requests (Queue.retain kept p)) = 0)%nat → Queue.retain kept p = p.
Proof.
  destruct p as [u l]. cbn. intros Hn. unfold Queue.retain. cbn. f_equal.
  assert (length l ≤ length (List.filter kept l))%nat as Hl by lia. clear Hn.
  induction l as [|r l IH]; [done|]. cbn in *. pose proof (filter_length_le kept l).
  destruct (kept r); cbn in *; [|lia]. f_equal. apply IH. lia.
Qed.

Lemma default_withdraw_bootstrap_does issuers sn :
  does stored (default_withdraw_bootstrap load save issuers sn) (Queue.withdraw_bootstrap issuers sn).
Proof.
  apply (read_write_does _ _ (λ loaded,
    (0 <? (Queue.withdraw_bootstrap issuers sn (default persisted_default loaded)).2)%nat)).
  - intros b. unfold default_withdraw_bootstrap, eff_bind, eff_ret. destruct (load b) as [b1 [[p|]|e]]; try done.
    cbn [default]. unfold id. destruct (Queue.withdraw_bootstrap issuers sn p) as [q n]. cbn [fst snd].
    by destruct (0 <? n)%nat.
  - intros loaded Hw. apply Nat.ltb_ge in Hw. apply retain_all. revert Hw. unfold Queue.withdraw_bootstrap. cbn. lia.
Qed.

Lemma default_withdraw_does ids : does stored (default_withdraw load save ids) (Queue.withdraw ids).
Proof.
  apply (read_write_does _ _ (λ loaded, match loaded with Some _ => true | None => false end)).
  - intros b. unfold default_withdraw, eff_bind, eff_ret. destruct (load b) as [b1 [[p|]|e]]; try done.
    cbn. by destruct (save _ b1) as [b2 [[]|e]].
  - by intros [p|].
Qed.

Lemma default_open_window_does until : does stored (default_open_window load save until) (Queue.open_window until).
Proof.
  apply (read_write_does _ _ (λ _, true)); [|done].
  intros b. unfold default_open_window, eff_bind, eff_ret. destruct (load b) as [b1 [loaded|e]]; [|done].
  cbn. by destruct (save _ b1) as [b2 [[]|e]].
Qed.

Lemma default_end_window_does until : does stored (default_end_window load save until) (Queue.end_window until).
Proof.
  apply (read_write_does _ _ (λ loaded, (Queue.end_window until (default persisted_default loaded)).2)).
  - intros b. unfold default_end_window, eff_bind, eff_ret. destruct (load b) as [b1 [loaded|e]]; [|done].
    by destruct (Queue.end_window _ _) as [p []].
  - intros loaded. unfold Queue.end_window. by case_match.
Qed.

Lemma default_close_window_does : does stored (default_close_window save) Queue.close_window.
Proof.
  intros b p b' x Hst Hx. cbn. unfold default_close_window in Hx.
  apply (save_replaces _ p) in Hx; [|done]. destruct x as [[]|e]; cbn in *; naive_solver.
Qed.

Lemma default_approve_approves X id c (sign : Eff X DecisionError Decision) b p w b' w' x :
  stored b p → default_approve load save id c sign (b, w) = ((b', w'), x) →
  approves stored id sign p w b' w' x.
Proof.
  intros Hst. unfold default_approve, on_left, eff_bind, eff_ret. cbn.
  destruct (load b) as [b1 y] eqn:E1. apply (load_reads _ p) in E1 as [Hst1 Hp]; [|done].
  destruct y as [loaded|e]; [|intros [= <- <- <-]; by constructor].
  rewrite (Hp loaded eq_refl). destruct (Queue.find (Queue.waiting id) p) as [r|] eqn:Ef;
    [|intros [= <- <- <-]; by constructor].
  cbn. destruct (sign w) as [w1 [d|e]] eqn:Es; [|intros [= <- <- <-]; by econstructor].
  destruct (save _ b1) as [b2 z] eqn:E2. apply (save_replaces _ p) in E2; [|done].
  destruct z as [[]|e]; intros [= <- <- <-].
  - eapply approves_approved; [|done..]. naive_solver.
  - eapply approves_unwritten; [|done..]. naive_solver.
Qed.

Lemma whole_store_is_sole_writer : @SoleWriterQueue B (whole_store load save) stored.
Proof.
  split; cbn; [done|..].
  - apply default_take_does.
  - apply default_decide_does.
  - intros *. apply default_approve_approves.
  - apply default_withdraw_bootstrap_does.
  - apply default_withdraw_does.
  - apply default_open_window_does.
  - apply default_close_window_does.
  - apply default_end_window_does.
Qed.
End Whole.

(** ** The filesystem adapter *)

Definition ENROLMENT : string := "enrolment.json".

Section Adapter.
Context (to_json : Persisted → string) (from_json : string → option Persisted).

(** [FsEnrolmentStore::load]. *)
Definition fs_enrolment_load : Eff Fs FsError (option Persisted) :=
  outcome <-! system_call ;;
  fs <-! get_files ;;
  match outcome, fs !! ENROLMENT with
  | Done, None => eff_ret None
  | Done, Some (File text) =>
      match from_json text with
      | Some p => eff_ret (Some p)
      | None => eff_fail (CannotParse ENROLMENT)
      end
  | _, _ => eff_fail (CannotRead ENROLMENT)
  end.

(** [FsEnrolmentStore::save]. *)
Definition fs_enrolment_save (p : Persisted) : Eff Fs FsError unit :=
  replace_owner_only ENROLMENT (to_json p).

Definition fs_enrolment : EnrolmentStore Fs :=
  whole_store (eff_map_err (λ _, EnrolmentStoreFailed) fs_enrolment_load)
    (λ p, eff_map_err (λ _, EnrolmentStoreFailed) (fs_enrolment_save p)).

(** The document holds [p]; an absent one holds a closed window with no requests. *)
Definition fs_enrolment_stored (fs : Fs) (p : Persisted) : Prop :=
  match documents (files fs) !! ENROLMENT with
  | None => p = persisted_default
  | Some (File text) => from_json text = Some p
  | Some Folder => False
  end.

Hypothesis json_round_trip : ∀ p, from_json (to_json p) = Some p.

Lemma lookup_enrolment_document fs : documents (files fs) !! ENROLMENT = files fs !! ENROLMENT.
Proof.
  apply option_eq. intros n. rewrite lookup_documents. unfold leftover.
  replace (ends_with ".tmp" ENROLMENT) with false by (vm_compute; reflexivity). naive_solver.
Qed.

Lemma fs_enrolment_load_reads fs p fs' x :
  fs_enrolment_stored fs p → eff_map_err (λ _, EnrolmentStoreFailed) fs_enrolment_load fs = (fs', x) →
  fs_enrolment_stored fs' p ∧ ∀ loaded, x = Ok loaded → default persisted_default loaded = p.
Proof.
  unfold fs_enrolment_stored, eff_map_err, fs_enrolment_load, eff_bind, get_files, eff_ret, eff_fail, system_call.
  rewrite !lookup_enrolment_document. intros Hst.
  destruct (outcomes fs) as [|[|n] rest] eqn:Eo; cbn;
    destruct (files fs !! ENROLMENT) as [[text|]|] eqn:E; try done; rewrite ?Hst;
    intros [= <- <-]; cbn; rewrite ?lookup_enrolment_document; cbn; rewrite E; naive_solver.
Qed.

Lemma fs_enrolment_save_replaces fs p q fs' x :
  fs_enrolment_stored fs p → eff_map_err (λ _, EnrolmentStoreFailed) (fs_enrolment_save q) fs = (fs', x) →
  fs_enrolment_stored fs' q ∨ is_ok x = false ∧ fs_enrolment_stored fs' p.
Proof.
  unfold fs_enrolment_stored, eff_map_err, fs_enrolment_save. intros Hst.
  destruct (replace_owner_only ENROLMENT (to_json q) fs) as [fs1 r] eqn:E. intros [= <- <-].
  apply replace_owner_only_spec in E as [_ [Hdoc|[Hr Hdoc]]]; [..|vm_compute; reflexivity]; rewrite Hdoc.
  - left. by rewrite lookup_insert_eq.
  - right. split; [|done]. by destruct r.
Qed.

(** The filesystem adapter keeps the port of a sole writer. *)
Lemma fs_enrolment_is_sole_writer : @SoleWriterQueue Fs fs_enrolment fs_enrolment_stored.
Proof.
  apply whole_store_is_sole_writer; intros *; [apply fs_enrolment_load_reads|apply fs_enrolment_save_replaces].
Qed.
End Adapter.
