(* ===== verification/EnrolmentRuns.v ===== *)
(** * Runs of the enrolment queue

    The document of the queue is sound ([sound]) and every request held in memory is backed by it
    ([backed]): every operation of [Enrolment] over a store that is its only writer keeps it so, whichever
    reads and writes fail, and a Server started again finds the document as its queue. A run is a list
    of operations and starts; the theorems are on every run. *)

From S2P Require Import Prelude RustStr Rate Fs Placement Revocation Reports Enrolment.

Open Scope string_scope.
Open Scope list_scope.

(** ** What the queue keeps *)

(** ** The document *)

Notation ids p := (stored_id <$> requests p).

Definition share (c : CertId) (l : list PersistedRequest) : nat :=
  length (List.filter (Queue.of_bootstrap c) l).

Lemma share_app c l l' : share c (l ++ l') = (share c l + share c l')%nat.
Proof. unfold share. by rewrite List.filter_app, length_app. Qed.

Lemma elem_of_filter_bool {A} (f : A → bool) (l : list A) x : x ∈ List.filter f l ↔ x ∈ l ∧ f x = true.
Proof. by rewrite !list_elem_of_In, filter_In. Qed.

Lemma head_filter_Some {A} (f : A → bool) (l : list A) x :
  head (List.filter f l) = Some x → x ∈ l ∧ f x = true.
Proof.
  intros H. apply elem_of_filter_bool. destruct (List.filter f l); [done|]. cbn in H. simplify_eq. by left.
Qed.

Lemma head_filter_None {A} (f : A → bool) (l : list A) x :
  head (List.filter f l) = None → x ∈ l → f x = false.
Proof.
  intros H Hx. destruct (f x) eqn:Ef; [|done].
  assert (x ∈ List.filter f l) as Hin by (by apply elem_of_filter_bool).
  destruct (List.filter f l); [|done]. by apply elem_of_nil in Hin.
Qed.

Lemma waiting_true id r : Queue.waiting id r = true ↔ stored_id r = id ∧ stored_decision r = None.
Proof.
  unfold Queue.waiting, Queue.named, Queue.undecided. rewrite andb_true_iff, bool_decide_eq_true.
  destruct (stored_decision r); naive_solver.
Qed.

Lemma Permutation_filter_bool {A} (f : A → bool) (l l' : list A) :
  l ≡ₚ l' → List.filter f l ≡ₚ List.filter f l'.
Proof. induction 1; cbn; repeat case_match; try done; [by constructor|by constructor|by etransitivity]. Qed.

(** A request and itself later: all but the decision stays, and a decision once made stays too. *)
Definition follows (r r' : PersistedRequest) : Prop :=
  stored_id r' = stored_id r ∧ stored_arrived r' = stored_arrived r ∧ stored_key r' = stored_key r ∧
  stored_requester r' = stored_requester r ∧ stored_csr r' = stored_csr r ∧ stored_uid r' = stored_uid r ∧
  (stored_decision r = None ∨ stored_decision r' = stored_decision r).

Lemma follows_refl r : follows r r.
Proof. unfold follows. naive_solver. Qed.

Lemma follows_with_decision d r : stored_decision r = None → follows r (Queue.with_decision d r).
Proof. unfold follows. cbn. naive_solver. Qed.

Definition extends (p p' : Persisted) : Prop :=
  ∀ r, r ∈ requests p → ∃ r', r' ∈ requests p' ∧ follows r r'.

#[export] Instance extends_refl : Reflexive extends.
Proof. intros p r Hr. exists r. split; [done|apply follows_refl]. Qed.

Section Sound.
Context (hex_decode : string → option (list N)).

(** The request can be read back; its id is its key's fingerprint. *)
Definition readable (r : PersistedRequest) : Prop :=
  stored_key r = stored_id r ∧ ∃ uid, hex_decode (stored_uid r) = Some uid.

(** A document whose requests all have [P]. *)
Record sound (P : PersistedRequest → Prop) (per : nat) (p : Persisted) : Prop := mkSound {
  sound_ids : NoDup (ids p);
  sound_all : Forall P (requests p);
  sound_readable : Forall readable (requests p);
  sound_length : (length (requests p) ≤ MAX_PENDING)%nat;
  sound_share c : (share c (requests p) ≤ per)%nat;
}.

Lemma sound_weaken (P P' : PersistedRequest → Prop) per p : (∀ r, P r → P' r) → sound P per p → sound P' per p.
Proof. intros H []. split; try done. by apply (Forall_impl P). Qed.

Context (P : PersistedRequest → Prop).

Lemma sound_default per : sound P per persisted_default.
Proof. split; cbn; try constructor; [lia|unfold share; cbn; lia]. Qed.

Lemma sound_by_id per p r r' :
  sound P per p → r ∈ requests p → r' ∈ requests p → stored_id r = stored_id r' → r = r'.
Proof.
  intros [Hnd _ _ _ _] Hr Hr' Hid. revert Hnd Hr Hr'. generalize (requests p) as l.
  induction l as [|a l IH]; cbn; [by intros _ ?%elem_of_nil|].
  intros [Ha Hnd]%NoDup_cons [->|Hr]%elem_of_cons [->|Hr']%elem_of_cons; [done|..|by apply IH];
    exfalso; apply Ha; apply list_elem_of_fmap; eauto.
Qed.

(** *** Every act keeps the document sound *)

Lemma share_retain f c l : (share c (List.filter f l) ≤ share c l)%nat.
Proof.
  unfold share. induction l as [|r l IH]; [done|]. cbn [List.filter].
  destruct (f r); cbn [List.filter]; destruct (Queue.of_bootstrap c r); cbn [length]; lia.
Qed.

Lemma ids_retain f l : NoDup (stored_id <$> l) → NoDup (stored_id <$> List.filter f l).
Proof.
  induction l as [|r l IH]; [done|]. cbn. intros [Hr Hnd]%NoDup_cons.
  destruct (f r); cbn; [|by apply IH]. apply NoDup_cons. split; [|by apply IH].
  intros (r' & Hid & [Hin _]%elem_of_filter_bool)%list_elem_of_fmap. apply Hr. apply list_elem_of_fmap. eauto.
Qed.

Lemma sound_retain per f p : sound P per p → sound P per (Queue.retain f p).
Proof.
  intros [Hnd HP Hrd Hlen Hsh]. split; cbn.
  - by apply ids_retain.
  - apply Forall_forall. intros r [Hr _]%elem_of_filter_bool. by eapply Forall_forall in HP.
  - apply Forall_forall. intros r [Hr _]%elem_of_filter_bool. by eapply Forall_forall in Hrd.
  - pose proof (filter_length_le f (requests p)). lia.
  - intros c. etransitivity; [apply share_retain|apply Hsh].
Qed.

(** Writing a decision changes neither the ids nor the shares. *)
Lemma write_first_fields {A} (g : PersistedRequest → A) f d l :
  (∀ r, g (Queue.with_decision d r) = g r) →
  g <$> Queue.write_first f (Queue.with_decision d) l = g <$> l.
Proof.
  intros Hg. induction l as [|r l IH]; [done|]. cbn. destruct (f r); cbn; [by rewrite Hg|by rewrite IH].
Qed.

Lemma length_filter_fmap {A C} (g : A → C) (f : C → bool) (h : A → bool) l :
  (∀ x, h x = f (g x)) → length (List.filter h l) = length (List.filter f (g <$> l)).
Proof. intros H. induction l as [|x l IH]; [done|]. cbn. rewrite H. by destruct (f (g x)); cbn; rewrite IH. Qed.

Lemma share_bootstraps c l :
  share c l = length (List.filter (λ b, bool_decide (b = c)) ((λ r, bootstrap (stored_requester r)) <$> l)).
Proof. unfold share. by apply length_filter_fmap. Qed.

Lemma sound_decided per id d p :
  (∀ r, r ∈ requests p → Queue.waiting id r = true → P (Queue.with_decision d r)) →
  sound P per p → sound P per (Queue.decided id d p).
Proof.
  intros Hd [Hnd HP Hrd Hlen Hsh]. split; cbn [requests Queue.decided].
  - by rewrite write_first_fields.
  - clear Hnd Hlen Hrd Hsh. induction (requests p) as [|r l IH]; [done|].
    cbn. apply Forall_cons in HP as [Hr Hl]. destruct (Queue.waiting id r) eqn:Ew; constructor; try done.
    + apply Hd; [by left|done].
    + apply IH; [|done]. intros r' Hr'. apply Hd. by right.
  - revert Hrd. generalize (requests p) as l. induction l as [|r l IH]; [done|].
    cbn. intros [Hr Hl]%Forall_cons. destruct (Queue.waiting id r); constructor; auto.
  - rewrite <- (length_fmap stored_id), write_first_fields, length_fmap by done. done.
  - intros c. rewrite share_bootstraps, write_first_fields by done. rewrite <- share_bootstraps. apply Hsh.
Qed.

Lemma sound_take per r now p :
  P r → readable r → sound P per p → sound P per (Queue.take r now MAX_PENDING per p).1.
Proof.
  intros HPr Hr Hs. unfold Queue.take. destruct (Queue.ended _ _); [done|].
  destruct (Queue.find _ p) eqn:Ef; [done|].
  destruct (Nat.leb_spec MAX_PENDING (length (requests p))); [done|].
  destruct (Nat.leb_spec per (share (bootstrap (stored_requester r)) (requests p))) as [|Hper]; unfold share in *.
  { rewrite (proj2 (Nat.leb_le _ _)) by done. done. }
  rewrite (proj2 (Nat.leb_gt _ _)) by done. destruct Hs as [Hnd HP Hrd Hlen Hsh]. split; cbn [requests fst].
  - rewrite fmap_app. cbn. apply NoDup_app. split_and!; [done| |apply NoDup_singleton].
    intros i (r' & -> & Hr')%list_elem_of_fmap Hi%list_elem_of_singleton.
    pose proof (head_filter_None _ _ r' Ef Hr') as Hn. unfold Queue.named in Hn.
    by rewrite bool_decide_eq_false in Hn.
  - apply Forall_app. split; [done|by constructor].
  - apply Forall_app. split; [done|by constructor].
  - rewrite length_app. cbn. lia.
  - intros c. rewrite share_app. unfold share at 2. cbn. unfold Queue.of_bootstrap at 1.
    case_bool_decide; cbn; [subst c; unfold share; lia|]. specialize (Hsh c). lia.
Qed.

(** *** Every act but a withdrawal and the window's end keeps the requests *)

Lemma extends_decided id d p : extends p (Queue.decided id d p).
Proof.
  intros r Hr. cbn. induction (requests p) as [|a l IH]; [by apply elem_of_nil in Hr|]. cbn.
  destruct (Queue.waiting id a) eqn:Ew.
  - apply elem_of_cons in Hr as [->|Hr].
    + exists (Queue.with_decision d a). split; [by left|]. apply follows_with_decision.
      by apply waiting_true in Ew as [_ ?].
    + exists r. split; [by right|apply follows_refl].
  - apply elem_of_cons in Hr as [->|Hr].
    + exists a. split; [by left|apply follows_refl].
    + destruct (IH Hr) as (r' & ? & ?). exists r'. split; [by right|done].
Qed.

Lemma extends_take r now max per p : extends p (Queue.take r now max per p).1.
Proof.
  unfold Queue.take. repeat case_match; cbn; try reflexivity.
  intros r' Hr'. exists r'. split; [apply elem_of_app; by left|apply follows_refl].
Qed.

Lemma until_take r now max per p : stored_until (Queue.take r now max per p).1 = stored_until p.
Proof. unfold Queue.take. by repeat case_match. Qed.

Lemma decided_here id d p r per :
  sound P per p → r ∈ requests p → stored_id r = id → stored_decision r = None →
  Queue.with_decision d r ∈ requests (Queue.decided id d p).
Proof.
  intros Hs Hr Hid Hd. destruct Hs as [Hnd _ _ _ _]. cbn. revert Hnd Hr.
  generalize (requests p) as l. induction l as [|a l IH]; cbn; [by intros _ ?%elem_of_nil|].
  intros [Ha Hnd]%NoDup_cons [->|Hr]%elem_of_cons.
  - rewrite (proj2 (waiting_true id a)) by done. by left.
  - destruct (Queue.waiting id a) eqn:Ew; [|right; by apply IH].
    apply waiting_true in Ew as [Haid _]. exfalso. apply Ha. rewrite Haid, <- Hid.
    apply list_elem_of_fmap. eauto.
Qed.
End Sound.

(** ** Memory *)

Section Backed.
Context (hex_decode : string → option (list N)).

(** The stored request an entry stands for: the same, decided at least as far. *)
Definition agrees (e : Entry) (r : PersistedRequest) : Prop :=
  ∃ e', entry_restored hex_decode r = Ok e' ∧ pending e' = pending e ∧ entry_csr e' = entry_csr e ∧
    entry_uid e' = entry_uid e ∧ (decision e = None ∨ decision e = decision e').

Lemma agrees_id e r : agrees e r → stored_id r = pending_id (pending e).
Proof.
  intros (e' & He & Hp & _). rewrite <- Hp. unfold entry_restored in He. case_match; by simplify_eq.
Qed.

Lemma agrees_follows e r r' : agrees e r → follows r r' → agrees e r'.
Proof.
  intros (e' & He & Hp & Hc & Hu & Hd) (H1 & H2 & H3 & H4 & H5 & H6 & H7).
  unfold entry_restored in He. destruct (hex_decode (stored_uid r)) as [uid|] eqn:Eh; [|done].
  simplify_eq/=. unfold agrees, entry_restored. rewrite H6, Eh. eexists. split; [done|]. cbn.
  rewrite H1, H2, H3, H4, H5. split_and!; try done. destruct H7 as [H7|H7]; [|rewrite H7; done].
  rewrite H7 in Hd. left. by destruct Hd.
Qed.

Definition held_by (p : Persisted) (e : Entry) : Prop := ∃ r, r ∈ requests p ∧ agrees e r.

Definition backed_entries (m : gmap string Entry) (p : Persisted) : Prop :=
  ∀ id e, m !! id = Some e → pending_id (pending e) = id ∧ held_by p e.

Record backed (q : QueueState) (p : Persisted) : Prop := mkBacked {
  backed_by : backed_entries (entries q) p;
  backed_open : window_until_ms q ≠ None → stored_until p ≠ None;
}.

Lemma backed_default p : backed queue_default p.
Proof. by split; cbn; [intros id e ?%lookup_empty_Some|]. Qed.

Lemma backed_extends q p p' :
  extends p p' → (stored_until p ≠ None → stored_until p' ≠ None) → backed q p → backed q p'.
Proof.
  intros Hx Hu [Hb Ho]. split; [|auto]. intros id e He. destruct (Hb id e He) as [Hid (r & Hr & Ha)].
  split; [done|]. destruct (Hx r Hr) as (r' & Hr' & Hf). exists r'. split; [done|]. by eapply agrees_follows.
Qed.

End Backed.

(** *** Bounds of what is held in memory *)

Lemma entries_within (m : gmap string Entry) (l : list PersistedRequest) :
  (∀ id e, m !! id = Some e → id ∈ (stored_id <$> l)) → (size m ≤ length l)%nat.
Proof.
  intros H. rewrite <- size_dom. rewrite <- (length_fmap stored_id l).
  transitivity (size (list_to_set (C := gset string) (stored_id <$> l))).
  - apply subseteq_size. intros id [e He]%elem_of_dom. apply elem_of_list_to_set. eauto.
  - generalize (stored_id <$> l) as k. intros k. induction k as [|i k IH]; [done|].
    cbn. rewrite size_union_alt, size_singleton. assert (size (list_to_set (C := gset string) k ∖ {[i]}) ≤ size (list_to_set (C := gset string) k))%nat by (apply subseteq_size; set_solver). lia.
Qed.

Lemma lookup_dropped (l : list string) (m : gmap string Entry) id e :
  foldl (λ m id, delete id m) m l !! id = Some e ↔ id ∉ l ∧ m !! id = Some e.
Proof.
  revert m. induction l as [|i l IH]; intros m; cbn; [set_solver|].
  rewrite IH, lookup_delete_Some. set_solver.
Qed.

Lemma dropped_sub (l : list string) (m : gmap string Entry) : foldl (λ m id, delete id m) m l ⊆ m.
Proof. apply map_subseteq_spec. intros id e. rewrite lookup_dropped. naive_solver. Qed.

(** ** Every operation keeps it *)

Section Coherent.
Context {B : Type} {port : EnrolmentStore B} (stored : B → Persisted → Prop).
Context {sole : SoleWriterQueue stored}.
Context (hex_decode : string → option (list N)).
Notation Enr := (Enrolment B).
Notation sound := (sound hex_decode).
Notation backed := (backed hex_decode).
Notation agrees := (agrees hex_decode).

(** The store of [s] holds [p], which is sound and backs what [s] holds. *)
Record at_document (P : PersistedRequest → Prop) (s : Enr) (b : B) (p : Persisted) : Prop := mkAt {
  at_store : queue_store s = Some b;
  at_stored : stored b p;
  at_sound : sound P (max_per_bootstrap s) p;
  at_backed : backed (queue s) p;
}.

Definition coherent (P : PersistedRequest → Prop) (s : Enr) : Prop := ∃ b p, at_document P s b p.

Lemma does_cases {A} (act : Eff B EnrolmentError A) f b p b' x :
  does stored act f → stored b p → act b = (b', x) →
  ∃ p', stored b' p' ∧ (p' = p ∨ p' = (f p).1) ∧ (∀ a, x = Ok a → p' = (f p).1 ∧ a = (f p).2).
Proof.
  intros Hd Hst Hx. destruct (Hd b p b' x Hst Hx) as [[-> H]|[Hf [H|H]]].
  - exists (f p).1. naive_solver.
  - exists p. split_and!; [done|by left|]. by intros a ->.
  - exists (f p).1. split_and!; [done|by right|]. by intros a ->.
Qed.

(** *** The window *)

Lemma sound_end_window P per until p : sound P per p → sound P per (Queue.end_window until p).1.
Proof. intros H. unfold Queue.end_window. case_match; [apply sound_default|done]. Qed.

Lemma coherent_expire P now s s' w :
  coherent P s → expire now s = (s', w) →
  coherent P s' ∧ max_per_bootstrap s' = max_per_bootstrap s ∧ (w ≠ None → s' = s).
Proof.
  intros Hco. pose proof Hco as (b & p & [Hb Hst Hs Hbk]). unfold expire.
  destruct (window_until_ms (queue s)) as [until|]; [|intros [= <- <-]; naive_solver].
  destruct (now <? until)%N; [intros [= <- <-]; naive_solver|]. cbn. rewrite Hb. cbn.
  destruct (store_end_window until b) as [b' x] eqn:E.
  destruct (does_cases _ _ _ _ _ _ (end_window_law until) Hst E) as (p' & Hst' & Hp' & _).
  intros [= <- <-]. split_and!; [|done|done]. exists b', p'. split; cbn; try done.
  destruct Hp' as [->| ->]; [done|by apply sound_end_window].
Qed.

Lemma coherent_open P now secs s s' x :
  coherent P s → open now secs s = Some (s', x) → coherent P s' ∧ max_per_bootstrap s' = max_per_bootstrap s.
Proof.
  intros Hco. pose proof Hco as (b & p & [Hb Hst Hs Hbk]). unfold open.
  destruct (negb _); [intros [= <- <-]; naive_solver|].
  destruct (window_end now secs) as [until|]; [|done]. cbn. unfold on_store. rewrite Hb.
  destruct (store_open_window until b) as [b' y] eqn:E.
  destruct (does_cases _ _ _ _ _ _ (open_window_law until) Hst E) as (p' & Hst' & Hp' & Hok).
  assert (sound P (max_per_bootstrap s) p' ∧ backed (queue s) p') as [Hs' Hbk'].
  { destruct Hp' as [->| ->]; [done|]. split.
    - destruct Hs. by split.
    - eapply backed_extends; [| |exact Hbk]; [|done]. intros r Hr. exists r. split; [done|apply follows_refl]. }
  destruct y as [[]|e]; intros [= <- <-]; (split; [|done]); exists b', p'; split; cbn; try done.
  destruct (Hok tt eq_refl) as [-> _]. destruct Hbk'. by split.
Qed.

Lemma coherent_close P s s' x :
  coherent P s → close s = (s', x) → coherent P s' ∧ max_per_bootstrap s' = max_per_bootstrap s.
Proof.
  intros (b & p & [Hb Hst Hs Hbk]). unfold close, on_store. cbn. rewrite Hb.
  destruct (store_close_window b) as [b' y] eqn:E.
  destruct (does_cases _ _ _ _ _ _ close_window_law Hst E) as (p' & Hst' & Hp' & _).
  intros [= <- <-]. split; [|done]. exists b', p'. split; cbn; try done.
  destruct Hp' as [->| ->]; [done|apply sound_default].
Qed.

(** *** Requests *)

Lemma backed_insert q p id e :
  backed q p → pending_id (pending e) = id → held_by hex_decode p e →
  backed (mkQueueState (window_until_ms q) (<[id := e]> (entries q)) (over_share q)) p.
Proof.
  intros [Hb Ho] Hid He. split; cbn; [|done]. intros id' e'.
  destruct (decide (id = id')) as [<-|Hne].
  - rewrite lookup_insert_eq. by intros [= <-].
  - rewrite lookup_insert_ne by done. apply Hb.
Qed.

Section Filing.
Context (hex_encode : list N → string).
Hypothesis hex_round_trip : ∀ bytes, hex_decode (hex_encode bytes) = Some bytes.

Lemma agrees_persisted e : agrees e (entry_persisted hex_encode e).
Proof.
  unfold agrees, entry_restored, entry_persisted. cbn. rewrite hex_round_trip. eexists. split; [done|].
  cbn. split_and!; try done; [by destruct (pending e)|by right].
Qed.

Lemma agrees_restored r e : entry_restored hex_decode r = Ok e → agrees e r.
Proof. intros H. exists e. naive_solver. Qed.

(** The request as it is filed. *)
Definition filed (arrived : N) (request : Request) (requester : Requester) : PersistedRequest :=
  mkPersistedRequest (request_key request) arrived (request_key request) requester (csr_pem request)
    (hex_encode (request_uid request)) None.

Lemma take_held_stored r now max per p held :
  (Queue.take r now max per p).2 = TookHeld held →
  held ∈ requests p ∧ stored_id held = stored_id r ∧ (Queue.take r now max per p).1 = p.
Proof.
  unfold Queue.take. destruct (Queue.ended _ _); [done|]. destruct (Queue.find _ p) eqn:Ef.
  - intros [= ->]. apply head_filter_Some in Ef as [? Hn]. unfold Queue.named in Hn.
    by apply bool_decide_eq_true in Hn.
  - by repeat case_match.
Qed.

Lemma take_added r now max per p :
  (Queue.take r now max per p).2 = TookAdded → r ∈ requests (Queue.take r now max per p).1.
Proof. unfold Queue.take. repeat case_match; try done. intros _. cbn. apply elem_of_app. right. by left. Qed.

(** A certificate is answered only from a stored request of that key, approved with it. *)
Definition collected (P : PersistedRequest → Prop) (key : string) (a : Submitted) : Prop :=
  ∀ cert, a = SubmittedIssued cert →
    ∃ r, P r ∧ stored_id r = key ∧ stored_decision r = Some (Approved cert).

Lemma collected_agrees P per p key e r :
  sound P per p → r ∈ requests p → agrees e r → stored_id r = key → collected P key (answer (decision e)).
Proof.
  intros [_ HP _ _ _] Hr (e' & He & _ & _ & _ & Hd) Hid cert Ha. exists r.
  split; [by eapply Forall_forall in HP|]. split; [done|].
  unfold entry_restored in He. case_match; [|done]. simplify_eq/=.
  destruct (decision e) as [[]|]; cbn in Ha; try done. simplify_eq. by destruct Hd.
Qed.

Lemma coherent_submit P now arrived taken request requester s s' a :
  P (filed arrived request requester) → coherent P s →
  submit hex_encode hex_decode now arrived taken request requester s = (s', a) →
  coherent P s' ∧ max_per_bootstrap s' = max_per_bootstrap s ∧ collected P (request_key request) a.
Proof.
  intros HP Hco. unfold submit. destruct (expire now s) as [s1 w] eqn:Ee.
  apply (coherent_expire P) in Ee as (Hco1 & Hper & _); [|done]. rewrite <- Hper. clear Hper.
  destruct w as [until|]; [|by intros [= <- <-]].
  pose proof Hco1 as (b & p & [Hb Hst Hs Hbk]).
  destruct (entries (queue s1) !! request_key request) as [e|] eqn:Ek.
  { intros [= <- <-]. split_and!; [done|done|]. destruct (backed_by _ _ _ Hbk _ _ Ek) as [Hid (r & Hr & Ha)].
    eapply collected_agrees; [done|done|done|]. by rewrite (agrees_id _ _ _ Ha). }
  rewrite Hb. cbn.
  set (r := filed arrived request requester). change (entry_persisted hex_encode _) with r.
  destruct (store_take r taken MAX_PENDING (max_per_bootstrap s1) b) as [b' x] eqn:E.
  destruct (does_cases _ _ _ _ _ _ (take_law _ _ _ _) Hst E) as (p' & Hst' & Hp' & Hok).
  assert (sound P (max_per_bootstrap s1) p' ∧ backed (queue s1) p') as [Hs' Hbk'].
  { destruct Hp' as [->| ->]; [done|]. split.
    - apply sound_take; try done. split; [done|]. exists (request_uid request). cbn. apply hex_round_trip.
    - eapply backed_extends; [apply extends_take| |done]. by rewrite until_take. }
  assert (Hkeep : ∀ q, backed q p' → coherent P (mkEnrolment q (max_per_bootstrap s1) (Some b') (changes s1) (audit_of s1))
     ∧ coherent P (mkEnrolment q (max_per_bootstrap s1) (Some b') (changes s1 + 1) (audit_of s1))).
  { intros q Hq. split; exists b', p'; by split. }
  destruct x as [tk|e]; cbn; [|intros [= <- <-]; split_and!; [by apply Hkeep|done|done]].
  destruct (Hok tk eq_refl) as [-> Htk].
  destruct tk as [|held| | |]; cbn; try (intros [= <- <-]; split_and!; [by apply Hkeep|done|done]).
  - intros [= <- <-]. split_and!; [|done|done]. eapply Hkeep, backed_insert; [done|done|].
    exists r. split; [by apply take_added|]. exact (agrees_persisted (mkEntry (mkPending (request_key request) arrived (request_key request) requester)
      (csr_pem request) (request_uid request) None)).
  - destruct (entry_restored hex_decode held) as [e|] eqn:Er; cbn;
      [|intros [= <- <-]; split_and!; [by apply Hkeep|done|done]].
    symmetry in Htk. apply take_held_stored in Htk as (Hin & Hid & Hsame). rewrite Hsame in *.
    pose proof (agrees_restored _ _ Er) as Ha.
    intros [= <- <-]. split_and!; [|done|].
    + apply Hkeep, backed_insert; [done| |by exists held]. by rewrite <- (agrees_id _ _ _ Ha).
    + by eapply collected_agrees.
  - intros [= <- <-]. split_and!; [|done|done]. apply Hkeep. destruct Hbk'. by split.
Qed.

End Filing.

Lemma coherent_pending P now s s' l :
  coherent P s → pending_list now s = (s', l) → coherent P s' ∧ max_per_bootstrap s' = max_per_bootstrap s.
Proof.
  unfold pending_list. destruct (expire now s) as [s1 w] eqn:Ee. intros Hco [= <- <-].
  apply (coherent_expire P) in Ee as (? & ? & _); done.
Qed.
(** *** Withdrawals *)

(** What a retained document keeps, for the entries that are kept with it. *)
Lemma backed_retain q q' p f :
  backed q p → window_until_ms q' = window_until_ms q → entries q' ⊆ entries q →
  (∀ id e r, entries q' !! id = Some e → r ∈ requests p → agrees e r → f r = true) →
  backed q' (Queue.retain f p).
Proof.
  intros [Hb Ho] Hw Hsub Hf. split; [|by rewrite Hw]. intros id e He.
  destruct (Hb id e) as [Hid (r & Hr & Ha)]; [by eapply lookup_weaken|]. split; [done|].
  exists r. split; [|done]. cbn. apply elem_of_filter_bool. eauto.
Qed.

Lemma backed_sub q q' p :
  backed q p → window_until_ms q' = window_until_ms q → entries q' ⊆ entries q → backed q' p.
Proof.
  intros [Hb Ho] Hw Hsub. split; [|by rewrite Hw]. intros id e He. apply Hb. by eapply lookup_weaken.
Qed.

(** The withdrawal of the requests dropped from memory. *)
Lemma coherent_store_withdraw P s l q :
  coherent P s → window_until_ms q = window_until_ms (queue s) →
  entries q = foldl (λ m id, delete id m) (entries (queue s)) l →
  coherent P (on_store_logged (store_withdraw l) (set_queue q s)).
Proof.
  intros (b & p & [Hb Hst Hs Hbk]) Hw Hq. unfold on_store_logged, on_store. cbn. rewrite Hb.
  destruct (store_withdraw l b) as [b' x] eqn:E.
  destruct (does_cases _ _ _ _ _ _ (withdraw_law l) Hst E) as (p' & Hst' & Hp' & _).
  cbn. exists b', p'. split; cbn; try done.
  - destruct Hp' as [->| ->]; [done|by apply sound_retain].
  - destruct Hp' as [->| ->].
    + eapply backed_sub; [done|done|]. rewrite Hq. apply dropped_sub.
    + eapply backed_retain; [done|done|rewrite Hq; apply dropped_sub|].
      intros id e r He Hr Ha. rewrite Hq in He. apply lookup_dropped in He as [Hid He].
      apply orb_true_iff. right. rewrite bool_decide_false; [done|].
      rewrite (agrees_id _ _ _ Ha). by destruct (backed_by _ _ _ Hbk _ _ He) as [-> _].
Qed.

Lemma coherent_changed P s : coherent P s → coherent P (changed s).
Proof. intros (b & p & []). exists b, p. by split. Qed.

Lemma coherent_withdrawn P id s :
  coherent P s → coherent P (withdrawn id s) ∧ max_per_bootstrap (withdrawn id s) = max_per_bootstrap s.
Proof.
  intros Hco. split.
  - apply coherent_changed. by apply (coherent_store_withdraw P s [id]).
  - unfold withdrawn, on_store_logged, on_store. cbn. repeat case_match; cbn in *; by simplify_eq/=.
Qed.

Lemma coherent_drop P l s : coherent P s → coherent P (drop_entries l s).
Proof.
  intros (b & p & [Hb Hst Hs Hbk]). exists b, p. split; cbn; try done.
  eapply backed_sub; [done|done|]. apply dropped_sub.
Qed.

Lemma per_on_store_logged act (s : Enr) : max_per_bootstrap (on_store_logged act s) = max_per_bootstrap s.
Proof. unfold on_store_logged, on_store. destruct (queue_store s); [|done]. by destruct (act _). Qed.

Lemma coherent_withdraw P f s s' n :
  coherent P s → withdraw f s = (s', n) → coherent P s' ∧ max_per_bootstrap s' = max_per_bootstrap s.
Proof.
  intros Hco. unfold withdraw. destruct (0 <? _)%nat; intros [= <- <-].
  - split; [|cbn; by rewrite per_on_store_logged]. apply coherent_changed.
    by apply coherent_store_withdraw.
  - split; [by apply coherent_drop|done].
Qed.

Lemma waiting_of_spec named (s : Enr) p id :
  backed (queue s) p →
  id ∈ waiting_of named s ↔
    ∃ e, entries (queue s) !! id = Some e ∧ entry_waits e = true ∧ named (entry_bootstrap e) = true.
Proof.
  intros Hbk. unfold waiting_of. rewrite list_elem_of_fmap. setoid_rewrite elem_of_filter_bool.
  setoid_rewrite andb_true_iff. setoid_rewrite elem_of_btree_values. split.
  - intros (e & -> & [id' He] & Hw). exists e. destruct (backed_by _ _ _ Hbk _ _ He) as [<- _]. done.
  - intros (e & He & Hw). exists e. destruct (backed_by _ _ _ Hbk _ _ He) as [-> _]. naive_solver.
Qed.

Lemma coherent_withdraw_revoked P issuers sn s s' n :
  coherent P s → withdraw_revoked issuers sn s = (s', n) →
  coherent P s' ∧ max_per_bootstrap s' = max_per_bootstrap s.
Proof.
  intros (b & p & [Hb Hst Hs Hbk]). unfold withdraw_revoked. set (named := λ c, _ && _). cbn. rewrite Hb.
  set (l := waiting_of named s).
  destruct (store_withdraw_bootstrap issuers sn b) as [b' x] eqn:E.
  destruct (does_cases _ _ _ _ _ _ (withdraw_bootstrap_law _ _) Hst E) as (p' & Hst' & Hp' & _).
  assert (coherent P (set_store (Some b') (drop_entries l s))) as Hco.
  { exists b', p'. split; cbn; try done.
    - destruct Hp' as [->| ->]; [done|by apply sound_retain].
    - destruct Hp' as [->| ->]; [eapply backed_sub; [done|done|apply dropped_sub]|].
      eapply backed_retain; [done|done|apply dropped_sub|]. cbn. intros id e r He Hr Ha.
      apply lookup_dropped in He as [Hid He]. unfold l in Hid. rewrite waiting_of_spec in Hid by done.
      destruct Ha as (e' & Hr' & Hpend & _ & _ & Hd). unfold entry_restored in Hr'. case_match; [|done].
      simplify_eq/=. destruct (Queue.undecided r) eqn:Eu; [|done]. cbn.
      apply not_false_iff_true. intros Hf. apply Hid. exists e. split; [done|].
      unfold Queue.undecided in Eu. destruct (stored_decision r); [done|]. unfold entry_waits.
      split; [by destruct Hd as [->| ->]|]. unfold named, entry_bootstrap. rewrite <- Hpend. cbn.
      rewrite orb_false_iff, !negb_false_iff in Hf. by destruct Hf as [-> ->]. }
  intros [= <- <-]. split; [|by case_match]. case_match; [by apply coherent_changed|done].
Qed.
(** *** Decisions *)

Lemma coherent_weaken (P P' : PersistedRequest → Prop) s : (∀ r, P r → P' r) → coherent P s → coherent P' s.
Proof. intros H (b & p & []). exists b, p. split; try done. by eapply sound_weaken. Qed.

Lemma coherent_drop_entry P id s : coherent P s → coherent P (drop_entry id s).
Proof. intros H. by apply (coherent_drop P [id] s). Qed.

Lemma waiting_entry_spec id (s : Enr) e :
  waiting_entry id s = Some e → entries (queue s) !! id = Some e ∧ decision e = None.
Proof.
  unfold waiting_entry, entry_waits. destruct (entries (queue s) !! id) as [e'|]; [|done].
  destruct (decision e') eqn:Ed; [done|]. intros [= ->]. done.
Qed.

(** A decision the store wrote, held in memory. *)
Lemma backed_decided P per q p id d e r :
  sound P per p → backed q p → entries q !! id = Some e → decision e = None →
  Queue.find (Queue.waiting id) p = Some r →
  backed (mkQueueState (window_until_ms q) (alter (entry_decided d) id (entries q)) (over_share q))
    (Queue.decided id d p).
Proof.
  intros Hs Hbk He Hd Hf. pose proof (backed_extends _ _ _ _ (extends_decided id d p) (λ H, H) Hbk) as Hbk'.
  apply head_filter_Some in Hf as [Hr [Hrid Hrd]%waiting_true].
  destruct (backed_by _ _ _ Hbk _ _ He) as [Hid (r' & Hr' & Ha)].
  assert (r' = r) as ->.
  { eapply (sound_by_id hex_decode P per p); try done. by rewrite (agrees_id _ _ _ Ha), Hid. }
  split; cbn; [|apply (backed_open _ _ _ Hbk')]. intros i e'. destruct (decide (i = id)) as [->|Hne].
  - rewrite lookup_alter_eq, He. intros [= <-]. split; [done|]. exists (Queue.with_decision d r). split.
    + by eapply (decided_here hex_decode P id d p r per).
    + destruct Ha as (e' & He' & Hp & Hc & Hu & _). unfold entry_restored in He'. case_match; [|done].
      simplify_eq/=. unfold agrees, entry_restored. cbn. rewrite H. eexists. split; [done|]. cbn. naive_solver.
  - rewrite lookup_alter_ne by done. apply (backed_by _ _ _ Hbk').
Qed.

Lemma coherent_reject P now id s s' x :
  (∀ r, P r → P (Queue.with_decision Rejected r)) → coherent P s → reject now id s = (s', x) →
  coherent P s' ∧ max_per_bootstrap s' = max_per_bootstrap s.
Proof.
  intros HP Hco. unfold reject. destruct (expire now s) as [s1 w] eqn:Ee.
  apply (coherent_expire P) in Ee as (Hco1 & Hper & _); [|done]. rewrite <- Hper. clear Hper.
  destruct (waiting_entry id s1) as [e|] eqn:Ew; [|by intros [= <- <-]].
  apply waiting_entry_spec in Ew as [He Hd]. pose proof Hco1 as (b & p & [Hb Hst Hs Hbk]).
  unfold write_decision. rewrite Hb. destruct (store_decide id Rejected b) as [b' y] eqn:E. cbn.
  destruct (does_cases _ _ _ _ _ _ (decide_law _ _) Hst E) as (p' & Hst' & Hp' & Hok).
  assert (Hdecided : sound P (max_per_bootstrap s1) (Queue.decided id Rejected p)).
  { apply sound_decided; [|done]. intros r Hr _. apply HP. by eapply Forall_forall in Hr; [|apply (sound_all _ _ _ _ Hs)]. }
  assert (sound P (max_per_bootstrap s1) p' ∧ backed (queue s1) p') as [Hs' Hbk'].
  { destruct Hp' as [->| ->]; [done|]. unfold Queue.decide.
    destruct (Queue.find _ p); [|done]. split; [done|]. by eapply backed_extends; [apply extends_decided|..]. }
  assert (coherent P (set_store (Some b') s1)) as Hco' by (exists b', p'; by split).
  destruct y as [dec|er]; cbn; [|by intros [= <- <-]].
  destruct (Hok dec eq_refl) as [Hpe Hdec].
  destruct dec; cbn; [|intros [= <- <-]; split; [by apply coherent_drop_entry|done]|by intros [= <- <-]].
  intros [= <- <-]. split; [|done]. apply coherent_changed. exists b', p'. split; cbn; try done.
  rewrite Hpe. unfold Queue.decide in *. destruct (Queue.find (Queue.waiting id) p) eqn:Ef; [|done].
  by eapply backed_decided.
Qed.

Section Approvals.
Context {X : Type} (signer : Signer) (host : string).
Context (record : Signed → list N → CertId → Eff X DecisionError unit).
Context (is_revoked : CertId → X → X * bool).

(** Whatever an approval signs may be written as the decision of the request it signed, or not. *)
Lemma coherent_approve (P P' : PersistedRequest → Prop) now id s w s' w' x :
  (∀ r, P r → P' r) →
  (∀ r e subject c w1 d, P r → agrees e r → stored_decision r = None → entry_bootstrap e = c →
     carried (stored_requester r) = Ok subject → is_revoked c w = (w1, false) →
     sign_entry signer host record e subject w1 = (w', Ok d) → P' (Queue.with_decision d r)) →
  coherent P s → approve signer host record is_revoked now id s w = ((s', w'), x) →
  coherent P' s' ∧ max_per_bootstrap s' = max_per_bootstrap s.
Proof.
  intros HPP Hsign Hco. unfold approve. destruct (expire now s) as [s1 u] eqn:Ee.
  apply (coherent_expire P) in Ee as (Hco1 & Hper & _); [|done]. rewrite <- Hper. clear Hper Hco.
  pose proof (coherent_weaken P P' s1 HPP Hco1) as HcoP.
  destruct (waiting_entry id s1) as [e|] eqn:Ew; [|by intros [= <- <- <-]].
  apply waiting_entry_spec in Ew as [He Hd].
  destruct (is_revoked (entry_bootstrap e) w) as [w1 refused] eqn:Erev.
  destruct refused; [intros [= <- <- <-]; by apply coherent_withdrawn|].
  destruct (carried (pending_requester (pending e))) as [subject|why] eqn:Ec; [|by intros [= <- <- <-]].
  destruct Hco1 as (b & p & [Hb Hst Hs Hbk]). rewrite Hb.
  destruct (store_approve id (entry_bootstrap e) (sign_entry signer host record e subject) (b, w1))
    as [[b' w2] y] eqn:E. cbn.
  apply (approve_law X id _ _ _ p) in E; [|done].
  destruct (backed_by _ _ _ Hbk _ _ He) as [Hid (r & Hr & Ha)].
  (* what the store holds now, and what of it was signed in the world the approval leaves *)
  assert (Hdecided : ∀ d, w2 = w' → Queue.find (Queue.waiting id) p ≠ None →
    sign_entry signer host record e subject w1 = (w2, Ok d) → sound P' (max_per_bootstrap s1) (Queue.decided id d p)).
  { intros d -> _ Hsg. apply sound_decided; [|by eapply sound_weaken]. intros r' Hr' [Hid' Hd']%waiting_true.
    assert (r' = r) as ->.
    { eapply (sound_by_id hex_decode P (max_per_bootstrap s1) p); try done. by rewrite (agrees_id _ _ _ Ha), Hid. }
    eapply (Hsign r e subject); try done.
    - by eapply Forall_forall in Hr; [|apply (sound_all _ _ _ _ Hs)].
    - destruct Ha as (e' & He' & Hp & _). unfold entry_restored in He'. case_match; [|done]. simplify_eq/=.
      by rewrite <- Hp in Ec. }
  assert (Hkeep : ∀ d, w2 = w' → Queue.find (Queue.waiting id) p ≠ None →
    sign_entry signer host record e subject w1 = (w2, Ok d) →
    stored b' (Queue.decided id d p) → coherent P' (set_store (Some b') s1)).
  { intros d Hw Hf Hsg Hst'. exists b', (Queue.decided id d p). split; cbn; try done; [by apply Hdecided|].
    by eapply backed_extends; [apply extends_decided|..]. }
  assert (Hsame : stored b' p → coherent P' (set_store (Some b') s1)).
  { intros Hst'. exists b', p. split; cbn; try done. by eapply sound_weaken. }
  inversion E as [b0 er Hst' | b0 Hst' Hf | b0 r0 w0 er Hst' Hf Hsg | b0 r0 w0 d Hst' Hf Hsg | b0 r0 w0 d er Hst' Hf Hsg];
    subst; cbn.
  - intros [= <- <- <-]. split; [by apply Hsame|done].
  - intros [= <- <- <-]. split; [by apply coherent_drop_entry, Hsame|done].
  - destruct er; intros [= <- <- <-]; try (split; [by apply Hsame|done]).
    destruct (coherent_withdrawn P' (pending_id (pending e)) _ (Hsame Hst')) as [Hw Hwp]. split; [exact Hw|exact Hwp].
  - intros [= <- <- <-]. split; [|done]. apply coherent_changed. exists b', (Queue.decided (pending_id (pending e)) d p).
    split; cbn; try done; [apply Hdecided; congruence|]. eapply backed_decided; done.
  - intros [= <- <- <-]. split; [|done]. destruct Hst' as [Hst'|Hst']; [by apply Hsame|].
    eapply Hkeep; try done. congruence.
Qed.
End Approvals.

(** *** Starts *)

Lemma restored_id r e : entry_restored hex_decode r = Ok e → pending_id (pending e) = stored_id r.
Proof. unfold entry_restored. case_match; [|done]. by intros [= <-]. Qed.

Lemma restore_entries_spec l m0 :
  NoDup (stored_id <$> l) → Forall (readable hex_decode) l → (∀ r, r ∈ l → m0 !! stored_id r = None) →
  ∃ m, restore_entries hex_decode l m0 = Ok m ∧
    ∀ id e, m !! id = Some e ↔ m0 !! id = Some e ∨ ∃ r, r ∈ l ∧ stored_id r = id ∧ entry_restored hex_decode r = Ok e.
Proof.
  revert m0. induction l as [|r l IH]; intros m0; cbn.
  { intros _ _ _. exists m0. split; [done|]. intros id e. split; [by left|].
    intros [?|(r & ?%elem_of_nil & _)]; done. }
  intros [Hr Hnd]%NoDup_cons [(Hk & uid & Huid) Hl]%Forall_cons Hm0.
  assert (∃ e, entry_restored hex_decode r = Ok e) as [e He] by (unfold entry_restored; rewrite Huid; eauto).
  rewrite He. cbn. rewrite (restored_id _ _ He).
  destruct (IH (<[stored_id r := e]> m0)) as (m & Hm & Hspec); [done|done| |].
  { intros r' Hr'. rewrite lookup_insert_ne.
    - apply Hm0. by right.
    - intros Heq. apply Hr. rewrite Heq. apply list_elem_of_fmap. eauto. }
  exists m. split; [done|]. intros id e'. rewrite Hspec. setoid_rewrite elem_of_cons.
  destruct (decide (id = stored_id r)) as [->|Hne].
  - rewrite lookup_insert_eq. split.
    + intros [[= <-]|(r' & Hr' & Hid & _)]; [right; eauto|].
      exfalso. apply Hr. rewrite <- Hid. apply list_elem_of_fmap. eauto.
    + intros [H|(r' & [->|Hr'] & Hid & H)]; [|left; congruence|right; eauto].
      rewrite Hm0 in H by (by left). done.
  - rewrite lookup_insert_ne by done. split.
    + intros [?|(r' & ? & ? & ?)]; [by left|right; eauto 6].
    + intros [?|(r' & [->|?] & ? & ?)]; [by left|done|right; eauto].
Qed.

(** Reading a sound document gives every request of it, as it stands there. *)
Lemma read_state_spec P per loaded :
  let p := default persisted_default loaded in
  sound P per p →
  ∃ q, read_state hex_decode loaded = Ok q ∧ window_until_ms q = stored_until p ∧ over_share q = ∅ ∧
    (∀ id e, entries q !! id = Some e ↔
       ∃ r, r ∈ requests p ∧ stored_id r = id ∧ entry_restored hex_decode r = Ok e) ∧ backed q p.
Proof.
  intros p [Hnd _ Hrd _ _]. destruct loaded as [p0|]; cbn in p; subst p; cbn.
  - unfold state_restored. destruct (restore_entries_spec (requests p0) ∅) as (m & -> & Hm); try done. cbn.
    assert (∀ id e, m !! id = Some e ↔ ∃ r, r ∈ requests p0 ∧ stored_id r = id ∧ entry_restored hex_decode r = Ok e) as Hm'.
    { intros id e. rewrite Hm, lookup_empty. naive_solver. }
    eexists. split; [done|]. split_and!; cbn; try done. split; cbn; [|done].
    intros id e (r & Hr & Hid & He)%Hm'. split; [by rewrite (restored_id _ _ He)|].
    exists r. split; [done|]. by apply agrees_restored.
  - eexists. split; [done|]. split_and!; cbn; try done.
    intros id e. rewrite lookup_empty. split; [done|]. by intros (r & ?%elem_of_nil & _).
Qed.

Lemma coherent_reload P s s' x :
  coherent P s → reload hex_decode s = (s', x) → coherent P s' ∧ max_per_bootstrap s' = max_per_bootstrap s.
Proof.
  intros (b & p & [Hb Hst Hs Hbk]). unfold reload. rewrite Hb.
  destruct (store_load b) as [b' y] eqn:E. destruct (load_law _ _ _ _ Hst E) as [Hst' Hp].
  assert (coherent P (set_store (Some b') s)) as Hco by (exists b', p; by split).
  destruct y as [loaded|e]; cbn; [|by intros [= <- <-]].
  specialize (Hp loaded eq_refl). rewrite <- Hp in Hs.
  destruct (read_state_spec P _ loaded Hs) as (q & -> & Hw & _ & _ & Hbq). rewrite Hp in Hbq, Hs.
  intros [= <- <-]. split; [|done]. apply coherent_changed. exists b', p. split; cbn; try done.
  destruct Hbq. by split.
Qed.

(** A start of the Server: the queue is read from the store, under the configured share. *)
Definition start (now : N) (per : nat) (b : B) : B * result Enr EnrolmentError :=
  let (b, x) := open_on hex_decode now b in
  (b, match x with
      | Ok s => Ok (set_audit (with_max_pending_per_bootstrap per s))
      | Err e => Err e
      end).

Lemma start_spec P now per b p b' x :
  (1 ≤ per ≤ MAX_PENDING)%nat → stored b p → sound P per p → start now per b = (b', x) →
  match x with
  | Ok s => queue_store s = Some b' ∧ coherent P s ∧ max_per_bootstrap s = per ∧
      (∀ until, stored_until p = Some until → (now < until)%N →
         stored b' p ∧ window_until_ms (queue s) = Some until ∧
         ∀ id e, entries (queue s) !! id = Some e ↔
           ∃ r, r ∈ requests p ∧ stored_id r = id ∧ entry_restored hex_decode r = Ok e)
  | Err _ => ∃ p', stored b' p' ∧ sound P per p' ∧ (p' = p ∨ p' = persisted_default)
  end.
Proof.
  intros Hper Hst Hs. unfold start, open_on.
  assert (Hclamp : Nat.min (Nat.max 1 per) MAX_PENDING = per) by lia.
  destruct (store_load b) as [b1 y] eqn:E. destruct (load_law _ _ _ _ Hst E) as [Hst1 Hp].
  destruct y as [loaded|e]; cbn; [|intros [= <- <-]; naive_solver].
  specialize (Hp loaded eq_refl). rewrite <- Hp in Hs.
  destruct (read_state_spec P _ loaded Hs) as (q & -> & Hw & _ & Hm & Hbq). rewrite Hp in Hbq, Hs, Hm, Hw.
  assert (Hend : ∀ p', (p' = p ∨ p' = persisted_default) → sound P per p')
    by (intros p' [->| ->]; [done|apply sound_default]).
  destruct (window_until_ms q) as [until|] eqn:Eq.
  - destruct (N.leb_spec until now) as [Hle|Hlt].
    + destruct (store_end_window until b1) as [b2 z] eqn:E2.
      destruct (does_cases _ _ _ _ _ _ (end_window_law until) Hst1 E2) as (p2 & Hst2 & Hp2 & _).
      assert (p2 = p ∨ p2 = persisted_default) as Hp2'.
      { unfold Queue.end_window in Hp2. case_match; naive_solver. }
      destruct z; intros [= <- <-]; cbn; [|eauto 6]. rewrite Hclamp. split_and!; try done.
      * exists b2, p2. split; cbn; [done|done|rewrite Hclamp; by apply Hend|apply backed_default].
      * intros u Hu Hlt. rewrite <- Hw in Hu. simplify_eq. lia.
    + intros [= <- <-]. cbn. rewrite Hclamp. split_and!; try done.
      * exists b1, p. split; cbn; [done|done|by rewrite Hclamp|done].
      * intros u Hu _. rewrite <- Hw in Hu. simplify_eq. done.
  - case_bool_decide as Hem.
    + intros [= <- <-]. cbn. rewrite Hclamp. split_and!; try done; [|intros u Hu; by rewrite <- Hw in Hu].
      exists b1, p. split; cbn; [done|done|by rewrite Hclamp|done].
    + destruct (store_close_window b1) as [b2 z] eqn:E2.
      destruct (does_cases _ _ _ _ _ _ close_window_law Hst1 E2) as (p2 & Hst2 & Hp2 & _). cbn in Hp2.
      destruct z; intros [= <- <-]; cbn; [|eauto 6]. rewrite Hclamp. split_and!; try done; [|intros u Hu; by rewrite <- Hw in Hu].
      exists b2, p2. split; cbn; [done|done|rewrite Hclamp; by apply Hend|apply backed_default].
Qed.
End Coherent.

(** ** Runs *)

(** What is asked of the queue, and a start of the Server: after a crash, or after a start that
    failed. *)
Inductive Op :=
| OpSubmit (now arrived taken : N) (request : Request) (requester : Requester)
| OpPending (now : N)
| OpWindow (now : N)
| OpOpen (now secs : N)
| OpClose
| OpApprove (now : N) (id host : string)
| OpReject (now : N) (id : string)
| OpWithdraw (is_revoked : CertId → bool)
| OpWithdrawRevoked (issuers : list string) (sn : string)
| OpReload
| OpStart (now : N).

Inductive Answer :=
| AnsSubmitted (a : Submitted)
| AnsDecided (x : result unit DecisionError)
| AnsWindow (x : result N WindowError)
| AnsEnd (until : option N)
| AnsWithdrawn (n : nat)
| AnsPending (l : list Pending)
| AnsSaved (x : result unit EnrolmentError)
| AnsStarted (up : bool)
| AnsNone.

(** A certificate that was recorded: what was signed, under which [instance_uid], for which bootstrap
    certificate. *)
Record Noted := mkNoted {
  noted_signed : Signed;
  noted_uid : list N;
  noted_bootstrap : CertId;
}.

(** The queue of a running Server, or the store of one that does not run. *)
Inductive Process (B : Type) :=
| Up (s : Enrolment B)
| Down (b : B).
Arguments Up {B}.
Arguments Down {B}.

Record Sys (B W : Type) := mkSys {
  process : Process B;
  world : W;
  noted : list Noted;
}.
Arguments mkSys {B W}.
Arguments process {B W}.
Arguments world {B W}.
Arguments noted {B W}.

Section Runs.
Context {B W : Type} {port : EnrolmentStore B}.
Context (hex_encode : list N → string) (hex_decode : string → option (list N)).
Context (signer : Signer) (record : Signed → list N → CertId → Eff W DecisionError unit).
Context (is_revoked : CertId → W → W * bool) (per : nat).
Notation Enr := (Enrolment B).

(** [record], and the note of what it recorded. *)
Definition note_record (sg : Signed) (uid : list N) (c : CertId) : Eff (W * list Noted) DecisionError unit := λ s,
  let (w, x) := record sg uid c s.1 in
  ((w, if is_ok x then s.2 ++ [mkNoted sg uid c] else s.2), x).

Definition note_revoked (c : CertId) (s : W * list Noted) : (W * list Noted) * bool :=
  let (w, x) := is_revoked c s.1 in ((w, s.2), x).

(** One operation of a Server that runs. *)
Definition serve (op : Op) (s : Enr) (w : W * list Noted) : (Enr * (W * list Noted)) * Answer :=
  match op with
  | OpSubmit now arrived taken request requester =>
      let (s, a) := submit hex_encode hex_decode now arrived taken request requester s in
      ((s, w), AnsSubmitted a)
  | OpPending now => let (s, l) := pending_list now s in ((s, w), AnsPending l)
  | OpWindow now => let (s, until) := window now s in ((s, w), AnsEnd until)
  | OpOpen now secs =>
      match open now secs s with
      | Some (s, x) => ((s, w), AnsWindow x)
      | None => ((s, w), AnsNone)
      end
  | OpClose => let (s, x) := close s in ((s, w), AnsSaved x)
  | OpApprove now id host =>
      let (sw, x) := approve signer host note_record note_revoked now id s w in (sw, AnsDecided x)
  | OpReject now id => let (s, x) := reject now id s in ((s, w), AnsDecided x)
  | OpWithdraw f => let (s, n) := withdraw f s in ((s, w), AnsWithdrawn n)
  | OpWithdrawRevoked issuers sn => let (s, n) := withdraw_revoked issuers sn s in ((s, w), AnsWithdrawn n)
  | OpReload => let (s, x) := reload hex_decode s in ((s, w), AnsSaved x)
  | OpStart _ => ((s, w), AnsNone)
  end.

Definition boot (now : N) (b : B) : Process B * Answer :=
  let (b, x) := start hex_decode now per b in
  match x with
  | Ok s => (Up s, AnsStarted true)
  | Err _ => (Down b, AnsStarted false)
  end.

Definition perform (op : Op) (y : Sys B W) : Sys B W * Answer :=
  match op, process y with
  | OpStart now, Down b => let (pr, a) := boot now b in (mkSys pr (world y) (noted y), a)
  | OpStart now, Up s =>
      match queue_store s with
      | Some b => let (pr, a) := boot now b in (mkSys pr (world y) (noted y), a)
      | None => (y, AnsNone)
      end
  | _, Down _ => (y, AnsNone)
  | _, Up s =>
      let '((s, w), a) := serve op s (world y, noted y) in
      (mkSys (Up s) w.1 w.2, a)
  end.

Fixpoint perform_all (l : list Op) (y : Sys B W) : Sys B W :=
  match l with
  | [] => y
  | op :: l => perform_all l (perform op y).1
  end.

Lemma perform_all_snoc l op y : perform_all (l ++ [op]) y = (perform op (perform_all l y)).1.
Proof. revert y. induction l as [|a l IH]; intros y; cbn; [done|apply IH]. Qed.
End Runs.
