(* ===== verification/EnrolmentSafe.v ===== *)
(** * What the enrolment queue promises

    Over every run of [EnrolmentRuns]: the queue's bounds, where a certificate that a host collects
    comes from, and that what was answered outlives a crash. *)

From S2P Require Import Prelude RustStr Rate Placement Revocation Reports Fs Enrolment EnrolmentRuns.

Open Scope string_scope.
Open Scope list_scope.

Section Safe.
Context {B W : Type} {port : EnrolmentStore B} (stored : B → Persisted → Prop).
Context {sole : SoleWriterQueue stored}.
Context (hex_encode : list N → string) (hex_decode : string → option (list N)).
Context (signer : Signer) (record : Signed → list N → CertId → Eff W DecisionError unit).
Context (is_revoked : CertId → W → W * bool) (per : nat).
Notation perform := (perform hex_encode hex_decode signer record is_revoked per).
Notation perform_all := (perform_all hex_encode hex_decode signer record is_revoked per).
Notation serve := (serve hex_encode hex_decode signer record is_revoked).

(** The request was asked for in the run: a [submit] brought its key, its signing request, its
    [instance_uid] and who asked. *)
Definition asked (l : list Op) (r : PersistedRequest) : Prop :=
  ∃ now arrived taken request requester, OpSubmit now arrived taken request requester ∈ l ∧
    stored_id r = request_key request ∧ stored_requester r = requester ∧
    stored_csr r = csr_pem request ∧ stored_uid r = hex_encode (request_uid request).

(** The certificate is one the authority signed for this very request, with the values of the
    bootstrap certificate it came with, and one that was recorded. *)
Definition vouched (log : list Noted) (r : PersistedRequest) (cert : list N) : Prop :=
  ∃ n subject host, n ∈ log ∧ pem (noted_signed n) = cert ∧
    carried (stored_requester r) = Ok subject ∧
    sign signer (stored_csr r) host subject = Ok (noted_signed n) ∧
    noted_bootstrap n = bootstrap (stored_requester r) ∧ hex_decode (stored_uid r) = Some (noted_uid n).

Definition honest (l : list Op) (log : list Noted) (r : PersistedRequest) : Prop :=
  asked l r ∧ ∀ cert, stored_decision r = Some (Approved cert) → vouched log r cert.

Lemma honest_mono l log l' log' r :
  (∀ op, op ∈ l → op ∈ l') → (∀ n, n ∈ log → n ∈ log') → honest l log r → honest l' log' r.
Proof.
  intros Hl Hlog [(n & a & t & q & rq & Hin & H) Hv]. split; [exists n, a, t, q, rq; naive_solver|].
  intros cert Hc. destruct (Hv cert Hc) as (m & s & h & Hm & Hrest). exists m, s, h. naive_solver.
Qed.

Definition settled (l : list Op) (y : Sys B W) : Prop :=
  match process y with
  | Up s => coherent stored hex_decode (honest l (noted y)) s ∧ max_per_bootstrap s = per
  | Down b => ∃ p, stored b p ∧ sound hex_decode (honest l (noted y)) per p
  end.

(** What an approval notes is what it signed, and nothing noted is lost. *)
Lemma sign_entry_notes host e subject w w' x :
  sign_entry signer host (note_record record) e subject w = (w', x) →
  (∀ n, n ∈ w.2 → n ∈ w'.2) ∧
  ∀ d, x = Ok d → ∃ sg, sign signer (entry_csr e) host subject = Ok sg ∧ d = Approved (pem sg) ∧
    mkNoted sg (entry_uid e) (entry_bootstrap e) ∈ w'.2.
Proof.
  unfold sign_entry, eff_bind, eff_of, eff_ret, note_record.
  destruct (sign signer (entry_csr e) host subject) as [sg|why]; cbn; [|by intros [= <- <-]].
  destruct (record sg (entry_uid e) (entry_bootstrap e) w.1) as [w1 y] eqn:E.
  destruct y as [[]|er]; intros [= <- <-]; cbn; [|done]. split; [intros n; rewrite elem_of_app; by left|].
  intros d [= <-]. exists sg. split_and!; [done|done|]. apply elem_of_app. right. by left.
Qed.

Lemma revoked_notes c w w' x : note_revoked is_revoked c w = (w', x) → w'.2 = w.2.
Proof. unfold note_revoked. destruct (is_revoked c w.1). by intros [= <- <-]. Qed.

Lemma approve_notes now id host s w s' w' x :
  approve (B := B) signer host (note_record record) (note_revoked is_revoked) now id s w = ((s', w'), x) →
  coherent stored hex_decode (λ _, True) s → ∀ n, n ∈ w.2 → n ∈ w'.2.
Proof.
  intros Ha Hco. revert Ha. unfold approve. destruct (expire now s) as [s1 u] eqn:Ee.
  apply (coherent_expire stored hex_decode) with (P := λ _, True) in Ee as ((b & p & [Hb Hst _ _]) & _); [|done].
  destruct (waiting_entry id s1) as [e|]; [|by intros [= <- <- <-]].
  destruct (note_revoked is_revoked (entry_bootstrap e) w) as [w1 y] eqn:Er. apply revoked_notes in Er.
  destruct y; [intros [= <- <- <-]; by rewrite Er|].
  destruct (carried _); [|intros [= <- <- <-]; by rewrite Er]. rewrite Hb.
  destruct (store_approve _ _ _ _) as [[b' w2] z] eqn:E. cbn.
  apply (approve_law (stored := stored) _ id _ _ _ p) in E; [|done].
  assert (∀ n, n ∈ w.2 → n ∈ w2.2) as Hn.
  { inversion E as [b0 er Hst' | b0 Hst' Hf | b0 r0 w0 er Hst' Hf Hsg | b0 r0 w0 d Hst' Hf Hsg
      | b0 r0 w0 d er Hst' Hf Hsg]; subst; try (by rewrite Er); rewrite <- Er;
      by apply sign_entry_notes in Hsg as [? _]. }
  destruct z as [[]|]; try destruct why; by intros [= <- <- <-].
Qed.

Lemma honest_filed l log now arrived taken request requester :
  honest (l ++ [OpSubmit now arrived taken request requester]) log (filed hex_encode arrived request requester).
Proof.
  split; [|done]. exists now, arrived, taken, request, requester. split; [|done].
  apply elem_of_app. right. by left.
Qed.

Lemma honest_rejected l log r : honest l log r → honest l log (Queue.with_decision Rejected r).
Proof. intros [(n & a & t & q & rq & H) _]. split; [exists n, a, t, q, rq; exact H|done]. Qed.

Lemma honest_approved l log r e host subject d w w1 w' :
  honest l log r → agrees hex_decode e r → (∀ n, n ∈ log → n ∈ w'.2) →
  carried (stored_requester r) = Ok subject → note_revoked is_revoked (entry_bootstrap e) w = (w1, false) →
  sign_entry signer host (note_record record) e subject w1 = (w', Ok d) →
  honest l w'.2 (Queue.with_decision d r).
Proof.
  intros [(n & a & t & q & rq & H) _] (e' & He & Hp & Hc & Hu & _) Hlog Hcar _ Hsg.
  apply sign_entry_notes in Hsg as [_ Hd]. destruct (Hd d eq_refl) as (sg & Hsign & -> & Hin).
  split; [exists n, a, t, q, rq; exact H|]. intros cert [= <-].
  unfold entry_restored in He. case_match; [|done]. simplify_eq/=.
  exists (mkNoted sg (entry_uid e) (entry_bootstrap e)), subject, host. cbn.
  rewrite <- Hc in Hsign. split_and!; try done. unfold entry_bootstrap. by rewrite <- Hp.
Qed.

Hypothesis hex_round_trip : ∀ bytes, hex_decode (hex_encode bytes) = Some bytes.
Hypothesis per_configured : (1 ≤ per ≤ MAX_PENDING)%nat.

(** What a host is answered with a certificate for. *)
Definition hands_over (l : list Op) (log : list Noted) (op : Op) (a : Answer) : Prop :=
  ∀ now arrived taken request requester sub,
    op = OpSubmit now arrived taken request requester → a = AnsSubmitted sub →
    collected (honest l log) (request_key request) sub.

Lemma settled_serve l op s w s' w' a :
  coherent stored hex_decode (honest l w.2) s → max_per_bootstrap s = per → serve op s w = ((s', w'), a) →
  coherent stored hex_decode (honest (l ++ [op]) w'.2) s' ∧ max_per_bootstrap s' = per ∧
  hands_over (l ++ [op]) w'.2 op a.
Proof.
  intros Hco <-. pose proof (coherent_weaken stored hex_decode _ (honest (l ++ [op]) w.2) s
    (λ r, honest_mono l w.2 (l ++ [op]) w.2 r (λ o H, proj2 (elem_of_app _ _ _) (or_introl H)) (λ _ H, H)) Hco) as Hco'.
  destruct op as [now ar tk rq rr|now|now|now secs| |now id host|now id|f|iss sn| |now]; cbn.
  - destruct (submit _ _ _ _ _ _ _ s) as [s1 sub] eqn:E. intros [= <- <- <-].
    eapply (coherent_submit stored hex_decode hex_encode hex_round_trip) in E as (Hc & Hp & Hcl);
      [|apply honest_filed|done]. split_and!; [done|done|].
    intros n' a' t' q' r' sub' Heq [= <-]. by simplify_eq.
  - destruct (pending_list now s) as [s1 x] eqn:E. intros [= <- <- <-].
    by eapply (coherent_pending stored hex_decode) in E as [? ?].
  - destruct (window now s) as [s1 x] eqn:E. intros [= <- <- <-].
    by eapply (coherent_expire stored hex_decode) in E as (? & ? & _).
  - destruct (open now secs s) as [[s1 x]|] eqn:E; intros [= <- <- <-]; [|done].
    by eapply (coherent_open stored hex_decode) in E as [? ?].
  - destruct (close s) as [s1 x] eqn:E. intros [= <- <- <-].
    by eapply (coherent_close stored hex_decode) in E as [? ?].
  - destruct (approve _ _ _ _ now id s w) as [[s1 w1] x] eqn:E. intros [= <- <- <-].
    assert (∀ n, n ∈ w.2 → n ∈ w1.2) as Hn.
    { eapply approve_notes; [exact E|]. by eapply coherent_weaken; [|exact Hco]. }
    eapply (coherent_approve stored hex_decode) with (P' := honest (l ++ [OpApprove now id host]) w1.2) in E
      as [? ?]; [done| | |exact Hco'].
    + intros r. by apply honest_mono.
    + intros r e subject c w2 d Hr Ha _ <- Hcar Hrev Hsg. eapply honest_approved; try done.
  - destruct (reject now id s) as [s1 x] eqn:E. intros [= <- <- <-].
    eapply (coherent_reject stored hex_decode) in E as [? ?]; [done| |done]. intros r. apply honest_rejected.
  - destruct (withdraw f s) as [s1 x] eqn:E. intros [= <- <- <-].
    by eapply (coherent_withdraw stored hex_decode) in E as [? ?].
  - destruct (withdraw_revoked iss sn s) as [s1 x] eqn:E. intros [= <- <- <-].
    by eapply (coherent_withdraw_revoked stored hex_decode) in E as [? ?].
  - destruct (reload hex_decode s) as [s1 x] eqn:E. intros [= <- <- <-].
    by eapply (coherent_reload stored hex_decode) in E as [? ?].
  - by intros [= <- <- <-].
Qed.

Lemma settled_boot l op b p log pr a (w : W) :
  stored b p → sound hex_decode (honest l log) per p → boot hex_decode per op b = (pr, a) →
  settled l (mkSys pr w log).
Proof.
  intros Hst Hs. unfold boot. destruct (start hex_decode op per b) as [b' x] eqn:E.
  eapply (start_spec stored hex_decode) in E; [|done..].
  destruct x; intros [= <- <-]; unfold settled; cbn; naive_solver.
Qed.

Lemma settled_more l op y : settled l y → settled (l ++ [op]) y.
Proof.
  assert (∀ r, honest l (noted y) r → honest (l ++ [op]) (noted y) r) as Hm.
  { intros r. apply honest_mono; [intros o; rewrite elem_of_app; by left|done]. }
  unfold settled. destruct (process y).
  - intros [H ?]. split; [by eapply coherent_weaken|done].
  - intros (p & ? & ?). exists p. split; [done|by eapply sound_weaken].
Qed.

Lemma settled_perform l op y y' a :
  settled l y → perform op y = (y', a) →
  settled (l ++ [op]) y' ∧ hands_over (l ++ [op]) (noted y') op a.
Proof.
  intros Hs. unfold perform. destruct (process y) as [s|b] eqn:Ep.
  - pose proof Hs as Hs'. unfold settled in Hs. rewrite Ep in Hs. destruct Hs as [Hco Hper].
    assert (Hserve : ∀ s1 w1 a1, serve op s (world y, noted y) = ((s1, w1), a1) →
      (mkSys (Up s1) w1.1 w1.2, a1) = (y', a) →
      settled (l ++ [op]) y' ∧ hands_over (l ++ [op]) (noted y') op a).
    { intros s1 w1 a1 E [= <- <-]. apply (settled_serve l) in E as (? & ? & ?); [|done..]. done. }
    destruct op; try (destruct (serve _ s _) as [[s1 w1] a1]; exact (Hserve _ _ _ eq_refl)).
    destruct Hco as (b & p & [Hb Hst Hsd _]). rewrite Hb. destruct (boot _ _ now b) as [pr a1] eqn:E.
    rewrite Hper in Hsd. intros [= <- <-]. split; [|done]. apply settled_more. by eapply settled_boot.
  - unfold settled in Hs. rewrite Ep in Hs. destruct Hs as (p & Hst & Hsd).
    assert (settled (l ++ [op]) y) as Hmore.
    { apply settled_more. unfold settled. rewrite Ep. eauto. }
    destruct op; try (intros [= <- <-]; by split).
    destruct (boot _ _ now b) as [pr a1] eqn:E. intros [= <- <-]. split; [|done].
    apply settled_more. by eapply settled_boot.
Qed.

Lemma settled_runs l b w :
  stored b persisted_default → settled l (perform_all l (mkSys (Down b) w [])).
Proof.
  intros Hst. induction l as [|op l IH] using rev_ind.
  - cbn. exists persisted_default. split; [done|apply sound_default].
  - rewrite perform_all_snoc. destruct (perform op _) as [y a] eqn:E.
    by apply (settled_perform l) in E as [? _].
Qed.
Notation born b w := (mkSys (Down b) w []).

(** *** Bounds *)

Lemma shares_within q p c :
  backed hex_decode q p →
  (size (filter (λ kv : string * Entry, entry_bootstrap kv.2 = c) (entries q)) ≤ share c (requests p))%nat.
Proof.
  intros Hbk. apply entries_within. intros id e [He Hc]%map_lookup_filter_Some. cbn in Hc.
  destruct (backed_by _ _ _ Hbk _ _ He) as [<- (r & Hr & Ha)]. apply list_elem_of_fmap. exists r.
  split; [by rewrite (agrees_id _ _ _ Ha)|]. apply elem_of_filter_bool. split; [done|].
  destruct Ha as (e' & He' & Hp & _). unfold entry_restored in He'. case_match; [|done]. simplify_eq/=.
  unfold Queue.of_bootstrap. apply bool_decide_eq_true. unfold entry_bootstrap. by rewrite <- Hp.
Qed.

(** C9: at every moment of every run, whichever reads and writes of the store fail and whenever the
    Server crashes and is started again, the queue holds at most [MAX_PENDING] requests and at most
    its share of one bootstrap certificate, in memory and in the store; no two stored requests share
    an id; and every request held in memory is stored, as it is or decided. *)
Theorem queue_stays_within_bounds (l : list Op) (b : B) (w : W) (s : Enrolment B) :
  stored b persisted_default → process (perform_all l (born b w)) = Up s →
  (size (entries (queue s)) ≤ MAX_PENDING)%nat ∧
  (∀ c, (size (filter (λ kv : string * Entry, entry_bootstrap kv.2 = c) (entries (queue s))) ≤ per)%nat) ∧
  ∃ b' p, queue_store s = Some b' ∧ stored b' p ∧ (length (requests p) ≤ MAX_PENDING)%nat ∧
    (∀ c, (share c (requests p) ≤ per)%nat) ∧ NoDup (ids p) ∧
    ∀ id e, entries (queue s) !! id = Some e → ∃ r, r ∈ requests p ∧ stored_id r = id ∧ agrees hex_decode e r.
Proof.
  intros Hst Hup. pose proof (settled_runs l b w Hst) as Hs. unfold settled in Hs. rewrite Hup in Hs.
  destruct Hs as [(b' & p & [Hb Hst' Hsd Hbk]) Hper]. rewrite Hper in Hsd. destruct Hsd as [Hnd HP Hrd Hlen Hsh].
  assert (Hheld : ∀ id e, entries (queue s) !! id = Some e → ∃ r, r ∈ requests p ∧ stored_id r = id ∧ agrees hex_decode e r).
  { intros id e He. destruct (backed_by _ _ _ Hbk _ _ He) as [<- (r & Hr & Ha)]. exists r.
    split_and!; [done|by rewrite (agrees_id _ _ _ Ha)|done]. }
  split_and!.
  - etransitivity; [|exact Hlen]. apply entries_within. intros id e (r & Hr & <- & _)%Hheld.
    apply list_elem_of_fmap. eauto.
  - intros c. etransitivity; [by apply shares_within|apply Hsh].
  - exists b', p. split_and!; done.
Qed.

(** *** Certificates *)

(** C7: in every run, whichever reads and writes of the store fail and whenever the Server crashes and
    is started again, a certificate a host collects is one the authority signed for a signing request
    filed under that very key earlier in the run, with the subject values its own bootstrap
    certificate carries and none of the request's, and it was recorded in the register under that
    request's [instance_uid] and bootstrap certificate. *)
Theorem collected_certificates_were_signed (l : list Op) (b : B) (w : W) now arrived taken request requester y cert :
  stored b persisted_default →
  perform (OpSubmit now arrived taken request requester) (perform_all l (born b w))
    = (y, AnsSubmitted (SubmittedIssued cert)) →
  ∃ now0 arrived0 taken0 request0 requester0 subject host signed,
    OpSubmit now0 arrived0 taken0 request0 requester0 ∈ l ∧ request_key request0 = request_key request ∧
    carried requester0 = Ok subject ∧ sign signer (csr_pem request0) host subject = Ok signed ∧
    pem signed = cert ∧ mkNoted signed (request_uid request0) (bootstrap requester0) ∈ noted y.
Proof.
  intros Hst. pose proof (settled_runs l b w Hst) as Hs. set (y0 := perform_all l (born b w)) in *.
  unfold perform, settled in *. destruct (process y0) as [s|]; [|done]. destruct Hs as [Hco _]. cbn.
  destruct (submit _ _ _ _ _ _ _ s) as [s1 sub] eqn:E. intros [= <- ->]. cbn.
  eapply (coherent_submit stored hex_decode hex_encode hex_round_trip (λ r, honest l (noted y0) r ∨ stored_decision r = None))
    in E as (_ & _ & Hcl); [|by right|eapply coherent_weaken; [|exact Hco]; by left].
  destruct (Hcl cert eq_refl) as (r & [Hh|Hd] & Hid & Hdec); [|by rewrite Hd in Hdec].
  destruct Hh as [(n0 & a0 & t0 & q0 & r0 & Hin & Hid0 & <- & Hcsr & Huid) Hv].
  destruct (Hv cert Hdec) as ([sg uid c] & subject & host & Hn & Hpem & Hcar & Hsg & Hc & Hu). cbn in *.
  rewrite Huid, hex_round_trip in Hu. simplify_eq/=.
  exists n0, a0, t0, q0, (stored_requester r), subject, host, sg. rewrite <- Hcsr. split_and!; try done. congruence.
Qed.

(** *** Crashes *)

Lemma submit_held now arrived taken request requester (s : Enrolment B) until e :
  window_until_ms (queue s) = Some until → (now < until)%N →
  entries (queue s) !! request_key request = Some e →
  (submit hex_encode hex_decode now arrived taken request requester s).2 = answer (decision e).
Proof.
  intros Hw Hlt He. unfold submit, expire. rewrite Hw. destruct (N.ltb_spec now until); [|lia]. by rewrite He.
Qed.

(** A crash loses nothing: in every run, while the end of the stored window lies ahead, a Server
    that is started again holds every request it held, the window open until that end; a host that
    re-sends its request before it is answered, and with the decision it would have been answered
    before the crash if there was one: an approved certificate is handed over all the same. *)
Theorem crashes_lose_no_request (l : list Op) (b : B) (w : W) (s : Enrolment B) :
  stored b persisted_default → process (perform_all l (born b w)) = Up s →
  ∃ b1 p, queue_store s = Some b1 ∧ stored b1 p ∧
    ∀ until now y, stored_until p = Some until → (now < until)%N →
      perform (OpStart now) (perform_all l (born b w)) = (y, AnsStarted true) →
      ∃ s', process y = Up s' ∧ window_until_ms (queue s') = Some until ∧
        ∀ key e, entries (queue s) !! key = Some e →
          ∃ e', entries (queue s') !! key = Some e' ∧ pending e' = pending e ∧ entry_csr e' = entry_csr e ∧
            entry_uid e' = entry_uid e ∧ (decision e = None ∨ decision e' = decision e) ∧
            ∀ now' arrived taken request requester, (now' < until)%N → request_key request = key →
              (submit hex_encode hex_decode now' arrived taken request requester s').2 = answer (decision e').
Proof.
  intros Hst Hup. pose proof (settled_runs l b w Hst) as Hs. unfold settled in Hs. rewrite Hup in Hs.
  destruct Hs as [(b1 & p & [Hb1 Hst1 Hsd Hbk]) Hper]. rewrite Hper in Hsd.
  exists b1, p. split_and!; [done|done|]. intros u now y Hun Hlt.
  unfold perform. rewrite Hup, Hb1. unfold boot.
  destruct (start hex_decode now per b1) as [b2 x] eqn:E.
  eapply (start_spec stored hex_decode) in E; [|done..].
  destruct x as [s'|]; intros [= <-]. cbn. destruct E as (_ & _ & _ & Hopen).
  destruct (Hopen u Hun Hlt) as (_ & Hw & Hm). exists s'. split_and!; [done|done|].
  intros key e He. destruct (backed_by _ _ _ Hbk _ _ He) as [Hid (r & Hr & Ha)].
  pose proof (agrees_id _ _ _ Ha) as Hrid. destruct Ha as (e' & He' & Hp & Hc & Hu & Hd).
  exists e'. assert (entries (queue s') !! key = Some e') as Hk.
  { apply Hm. exists r. by rewrite Hrid, Hid. }
  split_and!; try done; [naive_solver|].
  intros now' ar tk rq rr Hlt' <-. by eapply submit_held.
Qed.

(** *** One signature *)

(** In every run a request is signed at most while it waits: an approval of a request the store
    holds decided, or no longer holds, signs and records nothing, whatever this Server still holds in
    memory, and is refused. *)
Theorem decided_requests_are_not_signed_again (l : list Op) (b : B) (w : W) (s : Enrolment B) :
  stored b persisted_default → process (perform_all l (born b w)) = Up s →
  ∃ b1 p, queue_store s = Some b1 ∧ stored b1 p ∧
    ∀ id, (∀ r, r ∈ requests p → stored_id r = id → stored_decision r ≠ None) →
      ∀ now host y a, perform (OpApprove now id host) (perform_all l (born b w)) = (y, a) →
        noted y = noted (perform_all l (born b w)) ∧ ∃ e, a = AnsDecided (Err e).
Proof.
  intros Hst Hup. pose proof (settled_runs l b w Hst) as Hs. set (y0 := perform_all l (born b w)) in *.
  unfold settled in Hs. rewrite Hup in Hs.
  destruct Hs as [(b1 & p & [Hb1 Hst1 Hsd Hbk]) Hper]. exists b1, p. split_and!; [done|done|].
  intros id Hdone now host y a. unfold perform. rewrite Hup. cbn.
  destruct (approve _ _ _ _ now id s _) as [[s1 [w1 n1]] x] eqn:E. intros [= <- <-]. cbn. revert E.
  unfold approve. destruct (expire now s) as [s2 u] eqn:Ee.
  assert (Hwait : ∀ e, waiting_entry id s2 = Some e → s2 = s).
  { intros e [He _]%waiting_entry_spec. revert Ee. unfold expire.
    destruct (window_until_ms (queue s)) as [until|]; [|by intros [= <- <-]].
    destruct (now <? until)%N; [by intros [= <- <-]|]. cbn. rewrite Hb1.
    destruct (store_end_window until b1). intros [= <- <-]. cbn in He. by rewrite lookup_empty in He. }
  destruct (waiting_entry id s2) as [e|] eqn:Ew; [|intros [= <- <- <- <-]; eauto].
  rewrite (Hwait e eq_refl) in *. clear Hwait Ee.
  destruct (note_revoked is_revoked (entry_bootstrap e) (world y0, noted y0)) as [[w2 n2] rv] eqn:Er.
  apply revoked_notes in Er. cbn in Er. subst n2.
  destruct rv; [intros [= <- <- <- <-]; eauto|].
  destruct (carried _); [|intros [= <- <- <- <-]; eauto]. rewrite Hb1.
  destruct (store_approve _ _ _ _) as [[b' [w3 n3]] z] eqn:E. cbn.
  assert (Hnone : Queue.find (Queue.waiting id) p = None).
  { destruct (Queue.find (Queue.waiting id) p) as [r|] eqn:Ef; [|done].
    apply head_filter_Some in Ef as [Hr [Hrid Hrd]%waiting_true]. by destruct (Hdone r Hr Hrid). }
  apply (approve_law (stored := stored) _ id _ _ _ p) in E; [|done].
  inversion E; subst; try congruence; intros [= <- <- <- <-]; eauto.
Qed.
End Safe.
