(* ===== verification/EnrolmentDesk.v ===== *)
(** * The enrolment queue as one document

    The specification of [Enrolment] is a desk with one document on it: a request is looked up, filed,
    decided or withdrawn there, and nothing is held anywhere else. The queue in memory over a store
    that does not fail, and the queue held in memory alone, both answer exactly as the desk does
    ([queues_answer_as_one_document]). *)

From S2P Require Import Prelude RustStr Rate Placement Revocation Reports Fs Enrolment EnrolmentRuns.

Open Scope string_scope.
Open Scope list_scope.

(** The document, and the bootstrap certificates refused for their share in this window. *)
Record Desk := mkDesk {
  document : Persisted;
  refused_share : gset CertId;
}.

(** The order of the list an operator is shown: oldest first, and those of one millisecond by their
    ids. *)
Definition listed_le (p q : Pending) : Prop :=
  (pending_arrived p < pending_arrived q)%N ∨
  pending_arrived p = pending_arrived q ∧ String.le (pending_id p) (pending_id q).

#[global] Instance listed_le_dec : RelDecision listed_le.
Proof. intros p q. unfold listed_le. apply _. Defined.
#[global] Instance listed_le_trans : Transitive listed_le.
Proof.
  intros p q r [|[E H]] [|[E' H']]; [left; lia|left; lia|left; lia|right]. split; [congruence|]. by etrans.
Qed.
#[global] Instance listed_le_total : Total listed_le.
Proof.
  intros p q. unfold listed_le.
  destruct (N.lt_trichotomy (pending_arrived p) (pending_arrived q)) as [|[E|]]; [by left; left| |by right; left].
  destruct (total String.le (pending_id p) (pending_id q)); [left|right]; by right.
Qed.

Section Desk.
Context {W : Type} (hex_encode : list N → string) (hex_decode : string → option (list N)).
Context (signer : Signer) (record : Signed → list N → CertId → Eff W DecisionError unit).
Context (is_revoked : CertId → W → W * bool) (per : nat).

(** The request as an entry of the queue. *)
Definition entry_of (r : PersistedRequest) : Entry :=
  mkEntry (mkPending (stored_id r) (stored_arrived r) (stored_key r) (stored_requester r)) (stored_csr r)
    (default [] (hex_decode (stored_uid r))) (stored_decision r).

(** A window that has run out is closed, its requests with it, when it is next looked at. *)
Definition desk_lapse (now : N) (d : Desk) : Desk :=
  match stored_until (document d) with
  | Some until => if (now <? until)%N then d else mkDesk persisted_default ∅
  | None => d
  end.

Definition on_document (f : Persisted → Persisted) (d : Desk) : Desk := mkDesk (f (document d)) (refused_share d).

Definition desk_submit (now arrived taken : N) (request : Request) (requester : Requester) (d : Desk)
    : Desk * Submitted :=
  let d := desk_lapse now d in
  match stored_until (document d) with
  | None => (d, SubmittedClosed)
  | Some _ =>
      match Queue.find (Queue.named (request_key request)) (document d) with
      | Some r => (d, answer (stored_decision r))
      | None =>
          match Queue.take (filed hex_encode arrived request requester) taken MAX_PENDING per (document d) with
          | (p, TookAdded) => (on_document (λ _, p) d, SubmittedWaiting)
          | (_, TookOverShare) =>
              (mkDesk (document d) ({[bootstrap requester]} ∪ refused_share d),
               SubmittedOverShare (bool_decide (bootstrap requester ∉ refused_share d)))
          | (_, TookClosed) => (d, SubmittedClosed)
          | (_, _) => (d, SubmittedFull)
          end
      end
  end.

(** The waiting requests of the document, in the order of their arrival. *)
Definition desk_pending (d : Desk) : list Pending :=
  merge_sort listed_le ((λ r, pending (entry_of r)) <$> List.filter Queue.undecided (requests (document d))).

Definition desk_open (now secs : N) (d : Desk) : option (Desk * result N WindowError) :=
  if negb ((1 <=? secs)%N && (secs <=? MAX_WINDOW_SECS)%N) then Some (d, Err (WindowInvalid secs))
  else
    until ← window_end now secs;
    Some (on_document (λ p, (Queue.open_window until p).1) d, Ok until).

Definition desk_drop (id : string) : Desk → Desk := on_document (λ p, (Queue.withdraw [id] p).1).

Definition desk_approve (now : N) (id host : string) (d : Desk) (w : W * list Noted)
    : (Desk * (W * list Noted)) * result unit DecisionError :=
  let d := desk_lapse now d in
  match Queue.find (Queue.waiting id) (document d) with
  | None => ((d, w), Err DecisionNotFound)
  | Some r =>
      let (w, refused) := note_revoked is_revoked (bootstrap (stored_requester r)) w in
      if refused then ((desk_drop id d, w), Err DecisionRevoked)
      else
        match carried (stored_requester r) with
        | Err why => ((d, w), Err (DecisionSubject why))
        | Ok subject =>
            let (w, x) := sign_entry signer host (note_record record) (entry_of r) subject w in
            match x with
            | Ok dec => ((on_document (Queue.decided id dec) d, w), Ok tt)
            | Err DecisionRevoked => ((desk_drop id d, w), Err DecisionRevoked)
            | Err e => ((d, w), Err e)
            end
        end
  end.

Definition desk_reject (now : N) (id : string) (d : Desk) : Desk * result unit DecisionError :=
  let d := desk_lapse now d in
  match Queue.decide id Rejected (document d) with
  | (p, DecidedWritten) => (on_document (λ _, p) d, Ok tt)
  | (_, _) => (d, Err DecisionNotFound)
  end.

(** The waiting requests of the bootstrap certificates [named] names are withdrawn. *)
Definition desk_withdraw (named : CertId → bool) (d : Desk) : Desk * nat :=
  let p := Queue.retain (λ r, negb (Queue.undecided r && named (bootstrap (stored_requester r)))) (document d) in
  (mkDesk p (refused_share d), (length (requests (document d)) - length (requests p))%nat).

Definition desk_serve (op : Op) (d : Desk) (w : W * list Noted) : (Desk * (W * list Noted)) * Answer :=
  match op with
  | OpSubmit now arrived taken request requester =>
      let (d, a) := desk_submit now arrived taken request requester d in ((d, w), AnsSubmitted a)
  | OpPending now => let d := desk_lapse now d in ((d, w), AnsPending (desk_pending d))
  | OpWindow now => let d := desk_lapse now d in ((d, w), AnsEnd (stored_until (document d)))
  | OpOpen now secs =>
      match desk_open now secs d with
      | Some (d, x) => ((d, w), AnsWindow x)
      | None => ((d, w), AnsNone)
      end
  | OpClose => ((mkDesk persisted_default ∅, w), AnsSaved (Ok tt))
  | OpApprove now id host => let (dw, x) := desk_approve now id host d w in (dw, AnsDecided x)
  | OpReject now id => let (d, x) := desk_reject now id d in ((d, w), AnsDecided x)
  | OpWithdraw f => let (d, n) := desk_withdraw f d in ((d, w), AnsWithdrawn n)
  | OpWithdrawRevoked issuers sn =>
      let (d, n) := desk_withdraw (λ b, bool_decide (serial b = sn) && bool_decide (issuer b ∈ issuers)) d in
      ((d, w), AnsWithdrawn n)
  | OpReload => ((d, w), AnsSaved (Ok tt))
  | OpStart _ => ((d, w), AnsNone)
  end.

(** ** The queue of a document *)

Definition pairs (l : list PersistedRequest) : list (string * Entry) := (λ r, (stored_id r, entry_of r)) <$> l.
Definition table (l : list PersistedRequest) : gmap string Entry := list_to_map (pairs l).

Lemma pairs_ids l : (pairs l).*1 = stored_id <$> l.
Proof. unfold pairs. rewrite <- list_fmap_compose. done. Qed.

Lemma lookup_table l id e :
  NoDup (stored_id <$> l) → table l !! id = Some e ↔ ∃ r, r ∈ l ∧ stored_id r = id ∧ e = entry_of r.
Proof.
  intros Hnd. unfold table. rewrite <- elem_of_list_to_map by (by rewrite pairs_ids).
  unfold pairs. rewrite list_elem_of_fmap. naive_solver.
Qed.

Lemma table_values l : NoDup (stored_id <$> l) → btree_values (table l) ≡ₚ entry_of <$> l.
Proof.
  intros Hnd. unfold btree_values, btree_iter. rewrite (merge_sort_Permutation key_le). unfold table.
  rewrite map_to_list_to_map by (by rewrite pairs_ids). unfold pairs. by rewrite <- list_fmap_compose.
Qed.

Lemma size_table l : NoDup (stored_id <$> l) → size (table l) = length l.
Proof.
  intros Hnd. unfold table. rewrite <- length_map_to_list, map_to_list_to_map by (by rewrite pairs_ids).
  apply length_fmap.
Qed.

Lemma table_snoc l r : stored_id r ∉ (stored_id <$> l) → table (l ++ [r]) = <[stored_id r := entry_of r]> (table l).
Proof.
  intros Hn. unfold table, pairs. rewrite fmap_app. apply list_to_map_snoc. by rewrite pairs_ids.
Qed.

Lemma table_decided l id d r :
  NoDup (stored_id <$> l) → head (List.filter (Queue.waiting id) l) = Some r →
  table (Queue.write_first (Queue.waiting id) (Queue.with_decision d) l) = alter (entry_decided d) id (table l).
Proof.
  induction l as [|a l IH]; [done|]. cbn. intros [Ha Hnd]%NoDup_cons.
  destruct (Queue.waiting id a) eqn:Ew.
  - intros _. apply waiting_true in Ew as [Hid _]. unfold table, pairs. cbn. rewrite Hid.
    by rewrite alter_insert_eq.
  - intros Hf. unfold table, pairs in *. cbn. rewrite IH by done. rewrite alter_insert_ne; [done|].
    apply head_filter_Some in Hf as [Hr [Hid _]%waiting_true]. intros Heq. apply Ha. rewrite <- Heq, <- Hid.
    apply list_elem_of_fmap. eauto.
Qed.

Lemma table_retain l f ids0 :
  NoDup (stored_id <$> l) → (∀ r, r ∈ l → f r = true ↔ stored_id r ∉ ids0) →
  table (List.filter f l) = foldl (λ m id, delete id m) (table l) ids0.
Proof.
  intros Hnd Hf. apply map_eq. intros id. apply option_eq. intros e.
  rewrite lookup_dropped, !lookup_table by (try done; by apply ids_retain).
  setoid_rewrite elem_of_filter_bool. split.
  - intros (r & [Hr Hfr] & Hid & ->). apply Hf in Hfr; [|done]. rewrite <- Hid. eauto 6.
  - intros [Hn (r & Hr & Hid & ->)]. exists r. split_and!; try done. apply Hf; [done|]. by rewrite Hid.
Qed.
End Desk.

Arguments table : simpl never.

(** ** The refinement *)

(** A store whose calls are answered. *)
Class ReliableQueue {B : Type} `{!EnrolmentStore B} (stored : B → Persisted → Prop) : Prop := {
  load_answered b p : stored b p → is_ok (store_load b).2 = true;
  take_answered b p r now max per : stored b p → is_ok (store_take r now max per b).2 = true;
  decide_answered b p id d : stored b p → is_ok (store_decide id d b).2 = true;
  approve_answered X b p id c (sign : Eff X DecisionError Decision) w :
    stored b p → is_ok (store_approve id c sign (b, w)).2 = true;
  withdraw_bootstrap_answered b p issuers sn : stored b p → is_ok (store_withdraw_bootstrap issuers sn b).2 = true;
  withdraw_answered b p ids : stored b p → is_ok (store_withdraw ids b).2 = true;
  open_window_answered b p until : stored b p → is_ok (store_open_window until b).2 = true;
  close_window_answered b p : stored b p → is_ok (store_close_window b).2 = true;
  end_window_answered b p until : stored b p → is_ok (store_end_window until b).2 = true;
}.

Section Refines.
Context {B W : Type} {port : EnrolmentStore B} (stored : B → Persisted → Prop).
Context {sole : SoleWriterQueue stored} {reliable : ReliableQueue stored}.
Context (hex_encode : list N → string) (hex_decode : string → option (list N)).
Context (signer : Signer) (record : Signed → list N → CertId → Eff W DecisionError unit).
Context (is_revoked : CertId → W → W * bool) (per : nat).
Notation Enr := (Enrolment B).
Notation entry_of := (entry_of hex_decode).
Notation table := (table hex_decode).

(** The queue in memory is the queue of the desk's document, which the store holds where there is
    one. *)
Record matches (s : Enr) (d : Desk) : Prop := mkMatches {
  matches_store : match queue_store s with Some b => stored b (document d) | None => True end;
  matches_sound : sound hex_decode (λ _, True) per (document d);
  matches_per : max_per_bootstrap s = per;
  matches_window : window_until_ms (queue s) = stored_until (document d);
  matches_entries : entries (queue s) = table (requests (document d));
  matches_share : over_share (queue s) = refused_share d;
}.

Lemma does_answered {A} (act : Eff B EnrolmentError A) f b p :
  does stored act f → stored b p → is_ok (act b).2 = true →
  ∃ b', act b = (b', Ok (f p).2) ∧ stored b' (f p).1.
Proof.
  intros Hd Hst Hok. destruct (act b) as [b' x] eqn:E. exists b'.
  destruct (Hd b p b' x Hst E) as [[-> ?]|[Hf _]]; [done|]. cbn in Hok. by rewrite Hok in Hf.
Qed.

Lemma restored_entry r : readable hex_decode r → entry_restored hex_decode r = Ok (entry_of r).
Proof. intros (_ & uid & Hu). unfold entry_restored, EnrolmentDesk.entry_of. by rewrite Hu. Qed.

Lemma find_named P p id r :
  sound hex_decode P per p → Queue.find (Queue.named id) p = Some r → table (requests p) !! id = Some (entry_of r).
Proof.
  intros Hs [Hr Hn]%head_filter_Some. unfold Queue.named in Hn. apply bool_decide_eq_true in Hn.
  apply lookup_table; [by destruct Hs|]. eauto.
Qed.

Lemma find_unnamed P p id :
  sound hex_decode P per p → Queue.find (Queue.named id) p = None → table (requests p) !! id = None.
Proof.
  intros Hs Hf. destruct (table (requests p) !! id) as [e|] eqn:E; [|done].
  apply lookup_table in E as (r & Hr & Hid & _); [|by destruct Hs].
  pose proof (head_filter_None _ _ r Hf Hr) as Hn. unfold Queue.named in Hn. by rewrite bool_decide_eq_false in Hn.
Qed.

Lemma waiting_matches s d id :
  matches s d → waiting_entry id s = entry_of <$> Queue.find (Queue.waiting id) (document d).
Proof.
  intros [_ Hs _ _ He _]. unfold waiting_entry. rewrite He.
  destruct (Queue.find (Queue.waiting id) (document d)) as [r|] eqn:Ef; cbn.
  - apply head_filter_Some in Ef as [Hr [Hid Hd]%waiting_true].
    rewrite (proj2 (lookup_table hex_decode _ id (entry_of r) (sound_ids _ _ _ _ Hs))) by eauto.
    unfold entry_waits. cbn. by rewrite Hd.
  - destruct (table _ !! id) as [e|] eqn:E; [|done].
    apply lookup_table in E as (r & Hr & Hid & ->); [|by destruct Hs].
    pose proof (head_filter_None _ _ r Ef Hr) as Hn. unfold Queue.waiting, Queue.named, Queue.undecided in Hn.
    rewrite bool_decide_true in Hn by done. unfold entry_waits. cbn. by destruct (stored_decision r).
Qed.

Lemma matches_expire now s d s' u :
  matches s d → expire now s = (s', u) →
  matches s' (desk_lapse now d) ∧ u = stored_until (document (desk_lapse now d)).
Proof.
  intros Hm. pose proof Hm as [Hst Hs Hp Hw He Hsh]. unfold expire, desk_lapse. rewrite Hw.
  destruct (stored_until (document d)) as [un|] eqn:Eu; [|by intros [= <- <-]; rewrite Eu].
  destruct (now <? un)%N; [by intros [= <- <-]; rewrite Eu|]. cbn.
  destruct (queue_store s) as [b|] eqn:Eb; cbn.
  - destruct (does_answered _ _ _ _ (end_window_law un) Hst (end_window_answered _ _ _ Hst)) as (b' & -> & Hst').
    intros [= <- <-]. split; [|done]. unfold Queue.end_window in Hst'. rewrite Eu, bool_decide_true in Hst' by done.
    split; cbn; try done. apply sound_default.
  - intros [= <- <-]. split; [|done]. split; cbn; try done; [by rewrite Eb|apply sound_default].
Qed.

Lemma insert_by_arrival_perm p l : insert_by_arrival p l ≡ₚ p :: l.
Proof. induction l as [|q l IH]; cbn; [done|]. case_match; [done|]. rewrite IH. constructor. Qed.

Lemma by_arrival_perm l : foldr insert_by_arrival [] l ≡ₚ l.
Proof. induction l as [|p l IH]; cbn; [done|]. by rewrite insert_by_arrival_perm, IH. Qed.

Lemma insert_by_arrival_sorted p l :
  Forall (λ q, String.le (pending_id p) (pending_id q)) l → StronglySorted listed_le l →
  StronglySorted listed_le (insert_by_arrival p l).
Proof.
  induction l as [|q l IH]; intros Hle Hs; cbn; [by repeat constructor|].
  apply Forall_cons in Hle as [Hq Hle]. pose proof Hs as [Hs' Hf]%StronglySorted_inv. case_match eqn:E.
  - assert (Hpq : listed_le p q) by (apply N.leb_le, N.lt_eq_cases in E as [|]; [by left|by right]).
    constructor; [done|]. constructor; [done|]. apply (Forall_impl _ _ _ Hf). intros r. by transitivity q.
  - constructor; [by apply IH|]. rewrite insert_by_arrival_perm. constructor; [|done]. left. by apply N.leb_gt.
Qed.

(** The stable sort by arrival of requests in the order of their ids is the order of the list. *)
Lemma by_arrival_sorted l :
  StronglySorted (λ p q, String.le (pending_id p) (pending_id q)) l →
  StronglySorted listed_le (foldr insert_by_arrival [] l).
Proof.
  induction 1 as [|p l Hs IH Hf]; cbn; [constructor|]. apply insert_by_arrival_sorted; [|done].
  by rewrite by_arrival_perm.
Qed.

Lemma table_keys l :
  NoDup (stored_id <$> l) → StronglySorted (λ p q, String.le (pending_id (pending p)) (pending_id (pending q)))
    (btree_values (table l)).
Proof.
  intros Hnd. pose proof (btree_iter_sorted (table l)) as Hs. unfold btree_values.
  assert (Hk : Forall (λ ke : string * Entry, ke.1 = pending_id (pending ke.2)) (btree_iter (table l))).
  { apply Forall_forall. intros [k e] (r & _ & Hid & ->)%elem_of_btree_iter%lookup_table; [by cbn|done]. }
  induction Hs as [|ke m Hs IH Hf]; cbn; [constructor|]. apply Forall_cons in Hk as [Hk Hks].
  constructor; [by apply IH|]. apply Forall_fmap. rewrite Forall_forall in *. intros ke' Hin. cbn.
  rewrite <- Hk, <- (Hks _ Hin). by apply Hf.
Qed.

Lemma filter_sorted {A} (R : A → A → Prop) (f : A → bool) l : StronglySorted R l → StronglySorted R (List.filter f l).
Proof.
  induction 1 as [|x l Hs IH Hf]; cbn; [constructor|]. case_match; [|done]. constructor; [done|].
  rewrite Forall_forall in *. intros y [? _]%elem_of_filter_bool. by apply Hf.
Qed.

Lemma fmap_sorted {A C} (R : C → C → Prop) (f : A → C) l :
  StronglySorted (λ x y, R (f x) (f y)) l → StronglySorted R (f <$> l).
Proof. induction 1 as [|x l Hs IH Hf]; cbn; constructor; [done|]. by apply Forall_fmap. Qed.

(** The list an operator is shown is the document's waiting requests in the order of the desk. *)
Lemma matches_pending s d :
  matches s d →
  foldr insert_by_arrival [] (pending <$> List.filter entry_waits (btree_values (entries (queue s)))) =
    desk_pending hex_decode d.
Proof.
  intros [_ Hs _ _ He _]. pose proof (sound_ids _ _ _ _ Hs) as Hnd. rewrite He. unfold desk_pending.
  assert (Hp : pending <$> List.filter entry_waits (btree_values (table (requests (document d)))) ≡ₚ
    (λ r, pending (entry_of r)) <$> List.filter Queue.undecided (requests (document d))).
  { rewrite (Permutation_filter_bool _ _ _ (table_values hex_decode _ Hnd)).
    clear. induction (requests (document d)) as [|r l IH]; cbn; [done|].
    change (entry_waits (entry_of r)) with (Queue.undecided r). case_match; cbn; by rewrite IH. }
  apply (StronglySorted_unique_strong listed_le).
  - intros p q Hin1 Hin2 [H1|[H1 H1']] [H2|[H2 H2']]; try lia.
    assert (Hid : pending_id p = pending_id q) by (by apply (anti_symm String.le)).
    rewrite by_arrival_perm, Hp in Hin1. rewrite merge_sort_Permutation in Hin2.
    apply list_elem_of_fmap in Hin1 as (r1 & -> & [Hr1 _]%elem_of_filter_bool).
    apply list_elem_of_fmap in Hin2 as (r2 & -> & [Hr2 _]%elem_of_filter_bool). cbn in Hid.
    by rewrite (sound_by_id hex_decode (λ _, True) per _ _ _ Hs Hr1 Hr2 Hid).
  - apply by_arrival_sorted, fmap_sorted, filter_sorted, table_keys. done.
  - apply (StronglySorted_merge_sort listed_le).
  - by rewrite by_arrival_perm, merge_sort_Permutation.
Qed.

Lemma lapse_open now d until : stored_until (document (desk_lapse now d)) = Some until → (now < until)%N.
Proof.
  unfold desk_lapse. destruct (stored_until (document d)) as [u|] eqn:Eu; [|by rewrite Eu].
  destruct (N.ltb_spec now u); cbn; [|done]. rewrite Eu. by intros [= <-].
Qed.

Lemma expire_store now (s s' : Enr) u : expire now s = (s', u) → queue_store s' = None → queue_store s = None.
Proof.
  unfold expire. destruct (window_until_ms (queue s)) as [un|]; [|by intros [= <- <-]].
  destruct (now <? un)%N; [by intros [= <- <-]|]. cbn.
  destruct (queue_store s) as [b|] eqn:Eb; [|done]. destruct (store_end_window un b). by intros [= <- <-].
Qed.

(** *** Requests *)

Lemma count_matches l c :
  NoDup (stored_id <$> l) →
  length (List.filter (λ held, bool_decide (entry_bootstrap held = c)) (btree_values (table l))) = share c l.
Proof.
  intros Hnd. rewrite (Permutation_length (l' := List.filter (λ held, bool_decide (entry_bootstrap held = c)) (entry_of <$> l))).
  - unfold share. symmetry. by apply length_filter_fmap.
  - by apply Permutation_filter_bool, table_values.
Qed.

Lemma took_matches e l until p :
  NoDup (stored_id <$> l) → p = mkPersisted until l → ∀ r now max n,
  Queue.ended until now = false → Queue.find (Queue.named (stored_id r)) p = None →
  entry_bootstrap e = bootstrap (stored_requester r) → ∀ w sh,
  (Queue.take r now max n p).2 = took e max n (mkQueueState w (table l) sh).
Proof.
  intros Hnd -> r now max n Hend Hf Hb w sh. unfold Queue.take, took. cbn [stored_until requests entries].
  rewrite Hend, Hf, size_table, Hb, count_matches by done. unfold share. by repeat case_match.
Qed.

Lemma matches_submit now arrived taken request requester s d s' a :
  (∀ bytes, hex_decode (hex_encode bytes) = Some bytes) →
  (queue_store s = None → (taken ≤ now)%N) →
  matches s d → submit hex_encode hex_decode now arrived taken request requester s = (s', a) →
  ∃ d', desk_submit hex_encode per now arrived taken request requester d = (d', a) ∧ matches s' d'.
Proof.
  intros hex_round_trip Htaken Hm. unfold submit, desk_submit.
  destruct (expire now s) as [s1 u] eqn:Ee. pose proof (expire_store now s s1 u Ee) as Hst1.
  apply (matches_expire now s d) in Ee as [Hm1 ->]; [|done].
  pose proof (lapse_open now d) as Hopen. set (d1 := desk_lapse now d) in *. clear Hm. pose proof Hm1 as [Hst Hs Hp Hw He Hsh].
  destruct (stored_until (document d1)) as [un|] eqn:Eu; [|intros [= <- <-]; eauto].
  specialize (Hopen un eq_refl). rewrite He.
  destruct (Queue.find (Queue.named (request_key request)) (document d1)) as [r|] eqn:Ef.
  { rewrite (find_named _ _ _ _ Hs Ef). intros [= <- <-]. eauto. }
  rewrite (find_unnamed _ _ _ Hs Ef).
  set (r := filed hex_encode arrived request requester).
  set (e := mkEntry (mkPending (request_key request) arrived (request_key request) requester) (csr_pem request)
              (request_uid request) None).
  change (entry_persisted hex_encode e) with r.
  assert (He' : entry_of r = e).
  { unfold EnrolmentDesk.entry_of, r, filed, e. cbn. by rewrite hex_round_trip. }
  assert (Hend : queue_store s1 = None → Queue.ended (stored_until (document d1)) taken = false).
  { intros Hn%Hst1. rewrite Eu. cbn. apply N.leb_gt. specialize (Htaken Hn). lia. }
  assert (Hheld : ∀ held, (Queue.take r taken MAX_PENDING per (document d1)).2 ≠ TookHeld held).
  { intros held. unfold Queue.take. change (stored_id r) with (request_key request). rewrite Ef.
    repeat case_match; done. }
  assert (Hadd : (Queue.take r taken MAX_PENDING per (document d1)).2 = TookAdded →
    (Queue.take r taken MAX_PENDING per (document d1)).1 =
      mkPersisted (stored_until (document d1)) (requests (document d1) ++ [r])).
  { unfold Queue.take. repeat case_match; done. }
  assert (Hnoop : (Queue.take r taken MAX_PENDING per (document d1)).2 ≠ TookAdded →
    (Queue.take r taken MAX_PENDING per (document d1)).1 = document d1).
  { unfold Queue.take. repeat case_match; done. }
  assert (Hsound : sound hex_decode (λ _, True) per (Queue.take r taken MAX_PENDING per (document d1)).1).
  { apply sound_take; [done| |done]. split; [done|]. exists (request_uid request). cbn. apply hex_round_trip. }
  assert (Htook : match queue_store s1 with
    | Some b => ∃ b', store_take r taken MAX_PENDING (max_per_bootstrap s1) b
                  = (b', Ok (Queue.take r taken MAX_PENDING per (document d1)).2) ∧
                stored b' (Queue.take r taken MAX_PENDING per (document d1)).1
    | None => took e MAX_PENDING (max_per_bootstrap s1) (queue s1) =
                (Queue.take r taken MAX_PENDING per (document d1)).2
    end).
  { rewrite Hp. destruct (queue_store s1) as [b|].
    - apply (does_answered _ _ _ _ (take_law _ _ _ _) Hst). by eapply take_answered.
    - symmetry. destruct (queue s1) as [w0 m0 sh0]. cbn in He. subst m0.
      apply (took_matches e _ (stored_until (document d1))); try done; [apply Hs|by destruct (document d1)|by apply Hend]. }
  destruct (Queue.take r taken MAX_PENDING per (document d1)) as [p tk] eqn:Et. cbn [fst snd] in *.
  assert (Hfin : ∃ st, match st with Some b => stored b p | None => True end ∧
    (let '(s, t) := match queue_store s1 with
       | Some b => let (b, x) := store_take r taken MAX_PENDING (max_per_bootstrap s1) b in (set_store (Some b) s1, x)
       | None => (s1, Ok (took e MAX_PENDING (max_per_bootstrap s1) (queue s1)))
       end in (s, t)) = (set_store st s1, Ok tk)).
  { destruct (queue_store s1) as [b|] eqn:Eb.
    - destruct Htook as (b' & -> & Hst'). by exists (Some b').
    - exists None. rewrite Htook. split; [done|]. destruct s1. cbn in *. by subst. }
  destruct Hfin as (st & Hst' & Hfin).
  destruct (match queue_store s1 with Some b => _ | None => _ end) as [s2 t2]. injection Hfin as -> ->.
  destruct tk as [|held| | |]; [|by destruct (Hheld held)|..];
    intros [= <- <-]; eexists; (split; [cbn; rewrite ?Hsh; reflexivity|]); split; cbn; try done;
    try first [by rewrite Hnoop in Hst' | by rewrite Hw, Eu | by rewrite Hsh].
  - by rewrite (Hadd eq_refl), Hw.
  - rewrite (Hadd eq_refl). cbn. rewrite table_snoc, He, He'; [done|].
    intros (r' & Hid & Hr')%list_elem_of_fmap. pose proof (head_filter_None _ _ r' Ef Hr') as Hn.
    unfold Queue.named in Hn. by rewrite bool_decide_eq_false in Hn.
Qed.

(** *** The window *)

Lemma sound_until u p : sound hex_decode (λ _, True) per p → sound hex_decode (λ _, True) per (mkPersisted u (requests p)).
Proof. intros []. by split. Qed.

Lemma matches_open now secs s d s' x :
  matches s d → open now secs s = Some (s', x) →
  ∃ d', desk_open now secs d = Some (d', x) ∧ matches s' d'.
Proof.
  intros Hm. pose proof Hm as [Hst Hs Hp Hw He Hsh]. unfold open, desk_open.
  destruct (negb _); [intros [= <- <-]; eauto|]. destruct (window_end now secs) as [un|]; [|done]. cbn.
  unfold on_store. destruct (queue_store s) as [b|] eqn:Eb.
  - destruct (does_answered _ _ _ _ (open_window_law un) Hst (open_window_answered _ _ _ Hst)) as (b' & -> & Hst').
    intros [= <- <-]. eexists. split; [done|]. split; cbn; try done. by apply sound_until.
  - intros [= <- <-]. eexists. split; [done|]. split; cbn; try done; [by rewrite Eb|by apply sound_until].
Qed.

Lemma matches_close s d :
  matches s d → matches (close s).1 (mkDesk persisted_default ∅) ∧ (close s).2 = Ok tt.
Proof.
  intros [Hst Hs Hp Hw He Hsh]. unfold close, on_store. cbn. destruct (queue_store s) as [b|] eqn:Eb.
  - destruct (does_answered _ _ _ _ close_window_law Hst (close_window_answered _ _ Hst)) as (b' & -> & Hst').
    split; [|done]. split; cbn; try done. apply sound_default.
  - split; [|done]. split; cbn; try done; [by rewrite Eb|apply sound_default].
Qed.

(** *** Withdrawals *)

Lemma waiting_of_matches named s d r :
  matches s d → r ∈ requests (document d) →
  stored_id r ∈ waiting_of named s ↔ Queue.undecided r = true ∧ named (bootstrap (stored_requester r)) = true.
Proof.
  intros [_ Hs _ _ He _] Hr. unfold waiting_of. rewrite list_elem_of_fmap.
  setoid_rewrite elem_of_filter_bool. setoid_rewrite andb_true_iff. setoid_rewrite elem_of_btree_values.
  rewrite He. split.
  - intros (e & Hid & [id Hl] & Hwt & Hn).
    apply lookup_table in Hl as (r' & Hr' & _ & ->); [|by destruct Hs]. cbn in Hid.
    assert (r' = r) as -> by (by eapply (sound_by_id hex_decode (λ _, True) per)). done.
  - intros [Hu Hn]. exists (entry_of r). split_and!; try done. exists (stored_id r).
    apply lookup_table; [by destruct Hs|eauto].
Qed.

Lemma length_retained {A} (f : A → bool) (l : list A) :
  (length l - length (List.filter (λ x, negb (f x)) l) = length (List.filter f l))%nat.
Proof.
  induction l as [|x l IH]; [done|]. cbn. pose proof (filter_length_le (λ x, negb (f x)) l).
  destruct (f x); cbn; lia.
Qed.

Lemma waiting_count named s d :
  matches s d →
  length (waiting_of named s) =
    length (List.filter (λ r, Queue.undecided r && named (bootstrap (stored_requester r))) (requests (document d))).
Proof.
  intros [_ Hs _ _ He _]. unfold waiting_of. rewrite length_fmap, He.
  rewrite (Permutation_length (Permutation_filter_bool _ _ _ (table_values hex_decode _ (sound_ids _ _ _ _ Hs)))).
  symmetry. by apply length_filter_fmap.
Qed.

(** What is left once the waiting requests that [named] names are dropped, from memory and from the
    store. *)
Lemma matches_withdrawn named s d st n t :
  matches s d → match st with Some b => stored b (document (desk_withdraw named d).1) | None => True end →
  matches (mkEnrolment (mkQueueState (window_until_ms (queue s))
             (foldl (λ m id, delete id m) (entries (queue s)) (waiting_of named s)) (over_share (queue s)))
             (max_per_bootstrap s) st n t)
    (desk_withdraw named d).1.
Proof.
  intros Hm Hst. pose proof Hm as [_ Hs Hp Hw He Hsh]. split; try done.
  - by apply sound_retain.
  - cbn. rewrite He. symmetry. apply table_retain; [by destruct Hs|]. intros r Hr.
    rewrite negb_true_iff, (waiting_of_matches named s d r Hm Hr), <- not_true_iff_false, andb_true_iff. done.
Qed.

Lemma filter_ext_bool {A} (f g : A → bool) l : (∀ x, x ∈ l → f x = g x) → List.filter f l = List.filter g l.
Proof.
  induction l as [|x l IH]; intros H; [done|]. cbn. rewrite (H x) by (by left).
  rewrite IH; [done|]. intros y Hy. apply H. by right.
Qed.

Lemma matches_withdraw named s d s' n :
  matches s d → withdraw named s = (s', n) → ∃ d', desk_withdraw named d = (d', n) ∧ matches s' d'.
Proof.
  intros Hm. pose proof Hm as [Hst Hs Hp Hw He Hsh]. unfold withdraw.
  assert (Hn : (desk_withdraw named d).2 = length (waiting_of named s)).
  { cbn. rewrite length_retained. symmetry. by apply waiting_count. }
  destruct (desk_withdraw named d) as [d' n'] eqn:Ed. cbn in Hn. subst n'.
  assert (d' = (desk_withdraw named d).1) as Hd' by (by rewrite Ed).
  intros Hx. exists d'. revert Hx. destruct (Nat.ltb_spec 0 (length (waiting_of named s))) as [Hlt|Hz]; intros [= <- <-].
  - split; [done|]. rewrite Hd'. unfold on_store_logged, on_store. cbn.
    destruct (queue_store s) as [b|] eqn:Eb; cbn;
      [|unfold changed, drop_entries, set_entries, set_queue; cbn; rewrite Eb; by apply matches_withdrawn].
    destruct (does_answered _ _ _ _ (withdraw_law (waiting_of named s)) Hst (withdraw_answered _ _ _ Hst)) as (b' & -> & Hst').
    unfold changed, set_store, drop_entries, set_entries, set_queue. cbn -[Queue.withdraw].
    apply matches_withdrawn; [done|]. cbn in *. unfold Queue.retain in *.
    erewrite filter_ext_bool; [exact Hst'|]. intros r Hr. cbn. apply eq_true_iff_eq.
    rewrite negb_true_iff, <- not_true_iff_false, andb_true_iff, orb_true_iff, !negb_true_iff, bool_decide_eq_false.
    rewrite (waiting_of_matches named s d r Hm Hr). destruct (Queue.undecided r); naive_solver.
  - split; [done|]. rewrite Hd'. destruct s as [q m st c t]. cbn in *. apply (matches_withdrawn named (mkEnrolment q m st c t)); [done|].
    destruct st as [b|]; [|done]. cbn. rewrite waiting_count with (d := d) in Hz by done.
    unfold Queue.retain. rewrite filter_ext_bool with (g := λ _, true).
    + rewrite List.forallb_filter_id; [by destruct (document d)|]. by apply forallb_forall.
    + intros r Hr. apply negb_true_iff, not_true_iff_false. intros Hf.
      assert (r ∈ List.filter (λ r, Queue.undecided r && named (bootstrap (stored_requester r))) (requests (document d))) as Hin
        by (by apply elem_of_filter_bool).
      destruct (List.filter _ _); [by apply elem_of_nil in Hin|cbn in Hz; lia].
Qed.

Lemma matches_withdraw_revoked issuers sn s d s' n :
  matches s d → withdraw_revoked issuers sn s = (s', n) →
  ∃ d', desk_withdraw (λ b, bool_decide (serial b = sn) && bool_decide (issuer b ∈ issuers)) d = (d', n) ∧ matches s' d'.
Proof.
  intros Hm. pose proof Hm as [Hst Hs Hp Hw He Hsh]. unfold withdraw_revoked. set (named := λ b, _ && _).
  assert (Hn : (desk_withdraw named d).2 = length (waiting_of named s)).
  { cbn. rewrite length_retained. symmetry. by apply waiting_count. }
  assert (Hdoc : Queue.withdraw_bootstrap issuers sn (document d) =
                 (document (desk_withdraw named d).1, (desk_withdraw named d).2)).
  { unfold Queue.withdraw_bootstrap, desk_withdraw, Queue.retain. cbn.
    rewrite (filter_ext_bool _ (λ r, negb (Queue.undecided r && named (bootstrap (stored_requester r))))); [done|].
    intros r _. unfold named. by destruct (Queue.undecided r), (bool_decide (serial _ = _)), (bool_decide (issuer _ ∈ _)). }
  destruct (desk_withdraw named d) as [d' n'] eqn:Ed. cbn in Hn, Hdoc. subst n'.
  assert (d' = (desk_withdraw named d).1) as Hd' by (by rewrite Ed). cbn.
  destruct (queue_store s) as [b|] eqn:Eb.
  - destruct (does_answered _ _ _ _ (withdraw_bootstrap_law issuers sn) Hst (withdraw_bootstrap_answered _ _ _ _ Hst))
      as (b' & -> & Hst'). rewrite Hdoc in *. cbn in *. intros [= <- <-]. exists d'. split; [done|].
    subst d'. case_match; unfold changed, set_store, drop_entries, set_entries, set_queue; cbn -[desk_withdraw];
      by apply matches_withdrawn.
  - intros [= <- <-]. exists d'. split; [done|]. subst d'.
    case_match; unfold changed, drop_entries, set_entries, set_queue; cbn; rewrite Eb; by apply matches_withdrawn.
Qed.

(** *** Decisions *)

Lemma matches_decided id dec s d st n t r :
  matches s d → Queue.find (Queue.waiting id) (document d) = Some r →
  match st with Some b => stored b (Queue.decided id dec (document d)) | None => True end →
  matches (mkEnrolment (mkQueueState (window_until_ms (queue s)) (alter (entry_decided dec) id (entries (queue s)))
             (over_share (queue s))) (max_per_bootstrap s) st n t)
    (on_document (Queue.decided id dec) d).
Proof.
  intros [_ Hs Hp Hw He Hsh] Hf Hst. split; try done.
  - by apply sound_decided.
  - cbn. rewrite He. symmetry. eapply table_decided; [by destruct Hs|exact Hf].
Qed.

Lemma matches_reject now id s d s' x :
  matches s d → reject now id s = (s', x) → ∃ d', desk_reject now id d = (d', x) ∧ matches s' d'.
Proof.
  intros Hm. unfold reject, desk_reject. destruct (expire now s) as [s1 u] eqn:Ee.
  apply (matches_expire now s d) in Ee as [Hm1 _]; [|done]. set (d1 := desk_lapse now d) in *.
  rewrite (waiting_matches s1 d1 id Hm1). unfold Queue.decide.
  destruct (Queue.find (Queue.waiting id) (document d1)) as [r|] eqn:Ef; cbn; [|intros [= <- <-]; eauto].
  unfold write_decision. pose proof Hm1 as [Hst _ _ _ _ _]. destruct (queue_store s1) as [b|] eqn:Eb.
  - destruct (does_answered _ _ _ _ (decide_law id Rejected) Hst (decide_answered _ _ _ _ Hst)) as (b' & -> & Hst').
    unfold Queue.decide in *. rewrite Ef in *. cbn in *. intros [= <- <-]. eexists. split; [done|].
    eapply (matches_decided id Rejected s1 d1 (Some b')); done.
  - cbn. intros [= <- <-]. eexists. split; [done|].
    unfold changed, hold_decision, set_entries, set_queue. cbn. rewrite Eb.
    eapply (matches_decided id Rejected s1 d1 None); done.
Qed.

Lemma matches_drop id s d r :
  matches s d → Queue.find (Queue.waiting id) (document d) = Some r → matches (withdrawn id s) (desk_drop id d).
Proof.
  intros [Hst Hs Hp Hw He Hsh] Hf. unfold withdrawn, on_store_logged, on_store. cbn.
  assert (Htab : delete id (entries (queue s)) = table (requests (Queue.withdraw [id] (document d)).1)).
  { rewrite He. cbn. symmetry. apply (table_retain hex_decode _ _ [id]); [by destruct Hs|].
    apply head_filter_Some in Hf as [Hr [Hid Hd]%waiting_true]. intros r' Hr'.
    rewrite orb_true_iff, !negb_true_iff, bool_decide_eq_false. split; [|by right].
    intros [Hu|?]; [|done]. rewrite list_elem_of_singleton. intros Hid'.
    assert (r' = r) as -> by (eapply (sound_by_id hex_decode (λ _, True) per); try done; congruence).
    unfold Queue.undecided in Hu. by rewrite Hd in Hu. }
  assert (Hsd : sound hex_decode (λ _, True) per (Queue.withdraw [id] (document d)).1) by (by apply sound_retain).
  destruct (queue_store s) as [b|] eqn:Eb.
  - destruct (does_answered _ _ _ _ (withdraw_law [id]) Hst (withdraw_answered _ _ _ Hst)) as (b' & -> & Hst').
    by split.
  - split; try done. cbn. by rewrite Eb.
Qed.

Lemma matches_approve now id host s d w s' w' x :
  matches s d →
  approve signer host (note_record record) (note_revoked is_revoked) now id s w = ((s', w'), x) →
  ∃ d', desk_approve hex_decode signer record is_revoked now id host d w = ((d', w'), x) ∧ matches s' d'.
Proof.
  intros Hm. unfold approve, desk_approve. destruct (expire now s) as [s1 u] eqn:Ee.
  apply (matches_expire now s d) in Ee as [Hm1 _]; [|done]. set (d1 := desk_lapse now d) in *. clear Hm.
  rewrite (waiting_matches s1 d1 id Hm1).
  destruct (Queue.find (Queue.waiting id) (document d1)) as [r|] eqn:Ef; cbn [fmap option_fmap option_map];
    [|intros [= <- <- <-]; eauto].
  change (entry_bootstrap (entry_of r)) with (bootstrap (stored_requester r)).
  change (pending_requester (pending (entry_of r))) with (stored_requester r).
  destruct (note_revoked is_revoked _ w) as [w1 rv]. destruct rv.
  { intros [= <- <- <-]. eexists. split; [done|]. by eapply matches_drop. }
  destruct (carried (stored_requester r)) as [subject|]; [|intros [= <- <- <-]; eauto].
  pose proof Hm1 as [Hst _ _ _ _ _].
  destruct (sign_entry signer host (note_record record) (entry_of r) subject w1) as [w2 y] eqn:Es.
  assert (Hdrop : ∀ st, match st with Some b => stored b (document d1) | None => True end →
    matches (withdrawn id (set_store st s1)) (desk_drop id d1)).
  { intros st Hst'. eapply matches_drop; [|done]. destruct Hm1. by split. }
  assert (Hsame : ∀ st, match st with Some b => stored b (document d1) | None => True end →
    matches (set_store st s1) d1).
  { intros st Hst'. destruct Hm1. by split. }
  destruct (queue_store s1) as [b|] eqn:Eb.
  - destruct (store_approve id (bootstrap (stored_requester r)) _ (b, w1)) as [[b' w3] z] eqn:E.
    pose proof (approve_answered _ b _ id (bootstrap (stored_requester r))
      (sign_entry signer host (note_record record) (entry_of r) subject) w1 Hst) as Hok.
    rewrite E in Hok. apply (approve_law (stored := stored) _ id _ _ _ (document d1)) in E; [|done].
    inversion E as [b0 er Hst' | b0 Hst' Hf | b0 r0 w0 er Hst' Hf Hsg | b0 r0 w0 dec Hst' Hf Hsg
      | b0 r0 w0 dec er Hst' Hf Hsg]; subst; try done; try congruence; rewrite Hsg in Es; injection Es as -> <-.
    + destruct er; intros [= <- <- <-]; eexists; (split; [done|]); first [by apply Hsame|by apply Hdrop].
    + intros [= <- <- <-]. eexists. split; [done|].
      by eapply (matches_decided id dec s1 d1 (Some b')).
  - destruct y as [dec|er].
    + intros [= <- <- <-]. eexists. split; [done|].
      unfold changed, hold_decision, set_entries, set_queue. cbn. rewrite Eb.
      by eapply (matches_decided id dec s1 d1 None).
    + assert (set_store None s1 = s1) as Hs1 by (destruct s1; cbn in *; by subst).
      specialize (Hdrop None I). rewrite Hs1 in Hdrop.
      destruct er; intros [= <- <- <-]; eexists; (split; [done|]); first [exact Hdrop|exact Hm1].
Qed.

Lemma table_restored l :
  NoDup (stored_id <$> l) → Forall (readable hex_decode) l → restore_entries hex_decode l ∅ = Ok (table l).
Proof.
  intros Hnd Hrd. destruct (restore_entries_spec hex_decode l ∅) as (m & -> & Hm); try done.
  f_equal. apply map_eq. intros id. apply option_eq. intros e. rewrite Hm, lookup_empty, lookup_table by done.
  split.
  - intros [?|(r & Hr & Hid & He)]; [done|]. exists r. rewrite restored_entry in He by (by eapply Forall_forall in Hrd).
    naive_solver.
  - intros (r & Hr & Hid & ->). right. exists r. rewrite restored_entry by (by eapply Forall_forall in Hrd). done.
Qed.

Lemma matches_reload s d : matches s d → matches (reload hex_decode s).1 d ∧ (reload hex_decode s).2 = Ok tt.
Proof.
  intros Hm. pose proof Hm as [Hst Hs Hp Hw He Hsh]. unfold reload. destruct (queue_store s) as [b|] eqn:Eb; [|done].
  destruct (store_load b) as [b' x] eqn:E. destruct (load_law _ _ _ _ Hst E) as [Hst' Hl].
  pose proof (load_answered _ _ Hst) as Hok. rewrite E in Hok. destruct x as [loaded|]; [|done].
  specialize (Hl loaded eq_refl). cbn.
  assert (read_state hex_decode loaded = Ok (mkQueueState (stored_until (document d)) (table (requests (document d))) ∅)) as ->.
  { rewrite <- Hl. destruct loaded as [p|]; [|done]. cbn in *. subst p. unfold state_restored.
    rewrite table_restored; [done|by destruct Hs..]. }
  cbn. rewrite bool_decide_true by done. split; [|done]. split; cbn; try done.
Qed.

(** *** Runs *)

Notation serve := (serve hex_encode hex_decode signer record is_revoked).
Notation desk_serve := (desk_serve hex_encode hex_decode signer record is_revoked per).

Fixpoint serve_all (l : list Op) (s : Enr) (w : W * list Noted) : (Enr * (W * list Noted)) * list Answer :=
  match l with
  | [] => ((s, w), [])
  | op :: l =>
      let '((s, w), a) := serve op s w in
      let (sw, answers) := serve_all l s w in (sw, a :: answers)
  end.

Fixpoint desk_serve_all (l : list Op) (d : Desk) (w : W * list Noted) : (Desk * (W * list Noted)) * list Answer :=
  match l with
  | [] => ((d, w), [])
  | op :: l =>
      let '((d, w), a) := desk_serve op d w in
      let (dw, answers) := desk_serve_all l d w in (dw, a :: answers)
  end.

(** The clock does not pass the window's end within one call: it is read once more for the store. *)
Definition prompt (op : Op) : Prop :=
  match op with OpSubmit now _ taken _ _ => (taken ≤ now)%N | _ => True end.

Hypothesis hex_round_trip : ∀ bytes, hex_decode (hex_encode bytes) = Some bytes.

Lemma matches_serve op s d w s' w' a :
  (queue_store s = None → prompt op) → matches s d → serve op s w = ((s', w'), a) →
  ∃ d', desk_serve op d w = ((d', w'), a) ∧ matches s' d'.
Proof.
  intros Hpr Hm. destruct op as [now ar tk rq rr|now|now|now secs| |now id host|now id|f|iss sn| |now]; cbn -[desk_withdraw].
  - destruct (submit _ _ _ _ _ _ _ s) as [s1 sub] eqn:E. intros [= <- <- <-].
    apply (matches_submit now ar tk rq rr s d) in E as (d' & -> & ?); eauto.
  - unfold pending_list. destruct (expire now s) as [s1 u] eqn:E. intros [= <- <- <-].
    apply (matches_expire now s d) in E as [Hm1 _]; [|done]. rewrite (matches_pending s1 _ Hm1). eauto.
  - unfold window. destruct (expire now s) as [s1 u] eqn:E. intros [= <- <- <-].
    apply (matches_expire now s d) in E as [? ->]; eauto.
  - destruct (open now secs s) as [[s1 x]|] eqn:E.
    + intros [= <- <- <-]. apply (matches_open now secs s d) in E as (d' & -> & ?); eauto.
    + intros [= <- <- <-]. revert E. unfold open, desk_open. destruct (negb _); [done|].
      destruct (window_end now secs); [done|]. eauto.
  - destruct (matches_close s d Hm) as [Hm1 Hx]. destruct (close s) as [s1 x]. cbn in Hm1, Hx. subst x.
    intros [= <- <- <-]. eauto.
  - destruct (approve _ _ _ _ now id s w) as [[s1 w1] x] eqn:E. intros [= <- <- <-].
    apply (matches_approve now id host s d) in E as (d' & -> & ?); eauto.
  - destruct (reject now id s) as [s1 x] eqn:E. intros [= <- <- <-].
    apply (matches_reject now id s d) in E as (d' & -> & ?); eauto.
  - destruct (withdraw f s) as [s1 x] eqn:E. intros [= <- <- <-].
    apply (matches_withdraw f s d) in E as (d' & -> & ?); eauto.
  - destruct (withdraw_revoked iss sn s) as [s1 x] eqn:E. intros [= <- <- <-].
    apply (matches_withdraw_revoked iss sn s d) in E as (d' & Hd & ?); [|done]. rewrite Hd. eauto.
  - destruct (matches_reload s d Hm) as [Hm1 Hx]. destruct (reload hex_decode s) as [s1 x]. cbn in Hm1, Hx. subst x.
    intros [= <- <- <-]. eauto.
  - intros [= <- <- <-]. eauto.
Qed.

Ltac keeps_store :=
  repeat (case_match; simplify_eq/=); intros; simplify_eq/=;
  repeat match goal with H : expire _ _ = _ |- _ => apply expire_store in H; [|assumption] end; try congruence.

(** A queue with a store keeps it. *)
Lemma serve_store op s w s' w' a : serve op s w = ((s', w'), a) → queue_store s' = None → queue_store s = None.
Proof.
  destruct op as [now ar tk rq rr|now|now|now secs| |now id host|now id|f|iss sn| |now]; cbn;
    unfold submit, pending_list, window, open, close, approve, reject, write_decision, withdrawn, withdraw,
      withdraw_revoked, reload, on_store_logged, on_store, hold_decision, drop_entry, drop_entries; cbn.
  all: try destruct (window_end now secs); keeps_store.
Qed.

Lemma matches_runs l s d w :
  (queue_store s = None → Forall prompt l) → matches s d →
  (serve_all l s w).2 = (desk_serve_all l d w).2 ∧
  (serve_all l s w).1.2 = (desk_serve_all l d w).1.2.
Proof.
  revert s d w. induction l as [|op l IH]; intros s d w Hpr Hm; [done|]. cbn.
  destruct (serve op s w) as [[s1 w1] a] eqn:E.
  pose proof (serve_store op s w s1 w1 a E) as Hkeep.
  apply (matches_serve op s d) in E as (d1 & -> & Hm1); [|by intros [? _]%Hpr%Forall_cons|done].
  destruct (IH s1 d1 w1) as [Ha Hw]; [|done|].
  { intros Hn. apply Hkeep, Hpr, Forall_cons in Hn as [_ ?]. done. }
  destruct (serve_all l s1 w1), (desk_serve_all l d1 w1). cbn in *. by rewrite Ha.
Qed.

Definition empty_desk : Desk := mkDesk persisted_default ∅.

Lemma matches_empty s :
  match queue_store s with Some b => stored b persisted_default | None => True end →
  max_per_bootstrap s = per → queue s = queue_default → matches s empty_desk.
Proof. intros Hst Hp Hq. split; try done; [apply sound_default|by rewrite Hq..]. Qed.

Lemma clamp_per : (1 ≤ per ≤ MAX_PENDING)%nat → Nat.min (Nat.max 1 per) MAX_PENDING = per.
Proof. lia. Qed.

Lemma start_armed now b s : (start hex_decode now per b).2 = Ok s → queue_store s ≠ None.
Proof.
  unfold start. destruct (open_on hex_decode now b) as [b' x] eqn:E. destruct x as [s0|]; [|done].
  intros [= <-]. cbn. revert E. unfold open_on. repeat case_match; intros; simplify_eq/=; done.
Qed.

Lemma start_empty now b s :
  (1 ≤ per ≤ MAX_PENDING)%nat → stored b persisted_default → (start hex_decode now per b).2 = Ok s → matches s empty_desk.
Proof.
  intros Hper Hst. unfold start, open_on. destruct (store_load b) as [b1 x] eqn:E.
  destruct (load_law _ _ _ _ Hst E) as [Hst1 Hl]. destruct x as [loaded|]; [|done].
  specialize (Hl loaded eq_refl).
  assert (read_state hex_decode loaded = Ok queue_default) as ->.
  { destruct loaded as [p|]; [|done]. cbn in Hl. by subst p. }
  cbn. intros [= <-]. apply matches_empty; [done|by apply clamp_per|done].
Qed.

(** C8: from a start on an empty store whose calls are answered, with a share per bootstrap certificate of
    one request to as many as the queue holds, the queue held in memory and written
    through answers every submission, list of what waits, approval, rejection, withdrawal, window call
    and reload exactly as one document would on which each act is done in place, and signs and records
    exactly the same; and so does a queue with no store, as long as the clock, which one submission
    reads twice, does not move on between the two. *)
Theorem queues_answer_as_one_document (l : list Op) (b : B) (w : W) (s : Enr) now :
  (1 ≤ per ≤ MAX_PENDING)%nat → stored b persisted_default → (start hex_decode now per b).2 = Ok s →
  let alone := with_max_pending_per_bootstrap per (enrolment_new : Enr) in
  let desk := desk_serve_all l empty_desk (w, []) in
  ((serve_all l s (w, [])).2 = desk.2 ∧ (serve_all l s (w, [])).1.2 = desk.1.2) ∧
  (Forall prompt l → (serve_all l alone (w, [])).2 = desk.2 ∧ (serve_all l alone (w, [])).1.2 = desk.1.2).
Proof.
  intros Hper Hst Hs alone desk. split.
  - apply matches_runs; [|by eapply start_empty]. intros Hn. by destruct (start_armed now b s Hs).
  - intros Hpr. apply matches_runs; [done|]. apply matches_empty; [done|by apply clamp_per|done].
Qed.
End Refines.
