(* ===== verification/EnrolmentActs.v ===== *)
(** * Enrolment at the Server's edge

    What the Server does with the queue: an approval over the register and the audit record
    ([AppState::approve_enrolment], [record_issued] of [fleet-server/src/fleet.rs]), and the messages of
    an enrolment connection and of a Gateway's relay ([enrol], [enrol_through_gateway], [file],
    [proves_the_handshake], and the enrolment half of [on_outbound] and of [Pushes::next] in
    [fleet-server/src/transport.rs]). Reading a signing request and a certificate is ASN.1: the reads
    are the parameter [Csrs]. *)

From S2P Require Import Prelude RustStr Rate Proto Placement Revocation Trust Bindings Reports Fs Enrolment EnrolmentRuns EnrolmentDesk.

Open Scope string_scope.
Open Scope list_scope.

(** [Peer::Enrolling]: a bootstrap certificate an authority of [[enrolment]] issued. *)
Record BootstrapPeer := mkBootstrapPeer {
  peer_subject : string;
  peer_carried : result SubjectValues string;
  peer_fingerprint : string;
  peer_id : CertId;
}.

(** What is read of a signing request, and of the certificate in its proof. *)
Record Csrs := mkCsrs {
  csr_claims : string → list N → result unit string;
  csr_bootstrap_proof : string → result (option (list N)) string;
  csr_request : string → list N → result Request string;
  bootstrap_issued : list N → result (option BootstrapPeer) string;
}.

(** What the audit record is told of an enrolment request. *)
Inductive EnrolmentEntry :=
| EnrolmentQueued (key subject : string) (requester : Requester)
| EnrolmentShareRefused (requester : Requester)
| EnrolmentRelayRefused (gateway : option string) (why : string).

(** An enrolment session: who asked, and what it asked for last ([Enrolling]). *)
Record Enrolling := mkEnrolling {
  enrolling_requester : Requester;
  enrolling_request : option Request;
  enrolling_uid : list N;
}.

Section Edge.
Context {B D L A Q : Type} `{!EnrolmentStore Q} `{!LedgerStore L} `{!Audit A}.
Context (sha256 : list N → list N) (hex_encode : list N → string) (hex_decode : string → option (list N)).
Context (encode_offer : SettingsOffer → list N) (csrs : Csrs).
Notation Srv := (Server B D L A).
Notation Enr := (Enrolment Q).

(** ** Approvals *)

(** [record_issued] for an approval: the audit record first, then [record_approved]. *)
Definition record_enrolled (now : N) (signed : Signed) (sender : list N) (c : CertId)
    : Eff Srv DecisionError unit := λ s,
  let '(s, told) :=
    match audit s with
    | None => (s, true)
    | Some a => let (a, ok) := audit_record (IssuanceSigned (signed_facts signed) sender None) a in
                (mkServer (app s) (ledger_of s) (Some a), ok)
    end in
  if negb told then (s, Err (DecisionSign "the audit record is unavailable — retry shortly"))
  else
    match ledger_of s with
    | None => (s, Ok tt)
    | Some r =>
        match record_with hex_encode now (signed_facts signed) sender None (Some c) r with
        | (r, Ok _) => (set_ledger r s, Ok tt)
        | (r, Err BootstrapRevoked) => (set_ledger r s, Err DecisionRevoked)
        | (r, Err _) => (set_ledger r s, Err (DecisionSign "cannot record the issued certificate"))
        end
    end.

(** The closure [revoked] of [approve_enrolment]. *)
Definition bootstrap_revoked (c : CertId) (s : Srv) : Srv * bool :=
  match ledger_of s with
  | None => (s, false)
  | Some r => let (r, x) := is_certificate_revoked c r in (set_ledger r s, x)
  end.

(** [approve_enrolment]; [minted] is the identity minted for the new host. *)
Definition approve_enrolment (ca : option Signer) (now recorded : N) (id minted : string) (e : option Enr) (s : Srv)
    : (option Enr * Srv) * result unit DecisionError :=
  match e with
  | None => ((None, s), Err DecisionNotFound)
  | Some e =>
      match ca with
      | None => ((Some e, s), Err (DecisionSign "this Server issues no client certificates"))
      | Some ca =>
          let '((e, s), x) := approve ca minted (record_enrolled recorded) bootstrap_revoked now id e s in
          ((Some e, s), x)
      end
  end.

(** ** Messages *)

Definition AcceptsStatus : N := 1.
Definition OffersConnectionSettings : N := 32.
Definition AcceptsConnectionSettingsRequest : N := 64.

(** [enrolment_answer]. *)
Definition enrolment_answer (ca : option Signer) (uid : list N) (cert : option (list N)) : ServerToAgent :=
  let caps := match ca with
              | Some _ => N.lor AcceptsStatus (N.lor AcceptsConnectionSettingsRequest OffersConnectionSettings)
              | None => AcceptsStatus
              end in
  mkReply uid None None
    ((λ c, compose_settings_offer sha256 encode_offer
             (Some (mkConnection "" (Some (mkTls c [] [])) 0 [])) (mkTelemetryOffer None None None)) <$> cert)
    None 0 caps None false.

Definition addressed (uid : list N) (m : ServerToAgent) : ServerToAgent :=
  mkReply uid (s_error m) (s_remote_config m) (s_connection_settings m) (s_packages m) (s_flags m)
    (s_capabilities m) (s_identification m) (s_restart m).

(** The reads of the clock in [file]: by [pending], and three by [submit]. *)
Record FileClock := mkFileClock {
  clock_listed : N;
  clock_asked : N;
  clock_arrived : N;
  clock_taken : N;
}.

(** [file], and what it tells the audit record. *)
Definition file (ca : option Signer) (at_ : FileClock) (request : Request) (requester : Requester)
    (uid : list N) (e : Enr) : Enr * ServerToAgent * list EnrolmentEntry :=
  let (e, listed) := pending_list (clock_listed at_) e in
  let new := negb (existsb (λ p, bool_decide (pending_id p = request_key request)) listed) in
  let (e, sub) := submit hex_encode hex_decode (clock_asked at_) (clock_arrived at_) (clock_taken at_) request requester e in
  let '(m, told) :=
    match sub with
    | SubmittedWaiting =>
        (enrolment_answer ca uid None,
         if new then [EnrolmentQueued (request_key request) (csr_subject request) requester] else [])
    | SubmittedIssued cert => (enrolment_answer ca uid (Some cert), [])
    | SubmittedRejected => (bad_request (CsrRefused "an operator rejected this enrolment request"), [])
    | SubmittedFull => (unavailable uid (CsrRefused "the enrolment queue is full — retry later"), [])
    | SubmittedOverShare first =>
        (unavailable uid (CsrRefused "this bootstrap certificate holds its share of the enrolment queue — retry later"),
         if first then [EnrolmentShareRefused requester] else [])
    | SubmittedClosed => (unavailable uid (CsrRefused "no enrolment window is open"), [])
    end in
  (e, addressed uid m, told).

(** [proves_the_handshake]. *)
Definition proves_the_handshake (csr : string) (handshake : Requester) : result unit string :=
  proof <-? csr_bootstrap_proof csrs csr ;;
  match proof with
  | Some der =>
      if bool_decide (hex_encode (sha256 der) = bootstrap_fingerprint handshake) then Ok tt
      else Err "the bootstrap proof names another certificate than the one this connection presented"
  | None => Ok tt
  end.

Definition pem_of (csr : list N) : result string string :=
  match from_utf8 csr with
  | Some text => Ok text
  | None => Err "the certificate signing request is not PEM"
  end.

(** [enrol]: one message on an enrolment connection. *)
Definition enrol (ca : option Signer) (at_ : FileClock) (m : Report) (session : Enrolling) (e : Enr) (s : Srv)
    : (Enrolling * Enr * Srv) * (ServerToAgent * list EnrolmentEntry) :=
  let requester := enrolling_requester session in
  let (s, refused) := bootstrap_revoked (bootstrap requester) s in
  if refused then ((session, e, s), (bad_request (CsrRefused "this connection is no longer admitted"), []))
  else
    let session := mkEnrolling requester (enrolling_request session) (m_instance_uid m) in
    match m_csr m with
    | None => ((session, e, s), (enrolment_answer ca (m_instance_uid m) None, []))
    | Some csr =>
        match (text <-? pem_of csr ;;
               _ <-? csr_claims csrs text (m_instance_uid m) ;;
               _ <-? proves_the_handshake text requester ;;
               csr_request csrs text (m_instance_uid m)) with
        | Err why => ((session, e, s), (bad_request (CsrRefused why), []))
        | Ok request =>
            let session := mkEnrolling requester (Some request) (m_instance_uid m) in
            let '(e, reply, told) := file ca at_ request requester (m_instance_uid m) e in
            ((session, e, s), (reply, told))
        end
    end.

(** [enrol_through_gateway]: [admitted] is whether the connection's own proofs still stand, and
    [gateway] the Gateway's host. *)
Definition enrol_through_gateway (ca : option Signer) (at_ : FileClock) (m : Report) (admitted : bool)
    (gateway : option string) (e : Enr) (s : Srv) : (Enr * Srv) * (ServerToAgent * list EnrolmentEntry) :=
  let uid := m_instance_uid m in
  let refuse why := (addressed uid (bad_request (CsrRefused why)), [EnrolmentRelayRefused gateway why]) in
  if negb admitted then ((e, s), refuse "this connection is no longer admitted")
  else
    match m_csr m with
    | None => ((e, s), refuse "the message carries no certificate signing request")
    | Some csr =>
        match (text <-? pem_of csr ;;
               _ <-? csr_claims csrs text uid ;;
               proof <-? csr_bootstrap_proof csrs text ;;
               der <-? (match proof with Some der => Ok der | None => Err "the bootstrap proof does not parse" end) ;;
               peer <-? map_err (λ why, "the bootstrap proof does not hold: " +:+ why) (bootstrap_issued csrs der) ;;
               match peer with Some p => Ok (text, p) | None => Err "the bootstrap proof does not hold" end) with
        | Err why => ((e, s), refuse why)
        | Ok (text, p) =>
            let (s, revoked) := bootstrap_revoked (peer_id p) s in
            if revoked then ((e, s), refuse "the bootstrap proof does not hold: its certificate is revoked")
            else
              let requester := mkRequester (peer_subject p) (peer_carried p) (peer_fingerprint p) (peer_id p) None gateway in
              match csr_request csrs text uid with
              | Err why => ((e, s), refuse why)
              | Ok request =>
                  let '(e, reply, told) := file ca at_ request requester uid e in ((e, s), (reply, told))
              end
        end
    end.

(** ** Pushes *)

(** [Pushes::next] on an enrolment connection, once the queue changed: whether it goes on. *)
Definition push_next (now : N) (session : Enrolling) (e : Enr) : Enr * bool :=
  let (e, opened) := is_open now e in
  (e, opened && negb match enrolling_request session with
                     | Some request => is_rejected (request_key request) e
                     | None => false
                     end).

(** [on_outbound] of [Push::Enrolment]. *)
Definition push_enrolment (ca : option Signer) (now arrived taken : N) (session : Enrolling) (e : Enr)
    : Enr * list ServerToAgent :=
  match enrolling_request session with
  | None => (e, [])
  | Some request =>
      let (e, sub) := submit hex_encode hex_decode now arrived taken request (enrolling_requester session) e in
      (e, match sub with
          | SubmittedIssued cert => [enrolment_answer ca (enrolling_uid session) (Some cert)]
          | _ => []
          end)
  end.
End Edge.

(** ** What is approved is registered *)

Section Registered.
Context {B D L A Q : Type} {port : EnrolmentStore Q} `{!LedgerStore L} `{!Audit A}.
Context (stored : Q → Persisted → Prop) {sole : SoleWriterQueue stored}.
Context (hex_encode : list N → string).
Notation Srv := (Server B D L A).
Notation Enr := (Enrolment Q).

Lemma issued_insert i s : issued (state_insert i s) !! cert_id (facts i) = Some i.
Proof. unfold state_insert. cbn. apply lookup_insert_eq. Qed.

(** A certificate recorded is in the register, as it was recorded. *)
Lemma recorded_is_registered now f uid p c (r r' : Revocations L) :
  record_with hex_encode now f uid p c r = (r', Ok tt) →
  issued (trust r') !! cert_id f = Some (mkIssued f (hex_encode uid) p now).
Proof.
  unfold record_with. set (checked := match c with Some _ => _ | None => _ end). destruct checked as [refused r1].
  destruct refused; [done|]. destruct (prune now r1) as [r2 [fg|e]]; [|done].
  destruct (admit_issued _ _ _ _ _ _ _ r2) as [r3 recorded] eqn:E3.
  destruct (host_of_issuance _ _ _ _) as [act h] eqn:E4.
  assert (Hin : recorded = Ok tt → issued (trust (on_state (λ s, set_hosts h (owners s) s) r3)) !! cert_id f
                  = Some (mkIssued f (hex_encode uid) p now)).
  { intros ->. revert E3. unfold admit_issued. destruct (unadmitted _ _ _ _); [done|]. unfold eff_bind, Revocation.stored.
    destruct (register_minting _ _ _ _ _) as [l [[]|]]; intros [= <-]. cbn. apply lookup_insert_eq. }
  destruct writes_hosts_by_act.
  - intros [= <- ->]. destruct act; rewrite ?logged_trust; auto.
  - destruct act as [act|]; [destruct (hosts_changed _) as [[v h'] r4] eqn:E5|]; intros Hx; injection Hx as <- ->.
    + change (logged _ r4) with (write_forgotten (Some (v, h')) r4). rewrite forgotten_trust.
      injection E5 as <- <- <-. cbn in *. auto.
    + rewrite forgotten_trust. auto.
Qed.

Lemma record_enrolled_registers now sg uid c (s s' : Srv) r :
  record_enrolled hex_encode now sg uid c s = (s', Ok tt) → ledger_of s = Some r →
  ∃ r', ledger_of s' = Some r' ∧
    issued (trust r') !! cert_id (signed_facts sg) = Some (mkIssued (signed_facts sg) (hex_encode uid) None now).
Proof.
  unfold record_enrolled. intros Hx Hr.
  destruct (match audit s with Some _ => _ | None => _ end) as [s1 told] eqn:E1.
  assert (ledger_of s1 = Some r) as Hr1.
  { revert E1. destruct (audit s); [destruct (audit_record _ _)|]; by intros [= <- <-]. }
  destruct told; cbn [negb] in Hx; [|done]. rewrite Hr1 in Hx.
  destruct (record_with _ _ _ _ _ _ r) as [r' [[]|e]] eqn:E; [|by destruct e]. injection Hx as <-.
  exists r'. split; [done|]. by eapply recorded_is_registered.
Qed.

(** C27: an approval that is answered signed the request that waited, with the subject values its
    bootstrap certificate carries and that certificate not revoked, and what it signed is in the
    register before any host can collect it: under the request's [instance_uid], issued at that
    moment, renewing nothing. *)
Theorem approved_certificates_are_registered ca now recorded id minted (e e' : Enr) (s s' : Srv) r :
  match queue_store e with Some b => ∃ p, stored b p | None => True end → ledger_of s = Some r →
  approve_enrolment hex_encode (Some ca) now recorded id minted (Some e) s = ((Some e', s'), Ok tt) →
  ∃ entry subject signed r',
    entries (queue e) !! id = Some entry ∧ decision entry = None ∧
    carried (pending_requester (pending entry)) = Ok subject ∧
    sign ca (entry_csr entry) minted subject = Ok signed ∧
    (is_certificate_revoked (entry_bootstrap entry) r).2 = false ∧ ledger_of s' = Some r' ∧
    issued (trust r') !! cert_id (signed_facts signed)
      = Some (mkIssued (signed_facts signed) (hex_encode (entry_uid entry)) None recorded) ∧
    decision <$> entries (queue e') !! id = Some (Some (Approved (pem signed))).
Proof.
  intros Hst Hr. unfold approve_enrolment, approve.
  destruct (expire now e) as [e1 u] eqn:Ee.
  assert (Hq : ∀ en, waiting_entry id e1 = Some en → e1 = e).
  { intros en [He _]%waiting_entry_spec. revert Ee. unfold expire.
    destruct (window_until_ms (queue e)) as [un|]; [|by intros [= <- <-]].
    destruct (now <? un)%N; [by intros [= <- <-]|]. cbn.
    destruct (queue_store e) as [b|]; [destruct (store_end_window un b)|];
      intros [= <- <-]; cbn in He; by rewrite lookup_empty in He. }
  destruct (waiting_entry id e1) as [en|] eqn:Ew; [|done]. rewrite (Hq en eq_refl) in *. clear Hq Ee.
  apply waiting_entry_spec in Ew as [He Hd].
  unfold bootstrap_revoked at 1. rewrite Hr.
  destruct (is_certificate_revoked (entry_bootstrap en) r) as [r1 rv] eqn:Erv. destruct rv; [done|].
  destruct (carried _) as [subject|] eqn:Ec; [|done].
  assert (Hsign : ∀ s2 d, sign_entry ca minted (record_enrolled hex_encode recorded) en subject (set_ledger r1 s) = (s2, Ok d) →
    ∃ signed r', sign ca (entry_csr en) minted subject = Ok signed ∧ d = Approved (pem signed) ∧ ledger_of s2 = Some r' ∧
      issued (trust r') !! cert_id (signed_facts signed)
        = Some (mkIssued (signed_facts signed) (hex_encode (entry_uid en)) None recorded)).
  { intros s2 d. unfold sign_entry, eff_bind, eff_of, eff_ret.
    destruct (sign ca (entry_csr en) minted subject) as [sg|]; [|done]. cbn.
    destruct (record_enrolled _ _ _ _ _ _) as [s3 [[]|]] eqn:E3; intros [= <- <-].
    destruct (record_enrolled_registers _ _ _ _ _ _ _ E3 eq_refl) as (r' & ? & ?). eauto 6. }
  assert (Hfin : ∀ s2 d st, sign_entry ca minted (record_enrolled hex_encode recorded) en subject (set_ledger r1 s) = (s2, Ok d) →
    e' = changed (hold_decision id d (set_store st e)) → s' = s2 → ∃ entry subject signed r',
    entries (queue e) !! id = Some entry ∧ decision entry = None ∧
    carried (pending_requester (pending entry)) = Ok subject ∧
    sign ca (entry_csr entry) minted subject = Ok signed ∧
    (is_certificate_revoked (entry_bootstrap entry) r).2 = false ∧ ledger_of s' = Some r' ∧
    issued (trust r') !! cert_id (signed_facts signed)
      = Some (mkIssued (signed_facts signed) (hex_encode (entry_uid entry)) None recorded) ∧
    decision <$> entries (queue e') !! id = Some (Some (Approved (pem signed)))).
  { intros s2 d st Hs -> ->. destruct (Hsign s2 d Hs) as (signed & r' & Hsg & -> & Hl & Hi).
    exists en, subject, signed, r'. cbn [queue changed hold_decision set_entries set_queue set_store entries]. rewrite lookup_alter_eq, He, Erv. done. }
  destruct (queue_store e) as [b|] eqn:Eb.
  - destruct Hst as [p Hst]. destruct (store_approve _ _ _ _) as [[b' s2] x] eqn:E. cbn.
    apply (approve_law (stored := stored) _ id _ _ _ p) in E; [|done].
    inversion E as [b0 er Hst' | b0 Hst' Hf | b0 r0 w0 er Hst' Hf Hsg | b0 r0 w0 d Hst' Hf Hsg
      | b0 r0 w0 d er Hst' Hf Hsg]; subst; try done; [by destruct er|].
    intros [= <- <-]. by eapply (Hfin _ d (Some b')).
  - destruct (sign_entry _ _ _ en subject _) as [s2 [d|er]] eqn:E; [|by destruct er]. cbn.
    intros [= <- <-]. eapply (Hfin s2 d None); [done| |done]. destruct e. cbn in *. by subst.
Qed.
End Registered.

(** ** What a push does to a withdrawn request *)

Section Pushed.
Context {Q : Type} {port : EnrolmentStore Q} (stored : Q → Persisted → Prop).
Context {sole : SoleWriterQueue stored} {reliable : ReliableQueue stored}.
Context (sha256 : list N → list N) (hex_encode : list N → string) (hex_decode : string → option (list N)).
Context (encode_offer : SettingsOffer → list N) (per : nat).
Notation Enr := (Enrolment Q).
Notation matches := (matches stored hex_decode per).

Lemma share_filter_lt (f : PersistedRequest → bool) c l r :
  r ∈ l → f r = false → Queue.of_bootstrap c r = true → (share c (List.filter f l) < share c l)%nat.
Proof.
  induction l as [|a l IH]; [by intros ?%elem_of_nil|]. intros [->|Hr]%elem_of_cons Hf Hc.
  - pose proof (share_retain f c l). unfold share in *. cbn [List.filter]. rewrite Hf, Hc. cbn [length]. lia.
  - specialize (IH Hr Hf Hc). unfold share in *. cbn [List.filter]. destruct (f a); cbn [List.filter];
      destruct (Queue.of_bootstrap c a); cbn [length]; lia.
Qed.

Lemma length_filter_lt {A} (f : A → bool) l r : r ∈ l → f r = false → (length (List.filter f l) < length l)%nat.
Proof.
  induction l as [|a l IH]; [by intros ?%elem_of_nil|]. intros [->|Hr]%elem_of_cons Hf; cbn.
  - rewrite Hf. pose proof (filter_length_le f l). lia.
  - specialize (IH Hr Hf). destruct (f a); cbn; lia.
Qed.

(** A withdrawal that takes a waiting request out of the queue wakes the connections. *)
Lemma withdraw_revoked_wakes issuers sn (e e1 : Enr) n id :
  id ∈ waiting_of (λ b, bool_decide (serial b = sn) && bool_decide (issuer b ∈ issuers)) e →
  withdraw_revoked issuers sn e = (e1, n) → (changes e < changes e1)%N.
Proof.
  intros Hin. unfold withdraw_revoked. set (ids := waiting_of _ e) in *.
  assert (Hlen : (0 <? length ids)%nat = true)
    by (destruct ids; [by apply elem_of_nil in Hin|done]).
  destruct (queue_store (drop_entries ids e)) as [b|];
    [destruct (store_withdraw_bootstrap issuers sn b) as [b' x]|];
    rewrite Hlen, orb_true_r; intros [= <- <-]; cbn; lia.
Qed.

(** A woken connection goes on while the window is open and its request is not held as rejected. *)
Lemma push_next_goes_on now until session request (e : Enr) :
  window_until_ms (queue e) = Some until → (now < until)%N → enrolling_request session = Some request →
  entries (queue e) !! request_key request = None → push_next now session e = (e, true).
Proof.
  intros Hw Hlt Hr He. unfold push_next, is_open, window, expire. rewrite Hw, (proj2 (N.ltb_lt now until)) by done.
  rewrite Hr. unfold is_rejected. by rewrite He.
Qed.

(** C37: a withdrawal is undone by the session it wakes: over a store whose calls are answered, or with
    none and a clock that does not move on within the push, and while the window is open, revoking a bootstrap certificate withdraws its waiting requests
    and wakes the connections of the queue; the connection of such a request goes on, and its push
    submits the request again without asking whether its certificate is revoked, so that it waits in
    the queue again. *)
Theorem withdrawn_requests_are_queued_again ca looked now arrived taken until request (session : Enrolling)
    (e e1 e2 e3 : Enr) d entry n goes_on ms :
  (∀ bytes, hex_decode (hex_encode bytes) = Some bytes) → matches e d →
  window_until_ms (queue e) = Some until → (looked < until)%N → (now < until)%N → (taken < until)%N →
  (queue_store e = None → taken ≤ now)%N →
  enrolling_request session = Some request →
  entries (queue e) !! request_key request = Some entry → decision entry = None →
  entry_bootstrap entry = bootstrap (enrolling_requester session) →
  let c := bootstrap (enrolling_requester session) in
  withdraw_revoked [issuer c] (serial c) e = (e1, n) →
  push_next looked session e1 = (e2, goes_on) →
  push_enrolment sha256 hex_encode hex_decode encode_offer ca now arrived taken session e2 = (e3, ms) →
  entries (queue e1) !! request_key request = None ∧ (changes e < changes e1)%N ∧ goes_on = true ∧ ms = [] ∧
  ∃ entry', entries (queue e3) !! request_key request = Some entry' ∧ decision entry' = None ∧
    entry_bootstrap entry' = c.
Proof.
  intros Hhex Hm Hw Hlook Hnow Htk Hst Hreq He Hd Hb c Hwd Hnext Hpush.
  pose proof (matches_sound _ _ _ _ _ Hm) as Hs. pose proof (matches_entries _ _ _ _ _ Hm) as Htab.
  assert (Hr : ∃ r, r ∈ requests (document d) ∧ stored_id r = request_key request ∧ entry = entry_of hex_decode r).
  { rewrite Htab in He. by apply lookup_table in He; [|destruct Hs]. }
  destruct Hr as (r & Hr & Hid & ->).
  assert (Hkeep : queue_store e1 = None → queue_store e = None).
  { revert Hwd. unfold withdraw_revoked. cbn. destruct (queue_store e); [|done].
    destruct (store_withdraw_bootstrap _ _ _). intros [= <- <-]. by case_match. }
  pose proof (withdraw_revoked_wakes _ _ _ _ _ (request_key request) ltac:(
    rewrite <- Hid; apply (waiting_of_matches stored hex_decode per _ e d r Hm Hr); unfold Queue.undecided, entry_bootstrap in *;
    cbn in Hd, Hb; rewrite Hd, Hb, !bool_decide_true by (done || by left); done) Hwd) as Hwake.
  apply (matches_withdraw_revoked stored hex_decode per _ _ _ d) in Hwd as (d1 & Hd1 & Hm1); [|done].
  set (named := λ b, _ && _) in Hd1.
  assert (Hgone : negb (Queue.undecided r && named (bootstrap (stored_requester r))) = false).
  { apply negb_false_iff, andb_true_iff. split; [unfold Queue.undecided; cbn in Hd; by rewrite Hd|].
    unfold entry_bootstrap in Hb. cbn in Hb. unfold named. rewrite Hb. apply andb_true_iff.
    split; apply bool_decide_eq_true; [done|by left]. }
  assert (Hdoc : document d1 = Queue.retain (λ r, negb (Queue.undecided r && named (bootstrap (stored_requester r)))) (document d)
    ∧ refused_share d1 = refused_share d) by (by injection Hd1 as <- _).
  destruct Hdoc as [Hdoc _].
  assert (Hfind : Queue.find (Queue.named (request_key request)) (document d1) = None).
  { destruct (Queue.find _ _) as [r'|] eqn:Ef; [|done]. apply head_filter_Some in Ef as [Hr' Hn].
    unfold Queue.named in Hn. apply bool_decide_eq_true in Hn. rewrite Hdoc in Hr'. cbn in Hr'.
    apply elem_of_filter_bool in Hr' as [Hr' Hk].
    assert (r' = r) as -> by (eapply (sound_by_id hex_decode (λ _, True) per); try done; congruence).
    by rewrite Hgone in Hk. }
  assert (Hun : stored_until (document d1) = Some until).
  { rewrite Hdoc. cbn. rewrite <- Hw. symmetry. apply (matches_window _ _ _ _ _ Hm). }
  assert (Hout : entries (queue e1) !! request_key request = None)
    by (rewrite (matches_entries _ _ _ _ _ Hm1); by eapply find_unnamed; [apply (matches_sound _ _ _ _ _ Hm1)|]).
  rewrite (push_next_goes_on looked until session request e1) in Hnext;
    [|by rewrite (matches_window _ _ _ _ _ Hm1)|done..]. injection Hnext as <- <-.
  do 3 (split; [done|]). unfold push_enrolment in Hpush. rewrite Hreq in Hpush.
  destruct (submit _ _ _ _ _ _ _ e1) as [e4 sub] eqn:E.
  apply (matches_submit stored hex_encode hex_decode per now arrived taken request _ e1 d1) in E as (d2 & Hd2 & Hm2);
    [|done|by intros ?%Hkeep%Hst|done].
  revert Hd2. unfold desk_submit, desk_lapse. rewrite Hun. destruct (N.ltb_spec now until); [|lia].
  rewrite Hun, Hfind. unfold Queue.take. rewrite Hun. cbn [Queue.ended].
  rewrite (proj2 (N.leb_gt _ _)) by done. change (stored_id (filed _ _ _ _)) with (request_key request).
  rewrite Hfind. rewrite (proj2 (Nat.leb_gt MAX_PENDING (length (requests (document d1))))); cycle 1.
  { rewrite Hdoc. cbn. eapply Nat.lt_le_trans; [by eapply length_filter_lt|]. by destruct Hs. }
  rewrite (proj2 (Nat.leb_gt per (length (List.filter _ (requests (document d1)))))); cycle 1.
  { rewrite Hdoc. cbn [requests Queue.retain]. eapply (Nat.lt_le_trans _ (share c (requests (document d)))); [|by destruct Hs].
    eapply share_filter_lt; [exact Hr|done|]. unfold Queue.of_bootstrap. by apply bool_decide_eq_true. }
  intros [= <- <-]. injection Hpush as <- <-. split; [done|].
  set (r2 := filed hex_encode arrived request (enrolling_requester session)) in *.
  exists (entry_of hex_decode r2). split; [|done].
  rewrite (matches_entries _ _ _ _ _ Hm2). apply lookup_table; [apply (sound_ids _ _ _ _ (matches_sound _ _ _ _ _ Hm2))|].
  exists r2. split; [|done]. cbn. apply elem_of_app. right. by left.
Qed.
End Pushed.
