(* ===== verification/EnrolmentSamples.v ===== *)
(** * Samples of the enrolment queue

    A store with a script of which writes fail, and runs over it: the inputs at which the theorems on
    the queue are applied, and what the code does where its documentation says otherwise. *)

From S2P Require Import Prelude RustStr Rate Placement Revocation Bindings Reports Exchanges Fs Enrolment EnrolmentPort EnrolmentRuns EnrolmentSafe EnrolmentDesk EnrolmentActs.

Open Scope string_scope.
Open Scope list_scope.

(** How a write ends: done, failed with nothing written, or failed once the document was replaced. *)
Inductive WriteEnd :=
| WriteDone
| WriteLost
| WriteLate.

Record Scripted := mkScripted {
  kept : Persisted;
  script : list WriteEnd;
}.

Definition scripted_load : Eff Scripted EnrolmentError (option Persisted) := λ b, (b, Ok (Some (kept b))).

Definition scripted_save (p : Persisted) : Eff Scripted EnrolmentError unit := λ b,
  match script b with
  | [] => (mkScripted p [], Ok tt)
  | WriteDone :: rest => (mkScripted p rest, Ok tt)
  | WriteLost :: rest => (mkScripted (kept b) rest, Err EnrolmentStoreFailed)
  | WriteLate :: rest => (mkScripted p rest, Err EnrolmentStoreFailed)
  end.

#[export] Instance scripted : EnrolmentStore Scripted := whole_store scripted_load scripted_save.

Definition scripted_stored (b : Scripted) (p : Persisted) : Prop := kept b = p.

#[export] Instance scripted_sole : SoleWriterQueue scripted_stored.
Proof.
  apply whole_store_is_sole_writer; unfold scripted_stored.
  - intros b p b' x <- [= <- <-]. split; [done|]. by intros loaded [= <-].
  - intros b p q b' x <-. unfold scripted_save. repeat case_match; intros [= <- <-]; cbn; auto.
Qed.

(** The script has run out: every write is done. *)
Definition done_stored (b : Scripted) (p : Persisted) : Prop := kept b = p ∧ script b = [].

#[export] Instance done_sole : SoleWriterQueue done_stored.
Proof.
  apply whole_store_is_sole_writer; unfold done_stored.
  - intros b p b' x [<- ?] [= <- <-]. split; [done|]. by intros loaded [= <-].
  - intros b p q b' x [<- Hs]. unfold scripted_save. rewrite Hs. intros [= <- <-]; cbn; auto.
Qed.

#[export] Instance done_reliable : ReliableQueue done_stored.
Proof.
  split; intros; match goal with H : done_stored _ _ |- _ => destruct H as [Hk Hs] end; destruct b as [q sc];
    cbn in Hs; subst sc; try done.
  - cbn. unfold default_take, eff_bind, scripted_load, scripted_save. cbn. by repeat case_match.
  - cbn. unfold default_decide, eff_bind, scripted_load, scripted_save. cbn. by repeat case_match.
  - cbn. unfold default_approve, on_left, eff_bind, eff_ret, scripted_load, scripted_save. cbn.
    by repeat (case_match; cbn; simplify_eq/=).
  - cbn. unfold default_withdraw_bootstrap, eff_bind, eff_ret, scripted_load, scripted_save. cbn. by repeat (case_match; cbn; simplify_eq/=).
  - cbn. unfold default_end_window, eff_bind, eff_ret, scripted_load, scripted_save. cbn. by repeat (case_match; cbn; simplify_eq/=).
Qed.

(** ** Runs *)

Definition sample_cert : list N := [80; 69; 77]%N.
Definition sample_facts : Facts :=
  mkFacts (mkCertId "client-ca" "c1") "CN=client-ca" "CN=host-1" "fp" 1000 (Some "host-1") subject_default.
Definition sample_signer : Signer :=
  mkSigner (λ _ _ _, Ok (mkSigned sample_cert sample_facts)) (λ _, Ok None) (λ _, Ok None) (λ _ _, Ok tt).
Definition sample_record (_ : Signed) (_ : list N) (_ : CertId) : Eff unit DecisionError unit := eff_ret tt.
Definition sample_revoked (_ : CertId) (w : unit) : unit * bool := (w, false).

Definition sample_request (key : string) : Request := mkRequest ("csr of " +:+ key) "CN=any" key [7]%N.
Definition sample_requester : Requester :=
  mkRequester "CN=site" (Ok subject_default) "fp" (mkCertId "bootstrap-ca" "b1") None None.

Definition ask (at_ : N) (key : string) : Op := OpSubmit at_ at_ at_ (sample_request key) sample_requester.

(** The write of the approval fails once it has landed, and the Server crashes. *)
Definition sample_ops : list Op :=
  [OpStart 0; OpOpen 0 60; ask 10 "k1"; OpApprove 20 "k1" "host-1"; ask 25 "k2"; OpStart 30]%N.
Definition sample_script : list WriteEnd := [WriteDone; WriteDone; WriteLate; WriteLost].

Notation sample_store := (mkScripted persisted_default sample_script).
Notation sample_encode := (write_code (A := list N)).
Notation sample_decode := (read_code (A := list N)).
Notation sample_all l :=
  (perform_all sample_encode sample_decode sample_signer sample_record sample_revoked 2 l
     (mkSys (Down sample_store) tt [])).
Notation sample_perform op l :=
  (perform sample_encode sample_decode sample_signer sample_record sample_revoked 2 op (sample_all l)).

Lemma sample_share : (1 ≤ 2 ≤ MAX_PENDING)%nat.
Proof. unfold MAX_PENDING. lia. Qed.

Lemma queue_stays_within_bounds_witness :
  ∃ s, process (sample_all sample_ops) = Up s ∧ size (entries (queue s)) = 1%nat ∧
    (size (entries (queue s)) ≤ MAX_PENDING)%nat ∧
    ∀ c, (size (filter (λ kv : string * Entry, entry_bootstrap kv.2 = c) (entries (queue s))) ≤ 2)%nat.
Proof.
  destruct (process (sample_all sample_ops)) as [s|b] eqn:E; [|by vm_compute in E].
  exists s. split; [reflexivity|].
  destruct (queue_stays_within_bounds scripted_stored sample_encode sample_decode sample_signer sample_record
    sample_revoked 2 read_write_code sample_share sample_ops sample_store tt s eq_refl E) as (H1 & H2 & _).
  split; [|exact (conj H1 H2)]. vm_compute in E. injection E as <-. vm_compute. reflexivity.
Defined.

Lemma collected_certificates_were_signed_witness :
  ∃ y, sample_perform (ask 40 "k1") sample_ops = (y, AnsSubmitted (SubmittedIssued sample_cert)) ∧
    ∃ now0 arrived0 taken0 request0 requester0 subject host signed,
      OpSubmit now0 arrived0 taken0 request0 requester0 ∈ sample_ops ∧ request_key request0 = "k1" ∧
      carried requester0 = Ok subject ∧ sign sample_signer (csr_pem request0) host subject = Ok signed ∧
      pem signed = sample_cert ∧ mkNoted signed (request_uid request0) (bootstrap requester0) ∈ noted y.
Proof.
  destruct (sample_perform (ask 40 "k1") sample_ops) as [y a] eqn:E.
  assert (a = AnsSubmitted (SubmittedIssued sample_cert)) as Ha
    by (transitivity (sample_perform (ask 40 "k1") sample_ops).2; [by rewrite E|vm_compute; reflexivity]).
  rewrite Ha in E. exists y. rewrite Ha. split; [reflexivity|].
  exact (collected_certificates_were_signed scripted_stored sample_encode sample_decode sample_signer sample_record
    sample_revoked 2 read_write_code sample_share sample_ops sample_store tt 40 40 40 (sample_request "k1")
    sample_requester y sample_cert eq_refl E).
Defined.

Lemma crashes_lose_no_request_witness :
  let l := [OpStart 0; OpOpen 0 60; ask 10 "k1"]%N in
  ∃ s, process (sample_all l) = Up s ∧ entries (queue s) !! "k1" ≠ None ∧
    ∃ b1 p, queue_store s = Some b1 ∧ kept b1 = p ∧
      ∀ until now y, stored_until p = Some until → (now < until)%N →
        sample_perform (OpStart now) l = (y, AnsStarted true) →
        ∃ s', process y = Up s' ∧ window_until_ms (queue s') = Some until.
Proof.
  intros l. destruct (process (sample_all l)) as [s|b] eqn:E; [|by vm_compute in E].
  exists s. split; [reflexivity|]. split.
  { clear -E. vm_compute in E. injection E as <-. by vm_compute. }
  destruct (crashes_lose_no_request scripted_stored sample_encode sample_decode sample_signer sample_record
    sample_revoked 2 read_write_code sample_share l sample_store tt s eq_refl E) as (b1 & p & Hb & Hp & H).
  exists b1, p. split; [exact Hb|]. split; [exact Hp|]. intros un now y Hu Hn Hy.
  destruct (H un now y Hu Hn Hy) as (s' & Hs' & Hw & _). exists s'. exact (conj Hs' Hw).
Defined.

Lemma decided_requests_are_not_signed_again_witness :
  ∃ s, process (sample_all sample_ops) = Up s ∧
    ∃ b1 p, queue_store s = Some b1 ∧ kept b1 = p ∧
      ∀ id, (∀ r, r ∈ requests p → stored_id r = id → stored_decision r ≠ None) →
        ∀ now host y a, sample_perform (OpApprove now id host) sample_ops = (y, a) →
          noted y = noted (sample_all sample_ops) ∧ ∃ e, a = AnsDecided (Err e).
Proof.
  destruct (process (sample_all sample_ops)) as [s|b] eqn:E; [|by vm_compute in E].
  exists s. split; [reflexivity|].
  exact (decided_requests_are_not_signed_again scripted_stored sample_encode sample_decode sample_signer
    sample_record sample_revoked 2 read_write_code sample_share sample_ops sample_store tt s eq_refl E).
Defined.

Lemma queues_answer_as_one_document_witness :
  let b := mkScripted persisted_default [] in
  let l := [OpOpen 0 60; ask 10 "k1"; ask 11 "k2"; ask 12 "k3"; OpApprove 20 "k1" "host-1"; ask 21 "k1";
            OpPending 22; OpReload; OpClose; OpPending 23]%N in
  let run := desk_serve_all sample_encode sample_decode sample_signer sample_record sample_revoked 2 l empty_desk (tt, []) in
  run.2 = [AnsWindow (Ok 60000%N); AnsSubmitted SubmittedWaiting; AnsSubmitted SubmittedWaiting;
           AnsSubmitted (SubmittedOverShare true); AnsDecided (Ok tt); AnsSubmitted (SubmittedIssued sample_cert);
           AnsPending [mkPending "k2" 11 "k2" sample_requester]; AnsSaved (Ok tt); AnsSaved (Ok tt); AnsPending []] ∧
  ∀ s, (start sample_decode 0 2 b).2 = Ok s →
    (serve_all sample_encode sample_decode sample_signer sample_record sample_revoked l s (tt, [])).2 = run.2.
Proof.
  intros b l run. split; [vm_compute; reflexivity|]. intros s Hs.
  destruct (queues_answer_as_one_document done_stored sample_encode sample_decode sample_signer sample_record
    sample_revoked 2 read_write_code l b tt s 0 sample_share (conj eq_refl eq_refl) Hs) as [[H _] _].
  exact H.
Defined.

(** ** What the code does where its documentation says otherwise *)

(** C38: requests that expired come back: [open] does not look whether the window it finds has run out,
    so a window opened again after its end, before anything looked at it, holds every request of the
    old one, waiting and approved, and its bootstrap certificates refused for their share; had anything
    looked at the window in between, it would hold none. *)
Theorem reopened_windows_keep_expired_requests {B : Type} {port : EnrolmentStore B}
    (s s' : Enrolment B) (now secs until u : N) :
  window_until_ms (queue s) = Some until → (until ≤ now)%N → open now secs s = Some (s', Ok u) →
  window_until_ms (queue s') = Some u ∧ entries (queue s') = entries (queue s) ∧
  over_share (queue s') = over_share (queue s) ∧
  ∀ s'' x, open now secs (window now s).1 = Some (s'', x) → entries (queue s'') = ∅.
Proof.
  intros Hw Hle Hopen. split_and!.
  1-3: revert Hopen; unfold open, on_store; destruct (negb _); [done|]; destruct (window_end now secs); [|done]; cbn;
    repeat case_match; intros [= <- <-]; simplify_eq/=; done.
  intros s'' x. assert (entries (queue (window now s).1) = ∅) as He.
  { unfold window, expire. rewrite Hw. destruct (N.ltb_spec now until); [lia|]. cbn.
    destruct (queue_store s) as [b|]; cbn; [by destruct (store_end_window until b)|done]. }
  unfold open, on_store. destruct (negb _); [by intros [= <- <-]|]. destruct (window_end now secs); [|done]. cbn.
  repeat case_match; intros [= <- <-]; simplify_eq/=; done.
Qed.

Lemma reopened_windows_keep_expired_requests_witness :
  let old := perform_all sample_encode sample_decode sample_signer sample_record sample_revoked 2
    [OpStart 0; OpOpen 0 60; ask 10 "k1"]%N (mkSys (Down (mkScripted persisted_default [])) tt []) in
  ∃ s s' u, process old = Up s ∧ open 3600000 60 s = Some (s', Ok u) ∧
    entries (queue s') = entries (queue s) ∧ entries (queue s') !! "k1" ≠ None.
Proof.
  intros old. destruct (process old) as [s|b] eqn:E; [|by vm_compute in E].
  destruct (open 3600000 60 s) as [[s' [u|x]]|] eqn:Eo; cycle 1.
  { exfalso. vm_compute in E. injection E as <-. by vm_compute in Eo. }
  { exfalso. vm_compute in E. injection E as <-. by vm_compute in Eo. }
  assert (window_until_ms (queue s) = Some 60000%N) as Hw by (vm_compute in E; by injection E as <-).
  exists s, s', u. split; [reflexivity|]. split; [exact Eo|].
  destruct (reopened_windows_keep_expired_requests s s' 3600000 60 60000 u Hw ltac:(lia) Eo) as (_ & He & _).
  split; [exact He|]. rewrite He. clear -E. vm_compute in E. injection E as <-. by vm_compute.
Defined.

(** ** At the edge *)

Notation waiting_run :=
  (perform_all sample_encode sample_decode sample_signer sample_record sample_revoked 2
    [OpStart 0; OpOpen 0 60; ask 10 "k1"]%N (mkSys (Down (mkScripted persisted_default [])) tt [])).

Definition waiting_queue : Enrolment Scripted :=
  Eval vm_compute in match process waiting_run with Up s => s | Down _ => enrolment_new end.

Definition approving_server : MemoryServer := mkServer sample_app (Some opened) None.

Notation approval :=
  (approve_enrolment sample_hex (Some sample_signer) 20 21 "k1" "host-1" (Some waiting_queue) approving_server).
Notation approved_queue := (match approval.1.1 with Some e => e | None => waiting_queue end).

Lemma approved_certificates_are_registered_witness :
  ∃ signed r', ledger_of approval.1.2 = Some r' ∧
    issued (trust r') !! cert_id (signed_facts signed) = Some (mkIssued (signed_facts signed) "one" None 21) ∧
    decision <$> entries (queue approved_queue) !! "k1" = Some (Some (Approved (pem signed))).
Proof.
  assert (Hrun : approval = ((Some approved_queue, approval.1.2), Ok tt)) by (vm_compute; reflexivity).
  assert (Hst : ∃ p, scripted_stored (mkScripted (kept (default (mkScripted persisted_default []) (queue_store waiting_queue))) []) p)
    by (by eexists).
  pose proof (approved_certificates_are_registered scripted_stored sample_hex sample_signer 20 21 "k1" "host-1"
    waiting_queue approved_queue approving_server approval.1.2 opened Hst eq_refl) as H.
  destruct (H Hrun) as (entry & subject & signed & r' & He & _ & _ & _ & _ & Hl & Hi & Hd).
  exists signed, r'. split; [exact Hl|]. split; [|exact Hd]. rewrite Hi.
  assert (Some entry = entries (queue waiting_queue) !! "k1") as Hen by (by rewrite He).
  vm_compute in Hen. injection Hen as ->. reflexivity.
Defined.

(** A session that waits for the request of [waiting_queue]. *)
Definition waiting_session : Enrolling := mkEnrolling sample_requester (Some (sample_request "k1")) [7]%N.
Notation after_withdrawal := (withdraw_revoked ["bootstrap-ca"] "b1" waiting_queue).
Notation after_push :=
  (push_enrolment sample_sha sample_encode sample_decode encode_nothing (Some sample_signer) 20 20 20 waiting_session
     (push_next 20 waiting_session after_withdrawal.1).1).
Notation waiting_desk := (mkDesk (kept (default (mkScripted persisted_default []) (queue_store waiting_queue))) ∅).

Lemma waiting_matches_desk : matches done_stored sample_decode 2 waiting_queue waiting_desk.
Proof.
  split; try (vm_compute; reflexivity).
  - by split.
  - split.
    + vm_compute. apply NoDup_singleton.
    + by repeat constructor.
    + repeat constructor. exists [7]%N. vm_compute; reflexivity.
    + apply Nat.leb_le. vm_compute. reflexivity.
    + intros c. unfold share. etransitivity; [apply filter_length_le|]. apply Nat.leb_le. vm_compute. reflexivity.
Qed.

Lemma withdrawn_requests_are_queued_again_witness :
  after_withdrawal.2 = 1%nat ∧ entries (queue after_withdrawal.1) !! "k1" = None ∧
  (changes waiting_queue < changes after_withdrawal.1)%N ∧ (push_next 20 waiting_session after_withdrawal.1).2 = true ∧
  after_push.2 = [] ∧
  ∃ entry, entries (queue after_push.1) !! "k1" = Some entry ∧ decision entry = None ∧
    entry_bootstrap entry = mkCertId "bootstrap-ca" "b1".
Proof.
  split; [vm_compute; reflexivity|].
  destruct (entries (queue waiting_queue) !! "k1") as [entry|] eqn:E; [|by vm_compute in E].
  assert (decision entry = None ∧ entry_bootstrap entry = mkCertId "bootstrap-ca" "b1") as [Hd Hb]
    by (clear -E; vm_compute in E; by injection E as <-).
  exact (withdrawn_requests_are_queued_again done_stored sample_sha sample_encode sample_decode encode_nothing 2
    (Some sample_signer) 20 20 20 20 60000 (sample_request "k1") waiting_session waiting_queue after_withdrawal.1
    (push_next 20 waiting_session after_withdrawal.1).1 after_push.1
    waiting_desk entry after_withdrawal.2 (push_next 20 waiting_session after_withdrawal.1).2 after_push.2 read_write_code waiting_matches_desk eq_refl ltac:(lia) ltac:(lia) ltac:(lia)
    ltac:(done) eq_refl E Hd Hb (surjective_pairing _) (surjective_pairing _) (surjective_pairing _)).
Defined.

(** An approval answered as not persisted, its request said to wait still, may be stored all the same:
    the write failed once the document was replaced, and the host collects the certificate after the
    next start. *)
Theorem failed_approvals_are_handed_over :
  (sample_perform (OpApprove 20 "k1" "host-1") [OpStart 0; OpOpen 0 60; ask 10 "k1"]%N).2
    = AnsDecided (Err (DecisionStore EnrolmentStoreFailed)) ∧
  (sample_perform (ask 40 "k1") sample_ops).2 = AnsSubmitted (SubmittedIssued sample_cert).
Proof. split; vm_compute; reflexivity. Qed.
