(* ===== verification/Bootstrap.v ===== *)
(** * Bootstrap certificates

    [fleet-server/src/bootstrap.rs], with [check_password] of [fleet-core/src/pkcs12.rs] and the three
    routes of [fleet-server/src/api.rs] that issue, hand out and delete one: what an operator asks for
    is checked, the bootstrap CA signs it, and the Server keeps what it signed with the PKCS#12 file of
    its key until it ends, is revoked or is deleted. The signer's answer is an argument, as is each read
    of the clock; the store is a port, [BootstrapStore], whose bodies are [default_put_with_p12] and
    [default_put_within]. A refusal is the data its text is formatted from. *)

From S2P Require Import Prelude RustStr Placement Revocation.

Open Scope string_scope.
Open Scope list_scope.

Definition DEFAULT_VALIDITY_DAYS : N := 10.
Definition MAX_VALIDITY_DAYS : N := 90.
Definition MAX_VALID : nat := 10000.
Definition MAX_VALUE_CHARS : nat := 64.
Definition MIN_PASSWORD_CHARS : nat := 8.
Definition MAX_PASSWORD_CHARS : nat := 128.
Definition DAY_MS : N := 86400000.

(** ** Text *)

(** [chars().count()] of UTF-8: every byte that does not continue a character. *)
Fixpoint chars_count (s : string) : nat :=
  match s with
  | EmptyString => 0
  | String c s => (if in_range 128 191 c then 0 else 1) + chars_count s
  end.

(** [chars().any(char::is_control)]: the C0 and C1 characters and DEL. *)
Fixpoint any_control (s : string) : bool :=
  match s with
  | EmptyString => false
  | String c s =>
      in_range 0 31 c || (byte_of c =? 127)%N ||
      (byte_of c =? 194)%N && match s with String d _ => in_range 128 159 d | EmptyString => false end ||
      any_control s
  end.

(** ** The subject *)

Module Attribute.
Inductive t := Country | State | Locality | Organization | OrganizationalUnit | OrganizationIdentifier | CommonName.

#[export] Instance eq_dec : EqDecision t.
Proof. solve_decision. Defined.

Definition CARRIED : list t := [Country; State; Locality; Organization; OrganizationalUnit; OrganizationIdentifier].

Definition key (a : t) : string :=
  match a with
  | Country => "country"
  | State => "state"
  | Locality => "locality"
  | Organization => "organization"
  | OrganizationalUnit => "organizational_unit"
  | OrganizationIdentifier => "organization_identifier"
  | CommonName => "common_name"
  end.

Definition oid (a : t) : string :=
  match a with
  | Country => "2.5.4.6"
  | State => "2.5.4.8"
  | Locality => "2.5.4.7"
  | Organization => "2.5.4.10"
  | OrganizationalUnit => "2.5.4.11"
  | OrganizationIdentifier => "2.5.4.97"
  | CommonName => "2.5.4.3"
  end.

Definition printable (a : t) : bool := bool_decide (a = Country).

Inductive refused := NotTwoLetters (a : t) | NotInLength (a : t) | HasControl (a : t).

Definition check (a : t) (value : string) : result unit refused :=
  if bool_decide (a = Country) then
    if (String.length value =? 2)%nat && all_bytes is_ascii_uppercase value then Ok tt else Err (NotTwoLetters a)
  else
    let chars := chars_count value in
    if (chars =? 0)%nat || (MAX_VALUE_CHARS <? chars)%nat then Err (NotInLength a)
    else if any_control value then Err (HasControl a)
    else Ok tt.

Definition value_of (a : t) (v : SubjectValues) : string :=
  match a with
  | Country => country v
  | State => state v
  | Locality => locality v
  | Organization => organization v
  | OrganizationalUnit => organizational_unit v
  | OrganizationIdentifier => organization_identifier v
  | CommonName => ""
  end.

Definition set (a : t) (v : SubjectValues) (value : string) : SubjectValues :=
  match a with
  | Country => mkSubject value (state v) (locality v) (organization v) (organizational_unit v) (organization_identifier v)
  | State => mkSubject (country v) value (locality v) (organization v) (organizational_unit v) (organization_identifier v)
  | Locality => mkSubject (country v) (state v) value (organization v) (organizational_unit v) (organization_identifier v)
  | Organization => mkSubject (country v) (state v) (locality v) value (organizational_unit v) (organization_identifier v)
  | OrganizationalUnit => mkSubject (country v) (state v) (locality v) (organization v) value (organization_identifier v)
  | OrganizationIdentifier => mkSubject (country v) (state v) (locality v) (organization v) (organizational_unit v) value
  | CommonName => v
  end.
End Attribute.
Notation Attribute := Attribute.t.

Definition carried_attributes (v : SubjectValues) (common_name : string) : list (Attribute * string) :=
  ((λ a, (a, Attribute.value_of a v)) <$> List.filter (λ a, negb (is_empty (Attribute.value_of a v))) Attribute.CARRIED)
  ++ [(Attribute.CommonName, common_name)].

(** [Subject]: what an operator names. *)
Record Subject := mkAsked {
  asked_country : option string;
  asked_state : option string;
  asked_locality : option string;
  asked_organization : option string;
  asked_organizational_unit : option string;
  asked_organization_identifier : option string;
}.

Inductive SubjectRefused :=
| SubjectLacks (a : Attribute)
| SubjectValue (why : Attribute.refused).

Definition asked (s : Subject) : list (Attribute * option string) :=
  [(Attribute.Country, asked_country s); (Attribute.State, asked_state s); (Attribute.Locality, asked_locality s);
   (Attribute.Organization, asked_organization s); (Attribute.OrganizationalUnit, asked_organizational_unit s);
   (Attribute.OrganizationIdentifier, asked_organization_identifier s)].

Fixpoint checked_values (l : list (Attribute * option string)) : result (list (Attribute * string)) SubjectRefused :=
  match l with
  | [] => Ok []
  | (_, None) :: l => checked_values l
  | (a, Some value) :: l =>
      _ <-? map_err SubjectValue (Attribute.check a value) ;;
      more <-? checked_values l ;;
      Ok ((a, value) :: more)
  end.

(** [Subject::attributes]. *)
Definition attributes (s : Subject) (common_name : string) : result (list (Attribute * string)) SubjectRefused :=
  match asked_organization s, asked_organizational_unit s with
  | None, _ => Err (SubjectLacks Attribute.Organization)
  | _, None => Err (SubjectLacks Attribute.OrganizationalUnit)
  | Some _, Some _ =>
      named <-? checked_values (asked s) ;;
      Ok (named ++ [(Attribute.CommonName, common_name)])
  end.

(** ** Requests and what is kept *)

Record IssueRequest := mkIssueRequest {
  ask_subject : Subject;
  validity_days : option N;
  password : option string;
}.

Inductive PasswordRefused := PasswordLength | PasswordControl.

(** [pkcs12::check_password]. *)
Definition check_password (password : string) : result unit PasswordRefused :=
  let chars := chars_count password in
  if negb ((MIN_PASSWORD_CHARS <=? chars)%nat && (chars <=? MAX_PASSWORD_CHARS)%nat) then Err PasswordLength
  else if any_control password then Err PasswordControl
  else Ok tt.

Record Pair := mkPair {
  pair_id : CertId;
  pair_serial : string;
  pair_subject : string;
  pair_key_fingerprint : string;
  pair_not_before : N;
  pair_not_after : N;
  certificate_pem : string;
  pkcs12 : string;
}.

(** The bootstrap CA, but for its signing. *)
Record BootstrapSigner := mkBootstrapSigner {
  leaf_common_name : string;
  ca_not_after_ms : N;
  ca_key_fingerprint : string;
}.

(** [Entry]. *)
Record BootstrapEntry := mkBootstrapEntry {
  b_id : CertId;
  b_serial : string;
  b_subject : string;
  b_key_fingerprint : string;
  b_issued : N;
  b_not_after : N;
  b_ca_key : string;
  b_p12 : bool;
}.

#[export] Instance BootstrapEntry_eq_dec : EqDecision BootstrapEntry.
Proof. solve_decision. Defined.

Inductive StoreError := StoreFailed.

(** ** The port *)

Class BootstrapStore (B : Type) := {
  bs_load : Eff B StoreError (list BootstrapEntry);
  bs_put : BootstrapEntry → Eff B StoreError unit;
  bs_remove : CertId → Eff B StoreError unit;
  bs_put_with_p12 : BootstrapEntry → string → Eff B StoreError unit;
  bs_put_within : BootstrapEntry → string → nat → N → Eff B StoreError bool;
  bs_put_p12 : CertId → string → Eff B StoreError unit;
  bs_p12 : CertId → Eff B StoreError (option string);
  bs_remove_p12 : CertId → Eff B StoreError unit;
}.

(** The certificates of a list that are valid at a time. *)
Definition valid_at (now : N) (l : list BootstrapEntry) : nat :=
  length (List.filter (λ e, (now <? b_not_after e)%N) l).

Section Defaults.
Context {B : Type} (load : Eff B StoreError (list BootstrapEntry)) (put : BootstrapEntry → Eff B StoreError unit).
Context (put_p12 : CertId → string → Eff B StoreError unit) (remove_p12 : CertId → Eff B StoreError unit).

Definition default_put_with_p12 (entry : BootstrapEntry) (file : string) : Eff B StoreError unit :=
  _ <-! put_p12 (b_id entry) file ;;
  λ b,
    match put entry b with
    | (b, Err e) => let (b, _) := remove_p12 (b_id entry) b in (b, Err e)
    | (b, Ok _) => (b, Ok tt)
    end.

Definition default_put_within (entry : BootstrapEntry) (file : string) (max : nat) (now : N) : Eff B StoreError bool :=
  held <-! load ;;
  if (max <=? valid_at now held)%nat then eff_ret false
  else
    _ <-! default_put_with_p12 entry file ;;
    eff_ret true.
End Defaults.

(** ** The record *)

Inductive IssueError :=
| NoKey
| InvalidDays
| InvalidSubject (why : SubjectRefused)
| NoPassword
| InvalidPassword (why : PasswordRefused)
| RecordFull
| CaEnded
| IssueFailed.

Inductive DeleteError :=
| DeleteNotFound
| DeleteNotRevoked
| DeleteUnrecorded
| DeleteFailed.

(** [BootstrapCertificates]. *)
Record Certificates (B : Type) := mkCertificates {
  signer : option BootstrapSigner;
  kept_in : B;
  on_record : gmap CertId BootstrapEntry;
}.
Arguments mkCertificates {B}.
Arguments signer {B}.
Arguments kept_in {B}.
Arguments on_record {B}.

(** [BTreeMap::values]: in the order of the keys. *)
Definition record_values (m : gmap CertId BootstrapEntry) : list BootstrapEntry :=
  omap (λ id, m !! id) (merge_sort cert_le (elements (dom m))).

(** [max_by_key(issued_ms)]: of several the last. *)
Fixpoint newest (best : option BootstrapEntry) (l : list BootstrapEntry) : option BootstrapEntry :=
  match l with
  | [] => best
  | e :: l =>
      newest (match best with
              | Some b => if (b_issued e <? b_issued b)%N then Some b else Some e
              | None => Some e
              end) l
  end.

Definition of_current (s : option BootstrapSigner) (e : BootstrapEntry) : bool :=
  match s with Some s => bool_decide (ca_key_fingerprint s = b_ca_key e) | None => true end.

(** [in_force]. *)
Definition in_force (s : option BootstrapSigner) (m : gmap CertId BootstrapEntry) (sn : string) : option BootstrapEntry :=
  newest None (List.filter (of_current s) (List.filter (λ e, bool_decide (b_serial e = sn)) (record_values m))).

Definition ended (now : N) (e : BootstrapEntry) : bool := (b_not_after e <=? now)%N.

Section Record.
Context {B : Type} `{!BootstrapStore B}.
Notation Certs := (Certificates B).

(** A call into the store. *)
Definition on_kept {A} (m : Eff B StoreError A) : Eff Certs StoreError A := λ s,
  let (b, x) := m (kept_in s) in (mkCertificates (signer s) b (on_record s), x).

Definition set_record (f : gmap CertId BootstrapEntry → gmap CertId BootstrapEntry) : Eff Certs StoreError unit := λ s,
  (mkCertificates (signer s) (kept_in s) (f (on_record s)), Ok tt).

(** [prune]: the loop over what has ended. *)
Fixpoint prune_each (ids : list CertId) : Eff Certs StoreError unit :=
  match ids with
  | [] => eff_ret tt
  | id :: ids =>
      _ <-! on_kept (bs_remove id) ;;
      _ <-! set_record (delete id) ;;
      prune_each ids
  end.

Definition prune (now : N) : Eff Certs StoreError unit := λ s,
  prune_each (b_id <$> List.filter (ended now) (record_values (on_record s))) s.

(** [open]: the loop over what is loaded. *)
Fixpoint open_each (current : option string) (l : list BootstrapEntry) (m : gmap CertId BootstrapEntry)
    : Eff B StoreError (gmap CertId BootstrapEntry) :=
  match l with
  | [] => eff_ret m
  | e :: l =>
      if match current with Some ca => negb (bool_decide (ca = b_ca_key e)) | None => false end then
        _ <-! bs_remove (b_id e) ;;
        open_each current l m
      else open_each current l (<[b_id e := e]> m)
  end.

(** [open]; the store is answered beside what was opened. *)
Definition open (s : option BootstrapSigner) (now : N) (b : B) : B * result Certs StoreError :=
  match (loaded <-! bs_load ;; open_each (ca_key_fingerprint <$> s) loaded ∅) b with
  | (b, Err e) => (b, Err e)
  | (b, Ok m) =>
      match prune now (mkCertificates s b m) with
      | (c, Err e) => (kept_in c, Err e)
      | (c, Ok _) => (kept_in c, Ok c)
      end
  end.

Definition can_issue (s : Certs) : bool := match signer s with Some _ => true | None => false end.

(** [room]. *)
Definition room (now : N) : Eff Certs IssueError unit := λ s,
  match prune now s with
  | (s, Err _) => (s, Err IssueFailed)
  | (s, Ok _) => (s, if (MAX_VALID <=? base.size (on_record s))%nat then Err RecordFull else Ok tt)
  end.

(** What the signer is asked for. *)
Record Order := mkOrder {
  order_attributes : list (Attribute * string);
  order_now : N;
  order_not_after : N;
  order_password : string;
}.

(** The first half of [issue], up to the signing; the clock is read by [room] and for the life of the
    certificate. [None] is the end of the task at a life past the last millisecond of a [u64]. *)
Definition issue_order (request : IssueRequest) (room_now now : N) (s : Certs) : Certs * option (result Order IssueError) :=
  match signer s with
  | None => (s, Some (Err NoKey))
  | Some ca =>
      let days := default DEFAULT_VALIDITY_DAYS (validity_days request) in
      if negb ((1 <=? days)%N && (days <=? MAX_VALIDITY_DAYS)%N) then (s, Some (Err InvalidDays))
      else
        match attributes (ask_subject request) (leaf_common_name ca) with
        | Err why => (s, Some (Err (InvalidSubject why)))
        | Ok attrs =>
            match password request with
            | None => (s, Some (Err NoPassword))
            | Some pw =>
                match check_password pw with
                | Err why => (s, Some (Err (InvalidPassword why)))
                | Ok _ =>
                    match room room_now s with
                    | (s, Err e) => (s, Some (Err e))
                    | (s, Ok _) =>
                        if (ca_not_after_ms ca <=? now)%N then (s, Some (Err CaEnded))
                        else
                          (s, (λ not_after, Ok (mkOrder attrs now (N.min not_after (ca_not_after_ms ca)) pw)) <$>
                              checked_add u64_max now (days * DAY_MS))
                    end
                end
            end
        end
  end.

Definition entry_of (ca : BootstrapSigner) (now : N) (made : Pair) : BootstrapEntry :=
  mkBootstrapEntry (pair_id made) (pair_serial made) (pair_subject made) (pair_key_fingerprint made) now
    (pair_not_after made) (ca_key_fingerprint ca) true.

(** The second half of [issue], under the record's lock: [made] is what the signer made of an order of
    the time [now]. *)
Definition issue_record (made : Pair) (now prune_now : N) (s : Certs) : Certs * result Pair IssueError :=
  match signer s with
  | None => (s, Err NoKey)
  | Some ca =>
      match prune prune_now s with
      | (s, Err _) => (s, Err IssueFailed)
      | (s, Ok _) =>
          if (MAX_VALID <=? base.size (on_record s))%nat then (s, Err RecordFull)
          else
            let e := entry_of ca now made in
            match on_kept (bs_put_within e (pkcs12 made) MAX_VALID now) s with
            | (s, Err _) => (s, Err IssueFailed)
            | (s, Ok false) => (s, Err RecordFull)
            | (s, Ok true) =>
                (mkCertificates (signer s) (kept_in s) (<[b_id e := e]> (on_record s)), Ok made)
            end
      end
  end.

(** [issue], with nothing between its halves: [sign] is the signer, and the clock is read three times. *)
Definition issue (request : IssueRequest) (sign : Order → option Pair) (room_now now prune_now : N) (s : Certs)
    : Certs * option (result Pair IssueError) :=
  match issue_order request room_now now s with
  | (s, None) => (s, None)
  | (s, Some (Err e)) => (s, Some (Err e))
  | (s, Some (Ok order)) =>
      match sign order with
      | None => (s, Some (Err IssueFailed))
      | Some made => let (s, x) := issue_record made now prune_now s in (s, Some x)
      end
  end.

(** [list]: [sort_by] is stable, by the time of the issue and then by the serial. *)
Definition listed_le (x y : BootstrapEntry) : bool :=
  (b_issued x <? b_issued y)%N || (b_issued x =? b_issued y)%N && bool_decide (String.le (b_serial x) (b_serial y)).

Fixpoint insert_listed (e : BootstrapEntry) (l : list BootstrapEntry) : list BootstrapEntry :=
  match l with
  | [] => [e]
  | x :: l => if listed_le e x then e :: x :: l else x :: insert_listed e l
  end.

Definition list_valid (prune_now now : N) (s : Certs) : Certs * list BootstrapEntry :=
  let (s, _) := prune prune_now s in
  (s, foldr insert_listed [] (List.filter (λ e, (now <? b_not_after e)%N) (record_values (on_record s)))).

(** [p12]. *)
Definition p12 (now : N) (sn : string) : Eff Certs StoreError (option (BootstrapEntry * string)) :=
  _ <-! prune now ;;
  λ s,
    match in_force (signer s) (on_record s) sn with
    | Some e =>
        if b_p12 e then
          (file <-! on_kept (bs_p12 (b_id e)) ;; eff_ret ((λ f, (e, f)) <$> file)) s
        else (s, Ok None)
    | None => (s, Ok None)
    end.

(** [delete]; [is_revoked] and [recorded] run over a world [X] of their own. *)
Definition delete_entry {X : Type} (now : N) (sn : string) (is_revoked recorded : BootstrapEntry → X → X * bool)
    (s : Certs) (w : X) : (Certs * X) * result BootstrapEntry DeleteError :=
  match prune now s with
  | (s, Err _) => ((s, w), Err DeleteFailed)
  | (s, Ok _) =>
      match in_force (signer s) (on_record s) sn with
      | None => ((s, w), Err DeleteNotFound)
      | Some e =>
          let (w, revoked) := is_revoked e w in
          if negb revoked then ((s, w), Err DeleteNotRevoked)
          else
            let (w, told) := recorded e w in
            if negb told then ((s, w), Err DeleteUnrecorded)
            else
              match (_ <-! on_kept (bs_remove (b_id e)) ;; set_record (delete (b_id e))) s with
              | (s, Err _) => ((s, w), Err DeleteFailed)
              | (s, Ok _) => ((s, w), Ok e)
              end
      end
  end.

Definition without_p12 (e : BootstrapEntry) : BootstrapEntry :=
  mkBootstrapEntry (b_id e) (b_serial e) (b_subject e) (b_key_fingerprint e) (b_issued e) (b_not_after e)
    (b_ca_key e) false.

(** [forget_p12]. *)
Definition forget_p12 (sn : string) : Eff Certs StoreError unit := λ s,
  match in_force (signer s) (on_record s) sn with
  | Some e =>
      if b_p12 e then
        (_ <-! on_kept (bs_put (without_p12 e)) ;;
         _ <-! set_record <[b_id e := without_p12 e]> ;;
         on_kept (bs_remove_p12 (b_id e))) s
      else (s, Ok tt)
  | None => (s, Ok tt)
  end.

(** ** The routes *)

Inductive BootstrapAnswer :=
| Issued201 (made : Pair)
| Handed200 (entry : BootstrapEntry) (file : string)
| Deleted204
| NotFound404
| NotRevoked409
| Unrecorded503
| Failed500
| Refused (why : IssueError).

(** [issue_bootstrap_certificate], from the answer of [issue]: [told] is whether the audit record took
    the issuance. A task that ended is answered as a failure. *)
Definition issue_answered (told : bool) (s : Certs) (x : option (result Pair IssueError)) : Certs * BootstrapAnswer :=
  match x with
  | None | Some (Err IssueFailed) => (s, Failed500)
  | Some (Err e) => (s, Refused e)
  | Some (Ok made) =>
      if told then (s, Issued201 made)
      else let (s, _) := forget_p12 (pair_serial made) s in (s, Unrecorded503)
  end.

Definition issue_route (request : IssueRequest) (sign : Order → option Pair) (room_now now prune_now : N) (told : bool)
    (s : Certs) : Certs * BootstrapAnswer :=
  let (s, x) := issue request sign room_now now prune_now s in issue_answered told s x.

(** [download_bootstrap_p12]: [is_revoked] is what the revocation list says, [told] whether the audit
    record took the download. *)
Definition download_route (now : N) (sn : string) (is_revoked : CertId → bool) (told : bool) (s : Certs)
    : Certs * BootstrapAnswer :=
  match p12 now sn s with
  | (s, Err _) => (s, Failed500)
  | (s, Ok None) => (s, NotFound404)
  | (s, Ok (Some (e, file))) =>
      if is_revoked (b_id e) then let (s, _) := forget_p12 (b_serial e) s in (s, NotFound404)
      else if negb told then (s, Unrecorded503)
      else (s, Handed200 e file)
  end.

(** [delete_bootstrap_certificate]. *)
Definition delete_route {X : Type} (now : N) (sn : string) (is_revoked recorded : BootstrapEntry → X → X * bool)
    (s : Certs) (w : X) : (Certs * X) * BootstrapAnswer :=
  let (sw, x) := delete_entry now sn is_revoked recorded s w in
  (sw, match x with
       | Ok _ => Deleted204
       | Err DeleteNotFound => NotFound404
       | Err DeleteNotRevoked => NotRevoked409
       | Err DeleteUnrecorded => Unrecorded503
       | Err DeleteFailed => Failed500
       end).
End Record.
