(* ===== verification/BootstrapPort.v ===== *)
(** * The bootstrap record's port, implemented

    What the record of [fleet-server/src/bootstrap.rs] counts on of its store, [BootstrapPort]: the
    entries and the PKCS#12 files stored, and what a call that fails may leave of them. The bodies the
    trait gives [put_with_p12] and [put_within] keep it over any store that keeps the rest, and
    [fleet-server/src/fs/bootstrap.rs] is such a store: two files per certificate, named after the
    issuer and the serial. *)

From S2P Require Import Prelude RustStr Placement Revocation Fs Bootstrap.

Open Scope string_scope.
Open Scope list_scope.

(** ** The contract *)

Notation EntryMap := (gmap CertId BootstrapEntry).
Notation FileMap := (gmap CertId string).

(** What is stored once the entry and its file are: both, when the answer says so; else what was, or
    what a write broken off left. *)
Definition put_pair (e : BootstrapEntry) (file : string) (m m' : EntryMap) (f f' : FileMap) (done : bool) : Prop :=
  (m' = <[b_id e := e]> m ∧ f' = <[b_id e := file]> f) ∨
  done = false ∧ (m' = m ∨ m' = <[b_id e := e]> m) ∧
  (f' = f ∨ f' = <[b_id e := file]> f ∨ f' = delete (b_id e) f).

(** The part of the contract the trait gives no body for: [holds b m f] reads the store [b] as the
    entries [m] and the files [f], all of certificates in [known]. *)
Record keeps_documents {B : Type} (load : Eff B StoreError (list BootstrapEntry))
    (put : BootstrapEntry → Eff B StoreError unit) (remove : CertId → Eff B StoreError unit)
    (put_p12 : CertId → string → Eff B StoreError unit) (p12 : CertId → Eff B StoreError (option string))
    (remove_p12 : CertId → Eff B StoreError unit)
    (known : CertId → Prop) (holds : B → EntryMap → FileMap → Prop) : Prop := {
  kd_load b m f b' x : holds b m f → load b = (b', x) →
    holds b' m f ∧ ∀ l, x = Ok l → NoDup (b_id <$> l) ∧ ∀ e, e ∈ l ↔ m !! b_id e = Some e;
  kd_put b m f e b' x : holds b m f → known (b_id e) → put e b = (b', x) →
    ∃ m', holds b' m' f ∧ (m' = <[b_id e := e]> m ∨ is_ok x = false ∧ m' = m);
  kd_remove b m f id b' x : holds b m f → known id → remove id b = (b', x) →
    ∃ m' f', holds b' m' f' ∧
      (m' = delete id m ∧ f' = delete id f ∨ is_ok x = false ∧ m' = m ∧ (f' = f ∨ f' = delete id f));
  kd_put_p12 b m f id file b' x : holds b m f → known id → put_p12 id file b = (b', x) →
    ∃ f', holds b' m f' ∧ (f' = <[id := file]> f ∨ is_ok x = false ∧ f' = f);
  kd_p12 b m f id b' x : holds b m f → known id → p12 id b = (b', x) →
    holds b' m f ∧ ∀ file, x = Ok file → file = f !! id;
  kd_remove_p12 b m f id b' x : holds b m f → known id → remove_p12 id b = (b', x) →
    ∃ f', holds b' m f' ∧ (f' = delete id f ∨ is_ok x = false ∧ f' = f);
}.

(** The whole port. *)
Class BootstrapPort (B : Type) `{!BootstrapStore B} (known : CertId → Prop) (holds : B → EntryMap → FileMap → Prop) := {
  bp_documents : keeps_documents bs_load bs_put bs_remove bs_put_p12 bs_p12 bs_remove_p12 known holds;
  bp_keyed b m f id e : holds b m f → m !! id = Some e → b_id e = id;
  bp_known b m f id e : holds b m f → m !! id = Some e → known id;
  bp_put_within b m f e file max now b' x : holds b m f → known (b_id e) → bs_put_within e file max now b = (b', x) →
    ∃ m' f', holds b' m' f' ∧
      match x with
      | Ok true => m' = <[b_id e := e]> m ∧ f' = <[b_id e := file]> f
      | Ok false => m' = m ∧ f' = f
      | Err _ => put_pair e file m m' f f' false
      end;
}.

(** ** The trait's bodies *)

Section Defaults.
Context {B : Type} (load : Eff B StoreError (list BootstrapEntry)) (put : BootstrapEntry → Eff B StoreError unit).
Context (remove : CertId → Eff B StoreError unit) (put_p12 : CertId → string → Eff B StoreError unit).
Context (p12 : CertId → Eff B StoreError (option string)) (remove_p12 : CertId → Eff B StoreError unit).
Context (known : CertId → Prop) (holds : B → EntryMap → FileMap → Prop).
Hypothesis documents : keeps_documents load put remove put_p12 p12 remove_p12 known holds.
Hypothesis keyed : ∀ b m f id e, holds b m f → m !! id = Some e → b_id e = id.
Hypothesis all_known : ∀ b m f id e, holds b m f → m !! id = Some e → known id.

Definition with_bodies : BootstrapStore B := {|
  bs_load := load;
  bs_put := put;
  bs_remove := remove;
  bs_put_with_p12 := default_put_with_p12 put put_p12 remove_p12;
  bs_put_within := default_put_within load put put_p12 remove_p12;
  bs_put_p12 := put_p12;
  bs_p12 := p12;
  bs_remove_p12 := remove_p12;
|}.

(** Both or, once failed, what each of the steps may have left. *)
Lemma default_put_with_p12_pairs b m f e file b' x :
  holds b m f → known (b_id e) → default_put_with_p12 put put_p12 remove_p12 e file b = (b', x) →
  ∃ m' f', holds b' m' f' ∧ put_pair e file m m' f f' (is_ok x).
Proof.
  intros Hb Hid. unfold default_put_with_p12, eff_bind.
  destruct (put_p12 (b_id e) file b) as [b1 y] eqn:E1.
  apply (kd_put_p12 _ _ _ _ _ _ _ _ documents b m f) in E1 as (f1 & H1 & Hf1); [|done..].
  destruct y as [[]|err]; [|intros [= <- <-]; exists m, f1; split; [done|]; unfold put_pair; naive_solver].
  assert (f1 = <[b_id e := file]> f) as -> by naive_solver. clear Hf1.
  destruct (put e b1) as [b2 z] eqn:E2.
  apply (kd_put _ _ _ _ _ _ _ _ documents b1 m (<[b_id e := file]> f)) in E2 as (m2 & H2 & Hm2); [|done..].
  destruct z as [[]|err].
  { intros [= <- <-]. exists m2, (<[b_id e := file]> f). split; [done|]. left. naive_solver. }
  destruct (remove_p12 (b_id e) b2) as [b3 w] eqn:E3.
  apply (kd_remove_p12 _ _ _ _ _ _ _ _ documents b2 m2 (<[b_id e := file]> f)) in E3 as (f3 & H3 & Hf3); [|done..].
  intros [= <- <-]. exists m2, f3. split; [done|]. right. rewrite delete_insert_eq in Hf3. naive_solver.
Qed.

Lemma with_bodies_port : @BootstrapPort B with_bodies known holds.
Proof.
  split; [exact documents|exact keyed|exact all_known|]. cbn.
  intros b m f e file max now b' x Hb Hid. unfold default_put_within, eff_bind, eff_ret.
  destruct (load b) as [b1 y] eqn:E1.
  apply (kd_load _ _ _ _ _ _ _ _ documents b m f) in E1 as [H1 _]; [|done].
  destruct y as [l|err]; [|intros [= <- <-]; exists m, f; split; [done|]; right; auto].
  destruct (max <=? valid_at now l)%nat; [intros [= <- <-]; by exists m, f|].
  destruct (default_put_with_p12 put put_p12 remove_p12 e file b1) as [b2 z] eqn:E2.
  apply (default_put_with_p12_pairs b1 m f) in E2 as (m2 & f2 & H2 & Hp); [|done..].
  destruct z as [[]|err]; intros [= <- <-]; exists m2, f2; (split; [done|]); [|done].
  by destruct Hp as [?|[? _]].
Qed.
End Defaults.

(** ** The filesystem adapter *)

(** [cert_file_stem]: an issuer is cut after sixteen bytes. *)
Definition cert_file_stem (id : CertId) : string :=
  String.substring 0 16 (issuer id) +:+ "-" +:+ serial id.

(** The cut falls between two characters, or it ends the task. *)
Definition cut_is_sound (id : CertId) : bool :=
  match String.get 16 (issuer id) with Some c => negb (in_range 128 191 c) | None => true end.

Definition hex_digits (s : string) : bool := negb (is_empty s) && all_bytes is_ascii_hexdigit s.

Section Adapter.
Context (to_json : BootstrapEntry → string) (from_json : string → option BootstrapEntry).

(** [named]. *)
Definition named (id : CertId) (extension : string) : Eff Fs FsError string :=
  if negb (hex_digits (issuer id)) || negb (hex_digits (serial id)) then eff_fail (NoDocument (serial id))
  else eff_ret (cert_file_stem id +:+ "." +:+ extension).

(** One round of the first loop of [load]: the entry of a [.json] file with its stem, [None] for any
    other name. A cut inside a character reads as a failure of the load: the task that opens the record
    ends with it. *)
Definition load_entry (name : string) : Eff Fs FsError (option (string * BootstrapEntry)) :=
  match strip_suffix ".json" name with
  | None => eff_ret None
  | Some stem =>
      text <-! read_to_string name ;;
      match from_json text with
      | None => eff_fail (CannotParse name)
      | Some e =>
          if negb (cut_is_sound (b_id e)) || negb (bool_decide (cert_file_stem (b_id e) = stem))
          then eff_fail (Misnamed name)
          else eff_ret (Some (stem, e))
      end
  end.

(** One round of the second loop. *)
Definition load_known (stems : list string) (name : string) : Eff Fs FsError unit :=
  fs <-! get_files ;;
  let known :=
    match strip_suffix ".json" name with
    | Some _ => true
    | None => match strip_suffix ".p12" name with Some stem => bool_decide (stem ∈ stems) | None => false end
    end in
  if negb known || negb (match fs !! name with Some node => is_file node | None => false end)
  then eff_fail (UnknownPath name)
  else eff_ret tt.

(** [FsBootstrapStore::load]. *)
Definition fs_bootstrap_load : Eff Fs FsError (list BootstrapEntry) :=
  listed <-! entries ;;
  read <-! eff_each load_entry listed ;;
  let loaded := omap id read in
  _ <-! eff_each (load_known loaded.*1) listed ;;
  eff_ret loaded.*2.

(** [put], [remove], [put_p12], [p12] and [remove_p12]. *)
Definition fs_bootstrap_put (e : BootstrapEntry) : Eff Fs FsError unit :=
  path <-! named (b_id e) "json" ;;
  replace_owner_only path (to_json e).

Definition fs_bootstrap_remove (id : CertId) : Eff Fs FsError unit :=
  p12 <-! named id "p12" ;;
  _ <-! remove_file p12 ;;
  json <-! named id "json" ;;
  remove_file json.

Definition fs_bootstrap_put_p12 (id : CertId) (file : string) : Eff Fs FsError unit :=
  path <-! named id "p12" ;;
  replace_owner_only path file.

Definition fs_bootstrap_p12 (id : CertId) : Eff Fs FsError (option string) :=
  path <-! named id "p12" ;;
  outcome <-! system_call ;;
  fs <-! get_files ;;
  match outcome, fs !! path with
  | Done, Some (File file) => eff_ret (Some file)
  | Done, None => eff_ret None
  | _, _ => eff_fail (CannotRead path)
  end.

Definition fs_bootstrap_remove_p12 (id : CertId) : Eff Fs FsError unit :=
  path <-! named id "p12" ;;
  remove_file path.
End Adapter.

(** ** The adapter keeps the port *)

Definition json_of (id : CertId) : string := cert_file_stem id +:+ ".json".
Definition p12_of (id : CertId) : string := cert_file_stem id +:+ ".p12".

Lemma suffix_inj p s t : s +:+ p = t +:+ p → s = t.
Proof.
  intros H. pose proof (proj2 (strip_suffix_Some p (s +:+ p) s) eq_refl) as H1.
  pose proof (proj2 (strip_suffix_Some p (t +:+ p) t) eq_refl) as H2. rewrite H in H1. congruence.
Qed.

Lemma json_not_p12 s t : s +:+ ".json" ≠ t +:+ ".p12".
Proof. intros H%(f_equal rev_str). rewrite !rev_str_app in H. discriminate H. Qed.

Lemma suffix_not_temp s : ends_with ".tmp" (s +:+ ".json") = false ∧ ends_with ".tmp" (s +:+ ".p12") = false.
Proof. unfold ends_with, starts_with. by rewrite !rev_str_app. Qed.

Section Keeps.
Context (to_json : BootstrapEntry → string) (from_json : string → option BootstrapEntry) (known : CertId → Prop).

(** What the documents of the directory say: an entry that decodes under its own name, a file beside it,
    and no entry of a certificate that is not [known]. *)
Definition reads_as (d : gmap string Node) (m : EntryMap) (f : FileMap) : Prop :=
  (∀ id e, m !! id = Some e ↔
     known id ∧ b_id e = id ∧ ∃ text, d !! json_of id = Some (File text) ∧ from_json text = Some e) ∧
  (∀ id file, f !! id = Some file ↔ known id ∧ d !! p12_of id = Some (File file)) ∧
  (∀ text e, d !! json_of (b_id e) = Some (File text) → from_json text = Some e → known (b_id e)).

Definition fs_bootstrap_holds (fs : Fs) (m : EntryMap) (f : FileMap) : Prop := reads_as (documents (files fs)) m f.

Hypothesis json_round_trip : ∀ e, from_json (to_json e) = Some e.
Hypothesis names_apart : ∀ x y, known x → known y → cert_file_stem x = cert_file_stem y → x = y.

Lemma json_of_inj x y : known x → known y → json_of x = json_of y → x = y.
Proof. intros Hx Hy H. by apply names_apart, (suffix_inj ".json"). Qed.

Lemma p12_of_inj x y : known x → known y → p12_of x = p12_of y → x = y.
Proof. intros Hx Hy H. by apply names_apart, (suffix_inj ".p12"). Qed.

Lemma reads_put (d : gmap string Node) m f e :
  reads_as d m f → known (b_id e) → reads_as (<[json_of (b_id e) := File (to_json e)]> d) (<[b_id e := e]> m) f.
Proof.
  intros (Hm & Hf & Hk) He. split; [|split].
  - intros id e'. destruct (decide (id = b_id e)) as [->|Hne].
    + rewrite !lookup_insert_eq. split; [intros [= <-]; eauto|]. intros (_ & _ & t & [= <-] & Ht). congruence.
    + rewrite lookup_insert_ne, Hm by done. split; intros (Hid & Hb & t & Ht & Hd); (split; [done|split; [done|]]);
        exists t; (split; [|done]); revert Ht; rewrite lookup_insert_ne; try done; intros ?%json_of_inj; congruence.
  - intros id file. rewrite lookup_insert_ne by apply json_not_p12. apply Hf.
  - intros t e'. destruct (decide (json_of (b_id e) = json_of (b_id e'))) as [Heq|Hne].
    + rewrite <- Heq, lookup_insert_eq. intros [= <-]. rewrite json_round_trip. by intros [= <-].
    + rewrite lookup_insert_ne by done. apply Hk.
Qed.

Lemma reads_put_p12 (d : gmap string Node) m f id file :
  reads_as d m f → known id → reads_as (<[p12_of id := File file]> d) m (<[id := file]> f).
Proof.
  intros (Hm & Hf & Hk) Hid.
  assert (Hj : ∀ x, <[p12_of id := File file]> d !! json_of x = d !! json_of x).
  { intros x. apply lookup_insert_ne. intros H. by apply (json_not_p12 _ _ (eq_sym H)). }
  split; [|split]; [intros x e; rewrite Hj; apply Hm| |intros t e; rewrite Hj; apply Hk].
  intros x file'. destruct (decide (x = id)) as [->|Hne].
  - rewrite !lookup_insert_eq. naive_solver.
  - rewrite lookup_insert_ne, Hf by done. split; intros [Hx Hd]; (split; [done|]); revert Hd;
      rewrite lookup_insert_ne; try done; intros ?%p12_of_inj; congruence.
Qed.

Lemma reads_remove (d : gmap string Node) m f id :
  reads_as d m f → known id → reads_as (delete (json_of id) d) (delete id m) f.
Proof.
  intros (Hm & Hf & Hk) Hid. split; [|split].
  - intros x e. destruct (decide (x = id)) as [->|Hne].
    + rewrite !lookup_delete_eq. naive_solver.
    + rewrite lookup_delete_ne, Hm by done. split; intros (Hx & Hb & t & Ht & Hd); (split; [done|split; [done|]]);
        exists t; (split; [|done]); revert Ht; rewrite lookup_delete_ne; try done; intros ?%json_of_inj; congruence.
  - intros x file. rewrite lookup_delete_ne by apply json_not_p12. apply Hf.
  - intros t e [_ H]%lookup_delete_Some. by apply (Hk t).
Qed.

Lemma reads_remove_p12 (d : gmap string Node) m f id :
  reads_as d m f → known id → reads_as (delete (p12_of id) d) m (delete id f).
Proof.
  intros (Hm & Hf & Hk) Hid.
  assert (Hj : ∀ x, delete (p12_of id) d !! json_of x = d !! json_of x).
  { intros x. apply lookup_delete_ne. intros H. by apply (json_not_p12 _ _ (eq_sym H)). }
  split; [|split]; [intros x e; rewrite Hj; apply Hm| |intros t e; rewrite Hj; apply Hk].
  intros x file. destruct (decide (x = id)) as [->|Hne].
  - rewrite !lookup_delete_eq. naive_solver.
  - rewrite lookup_delete_ne, Hf by done. split; intros [Hx Hd]; (split; [done|]); revert Hd;
      rewrite lookup_delete_ne; try done; intros ?%p12_of_inj; congruence.
Qed.

(** A name is given, or the call ends with nothing done. *)
Lemma named_spec id ext {A} (k : string → Eff Fs FsError A) fs fs' x :
  (path <-! named id ext ;; k path) fs = (fs', x) →
  is_ok x = false ∧ fs' = fs ∨ k (cert_file_stem id +:+ "." +:+ ext) fs = (fs', x).
Proof. unfold named, eff_bind, eff_fail, eff_ret. destruct (_ || _); [intros [= <- <-]; auto|auto]. Qed.

Lemma put_keeps fs m f e fs' x :
  fs_bootstrap_holds fs m f → known (b_id e) → fs_bootstrap_put to_json e fs = (fs', x) →
  ∃ m', fs_bootstrap_holds fs' m' f ∧ (m' = <[b_id e := e]> m ∨ is_ok x = false ∧ m' = m).
Proof.
  intros Hfs He [[? ->]|H]%named_spec; [by exists m; auto|].
  apply (replace_owner_only_spec (json_of (b_id e))) in H as [_ [Hd|[Hx Hd]]]; [| |apply suffix_not_temp];
    unfold fs_bootstrap_holds; rewrite Hd; [|by exists m; auto].
  exists (<[b_id e := e]> m). split; [by apply reads_put|by left].
Qed.

Lemma put_p12_keeps fs m f id file fs' x :
  fs_bootstrap_holds fs m f → known id → fs_bootstrap_put_p12 id file fs = (fs', x) →
  ∃ f', fs_bootstrap_holds fs' m f' ∧ (f' = <[id := file]> f ∨ is_ok x = false ∧ f' = f).
Proof.
  intros Hfs He [[? ->]|H]%named_spec; [by exists f; auto|].
  apply (replace_owner_only_spec (p12_of id)) in H as [_ [Hd|[Hx Hd]]]; [| |apply suffix_not_temp];
    unfold fs_bootstrap_holds; rewrite Hd; [|by exists f; auto].
  exists (<[id := file]> f). split; [by apply reads_put_p12|by left].
Qed.

Lemma remove_p12_keeps fs m f id fs' x :
  fs_bootstrap_holds fs m f → known id → fs_bootstrap_remove_p12 id fs = (fs', x) →
  ∃ f', fs_bootstrap_holds fs' m f' ∧ (f' = delete id f ∨ is_ok x = false ∧ f' = f).
Proof.
  intros Hfs He [[? ->]|H]%named_spec; [by exists f; auto|].
  apply (remove_file_spec (p12_of id)) in H as [_ [[_ Hd]|[Hx Hd]]]; unfold fs_bootstrap_holds; rewrite Hd;
    [|by exists f; auto].
  exists (delete id f). split; [rewrite documents_delete; by apply reads_remove_p12|by left].
Qed.

Lemma remove_keeps fs m f id fs' x :
  fs_bootstrap_holds fs m f → known id → fs_bootstrap_remove id fs = (fs', x) →
  ∃ m' f', fs_bootstrap_holds fs' m' f' ∧
    (m' = delete id m ∧ f' = delete id f ∨ is_ok x = false ∧ m' = m ∧ (f' = f ∨ f' = delete id f)).
Proof.
  intros Hfs He [[? ->]|H]%named_spec; [exists m, f; by auto 6|]. unfold eff_bind at 1 in H.
  destruct (remove_file _ fs) as [fs1 y] eqn:E1.
  apply (remove_file_spec (p12_of id)) in E1 as [_ [[-> Hd]|[Hx Hd]]].
  - assert (fs_bootstrap_holds fs1 m (delete id f)) as H1
      by (unfold fs_bootstrap_holds; rewrite Hd, documents_delete; by apply reads_remove_p12).
    apply named_spec in H as [[? ->]|H]; [exists m, (delete id f); by auto 6|].
    apply (remove_file_spec (json_of id)) in H as [_ [[_ Hd']|[Hx Hd']]].
    + exists (delete id m), (delete id f). split; [|by left]. unfold fs_bootstrap_holds.
      rewrite Hd', documents_delete. by apply reads_remove.
    + exists m, (delete id f). split; [|by auto 6]. unfold fs_bootstrap_holds. by rewrite Hd'.
  - exists m, f. destruct y; [done|]. simplify_eq. split; [unfold fs_bootstrap_holds; by rewrite Hd|by auto].
Qed.

Lemma p12_keeps fs m f id fs' x :
  fs_bootstrap_holds fs m f → known id → fs_bootstrap_p12 id fs = (fs', x) →
  fs_bootstrap_holds fs' m f ∧ ∀ file, x = Ok file → file = f !! id.
Proof.
  intros Hfs He [[? ->]|H]%named_spec; [split; [done|]; by intros ? ->|].
  change (_ +:+ "." +:+ "p12") with (p12_of id) in H.
  assert (Hfile : ∀ file, f !! id = Some file ↔ files fs !! p12_of id = Some (File file)).
  { intros file. rewrite <- documents_lookup by apply suffix_not_temp. rewrite (proj1 (proj2 Hfs)). tauto. }
  revert H. unfold eff_bind, system_call, get_files, eff_ret, eff_fail. destruct fs as [fl os ro].
  destruct os as [|[|] os]; cbn in *; destruct (fl !! p12_of id) as [[file|]|] eqn:E; intros [= <- <-];
    (split; [exact Hfs|]); intros file' [= <-]; apply eq_sym; try (by apply Hfile);
    (destruct (f !! id) as [s|]; [|done]); discriminate (proj1 (Hfile s) eq_refl).
Qed.

(** One round of the first loop. *)
Lemma load_entry_spec name fs fs' x :
  load_entry from_json name fs = (fs', x) →
  files fs' = files fs ∧
  ∀ one, x = Ok one → fst <$> one = strip_suffix ".json" name ∧ ∀ stem e, one = Some (stem, e) ↔
    name = stem +:+ ".json" ∧ cert_file_stem (b_id e) = stem ∧
    ∃ text, files fs !! name = Some (File text) ∧ from_json text = Some e.
Proof.
  unfold load_entry. destruct (strip_suffix ".json" name) as [stem|] eqn:Es.
  2:{ intros [= <- <-]. split; [done|]. intros one [= <-]. split; [done|]. intros stem e. split; [done|]. intros (Hn & _).
      apply strip_suffix_Some in Hn. congruence. }
  apply strip_suffix_Some in Es as ->. unfold eff_bind, eff_fail, eff_ret.
  destruct (read_to_string _ fs) as [fs1 r] eqn:E1. apply read_to_string_spec in E1 as (Hf1 & _ & Hc).
  destruct r as [text|err]; [|by intros [= <- <-]]. specialize (Hc text eq_refl).
  destruct (from_json text) as [e|] eqn:Ej; [|by intros [= <- <-]].
  destruct (_ || _) eqn:Eb; intros [= <- <-]; (split; [done|]); [done|]. intros one [= <-]. split; [done|]. intros stem' e'.
  apply orb_false_iff in Eb as [_ Eb%negb_false_iff%bool_decide_eq_true]. split.
  - intros [= <- <-]. eauto.
  - intros (Hn%suffix_inj & Hst & t & Ht & He). simplify_eq. done.
Qed.

(** The first loop: each [.json] file's entry, in order. *)
Lemma each_load_entry_spec names : ∀ fs fs' x,
  eff_each (load_entry from_json) names fs = (fs', x) →
  files fs' = files fs ∧
  ∀ read, x = Ok read → (omap id read).*1 = omap (strip_suffix ".json") names ∧
    ∀ stem e, Some (stem, e) ∈ read ↔
      stem +:+ ".json" ∈ names ∧ cert_file_stem (b_id e) = stem ∧
      ∃ text, files fs !! (stem +:+ ".json") = Some (File text) ∧ from_json text = Some e.
Proof.
  induction names as [|name names IH]; intros fs fs' x; cbn [eff_each].
  { intros [= <- <-]. split; [done|]. intros read [= <-]. split; [done|]. intros stem e. rewrite !elem_of_nil. tauto. }
  unfold eff_bind, eff_ret. destruct (load_entry from_json name fs) as [fs1 r1] eqn:E1.
  apply load_entry_spec in E1 as [Hf1 Hr1]. destruct r1 as [one|err]; [|by intros [= <- <-]].
  destruct (eff_each _ names fs1) as [fs2 r2] eqn:E2. apply IH in E2 as [Hf2 Hr2].
  destruct r2 as [more|err]; intros [= <- <-]; (split; [congruence|]); [|done].
  intros read [= <-]. destruct (Hr2 more eq_refl) as [Hs2 Hin2]. specialize (Hr1 one eq_refl) as [Hs1 Hin1]. split.
  - cbn. rewrite <- Hs1. destruct one as [[stem e]|]; cbn; by rewrite Hs2.
  - intros stem e. rewrite !elem_of_cons, Hin2, Hf1. specialize (Hin1 stem e). split.
    + intros [<-|(H1 & H2 & H3)]; [|by auto]. destruct Hin1 as [Hin1 _]. destruct Hin1 as (-> & Hst & H3); auto.
    + intros ([Hn|Hin] & Hst & H3); [|by auto]. subst name. left. symmetry. by apply Hin1.
Qed.

Lemma NoDup_omap_suffix p names : NoDup names → NoDup (omap (strip_suffix p) names).
Proof.
  induction 1 as [|name names Hn _ IH]; [constructor|]. cbn. destruct (strip_suffix p name) as [stem|] eqn:E; [|done].
  constructor; [|done]. intros (name' & Hin & E')%list_elem_of_omap. destruct Hn.
  apply strip_suffix_Some in E as ->. apply strip_suffix_Some in E' as ->. done.
Qed.

Lemma load_known_spec stems name fs fs' x : load_known stems name fs = (fs', x) → fs' = fs.
Proof. unfold load_known, eff_bind, get_files, eff_fail, eff_ret. destruct (_ || _); by intros [= <- <-]. Qed.

Lemma each_load_known_spec stems names : ∀ fs fs' x, eff_each (load_known stems) names fs = (fs', x) → fs' = fs.
Proof.
  induction names as [|name names IH]; intros fs fs' x; cbn [eff_each]; [by intros [= <- <-]|].
  unfold eff_bind, eff_ret. destruct (load_known stems name fs) as [fs1 r1] eqn:E1. apply load_known_spec in E1 as ->.
  destruct r1; [|by intros [= <- <-]]. destruct (eff_each _ names fs) as [fs2 r2] eqn:E2. apply IH in E2 as ->.
  destruct r2; by intros [= <- <-].
Qed.

Lemma load_keeps fs m f fs' x :
  fs_bootstrap_holds fs m f → fs_bootstrap_load from_json fs = (fs', x) →
  fs_bootstrap_holds fs' m f ∧
  ∀ l, x = Ok l → NoDup (b_id <$> l) ∧ ∀ e, e ∈ l ↔ m !! b_id e = Some e.
Proof.
  intros Hfs. unfold fs_bootstrap_load. unfold eff_bind at 1. destruct (entries fs) as [fs1 r1] eqn:E1.
  apply entries_spec in E1 as (Hd1 & _ & Hnames).
  assert (fs_bootstrap_holds fs1 m f) as H1 by (unfold fs_bootstrap_holds; by rewrite Hd1).
  destruct r1 as [names|err]; [|by intros [= <- <-]]. destruct (Hnames names eq_refl) as [Hnd Hin].
  unfold eff_bind at 1. destruct (eff_each _ names fs1) as [fs2 r2] eqn:E2.
  apply each_load_entry_spec in E2 as [Hf2 Hread].
  assert (fs_bootstrap_holds fs2 m f) as H2 by (unfold fs_bootstrap_holds; by rewrite Hf2).
  destruct r2 as [read|err]; [|by intros [= <- <-]]. destruct (Hread read eq_refl) as [Hstems Hel]. clear Hread.
  cbn zeta. unfold eff_bind at 1, eff_ret. destruct (eff_each _ names fs2) as [fs3 r3] eqn:E3.
  apply each_load_known_spec in E3 as ->. destruct r3; intros [= <- <-]; (split; [done|]); [|done].
  assert (Hse : ∀ stem e, (stem, e) ∈ omap id read → cert_file_stem (b_id e) = stem).
  { intros stem e ([[] |] & Hr & [= <- <-])%list_elem_of_omap. by apply Hel in Hr as (_ & ? & _). }
  intros l [= <-]. split.
  - apply (NoDup_fmap_1 cert_file_stem).
    rewrite <- list_fmap_compose.
    assert ((cert_file_stem ∘ b_id) <$> (omap id read).*2 = (omap id read).*1) as ->;
      [|rewrite Hstems; by apply NoDup_omap_suffix].
    revert Hse. generalize (omap id read) as lr. induction lr as [|[stem e] lr IH]; [done|]. intros Hse. cbn.
    f_equal; [apply Hse; by left|]. apply IH. intros ???. apply Hse. by right.
  - intros e. rewrite (proj1 H2), Hf2. split.
    + intros ([stem e'] & -> & ([[] |] & Hr & [= -> ->])%list_elem_of_omap)%list_elem_of_fmap. cbn.
      apply Hel in Hr as (Hn & Hst & t & Ht & He). rewrite <- Hst in *.
      rewrite documents_lookup by apply suffix_not_temp.
      assert (known (b_id e')) as Hk.
      { apply (proj2 (proj2 H1) t); [|done]. by rewrite documents_lookup by apply suffix_not_temp. }
      eauto.
    + intros (Hk & _ & t & Ht & He). apply list_elem_of_fmap. exists (cert_file_stem (b_id e), e). split; [done|].
      apply list_elem_of_omap. exists (Some (cert_file_stem (b_id e), e)). split; [|done]. apply Hel.
      rewrite Hin, <- Hd1. split; [by exists (File t)|]. split; [done|]. exists t. split; [|done].
      by rewrite documents_lookup in Ht by apply suffix_not_temp.
Qed.
End Keeps.

(** ** The port, on the filesystem *)

Section Port.
Context (to_json : BootstrapEntry → string) (from_json : string → option BootstrapEntry).

Definition stored_as {A} (m : Eff Fs FsError A) : Eff Fs StoreError A := eff_map_err (λ _, StoreFailed) m.

Definition fs_bootstrap : BootstrapStore Fs :=
  with_bodies (stored_as (fs_bootstrap_load from_json)) (λ e, stored_as (fs_bootstrap_put to_json e))
    (λ id, stored_as (fs_bootstrap_remove id)) (λ id file, stored_as (fs_bootstrap_put_p12 id file))
    (λ id, stored_as (fs_bootstrap_p12 id)) (λ id, stored_as (fs_bootstrap_remove_p12 id)).

Lemma stored_as_inv {A} (m : Eff Fs FsError A) fs fs' x :
  stored_as m fs = (fs', x) → ∃ y, m fs = (fs', y) ∧ is_ok y = is_ok x ∧ ∀ a, x = Ok a → y = Ok a.
Proof.
  unfold stored_as, eff_map_err. destruct (m fs) as [fs1 [a|e]]; intros [= <- <-]; eexists; (split; [done|]); naive_solver.
Qed.

Context (known : CertId → Prop).
Hypothesis json_round_trip : ∀ e, from_json (to_json e) = Some e.
Hypothesis names_apart : ∀ x y, known x → known y → cert_file_stem x = cert_file_stem y → x = y.

(** The filesystem adapter keeps the port, over certificates whose file names are apart. *)
Lemma fs_bootstrap_port : @BootstrapPort Fs fs_bootstrap known (fs_bootstrap_holds from_json known).
Proof.
  apply with_bodies_port.
  - split.
    + intros b m f b' x Hb (y & Hy & _ & Hx)%stored_as_inv. destruct (load_keeps from_json known b m f b' y Hb Hy) as [Hb' Hl].
      split; [done|]. intros l ->. by apply Hl, Hx.
    + intros b m f e b' x Hb Hk (y & Hy & <- & _)%stored_as_inv. eapply put_keeps in Hy; [|done..]. done.
    + intros b m f id b' x Hb Hk (y & Hy & <- & _)%stored_as_inv. eapply remove_keeps in Hy; [|done..]. done.
    + intros b m f id file b' x Hb Hk (y & Hy & <- & _)%stored_as_inv. eapply put_p12_keeps in Hy; [|done..]. done.
    + intros b m f id b' x Hb Hk (y & Hy & _ & Hx)%stored_as_inv. destruct (p12_keeps from_json known b m f id b' y Hb Hk Hy) as [Hb' Hf].
      split; [done|]. intros file ->. by apply Hf, Hx.
    + intros b m f id b' x Hb Hk (y & Hy & <- & _)%stored_as_inv. eapply remove_p12_keeps in Hy; [|done..]. done.
  - intros b m f id e [Hm _] He. by apply Hm in He as (_ & ? & _).
  - intros b m f id e [Hm _] He. by apply Hm in He as (? & _).
Qed.
End Port.
