(* ===== verification/BootstrapRuns.v ===== *)
(** * Runs of the bootstrap record

    A Server that starts, serves the calls of [fleet-server/src/bootstrap.rs] in any order and stops, with
    whatever the store makes of each: [step] is the code, [change] what a call may do to the record in
    memory, the entries stored and the files stored, and [step_changes] that it does nothing else. *)

From S2P Require Import Prelude RustStr Placement Revocation Fs Bootstrap BootstrapPort.

Open Scope string_scope.
Open Scope list_scope.

(** ** Calls *)

Inductive Call :=
| Start (s : option BootstrapSigner) (now : N)
| Stop
| Ordering (request : IssueRequest) (room_now now : N)
| Recording (made : Pair) (now prune_now : N) (told : bool)
| Listing (prune_now now : N)
| Downloading (now : N) (sn : string) (is_revoked : CertId → bool) (told : bool)
| Deleting (now : N) (sn : string) (is_revoked : CertId → bool) (told : bool)
| Forgetting (sn : string).

Inductive Server (B : Type) :=
| Up (c : Certificates B)
| Down (b : B).
Arguments Up {B}.
Arguments Down {B}.

Definition store_of {B} (s : Server B) : B := match s with Up c => kept_in c | Down b => b end.
Definition signer_of {B} (s : Server B) : option BootstrapSigner := match s with Up c => signer c | Down _ => None end.

Section Runs.
Context {B : Type} `{!BootstrapStore B}.

(** One call of a Server that is up; the two halves of an issuance are calls of their own, since other
    calls run while the signer does. *)
Definition served (call : Call) (c : Certificates B) : Certificates B * option BootstrapAnswer :=
  match call with
  | Start _ _ | Stop => (c, None)
  | Ordering request room_now now => ((issue_order request room_now now c).1, None)
  | Recording made now prune_now told =>
      let (c, x) := issue_record made now prune_now c in
      let (c, answer) := issue_answered told c (Some x) in (c, Some answer)
  | Listing prune_now now => ((list_valid prune_now now c).1, None)
  | Downloading now sn is_revoked told =>
      let (c, answer) := download_route now sn is_revoked told c in (c, Some answer)
  | Deleting now sn is_revoked told =>
      let '(c, _, answer) := delete_route now sn (λ e w, (w, is_revoked (b_id e))) (λ _ w, (w, told)) c tt in
      (c, Some answer)
  | Forgetting sn => ((forget_p12 sn c).1, None)
  end.

(** A start reads the store anew; one that fails leaves the Server down, and so does a stop. *)
Definition step (call : Call) (s : Server B) : Server B * option BootstrapAnswer :=
  match call, s with
  | Start ca now, _ =>
      match open ca now (store_of s) with
      | (_, Ok c) => (Up c, None)
      | (b, Err _) => (Down b, None)
      end
  | Stop, _ => (Down (store_of s), None)
  | _, Down b => (s, None)
  | _, Up c => let (c, answer) := served call c in (Up c, answer)
  end.

Fixpoint run (calls : list Call) (s : Server B) : Server B :=
  match calls with
  | [] => s
  | call :: calls => run calls (step call s).1
  end.

Lemma run_app calls more s : run (calls ++ more) s = run more (run calls s).
Proof. revert s. induction calls as [|call calls IH]; [done|]. intros s. apply IH. Qed.

(** ** What a call may change *)

(** The record in memory, the entries stored and the files stored. *)
Record Kept := mkKept { in_memory : EntryMap; stored : EntryMap; sealed : FileMap }.

Inductive change (gone : CertId → Prop) (made : option (BootstrapEntry * string)) : Kept → Kept → Prop :=
| drops_file id r m f : gone id → change gone made (mkKept r m f) (mkKept r m (delete id f))
| drops_entry id r m f : gone id → change gone made (mkKept r m f) (mkKept r (delete id m) f)
| drops_record id r m f : gone id → change gone made (mkKept r m f) (mkKept (delete id r) m f)
| blanks_entry id e r m f : gone id → r !! id = Some e →
    change gone made (mkKept r m f) (mkKept r (<[id := without_p12 e]> m) f)
| blanks_record id e r m f : gone id → r !! id = Some e →
    change gone made (mkKept r m f) (mkKept (<[id := without_p12 e]> r) m f)
| adds_file e x r m f : made = Some (e, x) → change gone made (mkKept r m f) (mkKept r m (<[b_id e := x]> f))
| adds_entry e x r m f : made = Some (e, x) → change gone made (mkKept r m f) (mkKept r (<[b_id e := e]> m) f)
| adds_record e x r m f : made = Some (e, x) → change gone made (mkKept r m f) (mkKept (<[b_id e := e]> r) m f)
| reads_entry e r m f : m !! b_id e = Some e → change gone made (mkKept r m f) (mkKept (<[b_id e := e]> r) m f).

Definition changes gone made : relation Kept := rtc (change gone made).

(** A fact no single change undoes holds after all of them. *)
Lemma changes_keep (P : Kept → Prop) gone made k k' :
  (∀ k k', change gone made k k' → P k → P k') → changes gone made k k' → P k → P k'.
Proof. intros HP. induction 1; eauto. Qed.

(** A call may do less than it is allowed. *)
Lemma changes_mono (gone gone' : CertId → Prop) made made' k k' :
  (∀ id, gone id → gone' id) → (∀ ex, made = Some ex → made' = Some ex) →
  changes gone made k k' → changes gone' made' k k'.
Proof.
  intros Hg Hm. induction 1 as [|k k1 k2 Hk _ IH]; [apply rtc_refl|].
  apply (rtc_l _ _ k1); [|done]. destruct Hk;
    [eapply drops_file|eapply drops_entry|eapply drops_record|eapply blanks_entry|eapply blanks_record
    |eapply adds_file|eapply adds_entry|eapply adds_record|eapply reads_entry]; eauto.
Qed.

(** The entries of the record that a call may drop: what has ended, and what the serial it acts on
    names. *)
Definition gone_by (call : Call) (k : Kept) (id : CertId) : Prop :=
  match call with
  | Start s now => ∃ e, stored k !! id = Some e ∧ (ended now e = true ∨ of_current s e = false)
  | Stop => False
  | Ordering _ now _ | Listing now _ => ∃ e, in_memory k !! id = Some e ∧ ended now e = true
  | Recording made _ now told =>
      id = pair_id made ∨
      ∃ e, in_memory k !! id = Some e ∧ (ended now e = true ∨ told = false ∧ b_serial e = pair_serial made)
  | Downloading now sn is_revoked _ =>
      ∃ e, in_memory k !! id = Some e ∧ (ended now e = true ∨ is_revoked id = true ∧ b_serial e = sn)
  | Deleting now sn is_revoked told =>
      ∃ e, in_memory k !! id = Some e ∧ (ended now e = true ∨ is_revoked id = true ∧ told = true ∧ b_serial e = sn)
  | Forgetting sn => ∃ e, in_memory k !! id = Some e ∧ b_serial e = sn
  end.

Definition made_by (call : Call) (s : option BootstrapSigner) : option (BootstrapEntry * string) :=
  match call, s with
  | Recording made now _ _, Some ca => Some (entry_of ca now made, pkcs12 made)
  | _, _ => None
  end.

(** ** A call does what it may *)

Context (known : CertId → Prop) (holds : B → EntryMap → FileMap → Prop).
Context `{!BootstrapPort B known holds}.

(** The record's keys are the entries' own, and the store's names for them are apart. *)
Definition keyed (r : EntryMap) : Prop := ∀ id e, r !! id = Some e → b_id e = id ∧ known id.

(** Of a Server that is down only the store is left. *)
Definition stands (s : Server B) (k : Kept) : Prop :=
  match s with Up c => in_memory k = on_record c | Down _ => True end ∧
  holds (store_of s) (stored k) (sealed k) ∧ keyed (in_memory k).

Definition standing (c : Certificates B) (k : Kept) : Prop := stands (Up c) k.

(** The calls that make certificates make ones whose names are apart. *)
Definition makes_known (call : Call) : Prop :=
  match call with Recording made _ _ _ => known (pair_id made) | _ => True end.

Lemma change_keyed gone made k k' :
  (∀ e x, made = Some (e, x) → known (b_id e)) → (∀ id e, stored k !! id = Some e → known id) →
  change gone made k k' → keyed (in_memory k) → keyed (in_memory k').
Proof.
  intros Hmade Hst. destruct 1; cbn in *; intros Hk id' e' He'; try (by apply Hk).
  - apply lookup_delete_Some in He' as [_ He']. by apply Hk.
  - apply lookup_insert_Some in He' as [[<- <-]|[_ He']]; [|by apply Hk]. cbn. by apply (Hk id).
  - apply lookup_insert_Some in He' as [[<- <-]|[_ He']]; [|by apply Hk]. eauto.
  - apply lookup_insert_Some in He' as [[<- <-]|[_ He']]; [|by apply Hk]. eauto.
Qed.

(** A call into the store that may only drop the file or the entry of [id]. *)
Lemma remove_changes (gone : CertId → Prop) made (c c' : Certificates B) k id x :
  standing c k → known id → gone id → on_kept (bs_remove id) c = (c', x) →
  signer c' = signer c ∧ on_record c' = on_record c ∧
  ∃ k', standing c' k' ∧ changes gone made k k' ∧
    (x = Ok tt → stored k' = delete id (stored k) ∧ sealed k' = delete id (sealed k)).
Proof.
  intros (Hr & Hh & Hk) Hid Hg. unfold on_kept. destruct (bs_remove id (kept_in c)) as [b y] eqn:E. intros [= <- <-].
  apply (kd_remove _ _ _ _ _ _ _ _ bp_documents _ (stored k) (sealed k)) in E as (m' & f' & Hh' & Hmf); [|done..].
  cbn. split; [done|]. split; [done|]. exists (mkKept (in_memory k) m' f'). split; [done|].
  destruct k as [r m f]; cbn in *.
  assert (changes gone made (mkKept r m f) (mkKept r m (delete id f))) as H1 by (apply rtc_once; by constructor).
  assert (changes gone made (mkKept r m f) (mkKept r (delete id m) (delete id f))) as H2
    by (eapply rtc_r; [exact H1|by constructor]).
  destruct Hmf as [[-> ->]|(Hy & -> & [->| ->])]; (split; [done || apply rtc_refl|]); [done|..]; by intros ->.
Qed.

(** The removal of [store.remove] and [entries.remove]. *)
Lemma drop_changes (gone : CertId → Prop) made (c c' : Certificates B) k id x :
  standing c k → known id → gone id → (_ <-! on_kept (bs_remove id) ;; set_record (delete id)) c = (c', x) →
  signer c' = signer c ∧
  (∃ k', standing c' k' ∧ changes gone made k k') ∧
  (x = Ok tt ∧ on_record c' = delete id (on_record c) ∨ is_ok x = false ∧ on_record c' = on_record c).
Proof.
  intros Hc Hid Hg. unfold eff_bind. destruct (on_kept (bs_remove id) c) as [c1 y] eqn:E1.
  apply (remove_changes gone made _ _ k) in E1 as (Hs1 & Hr1 & k1 & Hc1 & Hch & _); [|done..].
  destruct y as [[]|e]; [|intros [= <- <-]; split_and!; [done|eauto|by right]].
  unfold set_record. intros [= <- <-]. cbn. split; [done|]. rewrite Hr1. split; [|by left].
  exists (mkKept (delete id (in_memory k1)) (stored k1) (sealed k1)). split.
  - destruct Hc1 as (Hr & Hh & Hk). split; [cbn; by rewrite Hr, <- Hr1|]. split; [done|].
    cbn. intros id' e' [_ He']%lookup_delete_Some. by apply Hk.
  - eapply rtc_r; [exact Hch|]. destruct k1. by constructor.
Qed.

Lemma elem_of_record_values (m : EntryMap) e : e ∈ record_values m ↔ ∃ id, m !! id = Some e.
Proof.
  unfold record_values. rewrite list_elem_of_omap. split; [intros (id & _ & H); eauto|].
  intros (id & H). exists id. split; [|done]. rewrite merge_sort_Permutation, elem_of_elements, elem_of_dom. eauto.
Qed.

Lemma elem_of_List_filter {A} (p : A → bool) l x : x ∈ List.filter p l ↔ x ∈ l ∧ p x = true.
Proof. by rewrite !list_elem_of_In, filter_In. Qed.

Lemma prune_each_changes (gone : CertId → Prop) made ids : ∀ (c c' : Certificates B) k x,
  standing c k → (∀ id, id ∈ ids → known id ∧ gone id) → prune_each ids c = (c', x) →
  signer c' = signer c ∧ (∃ k', standing c' k' ∧ changes gone made k k') ∧
  (∀ id e, on_record c' !! id = Some e → on_record c !! id = Some e ∧ (x = Ok tt → id ∉ ids)).
Proof.
  induction ids as [|id ids IH]; intros c c' k x Hc Hids; cbn [prune_each].
  { intros [= <- <-]. split; [done|]. split; [exists k; split; [done|apply rtc_refl]|].
    intros id e He. split; [done|]. intros _. apply not_elem_of_nil. }
  destruct (Hids id) as [Hid Hg]; [by left|]. intros H.
  assert (Hassoc : (_ <-! (_ <-! on_kept (bs_remove id) ;; set_record (delete id)) ;; prune_each ids) c = (c', x)).
  { rewrite <- H. unfold eff_bind. by destruct (on_kept (bs_remove id) c) as [c1 []]. }
  unfold eff_bind at 1 in Hassoc. clear H.
  destruct ((_ <-! on_kept (bs_remove id) ;; set_record (delete id)) c) as [c1 y] eqn:E1.
  apply (drop_changes gone made _ _ k) in E1 as (Hs1 & (k1 & Hc1 & Hch1) & Hr1); [|done..].
  destruct y as [[]|e].
  - destruct Hr1 as [[_ Hr1]|[? _]]; [|done].
    apply (IH _ _ k1) in Hassoc as (Hs2 & (k2 & Hc2 & Hch2) & Hr2); [|done|intros; apply Hids; by right].
    split; [congruence|]. split; [exists k2; split; [done|by transitivity k1]|].
    intros id' e' He'. apply Hr2 in He' as [He' Hn]. rewrite Hr1 in He'. apply lookup_delete_Some in He' as [Hne He'].
    split; [done|]. intros Hx [->|?]%elem_of_cons; [done|]. by apply Hn.
  - destruct Hr1 as [[? _]|[_ Hr1]]; [done|]. injection Hassoc as <- <-. rewrite Hr1. split_and!; [done|eauto|done].
Qed.

(** [prune] drops what has ended, and when it succeeds all of it. *)
Lemma prune_changes (gone : CertId → Prop) made now (c c' : Certificates B) k x :
  standing c k → (∀ id e, in_memory k !! id = Some e → ended now e = true → gone id) → prune now c = (c', x) →
  signer c' = signer c ∧ (∃ k', standing c' k' ∧ changes gone made k k') ∧
  (∀ id e, on_record c' !! id = Some e → on_record c !! id = Some e ∧ (x = Ok tt → ended now e = false)).
Proof.
  intros Hc Hg. unfold prune. intros H. pose proof Hc as (Hr & _ & Hk). cbn in Hr.
  assert (Hids : ∀ id, id ∈ b_id <$> List.filter (ended now) (record_values (on_record c)) ↔
    ∃ e, on_record c !! id = Some e ∧ ended now e = true).
  { intros id. rewrite list_elem_of_fmap. setoid_rewrite elem_of_List_filter. setoid_rewrite elem_of_record_values. split.
    - intros (e & Hb & (id' & He) & Hend). exists e. rewrite <- Hr in He. destruct (Hk id' e He) as [Hb' _].
      split; [|done]. by rewrite <- Hr, Hb, Hb'.
    - intros (e & He & Hend). exists e. split; [|eauto]. rewrite <- Hr in He. by destruct (Hk id e He) as [-> _]. }
  apply (prune_each_changes gone made _ _ _ k) in H as (Hs & Hch & Hrec); [|done|].
  2:{ intros id (e & He & Hend)%Hids. rewrite <- Hr in He. split; [by apply (Hk id e)|by eapply Hg]. }
  split; [done|]. split; [done|]. intros id e He. destruct (Hrec id e He) as [He' Hx]. split; [done|].
  intros ->. specialize (Hx eq_refl). rewrite Hids in Hx. destruct (ended now e) eqn:E; [|done]. destruct Hx. eauto.
Qed.

Lemma newest_elem best l e : newest best l = Some e → best = Some e ∨ e ∈ l.
Proof.
  revert best. induction l as [|x l IH]; intros best; [by left|]. cbn. intros [H|H]%IH; [|by right; right].
  destruct best as [b|]; [destruct (_ <? _)%N|]; simplify_eq; auto; right; by left.
Qed.

Lemma newest_None best l : newest best l = None → best = None ∧ l = [].
Proof.
  revert best. induction l as [|x l IH]; intros best; [done|]. cbn. intros [H _]%IH.
  destruct best as [b|]; [destruct (_ <? _)%N|]; done.
Qed.

(** What a serial names: an entry of that serial and of the CA in force, when there is one. *)
Lemma in_force_Some s (m : EntryMap) sn e :
  in_force s m sn = Some e → (∃ id, m !! id = Some e) ∧ b_serial e = sn ∧ of_current s e = true.
Proof.
  unfold in_force. intros [?|H]%newest_elem; [done|].
  apply elem_of_List_filter in H as [[H Hs]%elem_of_List_filter Hc]. apply elem_of_record_values in H.
  by apply bool_decide_eq_true in Hs.
Qed.

Lemma in_force_None s (m : EntryMap) sn id e :
  in_force s m sn = None → m !! id = Some e → b_serial e = sn → of_current s e = false.
Proof.
  unfold in_force. intros [_ H]%newest_None He Hs. destruct (of_current s e) eqn:Hc; [|done].
  assert (e ∈ []) as []%not_elem_of_nil. rewrite <- H. rewrite !elem_of_List_filter, elem_of_record_values.
  split; [|done]. split; [eauto|]. by apply bool_decide_eq_true.
Qed.

(** [forget_p12] blanks what the serial names. *)
Lemma forget_changes (gone : CertId → Prop) made sn (c c' : Certificates B) k x :
  standing c k → (∀ e, in_force (signer c) (on_record c) sn = Some e → gone (b_id e)) → forget_p12 sn c = (c', x) →
  signer c' = signer c ∧ (∃ k', standing c' k' ∧ changes gone made k k').
Proof.
  intros Hc Hg. assert (Hsame : ∃ k', standing c k' ∧ changes gone made k k') by (exists k; split; [done|apply rtc_refl]).
  unfold forget_p12. destruct (in_force _ _ sn) as [e|] eqn:Ei; [|by intros [= <- <-]].
  destruct (b_p12 e); [|by intros [= <- <-]]. specialize (Hg e eq_refl). clear Hsame.
  apply in_force_Some in Ei as [[id Hid] _]. destruct Hc as (Hr & Hh & Hk). cbn in Hr, Hh.
  rewrite <- Hr in Hid. destruct (Hk id e Hid) as [<- Hkn].
  unfold eff_bind, on_kept, set_record. destruct (bs_put (without_p12 e) (kept_in c)) as [b1 y] eqn:E1.
  apply (kd_put _ _ _ _ _ _ _ _ bp_documents _ (stored k) (sealed k)) in E1 as (m1 & Hh1 & Hm1); [|done..].
  change (b_id (without_p12 e)) with (b_id e) in Hm1. destruct k as [r m f]. cbn in *.
  assert (changes gone made (mkKept r m f) (mkKept r m1 f)) as Hch1.
  { destruct Hm1 as [->|[_ ->]]; [apply rtc_once; by econstructor|apply rtc_refl]. }
  destruct y as [[]|err]; [|intros [= <- <-]; split; [done|]; exists (mkKept r m1 f); done].
  destruct (bs_remove_p12 (b_id e) b1) as [b2 z] eqn:E2.
  apply (kd_remove_p12 _ _ _ _ _ _ _ _ bp_documents _ m1 f) in E2 as (f2 & Hh2 & Hf2); [|done..].
  intros [= <- <-]. split; [done|]. exists (mkKept (<[b_id e := without_p12 e]> r) m1 f2).
  assert (changes gone made (mkKept r m f) (mkKept (<[b_id e := without_p12 e]> r) m1 f)) as Hch2
    by (eapply rtc_r; [exact Hch1|by eapply blanks_record]).
  split.
  - split; [cbn; by rewrite Hr|]. split; [done|]. cbn. intros id' e' [[<- <-]|[_ He']]%lookup_insert_Some; [done|].
    by apply Hk.
  - destruct Hf2 as [->|[_ ->]]; [eapply rtc_r; [exact Hch2|by constructor]|done].
Qed.

(** The loop of [open]: what another CA signed is dropped, the rest read into memory. *)
Lemma open_each_changes (gone : CertId → Prop) made ca l : ∀ b b' r m f x,
  holds b m f → keyed r → NoDup (b_id <$> l) → (∀ e, e ∈ l → m !! b_id e = Some e) →
  (∀ e, e ∈ l → of_current ca e = false → gone (b_id e)) →
  open_each (ca_key_fingerprint <$> ca) l r b = (b', x) →
  ∃ r' m' f', holds b' m' f' ∧ keyed r' ∧ changes gone made (mkKept r m f) (mkKept r' m' f') ∧
    ∀ read, x = Ok read → read = r' ∧ (∀ id, id ∉ b_id <$> l → r' !! id = r !! id) ∧
      (∀ id e, r' !! id = Some e → r !! id = Some e ∨ e ∈ l) ∧ ∀ e, e ∈ l → of_current ca e = true → r' !! b_id e = Some e.
Proof.
  induction l as [|e l IH]; intros b b' r m f x Hh Hk Hnd Hl Hg; cbn [open_each].
  { intros [= <- <-]. exists r, m, f. split_and!; [done..|apply rtc_refl|]. intros read [= <-].
    split_and!; [done|done|by left|]. by intros ? ?%not_elem_of_nil. }
  apply NoDup_cons in Hnd as [Hnew Hnd]. pose proof (Hl e (list_elem_of_here _ _)) as He.
  pose proof (bp_known _ _ _ _ _ Hh He) as Hkn.
  assert (Hmis : match ca_key_fingerprint <$> ca with Some a => negb (bool_decide (a = b_ca_key e)) | None => false end
    = negb (of_current ca e)) by (by destruct ca). rewrite Hmis.
  assert (Hother : ∀ e', e' ∈ l → b_id e' ≠ b_id e).
  { intros e' He' Heq. destruct Hnew. rewrite <- Heq. apply list_elem_of_fmap. eauto. }
  destruct (of_current ca e) eqn:Ec; cbn [negb].
  - intros H. apply IH with (m := m) (f := f) in H as (r' & m' & f' & Hh' & Hk' & Hch & Hx); [|done|..].
    + exists r', m', f'. split_and!; [done..| |].
      * eapply rtc_l; [by apply reads_entry|done].
      * intros read Hread. destruct (Hx read Hread) as (-> & Hsame & Hfrom & Hin). split_and!; [done|..].
        -- intros id [Hne Hid]%not_elem_of_cons. rewrite Hsame by done. by apply lookup_insert_ne.
        -- intros id e' [[[<- <-]|[_ He']]%lookup_insert_Some|He']%Hfrom; [right; by left|by left|right; by right].
        -- intros e' [->|He']%elem_of_cons Hc; [|by apply Hin]. rewrite Hsame by done. apply lookup_insert_eq.
    + intros id e' [[<- <-]|[_ He']]%lookup_insert_Some; [done|by apply Hk].
    + done.
    + intros e' He'. apply Hl. by right.
    + intros e' He'. apply Hg. by right.
  - unfold eff_bind. destruct (bs_remove (b_id e) b) as [b1 y] eqn:E1.
    apply (kd_remove _ _ _ _ _ _ _ _ bp_documents _ m f) in E1 as (m1 & f1 & Hh1 & Hmf); [|done..].
    specialize (Hg e (list_elem_of_here _ _) Ec) as Hge.
    assert (changes gone made (mkKept r m f) (mkKept r m (delete (b_id e) f))) as H1 by (apply rtc_once; by constructor).
    assert (changes gone made (mkKept r m f) (mkKept r m1 f1)) as Hch1.
    { destruct Hmf as [[-> ->]|(_ & -> & [->| ->])]; [|apply rtc_refl|done].
      eapply rtc_r; [exact H1|by constructor]. }
    destruct y as [[]|err]; [|intros [= <- <-]; by exists r, m1, f1].
    destruct Hmf as [[-> ->]|[? _]]; [|done]. intros H.
    apply IH with (m := delete (b_id e) m) (f := delete (b_id e) f) in H as (r' & m' & f' & Hh' & Hk' & Hch & Hx); [|done..| |].
    + exists r', m', f'. split_and!; [done..|by eapply rtc_trans|].
      intros read Hread. destruct (Hx read Hread) as (-> & Hsame & Hfrom & Hin). split_and!; [done|..].
      * intros id [Hne Hid]%not_elem_of_cons. by apply Hsame.
      * intros id e' [He'|He']%Hfrom; [by left|right; by right].
      * intros e' [->|He']%elem_of_cons Hc; [congruence|by apply Hin].
    + intros e' He'. rewrite lookup_delete_ne by (intros Heq; by apply (Hother e')). apply Hl. by right.
    + intros e' He'. apply Hg. by right.
Qed.

(** [open] reads the store into memory, and then drops what has ended. *)
Lemma open_changes (gone : CertId → Prop) made ca now b b' m f x :
  holds b m f →
  (∀ id e, m !! id = Some e → ended now e = true ∨ of_current ca e = false → gone id) →
  open ca now b = (b', x) →
  ∃ k1 k', changes gone made (mkKept ∅ m f) k1 ∧ changes gone made k1 k' ∧
    match x with
    | Err _ => stands (Down b') k'
    | Ok c => stands (Up c) k' ∧ signer c = ca ∧ kept_in c = b' ∧
        ∀ id e, m !! id = Some e → of_current ca e = true → in_memory k1 !! id = Some e
    end.
Proof.
  intros Hh Hg. unfold open. unfold eff_bind at 1. destruct (bs_load b) as [b1 y] eqn:E1.
  apply (kd_load _ _ _ _ _ _ _ _ bp_documents _ m f) in E1 as [Hh1 Hl]; [|done].
  assert (keyed ∅) as Hk0 by (intros ??; by rewrite lookup_empty).
  destruct y as [l|err].
  2:{ intros [= <- <-]. exists (mkKept ∅ m f), (mkKept ∅ m f). split_and!; [apply rtc_refl..|done]. }
  destruct (Hl l eq_refl) as [Hnd Hin]. clear Hl.
  destruct (open_each _ l ∅ b1) as [b2 z] eqn:E2.
  apply (open_each_changes gone made ca l _ _ ∅ m f) in E2 as (r2 & m2 & f2 & Hh2 & Hk2 & Hch2 & Hz); [|done..| |].
  2:{ intros e He. by apply Hin. }
  2:{ intros e He%Hin Hc. apply (Hg _ e); auto. }
  destruct z as [r|err].
  2:{ intros [= <- <-]. exists (mkKept r2 m2 f2), (mkKept r2 m2 f2). split_and!; [done|apply rtc_refl|done]. }
  destruct (Hz r eq_refl) as (-> & _ & Hfrom & Hread).
  assert (Hsub : ∀ id e, r2 !! id = Some e → m !! id = Some e).
  { intros id e He. destruct (Hfrom id e He) as [H|H]; [by rewrite lookup_empty in H|].
    destruct (Hk2 id e He) as [<- _]. by apply Hin. }
  destruct (prune now (mkCertificates ca b2 r2)) as [c w] eqn:E3.
  apply (prune_changes gone made now _ _ (mkKept r2 m2 f2)) in E3 as (Hs3 & (k3 & Hc3 & Hch3) & _); [|done|].
  2:{ cbn. intros id e He Hend. apply (Hg id e); auto. }
  intros H. exists (mkKept r2 m2 f2), k3. split; [done|]. split; [done|]. destruct Hc3 as (Hr3 & Hh3 & Hk3).
  destruct w as [[]|err]; injection H as <- <-; [|done].
  split_and!; [done..|]. intros id e He Hc. pose proof (bp_keyed _ _ _ _ _ Hh He) as <-. apply Hread; [by apply Hin|done].
Qed.

(** What a lemma about a call says of it. *)
Definition acts (gone : CertId → Prop) made (c c' : Certificates B) (k : Kept) : Prop :=
  signer c' = signer c ∧ ∃ k', standing c' k' ∧ changes gone made k k'.

Lemma acts_refl gone made c k : standing c k → acts gone made c c k.
Proof. intros Hc. split; [done|]. exists k. split; [done|apply rtc_refl]. Qed.

Lemma acts_trans (gone : CertId → Prop) made c c1 c' k :
  acts gone made c c1 k → (∀ k1, standing c1 k1 → acts gone made c1 c' k1) → acts gone made c c' k.
Proof.
  intros [Hs (k1 & Hc1 & Hch1)] H. destruct (H k1 Hc1) as [Hs' (k' & Hc' & Hch')].
  split; [congruence|]. exists k'. split; [done|]. by eapply rtc_trans.
Qed.

Lemma prune_acts (gone : CertId → Prop) made now (c c' : Certificates B) k x :
  standing c k → (∀ id e, in_memory k !! id = Some e → ended now e = true → gone id) → prune now c = (c', x) →
  acts gone made c c' k.
Proof. intros Hc Hg H. eapply prune_changes in H as (Hs & Hch & _); [|done..]. by split. Qed.

Lemma order_acts request room_now now (c : Certificates B) k :
  standing c k → acts (gone_by (Ordering request room_now now) k) None c (issue_order request room_now now c).1 k.
Proof.
  intros Hc. assert (acts (gone_by (Ordering request room_now now) k) None c (room room_now c).1 k) as Hroom.
  { unfold room. destruct (prune room_now c) as [c1 [[]|e]] eqn:E; cbn; (eapply prune_acts; [done| |exact E]); cbn; eauto. }
  pose proof (acts_refl (gone_by (Ordering request room_now now) k) None c k Hc) as Hid.
  unfold issue_order. destruct (signer c) as [ca|]; [|done]. destruct (negb _); [done|].
  destruct (attributes _ _); [|done]. destruct (password request) as [pw|]; [|done].
  destruct (check_password pw); [|done]. destruct (room room_now c) as [c1 [[]|e]]; [|done]. by destruct (_ <=? _)%N.
Qed.

Lemma listing_acts prune_now now (c : Certificates B) k :
  standing c k → acts (gone_by (Listing prune_now now) k) None c (list_valid prune_now now c).1 k.
Proof.
  intros Hc. unfold list_valid. destruct (prune prune_now c) as [c1 x] eqn:E. eapply prune_acts; [done| |exact E]. cbn. eauto.
Qed.

Lemma forgetting_acts sn (c : Certificates B) k :
  standing c k → acts (gone_by (Forgetting sn) k) None c (forget_p12 sn c).1 k.
Proof.
  intros Hc. destruct (forget_p12 sn c) as [c1 x] eqn:E. eapply (forget_changes _ None) in E as [Hs Hch]; [by split|done|].
  intros e [[id Hid] [Hsn _]]%in_force_Some. cbn. destruct Hc as (Hr & _ & Hk). cbn in Hr. rewrite Hr in *.
  destruct (Hk id e Hid) as [<- _]. eauto.
Qed.

(** [p12] drops what has ended and changes nothing more; what it answers is what the serial names,
    sealed as the store has it. *)
Lemma p12_acts (gone : CertId → Prop) made now sn (c c' : Certificates B) k x :
  standing c k → (∀ id e, in_memory k !! id = Some e → ended now e = true → gone id) → p12 now sn c = (c', x) →
  acts gone made c c' k ∧ (∀ id e, on_record c' !! id = Some e → on_record c !! id = Some e) ∧
  (is_ok x = true → ∀ id e, on_record c' !! id = Some e → ended now e = false) ∧
  ∀ found, x = Ok found →
    match found with
    | Some (e, file) =>
        in_force (signer c') (on_record c') sn = Some e ∧ b_p12 e = true ∧
        ∃ k', standing c' k' ∧ changes gone made k k' ∧ sealed k' !! b_id e = Some file
    | None =>
        ∀ e, in_force (signer c') (on_record c') sn = Some e → b_p12 e = true →
          ∃ k', standing c' k' ∧ changes gone made k k' ∧ sealed k' !! b_id e = None
    end.
Proof.
  intros Hc Hg. unfold p12. unfold eff_bind at 1. destruct (prune now c) as [c1 y] eqn:E1.
  eapply prune_changes in E1 as (Hs1 & (k1 & Hc1 & Hch1) & Hr1); [|exact Hc|exact Hg].
  assert (acts gone made c c1 k) as Ha1 by (split; eauto).
  destruct y as [[]|err]; [|intros [= <- <-]; split_and!; [done|intros; by apply Hr1|done|done]].
  destruct (in_force (signer c1) (on_record c1) sn) as [e|] eqn:Ei.
  2:{ intros [= <- <-]. split_and!; [done|intros; by apply Hr1|intros _ id e He; by apply (Hr1 id e)|].
      intros found [= <-] e. by rewrite Ei. }
  destruct (b_p12 e) eqn:Ep.
  2:{ intros [= <- <-]. split_and!; [done|intros; by apply Hr1|intros _ id e' He; by apply (Hr1 id e')|].
      intros found [= <-] e'. rewrite Ei. intros [= <-]. by rewrite Ep. }
  pose proof (in_force_Some _ _ _ _ Ei) as [[id Hid] _]. pose proof Hc1 as (Hrk & Hh1 & Hk1). cbn in Hrk, Hh1.
  destruct (Hk1 id e) as [<- Hkn]; [by rewrite Hrk|].
  unfold eff_bind, on_kept, eff_ret. destruct (bs_p12 (b_id e) (kept_in c1)) as [b2 z] eqn:E2.
  apply (kd_p12 _ _ _ _ _ _ _ _ bp_documents _ (stored k1) (sealed k1)) in E2 as [Hh2 Hz]; [|done..].
  intros H. assert (Hc2 : standing (mkCertificates (signer c1) b2 (on_record c1)) k1) by done.
  assert (c' = mkCertificates (signer c1) b2 (on_record c1)) as -> by (destruct z; congruence). cbn.
  split_and!; [split; [done|eauto]|intros; by apply Hr1|intros _ id' e' He'; by apply (Hr1 id' e')|].
  intros found ->. destruct z as [file|err]; [|done]. injection H as <-. specialize (Hz file eq_refl). subst file.
  destruct (sealed k1 !! b_id e) as [file|] eqn:Es; cbn; [by eauto 8|].
  intros e'. rewrite Ei. intros [= <-] _. eauto.
Qed.

(** Forgetting what a serial names, in a record that only lost entries since the call began. *)
Lemma forget_acts (gone : CertId → Prop) made sn (c c' : Certificates B) k x :
  standing c k → (∀ e, in_force (signer c) (on_record c) sn = Some e → gone (b_id e)) → forget_p12 sn c = (c', x) →
  acts gone made c c' k.
Proof. intros Hc Hg H. eapply forget_changes in H as [Hs Hch]; [by split|done..]. Qed.

Lemma downloading_acts now sn is_revoked told (c c' : Certificates B) k x :
  standing c k → download_route now sn is_revoked told c = (c', x) →
  acts (gone_by (Downloading now sn is_revoked told) k) None c c' k.
Proof.
  intros Hc. unfold download_route. destruct (p12 now sn c) as [c1 y] eqn:E1.
  eapply (p12_acts (gone_by (Downloading now sn is_revoked told) k) None) in E1 as (Ha & Hsub & _ & Hfound);
    [|exact Hc|cbn; eauto].
  destruct y as [[[e file]|]|err]; [|by intros [= <- <-]..].
  destruct (Hfound _ eq_refl) as (Hin & _ & _). destruct (is_revoked (b_id e)) eqn:Er; [|destruct told; by intros [= <- <-]].
  pose proof (in_force_Some _ _ _ _ Hin) as ([id Hid] & Hsn & _).
  destruct (forget_p12 (b_serial e) c1) as [c2 z] eqn:E2. intros [= <- <-].
  apply (acts_trans _ _ _ c1); [done|]. intros k1 Hc1. eapply forget_acts; [done| |exact E2].
  intros e'. rewrite Hsn, Hin. intros [= <-]. cbn. exists e. split; [|by auto].
  destruct Hc as (Hr & _ & _). cbn in Hr. rewrite Hr. apply Hsub. destruct Hc1 as (Hr1 & _ & Hk1). cbn in Hr1.
  rewrite <- Hr1 in Hid. destruct (Hk1 id e Hid) as [-> _]. by rewrite <- Hr1.
Qed.

Lemma deleting_acts now sn is_revoked told (c c' : Certificates B) k x :
  standing c k →
  delete_route now sn (λ e w, (w, is_revoked (b_id e))) (λ _ w, (w, told)) c tt = (c', tt, x) →
  acts (gone_by (Deleting now sn is_revoked told) k) None c c' k.
Proof.
  intros Hc. unfold delete_route, delete_entry. destruct (prune now c) as [c1 y] eqn:E1.
  eapply prune_changes in E1 as (Hs1 & (k1 & Hc1 & Hch1) & Hr1); [|exact Hc|]; swap 1 2.
  { intros id e He Hend. instantiate (1 := gone_by (Deleting now sn is_revoked told) k). cbn. eauto. }
  assert (acts (gone_by (Deleting now sn is_revoked told) k) None c c1 k) as Ha by (split; eauto).
  destruct y as [[]|err]; [|by intros [= <- <-]].
  destruct (in_force _ _ sn) as [e|] eqn:Ei; [|by intros [= <- <-]].
  destruct (is_revoked (b_id e)) eqn:Er; cbn; [|by intros [= <- <-]]. destruct told; cbn; [|by intros [= <- <-]].
  pose proof (in_force_Some _ _ _ _ Ei) as ([id Hid] & Hsn & _). pose proof Hc1 as (Hrk & _ & Hk1). cbn in Hrk.
  rewrite <- Hrk in Hid. destruct (Hk1 id e Hid) as [<- Hkn]. rewrite Hrk in Hid.
  destruct ((_ <-! on_kept (bs_remove (b_id e)) ;; set_record (delete (b_id e))) c1) as [c2 z] eqn:E2.
  eapply (drop_changes (gone_by (Deleting now sn is_revoked true) k) None) in E2 as (Hs2 & (k2 & Hc2 & Hch2) & _);
    [|exact Hc1|done|]; swap 1 2.
  { cbn. exists e. split; [|by auto]. destruct Hc as (Hr & _ & _). cbn in Hr. rewrite Hr. by apply Hr1. }
  intros H. assert (c' = c2) as -> by (destruct z; congruence).
  split; [congruence|]. exists k2. split; [done|]. by eapply rtc_trans.
Qed.

(** What is left of writing an entry and its file is made of changes. *)
Lemma put_pair_changes (gone : CertId → Prop) e file r m m' f f' (whole : bool) :
  gone (b_id e) → put_pair e file m m' f f' whole → changes gone (Some (e, file)) (mkKept r m f) (mkKept r m' f').
Proof.
  intros Hg Hp.
  assert (∃ m1, changes gone (Some (e, file)) (mkKept r m f) (mkKept r m1 f) ∧ m1 = m') as (m1 & Hm & ->).
  { destruct Hp as [[-> _]|(_ & [->| ->] & _)]; eexists; (split; [|done]);
      solve [apply rtc_refl|apply rtc_once; by eapply adds_entry]. }
  eapply rtc_trans; [exact Hm|]. destruct Hp as [[_ ->]|(_ & _ & [->|[->| ->]])];
    solve [apply rtc_refl|apply rtc_once; by eapply adds_file|apply rtc_once; by eapply drops_file].
Qed.

(** What an issuance leaves, answered or not: when it answers the certificate, the entry and the file
    are stored and the entry is in memory. *)
Lemma issue_record_acts made now prune_now (c c' : Certificates B) k x :
  standing c k → known (pair_id made) → issue_record made now prune_now c = (c', x) →
  let call := Recording made now prune_now true in
  signer c' = signer c ∧
  ∃ k', standing c' k' ∧ changes (gone_by call k) (made_by call (signer c)) k k' ∧
    (∀ id e, in_memory k' !! id = Some e → id = pair_id made ∨ in_memory k !! id = Some e) ∧
    ∀ out, x = Ok out → out = made ∧ ∃ ca, signer c = Some ca ∧
      in_memory k' !! pair_id made = Some (entry_of ca now made) ∧
      stored k' !! pair_id made = Some (entry_of ca now made) ∧
      sealed k' !! pair_id made = Some (pkcs12 made).
Proof.
  intros Hc Hkn. unfold issue_record. cbn zeta. destruct (signer c) as [ca|] eqn:Es.
  2:{ intros [= <- <-]. split; [done|]. exists k. split_and!; [done|apply rtc_refl|by right|done]. }
  destruct (prune prune_now c) as [c1 y] eqn:E1.
  eapply (prune_changes (gone_by (Recording made now prune_now true) k)
    (made_by (Recording made now prune_now true) (Some ca))) in E1 as (Hs1 & (k1 & Hc1 & Hch1) & Hr1);
    [|exact Hc|cbn; eauto 6].
  assert (Hsub : ∀ id e, in_memory k1 !! id = Some e → id = pair_id made ∨ in_memory k !! id = Some e).
  { destruct Hc as (Hr & _), Hc1 as (Hrk & _). cbn in Hr, Hrk. rewrite Hr, Hrk. intros id e He. right. by apply Hr1. }
  rewrite Es in Hs1. destruct y as [[]|err].
  2:{ intros [= <- <-]. split; [done|]. exists k1. done. }
  destruct (MAX_VALID <=? _)%nat; [intros [= <- <-]; split; [done|]; by exists k1|].
  unfold on_kept. destruct (bs_put_within _ _ _ _ (kept_in c1)) as [b2 z] eqn:E2.
  pose proof Hc1 as (Hrk & Hh1 & Hk1). cbn in Hrk, Hh1.
  apply (bp_put_within _ (stored k1) (sealed k1)) in E2 as (m2 & f2 & Hh2 & Hz); [|done..].
  set (e := entry_of ca now made) in *.
  set (gone := gone_by (Recording made now prune_now true) k) in *.
  assert (Hge : gone (b_id e)) by (by left). destruct k1 as [r1 m1 f1]. cbn in Hrk, Hh1, Hk1, Hz, Hh2, Hch1, Hsub.
  destruct z as [[]|err]; [destruct Hz as [-> ->]|destruct Hz as [-> ->]|]; intros [= <- <-]; (split; [done|]).
  - assert (changes gone (Some (e, pkcs12 made)) (mkKept r1 m1 f1) (mkKept r1 (<[b_id e := e]> m1) (<[b_id e := pkcs12 made]> f1)))
      as Hch2 by (apply (put_pair_changes _ _ _ _ _ _ _ _ true); [done|by left]).
    exists (mkKept (<[b_id e := e]> r1) (<[b_id e := e]> m1) (<[b_id e := pkcs12 made]> f1)). split_and!.
    + split; [cbn; by rewrite Hrk|]. split; [done|]. cbn.
      intros id' e' [[<- <-]|[_ He']]%lookup_insert_Some; [done|by apply Hk1].
    + eapply rtc_trans; [exact Hch1|]. eapply rtc_r; [exact Hch2|]. by eapply adds_record.
    + cbn. intros id e' [[<- _]|[_ He']]%lookup_insert_Some; [by left|by apply Hsub].
    + intros out [= <-]. split; [done|]. exists ca. cbn. change (pair_id made) with (b_id e). by rewrite !lookup_insert_eq.
  - exists (mkKept r1 m1 f1). done.
  - exists (mkKept r1 m2 f2). split_and!; [done| |done..]. eapply rtc_trans; [exact Hch1|]. by eapply put_pair_changes.
Qed.

Lemma recording_acts made now prune_now told (c c' : Certificates B) k x :
  standing c k → known (pair_id made) → served (Recording made now prune_now told) c = (c', x) →
  acts (gone_by (Recording made now prune_now told) k) (made_by (Recording made now prune_now told) (signer c)) c c' k.
Proof.
  intros Hc Hkn. cbn [served]. destruct (issue_record made now prune_now c) as [c1 y] eqn:E1.
  eapply issue_record_acts in E1 as (Hs1 & k1 & Hc1 & Hch1 & Hsub & Hy); [|done..].
  assert (acts (gone_by (Recording made now prune_now told) k)
    (made_by (Recording made now prune_now told) (signer c)) c c1 k) as Ha.
  { split; [done|]. exists k1. split; [done|]. eapply changes_mono; [|done|exact Hch1]. cbn. naive_solver. }
  unfold issue_answered. destruct y as [out|[]]; try (by intros [= <- <-]). destruct (Hy out eq_refl) as [-> _].
  destruct told; [by intros [= <- <-]|]. destruct (forget_p12 _ c1) as [c2 z] eqn:E2. intros [= <- <-].
  apply (acts_trans _ _ _ c1); [done|]. intros k2 Hc2. eapply forget_acts; [done| |exact E2].
  intros e Hin. pose proof (in_force_Some _ _ _ _ Hin) as ([id Hid] & Hsn & _).
  destruct Hc1 as (Hr1 & _ & Hk1). cbn in Hr1. rewrite <- Hr1 in Hid. destruct (Hk1 id e Hid) as [<- _].
  cbn. destruct (Hsub _ _ Hid) as [?|?]; eauto 6.
Qed.

(** Every call of a Server that is up. *)
Lemma served_acts call (c c' : Certificates B) k x :
  match call with Start _ _ | Stop => False | _ => True end →
  standing c k → makes_known call → served call c = (c', x) →
  acts (gone_by call k) (made_by call (signer c)) c c' k.
Proof.
  intros Hup Hc Hkn H. destruct call; [done|done|..].
  - injection H as <- <-. by apply order_acts.
  - by eapply recording_acts.
  - injection H as <- <-. by apply listing_acts.
  - cbn [served] in H. destruct (download_route _ _ _ _ c) as [c1 y] eqn:E. injection H as <- <-. by eapply downloading_acts.
  - cbn [served] in H. destruct (delete_route _ _ _ _ c tt) as [[c1 []] y] eqn:E. injection H as <- <-.
    by eapply deleting_acts.
  - injection H as <- <-. by apply forgetting_acts.
Qed.

(** What a start finds: the store, and an empty record. *)
Definition entered (call : Call) (k : Kept) : Kept :=
  match call with Start _ _ => mkKept ∅ (stored k) (sealed k) | _ => k end.

(** Every call changes what it may and nothing else. *)
Lemma step_changes call (s s' : Server B) k x :
  stands s k → makes_known call → step call s = (s', x) →
  ∃ k', stands s' k' ∧ changes (gone_by call k) (made_by call (signer_of s)) (entered call k) k'.
Proof.
  intros Hs Hkn H. destruct (match call with Start _ _ | Stop => true | _ => false end) eqn:Ecall.
  - destruct call as [ca now| | | | | | |]; try done; cbn [step] in H.
    + destruct (open ca now (store_of s)) as [b y] eqn:E. destruct Hs as (_ & Hh & _).
      eapply (open_changes (gone_by (Start ca now) k) None) in E as (k1 & k' & Hch1 & Hch2 & Hy); [|exact Hh|cbn; eauto].
      exists k'. destruct y as [c|err]; injection H as <- <-; (split; [by destruct Hy || done|]); by eapply rtc_trans.
    + injection H as <- <-. exists k. split; [|apply rtc_refl]. by destruct s, Hs as (_ & ? & ?).
  - assert (match call with Start _ _ | Stop => False | _ => True end) as Hup by (by destruct call).
    destruct s as [c|b].
    + assert (step call (Up c) = let (c, answer) := served call c in (Up c, answer)) as Hstep by (by destruct call).
      rewrite Hstep in H. destruct (served call c) as [c1 y] eqn:E. injection H as <- <-.
      eapply served_acts in E as [_ (k' & Hc' & Hch)]; [|done..]. exists k'. split; [done|]. by destruct call.
    + assert (s' = Down b) as -> by (destruct call; simplify_eq/=; done).
      exists k. split; [done|]. destruct call; try done; apply rtc_refl.
Qed.
End Runs.
