(* ===== verification/BootstrapSafe.v ===== *)
(** * What the bootstrap record promises

    Over any store that keeps [BootstrapPort], and through starts, stops and failures of any call: a
    PKCS#12 file that was forgotten is handed out to nobody again; a file that is handed out is the one
    sealed for its entry, which has not ended; and a certificate that was issued has its file handed out
    until it ends, is forgotten or deleted, or its CA is replaced. Also what is signed at all,
    [orders_keep_their_bounds], and the subject a host certificate carries over,
    [carried_subjects_read_back]. *)

From S2P Require Import Prelude RustStr Fs Placement Revocation Bootstrap BootstrapPort BootstrapRuns.

Open Scope string_scope.
Open Scope list_scope.

(** ** Forgotten and handed files *)

Section Safe.
Context {B : Type} `{!BootstrapStore B} (known : CertId → Prop) (holds : B → EntryMap → FileMap → Prop).
Context `{!BootstrapPort B known holds}.
Notation stands := (stands known holds).

(** The certificate a call makes. *)
Definition makes (call : Call) : option CertId :=
  match call with Recording made _ _ _ => Some (pair_id made) | _ => None end.

Lemma made_by_makes call ca e x : made_by call ca = Some (e, x) → makes call = Some (b_id e).
Proof. destruct call, ca; intros [= <- <-]; done. Qed.

(** ** Forgotten files *)

(** Neither the record nor the store says that the file of [id] is there. *)
Definition blank (id : CertId) (k : Kept) : Prop :=
  (∀ e, in_memory k !! id = Some e → b_p12 e = false) ∧ (∀ e, stored k !! id = Some e → b_p12 e = false).

Lemma change_blank gone made id k k' :
  (∀ e x, made = Some (e, x) → b_id e ≠ id) → change gone made k k' → blank id k → blank id k'.
Proof.
  intros Hmade Hch [Hr Hm].
  destruct Hch; unfold blank; cbn in *; split; intros e' He'; try (by apply Hr); try (by apply Hm).
  - apply lookup_delete_Some in He' as [_ He']. by apply Hm.
  - apply lookup_delete_Some in He' as [_ He']. by apply Hr.
  - apply lookup_insert_Some in He' as [[_ <-]|[_ He']]; [done|by apply Hm].
  - apply lookup_insert_Some in He' as [[_ <-]|[_ He']]; [done|by apply Hr].
  - apply lookup_insert_Some in He' as [[Hid <-]|[_ He']]; [exfalso; by eapply Hmade|by apply Hm].
  - apply lookup_insert_Some in He' as [[Hid <-]|[_ He']]; [exfalso; by eapply Hmade|by apply Hr].
  - apply lookup_insert_Some in He' as [[Hid <-]|[_ He']]; [subst; by apply Hm|by apply Hr].
Qed.

Lemma step_blank call (s s' : Server B) k x id :
  stands s k → makes_known known call → makes call ≠ Some id → blank id k → step call s = (s', x) →
  ∃ k', stands s' k' ∧ blank id k'.
Proof.
  intros Hs Hkn Hne Hb H. eapply step_changes in H as (k' & Hs' & Hch); [|done..]. exists k'. split; [done|].
  eapply changes_keep; [|exact Hch|].
  - intros k1 k2. apply change_blank. intros e y Hm Heq. apply made_by_makes in Hm. congruence.
  - destruct call; try done. split; [cbn; intros ?; by rewrite lookup_empty|by apply Hb].
Qed.

Lemma run_blank calls id : ∀ (s : Server B) k,
  stands s k → Forall (makes_known known) calls → Forall (λ call, makes call ≠ Some id) calls → blank id k →
  ∃ k', stands (run calls s) k' ∧ blank id k'.
Proof.
  induction calls as [|call calls IH]; intros s k Hs Hkn Hne Hb; [by exists k|].
  inversion Hkn; inversion Hne; subst. cbn. destruct (step call s) as [s1 x] eqn:E.
  eapply step_blank in E as (k1 & Hs1 & Hb1); [|done..]. by eapply IH.
Qed.

Lemma run_stands calls : ∀ (s : Server B) k,
  stands s k → Forall (makes_known known) calls → ∃ k', stands (run calls s) k'.
Proof.
  induction calls as [|call calls IH]; intros s k Hs Hkn; [by exists k|].
  inversion Hkn; subst. cbn. destruct (step call s) as [s1 x] eqn:E.
  eapply step_changes in E as (k1 & Hs1 & _); [|done..]. by eapply IH.
Qed.

(** A Server that has only its store. *)
Lemma down_stands (b : B) m f : holds b m f → stands (Down b) (mkKept ∅ m f).
Proof. intros Hh. split; [done|]. split; [done|]. cbn. intros ??. by rewrite lookup_empty. Qed.

(** Forgetting blanks the entry in the store before the record. *)
Lemma forget_blanks sn (c c' : Certificates B) k e x :
  stands (Up c) k → in_force (signer c) (on_record c) sn = Some e → b_p12 e = true → forget_p12 sn c = (c', x) →
  x = Ok tt ∨ on_record c' !! b_id e = Some (without_p12 e) →
  ∃ k', stands (Up c') k' ∧ blank (b_id e) k'.
Proof.
  intros (Hr & Hh & Hk) Hin Hp. unfold forget_p12. rewrite Hin, Hp.
  pose proof (in_force_Some _ _ _ _ Hin) as [[id Hid] _]. cbn in Hr, Hh.
  destruct (Hk id e) as [<- Hkn]; [by rewrite Hr|].
  unfold eff_bind, on_kept, set_record. destruct (bs_put (without_p12 e) (kept_in c)) as [b1 y] eqn:E1.
  apply (kd_put _ _ _ _ _ _ _ _ bp_documents _ (stored k) (sealed k)) in E1 as (m1 & Hh1 & Hm1); [|done..].
  destruct y as [[]|err].
  2:{ intros [= <- <-] [?|Hbl]; [done|]. cbn in Hbl. rewrite Hid in Hbl. injection Hbl as Hbl. rewrite Hbl in Hp. done. }
  destruct Hm1 as [->|[? _]]; [|done]. cbn [kept_in signer on_record]. destruct (bs_remove_p12 (b_id e) b1) as [b2 z] eqn:E2.
  eapply (kd_remove_p12 _ _ _ _ _ _ _ _ bp_documents) in E2 as (f2 & Hh2 & _); [|done..].
  intros [= <- <-] _. exists (mkKept (<[b_id e := without_p12 e]> (on_record c)) (<[b_id e := without_p12 e]> (stored k)) f2).
  split; [split; [done|]; split; [done|]|].
  - cbn. intros id' e' [[<- <-]|[_ He']]%lookup_insert_Some; [done|]. rewrite <- Hr in He'. by apply Hk.
  - split; cbn; rewrite lookup_insert_eq; by intros e' [= <-].
Qed.

(** What a download hands over. *)
Lemma handed_inv now sn is_revoked told (s s' : Server B) k e file :
  stands s k → step (Downloading now sn is_revoked told) s = (s', Some (Handed200 e file)) →
  told = true ∧ is_revoked (b_id e) = false ∧ b_p12 e = true ∧ b_serial e = sn ∧ ended now e = false ∧
  of_current (signer_of s) e = true ∧ in_memory k !! b_id e = Some e ∧
  ∃ k', changes (gone_by (Downloading now sn is_revoked told) k) None k k' ∧ sealed k' !! b_id e = Some file.
Proof.
  intros Hs. destruct s as [c|b]; [|done]. cbn [step served]. unfold download_route.
  destruct (p12 now sn c) as [c1 y] eqn:E1.
  eapply (p12_acts known holds (gone_by (Downloading now sn is_revoked told) k) None) in E1 as (Ha & Hsub & Hend & Hfound);
    [|exact Hs|cbn; eauto].
  destruct y as [[[e1 file1]|]|err]; [|done..]. destruct (Hfound _ eq_refl) as (Hin & Hp & k' & Hc' & Hch & Hf).
  destruct (is_revoked (b_id e1)) eqn:Er; [by destruct (forget_p12 _ c1)|]. destruct told; [|done]. intros [= <- <- <-].
  pose proof (in_force_Some _ _ _ _ Hin) as ([id Hid] & Hsn & Hcur). pose proof (Hend eq_refl id e1 Hid) as He.
  destruct Ha as [Hsig _]. rewrite Hsig in Hcur. destruct Hs as (Hr & _ & Hk). cbn in Hr. apply Hsub in Hid.
  rewrite <- Hr in Hid. destruct (Hk id e1 Hid) as [<- _]. split_and!; eauto.
Qed.

(** C12: once [forget_p12] has answered, or has blanked the record though the removal of the file failed,
    no later download hands out a file of that certificate: not in any run of calls, starts and stops,
    whatever the store makes of them, that makes no certificate of the same identity. *)
Theorem forgotten_files_are_not_handed_out (b : B) m f before (c c' : Certificates B) sn e x after
    now sn' is_revoked told (s' : Server B) e' file :
  holds b m f → Forall (makes_known known) (before ++ after) →
  run before (Down b) = Up c → in_force (signer c) (on_record c) sn = Some e → b_p12 e = true →
  forget_p12 sn c = (c', x) → x = Ok tt ∨ on_record c' !! b_id e = Some (without_p12 e) →
  Forall (λ call, makes call ≠ Some (b_id e)) after →
  step (Downloading now sn' is_revoked told) (run after (Up c')) = (s', Some (Handed200 e' file)) →
  b_id e' ≠ b_id e.
Proof.
  intros Hh [Hkn Hkn']%Forall_app Hrun Hin Hp Hf Hx Hne Hd Heq.
  destruct (run_stands before (Down b) _ (down_stands b m f Hh) Hkn) as [k Hk]. rewrite Hrun in Hk.
  destruct (forget_blanks sn c c' k e x Hk Hin Hp Hf Hx) as (k1 & Hk1 & Hb1).
  destruct (run_blank after (b_id e) (Up c') k1 Hk1 Hkn' Hne Hb1) as (k2 & Hk2 & Hb2).
  eapply handed_inv in Hd as (_ & _ & Hp' & _ & _ & _ & He' & _); [|done].
  rewrite Heq in He'. apply (proj1 Hb2) in He'. congruence.
Qed.

(** ** Handed files *)

(** [e] is the entry of a certificate that a call of [calls] made, with or without its file. *)
Definition entry_made (calls : list Call) (e : BootstrapEntry) : Prop :=
  ∃ made now prune_now told ca, Recording made now prune_now told ∈ calls ∧
    (e = entry_of ca now made ∨ e = without_p12 (entry_of ca now made)).

Definition file_made (calls : list Call) (id : CertId) (file : string) : Prop :=
  ∃ made now prune_now told, Recording made now prune_now told ∈ calls ∧ pair_id made = id ∧ file = pkcs12 made.

Definition all_made (calls : list Call) (k : Kept) : Prop :=
  (∀ id e, in_memory k !! id = Some e → entry_made calls e) ∧
  (∀ id e, stored k !! id = Some e → entry_made calls e) ∧
  (∀ id file, sealed k !! id = Some file → file_made calls id file).

Lemma without_p12_made calls e : entry_made calls e → entry_made calls (without_p12 e).
Proof. intros (made & t & p & told & ca & Hin & [->| ->]); do 5 eexists; (split; [exact Hin|]); by right. Qed.

Lemma change_made calls call ca gone k k' :
  call ∈ calls → change gone (made_by call ca) k k' → all_made calls k → all_made calls k'.
Proof.
  intros Hcall Hch (Hr & Hm & Hf).
  assert (Hnew : ∀ e x, made_by call ca = Some (e, x) → entry_made calls e ∧ file_made calls (b_id e) x).
  { intros e x. destruct call, ca; try done. intros [= <- <-].
    split; [do 5 eexists; split; [exact Hcall|by left]|do 4 eexists; split_and!; done]. }
  destruct Hch; (split_and!; cbn in *; [intros id' e' He'|intros id' e' He'|intros id' x' Hx']);
    try (by eapply Hr); try (by eapply Hm); try (by eapply Hf).
  all: try (apply lookup_delete_Some in He' as [_ He']); try (apply lookup_delete_Some in Hx' as [_ Hx']).
  all: try (by eapply Hr); try (by eapply Hm); try (by eapply Hf).
  all: try (apply lookup_insert_Some in He' as [[_ <-]|[_ He']]); try (apply lookup_insert_Some in Hx' as [[<- <-]|[_ Hx']]).
  all: try (by eapply Hr); try (by eapply Hm); try (by eapply Hf).
  all: first [by eapply without_p12_made, Hr|by eapply Hnew].
Qed.

Lemma run_made all calls : ∀ (s : Server B) k,
  stands s k → Forall (makes_known known) calls → (∀ call, call ∈ calls → call ∈ all) → all_made all k →
  ∃ k', stands (run calls s) k' ∧ all_made all k'.
Proof.
  induction calls as [|call calls IH]; intros s k Hs Hkn Hall Hm; [by exists k|].
  inversion Hkn; subst. cbn. destruct (step call s) as [s1 x] eqn:E.
  eapply step_changes in E as (k1 & Hs1 & Hch); [|done..].
  eapply IH; [done|done|intros; apply Hall; by right|]. eapply changes_keep; [|exact Hch|].
  - intros k2 k3. apply change_made. apply Hall. by left.
  - destruct call; try done. split; [cbn; intros ??; by rewrite lookup_empty|by apply Hm].
Qed.

(** No two issuances of a run make the same certificate. *)
Definition made_once (calls : list Call) : Prop := NoDup (omap makes calls).

Lemma made_once_eq calls x y :
  made_once calls → x ∈ calls → y ∈ calls → makes x = makes y → is_Some (makes x) → x = y.
Proof.
  unfold made_once. induction calls as [|call calls IH]; [by intros _ ?%not_elem_of_nil|]. cbn.
  intros Hnd [->|Hx]%elem_of_cons [->|Hy]%elem_of_cons Heq [id Hid]; try done.
  - rewrite Hid in Hnd. apply NoDup_cons in Hnd as [Hn _]. destruct Hn. apply list_elem_of_omap. exists y. by rewrite <- Heq.
  - rewrite <- Heq, Hid in Hnd. apply NoDup_cons in Hnd as [Hn _]. destruct Hn. apply list_elem_of_omap. by exists x.
  - apply IH; try done. destruct (makes call); [by inversion Hnd|done].
Qed.

(** C20: what a download hands out is the file the signer sealed for the certificate its serial names: it
    was made by an issuance of the run, belongs to the entry of that issuance, has not ended, is of the
    bootstrap CA in force and not revoked, and the audit record has the download. *)
Theorem handed_files_are_the_issued_ones (b : B) calls now sn is_revoked told (s' : Server B) e file :
  holds b ∅ ∅ → Forall (makes_known known) calls → made_once calls →
  step (Downloading now sn is_revoked told) (run calls (Down b)) = (s', Some (Handed200 e file)) →
  b_serial e = sn ∧ (now < b_not_after e)%N ∧ is_revoked (b_id e) = false ∧ told = true ∧
  of_current (signer_of (run calls (Down b))) e = true ∧
  ∃ made t prune_now recorded ca, Recording made t prune_now recorded ∈ calls ∧
    e = entry_of ca t made ∧ file = pkcs12 made.
Proof.
  intros Hh Hkn Honce Hd.
  destruct (run_made calls calls (Down b) _ (down_stands b ∅ ∅ Hh) Hkn (λ _ H, H)) as (k & Hk & Hm).
  { split_and!; cbn; intros ??; by rewrite lookup_empty. }
  eapply handed_inv in Hd as (-> & Hrev & Hp & Hsn & Hend & Hcur & He & k' & Hch & Hfile); [|done].
  split_and!; try done; [unfold ended in Hend; apply N.leb_gt in Hend; lia|].
  destruct (proj1 Hm _ _ He) as (made & t & p & rec & ca & Hin & [->|Hbl]); [|by rewrite Hbl in Hp].
  assert (file_made calls (pair_id made) file) as (made' & t' & p' & rec' & Hin' & Hid & Hx).
  { assert (∀ id x, sealed k' !! id = Some x → file_made calls id x) as H; [|by apply H].
    revert Hch. generalize (gone_by (Downloading now sn is_revoked true) k) as gone. intros gone Hch.
    eapply (changes_keep (λ k, ∀ id x, sealed k !! id = Some x → file_made calls id x)); [|exact Hch|apply Hm].
    intros k1 k2 [] H1; cbn in *; try done. intros id' x' [_ Hx']%lookup_delete_Some. by apply H1. }
  assert (Recording made' t' p' rec' = Recording made t p rec) as [= -> -> -> ->].
  { apply (made_once_eq calls); try done. cbn. by rewrite Hid. }
  do 5 eexists. split_and!; [exact Hin|done..].
Qed.
End Safe.

(** ** Issued certificates keep their files *)

(** A call that leaves the certificate of [e] alone: it runs before the certificate ends, makes no other
    of its identity or serial, and does not delete or forget what its serial names. *)
Definition spares (e : BootstrapEntry) (call : Call) : Prop :=
  match call with
  | Start s now => ended now e = false ∧ of_current s e = true
  | Stop => True
  | Ordering _ now _ | Listing now _ => ended now e = false
  | Recording made _ now _ => ended now e = false ∧ pair_id made ≠ b_id e ∧ pair_serial made ≠ b_serial e
  | Downloading now sn is_revoked _ => ended now e = false ∧ (sn = b_serial e → is_revoked (b_id e) = false)
  | Deleting now sn is_revoked told =>
      ended now e = false ∧ (sn = b_serial e → is_revoked (b_id e) = true → told = false)
  | Forgetting sn => sn ≠ b_serial e
  end.

(** A call that makes no certificate of [e]'s identity or serial. *)
Definition makes_other (e : BootstrapEntry) (call : Call) : Prop :=
  match call with Recording made _ _ _ => pair_id made ≠ b_id e ∧ pair_serial made ≠ b_serial e | _ => True end.

(** ** The invariant *)

(** No other certificate has the serial. *)
Definition alone (e : BootstrapEntry) (k : Kept) : Prop :=
  (∀ id e', in_memory k !! id = Some e' → b_serial e' = b_serial e → id = b_id e) ∧
  (∀ id e', stored k !! id = Some e' → b_serial e' = b_serial e → id = b_id e).

Definition in_store (e : BootstrapEntry) (file : string) (k : Kept) : Prop :=
  stored k !! b_id e = Some e ∧ sealed k !! b_id e = Some file.

Definition in_record (e : BootstrapEntry) (k : Kept) : Prop := in_memory k !! b_id e = Some e.

Lemma change_alone gone made e k k' :
  (∀ e' x, made = Some (e', x) → b_serial e' = b_serial e → b_id e' = b_id e) → change gone made k k' → alone e k → alone e k'.
Proof.
  intros Hmade Hch [Hr Hm].
  destruct Hch; (split; intros id' e' He' Hs; cbn in *); try (by eapply Hr); try (by eapply Hm).
  all: try (apply lookup_delete_Some in He' as [_ He']); try (by eapply Hr); try (by eapply Hm).
  all: apply lookup_insert_Some in He' as [[<- <-]|[_ He']]; try (by eapply Hr); try (by eapply Hm).
  all: by eapply Hmade.
Qed.

Lemma change_in_store (gone : CertId → Prop) made e file k k' :
  (∀ e' x, made = Some (e', x) → b_id e' ≠ b_id e) → ¬ gone (b_id e) → change gone made k k' →
  in_store e file k → in_store e file k'.
Proof.
  intros Hmade Hg Hch [Hm Hf].
  destruct Hch; (split; cbn in *; try done); try (rewrite lookup_delete_ne; [done|intros ->; done]);
    try (rewrite lookup_insert_ne; [done|intros Heq; first [by subst|by eapply Hmade]]).
Qed.

Lemma change_in_record (gone : CertId → Prop) made e file k k' :
  (∀ e' x, made = Some (e', x) → b_id e' ≠ b_id e) → ¬ gone (b_id e) → change gone made k k' →
  in_store e file k → in_record e k → in_record e k'.
Proof.
  unfold in_record. intros Hmade Hg Hch [Hm _] Hr.
  destruct Hch as [| |id| |id| | |e1 x1|e1]; cbn in *; try done.
  - rewrite lookup_delete_ne; [done|intros ->; done].
  - rewrite lookup_insert_ne; [done|intros ->; done].
  - rewrite lookup_insert_ne; [done|]. by eapply Hmade.
  - destruct (decide (b_id e1 = b_id e)) as [Heq|]; [|by rewrite lookup_insert_ne].
    rewrite Heq, lookup_insert_eq. rewrite Heq in *. congruence.
Qed.

(** What the store holds, and, while the record keeps the entry too, the record. *)
Lemma changes_in_store (gone : CertId → Prop) made e file k k' :
  (∀ e' x, made = Some (e', x) → b_id e' ≠ b_id e ∧ b_serial e' ≠ b_serial e) → ¬ gone (b_id e) →
  changes gone made k k' → alone e k → in_store e file k →
  alone e k' ∧ in_store e file k' ∧ (in_record e k → in_record e k').
Proof.
  intros Hmade Hg. induction 1 as [k|k k1 k2 Hk _ IH]; [done|]. intros Ha Hs.
  assert (alone e k1) by (eapply change_alone; [|done..]; naive_solver).
  assert (in_store e file k1) by (eapply change_in_store; [|done..]; naive_solver).
  destruct IH as (? & ? & Hrec); [done..|]. split_and!; [done..|]. intros Hr. apply Hrec.
  eapply change_in_record; [|done..]; naive_solver.
Qed.

Lemma spares_not_gone e call k :
  spares e call → stored k !! b_id e = Some e →
  match call with Start _ _ => True | _ => in_record e k end → ¬ gone_by call k (b_id e).
Proof.
  unfold in_record. destruct call; cbn; intros Hsp Hst Hr; try naive_solver congruence.
Qed.

Lemma spares_made e call ca e' x :
  spares e call → made_by call ca = Some (e', x) → b_id e' ≠ b_id e ∧ b_serial e' ≠ b_serial e.
Proof. destruct call, ca; try done. cbn. intros (_ & ? & ?) [= <- <-]. done. Qed.

Section Kept.
Context {B : Type} `{!BootstrapStore B} (known : CertId → Prop) (holds : B → EntryMap → FileMap → Prop).
Context `{!BootstrapPort B known holds}.
Notation stands := (stands known holds).

(** The Server has the certificate: its entry and its file stored, no other of its serial, and, while it
    is up, the entry on its record. *)
Definition has (e : BootstrapEntry) (file : string) (s : Server B) (k : Kept) : Prop :=
  stands s k ∧ alone e k ∧ in_store e file k ∧
  match s with Up c => in_record e k ∧ of_current (signer c) e = true | Down _ => True end.

Lemma start_has e file ca now (s s' : Server B) k x :
  has e file s k → spares e (Start ca now) → step (Start ca now) s = (s', x) → ∃ k', has e file s' k'.
Proof.
  intros (Hs & Ha & Hst & _) Hsp H. cbn [step] in H. destruct (open ca now (store_of s)) as [b y] eqn:E.
  destruct Hs as (_ & Hh & _). set (gone := gone_by (Start ca now) k) in *.
  eapply (open_changes known holds gone None) in E as (k1 & k' & Hch1 & Hch2 & Hy); [|exact Hh|subst gone; cbn; eauto].
  assert (Hg : ¬ gone (b_id e)) by (apply spares_not_gone; [done|apply Hst|done]).
  eapply changes_in_store in Hch1 as (Ha1 & Hst1 & _); [|done|exact Hg| |exact Hst].
  2:{ split; [cbn; intros ??; by rewrite lookup_empty|apply Ha]. }
  eapply changes_in_store in Hch2 as (Ha2 & Hst2 & Hrec); [|done|exact Hg|done..].
  exists k'. destruct y as [c|err]; injection H as <- <-; [|exact (conj Hy (conj Ha2 (conj Hst2 I)))].
  destruct Hy as (Hc & Hsig & _ & Hread). split_and!; try done; [|by rewrite Hsig; apply Hsp].
  apply Hrec. apply Hread; [apply Hst|apply Hsp].
Qed.

Lemma step_has e file call (s s' : Server B) k x :
  has e file s k → makes_known known call → spares e call → step call s = (s', x) → ∃ k', has e file s' k'.
Proof.
  intros Hhas Hkn Hsp H. destruct (match call with Start _ _ | Stop => true | _ => false end) eqn:Ecall.
  - destruct call as [ca now| | | | | | |]; try done; [by eapply start_has|]. injection H as <- <-. exists k.
    destruct Hhas as (Hs & Ha & Hst & _). split_and!; try done. by destruct s, Hs as (_ & ? & ?).
  - assert (match call with Start _ _ | Stop => False | _ => True end) as Hup by (by destruct call).
    destruct s as [c|b]; [|by assert (s' = Down b) as -> by (destruct call; simplify_eq/=; done); exists k].
    assert (step call (Up c) = let (c, answer) := served call c in (Up c, answer)) as Hstep by (by destruct call).
    rewrite Hstep in H. destruct (served call c) as [c1 y] eqn:E. injection H as <- <-.
    destruct Hhas as (Hs & Ha & Hst & Hrec & Hcur).
    eapply (served_acts known holds) in E as [Hsig (k' & Hc' & Hch)]; [|done..].
    eapply changes_in_store in Hch as (Ha' & Hst' & Hrec'); [| | |done..].
    + exists k'. split_and!; try done; [by apply Hrec'|by rewrite Hsig].
    + intros e' x' Hm. by eapply spares_made.
    + apply spares_not_gone; [done|apply Hst|by destruct call].
Qed.

Lemma run_has e file calls : ∀ (s : Server B) k,
  has e file s k → Forall (makes_known known) calls → Forall (spares e) calls → ∃ k', has e file (run calls s) k'.
Proof.
  induction calls as [|call calls IH]; intros s k Hs Hkn Hsp; [by exists k|].
  inversion Hkn; inversion Hsp; subst. cbn. destruct (step call s) as [s1 x] eqn:E.
  eapply step_has in E as [k1 Hs1]; [|done..]. by eapply IH.
Qed.

(** A run that makes no other certificate of the serial has none. *)
Lemma run_alone e calls : ∀ (s : Server B) k,
  stands s k → alone e k → Forall (makes_known known) calls → Forall (makes_other e) calls →
  ∃ k', stands (run calls s) k' ∧ alone e k'.
Proof.
  induction calls as [|call calls IH]; intros s k Hs Ha Hkn Hsp; [by exists k|].
  inversion Hkn; inversion Hsp; subst. cbn. destruct (step call s) as [s1 x] eqn:E.
  eapply step_changes in E as (k1 & Hs1 & Hch); [|done..]. eapply IH; [done| |done..].
  eapply changes_keep; [|exact Hch|].
  - intros k2 k3. apply change_alone. intros e' x' Hm. destruct call, (signer_of s); simplify_eq/=. naive_solver.
  - destruct call; try done. split; [cbn; intros ??; by rewrite lookup_empty|apply Ha].
Qed.

(** The store fails at a call that a download of [e] makes: at the removal of an entry that has ended,
    once those before it in the record are removed, or at the reading of the file, once all are. *)
Inductive download_fails (now : N) (e : BootstrapEntry) (c : Certificates B) : Prop :=
| removal_fails first id rest c1 b1 err :
    b_id <$> List.filter (ended now) (record_values (on_record c)) = first ++ id :: rest →
    prune_each first c = (c1, Ok tt) → bs_remove id (kept_in c1) = (b1, Err err) → download_fails now e c
| reading_fails c1 b1 err :
    prune now c = (c1, Ok tt) → bs_p12 (b_id e) (kept_in c1) = (b1, Err err) → download_fails now e c.

Lemma prune_each_Err ids : ∀ (c c' : Certificates B) err,
  prune_each ids c = (c', Err err) →
  ∃ first id rest c1 b1 err', ids = first ++ id :: rest ∧ prune_each first c = (c1, Ok tt) ∧
    bs_remove id (kept_in c1) = (b1, Err err').
Proof.
  induction ids as [|id ids IH]; intros c c' err; [done|]. cbn [prune_each]. unfold eff_bind at 1, on_kept.
  destruct (bs_remove id (kept_in c)) as [b1 [[]|e1]] eqn:E1.
  - unfold eff_bind, set_record. cbn [signer kept_in on_record]. intros H.
    apply IH in H as (first & id' & rest & c1 & b2 & err' & -> & Hf & Hr).
    exists (id :: first), id', rest, c1, b2, err'. split_and!; [done| |done].
    cbn [prune_each]. unfold eff_bind at 1, on_kept. rewrite E1. unfold eff_bind, set_record. exact Hf.
  - intros _. exists [], id, ids, c, b1, e1. done.
Qed.

(** A download of [e] that answers a failure is one the store failed at. *)
Lemma p12_Err now e (c c' : Certificates B) err :
  (∀ c1, prune now c = (c1, Ok tt) → in_force (signer c1) (on_record c1) (b_serial e) = Some e) →
  p12 now (b_serial e) c = (c', Err err) → download_fails now e c.
Proof.
  intros Hin. unfold p12. unfold eff_bind at 1. destruct (prune now c) as [c1 [[]|e1]] eqn:E1.
  - rewrite (Hin c1 eq_refl). destruct (b_p12 e); [|done]. unfold eff_bind, on_kept, eff_ret.
    destruct (bs_p12 (b_id e) (kept_in c1)) as [b2 [file|e2]] eqn:E2; [done|]. intros _. by eapply reading_fails.
  - intros _. unfold prune in E1. apply prune_each_Err in E1 as (first & id & rest & c2 & b2 & err' & Hids & Hf & Hr).
    by eapply removal_fails.
Qed.

(** The record after what has ended is dropped names the certificate by its serial. *)
Lemma has_in_force e file now (c c1 : Certificates B) k x :
  has e file (Up c) k → ended now e = false → prune now c = (c1, x) →
  in_force (signer c1) (on_record c1) (b_serial e) = Some e.
Proof.
  intros (Hs & Ha & Hst & Hrec & Hcur) Hend E1.
  eapply (prune_changes known holds (λ id, ∃ e', in_memory k !! id = Some e' ∧ ended now e' = true) None) in E1
    as (Hsig & (k' & (Hr' & _ & _) & Hch) & _); [|exact Hs|eauto]. cbn in Hr'.
  eapply changes_in_store in Hch as (Hal & _ & Hr); [|done| |done..].
  - specialize (Hr Hrec). unfold in_record in Hr. rewrite Hr' in Hr.
    destruct (in_force (signer c1) (on_record c1) (b_serial e)) as [e'|] eqn:Ei.
    + apply in_force_Some in Ei as ([id Hid] & Hsn & _). rewrite <- Hr' in Hid. pose proof (proj1 Hal _ _ Hid Hsn) as ->.
      rewrite Hr' in Hid. congruence.
    + pose proof (in_force_None _ _ _ _ _ Ei Hr eq_refl) as Hc. rewrite Hsig in Hc. congruence.
  - unfold in_record in Hrec. intros (e' & He' & Hend'). congruence.
Qed.

(** What the Server has it hands out, or the store failed. *)
Lemma has_is_handed e file now is_revoked (c : Certificates B) (s' : Server B) k answer :
  has e file (Up c) k → b_p12 e = true → is_revoked (b_id e) = false → ended now e = false →
  step (Downloading now (b_serial e) is_revoked true) (Up c) = (s', answer) →
  answer = Some (Handed200 e file) ∨ answer = Some Failed500 ∧ download_fails now e c.
Proof.
  intros Hhas Hp Hrev Hend. pose proof Hhas as (Hs & Ha & Hst & Hrec). cbn [step served]. unfold download_route.
  destruct (p12 now (b_serial e) c) as [c1 y] eqn:E1. destruct y as [found|err].
  2:{ intros [= <- <-]. right. split; [done|]. eapply p12_Err, E1. intros c2 Hc2. by eapply has_in_force. }
  eapply (p12_acts known holds (λ id, ∃ e', in_memory k !! id = Some e' ∧ ended now e' = true) None) in E1
    as (Ha1 & Hsub & _ & Hfound); [|exact Hs|eauto].
  destruct Hrec as [Hrec Hcur].
  assert (Hkeep : ∀ k', changes (λ id, ∃ e', in_memory k !! id = Some e' ∧ ended now e' = true) None k k' →
    alone e k' ∧ in_store e file k' ∧ in_record e k').
  { intros k' Hch. eapply changes_in_store in Hch as (? & ? & Hr'); [by split_and!; try apply Hr'|done| |done..].
    unfold in_record in Hrec. intros (e' & He' & Hend'). congruence. }
  assert (Hin : in_force (signer c1) (on_record c1) (b_serial e) = Some e).
  { destruct Ha1 as [Hsig (k' & (Hr' & _ & _) & Hch)]. destruct (Hkeep k' Hch) as (Hal & _ & Hr). cbn in Hr'.
    unfold in_record in Hr. rewrite Hr' in Hr.
    destruct (in_force (signer c1) (on_record c1) (b_serial e)) as [e'|] eqn:Ei.
    - apply in_force_Some in Ei as ([id Hid] & Hsn & _). rewrite <- Hr' in Hid. pose proof (proj1 Hal _ _ Hid Hsn) as ->.
      rewrite Hr' in Hid. congruence.
    - pose proof (in_force_None _ _ _ _ _ Ei Hr eq_refl) as Hc. rewrite Hsig in Hc. congruence. }
  specialize (Hfound found eq_refl). destruct found as [[e1 file1]|].
  - destruct Hfound as (Hin1 & _ & k' & _ & Hch & Hf). rewrite Hin in Hin1. injection Hin1 as <-.
    destruct (Hkeep k' Hch) as (_ & [_ Hf'] & _). rewrite Hf in Hf'. injection Hf' as ->.
    rewrite Hrev. intros [= <- <-]. by left.
  - destruct (Hfound e Hin Hp) as (k' & _ & Hch & Hf). destruct (Hkeep k' Hch) as (_ & [_ Hf'] & _). congruence.
Qed.

(** C13: a certificate the Server answered as issued can be fetched: after any calls that leave it alone,
    starts and stops and calls the store failed among them, a Server that is up answers a download of its
    serial, before it ends and while it is not revoked and the audit record takes the download, with the
    file the signer sealed; or the store failed at a call this very download made, the removal of an
    entry that has ended or the reading of the file. *)
Theorem issued_files_are_kept (b : B) before (c : Certificates B) ca made t prune_now (s1 s' : Server B) after
    (c' : Certificates B) now is_revoked answer :
  let e := entry_of ca t made in
  holds b ∅ ∅ → Forall (makes_known known) (before ++ after) → known (pair_id made) →
  Forall (makes_other e) before → Forall (spares e) after →
  run before (Down b) = Up c → signer c = Some ca →
  step (Recording made t prune_now true) (Up c) = (s1, Some (Issued201 made)) →
  is_revoked (b_id e) = false → (now < b_not_after e)%N → run after s1 = Up c' →
  step (Downloading now (b_serial e) is_revoked true) (Up c') = (s', answer) →
  answer = Some (Handed200 e (pkcs12 made)) ∨ answer = Some Failed500 ∧ download_fails now e c'.
Proof.
  intros e Hh [Hkn Hkn']%Forall_app Hmk Hother Hspares Hrun Hsig Hstep Hrev Hnow Hup Hd.
  destruct (run_alone e before (Down b) _ (down_stands known holds b ∅ ∅ Hh)) as (k & Hk & Hal); [|done..|].
  { split; cbn; intros ??; by rewrite lookup_empty. }
  rewrite Hrun in Hk. cbn [step served] in Hstep.
  destruct (issue_record made t prune_now c) as [c1 x] eqn:E.
  eapply (issue_record_acts known holds) in E as (Hs1 & k1 & Hc1 & Hch & _ & Hx); [|done..].
  destruct x as [out|[]]; try (cbn in Hstep; congruence). cbn in Hstep.
  destruct (Hx out eq_refl) as (-> & ca' & Hca & Hr & Hst & Hf). rewrite Hsig in Hca. injection Hca as <-.
  injection Hstep as <-. assert (has e (pkcs12 made) (Up c1) k1) as Hhas.
  { split; [done|]. split; [|split; [done|split; [done|]]].
    - eapply changes_keep; [|exact Hch|exact Hal]. intros k2 k3. apply change_alone. rewrite Hsig.
      by intros e' x' [= <- <-].
    - rewrite Hs1, Hsig. by apply bool_decide_eq_true. }
  destruct (run_has e _ after (Up c1) k1 Hhas Hkn' Hspares) as [k2 Hhas2].
  rewrite Hup in Hhas2. eapply has_is_handed; [exact Hhas2|done|exact Hrev| |exact Hd]. apply N.leb_gt. done.
Qed.
End Kept.

(** ** What is signed *)

(** The values an operator named, absent ones empty. *)
Definition values_of (s : Subject) : SubjectValues :=
  mkSubject (default "" (asked_country s)) (default "" (asked_state s)) (default "" (asked_locality s))
    (default "" (asked_organization s)) (default "" (asked_organizational_unit s))
    (default "" (asked_organization_identifier s)).

(** The values a list of attributes sets, as the subject of a certificate is read. *)
Definition read_back (l : list (Attribute * string)) : SubjectValues :=
  foldl (λ v av, Attribute.set av.1 v av.2) (mkSubject "" "" "" "" "" "") l.

(** The subject a host certificate carries over reads back as the values it was made of. *)
Lemma carried_subjects_read_back v common_name : read_back (carried_attributes v common_name) = v.
Proof.
  destruct v as [c st l o ou oi]. unfold carried_attributes, Attribute.CARRIED.
  destruct c, st, l, o, ou, oi; reflexivity.
Qed.

Lemma checked_not_empty a v : Attribute.check a v = Ok tt → is_empty v = false.
Proof. destruct v; [|done]. by destruct a. Qed.

Lemma checked_values_spec l : ∀ named,
  checked_values l = Ok named →
  named = omap (λ av, (λ v, (av.1, v)) <$> av.2) l ∧
  ∀ a v, (a, Some v) ∈ l → Attribute.check a v = Ok tt.
Proof.
  induction l as [|[a [v|]] l IH]; cbn; intros named.
  - intros [= <-]. split; [done|]. by intros ?? ?%not_elem_of_nil.
  - destruct (Attribute.check a v) as [[]|] eqn:Ec; cbn; [|done].
    destruct (checked_values l) as [more|]; cbn; [|done]. intros [= <-]. destruct (IH more eq_refl) as [-> Hc].
    split; [done|]. intros a' v' [[= -> ->]|Hin]%elem_of_cons; [done|by apply Hc].
  - intros H. destruct (IH named H) as [-> Hc]. split; [done|]. intros a' v' [[=]|Hin]%elem_of_cons. by apply Hc.
Qed.

(** The subject that is signed is the one a host certificate of the same values carries. *)
Lemma attributes_are_carried s common_name l :
  attributes s common_name = Ok l → l = carried_attributes (values_of s) common_name.
Proof.
  unfold attributes. destruct s as [c st lo [o|] [ou|] oi]; try done. cbn [asked_organization asked_organizational_unit].
  destruct (checked_values _) as [named|] eqn:E; cbn; [|done]. intros [= <-].
  apply checked_values_spec in E as [-> Hc]. unfold carried_attributes. f_equal.
  assert (Hne : ∀ a v, (a, Some v) ∈ asked (mkAsked c st lo (Some o) (Some ou) oi) → is_empty v = false)
    by (intros a v H%Hc; by eapply checked_not_empty).
  unfold asked in *. cbn [asked_country asked_state asked_locality asked_organization asked_organizational_unit
    asked_organization_identifier] in *.
  destruct c as [c|], st as [st|], lo as [lo|], oi as [oi|]; cbn;
    rewrite ?(Hne Attribute.Country c), ?(Hne Attribute.State st), ?(Hne Attribute.Locality lo),
      ?(Hne Attribute.Organization o), ?(Hne Attribute.OrganizationalUnit ou),
      ?(Hne Attribute.OrganizationIdentifier oi) by set_solver; reflexivity.
Qed.

Lemma attributes_are_named s common_name l :
  attributes s common_name = Ok l → is_Some (asked_organization s) ∧ is_Some (asked_organizational_unit s).
Proof. unfold attributes. destruct (asked_organization s), (asked_organizational_unit s); naive_solver. Qed.

(** C21: what the bootstrap CA is asked to sign: its subject names the customer and the site, has the
    order a certificate lists it in and reads back as the operator's values; its life begins now, ends
    later, within ninety days and with the CA at the latest; its password has 8 to 128 characters; and
    the record has room for it. *)
Theorem orders_keep_their_bounds {B : Type} `{!BootstrapStore B} request room_now now (c c' : Certificates B) o :
  issue_order request room_now now c = (c', Some (Ok o)) →
  ∃ ca, signer c = Some ca ∧
    order_attributes o = carried_attributes (values_of (ask_subject request)) (leaf_common_name ca) ∧
    read_back (order_attributes o) = values_of (ask_subject request) ∧
    is_Some (asked_organization (ask_subject request)) ∧ is_Some (asked_organizational_unit (ask_subject request)) ∧
    order_now o = now ∧ (now < order_not_after o)%N ∧ (order_not_after o ≤ ca_not_after_ms ca)%N ∧
    (order_not_after o ≤ now + 90 * DAY_MS)%N ∧
    password request = Some (order_password o) ∧ (8 ≤ chars_count (order_password o) ≤ 128)%nat ∧
    (base.size (on_record c') < MAX_VALID)%nat.
Proof.
  unfold issue_order. destruct (signer c) as [ca|]; [|done].
  set (days := default _ _). destruct (negb _) eqn:Ed; [done|].
  apply negb_false_iff, andb_true_iff in Ed as [Hd1%N.leb_le Hd2%N.leb_le]. unfold MAX_VALIDITY_DAYS in Hd2.
  destruct (attributes _ _) as [attrs|] eqn:Ea; [|done]. destruct (password request) as [pw|]; [|done].
  destruct (check_password pw) as [[]|] eqn:Ep; [|done].
  assert (8 ≤ chars_count pw ≤ 128)%nat as Hpw.
  { revert Ep. unfold check_password. destruct (negb _) eqn:En; [done|]. intros _.
    apply negb_false_iff, andb_true_iff in En as [H1%Nat.leb_le H2%Nat.leb_le]. done. }
  unfold room. destruct (prune room_now c) as [c1 [[]|]]; [|done].
  destruct (MAX_VALID <=? _)%nat eqn:Em; [done|]. apply Nat.leb_gt in Em.
  destruct (_ <=? now)%N eqn:Ee; [done|]. apply N.leb_gt in Ee.
  destruct (checked_add _ now _) as [end_|] eqn:Ec; cbn [fmap option_fmap option_map]; [|done]. intros [= <- <-].
  cbn [order_attributes order_now order_not_after order_password].
  apply checked_add_Some in Ec as [-> _]. exists ca. pose proof (attributes_are_named _ _ _ Ea) as [Ho Hu].
  apply attributes_are_carried in Ea as ->. rewrite carried_subjects_read_back. unfold DAY_MS in *.
  split_and!; try done; lia.
Qed.
