(* ===== verification/BootstrapSamples.v ===== *)
(** * The bootstrap record on the filesystem, in the concrete

    A PKCS#12 file that no entry names keeps the record from opening, and a crash within an issuance
    leaves one: [unnamed_files_keep_the_server_down]. The theorems of the other files at concrete
    Servers, over the filesystem adapter with a codec that round-trips. *)

From S2P Require Import Prelude RustStr Placement Revocation Fs Bootstrap BootstrapPort BootstrapRuns BootstrapSafe.

Open Scope string_scope.
Open Scope list_scope.

(** ** Files that no entry names *)

Section Unnamed.
Context (to_json : BootstrapEntry → string) (from_json : string → option BootstrapEntry).
#[local] Instance the_store : BootstrapStore Fs := fs_bootstrap to_json from_json.

(** The directory holds the file, and no entry beside it. *)
Definition unnamed (stem : string) (fs : Fs) : Prop :=
  is_Some (documents (files fs) !! (stem +:+ ".p12")) ∧ documents (files fs) !! (stem +:+ ".json") = None.

Lemma each_load_known_Ok stems names : ∀ fs fs' units name,
  eff_each (load_known stems) names fs = (fs', Ok units) → name ∈ names →
  is_Some (strip_suffix ".json" name) ∨ ∃ stem, strip_suffix ".p12" name = Some stem ∧ stem ∈ stems.
Proof.
  induction names as [|n names IH]; intros fs fs' units name; [by intros _ ?%not_elem_of_nil|].
  cbn [eff_each]. intros (fs1 & u & E1 & (fs2 & us & E2 & _)%eff_bind_Ok)%eff_bind_Ok.
  intros [->|Hin]%elem_of_cons; [|by eapply IH].
  revert E1. unfold load_known, eff_bind, get_files, eff_fail, eff_ret.
  destruct (strip_suffix ".json" n) as [s|]; [eauto|]. destruct (strip_suffix ".p12" n) as [s|]; [|done].
  destruct (bool_decide (s ∈ stems)) eqn:E; [|done]. intros _. right. exists s. split; [done|].
  by apply bool_decide_eq_true in E.
Qed.

Lemma unnamed_load stem fs fs' x :
  unnamed stem fs → fs_bootstrap_load from_json fs = (fs', x) → unnamed stem fs' ∧ is_ok x = false.
Proof.
  intros [Hp Hj]. unfold fs_bootstrap_load. unfold eff_bind at 1. destruct (entries fs) as [fs1 r1] eqn:E1.
  apply entries_spec in E1 as (Hd1 & _ & Hnames).
  assert (H1 : unnamed stem fs1) by (unfold unnamed; by rewrite Hd1).
  destruct r1 as [names|err]; [|by intros [= <- <-]]. destruct (Hnames names eq_refl) as [_ Hin].
  unfold eff_bind at 1. destruct (eff_each _ names fs1) as [fs2 r2] eqn:E2.
  apply each_load_entry_spec in E2 as [Hf2 Hread].
  assert (H2 : unnamed stem fs2) by (unfold unnamed; by rewrite Hf2).
  destruct r2 as [read|err]; [|by intros [= <- <-]]. destruct (Hread read eq_refl) as [Hstems _].
  cbn zeta. unfold eff_bind at 1, eff_ret. destruct (eff_each _ names fs2) as [fs3 r3] eqn:E3.
  pose proof (each_load_known_spec _ _ _ _ _ E3) as ->. destruct r3; [|by intros [= <- <-]]. exfalso.
  apply (each_load_known_Ok _ _ _ _ _ (stem +:+ ".p12")) in E3 as [[s Hs]|(s & Hs & Hel)]; [..|by apply Hin].
  - apply strip_suffix_Some in Hs. by apply (json_not_p12 s stem).
  - apply strip_suffix_Some, suffix_inj in Hs as <-. rewrite Hstems in Hel.
    apply list_elem_of_omap in Hel as (name & Hn%Hin & ->%strip_suffix_Some). rewrite Hj in Hn. by destruct Hn.
Qed.

(** C40: a PKCS#12 file with no entry beside it, which a crash between the two writes of an issuance
    leaves, keeps the record from opening: the Server stays down however often it is started, whatever
    calls of the store fail, until someone removes the file. *)
Theorem unnamed_files_keep_the_server_down (stem : string) (calls : list Call) (fs : Fs) :
  unnamed stem fs → ∃ fs', run calls (Down fs) = Down fs' ∧ unnamed stem fs'.
Proof.
  revert fs. induction calls as [|call calls IH]; intros fs Hfs; [by exists fs|]. cbn [run].
  assert (∃ fs1, step call (Down fs) = (Down fs1, None) ∧ unnamed stem fs1) as (fs1 & -> & Hfs1); [|by apply IH].
  destruct call; try (by exists fs). cbn [step store_of]. unfold open. unfold eff_bind at 1.
  change (bs_load fs) with (stored_as (fs_bootstrap_load from_json) fs).
  destruct (stored_as _ fs) as [fs1 x] eqn:E. apply stored_as_inv in E as (y & Hy & Hok & _).
  apply (unnamed_load stem) in Hy as [Hfs1 Hno]; [|done]. rewrite Hno in Hok. destruct x; [done|]. eauto.
Qed.
End Unnamed.

(** ** A Server in the concrete *)

#[export] Instance BootstrapEntry_countable : Countable BootstrapEntry.
Proof.
  refine (inj_countable
    (λ e, ([issuer (b_id e); serial (b_id e); b_serial e; b_subject e; b_key_fingerprint e; b_ca_key e],
           (b_issued e, (b_not_after e, b_p12 e))))
    (λ d, match d with
          | ([i; n; s; u; k; c], (t, (a, p))) => Some (mkBootstrapEntry (mkCertId i n) s u k t a c p)
          | _ => None
          end) _).
  by intros [[] ????? ?].
Defined.

Module BootstrapSample.
#[export] Instance store : BootstrapStore Fs := fs_bootstrap write_code read_code.

Definition authority : BootstrapSigner := mkBootstrapSigner "fleet bootstrap" 1000000000 "ca".
Definition id_of (sn : string) : CertId := mkCertId "0011223344556677" sn.
Definition made (sn : string) : Pair :=
  mkPair (id_of sn) sn ("OU=" +:+ sn) "fp" 0 5000 "pem" ("sealed " +:+ sn).
Definition known (id : CertId) : Prop := id = id_of "01" ∨ id = id_of "02".

#[export] Instance port : BootstrapPort Fs known (fs_bootstrap_holds read_code known).
Proof.
  apply fs_bootstrap_port; [apply read_write_code|].
  intros x y [->| ->] [->| ->] H; try done; vm_compute in H; discriminate H.
Qed.

Definition empty : Fs := mkFs ∅ [] false.

Lemma empty_holds fs : files fs = ∅ → fs_bootstrap_holds read_code known fs ∅ ∅.
Proof.
  intros H. unfold fs_bootstrap_holds. rewrite H. split_and!.
  - intros id e. split; [by rewrite lookup_empty|]. intros (_ & _ & t & Ht & _). vm_compute in Ht. done.
  - intros id x. split; [by rewrite lookup_empty|]. intros (_ & Ht). vm_compute in Ht. done.
  - intros t e Ht. vm_compute in Ht. done.
Qed.

(** Two issuances. *)
Definition issued : list Call :=
  [Start (Some authority) 0; Recording (made "01") 10 10 true; Recording (made "02") 20 20 true].

Definition nobody (_ : CertId) : bool := false.
End BootstrapSample.
Import BootstrapSample.

Lemma both_are_issued :
  (step (Recording (made "02") 20 20 true)
     (run [Start (Some authority) 0; Recording (made "01") 10 10 true] (Down empty))).2 =
  Some (Issued201 (made "02")).
Proof. vm_compute. reflexivity. Qed.

Definition record_at (s : Server Fs) : Certificates Fs :=
  match s with Up c => c | Down b => mkCertificates None b ∅ end.

Definition first : BootstrapEntry := entry_of authority 10 (made "01").
Definition second : BootstrapEntry := entry_of authority 20 (made "02").

Ltac knows :=
  repeat first [apply Forall_nil; exact I|apply Forall_cons; split|exact I|left; reflexivity|right; reflexivity].

(** The first file is forgotten; after a restart the second is handed out, and it is not the first. *)
Lemma forgotten_files_are_not_handed_out_witness :
  let c := record_at (run issued (Down empty)) in
  let after := [Stop; Start (Some authority) 100] in
  (step (Downloading 200 "02" nobody true) (run after (Up (forget_p12 "01" c).1))).2 =
    Some (Handed200 second "sealed 02") ∧
  b_id second ≠ b_id first.
Proof.
  intros c after. split; [vm_compute; reflexivity|].
  refine (forgotten_files_are_not_handed_out known (fs_bootstrap_holds read_code known) empty ∅ ∅ issued
    c (forget_p12 "01" c).1 "01" first (Ok tt) after 200 "02" nobody true
    (step (Downloading 200 "02" nobody true) (run after (Up (forget_p12 "01" c).1))).1 second "sealed 02"
    (empty_holds empty eq_refl) _ _ _ _ _ _ _ _).
  - knows.
  - vm_compute. reflexivity.
  - vm_compute. reflexivity.
  - reflexivity.
  - vm_compute. reflexivity.
  - by left.
  - repeat constructor; done.
  - vm_compute. reflexivity.
Defined.

Lemma handed_files_are_the_issued_ones_witness :
  (200 < b_not_after second)%N ∧
  ∃ made t prune_now recorded ca, Recording made t prune_now recorded ∈ issued ∧
    second = entry_of ca t made ∧ "sealed 02" = pkcs12 made.
Proof.
  refine (let H := handed_files_are_the_issued_ones known (fs_bootstrap_holds read_code known) empty issued
    200 "02" nobody true (step (Downloading 200 "02" nobody true) (run issued (Down empty))).1 second "sealed 02"
    (empty_holds empty eq_refl) _ _ _ in _).
  - destruct H as (_ & Hend & _ & _ & _ & Hmade). split; [exact Hend|exact Hmade].
  Unshelve.
  + knows.
  + vm_compute. repeat constructor; set_solver.
  + vm_compute. reflexivity.
Defined.

(** The first certificate's file is handed out after the second was issued, the list was read and the
    Server was started again. *)
Lemma issued_files_are_kept_witness :
  let s1 := (step (Recording (made "01") 10 10 true) (run [Start (Some authority) 0] (Down empty))).1 in
  let after := [Recording (made "02") 20 20 true; Listing 30 30; Stop; Start (Some authority) 100] in
  let c' := record_at (run after s1) in
  (step (Downloading 200 "01" nobody true) (Up c')).2 = Some (Handed200 first "sealed 01") ∨
  (step (Downloading 200 "01" nobody true) (Up c')).2 = Some Failed500 ∧ download_fails 200 first c'.
Proof.
  intros s1 after c'.
  refine (issued_files_are_kept known (fs_bootstrap_holds read_code known) empty [Start (Some authority) 0]
    (record_at (run [Start (Some authority) 0] (Down empty))) authority (made "01") 10 10 s1
    (step (Downloading 200 "01" nobody true) (Up c')).1 after c' 200 nobody _
    (empty_holds empty eq_refl) _ _ _ _ _ _ _ _ _ _ _).
  - knows.
  - by left.
  - repeat constructor.
  - repeat constructor; vm_compute; done.
  - vm_compute. reflexivity.
  - reflexivity.
  - vm_compute. reflexivity.
  - reflexivity.
  - vm_compute. reflexivity.
  - vm_compute. reflexivity.
  - change (b_serial (entry_of authority 10 (made "01"))) with "01".
    destruct (step (Downloading 200 "01" nobody true) (Up c')); reflexivity.
Defined.

Definition request : IssueRequest :=
  mkIssueRequest (mkAsked (Some "DE") None None (Some "customer") (Some "site") None) (Some 90%N) (Some "password").

Lemma orders_keep_their_bounds_witness :
  let c := record_at (run [Start (Some authority) 0] (Down empty)) in
  let attrs := [(Attribute.Country, "DE"); (Attribute.Organization, "customer");
                (Attribute.OrganizationalUnit, "site"); (Attribute.CommonName, "fleet bootstrap")] in
  ∃ o, (issue_order request 5 6 c).2 = Some (Ok o) ∧ order_attributes o = attrs ∧ order_not_after o = 1000000000%N ∧
    read_back (order_attributes o) = values_of (ask_subject request).
Proof.
  intros c attrs.
  set (o := mkOrder attrs 6 1000000000 "password").
  assert (Ho : issue_order request 5 6 c = ((issue_order request 5 6 c).1, Some (Ok o))) by (vm_compute; reflexivity).
  exists o. split; [by rewrite Ho|]. split; [reflexivity|]. split; [reflexivity|].
  destruct (orders_keep_their_bounds request 5 6 c _ o Ho) as (ca & _ & _ & H & _). exact H.
Defined.

(** An issuance that crashes once the file is in place: every later call of the store fails. *)
Definition crashing : Fs := mkFs ∅ ([Done; Done] ++ repeat Done 5 ++ repeat (Fails 0) 8) false.

Definition crashed : Fs :=
  store_of (run [Start (Some authority) 0; Recording (made "01") 10 10 true] (Down crashing)).

Lemma unnamed_files_keep_the_server_down_witness :
  ∃ fs', run [Start (Some authority) 100; Stop; Start None 200] (Down (mkFs (files crashed) [] false)) = Down fs'.
Proof.
  destruct (unnamed_files_keep_the_server_down write_code read_code "0011223344556677-01"
    [Start (Some authority) 100; Stop; Start None 200] (mkFs (files crashed) [] false)) as (fs' & H & _).
  - split; [vm_compute; eexists; reflexivity|vm_compute; reflexivity].
  - exists fs'. exact H.
Defined.

(** An issuance the audit record did not take, whose file could not be forgotten, is handed out later. *)
Lemma unrecorded_issuances_can_be_fetched :
  let failing := mkFs ∅ (repeat Done 12 ++ [Fails 0]) false in
  let s := run [Start (Some authority) 0; Recording (made "01") 10 10 false] (Down failing) in
  (step (Recording (made "01") 10 10 false) (run [Start (Some authority) 0] (Down failing))).2 = Some Unrecorded503 ∧
  (step (Downloading 200 "01" nobody true) s).2 = Some (Handed200 first "sealed 01").
Proof. vm_compute. split; reflexivity. Qed.
