(* ===== verification/AuditLog.v ===== *)
(** * The audit record

    [fleet-server/src/audit.rs] and [fleet-server/src/audit_log.rs]: what a security decision records,
    the refusals counted together past ten a second, the channel to the writer, the writer that gives
    each entry its place in a hash chain and hands the store its lines in batches, and the two walks
    that check a chain. The store is a port, the hash and the text of JSON and of a time are
    parameters; an error is [tt] where its text alone is formatted from the failure. *)

From S2P Require Import Prelude RustStr Rate.

Open Scope string_scope.
Open Scope list_scope.

(** ** Entries *)

Inductive Field := Text (text : string) | Unsigned (n : N) | Signed (n : Z).

Record Entry := mkEntry {
  event : string;
  outcome : string;
  fields : gmap string Field;
}.

#[export] Instance Field_eq_dec : EqDecision Field.
Proof. solve_decision. Defined.
#[export] Instance Entry_eq_dec : EqDecision Entry.
Proof. solve_decision. Defined.

Definition MAX_TEXT : nat := 256.

(** A byte that is not the second or a later one of a character. *)
Definition starts_char (c : ascii) : bool := negb (in_range 128 191 c).

Definition is_char_boundary (s : string) (i : nat) : bool :=
  match String.get i s with Some c => starts_char c | None => (i =? String.length s)%nat end.

Fixpoint boundary_below (s : string) (i : nat) : nat :=
  if is_char_boundary s i then i else match i with O => O | S i => boundary_below s i end.

(** U+2026. *)
Definition ellipsis : string := string_of_bytes [226; 128; 166]%N.

Definition bounded (s : string) : string :=
  if (String.length s <=? MAX_TEXT)%nat then s
  else String.substring 0 (boundary_below s MAX_TEXT) s +:+ ellipsis.

Definition entry_new (event outcome : string) : Entry := mkEntry event outcome ∅.

(** [with]: [into_field] bounds a text and leaves the numbers. *)
Definition with_text (k v : string) (e : Entry) : Entry :=
  mkEntry (event e) (outcome e) (<[k := Text (bounded v)]> (fields e)).
Definition with_text_opt (k : string) (v : option string) (e : Entry) : Entry :=
  match v with Some v => with_text k v e | None => e end.
Definition with_unsigned (k : string) (n : N) (e : Entry) : Entry :=
  mkEntry (event e) (outcome e) (<[k := Unsigned n]> (fields e)).

Definition is_refusal (e : Entry) : bool :=
  bool_decide (outcome e = "refused") || bool_decide (outcome e = "throttled").

(** ** Bounds *)

Definition CHANNEL_CAPACITY : N := 10000.
Definition REFUSALS_PER_SECOND : N := 10.
Definition REFUSAL_SHARE : N := CHANNEL_CAPACITY / 2.
Definition WRITE_BATCH : N := 1024.
Definition REFUSAL_KEYS : N := CHANNEL_CAPACITY.

Definition GENESIS : string := string_of_bytes (repeat 48%N 64).

(** ** The refusals counted together *)

Notation RefusalKey := (string * option string)%type (only parsing).

Record Slot := mkSlot {
  slot_second : N;
  slot_count : N;
  carried : N;
}.

Inductive Counted := Queue | Aggregated | NoRoom.

#[export] Instance Counted_eq_dec : EqDecision Counted.
Proof. solve_decision. Defined.

Section Refusals.
Notation Window := (gmap (string * option string) Slot).

Definition add_u32 (a b : N) : N := saturating_add u32_max a b.

(** The refusals of the slot's second past the allowance. *)
Definition past_allowance (s : Slot) : N := saturating_sub (slot_count s) REFUSALS_PER_SECOND.

(** [Refusals::admit]. *)
Definition count_refusal (key : RefusalKey) (second : N) (w : Window) : Window * Counted :=
  if bool_decide (w !! key = None) && (REFUSAL_KEYS <=? N.of_nat (base.size w))%N then (w, NoRoom)
  else
    let slot := default (mkSlot second 0 0) (w !! key) in
    let slot := if (slot_second slot =? second)%N then slot
                else mkSlot second 0 (add_u32 (carried slot) (past_allowance slot)) in
    let slot := mkSlot (slot_second slot) (add_u32 (slot_count slot) 1) (carried slot) in
    (<[key := slot]> w,
     if (slot_count slot <=? REFUSALS_PER_SECOND)%N then Queue else Aggregated).

(** What a slot has to tell at [second]. *)
Definition unwritten (second : N) (s : Slot) : N :=
  if (second <=? slot_second s)%N then carried s else add_u32 (carried s) (past_allowance s).

(** [Refusals::take_passed], the slots in the order the table iterates. *)
Definition take_passed `{!HashIter (string * option string) Slot} (second : N) (w : Window)
    : Window * list (RefusalKey * N) :=
  (omap (λ s, if (second <=? slot_second s)%N then Some (mkSlot (slot_second s) (slot_count s) 0) else None) w,
   omap (λ ks, let n := unwritten second ks.2 in if (0 <? n)%N then Some (ks.1, n) else None) (hash_iter w)).
End Refusals.

(** ** The store *)

Record Tail := mkTail {
  last_line : string;
  last_seq : N;
  is_torn : bool;
  last_whole : option string;
}.

Inductive Chain := One | Lease (id : string) | Unleased.

#[export] Instance Chain_eq_dec : EqDecision Chain.
Proof. solve_decision. Defined.

(** [AuditStore]. *)
Class AuditStore (S : Type) := {
  store_chain : S → S * Chain;
  store_close : N → list string → Eff S unit unit;
  store_stored : string → N → Eff S unit (list string);
  store_tail : Eff S unit (option Tail);
  store_append : N → list string → Eff S unit unit;
  current_bytes : S → N;
  store_rotate : N → Eff S unit (list (string * string));
}.

Record Limits := mkLimits {
  max_file_bytes : N;
  keep_files : N;
}.

(** ** Lines *)

(** What is read of a JSON value: a text, a number, or anything else. *)
Inductive Value := VText (s : string) | VUnsigned (n : N) | VNegative (n : Z) | VOther.

Notation Object := (gmap string Value) (only parsing).

(** [Value::from] of an [i64]. *)
Definition json_signed (z : Z) : Value := if (z <? 0)%Z then VNegative z else VUnsigned (Z.to_N z).

Definition json_field (f : Field) : Value :=
  match f with Text s => VText s | Unsigned n => VUnsigned n | Signed z => json_signed z end.

Definition get_str (m : Object) (k : string) : option string :=
  match m !! k with Some (VText s) => Some s | _ => None end.

Definition get_u64 (m : Object) (k : string) : option N :=
  match m !! k with Some (VUnsigned n) => Some n | _ => None end.

(** What the record takes of the libraries: SHA-256 as hex, the text of a time and of a JSON object,
    and the members of a JSON text — none of them where the text is no object, [None] where it is no
    JSON; and the parsed address of a peer and its text. *)
Record Texts := mkTexts {
  line_hash : string → string;
  rfc3339 : N → string;
  object_text : gmap string Value → string;
  object_of : string → option (gmap string Value);
  parse_ip : string → option IpAddr;
  ip_text : IpAddr → string;
}.

(** ** The handle and the writer *)

Inductive Message := MEntry (e : Entry) (under : option string) | MDrain | MClose.

Record Line := mkLine {
  line_seq : N;
  line_text : string;
  line_entry : Entry;
  line_time : N;
  line_unrecorded : N;
  decided_under : option string;
  line_lost : N;
}.

(** Where the writer is in its chain, and the lines it has placed and not handed over. *)
Record Place := mkPlace {
  writer_seq : N;
  writer_prev : string;
  writer_chain : option string;
  batch : list Line;
  batch_bytes : N;
  batch_start_prev : string;
}.

(** What the handle and the writer share. *)
Record Shared := mkShared {
  window : gmap (string * option string) Slot;
  queued_refusals : N;
  failing : bool;
  unrecorded : N;
  channel : list Message;
}.

(** [AuditLog] and [Writer]; [emitted] is what went out as [tracing] events, every line once it is
    written. *)
Record Log (S : Type) := mkLog {
  audit_store : S;
  limits : Limits;
  per_lease : bool;
  place : Place;
  shared : Shared;
  emitted : list Line;
}.
Arguments mkLog {S}.
Arguments audit_store {S}.
Arguments limits {S}.
Arguments per_lease {S}.
Arguments place {S}.
Arguments shared {S}.
Arguments emitted {S}.

Section Log.
Context (t : Texts).

Definition refusal_key (e : Entry) : string * option string :=
  (event e,
   match fields e !! "peer" with
   | Some (Text peer) => Some (match parse_ip t peer with Some ip => ip_text t (peer_key ip) | None => peer end)
   | _ => None
   end).

(** [render]: a field may stand for [seq], [time], [event] or [outcome], none for [prev]. *)
Definition render (seq time_ms : N) (e : Entry) (prev : string) : string :=
  let line : gmap string Value := {["seq" := VUnsigned seq]} in
  let line := <["time" := VText (rfc3339 t time_ms)]> line in
  let line := <["event" := VText (event e)]> line in
  let line := <["outcome" := VText (outcome e)]> line in
  let line := (json_field <$> fields e) ∪ line in
  object_text t (<["prev" := VText prev]> line).

Context {S : Type} `{!AuditStore S} `{!HashIter (string * option string) Slot}.
Notation Log := (Log S).

Definition on_store (f : S → S) (w : Log) : Log :=
  mkLog (f (audit_store w)) (limits w) (per_lease w) (place w) (shared w) (emitted w).
Definition on_place (f : Place → Place) (w : Log) : Log :=
  mkLog (audit_store w) (limits w) (per_lease w) (f (place w)) (shared w) (emitted w).
Definition on_shared (f : Shared → Shared) (w : Log) : Log :=
  mkLog (audit_store w) (limits w) (per_lease w) (place w) (f (shared w)) (emitted w).
Definition emit (lines : list Line) (w : Log) : Log :=
  mkLog (audit_store w) (limits w) (per_lease w) (place w) (shared w) (emitted w ++ lines).

Definition set_failing (b : bool) (s : Shared) : Shared :=
  mkShared (window s) (queued_refusals s) b (unrecorded s) (channel s).
Definition set_unrecorded (n : N) (s : Shared) : Shared :=
  mkShared (window s) (queued_refusals s) (failing s) n (channel s).
Definition set_window (m : gmap (string * option string) Slot) (s : Shared) : Shared :=
  mkShared m (queued_refusals s) (failing s) (unrecorded s) (channel s).
Definition set_queued (n : N) (s : Shared) : Shared :=
  mkShared (window s) n (failing s) (unrecorded s) (channel s).
Definition set_channel (l : list Message) (s : Shared) : Shared :=
  mkShared (window s) (queued_refusals s) (failing s) (unrecorded s) l.

(** A call of the store. *)
Definition store_call {X} (call : Eff S unit X) (w : Log) : Log * result X unit :=
  let (st, x) := call (audit_store w) in (on_store (λ _, st) w, x).

(** *** [record] *)

(** [try_send]: nothing is sent on a full channel. *)
Definition try_send (m : Message) (s : Shared) : Shared * bool :=
  if (N.of_nat (length (channel s)) <? CHANNEL_CAPACITY)%N then (set_channel (channel s ++ [m]) s, true)
  else (s, false).

(** [AuditLog::unrecorded]. *)
Definition count_unrecorded (s : Shared) : Shared := set_unrecorded (unrecorded s + 1) s.

(** [AuditLog::record] at [now_ms], under the lease [under]; [false] is [Unavailable]. *)
Definition record (now_ms : N) (under : option string) (e : Entry) (s : Shared) : Shared * bool :=
  if failing s then (count_unrecorded s, false)
  else if negb (is_refusal e) then
    match try_send (MEntry e under) s with
    | (s, true) => (s, true)
    | (s, false) => (count_unrecorded s, false)
    end
  else
    let (m, counted) := count_refusal (refusal_key e) (now_ms / 1000) (window s) in
    let s := set_window m s in
    match counted with
    | Aggregated => (s, true)
    | NoRoom => (count_unrecorded s, false)
    | Queue =>
        if (REFUSAL_SHARE <=? queued_refusals s)%N then (count_unrecorded s, false)
        else
          match try_send (MEntry e under) (set_queued (queued_refusals s + 1) s) with
          | (s, true) => (s, true)
          | (s, false) => (count_unrecorded (set_queued (queued_refusals s - 1) s), false)
          end
    end.

(** *** The writer's parts *)

(** What of an entry is written into the chain [chain]. *)
Definition placed_entry (chain : option string) (l : Line) : Entry :=
  let e := line_entry l in
  let e := if (0 <? line_unrecorded l)%N then with_unsigned "unrecorded_before" (line_unrecorded l) e else e in
  match chain with
  | None => e
  | Some c =>
      let f := <["chain" := Text c]> (fields e) in
      let f := match decided_under l with
               | Some under => if bool_decide (under = c) then f else <["taken_under" := Text under]> f
               | None => f
               end in
      mkEntry (event e) (outcome e) f
  end.

(** [Writer::place]: the line in the next place, and where the writer is after it. *)
Definition place_line (l : Line) (p : Place) : Line * Place :=
  let seq := (writer_seq p + 1)%N in
  let text := render seq (line_time l) (placed_entry (writer_chain p) l) (writer_prev p) in
  (mkLine seq text (line_entry l) (line_time l) (line_unrecorded l) (decided_under l) (line_lost l),
   mkPlace seq (line_hash t text) (writer_chain p) (batch p) (batch_bytes p) (batch_start_prev p)).

Definition line_bytes (l : Line) : N := (N.of_nat (String.length (line_text l)) + 1)%N.

(** The batch placed again, line by line. *)
Fixpoint place_again (lines : list Line) (p : Place) : Place :=
  match lines with
  | [] => p
  | l :: lines =>
      let (l, p) := place_line l p in
      place_again lines (mkPlace (writer_seq p) (writer_prev p) (writer_chain p) (batch p ++ [l])
                           (batch_bytes p + line_bytes l) (batch_start_prev p))
  end.

(** How many lines of the batch are stored already. *)
Fixpoint landed (lines : list Line) (stored : list string) : nat :=
  match lines, stored with
  | l :: lines, s :: stored => if bool_decide (line_text l = s) then Datatypes.S (landed lines stored) else O
  | _, _ => O
  end.

(** [Writer::switch_to]. *)
Definition switch_to (chain : string) (w : Log) : Log * result unit unit :=
  let '(w, found) :=
    match writer_chain (place w), batch (place w) with
    | Some old, first :: _ =>
        match store_call (store_stored old (line_seq first)) w with
        | (w, Ok stored) =>
            let k := landed (batch (place w)) stored in
            (on_place (λ p, mkPlace (writer_seq p) (writer_prev p) (writer_chain p) (drop k (batch p))
                              (batch_bytes p) (batch_start_prev p)) (emit (firstn k (batch (place w))) w), Ok tt)
        | (w, Err e) => (w, Err e)
        end
    | _, _ => (w, Ok tt)
    end in
  match found with
  | Err e => (w, Err e)
  | Ok _ =>
      match store_call store_tail w with
      | (w, Err e) => (w, Err e)
      | (w, Ok tail) =>
          let '(seq, prev) := match tail with
                              | None => (0%N, GENESIS)
                              | Some tail => (last_seq tail, line_hash t (last_line tail))
                              end in
          (on_place (λ p, place_again (batch p) (mkPlace seq prev (Some chain) [] 0 prev)) w, Ok tt)
      end
  end.

(** [Writer::follow_chain]. *)
Definition follow_chain (w : Log) : Log * result unit unit :=
  if negb (per_lease w) then (w, Ok tt)
  else
    let (st, c) := store_chain (audit_store w) in
    let w := on_store (λ _, st) w in
    match c with
    | Unleased => (w, Err tt)
    | Lease chain => if bool_decide (writer_chain (place w) = Some chain) then (w, Ok tt) else switch_to chain w
    | One => (w, Ok tt)
    end.

Definition sum_lost (lines : list Line) : N := foldr (λ l n, (line_lost l + n)%N) 0%N lines.

Definition clear_batch (p : Place) : Place :=
  mkPlace (writer_seq p) (writer_prev p) (writer_chain p) [] 0 (batch_start_prev p).

(** What is left of a batch that was not written. *)
Definition batch_failed (w : Log) : Log :=
  let w :=
    if per_lease w then w
    else
      let p := place w in
      let first := from_option line_seq 0%N (head (batch p)) in
      on_shared (λ s, set_unrecorded (unrecorded s + sum_lost (batch p)) s)
        (on_place (λ p, mkPlace (first - 1) (batch_start_prev p) (writer_chain p) [] 0 "") w) in
  on_shared (set_failing true) w.

(** [Writer::commit_as]. *)
Definition commit_as (closing : bool) (w : Log) : Log :=
  if bool_decide (batch (place w) = []) then w
  else
    let (w, ready) := follow_chain w in
    match batch (place w) with
    | [] => match ready with Ok _ => on_shared (set_failing false) w | Err _ => w end
    | (first :: _) as lines =>
        match ready with
        | Err _ => batch_failed w
        | Ok _ =>
            let texts := line_text <$> lines in
            match store_call ((if closing then store_close else store_append) (line_seq first) texts) w with
            | (w, Ok _) => emit lines (on_shared (set_failing false) (on_place clear_batch w))
            | (w, Err _) => batch_failed w
            end
        end
    end.

Definition commit : Log → Log := commit_as false.

(** [Writer::append]. *)
Definition append (now_ms : N) (e : Entry) (under : option string) (w : Log) : Log :=
  let n := unrecorded (shared w) in
  let w := on_shared (set_unrecorded 0) w in
  let lost := ((if bool_decide (event e = "audit.resumed") then 0 else 1) + n)%N in
  let l := mkLine 0 "" e now_ms n under lost in
  let w := on_place (λ p, let start := if bool_decide (batch p = []) then writer_prev p else batch_start_prev p in
                          let (l, p) := place_line l p in
                          mkPlace (writer_seq p) (writer_prev p) (writer_chain p) (batch p ++ [l])
                            (batch_bytes p + line_bytes l) start) w in
  if (WRITE_BATCH <=? N.of_nat (length (batch (place w))))%N && negb (per_lease w && failing (shared w))
  then commit w else w.

(** The files a rotation deleted, told in the chain. *)
Definition tell_deleted (now_ms : N) (w : Log) (fl : string * string) : Log :=
  append now_ms (with_text "deleted_last_hash" (line_hash t fl.2)
                   (with_text "deleted" fl.1 (entry_new "audit.rotated" "recorded"))) None w.

(** [Writer::write]. *)
Definition write (now_ms : N) (e : Entry) (under : option string) (w : Log) : Log :=
  if per_lease w then append now_ms e under w
  else
    let max := max_file_bytes (limits w) in
    let w := if (max <=? current_bytes (audit_store w) + batch_bytes (place w))%N then commit w else w in
    let w := if (max <=? current_bytes (audit_store w))%N then
               match store_call (store_rotate (keep_files (limits w))) w with
               | (w, Ok deleted) => foldl (tell_deleted now_ms) w deleted
               | (w, Err _) => w
               end
             else w in
    append now_ms e under w.

Definition write_aggregate (now_ms : N) (w : Log) (kc : (string * option string) * N) : Log :=
  write now_ms (with_unsigned "count" kc.2 (with_text_opt "peer" kc.1.2
                  (entry_new (kc.1.1 +:+ ".aggregated") "refused"))) None w.

(** [Writer::flush_window]. *)
Definition flush_window (now_ms second : N) (w : Log) : Log :=
  let (m, passed) := take_passed second (window (shared w)) in
  foldl (write_aggregate now_ms) (on_shared (set_window m) w) passed.

(** [Writer::take]. *)
Definition take_entry (now_ms : N) (e : Entry) (under : option string) (w : Log) : Log :=
  write now_ms e under
    (if is_refusal e then on_shared (λ s, set_queued (queued_refusals s - 1) s) w else w).

(** [Writer::close_chain]. *)
Definition close_chain (now_ms : N) (w : Log) : Log * bool :=
  match follow_chain w with
  | (w, Err _) => (w, false)
  | (w, Ok _) =>
      let seq := writer_seq (place w) in
      let prev := writer_prev (place w) in
      let w := append now_ms (with_text "reason" "shutdown" (entry_new "audit.chain_closed" "recorded")) None w in
      let w := commit_as true w in
      if failing (shared w) then
        let closes := match last (batch (place w)) with
                      | Some l => bool_decide (event (line_entry l) = "audit.chain_closed")
                      | None => false
                      end in
        (if closes
         then on_place (λ p, mkPlace seq prev (writer_chain p) (firstn (length (batch p) - 1) (batch p))
                               (batch_bytes p) (batch_start_prev p)) w
         else w, false)
      else (w, true)
  end.

(** [Writer::handle], and what it answers a request. *)
Definition handle (now_ms : N) (m : Message) (w : Log) : Log * option bool :=
  match m with
  | MEntry e under => (take_entry now_ms e under w, None)
  | MDrain =>
      let w := commit (flush_window now_ms u64_max w) in
      (w, Some (negb (failing (shared w))))
  | MClose =>
      let w := commit (flush_window now_ms u64_max w) in
      if failing (shared w) then (w, Some false)
      else if negb (per_lease w) then (w, Some true)
      else let (w, closed) := close_chain now_ms w in (w, Some closed)
  end.

(** The next message of the channel, if there is one. *)
Definition receive (now_ms : N) (w : Log) : Log :=
  match channel (shared w) with
  | [] => w
  | m :: rest => (handle now_ms m (on_shared (set_channel rest) w)).1
  end.

Definition resume (now_ms : N) (w : Log) : Log := append now_ms (entry_new "audit.resumed" "recorded") None w.

(** The end of [Writer::tick], once the channel was emptied. *)
Definition tick (now_ms : N) (w : Log) : Log :=
  let w := commit (flush_window now_ms (now_ms / 1000) w) in
  if negb (failing (shared w)) then w
  else
    let w := if negb (per_lease w) || bool_decide (batch (place w) = []) then resume now_ms w else w in
    let w := commit w in
    if per_lease w && negb (failing (shared w)) && (0 <? unrecorded (shared w))%N
    then commit (resume now_ms w) else w.

(** [AuditLog::start_with], but for the thread. *)
Definition start (now_ms : N) (lim : Limits) (st : S) : S * result Log unit :=
  let (st, c) := store_chain st in
  match store_tail st with
  | (st, Err e) => (st, Err e)
  | (st, Ok tail) =>
      let '(seq, prev, torn) :=
        match tail with
        | None => (0%N, GENESIS, None)
        | Some tail => (last_seq tail, line_hash t (last_line tail),
                        if is_torn tail then Some (default GENESIS (last_whole tail)) else None)
        end in
      let w := mkLog st lim (negb (bool_decide (c = One)))
                 (mkPlace seq prev (match c with Lease id => Some id | _ => None end) [] 0 "")
                 (mkShared ∅ 0 false 0 []) [] in
      let w := match torn with
               | Some whole =>
                   commit (write now_ms (with_text "last_whole" whole (entry_new "audit.chain_broken" "recorded")) None w)
               | None => w
               end in
      (audit_store w, Ok w)
  end.
End Log.
