(* ===== verification/AuditChain.v ===== *)
(** * Checking an audit chain

    [verify] and [ChainWalk] of [fleet-server/src/audit_log.rs], and what a chain that holds proves: two
    records that hold and end in the same entry hold the same entries as far back as the shorter one
    goes, and a closed chain of a lease is whole. *)

From S2P Require Import Prelude RustStr Rate AuditLog.

Open Scope string_scope.
Open Scope list_scope.

(** ** The walk over one file store's record *)

Record Torn := mkTorn {
  torn_place : string;
  torn_hash : string;
  torn_lines : nat;
}.

Record Held := mkHeld {
  held_entries : N;
  held_unlinked : list string;
}.

(** Where a chain breaks, with what the message names. *)
Inductive VerifyError :=
| NoPrev (place : string)
| NotRepaired (torn : string)
| RepairUnlinked (torn place : string) (lines : nat)
| WrongLastWhole (place torn : string)
| PrevMismatch (place : string)
| TornEnd (torn : string).

Record Walk := mkWalk {
  walk_prev : option string;
  walk_torn : option Torn;
  walk_held : Held;
}.

Section Verify.
Context (t : Texts).
Notation hash := (line_hash t).

(** The entry after a run of torn lines: its repair. *)
Definition check_repair (place : string) (value : gmap string Value) (stated : string) (run : Torn)
    (prev : option string) (h : Held) : result Held VerifyError :=
  if negb (bool_decide (get_str value "event" = Some "audit.chain_broken")) || negb (bool_decide (stated = torn_hash run))
  then Err (NotRepaired (torn_place run))
  else
    match get_str value "last_whole", prev with
    | None, _ => if (1 <? torn_lines run)%nat then Err (RepairUnlinked (torn_place run) place (torn_lines run))
                 else Ok (mkHeld (held_entries h) (held_unlinked h ++ [place]))
    | Some whole, Some prev => if bool_decide (whole = prev) then Ok h else Err (WrongLastWhole place (torn_place run))
    | Some _, None => Ok h
    end.

(** One line of [verify]. *)
Definition verify_step (w : Walk) (pl : string * string) : result Walk VerifyError :=
  let (place, line) := pl in
  match object_of t line with
  | None =>
      Ok (mkWalk (walk_prev w)
            (Some (match walk_torn w with
                   | Some run => mkTorn (torn_place run) (hash line) (S (torn_lines run))
                   | None => mkTorn place (hash line) 1
                   end)) (walk_held w))
  | Some value =>
      match get_str value "prev" with
      | None => Err (NoPrev place)
      | Some stated =>
          h <-? match walk_torn w with
                | Some run => check_repair place value stated run (walk_prev w) (walk_held w)
                | None =>
                    match walk_prev w with
                    | Some prev => if bool_decide (stated = prev) then Ok (walk_held w) else Err (PrevMismatch place)
                    | None => Ok (walk_held w)
                    end
                end ;;
          Ok (mkWalk (Some (hash line)) None (mkHeld (held_entries h + 1) (held_unlinked h)))
      end
  end.

Fixpoint verify_lines (w : Walk) (lines : list (string * string)) : result Walk VerifyError :=
  match lines with
  | [] => Ok w
  | pl :: lines => w <-? verify_step w pl ;; verify_lines w lines
  end.

Definition fresh : Walk := mkWalk None None (mkHeld 0 []).

(** [verify]. *)
Definition verify (lines : list (string * string)) : result Held VerifyError :=
  w <-? verify_lines fresh lines ;;
  match walk_torn w with
  | Some run => Err (TornEnd (torn_place run))
  | None => Ok (walk_held w)
  end.
End Verify.

(** ** The walk over a chain of a lease *)

Record LastEntry := mkLast {
  last_at : N;
  last_hash : string;
  last_event : string;
  last_time : string;
}.

Record ChainWalk := mkChainWalk {
  walk_chain : string;
  walk_entries : N;
  walk_last : option LastEntry;
  closed_at : option N;
  predecessor : option (N * string);
  pruned_links : gset (N * string);
}.

Record Walked := mkWalked {
  walked_entries : N;
  walked_last : LastEntry;
  walked_closed : bool;
  walked_predecessor : option (N * string);
}.

Inductive WalkError :=
| NotAnEntry (seq : N)
| OtherSeq (seq : N)
| OtherChain (seq : N)
| AfterClosed (seq closed : N)
| LinkMissing (seq : N)
| StartMissing (seq : N)
| BadGenesis (seq : N)
| GapBefore (seq after : N)
| BrokenLink (seq : N)
| MissingPrev (seq : N)
| NoEntry
| PrunedUnnamed
| EndMissing (seq : N)
| NotRecordedClosed (seq : N).

Section ChainWalk.
Context (t : Texts).
Notation hash := (line_hash t).

Definition walk_new (chain : string) : ChainWalk := mkChainWalk chain 0 None None None ∅.

Definition pruned_after (links : list (N * string)) (w : ChainWalk) : ChainWalk :=
  mkChainWalk (walk_chain w) (walk_entries w) (walk_last w) (closed_at w) (predecessor w)
    (pruned_links w ∪ list_to_set links).

(** How the entry follows what came before: the predecessor it names, when it opens the chain. *)
Definition follows (w : ChainWalk) (seq : N) (value : gmap string Value) (ev prev : string)
    : result (option (N * string)) WalkError :=
  match walk_last w with
  | None =>
      if negb (seq =? 1)%N then
        if bool_decide ((seq - 1, prev)%N ∈ pruned_links w) then Ok (predecessor w) else Err (LinkMissing seq)
      else if negb (bool_decide (ev = "audit.chain_opened")) then Err (StartMissing seq)
      else if negb (bool_decide (prev = GENESIS)) then Err (BadGenesis seq)
      else Ok (match get_u64 value "predecessor_seq", get_str value "predecessor_hash" with
               | Some s, Some h => Some (s, h)
               | _, _ => predecessor w
               end)
  | Some l =>
      if negb (seq =? last_at l + 1)%N then Err (GapBefore seq (last_at l))
      else if negb (bool_decide (prev = last_hash l)) then Err (BrokenLink seq)
      else Ok (predecessor w)
  end.

(** [ChainWalk::step]. *)
Definition walk_step (w : ChainWalk) (sl : N * string) : result ChainWalk WalkError :=
  let (seq, line) := sl in
  match object_of t line with
  | None => Err (NotAnEntry seq)
  | Some value =>
      if negb (bool_decide (get_u64 value "seq" = Some seq)) then Err (OtherSeq seq)
      else if negb (bool_decide (get_str value "chain" = Some (walk_chain w))) then Err (OtherChain seq)
      else
        match closed_at w with
        | Some closed => Err (AfterClosed seq closed)
        | None =>
            let ev := default "" (get_str value "event") in
            match get_str value "prev" with
            | None => Err (MissingPrev seq)
            | Some prev =>
                p <-? follows w seq value ev prev ;;
                Ok (mkChainWalk (walk_chain w) (walk_entries w + 1)
                      (Some (mkLast seq (hash line) ev (default "" (get_str value "time"))))
                      (if bool_decide (ev = "audit.chain_closed") then Some seq else None) p (pruned_links w))
            end
        end
  end.

Fixpoint walk_lines (w : ChainWalk) (lines : list (N * string)) : result ChainWalk WalkError :=
  match lines with
  | [] => Ok w
  | sl :: lines => w <-? walk_step w sl ;; walk_lines w lines
  end.

(** The pruned link of the hash [recorded], the first in order. *)
Definition pruned_at (recorded : string) (links : gset (N * string)) : option N :=
  (merge_sort N.le ((fst <$> List.filter (λ sh, bool_decide (sh.2 = recorded)) (elements links)))) !! 0%nat.

(** [ChainWalk::finish]. *)
Definition finish (closed_hash : option string) (w : ChainWalk) : result Walked WalkError :=
  match walk_last w with
  | None =>
      match closed_hash with
      | Some recorded =>
          match pruned_at recorded (pruned_links w) with
          | Some seq => Ok (mkWalked 0 (mkLast seq "" "" "") true None)
          | None => Err PrunedUnnamed
          end
      | None => Err NoEntry
      end
  | Some l =>
      match closed_hash, closed_at w with
      | Some recorded, _ =>
          if negb (bool_decide (recorded = last_hash l)) || negb (bool_decide (last_event l = "audit.chain_closed"))
          then Err (EndMissing (last_at l))
          else Ok (mkWalked (walk_entries w) l true (predecessor w))
      | None, Some closing => Err (NotRecordedClosed closing)
      | None, None => Ok (mkWalked (walk_entries w) l false (predecessor w))
      end
  end.

Definition walk (chain : string) (links : list (N * string)) (lines : list (N * string))
    (closed_hash : option string) : result Walked WalkError :=
  w <-? walk_lines (pruned_after links (walk_new chain)) lines ;; finish closed_hash w.
End ChainWalk.

(** ** What a record that holds proves *)

Section Proofs.
Context (t : Texts).
Notation hash := (line_hash t).
Implicit Types l : list (string * string).

Lemma verify_lines_app w l1 l2 :
  verify_lines t w (l1 ++ l2) = (w' <-? verify_lines t w l1 ;; verify_lines t w' l2).
Proof.
  revert w. induction l1 as [|pl l1 IH]; intros w; [done|]. cbn. destruct (verify_step t w pl); [apply IH|done].
Qed.

Definition is_entry (line : string) : bool := bool_decide (is_Some (object_of t line)).

(** The whole entries of a record, the newest first. *)
Definition newest_first (lines : list string) : list string := reverse (List.filter is_entry lines).

Lemma newest_first_snoc lines line :
  newest_first (lines ++ [line]) = if is_entry line then line :: newest_first lines else newest_first lines.
Proof.
  unfold newest_first. rewrite List.filter_app. cbn. destruct (is_entry line); [by rewrite reverse_snoc|].
  by rewrite app_nil_r.
Qed.

(** The entry [a] names the entry [b] as the one before it: by its [prev], or over torn lines, of
    which it names the last. *)
Definition names_before (lines : list string) (b a : string) : Prop :=
  ∃ value, object_of t a = Some value ∧
    (get_str value "prev" = Some (hash b) ∨
     ∃ torn, torn ∈ lines ∧ object_of t torn = None ∧ get_str value "prev" = Some (hash torn) ∧
       get_str value "last_whole" = Some (hash b)).

(** Every entry names the one before it. *)
Fixpoint linked (lines : list string) (entries : list string) : Prop :=
  match entries with
  | a :: ((b :: _) as older) => names_before lines b a ∧ linked lines older
  | _ => True
  end.

Lemma linked_mono lines lines' entries : lines ⊆ lines' → linked lines entries → linked lines' entries.
Proof.
  intros Hsub. induction entries as [|a [|b older] IH]; [done..|]. intros [H Hl]. split; [|by apply IH].
  destruct H as (v & Hv & [H|(torn & Hin & H)]); exists v; (split; [done|]); [by left|right].
  exists torn. split; [by apply Hsub|done].
Qed.

Lemma check_repair_ok place value stated run prev h h' :
  check_repair place value stated run prev h = Ok h' →
  stated = torn_hash run ∧ held_entries h' = held_entries h ∧
  (h' = h ∧ (∀ p, prev = Some p → get_str value "last_whole" = Some p) ∨
   held_unlinked h' = held_unlinked h ++ [place]).
Proof.
  unfold check_repair. destruct (negb _ || negb _) eqn:E; [done|].
  apply orb_false_iff in E as [_ E]. apply negb_false_iff, bool_decide_eq_true in E.
  destruct (get_str value "last_whole") as [whole|], prev as [p|].
  - case_bool_decide; [|done]. intros [= <-]. subst. naive_solver.
  - intros [= <-]. naive_solver.
  - destruct (1 <? _)%nat; [done|]. intros [= <-]. by auto.
  - destruct (1 <? _)%nat; [done|]. intros [= <-]. by auto.
Qed.

(** What [verify] knows after the lines it took. *)
Lemma verify_lines_linked l w :
  verify_lines t fresh l = Ok w →
  walk_prev w = hash <$> head (newest_first l.*2) ∧
  (∀ run, walk_torn w = Some run → ∃ torn, torn ∈ l.*2 ∧ object_of t torn = None ∧ torn_hash run = hash torn) ∧
  held_entries (walk_held w) = N.of_nat (length (newest_first l.*2)) ∧
  (held_unlinked (walk_held w) = [] → linked l.*2 (newest_first l.*2)).
Proof.
  revert w. induction l as [|[place line] l IH] using rev_ind; intros w; [by intros [= <-]|].
  rewrite verify_lines_app. destruct (verify_lines t fresh l) as [w0|] eqn:E0; [|done].
  destruct (IH w0 eq_refl) as (Hprev & Htorn & Hn & Hlink). clear IH. cbn.
  destruct (object_of t line) as [value|] eqn:Hline; rewrite fmap_app; cbn [fmap list_fmap snd];
    rewrite newest_first_snoc; unfold is_entry; rewrite Hline.
  - rewrite bool_decide_true by by eexists. destruct (get_str value "prev") as [stated|] eqn:Hst; [|done]. cbn.
    assert (Hend : ∀ h, held_entries h = held_entries (walk_held w0) →
      (held_unlinked h = [] → held_unlinked (walk_held w0) = [] ∧
         ∀ b, head (newest_first l.*2) = Some b → names_before (l.*2 ++ [line]) b line) →
      Ok (mkWalk (Some (hash line)) None (mkHeld (held_entries h + 1) (held_unlinked h))) = Ok (E := VerifyError) w →
      walk_prev w = Some (hash line) ∧
      (∀ run, walk_torn w = Some run → ∃ torn, torn ∈ l.*2 ++ [line] ∧ object_of t torn = None ∧ torn_hash run = hash torn) ∧
      held_entries (walk_held w) = N.of_nat (Datatypes.S (length (newest_first l.*2))) ∧
      (held_unlinked (walk_held w) = [] → linked (l.*2 ++ [line]) (line :: newest_first l.*2))).
    { intros h Hh Hu [= <-]. cbn. split; [done|]. split; [done|]. split; [lia|]. intros Hnil.
      destruct (Hu Hnil) as [Hu0 Hb]. destruct (newest_first l.*2) as [|b older]; [done|]. split; [by apply Hb|].
      eapply linked_mono; [|by apply Hlink]. set_solver. }
    destruct (walk_torn w0) as [run|] eqn:Ht.
    + destruct (check_repair _ _ _ _ _ _) as [h|] eqn:Er; [|done]. cbn.
      apply check_repair_ok in Er as (Hs & Hne & Hcase). destruct (Htorn run eq_refl) as (torn & Hin & Hno & Hth).
      apply Hend; [done|]. intros Hu. destruct Hcase as [[-> Hw]|Happ]; [|by rewrite Happ in Hu; destruct (held_unlinked _)].
      split; [done|]. intros b Hb. rewrite Hb in Hprev. exists value. split; [done|]. right. exists torn.
      split; [set_solver|]. split; [done|]. split; [by rewrite Hst, Hs, Hth|]. by apply Hw.
    + destruct (walk_prev w0) as [p|] eqn:Hp.
      * case_bool_decide as Hsp; [|done]. cbn. apply Hend; [done|]. intros Hu. split; [done|]. intros b Hb.
        rewrite Hb in Hprev. injection Hprev as ->. exists value. split; [done|]. left. congruence.
      * cbn. apply Hend; [done|]. intros Hu. split; [done|]. intros b Hb. by rewrite Hb in Hprev.
  - rewrite bool_decide_false by (by intros [? ?]). cbn. intros [= <-]. cbn. split; [done|]. split.
    + intros run [= <-]. exists line. split; [set_solver|]. split; [done|]. by destruct (walk_torn w0).
    + split; [done|]. intros Hu. eapply linked_mono; [|by apply Hlink]. set_solver.
Qed.

(** No two of the lines have one hash. *)
Definition collision_free (lines : list string) : Prop := ∀ x y, x ∈ lines → y ∈ lines → hash x = hash y → x = y.

Lemma names_before_unique lines1 lines2 b1 b2 a :
  collision_free (lines1 ++ lines2) → b1 ∈ lines1 → b2 ∈ lines2 →
  is_entry b1 = true → is_entry b2 = true →
  names_before lines1 b1 a → names_before lines2 b2 a → b1 = b2.
Proof.
  intros Hcf Hb1 Hb2 He1 He2 (v1 & Hv1 & H1) (v2 & Hv2 & H2). simplify_eq.
  assert (Hcf' : ∀ x y, x ∈ lines1 → y ∈ lines2 → hash x = hash y → x = y).
  { intros x y Hx Hy. apply Hcf; set_solver. }
  unfold is_entry in He1, He2. apply bool_decide_eq_true in He1 as [? ?], He2 as [? ?].
  destruct H1 as [H1|(t1 & Hin1 & Hno1 & Hp1 & Hw1)], H2 as [H2|(t2 & Hin2 & Hno2 & Hp2 & Hw2)].
  - apply Hcf'; congruence.
  - assert (b1 = t2) by (apply Hcf'; congruence). congruence.
  - assert (t1 = b2) by (apply Hcf'; congruence). congruence.
  - apply Hcf'; congruence.
Qed.

Lemma linked_agree lines1 lines2 r1 r2 a :
  collision_free (lines1 ++ lines2) → r1 ⊆ lines1 → r2 ⊆ lines2 →
  Forall (λ x, is_entry x = true) r1 → Forall (λ x, is_entry x = true) r2 →
  linked lines1 (a :: r1) → linked lines2 (a :: r2) → r1 `prefix_of` r2 ∨ r2 `prefix_of` r1.
Proof.
  intros Hcf. revert r2 a. induction r1 as [|b1 r1 IH]; intros [|b2 r2] a Hs1 Hs2 He1 He2 Hl1 Hl2;
    [left; apply prefix_nil|left; apply prefix_nil|right; apply prefix_nil|].
  destruct Hl1 as [Hn1 Hl1], Hl2 as [Hn2 Hl2]. inversion_clear He1 as [|?? Hb1 He1']. inversion_clear He2 as [|?? Hb2 He2'].
  assert (b1 = b2) as <- by (eapply (names_before_unique lines1 lines2); [done|set_solver..|done|done|done|done]).
  destruct (IH r2 b1) as [Hp|Hp]; [set_solver|set_solver|done..| |]; [left|right]; by apply prefix_cons.
Qed.

Lemma newest_first_sub lines : newest_first lines ⊆ lines ∧ Forall (λ x, is_entry x = true) (newest_first lines).
Proof.
  unfold newest_first. split.
  - intros x. rewrite elem_of_reverse, list_elem_of_In, List.filter_In, <- list_elem_of_In. naive_solver.
  - apply Forall_forall. intros x. rewrite elem_of_reverse, list_elem_of_In, List.filter_In. naive_solver.
Qed.

(** C25: two records that hold with every repair linked to the entry before it ([held_unlinked] is
    empty) and that end in the same entry tell the same story. Where no two lines share a hash, the
    whole entries of the one with fewer of them are the newest entries of the other: none of them was
    changed, left out, added or moved, whatever torn pieces crashes left between them. *)
Theorem records_that_hold_agree l1 l2 h1 h2 e :
  verify t l1 = Ok h1 → verify t l2 = Ok h2 → held_unlinked h1 = [] → held_unlinked h2 = [] →
  collision_free (l1.*2 ++ l2.*2) →
  head (newest_first l1.*2) = Some e → head (newest_first l2.*2) = Some e →
  (held_entries h1 ≤ held_entries h2)%N → newest_first l1.*2 `prefix_of` newest_first l2.*2.
Proof.
  intros H1 H2 Hu1 Hu2 Hcf He1 He2 Hle.
  assert (Hv : ∀ l h, verify t l = Ok h → held_unlinked h = [] →
    held_entries h = N.of_nat (length (newest_first l.*2)) ∧ linked l.*2 (newest_first l.*2)).
  { intros l h. unfold verify. destruct (verify_lines t fresh l) as [w|] eqn:E; [|done]. cbn.
    destruct (walk_torn w); [done|]. intros [= <-] Hu.
    apply verify_lines_linked in E as (_ & _ & Hn & Hl). auto. }
  destruct (Hv _ _ H1 Hu1) as [Hn1 Hl1], (Hv _ _ H2 Hu2) as [Hn2 Hl2]. rewrite Hn1, Hn2 in Hle. clear Hv.
  destruct (newest_first_sub l1.*2) as [Hs1 Hf1], (newest_first_sub l2.*2) as [Hs2 Hf2].
  destruct (newest_first l1.*2) as [|a1 r1]; [done|]. destruct (newest_first l2.*2) as [|a2 r2]; [done|].
  cbn in He1, He2. simplify_eq. apply Forall_cons in Hf1 as [_ Hf1], Hf2 as [_ Hf2].
  destruct (linked_agree _ _ r1 r2 e Hcf) as [Hp|Hp]; [set_solver|set_solver|done..| |];
    [by apply prefix_cons|].
  assert (r2 = r1) as ->; [|done]. apply prefix_length_eq; [done|]. cbn in Hle. lia.
Qed.

(** The chain as it was walked, the newest entry first. *)
Fixpoint walked_back (r : list (N * string)) : Prop :=
  match r with
  | [] => True
  | (s, line) :: older =>
      (∃ value, object_of t line = Some value ∧ get_u64 value "seq" = Some s ∧
         match older with
         | [] => s = 1%N
         | (s', line') :: _ => s = (s' + 1)%N ∧ get_str value "prev" = Some (hash line')
         end) ∧ walked_back older
  end.

Lemma walk_lines_app w (l1 l2 : list (N * string)) :
  walk_lines t w (l1 ++ l2) = (w' <-? walk_lines t w l1 ;; walk_lines t w' l2).
Proof.
  revert w. induction l1 as [|sl l1 IH]; intros w; [done|]. cbn. destruct (walk_step t w sl); [apply IH|done].
Qed.

Lemma walk_lines_back chain (l : list (N * string)) w :
  walk_lines t (walk_new chain) l = Ok w →
  pruned_links w = ∅ ∧ walked_back (reverse l) ∧ walk_entries w = N.of_nat (length l) ∧
  (λ e, (last_at e, last_hash e)) <$> walk_last w = (λ sl, (sl.1, hash sl.2)) <$> head (reverse l).
Proof.
  revert w. induction l as [|[s line] l IH] using rev_ind; intros w; [by intros [= <-]|].
  rewrite walk_lines_app. destruct (walk_lines t (walk_new chain) l) as [w0|] eqn:E0; [|done].
  destruct (IH w0 eq_refl) as (Hlinks & Hback & Hn & Hlast). clear IH. cbn.
  destruct (object_of t line) as [value|] eqn:Hv; [|done].
  destruct (negb (bool_decide (get_u64 value "seq" = Some s))) eqn:Hs; [done|].
  apply negb_false_iff, bool_decide_eq_true in Hs.
  destruct (negb _); [done|]. destruct (closed_at w0); [done|].
  destruct (get_str value "prev") as [prev|] eqn:Hp; [|done].
  destruct (follows w0 s value _ prev) as [p|] eqn:Hf; [|done]. cbn. intros [= <-]. cbn.
  rewrite reverse_snoc. cbn. split; [done|]. split; [|split; [rewrite length_app; cbn; lia|done]].
  split; [|done]. exists value. split; [done|]. split; [done|].
  unfold follows in Hf. destruct (walk_last w0) as [e|], (reverse l) as [|[s' line'] older]; try done; cbn in Hlast.
  - injection Hlast as Hat Hh. destruct (N.eqb_spec s (last_at e + 1)); [|done]. cbn in Hf.
    destruct (negb (bool_decide (prev = last_hash e))) eqn:Hpe; [done|].
    apply negb_false_iff, bool_decide_eq_true in Hpe. split; congruence.
  - destruct (N.eqb_spec s 1); [done|]. cbn in Hf. rewrite Hlinks in Hf. by rewrite bool_decide_false in Hf by set_solver.
Qed.

Lemma walked_back_positive s x r : walked_back ((s, x) :: r) → (1 ≤ s)%N.
Proof. intros [(v & _ & _ & H) _]. destruct r as [|[s' x'] r]; [lia|]. destruct H as [-> _]. lia. Qed.

Lemma walked_back_unique r1 r2 :
  collision_free (r1.*2 ++ r2.*2) → walked_back r1 → walked_back r2 →
  hash ∘ snd <$> head r1 = hash ∘ snd <$> head r2 → r1 = r2.
Proof.
  revert r2. induction r1 as [|[s1 x1] r1 IH]; intros [|[s2 x2] r2] Hcf Hw1 Hw2 Hh; [done..|].
  cbn in Hh. injection Hh as Hh. assert (x1 = x2) as <- by (apply Hcf; [set_solver..|done]).
  destruct Hw1 as [(v1 & Hv1 & Hs1 & Hp1) Hw1], Hw2 as [(v2 & Hv2 & Hs2 & Hp2) Hw2]. simplify_eq.
  f_equal. apply IH; [|done..|].
  - intros x y Hx Hy. apply Hcf; set_solver.
  - destruct r1 as [|[s1' x1'] r1], r2 as [|[s2' x2'] r2]; [done|..].
    + destruct Hp2 as [Hp2 _]. apply walked_back_positive in Hw2. lia.
    + destruct Hp1 as [Hp1 _]. apply walked_back_positive in Hw1. lia.
    + destruct Hp1 as [_ Hp1], Hp2 as [_ Hp2]. cbn. congruence.
Qed.

(** A closed chain is whole. Where no two lines share a hash, there is one chain a walk finds to
    hold from its opening entry to the closing hash its record names: its entries carry the numbers
    from one on without a gap, and an entry changed, left out, cut off the end or added shows. *)
Theorem closed_chains_are_whole chain (l1 l2 : list (N * string)) closing r1 r2 :
  walk t chain [] l1 (Some closing) = Ok r1 → walk t chain [] l2 (Some closing) = Ok r2 →
  collision_free (l1.*2 ++ l2.*2) → l1 = l2 ∧ walked_entries r1 = N.of_nat (length l1).
Proof.
  intros H1 H2 Hcf.
  assert (Hv : ∀ (l : list (N * string)) r, walk t chain [] l (Some closing) = Ok r →
    walked_back (reverse l) ∧ hash ∘ snd <$> head (reverse l) = Some closing ∧ walked_entries r = N.of_nat (length l)).
  { intros l r. unfold walk. assert (Hnew : pruned_after [] (walk_new chain) = walk_new chain).
    { unfold pruned_after, walk_new. done. }
    rewrite Hnew. destruct (walk_lines t (walk_new chain) l) as [w|] eqn:E; [|done]. cbn.
    apply walk_lines_back in E as (Hlinks & Hb & Hn & Hlast). unfold finish.
    destruct (walk_last w) as [e|].
    - destruct (negb _ || negb _) eqn:Hc; [done|]. intros [= <-]. cbn. split; [done|]. split; [|done].
      apply orb_false_iff in Hc as [Hc _]. apply negb_false_iff, bool_decide_eq_true in Hc.
      destruct (head (reverse l)) as [[s x]|]; [|done]. cbn in *. congruence.
    - rewrite Hlinks. by cbn. }
  destruct (Hv _ _ H1) as (Hb1 & Hh1 & Hn1), (Hv _ _ H2) as (Hb2 & Hh2 & _). split; [|done].
  apply (inj reverse). apply walked_back_unique; [|done..|by rewrite Hh1, Hh2].
  intros x y Hx Hy. apply Hcf; revert Hx Hy; rewrite !elem_of_app, !list_elem_of_fmap; setoid_rewrite elem_of_reverse; naive_solver.
Qed.
End Proofs.
