(* ===== verification/AuditWriter.v ===== *)
(** * What the audit writer leaves behind

    The steps of the handle and the writer, in whatever order they interleave, and what holds after
    any of them: the stored record is a chain [verify] accepts, whatever writes failed and whatever a
    crash left, and every decision asked for is in it, is told in it, or still waits. *)

From S2P Require Import Prelude RustStr Rate AuditLog AuditChain.

Open Scope string_scope.
Open Scope list_scope.

(** What the record relies on of JSON: a text is read as it was written. *)
Class JsonTexts (t : Texts) : Prop := {
  object_round_trip m : object_of t (object_text t m) = Some m;
  hash_length x : (String.length (line_hash t x) ≤ MAX_TEXT)%nat;
}.

(** The steps of one log: a decision recorded, a request of the writer, and what the writer's loop
    does. *)
Inductive AuditAct :=
| DoRecord (now_ms : N) (under : option string) (e : Entry)
| DoDrain
| DoClose
| DoReceive (now_ms : N)
| DoCommit
| DoTick (now_ms : N)
| DoStop (now_ms : N).

Definition audit_act {S} (t : Texts) `{!AuditStore S} `{!HashIter (string * option string) Slot}
    (w : Log S) (a : AuditAct) : Log S :=
  match a with
  | DoRecord now under e => on_shared (λ s, (record t now under e s).1) w
  | DoDrain => on_shared (λ s, (try_send MDrain s).1) w
  | DoClose => on_shared (λ s, (try_send MClose s).1) w
  | DoReceive now => receive t now w
  | DoCommit => commit t w
  | DoTick now => tick t now w
  | DoStop now => commit t (flush_window t now u64_max w)
  end.

(** ** Walking part of a record *)

Section Walks.
Context (t : Texts).
Notation hash := (line_hash t).
Implicit Types (l : list (string * string)) (w : Walk) (lines : list string).

Lemma unlinked_step w pl w' :
  verify_step t w pl = Ok w' → held_unlinked (walk_held w') = [] → held_unlinked (walk_held w) = [].
Proof.
  destruct pl as [place line]. cbn. destruct (object_of t line) as [v|]; [|by intros [= <-]].
  destruct (get_str v "prev") as [stated|]; [|done].
  destruct (walk_torn w) as [run|].
  - destruct (check_repair _ _ _ _ _ _) as [h|] eqn:E; [|done]. intros [= <-]. cbn. intros Hu.
    apply check_repair_ok in E as (_ & _ & [[-> _]|E]); [done|]. rewrite E in Hu. by apply app_nil in Hu as [? ?].
  - destruct (walk_prev w); [case_bool_decide|]; cbn; intros [= <-]; done.
Qed.

Lemma unlinked_lines w l w' :
  verify_lines t w l = Ok w' → held_unlinked (walk_held w') = [] → held_unlinked (walk_held w) = [].
Proof.
  revert w. induction l as [|pl l IH]; intros w; cbn; [by intros [= <-]|].
  destruct (verify_step t w pl) as [w1|] eqn:E; [|done]. intros H Hu. eapply unlinked_step; [exact E|]. by eapply IH.
Qed.

(** The record holds as far as these lines go, every repair linked; torn pieces may end it. *)
Definition recoverable lines : Prop :=
  ∀ l, l.*2 = lines → ∃ w, verify_lines t fresh l = Ok w ∧ held_unlinked (walk_held w) = [].

(** The record holds and the next entry chains on [prev]. *)
Definition sound_to lines (prev : string) : Prop :=
  ∀ l, l.*2 = lines → ∃ w, verify_lines t fresh l = Ok w ∧ held_unlinked (walk_held w) = [] ∧
    walk_torn w = None ∧ (lines = [] ∨ walk_prev w = Some prev).

Lemma fmap_snoc_inv l lines line :
  l.*2 = lines ++ [line] → ∃ l' place, l = l' ++ [(place, line)] ∧ l'.*2 = lines.
Proof.
  intros H. apply fmap_app_inv in H as (l1 & l2 & H1 & H2 & ->).
  destruct l2 as [|[place x] [|]]; try done. cbn in H2. simplify_eq. eauto.
Qed.

Lemma sound_recoverable lines prev : sound_to lines prev → recoverable lines.
Proof. intros H l Hl. destruct (H l Hl) as (w & ? & ? & _). eauto. Qed.

Lemma sound_snoc lines prev text value :
  sound_to lines prev → object_of t text = Some value → get_str value "prev" = Some prev →
  sound_to (lines ++ [text]) (hash text).
Proof.
  intros H Hv Hp l (l' & place & -> & Hl')%fmap_snoc_inv. destruct (H l' Hl') as (w & Hw & Hu & Ht & Hprev).
  eexists. rewrite verify_lines_app, Hw. cbn. rewrite Hv, Hp, Ht.
  assert (Hok : (match walk_prev w with
                 | Some p => if bool_decide (prev = p) then Ok (walk_held w) else Err (PrevMismatch place)
                 | None => Ok (walk_held w)
                 end) = Ok (walk_held w)).
  { destruct Hprev as [->| ->]; [|by rewrite bool_decide_true].
    apply fmap_nil_inv in Hl' as ->. cbn in Hw. by simplify_eq. }
  rewrite Hok. cbn. split; [done|]. split; [done|]. split; [done|by right].
Qed.

Lemma recoverable_prefix lines more : recoverable (lines ++ more) → recoverable lines.
Proof.
  intros H l Hl. destruct (H (l ++ ((λ x, ("", x)) <$> more))) as (w & Hw & Hu).
  { rewrite fmap_app, Hl, <- list_fmap_compose. f_equal. by apply list_fmap_id. }
  rewrite verify_lines_app in Hw. destruct (verify_lines t fresh l) as [w1|] eqn:E; [|done]. cbn in Hw.
  exists w1. split; [done|]. by eapply unlinked_lines.
Qed.

Lemma recoverable_torn lines torn : recoverable lines → object_of t torn = None → recoverable (lines ++ [torn]).
Proof.
  intros H Ht l (l' & place & -> & Hl')%fmap_snoc_inv. destruct (H l' Hl') as (w & Hw & Hu).
  eexists. rewrite verify_lines_app, Hw. cbn. rewrite Ht. cbn. by split.
Qed.

(** Two walks over the same lines, the second begun later. *)
Definition later (w w' : Walk) : Prop :=
  (walk_prev w' = None ∨ walk_prev w' = walk_prev w) ∧ held_unlinked (walk_held w') = [] ∧
  match walk_torn w, walk_torn w' with
  | Some r, Some r' => torn_hash r' = torn_hash r
  | Some _, None => walk_prev w' = None
  | None, None => True
  | None, Some _ => False
  end.

Lemma later_step w w' pl w1 :
  later w w' → verify_step t w pl = Ok w1 → held_unlinked (walk_held w1) = [] →
  ∃ w1', verify_step t w' pl = Ok w1' ∧ later w1 w1'.
Proof.
  destruct pl as [place line]. intros (Hprev & Hu' & Htorn). cbn.
  destruct (object_of t line) as [v|].
  - destruct (get_str v "prev") as [stated|]; [|done].
    assert (Hend : ∀ h, held_unlinked h = [] → ∃ w1', Ok (mkWalk (Some (hash line)) None
        (mkHeld (held_entries h + 1) (held_unlinked h))) = Ok (E := VerifyError) w1' ∧
      ∀ k, later (mkWalk (Some (hash line)) None k) w1').
    { intros h Hh. eexists. split; [done|]. intros k. split; [by right|]. by split. }
    destruct (walk_torn w) as [r|], (walk_torn w') as [r'|]; try done.
    + destruct (check_repair _ _ _ r _ _) as [h|] eqn:E; [|done]. cbn. intros [= <-] Hu. cbn in Hu.
      unfold check_repair in *. rewrite Htorn. destruct (negb _ || negb _); [done|].
      destruct (get_str v "last_whole") as [whole|].
      * assert (Hok : (match walk_prev w' with
                       | Some prev => if bool_decide (whole = prev) then Ok (walk_held w') else Err (WrongLastWhole place (torn_place r'))
                       | None => Ok (walk_held w')
                       end) = Ok (walk_held w')).
        { destruct Hprev as [-> | ->]; [done|]. destruct (walk_prev w); [|done]. by case_bool_decide. }
        rewrite Hok. cbn. destruct (Hend (walk_held w') Hu') as (w1' & Hw & Hl). eauto.
      * destruct (walk_prev w), (1 <? torn_lines r)%nat; try done; simplify_eq; cbn in Hu; by apply app_nil in Hu as [? ?].
    + rewrite Htorn. destruct (check_repair _ _ _ r _ _) as [h|]; [|done]. cbn. intros [= <-] _.
      destruct (Hend (walk_held w') Hu') as (w1' & Hw & Hl). eauto.
    + assert (Hok : (match walk_prev w' with
                     | Some prev => if bool_decide (stated = prev) then Ok (walk_held w') else Err (PrevMismatch place)
                     | None => Ok (walk_held w')
                     end) = Ok (walk_held w') ∨ ∃ e, (match walk_prev w with
                     | Some prev => if bool_decide (stated = prev) then Ok (walk_held w) else Err (PrevMismatch place)
                     | None => Ok (walk_held w)
                     end) = Err e).
      { destruct Hprev as [-> | ->]; [by left|]. destruct (walk_prev w); [|by left]. case_bool_decide; [by left|right; by eexists]. }
      destruct Hok as [Hok|[e Hbad]]; [|by rewrite Hbad]. rewrite Hok. cbn.
      destruct (Hend (walk_held w') Hu') as (w1' & Hw & Hl).
      destruct (walk_prev w); [case_bool_decide; [|done]|]; cbn; intros [= <-] _; eauto.
  - intros [= <-] _. cbn. eexists. split; [done|]. split; [done|]. split; [done|]. cbn.
    by destruct (walk_torn w), (walk_torn w').
Qed.

Lemma later_lines w w' l w1 :
  later w w' → verify_lines t w l = Ok w1 → held_unlinked (walk_held w1) = [] →
  ∃ w1', verify_lines t w' l = Ok w1' ∧ later w1 w1'.
Proof.
  revert w w'. induction l as [|pl l IH]; intros w w' Hl; cbn; [intros [= <-]; eauto|].
  destruct (verify_step t w pl) as [w2|] eqn:E; [|done]. intros Hw Hu.
  destruct (later_step _ _ _ _ Hl E) as (w2' & -> & Hl2); [by eapply unlinked_lines|]. by eapply IH.
Qed.

Lemma last_is_prev l place line w :
  verify_lines t fresh (l ++ [(place, line)]) = Ok w → walk_torn w = None → walk_prev w = Some (hash line).
Proof.
  rewrite verify_lines_app. destruct (verify_lines t fresh l) as [w0|]; [|done]. cbn.
  destruct (object_of t line) as [v|]; [|by intros [= <-]]. destruct (get_str v "prev"); [|done].
  destruct (match walk_torn w0 with Some _ => _ | None => _ end); [|done]. by intros [= <-].
Qed.

Lemma last_of l lines x : l.*2 = lines → last lines = Some x → ∃ l' place, l = l' ++ [(place, x)].
Proof.
  intros Hl Hx. destruct lines as [|y lines _] using rev_ind; [done|].
  rewrite last_snoc in Hx. simplify_eq. apply fmap_snoc_inv in Hl as (l' & place & -> & _). eauto.
Qed.

(** A record that ends in a whole entry holds. *)
Lemma sound_whole lines x :
  recoverable lines → last lines = Some x → is_entry t x = true → sound_to lines (hash x).
Proof.
  intros H Hx He l Hl. destruct (H l Hl) as (w & Hw & Hu). destruct (last_of _ _ _ Hl Hx) as (l' & place & ->).
  assert (Ht : walk_torn w = None).
  { rewrite verify_lines_app in Hw. destruct (verify_lines t fresh l') as [w0|]; [|done]. cbn in Hw.
    unfold is_entry in He. apply bool_decide_eq_true in He as [v Hv]. rewrite Hv in Hw.
    destruct (get_str v "prev"); [|done]. destruct (match walk_torn w0 with Some _ => _ | None => _ end); [|done].
    by injection Hw as <-. }
  exists w. do 3 (split; [done|]). right. by eapply last_is_prev.
Qed.

(** A record that ends in torn pieces holds once its repair follows them. *)
Lemma sound_repair lines x text value :
  recoverable lines → last lines = Some x → is_entry t x = false →
  object_of t text = Some value → get_str value "prev" = Some (hash x) →
  get_str value "event" = Some "audit.chain_broken" →
  (∃ whole, get_str value "last_whole" = Some whole ∧ ∀ b, head (newest_first t lines) = Some b → whole = hash b) →
  sound_to (lines ++ [text]) (hash text).
Proof.
  intros H Hx He Hv Hp Hev (whole & Hw & Hb) l (l' & place & -> & Hl')%fmap_snoc_inv.
  destruct (H l' Hl') as (w & Hl & Hu). pose proof Hl as Hprev. apply verify_lines_linked in Hprev as (Hprev & _).
  rewrite Hl' in Hprev. destruct (last_of _ _ _ Hl' Hx) as (l0 & place0 & ->).
  assert (Ht : ∃ run, walk_torn w = Some run ∧ torn_hash run = hash x).
  { rewrite verify_lines_app in Hl. destruct (verify_lines t fresh l0) as [w0|]; [|done]. cbn in Hl.
    unfold is_entry in He. apply bool_decide_eq_false in He. destruct (object_of t x); [by destruct He|].
    injection Hl as <-. cbn. destruct (walk_torn w0); eauto. }
  destruct Ht as (run & Ht & Hh). eexists. rewrite verify_lines_app, Hl. cbn. rewrite Hv, Hp, Ht.
  assert (Hok : check_repair place value (hash x) run (walk_prev w) (walk_held w) = Ok (walk_held w)).
  { unfold check_repair. rewrite Hev, Hw, Hh, !bool_decide_true by done. cbn.
    destruct (walk_prev w) as [p|]; [|done]. destruct (head (newest_first t lines)) as [b|]; [|done].
    cbn in Hprev. injection Hprev as ->. by rewrite (Hb b), bool_decide_true. }
  rewrite Hok. cbn. split; [done|]. split; [done|]. split; [done|by right].
Qed.

(** What is left of a record that holds, its oldest lines gone, holds. *)
Lemma sound_drop n lines prev : sound_to lines prev → sound_to (drop n lines) prev.
Proof.
  intros H l Hl. destruct (H (((λ x, ("", x)) <$> firstn n lines) ++ l)) as (w & Hw & Hu & Ht & Hp).
  { rewrite fmap_app, <- list_fmap_compose, Hl. change (snd ∘ λ x : string, ("", x)) with (@id string).
    by rewrite list_fmap_id, take_drop. }
  rewrite verify_lines_app in Hw. destruct (verify_lines t fresh ((λ x, ("", x)) <$> firstn n lines)) as [w0|]; [|done].
  cbn in Hw. destruct (later_lines w0 fresh l w) as (w' & Hw' & Hl'); [|done..|].
  { split; [by left|]. split; [done|]. by destruct (walk_torn w0). }
  exists w'. destruct Hl' as (_ & Hu' & Htorn). rewrite Ht in Htorn.
  assert (Ht' : walk_torn w' = None) by (by destruct (walk_torn w')). do 3 (split; [done|]).
  destruct l as [|[place line] l _] using rev_ind; [by left|]. right.
  rewrite (last_is_prev _ _ _ _ Hw' Ht'). destruct Hp as [->|Hp]; [by rewrite drop_nil, fmap_app in Hl; destruct (l.*2)|].
  rewrite <- Hp. rewrite verify_lines_app in Hw. destruct (verify_lines t w0 l) as [w2|]; [|done]. cbn in Hw.
  destruct (object_of t line) as [v|]; [|by injection Hw as <-]. destruct (get_str v "prev"); [|done].
  destruct (match walk_torn w2 with Some _ => _ | None => _ end); [|done]. by injection Hw as <-.
Qed.
End Walks.

(** ** The stored chain *)

(** What a store of one chain promises, as [AuditStore] documents it: an append that answers an error
    has none of its lines in the store, a rotation takes the oldest lines, and the tail is the record's.
    [FsAuditStore::append] keeps to it by cutting the file back, and does not look whether the cut
    succeeded: a file that can neither be written nor cut is outside of these laws. *)
Class ChainStore {S} (t : Texts) `{!AuditStore S} (holds : S → list string → Prop) : Prop := {
  chain_one s : store_chain s = (s, One);
  append_law s l seq lines s' x :
    holds s l → store_append seq lines s = (s', x) → holds s' (match x with Ok _ => l ++ lines | Err _ => l end);
  rotate_law s l keep s' x : holds s l → store_rotate keep s = (s', x) → ∃ n, holds s' (drop n l);
  tail_law s l s' x :
    holds s l → store_tail s = (s', x) →
    s' = s ∧ match x with
             | Ok None => l = []
             | Ok (Some tl) =>
                 last l = Some (last_line tl) ∧ is_torn tl = negb (is_entry t (last_line tl)) ∧
                 (is_torn tl = true → last_whole tl = line_hash t <$> head (newest_first t l))
             | Err _ => True
             end;
}.

Section Writer.
Context {S : Type} (t : Texts) `{!AuditStore S} `{!HashIter (string * option string) Slot} `{!JsonTexts t}.
Context (holds : S → list string → Prop) `{!ChainStore t holds}.
Notation hash := (line_hash t).
Implicit Types w : Log S.

Lemma render_read seq time e prev :
  ∃ value, object_of t (render t seq time e prev) = Some value ∧ get_str value "prev" = Some prev ∧
    (∀ k x, k ≠ "prev" → fields e !! k = Some (Text x) → get_str value k = Some x) ∧
    (fields e !! "event" = None → get_str value "event" = Some (event e)).
Proof.
  unfold render. eexists. rewrite object_round_trip. split; [done|]. unfold get_str. split; [|split].
  - by rewrite lookup_insert_eq.
  - intros k x Hk Hf. rewrite lookup_insert_ne by done.
    by erewrite lookup_union_Some_l by (rewrite lookup_fmap, Hf; done).
  - intros Hf. rewrite lookup_insert_ne by done. rewrite lookup_union_r by (rewrite lookup_fmap, Hf; done).
    by rewrite lookup_insert_ne, lookup_insert_eq.
Qed.

(** The store and the batch are one chain that holds, and so is the store alone. *)
Definition chained (w : Log S) : Prop :=
  per_lease w = false ∧ writer_chain (place w) = None ∧
  ∃ l, holds (audit_store w) l ∧
    sound_to t (l ++ (line_text <$> batch (place w))) (writer_prev (place w)) ∧
    (batch (place w) = [] ∨ sound_to t l (batch_start_prev (place w))).

Lemma chained_shared f w : chained w → chained (on_shared f w).
Proof. done. Qed.

Lemma chained_commit w : chained w → chained (commit t w) ∧ batch (place (commit t w)) = [].
Proof.
  intros (Hp & Hc & l & Hl & Hs & Hb). unfold commit, commit_as. case_bool_decide as He.
  { split; [|done]. split; [done|]. split; [done|]. exists l. by split. }
  unfold follow_chain. rewrite Hp. cbn [negb]. destruct (batch (place w)) as [|first rest] eqn:Eb; [done|].
  destruct Hb as [|Hb]; [done|]. unfold store_call.
  destruct (store_append _ _ _) as [st x] eqn:E. apply (append_law _ _ _ _ _ _ Hl) in E. destruct x as [[]|].
  - split; [|done]. split; [done|]. split; [done|]. exists (l ++ (line_text <$> first :: rest)).
    split; [exact E|]. cbn [place on_shared on_place on_store emit clear_batch batch writer_prev]. rewrite app_nil_r. auto.
  - unfold batch_failed. cbn [per_lease on_store]. rewrite Hp. split; [|done]. split; [done|]. split; [done|].
    exists l. split; [exact E|]. cbn. rewrite app_nil_r. auto.
Qed.

Lemma chained_append now e under w : chained w → chained (append t now e under w).
Proof.
  intros (Hp & Hc & l & Hl & Hs & Hb). unfold append.
  set (w1 := on_place _ (on_shared (set_unrecorded 0) w)). assert (H1 : chained w1); [|by case_match; [apply chained_commit|]].
  split; [done|]. split; [done|]. exists l. split; [done|]. cbn. split.
  - rewrite fmap_app, app_assoc. cbn. edestruct render_read as (v & Hv & Hprev & _ & _). eapply sound_snoc; eauto.
  - right. case_bool_decide as He; [|by destruct Hb]. rewrite He in Hs. cbn in Hs. by rewrite app_nil_r in Hs.
Qed.

Lemma chained_fold {X} (f : Log S → X → Log S) (l : list X) w :
  (∀ w x, chained w → chained (f w x)) → chained w → chained (foldl f w l).
Proof. intros Hf. revert w. induction l as [|x l IH]; intros w Hw; [done|]. cbn. auto. Qed.

Lemma chained_write now e under w : chained w → chained (write t now e under w).
Proof.
  intros Hw. unfold write. pose proof Hw as (Hp & _). rewrite Hp. apply chained_append.
  set (max := max_file_bytes (limits w)).
  set (w1 := if (max <=? current_bytes (audit_store w) + batch_bytes (place w))%N then commit t w else w).
  assert (H1 : chained w1 ∧ ((max ≤ current_bytes (audit_store w1))%N → batch (place w1) = [])).
  { subst w1. destruct (N.leb_spec max (current_bytes (audit_store w) + batch_bytes (place w))).
    - destruct (chained_commit w Hw). auto.
    - split; [done|]. lia. }
  destruct H1 as [H1 Hbatch]. destruct (N.leb_spec max (current_bytes (audit_store w1))) as [Hle|]; [|done].
  specialize (Hbatch Hle). unfold store_call. destruct (store_rotate _ _) as [st x] eqn:E.
  assert (H2 : chained (on_store (λ _, st) w1)).
  { destruct H1 as (Hp1 & Hc1 & l & Hl & Hs & _). destruct (rotate_law _ _ _ _ _ Hl E) as [n Hn].
    split; [done|]. split; [done|]. exists (drop n l). split; [done|]. cbn. rewrite Hbatch in *. cbn in *.
    rewrite app_nil_r in *. split; [by apply sound_drop|by left]. }
  destruct x; [|done]. apply chained_fold; [|done]. intros w2 fl. apply chained_append.
Qed.

Lemma chained_flush now second w : chained w → chained (flush_window t now second w).
Proof.
  intros Hw. unfold flush_window. destruct (take_passed _ _) as [m passed]. apply chained_fold; [|done].
  intros w1 kc. apply chained_write.
Qed.

Lemma chained_receive now w : chained w → chained (receive t now w).
Proof.
  intros Hw. unfold receive. destruct (channel (shared w)) as [|m rest]; [done|].
  assert (H1 : chained (on_shared (set_channel rest) w)) by done. revert H1. generalize (on_shared (set_channel rest) w).
  clear w Hw. intros w Hw. destruct m as [e under| |]; unfold handle.
  - cbn [fst]. unfold take_entry. apply chained_write. by destruct (is_refusal e).
  - cbn [fst]. by apply chained_commit, chained_flush.
  - set (w1 := commit t _). assert (H1 : chained w1) by by apply chained_commit, chained_flush.
    destruct (failing (shared w1)); [done|]. pose proof H1 as (Hp & _). by rewrite Hp.
Qed.

Lemma chained_tick now w : chained w → chained (tick t now w).
Proof.
  intros Hw. unfold tick. set (w1 := commit t _). assert (H1 : chained w1) by by apply chained_commit, chained_flush.
  destruct (negb _); [done|]. pose proof H1 as (Hp & _). rewrite Hp. cbn [negb orb].
  set (w2 := commit t _). assert (H2 : chained w2) by by apply chained_commit, chained_append.
  pose proof H2 as (Hp2 & _). by rewrite Hp2.
Qed.

Lemma chained_act w a : chained w → chained (audit_act t w a).
Proof.
  destruct a; cbn [audit_act]; [by apply chained_shared..|apply chained_receive|intros; by apply chained_commit|
    apply chained_tick|intros; by apply chained_commit, chained_flush].
Qed.

Lemma bounded_short x : (String.length x ≤ MAX_TEXT)%nat → bounded x = x.
Proof. intros H. unfold bounded. by rewrite (proj2 (Nat.leb_le _ _) H). Qed.

(** The log of a Server that starts, its repair written. *)
Lemma chained_start now lim st l st' w :
  holds st l → recoverable t l → start t now lim st = (st', Ok w) → failing (shared w) = false →
  (current_bytes st < max_file_bytes lim)%N → chained w.
Proof.
  intros Hl Hr. unfold start. rewrite (chain_one st). destruct (store_tail st) as [st1 x] eqn:Et.
  destruct (tail_law _ _ _ _ Hl Et) as [-> Hx]. destruct x as [[tl|]|]; [| |done].
  2: { intros [= <- <-] _ _. split; [done|]. split; [done|]. exists []. subst l. split; [done|]. cbn. split; [|by left].
       intros l0 ->%fmap_nil_inv. eexists. split; [done|]. split; [done|]. split; [done|by left]. }
  destruct Hx as (Hlast & Htorn & Hwhole). destruct (is_torn tl) eqn:Eh.
  2: { intros [= <- <-] _ _. split; [done|]. split; [done|]. exists l. split; [done|]. cbn. rewrite app_nil_r.
       split; [|by left]. apply sound_whole; [done..|]. by destruct (is_entry t (last_line tl)). }
  set (w0 := mkLog st lim _ _ _ _). intros [= <- <-] Hfail Hbytes. revert Hfail.
  assert (Hpl : per_lease w0 = false) by done.
  assert (Hsmall : (max_file_bytes (limits w0) <=? current_bytes (audit_store w0))%N = false) by by apply N.leb_gt.
  unfold write. rewrite Hpl. change (batch_bytes (place w0)) with 0%N. rewrite N.add_0_r, Hsmall, Hsmall.
  set (whole := default GENESIS (last_whole tl)).
  set (e := with_text "last_whole" whole (entry_new "audit.chain_broken" "recorded")).
  set (text := render t (last_seq tl + 1) now e (hash (last_line tl))).
  assert (Hs : sound_to t (l ++ [text]) (hash text)).
  { destruct (render_read (last_seq tl + 1) now e (hash (last_line tl))) as (v & Hv & Hp & Hf & Hev).
    eapply sound_repair; [exact Hr|exact Hlast| |exact Hv|exact Hp|by apply Hev|].
    - by destruct (is_entry t (last_line tl)).
    - exists whole. split.
      + apply Hf; [done|]. cbn. rewrite bounded_short; [done|]. subst whole. rewrite Hwhole by done.
        destruct (head (newest_first t l)); [apply hash_length|cbn; unfold MAX_TEXT; lia].
      + intros b Hb. subst whole. by rewrite Hwhole, Hb. }
  set (w1 := append _ _ _ _ _).
  assert (H1 : audit_store w1 = st ∧ per_lease w1 = false ∧ failing (shared w1) = false ∧
    place w1 = mkPlace (last_seq tl + 1) (hash text) None
      [mkLine (last_seq tl + 1) text e now 0 None 1] (N.of_nat (String.length text) + 1) (hash (last_line tl))) by done.
  destruct H1 as (Hst & Hp1 & _ & Hplace). unfold commit, commit_as, follow_chain. rewrite Hplace, Hp1. cbn [batch negb].
  rewrite bool_decide_false by done. rewrite Hplace. cbn [batch].
  unfold store_call. rewrite Hst. destruct (store_append _ _ st) as [st2 y] eqn:Ea.
  apply (append_law _ _ _ _ _ _ Hl) in Ea. destruct y as [[]|].
  - intros _. split; [done|]. cbn [place emit on_shared on_place on_store]. rewrite Hplace. split; [done|].
    exists (l ++ [text]). split; [exact Ea|]. cbn. rewrite app_nil_r. auto.
  - unfold batch_failed. cbn. destruct (per_lease w1); done.
Qed.

(** C17: the record holds, whatever happens to it, over a store of one chain in which a failed append
    leaves nothing ([ChainStore]). A Server that starts on a record that is whole, or that ends in what a
    crash left, repairs it with its first write; if that write succeeds and the file it goes into is not
    full, then after whatever decisions, writes that fail, rotations and
    shutdown follow, [verify] accepts the stored record with every entry linked to the one before it;
    and if a crash leaves some of the batch and torn pieces behind, it is a record the next start can
    repair. *)
Theorem record_holds_through_crashes now lim st l0 st' w0 acts :
  holds st l0 → recoverable t l0 → (current_bytes st < max_file_bytes lim)%N →
  start t now lim st = (st', Ok w0) → failing (shared w0) = false →
  let w := foldl (audit_act t) w0 acts in
  ∃ l, holds (audit_store w) l ∧
    (∀ placed, placed.*2 = l → ∃ h, verify t placed = Ok h ∧ held_unlinked h = []) ∧
    (∀ k torn, Forall (λ x, object_of t x = None) torn →
       recoverable t (l ++ firstn k (line_text <$> batch (place w)) ++ torn)).
Proof.
  intros Hl Hr Hb Hs Hf w.
  assert (Hw : chained w).
  { apply chained_fold; [intros; by apply chained_act|]. by eapply chained_start. }
  destruct Hw as (_ & _ & l & Hst & Hso & Hbatch). exists l. split; [done|].
  assert (Hrec : recoverable t (l ++ (line_text <$> batch (place w)))) by by eapply sound_recoverable.
  split.
  - intros placed Hp. assert (Hs' : ∃ prev, sound_to t l prev).
    { destruct Hbatch as [Hnil|]; [|by eexists]. rewrite Hnil in Hso. cbn in Hso. rewrite app_nil_r in Hso. by eexists. }
    destruct Hs' as [prev Hs']. destruct (Hs' placed Hp) as (v & Hv & Hu & Ht & _).
    exists (walk_held v). unfold verify. by rewrite Hv, <- Hu; cbn; rewrite Ht.
  - intros k torn Ht. rewrite app_assoc.
    assert (Hk : recoverable t (l ++ firstn k (line_text <$> batch (place w)))).
    { eapply (recoverable_prefix _ _ (skipn k (line_text <$> batch (place w)))).
      by rewrite <- app_assoc, firstn_skipn. }
    revert Hk. generalize (l ++ firstn k (line_text <$> batch (place w))). clear -Ht.
    induction Ht as [|x torn Hx _ IH]; intros lines Hk; [by rewrite app_nil_r|].
    rewrite cons_middle, app_assoc. by apply IH, recoverable_torn.
Qed.
End Writer.
