(* ===== verification/AuditCounts.v ===== *)
(** * What the audit record tells

    Every decision asked of the record is written, is told in a written line as unrecorded, or still
    waits; every refusal past the allowance is in an aggregate taken for writing or still counted. *)

From S2P Require Import Prelude RustStr Rate AuditLog AuditChain AuditWriter.

Open Scope string_scope.
Open Scope list_scope.
Open Scope N_scope.

(** ** Decisions *)

(** The events the writer tells of itself. *)
Definition writer_event (ev : string) : bool :=
  bool_decide (ev ∈ ["audit.rotated"; "audit.resumed"; "audit.chain_broken"; "audit.chain_closed"])
  || ends_with ".aggregated" ev.

(** The decisions a line stands for: its own, unless the writer tells of itself, and those it tells
    went unrecorded. *)
Definition weight (l : Line) : N :=
  ((if writer_event (event (line_entry l)) then 0 else 1) + line_unrecorded l)%N.

Fixpoint weights (l : list Line) : N := match l with [] => 0 | x :: l => weight x + weights l end.

Fixpoint waiting (l : list Message) : N :=
  match l with
  | [] => 0
  | MEntry _ _ :: l => 1 + waiting l
  | _ :: l => waiting l
  end.

Lemma weights_app l1 l2 : weights (l1 ++ l2) = (weights l1 + weights l2)%N.
Proof. induction l1 as [|x l1 IH]; cbn; [done|]. rewrite IH. lia. Qed.

Lemma waiting_app l1 l2 : waiting (l1 ++ l2) = (waiting l1 + waiting l2)%N.
Proof. induction l1 as [|[] l1 IH]; cbn; rewrite ?IH; lia. Qed.

Section Counts.
Context {S : Type} (t : Texts) `{!AuditStore S} `{!HashIter (string * option string) Slot}.
Implicit Types w : Log S.

(** What is written, what waits, and what is counted to be told. *)
Definition accounted w : N :=
  (weights (emitted w) + weights (batch (place w)) + unrecorded (shared w) + waiting (channel (shared w)))%N.

(** A log of one chain whose batch, if lost, is told in full. *)
Definition honest w : Prop :=
  per_lease w = false ∧ Forall (λ l, (weight l ≤ line_lost l)%N) (batch (place w)) ∧
  Forall (λ m, match m with MEntry e _ => writer_event (event e) = false | _ => True end) (channel (shared w)).

Definition grows (k : N) w w' : Prop := honest w → honest w' ∧ (accounted w + k ≤ accounted w')%N.

Lemma grows_refl w : grows 0 w w.
Proof. intros H. split; [done|]. lia. Qed.

Lemma grows_store f w : grows 0 w (on_store f w).
Proof. intros H. split; [exact H|]. unfold accounted. cbn. lia. Qed.

Lemma grows_window m w : grows 0 w (on_shared (set_window m) w).
Proof. intros H. split; [exact H|]. unfold accounted. cbn. lia. Qed.

Lemma grows_trans a b c w1 w2 w3 : grows a w1 w2 → grows b w2 w3 → (c ≤ a + b)%N → grows c w1 w3.
Proof. intros H1 H2 Hc H. destruct (H1 H) as [H' ?]. destruct (H2 H') as [? ?]. split; [done|]. lia. Qed.

Lemma grows_fold {X} (f : Log S → X → Log S) (l : list X) w : (∀ w x, grows 0 w (f w x)) → grows 0 w (foldl f w l).
Proof.
  intros Hf. revert w. induction l as [|x l IH]; intros w; [apply grows_refl|]. cbn.
  by eapply grows_trans; [apply Hf|apply IH|].
Qed.

Lemma weights_lost l : Forall (λ l, (weight l ≤ line_lost l)%N) l → (weights l ≤ sum_lost l)%N.
Proof. unfold sum_lost. induction 1; cbn; lia. Qed.

Lemma grows_commit w : grows 0 w (commit t w).
Proof.
  intros (Hp & Hb & Hc). unfold commit, commit_as. case_bool_decide as He; [split; [done|lia]|].
  unfold follow_chain. rewrite Hp. cbn [negb]. destruct (batch (place w)) as [|first rest] eqn:Eb; [done|].
  unfold store_call. destruct (store_append _ _ _) as [st [[]|]].
  - split; [by split|]. unfold accounted. rewrite Eb. cbn [emitted emit place on_place on_shared on_store clear_batch batch shared set_failing unrecorded channel].
    rewrite weights_app. cbn [weights sum_lost foldr]. lia.
  - unfold batch_failed. cbn [per_lease on_store]. rewrite Hp. split; [by split|].
    pose proof (weights_lost _ Hb). unfold accounted. cbn [emitted place on_place on_shared on_store batch shared set_failing set_unrecorded unrecorded channel].
    rewrite Eb. cbn [weights sum_lost foldr] in *. lia.
Qed.

Lemma grows_append now e under w :
  grows (if writer_event (event e) then 0 else 1) w (append t now e under w).
Proof.
  unfold append. set (w1 := on_place _ (on_shared (set_unrecorded 0) w)).
  assert (H1 : grows (if writer_event (event e) then 0 else 1) w w1).
  { intros (Hp & Hb & Hc). split.
    - split; [done|]. split; [|done]. apply Forall_app. split; [done|]. constructor; [|done]. unfold weight. cbn.
      destruct (bool_decide_reflect (event e = "audit.resumed")) as [->|].
      { change (writer_event "audit.resumed") with true. cbn. lia. }
      destruct (writer_event (event e)); lia.
    - assert (Hw : ∃ l, accounted w1 = (weights (emitted w) + weights (batch (place w) ++ [l]) + 0 + waiting (channel (shared w)))%N ∧
        weight l = ((if writer_event (event e) then 0 else 1) + unrecorded (shared w))%N) by by eexists.
      destruct Hw as (l & -> & Hl). unfold accounted. rewrite weights_app. cbn [weights]. rewrite Hl. lia. }
  clearbody w1. destruct (_ && _); [|exact H1]. eapply grows_trans; [exact H1|apply grows_commit|lia].
Qed.

Lemma grows_write now e under w : grows (if writer_event (event e) then 0 else 1) w (write t now e under w).
Proof.
  unfold write. destruct (per_lease w) eqn:Hp; [intros (? & _); congruence|].
  set (w1 := if (_ <=? current_bytes (audit_store w) + _)%N then commit t w else w).
  assert (H1 : grows 0 w w1) by (subst w1; case_match; [apply grows_commit|apply grows_refl]).
  eapply grows_trans; [exact H1| |apply N.le_refl].
  eapply (grows_trans 0); [|apply grows_append|lia]. case_match; [|apply grows_refl].
  unfold store_call. destruct (store_rotate _ _) as [st [deleted|]]; [|apply grows_store].
  eapply (grows_trans 0 0); [apply grows_store|apply grows_fold; intros w2 fl; apply (grows_append now)|lia].
Qed.

Lemma grows_flush now second w : grows 0 w (flush_window t now second w).
Proof.
  unfold flush_window. destruct (take_passed _ _) as [m passed].
  eapply (grows_trans 0 0); [apply grows_window|apply grows_fold; intros w2 [[ev peer] n]|lia].
  - assert (He : ∀ e, ends_with ".aggregated" (event e) = true → grows 0 w2 (write t now e None w2)).
    { intros e He. pose proof (grows_write now e None w2) as Hw. unfold writer_event in Hw. by rewrite He, orb_true_r in Hw. }
    apply He. cbn. destruct peer; apply ends_with_app.
Qed.

Lemma grows_receive now w : grows 0 w (receive t now w).
Proof.
  unfold receive. destruct (channel (shared w)) as [|m rest] eqn:Ec; [apply grows_refl|].
  set (w1 := on_shared (set_channel rest) w).
  assert (Hflush : grows 0 w1 (commit t (flush_window t now u64_max w1))).
  { eapply (grows_trans 0 0); [apply grows_flush|apply grows_commit|lia]. }
  intros (Hp & Hb & Hc). rewrite Ec in Hc. apply Forall_cons in Hc as [Hm Hc].
  assert (H1 : honest w1) by by split.
  assert (Ha : accounted w = accounted w1 + waiting [m]).
  { unfold accounted. rewrite Ec. change (m :: rest) with ([m] ++ rest). rewrite waiting_app. cbn [w1 emitted place shared on_shared set_channel unrecorded channel]. lia. }
  destruct m as [e under| |]; unfold handle; cbn [fst].
  - unfold take_entry. set (w2 := if is_refusal e then _ else w1).
    assert (H2 : honest w2 ∧ accounted w2 = accounted w1) by (subst w2; by destruct (is_refusal e)).
    destruct H2 as [H2 Ha2]. destruct (grows_write now e under w2 H2) as [H3 Ha3]. rewrite Hm in Ha3.
    split; [done|]. cbn in Ha. lia.
  - destruct (Hflush H1). split; [done|]. cbn in Ha. lia.
  - set (w2 := commit t _) in *. destruct (Hflush H1) as [H2 Ha2].
    assert (Hend : ((if failing (shared w2) then (w2, Some false) else
      if negb (per_lease w2) then (w2, Some true) else
      let (w3, closed) := close_chain t now w2 in (w3, Some closed)).1) = w2).
    { destruct (failing (shared w2)); [done|]. destruct H2 as (Hp2 & _). by rewrite Hp2. }
    rewrite Hend. split; [done|]. cbn in Ha. lia.
Qed.

Lemma grows_tick now w : grows 0 w (tick t now w).
Proof.
  unfold tick. set (w1 := commit t _).
  assert (H1 : grows 0 w w1) by (eapply (grows_trans 0 0); [apply grows_flush|apply grows_commit|lia]).
  destruct (negb _); [done|]. intros Hw. destruct (H1 Hw) as [H1' Ha1]. pose proof H1' as (Hp1 & _). rewrite Hp1.
  cbn [negb orb]. set (w2 := commit t _).
  assert (H2 : grows 0 w1 w2) by (eapply (grows_trans 0 0); [exact (grows_append now (entry_new "audit.resumed" "recorded") None w1)|apply grows_commit|lia]).
  destruct (H2 H1') as [H2' Ha2]. pose proof H2' as (Hp2 & _). rewrite Hp2. cbn [andb]. split; [done|]. lia.
Qed.

(** The decisions a step asks to be recorded: one, unless it is counted for an aggregate. *)
Definition asked w (a : AuditAct) : N :=
  match a with
  | DoRecord now _ e =>
      if negb (failing (shared w)) && is_refusal e
         && bool_decide ((count_refusal (refusal_key t e) (now / 1000) (window (shared w))).2 = Aggregated)
      then 0 else 1
  | _ => 0
  end.

Fixpoint asked_in w (acts : list AuditAct) : N :=
  match acts with
  | [] => 0
  | a :: acts => asked w a + asked_in (audit_act t w a) acts
  end.

Definition tells_of_others (a : AuditAct) : Prop :=
  match a with DoRecord _ _ e => writer_event (event e) = false | _ => True end.

Lemma try_send_grows m s s' b :
  try_send m s = (s', b) →
  unrecorded s' = unrecorded s ∧ failing s' = failing s ∧
  channel s' = channel s ++ (if b then [m] else []).
Proof. unfold try_send. destruct (_ <? _); intros [= <- <-]; [done|]. by rewrite app_nil_r. Qed.

Lemma grows_record now under e w :
  writer_event (event e) = false → grows (asked w (DoRecord now under e)) w (audit_act t w (DoRecord now under e)).
Proof.
  intros He (Hp & Hb & Hc). cbn [audit_act asked].
  assert (Hend : ∀ s k, (∃ l, channel s = channel (shared w) ++ l ∧
      Forall (λ m, match m with MEntry e _ => writer_event (event e) = false | _ => True end) l ∧
      unrecorded (shared w) + k ≤ unrecorded s + waiting l) →
    honest (on_shared (λ _, s) w) ∧ accounted w + k ≤ accounted (on_shared (λ _, s) w)).
  { intros s k (l & Hl & Hf & Hk). split.
    - split; [done|]. split; [done|]. cbn. rewrite Hl. by apply Forall_app.
    - unfold accounted. cbn. rewrite Hl, waiting_app. lia. }
  unfold on_shared. change (mkLog _ _ _ _ ((record t now under e (shared w)).1) _)
    with (on_shared (λ _, (record t now under e (shared w)).1) w). apply Hend. clear Hend.
  unfold record. destruct (failing (shared w)) eqn:Hfail; cbn [negb andb].
  { exists []. cbn. rewrite app_nil_r. split; [done|]. split; [done|]. lia. }
  assert (Hsend : ∀ s, unrecorded s = unrecorded (shared w) → channel s = channel (shared w) →
    ∀ s' b, try_send (MEntry e under) s = (s', b) →
    ∃ l, channel (if b then s' else count_unrecorded s') = channel (shared w) ++ l ∧
      Forall (λ m, match m with MEntry e _ => writer_event (event e) = false | _ => True end) l ∧
      unrecorded (shared w) + 1 ≤ unrecorded (if b then s' else count_unrecorded s') + waiting l).
  { intros s Hu Hch s' b (Hu' & _ & Hc')%try_send_grows. exists (if b then [MEntry e under] else []).
    destruct b; cbn; rewrite Hc', Hch; (split; [done|]); (split; [by repeat constructor|]); lia. }
  destruct (is_refusal e); cbn [negb andb].
  2: { destruct (try_send _ _) as [s' b] eqn:E. apply Hsend in E; [|done..]. by destruct b. }
  destruct (count_refusal _ _ _) as [m counted]. cbn [snd].
  assert (Hun : ∃ l, channel (count_unrecorded (set_window m (shared w))) = channel (shared w) ++ l ∧
      Forall (λ m, match m with MEntry e _ => writer_event (event e) = false | _ => True end) l ∧
      unrecorded (shared w) + 1 ≤ unrecorded (count_unrecorded (set_window m (shared w))) + waiting l).
  { exists []. cbn. rewrite app_nil_r. split; [done|]. split; [done|]. lia. }
  destruct counted.
  - rewrite bool_decide_false by done. destruct (_ <=? _); [exact Hun|].
    destruct (try_send _ _) as [s' b] eqn:E. apply Hsend in E; [|done..]. by destruct b.
  - rewrite bool_decide_true by done. exists []. cbn. rewrite app_nil_r. split; [done|]. split; [done|]. lia.
  - rewrite bool_decide_false by done. exact Hun.
Qed.

Lemma grows_act w a : tells_of_others a → grows (asked w a) w (audit_act t w a).
Proof.
  destruct a; cbn [tells_of_others asked audit_act]; intros Ha.
  - by apply (grows_record now_ms under e w).
  - intros (Hp & Hb & Hc). unfold on_shared. destruct (try_send MDrain (shared w)) as [s' b] eqn:E.
    apply try_send_grows in E as (Hu & _ & Hch). split.
    + split; [done|]. split; [done|]. cbn. rewrite Hch. apply Forall_app. split; [done|]. by destruct b; repeat constructor.
    + unfold accounted. cbn. rewrite Hu, Hch, waiting_app. lia.
  - intros (Hp & Hb & Hc). unfold on_shared. destruct (try_send MClose (shared w)) as [s' b] eqn:E.
    apply try_send_grows in E as (Hu & _ & Hch). split.
    + split; [done|]. split; [done|]. cbn. rewrite Hch. apply Forall_app. split; [done|]. by destruct b; repeat constructor.
    + unfold accounted. cbn. rewrite Hu, Hch, waiting_app. lia.
  - apply grows_receive.
  - apply grows_commit.
  - apply grows_tick.
  - eapply (grows_trans 0 0); [apply grows_flush|apply grows_commit|lia].
Qed.

(** No decision goes untold. On a store of one chain, of the decisions recorded since the log
    was [w0] — refusals that are counted for an aggregate apart — each is in a line that was written,
    is counted in the [unrecorded_before] of one or in the count the next will tell, or waits in the
    channel or the batch, whatever writes failed and whichever decisions were answered as
    unavailable. *)
Theorem decisions_are_told w0 acts :
  honest w0 → Forall tells_of_others acts →
  let w := foldl (audit_act t) w0 acts in
  honest w ∧ accounted w0 + asked_in w0 acts ≤ accounted w.
Proof.
  intros Hw Hacts. revert w0 Hw. induction Hacts as [|a acts Ha Hacts IH]; intros w0 Hw; cbn; [split; [done|lia]|].
  destruct (grows_act w0 a Ha Hw) as [H1 Hle]. destruct (IH _ H1) as [H2 Hle2]. split; [done|]. lia.
Qed.
End Counts.
