(* ===== verification/AuditSamples.v ===== *)
(** * The audit record at work

    A store in memory and a concrete text of JSON: what the theorems about the record say of a log
    that runs. *)

From S2P Require Import Prelude RustStr Rate Fs AuditLog AuditChain AuditWriter AuditCounts.

Open Scope string_scope.
Open Scope list_scope.
Open Scope N_scope.

#[export] Instance Value_eq_dec : EqDecision Value.
Proof. solve_decision. Defined.
#[export] Instance Value_countable : Countable Value.
Proof.
  refine (inj_countable' (λ v, match v with
            | VText s => inl s | VUnsigned n => inr (inl n) | VNegative z => inr (inr (inl z))
            | VOther => inr (inr (inr tt))
            end)
          (λ c, match c with
            | inl s => VText s | inr (inl n) => VUnsigned n | inr (inr (inl z)) => VNegative z
            | inr (inr (inr tt)) => VOther
            end) _); by intros [].
Defined.

(** A short digest of a text, to stand for the hash. *)
Fixpoint digest (x : string) (acc : N) : N :=
  match x with
  | EmptyString => acc
  | String c x => digest x (N.land (acc * 31 + N_of_ascii c + 7) 1073741823)
  end.

Definition sample_texts : Texts :=
  mkTexts (λ x, bits_of (N.succ_pos (digest x 5))) (λ ms, "t") write_code read_code (λ _, None) (λ _, "").

Lemma bits_of_length p n : N.pos p < 2 ^ N.of_nat n → (String.length (bits_of p) ≤ n)%nat.
Proof.
  revert n. induction p as [p IH|p IH|]; intros n Hp; cbn; [| |lia]; (destruct n as [|n]; [cbn in Hp; lia|]);
    apply le_n_S, IH; rewrite Nnat.Nat2N.inj_succ, N.pow_succ_r' in Hp; lia.
Qed.

Lemma digest_bound x acc : acc < 1073741824 → digest x acc < 1073741824.
Proof.
  revert acc. induction x as [|c x IH]; intros acc H; cbn; [done|]. apply IH.
  change 1073741823 with (N.ones 30). rewrite N.land_ones. by apply N.mod_lt.
Qed.

#[export] Instance sample_json : JsonTexts sample_texts.
Proof.
  split; [apply read_write_code|]. intros x. cbn. pose proof (digest_bound x 5 eq_refl).
  apply (Nat.le_trans _ 31); [|unfold MAX_TEXT; lia]. apply bits_of_length. change (2 ^ N.of_nat 31) with 2147483648. rewrite N.succ_pos_spec. lia.
Qed.

(** A store in memory: the lines, and the outcomes of the writes to come. *)
Record Memory := mkMemory {
  mem_lines : list string;
  mem_outcomes : list bool;
}.

#[export] Instance memory_store : AuditStore Memory := {|
  store_chain s := (s, One);
  store_close _ _ s := (s, Err tt);
  store_stored _ _ s := (s, Ok []);
  store_tail s := (s, Ok (
    match last (mem_lines s) with
    | None => None
    | Some x =>
        let torn := negb (is_entry sample_texts x) in
        Some (mkTail x (N.of_nat (length (mem_lines s))) torn
          (if torn then line_hash sample_texts <$> head (newest_first sample_texts (mem_lines s)) else None))
    end));
  store_append _ lines s :=
    match mem_outcomes s with
    | false :: rest => (mkMemory (mem_lines s) rest, Err tt)
    | _ => (mkMemory (mem_lines s ++ lines) (tail (mem_outcomes s)), Ok tt)
    end;
  current_bytes s := N.of_nat (length (mem_lines s)) * 1000;
  store_rotate _ s := (mkMemory (drop 3 (mem_lines s)) (mem_outcomes s), Ok [("audit-1.jsonl", default "" (mem_lines s !! 2%nat))]);
|}.

#[export] Instance memory_chain : ChainStore sample_texts (λ s l, mem_lines s = l).
Proof.
  split.
  - done.
  - intros s l seq lines s' x <-. unfold store_append. cbn. destruct (mem_outcomes s) as [|[] rest]; by intros [= <- <-].
  - intros s l keep s' x <-. unfold store_rotate. cbn. intros [= <- <-]. by exists 3%nat.
  - intros s l s' x <- [= <- <-]. split; [done|]. destruct (last (mem_lines s)) as [x|] eqn:Hx; [|by apply last_None].
    cbn. split; [done|]. split; [done|]. by intros ->.
Qed.

Definition sample_limits : Limits := mkLimits 6000 3.

Definition refused_sign_in (peer : string) : Entry := with_text "peer" peer (entry_new "operator.sign_in" "refused").
Definition approved (host : string) : Entry := with_text "host" host (entry_new "enrolment.approved" "recorded").

Notation run := (foldl (audit_act sample_texts)).

Definition started_with (lim : Limits) (s : Memory) : Log Memory :=
  match (start sample_texts 1000 lim s).2 with
  | Ok w => w
  | Err _ => mkLog s lim false (mkPlace 0 "" None [] 0 "") (mkShared ∅ 0 false 0 []) []
  end.
Notation started := (started_with sample_limits).

(** The first two decisions are queued and lost with their batch, the third is answered as
    unavailable, the record resumes, and the four that follow are written, the oldest lines rotated
    away before the last of them. *)
Definition repaired_run : list AuditAct :=
  [DoRecord 1000 None (approved "a"); DoRecord 1001 None (approved "b"); DoReceive 1002; DoReceive 1003; DoCommit;
   DoRecord 1004 None (approved "c"); DoTick 1005] ++
  concat ((λ h, [DoRecord 1100 None (approved h); DoReceive 1101; DoCommit]) <$> ["d"; "e"; "f"; "g"]) ++
  [DoTick 2100; DoStop 3000].

Definition torn_store : Memory := mkMemory ["x"] [true; false].

(** ** What the theorems say of runs *)

Lemma x_is_torn : object_of sample_texts "x" = None.
Proof. by vm_compute. Qed.

Lemma torn_recoverable : recoverable sample_texts ["x"].
Proof. apply (recoverable_torn _ [] "x"); [|apply x_is_torn]. intros l ->%fmap_nil_inv. by eexists. Qed.

Lemma collision_free_decides lines :
  Forall (λ x, Forall (λ y, line_hash sample_texts x = line_hash sample_texts y → x = y) lines) lines →
  collision_free sample_texts lines.
Proof. intros H x y Hx Hy. rewrite Forall_forall in H. specialize (H x Hx). rewrite Forall_forall in H. auto. Qed.

Lemma record_holds_through_crashes_witness :
  let w := run (started torn_store) repaired_run in
  ∃ l, mem_lines (audit_store w) = l ∧
    (∀ placed, placed.*2 = l → ∃ h, verify sample_texts placed = Ok h ∧ held_unlinked h = []) ∧
    (∀ k torn, Forall (λ x, object_of sample_texts x = None) torn →
       recoverable sample_texts (l ++ firstn k (line_text <$> batch (place w)) ++ torn)).
Proof.
  apply (record_holds_through_crashes sample_texts (λ s l, mem_lines s = l) 1000 sample_limits torn_store ["x"]
           (start sample_texts 1000 sample_limits torn_store).1).
  - done.
  - apply torn_recoverable.
  - by vm_compute.
  - by vm_compute.
  - by vm_compute.
Defined.

Lemma decisions_are_told_witness :
  let w := run (started torn_store) repaired_run in
  honest w ∧ accounted (started torn_store) + asked_in sample_texts (started torn_store) repaired_run ≤ accounted w.
Proof.
  apply (decisions_are_told sample_texts (started torn_store) repaired_run).
  - repeat split; vm_compute; constructor.
  - repeat constructor.
Defined.

(** The first lines of a record are rotated away while it is read: what is left agrees with it. *)
Definition whole_record : list (string * string) :=
  pair "" <$> mem_lines (audit_store (run (started (mkMemory ["x"] [])) (firstn 13 repaired_run))).

Lemma records_that_hold_agree_witness :
  newest_first sample_texts (drop 2 whole_record).*2 `prefix_of` newest_first sample_texts whole_record.*2.
Proof.
  eapply (records_that_hold_agree sample_texts (drop 2 whole_record) whole_record).
  - vm_compute. reflexivity.
  - vm_compute. reflexivity.
  - reflexivity.
  - reflexivity.
  - apply collision_free_decides. apply (bool_decide_unpack _). vm_compute. exact I.
  - vm_compute. reflexivity.
  - vm_compute. reflexivity.
  - vm_compute. discriminate.
Defined.

(** A chain of a lease: opened, one entry, closed. *)
Fixpoint lease_chain (seq : N) (prev : string) (entries : list Entry) : list (N * string) :=
  match entries with
  | [] => []
  | e :: entries =>
      let text := render sample_texts seq 0 (with_text "chain" "c1" e) prev in
      (seq, text) :: lease_chain (seq + 1) (line_hash sample_texts text) entries
  end.

Definition closed_chain : list (N * string) :=
  lease_chain 1 GENESIS [entry_new "audit.chain_opened" "recorded"; approved "a"; entry_new "audit.chain_closed" "recorded"].

Definition closing_hash : string := line_hash sample_texts (default "" (snd <$> last closed_chain)).
Definition closed_walk : Walked := mkWalked 3 (mkLast 3 closing_hash "audit.chain_closed" "t") true None.

Lemma closed_chains_are_whole_witness :
  walk sample_texts "c1" [] closed_chain (Some closing_hash) = Ok closed_walk ∧
  closed_chain = closed_chain ∧ walked_entries closed_walk = N.of_nat (length closed_chain).
Proof.
  assert (H : walk sample_texts "c1" [] closed_chain (Some closing_hash) = Ok closed_walk) by (vm_compute; reflexivity).
  split; [exact H|]. apply (closed_chains_are_whole sample_texts "c1" closed_chain closed_chain closing_hash closed_walk closed_walk H H).
  apply collision_free_decides. apply (bool_decide_unpack _). vm_compute. exact I.
Defined.

(** ** Where the record does not hold *)

(** A record of five entries whose sixth line was torn by a crash. *)
Definition full_record : Memory :=
  mkMemory (mem_lines (audit_store (run (started (mkMemory [] []))
    (concat ((λ h, [DoRecord 1100 None (approved h); DoReceive 1101; DoCommit]) <$> ["a"; "b"; "c"; "d"; "e"])))) ++ ["x"]) [].

Definition checked (w : Log Memory) : result Held VerifyError := verify sample_texts (pair "" <$> mem_lines (audit_store w)).

(** A repair can be lost or come too late. A Server that starts on a record a crash has torn
    writes its [audit.chain_broken] once. Where that first write fails, the next write chains
    [audit.resumed] on the torn line instead; and where the newest file is full, a rotation tells
    what it deleted before the repair. Either way every later write succeeds, [verify] refuses the
    record, and the next start finds nothing to repair. *)
Theorem repair_lost_or_late :
  let lost := run (started (mkMemory ["x"] [false])) [DoTick 1005; DoRecord 1006 None (approved "a"); DoReceive 1007; DoCommit] in
  let late := run (started full_record) [DoRecord 1006 None (approved "a"); DoReceive 1007; DoCommit] in
  Forall (λ w : Log Memory,
    failing (shared w) = false ∧ batch (place w) = [] ∧ checked w = Err (NotRepaired "") ∧
    checked (started (audit_store w)) = Err (NotRepaired "")) [lost; late].
Proof. cbv zeta. repeat constructor; vm_compute; reflexivity. Qed.

(** Twelve refusals of one peer in one second, of which two are counted for an aggregate. *)
Definition flood : list AuditAct :=
  repeat (DoRecord 1500 None (refused_sign_in "10.0.0.1")) 12 ++ repeat (DoReceive 1501) 10 ++ [DoCommit].

(** An aggregate whose write fails takes its count with it. Of twelve refusals of one peer in a
    second, ten entries are written and an aggregate of the other two; where the write of the aggregate
    fails, the record tells one decision as unrecorded and the two refusals nowhere. *)
Theorem lost_aggregate_drops_its_count :
  let told (outcomes : list bool) :=
    (λ l, (event (line_entry l), fields (line_entry l) !! "count", line_unrecorded l)) <$>
      drop 10 (emitted (run (started_with (mkLimits 1000000 3) (mkMemory [] outcomes)) (flood ++ [DoTick 2500; DoTick 3500]))) in
  told [] = [("operator.sign_in.aggregated", Some (Unsigned 2), 0)] ∧
  told [true; false] = [("audit.resumed", None, 1)].
Proof. split; vm_compute; reflexivity. Qed.
