(* ===== verification/Pins.v ===== *)
(** * Nothing an assignment pins is lost

    An Agent's assignment names each of its Configurations by the hash of one revision, and every
    offer is composed from it. This file shows that no act of [fleet-server/src/fleet.rs] — a save, a
    rollout, the collection after it, a deletion, a change of a Deployment — leaves an assignment that
    names a revision the Server does not hold, in memory or in its store. It is proved against the two
    ports, [ConfigBackendSpec] and [AgentStoreSpec], for a Server that alone writes its store. *)

From S2P Require Import Prelude RustStr Proto Packages Labels Deployments Configs Offers Agents Placement Rollouts.

Open Scope string_scope.
Open Scope list_scope.

Section Pins.
Context {B D : Type} `{!ConfigBackend B} `{!AgentStore B} `{!DeploymentBackend D}.
Context (config_stored : B → gmap string Configuration → Prop).
Context (agents_stored : B → gmap (list N) PersistedAgent → Prop).
Context `{!ConfigBackendSpec config_stored} `{!AgentStoreSpec config_stored agents_stored}.
Context (sha256 : list N → list N) (hex_encode : list N → string) (codecs : Codecs).
Context (elsewhere : gmap (list N) AgentRecord → Group → list (Uid * gmap string string)).
Implicit Types s : AppState B D.
Implicit Types cs : ConfigStore B.
Implicit Types m : gmap (list N) PersistedAgent.
Implicit Types cfg : gmap string Configuration.

Notation hash := (revision_hash sha256 hex_encode).

(** The revision of every pin is retained under its hash. *)
Definition pinned_in cfg (a : Assignment) : Prop :=
  ∀ n h, a_configurations a !! n = Some h →
    ∃ c r, cfg !! n = Some c ∧ retained c !! h = Some r ∧ hash r = h.

Definition pins_ok m cfg : Prop :=
  ∀ u p a, m !! u = Some p → p_assignment p = Some a → pinned_in cfg a.

(** The store holds the records [m], and both it and memory retain what they pin. *)
Definition stored_ok cs m : Prop :=
  ∃ cfg, config_stored (config_backend cs) cfg ∧ agents_stored (config_backend cs) m ∧
    names_match cs ∧ pins_ok m cfg ∧ pins_ok m (configs cs).

(** Every record held is stored with its assignment. *)
Definition held_ok (f : gmap (list N) AgentRecord) m : Prop :=
  ∀ u r, f !! u = Some r → ∃ p, m !! u = Some p ∧ p_assignment p = r_assignment r.

Definition integrity s : Prop := ∃ m, stored_ok (store s) m ∧ held_ok (fleet s) m.

(** ** Collecting *)

(** A Configuration whose retained revisions may shrink, down to what is pinned. *)
Lemma pins_ok_collected m cfg cfg' n c kept :
  pins_ok m cfg → cfg' !! n = Some (with_retained kept c) →
  (∀ k, k ≠ n → cfg' !! k = cfg !! k) →
  (∀ u p a h, m !! u = Some p → p_assignment p = Some a → a_configurations a !! n = Some h →
     ∃ r, kept !! h = Some r ∧ hash r = h) →
  pins_ok m cfg'.
Proof.
  intros Hok Hn Hother Hkept u p a Hu Ha k h Hk. destruct (decide (k = n)) as [->|Hne].
  - destruct (Hkept u p a h Hu Ha Hk) as (r & Hr & Hh). eexists _, r. by rewrite Hn.
  - rewrite Hother by done. by eapply Hok.
Qed.

Lemma collect_one_ok cs m n : stored_ok cs m → stored_ok (collect_one cs n) m.
Proof.
  intros (cfg & Hcfg & Hags & Hn & Hok & Hmem). unfold collect_one.
  set (hs := agents_referenced_revisions n (config_backend cs)).
  assert (Hhs : ∀ u p a h, m !! u = Some p → p_assignment p = Some a →
    a_configurations a !! n = Some h → h ∈ hs).
  { intros u p a h Hu Ha Hh. apply (agents_referenced_law (agents_stored := agents_stored) _ m n h Hags). eauto 10. }
  assert (Hview : names_match (retain_only n hs cs).1).
  { eapply names_match_view; [|exact Hn]. symmetry. apply retain_only_view. }
  revert Hview. unfold retain_only, eff_bind, held, through, hold, eff_ret.
  destruct (configs cs !! n) as [c|] eqn:Ec; cycle 1.
  { intros _. by exists cfg. }
  destruct (config_collect n hs (config_backend cs)) as [b x] eqn:E.
  pose proof (agents_config_collect (config_stored := config_stored) _ _ _ _ _ _ Hags E) as Hags'.
  destruct (cfg !! n) as [c0|] eqn:Ec0.
  - eapply config_collect_law in E as (kept & Hkept & _ & HOk & HErr); [|done..].
    assert (Hkeep : ∀ u p a h, m !! u = Some p → p_assignment p = Some a →
      a_configurations a !! n = Some h → ∃ r, kept !! h = Some r ∧ hash r = h).
    { intros u p a h Hu Ha Hh. destruct (Hok u p a Hu Ha n h Hh) as (c1 & r & Hc1 & Hr & Hhr).
      exists r. rewrite Hkept by eauto. by rewrite Ec0 in Hc1; simplify_eq. }
    assert (Hcfg' : pins_ok m (<[n := with_retained kept c0]> cfg)).
    { eapply (pins_ok_collected m cfg); [done|apply lookup_insert_eq| |done].
      intros k Hk. by rewrite lookup_insert_ne. }
    destruct x as [y|e]; intros Hview.
    + destruct (HOk y eq_refl) as [-> Hst]. exists (<[n := with_retained kept c0]> cfg).
      split_and!; [done..|]. eapply (pins_ok_collected m (configs cs)); [done| |..|done].
      * cbn. by rewrite lookup_alter_eq, Ec.
      * intros k Hk. cbn. by rewrite lookup_alter_ne.
    + destruct (HErr eq_refl) as [Hst|Hst]; [exists cfg|exists (<[n := with_retained kept c0]> cfg)];
        by split_and!.
  - eapply config_collect_absent_law in E; [|done..].
    destruct x as [y|e]; intros Hview; exists cfg; (split_and!; try done).
    eapply (pins_ok_collected m (configs cs)); [done| | |].
    + cbn. by rewrite lookup_alter_eq, Ec.
    + intros k Hk. cbn. by rewrite lookup_alter_ne.
    + intros u p a h Hu Ha Hh. destruct (Hok u p a Hu Ha n h Hh) as (c1 & _ & Hc1 & _). congruence.
Qed.

Lemma collect_ok names cs m : stored_ok cs m → stored_ok (foldl collect_one cs names) m.
Proof. revert cs. induction names as [|n names IH]; intros cs H; [done|]. by apply IH, collect_one_ok. Qed.

Lemma collect_revisions_ok names s : integrity s → integrity (collect_revisions names s).
Proof. intros (m & Hst & Hheld). exists m. split; [by apply collect_ok|done]. Qed.

(** ** Saving and deleting *)

Lemma pins_ok_saved m cfg n r : pins_ok m cfg → pins_ok m (<[n := with_saved cfg n r]> cfg).
Proof.
  intros Hok u p a Hu Ha k h Hk. destruct (Hok u p a Hu Ha k h Hk) as (c & rev & Hc & Hr & Hh).
  destruct (decide (k = n)) as [->|Hne].
  - rewrite lookup_insert_eq. eexists _, rev. split; [done|]. unfold with_saved. by rewrite Hc.
  - rewrite lookup_insert_ne by done. eauto.
Qed.

Lemma put_saved_ok n r cs cs' x m :
  stored_ok cs m → put_saved n r cs = (cs', x) → stored_ok cs' m.
Proof.
  intros (cfg & Hcfg & Hags & Hn & Hok & Hmem) Hput.
  pose proof (put_saved_configs _ _ _ _ _ Hn Hput) as Hc.
  assert (Hn' : names_match cs').
  { intros k c. destruct Hc as [[-> _]|[-> _]]; [apply Hn|].
    intros [[<- <-]|[_ Hk]]%lookup_insert_Some; [done|]. by apply Hn. }
  assert (Hmem' : pins_ok m (configs cs')).
  { destruct Hc as [[-> _]|[-> _]]; [done|]. by apply pins_ok_saved. }
  revert Hput. unfold put_saved, eff_of, eff_bind, through, held, hold, eff_fail, eff_ret.
  destruct (validate_name n) as [[]|] eqn:Ev; cbn [is_ok negb]; [|intros [= <- _]; by exists cfg].
  destruct (is_blank (body r)); [intros [= <- _]; by exists cfg|].
  destruct (check_type r) as [[]|] eqn:Et; [|intros [= <- _]; by exists cfg].
  destruct (config_save n r (config_backend cs)) as [b y] eqn:E.
  pose proof (agents_config_save (config_stored := config_stored) _ _ _ _ _ _ Hags E) as Hags'.
  pose proof (pins_ok_saved m cfg n r Hok) as Hok'.
  eapply config_save_law in E; [|done..].
  assert (Hb : config_backend cs' = b → stored_ok cs' m).
  { intros Hb. unfold stored_ok. rewrite Hb. destruct E as [E|[_ E]]; eauto 10. }
  destruct y as [[]|e]; intros [= <- _]; by apply Hb.
Qed.

Lemma unpinned_delete m cfg n :
  (∀ u p, m !! u = Some p → record_pins (PinConfiguration n) p = false) →
  pins_ok m cfg → pins_ok m (delete n cfg).
Proof.
  intros Hun Hok u p a Hu Ha k h Hk. destruct (Hok u p a Hu Ha k h Hk) as (c & r & Hc & Hr & Hh).
  exists c, r. rewrite lookup_delete_ne; [done|]. intros <-. specialize (Hun u p Hu).
  unfold record_pins in Hun. rewrite Ha in Hun. cbn in Hun. apply bool_decide_eq_false in Hun.
  apply Hun. eauto.
Qed.

Lemma pinning_zero b m p :
  agents_stored b m → agents_pinning p b = 0 → ∀ u r, m !! u = Some r → record_pins p r = false.
Proof.
  intros Hags. rewrite (agents_pinning_law (agents_stored := agents_stored) b m p Hags).
  intros H%map_size_empty_inv u r Hu. destruct (record_pins p r) eqn:E; [|done].
  assert (Hin : filter (λ ur, record_pins p ur.2 = true) m !! u = Some r)
    by by apply map_lookup_filter_Some. by rewrite H, lookup_empty in Hin.
Qed.

Lemma config_delete_ok n cs cs' x m :
  stored_ok cs m → agents_pinning (PinConfiguration n) (config_backend cs) = 0 →
  config_delete n cs = (cs', x) → stored_ok cs' m.
Proof.
  intros (cfg & Hcfg & Hags & Hn & Hok & Hmem) Hpin.
  pose proof (pinning_zero _ _ _ Hags Hpin) as Hun.
  unfold config_delete, eff_bind, held, through, hold, eff_ret.
  destruct (configs cs !! n) as [c|] eqn:Ec; [|intros [= <- _]; by exists cfg].
  destruct (config_remove n (config_backend cs)) as [b y] eqn:E.
  pose proof (agents_config_remove (config_stored := config_stored) _ _ _ _ _ Hags E) as Hags'.
  eapply config_remove_law in E as (Hp & Hr & He); [|done].
  pose proof (unpinned_delete m cfg n Hun Hok) as Hok'.
  pose proof (unpinned_delete m (configs cs) n Hun Hmem) as Hmem'.
  assert (Hn' : ∀ b' : B, names_match (mkConfigStore b' (delete n (configs cs)))).
  { intros b' k c'. cbn. intros [_ Hk]%lookup_delete_Some. by apply Hn. }
  destruct y as [[| |k]|e]; intros [= <- _].
  - exists (delete n cfg). split_and!; auto.
  - exists (delete n cfg). split_and!; auto.
  - exists cfg. split_and!; eauto.
  - destruct (He eq_refl) as [He'|He']; [exists cfg|exists (delete n cfg)]; by split_and!.
Qed.

(** ** Writing releases *)

(** What [pin] hands on is hashed by its content. *)
Definition hashed (p : Pinned) : Prop := pinned_hash p = hash (pinned_revision p).

Lemma pins_hashed cfg names pinned :
  pins sha256 hex_encode cfg names = Ok pinned → Forall hashed pinned.
Proof.
  intros [_ H]%pins_Ok. apply Forall_forall. intros p Hp. destruct (H p Hp) as (c & _ & ->). done.
Qed.

Lemma retain_pinned_keeps cfg a pinned :
  Forall hashed pinned → pinned_in cfg a → pinned_in (foldl retain_pinned cfg pinned) a.
Proof.
  intros Hh. revert cfg. induction Hh as [|p pinned Hp Hh IH]; intros cfg Ha; [done|]. cbn. apply IH.
  intros n h Hn. destruct (Ha n h Hn) as (c & r & Hc & Hr & Hhr). unfold retain_pinned.
  destruct (cfg !! pinned_configuration p) as [c0|] eqn:E; [|eauto].
  destruct (decide (n = pinned_configuration p)) as [->|Hne].
  - rewrite lookup_insert_eq. rewrite Hc in E. injection E as <-.
    destruct (decide (h = pinned_hash p)) as [->|Hne'].
    + eexists _, (pinned_revision p). split; [done|]. cbn. by rewrite lookup_insert_eq.
    + eexists _, r. split; [done|]. cbn. by rewrite lookup_insert_ne.
  - rewrite lookup_insert_ne by done. eauto.
Qed.

(** A release whose revisions were written is pinned. *)
Lemma retain_pinned_pins cfg a pinned :
  Forall hashed pinned → NoDup (pinned_configuration <$> pinned) →
  Forall (λ p, is_Some (cfg !! pinned_configuration p)) pinned →
  (∀ n h, a_configurations a !! n = Some h →
     ∃ p, p ∈ pinned ∧ pinned_configuration p = n ∧ pinned_hash p = h) →
  pinned_in (foldl retain_pinned cfg pinned) a.
Proof.
  rewrite !Forall_forall. intros Hh Hnd Hsome Ha n h Hn.
  destruct (Ha n h Hn) as (p & Hin & <- & <-). destruct (Hsome p Hin) as [c Hc].
  rewrite foldl_retain_lookup by done.
  rewrite (proj2 (find_unique pinned_configuration pinned _ p Hnd) (conj Hin eq_refl)), Hc.
  eexists _, (pinned_revision p). split; [done|]. cbn. rewrite lookup_insert_eq. split; [done|].
  symmetry. by apply Hh.
Qed.

(** A release's pins are among the revisions [pin] took. *)
Lemma release_pins cs sets d r a names pinned :
  names_match cs → release sha256 hex_encode cs sets d r = Some a → dom (a_configurations a) ⊆ names →
  pins sha256 hex_encode (configs cs) (btree_elements names) = Ok pinned →
  ∀ n h, a_configurations a !! n = Some h →
    ∃ p, p ∈ pinned ∧ pinned_configuration p = n ∧ pinned_hash p = h.
Proof.
  intros Hn Hr Hdom Hp n h Hh. destruct (release_configurations _ _ _ _ _ _ _ Hr) as [_ Hc].
  pose proof Hh as Hh'. rewrite Hc in Hh'. apply lookup_candidates_in in Hh' as (_ & c & Hcn & _ & ->); [|done].
  destruct (pins_Ok _ _ _ _ _ Hp) as [Hmap Hpin].
  assert (Hin : n ∈ pinned_configuration <$> pinned).
  { rewrite Hmap, elem_of_btree_elements. apply Hdom, elem_of_dom. eauto. }
  apply list_elem_of_fmap in Hin as (p & -> & Hin). destruct (Hpin p Hin) as (c' & Hc' & Hp').
  exists p. split; [done|]. split; [done|]. rewrite Hcn in Hc'. injection Hc' as <-. by rewrite Hp'.
Qed.

(** The store is one Server's own: it writes every record of a release, and a release that fails
    leaves its records as they were. *)
Hypothesis writes_all : ∀ revisions agents b b' wrote,
  agents_release revisions agents b = (b', Ok wrote) → wrote = agents.*1.
Hypothesis puts_back : ∀ revisions agents b b' e m,
  agents_stored b m → agents_release revisions agents b = (b', Err e) → agents_stored b' m.

Notation write_releases := (write_releases sha256 hex_encode codecs elsewhere).
Notation own_release := (own_release sha256 hex_encode).

Lemma released_name (releases : list (list N * PersistedAgent * option Assignment)) x a :
  x ∈ releases → x.2 = Some a → dom (a_configurations a) ⊆ released_names releases.
Proof.
  intros Hx Ha n Hin. unfold released_names. apply elem_of_union_list. exists (dom (a_configurations a)).
  split; [|done]. apply list_elem_of_fmap. exists x. by rewrite Ha.
Qed.

(** What the store and memory are after the revisions and records of a release are written. *)
Lemma release_written cs m releases pinned b' m' cfg :
  names_match cs → pins_ok m cfg → pins_ok m (configs cs) →
  Forall (own_release cs) releases →
  pins sha256 hex_encode (configs cs) (btree_elements (released_names releases)) = Ok pinned →
  config_stored b' (foldl retain_pinned cfg pinned) →
  Forall (λ p, is_Some (cfg !! pinned_configuration p)) pinned →
  agents_stored b' m' →
  (∀ u, (∃ x p', x ∈ releases ∧ x.1.1 = u ∧ m' !! u = Some p' ∧ p_assignment p' = x.2) ∨
        m' !! u = m !! u) →
  stored_ok (mkConfigStore b' (foldl retain_pinned (configs cs) pinned)) m'.
Proof.
  intros Hn Hok Hmem Hown Hp Hcfg' Hsome Hags' Hm'.
  pose proof (pins_hashed _ _ _ Hp) as Hh. destruct (pins_Ok _ _ _ _ _ Hp) as [Hmap Hpin].
  assert (Hnd : NoDup (pinned_configuration <$> pinned)) by (rewrite Hmap; apply NoDup_btree_elements).
  assert (Hboth : ∀ c, pins_ok m c → Forall (λ p, is_Some (c !! pinned_configuration p)) pinned →
                    pins_ok m' (foldl retain_pinned c pinned)).
  { intros c Hc Hs u p a Hu Ha. destruct (Hm' u) as [(x & p' & Hx & _ & Hu' & Hp')|Hu'].
    - rewrite Hu in Hu'. injection Hu' as <-. rewrite Ha in Hp'. symmetry in Hp'.
      rewrite Forall_forall in Hown. destruct (Hown x Hx) as (sets & d & r & Hr).
      apply retain_pinned_pins; [done..|].
      eapply (release_pins cs sets d r a (released_names releases)); [done|congruence| |done].
      by eapply released_name.
    - apply retain_pinned_keeps; [done|]. eapply Hc; [by rewrite <- Hu', Hu|done]. }
  exists (foldl retain_pinned cfg pinned). split; [done|]. split; [done|]. split; [|split; [by apply Hboth|]].
  - eapply names_match_view; [|exact Hn]. symmetry. apply retain_pinned_view.
  - apply Hboth; [done|]. apply Forall_forall. intros p Hin. destruct (Hpin p Hin) as (c & Hc & _). eauto.
Qed.

Lemma drop_forgotten_store l s : store (foldl (drop_forgotten elsewhere) s l) = store s.
Proof.
  revert s. induction l as [|u l IH]; intros s; [done|]. cbn. rewrite IH. unfold drop_forgotten.
  destruct (fleet s !! u) as [r|]; [|done].
  unfold end_session. destruct (r_connected r), (r_owner r); by destruct (unplace _ _ _ _ _).
Qed.

(** The release of an Agent is the one of its identity. *)
Lemma release_unique (releases : list (list N * PersistedAgent * option Assignment)) x y :
  NoDup ((λ x, x.1.1) <$> releases) → x ∈ releases → y ∈ releases → x.1.1 = y.1.1 → x = y.
Proof.
  intros Hnd Hx Hy H.
  pose proof (proj2 (find_unique (λ x, x.1.1) releases y.1.1 x Hnd) (conj Hx H)) as E.
  pose proof (proj2 (find_unique (λ x, x.1.1) releases y.1.1 y Hnd) (conj Hy eq_refl)) as E'.
  congruence.
Qed.

(** What the fleet holds after a release is what the store wrote. *)
Lemma release_held (f f' : gmap (list N) AgentRecord) m m' releases :
  NoDup ((λ x, x.1.1) <$> releases) → held_ok f m →
  (∀ u, f' !! u = match List.find (λ x, bool_decide (x.1.1 = u)) releases with
                  | Some x => with_assignment x.2 <$> (f !! u)
                  | None => f !! u
                  end) →
  (∀ u, u ∈ (λ x : list N * PersistedAgent * option Assignment, x.1.1) <$> releases ∧
        (∃ x p', x ∈ releases ∧ x.1.1 = u ∧ m' !! u = Some p' ∧ p_assignment p' = x.2) ∨
        u ∉ (λ x : list N * PersistedAgent * option Assignment, x.1.1) <$> releases ∧ m' !! u = m !! u) →
  held_ok f' m'.
Proof.
  intros Hnd Hheld Hf Hm' u r Hu. rewrite Hf in Hu.
  destruct (List.find _ releases) as [x0|] eqn:Ef.
  - apply (find_unique (λ x, x.1.1)) in Ef as [Hx0 <-]; [|done].
    apply fmap_Some in Hu as (r0 & _ & ->). cbn.
    destruct (Hm' x0.1.1) as [[_ (x & p' & Hx & Hxu & Hp & Hp')]|[Hnin _]].
    + exists p'. split; [done|]. by rewrite (release_unique releases x0 x).
    + destruct Hnin. apply list_elem_of_fmap. eauto.
  - destruct (Hheld u r Hu) as (p & Hp & Hpa). exists p. split; [|done].
    destruct (Hm' u) as [[Hin _]|[_ ->]]; [|done]. exfalso.
    apply list_elem_of_fmap in Hin as (x0 & -> & Hx0).
    rewrite (proj2 (find_unique (λ x, x.1.1) releases x0.1.1 x0 Hnd) (conj Hx0 eq_refl)) in Ef. done.
Qed.

Lemma write_releases_ok releases s s' x :
  integrity s → NoDup ((λ x, x.1.1) <$> releases) → Forall (own_release (store s)) releases →
  write_releases releases s = (s', x) → integrity s'.
Proof.
  intros (m & (cfg & Hcfg & Hags & Hn & Hok & Hmem) & Hheld) Hnd Hown Hw. pose proof Hw as Hw'.
  revert Hw. unfold Rollouts.write_releases. rewrite pin_run.
  destruct (pins _ _ _ _) as [pinned|e'] eqn:Ep; cycle 1.
  { intros [= <- _]. apply collect_revisions_ok. exists m. split; [by exists cfg|done]. }
  rewrite (agents_of_own sha256 hex_encode (store s) releases pinned) by done.
  set (agents := (λ x, (x.1.1, p_with_assignment x.2 x.1.2)) <$> releases).
  assert (Huids : agents.*1 = (λ x, x.1.1) <$> releases)
    by (unfold agents; by rewrite <- list_fmap_compose).
  unfold eff_bind, eff_ret. destruct (agents_release pinned agents _) as [b' y] eqn:Er.
  pose proof Er as Hlaw. eapply agents_release_law in Hlaw
    as (fin & m' & Hpre & Hcfg' & Hsome & Hags' & HOk & _); [|done|done|by rewrite Huids].
  destruct y as [wrote|e].
  - destruct (HOk wrote eq_refl) as [-> Hm']. apply writes_all in Er as ->. rewrite Huids in Hm'.
    intros Heq. pose proof (f_equal snd Heq) as Hx. cbn [snd] in Hx. rewrite <- Hx in Hw'.
    apply write_releases_Ok in Hw' as (_ & _ & _ & _ & _ & Hfleet); [|done..].
    assert (Hstore : store s' = mkConfigStore b' (foldl retain_pinned (configs (store s)) pinned)).
    { apply (f_equal fst) in Heq. cbn [fst] in Heq. rewrite <- Heq.
      by rewrite (proj1 (take_releases_other sha256 codecs _ _)), drop_forgotten_store. }
    assert (Htook : ∀ u, took agents u (m' !! u) →
      ∃ x p', x ∈ releases ∧ x.1.1 = u ∧ m' !! u = Some p' ∧ p_assignment p' = x.2).
    { intros u (p & p' & Hap & Hu & Hp'). apply list_elem_of_fmap in Hap as (x0 & [= -> ->] & Hx0).
      by exists x0, p'. }
    exists m'. rewrite Hstore. split.
    + eapply (release_written (store s) m releases pinned b' m' cfg); try done.
      intros u. destruct (Hm' u) as [[_ Hu]|[_ Hu]]; auto.
    + eapply (release_held (fleet s)); [done..|]. intros u. destruct (Hm' u) as [[]|]; auto.
  - intros [= <- _]. apply collect_revisions_ok. exists m. split; [|done].
    apply (puts_back _ _ _ _ _ m) in Er; [|done].
    exists (foldl retain_pinned cfg fin). split; [done|]. split; [done|].
    pose proof (pins_hashed _ _ _ Ep) as Hh.
    assert (Hhd : Forall hashed fin) by (destruct Hpre as [rest ->]; by apply Forall_app in Hh as [? _]).
    split; [|split].
    + eapply names_match_view; [|exact Hn]. symmetry. apply retain_pinned_view.
    + intros u p a Hu Ha. apply retain_pinned_keeps; [done|]. by eapply Hok.
    + intros u p a Hu Ha. apply retain_pinned_keeps; [done|]. by eapply Hmem.
Qed.

(** ** The acts *)

Inductive Act :=
| ActSave (n : string) (r : Revision)
| ActPress (p : Press)
| ActDelete (n : string)
| ActPutConfiguration (n configuration : string)
| ActDeleteDeployment (n : string).

Definition act (s : AppState B D) (a : Act) : AppState B D :=
  match a with
  | ActSave n r => (save_configuration n r s).1
  | ActPress p => (press sha256 hex_encode codecs elsewhere p s).1
  | ActDelete n => (delete_configuration n s).1
  | ActPutConfiguration n c => (put_deployment_configuration n c s).1
  | ActDeleteDeployment n => (delete_deployment n s).1
  end.

Lemma press_ok p s s' x :
  integrity s → press sha256 hex_encode codecs elsewhere p s = (s', x) → integrity s'.
Proof.
  intros Hs. destruct p as [uid named|n]; cbn [press].
  - unfold rollout_to_agent. destruct (fleet s !! uid) as [r|] eqn:Er; [|by intros [= <- _]].
    destruct (release_to sha256 hex_encode s r named) as [[k a]|e'] eqn:Et; [|by intros [= <- _]].
    apply release_to_own in Et as (sets & d & Ha).
    destruct (write_releases _ s) as [s1 y] eqn:Ew.
    eapply write_releases_ok in Ew; [|done|cbn; by apply NoDup_singleton|];
      [|repeat constructor; by exists sets, d, r].
    destruct y as [[k' touched]|e']; [|by intros [= <- _]].
    destruct (k' =? 0)%nat; intros [= <- _]; by apply (collect_revisions_ok touched).
  - unfold rollout_deployment.
    destruct (offering s) as [[sets ds]|] eqn:Eo; [|by intros [= <- _]].
    destruct (deployments ds !! n) as [d|]; [|by intros [= <- _]].
    destruct (refuse_unreleasable sets d); [|by intros [= <- _]].
    fold (press_releases sha256 hex_encode s sets (deployments ds) n d).
    destruct (write_releases _ s) as [s1 y] eqn:Ew.
    eapply write_releases_ok in Ew; [|done|apply NoDup_press_releases|]; cycle 1.
    { apply Forall_forall. intros z (r & _ & _ & _ & Hz & _)%elem_of_press_releases. by exists sets, d, r. }
    destruct y as [[k touched]|e']; intros [= <- _]; [|done]. by apply (collect_revisions_ok touched).
Qed.

Lemma act_ok a s : integrity s → integrity (act s a).
Proof.
  intros Hs. destruct a as [n r|p|n|n c|n]; cbn [act].
  - destruct Hs as (m & Hst & Hheld). unfold save_configuration.
    destruct (put_saved n r (store s)) as [cs x] eqn:E. exists m. split; [|done]. by eapply put_saved_ok.
  - destruct (press _ _ _ _ p s) as [s' x] eqn:E. by eapply press_ok.
  - destruct Hs as (m & Hst & Hheld). unfold delete_configuration.
    destruct (0 <? agents_pinning (PinConfiguration n) (config_backend (store s)))%nat eqn:Ep; [by exists m|].
    apply Nat.ltb_ge, Nat.le_0_r in Ep.
    destruct (config_delete n (store s)) as [cs y] eqn:E. eapply config_delete_ok in E; [|done..].
    exists m. destruct y as [[| |k]|e]; cbn [fst store fleet set_store]; [|done..].
    destruct (offering (set_store cs s)) as [[sets ds]|]; [|done].
    by destruct (drop_configuration n ds).
  - unfold put_deployment_configuration. destruct (offering s) as [[sets ds]|]; [|done].
    destruct (config_get (store s) c); [|done]. by destruct (put_configuration n c ds).
  - unfold delete_deployment. destruct (offering s) as [[sets ds]|]; [|done].
    destruct (0 <? _)%nat; [done|]. by destruct (store_delete n ds).
Qed.

(** C2: nothing an assignment pins is lost. The store is one this Server alone writes, that writes every
    record of a release it answers ([writes_all]) and has put back what it wrote of one that failed
    ([puts_back]; a put-back that fails in its turn is outside of it). Then, from a state in which every
    assignment's revisions are retained ([integrity]), whatever acts follow, in whatever order, refused
    ones and ones whose write failed included, every Configuration of every Agent's assignment composes
    the revision its hash names — and the assignments of the store are still retained in memory and in
    the store. *)
Theorem pinned_revisions_survive (acts : list Act) (s : AppState B D) :
  integrity s →
  integrity (foldl act s acts) ∧
  ∀ u r n h, fleet (foldl act s acts) !! u = Some r → assigned_configurations r !! n = Some h →
    ∃ rev, compose_entry (store (foldl act s acts)) (n, h)
             = Some (mkConfigEntry n (body rev) (role rev)) ∧ hash rev = h.
Proof.
  intros Hs. assert (Hs' : integrity (foldl act s acts)).
  { revert s Hs. induction acts as [|a acts IH]; intros s Hs; [done|]. by apply IH, act_ok. }
  split; [done|]. destruct Hs' as (m & (cfg & _ & _ & _ & _ & Hmem) & Hheld). intros u r n h Hu Hn.
  destruct (Hheld u r Hu) as (p & Hp & Hpa). unfold assigned_configurations in Hn.
  destruct (r_assignment r) as [a|] eqn:Ha; [|done].
  destruct (Hmem u p a Hp Hpa n h Hn) as (c & rev & Hc & Hr & Hh).
  exists rev. split; [|done]. unfold compose_entry. rewrite Hc. cbn. by rewrite Hr.
Qed.
End Pins.

(** ** A fleet of one Agent

    One Deployment holds one Configuration, and one Agent it claims has nothing assigned yet. *)

Definition one_config : gmap string Configuration :=
  {["base" := mkConfiguration "base" (mkRevision "receivers: {}" "" "otelcol") ∅]}.

Definition one_agent : AgentRecord :=
  mkRecord 0 2 (Some (mkDescription [string_attr "service.name" "otelcol"] [string_attr "channel" "stable"]))
    None None None WebSocket true 0 false None None None None None true ∅ None placement_default None.

Definition one_channel : gmap string Deployment :=
  {["stable" := mkDeployment "stable" {["channel" := "stable"]} ∅ {["base"]}]}.

Definition one_fleet : AppState Memory (gmap string Deployment) :=
  mkApp {[[1%N] := one_agent]} ∅
    (mkConfigStore (mkMemory one_config {[[1%N] := to_persisted one_agent]}) one_config)
    (Some (∅, mkDeploymentStore one_channel one_channel)) ∅ (mkPresence None ∅ ∅) ∅ 0.

Definition one_sha (bytes : list N) : list N := bytes.
Definition one_hex (bytes : list N) : string := "h1".
Definition one_codecs : Codecs := sample_codecs (mkDescription [] []).

Lemma memory_writes_all revisions agents (b b' : Memory) wrote :
  agents_release revisions agents b = (b', Ok wrote) → wrote = agents.*1.
Proof. cbn. destruct (forallb _ _); by intros [= <- <-]. Qed.

Lemma memory_puts_back revisions agents (b b' : Memory) e m :
  memory_store_agents_hold b m → agents_release revisions agents b = (b', Err e) →
  memory_store_agents_hold b' m.
Proof. intros H. cbn. destruct (forallb _ _); by intros [= <- <-]. Qed.

Lemma one_names : names_match (store one_fleet).
Proof. intros k c H. cbn in H. unfold one_config in H. apply lookup_singleton_Some in H as [<- <-]. done. Qed.

Lemma one_integrity :
  integrity memory_store_configs_hold memory_store_agents_hold one_sha one_hex one_fleet.
Proof.
  exists {[[1%N] := to_persisted one_agent]}. split.
  - exists one_config. split; [split; [done|apply one_names]|]. split; [done|]. split; [apply one_names|].
    split; intros u p a Hu; apply lookup_singleton_Some in Hu as [<- <-]; done.
  - intros u r Hu. cbn [fleet one_fleet] in Hu. apply lookup_singleton_Some in Hu as [<- <-].
    eexists. by rewrite lookup_singleton_eq.
Qed.

Notation one_press := (rollout_deployment one_sha one_hex one_codecs (λ _ _, []) (Ok None) "stable" one_fleet).

Lemma press_moves_the_claimed_witness :
  ∃ s', one_press = (s', Ok 1%nat) ∧
    r_assignment <$> (fleet s' !! [1%N])
    = Some (Some (mkAssignment "stable" None {["base" := "h1"]})).
Proof.
  destruct one_press as [s' x] eqn:E. exists s'.
  assert (Hx : x = Ok 1%nat) by (apply (f_equal snd) in E; vm_compute in E; by rewrite <- E). subst x.
  split; [done|].
  destruct (press_moves_the_claimed one_sha one_hex one_codecs (λ _ _, []) memory_writes_all "stable" one_fleet
    s' 1%nat ∅ (mkDeploymentStore one_channel one_channel)
    (mkDeployment "stable" {["channel" := "stable"]} ∅ {["base"]}) one_names eq_refl eq_refl E)
    as (-> & _ & _).
  vm_compute. reflexivity.
Defined.

Lemma refused_press_moves_nobody_witness :
  ∃ s', press one_sha one_hex one_codecs (λ _ _, []) (PressAgent [1%N] (Some "canary")) one_fleet
        = (s', Err (NotApplicable (InAnother "stable"))) ∧
    fleet s' = fleet one_fleet ∧ push s' = 0%N.
Proof.
  destruct (press one_sha one_hex one_codecs (λ _ _, []) (PressAgent [1%N] (Some "canary")) one_fleet)
    as [s' x] eqn:E. exists s'.
  assert (Hx : x = Err (NotApplicable (InAnother "stable")))
    by (apply (f_equal snd) in E; vm_compute in E; by rewrite <- E). subst x.
  destruct (refused_press_moves_nobody one_sha one_hex one_codecs (λ _ _, []) memory_writes_all
    (PressAgent [1%N] (Some "canary")) one_fleet s' _ one_names E) as (Hf & _ & _ & _ & Hp & _).
  split; [reflexivity|]. split; [exact Hf|]. rewrite Hp. reflexivity.
Defined.

Lemma pinned_revisions_survive_witness :
  let acts := [ActPress (PressDeployment "stable"); ActSave "base" (mkRevision "b" "" "otelcol");
               ActDelete "base"] in
  let s' := foldl (act one_sha one_hex one_codecs (λ _ _, [])) one_fleet acts in
  integrity memory_store_configs_hold memory_store_agents_hold one_sha one_hex s' ∧
  compose_entry (store s') ("base", "h1") = Some (mkConfigEntry "base" "receivers: {}" "").
Proof.
  intros acts s'. split.
  - apply (pinned_revisions_survive memory_store_configs_hold memory_store_agents_hold one_sha one_hex
      one_codecs (λ _ _, []) memory_writes_all memory_puts_back acts one_fleet one_integrity).
  - vm_compute. reflexivity.
Defined.
