(* ===== verification/BlobLife.v ===== *)
(** * Uploads and deletions of artifacts, interleaved

    The part of [fleet-server/src/packages.rs] that keeps entries and blobs together: [put_entry_from]
    and the helpers it shares with the deletions, [begin_upload], [end_upload], [doom], [sweep]. Each
    runs in a thread of its own and lets its locks go between the moves, so the model is a step
    relation: a thread is the point its code has reached, and every step is what one move does while
    it holds its locks. [writing] is the [writes] lock held across an entry's write, [disk] is what
    the backend stores. A write can fail once it has reached the disk; whether that may happen to an
    upload's entry is the parameter [late], since [signed_entries_can_name_deleted_blobs] shows what
    comes of it. *)

From S2P Require Import Prelude RustStr Packages Offers.

Open Scope string_scope.
Open Scope list_scope.

(** [Life]: the blobs uploads hold, with how many hold each, and the blobs chosen for deletion. *)
Record Life := mkLife {
  uploading : gmap string nat;
  deleting : gset string;
}.

(** [begin_upload]: refused while the blob is being deleted. *)
Definition begin_upload (sha256 : string) (life : Life) : option Life :=
  if bool_decide (sha256 ∈ deleting life) then None
  else Some (mkLife (<[sha256 := S (default 0 (uploading life !! sha256))]> (uploading life))
               (deleting life)).

(** [end_upload]. *)
Definition end_upload (sha256 : string) (life : Life) : Life :=
  match uploading life !! sha256 with
  | None => life
  | Some count =>
      let count := (count - 1)%nat in
      mkLife (if (count =? 0)%nat then delete sha256 (uploading life)
              else <[sha256 := count]> (uploading life))
        (deleting life)
  end.

Section Life.
Context (hex_encode : list N → string).

(** Whether any entry names the blob. *)
Definition names (sets : Sets) (sha256 : string) : Prop :=
  ∃ i set p e, sets !! i = Some set ∧ entries set !! p = Some e ∧ hex_encode (content_hash e) = sha256.

Definition referenced (sets : Sets) (sha256 : string) : bool :=
  existsb (λ ise, existsb (λ pe, bool_decide (hex_encode (content_hash pe.2) = sha256))
                    (map_to_list (entries ise.2)))
    (map_to_list sets).

(** [doom]: chooses the blob for deletion when no entry names it and no upload holds it. *)
Definition doom (sets : Sets) (sha256 : string) (life : Life) : Life * option string :=
  if referenced sets sha256 then (life, None)
  else if bool_decide (is_Some (uploading life !! sha256)) || bool_decide (sha256 ∈ deleting life)
  then (life, None)
  else (mkLife (uploading life) ({[sha256]} ∪ deleting life), Some sha256).

(** The blobs of a removed Package, each doomed in turn. *)
Fixpoint doom_all (sets : Sets) (shas : list string) (life : Life) : Life * list string :=
  match shas with
  | [] => (life, [])
  | sha256 :: shas =>
      match doom sets sha256 life with
      | (life, doomed) =>
          match doom_all sets shas life with
          | (life, rest) => (life, option_list doomed ++ rest)
          end
      end
  end.
End Life.

(** Where a thread has got to. *)
Inductive Thread :=
| Stored (i : PackageId) (p : Platform) (sha256 : string) (size : N)
    (* [put_entry_from], the bytes put *)
| Held (i : PackageId) (p : Platform) (sha256 : string) (size : N)
    (* the upload begun *)
| Found (i : PackageId) (p : Platform) (sha256 : string) (size : N)
    (* [put_entry_record], under [writes]: the backend has found the blob stored *)
| Written (i : PackageId) (p : Platform) (sha256 : string) (size : N)
    (* the backend has written the entry *)
| Recorded (sha256 : string) (doomed : option string)
    (* the entry is in memory, the upload not ended *)
| Refused (sha256 : string) (keep : bool)
    (* the entry was refused, the upload not ended *)
| GivenUp (sha256 : string) (keep : bool)
    (* the upload ended or never begun; the blob may go *)
| Sweeping (doomed todo : list string).
    (* [sweep]: the blobs left to delete *)

Record State := mkState {
  sets : Sets;
  disk : Sets;
  blobs : gset string;
  life : Life;
  writing : bool;
  threads : list Thread;
}.

Definition put_in (m : Sets) (i : PackageId) (e : Entry) : Sets :=
  alter (λ set, mkPackage (id set) (<[platform e := e]> (entries set))) i m.

Definition take_out (m : Sets) (i : PackageId) (p : Platform) : Sets :=
  alter (λ set, mkPackage (id set) (delete p (entries set))) i m.

(** [PackageBackend::create]: one that is stored already is left as it is. *)
Definition create_in (m : Sets) (i : PackageId) : Sets :=
  match m !! i with Some _ => m | None => <[i := mkPackage i ∅]> m end.

(** The signature of one entry, written or cleared. *)
Definition sign_in (m : Sets) (i : PackageId) (p : Platform) (signature : option (list N)) : Sets :=
  alter (λ set, mkPackage (id set)
    (alter (λ e, mkEntry (platform e) (content_hash e) (size e) signature) p (entries set))) i m.

Definition entry_at (m : Sets) (i : PackageId) (p : Platform) : option Entry :=
  match m !! i with Some set => entries set !! p | None => None end.

(** [take_up]: the entry as stored replaces the one in memory. *)
Definition take_up (m : Sets) (i : PackageId) (p : Platform) (stored : option Entry) : Sets :=
  alter (λ set, mkPackage (id set)
    match stored with Some e => <[p := e]> (entries set) | None => delete p (entries set) end) i m.

(** [PackageBackend::sign]: written while the stored entry names the bytes of [hash]; else the entry
    as stored. *)
Definition signs (disk : Sets) (i : PackageId) (p : Platform) (hash : list N) : bool :=
  match entry_at disk i p with Some e => bool_decide (content_hash e = hash) | None => false end.

Section Steps.
Context (hex_encode : list N → string) (hex_decode : string → option (list N)) (late : bool).

(** The entry an upload records: new bytes carry no signature. *)
Definition uploaded (p : Platform) (hash : list N) (size : N) : Entry := mkEntry p hash size None.

(** One thread's next move, the others standing still: the state without the thread list, and the
    threads that take its place. *)
Inductive move : State → Thread → State → list Thread → Prop :=
| move_begin st i p sha sz life' :
    begin_upload sha (life st) = Some life' →
    move st (Stored i p sha sz)
      (mkState (sets st) (disk st) (blobs st) life' (writing st) []) [Held i p sha sz]
| move_begin_refused st i p sha sz :
    begin_upload sha (life st) = None →
    move st (Stored i p sha sz) st [GivenUp sha false]
| move_empty st i p sha :
    move st (Held i p sha 0) st [Refused sha false]
| move_no_set st i p sha sz :
    sz ≠ 0%N → writing st = false → sets st !! i = None →
    move st (Held i p sha sz) st [Refused sha false]
| move_unanswered st i p sha sz :
    sz ≠ 0%N → writing st = false → is_Some (sets st !! i) →
    move st (Held i p sha sz) st [Refused sha true]
| move_gone st i p sha sz :
    sz ≠ 0%N → writing st = false → is_Some (sets st !! i) → sha ∉ blobs st →
    move st (Held i p sha sz) st [Refused sha false]
| move_found st i p sha sz :
    sz ≠ 0%N → writing st = false → is_Some (sets st !! i) → sha ∈ blobs st →
    move st (Held i p sha sz)
      (mkState (sets st) (disk st) (blobs st) (life st) true []) [Found i p sha sz]
| move_written st i p sha sz hash :
    hex_decode sha = Some hash → is_Some (disk st !! i) →
    move st (Found i p sha sz)
      (mkState (sets st) (put_in (disk st) i (uploaded p hash sz)) (blobs st) (life st) true [])
      [Written i p sha sz]
| move_write_failed st i p sha sz :
    move st (Found i p sha sz)
      (mkState (sets st) (disk st) (blobs st) (life st) false []) [Refused sha false]
| move_write_failed_late st i p sha sz hash :
    late = true → hex_decode sha = Some hash → is_Some (disk st !! i) →
    move st (Found i p sha sz)
      (mkState (sets st) (put_in (disk st) i (uploaded p hash sz)) (blobs st) (life st) false [])
      [Refused sha false]
| move_recorded st i p sha sz hash set life' doomed :
    hex_decode sha = Some hash → sets st !! i = Some set →
    match entries set !! p with
    | None => (life st, None)
    | Some previous =>
        doom hex_encode (put_in (sets st) i (uploaded p hash sz))
          (hex_encode (content_hash previous)) (life st)
    end = (life', doomed) →
    move st (Written i p sha sz)
      (mkState (put_in (sets st) i (uploaded p hash sz)) (disk st) (blobs st) life' false [])
      [Recorded sha doomed]
| move_end st sha doomed :
    move st (Recorded sha doomed)
      (mkState (sets st) (disk st) (blobs st) (end_upload sha (life st)) (writing st) [])
      [Sweeping (option_list doomed) (option_list doomed)]
| move_end_refused st sha keep :
    move st (Refused sha keep)
      (mkState (sets st) (disk st) (blobs st) (end_upload sha (life st)) (writing st) [])
      [GivenUp sha keep]
| move_kept st sha :
    move st (GivenUp sha true) st [Sweeping [] []]
| move_give_up st sha life' doomed :
    doom hex_encode (sets st) sha (life st) = (life', doomed) →
    move st (GivenUp sha false)
      (mkState (sets st) (disk st) (blobs st) life' (writing st) [])
      [Sweeping (option_list doomed) (option_list doomed)]
| move_delete st doomed sha todo :
    move st (Sweeping doomed (sha :: todo))
      (mkState (sets st) (disk st) (blobs st ∖ {[sha]}) (life st) (writing st) [])
      [Sweeping doomed todo]
| move_not_deleted st doomed todo :
    move st (Sweeping doomed todo) st [Sweeping doomed []]
| move_skip st doomed sha todo :
    move st (Sweeping doomed (sha :: todo)) st [Sweeping doomed todo]
| move_swept st doomed :
    move st (Sweeping doomed [])
      (mkState (sets st) (disk st) (blobs st)
         (mkLife (uploading (life st)) (deleting (life st) ∖ list_to_set doomed)) (writing st) [])
      [].

Definition with_threads (st : State) (ts : list Thread) : State :=
  mkState (sets st) (disk st) (blobs st) (life st) (writing st) ts.

(** A step: a thread moves, or a call begins. *)
Inductive step : State → State → Prop :=
| step_move st st' ts1 ts2 t new :
    threads st = ts1 ++ t :: ts2 → move st t st' new →
    step st (with_threads st' (ts1 ++ new ++ ts2))
| step_upload st i p sha sz :
    is_Some (sets st !! i) →
    step st (mkState (sets st) (disk st) ({[sha]} ∪ blobs st) (life st) (writing st)
               (Stored i p sha sz :: threads st))
| step_create st i :
    writing st = false → sets st !! i = None →
    step st (mkState (<[i := mkPackage i ∅]> (sets st)) (create_in (disk st) i) (blobs st)
               (life st) false (threads st))
| step_delete_entry st i set p e life' doomed :
    writing st = false → sets st !! i = Some set → entries set !! p = Some e →
    doom hex_encode (take_out (sets st) i p) (hex_encode (content_hash e)) (life st)
      = (life', doomed) →
    step st (mkState (take_out (sets st) i p) (take_out (disk st) i p) (blobs st) life' false
               (Sweeping (option_list doomed) (option_list doomed) :: threads st))
| step_remove_set st i set life' doomed :
    writing st = false → sets st !! i = Some set →
    doom_all hex_encode (delete i (sets st))
      ((λ e, hex_encode (content_hash e)) <$> entry_values (entries set)) (life st)
      = (life', doomed) →
    step st (mkState (delete i (sets st)) (delete i (disk st)) (blobs st) life' false
               (Sweeping doomed doomed :: threads st))
| step_sign st i p e signature :
    writing st = false → entry_at (sets st) i p = Some e → signs (disk st) i p (content_hash e) = true →
    step st (mkState (sign_in (sets st) i p signature) (sign_in (disk st) i p signature)
               (blobs st) (life st) false (threads st))
| step_sign_changed st i p e :
    writing st = false → entry_at (sets st) i p = Some e → signs (disk st) i p (content_hash e) = false →
    step st (mkState (take_up (sets st) i p (entry_at (disk st) i p)) (disk st) (blobs st) (life st) false
               (threads st))
| step_late st disk' :
    writing st = false →
    (* a backend that fails after it has written: a creation, a removed entry, a signature *)
    (∃ i, sets st !! i = None ∧ disk' = create_in (disk st) i) ∨
    (∃ i p, disk' = take_out (disk st) i p) ∨
    (∃ i p signature, disk' = sign_in (disk st) i p signature) →
    step st (mkState (sets st) disk' (blobs st) (life st) false (threads st)).

(** [with_backend]: every entry names a stored blob of its size, and the blobs no entry names go. *)
Inductive OpenRefusal :=
| OtherSize (i : PackageId) (p : Platform)
| NotStored (i : PackageId) (p : Platform).

Definition check_entry (stored : gmap string N) (i : PackageId) (e : Entry) : option OpenRefusal :=
  match stored !! hex_encode (content_hash e) with
  | Some sz => if (sz =? size e)%N then None else Some (OtherSize i (platform e))
  | None => Some (NotStored i (platform e))
  end.

Fixpoint open_sets (stored : gmap string N) (loaded : list Package) (acc : Sets)
    : result Sets OpenRefusal :=
  match loaded with
  | [] => Ok acc
  | package :: loaded =>
      _ <-? check_each (check_entry stored (id package)) (entry_values (entries package)) ;;
      open_sets stored loaded (<[id package := package]> acc)
  end.

Definition open_store (loaded : list Package) (stored : gmap string N) : result State OpenRefusal :=
  sets <-? open_sets stored loaded ∅ ;;
  Ok (mkState sets sets (filter (λ sha, referenced hex_encode sets sha = true) (dom stored))
        (mkLife ∅ ∅) false []).

(** The states a Server reaches from a store it has opened. *)
Inductive reachable : State → Prop :=
| reachable_open loaded stored st : open_store loaded stored = Ok st → reachable st
| reachable_step st st' : reachable st → step st st' → reachable st'.
End Steps.

(** ** The invariant *)

Definition count (h : string) (l : list string) : nat :=
  length (List.filter (λ x, bool_decide (x = h)) l).

(** How many uploads of [h] a thread is, and how often it is to delete [h]. *)
Definition holds (h : string) (t : Thread) : nat :=
  match t with
  | Held _ _ sha _ | Found _ _ sha _ | Written _ _ sha _ | Recorded sha _ | Refused sha _ =>
      count h [sha]
  | _ => 0
  end.

Definition owns (h : string) (t : Thread) : nat :=
  match t with
  | Recorded _ doomed => count h (option_list doomed)
  | Sweeping doomed _ => count h doomed
  | _ => 0
  end.

Definition total (f : Thread → nat) (ts : list Thread) : nat := sum_list_with f ts.

(** What a thread knows: a blob found stored is there while its entry is written, and a sweep
    deletes only what it was given. *)
Definition thread_ok (blobs : gset string) (t : Thread) : Prop :=
  match t with
  | Found _ _ sha _ | Written _ _ sha _ => sha ∈ blobs
  | Sweeping doomed todo => ∀ h, h ∈ todo → h ∈ doomed
  | _ => True
  end.

Section Invariant.
Context (hex_encode : list N → string) (hex_decode : string → option (list N)).
Hypothesis hex_round_trip : ∀ sha hash, hex_decode sha = Some hash → hex_encode hash = sha.

Definition inv (sets : Sets) (blobs : gset string) (life : Life) (ts : list Thread) : Prop :=
  (∀ h, names hex_encode sets h → h ∈ blobs ∧ h ∉ deleting life) ∧
  (∀ h, default 0 (uploading life !! h) = total (holds h) ts ∧ uploading life !! h ≠ Some 0) ∧
  (∀ h, (0 < total (holds h) ts)%nat → h ∉ deleting life) ∧
  (∀ h, total (owns h) ts = if decide (h ∈ deleting life) then 1 else 0) ∧
  Forall (thread_ok blobs) ts.

(** Whether a thread is within the write of an entry. *)
Definition busy (t : Thread) : nat :=
  match t with Found _ _ _ _ | Written _ _ _ _ => 1 | _ => 0 end.

(** The entry a thread has written is the one stored. *)
Definition written_ok (disk : Sets) (ts : list Thread) : Prop :=
  ∀ i p sha sz e, Written i p sha sz ∈ ts → entry_at disk i p = Some e → hex_encode (content_hash e) = sha.

(** What the backend stores names what memory names at the same place, but for the entry a thread has
    written and not recorded; and one thread at most is within a write. *)
Definition agree (sets disk : Sets) (writing : bool) (ts : list Thread) : Prop :=
  total busy ts = (if writing then 1 else 0) ∧ written_ok disk ts ∧
  ∀ i p e, entry_at disk i p = Some e →
    (∃ e', entry_at sets i p = Some e' ∧ hex_encode (content_hash e') = hex_encode (content_hash e)) ∨
    (∃ sz, Written i p (hex_encode (content_hash e)) sz ∈ ts).

Lemma total_perm f ts ts' : ts ≡ₚ ts' → total f ts = total f ts'.
Proof. unfold total. induction 1; cbn; lia. Qed.

Lemma inv_perm sets blobs life ts ts' :
  ts ≡ₚ ts' → inv sets blobs life ts → inv sets blobs life ts'.
Proof.
  intros Hp (H1 & H2 & H3 & H4 & H5). split_and!.
  - done.
  - intros h. rewrite <- (total_perm _ _ _ Hp). apply H2.
  - intros h. rewrite <- (total_perm _ _ _ Hp). apply H3.
  - intros h. rewrite <- (total_perm _ _ _ Hp). apply H4.
  - by rewrite <- Hp.
Qed.

Lemma referenced_names sets h : referenced hex_encode sets h = true ↔ names hex_encode sets h.
Proof.
  unfold referenced, names. rewrite existsb_exists. split.
  - intros ([i set] & Hi & Hin). apply existsb_exists in Hin as ([p e] & Hp & He). cbn in *.
    apply list_elem_of_In, elem_of_map_to_list in Hi, Hp. apply bool_decide_eq_true in He.
    by exists i, set, p, e.
  - intros (i & set & p & e & Hi & Hp & He). exists (i, set).
    split; [by apply list_elem_of_In, elem_of_map_to_list|].
    apply existsb_exists. exists (p, e).
    split; [by apply list_elem_of_In, elem_of_map_to_list|]. by apply bool_decide_eq_true.
Qed.

Lemma doom_spec sets sha life life' doomed :
  doom hex_encode sets sha life = (life', doomed) →
  doomed = None ∧ life' = life ∨
  doomed = Some sha ∧ ¬ names hex_encode sets sha ∧ uploading life !! sha = None ∧
    sha ∉ deleting life ∧ life' = mkLife (uploading life) ({[sha]} ∪ deleting life).
Proof.
  unfold doom. destruct (referenced hex_encode sets sha) eqn:Hr; [naive_solver|].
  case_bool_decide as Hu; cbn; [naive_solver|]. case_bool_decide as Hd; [naive_solver|].
  intros [= <- <-]. right. split_and!; [done| |by apply eq_None_not_Some|done|done].
  rewrite <- referenced_names. congruence.
Qed.

Lemma count_singleton h x : count h [x] = if decide (x = h) then 1 else 0.
Proof. unfold count. cbn. case_bool_decide; by destruct (decide _). Qed.

Lemma count_app h l l' : count h (l ++ l') = (count h l + count h l')%nat.
Proof. unfold count. by rewrite List.filter_app, length_app. Qed.

Lemma count_pos h l : (0 < count h l)%nat ↔ h ∈ l.
Proof.
  unfold count. induction l as [|x l IH]; cbn; [rewrite elem_of_nil; lia|].
  rewrite elem_of_cons. case_bool_decide; cbn; [naive_solver lia|]. rewrite IH. naive_solver.
Qed.

(** A thread replaced by one that counts the same. *)
Lemma inv_same sets blobs life told t ts :
  inv sets blobs life (told :: ts) →
  (∀ h, holds h t = holds h told) → (∀ h, owns h t = owns h told) → thread_ok blobs t →
  inv sets blobs life (t :: ts).
Proof.
  intros (H1 & H2 & H3 & H4 & H5) Hh Ho Hok. unfold inv, total in *. cbn [sum_list_with] in *.
  setoid_rewrite Hh. setoid_rewrite Ho. apply Forall_cons in H5 as [_ H5].
  split_and!; try done. by constructor.
Qed.

(** Dooming a blob hands it to exactly one thread. *)
Lemma inv_doom sets blobs life told t ts sha life' doomed :
  doom hex_encode sets sha life = (life', doomed) → inv sets blobs life (told :: ts) →
  (∀ h, holds h t = holds h told) → (∀ h, owns h told = 0) →
  (∀ h, owns h t = count h (option_list doomed)) → thread_ok blobs t →
  inv sets blobs life' (t :: ts).
Proof.
  intros Hdoom (H1 & H2 & H3 & H4 & H5) Hh Hz Ho Hok. unfold inv, total in *.
  cbn [sum_list_with] in *. setoid_rewrite Hh. setoid_rewrite Ho.
  apply Forall_cons in H5 as [_ H5]. setoid_rewrite Hz in H4. cbn [Nat.add] in H4.
  apply doom_spec in Hdoom as [[-> ->]|(-> & Hn & Hu & Hd & ->)]; cbn [uploading deleting].
  { split_and!; auto. }
  assert (Hzero : (holds sha told + sum_list_with (holds sha) ts)%nat = 0%nat).
  { destruct (H2 sha) as [Heq _]. by rewrite Hu in Heq. }
  split_and!.
  - intros h Hname. destruct (H1 h Hname). split; [done|].
    rewrite not_elem_of_union, not_elem_of_singleton. split; [|done]. by intros ->.
  - done.
  - intros h Hpos. rewrite not_elem_of_union, not_elem_of_singleton. split; [|by apply H3].
    intros ->. lia.
  - intros h. change (option_list (Some sha)) with [sha]. rewrite count_singleton, H4.
    destruct (decide (sha = h)) as [->|Hne].
    + rewrite (decide_False (P := h ∈ deleting life)) by done.
      rewrite decide_True by (by apply elem_of_union_l, elem_of_singleton). done.
    + apply decide_ext. rewrite elem_of_union, elem_of_singleton. naive_solver.
  - by constructor.
Qed.

Lemma inv_begin sets blobs life ts sha life' i p sz :
  begin_upload sha life = Some life' → inv sets blobs life (Stored i p sha sz :: ts) →
  inv sets blobs life' (Held i p sha sz :: ts).
Proof.
  unfold begin_upload. case_bool_decide as Hd; [done|]. intros [= <-] (H1 & H2 & H3 & H4 & H5).
  unfold inv, total in *. cbn [sum_list_with holds owns uploading deleting] in *.
  apply Forall_cons in H5 as [_ H5]. split_and!; try done.
  - intros h. rewrite count_singleton. specialize (H2 h). destruct (decide (sha = h)) as [->|Hne].
    + rewrite lookup_insert_eq. destruct H2 as [Heq _]. cbn in *. by rewrite Heq.
    + rewrite lookup_insert_ne by done. done.
  - intros h. rewrite count_singleton. destruct (decide (sha = h)) as [->|Hne]; [done|]. apply H3.
  - by constructor.
Qed.

Lemma inv_end sets blobs life told t ts sha :
  inv sets blobs life (told :: ts) → (∀ h, holds h told = count h [sha]) → (∀ h, holds h t = 0) →
  (∀ h, owns h t = owns h told) → thread_ok blobs t →
  inv sets blobs (end_upload sha life) (t :: ts).
Proof.
  intros (H1 & H2 & H3 & H4 & H5) Hh Hz Ho Hok. unfold inv, total in *. cbn [sum_list_with] in *.
  setoid_rewrite Hz. setoid_rewrite Ho. setoid_rewrite Hh in H2. setoid_rewrite Hh in H3.
  apply Forall_cons in H5 as [_ H5].
  assert (Hlife : deleting (end_upload sha life) = deleting life)
    by (unfold end_upload; by destruct (uploading life !! sha)).
  rewrite Hlife. split_and!; try done.
  - intros h. specialize (H2 h). rewrite count_singleton in H2. unfold end_upload.
    destruct (uploading life !! sha) as [n|] eqn:Hn; cycle 1.
    { destruct (decide (sha = h)) as [->|Hne]; [|done]. rewrite Hn in H2.
      destruct H2 as [Heq _]. cbn in Heq. lia. }
    cbn [uploading]. destruct (decide (sha = h)) as [->|Hne].
    + rewrite Hn in H2. destruct H2 as [Heq _]. cbn in Heq.
      destruct (Nat.eqb_spec (n - 1) 0) as [He|He].
      * rewrite lookup_delete_eq. cbn. split; [lia|done].
      * rewrite lookup_insert_eq. cbn. split; [lia|]. intros [= ?]. lia.
    + destruct (Nat.eqb_spec (n - 1) 0); [by rewrite lookup_delete_ne|by rewrite lookup_insert_ne].
  - intros h Hpos. apply H3. rewrite count_singleton. destruct (decide (sha = h)); cbn in *; lia.
  - by constructor.
Qed.

Lemma inv_delete sets blobs life ts doomed sha todo :
  inv sets blobs life (Sweeping doomed (sha :: todo) :: ts) →
  inv sets (blobs ∖ {[sha]}) life (Sweeping doomed todo :: ts).
Proof.
  intros (H1 & H2 & H3 & H4 & H5). unfold inv, total in *. cbn [sum_list_with holds owns] in *.
  apply Forall_cons in H5 as [Hok H5]. cbn in Hok.
  assert (Hdel : sha ∈ deleting life).
  { specialize (H4 sha). assert (0 < count sha doomed)%nat by (apply count_pos, Hok; by left).
    destruct (decide (sha ∈ deleting life)); [done|lia]. }
  split_and!; try done.
  - intros h Hname. destruct (H1 h Hname) as [Hb Hd]. split; [|done].
    rewrite elem_of_difference, not_elem_of_singleton. split; [done|]. by intros ->.
  - constructor; [intros h Hh; apply Hok; by right|].
    rewrite Forall_forall in H5. apply Forall_forall. intros t Ht. specialize (H5 t Ht).
    assert (Hhold : holds sha t = 0%nat).
    { destruct (decide (0 < sum_list_with (holds sha) ts)%nat) as [Hpos|Hz];
        [by destruct (H3 sha)|].
      assert (holds sha t ≤ sum_list_with (holds sha) ts)%nat; [|lia].
      clear -Ht. induction ts as [|t' ts IH]; [by apply elem_of_nil in Ht|]. cbn.
      apply elem_of_cons in Ht as [->|Ht]; [lia|]. specialize (IH Ht). lia. }
    destruct t; cbn [thread_ok holds] in *; try done; rewrite count_singleton in Hhold;
      rewrite elem_of_difference, not_elem_of_singleton; (split; [done|]); by destruct (decide _).
Qed.

Lemma inv_swept sets blobs life ts doomed :
  inv sets blobs life (Sweeping doomed [] :: ts) →
  inv sets blobs (mkLife (uploading life) (deleting life ∖ list_to_set doomed)) ts.
Proof.
  intros (H1 & H2 & H3 & H4 & H5). unfold inv, total in *.
  cbn [sum_list_with holds owns uploading deleting] in *. apply Forall_cons in H5 as [_ H5].
  split_and!; try done.
  - intros h Hname. destruct (H1 h Hname). split; [done|]. rewrite elem_of_difference. tauto.
  - intros h Hpos. rewrite elem_of_difference. specialize (H3 h Hpos). tauto.
  - intros h. specialize (H4 h). pose proof (count_pos h doomed) as Hc.
    destruct (decide (h ∈ deleting life)) as [Hd|Hd];
      destruct (decide (h ∈ deleting life ∖ list_to_set doomed)) as [Hd'|Hd'];
      rewrite elem_of_difference, elem_of_list_to_set in Hd'.
    + destruct (count h doomed); [lia|]. destruct Hd'. exfalso. apply H0, Hc. lia.
    + destruct (decide (h ∈ doomed)) as [Hin|Hin]; [apply Hc in Hin; lia|]. by destruct Hd'.
    + by destruct Hd'.
    + lia.
Qed.

Lemma names_put_in sets i e h :
  names hex_encode (put_in sets i e) h → names hex_encode sets h ∨ h = hex_encode (content_hash e).
Proof.
  unfold put_in. intros (j & set & p & e' & Hj & Hp & He).
  apply lookup_alter_Some in Hj as [(-> & set0 & H0 & ->)|[Hne Hj]]; [|left; by exists j, set, p, e'].
  cbn in Hp. apply lookup_insert_Some in Hp as [[<- <-]|[_ Hp]]; [by right|].
  left. by exists j, set0, p, e'.
Qed.

Lemma names_take_out sets i p h :
  names hex_encode (take_out sets i p) h → names hex_encode sets h.
Proof.
  unfold take_out. intros (j & set & q & e' & Hj & Hq & He).
  apply lookup_alter_Some in Hj as [(-> & set0 & H0 & ->)|[Hne Hj]]; [|by exists j, set, q, e'].
  cbn in Hq. apply lookup_delete_Some in Hq as [_ Hq]. by exists j, set0, q, e'.
Qed.

Lemma inv_fewer_names sets sets' blobs life ts :
  (∀ h, names hex_encode sets' h → names hex_encode sets h) →
  inv sets blobs life ts → inv sets' blobs life ts.
Proof. intros Hsub (H1 & H). split; [|done]. intros h Hn. apply H1. auto. Qed.

(** The upload that records its entry: the blob is stored, and nobody deletes it. *)
Lemma inv_record sets blobs life ts i p sha sz hash :
  hex_decode sha = Some hash → inv sets blobs life (Written i p sha sz :: ts) →
  inv (put_in sets i (uploaded p hash sz)) blobs life (Written i p sha sz :: ts).
Proof.
  intros Hhash (H1 & H2 & H3 & H4 & H5). split; [|done].
  intros h [Hn|Hn]%names_put_in; [by apply H1|]. cbn in Hn.
  rewrite (hex_round_trip _ _ Hhash) in Hn. subst h. apply Forall_cons in H5 as [Hok _].
  split; [done|]. apply H3. unfold total. cbn [sum_list_with holds]. rewrite count_singleton, decide_True by done. lia.
Qed.

Lemma move_inv st t st' new rest :
  move hex_encode hex_decode false st t st' new →
  inv (sets st) (blobs st) (life st) (t :: rest) →
  inv (sets st') (blobs st') (life st') (new ++ rest).
Proof.
  intros Hm H. destruct Hm; cbn [app sets blobs life].
  - by eapply inv_begin.
  - by eapply inv_same.
  - by eapply inv_same.
  - by eapply inv_same.
  - by eapply inv_same.
  - by eapply inv_same.
  - by eapply inv_same.
  - eapply inv_same; [done..|]. destruct H as (_ & _ & _ & _ & [Hok _]%Forall_cons). done.
  - by eapply inv_same.
  - by eapply inv_same.
  - eapply inv_record in H; [|done]. destruct (entries set !! p) as [previous|].
    + by eapply inv_doom.
    + simplify_eq. by eapply inv_same.
  - eapply inv_end; [done|done|done|done|]. by intros h.
  - by eapply inv_end.
  - eapply inv_same; [done..|]. by intros h.
  - eapply inv_doom; [done|done|done|done|done|]. by intros h.
  - by eapply inv_delete.
  - eapply inv_same; [done..|]. by intros h ?%elem_of_nil.
  - eapply inv_same; [done..|]. destruct H as (_ & _ & _ & _ & [Hok _]%Forall_cons).
    intros h Hh. apply Hok. by right.
  - by eapply inv_swept.
Qed.

(** A thread that has nothing to do and counts for nothing may be added. *)
Lemma inv_idle sets blobs life ts :
  inv sets blobs life ts → inv sets blobs life (GivenUp "" true :: ts).
Proof.
  intros (H1 & H2 & H3 & H4 & H5). unfold inv, total in *. cbn [sum_list_with holds owns].
  split_and!; try done. by constructor.
Qed.

Lemma inv_doom_all sets blobs life ts done shas life' doomed :
  doom_all hex_encode sets shas life = (life', doomed) →
  inv sets blobs life (Sweeping done done :: ts) →
  inv sets blobs life' (Sweeping (done ++ doomed) (done ++ doomed) :: ts).
Proof.
  revert life doomed done. induction shas as [|sha shas IH]; intros life doomed done; cbn.
  { intros [= <- <-]. by rewrite app_nil_r. }
  destruct (doom hex_encode sets sha life) as [life1 d1] eqn:E1.
  destruct (doom_all hex_encode sets shas life1) as [life2 d2] eqn:E2.
  intros [= <- <-] H. rewrite app_assoc. eapply IH; [done|].
  apply inv_idle in H. eapply (inv_doom _ _ _ _ (Sweeping (option_list d1) (option_list d1))) in H;
    [|done..|by intros h].
  destruct H as (H1 & H2 & H3 & H4 & H5). unfold inv, total in *.
  cbn [sum_list_with holds owns] in *. apply Forall_cons in H5 as [_ H5].
  apply Forall_cons in H5 as [_ H5]. split_and!; try done.
  - intros h. rewrite count_app. specialize (H4 h). lia.
  - constructor; [by intros h|done].
Qed.

(** ** Memory and disk *)

Lemma entry_put_in (m : gmap PackageId Package) i e j p :
  entry_at (put_in m i e) j p = (if decide (i = j ∧ platform e = p ∧ is_Some (m !! i)) then Some e else entry_at m j p).
Proof.
  unfold entry_at, put_in, Sets. destruct (decide (i = j)) as [->|Hne].
  - rewrite lookup_alter_eq. destruct (m !! j) as [set|] eqn:E; cbn.
    + destruct (decide (platform e = p)) as [<-|Hp].
      * rewrite lookup_insert_eq, decide_True; [done|eauto].
      * rewrite lookup_insert_ne, decide_False; [done|naive_solver|done].
    + rewrite decide_False; [done|]. intros (_ & _ & [? ?]). done.
  - rewrite lookup_alter_ne, decide_False by naive_solver. done.
Qed.

Lemma entry_take_out (m : gmap PackageId Package) i p j q :
  entry_at (take_out m i p) j q = if decide (i = j ∧ p = q) then None else entry_at m j q.
Proof.
  unfold entry_at, take_out, Sets. destruct (decide (i = j)) as [->|Hne].
  - rewrite lookup_alter_eq. destruct (m !! j) as [set|] eqn:E; cbn; [|by destruct (decide _)].
    destruct (decide (p = q)) as [<-|Hp].
    + rewrite lookup_delete_eq, decide_True; done.
    + rewrite lookup_delete_ne, decide_False; [done|naive_solver|done].
  - rewrite lookup_alter_ne, decide_False by naive_solver. done.
Qed.

Lemma entry_sign_in (m : gmap PackageId Package) i p sg j q e :
  entry_at (sign_in m i p sg) j q = Some e → ∃ e', entry_at m j q = Some e' ∧ content_hash e' = content_hash e.
Proof.
  unfold entry_at, sign_in, Sets. destruct (decide (i = j)) as [->|Hne]; [|rewrite lookup_alter_ne by done; eauto].
  rewrite lookup_alter_eq. destruct (m !! j) as [set|]; cbn; [|done].
  destruct (decide (p = q)) as [->|Hp]; [|rewrite lookup_alter_ne by done; eauto].
  rewrite lookup_alter_eq. destruct (entries set !! q) as [e'|]; cbn; [|done]. intros [= <-]. eauto.
Qed.

Lemma entry_signed (m : gmap PackageId Package) i p sg j q e :
  entry_at m j q = Some e → ∃ e', entry_at (sign_in m i p sg) j q = Some e' ∧ content_hash e' = content_hash e.
Proof.
  unfold entry_at, sign_in, Sets. destruct (decide (i = j)) as [->|Hne]; [|rewrite lookup_alter_ne by done; eauto].
  rewrite lookup_alter_eq. destruct (m !! j) as [set|]; cbn; [|done].
  destruct (decide (p = q)) as [->|Hp]; [|rewrite lookup_alter_ne by done; eauto].
  rewrite lookup_alter_eq. intros ->. cbn. eauto.
Qed.

Lemma entry_take_up (m : gmap PackageId Package) i p stored j q :
  is_Some (m !! i) →
  entry_at (take_up m i p stored) j q = if decide (i = j ∧ p = q) then stored else entry_at m j q.
Proof.
  intros Hm. unfold entry_at, take_up, Sets. destruct (decide (i = j)) as [->|Hne].
  - rewrite lookup_alter_eq. destruct Hm as [set ->]; cbn. destruct stored as [e|], (decide (p = q)) as [<-|Hp];
      rewrite ?lookup_insert_eq, ?lookup_delete_eq, ?lookup_insert_ne, ?lookup_delete_ne by done;
      first [by rewrite decide_True|by rewrite decide_False by naive_solver].
  - rewrite lookup_alter_ne, decide_False by naive_solver. done.
Qed.

Lemma entry_create_in (m : gmap PackageId Package) i j q e : entry_at (create_in m i) j q = Some e → entry_at m j q = Some e.
Proof.
  unfold entry_at, create_in, Sets. destruct (m !! i) as [set|] eqn:E; [done|].
  destruct (decide (i = j)) as [->|Hne]; [|by rewrite lookup_insert_ne].
  rewrite lookup_insert_eq. cbn. by rewrite lookup_empty.
Qed.

Lemma entry_at_Some (m : gmap PackageId Package) i p e : entry_at m i p = Some e → is_Some (m !! i).
Proof. unfold entry_at, Sets. destruct (m !! i); [eauto|done]. Qed.

Lemma names_entry m h : names hex_encode m h ↔ ∃ i p e, entry_at m i p = Some e ∧ hex_encode (content_hash e) = h.
Proof.
  unfold names, entry_at. split.
  - intros (i & set & p & e & Hi & Hp & He). exists i, p, e. by rewrite Hi.
  - intros (i & p & e & He & Hh). destruct (m !! i) as [set|] eqn:E; [|done]. by exists i, set, p, e.
Qed.
Lemma total_elem f ts t : t ∈ ts → (f t ≤ total f ts)%nat.
Proof. unfold total. induction 1 as [|? ? ? _ IH]; cbn; lia. Qed.

Lemma agree_perm sets disk writing ts ts' : ts ≡ₚ ts' → agree sets disk writing ts → agree sets disk writing ts'.
Proof.
  intros Hp (Hb & Hw & Hd). split_and!; [by rewrite <- (total_perm _ _ _ Hp)|..].
  - intros i p sha sz e. rewrite <- Hp. apply Hw.
  - intros i p e He. destruct (Hd i p e He) as [?|[sz Hin]]; [by left|right]. exists sz. by rewrite <- Hp.
Qed.

(** A thread that moves on and writes nothing. *)
Lemma agree_thread sets disk writing (writing' : bool) told (new ts : list Thread) :
  agree sets disk writing (told :: ts) → (∀ i p sha sz, told ≠ Written i p sha sz) →
  (∀ i p sha sz, Written i p sha sz ∉ new) → total busy (new ++ ts) = (if writing' then 1 else 0) →
  agree sets disk writing' (new ++ ts).
Proof.
  intros (Hb & Hw & Hd) Hne Hnew Ht. split_and!; [done|..].
  - intros i p sha sz e [Hin|Hin]%elem_of_app; [by apply Hnew in Hin|]. apply (Hw i p sha sz e). by right.
  - intros i p e He. destruct (Hd i p e He) as [?|[sz Hin]]; [by left|right]. exists sz.
    apply elem_of_cons in Hin as [Heq|Hin]; [by destruct (Hne _ _ _ _ (eq_sym Heq))|]. apply elem_of_app. by right.
Qed.

(** While no thread is within a write, every entry stored is one memory names. *)
Lemma agree_idle sets disk ts i p e :
  agree sets disk false ts → entry_at disk i p = Some e →
  ∃ e', entry_at sets i p = Some e' ∧ hex_encode (content_hash e') = hex_encode (content_hash e).
Proof.
  intros (Hb & _ & Hd) He. destruct (Hd i p e He) as [?|[sz Hin]]; [done|]. apply (total_elem busy) in Hin. cbn in Hin. lia.
Qed.

Lemma agree_of_idle sets disk ts :
  total busy ts = 0%nat →
  (∀ i p e, entry_at disk i p = Some e →
     ∃ e', entry_at sets i p = Some e' ∧ hex_encode (content_hash e') = hex_encode (content_hash e)) →
  agree sets disk false ts.
Proof.
  intros Hb Hd. split_and!; [done| |intros i p e He; left; by apply Hd].
  intros i p sha sz e Hin. apply (total_elem busy) in Hin. cbn in Hin. lia.
Qed.

Ltac outside_writes := intros; rewrite ?list_elem_of_singleton; first [done|apply not_elem_of_nil].

Lemma move_agree st t st' new rest :
  move hex_encode hex_decode false st t st' new →
  agree (sets st) (disk st) (writing st) (t :: rest) →
  agree (sets st') (disk st') (writing st') (new ++ rest).
Proof.
  intros Hm H. pose proof H as (Hb & Hw & Hd). unfold total in Hb. cbn [sum_list_with] in Hb.
  destruct Hm as [| | | | | |st i p sha sz _ Hwr| st i p sha sz hash Hhash [dset Hdset] | | |st i p sha sz hash set life' doomed Hhash Hi _| | | | | | | |];
    cbn [sets disk writing] in *; cbn [busy] in Hb;
    try (eapply agree_thread; [exact H|done|outside_writes|unfold total; cbn; done]).
  - eapply agree_thread; [exact H|done|outside_writes|]. unfold total. cbn. rewrite Hwr in Hb. lia.
  - assert (Hrest : sum_list_with busy rest = 0%nat) by (destruct (writing st); lia).
    assert (Hno : ∀ t, t ∈ rest → busy t = 0%nat) by (intros t Ht; apply (total_elem busy) in Ht; unfold total in Ht; lia).
    split_and!; [unfold total; cbn; lia|..].
    + intros j q sha' sz' e [[= -> -> -> ->]|Hin]%elem_of_cons; [|by apply Hno in Hin].
      rewrite entry_put_in, decide_True by eauto. intros [= <-]. by apply hex_round_trip.
    + intros j q e He. rewrite entry_put_in in He. destruct (decide _) as [(<- & <- & _)|_].
      * injection He as <-. right. exists sz. cbn. rewrite (hex_round_trip _ _ Hhash). by left.
      * destruct (Hd j q e He) as [?|[sz' Hin]]; [by left|right]. exists sz'.
        apply elem_of_cons in Hin as [?|?]; [done|by right].
  - eapply agree_thread; [exact H|done|outside_writes|]. unfold total. cbn. destruct (writing st); lia.
  - done.
  - assert (Hrest : sum_list_with busy rest = 0%nat) by (destruct (writing st); lia).
    apply agree_of_idle; [done|]. intros j q e He. rewrite entry_put_in. destruct (decide _) as [(<- & <- & _)|Hne].
    + exists (uploaded p hash sz). split; [done|]. cbn. rewrite (hex_round_trip _ _ Hhash). symmetry.
      apply (Hw i p sha sz e); [by left|done].
    + destruct (Hd j q e He) as [?|[sz' Hin]]; [done|]. apply elem_of_cons in Hin as [[= -> -> _ _]|Hin].
      * destruct Hne. split_and!; [done..|]. by eexists.
      * apply (total_elem busy) in Hin. unfold total in Hin. cbn in Hin. lia.
Qed.

Lemma step_agree st st' :
  step hex_encode hex_decode false st st' →
  agree (sets st) (disk st) (writing st) (threads st) →
  agree (sets st') (disk st') (writing st') (threads st').
Proof.
  intros Hs H. destruct Hs as [st st' ts1 ts2 t new Hts Hm|st i p sha sz Hi|st i Hw Hi
    |st i set p e life' doomed Hw Hi He Hd|st i set life' doomed Hw Hi Hd
    |st i p e sg Hw He Hsg|st i p e Hw He Hsg|st disk' Hw Hdisk];
    cbn [with_threads sets disk writing threads]; try rewrite Hw in H.
  - rewrite Hts in H. apply (agree_perm _ _ _ _ (t :: ts1 ++ ts2)) in H; [|by rewrite Permutation_middle].
    apply (move_agree _ _ _ _ _ Hm) in H. eapply agree_perm, H.
    rewrite !app_assoc. apply Permutation_app_tail, Permutation_app_comm.
  - destruct H as (Hb & Hwr & Hd). split_and!; [done| |].
    + intros j q sha' sz' e' [?|Hin]%elem_of_cons; [done|by eapply Hwr].
    + intros j q e' He'. destruct (Hd j q e' He') as [?|[sz' ?]]; [by left|right]. exists sz'. by right.
  - apply agree_of_idle; [apply H|]. intros j q e' He'%entry_create_in.
    destruct (agree_idle _ _ _ _ _ _ H He') as (e2 & He2 & Hh). exists e2. split; [|done].
    destruct (decide (i = j)) as [->|Hne]; [unfold entry_at in He2; by rewrite Hi in He2|].
    unfold entry_at, Sets. by rewrite lookup_insert_ne.
  - apply agree_of_idle; [apply H|]. intros j q e'. rewrite !entry_take_out. destruct (decide _); [done|].
    by apply (agree_idle _ (disk st) (threads st)).
  - apply agree_of_idle; [apply H|]. intros j q e' He'. revert He'. unfold entry_at, Sets.
    destruct (decide (i = j)) as [->|Hne]; [by rewrite lookup_delete_eq|]. rewrite !lookup_delete_ne by done.
    intros He'. by apply (agree_idle _ _ _ j q e' H) in He'.
  - apply agree_of_idle; [apply H|]. intros j q e' (e1 & He1 & <-)%entry_sign_in.
    destruct (agree_idle _ _ _ _ _ _ H He1) as (e2 & He2 & Hh).
    destruct (entry_signed (sets st) i p sg j q e2 He2) as (e3 & He3 & Hh3). exists e3. by rewrite Hh3.
  - apply agree_of_idle; [apply H|]. intros j q e' He'. rewrite entry_take_up.
    + destruct (decide _) as [[<- <-]|_]; [eauto|]. by apply (agree_idle _ (disk st) (threads st)).
    + by eapply entry_at_Some.
  - apply agree_of_idle; [apply H|]. intros j q e' He'.
    assert (∃ e1, entry_at (disk st) j q = Some e1 ∧ content_hash e1 = content_hash e') as (e1 & He1 & <-);
      [|by apply (agree_idle _ _ _ j q e1 H) in He1].
    destruct Hdisk as [(i & _ & ->)|[(i & p & ->)|(i & p & sg & ->)]].
    + apply entry_create_in in He'. eauto.
    + rewrite entry_take_out in He'. destruct (decide _); [done|eauto].
    + by apply entry_sign_in in He'.
Qed.

Lemma step_inv st st' :
  step hex_encode hex_decode false st st' →
  agree (sets st) (disk st) (writing st) (threads st) →
  inv (sets st) (blobs st) (life st) (threads st) →
  inv (sets st') (blobs st') (life st') (threads st').
Proof.
  intros Hs Ha H. destruct Hs as [st st' ts1 ts2 t new Hts Hm|st i p sha sz Hi|st i Hw Hi
    |st i set p e life' doomed Hw Hi He Hd|st i set life' doomed Hw Hi Hd
    |st i p e sg Hw He Hsg|st i p e Hw He Hsg|st disk' Hw _];
    cbn [with_threads sets blobs life threads].
  - rewrite Hts in H. apply (inv_perm _ _ _ _ (t :: ts1 ++ ts2)) in H; [|by rewrite Permutation_middle].
    apply (move_inv _ _ _ _ _ Hm) in H. eapply inv_perm, H.
    rewrite !app_assoc. apply Permutation_app_tail, Permutation_app_comm.
  - destruct H as (H1 & H2 & H3 & H4 & H5). unfold inv, total. cbn [sum_list_with holds owns].
    split_and!; try done.
    + intros h Hn. destruct (H1 h Hn). split; [by apply elem_of_union_r|done].
    + constructor; [done|]. eapply Forall_impl; [exact H5|]. intros t Ht.
      destruct t; cbn in *; try done; by apply elem_of_union_r.
  - eapply inv_fewer_names; [|done]. intros h (j & set & p & e & Hj & Hp & He).
    apply lookup_insert_Some in Hj as [[<- <-]|[_ Hj]]; [cbn in Hp; by rewrite lookup_empty in Hp|].
    by exists j, set, p, e.
  - eapply inv_doom; [exact Hd|apply inv_idle|done|done|done|by intros h].
    eapply inv_fewer_names, H. intros h. apply names_take_out.
  - change doomed with ([] ++ doomed). eapply inv_doom_all; [exact Hd|].
    eapply inv_same; [apply inv_idle|done|done|by intros h].
    eapply inv_fewer_names, H. intros h (j & set' & p & e & Hj & Hp & He).
    apply lookup_delete_Some in Hj as [_ Hj]. by exists j, set', p, e.
  - eapply inv_fewer_names, H. intros h. rewrite !names_entry. intros (j & q & e' & (e1 & He1 & Hh)%entry_sign_in & <-).
    exists j, q, e1. by rewrite Hh.
  - eapply inv_fewer_names, H. rewrite Hw in Ha. intros h. rewrite !names_entry. intros (j & q & e' & He' & <-).
    rewrite entry_take_up in He' by (by eapply entry_at_Some).
    destruct (decide _) as [[<- <-]|_]; [|eauto].
    destruct (agree_idle _ _ _ _ _ _ Ha He') as (e2 & He2 & Hh). eauto.
  - done.
Qed.

Lemma open_sets_spec stored loaded acc m :
  open_sets hex_encode stored loaded acc = Ok m →
  (∀ h, names hex_encode acc h → is_Some (stored !! h)) →
  ∀ h, names hex_encode m h → is_Some (stored !! h).
Proof.
  revert acc. induction loaded as [|package loaded IH]; intros acc; cbn; [by intros [= <-]|].
  destruct (check_each _ _) as [[]|] eqn:E; [|done]. cbn. intros Hm Hacc. eapply IH; [exact Hm|].
  intros h (i & set & p & e & Hi & Hp & He).
  apply lookup_insert_Some in Hi as [[<- <-]|[_ Hi]]; [|apply Hacc; by exists i, set, p, e].
  rewrite check_each_Ok in E. specialize (E e). unfold check_entry in E.
  rewrite He in E. destruct (stored !! h); [eauto|]. discriminate E.
  unfold entry_values. rewrite (merge_sort_Permutation entry_le).
  apply list_elem_of_fmap. exists (p, e). split; [done|]. by apply elem_of_map_to_list.
Qed.

Lemma reachable_inv st :
  reachable hex_encode hex_decode false st →
  agree (sets st) (disk st) (writing st) (threads st) ∧ inv (sets st) (blobs st) (life st) (threads st).
Proof.
  induction 1 as [loaded stored st Hopen|st st' _ [Ha IH] Hs]; [|split; [by eapply step_agree|by eapply step_inv]].
  unfold open_store in Hopen.
  destruct (open_sets hex_encode stored loaded ∅) as [m|] eqn:E; [|done].
  cbn in Hopen. simplify_eq. cbn. split; [apply agree_of_idle; [done|eauto]|].
  unfold inv, total. cbn. split_and!; try done.
  - intros h Hn. split; [|set_solver]. apply elem_of_filter. split; [by apply referenced_names|].
    apply elem_of_dom. eapply open_sets_spec; [exact E| |exact Hn].
    intros h' (i & set & p & e & Hi & _). by apply (lookup_empty_Some (M := gmap PackageId)) in Hi.
Qed.

(** C1: no entry names a deleted blob: in every state the interleaved uploads, deletions, signatures and
    sweeps of one Server reach from an opened store, each entry in memory names a blob that is stored,
    and none that is chosen for deletion — as long as no upload's entry has its write fail once it is
    on the disk. Every other write may fail, before or after it reached the disk. *)
Theorem entries_name_stored_blobs (st : State) (i : PackageId) (set : Package) (p : Platform)
    (e : Entry) :
  reachable hex_encode hex_decode false st → sets st !! i = Some set → entries set !! p = Some e →
  hex_encode (content_hash e) ∈ blobs st ∧ hex_encode (content_hash e) ∉ deleting (life st).
Proof.
  intros [_ (H1 & _)]%reachable_inv Hi Hp. apply H1. by exists i, set, p, e.
Qed.

(** The bookkeeping balances: when every thread has run to its end no upload is held and no
    deletion is marked, so no later upload is refused and no blob is kept for an upload that is
    over. *)
Theorem quiescent_life_is_empty (st : State) :
  reachable hex_encode hex_decode false st → threads st = [] →
  uploading (life st) = ∅ ∧ deleting (life st) = ∅.
Proof.
  intros [_ (_ & H2 & _ & H4 & _)]%reachable_inv Hts. rewrite Hts in *. split.
  - apply map_eq. intros h. rewrite lookup_empty. destruct (H2 h) as [Heq Hne]. cbn in Heq.
    destruct (uploading (life st) !! h) as [[|n]|]; cbn in *; [done|lia|done].
  - apply leibniz_equiv. intros h. specialize (H4 h). cbn in H4.
    destruct (decide (h ∈ deleting (life st))); [lia|]. set_solver.
Qed.
End Invariant.

(** ** Runs *)

Definition sample_decode (sha : string) : option (list N) :=
  if bool_decide (sha = "aa") then Some [170]%N else if bool_decide (sha = "bb") then Some [187]%N else None.

Lemma sample_hex sha hash : sample_decode sha = Some hash → hex_of hash = sha.
Proof. unfold sample_decode. repeat case_bool_decide; try done; intros [= <-]; by subst. Qed.

(** A thread at the head of the list moves. *)
Lemma reachable_head late st t st' new rest :
  reachable hex_of sample_decode late st → threads st = t :: rest →
  move hex_of sample_decode late st t st' new →
  reachable hex_of sample_decode late (with_threads st' (new ++ rest)).
Proof.
  intros Hr Hts Hm. eapply reachable_step; [exact Hr|].
  exact (step_move _ _ _ st st' [] rest t new Hts Hm).
Qed.

(** The store just after an upload of one blob has been found stored. *)
Definition found_state : State :=
  mkState {[sample_id := mkPackage sample_id ∅]} {[sample_id := mkPackage sample_id ∅]} {["aa"]}
    (mkLife {["aa" := 1]} ∅) true [Found sample_id linux "aa" 7].

Lemma found_reachable late : reachable hex_of sample_decode late found_state.
Proof.
  assert (H0 : reachable hex_of sample_decode late (mkState ∅ ∅ ∅ (mkLife ∅ ∅) false []))
    by (by apply (reachable_open _ _ _ [] ∅)).
  eapply reachable_step in H0; [|by apply (step_create _ _ _ _ sample_id)]. cbn in H0.
  eapply reachable_step in H0; [|apply (step_upload _ _ _ _ sample_id linux "aa" 7); by eexists].
  cbn in H0. eapply reachable_head in H0; [|reflexivity|by apply move_begin]. cbn in H0.
  eapply reachable_head in H0; [|reflexivity|].
  2:{ apply move_found; [done|done|by eexists|by apply elem_of_union_l, elem_of_singleton]. }
  cbn in H0. unfold found_state. exact H0.
Qed.

Definition recorded_state : State :=
  mkState (put_in {[sample_id := mkPackage sample_id ∅]} sample_id (uploaded linux [170]%N 7))
    (put_in {[sample_id := mkPackage sample_id ∅]} sample_id (uploaded linux [170]%N 7)) {["aa"]}
    (mkLife {["aa" := 1]} ∅) false [Recorded "aa" None].

Lemma recorded_reachable late : reachable hex_of sample_decode late recorded_state.
Proof.
  pose proof (found_reachable late) as H0.
  eapply reachable_head in H0; [|reflexivity|apply (move_written _ _ _ _ _ _ _ _ [170]%N); [done|by eexists]].
  cbn in H0. eapply reachable_head in H0; [|reflexivity|].
  2:{ by apply (move_recorded _ _ _ _ _ _ _ _ [170]%N (mkPackage sample_id ∅)). }
  exact H0.
Qed.

Lemma entries_name_stored_blobs_witness :
  hex_of [170]%N ∈ blobs recorded_state ∧ hex_of [170]%N ∉ deleting (life recorded_state).
Proof.
  apply (entries_name_stored_blobs hex_of sample_decode sample_hex recorded_state sample_id
    (mkPackage sample_id {[linux := uploaded linux [170]%N 7]}) linux (uploaded linux [170]%N 7));
    [apply (recorded_reachable false)|vm_compute; reflexivity|vm_compute; reflexivity].
Defined.

Lemma ended_reachable late :
  reachable hex_of sample_decode late
    (mkState (sets recorded_state) (disk recorded_state) {["aa"]} (mkLife ∅ ∅) false []).
Proof.
  pose proof (recorded_reachable late) as H0.
  eapply reachable_head in H0; [|reflexivity|by apply move_end]. cbn in H0.
  eapply reachable_head in H0; [|reflexivity|by apply move_swept]. exact H0.
Qed.

Lemma quiescent_life_is_empty_witness :
  uploading (life (mkState (sets recorded_state) (disk recorded_state) {["aa"]} (mkLife ∅ ∅) false []))
    = ∅.
Proof. apply (quiescent_life_is_empty hex_of sample_decode sample_hex _ (ended_reachable false) eq_refl). Defined.

Lemma open_refused stored :
  stored !! "aa" = None →
  open_store hex_of [mkPackage sample_id {[linux := uploaded linux [170]%N 7]}] stored =
  Err (NotStored sample_id linux).
Proof.
  intros Hs. unfold open_store, open_sets. cbn [id entries].
  replace (entry_values {[linux := uploaded linux [170]%N 7]}) with [uploaded linux [170]%N 7]
    by (vm_compute; reflexivity).
  cbn [check_each]. unfold check_entry.
  replace (hex_of (content_hash (uploaded linux [170]%N 7))) with "aa" by (vm_compute; reflexivity).
  by rewrite Hs.
Qed.

(** An upload whose entry the backend wrote but did not confirm — its last sync failed — is
    given up with its blob, while the stored entry stays: the store then reaches a quiet state whose
    disk names a blob that is deleted, and which it refuses to open. *)
Theorem late_failure_strands_entry :
  ∃ st, reachable hex_of sample_decode true st ∧ threads st = [] ∧
    names hex_of (disk st) "aa" ∧ "aa" ∉ blobs st ∧
    ∀ stored, dom stored = blobs st →
      open_store hex_of (snd <$> map_to_list (disk st)) stored = Err (NotStored sample_id linux).
Proof.
  pose proof (found_reachable true) as H0.
  eapply reachable_head in H0; [|reflexivity|apply (move_write_failed_late _ _ _ _ _ _ _ _ [170]%N); [done|done|by eexists]].
  cbn in H0. eapply reachable_head in H0; [|reflexivity|by apply move_end_refused]. cbn in H0.
  eapply reachable_head in H0; [|reflexivity|by apply move_give_up]. cbn in H0.
  eapply reachable_head in H0; [|reflexivity|by apply move_delete]. cbn in H0.
  eapply reachable_head in H0; [|reflexivity|by apply move_swept]. cbn in H0.
  eexists. split; [exact H0|]. split; [done|]. split; [|split].
  - exists sample_id, (mkPackage sample_id {[linux := uploaded linux [170]%N 7]}), linux,
      (uploaded linux [170]%N 7). done.
  - apply (bool_decide_unpack _). vm_compute. exact I.
  - intros stored Hdom. cbn in Hdom.
    assert (Hs : stored !! "aa" = None).
    { apply not_elem_of_dom. rewrite Hdom. apply (bool_decide_unpack _). vm_compute. exact I. }
    match goal with |- open_store _ ?l _ = _ =>
      replace l with [mkPackage sample_id {[linux := uploaded linux [170]%N 7]}]
        by (vm_compute; reflexivity)
    end. by apply open_refused.
Qed.

(** A signature on the entry that was there before such an upload finds the stored entry changed, and
    takes it up: memory then names the blob that was deleted. *)
Theorem signed_entries_can_name_deleted_blobs :
  ∃ st, reachable hex_of sample_decode true st ∧ threads st = [] ∧ names hex_of (sets st) "bb" ∧ "bb" ∉ blobs st.
Proof.
  pose proof (ended_reachable true) as H0.
  eapply reachable_step in H0; [|apply (step_upload _ _ _ _ sample_id linux "bb" 7); by eexists]. cbn in H0.
  eapply reachable_head in H0; [|reflexivity|by apply move_begin]. cbn in H0.
  eapply reachable_head in H0; [|reflexivity|].
  2:{ apply move_found; [done|done|by eexists|by apply elem_of_union_l, elem_of_singleton]. }
  cbn in H0. eapply reachable_head in H0; [|reflexivity|
    apply (move_write_failed_late _ _ _ _ _ _ _ _ [187]%N); [done|done|by eexists]].
  cbn in H0. eapply reachable_head in H0; [|reflexivity|by apply move_end_refused]. cbn in H0.
  eapply reachable_head in H0; [|reflexivity|by apply move_give_up]. cbn in H0.
  eapply reachable_head in H0; [|reflexivity|by apply move_delete]. cbn in H0.
  eapply reachable_head in H0; [|reflexivity|by apply move_swept]. cbn in H0.
  eapply reachable_step in H0;
    [|apply (step_sign_changed _ _ _ _ sample_id linux (uploaded linux [170]%N 7)); vm_compute; reflexivity].
  eexists. split; [exact H0|]. split; [done|]. split.
  - apply names_entry. exists sample_id, linux, (uploaded linux [187]%N 7). split; vm_compute; reflexivity.
  - apply (bool_decide_unpack _). vm_compute. exact I.
Qed.
