(* ===== verification/Floors.v ===== *)
(** * Floors

    [fleet-server/src/floors.rs] and [fleet-server/src/fs/floors.rs]: the version below which no
    Client takes a package of an Agent type, raised and never lowered, the Server's copy of them over
    a [FloorStore], and the filesystem adapter of that port. JSON and the [hex] crate are
    parameters. *)

From S2P Require Import Prelude RustStr Version Packages Offers Fs.

Open Scope string_scope.
Open Scope list_scope.

Record Floor := mkFloor {
  floor_version : string;
  floor_signature : list N;
}.

#[export] Instance Floor_eq_dec : EqDecision Floor.
Proof. solve_decision. Defined.

Notation Floors := (gmap string Floor).

Inductive Put :=
| PutStored
| PutLower (stored : Floor).

#[export] Instance Put_eq_dec : EqDecision Put.
Proof. solve_decision. Defined.

(** Whether a version orders below the one stored. *)
Definition below (version stored : string) : bool :=
  match precedence version stored with
  | Some Lt => true
  | _ => false
  end.

Definition put_into (floors : Floors) (agent_type : string) (floor : Floor) : Floors * Put :=
  match floors !! agent_type with
  | Some stored =>
      if below (floor_version floor) (floor_version stored) then (floors, PutLower stored)
      else (<[agent_type := floor]> floors, PutStored)
  | None => (<[agent_type := floor]> floors, PutStored)
  end.

Inductive FloorError :=
| FloorIdentity (why : IdentityRefusal)
| FloorSignatureLength (length : nat)
| FloorLower (version : string)
| FloorStoreFailed.

Definition ED25519_SIGNATURE_LEN : nat := 64.

(** The port. *)
Class FloorStore (B : Type) := {
  floor_load : Eff B FloorError Floors;
  floor_put : string → Floor → Eff B FloorError Put;
  floor_remove : string → Eff B FloorError bool;
}.

(** [PackageFloors]: the floors held, over the store. *)
Record PackageFloors (B : Type) := mkFloors {
  floor_store : B;
  floors : Floors;
}.
Arguments mkFloors {B}.
Arguments floor_store {B}.
Arguments floors {B}.

Section Server.
Context {B : Type} `{!FloorStore B} (verifier : option (string → list N → bool)).

Definition through {A} (call : Eff B FloorError A) : Eff (PackageFloors B) FloorError A := λ s,
  let (b, r) := call (floor_store s) in (mkFloors b (floors s), r).

Definition hold (f : Floors → Floors) : Eff (PackageFloors B) FloorError unit := λ s,
  (mkFloors (floor_store s) (f (floors s)), Ok tt).

(** [PackageFloors::open]. *)
Definition floors_open (b : B) : B * result (PackageFloors B) FloorError :=
  match floor_load b with
  | (b, Err e) => (b, Err e)
  | (b, Ok m) =>
      match check_each (λ tf, match package_id_new tf.1 (floor_version tf.2) with
                              | Ok _ => None
                              | Err e => Some (FloorIdentity e)
                              end) (btree_iter m) with
      | Err e => (b, Err e)
      | Ok _ => (b, Ok (mkFloors b m))
      end
  end.

(** [state]: what the check of a floor's signature found. *)
Definition floor_state (agent_type : string) (floor : Floor) : SignatureState :=
  match verifier with
  | None => SigUnchecked
  | Some verifies =>
      if verifies (floor_statement agent_type (floor_version floor)) (floor_signature floor)
      then SigValid else SigInvalid
  end.

Definition floors_list (s : PackageFloors B) : list (string * Floor * SignatureState) :=
  (λ tf, (tf.1, tf.2, floor_state tf.1 tf.2)) <$> btree_iter (floors s).

Definition floors_reload : Eff (PackageFloors B) FloorError unit :=
  m <-! through floor_load ;;
  hold (λ _, m).

Definition floors_put (agent_type version : string) (signature : list N)
    : Eff (PackageFloors B) FloorError SignatureState :=
  _ <-! eff_of (map_err FloorIdentity (package_id_new agent_type version)) ;;
  if negb (length signature =? ED25519_SIGNATURE_LEN)%nat
  then eff_fail (FloorSignatureLength (length signature))
  else
    let floor := mkFloor version signature in
    put <-! through (floor_put agent_type floor) ;;
    match put with
    | PutStored =>
        _ <-! hold <[agent_type := floor]> ;;
        eff_ret (floor_state agent_type floor)
    | PutLower stored =>
        _ <-! hold <[agent_type := stored]> ;;
        eff_fail (FloorLower (floor_version stored))
    end.

Definition floors_remove (agent_type : string) : Eff (PackageFloors B) FloorError bool :=
  removed <-! through (floor_remove agent_type) ;;
  _ <-! hold (delete agent_type) ;;
  eff_ret removed.
End Server.

(** What a store promises: [floor_stored b m] says that [b] holds the floors [m]. *)
Class FloorStoreSpec {B : Type} `{!FloorStore B} (floor_stored : B → Floors → Prop) : Prop := {
  floor_load_law b m b' x :
    floor_stored b m → floor_load b = (b', x) → floor_stored b' m ∧ ∀ m', x = Ok m' → m' = m;
  floor_put_law b m t f b' x :
    floor_stored b m → floor_put t f b = (b', x) →
    x = Ok (put_into m t f).2 ∧ floor_stored b' (put_into m t f).1 ∨
    x = Err FloorStoreFailed ∧ (floor_stored b' m ∨ floor_stored b' (put_into m t f).1);
  floor_remove_law b m t b' x :
    floor_stored b m → floor_remove t b = (b', x) →
    x = Ok (bool_decide (is_Some (m !! t))) ∧ floor_stored b' (delete t m) ∨
    is_ok x = false ∧ (floor_stored b' m ∨ floor_stored b' (delete t m));
}.

(** ** Floors only rise *)

Lemma put_into_stored m t f :
  (put_into m t f).2 = PutStored → (put_into m t f).1 = <[t := f]> m.
Proof. unfold put_into. repeat case_match; cbn; congruence. Qed.

Lemma put_into_lower m t f stored :
  (put_into m t f).2 = PutLower stored →
  (put_into m t f).1 = m ∧ m !! t = Some stored ∧
  precedence (floor_version f) (floor_version stored) = Some Lt.
Proof.
  unfold put_into, below. destruct (m !! t) as [f0|]; [|done].
  destruct (precedence _ _) as [[]|] eqn:E; cbn; naive_solver.
Qed.

(** What stays of a floor over a write: the floor, or one that does not order below it. *)
Definition at_least (old new : Floor) : Prop :=
  precedence (floor_version new) (floor_version old) ≠ Some Lt.

Lemma put_into_at_least m t f t' old :
  m !! t' = Some old → is_Some (Version.parse (floor_version old)) →
  ∃ new, (put_into m t f).1 !! t' = Some new ∧ at_least old new.
Proof.
  intros Hold [v Hv]. assert (Hrefl : at_least old old).
  { unfold at_least. rewrite (parse_pair _ _ _ _ Hv Hv). by rewrite (cmp_refl key_compare). }
  unfold put_into. destruct (decide (t = t')) as [<-|Hne].
  - rewrite Hold. destruct (below _ _) eqn:Hb; cbn; [eauto|].
    exists f. rewrite lookup_insert_eq. split; [done|]. unfold at_least, below in *.
    destruct (precedence (floor_version f) (floor_version old)) as [[]|]; congruence.
  - exists old. split; [|done]. repeat case_match; cbn; by rewrite ?lookup_insert_ne.
Qed.

(** [not Lt] is transitive on versions that can be ordered. *)
Lemma at_least_trans a b c :
  is_Some (Version.parse (floor_version a)) → is_Some (Version.parse (floor_version b)) →
  is_Some (Version.parse (floor_version c)) →
  at_least a b → at_least b c → at_least a c.
Proof.
  intros [va Ha] [vb Hb] [vc Hc]. unfold at_least.
  rewrite (parse_pair _ _ _ _ Hb Ha), (parse_pair _ _ _ _ Hc Hb), (parse_pair _ _ _ _ Hc Ha).
  intros H1 H2 [= H3].
  destruct (key_compare (order_key vb) (order_key va)) eqn:E1; [|done|].
  - apply cmp_eq in E1. rewrite E1 in H2. congruence.
  - assert (E1' : key_compare (order_key va) (order_key vb) = Lt)
      by (rewrite cmp_sym, E1; done).
    by rewrite (cmp_trans _ _ _ H3 E1') in H2.
Qed.

(** A run of writes, none of them a removal. *)
Fixpoint put_all (m : Floors) (puts : list (string * Floor)) : Floors :=
  match puts with
  | [] => m
  | (t, f) :: puts => put_all (put_into m t f).1 puts
  end.

Definition semver_floor (f : Floor) : Prop := is_semver (floor_version f) = true.

(** Floors only rise: whatever floors are put, in whatever order, an Agent type that has a floor
    keeps one, and it never orders below the one it had. *)
Theorem floors_never_fall (m : Floors) (puts : list (string * Floor)) (t : string) (old : Floor) :
  m !! t = Some old → semver_floor old → Forall (λ tf, semver_floor tf.2) puts →
  ∃ new, put_all m puts !! t = Some new ∧ semver_floor new ∧ at_least old new.
Proof.
  intros Hold Hv Hputs. revert m old Hold Hv.
  induction Hputs as [|[t' f] puts Hf Hputs IH]; intros m old Hold Hv.
  - exists old. split; [done|]. split; [done|]. unfold at_least.
    rewrite precedence_refl by by apply semver_parses. done.
  - cbn in *. destruct (put_into_at_least m t' f t old Hold) as (mid & Hmid & Hle);
      [by apply semver_parses|].
    assert (Hvm : semver_floor mid).
    { unfold put_into in Hmid. destruct (decide (t' = t)) as [->|Hne].
      - rewrite Hold in Hmid. destruct (below _ _); cbn in Hmid; [congruence|].
        rewrite lookup_insert_eq in Hmid. congruence.
      - assert (m !! t = Some mid); [|congruence].
        destruct (m !! t') as [f0|]; [destruct (below _ _)|]; cbn in Hmid;
          rewrite ?lookup_insert_ne in Hmid by done; done. }
    destruct (IH _ mid Hmid Hvm) as (new & Hnew & Hvn & Hle'). exists new. split; [done|].
    split; [done|]. eapply at_least_trans; [..|exact Hle|exact Hle']; by apply semver_parses.
Qed.

Definition floor_of (v : string) : Floor := mkFloor v [].

Lemma floors_never_fall_witness :
  ∃ new, put_all {["otelcol" := floor_of "1.2.0"]}
    [("otelcol", floor_of "1.1.0"); ("otelcol", floor_of "1.10.0")] !! "otelcol" = Some new ∧
    at_least (floor_of "1.2.0") new.
Proof.
  destruct (floors_never_fall {["otelcol" := floor_of "1.2.0"]}
    [("otelcol", floor_of "1.1.0"); ("otelcol", floor_of "1.10.0")] "otelcol" (floor_of "1.2.0"))
    as (new & H1 & _ & H2); [reflexivity|reflexivity|repeat constructor|by exists new].
Defined.

(** ** The Server's copy *)

Section Coherence.
Context {B : Type} `{!FloorStore B} (floor_stored : B → Floors → Prop).
Context `{!FloorStoreSpec floor_stored} (verifier : option (string → list N → bool)).

Definition floors_coherent (s : PackageFloors B) : Prop := floor_stored (floor_store s) (floors s).

(** What the Server serves is what is stored: a floor that is put, refused as lower or removed
    leaves the served floors exactly the stored ones, a put changes no other type's floor, and a
    refusal of the request or a failure of the store leaves the served floors as they were. *)
Theorem served_floors_are_stored (t version : string) (sg : list N) (s s' : PackageFloors B) x :
  floors_coherent s → floors_put verifier t version sg s = (s', x) →
  (is_ok x = true → floors_coherent s' ∧ floors s' = <[t := mkFloor version sg]> (floors s)) ∧
  (∀ v, x = Err (FloorLower v) →
     floors_coherent s' ∧ floors s' = floors s ∧ below version v = true) ∧
  (is_ok x = false → floors s' = floors s).
Proof.
  intros Hco. unfold floors_put, eff_bind, eff_of, through, hold, eff_ret, eff_fail.
  destruct (package_id_new t version); cbn; [|intros [= <- <-]; naive_solver].
  destruct (length sg =? ED25519_SIGNATURE_LEN)%nat; cbn; [|intros [= <- <-]; naive_solver].
  destruct (floor_put t (mkFloor version sg) (floor_store s)) as [b r] eqn:E.
  eapply floor_put_law in E as [[-> Hst]|[-> _]]; [|cbn; intros [= <- <-]; cbn; split_and!; done|done].
  destruct (put_into (floors s) t (mkFloor version sg)).2 as [|stored] eqn:Hput;
    intros [= <- <-]; cbn; unfold floors_coherent; cbn.
  - rewrite (put_into_stored _ _ _ Hput) in Hst. naive_solver.
  - apply put_into_lower in Hput as (Heq & Hl & Hp). rewrite Heq in Hst.
    rewrite insert_id by done. split_and!; [done| |done].
    intros v [= <-]. split_and!; try done. unfold below. cbn in Hp. by rewrite Hp.
Qed.
End Coherence.

(** ** The filesystem adapter *)

(** One floor as the document holds it, the signature in hex. *)
Record FloorMeta := mkFloorMeta {
  meta_version : string;
  meta_signature : string;
}.

#[export] Instance FloorMeta_eq_dec : EqDecision FloorMeta.
Proof. solve_decision. Defined.
#[export] Instance FloorMeta_countable : Countable FloorMeta.
Proof.
  refine (inj_countable' (λ m, (meta_version m, meta_signature m)) (λ t, mkFloorMeta t.1 t.2) _).
  by intros [].
Defined.

Definition PACKAGE_FLOORS : string := "package-floors.json".

Section Adapter.
Context (to_json : gmap string FloorMeta → string).
Context (from_json : string → option (gmap string FloorMeta)).
Context (hex_encode : list N → string) (hex_decode : string → option (list N)).

Definition floor_write (m : Floors) : Eff Fs FsError unit :=
  let document := (λ f, mkFloorMeta (floor_version f) (hex_encode (floor_signature f))) <$> m in
  replace_owner_only PACKAGE_FLOORS (to_json document).

(** Each floor's signature decoded, or the first that is not hex. *)
Fixpoint decode_floors (l : list (string * FloorMeta)) : option Floors :=
  match l with
  | [] => Some ∅
  | (t, meta) :: l =>
      signature ← hex_decode (meta_signature meta);
      rest ← decode_floors l;
      Some (<[t := mkFloor (meta_version meta) signature]> rest)
  end.

Definition read_floors (text : string) : option Floors :=
  document ← from_json text;
  decode_floors (btree_iter document).

Definition fs_floor_load : Eff Fs FsError Floors :=
  outcome <-! system_call ;;
  fs <-! get_files ;;
  match outcome, fs !! PACKAGE_FLOORS with
  | Done, None => eff_ret ∅
  | Done, Some (File text) =>
      match read_floors text with
      | Some m => eff_ret m
      | None => eff_fail (CannotParse PACKAGE_FLOORS)
      end
  | _, _ => eff_fail (CannotRead PACKAGE_FLOORS)
  end.

Definition fs_floor_put (t : string) (f : Floor) : Eff Fs FsError Put :=
  m <-! fs_floor_load ;;
  let (m, put) := put_into m t f in
  match put with
  | PutStored => _ <-! floor_write m ;; eff_ret put
  | PutLower _ => eff_ret put
  end.

Definition fs_floor_remove (t : string) : Eff Fs FsError bool :=
  m <-! fs_floor_load ;;
  match m !! t with
  | None => eff_ret false
  | Some _ => _ <-! floor_write (delete t m) ;; eff_ret true
  end.

Definition fs_floors : FloorStore Fs := {|
  floor_load := eff_map_err (λ _, FloorStoreFailed) fs_floor_load;
  floor_put := λ t f, eff_map_err (λ _, FloorStoreFailed) (fs_floor_put t f);
  floor_remove := λ t, eff_map_err (λ _, FloorStoreFailed) (fs_floor_remove t);
|}.

(** The document holds the floors [m]; an absent one holds none. *)
Definition fs_floor_stored (fs : Fs) (m : Floors) : Prop :=
  match documents (files fs) !! PACKAGE_FLOORS with
  | None => m = ∅
  | Some (File text) => read_floors text = Some m
  | Some Folder => False
  end.

Hypothesis json_round_trip : ∀ document, from_json (to_json document) = Some document.
Hypothesis hex_round_trip : ∀ bytes, hex_decode (hex_encode bytes) = Some bytes.

Lemma decode_floors_iter (l : list (string * Floor)) :
  decode_floors ((λ tf, (tf.1, mkFloorMeta (floor_version tf.2) (hex_encode (floor_signature tf.2))))
    <$> l) = Some (list_to_map l).
Proof.
  induction l as [|[t [v sg]] l IH]; [done|]. cbn. rewrite hex_round_trip. cbn. by rewrite IH.
Qed.

Lemma read_written_floors (m : Floors) :
  read_floors (to_json
    ((λ f, mkFloorMeta (floor_version f) (hex_encode (floor_signature f))) <$> m)) = Some m.
Proof.
  unfold read_floors. rewrite json_round_trip. cbn. rewrite btree_iter_fmap, decode_floors_iter.
  by rewrite list_to_map_btree_iter.
Qed.

Lemma floor_write_spec fs m m0 fs' r :
  fs_floor_stored fs m0 → floor_write m fs = (fs', r) →
  fs_floor_stored fs' m ∨ is_ok r = false ∧ fs_floor_stored fs' m0.
Proof.
  unfold fs_floor_stored. intros Hst E.
  apply replace_owner_only_spec in E as [_ [Hdoc|[Hr Hdoc]]]; [..|vm_compute; reflexivity];
    rewrite Hdoc.
  - left. rewrite lookup_insert_eq. apply read_written_floors.
  - by right.
Qed.

Lemma lookup_floor_document fs :
  documents (files fs) !! PACKAGE_FLOORS = files fs !! PACKAGE_FLOORS.
Proof.
  apply option_eq. intros n. rewrite lookup_documents. unfold leftover.
  replace (ends_with ".tmp" PACKAGE_FLOORS) with false by (vm_compute; reflexivity). naive_solver.
Qed.

Lemma fs_floor_load_spec fs m fs' r :
  fs_floor_stored fs m → fs_floor_load fs = (fs', r) →
  fs_floor_stored fs' m ∧ ∀ m', r = Ok m' → m' = m.
Proof.
  unfold fs_floor_stored, fs_floor_load, eff_bind, get_files, eff_ret, eff_fail.
  intros Hst. destruct (system_call fs) as [fs0 r0] eqn:E0.
  assert (files fs0 = files fs ∧ is_ok r0 = true) as [Hf0 Hr0].
  { revert E0. unfold system_call. destruct (outcomes fs); by intros [= <- <-]. }
  rewrite lookup_floor_document in Hst. rewrite <- Hf0 in Hst.
  destruct r0 as [o|e]; [|done].
  destruct (files fs0 !! PACKAGE_FLOORS) as [[text|]|] eqn:E; [|done|].
  - rewrite Hst. destruct o; intros [= <- <-]; rewrite lookup_floor_document, E; naive_solver.
  - destruct o; intros [= <- <-]; rewrite lookup_floor_document, E; naive_solver.
Qed.

(** The filesystem adapter keeps the floors' port: it answers what the document holds, stores a
    floor that does not order below the stored one, keeps the stored one otherwise, and after a
    failure holds the floors as they were or as asked. *)
Theorem fs_floors_implement_port : @FloorStoreSpec Fs fs_floors fs_floor_stored.
Proof.
  split.
  - intros fs m fs' x Hst. cbn. unfold eff_map_err.
    destruct (fs_floor_load fs) as [fs1 r] eqn:E. intros [= <- <-].
    apply (fs_floor_load_spec _ m) in E as [Hst1 Hm]; [|done]. split; [done|].
    intros m' Hx. destruct r; cbn in Hx; simplify_eq. auto.
  - intros fs m t f fs' x Hst. cbn. unfold eff_map_err, fs_floor_put, eff_bind, eff_ret.
    destruct (fs_floor_load fs) as [fs1 r] eqn:E.
    apply (fs_floor_load_spec _ m) in E as [Hst1 Hm]; [|done].
    destruct r as [m1|e]; [|intros [= <- <-]; auto]. rewrite (Hm m1 eq_refl). clear Hm.
    destruct (put_into m t f) as [m2 put] eqn:Ep. cbn.
    destruct put as [|stored].
    + destruct (floor_write m2 fs1) as [fs2 r2] eqn:E2. eapply floor_write_spec in E2; [|done].
      destruct r2 as [[]|e]; intros [= <- <-]; cbn; naive_solver.
    + intros [= <- <-]. left. split; [done|].
      replace m2 with m; [done|]. symmetry.
      pose proof (put_into_lower m t f stored) as Hl. rewrite Ep in Hl. by destruct Hl.
  - intros fs m t fs' x Hst. cbn. unfold eff_map_err, fs_floor_remove, eff_bind, eff_ret.
    destruct (fs_floor_load fs) as [fs1 r] eqn:E.
    apply (fs_floor_load_spec _ m) in E as [Hst1 Hm]; [|done].
    destruct r as [m1|e]; [|intros [= <- <-]; auto]. rewrite (Hm m1 eq_refl). clear Hm.
    destruct (m !! t) as [f|] eqn:Ht; cycle 1.
    { intros [= <- <-]. left. rewrite bool_decide_false by (by apply eq_None_not_Some).
      split; [done|]. by rewrite delete_id. }
    destruct (floor_write (delete t m) fs1) as [fs2 r2] eqn:E2.
    eapply floor_write_spec in E2; [|done].
    destruct r2 as [[]|e]; intros [= <- <-]; cbn; rewrite ?bool_decide_true by eauto; naive_solver.
Qed.
End Adapter.

Lemma fs_floors_implement_port_witness :
  @FloorStoreSpec Fs (fs_floors write_code read_code write_code read_code)
    (fs_floor_stored read_code read_code) ∧
  fs_floor_stored read_code read_code (mkFs ∅ [] false) ∅.
Proof.
  split; [|reflexivity].
  apply (fs_floors_implement_port write_code read_code write_code read_code); apply read_write_code.
Defined.

Definition sample_signature : list N := repeat 0%N 64.

Lemma served_floors_are_stored_witness :
  let fs := fs_floors write_code read_code write_code read_code in
  let s := mkFloors (mkFs ∅ [] false) ∅ in
  let s' := (@floors_put Fs fs None "otelcol" "1.2.0" sample_signature s).1 in
  floors_coherent (fs_floor_stored read_code read_code) s' ∧
  floors s' = {["otelcol" := mkFloor "1.2.0" sample_signature]}.
Proof.
  intros fs s s'.
  destruct (@floors_put Fs fs None "otelcol" "1.2.0" sample_signature s) as [s1 x] eqn:E.
  assert (s' = s1) as -> by (subst s'; reflexivity).
  destruct (@served_floors_are_stored Fs fs (fs_floor_stored read_code read_code)
    (fs_floors_implement_port write_code read_code write_code read_code read_write_code read_write_code)
    None "otelcol" "1.2.0" sample_signature s s1 x) as (Hok & _); [reflexivity|exact E|].
  apply Hok. vm_compute in E. by injection E as _ <-.
Defined.

Lemma replace_sync_fails text :
  ∃ fs', replace_owner_only PACKAGE_FLOORS text (mkFs ∅ [Done; Done; Done; Done; Fails 0] false)
      = (fs', Err (CannotPersist PACKAGE_FLOORS)) ∧
    documents (files fs') !! PACKAGE_FLOORS = Some (File text).
Proof. eexists. split; [vm_compute; reflexivity|]. vm_compute. reflexivity. Qed.

(** A floor whose write fails may be stored all the same: when the last sync of the directory
    fails, the store answers an error and holds the new floor. *)
Theorem failed_put_may_be_stored (t : string) (f : Floor) :
  ∃ fs fs', fs_floor_stored read_code read_code fs ∅ ∧
    fs_floor_put write_code read_code write_code read_code t f fs
      = (fs', Err (CannotPersist PACKAGE_FLOORS)) ∧
    fs_floor_stored read_code read_code fs' {[t := f]}.
Proof.
  destruct (replace_sync_fails (write_code ((λ f, mkFloorMeta (floor_version f)
    (write_code (floor_signature f))) <$> ({[t := f]} : Floors)))) as (fs' & E & Hfile).
  exists (mkFs ∅ [Done; Done; Done; Done; Done; Fails 0] false), fs'. split; [reflexivity|]. split.
  - unfold fs_floor_put, eff_bind.
    replace (fs_floor_load read_code read_code (mkFs ∅ [Done; Done; Done; Done; Done; Fails 0] false))
      with (mkFs ∅ [Done; Done; Done; Done; Fails 0] false, Ok ∅ : result Floors FsError)
      by (vm_compute; reflexivity).
    unfold put_into. rewrite lookup_empty. unfold floor_write. rewrite insert_empty. by rewrite E.
  - unfold fs_floor_stored. rewrite Hfile.
    apply (read_written_floors write_code read_code write_code read_code); apply read_write_code.
Qed.
