(* ===== verification/Protocol.v ===== *)
(** * One Agent's protocol state

    The model of [opamp::client::protocol]: the state machine that decides which fields a report
    carries and settles what a reply means. The messages' payloads (a configuration, a health, a
    package status, ...) are the application's and the generated code's: types of the section. [None]
    is the panic of [sequence_num += 1] at [u64::MAX]. *)

From S2P Require Import Prelude Proto.

Open Scope N_scope.

(** Capability and flag bits of the protocol, as [opamp.proto] numbers them. *)
Definition ServerAcceptsEffectiveConfig : N := 4.
Definition ServerAcceptsPackagesStatus : N := 16.
Definition ServerOffersConnectionSettings : N := 32.
Definition FlagReportFullState : N := 1.
Definition FlagReportAvailableComponents : N := 2.
Definition ErrorUnavailable : Z := 2.

(** [mask & bit != 0]. *)
Definition has_bit (mask bit : N) : bool := negb (N.land mask bit =? 0).

Section protocol.
Context {Description Health EffectiveConfig PackageStatuses RemoteConfigStatus : Type}.
Context {ConnectionSettingsStatus ComponentDetails : Type}.
Context {AgentRemoteConfig ConnectionSettingsOffers PackagesAvailable : Type}.

Record AvailableComponents := mkComponents {
  components : gmap string ComponentDetails;
  components_hash : list N;
}.

(** [ReportContent], the application's side of a report. *)
Record ReportContent := mkContent {
  content_description : InstanceUid → Description;
  content_health : Health;
  content_effective_config : EffectiveConfig;
  content_package_statuses : option PackageStatuses;
  content_available_components : option AvailableComponents;
}.

(** [AgentToServer], with the fields this state machine can set. *)
Record AgentToServer := mkReport {
  instance_uid : list N;
  sequence_num_of : N;
  capabilities_of : N;
  agent_description : option Description;
  health : option Health;
  effective_config : option EffectiveConfig;
  remote_config_status_of : option RemoteConfigStatus;
  package_statuses : option PackageStatuses;
  agent_disconnect : bool;
  certificate_request : option (list N);
  available_components : option AvailableComponents;
  connection_settings_status_of : option ConnectionSettingsStatus;
}.

(** [AgentToServer { instance_uid, sequence_num, capabilities, ..Default::default() }]. *)
Definition bare_report (uid : InstanceUid) (seq caps : N) : AgentToServer :=
  mkReport uid seq caps None None None None None false None None None.

(** [ServerErrorResponse]: its type, and the hint of its [RetryInfo] when it has one. *)
Record ServerErrorResponse := mkErrorResponse {
  error_type : Z;
  retry_info : option N;
}.

(** [ServerToAgent], with the fields this state machine reads. *)
Record ServerToAgent := mkReply {
  error_response : option ServerErrorResponse;
  remote_config : option AgentRemoteConfig;
  connection_settings : option ConnectionSettingsOffers;
  packages_available : option PackagesAvailable;
  flags : N;
  reply_capabilities : N;
  agent_identification : option (list N);
  command : option Z;
}.

Record Received := mkReceived {
  report_now : bool;
  retry_after : option N;
  received_command : option Z;
  new_uid : option InstanceUid;
  components_requested : bool;
  received_remote_config : option AgentRemoteConfig;
  received_connection_settings : option ConnectionSettingsOffers;
  received_packages_available : option PackagesAvailable;
}.
Definition received_default : Received := mkReceived false None None None false None None None.

Record AgentProtocol := mkProtocol {
  uid : InstanceUid;
  sequence_num : N;
  capabilities : N;
  server_capabilities : option N;
  settings_offered : bool;
  remote_config_status : option RemoteConfigStatus;
  connection_settings_status : option ConnectionSettingsStatus;
  pending_csr : option (list N);
  send_full : bool;
  send_config_status : bool;
  send_health : bool;
  send_components_full : bool;
  send_settings_status : bool;
  send_package_status : bool;
}.

Definition new (uid : InstanceUid) (capabilities : N) : AgentProtocol :=
  mkProtocol uid 0 capabilities None false None None None true false false false false false.

Definition declare (capability : N) (p : AgentProtocol) : AgentProtocol :=
  mkProtocol (uid p) (sequence_num p) (N.lor (capabilities p) capability) (server_capabilities p)
    (settings_offered p) (remote_config_status p) (connection_settings_status p) (pending_csr p)
    (send_full p) (send_config_status p) (send_health p) (send_components_full p)
    (send_settings_status p) (send_package_status p).

Definition declares (capability : N) (p : AgentProtocol) : bool := has_bit (capabilities p) capability.

Definition force_full (p : AgentProtocol) : AgentProtocol :=
  mkProtocol (uid p) (sequence_num p) (capabilities p) (server_capabilities p)
    (settings_offered p) (remote_config_status p) (connection_settings_status p) (pending_csr p)
    true (send_config_status p) (send_health p) (send_components_full p)
    (send_settings_status p) (send_package_status p).

Definition set_remote_config_status (status : RemoteConfigStatus) (p : AgentProtocol) : AgentProtocol :=
  mkProtocol (uid p) (sequence_num p) (capabilities p) (server_capabilities p)
    (settings_offered p) (Some status) (connection_settings_status p) (pending_csr p)
    (send_full p) true (send_health p) (send_components_full p)
    (send_settings_status p) (send_package_status p).

Definition restore_remote_config_status (status : RemoteConfigStatus) (p : AgentProtocol) :
    AgentProtocol :=
  mkProtocol (uid p) (sequence_num p) (capabilities p) (server_capabilities p)
    (settings_offered p) (Some status) (connection_settings_status p) (pending_csr p)
    (send_full p) (send_config_status p) (send_health p) (send_components_full p)
    (send_settings_status p) (send_package_status p).

Definition effective_config_changed (p : AgentProtocol) : AgentProtocol :=
  mkProtocol (uid p) (sequence_num p) (capabilities p) (server_capabilities p)
    (settings_offered p) (remote_config_status p) (connection_settings_status p) (pending_csr p)
    (send_full p) true (send_health p) (send_components_full p)
    (send_settings_status p) (send_package_status p).

Definition health_changed (p : AgentProtocol) : AgentProtocol :=
  mkProtocol (uid p) (sequence_num p) (capabilities p) (server_capabilities p)
    (settings_offered p) (remote_config_status p) (connection_settings_status p) (pending_csr p)
    (send_full p) (send_config_status p) true (send_components_full p)
    (send_settings_status p) (send_package_status p).

Definition package_status_changed (p : AgentProtocol) : AgentProtocol :=
  mkProtocol (uid p) (sequence_num p) (capabilities p) (server_capabilities p)
    (settings_offered p) (remote_config_status p) (connection_settings_status p) (pending_csr p)
    (send_full p) (send_config_status p) (send_health p) (send_components_full p)
    (send_settings_status p) true.

Definition set_connection_settings_status (status : ConnectionSettingsStatus) (owed : bool)
    (p : AgentProtocol) : AgentProtocol :=
  mkProtocol (uid p) (sequence_num p) (capabilities p) (server_capabilities p)
    (settings_offered p) (remote_config_status p) (Some status) (pending_csr p)
    (send_full p) (send_config_status p) (send_health p) (send_components_full p)
    (if owed then true else send_settings_status p) (send_package_status p).

Definition set_send_components_full (p : AgentProtocol) : AgentProtocol :=
  mkProtocol (uid p) (sequence_num p) (capabilities p) (server_capabilities p)
    (settings_offered p) (remote_config_status p) (connection_settings_status p) (pending_csr p)
    (send_full p) (send_config_status p) (send_health p) true
    (send_settings_status p) (send_package_status p).

Definition request_certificate (csr : list N) (p : AgentProtocol) : AgentProtocol :=
  mkProtocol (uid p) (sequence_num p) (capabilities p) (server_capabilities p)
    (settings_offered p) (remote_config_status p) (connection_settings_status p) (Some csr)
    (send_full p) (send_config_status p) (send_health p) (send_components_full p)
    (send_settings_status p) (send_package_status p).

Definition server_declared (capability : N) (p : AgentProtocol) : bool :=
  match server_capabilities p with
  | Some caps => has_bit caps capability
  | None => false
  end.

Definition server_accepts (capability : N) (p : AgentProtocol) : bool :=
  match server_capabilities p with
  | Some caps => has_bit caps capability
  | None => true
  end.

Definition server_accepts_connection_settings_status (p : AgentProtocol) : bool :=
  settings_offered p || server_accepts ServerOffersConnectionSettings p.

Definition when {A} (b : bool) (a : option A) : option A := if b then a else None.

(** [next_report]: the report, and the state with every debt cleared. *)
Definition next_report (content : ReportContent) (p : AgentProtocol) :
    option (AgentProtocol * AgentToServer) :=
  seq ← checked_add u64_max (sequence_num p) 1;
  let config := send_full p || send_config_status p in
  let msg :=
    mkReport (uid p) seq (capabilities p)
      (when (send_full p) (Some (content_description content (uid p))))
      (when (send_full p || send_health p) (Some (content_health content)))
      (when (config && server_accepts ServerAcceptsEffectiveConfig p)
         (Some (content_effective_config content)))
      (when config (remote_config_status p))
      (when (server_accepts ServerAcceptsPackagesStatus p && (send_full p || send_package_status p))
         (content_package_statuses content))
      false
      (pending_csr p)
      (match content_available_components content with
       | Some cs =>
           if send_components_full p then Some cs
           else if send_full p then Some (mkComponents ∅ (components_hash cs))
           else None
       | None => None
       end)
      (when (server_accepts_connection_settings_status p && (send_full p || send_settings_status p))
         (connection_settings_status p)) in
  Some (mkProtocol (uid p) seq (capabilities p) (server_capabilities p) (settings_offered p)
          (remote_config_status p) (connection_settings_status p) None
          false false false false false false, msg).

(** The state with the next sequence number. *)
Definition with_sequence (seq : N) (p : AgentProtocol) : AgentProtocol :=
  mkProtocol (uid p) seq (capabilities p) (server_capabilities p)
    (settings_offered p) (remote_config_status p) (connection_settings_status p) (pending_csr p)
    (send_full p) (send_config_status p) (send_health p) (send_components_full p)
    (send_settings_status p) (send_package_status p).

Definition csr_report (csr : list N) (p : AgentProtocol) : option (AgentProtocol * AgentToServer) :=
  seq ← checked_add u64_max (sequence_num p) 1;
  Some (with_sequence seq p,
        mkReport (uid p) seq (capabilities p) None None None None None false (Some csr) None None).

Definition disconnect_message (p : AgentProtocol) : option (AgentProtocol * AgentToServer) :=
  seq ← checked_add u64_max (sequence_num p) 1;
  Some (with_sequence seq p,
        mkReport (uid p) seq (capabilities p) None None None None None true None None None).

(** The state after the capabilities of a reply are noted. *)
Definition note_capabilities (reply : ServerToAgent) (p : AgentProtocol) : AgentProtocol :=
  if negb (reply_capabilities reply =? 0) then
    mkProtocol (uid p) (sequence_num p) (capabilities p) (Some (reply_capabilities reply))
      (settings_offered p) (remote_config_status p) (connection_settings_status p) (pending_csr p)
      (send_full p) (send_config_status p) (send_health p) (send_components_full p)
      (send_settings_status p) (send_package_status p)
  else p.

Definition NO_HINT_NANOS : N := 30000000000.

(** [receive]. *)
Definition receive (reply : ServerToAgent) (p : AgentProtocol) : AgentProtocol * Received :=
  let p := note_capabilities reply p in
  match command reply with
  | Some c => (p, mkReceived false None (Some c) None false None None None)
  | None =>
      match error_response reply with
      | Some response =>
          (p, mkReceived false
                (if (error_type response =? ErrorUnavailable)%Z
                 then Some (default NO_HINT_NANOS (retry_info response)) else None)
                None None false None None None)
      | None =>
          let new_uid := agent_identification reply ≫= from_wire in
          let full := has_bit (flags reply) FlagReportFullState in
          (mkProtocol (default (uid p) new_uid) (sequence_num p) (capabilities p)
             (server_capabilities p)
             (match connection_settings reply with Some _ => true | None => settings_offered p end)
             (remote_config_status p) (connection_settings_status p) (pending_csr p)
             (if full then true else send_full p) (send_config_status p) (send_health p)
             (send_components_full p) (send_settings_status p) (send_package_status p),
           mkReceived full None None new_uid
             (has_bit (flags reply) FlagReportAvailableComponents)
             (remote_config reply) (connection_settings reply) (packages_available reply))
      end
  end.

(** ** Runs

    What happens to one Agent's state, one event at a time: what the application changes, what it
    sends, and what the Server answers. *)
Inductive change :=
| DeclareCapability (capability : N)
| ForceFull
| SetRemoteConfigStatus (status : RemoteConfigStatus)
| RestoreRemoteConfigStatus (status : RemoteConfigStatus)
| EffectiveConfigChanged
| HealthChanged
| PackageStatusChanged
| SetConnectionSettingsStatus (status : ConnectionSettingsStatus) (owed : bool)
| SendComponentsFull
| RequestCertificate (csr : list N).

Definition apply_change (c : change) : AgentProtocol → AgentProtocol :=
  match c with
  | DeclareCapability capability => declare capability
  | ForceFull => force_full
  | SetRemoteConfigStatus status => set_remote_config_status status
  | RestoreRemoteConfigStatus status => restore_remote_config_status status
  | EffectiveConfigChanged => effective_config_changed
  | HealthChanged => health_changed
  | PackageStatusChanged => package_status_changed
  | SetConnectionSettingsStatus status owed => set_connection_settings_status status owed
  | SendComponentsFull => set_send_components_full
  | RequestCertificate csr => request_certificate csr
  end.

Inductive event :=
| Change (c : change)
| Report (content : ReportContent)
| CsrReport (csr : list N)
| Disconnect
| Reply (reply : ServerToAgent).

Definition step (e : event) (p : AgentProtocol) : option (AgentProtocol * list AgentToServer) :=
  match e with
  | Change c => Some (apply_change c p, [])
  | Report content => '(p, msg) ← next_report content p; Some (p, [msg])
  | CsrReport csr => '(p, msg) ← csr_report csr p; Some (p, [msg])
  | Disconnect => '(p, msg) ← disconnect_message p; Some (p, [msg])
  | Reply reply => Some ((receive reply p).1, [])
  end.

Fixpoint run (es : list event) (p : AgentProtocol) : option (AgentProtocol * list AgentToServer) :=
  match es with
  | [] => Some (p, [])
  | e :: es =>
      '(p, msgs) ← step e p;
      '(p, more) ← run es p;
      Some (p, msgs ++ more)
  end.

Lemma note_capabilities_same reply p :
  uid (note_capabilities reply p) = uid p
  ∧ sequence_num (note_capabilities reply p) = sequence_num p.
Proof. unfold note_capabilities. by case_match. Qed.

Lemma step_sequence e p p' msgs :
  step e p = Some (p', msgs) →
  sequence_num p' = sequence_num p + N.of_nat (length msgs)
  ∧ (sequence_num_of <$> msgs) = (λ i, sequence_num p + N.of_nat i) <$> seq 1 (length msgs).
Proof.
  destruct e as [c|content|csr| |reply]; cbn.
  - intros [= <- <-]. split; [|done]. rewrite N.add_0_r. by destruct c.
  - unfold next_report. destruct (checked_add _ _ _) as [n|] eqn:E; [|done]. cbn.
    apply checked_add_Some in E as [-> _]. intros [= <- <-]. done.
  - unfold csr_report. destruct (checked_add _ _ _) as [n|] eqn:E; [|done]. cbn.
    apply checked_add_Some in E as [-> _]. intros [= <- <-]. done.
  - unfold disconnect_message. destruct (checked_add _ _ _) as [n|] eqn:E; [|done]. cbn.
    apply checked_add_Some in E as [-> _]. intros [= <- <-]. done.
  - intros [= <- <-]. split; [|done]. rewrite N.add_0_r. unfold receive.
    destruct (command reply); cbn; [apply note_capabilities_same|].
    destruct (error_response reply); cbn; apply note_capabilities_same.
Qed.

Lemma step_total e p : sequence_num p < u64_max → ∃ p' msgs, step e p = Some (p', msgs).
Proof.
  intros H. assert (checked_add u64_max (sequence_num p) 1 = Some (sequence_num p + 1)) as Hc
    by (apply checked_add_Some; lia).
  destruct e; cbn; unfold next_report, csr_report, disconnect_message; rewrite ?Hc; cbn; eauto.
Qed.

Lemma step_length e p p' msgs : step e p = Some (p', msgs) → (length msgs <= 1)%nat.
Proof.
  destruct e; cbn; unfold next_report, csr_report, disconnect_message;
    try (destruct (checked_add _ _ _); [cbn|done]); intros [= <- <-]; cbn; lia.
Qed.

(** ** Debts

    What the next report owes, and what it means that a report pays it. *)
Inductive debt := Full | ConfigStatus | HealthDebt | ComponentsFull | SettingsStatus | PackageStatus | Csr.

Definition owed (d : debt) (p : AgentProtocol) : bool :=
  match d with
  | Full => send_full p
  | ConfigStatus => send_config_status p
  | HealthDebt => send_health p
  | ComponentsFull => send_components_full p
  | SettingsStatus => send_settings_status p
  | PackageStatus => send_package_status p
  | Csr => bool_decide (is_Some (pending_csr p))
  end.

(** What the Server does not take is left out of the report, and is not owed any longer. *)
Definition paid (d : debt) (content : ReportContent) (p : AgentProtocol) (msg : AgentToServer) : Prop :=
  let effective := when (server_accepts ServerAcceptsEffectiveConfig p) (Some (content_effective_config content)) in
  let settings := when (server_accepts_connection_settings_status p) (connection_settings_status p) in
  let packages := when (server_accepts ServerAcceptsPackagesStatus p) (content_package_statuses content) in
  match d with
  | Full =>
      agent_description msg = Some (content_description content (uid p))
      ∧ health msg = Some (content_health content)
      ∧ remote_config_status_of msg = remote_config_status p
      ∧ effective_config msg = effective
      ∧ connection_settings_status_of msg = settings
      ∧ package_statuses msg = packages
      ∧ components_hash <$> available_components msg = components_hash <$> content_available_components content
  | ConfigStatus => remote_config_status_of msg = remote_config_status p ∧ effective_config msg = effective
  | HealthDebt => health msg = Some (content_health content)
  | ComponentsFull => available_components msg = content_available_components content
  | SettingsStatus => connection_settings_status_of msg = settings
  | PackageStatus => package_statuses msg = packages
  | Csr => certificate_request msg = pending_csr p
  end.

Definition no_report (e : event) : Prop := match e with Report _ => False | _ => True end.

Lemma apply_change_owed d c p : owed d p = true → owed d (apply_change c p) = true.
Proof. destruct d, c as [| | | | | | |status []| |]; cbn; intros H; done. Qed.

Lemma note_capabilities_owed d reply p : owed d (note_capabilities reply p) = owed d p.
Proof. unfold note_capabilities. case_match; [|done]. by destruct d. Qed.

Lemma receive_owed d reply p : owed d p = true → owed d (receive reply p).1 = true.
Proof.
  intros H. unfold receive. rewrite <- (note_capabilities_owed d reply) in H.
  destruct (command reply); [done|]. destruct (error_response reply); [done|].
  destruct d; cbn in *; try done. by case_match.
Qed.

Lemma step_owed d e p p' msgs :
  no_report e → step e p = Some (p', msgs) → owed d p = true → owed d p' = true.
Proof.
  destruct e as [c|content|csr| |reply]; cbn; [|done|..]; intros _.
  - intros [= <- <-]. apply apply_change_owed.
  - unfold csr_report. destruct (checked_add _ _ _); [cbn|done]. intros [= <- <-]. by destruct d.
  - unfold disconnect_message. destruct (checked_add _ _ _); [cbn|done]. intros [= <- <-]. by destruct d.
  - intros [= <- <-]. apply receive_owed.
Qed.

Lemma run_owed d es p p' msgs :
  Forall no_report es → run es p = Some (p', msgs) → owed d p = true → owed d p' = true.
Proof.
  intros Hall. revert p msgs. induction Hall as [|e es He _ IH]; intros p msgs; cbn.
  { by intros [= <- <-]. }
  destruct (step e p) as [[p1 m1]|] eqn:E; [cbn|done].
  destruct (run es p1) as [[p2 m2]|] eqn:E2; [cbn|done]. intros [= <- <-] Ho.
  eapply IH; [exact E2|]. by eapply step_owed.
Qed.

Lemma next_report_pays d content p p' msg :
  next_report content p = Some (p', msg) → owed d p = true → paid d content p msg.
Proof.
  unfold next_report. destruct (checked_add _ _ _); [cbn|done]. intros [= <- <-].
  destruct d; cbn; intros H; rewrite ?H, ?orb_true_r, ?orb_true_l, ?andb_true_r; cbn; try done.
  - split_and!; try done. destruct (content_available_components content); [|done]. by destruct (send_components_full p).
  - by destruct (content_available_components content).
Qed.

Lemma next_report_clears d content p p' msg :
  next_report content p = Some (p', msg) → owed d p' = false.
Proof.
  unfold next_report. destruct (checked_add _ _ _); [cbn|done]. intros [= <- <-].
  by destruct d.
Qed.
End protocol.
Arguments AgentProtocol : clear implicits.
Arguments AgentToServer : clear implicits.
Arguments ServerToAgent : clear implicits.
Arguments ReportContent : clear implicits.
Arguments event : clear implicits.

(** ** Properties *)

Section properties.
Context {Description Health EffectiveConfig PackageStatuses RemoteConfigStatus : Type}.
Context {ConnectionSettingsStatus ComponentDetails : Type}.
Context {AgentRemoteConfig ConnectionSettingsOffers PackagesAvailable : Type}.
Abbreviation State := (AgentProtocol RemoteConfigStatus ConnectionSettingsStatus).
Abbreviation Event := (event Description Health EffectiveConfig PackageStatuses RemoteConfigStatus
  ConnectionSettingsStatus ComponentDetails AgentRemoteConfig ConnectionSettingsOffers PackagesAvailable).
Abbreviation Content := (ReportContent Description Health EffectiveConfig PackageStatuses
  ComponentDetails).
Abbreviation Message := (AgentToServer Description Health EffectiveConfig PackageStatuses
  RemoteConfigStatus ConnectionSettingsStatus ComponentDetails).
Abbreviation ReplyOf := (ServerToAgent AgentRemoteConfig ConnectionSettingsOffers PackagesAvailable).

(** The messages an Agent sends carry consecutive sequence numbers, whatever the Server
    answers, an assigned identity included, and whatever the application changes in between: the
    n-th message after a state with sequence number [s] carries [s + n]. Every event is handled as
    long as the counter has room. *)
Theorem sequence_numbers_consecutive (es : list Event) (p : State) :
  sequence_num p + N.of_nat (length es) <= u64_max →
  ∃ p' msgs, run es p = Some (p', msgs)
    ∧ sequence_num_of <$> msgs = (λ i, sequence_num p + N.of_nat i) <$> seq 1 (length msgs)
    ∧ sequence_num p' = sequence_num p + N.of_nat (length msgs).
Proof.
  revert p. induction es as [|e es IH]; intros p Hs; cbn.
  { eexists _, []. split_and!; [done..|]. cbn. lia. }
  cbn [length] in Hs. rewrite Nat2N.inj_succ in Hs.
  destruct (step_total e p) as (p1 & m1 & E1); [lia|]. rewrite E1. cbn.
  destruct (step_sequence _ _ _ _ E1) as [Hn Hm]. pose proof (step_length _ _ _ _ E1).
  destruct (IH p1) as (p2 & m2 & E2 & Hm2 & Hn2); [lia|]. rewrite E2. cbn.
  eexists _, _. split; [done|]. rewrite length_app, fmap_app, Hm, Hm2, seq_app, fmap_app. split; [|lia].
  f_equal. rewrite Nat.add_comm, <- fmap_add_seq, <- list_fmap_compose.
  apply list_fmap_ext. intros i x _. cbn. lia.
Qed.

(** C36: nothing owed to the Server is lost: once something is owed — a full snapshot, a status of
    the configuration, of the connection settings or of the packages, the health, the components,
    a certificate request — it stays owed through every change, reply, CSR report and goodbye, and the
    next report carries it, a full snapshot with every part of it; but for an effective configuration,
    a status of the connection settings or of the packages that the Server declared it does not take,
    which is left out. After that report nothing is owed, not even what was left out. *)
Theorem owed_is_paid_by_next_report (d : debt) (es : list Event) (p p1 p2 : State) msgs
    (content : Content) (msg : Message) :
  owed d p = true → Forall no_report es → run es p = Some (p1, msgs) →
  next_report content p1 = Some (p2, msg) →
  owed d p1 = true ∧ paid d content p1 msg ∧ ∀ d', owed d' p2 = false.
Proof.
  intros Ho Hall Hrun Hrep. pose proof (run_owed d _ _ _ _ Hall Hrun Ho) as Ho1.
  split_and!; [done|by eapply next_report_pays|]. intros d'. by eapply next_report_clears.
Qed.

(** The negotiation binds: once the Server has declared capabilities, a report carries an
    effective configuration or package statuses only if the last declaration has the bit for it,
    and a connection-settings status only if it has the bit or the Server has made an offer. *)
Theorem report_respects_declared_capabilities (content : Content) (p p' : State) (msg : Message) caps :
  server_capabilities p = Some caps → next_report content p = Some (p', msg) →
  (effective_config msg ≠ None → has_bit caps ServerAcceptsEffectiveConfig = true)
  ∧ (package_statuses msg ≠ None → has_bit caps ServerAcceptsPackagesStatus = true)
  ∧ (connection_settings_status_of msg ≠ None →
     settings_offered p = true ∨ has_bit caps ServerOffersConnectionSettings = true).
Proof.
  intros Hc. unfold next_report. destruct (checked_add _ _ _); [cbn|done]. intros [= <- <-]. cbn.
  unfold server_accepts_connection_settings_status, server_accepts. rewrite Hc.
  split_and!.
  - destruct (has_bit caps ServerAcceptsEffectiveConfig); [done|]. by rewrite andb_false_r.
  - by destruct (has_bit caps ServerAcceptsPackagesStatus).
  - destruct (settings_offered p); [by left|]. cbn.
    by destruct (has_bit caps ServerOffersConnectionSettings); [right|].
Qed.

(** A command is acted on alone, and an error response decides alone too: two replies that
    agree on the capabilities and the command — or, without a command, on the capabilities and the
    error response — leave the same state and the same [Received], whatever else they carry; and a
    command or an error response changes nothing but what the Server declared. *)
Theorem command_and_error_stand_alone (r1 r2 : ReplyOf) (p : State) :
  reply_capabilities r1 = reply_capabilities r2 → command r1 = command r2 →
  (is_Some (command r1) ∨ (error_response r1 = error_response r2 ∧ is_Some (error_response r1))) →
  receive r1 p = receive r2 p ∧ (receive r1 p).1 = note_capabilities r1 p.
Proof.
  intros Hcaps Hcmd Hdec. assert (note_capabilities r1 p = note_capabilities r2 p) as Hn.
  { unfold note_capabilities. by rewrite Hcaps. }
  unfold receive. rewrite <- Hcmd, <- Hn. destruct (command r1) as [c|]; [done|].
  destruct Hdec as [[? [=]]|[<- [e ->]]]. done.
Qed.
End properties.

Abbreviation unit_content := (mkContent (λ _, tt) tt tt (Some tt) None : ReportContent unit unit unit unit unit).
Abbreviation unit_event := (event unit unit unit unit unit unit unit unit unit unit).
Abbreviation unit_state := (new (repeat 1 16) 1 : AgentProtocol unit unit).

Lemma sequence_numbers_consecutive_witness :
  ∃ p' msgs,
    run [Report unit_content; Change HealthChanged; CsrReport [1];
         Reply (mkReply None None None None 1 7 (Some (repeat 2 16)) None : ServerToAgent unit unit unit);
         Disconnect] unit_state = Some (p', msgs)
    ∧ sequence_num_of <$> msgs = (λ i, 0 + N.of_nat i) <$> seq 1 (length msgs)
    ∧ sequence_num p' = 0 + N.of_nat (length msgs).
Proof.
  apply (sequence_numbers_consecutive
    [Report unit_content; Change HealthChanged; CsrReport [1];
     Reply (mkReply None None None None 1 7 (Some (repeat 2 16)) None : ServerToAgent unit unit unit);
     Disconnect] unit_state).
  vm_compute. discriminate.
Defined.

Lemma owed_is_paid_by_next_report_witness :
  ∃ p1 p2 msgs msg,
    run ([CsrReport [1]; Reply (mkReply None None None None 0 7 None None)] : list unit_event)
      (health_changed unit_state) = Some (p1, msgs)
    ∧ next_report unit_content p1 = Some (p2, msg)
    ∧ owed HealthDebt p1 = true ∧ paid HealthDebt unit_content p1 msg ∧ ∀ d', owed d' p2 = false.
Proof.
  do 4 eexists. split; [vm_compute; reflexivity|]. split; [vm_compute; reflexivity|].
  eapply (owed_is_paid_by_next_report HealthDebt
    ([CsrReport [1]; Reply (mkReply None None None None 0 7 None None)] : list unit_event)
    (health_changed unit_state)).
  - reflexivity.
  - repeat constructor.
  - vm_compute. reflexivity.
  - vm_compute. reflexivity.
Defined.

Lemma report_respects_declared_capabilities_witness :
  ∃ p' msg, next_report unit_content
      (receive (mkReply None None None None 0 3 None None : ServerToAgent unit unit unit) unit_state).1
      = Some (p', msg)
    ∧ (effective_config msg ≠ None → has_bit 3 ServerAcceptsEffectiveConfig = true).
Proof.
  do 2 eexists. split; [vm_compute; reflexivity|].
  eapply (report_respects_declared_capabilities unit_content
    (receive (mkReply None None None None 0 3 None None : ServerToAgent unit unit unit) unit_state).1);
    vm_compute; reflexivity.
Defined.

Lemma command_and_error_stand_alone_witness :
  receive (mkReply None (Some tt) None None 3 7 (Some (repeat 2 16)) (Some 0%Z) : ServerToAgent unit unit unit)
    unit_state
  = receive (mkReply None None None None 0 7 None (Some 0%Z)) unit_state.
Proof.
  apply (command_and_error_stand_alone
    (mkReply None (Some tt) None None 3 7 (Some (repeat 2 16)) (Some 0%Z))
    (mkReply None None None None 0 7 None (Some 0%Z)) unit_state); [reflexivity..|].
  left. eexists. reflexivity.
Defined.
