(* ===== verification/HostFloors.v ===== *)
(** * The versions a Client keeps

    [fleet-agent/src/floors.rs] and the high-water marks of [fleet-agent/src/storage.rs]: for each Agent
    type the floor the operator signed, and the highest version this Client has installed. Both are
    read once from a file of the state directory, held in memory, and written whole. JSON, hex and
    Ed25519 are parameters, a fetch is what it answered, the clock an argument. *)

From S2P Require Import Prelude RustStr Version Packages Floors.

Open Scope string_scope.
Open Scope list_scope.

(** ** Files *)

(** How a write ends: the file replaced, left as it was, or replaced and answered as failed. *)
Inductive WriteEnd := Written | NotWritten | WrittenLate.

(** What reading a file answers. *)
Inductive ReadEnd := Read (text : string) | NotFound | CannotBeRead.

(** A file of the state directory, and what the calls on it will come to. *)
Record StateFile := mkStateFile {
  on_disk : option string;
  reads_fail : bool;
  writes_end : list WriteEnd;
}.

Definition read_state (f : StateFile) : ReadEnd :=
  if reads_fail f then CannotBeRead else match on_disk f with Some text => Read text | None => NotFound end.

(** [storage::write_private]: whole, through a temporary name and a rename. *)
Definition write_private (text : string) (f : StateFile) : StateFile * bool :=
  let rest := tail (writes_end f) in
  match head (writes_end f) with
  | None | Some Written => (mkStateFile (Some text) (reads_fail f) rest, true)
  | Some NotWritten => (mkStateFile (on_disk f) (reads_fail f) rest, false)
  | Some WrittenLate => (mkStateFile (Some text) (reads_fail f) rest, false)
  end.

(** Why a file cannot be used. *)
Inductive Unreadable :=
| ReadFails
| NotJson
| NotSemverEntry (agent_type version : string).

#[export] Instance Unreadable_eq_dec : EqDecision Unreadable.
Proof. solve_decision. Defined.

(** The first entry of a map whose version is not SemVer. *)
Definition first_not_semver {A} (version_of : A → string) (m : gmap string A) : option (string * string) :=
  head (omap (λ ta, if is_semver (version_of ta.2) then None else Some (ta.1, version_of ta.2)) (btree_iter m)).

(** The entries a text holds, each version SemVer. *)
Definition parse_versions {A} (version_of : A → string) (of_json : string → option (gmap string A)) (text : string)
    : result (gmap string A) Unreadable :=
  match of_json text with
  | None => Err NotJson
  | Some m => match first_not_semver version_of m with
              | Some (t, v) => Err (NotSemverEntry t v)
              | None => Ok m
              end
  end.

Definition open_versions {A} (version_of : A → string) (of_json : string → option (gmap string A)) (f : StateFile)
    : result (gmap string A) Unreadable :=
  match read_state f with
  | Read text => parse_versions version_of of_json text
  | NotFound => Ok ∅
  | CannotBeRead => Err ReadFails
  end.

(** ** The high-water marks *)

Record HighWaterFile := mkHighWater {
  marks : result (gmap string string) Unreadable;
  marks_file : StateFile;
}.

Section Marks.
Context (marks_text : gmap string string → string) (marks_of : string → option (gmap string string)).

Definition parse_marks : string → result (gmap string string) Unreadable := parse_versions id marks_of.

Definition marks_open (f : StateFile) : HighWaterFile := mkHighWater (open_versions id marks_of f) f.

Definition mark (agent_type : string) (h : HighWaterFile) : result (option string) Unreadable :=
  match marks h with Ok m => Ok (m !! agent_type) | Err why => Err why end.

(** Whether [version] is above what is kept, if anything is. *)
Definition above (version : string) (held : option string) : bool :=
  match held with
  | None => true
  | Some held => bool_decide (precedence version held = Some Gt)
  end.

Definition raise (agent_type version : string) (h : HighWaterFile) : HighWaterFile :=
  if negb (is_semver version) then h
  else
    match marks h with
    | Err _ => h
    | Ok m =>
        if negb (above version (m !! agent_type)) then h
        else let m := <[agent_type := version]> m in mkHighWater (Ok m) (write_private (marks_text m) (marks_file h)).1
    end.
End Marks.

(** ** The floors *)

(** A floor as it is served and kept: its signature is hex. *)
Record KeptFloor := mkKeptFloor {
  kept_version : string;
  kept_signature : string;
}.

#[export] Instance KeptFloor_eq_dec : EqDecision KeptFloor.
Proof. solve_decision. Defined.

Notation KeptFloors := (gmap string KeptFloor) (only parsing).

Record FloorFile := mkFloorFile {
  floor_key : option (list N);
  kept : result (gmap string KeptFloor) Unreadable;
  fetched : option N;
  floor_file : StateFile;
}.

Definition REFRESH : N := 3600.
Definition FRESH : N := 60.

Section Floors.
Context (floors_text : gmap string KeptFloor → string) (floors_of : string → option (gmap string KeptFloor)).
Context (hex_decode : string → option (list N)) (ed25519 : list N → string → list N → bool).

Definition verifies (key : list N) (agent_type : string) (floor : KeptFloor) : bool :=
  match hex_decode (kept_signature floor) with
  | None => false
  | Some signature => is_semver (kept_version floor) && ed25519 key (floor_statement agent_type (kept_version floor)) signature
  end.

Definition parse_kept : string → result KeptFloors Unreadable := parse_versions kept_version floors_of.

Definition floors_open (key : option (list N)) (f : StateFile) : FloorFile :=
  mkFloorFile key (open_versions kept_version floors_of f) None f.

(** One served floor, and whether it was kept. *)
Definition take_floor (key : list N) (st : KeptFloors * bool) (tf : string * KeptFloor) : KeptFloors * bool :=
  let '(m, raised) := st in
  let (t, floor) := tf in
  if negb (verifies key t floor) then (m, raised)
  else
    match m !! t with
    | None => (<[t := floor]> m, true)
    | Some held => match precedence (kept_version floor) (kept_version held) with
                   | Some Gt => (<[t := floor]> m, true)
                   | _ => (m, raised)
                   end
    end.

(** [FloorFile::take]. *)
Definition take_floors (served : KeptFloors) (f : FloorFile) : FloorFile :=
  match floor_key f, kept f with
  | Some key, Ok m =>
      let '(m, raised) := foldl (take_floor key) (m, false) (btree_iter served) in
      mkFloorFile (floor_key f) (Ok m) (fetched f)
        (if raised then (write_private (floors_text m) (floor_file f)).1 else floor_file f)
  | _, _ => f
  end.

(** [FloorFile::update] at [now], in seconds; [answer] is the body the fetch came back with. *)
Definition floors_update (now : N) (answer : option string) (f : FloorFile) : FloorFile :=
  match floor_key f with
  | None => f
  | Some _ =>
      let f := mkFloorFile (floor_key f) (kept f) (Some now) (floor_file f) in
      match answer ≫= floors_of with
      | Some served => take_floors served f
      | None => f
      end
  end.

Definition update_older_than (now age : N) (answer : option string) (f : FloorFile) : FloorFile :=
  let due := match fetched f with None => true | Some at_ => (age <=? now - at_)%N end in
  if due then floors_update now answer f else f.

(** [PackageFloors::floor]. *)
Definition floor (agent_type : string) (f : FloorFile) : result (option string) Unreadable :=
  match kept f with Ok m => Ok (kept_version <$> m !! agent_type) | Err why => Err why end.
End Floors.

(** ** What is kept only rises *)

(** [new] does not order below [old]. *)
Definition no_lower (old new : string) : Prop := precedence new old ≠ Some Lt.

Definition semver_map {A} (version_of : A → string) (m : gmap string A) : Prop :=
  map_Forall (λ _ a, is_semver (version_of a) = true) m.

(** Every entry of [m] stands in [m'], with a version that does not order below it. *)
Definition risen {A} (version_of : A → string) (m m' : gmap string A) : Prop :=
  ∀ t a, m !! t = Some a → ∃ a', m' !! t = Some a' ∧ no_lower (version_of a) (version_of a').

Lemma no_lower_refl v : no_lower v v.
Proof.
  unfold no_lower. intros H. destruct (precedence_parses _ _ _ H) as [p Hp].
  by rewrite (parse_pair _ _ _ _ Hp Hp), (cmp_refl key_compare) in H.
Qed.

Lemma no_lower_trans a b c :
  is_semver a = true → is_semver b = true → is_semver c = true → no_lower a b → no_lower b c → no_lower a c.
Proof.
  intros Ha Hb Hc. apply (at_least_trans (floor_of a) (floor_of b) (floor_of c)); by apply semver_parses.
Qed.

Lemma no_lower_above a b : precedence b a = Some Gt → no_lower a b.
Proof. unfold no_lower. by intros ->. Qed.

Lemma parse_versions_semver {A} (version_of : A → string) of_json text m :
  parse_versions version_of of_json text = Ok m → semver_map version_of m.
Proof.
  unfold parse_versions. destruct (of_json text) as [m0|]; [|done].
  destruct (first_not_semver version_of m0) as [[]|] eqn:E; [done|]. intros [= <-] t a Ht.
  destruct (is_semver (version_of a)) eqn:Hs; [done|]. exfalso.
  assert (Hin : (t, version_of a) ∈ omap (λ ta, if is_semver (version_of ta.2) then None else Some (ta.1, version_of ta.2)) (btree_iter m0)).
  { apply list_elem_of_omap. exists (t, a). split; [by apply elem_of_btree_iter|]. cbn. by rewrite Hs. }
  unfold first_not_semver in E. destruct (omap _ _); [by apply elem_of_nil in Hin|done].
Qed.

Lemma open_versions_semver {A} (version_of : A → string) of_json f m :
  open_versions version_of of_json f = Ok m → semver_map version_of m.
Proof.
  unfold open_versions. destruct (read_state f); [apply parse_versions_semver| |done]. intros [= <-]. apply map_Forall_empty.
Qed.

Lemma risen_refl {A} (version_of : A → string) m : risen version_of m m.
Proof. intros t a H. exists a. split; [done|apply no_lower_refl]. Qed.

Lemma risen_trans {A} (version_of : A → string) m1 m2 m3 :
  semver_map version_of m1 → semver_map version_of m2 → semver_map version_of m3 →
  risen version_of m1 m2 → risen version_of m2 m3 → risen version_of m1 m3.
Proof.
  intros H1 H2 H3 R1 R2 t a Ha. destruct (R1 t a Ha) as (b & Hb & Hab). destruct (R2 t b Hb) as (c & Hc & Hbc).
  exists c. split; [done|]. eapply no_lower_trans; [by eapply H1|by eapply H2|by eapply H3|done|done].
Qed.

Lemma risen_insert {A} (version_of : A → string) m t a :
  (∀ old, m !! t = Some old → no_lower (version_of old) (version_of a)) → risen version_of m (<[t := a]> m).
Proof.
  intros H t' b Hb. destruct (decide (t = t')) as [<-|Hne].
  - exists a. rewrite lookup_insert_eq. auto.
  - exists b. rewrite lookup_insert_ne by done. split; [done|apply no_lower_refl].
Qed.

Section Rising.
Context (marks_text : gmap string string → string).
Context (floors_text : gmap string KeptFloor → string) (floors_of : string → option (gmap string KeptFloor)).
Context (hex_decode : string → option (list N)) (ed25519 : list N → string → list N → bool).

(** What a map that may be unreadable holds. *)
Definition held {A} (x : result (gmap string A) Unreadable) : gmap string A := match x with Ok m => m | Err _ => ∅ end.

Lemma raise_risen t v h :
  semver_map id (held (marks h)) →
  semver_map id (held (marks (raise marks_text t v h))) ∧
  risen id (held (marks h)) (held (marks (raise marks_text t v h))) ∧
  (is_semver v = true → ∀ m, marks h = Ok m →
     ∃ m' v', marks (raise marks_text t v h) = Ok m' ∧ m' !! t = Some v' ∧ no_lower v v').
Proof.
  intros Hs. unfold raise. destruct (is_semver v) eqn:Hv; cbn [negb]; [|split; [done|]; split; [apply risen_refl|done]].
  destruct (marks h) as [m|] eqn:Em; [|rewrite Em; split; [done|]; split; [apply risen_refl|done]]. cbn in Hs.
  destruct (above v (m !! t)) eqn:Ha; cbn [negb].
  - cbn. split; [by apply map_Forall_insert_2|]. split.
    + apply risen_insert. intros old Hold. rewrite Hold in Ha. cbn in Ha. apply no_lower_above. by apply bool_decide_eq_true in Ha.
    + intros _ ? _. eexists _, v. split; [done|]. rewrite lookup_insert_eq. split; [done|apply no_lower_refl].
  - rewrite Em. split; [done|]. split; [apply risen_refl|]. intros _ m0 [= <-].
    destruct (m !! t) as [old|] eqn:Hold; [|done]. exists m, old. split; [done|]. split; [done|].
    unfold no_lower. intros Hlt. cbn in Ha. apply bool_decide_eq_false in Ha. apply Ha.
    assert (Hso : is_semver old = true) by by apply (Hs t old).
    apply semver_parses in Hv as [pv Hpv], Hso as [po Hpo].
    rewrite (parse_pair _ _ _ _ Hpo Hpv) in Hlt. rewrite (parse_pair _ _ _ _ Hpv Hpo), (cmp_sym (cmp := key_compare)).
    injection Hlt as ->. done.
Qed.

Notation take_one := (take_floor hex_decode ed25519).

Lemma take_floor_risen key m raised tf m' raised' :
  semver_map kept_version m → take_one key (m, raised) tf = (m', raised') →
  semver_map kept_version m' ∧ risen kept_version m m' ∧
  (∀ t f, m' !! t = Some f → m !! t = Some f ∨ (t, f) = tf ∧ verifies hex_decode ed25519 key t f = true).
Proof.
  destruct tf as [t f]. intros Hs. cbn. destruct (verifies _ _ key t f) eqn:Hv; cbn [negb].
  2: { intros [= <- <-]. split; [done|]. split; [apply risen_refl|auto]. }
  assert (Hf : is_semver (kept_version f) = true).
  { unfold verifies in Hv. destruct (hex_decode _); [|done]. by apply andb_true_iff in Hv as [? _]. }
  assert (Hin : (∀ old, m !! t = Some old → no_lower (kept_version old) (kept_version f)) →
    semver_map kept_version (<[t := f]> m) ∧ risen kept_version m (<[t := f]> m) ∧
    (∀ t' f', <[t := f]> m !! t' = Some f' → m !! t' = Some f' ∨ (t', f') = (t, f) ∧ verifies hex_decode ed25519 key t' f' = true)).
  { intros Hold. split; [by apply map_Forall_insert_2|]. split; [by apply risen_insert|].
    intros t' f' [[<- <-]|[_ ?]]%lookup_insert_Some; [right; by split|by left]. }
  destruct (m !! t) as [old|] eqn:Hold.
  - destruct (precedence _ _) as [[]|] eqn:Hp; intros [= <- <-];
      try (split; [done|]; split; [apply risen_refl|auto]; fail).
    apply Hin. intros ? [= <-]. by apply no_lower_above.
  - intros [= <- <-]. by apply Hin.
Qed.

Lemma take_all_risen key l m raised m' raised' :
  semver_map kept_version m → foldl (take_one key) (m, raised) l = (m', raised') →
  semver_map kept_version m' ∧ risen kept_version m m' ∧
  (∀ t f, m' !! t = Some f → m !! t = Some f ∨ (t, f) ∈ l ∧ verifies hex_decode ed25519 key t f = true).
Proof.
  revert m raised. induction l as [|tf l IH]; intros m raised Hs; cbn [foldl].
  - intros [= <- <-]. split; [done|]. split; [apply risen_refl|auto].
  - destruct (take_one key (m, raised) tf) as [m1 r1] eqn:E. destruct (take_floor_risen _ _ _ _ _ _ Hs E) as (Hs1 & R1 & Hin1).
    intros H. destruct (IH _ _ Hs1 H) as (Hs2 & R2 & Hin2). split; [done|]. split; [by apply (risen_trans _ m m1 m')|].
    intros t f Hf. destruct (Hin2 t f Hf) as [Hf1|[Hl Hv]]; [|right; split; [by right|done]].
    destruct (Hin1 t f Hf1) as [|[<- Hv]]; [by left|]. right. split; [by left|done].
Qed.

(** A fetch raises floors, never lowers one, and keeps none whose signature does not verify. *)
Lemma update_risen now answer f :
  semver_map kept_version (held (kept f)) →
  let f' := floors_update floors_text floors_of hex_decode ed25519 now answer f in
  semver_map kept_version (held (kept f')) ∧ risen kept_version (held (kept f)) (held (kept f')) ∧
  floor_key f' = floor_key f ∧ (∀ why, kept f = Err why → kept f' = Err why) ∧
  (∀ t x, held (kept f') !! t = Some x → held (kept f) !! t = Some x ∨
     ∃ key, floor_key f = Some key ∧ verifies hex_decode ed25519 key t x = true).
Proof.
  intros Hs. cbn. unfold floors_update. destruct (floor_key f) as [key|] eqn:Hk.
  2: { rewrite ?Hk. split; [done|]. split; [apply risen_refl|]. auto. }
  destruct (answer ≫= floors_of) as [served|].
  2: { cbn. rewrite ?Hk. split; [done|]. split; [apply risen_refl|]. auto. }
  unfold take_floors. cbn [floor_key kept]. rewrite ?Hk. destruct (kept f) as [m|] eqn:Em.
  2: { cbn. rewrite ?Hk, ?Em. split; [done|]. split; [apply risen_refl|]. split; [done|]. split; [by intros|auto]. }
  destruct (foldl _ _ _) as [m' raised] eqn:E. destruct (take_all_risen _ _ _ _ _ _ Hs E) as (Hs' & R & Hin). cbn.
  split; [done|]. split; [done|]. split; [done|]. split; [done|].
  intros t x Hx. destruct (Hin t x Hx) as [|[_ Hv]]; [by left|]. right. eauto.
Qed.
End Rising.
