(* ===== verification/Supervised.v ===== *)
(** * One Agent of the Client

    [fleet-agent/src/supervisor/agent.rs] and its modules [packages], [remote_config] and
    [connection_settings]: the state behind one Agent — its protocol ([Protocol]), the package it runs,
    takes and refuses, the configuration in flight — and what each reply of the Server does to it. What
    persists is a port ([AgentStorage]); the marks and floors every Agent of the Client shares are
    arguments, and the marks a result. A message is the data it is formatted from; the description and
    the components of an Agent are types of the section. *)

From S2P Require Import Prelude RustStr Proto Version HostFloors Protocol.

Open Scope string_scope.
Open Scope list_scope.

(** ** Packages *)

(** [InstalledPackage]; the hash is hex where it is written, bytes here. *)
Record InstalledPackage := mkInstalled {
  installed_name : string;
  installed_version : string;
  installed_hash : list N;
}.

#[export] Instance InstalledPackage_eq_dec : EqDecision InstalledPackage.
Proof. solve_decision. Defined.

Record OfferedFile := mkOfferedFile {
  file_url : string;
  file_content_hash : list N;
  file_signature : list N;
  file_headers : list (string * string);
}.

(** [PackageAvailable]; the type is [PackageType]'s number. *)
Record OfferedPackage := mkOffered {
  offered_type : Z;
  offered_version : string;
  offered_file : option OfferedFile;
  offered_hash : list N;
}.

Record PackagesOffer := mkPackagesOffer {
  offer_packages : gmap string OfferedPackage;
  offer_all_hash : list N;
}.

Definition Addon : Z := 1.

Record PackageDownload := mkDownload {
  download_name : string;
  download_version : string;
  download_hash : list N;
  download_url : string;
  download_content_hash : list N;
  download_signature : list N;
  download_headers : list (string * string);
}.

(** Why a package or an offer was refused, failed or waits. *)
Inductive Why :=
| AddonsOnly
| TwoTopLevel (first second : string)
| NotThisPackage (expected offered : string)
| OtherAgentType (own offered : string)
| MarksUnreadable (why : Unreadable)
| NotSemverOffer (version : string)
| OlderThanInstalled (version installed : string)
| BelowMark (version mark : string)
| BelowFloor (version floor : string)
| FloorsUnreadable (why : Unreadable)
| InstallError (error : string)
| WaitsFor (reason : string).

#[export] Instance Why_eq_dec : EqDecision Why.
Proof. solve_decision. Defined.

(** What of [Local] is fixed once the Agent is built. *)
Record Kind := mkKind {
  managed : bool;
  service_name : string;
  accepts_packages : bool;
  expected_package : option string;
  has_marks : bool;
  has_floors : bool;
}.

(** The package bookkeeping of [Local]. *)
Record PackageChannel := mkChannel {
  offered_name : option string;
  installed_package : option InstalledPackage;
  downloading : option (N * N);
  installing : option PackageDownload;
  offered_all_packages_hash : list N;
  echoed_all_packages_hash : list N;
  server_offered : option (string * list N);
  package_error : option Why;
  offer_error : option Why;
  package_status_owed : bool;
}.

Inductive PackageState := Installed | InstallPending | Installing | InstallFailed | Downloading.

Record PackageReport := mkPackageReport {
  report_has_version : string;
  report_has_hash : list N;
  report_offered_version : string;
  report_offered_hash : list N;
  report_state : PackageState;
  report_error : option Why;
  report_details : option (N * N);
}.

(** [PackageStatuses], its one package by name. *)
Record PackageReports := mkPackageReports {
  reported_package : option (string * PackageReport);
  reported_all_hash : list N;
  reported_error : option Why;
}.

Section Packages.
Context (current : string).
Context `{!HashIter string OfferedPackage}.

Definition older (version held : string) : bool := bool_decide (precedence version held = Some Lt).

Definition package_name (k : Kind) (c : PackageChannel) : option string :=
  match installing c, installed_package c, offered_name c with
  | Some d, _, _ => Some (download_name d)
  | None, Some p, _ => Some (installed_name p)
  | None, None, Some n => Some n
  | None, None, None => expected_package k
  end.

Definition package_statuses (k : Kind) (c : PackageChannel) : PackageReports :=
  match package_name k c with
  | None => mkPackageReports None (echoed_all_packages_hash c) (offer_error c)
  | Some name =>
      let (has_version, has_hash) :=
        match installed_package c with
        | Some p => (installed_version p, installed_hash p)
        | None => match expected_package k with
                  | Some _ => (default "" (identity current), [])
                  | None => ("", [])
                  end
        end in
      let state :=
        match downloading c, installing c, package_error c with
        | Some _, _, _ => Downloading
        | None, Some _, _ => Installing
        | None, None, Some _ => InstallFailed
        | None, None, None => if is_empty has_version then InstallPending else Installed
        end in
      let (offered_version, offered_hash) := default ("", []) (server_offered c) in
      mkPackageReports
        (Some (name, mkPackageReport has_version has_hash offered_version offered_hash state (package_error c) (downloading c)))
        (echoed_all_packages_hash c) (offer_error c)
  end.

(** [Local::floor_refusal]. *)
Definition floor_refusal (k : Kind) (f : FloorFile) (version : string) : option Why :=
  if bool_decide (is_Some (expected_package k)) || negb (has_floors k) then None
  else
    match floor (service_name k) f with
    | Err why => Some (FloorsUnreadable why)
    | Ok (Some fl) => if older version fl then Some (BelowFloor version fl) else None
    | Ok None => None
    end.

(** [Local::floor_note]: what runs, and the floor it lies below. *)
Definition floor_note (k : Kind) (f : FloorFile) (c : PackageChannel) : option (string * string) :=
  match installed_package c with
  | Some p =>
      if negb (has_floors k && managed k) then None
      else match floor (service_name k) f with
           | Ok (Some fl) => if older (installed_version p) fl then Some (installed_version p, fl) else None
           | _ => None
           end
  | None => None
  end.

Definition already_has (k : Kind) (c : PackageChannel) (a : OfferedPackage) : bool :=
  match expected_package k with
  | Some _ => same_release current (offered_version a)
  | None => bool_decide (installed_hash <$> installed_package c = Some (offered_hash a))
  end.

(** [Local::refuse_offer]. *)
Definition refuse_offer (offer : PackagesOffer) (why : Why) (c : PackageChannel) : PackageChannel :=
  mkChannel (offered_name c) (installed_package c) (downloading c) None (offered_all_packages_hash c)
    (offer_all_hash offer) (server_offered c) (package_error c) (Some why) true.

Definition refuse_below_floor (offer : PackagesOffer) (name : string) (a : OfferedPackage) (why : Why)
    (c : PackageChannel) : PackageChannel :=
  mkChannel (Some name) (installed_package c) None None (offered_all_packages_hash c)
    (offer_all_hash offer) (Some (offered_version a, offered_hash a)) (Some why) None true.

(** What a Supervisor holds an offer to: its type, SemVer, what it runs, its type's mark. *)
Definition supervisor_refusal (k : Kind) (h : HighWaterFile) (c : PackageChannel) (name version : string) : option Why :=
  match (if has_marks k then mark (service_name k) h else Ok None) with
  | Err why => Some (MarksUnreadable why)
  | Ok m =>
      if negb (bool_decide (name = service_name k)) then Some (OtherAgentType (service_name k) name)
      else if negb (is_semver version) then Some (NotSemverOffer version)
      else
        match installed_package c with
        | Some p => if older version (installed_version p) then Some (OlderThanInstalled version (installed_version p)) else None
        | None => None
        end ∪
        match m with
        | Some m => if older version m then Some (BelowMark version m) else None
        | None => None
        end
  end.

(** The rest of [handle_package_offer], for the one package the Agent may take. *)
Definition take_package (k : Kind) (offer : PackagesOffer) (name : string) (a : OfferedPackage) (c : PackageChannel)
    : PackageChannel * bool * option PackageDownload :=
  let c := mkChannel (Some name) (installed_package c) (downloading c) (installing c) (offered_all_packages_hash c)
             (echoed_all_packages_hash c) (Some (offered_version a, offered_hash a)) (package_error c) None (package_status_owed c) in
  if already_has k c a then
    (mkChannel (offered_name c) (installed_package c) (downloading c) (installing c) (offered_all_packages_hash c)
       (offer_all_hash offer) (server_offered c) (package_error c) (offer_error c) true, false, None)
  else if bool_decide (download_hash <$> installing c = Some (offered_hash a)) then (c, false, None)
  else
    match offered_file a with
    | None => (c, false, None)
    | Some file =>
        let d := mkDownload name (offered_version a) (offered_hash a) (file_url file) (file_content_hash file)
                   (file_signature file) (file_headers file) in
        (mkChannel (offered_name c) (installed_package c) (downloading c) (Some d) (offered_all_packages_hash c)
           (echoed_all_packages_hash c) (server_offered c) None (offer_error c) true, true, Some d)
    end.

(** [Local::handle_package_offer]: whether a report is owed at once, and the download it asks for. *)
Definition handle_package_offer (k : Kind) (h : HighWaterFile) (f : FloorFile) (offer : PackagesOffer)
    (c : PackageChannel) : PackageChannel * bool * option PackageDownload :=
  if negb (accepts_packages k) then (c, false, None)
  else
    let c := mkChannel (offered_name c) (installed_package c) (downloading c) (installing c) (offer_all_hash offer)
               (echoed_all_packages_hash c) (server_offered c) (package_error c) (offer_error c) (package_status_owed c) in
    let refuse why := (refuse_offer offer why c, true, None) in
    match List.filter (λ na, negb (Z.eqb (offered_type na.2) Addon)) (hash_iter (offer_packages offer)) with
    | [] =>
        if bool_decide (offer_packages offer = ∅) then
          (mkChannel (offered_name c) (installed_package c) (downloading c) (installing c) (offered_all_packages_hash c)
             (offer_all_hash offer) (server_offered c) (package_error c) (offer_error c) true, false, None)
        else refuse AddonsOnly
    | (name, _) :: (second, _) :: _ => refuse (TwoTopLevel name second)
    | [(name, a)] =>
        match expected_package k with
        | Some expected =>
            if negb (bool_decide (expected = name)) then refuse (NotThisPackage expected name)
            else take_package k offer name a c
        | None =>
            match supervisor_refusal k h c name (offered_version a) with
            | Some why => refuse why
            | None =>
                match floor_refusal k f (offered_version a) with
                | Some why => if already_has k c a then take_package k offer name a c
                              else (refuse_below_floor offer name a why c, true, None)
                | None => take_package k offer name a c
                end
            end
        end
    end.
End Packages.

(** ** Configurations and connection settings *)

Record RemoteConfig := mkRemoteConfig {
  config_entries : option (gmap string (list N));
  config_hash : list N;
}.

Inductive ConfigState := ConfigApplied | ConfigApplying | ConfigFailed.

#[export] Instance ConfigState_eq_dec : EqDecision ConfigState.
Proof. solve_decision. Defined.

(** [RemoteConfigStatus] and [ConnectionSettingsStatus]: [config_status] and [settings_status] build
    them. *)
Record Status := mkStatus {
  status_hash : list N;
  status_state : ConfigState;
  status_error : string;
}.

(** [ConnectionSettingsOffers]; the settings themselves are the transport's. *)
Record SettingsOffers := mkSettingsOffers {
  settings_hash : list N;
  offers_opamp : option (list N);
  offers_own_metrics : option (list N);
  offers_own_traces : option (list N);
  offers_own_logs : option (list N);
}.

Definition carries_settings (o : SettingsOffers) : bool :=
  match offers_opamp o, offers_own_metrics o, offers_own_traces o, offers_own_logs o with
  | None, None, None, None => false
  | _, _, _, _ => true
  end.

Record ComponentHealth := mkHealth {
  healthy : bool;
  start_time_unix_nano : N;
  health_status : string;
  status_time_unix_nano : N;
  last_error : string;
}.

(** The health as it is reported, and what is told in it of the floor. *)
Record HealthReport := mkHealthReport {
  health_of : ComponentHealth;
  told_floor : option (string * string);
}.

Definition UNREACHABLE : string := "the second service cannot be reached".
Definition REFUSED : string :=
  "the second service is refused: another account, another build, or it refuses this Client".

Definition waiting_reason (h : ComponentHealth) : option string :=
  if negb (healthy h) && (bool_decide (health_status h = UNREACHABLE) || bool_decide (health_status h = REFUSED))
  then Some (health_status h) else None.

(** ** The Agent *)

(** [AgentStorage], what an Agent persists. *)
Class AgentStorage (S : Type) := {
  save_uid : list N → S → S * bool;
  load_remote_config : S → option RemoteConfig;
  store_remote_config : RemoteConfig → S → S * bool;
  load_package : S → option InstalledPackage;
  store_package : InstalledPackage → S → S * bool;
  forget_package : S → S * bool;
}.

Section Agent.
Context {S Description ComponentDetails : Type} `{!AgentStorage S}.
Context (current : string) (sha256 : list N → list N).
Context `{!HashIter string OfferedPackage}.

Notation Components := (@AvailableComponents ComponentDetails).
Notation Proto := (AgentProtocol Status Status).
Notation Reply := (ServerToAgent RemoteConfig SettingsOffers PackagesOffer).
Notation Content := (ReportContent Description HealthReport (option (gmap string (list N))) PackageReports ComponentDetails).

(** [AgentState] with its [Local]; the host's facts are not kept. *)
Record AgentState := mkAgent {
  protocol : Proto;
  kind : Kind;
  packages : PackageChannel;
  applied : option RemoteConfig;
  process_health : option ComponentHealth;
  process_effective_config : option (option (gmap string (list N)));
  components_known : option Components;
  below_floor : option (string * string);
  storage : S;
  pending_apply : option RemoteConfig;
  applying : option RemoteConfig;
  pending_restart : bool;
  ignored_configs : option (gset (list N));
}.

Definition on_protocol (f : Proto → Proto) (a : AgentState) : AgentState :=
  mkAgent (f (protocol a)) (kind a) (packages a) (applied a) (process_health a) (process_effective_config a)
    (components_known a) (below_floor a) (storage a) (pending_apply a) (applying a) (pending_restart a) (ignored_configs a).
Definition on_packages (f : PackageChannel → PackageChannel) (a : AgentState) : AgentState :=
  mkAgent (protocol a) (kind a) (f (packages a)) (applied a) (process_health a) (process_effective_config a)
    (components_known a) (below_floor a) (storage a) (pending_apply a) (applying a) (pending_restart a) (ignored_configs a).
Definition on_storage (f : S → S) (a : AgentState) : AgentState :=
  mkAgent (protocol a) (kind a) (packages a) (applied a) (process_health a) (process_effective_config a)
    (components_known a) (below_floor a) (f (storage a)) (pending_apply a) (applying a) (pending_restart a) (ignored_configs a).
Definition on_kind (f : Kind → Kind) (a : AgentState) : AgentState :=
  mkAgent (protocol a) (f (kind a)) (packages a) (applied a) (process_health a) (process_effective_config a)
    (components_known a) (below_floor a) (storage a) (pending_apply a) (applying a) (pending_restart a) (ignored_configs a).
Definition set_configs (now in_flight pending : option RemoteConfig) (a : AgentState) : AgentState :=
  mkAgent (protocol a) (kind a) (packages a) now (process_health a) (process_effective_config a)
    (components_known a) (below_floor a) (storage a) pending in_flight (pending_restart a) (ignored_configs a).
Definition set_ignored (i : option (gset (list N))) (a : AgentState) : AgentState :=
  mkAgent (protocol a) (kind a) (packages a) (applied a) (process_health a) (process_effective_config a)
    (components_known a) (below_floor a) (storage a) (pending_apply a) (applying a) (pending_restart a) i.
Definition set_pending_restart (b : bool) (a : AgentState) : AgentState :=
  mkAgent (protocol a) (kind a) (packages a) (applied a) (process_health a) (process_effective_config a)
    (components_known a) (below_floor a) (storage a) (pending_apply a) (applying a) b (ignored_configs a).
Definition set_below_floor (n : option (string * string)) (a : AgentState) : AgentState :=
  mkAgent (protocol a) (kind a) (packages a) (applied a) (process_health a) (process_effective_config a)
    (components_known a) n (storage a) (pending_apply a) (applying a) (pending_restart a) (ignored_configs a).

(** *** What waits for the second service *)

(** [config_waits]. *)
Definition config_waits (reason : string) (a : AgentState) : AgentState :=
  match remote_config_status (protocol a) with
  | None => a
  | Some st =>
      if negb (managed (kind a)) || negb (bool_decide (status_state st = ConfigApplying)) || bool_decide (status_error st = reason)
      then a
      else on_protocol (set_remote_config_status (mkStatus (status_hash st) ConfigApplying reason)) a
  end.

Definition why_waits (reason : string) : option Why := if is_empty reason then None else Some (WaitsFor reason).

Definition set_package_error (why : option Why) (c : PackageChannel) : PackageChannel :=
  mkChannel (offered_name c) (installed_package c) (downloading c) (installing c) (offered_all_packages_hash c)
    (echoed_all_packages_hash c) (server_offered c) why (offer_error c) (package_status_owed c).

(** [package_waits]. *)
Definition package_waits (reason : string) (a : AgentState) : AgentState :=
  let c := packages a in
  if negb (bool_decide (is_Some (installing c)) && bool_decide (downloading c = None))
     || bool_decide (package_error c = why_waits reason)
  then a
  else on_protocol package_status_changed (on_packages (set_package_error (why_waits reason)) a).

Definition name_the_wait (a : AgentState) : AgentState :=
  let reason := default "" (process_health a ≫= waiting_reason) in
  package_waits reason (config_waits reason a).

Definition set_process_health (h : ComponentHealth) (a : AgentState) : AgentState :=
  name_the_wait (on_protocol health_changed
    (mkAgent (protocol a) (kind a) (packages a) (applied a) (Some h) (process_effective_config a) (components_known a)
       (below_floor a) (storage a) (pending_apply a) (applying a) (pending_restart a) (ignored_configs a))).

Definition set_process_effective_config (c : option (gmap string (list N))) (a : AgentState) : AgentState :=
  on_protocol effective_config_changed
    (mkAgent (protocol a) (kind a) (packages a) (applied a) (process_health a) (Some c) (components_known a)
       (below_floor a) (storage a) (pending_apply a) (applying a) (pending_restart a) (ignored_configs a)).

Definition ReportsAvailableComponents : N := 16384.
Definition AcceptsPackages : N := 8.
Definition ReportsPackageStatuses : N := 16.

Definition set_available_components (cs : Components) (a : AgentState) : AgentState :=
  if bool_decide (components cs = ∅) then a
  else on_protocol (λ p, force_full (declare ReportsAvailableComponents p))
    (mkAgent (protocol a) (kind a) (packages a) (applied a) (process_health a) (process_effective_config a) (Some cs)
       (below_floor a) (storage a) (pending_apply a) (applying a) (pending_restart a) (ignored_configs a)).

(** *** Packages *)

Definition declare_capability (capability : N) : AgentState → AgentState := on_protocol (declare capability).

Definition set_installed (p : option InstalledPackage) (c : PackageChannel) : PackageChannel :=
  mkChannel (offered_name c) p (downloading c) (installing c) (offered_all_packages_hash c)
    (echoed_all_packages_hash c) (server_offered c) (package_error c) (offer_error c) (package_status_owed c).

(** The record dropped, in memory and in the store, whatever the store answers. *)
Definition drop_record (a : AgentState) : AgentState :=
  on_storage (λ st, (forget_package st).1) (on_packages (set_installed None) a).

Definition raise_mark (marks_text : gmap string string → string) (a : AgentState) (version : string) (h : HighWaterFile)
    : HighWaterFile :=
  if has_marks (kind a) then raise marks_text (service_name (kind a)) version h else h.

(** [restore_supervisor_record]. *)
Definition restore_supervisor_record marks_text (a : AgentState) (h : HighWaterFile) : AgentState * HighWaterFile :=
  match installed_package (packages a) with
  | None => (a, h)
  | Some p => if negb (is_semver (installed_version p)) then (drop_record a, h)
              else (a, raise_mark marks_text a (installed_version p) h)
  end.

(** [accept_packages]. *)
Definition accept_packages marks_text (a : AgentState) (h : HighWaterFile) : AgentState * HighWaterFile :=
  let a := on_kind (λ k, mkKind (managed k) (service_name k) true (expected_package k) (has_marks k) (has_floors k)) a in
  let a := on_packages (set_installed (load_package (storage a))) a in
  let (a, h) := if managed (kind a) then restore_supervisor_record marks_text a h else (a, h) in
  (declare_capability ReportsPackageStatuses (declare_capability AcceptsPackages a), h).

(** [accept_packages_named]. *)
Definition accept_packages_named marks_text (name : string) (a : AgentState) (h : HighWaterFile) : AgentState * HighWaterFile :=
  let (a, h) := accept_packages marks_text a h in
  let a := match installed_package (packages a) with
           | Some p => if same_release (installed_version p) current then a else drop_record a
           | None => a
           end in
  (on_kind (λ k, mkKind (managed k) (service_name k) (accepts_packages k) (Some name) (has_marks k) (has_floors k)) a, h).

Definition set_downloading (d : option (N * N)) (c : PackageChannel) : PackageChannel :=
  mkChannel (offered_name c) (installed_package c) d (installing c) (offered_all_packages_hash c)
    (echoed_all_packages_hash c) (server_offered c) (package_error c) (offer_error c) (package_status_owed c).

Definition package_downloading (details : N * N) (a : AgentState) : AgentState :=
  on_protocol package_status_changed (on_packages (set_downloading (Some details)) a).

Definition package_downloaded (a : AgentState) : AgentState :=
  name_the_wait (on_protocol package_status_changed (on_packages (set_downloading None) a)).

(** [package_applied]. *)
Definition package_applied marks_text (hash : list N) (outcome : result string Why) (a : AgentState) (h : HighWaterFile)
    : AgentState * HighWaterFile :=
  let c := packages a in
  let named := match installing c with Some d => Some (download_name d) | None => offered_name c end in
  let c := mkChannel named (installed_package c) None None (offered_all_packages_hash c) (echoed_all_packages_hash c)
             (server_offered c) (package_error c) (offer_error c) (package_status_owed c) in
  let close (c : PackageChannel) (a : AgentState) :=
    on_protocol package_status_changed (on_packages (λ _,
      mkChannel (offered_name c) (installed_package c) (downloading c) (installing c) (offered_all_packages_hash c)
        (offered_all_packages_hash c) (server_offered c) (package_error c) (offer_error c) (package_status_owed c)) a) in
  match outcome with
  | Ok version =>
      let p := mkInstalled (default "" (package_name (kind a) c)) version hash in
      let a := on_storage (λ st, (store_package p st).1) a in
      (close (set_package_error None (set_installed (Some p) c)) a,
       if bool_decide (expected_package (kind a) = None) then raise_mark marks_text a version h else h)
  | Err why => (close (set_package_error (Some why) c) a, h)
  end.

(** *** Configurations *)

(** [config_applied]. *)
Definition config_applied (hash : list N) (outcome : result unit string) (a : AgentState) : AgentState :=
  let status := match outcome with
                | Ok _ => mkStatus hash ConfigApplied ""
                | Err error => mkStatus hash ConfigFailed error
                end in
  let a :=
    match applying a with
    | Some c =>
        let a := set_configs (applied a) None (pending_apply a) a in
        if is_ok outcome && bool_decide (config_hash c = hash) then
          match store_remote_config c (storage a) with
          | (st, true) => set_configs (Some c) None (pending_apply a) (on_storage (λ _, st) a)
          | (st, false) => on_storage (λ _, st) a
          end
        else a
    | None => a
    end in
  on_protocol (set_remote_config_status status) a.

Definition cannot_store : string := "cannot store the configuration".

(** [apply]. *)
Definition apply (c : RemoteConfig) (a : AgentState) : AgentState :=
  let '(a, status) :=
    if managed (kind a) then
      match store_remote_config c (storage a) with
      | (st, true) => (set_configs (Some c) (applying a) (Some c) (on_storage (λ _, st) a), mkStatus (config_hash c) ConfigApplying "")
      | (st, false) => (on_storage (λ _, st) a, mkStatus (config_hash c) ConfigFailed cannot_store)
      end
    else (set_configs (applied a) (Some c) (Some c) a, mkStatus (config_hash c) ConfigApplying "") in
  name_the_wait (on_protocol (set_remote_config_status status) a).

Definition take_pending_apply (a : AgentState) : AgentState * option RemoteConfig :=
  (set_configs (applied a) (applying a) None a, pending_apply a).

Definition take_pending_restart (a : AgentState) : AgentState * bool := (set_pending_restart false a, pending_restart a).

Definition IGNORED_CONFIGS_CAP : nat := 1024.

(** The hash of an ignored configuration remembered. *)
Definition ignore_config (hash : list N) (seen : gset (list N)) : gset (list N) :=
  let digest := sha256 hash in
  {[digest]} ∪ (if (IGNORED_CONFIGS_CAP <=? base.size seen)%nat && negb (bool_decide (digest ∈ seen)) then ∅ else seen).

(** *** Connection settings *)

Definition adopt_connection_settings (hash : list N) : AgentState → AgentState :=
  on_protocol (set_connection_settings_status (mkStatus hash ConfigApplied "") false).

Definition connection_settings_outcome (hash : list N) (outcome : result unit string) : AgentState → AgentState :=
  on_protocol (set_connection_settings_status
    (match outcome with Ok _ => mkStatus hash ConfigApplied "" | Err e => mkStatus hash ConfigFailed e end) true).

(** *** A reply *)

(** [Handled], what a reply asks of the transport. *)
Record Handled := mkHandled {
  send_report : bool;
  handled_retry_after : option N;
  connection_offer : option SettingsOffers;
  package_download : option PackageDownload;
}.

Definition CommandRestart : Z := 0.

(** The connection settings of a reply. *)
Definition handle_settings (o : SettingsOffers) (a : AgentState) : AgentState * option SettingsOffers :=
  let same := match connection_settings_status (protocol a) with
              | Some st => bool_decide (status_hash st = settings_hash o) && bool_decide (status_state st = ConfigApplied)
              | None => false
              end in
  if carries_settings o && negb same then
    (on_protocol (set_connection_settings_status (mkStatus (settings_hash o) ConfigApplying "") true) a, Some o)
  else (a, None).

(** [AgentState::handle]. *)
Definition handle (h : HighWaterFile) (f : FloorFile) (reply : Reply) (a : AgentState) : AgentState * Handled :=
  let '(p, received) := receive reply (protocol a) in
  let a := on_protocol (λ _, p) a in
  match received_command received with
  | Some c => (if Z.eqb c CommandRestart && managed (kind a) then set_pending_restart true a else a,
               mkHandled (report_now received) (retry_after received) None None)
  | None =>
      let a := match new_uid received with Some uid => on_storage (λ st, (save_uid uid st).1) a | None => a end in
      let asked := components_requested received && bool_decide (is_Some (components_known a)) in
      let a := if asked then on_protocol set_send_components_full a else a in
      let '(a, took) :=
        match received_remote_config received with
        | Some c => match ignored_configs a with
                    | Some seen => (set_ignored (Some (ignore_config (config_hash c) seen)) a, false)
                    | None => (apply c a, true)
                    end
        | None => (a, false)
        end in
      let '(a, settings) := match received_connection_settings received with
                            | Some o => handle_settings o a
                            | None => (a, None)
                            end in
      let '(a, now, download) :=
        match received_packages_available received with
        | Some offer =>
            let '(c, now, download) := handle_package_offer current (kind a) h f offer (packages a) in
            let a := on_packages (λ _, mkChannel (offered_name c) (installed_package c) (downloading c) (installing c)
                       (offered_all_packages_hash c) (echoed_all_packages_hash c) (server_offered c) (package_error c)
                       (offer_error c) false) a in
            (if package_status_owed c then on_protocol package_status_changed a else a, now, download)
        | None => (a, false, None)
        end in
      (a, mkHandled (report_now received || asked || took || bool_decide (is_Some settings) || now)
            (retry_after received) settings download)
  end.

(** *** A report *)

Definition health_now (now_ns start_ns : N) (a : AgentState) : HealthReport :=
  mkHealthReport
    (match process_health a with
     | Some h => h
     | None => if managed (kind a) then mkHealth false 0 "starting" now_ns ""
               else mkHealth true start_ns "running" now_ns ""
     end) (below_floor a).

(** [note_floor]. *)
Definition note_floor (f : FloorFile) (a : AgentState) : AgentState :=
  let note := floor_note (kind a) f (packages a) in
  if bool_decide (note = below_floor a) then a else on_protocol health_changed (set_below_floor note a).

Definition content_of (describe : list N → Description) (now_ns start_ns : N) (a : AgentState) : Content :=
  mkContent describe (health_now now_ns start_ns a)
    (match process_effective_config a with Some c => c | None => applied a ≫= config_entries end)
    (if accepts_packages (kind a) then Some (package_statuses current (kind a) (packages a)) else None)
    (components_known a).

(** [AgentState::next_report]. *)
Definition agent_report (f : FloorFile) (describe : list N → Description) (now_ns start_ns : N) (a : AgentState) :=
  let a := note_floor f a in
  '(p, msg) ← next_report (content_of describe now_ns start_ns a) (protocol a);
  Some (on_protocol (λ _, p) a, msg).

(** *** Starting *)

(** What every Agent of the Client declares. *)
Definition AGENT_CAPABILITIES : N := 1 + 2 + 4 + 4096 + 2048 + 256 + 32768 + 64 + 32 + 128.
Definition AGENT_CAPABILITIES_WITHOUT_REMOTE_CONFIG : N := AGENT_CAPABILITIES - 2 - 4096.
Definition AcceptsRestartCommand : N := 1024.

Definition no_packages : PackageChannel := mkChannel None None None None [] [] None None None false.

(** [AgentState::restore] and, for a Supervisor of the type [service], [supervised_with]; [uid] is what
    the store holds or has just made, and [takes] says whether remote configuration is taken. *)
Definition restore (service : option string) (takes : bool) (uid : list N) (st : S) : AgentState :=
  let restored := if takes then load_remote_config st else None in
  let p := new uid (if takes then AGENT_CAPABILITIES else AGENT_CAPABILITIES_WITHOUT_REMOTE_CONFIG) in
  let p := match restored with
           | Some c => restore_remote_config_status (mkStatus (config_hash c) ConfigApplied "") p
           | None => p
           end in
  let a := mkAgent p (mkKind false "supervisor" false None false false) no_packages restored None None None None st
             None None false (if takes then None else Some ∅) in
  match service with
  | None => a
  | Some service => declare_capability AcceptsRestartCommand (on_kind (λ k, mkKind true service (accepts_packages k)
                      (expected_package k) (has_marks k) (has_floors k)) a)
  end.

Definition with_high_water : AgentState → AgentState :=
  on_kind (λ k, mkKind (managed k) (service_name k) (accepts_packages k) (expected_package k) true (has_floors k)).
Definition set_floors : AgentState → AgentState :=
  on_kind (λ k, mkKind (managed k) (service_name k) (accepts_packages k) (expected_package k) (has_marks k) true).
End Agent.
