(* ===== verification/Engine.v ===== *)
(** * The Client's Engine

    [fleet-agent/src/engine.rs], the decisions of [fleet-agent/src/packages.rs] and of
    [fleet-agent/src/update/installer.rs], and the order [fleet-agent/src/transport/mod.rs] runs them in:
    the Agents of one Client over one connection, the downloads they ask for, and the packages handed to
    the processes they supervise. A process adapter is the queue of the commands it has not answered.
    What a download fetched, whether a queue has room and how a command ends are arguments of a step. *)

From S2P Require Import Prelude RustStr Proto Version Packages HostFloors Protocol Supervised.

Open Scope string_scope.
Open Scope list_scope.

(** ** Downloads *)

(** Why a download is not handed over. *)
Inductive DownloadError :=
| UnsafeName (name : string)
| NoKey
| NoSignature
| NotFetched (error : string)
| TooLarge (max : N)
| OtherContent
| BadSignature.

(** [ensure_safe_package_name]. *)
Definition safe_package_name (name : string) : bool :=
  negb (is_empty name) && (String.length name <=? 64)%nat && all_bytes identity_byte name.

Definition signature_policy (signature : list N) (key : option (list N)) : result (list N) DownloadError :=
  match key with
  | None => Err NoKey
  | Some key => if bool_decide (signature = []) then Err NoSignature else Ok key
  end.

Section Downloads.
Context (sha256 : list N → list N) (ed25519 : list N → string → list N → bool).

(** [over_cap], on the body as it comes in. *)
Definition over_cap (max : N) (body : list N) : bool := (max <? N.of_nat (length body))%N.

(** [verify_staged]. *)
Definition verify_staged (key : list N) (d : PackageDownload) (body : list N) : result unit DownloadError :=
  if negb (bool_decide (sha256 body = download_content_hash d)) then Err OtherContent
  else if ed25519 key (statement (download_name d) (download_version d) (download_content_hash d)) (download_signature d)
       then Ok tt else Err BadSignature.

(** [download_and_verify]: [fetch] is the body the Server's own origin sent, or why there is none. *)
Definition download_and_verify (key : option (list N)) (max : N) (fetch : result (list N) string) (d : PackageDownload)
    : result unit DownloadError :=
  if negb (safe_package_name (download_name d)) then Err (UnsafeName (download_name d))
  else
    key <-? signature_policy (download_signature d) key ;;
    match fetch with
    | Err e => Err (NotFetched e)
    | Ok body => if over_cap max body then Err (TooLarge max) else verify_staged key d body
    end.
End Downloads.

(** ** The Client's own update *)

Inductive SelfInstall := SelfStaged | AlreadyRunning.

(** What [installer::install] refuses before it stages anything. *)
Definition install_check (running version : string) (fl : result (option string) Unreadable) : result unit Why :=
  if negb (is_semver version) then Err (NotSemverOffer version)
  else if older version running then Err (OlderThanInstalled version running)
  else
    match fl with
    | Err why => Err (FloorsUnreadable why)
    | Ok (Some fl) => if older version fl then Err (BelowFloor version fl) else Ok tt
    | Ok None => Ok tt
    end.

(** [SelfUpdate], armed with the Agent type whose floor it is held to. *)
Record SelfUpdate := mkSelfUpdate {
  updater : option string;
  server_answered : bool;
  restart : bool;
}.

(** ** The Engine *)

Inductive Command :=
| ApplyConfig (c : RemoteConfig)
| ApplyPackage (version : string) (hash : list N)
| RestartProcess.

Section Engine.
Context {S ComponentDetails : Type} `{!AgentStorage S}.
Context (current : string) (sha256 : list N → list N) (ed25519 : list N → string → list N → bool).
Context (marks_text : gmap string string → string).
Context (floors_text : gmap string KeptFloor → string) (floors_of : string → option (gmap string KeptFloor)).
Context (hex_decode : string → option (list N)).
Context `{!HashIter string OfferedPackage}.

Notation Agent := (@AgentState S ComponentDetails).
Notation Reply := (ServerToAgent RemoteConfig SettingsOffers PackagesOffer).

(** [SupervisedAgent]. *)
Record Slot := mkSlot {
  state : Agent;
  commands : option (list Command);
  owes_report : bool;
  retired : bool;
}.

Record Engine := mkEngine {
  agents : list Slot;
  pending_package_downloads : list (nat * PackageDownload);
  pending_connection_offer : option SettingsOffers;
  pending_self_config : option RemoteConfig;
  self_update : SelfUpdate;
  high_water : HighWaterFile;
  floors : FloorFile;
}.

Definition SELF_AGENT_INDEX : nat := 0.

Definition set_agents (l : list Slot) (e : Engine) : Engine :=
  mkEngine l (pending_package_downloads e) (pending_connection_offer e) (pending_self_config e) (self_update e) (high_water e) (floors e).
Definition set_downloads (l : list (nat * PackageDownload)) (e : Engine) : Engine :=
  mkEngine (agents e) l (pending_connection_offer e) (pending_self_config e) (self_update e) (high_water e) (floors e).
Definition set_self_update (u : SelfUpdate) (e : Engine) : Engine :=
  mkEngine (agents e) (pending_package_downloads e) (pending_connection_offer e) (pending_self_config e) u (high_water e) (floors e).
Definition set_high_water (h : HighWaterFile) (e : Engine) : Engine :=
  mkEngine (agents e) (pending_package_downloads e) (pending_connection_offer e) (pending_self_config e) (self_update e) h (floors e).

Definition put (i : nat) (s : Slot) (e : Engine) : Engine := set_agents (<[i := s]> (agents e)) e.

Definition with_state (a : Agent) (s : Slot) : Slot := mkSlot a (commands s) (owes_report s) (retired s).
Definition owing (s : Slot) : Slot := mkSlot (state s) (commands s) true (retired s).
Definition with_commands (c : option (list Command)) (s : Slot) : Slot := mkSlot (state s) c (owes_report s) (retired s).

(** [try_send]: the command queued, where there is an adapter and it has [room]. *)
Definition send_command (room : bool) (c : Command) (s : Slot) : option Slot :=
  match commands s with
  | Some q => if room then Some (with_commands (Some (q ++ [c])) s) else None
  | None => None
  end.

(** [SupervisedAgent::package_applied], the marks raised with it. *)
Definition applied_package (i : nat) (s : Slot) (hash : list N) (outcome : result string Why) (e : Engine) : Engine :=
  let (a, h) := package_applied marks_text hash outcome (state s) (high_water e) in
  set_high_water h (put i (owing (with_state a s)) e).

Definition package_download_failed (i : nat) (hash : list N) (why : Why) (e : Engine) : Engine :=
  match agents e !! i with Some s => applied_package i s hash (Err why) e | None => e end.

(** [hold_downloads_to_floors]. *)
Fixpoint hold_each (l : list (nat * PackageDownload)) (e : Engine) : Engine :=
  match l with
  | [] => e
  | (i, d) :: l =>
      match agents e !! i ≫= λ s, floor_refusal (kind (state s)) (floors e) (download_version d) with
      | Some why => hold_each l (package_download_failed i (download_hash d) why e)
      | None => hold_each l (set_downloads (pending_package_downloads e ++ [(i, d)]) e)
      end
  end.

Definition hold_downloads_to_floors (e : Engine) : Engine := hold_each (pending_package_downloads e) (set_downloads [] e).

Definition self_installs (u : SelfUpdate) (fl : FloorFile) (version : string) (host : result SelfInstall Why)
    : SelfUpdate * result SelfInstall Why :=
  match updater u with
  | None => (u, Err (InstallError "self-update is not enabled"))
  | Some type =>
      match install_check current version (floor type fl) with
      | Err why => (u, Err why)
      | Ok _ => (match host with
                 | Ok SelfStaged => mkSelfUpdate (updater u) (server_answered u) true
                 | _ => u
                 end, host)
      end
  end.

(** [apply_package]: a verified artifact handed to the process, or installed as the Client itself;
    [host] is what staging and proving it came to. *)
Definition apply_package (room : bool) (host : result SelfInstall Why) (i : nat) (version : string) (hash : list N) (e : Engine)
    : Engine :=
  match agents e !! i with
  | None => e
  | Some s =>
      let s := with_state (package_downloaded (state s)) s in
      let e := put i s e in
      if bool_decide (i = SELF_AGENT_INDEX) then
        let (u, outcome) := self_installs (self_update e) (floors e) version host in
        let e := set_self_update u e in
        match outcome with
        | Ok SelfStaged => e
        | Ok AlreadyRunning => applied_package i s hash (Ok version) e
        | Err why => applied_package i s hash (Err why) e
        end
      else
        match send_command room (ApplyPackage version hash) s with
        | Some s => put i s e
        | None => applied_package i s hash
                    (Err (InstallError (if commands s then "the supervisor is not accepting commands"
                                        else "this agent has no process to install a package into"))) e
        end
  end.

(** What is to be told of a download that failed. *)
Definition download_failure (e : DownloadError) : Why :=
  InstallError (match e with
                | UnsafeName n => "unsafe name " +:+ n
                | NoKey => "no verification key"
                | NoSignature => "no signature"
                | NotFetched s => s
                | TooLarge _ => "too large"
                | OtherContent => "other content"
                | BadSignature => "bad signature"
                end).

(** How one download goes: what was fetched, and what the queue and the host answer. *)
Record Attempt := mkAttempt {
  fetch : result (list N) string;
  room : bool;
  host : result SelfInstall Why;
}.

(** [process_package_downloads]; [key] and [max] are the configuration's. A restart asked for ends it. *)
Fixpoint process_each (key : option (list N)) (max : N) (l : list (nat * PackageDownload)) (attempts : list Attempt) (e : Engine)
    : Engine :=
  match l, attempts with
  | (i, d) :: l, t :: attempts =>
      match download_and_verify sha256 ed25519 key max (fetch t) d with
      | Ok _ =>
          let e := apply_package (room t) (host t) i (download_version d) (download_hash d) e in
          if restart (self_update e) then e else process_each key max l attempts e
      | Err why => process_each key max l attempts (package_download_failed i (download_hash d) (download_failure why) e)
      end
  | _, _ => e
  end.

Definition process_package_downloads key max (attempts : list Attempt) (e : Engine) : Engine :=
  process_each key max (pending_package_downloads e) attempts (set_downloads [] e).

(** The package steps of [after_reply]: the floors fetched when they are due, the downloads held to
    them, and what is left downloaded. *)
Definition package_steps key max (now : N) (answer : option string) (attempts : list Attempt) (e : Engine) : Engine :=
  let due := if bool_decide (pending_package_downloads e = []) then REFRESH else FRESH in
  let f := update_older_than floors_text floors_of hex_decode ed25519 now due answer (floors e) in
  let e := mkEngine (agents e) (pending_package_downloads e) (pending_connection_offer e) (pending_self_config e)
             (self_update e) (high_water e) f in
  process_package_downloads key max attempts (hold_downloads_to_floors e).

(** *** Replies *)

Definition not_handled : Handled := mkHandled false None None None.

(** The Agent a reply is for. *)
Definition agent_of (uid : list N) (l : list Slot) : option (nat * Slot) :=
  list_find (λ s, retired s = false ∧ Protocol.uid (protocol (state s)) = uid) l.

(** The configuration and the restart a reply left with its Agent, handed to the adapter. *)
Definition hand_over (rooms : bool * bool) (i : nat) (s : Slot) : Slot * option RemoteConfig :=
  let (a, c) := take_pending_apply (state s) in
  let s := with_state a s in
  let '(s, self_config) :=
    match c with
    | None => (s, None)
    | Some c =>
        if bool_decide (i = SELF_AGENT_INDEX) && negb (managed (kind a)) then (s, Some c)
        else match commands s with
             | None => (s, None)
             | Some _ => match send_command rooms.1 (ApplyConfig c) s with
                         | Some s => (s, None)
                         | None => (owing (with_state (config_applied (config_hash c)
                                      (Err "the supervisor is not accepting commands") (state s)) s), None)
                         end
             end
    end in
  let (a, again) := take_pending_restart (state s) in
  let s := with_state a s in
  (if again then default s (send_command rooms.2 RestartProcess s) else s, self_config).

(** [Engine::handle]: [uid] is the reply's [instance_uid]. *)
Definition engine_handle (rooms : bool * bool) (uid : list N) (reply : Reply) (e : Engine) : Engine * Handled :=
  match from_wire uid ≫= λ uid, agent_of uid (agents e) with
  | None => (e, not_handled)
  | Some (i, s) =>
      let u := self_update e in
      let e := set_self_update (mkSelfUpdate (updater u) true (restart u)) e in
      let (a, handled) := handle current sha256 (high_water e) (floors e) reply (state s) in
      let s := with_state a s in
      let s := if send_report handled then owing s else s in
      let (s, self_config) := hand_over rooms i s in
      (mkEngine (<[i := s]> (agents e))
         (pending_package_downloads e ++ match package_download handled with Some d => [(i, d)] | None => [] end)
         (match connection_offer handled with Some o => Some o | None => pending_connection_offer e end)
         (match self_config with Some c => Some c | None => pending_self_config e end)
         (self_update e) (high_water e) (floors e),
       mkHandled (send_report handled) (handled_retry_after handled) None None)
  end.

(** *** What a process answers *)

(** How the first command of a queue ends. *)
Inductive Answer :=
| Applied
| Failed (error : string)
| Superseded.

(** [absorb] of the event the adapter of Agent [i] sends once its first command ended: a package it
    keeps for the second service is answered once it is swapped in, or superseded unanswered by the
    package that follows it. *)
Definition absorb (i : nat) (answer : Answer) (e : Engine) : Engine :=
  match agents e !! i with
  | None => e
  | Some s =>
      match commands s with
      | None | Some [] => e
      | Some (c :: q) =>
          let s := with_commands (Some q) s in
          let e := put i s e in
          if retired s then e
          else
            match c, answer with
            | ApplyPackage version hash, Applied => applied_package i s hash (Ok version) e
            | ApplyPackage _ hash, Failed error => applied_package i s hash (Err (InstallError error)) e
            | ApplyConfig c, Applied => put i (owing (with_state (config_applied (config_hash c) (Ok tt) (state s)) s)) e
            | ApplyConfig c, Failed error =>
                put i (owing (with_state (config_applied (config_hash c) (Err error) (state s)) s)) e
            | _, _ => e
            end
      end
  end.

(** [absorb] of a health the adapter sends. *)
Definition absorb_health (i : nat) (h : ComponentHealth) (e : Engine) : Engine :=
  match agents e !! i with
  | None => e
  | Some s => if retired s then e else put i (owing (with_state (set_process_health h (state s)) s)) e
  end.

(** The slot of an Agent whose block left the set. *)
Definition retire (i : nat) (e : Engine) : Engine :=
  match agents e !! i with
  | None => e
  | Some s => put i (mkSlot (state s) None (owes_report s) true) e
  end.

(** *** Steps *)

Inductive EngineStep :=
| OnReply (rooms : bool * bool) (uid : list N) (reply : Reply)
| OnPackages (now : N) (answer : option string) (attempts : list Attempt)
| OnAnswer (i : nat) (answer : Answer)
| OnHealth (i : nat) (h : ComponentHealth)
| OnProgress (i : nat) (details : N * N)
| OnSettings (hash : list N) (outcome : result unit string)
| OnRetire (i : nat).

Definition engine_step (key : option (list N)) (max : N) (e : Engine) (x : EngineStep) : Engine :=
  match x with
  | OnReply rooms uid reply => (engine_handle rooms uid reply e).1
  | OnPackages now answer attempts => package_steps key max now answer attempts e
  | OnAnswer i answer => absorb i answer e
  | OnHealth i h => absorb_health i h e
  | OnProgress i details =>
      match agents e !! i with
      | Some s => put i (owing (with_state (package_downloading details (state s)) s)) e
      | None => e
      end
  | OnSettings hash outcome =>
      set_agents ((λ s, owing (with_state (connection_settings_outcome hash outcome (state s)) s)) <$> agents e) e
  | OnRetire i => retire i e
  end.
End Engine.
