(* ===== verification/Downgrades.v ===== *)
(** * What a Client installs

    The theorems on the packages of a Client: what is handed to a process is the operator's, of its
    type, and not below the floor; and a Supervisor does not go back, as long as no offer overtakes a
    package that is still in flight. *)

From S2P Require Import Prelude RustStr Proto Version Packages HostFloors Protocol Supervised Engine.

Open Scope string_scope.
Open Scope list_scope.

(** ** One Agent *)

Section Agents.
Context {S ComponentDetails : Type} `{!AgentStorage S}.
Context (current : string) (sha256 : list N → list N) (marks_text : gmap string string → string).
Context `{!HashIter string OfferedPackage}.
Notation Agent := (@AgentState S ComponentDetails).
Implicit Types a : Agent.

(** What an Agent is, what it runs and who it is stay. *)
Definition same_package a a' : Prop :=
  kind a' = kind a ∧ installed_package (packages a') = installed_package (packages a).

#[export] Instance same_package_preorder : PreOrder same_package.
Proof. split; [by split|]. intros a b c [H1 H2] [H3 H4]. split; congruence. Qed.

Lemma same_package_waits reason a : same_package a (package_waits reason (config_waits reason a)).
Proof.
  unfold package_waits, config_waits. destruct (remote_config_status (protocol a)); [destruct (_ || _)|];
    (destruct (_ || _); [by split|]); by split.
Qed.

Lemma same_name_the_wait a : same_package a (name_the_wait a).
Proof. apply same_package_waits. Qed.

Lemma same_apply c a : same_package a (apply c a).
Proof.
  unfold apply. destruct (managed (kind a)); [destruct (store_remote_config c (storage a)) as [st []]|];
    (etransitivity; [|apply same_name_the_wait]); by split.
Qed.

Lemma same_config_applied hash outcome a : same_package a (config_applied hash outcome a).
Proof.
  unfold config_applied. destruct (applying a) as [c|]; [|by split].
  destruct (is_ok outcome && _); [|by split]. cbn. destruct (store_remote_config c (storage a)) as [st []]; by split.
Qed.

(** An offer a Supervisor takes: of its type, SemVer, and not below what it runs. *)
Lemma offer_taken k h f offer c c' now d :
  expected_package k = None →
  handle_package_offer current k h f offer c = (c', now, Some d) →
  download_name d = service_name k ∧ is_semver (download_version d) = true ∧
  (∀ p, installed_package c = Some p → no_lower (installed_version p) (download_version d)) ∧
  (has_marks k = true → ∃ m, mark (service_name k) h = Ok m ∧ ∀ v, m = Some v → no_lower v (download_version d)).
Proof.
  intros He. unfold handle_package_offer. destruct (negb (accepts_packages k)); [done|].
  cbv zeta. set (c0 := mkChannel _ _ _ _ (offer_all_hash offer) (echoed_all_packages_hash c) _ _ _ _).
  destruct (List.filter _ _) as [|[n a] [|[n2 a2] l]]; [by case_bool_decide| |done].
  rewrite He. destruct (supervisor_refusal k h c0 n (offered_version a)) as [why|] eqn:Hs; [done|].
  assert (Htake : take_package current k offer n a c0 = (c', now, Some d) →
    download_name d = n ∧ download_version d = offered_version a).
  { unfold take_package. destruct (already_has _ _ _ _); [done|]. case_bool_decide; [done|].
    destruct (offered_file a); [|done]. by intros [= _ _ <-]. }
  intros Hd. assert (Hd' : take_package current k offer n a c0 = (c', now, Some d)).
  { destruct (floor_refusal k f (offered_version a)); [|done]. by destruct (already_has _ _ _ _). }
  destruct (Htake Hd') as [-> ->]. clear Htake Hd Hd'. unfold supervisor_refusal in Hs.
  assert (Hold : ∀ v held, older v held = false → no_lower held v).
  { unfold older. intros v held' Ho. by apply bool_decide_eq_false in Ho. }
  destruct (if has_marks k then mark (service_name k) h else Ok None) as [m|] eqn:Hm; [|done].
  destruct (bool_decide_reflect (n = service_name k)) as [->|]; [|done]. cbn [negb] in Hs.
  destruct (is_semver (offered_version a)) eqn:Hv; [|done]. cbn [negb] in Hs. split; [done|]. split; [done|].
  change (installed_package c0) with (installed_package c) in Hs. split.
  - intros p Hp. rewrite Hp in Hs. destruct (older _ _) eqn:Ho; [by destruct m as [m|]; [destruct (older _ m)|]|]. by apply Hold.
  - intros Hh. rewrite Hh in Hm. exists m. split; [done|]. intros v ->.
    destruct (installed_package c) as [p|]; [destruct (older _ (installed_version p)); [by destruct (older _ v)|]|];
      (destruct (older (offered_version a) v) eqn:Ho; [done|]; by apply Hold).
Qed.

Lemma offer_keeps k h f offer c c' now d :
  handle_package_offer current k h f offer c = (c', now, d) → installed_package c' = installed_package c.
Proof.
  unfold handle_package_offer. destruct (negb (accepts_packages k)); [by intros [= <- _ _]|]. cbv zeta.
  set (c0 := mkChannel _ _ _ _ (offer_all_hash offer) (echoed_all_packages_hash c) _ _ _ _).
  assert (Htake : ∀ n x, take_package current k offer n x c0 = (c', now, d) → installed_package c' = installed_package c).
  { intros n x. unfold take_package. destruct (already_has _ _ _ _); [by intros [= <- _ _]|].
    case_bool_decide; [by intros [= <- _ _]|]. destruct (offered_file x); by intros [= <- _ _]. }
  destruct (List.filter _ _) as [|[n a] [|[n2 a2] l]]; [case_bool_decide; by intros [= <- _ _]| |by intros [= <- _ _]].
  destruct (expected_package k); [destruct (negb _); [by intros [= <- _ _]|apply Htake]|].
  destruct (supervisor_refusal _ _ _ _ _); [by intros [= <- _ _]|].
  destruct (floor_refusal _ _ _); [destruct (already_has _ _ _ _); [apply Htake|by intros [= <- _ _]]|apply Htake].
Qed.

(** A reply leaves an Agent what it runs; a Supervisor asks for a package it may take. *)
Lemma handle_same h f reply a a' handled :
  handle current sha256 h f reply a = (a', handled) →
  same_package a a' ∧
  (∀ d, package_download handled = Some d → is_Some (packages_available reply) ∧
     (expected_package (kind a) = None →
      download_name d = service_name (kind a) ∧ is_semver (download_version d) = true ∧
      ∀ p, installed_package (packages a) = Some p → no_lower (installed_version p) (download_version d))).
Proof.
  unfold handle. destruct (receive reply (protocol a)) as [p rc] eqn:Er.
  assert (Hrc : ∀ offer, received_packages_available rc = Some offer → packages_available reply = Some offer).
  { intros offer. unfold receive in Er. destruct (command reply); [injection Er as _ <-; done|].
    destruct (error_response reply); [injection Er as _ <-; done|]. by injection Er as _ <-. }
  destruct (received_command rc) as [c|].
  { intros [= <- <-]. split; [|done]. by destruct (_ && _). }
  set (a1 := match new_uid rc with Some _ => _ | None => _ end).
  assert (H1 : same_package a a1) by (subst a1; by destruct (new_uid rc)). clearbody a1.
  set (asked := _ && _). set (a2 := if asked then _ else a1).
  assert (H2 : same_package a a2) by (subst a2; by destruct asked). clearbody a2 asked. clear a1 H1.
  destruct (match received_remote_config rc with Some _ => _ | None => _ end) as [a3 took] eqn:E3.
  assert (H3 : same_package a a3).
  { destruct (received_remote_config rc) as [c|]; [destruct (ignored_configs a2)|]; injection E3 as <- _; [done| |done].
    etransitivity; [exact H2|apply same_apply]. }
  clear E3 H2 a2.
  destruct (match received_connection_settings rc with Some _ => _ | None => _ end) as [a4 settings] eqn:E4.
  assert (H4 : same_package a a4).
  { destruct (received_connection_settings rc) as [o|]; [|by injection E4 as <- _]. unfold handle_settings in E4.
    destruct (_ && _); by injection E4 as <- _. }
  clear E4 H3 a3. destruct (received_packages_available rc) as [offer|] eqn:Ep.
  2: { intros [= <- <-]. by split. }
  destruct (handle_package_offer current (kind a4) h f offer (packages a4)) as [[c now] d] eqn:Eo.
  pose proof (offer_keeps _ _ _ _ _ _ _ _ Eo) as Hk. destruct H4 as [Hkind Hinst]. intros [= <- <-]. cbn. split.
  - split; destruct (package_status_owed c); cbn; congruence.
  - intros d' ->. split; [rewrite (Hrc offer) by done; by eexists|]. intros He. rewrite <- Hkind in He.
    destruct (offer_taken _ _ _ _ _ _ _ _ He Eo) as (Hn & Hv & Hi & _). rewrite Hkind in Hn. rewrite Hinst in Hi. auto.
Qed.
End Agents.

(** ** The packages in flight *)

Section Flight.
Context {S ComponentDetails : Type} `{!AgentStorage S}.
Context (current : string) (sha256 : list N → list N) (ed25519 : list N → string → list N → bool).
Context (marks_text : gmap string string → string).
Context (floors_text : gmap string KeptFloor → string) (floors_of : string → option (gmap string KeptFloor)).
Context (hex_decode : string → option (list N)).
Context `{!HashIter string OfferedPackage}.
Notation Slot := (@Slot S ComponentDetails).
Notation Engine := (@Engine S ComponentDetails).
Notation Downloads := (list (nat * PackageDownload)).
Implicit Types (s : Slot) (e : Engine) (l : list Slot) (pend : Downloads).

Definition handed_of (c : Command) : option string := match c with ApplyPackage v _ => Some v | _ => None end.
Definition handed s : list string := omap handed_of (default [] (commands s)).

Definition asked_by (i : nat) (id : nat * PackageDownload) : option string :=
  if bool_decide (id.1 = i) then Some (download_version id.2) else None.

(** The versions asked for and handed over, and not answered, of the Agent at [i]. *)
Definition in_flight (i : nat) pend s : list string := omap (asked_by i) pend ++ handed s.

Definition installed_of s : option string := installed_version <$> installed_package (packages (state s)).

(** A Supervisor with one package in flight at most, and that one not below what it runs. *)
Definition settled (i : nat) pend s : Prop :=
  i ≠ SELF_AGENT_INDEX →
  expected_package (kind (state s)) = None ∧
  (∀ v, installed_of s = Some v → is_semver v = true) ∧
  Forall (λ v, is_semver v = true) (in_flight i pend s) ∧
  (length (in_flight i pend s) ≤ 1)%nat ∧
  ∀ v w, installed_of s = Some v → w ∈ in_flight i pend s → no_lower v w.

Definition all_settled pend l : Prop := ∀ i s, l !! i = Some s → settled i pend s.

(** No Supervisor went back. *)
Definition advanced l l' : Prop :=
  ∀ i s v, i ≠ SELF_AGENT_INDEX → l !! i = Some s → installed_of s = Some v →
  ∃ s' v', l' !! i = Some s' ∧ installed_of s' = Some v' ∧ no_lower v v'.

Definition moves pend l pend' l' : Prop := all_settled pend l → all_settled pend' l' ∧ advanced l l'.

Lemma advanced_refl l : advanced l l.
Proof. intros i s v _ Hs Hv. exists s, v. split; [done|]. split; [done|]. apply no_lower_refl. Qed.

Lemma moves_refl pend l : moves pend l pend l.
Proof. intros H. split; [done|apply advanced_refl]. Qed.

Lemma moves_trans p1 l1 p2 l2 p3 l3 : moves p1 l1 p2 l2 → moves p2 l2 p3 l3 → moves p1 l1 p3 l3.
Proof.
  intros M1 M2 H1. destruct (M1 H1) as [H2 A1]. destruct (M2 H2) as [H3 A2]. split; [done|].
  intros i s v Hi Hs Hv. destruct (A1 i s v Hi Hs Hv) as (s2 & v2 & Hs2 & Hv2 & Hn2).
  destruct (A2 i s2 v2 Hi Hs2 Hv2) as (s3 & v3 & Hs3 & Hv3 & Hn3). exists s3, v3. split; [done|]. split; [done|].
  eapply no_lower_trans; [..|exact Hn2|exact Hn3].
  - by apply (H1 i s Hs Hi).
  - by apply (H2 i s2 Hs2 Hi).
  - by apply (H3 i s3 Hs3 Hi).
Qed.

(** What leaves an Agent as it is, and puts nothing in flight. *)
Lemma settled_sub i pend pend' s s' :
  kind (state s') = kind (state s) → installed_of s' = installed_of s →
  in_flight i pend' s' ⊆+ in_flight i pend s → settled i pend s → settled i pend' s'.
Proof.
  intros Hk Hv Hsub H Hi. destruct (H Hi) as (He & Hsv & Hf & Hl & Hn). rewrite Hk, Hv. split; [done|]. split; [done|].
  split; [|split].
  - eapply Forall_forall. intros v Hin. rewrite Forall_forall in Hf. apply Hf. by eapply elem_of_submseteq.
  - apply submseteq_length in Hsub. lia.
  - intros v w Hv' Hw. apply (Hn v w Hv'). by eapply elem_of_submseteq.
Qed.

Lemma moves_sub pend pend' l l' :
  (∀ i s', l' !! i = Some s' → ∃ s, l !! i = Some s ∧ kind (state s') = kind (state s) ∧ installed_of s' = installed_of s ∧
     in_flight i pend' s' ⊆+ in_flight i pend s) →
  length l' = length l → moves pend l pend' l'.
Proof.
  intros H Hlen Hs. split.
  - intros i s' Hs'. destruct (H i s' Hs') as (s & Hl & Hk & Hv & Hsub). eapply settled_sub; [..|by apply Hs]; done.
  - intros i s v _ Hl Hv. destruct (lookup_lt_is_Some_2 l' i) as [s' Hs']; [rewrite Hlen; by eapply lookup_lt_Some|].
    destruct (H i s' Hs') as (s0 & Hl0 & _ & Hv0 & _). rewrite Hl in Hl0. injection Hl0 as <-.
    exists s', v. split; [done|]. split; [congruence|]. apply no_lower_refl.
Qed.

(** One Agent changed. *)
Lemma moves_put pend pend' l i s s' :
  l !! i = Some s → kind (state s') = kind (state s) → installed_of s' = installed_of s →
  in_flight i pend' s' ⊆+ in_flight i pend s →
  (∀ j, j ≠ i → omap (asked_by j) pend' ⊆+ omap (asked_by j) pend) →
  moves pend l pend' (<[i := s']> l).
Proof.
  intros Hl Hk Hv Hsub Hother. apply moves_sub; [|by rewrite length_insert].
  intros j sj. destruct (decide (j = i)) as [->|Hne].
  - rewrite list_lookup_insert_eq by by eapply lookup_lt_Some. intros [= <-]. eauto.
  - rewrite list_lookup_insert_ne by done. intros Hj. exists sj. split; [done|]. split; [done|]. split; [done|].
    apply submseteq_app; [by apply Hother|done].
Qed.

Lemma moves_pend pend pend' l : (∀ j, omap (asked_by j) pend' ⊆+ omap (asked_by j) pend) → moves pend l pend' l.
Proof. intros H. apply moves_sub; [|done]. intros i s Hs. exists s. split; [done|]. split; [done|]. split; [done|]. by apply submseteq_app. Qed.

(** The Client's own Agent is held to the build that runs, not to a record. *)
Lemma moves_self pend pend' l s' :
  (∀ j, omap (asked_by j) pend' ⊆+ omap (asked_by j) pend) → moves pend l pend' (<[SELF_AGENT_INDEX := s']> l).
Proof.
  intros Hsub H. assert (Hne : ∀ i s, i ≠ SELF_AGENT_INDEX → <[SELF_AGENT_INDEX := s']> l !! i = Some s ↔ l !! i = Some s).
  { intros i s Hi. by rewrite list_lookup_insert_ne by done. }
  split.
  - intros i s Hs Hi. apply Hne in Hs; [|done]. eapply settled_sub; [done|done| |by apply H|done]. by apply submseteq_app.
  - intros i s v Hi Hs Hv. exists s, v. split; [by apply Hne|]. split; [done|]. apply no_lower_refl.
Qed.

(** *** The steps *)

Lemma package_applied_kind hash outcome (a : AgentState (S := S) (ComponentDetails := ComponentDetails)) h :
  kind (package_applied marks_text hash outcome a h).1 = kind a ∧
  installed_package (packages (package_applied marks_text hash outcome a h).1) =
    match outcome with
    | Ok v => Some (mkInstalled (default "" (match installing (packages a), installed_package (packages a) with
                                             | _, Some p => Some (installed_name p)
                                             | Some d, None => Some (download_name d)
                                             | None, None => match offered_name (packages a) with Some n => Some n | None => expected_package (kind a) end
                                             end)) v hash)
    | Err _ => installed_package (packages a)
    end.
Proof.
  unfold package_applied. destruct outcome as [v|why]; [|done]. cbn. split; [done|]. do 2 f_equal.
  unfold package_name. cbn. destruct (installing (packages a)), (installed_package (packages a)), (offered_name (packages a)); done.
Qed.

Lemma agents_applied i s hash outcome e :
  agents (applied_package marks_text i s hash outcome e) =
    <[i := owing (with_state (package_applied marks_text hash outcome (state s) (high_water e)).1 s)]> (agents e).
Proof. unfold applied_package. by destruct (package_applied _ _ _ _ _). Qed.

Lemma moves_failed pend pend' i s0 s hash why e :
  agents e !! i = Some s0 → kind (state s) = kind (state s0) → installed_of s = installed_of s0 →
  in_flight i pend' s ⊆+ in_flight i pend s0 →
  (∀ j, j ≠ i → omap (asked_by j) pend' ⊆+ omap (asked_by j) pend) →
  moves pend (agents e) pend' (agents (applied_package marks_text i s hash (Err why) e)).
Proof.
  intros Hs Hk Hv Hsub Hother. rewrite agents_applied.
  destruct (package_applied_kind hash (Err why) (state s) (high_water e)) as [Hk' Hp'].
  eapply moves_put; [exact Hs| | |exact Hsub|exact Hother].
  - cbn [state owing with_state]. congruence.
  - unfold installed_of in *. cbn [state owing with_state]. by rewrite Hp'.
Qed.

Lemma submseteq_omap_app (f : nat * PackageDownload → option string) x y z :
  omap f (x ++ z) ⊆+ omap f (x ++ y ++ z).
Proof. rewrite !omap_app. apply submseteq_app; [done|]. by apply submseteq_inserts_l. Qed.

Lemma moves_download_failed x y i d why e :
  moves (x ++ [(i, d)] ++ y) (agents e) (x ++ y) (agents (package_download_failed marks_text i (download_hash d) why e)).
Proof.
  unfold package_download_failed. destruct (agents e !! i) as [s|] eqn:Hs.
  - eapply moves_failed; [done..| |]; intros; unfold in_flight.
    + apply submseteq_app; [|done]. apply submseteq_omap_app.
    + apply submseteq_omap_app.
  - apply moves_pend. intros. apply submseteq_omap_app.
Qed.

Lemma downloads_failed i hash why e :
  pending_package_downloads (package_download_failed marks_text i hash why e) = pending_package_downloads e ∧
  floors (package_download_failed marks_text i hash why e) = floors e ∧
  self_update (package_download_failed marks_text i hash why e) = self_update e.
Proof. unfold package_download_failed, applied_package. destruct (agents e !! i); [|done]. by destruct (package_applied _ _ _ _ _). Qed.

Lemma moves_hold (ds : Downloads) e :
  moves (pending_package_downloads e ++ ds) (agents e)
    (pending_package_downloads (hold_each marks_text ds e)) (agents (hold_each marks_text ds e)).
Proof.
  revert e. induction ds as [|[i d] ds IH]; intros e; cbn [hold_each].
  - rewrite app_nil_r. apply moves_refl.
  - destruct (agents e !! i ≫= _) as [why|].
    + destruct (downloads_failed i (download_hash d) why e) as (Hd & _).
      eapply moves_trans; [|apply IH]. rewrite Hd. apply (moves_download_failed (pending_package_downloads e) ds).
    + specialize (IH (set_downloads (pending_package_downloads e ++ [(i, d)]) e)). cbn in IH. by rewrite <- app_assoc in IH.
Qed.

(** A verified artifact handed over, or not. *)
Lemma moves_apply rm hst x i d e :
  moves ((i, d) :: x) (agents e) x (agents (apply_package current marks_text rm hst i (download_version d) (download_hash d) e)).
Proof.
  unfold apply_package. destruct (agents e !! i) as [s|] eqn:Hs.
  2: { apply moves_pend. intros j. apply (submseteq_omap_app _ [] [(i, d)]). }
  set (s1 := with_state (package_downloaded (state s)) s).
  assert (H1 : kind (state s1) = kind (state s) ∧ installed_of s1 = installed_of s ∧ handed s1 = handed s).
  { assert (Hsame : same_package (state s) (package_downloaded (state s))).
    { unfold package_downloaded. etransitivity; [|apply same_name_the_wait]. by split. }
    destruct Hsame as [Hk Hp]. split; [done|]. split; [|done]. unfold installed_of. cbn [state s1 with_state]. by rewrite Hp. }
  destruct H1 as (Hk1 & Hv1 & Hh1).
  assert (Hother : ∀ j, omap (asked_by j) x ⊆+ omap (asked_by j) ((i, d) :: x)).
  { intros j. apply (submseteq_omap_app _ [] [(i, d)]). }
  assert (Hsub1 : in_flight i x s1 ⊆+ in_flight i ((i, d) :: x) s).
  { unfold in_flight. rewrite Hh1. by apply submseteq_app. }
  assert (Hfail : ∀ u hash why, moves ((i, d) :: x) (agents e) x
    (agents (applied_package marks_text i s1 hash (Err why) (set_self_update u (put i s1 e))))).
  { intros u hash why. rewrite agents_applied. cbn [agents set_self_update put set_agents]. rewrite list_insert_insert_eq.
    change (high_water (set_self_update u (put i s1 e))) with (high_water e).
    rewrite <- (agents_applied i s1 hash (Err why)).
    eapply moves_failed; [exact Hs|exact Hk1|exact Hv1|exact Hsub1|]. intros j _. apply Hother. }
  case_bool_decide as Hi.
  - subst i. destruct (self_installs _ _ _ _ _) as [u [[]|why]]; [| |apply Hfail].
    + by apply moves_self.
    + rewrite agents_applied. cbn [agents set_self_update put set_agents]. rewrite list_insert_insert_eq. by apply moves_self.
  - unfold send_command. destruct (commands s1) as [q|] eqn:Hq; [destruct rm|].
    + cbn [agents put set_agents]. rewrite list_insert_insert_eq.
      eapply moves_put; [exact Hs|exact Hk1|exact Hv1| |intros j _; apply Hother].
      unfold in_flight. assert (Hq' : handed (with_commands (Some (q ++ [ApplyPackage (download_version d) (download_hash d)])) s1)
        = handed s ++ [download_version d]).
      { rewrite <- Hh1. unfold handed. cbn [commands with_commands]. rewrite Hq.
        exact (omap_app handed_of q [ApplyPackage (download_version d) (download_hash d)]). }
      assert (Hcons : omap (asked_by i) ((i, d) :: x) = download_version d :: omap (asked_by i) x).
      { cbn. unfold asked_by at 1. cbn. by rewrite bool_decide_true. }
      rewrite Hq', Hcons. apply Permutation_submseteq. by rewrite app_assoc, <- Permutation_cons_append.
    + apply (Hfail (self_update e)).
    + apply (Hfail (self_update e)).
Qed.

Lemma moves_process key max (ds : Downloads) attempts e :
  moves ds (agents e) [] (agents (process_each current sha256 ed25519 marks_text key max ds attempts e)).
Proof.
  revert attempts e. induction ds as [|[i d] ds IH]; intros attempts e; cbn [process_each]; [apply moves_refl|].
  assert (Hstop : ∀ l, moves ds l [] l) by (intros l; apply moves_pend; intros j; apply submseteq_nil_l).
  destruct attempts as [|t attempts]; [apply moves_pend; intros j; apply submseteq_nil_l|].
  destruct (download_and_verify _ _ _ _ _ d) as [[]|why].
  - destruct (restart _); (eapply moves_trans; [apply moves_apply|]); [apply Hstop|apply IH].
  - eapply moves_trans; [apply (moves_download_failed [] ds)|apply IH].
Qed.

Lemma handed_send rm c s s' : handed_of c = None → send_command rm c s = Some s' → handed s' = handed s ∧ state s' = state s.
Proof.
  intros Hc. unfold send_command. destruct (commands s) as [q|] eqn:Hq; [|done]. destruct rm; [|done]. intros [= <-]. split; [|done].
  unfold handed. cbn [commands with_commands]. rewrite Hq. change (omap handed_of (q ++ [c]) = omap handed_of q).
  rewrite omap_app. cbn. rewrite Hc. apply app_nil_r.
Qed.

Definition alike s s' : Prop := same_package (state s) (state s') ∧ handed s' = handed s.

Lemma alike_trans s1 s2 s3 : alike s1 s2 → alike s2 s3 → alike s1 s3.
Proof. intros [H1 H2] [H3 H4]. split; [by etransitivity|congruence]. Qed.

Lemma alike_with s a : same_package (state s) a → alike s (with_state a s).
Proof. by split. Qed.

Lemma alike_owing s : alike s (owing s).
Proof. split; [reflexivity|done]. Qed.

Lemma hand_over_alike rooms i s s' c : hand_over rooms i s = (s', c) → alike s s'.
Proof.
  unfold hand_over. cbn [take_pending_apply].
  set (s1 := with_state (set_configs _ _ _ (state s)) s). assert (H1 : alike s s1) by by apply alike_with.
  destruct (match pending_apply (state s) with Some _ => _ | None => _ end) as [s2 sc] eqn:E2.
  assert (H2 : alike s s2).
  { destruct (pending_apply (state s)) as [rc|]; [|by injection E2 as <- _].
    destruct (_ && _); [by injection E2 as <- _|]. destruct (commands s1); [|by injection E2 as <- _].
    destruct (send_command rooms.1 (ApplyConfig rc) s1) as [s'1|] eqn:Es; injection E2 as <- _.
    - apply handed_send in Es as [Hh Hst]; [|done]. eapply alike_trans; [exact H1|]. split; [by rewrite Hst|done].
    - eapply alike_trans; [exact H1|]. eapply alike_trans; [|apply alike_owing]. apply alike_with, same_config_applied. }
  clear E2 H1. cbn [take_pending_restart]. set (s3 := with_state (set_pending_restart false (state s2)) s2).
  assert (H3 : alike s s3) by (eapply alike_trans; [exact H2|by apply alike_with]). intros [= <- _].
  destruct (pending_restart (state s2)); [|done]. destruct (send_command rooms.2 RestartProcess s3) as [s4|] eqn:Es; [|done].
  apply handed_send in Es as [Hh Hst]; [|done]. eapply alike_trans; [exact H3|]. split; [cbn; by rewrite Hst|done].
Qed.

(** An offer finds nothing of its Agent in flight. *)
Definition unhurried e (x : EngineStep) : Prop :=
  match x with
  | OnReply _ uid reply =>
      is_Some (packages_available reply) → ∀ i s, from_wire uid ≫= (λ uid, agent_of uid (agents e)) = Some (i, s) →
      in_flight i (pending_package_downloads e) s = []
  | _ => True
  end.

Lemma moves_handle rooms uid reply e :
  unhurried e (OnReply rooms uid reply) →
  let e' := (engine_handle current sha256 rooms uid reply e).1 in
  moves (pending_package_downloads e) (agents e) (pending_package_downloads e') (agents e').
Proof.
  cbn [unhurried]. intros Hq. unfold engine_handle. destruct (from_wire uid ≫= λ uid, agent_of uid (agents e)) as [[i s]|] eqn:Ef; [|apply moves_refl].
  assert (Hs : agents e !! i = Some s).
  { destruct (from_wire uid) as [u|]; [|done]. cbn in Ef. unfold agent_of in Ef. by apply list_find_Some in Ef as [? _]. }
  cbn [high_water floors set_self_update]. destruct (handle current sha256 _ _ reply (state s)) as [a handled] eqn:Eh.
  destruct (handle_same _ _ _ _ _ _ _ _ Eh) as [Hsame Hd].
  set (s1 := if send_report handled then _ else _). assert (H1 : alike s s1).
  { subst s1. destruct (send_report handled); [eapply alike_trans; [|apply alike_owing]|]; by apply alike_with. }
  destruct (hand_over rooms i s1) as [s2 sc] eqn:Eo. assert (H2 : alike s s2).
  { eapply alike_trans; [exact H1|]. by eapply hand_over_alike. }
  clear Eo H1 s1. destruct H2 as [[Hk Hp] Hh]. cbn [fst agents pending_package_downloads set_self_update].
  assert (Hv : installed_of s2 = installed_of s) by (unfold installed_of; by rewrite Hp).
  destruct (package_download handled) as [d|].
  2: { rewrite app_nil_r. eapply moves_put; [exact Hs|exact Hk|exact Hv| |done]. unfold in_flight. by rewrite Hh. }
  destruct (Hd d eq_refl) as [Hav Htake]. specialize (Hq Hav i s eq_refl).
  intros Hall. split.
  - intros j sj Hj. destruct (decide (j = i)) as [->|Hne].
    + rewrite list_lookup_insert_eq in Hj by by eapply lookup_lt_Some. injection Hj as <-. intros Hi.
      destruct (Hall i s Hs Hi) as (He & Hsv & _). destruct (Htake He) as (_ & Hdv & Hno).
      assert (Hfl : in_flight i (pending_package_downloads e ++ [(i, d)]) s2 = [download_version d]).
      { unfold in_flight in *. apply app_nil in Hq as [Hq1 Hq2]. rewrite omap_app, Hq1, Hh, Hq2. cbn. unfold asked_by. cbn.
        by rewrite bool_decide_true. }
      rewrite Hfl, Hk, Hv. split; [done|]. split; [done|]. split; [by constructor|]. split; [done|].
      intros v w Hvw ->%list_elem_of_singleton. unfold installed_of in Hvw.
      destruct (installed_package (packages (state s))) as [p|]; [|done]. injection Hvw as <-. by apply Hno.
    + rewrite list_lookup_insert_ne in Hj by done. eapply settled_sub; [done|done| |by apply Hall].
      unfold in_flight. rewrite omap_app. cbn. unfold asked_by at 2. cbn. rewrite bool_decide_false by done. by rewrite app_nil_r.
  - intros j sj v Hj Hsj Hvj. destruct (decide (j = i)) as [->|Hne].
    + exists s2, v. rewrite list_lookup_insert_eq by by eapply lookup_lt_Some. rewrite Hsj in Hs. injection Hs as ->.
      split; [done|]. split; [congruence|]. apply no_lower_refl.
    + exists sj, v. rewrite list_lookup_insert_ne by done. split; [done|]. split; [done|]. apply no_lower_refl.
Qed.

(** A change of one Agent that leaves it alike. *)
Lemma moves_alike pend l i s s' : l !! i = Some s → alike s s' → moves pend l pend (<[i := s']> l).
Proof.
  intros Hs [[Hk Hp] Hh]. eapply moves_put; [exact Hs|exact Hk| | |done].
  - unfold installed_of. by rewrite Hp.
  - unfold in_flight. by rewrite Hh.
Qed.

(** A package a process installed. *)
Lemma moves_installed pend i s q v hash e :
  agents e !! i = Some s → commands s = Some (ApplyPackage v hash :: q) →
  moves pend (agents e) pend
    (agents (applied_package marks_text i (with_commands (Some q) s) hash (Ok v) (put i (with_commands (Some q) s) e))).
Proof.
  intros Hs Hq Hall. rewrite agents_applied. cbn [agents put set_agents]. rewrite list_insert_insert_eq.
  set (s1 := owing _).
  assert (Hk : kind (state s1) = kind (state s) ∧ installed_of s1 = Some v ∧ handed s1 = omap handed_of q).
  { destruct (package_applied_kind hash (Ok v) (state s) (high_water e)) as [Hk Hp]. split; [exact Hk|]. split; [|done].
    unfold installed_of. cbn [state s1 owing with_state with_commands]. change (high_water (put i (with_commands (Some q) s) e)) with (high_water e).
    by rewrite Hp. }
  destruct Hk as (Hk & Hv & Hh).
  assert (Hfl : in_flight i pend s ≡ₚ v :: in_flight i pend s1).
  { unfold in_flight. rewrite Hh. unfold handed. rewrite Hq. change (default [] (Some (ApplyPackage v hash :: q))) with (ApplyPackage v hash :: q).
    change (omap handed_of (ApplyPackage v hash :: q)) with (v :: omap handed_of q). symmetry. apply Permutation_middle. }
  split.
  - intros j sj Hj. destruct (decide (j = i)) as [->|Hne].
    + rewrite list_lookup_insert_eq in Hj by by eapply lookup_lt_Some. injection Hj as <-. intros Hi.
      destruct (Hall i s Hs Hi) as (He & Hsv & Hf & Hlen & Hn). rewrite Hfl in Hlen, Hf.
      assert (Hnil : in_flight i pend s1 = []) by (cbn in Hlen; destruct (in_flight i pend s1); [done|cbn in Hlen; lia]).
      rewrite Hnil, Hk, Hv. split; [done|]. split; [intros ? [= <-]; by apply Forall_cons in Hf as [? _]|]. split; [done|].
      split; [cbn; lia|]. intros ? w _ Hw. by apply elem_of_nil in Hw.
    + rewrite list_lookup_insert_ne in Hj by done. by apply Hall.
  - intros j sj w Hj Hsj Hw. destruct (decide (j = i)) as [->|Hne].
    + rewrite Hsj in Hs. injection Hs as ->. exists s1, v. rewrite list_lookup_insert_eq by by eapply lookup_lt_Some.
      split; [done|]. split; [done|]. destruct (Hall i s Hsj Hj) as (_ & _ & _ & _ & Hn). apply Hn; [done|]. rewrite Hfl. by left.
    + exists sj, w. rewrite list_lookup_insert_ne by done. split; [done|]. split; [done|]. apply no_lower_refl.
Qed.

Lemma absorb_downloads i answer e :
  pending_package_downloads (absorb marks_text i answer e) = pending_package_downloads e.
Proof.
  unfold absorb, applied_package. destruct (agents e !! i) as [s|]; [|done]. destruct (commands s) as [[|c q]|]; [done| |done].
  destruct (retired _); [done|]. destruct c, answer; try done; by destruct (package_applied _ _ _ _ _).
Qed.

Lemma moves_absorb pend i answer e : moves pend (agents e) pend (agents (absorb marks_text i answer e)).
Proof.
  unfold absorb. destruct (agents e !! i) as [s|] eqn:Hs; [|apply moves_refl].
  destruct (commands s) as [[|c q]|] eqn:Hq; [apply moves_refl| |apply moves_refl].
  set (s1 := with_commands (Some q) s).
  assert (Hdrop : in_flight i pend s1 ⊆+ in_flight i pend s).
  { unfold in_flight. apply submseteq_app; [done|]. unfold handed. rewrite Hq.
    change (omap handed_of q ⊆+ omap handed_of ([c] ++ q)). rewrite omap_app. by apply submseteq_inserts_l. }
  assert (Hpop : ∀ s2, alike s1 s2 → moves pend (agents e) pend (<[i := s2]> (agents e))).
  { intros s2 [[Hk Hp] Hh]. eapply moves_put; [exact Hs|exact Hk| | |done].
    - unfold installed_of. by rewrite Hp.
    - unfold in_flight in *. by rewrite Hh. }
  destruct (retired s1); [apply Hpop; split; [reflexivity|done]|].
  assert (Hconf : ∀ hash o, alike s1 (owing (with_state (config_applied hash o (state s1)) s1))).
  { intros hash o. eapply alike_trans; [|apply alike_owing]. apply alike_with, same_config_applied. }
  assert (Hskip : moves pend (agents e) pend (agents (put i s1 e))) by (apply Hpop; split; [reflexivity|done]).
  destruct c as [rc|v hash|], answer as [|error|]; try exact Hskip.
  - cbn [agents put set_agents]. rewrite list_insert_insert_eq. apply Hpop, Hconf.
  - cbn [agents put set_agents]. rewrite list_insert_insert_eq. apply Hpop, Hconf.
  - by eapply moves_installed.
  - rewrite agents_applied. cbn [agents put set_agents]. rewrite list_insert_insert_eq. apply Hpop.
    destruct (package_applied_kind hash (Err (InstallError error)) (state s1) (high_water (put i s1 e))) as [Hk Hp].
    split; [by split|done].
Qed.

Lemma apply_downloads rm hst i v hash e :
  pending_package_downloads (apply_package current marks_text rm hst i v hash e) = pending_package_downloads e ∧
  floors (apply_package current marks_text rm hst i v hash e) = floors e.
Proof.
  unfold apply_package, applied_package. destruct (agents e !! i) as [s|]; [|done]. case_bool_decide.
  - destruct (self_installs _ _ _ _ _) as [u [[]|]]; [done| |]; by destruct (package_applied _ _ _ _ _).
  - destruct (send_command _ _ _); [done|]. by destruct (package_applied _ _ _ _ _).
Qed.

Lemma process_downloads key max (ds : Downloads) attempts e :
  let e' := process_each current sha256 ed25519 marks_text key max ds attempts e in
  pending_package_downloads e' = pending_package_downloads e ∧ floors e' = floors e.
Proof.
  cbv zeta. revert attempts e. induction ds as [|[i d] ds IH]; intros [|t attempts] e; cbn [process_each]; [done..|].
  destruct (download_and_verify _ _ _ _ _ d) as [[]|why].
  - destruct (apply_downloads (room t) (host t) i (download_version d) (download_hash d) e) as [H1 H2].
    destruct (restart _); [done|]. destruct (IH attempts (apply_package current marks_text (room t) (host t) i (download_version d) (download_hash d) e)) as [-> ->]. done.
  - destruct (downloads_failed i (download_hash d) (download_failure why) e) as (H1 & H2 & _).
    destruct (IH attempts (package_download_failed marks_text i (download_hash d) (download_failure why) e)) as [-> ->]. done.
Qed.

Lemma same_health h (a : AgentState (S := S) (ComponentDetails := ComponentDetails)) : same_package a (set_process_health h a).
Proof. unfold set_process_health. etransitivity; [|apply same_name_the_wait]. by split. Qed.

Lemma moves_step key max e x :
  unhurried e x →
  let e' := engine_step current sha256 ed25519 marks_text floors_text floors_of hex_decode key max e x in
  moves (pending_package_downloads e) (agents e) (pending_package_downloads e') (agents e').
Proof.
  intros Hx. destruct x as [rooms uid reply|now answer attempts|i answer|i h|i details|hash o|i]; cbn [engine_step].
  - by apply moves_handle.
  - unfold package_steps, process_package_downloads. cbv zeta. set (e1 := mkEngine _ _ _ _ _ _ _).
    set (e2 := hold_downloads_to_floors marks_text e1).
    eapply (moves_trans _ _ (pending_package_downloads e2) (agents e2)).
    + apply (moves_hold (pending_package_downloads e1) (set_downloads [] e1)).
    + destruct (process_downloads key max (pending_package_downloads e2) attempts (set_downloads [] e2)) as [-> _].
      apply (moves_process key max (pending_package_downloads e2) attempts (set_downloads [] e2)).
  - cbv zeta. rewrite absorb_downloads. apply moves_absorb.
  - unfold absorb_health. destruct (agents e !! i) as [s|] eqn:Hs; [|apply moves_refl]. destruct (retired s); [apply moves_refl|].
    apply (moves_alike _ _ _ s); [done|]. eapply alike_trans; [|apply alike_owing]. apply alike_with, same_health.
  - destruct (agents e !! i) as [s|] eqn:Hs; [|apply moves_refl]. apply (moves_alike _ _ _ s); [done|].
    eapply alike_trans; [|apply alike_owing]. by apply alike_with.
  - apply moves_sub; [|apply length_fmap]. intros i s'. cbn [agents set_agents]. rewrite list_lookup_fmap.
    destruct (agents e !! i) as [s|]; [|done]. intros [= <-]. by exists s.
  - unfold retire. destruct (agents e !! i) as [s|] eqn:Hs; [|apply moves_refl].
    eapply moves_put; [exact Hs|done|done| |done]. unfold in_flight. apply submseteq_app; [done|]. apply submseteq_nil_l.
Qed.

Notation step := (engine_step current sha256 ed25519 marks_text floors_text floors_of hex_decode).

(** Every offer of a run finds nothing of its Agent in flight. *)
Fixpoint unhurried_run key max e (xs : list EngineStep) : Prop :=
  match xs with
  | [] => True
  | x :: xs => unhurried e x ∧ unhurried_run key max (step key max e x) xs
  end.

(** C15: a Supervisor never goes back. Whatever the Server offers and whatever becomes of the
    downloads and the processes, as long as each offer finds no package of its Agent in flight, a
    Supervisor that runs a version runs one that does not order below it ever after. *)
Theorem supervisors_never_go_back key max e xs i s v :
  all_settled (pending_package_downloads e) (agents e) → unhurried_run key max e xs →
  i ≠ SELF_AGENT_INDEX → agents e !! i = Some s → installed_of s = Some v →
  ∃ s' v', agents (foldl (step key max) e xs) !! i = Some s' ∧ installed_of s' = Some v' ∧ no_lower v v'.
Proof.
  intros Hall Hrun Hi Hs Hv.
  assert (Hm : moves (pending_package_downloads e) (agents e)
    (pending_package_downloads (foldl (step key max) e xs)) (agents (foldl (step key max) e xs))).
  { clear Hall Hs Hv. revert e Hrun. induction xs as [|x xs IH]; intros e Hrun; cbn [foldl]; [apply moves_refl|].
    destruct Hrun as [Hx Hrun]. eapply moves_trans; [by apply moves_step|]. by apply IH. }
  by apply (proj2 (Hm Hall)) with s.
Qed.

(** ** What is handed over *)

(** No Agent changed its kind, and what was handed to one is of [P]. *)
Definition grown (P : nat → Kind → string → Prop) l l' : Prop :=
  ∀ i s', l' !! i = Some s' → ∃ s, l !! i = Some s ∧ kind (state s') = kind (state s) ∧
    ∀ v, v ∈ handed s' → v ∈ handed s ∨ P i (kind (state s)) v.

Lemma grown_refl P l : grown P l l.
Proof. intros i s Hs. exists s. auto. Qed.

Lemma grown_trans P l1 l2 l3 : grown P l1 l2 → grown P l2 l3 → grown P l1 l3.
Proof.
  intros G1 G2 i s3 H3. destruct (G2 i s3 H3) as (s2 & H2 & Hk2 & Hv2). destruct (G1 i s2 H2) as (s1 & H1 & Hk1 & Hv1).
  exists s1. split; [done|]. split; [congruence|]. intros v Hv. destruct (Hv2 v Hv) as [Hv'|HP]; [by apply Hv1|].
  right. by rewrite <- Hk1.
Qed.

Lemma grown_put P l i s s' :
  l !! i = Some s → kind (state s') = kind (state s) → (∀ v, v ∈ handed s' → v ∈ handed s ∨ P i (kind (state s)) v) →
  grown P l (<[i := s']> l).
Proof.
  intros Hs Hk Hv j sj. destruct (decide (j = i)) as [->|Hne].
  - rewrite list_lookup_insert_eq by by eapply lookup_lt_Some. intros [= <-]. eauto.
  - rewrite list_lookup_insert_ne by done. intros Hj. exists sj. auto.
Qed.

Lemma grown_alike P l i s s' : l !! i = Some s → alike s s' → grown P l (<[i := s']> l).
Proof. intros Hs [[Hk _] Hh]. eapply grown_put; [exact Hs|exact Hk|]. intros v. rewrite Hh. auto. Qed.

Lemma alike_applied hash o s h :
  kind (state (owing (with_state (package_applied marks_text hash o (state s) h).1 s))) = kind (state s) ∧
  handed (owing (with_state (package_applied marks_text hash o (state s) h).1 s)) = handed s.
Proof. split; [apply package_applied_kind|done]. Qed.

Lemma grown_applied P i s0 s hash o e :
  agents e !! i = Some s0 → kind (state s) = kind (state s0) → (∀ v, v ∈ handed s → v ∈ handed s0) →
  grown P (agents e) (agents (applied_package marks_text i s hash o e)).
Proof.
  intros Hs Hk Hv. rewrite agents_applied. destruct (alike_applied hash o s (high_water e)) as [Hk' Hh'].
  eapply grown_put; [exact Hs|congruence|]. rewrite Hh'. auto.
Qed.

Lemma grown_failed P i hash why e : grown P (agents e) (agents (package_download_failed marks_text i hash why e)).
Proof.
  unfold package_download_failed. destruct (agents e !! i) as [s|] eqn:Hs; [|apply grown_refl]. by eapply grown_applied.
Qed.

Lemma grown_apply P rm hst i d e :
  (∀ s, agents e !! i = Some s → i ≠ SELF_AGENT_INDEX → P i (kind (state s)) (download_version d)) →
  grown P (agents e) (agents (apply_package current marks_text rm hst i (download_version d) (download_hash d) e)).
Proof.
  intros HP. unfold apply_package. destruct (agents e !! i) as [s|] eqn:Hs; [|apply grown_refl].
  set (s1 := with_state (package_downloaded (state s)) s).
  assert (H1 : alike s s1).
  { apply alike_with. unfold package_downloaded. etransitivity; [|apply same_name_the_wait]. by split. }
  assert (Happlied : ∀ u hash o, grown P (agents e) (agents (applied_package marks_text i s1 hash o (set_self_update u (put i s1 e))))).
  { intros u hash o. eapply grown_trans; [by eapply grown_alike|].
    change (<[i := s1]> (agents e)) with (agents (set_self_update u (put i s1 e))).
    eapply grown_applied; [|done|done]. cbn [agents put set_agents set_self_update]. rewrite list_lookup_insert_eq; [done|by eapply lookup_lt_Some]. }
  case_bool_decide as Hi.
  - destruct (self_installs _ _ _ _ _) as [u [[]|why]]; [by eapply grown_alike|apply Happlied..].
  - unfold send_command. destruct (commands s1) as [q|] eqn:Hq; [destruct rm|]; [|apply (Happlied (self_update e))..].
    cbn [agents put set_agents]. rewrite list_insert_insert_eq. destruct H1 as [[Hk1 _] Hh1].
    eapply grown_put; [exact Hs|exact Hk1|]. intros v. unfold handed at 1. cbn [commands with_commands].
    change (default [] (Some ?x)) with x. rewrite omap_app, elem_of_app. cbn. rewrite list_elem_of_singleton.
    intros [Hv| ->]; [left|right; by apply HP]. rewrite <- Hh1. unfold handed. by rewrite Hq.
Qed.

(** The operator's key signed the type, the version and the content of the artifact. *)
Definition verified key (d : PackageDownload) : Prop :=
  ∃ k body, key = Some k ∧ sha256 body = download_content_hash d ∧
    ed25519 k (statement (download_name d) (download_version d) (download_content_hash d)) (download_signature d) = true.

Lemma download_verified key max fetched d u : download_and_verify sha256 ed25519 key max fetched d = Ok u → verified key d.
Proof.
  unfold download_and_verify. destruct (negb _); [done|]. unfold signature_policy. destruct key as [k|]; [|done].
  case_bool_decide; [done|]. cbn. destruct fetched as [body|]; [|done]. destruct (over_cap max body); [done|].
  unfold verify_staged. destruct (bool_decide_reflect (sha256 body = download_content_hash d)) as [Hb|]; [|done]. cbn [negb].
  destruct (ed25519 _ _ _) eqn:Hsig; [|done]. intros _. by exists k, body.
Qed.

Lemma grown_process P key max (ds : Downloads) attempts e :
  (∀ i d s, (i, d) ∈ ds → i ≠ SELF_AGENT_INDEX → agents e !! i = Some s → verified key d → P i (kind (state s)) (download_version d)) →
  grown P (agents e) (agents (process_each current sha256 ed25519 marks_text key max ds attempts e)).
Proof.
  revert attempts e. induction ds as [|[i d] ds IH]; intros [|t attempts] e HP; cbn [process_each]; try apply grown_refl.
  destruct (download_and_verify _ _ _ _ _ d) as [u|why] eqn:Hd.
  - apply download_verified in Hd.
    assert (G : grown P (agents e) (agents (apply_package current marks_text (room t) (host t) i (download_version d) (download_hash d) e))).
    { apply grown_apply. intros s Hs Hi. apply HP; [by left|done..]. }
    destruct (restart _); [done|]. eapply grown_trans; [exact G|]. apply IH. intros j d' s' Hin Hj Hs' Hv.
    destruct (G j s' Hs') as (s & Hs & -> & _). apply HP; [by right|done..].
  - eapply grown_trans; [apply grown_failed|]. apply IH. intros j d' s' Hin Hj Hs' Hv.
    destruct (grown_failed P _ _ _ _ j s' Hs') as (s & Hs & -> & _). apply HP; [by right|done..].
Qed.

Lemma hold_spec (ds : Downloads) e :
  let e' := hold_each marks_text ds e in
  (∀ P, grown P (agents e) (agents e')) ∧ floors e' = floors e ∧
  ∀ i d, (i, d) ∈ pending_package_downloads e' → (i, d) ∈ pending_package_downloads e ∨
    (i, d) ∈ ds ∧ ∀ s, agents e !! i = Some s → floor_refusal (kind (state s)) (floors e) (download_version d) = None.
Proof.
  cbv zeta. revert e. induction ds as [|[i d] ds IH]; intros e; cbn [hold_each].
  { split; [intros; apply grown_refl|]. auto. }
  destruct (agents e !! i ≫= λ s, floor_refusal (kind (state s)) (floors e) (download_version d)) as [why|] eqn:Hr.
  - destruct (IH (package_download_failed marks_text i (download_hash d) why e)) as (G & Hf & Hin).
    destruct (downloads_failed i (download_hash d) why e) as (Hd & Hf' & _). split; [|split].
    + intros P. eapply grown_trans; [apply grown_failed|apply G].
    + congruence.
    + intros j d' Hj. destruct (Hin j d' Hj) as [Hj'|[Hj' Hn]]; [left; by rewrite <- Hd|]. right. split; [by right|].
      intros s Hs. destruct (lookup_lt_is_Some_2 (agents (package_download_failed marks_text i (download_hash d) why e)) j) as [s' Hs'].
      { unfold package_download_failed. destruct (agents e !! i); [rewrite agents_applied, length_insert|]; by eapply lookup_lt_Some. }
      destruct (grown_failed (λ _ _ _, True) _ _ _ _ j s' Hs') as (s0 & Hs0 & Hk & _). rewrite Hs in Hs0. injection Hs0 as <-.
      rewrite <- Hk, <- Hf'. by apply Hn.
  - destruct (IH (set_downloads (pending_package_downloads e ++ [(i, d)]) e)) as (G & Hf & Hin). split; [exact G|]. split; [exact Hf|].
    intros j d' Hj. destruct (Hin j d' Hj) as [Hj'|[Hj' Hn]]; [|right; split; [by right|done]].
    cbn in Hj'. apply elem_of_app in Hj' as [?|Hj']; [by left|]. apply list_elem_of_singleton in Hj'. injection Hj' as -> ->.
    right. split; [by left|]. intros s Hs. by rewrite Hs in Hr.
Qed.

(** What a Supervisor asked for is of its type and SemVer. *)
Definition named e : Prop :=
  ∀ i d s, (i, d) ∈ pending_package_downloads e → i ≠ SELF_AGENT_INDEX → agents e !! i = Some s →
  expected_package (kind (state s)) = None → download_name d = service_name (kind (state s)) ∧ is_semver (download_version d) = true.

(** Fit to be handed over: signed for the Supervisor's type, and not below its floor. *)
Definition fit key (f : FloorFile) (i : nat) (k : Kind) (v : string) : Prop :=
  expected_package k = None →
  is_semver v = true ∧ floor_refusal k f v = None ∧
  ∃ signer body signature, key = Some signer ∧ ed25519 signer (statement (service_name k) v (sha256 body)) signature = true.

Lemma grown_absorb P i answer e : grown P (agents e) (agents (absorb marks_text i answer e)).
Proof.
  unfold absorb. destruct (agents e !! i) as [s|] eqn:Hs; [|apply grown_refl].
  destruct (commands s) as [[|c q]|] eqn:Hq; [apply grown_refl| |apply grown_refl].
  set (s1 := with_commands (Some q) s).
  assert (Hdrop : ∀ v, v ∈ handed s1 → v ∈ handed s).
  { intros v. unfold handed. rewrite Hq. change (v ∈ omap handed_of q → v ∈ omap handed_of ([c] ++ q)). rewrite omap_app, elem_of_app. auto. }
  assert (Hput : ∀ s2, kind (state s2) = kind (state s1) → handed s2 = handed s1 → grown P (agents e) (<[i := s2]> (agents e))).
  { intros s2 Hk Hh. eapply grown_put; [exact Hs|exact Hk|]. intros v. rewrite Hh. auto. }
  destruct (retired s1); [by apply Hput|].
  assert (Hconf : ∀ hash o, grown P (agents e) (<[i := owing (with_state (config_applied hash o (state s1)) s1)]> (agents e))).
  { intros hash o. apply Hput; [|done]. apply (same_config_applied hash o (state s1)). }
  assert (Hpkg : ∀ hash o, grown P (agents e) (agents (applied_package marks_text i s1 hash o (put i s1 e)))).
  { intros hash o. rewrite agents_applied. cbn [agents put set_agents]. rewrite list_insert_insert_eq.
    destruct (alike_applied hash o s1 (high_water (put i s1 e))). by apply Hput. }
  destruct c as [rc|v hash|], answer as [|error|]; try (by apply Hput); try apply Hpkg;
    cbn [agents put set_agents]; rewrite list_insert_insert_eq; apply Hconf.
Qed.

Lemma named_sub P e e' :
  grown P (agents e) (agents e') → (∀ id, id ∈ pending_package_downloads e' → id ∈ pending_package_downloads e) → named e → named e'.
Proof.
  intros G Hsub Hn i d s' Hin Hi Hs'. destruct (G i s' Hs') as (s & Hs & -> & _). by apply (Hn i d s); [apply Hsub|..].
Qed.

Lemma handle_named rooms uid reply e :
  let e' := (engine_handle current sha256 rooms uid reply e).1 in
  (∀ P, grown P (agents e) (agents e')) ∧ (named e → named e').
Proof.
  unfold engine_handle. destruct (from_wire uid ≫= λ uid, agent_of uid (agents e)) as [[i s]|] eqn:Ef;
    [|split; [intros P; apply grown_refl|done]].
  assert (Hs : agents e !! i = Some s).
  { destruct (from_wire uid) as [u|]; [|done]. cbn in Ef. unfold agent_of in Ef. by apply list_find_Some in Ef as [? _]. }
  cbn [high_water floors set_self_update]. destruct (handle current sha256 _ _ reply (state s)) as [a handled] eqn:Eh.
  destruct (handle_same _ _ _ _ _ _ _ _ Eh) as [Hsame Hd].
  set (s1 := if send_report handled then _ else _). assert (H1 : alike s s1).
  { subst s1. destruct (send_report handled); [eapply alike_trans; [|apply alike_owing]|]; by apply alike_with. }
  destruct (hand_over rooms i s1) as [s2 sc] eqn:Eo. assert (H2 : alike s s2).
  { eapply alike_trans; [exact H1|]. by eapply hand_over_alike. }
  clear Eo H1 s1. cbn [fst agents pending_package_downloads set_self_update].
  assert (G : ∀ P, grown P (agents e) (<[i:=s2]> (agents e))) by (intros P; by eapply grown_alike).
  split; [exact G|]. intros Hn j d sj Hin Hj Hsj Hx. cbn [agents pending_package_downloads] in Hin, Hsj.
  destruct (G (λ _ _ _, True) j sj Hsj) as (s0 & Hs0 & Hk & _). rewrite Hk in Hx |- *.
  apply elem_of_app in Hin as [Hin|Hin]; [by apply (Hn j d s0)|].
  destruct (package_download handled) as [d0|]; [|by apply elem_of_nil in Hin].
  apply list_elem_of_singleton in Hin. injection Hin as -> ->. rewrite Hs in Hs0. injection Hs0 as <-.
  destruct (Hd d0 eq_refl) as [_ Htake]. by destruct (Htake Hx) as (? & ? & _).
Qed.

(** One step: what is newly handed over is fit. *)
Lemma fit_step key max e x :
  let e' := step key max e x in named e → named e' ∧ grown (fit key (floors e')) (agents e) (agents e').
Proof.
  cbv zeta. intros Hn.
  assert (Hput : ∀ i s s', agents e !! i = Some s → alike s s' →
    named (put i s' e) ∧ grown (fit key (floors (put i s' e))) (agents e) (agents (put i s' e))).
  { intros i s s' Hs Ha. split; [|by eapply grown_alike]. by apply (named_sub (λ _ _ _, True) e); [eapply grown_alike|..]. }
  destruct x as [rooms uid reply|now answer attempts|i answer|i h|i details|hash o|i]; cbn [engine_step].
  - destruct (handle_named rooms uid reply e) as [G H]. split; [by apply H|apply G].
  - unfold package_steps, process_package_downloads. cbv zeta. set (e1 := mkEngine _ _ _ _ _ _ _).
    set (e2 := hold_downloads_to_floors marks_text e1).
    destruct (hold_spec (pending_package_downloads e1) (set_downloads [] e1)) as (G1 & Hf & Hin).
    destruct (process_downloads key max (pending_package_downloads e2) attempts (set_downloads [] e2)) as [Hp ->].
    cbn [floors set_downloads] in Hf, Hin |- *. split.
    + intros i d s Hd. rewrite Hp in Hd. by apply elem_of_nil in Hd.
    + change (agents e) with (agents (set_downloads [] e1)). eapply grown_trans; [apply (G1 _)|].
      change (agents (hold_each marks_text (pending_package_downloads e1) (set_downloads [] e1))) with (agents (set_downloads [] e2)).
      apply grown_process. intros i d s Hd Hi Hs (k & body & Hk & Hb & Hsig) He.
      destruct (Hin i d Hd) as [Hd'|[Hd' Hr]]; [by apply elem_of_nil in Hd'|].
      destruct (G1 (λ _ _ _, True) i s Hs) as (s0 & Hs0 & Hk0 & _). rewrite Hk0 in He |- *.
      destruct (Hn i d s0 Hd' Hi Hs0 He) as [Hname Hv]. split; [done|]. assert (Hf2 : floors e2 = floors e1) by exact Hf.
      split; [rewrite Hf2; by apply Hr|].
      exists k, body, (download_signature d). split; [done|]. by rewrite Hb, <- Hname.
  - split; [|apply grown_absorb]. apply (named_sub (λ _ _ _, True) e); [apply grown_absorb| |done].
    intros id. by rewrite absorb_downloads.
  - unfold absorb_health. destruct (agents e !! i) as [s|] eqn:Hs; [|split; [done|apply grown_refl]].
    destruct (retired s); [split; [done|apply grown_refl]|]. apply (Hput i s); [done|].
    eapply alike_trans; [|apply alike_owing]. apply alike_with, same_health.
  - destruct (agents e !! i) as [s|] eqn:Hs; [|split; [done|apply grown_refl]]. apply (Hput i s); [done|].
    eapply alike_trans; [|apply alike_owing]. by apply alike_with.
  - assert (G : ∀ P, grown P (agents e) ((λ s, owing (with_state (connection_settings_outcome hash o (state s)) s)) <$> agents e)).
    { intros P i s'. rewrite list_lookup_fmap. destruct (agents e !! i) as [s|]; [|done]. intros [= <-]. exists s. auto. }
    split; [|apply G]. by apply (named_sub (λ _ _ _, True) e); [apply G|..].
  - unfold retire. destruct (agents e !! i) as [s|] eqn:Hs; [|split; [done|apply grown_refl]].
    assert (G : ∀ P, grown P (agents e) (<[i := mkSlot (state s) None (owes_report s) true]> (agents e))).
    { intros P. eapply grown_put; [exact Hs|done|]. intros v Hv. by apply elem_of_nil in Hv. }
    split; [|apply G]. by apply (named_sub (λ _ _ _, True) e); [apply G|..].
Qed.

(** C16: what a Client hands to a process is the operator's. Whatever came before, a step that hands a
    Supervisor a version hands it one that is SemVer, that the configured key signed for the
    Supervisor's own Agent type, and that the floors held after the step do not refuse. *)
Theorem handed_packages_are_the_operators key max e xs x i s s' v :
  pending_package_downloads e = [] →
  let e1 := foldl (step key max) e xs in
  let e2 := step key max e1 x in
  agents e1 !! i = Some s → agents e2 !! i = Some s' → v ∈ handed s' → v ∉ handed s →
  expected_package (kind (state s')) = None →
  is_semver v = true ∧ floor_refusal (kind (state s')) (floors e2) v = None ∧
  ∃ signer body signature, key = Some signer ∧
    ed25519 signer (statement (service_name (kind (state s'))) v (sha256 body)) signature = true.
Proof.
  intros He e1 e2 Hs Hs' Hv Hnew Hx.
  assert (Hn : named e1).
  { subst e1. assert (H0 : named e) by (intros j d sj Hd; rewrite He in Hd; by apply elem_of_nil in Hd).
    clear -H0. revert e H0. induction xs as [|y xs IH]; intros e H0; [done|]. apply IH. by apply fit_step. }
  destruct (fit_step key max e1 x Hn) as [_ G]. destruct (G i s' Hs') as (s0 & Hs0 & Hk & Hgrown).
  rewrite Hs in Hs0. injection Hs0 as <-. destruct (Hgrown v Hv) as [|Hfit]; [done|]. rewrite Hk in Hx |- *. by apply Hfit.
Qed.
End Flight.
