(* ===== verification/ClientSamples.v ===== *)
(** * A Client at work

    A Client with one Supervisor of the type [collector], run on concrete offers, downloads and
    answers: what the theorems on its packages say of it, and the offer that overtakes a package in
    flight. *)

From S2P Require Import Prelude RustStr Proto Version Packages HostFloors Protocol Supervised Engine Downgrades.

Open Scope string_scope.
Open Scope list_scope.

(** ** What the sections leave open *)

(** A store in memory: the uid, the configuration and the package record. *)
Record Kept := mkKept {
  kept_uid : list N;
  kept_config : option RemoteConfig;
  kept_package : option InstalledPackage;
}.

#[export] Instance kept_storage : AgentStorage Kept := {|
  save_uid u st := (mkKept u (kept_config st) (kept_package st), true);
  load_remote_config := kept_config;
  store_remote_config c st := (mkKept (kept_uid st) (Some c) (kept_package st), true);
  load_package := kept_package;
  store_package p st := (mkKept (kept_uid st) (kept_config st) (Some p), true);
  forget_package st := (mkKept (kept_uid st) (kept_config st) None, true);
|}.

Definition bytes_of (s : string) : list N := N_of_ascii <$> String.list_ascii_of_string s.

(** A signature is the key before what it signs; a digest is the content. *)
Definition sample_sign (key : list N) (message : string) : list N := key ++ bytes_of message.
Definition sample_ed25519 (key : list N) (message : string) (signature : list N) : bool :=
  bool_decide (signature = sample_sign key message).
Definition sample_sha256 (body : list N) : list N := body.

Definition operator : list N := [7%N; 7%N].

(** The served text names one floor. *)
Definition sample_floors_of (text : string) : option (gmap string KeptFloor) :=
  if bool_decide (text = "floor 1.5.0") then Some {["collector" := mkKeptFloor "1.5.0" "sig"]} else None.
Definition sample_hex (_ : string) : option (list N) := Some (sample_sign operator (floor_statement "collector" "1.5.0")).

Notation Client := (@Engine Kept unit).

Notation sample_step := (engine_step (S := Kept) (ComponentDetails := unit) "1.0.0" sample_sha256 sample_ed25519 (λ _, "marks")
  (λ _, "floors") sample_floors_of sample_hex (Some operator) 1000%N).

(** ** The Client *)

Definition uid_of (n : N) : list N := replicate 16 n.

Definition no_file : StateFile := mkStateFile None false [].

(** The Client's own Agent, and the Supervisor of [collector] 1.0.0. *)
Definition sample_client : Client :=
  let st := mkKept (uid_of 2) None (Some (mkInstalled "collector" "1.0.0" [1%N])) in
  let '(a, h) := accept_packages (λ _, "marks")
    (set_floors (with_high_water (restore (Some "collector") true (uid_of 2) st))) (marks_open (λ _, None) no_file) in
  mkEngine [mkSlot (restore None true (uid_of 1) (mkKept (uid_of 1) None None)) None false false;
            mkSlot a (Some []) false false]
    [] None None (mkSelfUpdate None false false) h (floors_open sample_floors_of (Some operator) no_file).

Definition body_of (version : string) : list N := bytes_of version.

Definition offer_of (version : string) : EngineStep :=
  let file := mkOfferedFile "u" (body_of version) (sample_sign operator (statement "collector" version (body_of version))) [] in
  OnReply (true, true) (uid_of 2)
    (mkReply None None None
       (Some (mkPackagesOffer {["collector" := mkOffered 0 version (Some file) (bytes_of version)]} (bytes_of version)))
       0 0 None None).

Definition fetched_of (answer : option string) (version : string) : EngineStep :=
  OnPackages 0 answer [mkAttempt (Ok (body_of version)) true (Err (InstallError ""))].

Definition version_at (i : nat) (e : Client) : option string := agents e !! i ≫= installed_of.

(** ** The theorems, at work *)

Lemma sample_settled : all_settled (pending_package_downloads sample_client) (agents sample_client).
Proof.
  intros [|[|i]] s Hs Hi; [done| |by vm_compute in Hs]. vm_compute in Hs. injection Hs as <-.
  split; [done|]. split; [intros v [= <-]; by vm_compute|]. split; [by constructor|]. split; [by apply Nat.le_0_l|].
  intros v w _ Hw. by apply elem_of_nil in Hw.
Qed.

Lemma supervisors_never_go_back_witness :
  let xs := [offer_of "2.0.0"; fetched_of None "2.0.0"; OnAnswer 1 Applied; offer_of "1.0.0"] in
  ∃ s' v', agents (foldl sample_step sample_client xs) !! 1%nat = Some s' ∧ installed_of s' = Some v' ∧ no_lower "1.0.0" v'.
Proof.
  intros xs. destruct (agents sample_client !! 1%nat) as [s|] eqn:Hs; [|by vm_compute in Hs].
  apply (supervisors_never_go_back "1.0.0" sample_sha256 sample_ed25519 (λ _, "marks") (λ _, "floors") sample_floors_of
           sample_hex (Some operator) 1000%N sample_client xs 1 s "1.0.0").
  - exact sample_settled.
  - split; [|split; [exact I|split; [exact I|split; [|exact I]]]];
      intros _ i s0 H0; vm_compute in H0; injection H0 as <- <-; vm_compute; reflexivity.
  - discriminate.
  - exact Hs.
  - vm_compute in Hs. injection Hs as <-. reflexivity.
Defined.

Lemma handed_packages_are_the_operators_witness :
  let e1 := foldl sample_step sample_client [offer_of "2.0.0"] in
  let e2 := sample_step e1 (fetched_of (Some "floor 1.5.0") "2.0.0") in
  ∃ s', agents e2 !! 1%nat = Some s' ∧ floor "collector" (floors e2) = Ok (Some "1.5.0") ∧
    floor_refusal (kind (state s')) (floors e2) "2.0.0" = None.
Proof.
  intros e1 e2. destruct (agents e1 !! 1%nat) as [s|] eqn:Hs; [|by vm_compute in Hs].
  destruct (agents e2 !! 1%nat) as [s'|] eqn:Hs'; [|by vm_compute in Hs']. exists s'. split; [done|]. split; [by vm_compute|].
  apply (handed_packages_are_the_operators "1.0.0" sample_sha256 sample_ed25519 (λ _, "marks") (λ _, "floors") sample_floors_of
           sample_hex (Some operator) 1000%N sample_client [offer_of "2.0.0"]
           (fetched_of (Some "floor 1.5.0") "2.0.0") 1 s s' "2.0.0").
  - reflexivity.
  - exact Hs.
  - exact Hs'.
  - vm_compute in Hs'. injection Hs' as <-. by left.
  - vm_compute in Hs. injection Hs as <-. by intros ?%elem_of_nil.
  - vm_compute in Hs'. injection Hs' as <-. reflexivity.
Defined.

(** An offer the Server withdrew for another one, while the first was being installed. *)
Definition overtaken : list EngineStep :=
  [offer_of "3.0.0"; fetched_of None "3.0.0"; offer_of "2.0.0"; fetched_of None "2.0.0"; OnAnswer 1 Applied; OnAnswer 1 Applied].

(** An offer that overtakes a package in flight takes a Supervisor back. 3.0.0 is handed to the
    process, 2.0.0 is offered and handed over before 3.0.0 is answered, and the process installs both:
    the Supervisor ends on 2.0.0, below the 3.0.0 it ran and below its type's mark. Offered once 3.0.0
    is installed, 2.0.0 is refused. *)
Theorem overlapping_offers_go_back :
  version_at 1 (foldl sample_step sample_client (firstn 5 overtaken)) = Some "3.0.0" ∧
  version_at 1 (foldl sample_step sample_client overtaken) = Some "2.0.0" ∧
  mark "collector" (high_water (foldl sample_step sample_client overtaken)) = Ok (Some "3.0.0") ∧
  precedence "2.0.0" "3.0.0" = Some Lt ∧
  let late := [offer_of "3.0.0"; fetched_of None "3.0.0"; OnAnswer 1 Applied; offer_of "2.0.0"; fetched_of None "2.0.0"; OnAnswer 1 Applied] in
  version_at 1 (foldl sample_step sample_client late) = Some "3.0.0".
Proof. vm_compute. repeat split; reflexivity. Qed.
