(* ===== verification/ClientRecords.v ===== *)
(** * The versions a Client keeps, over its run

    The marks and the floors of a Client ([HostFloors]) through every step of its Engine ([Engine]): each
    rises and stays, and every floor it keeps is one its file held or one its key signed. *)

From S2P Require Import Prelude RustStr Proto Version Packages HostFloors Protocol Supervised Engine Downgrades ClientSamples.

Open Scope string_scope.
Open Scope list_scope.

Section Records.
Context {S ComponentDetails : Type} `{!AgentStorage S}.
Context (current : string) (sha256 : list N → list N) (ed25519 : list N → string → list N → bool).
Context (marks_text : gmap string string → string).
Context (floors_text : gmap string KeptFloor → string) (floors_of : string → option (gmap string KeptFloor)).
Context (hex_decode : string → option (list N)).
Context `{!HashIter string OfferedPackage}.
Notation Engine := (@Engine S ComponentDetails).
Implicit Types e : Engine.
Notation step := (engine_step current sha256 ed25519 marks_text floors_text floors_of hex_decode).

Definition held_marks e : gmap string string := held (marks (high_water e)).
Definition held_floors e : gmap string KeptFloor := held (kept (floors e)).

(** Every version kept is SemVer, as what opens the files takes care of. *)
Definition kept_semver e : Prop := semver_map id (held_marks e) ∧ semver_map kept_version (held_floors e).

(** What a step does to what is kept. *)
Record rises e e' : Prop := mkRises {
  rises_semver : kept_semver e';
  rises_marks : risen id (held_marks e) (held_marks e');
  rises_floors : risen kept_version (held_floors e) (held_floors e');
  rises_key : floor_key (floors e') = floor_key (floors e);
  rises_signed : ∀ t x, held_floors e' !! t = Some x → held_floors e !! t = Some x ∨
    ∃ key, floor_key (floors e) = Some key ∧ verifies hex_decode ed25519 key t x = true;
}.

Lemma rises_trans e1 e2 e3 : kept_semver e1 → rises e1 e2 → rises e2 e3 → rises e1 e3.
Proof.
  intros [Hm1 Hf1] [[Hm2 Hf2] M1 F1 K1 S1] [[Hm3 Hf3] M2 F2 K2 S2]. split; [by split| | |congruence|].
  - by apply (risen_trans id (held_marks e1) (held_marks e2)).
  - by apply (risen_trans kept_version (held_floors e1) (held_floors e2)).
  - intros t x Hx. destruct (S2 t x Hx) as [Hx2|]; [by apply S1|]. right. by rewrite <- K1.
Qed.

(** The floors kept, the marks raised or kept. *)
Lemma rises_same e e' : kept_semver e → high_water e' = high_water e → floors e' = floors e → rises e e'.
Proof.
  intros [Hm Hf] Hh Hfl. unfold held_marks, held_floors in *.
  split; unfold kept_semver, held_marks, held_floors; rewrite ?Hh, ?Hfl; [by split|apply risen_refl..|done|auto].
Qed.

Lemma rises_refl e : kept_semver e → rises e e.
Proof. intros. by apply rises_same. Qed.

(** What else an Engine holds does not matter. *)
Lemma rises_from e0 e e' : high_water e0 = high_water e → floors e0 = floors e → rises e0 e' → rises e e'.
Proof.
  intros Hh Hf [Hs M F K Sg]. unfold held_marks, held_floors in M, F, Sg.
  rewrite Hh in M. rewrite Hf in F, K, Sg. by split.
Qed.

Lemma rises_raised e e' t v :
  kept_semver e → high_water e' = raise marks_text t v (high_water e) → floors e' = floors e → rises e e'.
Proof.
  intros [Hm Hf] Hh Hfl. destruct (raise_risen marks_text t v (high_water e) Hm) as (Hs & R & _).
  split; unfold kept_semver, held_marks, held_floors; rewrite ?Hh, ?Hfl; [by split|done|apply risen_refl|done|auto].
Qed.

Lemma rises_applied i s hash outcome e : kept_semver e → rises e (applied_package marks_text i s hash outcome e).
Proof.
  intros He. unfold applied_package, package_applied. destruct outcome as [v|why]; [|by apply rises_same].
  cbv zeta. unfold raise_mark. cbn [kind on_storage]. case_bool_decide; [|by apply rises_same].
  destruct (has_marks _); [by eapply rises_raised|by apply rises_same].
Qed.

Lemma rises_failed i hash why e : kept_semver e → rises e (package_download_failed marks_text i hash why e).
Proof. intros He. unfold package_download_failed. destruct (agents e !! i); [by apply rises_applied|by apply rises_refl]. Qed.

Lemma rises_hold l e : kept_semver e → rises e (hold_each marks_text l e).
Proof.
  revert e. induction l as [|[i d] l IH]; intros e He; cbn [hold_each]; [by apply rises_refl|].
  destruct (_ ≫= _) as [why|].
  - pose proof (rises_failed i (download_hash d) why e He) as R. eapply rises_trans; [done|exact R|]. apply IH, R.
  - eapply rises_from; [..|apply IH]; done.
Qed.

Lemma rises_apply rm hst i v hash e : kept_semver e → rises e (apply_package current marks_text rm hst i v hash e).
Proof.
  intros He. unfold apply_package. destruct (agents e !! i) as [s|]; [|by apply rises_refl]. cbv zeta.
  set (s1 := with_state (package_downloaded (state s)) s).
  assert (Hany : ∀ u o, rises e (applied_package marks_text i s1 hash o (set_self_update u (put i s1 e)))).
  { intros u o. eapply rises_from; [..|apply rises_applied]; done. }
  case_bool_decide.
  - destruct (self_installs _ _ _ _ _) as [u [[]|why]]; [by apply rises_same|apply Hany..].
  - destruct (send_command _ _ s1); [by apply rises_same|]. apply (Hany (self_update e)).
Qed.

Lemma rises_process key max l attempts e :
  kept_semver e → rises e (process_each current sha256 ed25519 marks_text key max l attempts e).
Proof.
  revert attempts e. induction l as [|[i d] l IH]; intros [|t attempts] e He; cbn [process_each]; try by apply rises_refl.
  destruct (download_and_verify _ _ _ _ _ d) as [[]|why].
  - pose proof (rises_apply (room t) (host t) i (download_version d) (download_hash d) e He) as R.
    destruct (restart _); [done|]. eapply rises_trans; [done|exact R|]. apply IH, R.
  - pose proof (rises_failed i (download_hash d) (download_failure why) e He) as R.
    eapply rises_trans; [done|exact R|]. apply IH, R.
Qed.

Lemma rises_packages key max now answer attempts e :
  kept_semver e → rises e (package_steps current sha256 ed25519 marks_text floors_text floors_of hex_decode key max now answer attempts e).
Proof.
  intros [Hm Hf]. unfold package_steps, process_package_downloads, hold_downloads_to_floors. cbv zeta.
  set (e1 := mkEngine _ _ _ _ _ _ _).
  assert (R1 : rises e e1).
  { unfold e1, update_older_than. destruct (match fetched (floors e) with None => _ | Some _ => _ end); [|by apply rises_same].
    destruct (update_risen floors_text floors_of hex_decode ed25519 now answer (floors e) Hf) as (Hs & R & K & _ & Sg).
    split; [by split|apply risen_refl|exact R|exact K|exact Sg]. }
  pose proof (rises_hold (pending_package_downloads e1) (set_downloads [] e1) (rises_semver _ _ R1)) as R2.
  set (e2 := hold_each _ _ _) in *.
  pose proof (rises_process key max (pending_package_downloads e2) attempts (set_downloads [] e2) (rises_semver _ _ R2)) as R3.
  eapply rises_trans; [by split|exact R1|]. eapply (rises_trans _ e2); [apply R1|by eapply rises_from; [..|exact R2]|].
  by eapply rises_from; [..|exact R3].
Qed.

Lemma rises_step key max e x : kept_semver e → rises e (step key max e x).
Proof.
  intros He. destruct x as [rooms uid reply|now answer attempts|i answer|i h|i details|hash o|i]; cbn [engine_step].
  - unfold engine_handle. destruct (_ ≫= _) as [[i s]|]; [|by apply rises_refl].
    destruct (handle _ _ _ _ _ _) as [a handled]. destruct (hand_over _ _ _) as [s2 c]. by apply rises_same.
  - by apply rises_packages.
  - unfold absorb. destruct (agents e !! i) as [s|]; [|by apply rises_refl].
    destruct (commands s) as [[|c q]|]; [by apply rises_refl| |by apply rises_refl].
    destruct (retired _); [by apply rises_same|].
    destruct c, answer; try (by apply rises_same); (eapply rises_from; [..|apply rises_applied]; done).
  - unfold absorb_health. destruct (agents e !! i) as [s|]; [|by apply rises_refl]. destruct (retired s); [by apply rises_refl|by apply rises_same].
  - destruct (agents e !! i); [by apply rises_same|by apply rises_refl].
  - by apply rises_same.
  - unfold retire. destruct (agents e !! i); [by apply rises_same|by apply rises_refl].
Qed.

(** What a Client keeps only rises. Through any run, the mark and the floor of an Agent type stay
    and never order below what they were, whatever is served, offered and installed; and a floor the
    Client keeps at the end it kept at the start, or the configured key signed for that type. *)
Theorem kept_versions_only_rise key max e xs :
  kept_semver e →
  let e' := foldl (step key max) e xs in
  risen id (held_marks e) (held_marks e') ∧ risen kept_version (held_floors e) (held_floors e') ∧
  ∀ t x, held_floors e' !! t = Some x → held_floors e !! t = Some x ∨
    ∃ signer, floor_key (floors e) = Some signer ∧ verifies hex_decode ed25519 signer t x = true.
Proof.
  intros He. assert (R : rises e (foldl (step key max) e xs)).
  { revert e He. induction xs as [|x xs IH]; intros e He; cbn [foldl]; [by apply rises_refl|].
    pose proof (rises_step key max e x He) as R. eapply rises_trans; [done|exact R|]. apply IH, R. }
  destruct R. auto.
Qed.
End Records.

(** A floor fetched, and a package installed: both are kept. *)
Lemma kept_versions_only_rise_witness :
  let xs := [offer_of "2.0.0"; fetched_of (Some "floor 1.5.0") "2.0.0"; OnAnswer 1 Applied] in
  let e' := foldl sample_step sample_client xs in
  held_marks e' !! "collector" = Some "2.0.0" ∧ kept_version <$> held_floors e' !! "collector" = Some "1.5.0" ∧
  risen id (held_marks sample_client) (held_marks e').
Proof.
  intros xs e'. split; [by vm_compute|]. split; [by vm_compute|].
  apply (kept_versions_only_rise "1.0.0" sample_sha256 sample_ed25519 (λ _, "marks") (λ _, "floors") sample_floors_of
           sample_hex (Some operator) 1000%N sample_client xs).
  split; [apply (bool_decide_unpack _); vm_compute; exact I|]. by vm_compute.
Defined.
