(* ===== verification/Update.v ===== *)
(** * The Client's own update

    [fleet-agent/src/update/installer.rs], the version directories of [fleet-agent/src/service/layout.rs] and
    the start of [fleet-agent/src/service/runtime.rs]: a new version is staged beside the running one,
    proved, and pointed at; the process that starts next is on probation until the Server answers it, or
    is rolled back. A version directory is its name under [versions/]; a binary is what it says of itself.
    How a system call ends is an argument of the operation that makes it. *)

From S2P Require Import Prelude RustStr Version HostFloors Supervised Engine.

Open Scope string_scope.
Open Scope list_scope.

(** ** Version directories *)

Definition COMPONENT : string := "supervisor".

Definition version_dir_name (full_version : string) : string :=
  let '(base, metadata) := default (full_version, EmptyString) (split_once "+"%char full_version) in
  let core := match split_once "-"%char base with Some (core, _) => core | None => base end in
  if is_empty metadata then COMPONENT +:+ "-" +:+ core else COMPONENT +:+ "-" +:+ core +:+ "-" +:+ metadata.

(** ** The host *)

Definition SELF_CHECK_TOKEN : string := "supervisor self-check ok version=".
Definition MAX_ATTEMPTS : N := 3.

(** A program in a version directory: how its self-check ends, if it runs at all, and the version it
    reports once it is started. *)
Record Binary := mkBinary {
  self_check : option (bool * string);
  reports_version : string;
}.

Record UpdateMarker := mkMarker {
  previous_dir : string;
  new_dir : string;
  marker_version : string;
  marker_hash : list N;
  attempts : N;
}.

Record UpdateOutcome := mkUpdateOutcome {
  outcome_version : string;
  outcome_hash : list N;
  outcome_error : option string;
}.

(** The version directories and the pointer; the marker and the outcome in the state directory, each of
    which may be there and unreadable. *)
Record Host := mkHost {
  current_dir : option string;
  version_dirs : gmap string Binary;
  marker_file : option (option UpdateMarker);
  outcome_file : option (option UpdateOutcome);
}.

Implicit Types (h : Host) (m : UpdateMarker).

(** [Layout::set_current] on Unix: a link beside [current] is renamed over it, so a switch that fails
    leaves it as it was; a caller that meets the failure keeps the host. *)
Definition set_current (dir : string) h : Host := mkHost (Some dir) (version_dirs h) (marker_file h) (outcome_file h).
Definition set_dir (dir : string) (b : option Binary) h : Host :=
  mkHost (current_dir h) (match b with Some b => <[dir := b]> (version_dirs h) | None => delete dir (version_dirs h) end)
    (marker_file h) (outcome_file h).
Definition set_marker_file (f : option (option UpdateMarker)) h : Host := mkHost (current_dir h) (version_dirs h) f (outcome_file h).
Definition set_outcome_file (f : option (option UpdateOutcome)) h : Host := mkHost (current_dir h) (version_dirs h) (marker_file h) f.

(** ** Before the restart *)

(** The first line that answers the self-check. *)
Fixpoint find_answer (lines : list string) : option string :=
  match lines with
  | [] => None
  | line :: lines => match strip_prefix SELF_CHECK_TOKEN (trim line) with Some r => Some r | None => find_answer lines end
  end.

(** [probe]. *)
Definition probe (b : Binary) (expected : string) : result unit Why :=
  match self_check b with
  | None => Err (InstallError "the staged binary does not run")
  | Some (false, _) => Err (InstallError "the staged binary answered the self-check with a failure")
  | Some (true, output) =>
      match find_answer (split "010"%char output) with
      | None => Err (InstallError "the staged binary is not an OpAMP Fleet Client")
      | Some reported =>
          if same_release (trim reported) expected then Ok tt
          else Err (InstallError "the staged binary reports another version")
      end
  end.

(** How staging ends: short of a whole directory, with what is then in it; or staged, with whether the
    marker is written and the pointer moved. *)
Inductive InstallEnd :=
| StageFails (left_ : option Binary)
| Stages (staged : Binary) (marker_written switched : bool).

(** [install]; [running_dir] is the version directory of this executable, where it has one. *)
Definition install (running : string) (running_dir : option string) (version : string) (hash : list N)
    (fl : result (option string) Unreadable) (ended : InstallEnd) h : Host * result SelfInstall Why :=
  match install_check running version fl with
  | Err why => (h, Err why)
  | Ok _ =>
      match running_dir with
      | None => (h, Err (InstallError "this Client does not run from a versioned install layout"))
      | Some running_dir =>
          let dir := version_dir_name version in
          if contains_byte "/"%char dir then (h, Err (InstallError "the offered version does not map to a version directory"))
          else if bool_decide (dir = running_dir) then (h, Ok AlreadyRunning)
          else
            match ended with
            | StageFails left_ => (set_dir dir left_ h, Err (InstallError "cannot stage the artifact"))
            | Stages b marker_written switched =>
                let h := set_dir dir (Some b) h in
                match probe b version with
                | Err why => (h, Err why)
                | Ok _ =>
                    if negb marker_written then (h, Err (InstallError "cannot write the update marker"))
                    else
                      let h := set_marker_file (Some (Some (mkMarker running_dir dir version hash 0))) h in
                      if negb switched then (h, Err (InstallError "cannot switch the current pointer"))
                      else (set_current dir h, Ok SelfStaged)
                end
            end
      end
  end.

(** ** After it *)

Inductive Startup := Ordinary | OnProbation (m : UpdateMarker) | RolledBack (m : UpdateMarker) | Owed (o : UpdateOutcome).

(** How the files of a start are written: the marker stored, the pointer moved, the marker removed, the
    outcome recorded. *)
Record StartEnd := mkStartEnd {
  marker_stored : bool;
  pointer_moved : bool;
  marker_removed : bool;
  outcome_recorded : bool;
}.

Definition remove_marker (removed : bool) h : Host := if removed then set_marker_file None h else h.

(** [finish]. *)
Definition finish m (error : option string) (e : StartEnd) h : Host * UpdateOutcome :=
  let o := mkUpdateOutcome (marker_version m) (marker_hash m) error in
  let h := remove_marker (marker_removed e) h in
  (if outcome_recorded e then set_outcome_file (Some (Some o)) h else h, o).

(** [load_marker]. *)
Definition load_marker (e : StartEnd) h : Host * option UpdateMarker :=
  match marker_file h with
  | None => (h, None)
  | Some None => (remove_marker (marker_removed e) h, None)
  | Some (Some m) => (h, Some m)
  end.

(** [canonicalize] of a version directory. *)
Definition resolved h (dir : string) : option string := if bool_decide (is_Some (version_dirs h !! dir)) then Some dir else None.

Definition took_over (running_version : string) (running_dir : option string) m h : bool :=
  same_release running_version (marker_version m)
  && match running_dir with Some dir => bool_decide (resolved h dir = resolved h (new_dir m)) | None => false end.

(** [on_start_as]. *)
Definition on_start (running_dir : option string) (running_version : string) (e : StartEnd) h : Host * result Startup string :=
  let '(h, loaded) := load_marker e h in
  match loaded with
  | None => (h, Ok (match outcome_file h with Some (Some o) => Owed o | _ => Ordinary end))
  | Some m =>
      let m := mkMarker (previous_dir m) (new_dir m) (marker_version m) (marker_hash m) (attempts m + 1) in
      if negb (took_over running_version running_dir m h) then
        let '(h, o) := finish m (Some "the new version did not take over") e h in (h, Ok (Owed o))
      else if (MAX_ATTEMPTS <? attempts m)%N then
        if pointer_moved e then
          (((finish m (Some "the new version did not stay up") e (set_current (previous_dir m) h)).1), Ok (RolledBack m))
        else (h, Err "cannot switch the current pointer")
      else if marker_stored e then (set_marker_file (Some (Some m)) h, Ok (OnProbation m))
      else (h, Err "cannot write the update marker")
  end.

(** [heal_current]. *)
Definition heal_current (running_dir : string) (healed : bool) h : Host :=
  match current_dir h with
  | Some d => if bool_decide (resolved h d = Some running_dir) then h else if healed then set_current running_dir h else h
  | None => if healed then set_current running_dir h else h
  end.

(** ** A run *)

(** A process: the directory and version it runs, the marker it may commit, and whether the Server has
    answered it. *)
Record Process := mkProcess {
  runs_from : string;
  runs_version : string;
  probation : option UpdateMarker;
  answered : bool;
}.

(** How far the start of a process comes: out before it looks for an update, with a configuration it
    cannot read, or up. *)
Inductive BootEnd := EarlyError | UnreadableConfig | Up.

(** The service manager starts what [current] names ([run_until_shutdown], [unreadable_config]): the
    process that is up, if it is, and the outcome it reports. *)
Definition boot (how : BootEnd) (healed : bool) (e : StartEnd) h : Host * option Process * option UpdateOutcome :=
  match current_dir h with
  | None => (h, None, None)
  | Some dir =>
      match version_dirs h !! dir with
      | None => (h, None, None)
      | Some b =>
          let h := heal_current dir healed h in
          match how with
          | EarlyError => (h, None, None)
          | UnreadableConfig => ((on_start (Some dir) (reports_version b) e h).1, None, None)
          | Up =>
              let '(h, found) := on_start (Some dir) (reports_version b) e h in
              match found with
              | Err _ | Ok (RolledBack _) => (h, None, None)
              | Ok Ordinary => (h, Some (mkProcess dir (reports_version b) None false), None)
              | Ok (OnProbation m) => (h, Some (mkProcess dir (reports_version b) (Some m) false), None)
              | Ok (Owed o) => (set_outcome_file None h, Some (mkProcess dir (reports_version b) None false), Some o)
              end
          end
      end
  end.

(** [server_answered]: the first answer commits a version on probation. *)
Definition server_answers (armed : bool) (e : StartEnd) (p : Process) h : Host * Process :=
  if answered p then (h, p)
  else
    match probation p with
    | Some m => if armed then ((finish m None e h).1, mkProcess (runs_from p) (runs_version p) None true)
                else (h, mkProcess (runs_from p) (runs_version p) (Some m) true)
    | None => (h, mkProcess (runs_from p) (runs_version p) None true)
    end.

Record Site := mkSite {
  host : Host;
  process : option Process;
}.

Inductive SiteStep :=
| OnBoot (how : BootEnd) (healed : bool) (e : StartEnd)
| OnAnswer (e : StartEnd)
| OnInstall (version : string) (hash : list N) (fl : result (option string) Unreadable) (ended : InstallEnd)
| OnStop.

(** A package of the Client's own is installed only by a process the Server has answered, and only where
    self-update is armed; a staged one ends the run. *)
Definition site_step (armed : bool) (s : Site) (x : SiteStep) : Site :=
  match x, process s with
  | OnBoot how healed e, None => let '(h, p, _) := boot how healed e (host s) in mkSite h p
  | OnAnswer e, Some p => let '(h, p) := server_answers armed e p (host s) in mkSite h (Some p)
  | OnInstall version hash fl ended, Some p =>
      if armed && answered p then
        match install (runs_version p) (Some (runs_from p)) version hash fl ended (host s) with
        | (h, Ok SelfStaged) => mkSite h None
        | (h, _) => mkSite h (Some p)
        end
      else s
  | OnStop, Some _ => mkSite (host s) None
  | _, _ => s
  end.
