(* ===== verification/UpdateRuns.v ===== *)
(** * A new version commits or goes

    Through any run of starts, answers, installs and crashes ([Update]), [current] names a version that
    answered for itself; a version that does not reach the Server is rolled back after a bounded number of
    starts; and a committed one stays. *)

From S2P Require Import Prelude RustStr Version HostFloors Supervised Engine Update.

Open Scope string_scope.
Open Scope list_scope.

Implicit Types (h : Host) (m : UpdateMarker) (e : StartEnd).

(** ** The directory of an offered version *)

Lemma split_once_no_byte c d s l r :
  contains_byte d s = false → split_once c s = Some (l, r) → contains_byte d l = false ∧ contains_byte d r = false.
Proof.
  intros Hs [-> _]%split_once_Some. rewrite contains_byte_app in Hs. cbn in Hs. apply orb_false_iff in Hs as [Hl Hr].
  by apply orb_false_iff in Hr as [_ Hr].
Qed.

Lemma dir_name_plain version : contains_byte "/"%char version = false → contains_byte "/"%char (version_dir_name version) = false.
Proof.
  intros H. unfold version_dir_name. destruct (split_once "+"%char version) as [[base meta]|] eqn:Es; cbn [default from_option id]; cbv zeta.
  - destruct (split_once_no_byte _ _ _ _ _ H Es) as [Hb Hm]. destruct (split_once "-"%char base) as [[core pre]|] eqn:Ed.
    + destruct (split_once_no_byte _ _ _ _ _ Hb Ed) as [Hc _]. destruct (is_empty meta); rewrite !contains_byte_app; by rewrite Hc, ?Hm.
    + destruct (is_empty meta); rewrite !contains_byte_app; by rewrite Hb, ?Hm.
  - destruct (split_once "-"%char version) as [[core pre]|] eqn:Ed; cbn [is_empty].
    + destruct (split_once_no_byte _ _ _ _ _ H Ed) as [Hc _]. rewrite !contains_byte_app. by rewrite Hc.
    + rewrite !contains_byte_app. by rewrite H.
Qed.

(** ** What [current] names *)

(** A directory whose program answers its self-check at some version. *)
Definition answers h (dir : string) : Prop := ∃ b v, version_dirs h !! dir = Some b ∧ probe b v = Ok tt.

(** The invariant. *)
Record sound (s : Site) : Prop := mkSound {
  s_current : ∃ dir, current_dir (host s) = Some dir ∧ answers (host s) dir;
  s_process : ∀ p, process s = Some p → current_dir (host s) = Some (runs_from p);
  s_marker : ∀ m, marker_file (host s) = Some (Some m) → answers (host s) (previous_dir m);
  s_settled : ∀ p m, process s = Some p → probation p = None → marker_file (host s) = Some (Some m) → previous_dir m = runs_from p;
}.

(** The marker is removed where it is said to be; the only failure the invariant does not outlast. *)
Definition removes (x : SiteStep) : Prop :=
  match x with OnBoot _ _ e | OnAnswer e => marker_removed e = true | _ => True end.

(** A host whose files of the update changed, and its directories not. *)
Lemma answers_same h h' dir : version_dirs h' = version_dirs h → answers h dir → answers h' dir.
Proof. unfold answers. by intros ->. Qed.

Lemma finish_rest m error e h :
  let h' := (finish m error e h).1 in
  current_dir h' = current_dir h ∧ version_dirs h' = version_dirs h ∧
  (marker_removed e = true → marker_file h' = None) ∧ (marker_file h' = None ∨ marker_file h' = marker_file h).
Proof. unfold finish, remove_marker. cbn. destruct (marker_removed e), (outcome_recorded e); cbn; split_and!; auto; done. Qed.

(** What a start leaves: the pointer where it was or back at the previous version, the directories as they
    were, and the marker gone unless the version is on probation. *)
Lemma on_start_rest dir v e h h' r :
  marker_removed e = true → on_start dir v e h = (h', r) →
  version_dirs h' = version_dirs h ∧
  (current_dir h' = current_dir h ∨ ∃ m, marker_file h = Some (Some m) ∧ current_dir h' = Some (previous_dir m)) ∧
  (∀ m', marker_file h' = Some (Some m') → ∃ m, marker_file h = Some (Some m) ∧ previous_dir m' = previous_dir m) ∧
  match r with
  | Ok Ordinary | Ok (Owed _) => current_dir h' = current_dir h ∧ ∀ m, marker_file h' ≠ Some (Some m)
  | Ok (OnProbation m) => current_dir h' = current_dir h ∧ marker_file h' = Some (Some m)
  | _ => True
  end.
Proof.
  intros Hrem. unfold on_start, load_marker, remove_marker. rewrite Hrem.
  destruct (marker_file h) as [[m|]|] eqn:Em.
  - set (m1 := mkMarker _ _ _ _ _). destruct (negb _).
    { pose proof (finish_rest m1 (Some "the new version did not take over") e h) as (H1 & H2 & H3 & _). cbv zeta in *.
      destruct (finish m1 _ e h) as [h1 o]. cbn [fst] in *. intros [= <- <-]. specialize (H3 Hrem).
      split; [done|]. split; [by left|]. split; [congruence|]. split; [done|]. congruence. }
    destruct (_ <? _)%N.
    { destruct (pointer_moved e); [|intros [= <- <-]; split; [done|]; split; [by left|]; split; [intros m' Hm'; exists m'; split; congruence|done]].
      pose proof (finish_rest m1 (Some "the new version did not stay up") e (set_current (previous_dir m1) h)) as (H1 & H2 & H3 & _).
      cbv zeta in *. destruct (finish m1 _ e _) as [h1 o]. cbn [fst] in *. intros [= <- <-]. specialize (H3 Hrem).
      split; [done|]. split; [right; exists m; by rewrite H1|]. split; [congruence|done]. }
    destruct (marker_stored e); intros [= <- <-];
        [|split; [done|]; split; [by left|]; split; [intros m' Hm'; exists m'; split; congruence|done]]. split; [done|]. split; [by left|]. split; [|done].
    cbn. intros m' [= <-]. by exists m.
  - intros [= <- <-]. cbn. split; [done|]. split; [by left|]. split; [done|]. by destruct (outcome_file h) as [[]|].
  - intros [= <- <-]. split; [done|]. split; [by left|]. split; [congruence|]. destruct (outcome_file h) as [[]|]; split; try done; congruence.
Qed.

(** What a start leaves keeps the pointer and the marker's way back answering. *)
Lemma on_start_sound dir v e h h' r :
  marker_removed e = true → on_start dir v e h = (h', r) →
  (∃ d, current_dir h = Some d ∧ answers h d) → (∀ m, marker_file h = Some (Some m) → answers h (previous_dir m)) →
  (∃ d, current_dir h' = Some d ∧ answers h' d) ∧ (∀ m, marker_file h' = Some (Some m) → answers h' (previous_dir m)).
Proof.
  intros Hrem Ho (d & Hd & Ha) Hm. destruct (on_start_rest _ _ _ _ _ _ Hrem Ho) as (Ev & Hc & Hk & _). split.
  - destruct Hc as [->|(m & Hmf & ->)]; [exists d|exists (previous_dir m)]; (split; [done|]); eapply answers_same; eauto.
  - intros m' Hm'. destruct (Hk m' Hm') as (m & Hmf & ->). eapply answers_same; eauto.
Qed.

Lemma heal_same dir healed h : current_dir h = Some dir → is_Some (version_dirs h !! dir) → heal_current dir healed h = h.
Proof. intros Hc Hd. unfold heal_current, resolved. rewrite Hc. rewrite (bool_decide_true (is_Some _)) by done. by rewrite bool_decide_true. Qed.

Lemma sound_boot how healed e (s : Site) armed :
  marker_removed e = true → sound s → process s = None → sound (site_step armed s (OnBoot how healed e)).
Proof.
  intros Hrem [(d & Hd & Ha) _ Hm _] Hp. cbn [site_step]. rewrite Hp. unfold boot. rewrite Hd.
  pose proof Ha as (b & v & Hb & _). rewrite Hb. rewrite heal_same by eauto.
  destruct how.
  - split; cbn; eauto; done.
  - destruct (on_start _ _ e (host s)) as [h' r] eqn:Eo. destruct (on_start_sound _ _ _ _ _ _ Hrem Eo) as [H1 H2]; eauto.
    split; cbn; eauto; done.
  - destruct (on_start _ _ e (host s)) as [h' r] eqn:Eo. destruct (on_start_sound _ _ _ _ _ _ Hrem Eo) as [H1 H2]; eauto.
    destruct (on_start_rest _ _ _ _ _ _ Hrem Eo) as (_ & _ & _ & Hr).
    destruct r as [[|m|m|o]|]; (split; cbn; [done|..|done|]); try done.
    + intros p [= <-]. cbn. by rewrite (proj1 Hr).
    + intros p m [= <-] _ Hmf. by destruct (proj2 Hr m).
    + intros p [= <-]. cbn. by rewrite (proj1 Hr).
    + intros p m' [= <-]. done.
    + intros p [= <-]. cbn. by rewrite (proj1 Hr).
    + intros p m [= <-] _ Hmf. by destruct (proj2 Hr m).
Qed.

Lemma sound_answer e (s : Site) armed : marker_removed e = true → sound s → sound (site_step armed s (OnAnswer e)).
Proof.
  intros Hrem Hs. cbn [site_step]. destruct (process s) as [p|] eqn:Hp; [|done]. destruct Hs as [(d & Hd & Ha) Hcur Hm Hset].
  specialize (Hcur p Hp). unfold server_answers. destruct (answered p); [split; cbn; eauto; naive_solver|].
  destruct (probation p) as [m|] eqn:Hpr; [destruct armed|].
  - pose proof (finish_rest m None e (host s)) as (H1 & H2 & H3 & _). cbv zeta in *. specialize (H3 Hrem).
    destruct (finish m None e (host s)) as [h' o]. cbn [fst] in *. split; cbn.
    + exists d. rewrite H1. split; [done|]. by eapply answers_same.
    + intros q [= <-]. cbn. by rewrite H1.
    + congruence.
    + congruence.
  - split; cbn; eauto.
    + intros q [= <-]. done.
    + intros q m' [= <-]. done.
  - split; cbn; eauto.
    + intros q [= <-]. done.
    + intros q m' [= <-] _. cbn. by apply Hset.
Qed.

Lemma answers_set_dir dir b h d : d ≠ dir → answers h d → answers (set_dir dir b h) d.
Proof.
  intros Hne (c & v & Hc & Hp). exists c, v. split; [|done]. destruct b; cbn; [by rewrite lookup_insert_ne|by rewrite lookup_delete_ne].
Qed.

Lemma sound_install version hash fl ended (s : Site) p :
  sound s → process s = Some p → probation p = None →
  sound (match install (runs_version p) (Some (runs_from p)) version hash fl ended (host s) with
         | (h, Ok SelfStaged) => mkSite h None
         | (h, _) => mkSite h (Some p)
         end).
Proof.
  intros Hs Hp Hpr. assert (Hsame : sound (mkSite (host s) (Some p))).
  { destruct s as [h q]. cbn in *. by subst q. }
  destruct Hs as [(d & Hd & Ha) Hcur Hm Hset]. specialize (Hcur p Hp). assert (d = runs_from p) as -> by congruence.
  assert (Hdir : ∀ b, version_dir_name version ≠ runs_from p → sound (mkSite (set_dir (version_dir_name version) b (host s)) (Some p))).
  { intros b Hne. split; cbn.
    - eexists. split; [done|]. by apply answers_set_dir.
    - by intros q [= <-].
    - intros m Hmf. apply answers_set_dir; [|by apply Hm]. by rewrite (Hset p m).
    - intros q m [= <-] _ Hmf. by apply (Hset p m). }
  unfold install. destruct (install_check _ _ _); [|done]. cbv zeta. destruct (contains_byte _ _); [done|].
  case_bool_decide as Hdirs; [done|]. destruct ended as [b|b written switched]; [by apply Hdir|].
  destruct (probe b version) as [[]|] eqn:Epr; [|by apply Hdir]. destruct written; [|by apply Hdir]. cbn [negb].
  assert (Hnew : answers (set_dir (version_dir_name version) (Some b) (host s)) (version_dir_name version)).
  { exists b, version. cbn. by rewrite lookup_insert_eq. }
  assert (Hold : answers (set_dir (version_dir_name version) (Some b) (host s)) (runs_from p)) by by apply answers_set_dir.
  destruct switched; cbn [negb]; (split; cbn); try done.
  - exists (version_dir_name version). by split.
  - by intros m [= <-].
  - exists (runs_from p). by split.
  - by intros q [= <-].
  - by intros m [= <-].
  - by intros q m [= <-] _ [= <-].
Qed.

(** A process the Server answered is no longer on probation, where it can commit. *)
Definition settled (armed : bool) (s : Site) : Prop := ∀ p, process s = Some p → armed = true → answered p = true → probation p = None.

Lemma settled_step armed (s : Site) x : settled armed s → settled armed (site_step armed s x).
Proof.
  intros Hs. unfold settled in *. destruct x as [how healed e|e|version hash fl ended|]; cbn [site_step]; destruct (process s) as [p|] eqn:Hp;
    try (by rewrite ?Hp in *); try (intros q; rewrite Hp; apply Hs).
  - destruct (boot how healed e (host s)) as [[h' q] o] eqn:Eb. cbn. intros p Hq _ Ha. subst q.
    unfold boot in Eb. destruct (current_dir (host s)); [|done]. destruct (version_dirs (host s) !! _); [|done]. destruct how; try done.
    destruct (on_start _ _ e _) as [h1 [[|m|m|o1]|]]; injection Eb as _ Eb _; try done; by subst p.
  - unfold server_answers. destruct (answered p) eqn:Ea; [by intros q [= <-]; apply Hs|].
    destruct (probation p) as [m|]; [destruct armed|]; cbn; try (by intros q [= <-]); done.
  - destruct (armed && answered p) eqn:Ea; [|by rewrite Hp]. destruct (install _ _ _ _ _ _ _) as [h' [[|]|]]; cbn; try done; by intros q [= <-]; apply Hs.
Qed.

Lemma sound_step armed (s : Site) x : sound s → settled armed s → removes x → sound (site_step armed s x).
Proof.
  intros Hs Hset Hr. destruct x as [how healed e|e|version hash fl ended|].
  - destruct (process s) as [p|] eqn:Hp; [cbn [site_step]; by rewrite Hp|]. by apply sound_boot.
  - by apply sound_answer.
  - cbn [site_step]. destruct (process s) as [p|] eqn:Hp; [|done]. destruct (armed && answered p) eqn:Ea; [|done].
    apply andb_true_iff in Ea as [-> Ha]. by apply sound_install; [| |apply Hset].
  - cbn [site_step]. destruct (process s) as [p|] eqn:Hp; [|done]. destruct Hs as [H1 _ H3 _]. by split.
Qed.

Lemma sound_run armed (s : Site) xs : sound s → settled armed s → Forall removes xs → sound (foldl (site_step armed) s xs).
Proof.
  revert s. induction xs as [|x xs IH]; intros s Hs Hset Hx; cbn; [done|]. inversion Hx; subst.
  apply IH; [by apply sound_step|by apply settled_step|done].
Qed.

(** C19: the Client stays on a version that answers for itself. On Unix, where a switch that fails leaves
    [current] as it was, from a host whose current version does and that holds no marker, and through any
    run of starts, installs, answers and crashes in which a marker that is removed is gone ([removes]),
    with whatever staging, switching or recording failed, [current] names a directory whose program
    answers its self-check, and so does the way back. *)
Theorem current_answers_for_itself armed h dir xs :
  current_dir h = Some dir → answers h dir → marker_file h = None → Forall removes xs →
  let h' := host (foldl (site_step armed) (mkSite h None) xs) in
  (∃ dir', current_dir h' = Some dir' ∧ answers h' dir') ∧ ∀ m, marker_file h' = Some (Some m) → answers h' (previous_dir m).
Proof.
  intros Hc Ha Hm Hx. assert (Hs : sound (mkSite h None)) by (split; cbn; eauto; congruence).
  destruct (sound_run armed (mkSite h None) xs Hs ltac:(done) Hx) as [H1 _ H3 _]. by split.
Qed.

(** ** Probation *)

(** Every file of a start is written. *)
Definition fine : StartEnd := mkStartEnd true true true true.

(** Starts of a version that never stays up: each counted, and then gone. *)
Definition crash_loop (hows : list BootEnd) h : Host := foldl (λ h how, (boot how true fine h).1.1) h hows.

Definition counted (how : BootEnd) : Prop := how ≠ EarlyError.

(** A host whose current version is on probation. *)
Record probing m h : Prop := mkProbing {
  pr_marker : marker_file h = Some (Some m);
  pr_current : current_dir h = Some (new_dir m);
  pr_new : ∃ b, version_dirs h !! new_dir m = Some b ∧ same_release (reports_version b) (marker_version m) = true;
  pr_old : is_Some (version_dirs h !! previous_dir m);
}.

Definition tried m (n : N) : UpdateMarker := mkMarker (previous_dir m) (new_dir m) (marker_version m) (marker_hash m) (attempts m + n).

(** One start of it. *)
Lemma boot_probing m h how :
  probing m h → counted how →
  if (attempts m <? MAX_ATTEMPTS)%N then probing (tried m 1) (boot how true fine h).1.1
  else let h' := (boot how true fine h).1.1 in
       current_dir h' = Some (previous_dir m) ∧ marker_file h' = None ∧ version_dirs h' = version_dirs h ∧
       ∃ o, outcome_file h' = Some (Some o) ∧ outcome_version o = marker_version m ∧ outcome_hash o = marker_hash m ∧ is_Some (outcome_error o).
Proof.
  intros [Hm Hc (b & Hb & Hv) Ho] Hhow. unfold boot. rewrite Hc, Hb. rewrite heal_same by eauto.
  assert (Hon : on_start (Some (new_dir m)) (reports_version b) fine h =
    if (MAX_ATTEMPTS <? attempts m + 1)%N
    then ((finish (tried m 1) (Some "the new version did not stay up") fine (set_current (previous_dir m) h)).1, Ok (RolledBack (tried m 1)))
    else (set_marker_file (Some (Some (tried m 1))) h, Ok (OnProbation (tried m 1)))).
  { unfold on_start, load_marker. rewrite Hm. cbv zeta. unfold took_over. cbn [marker_version new_dir]. rewrite Hv.
    by rewrite bool_decide_true. }
  assert (Hlt : (MAX_ATTEMPTS <? attempts m + 1)%N = negb (attempts m <? MAX_ATTEMPTS)%N).
  { destruct (N.ltb_spec (attempts m) MAX_ATTEMPTS), (N.ltb_spec MAX_ATTEMPTS (attempts m + 1)); try done; lia. }
  rewrite Hlt in Hon. destruct (attempts m <? MAX_ATTEMPTS)%N; cbn [negb] in Hon; destruct how; try done; rewrite Hon; cbn.
  - split; cbn; eauto.
  - split; cbn; eauto.
  - split_and!; try done. by eexists.
  - split_and!; try done. by eexists.
Qed.

(** A host with no update in flight stays where it is. *)
Lemma boot_settled h how healed e d :
  marker_file h = None → current_dir h = Some d → is_Some (version_dirs h !! d) →
  let h' := (boot how healed e h).1.1 in marker_file h' = None ∧ current_dir h' = Some d ∧ version_dirs h' = version_dirs h.
Proof.
  intros Hm Hc Hd. pose proof Hd as [b Hb]. unfold boot. rewrite Hc, Hb. rewrite heal_same by done.
  assert (Hon : on_start (Some d) (reports_version b) e h = (h, Ok (match outcome_file h with Some (Some o) => Owed o | _ => Ordinary end))).
  { unfold on_start, load_marker. by rewrite Hm. }
  rewrite Hon. destruct how; cbn; [done|done|]. by destruct (outcome_file h) as [[o|]|].
Qed.

Lemma crash_loop_settled hows h d :
  marker_file h = None → current_dir h = Some d → is_Some (version_dirs h !! d) → current_dir (crash_loop hows h) = Some d ∧ marker_file (crash_loop hows h) = None.
Proof.
  revert h. induction hows as [|how hows IH]; intros h Hm Hc Hd; cbn; [done|].
  destruct (boot_settled h how true fine d Hm Hc Hd) as (H1 & H2 & H3). apply IH; [done|done|]. by rewrite H3.
Qed.

Lemma crash_loop_probing hows m h :
  probing m h → Forall counted hows → (attempts m + N.of_nat (length hows) ≤ MAX_ATTEMPTS)%N →
  probing (tried m (N.of_nat (length hows))) (crash_loop hows h).
Proof.
  revert m h. induction hows as [|how hows IH]; intros m h Hp Hc Hle.
  - cbn. unfold tried. rewrite N.add_0_r. by destruct m.
  - inversion Hc; subst. cbn [length] in Hle. pose proof (boot_probing m h how Hp ltac:(done)) as Hb.
    destruct (N.ltb_spec (attempts m) MAX_ATTEMPTS); [|lia]. cbn [crash_loop foldl]. fold (crash_loop hows (boot how true fine h).1.1).
    specialize (IH (tried m 1) _ Hb ltac:(done)). cbn [attempts tried] in IH. specialize (IH ltac:(lia)). revert IH. unfold tried. cbn.
    by replace (attempts m + 1 + N.of_nat (length hows))%N with (attempts m + N.of_nat (S (length hows)))%N by lia.
Qed.

(** C18: a version that does not reach the Server is rolled back. With every file of a start written
    ([fine]), and however each start of it ends once its attempt is counted (not one that fails before
    [on_start], which counts nothing), a version on probation stays current for as many starts as it is
    allowed, and one more brings the previous version back for good, which then reports that the update
    failed. *)
Theorem uncommitted_versions_are_rolled_back m h hows how :
  probing m h → (attempts m ≤ MAX_ATTEMPTS)%N → Forall counted (hows ++ [how]) →
  (attempts m + N.of_nat (length hows) = MAX_ATTEMPTS)%N →
  current_dir (crash_loop hows h) = Some (new_dir m) ∧
  (∀ more, current_dir (crash_loop (hows ++ how :: more) h) = Some (previous_dir m)) ∧
  ∃ h' p o, boot Up true fine (crash_loop (hows ++ [how]) h) = (h', Some p, Some o) ∧
    runs_from p = previous_dir m ∧ outcome_version o = marker_version m ∧ outcome_hash o = marker_hash m ∧ is_Some (outcome_error o).
Proof.
  intros Hp Hle [Hc Hc1]%Forall_app Hn. pose proof (crash_loop_probing hows m h Hp Hc ltac:(lia)) as Hpr.
  inversion Hc1; subst. pose proof (boot_probing _ _ how Hpr ltac:(done)) as Hb. cbn [attempts tried] in Hb.
  destruct (N.ltb_spec (attempts m + N.of_nat (length hows)) MAX_ATTEMPTS); [lia|]. cbn [previous_dir tried marker_version marker_hash] in Hb.
  destruct Hb as (Hcur & Hmf & Hv & o & Ho & Hov & Hoh & Hoe). destruct (pr_old _ _ Hpr) as [old Hold]. cbn [previous_dir tried] in Hold.
  assert (E : crash_loop (hows ++ [how]) h = (boot how true fine (crash_loop hows h)).1.1) by (unfold crash_loop; by rewrite foldl_app).
  split; [apply (pr_current _ _ Hpr)|]. split.
  - intros more. change (how :: more) with ([how] ++ more). rewrite app_assoc. unfold crash_loop. rewrite foldl_app.
    fold (crash_loop (hows ++ [how]) h). rewrite E. apply crash_loop_settled; [done|done|]. rewrite Hv. by exists old.
  - rewrite E. set (h1 := (boot how true fine (crash_loop hows h)).1.1) in *. clearbody h1.
    unfold boot. rewrite Hcur, Hv, Hold. rewrite heal_same by (try rewrite Hv; eauto). unfold on_start, load_marker. rewrite Hmf, Ho.
    do 3 eexists. split_and!; done.
Qed.

(** A version the Server answered stays. Once a version on probation is answered and its marker is
    gone, no number of starts and crashes takes the Client off it. *)
Theorem answered_versions_stay (s : Site) p m e xs :
  process s = Some p → probation p = Some m → answered p = false → marker_removed e = true →
  current_dir (host s) = Some (runs_from p) → is_Some (version_dirs (host s) !! runs_from p) →
  Forall (λ x, match x with OnInstall _ _ _ _ => False | _ => True end) xs →
  current_dir (host (foldl (site_step true) s (OnAnswer e :: xs))) = Some (runs_from p).
Proof.
  intros Hp Hpr Ha Hrem Hc Hd Hx. cbn [foldl site_step]. rewrite Hp. unfold server_answers. rewrite Ha, Hpr.
  pose proof (finish_rest m None e (host s)) as (H1 & H2 & H3 & _). cbv zeta in *. specialize (H3 Hrem).
  destruct (finish m None e (host s)) as [h1 o]. cbn [fst] in *. set (d := runs_from p) in *.
  assert (Hgo : ∀ t : Site, marker_file (host t) = None → current_dir (host t) = Some d → is_Some (version_dirs (host t) !! d) →
    (∀ q, process t = Some q → probation q = None) → current_dir (host (foldl (site_step true) t xs)) = Some d).
  { clear - Hx. induction xs as [|x xs IH]; intros t Hm Hc Hd Hq; cbn; [done|]. inversion Hx; subst.
    destruct x as [how healed e|e|version hash fl ended|]; cbn [site_step]; destruct (process t) as [q|] eqn:Eq; try done; try (by apply IH; [..|rewrite Eq]).
    - pose proof (boot_settled (host t) how healed e d Hm Hc Hd) as (B1 & B2 & B3). cbv zeta in *.
      destruct (boot how healed e (host t)) as [[h' q] o] eqn:Eb. cbn [fst] in *. apply IH; cbn; [done|done|done|by rewrite B3|].
      intros q1 ->. pose proof Hd as [b Hb]. unfold boot in Eb. rewrite Hc, Hb in Eb. rewrite heal_same in Eb by done.
      unfold on_start, load_marker in Eb. rewrite Hm in Eb. destruct how; try done. by destruct (outcome_file (host t)) as [[]|]; injection Eb as _ <- _.
    - unfold server_answers. destruct (answered q); [by apply IH; cbn; [..|intros ? [= <-]; apply Hq]|]. rewrite (Hq q eq_refl).
      by apply IH; cbn; [..|intros ? [= <-]].
    - by apply IH. }
  apply Hgo; cbn; [done|by rewrite H1|by rewrite H2|]. by intros q [= <-].
Qed.
