(* ===== verification/UpdateSamples.v ===== *)
(** * An update of the Client itself

    A host that installs a new version of its Client, for which the properties of [UpdateRuns] hold; and a
    host that takes a release for the pre-release it runs. *)

From S2P Require Import Prelude RustStr Version HostFloors Supervised Engine Update UpdateRuns.

Open Scope string_scope.
Open Scope list_scope.

(** A Client's program, which answers with its own version. *)
Definition client (version : string) : Binary := mkBinary (Some (true, SELF_CHECK_TOKEN +:+ version +:+ String "010" EmptyString)) version.

Definition first_host : Host := mkHost (Some "supervisor-1.0.0") {["supervisor-1.0.0" := client "1.0.0+a1b2c3d"]} None None.

(** It starts, is answered, and installs 2.0.0, which crashes on its first start. *)
Definition update_steps : list SiteStep :=
  [OnBoot Up true fine; OnAnswer fine; OnInstall "2.0.0" [7%N] (Ok None) (Stages (client "2.0.0") true true); OnBoot Up true fine; OnStop].

Definition updating : Site := foldl (site_step true) (mkSite first_host None) update_steps.

Lemma current_answers_for_itself_witness :
  current_dir (host updating) = Some "supervisor-2.0.0" ∧
  (∃ dir', current_dir (host updating) = Some dir' ∧ answers (host updating) dir') ∧
  ∀ m, marker_file (host updating) = Some (Some m) → answers (host updating) (previous_dir m).
Proof.
  split; [by vm_compute|].
  apply (current_answers_for_itself true first_host "supervisor-1.0.0" update_steps);
    [done|exists (client "1.0.0+a1b2c3d"), "1.0.0"; by vm_compute|done|repeat constructor].
Defined.

Definition probed : UpdateMarker := mkMarker "supervisor-1.0.0" "supervisor-2.0.0" "2.0.0" [7%N] 1.

Lemma updating_probing : probing probed (host updating).
Proof. split; [by vm_compute|by vm_compute|exists (client "2.0.0"); by vm_compute|vm_compute; by eexists]. Qed.

(** Two more starts, one of them on a configuration it cannot read, and one too many. *)
Lemma uncommitted_versions_are_rolled_back_witness :
  let h := host updating in
  current_dir (crash_loop [Up; UnreadableConfig] h) = Some "supervisor-2.0.0" ∧
  (∀ more, current_dir (crash_loop ([Up; UnreadableConfig] ++ Up :: more) h) = Some "supervisor-1.0.0") ∧
  ∃ h' p o, boot Up true fine (crash_loop ([Up; UnreadableConfig] ++ [Up]) h) = (h', Some p, Some o) ∧
    runs_from p = "supervisor-1.0.0" ∧ outcome_version o = "2.0.0" ∧ outcome_hash o = [7%N] ∧ is_Some (outcome_error o).
Proof.
  apply (uncommitted_versions_are_rolled_back probed (host updating) [Up; UnreadableConfig] Up updating_probing);
    [by vm_compute|repeat constructor; done|by vm_compute].
Defined.

(** The second start is answered; whatever comes after it, the Client stays on 2.0.0. *)
Definition second_start : Site := site_step true updating (OnBoot Up true fine).

Lemma answered_versions_stay_witness :
  ∃ p, process second_start = Some p ∧
    current_dir (host (foldl (site_step true) second_start [OnAnswer fine; OnStop; OnBoot Up true fine; OnStop; OnBoot UnreadableConfig true fine; OnBoot Up true fine])) =
    Some (runs_from p).
Proof.
  destruct (process second_start) as [p|] eqn:Hp; [|by vm_compute in Hp]. exists p. split; [done|].
  assert (Hall : (∃ m, probation p = Some m) ∧ answered p = false ∧ runs_from p = "supervisor-2.0.0").
  { vm_compute in Hp. injection Hp as <-. split; [by eexists|done]. }
  destruct Hall as ((m & Hm) & Ha & Hr).
  apply (answered_versions_stay second_start p m fine); [exact Hp|exact Hm|exact Ha|reflexivity| | |repeat constructor]; rewrite Hr.
  - by vm_compute.
  - vm_compute. by eexists.
Defined.

(** ** A pre-release *)

(** A Client that updated itself to 2.0.0-rc.1 is offered 2.0.0. *)
Definition to_the_candidate : list SiteStep :=
  [OnBoot Up true fine; OnAnswer fine; OnInstall "2.0.0-rc.1" [7%N] (Ok None) (Stages (client "2.0.0-rc.1") true true); OnBoot Up true fine; OnAnswer fine].

(** A release is never installed over its pre-release. The directory of a version leaves the pre-release
    out: a Client that runs 2.0.0-rc.1 from the directory it was installed into takes 2.0.0, a greater
    version of another release, for the one it runs, and says that it is installed. *)
Theorem releases_are_taken_for_their_pre_release :
  precedence "2.0.0-rc.1" "2.0.0" = Some Lt ∧ same_release "2.0.0-rc.1" "2.0.0" = false ∧
  let s := foldl (site_step true) (mkSite first_host None) to_the_candidate in
  (∃ p, process s = Some p ∧ runs_version p = "2.0.0-rc.1" ∧
    ∀ hash ended, install (runs_version p) (Some (runs_from p)) "2.0.0" hash (Ok None) ended (host s) = (host s, Ok AlreadyRunning)) ∧
  ∀ hash ended, site_step true s (OnInstall "2.0.0" hash (Ok None) ended) = s.
Proof.
  split; [by vm_compute|]. split; [by vm_compute|]. cbv zeta.
  destruct (process (foldl (site_step true) (mkSite first_host None) to_the_candidate)) as [p|] eqn:Hp; [|by vm_compute in Hp].
  assert (Hall : runs_from p = version_dir_name "2.0.0" ∧ runs_version p = "2.0.0-rc.1" ∧ answered p = true) by (vm_compute in Hp; by injection Hp as <-).
  destruct Hall as (Hr & Hv & Ha).
  assert (Hin : ∀ hash ended h, install (runs_version p) (Some (runs_from p)) "2.0.0" hash (Ok None) ended h = (h, Ok AlreadyRunning)).
  { intros hash ended h. unfold install. rewrite Hv, Hr. cbv zeta.
    assert (Hc : install_check "2.0.0-rc.1" "2.0.0" (Ok None) = Ok tt) by by vm_compute. rewrite Hc.
    assert (Hs : contains_byte "/"%char (version_dir_name "2.0.0") = false) by by vm_compute. rewrite Hs. by rewrite bool_decide_true. }
  split; [by exists p|]. intros hash ended. set (s := foldl _ _ _) in *. cbn [site_step]. rewrite Hp, Ha. cbn [andb]. rewrite Hin.
  destruct s as [h q]. cbn in *. by rewrite Hp.
Qed.
