(* ===== verification/Programs.v ===== *)
(** * What a package replaces on a host

    [fleet-agent/src/supervisor/process.rs] ([InstallTarget] and the staging), [fleet-agent/src/install.rs]
    and [archive::detect]: a program, or a whole tree, is unpacked beside what runs, what runs is renamed
    aside, what was staged is renamed into its place, and either is put back. A directory is a finite map
    from paths to nodes. Each call into the operating system takes one moment of what the environment
    decides, and past the moments given every call succeeds. An error message is the data it is formatted
    from. What an archive holds is a parameter. *)

From stdpp Require Import pretty.
From S2P Require Import Prelude RustStr.

Open Scope string_scope.

(** ** Code over a state *)

Definition Act (S A : Type) : Type := S → S * A.
Definition act_ret {S A} (a : A) : Act S A := λ s, (s, a).
Definition act_bind {S A B} (m : Act S A) (k : A → Act S B) : Act S B := λ s, let (s, a) := m s in k a s.
Notation "x <~ e ;; k" := (act_bind e (fun x => k)) (at level 100, e at next level, right associativity) : fleet_scope.

(** ** Files *)

Inductive Node :=
| File (bytes : string)
| Dir (members : gmap string string).

#[export] Instance Node_eq_dec : EqDecision Node.
Proof. solve_decision. Defined.

(** How a start of a program ends. *)
Inductive SpawnEnd :=
| Started (pid : option N)
| NotPrepared
| Busy
| Away (refused : bool)
| Missing
| NoStart.

(** How a program in its apply grace ends. *)
Inductive GraceEnd := Survives | Exits | GoesWithService.

(** How the preflight of a staged program ends. *)
Inductive FlightEnd := Passes | Fails | FlightAway (refused : bool).

(** What the environment decides at one call or await of the adapter: whether a shutdown comes first,
    how a call into the operating system ends, what a removal that fails leaves of a tree and a write
    that fails of its bytes, how a start, a grace or a preflight ends, and the time. *)
Record Moment := mkMoment {
  shutting : bool;
  io_ok : bool;
  put_back_ok : bool;
  cleared : bool;
  kept : list string;
  written : nat;
  builds : bool;
  spawned : SpawnEnd;
  service : option bool;
  graced : GraceEnd;
  flown : FlightEnd;
  alive : bool;
  now_ns : N;
  now_unix : N;
  draw : N;
}.

(** Nothing goes wrong. *)
Definition calm : Moment := mkMoment false true true true [] 0 true (Started (Some 1%N)) None Survives Passes true 0 0 0.

Record Site := mkSite {
  disk : gmap string Node;
  moments : list Moment;
}.

(** The next moment. *)
Definition moment : Act Site Moment := λ s,
  match moments s with
  | [] => (s, calm)
  | m :: ms => (mkSite (disk s) ms, m)
  end.

Definition get_disk : Act Site (gmap string Node) := λ s, (s, disk s).
Definition set_disk (f : gmap string Node → gmap string Node) : Act Site unit := λ s, (mkSite (f (disk s)) (moments s), tt).

Inductive IoEnd := IoDone | IoNotFound | IoFailed.

#[export] Instance IoEnd_eq_dec : EqDecision IoEnd.
Proof. solve_decision. Defined.

(** What a rename may land on: a file on a file, a tree on an empty directory, anything on a free name. *)
Definition lands (node : Node) (there : option Node) : bool :=
  match node, there with
  | _, None | File _, Some (File _) => true
  | Dir _, Some (Dir m) => bool_decide (m = ∅)
  | _, _ => false
  end.

(** [std::fs::rename], when the call itself ends as [ok] says. *)
Definition renamed (ok : bool) (from to : string) : Act Site IoEnd :=
  d <~ get_disk ;;
  if negb ok then act_ret IoFailed
  else
    match d !! from with
    | None => act_ret IoNotFound
    | Some node =>
        if lands node (d !! to) then _ <~ set_disk (λ d, <[to := node]> (delete from d)) ;; act_ret IoDone
        else act_ret IoFailed
    end.

Definition rename (from to : string) : Act Site IoEnd :=
  m <~ moment ;; renamed (io_ok m) from to.

(** A rename that puts something back where it was. *)
Definition rename_back (from to : string) : Act Site IoEnd :=
  m <~ moment ;; renamed (put_back_ok m) from to.

(** [std::fs::remove_file], its outcome not looked at. *)
Definition remove_file (path : string) : Act Site unit :=
  m <~ moment ;;
  set_disk (λ d, match d !! path with Some (File _) => if cleared m then delete path d else d | _ => d end).

(** [std::fs::remove_dir_all], its outcome not looked at: one that fails leaves some of the members. *)
Definition remove_dir_all (path : string) : Act Site unit :=
  m <~ moment ;;
  set_disk (λ d,
    match d !! path with
    | Some (Dir t) => if cleared m then delete path d else <[path := Dir (filter (λ kv, kv.1 ∈ kept m) t)]> d
    | _ => d
    end).

(** [std::fs::create_dir_all] on a directory whose parent is there. *)
Definition create_dir_all (path : string) : Act Site bool :=
  m <~ moment ;;
  d <~ get_disk ;;
  if negb (io_ok m) then act_ret false
  else
    match d !! path with
    | Some (Dir _) => act_ret true
    | Some (File _) => act_ret false
    | None => _ <~ set_disk <[path := Dir ∅]> ;; act_ret true
    end.

(** The bytes of a file, read. *)
Definition read_file (path : string) : Act Site (option string) :=
  m <~ moment ;;
  d <~ get_disk ;;
  act_ret (match d !! path with Some (File b) => if io_ok m then Some b else None | _ => None end).

(** ** Paths *)

Definition join_path (dir name : string) : string := if is_empty dir then name else dir +:+ "/" +:+ name.

(** A path's directory with its slash, and its last component. *)
Definition split_path (path : string) : string * string :=
  match rsplit_once "/" path with Some (dir, name) => (dir +:+ "/", name) | None => ("", path) end.

Definition file_name (path : string) : option string :=
  let name := (split_path path).2 in
  if is_empty name || bool_decide (name = ".") || bool_decide (name = "..") then None else Some name.

(** What of a file name is before its extension: the whole of it where its only dot is the first byte. *)
Definition file_stem (name : string) : string :=
  match rsplit_once "." name with
  | Some (stem, _) => if is_empty stem then name else stem
  | None => name
  end.

Definition with_extension (ext path : string) : string :=
  match file_name path with
  | None => path
  | Some name => (split_path path).1 +:+ file_stem name +:+ "." +:+ ext
  end.

(** [str::parse::<u64>]. *)
Fixpoint digits (acc : N) (s : string) : option N :=
  match s with
  | EmptyString => Some acc
  | String c s =>
      if is_ascii_digit c then
        let acc := (10 * acc + (byte_of c - 48))%N in
        if (acc <=? u64_max)%N then digits acc s else None
      else None
  end.

Definition parse_u64 (s : string) : option N :=
  let s := match s with String c r => if ascii_eqb "+" c then r else s | EmptyString => s end in
  if is_empty s then None else digits 0 s.

(** ** Archives *)

Inductive Kind := Raw | TarGz | SevenZ | Zip.

#[export] Instance Kind_eq_dec : EqDecision Kind.
Proof. solve_decision. Defined.

Definition detect (bytes : string) : Kind :=
  if starts_with (string_of_bytes [31; 139]%N) bytes then TarGz
  else if starts_with (string_of_bytes [55; 122; 188; 175; 39; 28]%N) bytes then SevenZ
  else if starts_with (string_of_bytes [80; 75; 3; 4]%N) bytes || starts_with (string_of_bytes [80; 75; 5; 6]%N) bytes then Zip
  else Raw.

(** The member of a name in an archive, and the tree of one whose program is at a path, where the
    archive opens and holds it within the bounds. *)
Class Archives := {
  extract : Kind → string → string → option string;
  extract_tree : Kind → string → string → option (gmap string string);
}.

(** ** Installing *)

Inductive RunError :=
| NothingToReplace
| CannotUnpack
| DoesNotRun
| CannotSetAside (path : string)
| CannotInstall (path : string)
| CannotRestore (path : string)
| CannotTakeOut (path : string)
| CannotPutBack (path : string)
| DidNotStart
| ExitedInGrace
| HeldAfter (failures : N).

#[export] Instance RunError_eq_dec : EqDecision RunError.
Proof. solve_decision. Defined.

(** [InstallTarget]. *)
Inductive InstallTarget :=
| Binary (path : string)
| Tree (root program_path : string).

Record Staged := mkStaged {
  staged_root : string;
  staged_program : string;
  staged_temp : string;
}.

Definition TREE_DIR : string := "tree".

Definition live (t : InstallTarget) : string :=
  match t with Binary path => path | Tree root _ => join_path root TREE_DIR end.

Definition backup (t : InstallTarget) : string :=
  match t with Binary path => with_extension "rollback" path | Tree root _ => join_path root (TREE_DIR +:+ ".rollback") end.

Definition backup_marker (t : InstallTarget) : string := backup t +:+ ".until".

(** The name a package is staged under. *)
Definition temp_of (t : InstallTarget) : string :=
  match t with Binary path => with_extension "staged" path | Tree root _ => join_path root ".staging" end.

(** [InstallTarget::remove]. *)
Definition remove (t : InstallTarget) (path : string) : Act Site unit :=
  match t with Binary _ => remove_file path | Tree _ _ => remove_dir_all path end.

Definition drop_backup (t : InstallTarget) : Act Site unit :=
  _ <~ remove t (backup t) ;; remove_file (backup_marker t).

Definition set_aside (t : InstallTarget) : Act Site (result bool RunError) :=
  _ <~ drop_backup t ;;
  r <~ rename (live t) (backup t) ;;
  act_ret (match r with IoDone => Ok true | IoNotFound => Ok false | IoFailed => Err (CannotSetAside (live t)) end).

Definition commit (t : InstallTarget) (s : Staged) : Act Site (result unit RunError) :=
  r <~ rename (staged_temp s) (live t) ;;
  act_ret (match r with IoDone => Ok tt | _ => Err (CannotInstall (live t)) end).

Definition discard (t : InstallTarget) (s : Staged) : Act Site unit := remove t (staged_temp s).

Definition restore (t : InstallTarget) : Act Site (result unit RunError) :=
  d <~ get_disk ;;
  if bool_decide (d !! backup t = None) then act_ret (Err (CannotRestore (live t)))
  else
    _ <~ remove t (live t) ;;
    r <~ rename_back (backup t) (live t) ;;
    act_ret (match r with IoDone => Ok tt | _ => Err (CannotRestore (live t)) end).

Definition take_back (t : InstallTarget) (s : Staged) (has_backup : bool) : Act Site (result unit RunError) :=
  r <~ rename (live t) (staged_temp s) ;;
  match r with
  | IoNotFound | IoFailed => act_ret (Err (CannotTakeOut (live t)))
  | IoDone =>
      if has_backup then
        r <~ restore t ;;
        match r with
        | Ok _ => act_ret (Ok tt)
        | Err e =>
            r <~ rename_back (staged_temp s) (live t) ;;
            act_ret (match r with IoDone => Err e | _ => Err (CannotPutBack (live t)) end)
        end
      else act_ret (Ok tt)
  end.

(** [retain]: the marker is written whole or not at all. *)
Definition retain (t : InstallTarget) (deadline : N) : Act Site unit :=
  m <~ moment ;;
  set_disk (λ d, if io_ok m then <[backup_marker t := File (pretty deadline)]> d else d).

Definition sweep (t : InstallTarget) (now : N) : Act Site bool :=
  text <~ read_file (backup_marker t) ;;
  match text with
  | None => act_ret false
  | Some text =>
      if match parse_u64 (trim text) with Some d => (d <=? now)%N | None => true end
      then _ <~ drop_backup t ;; act_ret true
      else act_ret false
  end.

Section Staging.
Context {arch : Archives}.

(** [install::make_executable]; [share_staged] where a process account is registered. *)
Definition make_executable (path : string) : Act Site bool := m <~ moment ;; act_ret (io_ok m).
Definition share_staged (shares : bool) (path : string) : Act Site bool :=
  if shares then m <~ moment ;; act_ret (io_ok m) else act_ret true.

(** What a program's write leaves: all of it, or as much as was written. *)
Definition write_out (path bytes : string) : Act Site bool :=
  m <~ moment ;;
  _ <~ set_disk <[path := File (if io_ok m then bytes else String.substring 0 (written m) bytes)]> ;;
  act_ret (io_ok m).

(** [install::write_program]. *)
Definition write_program (artifact dest member : string) : Act Site bool :=
  m <~ moment ;;
  d <~ get_disk ;;
  if negb (io_ok m) || match d !! dest with Some (Dir _) => true | _ => false end then act_ret false
  else
    _ <~ set_disk <[dest := File ""]> ;;
    bytes <~ read_file artifact ;;
    match bytes with
    | None => act_ret false
    | Some bytes =>
        match (if bool_decide (detect bytes = Raw) then Some bytes else extract (detect bytes) bytes member) with
        | None => act_ret false
        | Some program =>
            ok <~ write_out dest program ;;
            if ok then make_executable dest else act_ret false
        end
    end.

Definition stage_executable (artifact path : string) : Act Site (result string RunError) :=
  let temp := with_extension "staged" path in
  bytes <~ read_file artifact ;;
  match bytes with
  | None => act_ret (Err CannotUnpack)
  | Some bytes =>
      moved <~ (if bool_decide (detect bytes = Raw) then rename artifact temp else act_ret IoFailed) ;;
      if bool_decide (moved = IoDone) then
        ok <~ make_executable temp ;;
        act_ret (if ok then Ok temp else Err CannotUnpack)
      else
        match file_name path with
        | None => act_ret (Err CannotUnpack)
        | Some member =>
            ok <~ write_program artifact temp member ;;
            act_ret (if ok then Ok temp else Err CannotUnpack)
        end
  end.

(** What is unpacked into the staging directory, beside what a removal left there. *)
Definition unpack_tree (artifact staging program_path : string) : Act Site bool :=
  bytes <~ read_file artifact ;;
  match bytes with
  | None => act_ret false
  | Some bytes =>
      m <~ moment ;;
      let tree := if bool_decide (detect bytes = Raw) then Some {[program_path := bytes]}
                  else extract_tree (detect bytes) bytes program_path in
      match tree with
      | None => act_ret false
      | Some tree =>
          let tree := if io_ok m then tree else filter (λ kv, kv.1 ∈ kept m) tree in
          _ <~ set_disk (λ d, match d !! staging with Some (Dir old) => <[staging := Dir (tree ∪ old)]> d | _ => d end) ;;
          act_ret (io_ok m)
      end
  end.

Definition stage_tree (artifact root program_path : string) (shares : bool) : Act Site (result string RunError) :=
  let staging := join_path root ".staging" in
  _ <~ remove_dir_all staging ;;
  created <~ create_dir_all staging ;;
  if negb created then act_ret (Err CannotUnpack)
  else
    unpacked <~ unpack_tree artifact staging program_path ;;
    d <~ get_disk ;;
    if negb unpacked || match d !! staging with Some (Dir t) => bool_decide (t !! program_path = None) | _ => true end
    then _ <~ remove_dir_all staging ;; act_ret (Err CannotUnpack)
    else
      ok <~ make_executable (join_path staging program_path) ;;
      if negb ok then act_ret (Err CannotUnpack)
      else
        ok <~ share_staged shares staging ;;
        if ok then act_ret (Ok staging) else _ <~ remove_dir_all staging ;; act_ret (Err CannotUnpack).

(** [InstallTarget::stage]. *)
Definition stage (t : InstallTarget) (shares : bool) (artifact : string) : Act Site (result Staged RunError) :=
  match t with
  | Binary path =>
      temp <~ stage_executable artifact path ;;
      match temp with
      | Err e => act_ret (Err e)
      | Ok temp =>
          ok <~ share_staged shares temp ;;
          if ok then act_ret (Ok (mkStaged (split_path temp).1 temp temp))
          else _ <~ remove_file temp ;; act_ret (Err CannotUnpack)
      end
  | Tree root program_path =>
      staging <~ stage_tree artifact root program_path shares ;;
      act_ret (match staging with
               | Ok staging => Ok (mkStaged staging (join_path staging program_path) staging)
               | Err e => Err e
               end)
  end.
End Staging.
