(* ===== verification/Archive.v ===== *)
(** * Unpacking an artifact

    [fleet-agent/src/archive.rs], and the check of a [program_path] in [fleet-agent/src/config.rs]: one
    member of a container written to a file, or all of its members written as a tree under a
    directory, within a budget of bytes and of members. Paths are those of Unix. What a container
    holds is read by the crates [flate2], [tar], [sevenz-rust2] and [zip]: their reads are parameters,
    and a tree of a [.tar.gz] or a [.7z] reads its file twice, each time for itself. A place on the host
    is the list of names from its root, reached without links. Each call into the operating system
    takes one outcome of [calls], and past the outcomes given every call succeeds. An error message is
    the data it is formatted from, and [Overflowed] is the panic of a subtraction below zero. *)

From S2P Require Import Prelude RustStr.

Open Scope string_scope.
Open Scope list_scope.

Definition MAX_UNPACKED_BYTES : N := 2147483648.
Definition MAX_TREE_MEMBERS : nat := 10000.
Definition TAR_OVERHEAD_BYTES : N := 67108864.

(** The length of a run of bytes, as a [u64]. *)
Definition nlen {A} (l : list A) : N := N.of_nat (length l).

(** ** Paths *)

(** [std::path::Component] on Unix. *)
Inductive Component :=
| RootDir
| CurDir
| ParentDir
| Normal (part : string).

#[export] Instance Component_eq_dec : EqDecision Component.
Proof. solve_decision. Defined.

(** A [Path] by its components. *)
Notation PathBuf := (list Component).

Definition component_of (piece : string) : option Component :=
  if is_empty piece || bool_decide (piece = ".") then None
  else if bool_decide (piece = "..") then Some ParentDir
  else Some (Normal piece).

(** [Path::components]: an empty piece and a [.] are passed over, save a leading [.]. *)
Definition components (raw : string) : PathBuf :=
  let pieces := split "/" raw in
  if starts_with "/" raw then RootDir :: omap component_of pieces
  else
    match pieces with
    | piece :: rest =>
        if bool_decide (piece = ".") then CurDir :: omap component_of rest else omap component_of pieces
    | [] => []
    end.

(** [Path::file_name]. *)
Definition last_name (p : PathBuf) : option string :=
  match last p with Some (Normal part) => Some part | _ => None end.

(** [Path::strip_prefix]. *)
Fixpoint strip (prefix p : PathBuf) : option PathBuf :=
  match prefix, p with
  | [], _ => Some p
  | a :: prefix, b :: p => if bool_decide (a = b) then strip prefix p else None
  | _ :: _, [] => None
  end.

(** A place on the host. *)
Notation Place := (list string).

(** Where a path leads from a place: [dest.join(path)], as the operating system resolves it. *)
Definition step_to (at_ : Place) (c : Component) : Place :=
  match c with
  | RootDir => []
  | CurDir => at_
  | ParentDir => removelast at_
  | Normal part => at_ ++ [part]
  end.

Definition resolve (dest : Place) (p : PathBuf) : Place := foldl step_to dest p.

(** ** Errors *)

Inductive IoError :=
| IoBroken
| IoPastBound
| IoPastLimit (limit : N)
| IoNotWritten.

#[export] Instance IoError_eq_dec : EqDecision IoError.
Proof. solve_decision. Defined.

Inductive ArchiveError :=
| Bomb (limit : N)
| ClimbsOut (raw : string)
| AbsolutePath (raw : string)
| NamesNothing (raw : string)
| NoMemberAt (program_path : PathBuf) (seen : list PathBuf) (more : nat)
| SeveralMembersAt (program_path : PathBuf) (matches : list PathBuf)
| NoMemberNamed (member : string) (seen : list string)
| TooManyMembers
| LinkRefused (name : string)
| NotFileOrDirectory (path : option string)
| AntiItem (name : string)
| EncryptedMember (name : string)
| CannotOpen
| CannotRead
| CannotReadEntry
| PasswordNeeded
| PasswordWrong
| CannotCreate (place : Place)
| CannotWrite (place : Place)
| CannotUnpack (member : PathBuf) (why : IoError)
| CannotUnpackMember (member : string) (why : IoError)
| Overflowed.

(** ** Bounds *)

(** [accrue_within]: the total with one more member. *)
Definition accrue_within (total member_size limit : N) : result N ArchiveError :=
  let total := saturating_add u64_max total member_size in
  if (limit <? total)%N then Err (Bomb limit) else Ok total.

Definition EXTENSION : N := 32768.
Definition REPARSE_POINT : N := 1024.
Definition S_IFMT : N := 61440.
Definition S_IFLNK : N := 40960.
Definition S_IFREG : N := 32768.

(** [unix_mode_attributes]: a [u32] shifted left loses what passes its width. *)
Definition unix_mode_attributes (mode : N) : N :=
  N.lor (N.land (N.shiftl (N.lor S_IFREG mode) 16) u32_max) EXTENSION.

(** ** Members *)

Fixpoint safe_parts (raw : string) (l safe : PathBuf) : result PathBuf ArchiveError :=
  match l with
  | [] => Ok safe
  | Normal part :: l => safe_parts raw l (safe ++ [Normal part])
  | CurDir :: l => safe_parts raw l safe
  | ParentDir :: _ => Err (ClimbsOut raw)
  | RootDir :: _ => Err (AbsolutePath raw)
  end.

Definition safe_member_path (raw : string) : result PathBuf ArchiveError :=
  safe <-? safe_parts raw (components raw) [] ;;
  match safe with [] => Err (NamesNothing raw) | _ => Ok safe end.

Definition ends_with_components (path suffix : PathBuf) : bool :=
  if bool_decide (suffix = []) || (length path <? length suffix)%nat then false
  else bool_decide (drop (length path - length suffix) path = suffix).

Definition tree_prefix (matched program_path : PathBuf) : PathBuf :=
  take (length matched - length program_path) matched.

Definition locate_program (members : list PathBuf) (program_path : PathBuf) : result PathBuf ArchiveError :=
  match List.filter (λ m, ends_with_components m program_path) members with
  | [one] => Ok (tree_prefix one program_path)
  | [] => Err (NoMemberAt program_path (take 8 members) (length members - 8))
  | several => Err (SeveralMembersAt program_path several)
  end.

(** [file_name_of]: what of a name is not UTF-8 is replaced. *)
Definition file_name_of (raw : string) : string :=
  match last_name (components raw) with
  | Some name => from_utf8_lossy (bytes_of name)
  | None => ""
  end.

(** What an error lists of the members seen. *)
Definition note_seen (name : string) (seen : list string) : list string :=
  if (length seen <? 8)%nat && negb (is_empty name) then seen ++ [name] else seen.

Definition push_member (members : list PathBuf) (raw : string) : result (list PathBuf) ArchiveError :=
  safe <-? safe_member_path raw ;;
  let members := members ++ [safe] in
  if (MAX_TREE_MEMBERS <? length members)%nat then Err TooManyMembers else Ok members.

(** [validate_program_path]. *)
Inductive PathRefused :=
| PathBlank
| PathHasCurDir
| PathHasParentDir
| PathAbsolute.

Fixpoint check_parts (l : PathBuf) : result unit PathRefused :=
  match l with
  | [] => Ok tt
  | Normal _ :: l => check_parts l
  | CurDir :: _ => Err PathHasCurDir
  | ParentDir :: _ => Err PathHasParentDir
  | RootDir :: _ => Err PathAbsolute
  end.

Definition validate_program_path (raw : string) : result PathBuf PathRefused :=
  if is_blank raw then Err PathBlank
  else
    _ <-? check_parts (components raw) ;;
    Ok (components raw).

(** ** Readers *)

(** What is left of a stream, whether it ends in an error, and how much of it each read gives at
    most; past [grains] a read fills its buffer. *)
Record Reader := mkReader {
  rest : list N;
  breaks : bool;
  grains : list N;
}.

(** [Read::read] with a buffer of [room] bytes. *)
Definition read (room : N) (r : Reader) : Reader * result (list N) IoError :=
  match rest r with
  | [] => (r, if breaks r then Err IoBroken else Ok [])
  | _ =>
      let n := N.to_nat (N.min (nlen (rest r)) (N.min room (N.max 1 (hd room (grains r))))) in
      (mkReader (drop n (rest r)) (breaks r) (tail (grains r)), Ok (take n (rest r)))
  end.

Record ReadWithin := mkReadWithin {
  inner : Reader;
  left_ : N;
}.

(** [<ReadWithin as Read>::read]. *)
Definition read_within (room : N) (r : ReadWithin) : ReadWithin * result (list N) IoError :=
  if (room =? 0)%N then (r, Ok [])
  else if (left_ r =? 0)%N then
    let (i, x) := read 1 (inner r) in
    (mkReadWithin i (left_ r),
     match x with
     | Err e => Err e
     | Ok [] => Ok []
     | Ok _ => Err IoPastBound
     end)
  else
    let (i, x) := read (N.min (left_ r) room) (inner r) in
    match x with
    | Err e => (mkReadWithin i (left_ r), Err e)
    | Ok bytes => (mkReadWithin i (left_ r - nlen bytes), Ok bytes)
    end.

(** What reads into buffers of these sizes give, up to the first that gives nothing or fails. *)
Fixpoint read_all (rooms : list N) (r : ReadWithin) : list N * option (option IoError) :=
  match rooms with
  | [] => ([], None)
  | room :: rooms =>
      match read_within room r with
      | (_, Err e) => ([], Some (Some e))
      | (_, Ok []) => ([], Some None)
      | (r, Ok bytes) => let (more, e) := read_all rooms r in (bytes ++ more, e)
      end
  end.

(** What the reader of a [.tar.gz] passes on to the tar parser, and whether it then fails. *)
Definition passed_on (r : ReadWithin) : list N * bool :=
  let (bytes, e) := read_all (replicate (S (length (rest (inner r)))) 512%N) r in
  (bytes, match e with Some None => false | _ => true end).

(** ** The host *)

Inductive Inode :=
| RegularFile (bytes : list N) (mode : option N)
| Directory.

#[export] Instance Inode_eq_dec : EqDecision Inode.
Proof. solve_decision. Defined.

(** How a call ends, and what of its bytes a write that fails has written. *)
Record Call := mkCall {
  call_ok : bool;
  call_part : nat;
}.

Record Host := mkHost {
  nodes : gmap Place Inode;
  calls : list Call;
}.

Definition on_nodes {E : Type} (f : gmap Place Inode → gmap Place Inode) : Eff Host E unit := λ h,
  (mkHost (f (nodes h)) (calls h), Ok tt).

Definition node_at {E : Type} (p : Place) : Eff Host E (option Inode) := λ h, (h, Ok (nodes h !! p)).

Definition next_call {E : Type} : Eff Host E Call := λ h,
  match calls h with
  | [] => (h, Ok (mkCall true 0))
  | c :: cs => (mkHost (nodes h) cs, Ok c)
  end.

(** One directory, whose parent is there. *)
Definition make_dir (p : Place) : Eff Host ArchiveError unit :=
  there <-! node_at p ;;
  match there with
  | Some Directory => eff_ret tt
  | Some (RegularFile _ _) => eff_fail (CannotCreate p)
  | None =>
      c <-! next_call ;;
      if call_ok c then on_nodes <[p := Directory]> else eff_fail (CannotCreate p)
  end.

Fixpoint make_dirs (at_ rest : Place) : Eff Host ArchiveError unit :=
  match rest with
  | [] => eff_ret tt
  | name :: rest => _ <-! make_dir (at_ ++ [name]) ;; make_dirs (at_ ++ [name]) rest
  end.

(** [std::fs::create_dir_all]. *)
Definition create_dir_all (p : Place) : Eff Host ArchiveError unit := make_dirs [] p.

(** [prepare_parent]. *)
Definition prepare_parent (dest : Place) : Eff Host ArchiveError unit :=
  match dest with
  | [] => eff_ret tt
  | _ => create_dir_all (removelast dest)
  end.

(** [File::create]: a file that is there is emptied and keeps its mode. *)
Definition create_file (p : Place) : Eff Host ArchiveError unit :=
  c <-! next_call ;;
  there <-! node_at p ;;
  match there with
  | Some Directory => eff_fail (CannotWrite p)
  | Some (RegularFile _ mode) =>
      if call_ok c then on_nodes <[p := RegularFile [] mode]> else eff_fail (CannotWrite p)
  | None => if call_ok c then on_nodes <[p := RegularFile [] None]> else eff_fail (CannotWrite p)
  end.

Definition with_more (chunk : list N) (n : Inode) : Inode :=
  match n with
  | RegularFile bytes mode => RegularFile (bytes ++ chunk) mode
  | Directory => Directory
  end.

(** [write_all] on the file open at a place. *)
Definition write_all (out : Place) (chunk : list N) : Eff Host IoError unit :=
  c <-! next_call ;;
  if call_ok c then on_nodes (alter (with_more chunk) out)
  else
    _ <-! on_nodes (alter (with_more (take (call_part c) chunk)) out) ;;
    eff_fail IoNotWritten.

Definition with_mode (mode : N) (n : Inode) : Inode :=
  match n with
  | RegularFile bytes _ => RegularFile bytes (Some mode)
  | Directory => Directory
  end.

(** [set_permissions], its outcome not looked at. *)
Definition set_mode {E : Type} (out : Place) (mode : N) : Eff Host E unit :=
  c <-! next_call ;;
  if call_ok c then on_nodes (alter (with_mode mode) out) else eff_ret tt.

(** ** Copying *)

Definition COPY_BUFFER : N := 65536.

(** The loop of [copy_within]: each read gives a byte at least, so the bytes left are rounds enough. *)
Fixpoint copy_loop (rounds : nat) (source : Reader) (out : Place) (limit written : N) : Eff Host IoError N :=
  match rounds with
  | O => eff_fail IoBroken
  | S rounds =>
      match read COPY_BUFFER source with
      | (_, Err e) => eff_fail e
      | (_, Ok []) => eff_ret written
      | (source, Ok chunk) =>
          let written := (written + nlen chunk)%N in
          if (limit <? written)%N then eff_fail (IoPastLimit limit)
          else _ <-! write_all out chunk ;; copy_loop rounds source out limit written
      end
  end.

Definition copy_within (source : Reader) (out : Place) (limit : N) : Eff Host IoError N :=
  copy_loop (S (length (rest source))) source out limit 0.

(** ** Members of a tree *)

Record TreeSummary := mkSummary {
  files : nat;
  bytes : N;
  skipped : nat;
}.

Definition summary_default : TreeSummary := mkSummary 0 0 0.

Definition checked_sub (a b : N) : option N := if (b <=? a)%N then Some (a - b)%N else None.

(** [write_member]: the summary, and the file written. *)
Definition write_member (member : PathBuf) (is_dir : bool) (reader : Reader) (prefix : PathBuf) (dest : Place)
    (limit : N) (summary : TreeSummary) : Eff Host ArchiveError (TreeSummary * option Place) :=
  match strip prefix member with
  | None => eff_ret (mkSummary (files summary) (bytes summary) (S (skipped summary)), None)
  | Some [] => eff_ret (summary, None)
  | Some relative =>
      let out_path := resolve dest relative in
      if is_dir then
        _ <-! create_dir_all out_path ;;
        eff_ret (summary, None)
      else
        _ <-! prepare_parent out_path ;;
        _ <-! create_file out_path ;;
        match checked_sub limit (bytes summary) with
        | None => eff_fail Overflowed
        | Some budget =>
            written <-! eff_map_err (CannotUnpack relative) (copy_within reader out_path budget) ;;
            eff_ret (mkSummary (S (files summary)) (bytes summary + written) (skipped summary), Some out_path)
        end
  end.

(** ** Containers *)

(** [tar::Entry]: its path where it reads, its header's size, type and mode, and its bytes. *)
Inductive TarKind := TarFile | TarDir | TarOther.

Record TarEntry := mkTarEntry {
  tar_path : option string;
  tar_size : option N;
  tar_kind : TarKind;
  tar_mode : option N;
  tar_data : Reader;
}.

(** [sevenz_rust2::ArchiveEntry]. *)
Record SevenEntry := mkSevenEntry {
  seven_name : string;
  seven_size : N;
  seven_dir : bool;
  seven_anti : bool;
  seven_attributes : option N;
}.

(** A [.7z] that opened: its header's entries, and what [for_each_entries] hands out in turn, [None]
    for one that does not decode. *)
Record SevenArchive := mkSevenArchive {
  seven_files : list SevenEntry;
  seven_walk : list (option (SevenEntry * Reader));
}.

Inductive SevenError := PasswordRequired | MaybeBadPassword | SevenOther.

(** An entry of a [.zip]: the central directory's, and its bytes where [by_index] opens it. *)
Record ZipEntry := mkZipEntry {
  zip_reads : bool;
  zip_name : option string;
  zip_name_raw : list N;
  zip_dir : bool;
  zip_encrypted : bool;
  zip_size : N;
  zip_mode : option N;
  zip_opened : option Reader;
}.

(** What the crates read. [untar] is handed what its reader passes on and whether that then fails, and
    gives the entries in turn, [None] for one that does not read. *)
Record Containers := mkContainers {
  gunzip : string → Reader;
  untar : list N → bool → option (list (option TarEntry));
  un7z : string → option string → result SevenArchive SevenError;
  unzip : string → option (list ZipEntry);
}.

(** [open_7z_error]. *)
Definition open_7z_error (e : SevenError) : ArchiveError :=
  match e with
  | PasswordRequired => PasswordNeeded
  | MaybeBadPassword => PasswordWrong
  | SevenOther => CannotRead
  end.

Section Unpacking.
Context (crates : Containers).

(** An artifact as it is opened: its bytes, unless it cannot be. *)
Notation Artifact := (option string).

(** *** [.tar.gz] *)

(** [open_tar_gz]. *)
Definition open_tar_gz (archive : Artifact) (limit : N) : result ReadWithin ArchiveError :=
  match archive with
  | None => Err CannotOpen
  | Some bytes => Ok (mkReadWithin (gunzip crates bytes) (saturating_add u64_max limit TAR_OVERHEAD_BYTES))
  end.

(** [tar.entries()]. *)
Definition tar_entries (tar : ReadWithin) : result (list (option TarEntry)) ArchiveError :=
  let (bytes, broken) := passed_on tar in
  match untar crates bytes broken with
  | None => Err CannotRead
  | Some entries => Ok entries
  end.

Fixpoint list_tar (limit decompressed : N) (members : list PathBuf) (entries : list (option TarEntry))
    : result (list PathBuf) ArchiveError :=
  match entries with
  | [] => Ok members
  | None :: _ => Err CannotRead
  | Some e :: entries =>
      decompressed <-? accrue_within decompressed (default 0%N (tar_size e)) limit ;;
      match tar_kind e with
      | TarOther => Err (NotFileOrDirectory (tar_path e))
      | _ =>
          match tar_path e with
          | None => Err CannotReadEntry
          | Some raw =>
              members <-? push_member members raw ;;
              list_tar limit decompressed members entries
          end
      end
  end.

Definition list_tar_gz (archive : Artifact) (limit : N) : result (list PathBuf) ArchiveError :=
  tar <-? open_tar_gz archive limit ;;
  entries <-? tar_entries tar ;;
  list_tar limit 0 [] entries.

Definition is_tar_dir (e : TarEntry) : bool := match tar_kind e with TarDir => true | _ => false end.

(** One entry of the loop of [extract_tree_tar_gz_within], once its path is read. *)
Definition unpack_tar_entry (prefix : PathBuf) (dest : Place) (limit : N) (summary : TreeSummary) (e : TarEntry)
    (member : PathBuf) : Eff Host ArchiveError TreeSummary :=
  out <-! write_member member (is_tar_dir e) (tar_data e) prefix dest limit summary ;;
  _ <-! match out.2, tar_mode e with
        | Some out_path, Some mode => set_mode out_path (N.land mode 493)
        | _, _ => eff_ret tt
        end ;;
  eff_ret out.1.

Fixpoint unpack_tar (prefix : PathBuf) (dest : Place) (limit : N) (summary : TreeSummary)
    (entries : list (option TarEntry)) : Eff Host ArchiveError TreeSummary :=
  match entries with
  | [] => eff_ret summary
  | None :: _ => eff_fail CannotRead
  | Some e :: entries =>
      match tar_path e with
      | None => eff_fail CannotReadEntry
      | Some raw =>
          member <-! eff_of (safe_member_path raw) ;;
          summary <-! unpack_tar_entry prefix dest limit summary e member ;;
          unpack_tar prefix dest limit summary entries
      end
  end.

(** [extract_tree_tar_gz_within]: [listed] is the file as the first pass opens it, [archive] as the
    second does. *)
Definition extract_tree_tar_gz_within (listed archive : Artifact) (program_path : PathBuf) (dest : Place) (limit : N)
    : Eff Host ArchiveError TreeSummary :=
  members <-! eff_of (list_tar_gz listed limit) ;;
  prefix <-! eff_of (locate_program members program_path) ;;
  tar <-! eff_of (open_tar_gz archive limit) ;;
  entries <-! eff_of (tar_entries tar) ;;
  unpack_tar prefix dest limit summary_default entries.

Fixpoint find_tar (member : string) (out : Place) (limit decompressed : N) (seen : list string)
    (entries : list (option TarEntry)) : Eff Host ArchiveError N :=
  match entries with
  | [] => eff_fail (NoMemberNamed member seen)
  | None :: _ => eff_fail CannotRead
  | Some e :: entries =>
      match tar_path e with
      | None => eff_fail CannotReadEntry
      | Some raw =>
          let name := file_name_of raw in
          if bool_decide (name = member) then
            eff_map_err (CannotUnpackMember member) (copy_within (tar_data e) out limit)
          else
            decompressed <-! eff_of (accrue_within decompressed (default 0%N (tar_size e)) limit) ;;
            find_tar member out limit decompressed (note_seen name seen) entries
      end
  end.

Definition extract_tar_gz_within (archive : Artifact) (member : string) (out : Place) (limit : N)
    : Eff Host ArchiveError N :=
  tar <-! eff_of (open_tar_gz archive limit) ;;
  entries <-! eff_of (tar_entries tar) ;;
  find_tar member out limit 0 [] entries.

(** *** [.7z] *)

Definition open_7z (archive : Artifact) (key : option string) : result SevenArchive ArchiveError :=
  match archive with
  | None => Err CannotRead
  | Some bytes => map_err open_7z_error (un7z crates bytes key)
  end.

(** Whether the attributes of an entry say it is a link. *)
Definition seven_link (attributes : N) : bool :=
  negb (N.land attributes REPARSE_POINT =? 0)%N ||
  negb (N.land attributes EXTENSION =? 0)%N && (N.land (N.shiftr attributes 16) S_IFMT =? S_IFLNK)%N.

Fixpoint list_seven (limit decompressed : N) (members : list PathBuf) (entries : list SevenEntry)
    : result (list PathBuf) ArchiveError :=
  match entries with
  | [] => Ok members
  | e :: entries =>
      decompressed <-? accrue_within decompressed (seven_size e) limit ;;
      if seven_anti e then Err (AntiItem (seven_name e))
      else if match seven_attributes e with Some a => seven_link a | None => false end
      then Err (LinkRefused (seven_name e))
      else
        members <-? push_member members (seven_name e) ;;
        list_seven limit decompressed members entries
  end.

Definition list_7z (archive : Artifact) (key : option string) (limit : N) : result (list PathBuf) ArchiveError :=
  reader <-? open_7z archive key ;;
  list_seven limit 0 [] (seven_files reader).

Fixpoint unpack_seven (prefix : PathBuf) (dest : Place) (limit : N) (summary : TreeSummary)
    (walk : list (option (SevenEntry * Reader))) : Eff Host ArchiveError TreeSummary :=
  match walk with
  | [] => eff_ret summary
  | None :: _ => eff_fail CannotRead
  | Some (e, reader) :: walk =>
      member <-! eff_of (safe_member_path (seven_name e)) ;;
      out <-! write_member member (seven_dir e) reader prefix dest limit summary ;;
      unpack_seven prefix dest limit out.1 walk
  end.

(** [extract_tree_7z], its limit spelled out. *)
Definition extract_tree_7z_within (listed archive : Artifact) (program_path : PathBuf) (dest : Place)
    (key : option string) (limit : N) : Eff Host ArchiveError TreeSummary :=
  members <-! eff_of (list_7z listed key limit) ;;
  prefix <-! eff_of (locate_program members program_path) ;;
  reader <-! eff_of (open_7z archive key) ;;
  unpack_seven prefix dest limit summary_default (seven_walk reader).

Fixpoint declared_within (limit declared : N) (entries : list SevenEntry) : result N ArchiveError :=
  match entries with
  | [] => Ok declared
  | e :: entries =>
      declared <-? accrue_within declared (seven_size e) limit ;;
      declared_within limit declared entries
  end.

Fixpoint find_seven (member : string) (out : Place) (limit : N) (seen : list string)
    (walk : list (option (SevenEntry * Reader))) : Eff Host ArchiveError N :=
  match walk with
  | [] => eff_fail (NoMemberNamed member seen)
  | None :: _ => eff_fail CannotRead
  | Some (e, reader) :: walk =>
      if seven_dir e then find_seven member out limit seen walk
      else
        let name := file_name_of (seven_name e) in
        if bool_decide (name = member) then
          eff_map_err (CannotUnpackMember member) (copy_within reader out limit)
        else find_seven member out limit (note_seen name seen) walk
  end.

Definition extract_7z_within (archive : Artifact) (member : string) (out : Place) (key : option string) (limit : N)
    : Eff Host ArchiveError N :=
  reader <-! eff_of (open_7z archive key) ;;
  _ <-! eff_of (declared_within limit 0 (seven_files reader)) ;;
  find_seven member out limit [] (seven_walk reader).

(** *** [.zip] *)

Definition open_zip (archive : Artifact) : result (list ZipEntry) ArchiveError :=
  match archive with
  | None => Err CannotOpen
  | Some bytes => match unzip crates bytes with None => Err CannotRead | Some entries => Ok entries end
  end.

Definition refuse_encrypted (e : ZipEntry) : result unit ArchiveError :=
  if zip_encrypted e then Err (EncryptedMember (from_utf8_lossy (zip_name_raw e))) else Ok tt.

Definition zip_link (mode : option N) : bool :=
  match mode with Some mode => (N.land mode S_IFMT =? S_IFLNK)%N | None => false end.

Fixpoint list_zip (limit declared : N) (members : list PathBuf) (entries : list ZipEntry)
    : result (list PathBuf) ArchiveError :=
  match entries with
  | [] => Ok members
  | e :: entries =>
      if negb (zip_reads e) then Err CannotRead
      else
        declared <-? accrue_within declared (zip_size e) limit ;;
        _ <-? refuse_encrypted e ;;
        match zip_name e with
        | None => Err CannotRead
        | Some name =>
            if zip_link (zip_mode e) then Err (LinkRefused name)
            else
              members <-? push_member members name ;;
              list_zip limit declared members entries
        end
  end.

Fixpoint unpack_zip (prefix : PathBuf) (dest : Place) (limit : N) (summary : TreeSummary) (entries : list ZipEntry)
    : Eff Host ArchiveError TreeSummary :=
  match entries with
  | [] => eff_ret summary
  | e :: entries =>
      match zip_opened e, zip_name e with
      | Some reader, Some name =>
          member <-! eff_of (safe_member_path name) ;;
          out <-! write_member member (zip_dir e) reader prefix dest limit summary ;;
          unpack_zip prefix dest limit out.1 entries
      | _, _ => eff_fail CannotRead
      end
  end.

(** [extract_tree_zip_within]: the file is opened once. *)
Definition extract_tree_zip_within (archive : Artifact) (program_path : PathBuf) (dest : Place) (limit : N)
    : Eff Host ArchiveError TreeSummary :=
  zip <-! eff_of (open_zip archive) ;;
  members <-! eff_of (list_zip limit 0 [] zip) ;;
  prefix <-! eff_of (locate_program members program_path) ;;
  unpack_zip prefix dest limit summary_default zip.

Fixpoint find_zip (member : string) (seen : list string) (entries : list ZipEntry) : result ZipEntry ArchiveError :=
  match entries with
  | [] => Err (NoMemberNamed member seen)
  | e :: entries =>
      if negb (zip_reads e) then Err CannotRead
      else if zip_dir e then find_zip member seen entries
      else
        match zip_name e with
        | None => Err CannotRead
        | Some raw =>
            let name := file_name_of raw in
            if bool_decide (name = member) then _ <-? refuse_encrypted e ;; Ok e
            else find_zip member (note_seen name seen) entries
        end
  end.

Definition extract_zip_within (archive : Artifact) (member : string) (out : Place) (limit : N)
    : Eff Host ArchiveError N :=
  zip <-! eff_of (open_zip archive) ;;
  found <-! eff_of (find_zip member [] zip) ;;
  match zip_opened found with
  | None => eff_fail CannotRead
  | Some reader => eff_map_err (CannotUnpackMember member) (copy_within reader out limit)
  end.

(** *** The public calls *)

Definition extract_tree_tar_gz listed archive program_path dest :=
  extract_tree_tar_gz_within listed archive program_path dest MAX_UNPACKED_BYTES.
Definition extract_tree_7z listed archive program_path dest key :=
  extract_tree_7z_within listed archive program_path dest key MAX_UNPACKED_BYTES.
Definition extract_tree_zip archive program_path dest :=
  extract_tree_zip_within archive program_path dest MAX_UNPACKED_BYTES.
Definition extract_tar_gz archive member out := extract_tar_gz_within archive member out MAX_UNPACKED_BYTES.
Definition extract_7z archive member out key := extract_7z_within archive member out key MAX_UNPACKED_BYTES.
Definition extract_zip archive member out := extract_zip_within archive member out MAX_UNPACKED_BYTES.

(** An artifact by its kind, as the unpacking in [stage_tree] tells them apart. *)
Inductive Packed :=
| PackedTarGz (listed archive : Artifact)
| Packed7z (listed archive : Artifact) (key : option string)
| PackedZip (archive : Artifact).

Definition extract_tree_within (c : Packed) (program_path : PathBuf) (dest : Place) (limit : N)
    : Eff Host ArchiveError TreeSummary :=
  match c with
  | PackedTarGz listed archive => extract_tree_tar_gz_within listed archive program_path dest limit
  | Packed7z listed archive key => extract_tree_7z_within listed archive program_path dest key limit
  | PackedZip archive => extract_tree_zip_within archive program_path dest limit
  end.

(** One member of it, as [install::write_program] tells them apart. *)
Definition extract_within (c : Packed) (member : string) (out : Place) (limit : N) : Eff Host ArchiveError N :=
  match c with
  | PackedTarGz _ archive => extract_tar_gz_within archive member out limit
  | Packed7z _ archive key => extract_7z_within archive member out key limit
  | PackedZip archive => extract_zip_within archive member out limit
  end.
End Unpacking.
