(* ===== verification/ArchiveTree.v ===== *)
(** * Readers, paths and trees of an artifact

    What [fleet-agent/src/archive.rs] makes of a member's path, and what it reads: a safe path has names
    only, a bounded reader passes on the stream up to its bound and then fails, and a copy writes what it
    reads. And what the unpacking of a tree does to the host: it writes inside its directory only,
    within its budget, and what it leaves there is what the archive holds under the directory of its
    program. The three containers are one walk over items. *)

From S2P Require Import Prelude RustStr Archive.

Open Scope list_scope.

(** ** Paths and readers *)

(** ** Paths *)

Definition names (parts : list string) : list Component := Normal <$> parts.

Lemma names_app l k : names (l ++ k) = names l ++ names k.
Proof. apply fmap_app. Qed.

Lemma names_inj l k : names l = names k → l = k.
Proof.
  revert k. induction l as [|a l IH]; intros [|b k]; cbn; [done..|]. intros [= -> ->%IH]. done.
Qed.

Lemma resolve_names dest parts : resolve dest (names parts) = dest ++ parts.
Proof.
  revert dest. induction parts as [|part parts IH]; intros dest; cbn; [by rewrite app_nil_r|].
  unfold resolve in IH. by rewrite IH, <- app_assoc.
Qed.

Lemma safe_parts_Ok raw l safe p :
  safe_parts raw l (names safe) = Ok p →
  ∃ parts, p = names (safe ++ parts) ∧ Forall (λ c, c = CurDir ∨ ∃ part, c = Normal part) l.
Proof.
  revert safe. induction l as [|c l IH]; intros safe; cbn.
  { intros [= <-]. exists []. split; [by rewrite app_nil_r|done]. }
  destruct c as [| | |part]; [done| |done|].
  - intros (parts & -> & Hl)%IH. exists parts. split; [done|]. constructor; eauto.
  - change [Normal part] with (names [part]). rewrite <- names_app.
    intros (parts & -> & Hl)%IH. exists (part :: parts). split; [by rewrite <- app_assoc|].
    constructor; eauto.
Qed.

Lemma safe_member_path_Ok raw p :
  safe_member_path raw = Ok p → ∃ parts, p = names parts ∧ parts ≠ [].
Proof.
  unfold safe_member_path. destruct (safe_parts _ _ _) as [safe|] eqn:E; cbn; [|done].
  destruct (safe_parts_Ok raw _ [] _ E) as (parts & -> & _).
  destruct parts as [|part parts]; cbn; [done|]. intros [= <-]. by exists (part :: parts).
Qed.

(** A path with a [..] or from the root is refused. *)
Lemma unsafe_path_refused raw c :
  c ∈ components raw → c = ParentDir ∨ c = RootDir → is_ok (safe_member_path raw) = false.
Proof.
  intros Hc Hu. unfold safe_member_path. destruct (safe_parts _ _ _) as [safe|] eqn:E; cbn; [|done].
  destruct (safe_parts_Ok raw _ [] _ E) as (_ & _ & Hl).
  rewrite Forall_forall in Hl. destruct (Hl c Hc) as [->|[part ->]]; naive_solver.
Qed.

Lemma strip_Some prefix p r : strip prefix p = Some r ↔ p = prefix ++ r.
Proof.
  revert p. induction prefix as [|a prefix IH]; intros p; cbn; [naive_solver|].
  destruct p as [|b p]; [naive_solver|]. case_bool_decide as Hab.
  - subst. rewrite IH. split; [by intros ->|by intros [= ->]].
  - split; [done|]. intros [= -> _]. done.
Qed.

Lemma strip_names prefix parts r :
  strip (names prefix) (names parts) = Some r → ∃ rel, r = names rel ∧ parts = prefix ++ rel.
Proof.
  rewrite strip_Some. revert parts. induction prefix as [|a prefix IH]; intros parts; cbn; [by eauto|].
  destruct parts as [|b parts]; [done|]. cbn. intros [= <- (rel & -> & ->)%IH]. eauto.
Qed.

Lemma strip_names_eq prefix rel : strip (names prefix) (names (prefix ++ rel)) = Some (names rel).
Proof. rewrite strip_Some. apply names_app. Qed.

Lemma ends_with_spec path suffix :
  ends_with_components path suffix = true ↔ suffix ≠ [] ∧ ∃ before, path = before ++ suffix.
Proof.
  unfold ends_with_components. case_bool_decide as Hs; cbn [orb]; [naive_solver|].
  destruct (Nat.ltb_spec (length path) (length suffix)) as [Hlt|Hle].
  { split; [done|]. intros [_ [before ->]]. rewrite length_app in Hlt. lia. }
  rewrite bool_decide_eq_true. split.
  - intros Hd. split; [done|]. exists (take (length path - length suffix) path).
    transitivity (take (length path - length suffix) path ++ drop (length path - length suffix) path);
      [by rewrite take_drop|by rewrite Hd].
  - intros [_ [before ->]]. rewrite length_app, Nat.add_sub. by rewrite drop_app_length.
Qed.

Lemma locate_program_Ok members program prefix :
  locate_program members program = Ok prefix →
  program ≠ [] ∧ List.filter (λ m, ends_with_components m program) members = [prefix ++ program].
Proof.
  unfold locate_program. destruct (List.filter _ members) as [|one [|two rest]] eqn:E; [done| |done].
  intros [= <-]. assert (one ∈ List.filter (λ m, ends_with_components m program) members) as Ho
    by (rewrite E; by apply list_elem_of_singleton).
  apply list_elem_of_In, List.filter_In in Ho as [_ [Hp [before ->]]%ends_with_spec].
  split; [done|]. do 2 f_equal. unfold tree_prefix. by rewrite length_app, Nat.add_sub, take_app_length.
Qed.

(** ** Readers *)

Lemma nlen_app {A} (l k : list A) : nlen (l ++ k) = (nlen l + nlen k)%N.
Proof. unfold nlen. rewrite length_app. lia. Qed.

Lemma nlen_take {A} n (l : list A) : nlen (take n l) = N.min (N.of_nat n) (nlen l).
Proof. unfold nlen. rewrite length_take. lia. Qed.

(** A read into a buffer with room gives a part of what is left, and nothing only at the end. *)
Lemma reader_read_spec room r r' x :
  read room r = (r', x) → (0 < room)%N →
  match x with
  | Err e => e = IoBroken ∧ rest r = [] ∧ breaks r = true ∧ r' = r
  | Ok [] => rest r = [] ∧ breaks r = false ∧ r' = r
  | Ok chunk => rest r = chunk ++ rest r' ∧ breaks r' = breaks r ∧ (0 < nlen chunk ≤ room)%N
  end.
Proof.
  intros H Hroom. unfold read in H. destruct (rest r) as [|b l] eqn:E.
  { destruct (breaks r) eqn:Eb; injection H as <- <-; done. }
  injection H as <- <-. cbn [rest breaks].
  set (k := N.to_nat _). assert (0 < k)%nat as Hk by (subst k; unfold nlen; cbn [length]; lia).
  assert (N.of_nat k ≤ room)%N as Hle by (subst k; lia).
  destruct (take k (b :: l)) as [|c t] eqn:Et; [destruct k; [lia|done]|].
  rewrite <- Et. split; [by rewrite take_drop|]. split; [done|].
  rewrite nlen_take. unfold nlen. cbn [length]. lia.
Qed.

(** ** The bounded reader *)

Lemma read_within_spec room r r' x :
  read_within room r = (r', x) → (0 < room)%N →
  match x with
  | Err e =>
      e = IoBroken ∧ rest (inner r) = [] ∧ breaks (inner r) = true ∨
      e = IoPastBound ∧ left_ r = 0%N ∧ rest (inner r) ≠ []
  | Ok [] => rest (inner r) = [] ∧ breaks (inner r) = false
  | Ok chunk =>
      rest (inner r) = chunk ++ rest (inner r') ∧ breaks (inner r') = breaks (inner r) ∧
      left_ r = (nlen chunk + left_ r')%N ∧ (0 < nlen chunk)%N
  end.
Proof.
  intros H Hroom. unfold read_within in H. destruct (N.eqb_spec room 0); [lia|].
  destruct (N.eqb_spec (left_ r) 0) as [Hz|Hz].
  - destruct (read 1 (inner r)) as [i x1] eqn:E. apply reader_read_spec in E; [|lia]. injection H as <- <-.
    destruct x1 as [[|b chunk]|e]; cbn; [naive_solver| |naive_solver].
    right. split_and!; [done|done|]. destruct E as [-> _]. done.
  - destruct (read _ (inner r)) as [i x1] eqn:E. apply reader_read_spec in E; [|lia].
    destruct x1 as [[|b chunk]|e]; injection H as <- <-; cbn [inner left_]; [naive_solver| |naive_solver].
    destruct E as (Hr & Hb & Hn). split_and!; [done|done|lia|lia].
Qed.

(** What is left of a stream within a bound. *)
Definition within (n : N) (l : list N) : list N := take (N.to_nat n) l.

Lemma within_bound_step n (chunk l : list N) : within (nlen chunk + n) (chunk ++ l) = chunk ++ within n l.
Proof.
  unfold within, nlen. rewrite N2Nat.inj_add, Nat2N.id, take_app_add'; [done|done].
Qed.

Lemma within_all n l : (nlen l ≤ n)%N → within n l = l.
Proof. unfold within, nlen. intros. apply take_ge. lia. Qed.

Lemma read_all_spec (rooms : list N) (r : ReadWithin) (got : list N) (e : option (option IoError)) :
  Forall (λ room, 0 < room)%N rooms → read_all rooms r = (got, e) →
  (nlen got ≤ left_ r)%N ∧ got `prefix_of` rest (inner r) ∧
  match e with
  | None => (length rooms ≤ length got)%nat
  | Some None => got = rest (inner r) ∧ breaks (inner r) = false
  | Some (Some why) =>
      why = IoBroken ∧ got = rest (inner r) ∧ breaks (inner r) = true ∨
      why = IoPastBound ∧ (left_ r < nlen (rest (inner r)))%N ∧ got = within (left_ r) (rest (inner r))
  end.
Proof.
  intros Hrooms. revert r got e. induction Hrooms as [|room rooms Hroom Hrooms IH]; intros r got e; cbn.
  { intros [= <- <-]. cbn. split_and!; [apply N.le_0_l|apply prefix_nil|done]. }
  destruct (read_within room r) as [r1 x] eqn:E. apply read_within_spec in E; [|done].
  destruct x as [[|b chunk]|why].
  - intros [= <- <-]. destruct E as [-> ->]. split_and!; [apply N.le_0_l|apply prefix_nil|done|done].
  - destruct (read_all rooms r1) as [more e1] eqn:E1. intros [= <- <-]. rewrite app_comm_cons.
    destruct E as (Hr & Hb & Hl & Hn). rewrite Hr, Hl in *. set (c := b :: chunk) in *.
    destruct (IH _ _ _ E1) as (Hle & Hpre & He). rewrite nlen_app. split_and!.
    + lia.
    + by apply prefix_app.
    + destruct e1 as [[why|]|]; [|destruct He as [-> ?]; split; [done|congruence]|].
      * destruct He as [(-> & -> & ?)|(-> & Hlt & ->)]; [left; split_and!; congruence|right].
        rewrite nlen_app, within_bound_step. split_and!; [done|lia|done].
      * rewrite length_app. cbn. unfold nlen in Hn. lia.
  - intros [= <- <-]. split_and!; [apply N.le_0_l|apply prefix_nil|].
    destruct E as [(-> & -> & ->)|(-> & Hz & Hne)]; [by left|right].
    rewrite Hz. destruct (rest (inner r)) as [|b l]; [done|]. split_and!; [done|unfold nlen; cbn; lia|done].
Qed.

Lemma passed_on_spec r :
  passed_on r = (within (left_ r) (rest (inner r)), (left_ r <? nlen (rest (inner r)))%N || breaks (inner r)).
Proof.
  unfold passed_on. destruct (read_all _ r) as [got e] eqn:E.
  apply read_all_spec in E as (Hle & [k Hk] & He); [|by apply Forall_replicate].
  destruct e as [[why|]|].
  - destruct He as [(-> & -> & Hb)|(-> & Hlt & ->)].
    + by rewrite within_all, Hb, orb_true_r by done.
    + destruct (N.ltb_spec (left_ r) (nlen (rest (inner r)))); [done|lia].
  - destruct He as [-> Hb]. rewrite within_all, Hb by done.
    destruct (N.ltb_spec (left_ r) (nlen (rest (inner r)))); [lia|done].
  - rewrite length_replicate, Hk, length_app in He. lia.
Qed.

(** A reader bounded to some bytes passes on its stream up to that bound, whatever the buffers it
    is read into and however little each read of the stream gives: it comes to an end only where the
    stream itself ends within the bound, it fails past the bound when more follows, so that a cut
    archive never reads as a shorter one; it ends or fails after no more reads than the bytes it
    passed on and one, and all the ways to read it give the same. *)
Theorem bounded_reads_never_end_early (rooms : list N) (r : ReadWithin) (got : list N) (e : option (option IoError)) :
  Forall (λ room, 0 < room)%N rooms → read_all rooms r = (got, e) →
  (nlen got ≤ left_ r)%N ∧ got `prefix_of` rest (inner r) ∧
  (e = None → (length rooms ≤ length got)%nat) ∧
  (e = Some None → got = rest (inner r) ∧ breaks (inner r) = false) ∧
  (∀ why, e = Some (Some why) → breaks (inner r) = false → why = IoPastBound ∧ (left_ r < nlen (rest (inner r)))%N) ∧
  (e ≠ None → passed_on r = (got, bool_decide (e ≠ Some None))).
Proof.
  intros Hrooms (Hle & Hpre & He)%read_all_spec; [|done]. rewrite passed_on_spec.
  destruct e as [[why|]|]; split_and!; try done.
  - intros ? [= <-] Hb. destruct He as [(_ & _ & ?)|(-> & Hlt & _)]; [congruence|done].
  - intros _. destruct He as [(-> & -> & ->)|(-> & Hlt & ->)].
    + by rewrite within_all, orb_true_r by done.
    + destruct (N.ltb_spec (left_ r) (nlen (rest (inner r)))); [done|lia].
  - intros _. destruct He as [-> ->]. rewrite within_all by done.
    destruct (N.ltb_spec (left_ r) (nlen (rest (inner r)))); [lia|done].
Qed.

(** *** Copies *)

Lemma write_all_spec out chunk h h' x b m :
  write_all out chunk h = (h', x) → nodes h !! out = Some (RegularFile b m) →
  ∃ part, nodes h' = <[out := RegularFile (b ++ part) m]> (nodes h) ∧ part `prefix_of` chunk ∧
    (is_ok x = true → part = chunk) ∧ (calls h = [] → calls h' = [] ∧ x = Ok tt).
Proof.
  intros H Hf.
  assert (∀ part, alter (with_more part) out (nodes h) = <[out := RegularFile (b ++ part) m]> (nodes h)) as Ha.
  { intros part. apply map_eq. intros p. destruct (decide (p = out)) as [->|].
    - by rewrite lookup_alter_eq, lookup_insert_eq, Hf.
    - by rewrite lookup_alter_ne, lookup_insert_ne by done. }
  unfold write_all, next_call, on_nodes, eff_bind in H. destruct (calls h) as [|k ks] eqn:Ec; cbn in H.
  - injection H as <- <-. exists chunk. cbn. split_and!; done.
  - destruct (call_ok k); injection H as <- <-; cbn; rewrite Ha; eexists; split_and!; try done. apply prefix_take.
Qed.

Lemma copy_loop_spec rounds source out limit written h h' x b m :
  copy_loop rounds source out limit written h = (h', x) → nodes h !! out = Some (RegularFile b m) →
  (length (rest source) < rounds)%nat → (written ≤ limit)%N →
  ∃ chunk, nodes h' = <[out := RegularFile (b ++ chunk) m]> (nodes h) ∧ chunk `prefix_of` rest source ∧
    (written + nlen chunk ≤ limit)%N ∧
    (∀ n, x = Ok n → chunk = rest source ∧ n = (written + nlen chunk)%N) ∧
    (calls h = [] → calls h' = [] ∧
      (breaks source = false → (written + nlen (rest source) ≤ limit)%N → is_ok x = true)).
Proof.
  revert source written h b. induction rounds as [|rounds IH]; intros source written h b H Hf Hlen Hle; [lia|].
  cbn in H. destruct (read COPY_BUFFER source) as [s1 y] eqn:E. apply reader_read_spec in E; [|done].
  destruct y as [[|b1 l1]|e].
  - injection H as <- <-. destruct E as (Hr & Hb & ->). exists []. rewrite Hr, app_nil_r, insert_id by done.
    split_and!; [done|done|unfold nlen; cbn; lia|intros n [= ->]; unfold nlen; cbn; split; [done|lia]|done].
  - set (c := b1 :: l1) in *. destruct E as (Hr & Hb & Hn).
    assert (length (rest s1) < rounds)%nat as Hl1
      by (rewrite Hr, length_app in Hlen; unfold nlen in Hn; lia).
    destruct (N.ltb_spec limit (written + nlen c)) as [Hp|Hp].
    { injection H as <- <-. exists []. rewrite app_nil_r, insert_id by done.
      split_and!; [done|apply prefix_nil|unfold nlen; cbn; lia|done|].
      intros Hc. split; [done|]. intros _. rewrite Hr, nlen_app. lia. }
    apply eff_bind_inv in H as [(h1 & u & H1 & H)|(e & H1 & ->)].
    + eapply write_all_spec in H1 as (part & Hn1 & _ & Hall & Hc1); [|done]. rewrite (Hall eq_refl) in Hn1.
      destruct (IH _ _ _ (b ++ c) H) as (chunk & Hn2 & Hpre & Hlim & Hok & Hcalls);
        [by rewrite Hn1, lookup_insert_eq|done|done|].
      exists (c ++ chunk). rewrite Hn2, Hn1, insert_insert_eq, app_assoc, nlen_app, Hr. split_and!.
      * done.
      * by apply prefix_app.
      * lia.
      * intros n Hx. destruct (Hok n Hx) as [-> ->]. split; [done|lia].
      * intros Hc. destruct (Hcalls (proj1 (Hc1 Hc))) as [Hc2 Hs]. split; [done|]. intros Hbr Hfit.
        apply Hs; [congruence|]. rewrite nlen_app in Hfit. lia.
    + eapply write_all_spec in H1 as (part & Hn1 & Hpre & _ & Hc1); [|done]. exists part. split_and!.
      * done.
      * rewrite Hr. by apply prefix_app_r.
      * destruct Hpre as [k Hk]. rewrite Hk, nlen_app in Hp. lia.
      * done.
      * by intros [_ ?]%Hc1.
  - injection H as <- <-. destruct E as (_ & Hr & Hb & _). exists [].
    rewrite app_nil_r, insert_id by done.
    split_and!; [done|apply prefix_nil|unfold nlen; cbn; lia|done|]. intros Hc. split; [done|]. congruence.
Qed.

(** What a copy leaves in its file: a part of the member no longer than the limit, and all of it when
    the copy is answered. *)
Lemma copy_within_spec source out limit h h' x m :
  copy_within source out limit h = (h', x) → nodes h !! out = Some (RegularFile [] m) →
  ∃ chunk, nodes h' = <[out := RegularFile chunk m]> (nodes h) ∧ (nlen chunk ≤ limit)%N ∧
    (∀ n, x = Ok n → chunk = rest source ∧ n = nlen chunk) ∧
    (calls h = [] → calls h' = [] ∧
      (breaks source = false → (nlen (rest source) ≤ limit)%N → is_ok x = true)).
Proof.
  intros H Hf. unfold copy_within in H. apply (copy_loop_spec _ _ _ _ _ _ _ _ [] m) in H; [|done|lia|lia].
  destruct H as (chunk & Hn & _ & Hl & Hok & Hc). exists chunk. split_and!; [done|lia|done|done].
Qed.

(** ** Trees *)

(** ** One walk for every container *)

(** What the second pass makes of one entry. *)
Record Item := mkItem {
  item_raw : string;
  item_dir : bool;
  item_data : Reader;
  item_mode : option N;
}.

Definition unpack_item (prefix : PathBuf) (dest : Place) (limit : N) (summary : TreeSummary) (i : Item)
    (member : PathBuf) : Eff Host ArchiveError TreeSummary :=
  out <-! write_member member (item_dir i) (item_data i) prefix dest limit summary ;;
  _ <-! match out.2, item_mode i with
        | Some out_path, Some mode => set_mode out_path (N.land mode 493)
        | _, _ => eff_ret tt
        end ;;
  eff_ret out.1.

Fixpoint unpack_items (prefix : PathBuf) (dest : Place) (limit : N) (summary : TreeSummary)
    (items : list (result Item ArchiveError)) : Eff Host ArchiveError TreeSummary :=
  match items with
  | [] => eff_ret summary
  | Err e :: _ => eff_fail e
  | Ok i :: items =>
      member <-! eff_of (safe_member_path (item_raw i)) ;;
      summary <-! unpack_item prefix dest limit summary i member ;;
      unpack_items prefix dest limit summary items
  end.

Definition tar_item (e : option TarEntry) : result Item ArchiveError :=
  match e with
  | None => Err CannotRead
  | Some e =>
      match tar_path e with
      | None => Err CannotReadEntry
      | Some raw => Ok (mkItem raw (is_tar_dir e) (tar_data e) (tar_mode e))
      end
  end.

Definition seven_item (e : option (SevenEntry * Reader)) : result Item ArchiveError :=
  match e with
  | None => Err CannotRead
  | Some (e, reader) => Ok (mkItem (seven_name e) (seven_dir e) reader None)
  end.

Definition zip_item (e : ZipEntry) : result Item ArchiveError :=
  match zip_opened e, zip_name e with
  | Some reader, Some name => Ok (mkItem name (zip_dir e) reader None)
  | _, _ => Err CannotRead
  end.

Lemma unpack_tar_items prefix dest limit entries : ∀ summary h,
  unpack_tar prefix dest limit summary entries h = unpack_items prefix dest limit summary (tar_item <$> entries) h.
Proof.
  induction entries as [|[e|] entries IH]; intros summary h; cbn; [done| |done].
  unfold tar_item. destruct (tar_path e) as [raw|]; [|done]. cbn. unfold eff_bind, eff_of.
  destruct (safe_member_path raw) as [member|]; [|done].
  change (unpack_tar_entry prefix dest limit summary e member)
    with (unpack_item prefix dest limit summary (mkItem raw (is_tar_dir e) (tar_data e) (tar_mode e)) member).
  destruct (unpack_item _ _ _ _ _ _ h) as [h1 [s1|]]; [apply IH|done].
Qed.

Lemma unpack_item_plain prefix dest limit summary raw dir data member h :
  unpack_item prefix dest limit summary (mkItem raw dir data None) member h
  = (out <-! write_member member dir data prefix dest limit summary ;; eff_ret out.1) h.
Proof.
  unfold unpack_item, eff_bind. cbn. by destruct (write_member _ _ _ _ _ _ _ h) as [h1 [[s1 [o|]]|]].
Qed.

Lemma unpack_seven_items prefix dest limit walk : ∀ summary h,
  unpack_seven prefix dest limit summary walk h = unpack_items prefix dest limit summary (seven_item <$> walk) h.
Proof.
  induction walk as [|[[e reader]|] walk IH]; intros summary h; cbn; [done| |done]. unfold eff_bind, eff_of.
  destruct (safe_member_path _) as [member|]; [|done]. rewrite unpack_item_plain. unfold eff_bind.
  by destruct (write_member _ _ _ _ _ _ _ h) as [h1 [out|]].
Qed.

Lemma unpack_zip_items prefix dest limit entries : ∀ summary h,
  unpack_zip prefix dest limit summary entries h = unpack_items prefix dest limit summary (zip_item <$> entries) h.
Proof.
  induction entries as [|e entries IH]; intros summary h; cbn; [done|]. unfold zip_item.
  destruct (zip_opened e) as [reader|]; [|done]. destruct (zip_name e) as [name|]; [|done].
  unfold eff_bind, eff_of. destruct (safe_member_path _) as [member|]; [|done]. rewrite unpack_item_plain.
  unfold eff_bind. by destruct (write_member _ _ _ _ _ _ _ h) as [h1 [out|]].
Qed.

Section Walks.
Context (crates : Containers).

(** The first pass, and the second. *)
Definition listing (c : Packed) (limit : N) : result (list PathBuf) ArchiveError :=
  match c with
  | PackedTarGz listed _ => list_tar_gz crates listed limit
  | Packed7z listed _ key => list_7z crates listed key limit
  | PackedZip archive => zip <-? open_zip crates archive ;; list_zip limit 0 [] zip
  end.

Definition walk (c : Packed) (limit : N) : result (list (result Item ArchiveError)) ArchiveError :=
  match c with
  | PackedTarGz _ archive =>
      tar <-? open_tar_gz crates archive limit ;;
      entries <-? tar_entries crates tar ;;
      Ok (tar_item <$> entries)
  | Packed7z _ archive key => reader <-? open_7z crates archive key ;; Ok (seven_item <$> seven_walk reader)
  | PackedZip archive => zip <-? open_zip crates archive ;; Ok (zip_item <$> zip)
  end.

Lemma extract_tree_walk c program dest limit h :
  extract_tree_within crates c program dest limit h
  = (members <-! eff_of (listing c limit) ;;
     prefix <-! eff_of (locate_program members program) ;;
     items <-! eff_of (walk c limit) ;;
     unpack_items prefix dest limit summary_default items) h.
Proof.
  destruct c as [listed archive|listed archive key|archive]; cbn [extract_tree_within].
  - unfold extract_tree_tar_gz_within, eff_bind, eff_of. cbn [listing walk].
    destruct (list_tar_gz _ _ _) as [members|]; [|done]. destruct (locate_program _ _) as [prefix|]; [|done].
    destruct (open_tar_gz _ _ _) as [tar|]; cbn; [|done]. destruct (tar_entries _ tar) as [entries|]; cbn; [|done].
    apply unpack_tar_items.
  - unfold extract_tree_7z_within, eff_bind, eff_of. cbn [listing walk].
    destruct (list_7z _ _ _ _) as [members|]; [|done]. destruct (locate_program _ _) as [prefix|]; [|done].
    destruct (open_7z _ _ _) as [reader|]; cbn; [|done]. apply unpack_seven_items.
  - unfold extract_tree_zip_within, eff_bind, eff_of. cbn [listing walk].
    destruct (open_zip _ _) as [zip|]; cbn; [|done]. destruct (list_zip _ _ _ _) as [members|]; [|done].
    destruct (locate_program _ _) as [prefix|]; [|done]. apply unpack_zip_items.
Qed.
End Walks.

(** ** Directories *)

(** The directories on the way to a place are there. *)
Definition dirs_to (dest : Place) (n : gmap Place Inode) : Prop :=
  ∀ q, q ≠ [] → q `prefix_of` dest → n !! q = Some Directory.

(** Directories were made on the way from a place, and nothing else was done. *)
Definition grows (at_ ys : Place) (n n' : gmap Place Inode) : Prop :=
  ∀ p, n' !! p = n !! p ∨
    n !! p = None ∧ n' !! p = Some Directory ∧ ∃ q, q ≠ [] ∧ q `prefix_of` ys ∧ p = at_ ++ q.

Definition no_file (p : Place) (n : gmap Place Inode) : Prop := ∀ b m, n !! p ≠ Some (RegularFile b m).

Lemma dirs_grow_refl at_ ys n : grows at_ ys n n.
Proof. intros p. by left. Qed.

Lemma make_dir_spec p h h' x :
  make_dir p h = (h', x) →
  (nodes h' = nodes h ∨ nodes h !! p = None ∧ nodes h' = <[p := Directory]> (nodes h)) ∧
  (x = Ok tt → nodes h' !! p = Some Directory) ∧
  (calls h = [] → calls h' = [] ∧ (no_file p (nodes h) → x = Ok tt)).
Proof.
  unfold make_dir, node_at, eff_bind. destruct (nodes h !! p) as [[b m|]|] eqn:E; cbn.
  - intros [= <- <-]. split_and!; [by left|done|]. intros ?. split; [done|]. intros Hn. by destruct (Hn b m).
  - intros [= <- <-]. split_and!; [by left|done|done].
  - unfold next_call. destruct (calls h) as [|c cs] eqn:Ec; cbn; [|destruct (call_ok c); cbn]; intros [= <- <-]; cbn;
      (split_and!; [by eauto|intros Hx|by rewrite ?Ec]); [apply lookup_insert_eq|apply lookup_insert_eq|done].
Qed.

Lemma make_dirs_spec at_ ys h h' x :
  make_dirs at_ ys h = (h', x) →
  grows at_ ys (nodes h) (nodes h') ∧
  (x = Ok tt → ∀ q, q ≠ [] → q `prefix_of` ys → nodes h' !! (at_ ++ q) = Some Directory) ∧
  (calls h = [] → calls h' = [] ∧
    ((∀ q, q ≠ [] → q `prefix_of` ys → no_file (at_ ++ q) (nodes h)) → x = Ok tt)).
Proof.
  revert at_ h. induction ys as [|y ys IH]; intros at_ h; cbn.
  { intros [= <- <-]. split_and!; [apply dirs_grow_refl|by intros _ q Hq ->%prefix_nil_inv|done]. }
  intros [(h1 & [] & H1 & H)|(e & H1 & ->)]%eff_bind_inv.
  - apply make_dir_spec in H1 as (Hn1 & Hd1 & Hc1). specialize (Hd1 eq_refl).
    apply IH in H as (Hg & Hd & Hc). split_and!.
    + intros p. destruct (Hg p) as [Hp|(Hp0 & Hp1 & q & Hq & Hpre & ->)].
      * destruct Hn1 as [Hn1|[Hnone Hn1]]; [left; congruence|]. rewrite Hn1 in Hp.
        destruct (decide (p = at_ ++ [y])) as [->|]; [|left; by rewrite Hp, lookup_insert_ne].
        right. rewrite Hp, lookup_insert_eq. split_and!; [done|done|]. exists [y].
        split_and!; [done|apply prefix_cons, prefix_nil|done].
      * right. split_and!; [|done|].
        { destruct Hn1 as [<-|[_ Hn1]]; [done|]. rewrite Hn1 in Hp0.
          apply lookup_insert_None in Hp0 as [Hp0 _]. done. }
        exists (y :: q). split_and!; [done|by apply prefix_cons|by rewrite <- app_assoc].
    + intros Hx q Hq Hpre. destruct q as [|z q]; [done|]. apply prefix_cons_inv_1 in Hpre as Hz.
      apply prefix_cons_inv_2 in Hpre. subst z. destruct q as [|z q].
      * destruct (Hg (at_ ++ [y])) as [->|(_ & Hp & _)]; done.
      * specialize (Hd Hx (z :: q) ltac:(done) Hpre). by rewrite <- app_assoc in Hd.
    + intros Hcalls. destruct (Hc1 Hcalls) as [Hc1' _]. destruct (Hc Hc1') as [Hc' Hok]. split; [done|].
      intros Hno. apply Hok. intros q Hq Hpre. rewrite <- app_assoc.
      assert (no_file (at_ ++ [y] ++ q) (nodes h)) as Hf by (apply Hno; [done|by apply prefix_cons]).
      destruct Hn1 as [->|[_ ->]]; [done|]. intros b m. destruct (decide (at_ ++ [y] ++ q = at_ ++ [y])) as [->|].
      * by rewrite lookup_insert_eq.
      * rewrite lookup_insert_ne by done. apply Hf.
  - apply make_dir_spec in H1 as (Hn1 & _ & Hc1). split_and!; [|done|].
    + intros p. destruct Hn1 as [->|[Hnone ->]]; [by left|].
      destruct (decide (p = at_ ++ [y])) as [->|]; [|left; by rewrite lookup_insert_ne].
      right. rewrite lookup_insert_eq. split_and!; [done|done|]. exists [y].
      split_and!; [done|apply prefix_cons, prefix_nil|done].
    + intros Hcalls. destruct (Hc1 Hcalls) as [? Hok]. split; [done|]. intros Hno.
      by specialize (Hok (Hno [y] ltac:(done) ltac:(apply prefix_cons, prefix_nil))).
Qed.

Lemma make_dirs_skip at_ xs ys h :
  (∀ q, q ≠ [] → q `prefix_of` xs → nodes h !! (at_ ++ q) = Some Directory) →
  make_dirs at_ (xs ++ ys) h = make_dirs (at_ ++ xs) ys h.
Proof.
  revert at_. induction xs as [|x xs IH]; intros at_ Hd; cbn; [by rewrite app_nil_r|].
  unfold eff_bind, make_dir, node_at, eff_bind. rewrite (Hd [x]); [|done|apply prefix_cons, prefix_nil]. cbn.
  rewrite IH; [by rewrite <- app_assoc|]. intros q Hq Hpre. rewrite <- app_assoc. apply Hd; [done|by apply prefix_cons].
Qed.

(** Directories under one whose way is there. *)
Lemma create_dir_all_spec dest ys h h' x :
  create_dir_all (dest ++ ys) h = (h', x) → dirs_to dest (nodes h) →
  grows dest ys (nodes h) (nodes h') ∧
  (x = Ok tt → ∀ q, q ≠ [] → q `prefix_of` ys → nodes h' !! (dest ++ q) = Some Directory) ∧
  (calls h = [] → calls h' = [] ∧
    ((∀ q, q ≠ [] → q `prefix_of` ys → no_file (dest ++ q) (nodes h)) → x = Ok tt)).
Proof.
  unfold create_dir_all. intros H Hd. rewrite make_dirs_skip in H by (intros; by apply Hd).
  by apply make_dirs_spec in H.
Qed.

(** ** One item *)

Lemma create_file_spec p h h' x :
  create_file p h = (h', x) →
  (∃ e, x = Err e ∧ e ≠ Overflowed ∧ nodes h' = nodes h ∨
   x = Ok tt ∧ nodes h !! p ≠ Some Directory ∧
   ∃ mode, nodes h' = <[p := RegularFile [] mode]> (nodes h) ∧
     (mode = None ∨ ∃ b, nodes h !! p = Some (RegularFile b mode))) ∧
  (calls h = [] → calls h' = [] ∧ (nodes h !! p ≠ Some Directory → x = Ok tt)).
Proof.
  unfold create_file, next_call, node_at, eff_bind. destruct (calls h) as [|c cs] eqn:Ec; cbn;
    (destruct (nodes h !! p) as [[b m|]|] eqn:E; [| |]); cbn; try (destruct (call_ok c); cbn); intros [= <- <-]; cbn;
    (split; [|by rewrite ?Ec]);
    first [eexists; left; split_and!; by eauto | exists CannotRead; right; split_and!; [done|done|]; eexists; by eauto].
Qed.

Lemma set_mode_spec {E} p mode h h' (x : result unit E) b m :
  set_mode p mode h = (h', x) → nodes h !! p = Some (RegularFile b m) →
  x = Ok tt ∧ (∃ m', (m' = m ∨ m' = Some mode) ∧ nodes h' = <[p := RegularFile b m']> (nodes h)) ∧
  (calls h = [] → calls h' = []).
Proof.
  intros H Hp.
  assert (alter (with_mode mode) p (nodes h) = <[p := RegularFile b (Some mode)]> (nodes h)) as Ha.
  { apply map_eq. intros q. destruct (decide (q = p)) as [->|].
    - by rewrite lookup_alter_eq, lookup_insert_eq, Hp.
    - by rewrite lookup_alter_ne, lookup_insert_ne by done. }
  unfold set_mode, next_call, on_nodes, eff_bind in H. destruct (calls h) as [|k ks] eqn:Ec; cbn in H.
  - injection H as <- <-. cbn. rewrite Ha. eauto 10.
  - destruct (call_ok k); injection H as <- <-; cbn; (split_and!; [done| |done]); rewrite ?Ha; [by eauto|].
    exists m. rewrite insert_id by done. eauto.
Qed.

(** What of an archive's mode is taken, or what the file had. *)
Definition mode_from (before : option Inode) (mode : option N) : Prop :=
  mode = None ∨ (∃ b, before = Some (RegularFile b mode)) ∨ ∃ m, mode = Some (N.land m 493).

(** What the unpacking of one item comes to, of a member with the names [parts]. *)
Inductive stepped (dest : Place) (limit : N) (s : TreeSummary) (i : Item) (pre parts : Place)
    (n n' : gmap Place Inode) : result TreeSummary ArchiveError → Prop :=
| stepped_outside :
    ¬ pre `prefix_of` parts → n' = n →
    stepped dest limit s i pre parts n n' (Ok (mkSummary (files s) (bytes s) (S (skipped s))))
| stepped_root : parts = pre → n' = n → stepped dest limit s i pre parts n n' (Ok s)
| stepped_dir rel :
    parts = pre ++ rel → rel ≠ [] → item_dir i = true → grows dest rel n n' →
    stepped dest limit s i pre parts n n' (Ok s)
| stepped_failed rel e :
    parts = pre ++ rel → rel ≠ [] → grows dest rel n n' → e ≠ Overflowed →
    stepped dest limit s i pre parts n n' (Err e)
| stepped_cut rel n1 chunk mode e :
    parts = pre ++ rel → rel ≠ [] → grows dest (removelast rel) n n1 →
    mode_from (n !! (dest ++ rel)) mode → (bytes s + nlen chunk ≤ limit)%N →
    n' = <[dest ++ rel := RegularFile chunk mode]> n1 → e ≠ Overflowed →
    stepped dest limit s i pre parts n n' (Err e)
| stepped_file rel n1 mode :
    parts = pre ++ rel → rel ≠ [] → item_dir i = false → grows dest (removelast rel) n n1 →
    mode_from (n !! (dest ++ rel)) mode → (bytes s + nlen (rest (item_data i)) ≤ limit)%N →
    n' = <[dest ++ rel := RegularFile (rest (item_data i)) mode]> n1 →
    stepped dest limit s i pre parts n n'
      (Ok (mkSummary (S (files s)) (bytes s + nlen (rest (item_data i))) (skipped s))).

Lemma removelast_prefix {A} (l : list A) : removelast l `prefix_of` l.
Proof.
  induction l as [|a l IH] using rev_ind; [done|]. rewrite removelast_last. by apply prefix_app_r.
Qed.

Lemma removelast_app_r (dest rel : Place) : rel ≠ [] → removelast (dest ++ rel) = dest ++ removelast rel.
Proof. intros. by apply removelast_app. Qed.

Lemma grows_parent dest rel n n1 : rel ≠ [] → grows dest (removelast rel) n n1 → n1 !! (dest ++ rel) = n !! (dest ++ rel).
Proof.
  intros Hrel Hg. destruct (Hg (dest ++ rel)) as [->|(_ & _ & q & Hq & Hpre & Heq)]; [done|].
  apply app_inv_head in Heq as <-. apply prefix_length in Hpre.
  destruct (exists_last Hrel) as (l & a & ->). rewrite removelast_last, length_app in Hpre. cbn in Hpre. lia.
Qed.

Lemma grows_weaken dest xs ys n n' : xs `prefix_of` ys → grows dest xs n n' → grows dest ys n n'.
Proof.
  intros Hpre Hg p. destruct (Hg p) as [?|(? & ? & q & ? & ? & ?)]; [by left|].
  right. split_and!; [done|done|]. exists q. split_and!; [done|by etransitivity|done].
Qed.

Lemma make_dirs_Err at_ ys h h' e : make_dirs at_ ys h = (h', Err e) → e ≠ Overflowed.
Proof.
  revert at_ h. induction ys as [|y ys IH]; intros at_ h; cbn; [done|].
  intros [(h1 & [] & _ & H)|(e' & H & [= <-])]%eff_bind_inv; [by eapply IH|]. revert H.
  unfold make_dir, node_at, next_call, on_nodes, eff_fail, eff_ret, eff_bind.
  repeat case_match; intros; simplify_eq/=; done.
Qed.

(** When nothing stands in the way of an item. *)
Definition free_for (dest : Place) (limit : N) (s : TreeSummary) (i : Item) (pre parts : Place)
    (n : gmap Place Inode) : Prop :=
  ∀ rel, parts = pre ++ rel → rel ≠ [] →
    (∀ q, q ≠ [] → q `prefix_of` removelast rel → no_file (dest ++ q) n) ∧
    (item_dir i = true → no_file (dest ++ rel) n) ∧
    (item_dir i = false →
      n !! (dest ++ rel) ≠ Some Directory ∧ breaks (item_data i) = false ∧
      (bytes s + nlen (rest (item_data i)) ≤ limit)%N).

Lemma prefix_of_rel {A} (q rel : list A) : q `prefix_of` rel → rel ≠ [] → q = rel ∨ q `prefix_of` removelast rel.
Proof.
  intros [k ->] Hrel. destruct k as [|a k] using rev_ind; [left; by rewrite app_nil_r|right].
  rewrite app_assoc, removelast_last. by apply prefix_app_r.
Qed.

(** A file of a tree, once its directory is there. *)
Definition write_file (i : Item) (rel : PathBuf) (out : Place) (limit : N) (s : TreeSummary)
    : Eff Host ArchiveError (TreeSummary * option Place) :=
  _ <-! create_file out ;;
  match checked_sub limit (bytes s) with
  | None => eff_fail Overflowed
  | Some budget =>
      written <-! eff_map_err (CannotUnpack rel) (copy_within (item_data i) out budget) ;;
      eff_ret (mkSummary (S (files s)) (bytes s + written) (skipped s), Some out)
  end.

Lemma write_file_spec i rel out limit s h h' x :
  write_file i rel out limit s h = (h', x) → (bytes s ≤ limit)%N →
  ((∃ e, x = Err e ∧ e ≠ Overflowed ∧ nodes h' = nodes h) ∨
   ∃ chunk mode, (mode = None ∨ ∃ b, nodes h !! out = Some (RegularFile b mode)) ∧
     nodes h' = <[out := RegularFile chunk mode]> (nodes h) ∧ (bytes s + nlen chunk ≤ limit)%N ∧
     ((∃ e, x = Err e ∧ e ≠ Overflowed) ∨
      chunk = rest (item_data i) ∧ x = Ok (mkSummary (S (files s)) (bytes s + nlen chunk) (skipped s), Some out))) ∧
  (calls h = [] → calls h' = [] ∧
    (nodes h !! out ≠ Some Directory → breaks (item_data i) = false →
     (bytes s + nlen (rest (item_data i)) ≤ limit)%N → is_ok x = true)).
Proof.
  intros H Hle. unfold write_file in H.
  assert (checked_sub limit (bytes s) = Some (limit - bytes s)%N) as Hsub
    by (unfold checked_sub; destruct (N.leb_spec (bytes s) limit); [done|lia]). rewrite Hsub in H.
  apply eff_bind_inv in H as [(h1 & [] & H1 & H)|(e & H1 & ->)].
  - apply create_file_spec in H1 as ((e & [(? & _)|(_ & Hd & mode & Hn1 & Hm)]) & Hc1); [done|].
    assert (∃ y, copy_within (item_data i) out (limit - bytes s) h1 = (h', y) ∧
      x = match y with Ok w => Ok (mkSummary (S (files s)) (bytes s + w) (skipped s), Some out)
          | Err e => Err (CannotUnpack rel e) end) as (y & Hcopy & ->).
    { revert H. unfold eff_bind, eff_map_err. destruct (copy_within _ _ _ h1) as [h2 [w|e2]]; cbn; intros [= <- <-]; eauto. }
    eapply copy_within_spec in Hcopy as (chunk & Hn2 & Hlen & Hok & Hc2); [|by rewrite Hn1, lookup_insert_eq].
    rewrite Hn1, insert_insert_eq in Hn2. split.
    + right. exists chunk, mode. split_and!; [done|done|lia|].
      destruct y as [w|e2]; [right|left; by eauto]. destruct (Hok w eq_refl) as [-> ->]. done.
    + intros Hcalls. destruct (Hc2 (proj1 (Hc1 Hcalls))) as [Hc3 Hs]. split; [done|]. intros _ Hb Hfit.
      specialize (Hs Hb ltac:(lia)). by destruct y.
  - apply create_file_spec in H1 as ((e' & [([= ->] & He & Hn)|(? & _)]) & Hc1); [|done]. split; [left; by eauto|].
    intros Hcalls. destruct (Hc1 Hcalls) as [? Hs]. split; [done|]. by intros ?%Hs.
Qed.

Lemma write_member_file i pre rel dest limit s h :
  rel ≠ [] → item_dir i = false →
  write_member (names (pre ++ rel)) false (item_data i) (names pre) dest limit s h
  = (_ <-! create_dir_all (dest ++ removelast rel) ;; write_file i (names rel) (dest ++ rel) limit s) h.
Proof.
  intros Hrel Hdir. unfold write_member. rewrite strip_names_eq. destruct rel as [|r rel]; [done|].
  set (rl := r :: rel) in *. change (names rl) with (Normal r :: names rel) at 1. cbn [names].
  change (Normal r :: names rel) with (names rl). rewrite resolve_names.
  unfold prepare_parent. destruct (dest ++ rl) as [|a l] eqn:E; [by apply app_eq_nil in E as [_ ?]|].
  by rewrite <- E, removelast_app_r.
Qed.

Lemma item_written i pre rel dest limit s h h' x :
  rel ≠ [] → item_dir i = false → dirs_to dest (nodes h) → (bytes s ≤ limit)%N →
  unpack_item (names pre) dest limit s i (names (pre ++ rel)) h = (h', x) →
  stepped dest limit s i pre (pre ++ rel) (nodes h) (nodes h') x ∧
  (calls h = [] → calls h' = [] ∧ (free_for dest limit s i pre (pre ++ rel) (nodes h) → is_ok x = true)).
Proof.
  intros Hrel Hdir Hd Hle H. unfold unpack_item, eff_bind at 1 in H. rewrite Hdir, write_member_file in H by done.
  destruct ((_ <-! create_dir_all _ ;; _) h) as [h2 y] eqn:E.
  apply eff_bind_inv in E as [(h1 & [] & H1 & H2)|(e & H1 & ->)].
  - apply create_dir_all_spec in H1 as (Hg & _ & Hc1); [|done]. pose proof (grows_parent _ _ _ _ Hrel Hg) as Hsame.
    apply write_file_spec in H2 as (Hw & Hc2); [|done]. rewrite Hsame in *.
    assert (Hprogress : calls h = [] → calls h2 = [] ∧
      (free_for dest limit s i pre (pre ++ rel) (nodes h) → is_ok y = true)).
    { intros Hcalls. destruct (Hc2 (proj1 (Hc1 Hcalls))) as [Hc3 Hs]. split; [done|]. intros Hfree.
      destruct (Hfree rel eq_refl Hrel) as (_ & _ & (Hnd & Hb & Hfit)%(λ f, f Hdir)). auto. }
    destruct Hw as [(e & -> & He & Hn)|(chunk & mode & Hm & Hn & Hlen & [(e & -> & He)|[-> ->]])].
    + injection H as <- <-. split; [|done]. rewrite Hn.
      apply stepped_failed with rel; [done|done|by eapply grows_weaken; [apply removelast_prefix|]|done].
    + injection H as <- <-. split; [|done].
      eapply stepped_cut with rel (nodes h1) chunk mode; try done. destruct Hm as [->|?]; [by left|right; by left].
    + cbn [fst snd] in H. destruct (item_mode i) as [md|].
      * unfold eff_bind in H. destruct (set_mode (E := ArchiveError) (dest ++ rel) (N.land md 493) h2) as [h3 z] eqn:Es.
        eapply set_mode_spec in Es as (-> & (m' & Hm' & Hn3) & Hc3); [|by rewrite Hn, lookup_insert_eq].
        injection H as <- <-. rewrite Hn, insert_insert_eq in Hn3. split; [|naive_solver].
        eapply stepped_file with rel (nodes h1) m'; try done.
        destruct Hm' as [->| ->]; [destruct Hm as [->|?]; [by left|right; by left]|right; right; by eexists].
      * injection H as <- <-. split; [|naive_solver]. eapply stepped_file with rel (nodes h1) mode; try done.
        destruct Hm as [->|?]; [by left|right; by left].
  - injection H as <- <-. pose proof H1 as He. unfold create_dir_all in He. apply make_dirs_Err in He.
    apply create_dir_all_spec in H1 as (Hg & _ & Hc1); [|done]. split.
    + apply stepped_failed with rel; [done|done|by eapply grows_weaken; [apply removelast_prefix|]|done].
    + intros Hcalls. destruct (Hc1 Hcalls) as [? Hs]. split; [done|]. intros Hfree.
      destruct (Hfree rel eq_refl Hrel) as (Hno & _). by specialize (Hs Hno).
Qed.

Lemma item_made i pre rel dest limit s h h' x :
  rel ≠ [] → item_dir i = true → dirs_to dest (nodes h) →
  unpack_item (names pre) dest limit s i (names (pre ++ rel)) h = (h', x) →
  stepped dest limit s i pre (pre ++ rel) (nodes h) (nodes h') x ∧
  (calls h = [] → calls h' = [] ∧ (free_for dest limit s i pre (pre ++ rel) (nodes h) → is_ok x = true)).
Proof.
  intros Hrel Hdir Hd H. unfold unpack_item, write_member, eff_bind in H. rewrite Hdir, strip_names_eq in H.
  destruct rel as [|r rel]; [done|]. change (names (r :: rel)) with (Normal r :: names rel) in H.
  set (rl := r :: rel) in *. cbv beta iota in H. change (Normal r :: names rel) with (names rl) in H.
  rewrite resolve_names in H.
  destruct (create_dir_all (dest ++ rl) h) as [h1 y] eqn:E. pose proof E as He.
  apply create_dir_all_spec in E as (Hg & _ & Hc); [|done]. destruct y as [[]|e].
  - cbn in H. injection H as <- <-. split; [by eapply stepped_dir|]. intros Hcalls. by destruct (Hc Hcalls).
  - injection H as <- <-. unfold create_dir_all in He. apply make_dirs_Err in He. split; [by eapply stepped_failed|].
    intros Hcalls. destruct (Hc Hcalls) as [? Hs]. split; [done|]. intros Hfree.
    destruct (Hfree rl eq_refl Hrel) as (Hno & Hf & _). discriminate Hs. intros q Hq Hpre.
    destruct (prefix_of_rel q rl Hpre Hrel) as [->|?]; [by apply Hf|by apply Hno].
Qed.

Lemma unpack_item_spec i pre parts dest limit s h h' x :
  dirs_to dest (nodes h) → (bytes s ≤ limit)%N →
  unpack_item (names pre) dest limit s i (names parts) h = (h', x) →
  stepped dest limit s i pre parts (nodes h) (nodes h') x ∧
  (calls h = [] → calls h' = [] ∧ (free_for dest limit s i pre parts (nodes h) → is_ok x = true)).
Proof.
  intros Hd Hle H. destruct (strip (names pre) (names parts)) as [r|] eqn:E.
  - destruct (strip_names _ _ _ E) as (rel & -> & ->). destruct rel as [|a rel].
    + unfold unpack_item, write_member, eff_bind in H. rewrite E in H. cbn in H. injection H as <- <-.
      rewrite app_nil_r. split; [by apply stepped_root|done].
    + destruct (item_dir i) eqn:Ed; [by eapply item_made|by eapply item_written].
  - unfold unpack_item, write_member, eff_bind in H. rewrite E in H. cbn in H. injection H as <- <-.
    split; [|done]. apply stepped_outside; [|done]. intros [k ->]. by rewrite strip_names_eq in E.
Qed.

(** ** The whole walk *)

(** What holds after every item, [l] being those unpacked, holds after the walk. *)
Lemma unpack_items_run (I : list Item → TreeSummary → gmap Place Inode → Prop) (R : gmap Place Inode → Prop)
    pre dest limit :
  (∀ l s n, I l s n → dirs_to dest n ∧ (bytes s ≤ limit)%N ∧ R n) →
  (∀ l s n i parts n' x, I l s n → safe_member_path (item_raw i) = Ok (names parts) →
     stepped dest limit s i pre parts n n' x → match x with Ok s' => I (l ++ [i]) s' n' | Err _ => R n' end) →
  ∀ items l s h h' x, unpack_items (names pre) dest limit s items h = (h', x) → I l s (nodes h) →
    match x with
    | Ok s' => ∃ l', items = Ok <$> l' ∧ I (l ++ l') s' (nodes h')
    | Err _ => R (nodes h')
    end.
Proof.
  intros HI Hstep items. induction items as [|[i|e] items IH]; intros l s h h' x H Hi; cbn in H.
  - injection H as <- <-. exists []. by rewrite app_nil_r.
  - unfold eff_of, eff_bind in H. destruct (safe_member_path (item_raw i)) as [member|e] eqn:Es.
    + destruct (safe_member_path_Ok _ _ Es) as (parts & -> & _). destruct (HI _ _ _ Hi) as (Hd & Hle & _).
      destruct (unpack_item _ _ _ _ _ _ h) as [h1 y] eqn:E.
      apply unpack_item_spec in E as [Hs _]; [|done|done]. specialize (Hstep _ _ _ _ _ _ _ Hi Es Hs).
      destruct y as [s1|e].
      * specialize (IH _ _ _ _ _ H Hstep). destruct x as [s'|]; [|done]. destruct IH as (l' & -> & HI').
        exists (i :: l'). split; [done|]. by rewrite <- app_assoc in HI'.
      * by injection H as <- <-.
    + injection H as <- <-. by apply HI in Hi as (_ & _ & ?).
  - injection H as <- <-. by apply HI in Hi as (_ & _ & ?).
Qed.

(** *** What is in files *)

Definition file_bytes (n : Inode) : option (list N) :=
  match n with RegularFile b _ => Some b | Directory => None end.

Definition contents (n : gmap Place Inode) : gmap Place (list N) := omap file_bytes n.

(** The bytes in all files. *)
Definition stored (n : gmap Place Inode) : N := map_fold (λ _ b total, (nlen b + total)%N) 0%N (contents n).

Lemma lookup_contents n p : contents n !! p = n !! p ≫= file_bytes.
Proof. apply lookup_omap. Qed.

Lemma contents_grows dest ys n n' : grows dest ys n n' → contents n' = contents n.
Proof.
  intros Hg. apply map_eq. intros p. rewrite !lookup_contents. destruct (Hg p) as [->|(-> & -> & _)]; done.
Qed.

Lemma contents_insert (p : Place) (b : list N) m n : contents (<[p := RegularFile b m]> n) = <[p := b]> (contents n).
Proof. unfold contents. by erewrite omap_insert_Some. Qed.

Lemma fold_bytes_insert (p : Place) (b : list N) (c : gmap Place (list N)) :
  (map_fold (λ _ b total, (nlen b + total)%N) 0%N (<[p := b]> c)
   ≤ map_fold (λ _ b total, (nlen b + total)%N) 0%N c + nlen b)%N.
Proof.
  rewrite <- insert_delete_eq, map_fold_insert_L; [|intros; lia|apply lookup_delete_eq].
  destruct (c !! p) as [b0|] eqn:E.
  - rewrite (map_fold_delete_L _ _ p b0 c); [lia|intros; lia|done].
  - rewrite delete_id by done. lia.
Qed.

Lemma stored_file (p : Place) (b : list N) m n : (stored (<[p := RegularFile b m]> n) ≤ stored n + nlen b)%N.
Proof. unfold stored. rewrite contents_insert. apply fold_bytes_insert. Qed.

Lemma stored_grows dest ys n n' : grows dest ys n n' → stored n' = stored n.
Proof. intros Hg. unfold stored. by erewrite contents_grows. Qed.

(** *** Places *)

(** Inside a directory. *)
Definition inside (dest p : Place) : Prop := ∃ x xs, p = dest ++ x :: xs.

Lemma inside_app dest rel : rel ≠ [] → inside dest (dest ++ rel).
Proof. destruct rel as [|x xs]; [done|]. by exists x, xs. Qed.

Lemma grows_elsewhere dest ys n n' p : grows dest ys n n' → ¬ inside dest p → n' !! p = n !! p.
Proof. intros Hg Hp. destruct (Hg p) as [?|(_ & _ & q & Hq & _ & ->)]; [done|]. by destruct Hp; apply inside_app. Qed.

(** The mode a file has under a umask: the one that was set, or what [File::create] makes it with,
    0o666 less the bits of the umask. *)
Definition mode_under (umask : N) (mode : option N) : N :=
  match mode with Some m => m | None => N.ldiff 438 umask end.

(** No other account can rewrite a file inside: the mode it has says so for neither group nor others. *)
Definition guarded (umask : N) (dest : Place) (n : gmap Place Inode) : Prop :=
  ∀ p b mode, inside dest p → n !! p = Some (RegularFile b mode) → N.land (mode_under umask mode) 18 = 0%N.

Lemma guarded_grows umask dest ys n n' : grows dest ys n n' → guarded umask dest n → guarded umask dest n'.
Proof.
  intros Hg Ha p b m Hp Hn. destruct (Hg p) as [He|(_ & He & _)]; rewrite He in Hn; [|done]. by eapply Ha.
Qed.

Lemma created_guarded umask : N.land umask 18 = 18%N → N.land (N.ldiff 438 umask) 18 = 0%N.
Proof.
  intros H. apply N.bits_inj. intros i. apply (f_equal (λ m, N.testbit m i)) in H.
  rewrite N.land_spec in H. rewrite N.land_spec, N.ldiff_spec, N.bits_0. rewrite <- H.
  by destruct (N.testbit 438 i), (N.testbit umask i), (N.testbit 18 i).
Qed.

Lemma guarded_insert umask dest rel chunk mode n n1 :
  N.land umask 18 = 18%N →
  rel ≠ [] → grows dest (removelast rel) n n1 → mode_from (n !! (dest ++ rel)) mode → guarded umask dest n →
  guarded umask dest (<[dest ++ rel := RegularFile chunk mode]> n1).
Proof.
  intros Hu Hrel Hg Hm Ha p b m Hp. destruct (decide (p = dest ++ rel)) as [->|Hne].
  - rewrite lookup_insert_eq. intros [= <- <-]. destruct Hm as [->|[[b0 Hb]|[m0 ->]]].
    + by apply created_guarded.
    + by eapply Ha.
    + cbn. by rewrite <- N.land_assoc, N.land_0_r.
  - rewrite lookup_insert_ne by done. by eapply guarded_grows.
Qed.

Lemma stepped_elsewhere dest limit s i pre parts n n' x p :
  stepped dest limit s i pre parts n n' x → ¬ inside dest p → n' !! p = n !! p.
Proof.
  destruct 1; intros Hp; subst; try done; try by eapply grows_elsewhere.
  all: rewrite lookup_insert_ne by (intros <-; by apply Hp, inside_app); by eapply grows_elsewhere.
Qed.

Lemma dirs_to_kept dest n n' : (∀ p, ¬ inside dest p → n' !! p = n !! p) → dirs_to dest n → dirs_to dest n'.
Proof.
  intros Hk Hd q Hq Hpre. rewrite Hk; [by apply Hd|]. intros (x & xs & ->).
  apply prefix_length in Hpre. rewrite length_app in Hpre. cbn in Hpre. lia.
Qed.

Lemma stepped_guarded umask dest limit s i pre parts n n' x :
  N.land umask 18 = 18%N → stepped dest limit s i pre parts n n' x → guarded umask dest n → guarded umask dest n'.
Proof.
  intros Hu. destruct 1; intros Ha; subst; try done; try by eapply guarded_grows. all: by eapply guarded_insert.
Qed.
