(* ===== verification/ArchiveSafe.v ===== *)
(** * What unpacking a tree promises

    The unpacking of a tree of [fleet-agent/src/archive.rs]: it writes nowhere but inside its directory,
    no more than its budget, and nothing at all of an archive that holds a member it will not write;
    what it leaves is what the archive holds, and an archive that is sound is unpacked. *)

From S2P Require Import Prelude RustStr Archive ArchiveTree.

Create HintDb archive.

Open Scope list_scope.

(** ** The first pass *)

Definition sum_sizes (l : list N) : N := foldr N.add 0%N l.

Lemma accrue_within_Ok total size limit total' :
  accrue_within total size limit = Ok total' → (total' ≤ limit ∧ (limit < u64_max → total' = total + size))%N.
Proof.
  unfold accrue_within, saturating_add. destruct (N.ltb_spec limit (N.min u64_max (total + size))); [done|].
  intros [= <-]. lia.
Qed.

Lemma push_member_Ok members raw out :
  push_member members raw = Ok out →
  ∃ p, safe_member_path raw = Ok p ∧ out = members ++ [p] ∧ (length out ≤ MAX_TREE_MEMBERS)%nat.
Proof.
  unfold push_member. destruct (safe_member_path raw) as [p|]; cbn [bind_result]; [|done].
  destruct (Nat.ltb_spec MAX_TREE_MEMBERS (length (members ++ [p]))); [done|]. intros [= <-]. eauto.
Qed.

(** What the first pass takes of each container: an entry it can read, of a kind it writes, at a path
    it writes to. *)
Definition tar_taken (e : option TarEntry) (p : PathBuf) : Prop :=
  ∃ e' raw, e = Some e' ∧ tar_kind e' ≠ TarOther ∧ tar_path e' = Some raw ∧ safe_member_path raw = Ok p.

Definition seven_taken (e : SevenEntry) (p : PathBuf) : Prop :=
  seven_anti e = false ∧ (∀ a, seven_attributes e = Some a → seven_link a = false) ∧
  safe_member_path (seven_name e) = Ok p.

Definition zip_taken (e : ZipEntry) (p : PathBuf) : Prop :=
  ∃ raw, zip_encrypted e = false ∧ zip_link (zip_mode e) = false ∧ zip_name e = Some raw ∧
    safe_member_path raw = Ok p.

Definition tar_declared (e : option TarEntry) : N := default 0%N (e ≫= tar_size).

Section Listing.
Context (limit : N).

(** What a pass comes to: each entry taken, the members and the declared sizes within their bounds. *)
Definition listed_as {A} (taken : A → PathBuf → Prop) (size : A → N) (declared : N) (members : list PathBuf)
    (entries : list A) (out : list PathBuf) : Prop :=
  ∃ added, out = members ++ added ∧ Forall2 taken entries added ∧
    (length members ≤ MAX_TREE_MEMBERS → length out ≤ MAX_TREE_MEMBERS)%nat ∧
    (limit < u64_max → declared ≤ limit → declared + sum_sizes (size <$> entries) ≤ limit)%N.

Lemma listed_nil {A} (taken : A → PathBuf → Prop) size declared members : listed_as taken size declared members [] members.
Proof.
  exists []. rewrite app_nil_r. split_and!; [done|constructor|done|]. change (sum_sizes _) with 0%N. lia.
Qed.

Lemma listed_cons {A} (taken : A → PathBuf → Prop) size declared d1 members m1 p e entries out :
  taken e p → m1 = members ++ [p] → (length m1 ≤ MAX_TREE_MEMBERS)%nat → (d1 ≤ limit ∧ (limit < u64_max → d1 = declared + size e))%N →
  listed_as taken size d1 m1 entries out → listed_as taken size declared members (e :: entries) out.
Proof.
  intros Ht -> Hm [Hd Hsum] (added & -> & Hf & Hl & Hs). exists (p :: added). rewrite <- app_assoc in *.
  split_and!; [done|by constructor|auto|]. intros Hb _. specialize (Hs Hb Hd). rewrite (Hsum Hb) in Hs.
  change (sum_sizes (size <$> e :: entries)) with (size e + sum_sizes (size <$> entries))%N. lia.
Qed.

Lemma list_tar_Ok entries : ∀ declared members out,
  list_tar limit declared members entries = Ok out → listed_as tar_taken tar_declared declared members entries out.
Proof.
  induction entries as [|[e|] entries IH]; intros declared members out; cbn; [intros [= <-]; apply listed_nil| |done].
  destruct (accrue_within _ _ _) as [d1|] eqn:Ea; cbn; [|done]. apply accrue_within_Ok in Ea.
  destruct (tar_kind e) eqn:Ek; [| |done]; (destruct (tar_path e) as [raw|] eqn:Ep; [|done]);
    (destruct (push_member members raw) as [m1|] eqn:Em; cbn; [|done]);
    apply push_member_Ok in Em as (p & Hp & -> & Hl); intros H%IH; eapply listed_cons; try done;
    exists e, raw; split_and!; congruence.
Qed.

Lemma list_seven_Ok entries : ∀ declared members out,
  list_seven limit declared members entries = Ok out → listed_as seven_taken seven_size declared members entries out.
Proof.
  induction entries as [|e entries IH]; intros declared members out; cbn; [intros [= <-]; apply listed_nil|].
  destruct (accrue_within _ _ _) as [d1|] eqn:Ea; cbn; [|done]. apply accrue_within_Ok in Ea.
  destruct (seven_anti e) eqn:Ek; [done|].
  destruct (match seven_attributes e with Some a => seven_link a | None => false end) eqn:El; [done|].
  destruct (push_member members _) as [m1|] eqn:Em; cbn; [|done].
  apply push_member_Ok in Em as (p & Hp & -> & Hl). intros H%IH. eapply listed_cons; try done.
  split_and!; [done| |done]. intros a Ha. by rewrite Ha in El.
Qed.

Lemma list_zip_Ok entries : ∀ declared members out,
  list_zip limit declared members entries = Ok out → listed_as zip_taken zip_size declared members entries out.
Proof.
  induction entries as [|e entries IH]; intros declared members out; cbn; [intros [= <-]; apply listed_nil|].
  destruct (zip_reads e); cbn; [|done].
  destruct (accrue_within _ _ _) as [d1|] eqn:Ea; cbn; [|done]. apply accrue_within_Ok in Ea.
  unfold refuse_encrypted. destruct (zip_encrypted e) eqn:Ee; cbn; [done|].
  destruct (zip_name e) as [raw|] eqn:En; [|done]. destruct (zip_link _) eqn:El; [done|].
  destruct (push_member members _) as [m1|] eqn:Em; cbn; [|done].
  apply push_member_Ok in Em as (p & Hp & -> & Hl). intros H%IH. eapply listed_cons; try done.
  exists raw. split_and!; done.
Qed.
End Listing.

(** Errors of the first pass are no panic. *)
Lemma safe_parts_Err raw l : ∀ safe e, safe_parts raw l safe = Err e → e ≠ Overflowed.
Proof. induction l as [|[] l IH]; intros safe e; cbn; [done|by intros [= <-]|apply IH|by intros [= <-]|apply IH]. Qed.

Lemma safe_member_path_Err raw e : safe_member_path raw = Err e → e ≠ Overflowed.
Proof.
  unfold safe_member_path. destruct (safe_parts _ _ _) as [safe|e'] eqn:E; cbn.
  - destruct safe; [by intros [= <-]|done].
  - intros [= <-]. by eapply safe_parts_Err.
Qed.

Lemma push_member_Err members raw e : push_member members raw = Err e → e ≠ Overflowed.
Proof.
  unfold push_member. destruct (safe_member_path raw) as [p|e'] eqn:E; cbn [bind_result].
  - destruct (MAX_TREE_MEMBERS <? _)%nat; [by intros [= <-]|done].
  - intros [= <-]. by eapply safe_member_path_Err.
Qed.

Lemma accrue_within_Err total size limit e : accrue_within total size limit = Err e → e ≠ Overflowed.
Proof. unfold accrue_within. destruct (_ <? _)%N; [by intros [= <-]|done]. Qed.

#[local] Hint Resolve safe_member_path_Err push_member_Err accrue_within_Err : archive.

Lemma list_tar_Err limit entries : ∀ declared members e, list_tar limit declared members entries = Err e → e ≠ Overflowed.
Proof.
  induction entries as [|[t|] entries IH]; intros declared members e; cbn; [done| |by intros [= <-]].
  destruct (accrue_within _ _ _) as [d1|] eqn:Ea; cbn; [|intros [= <-]; by eauto with archive].
  destruct (tar_kind t); [| |by intros [= <-]]; (destruct (tar_path t) as [raw|]; [|by intros [= <-]]);
    (destruct (push_member members raw) as [m1|] eqn:Em; cbn; [apply IH|intros [= <-]; by eauto with archive]).
Qed.

Lemma list_seven_Err limit entries : ∀ declared members e, list_seven limit declared members entries = Err e → e ≠ Overflowed.
Proof.
  induction entries as [|t entries IH]; intros declared members e; cbn; [done|].
  destruct (accrue_within _ _ _) as [d1|] eqn:Ea; cbn; [|intros [= <-]; by eauto with archive].
  destruct (seven_anti t); [by intros [= <-]|].
  destruct (match seven_attributes t with Some _ => _ | None => _ end); [by intros [= <-]|].
  destruct (push_member members _) as [m1|] eqn:Em; cbn; [apply IH|intros [= <-]; by eauto with archive].
Qed.

Lemma list_zip_Err limit entries : ∀ declared members e, list_zip limit declared members entries = Err e → e ≠ Overflowed.
Proof.
  induction entries as [|t entries IH]; intros declared members e; cbn; [done|].
  destruct (zip_reads t); cbn; [|by intros [= <-]].
  destruct (accrue_within _ _ _) as [d1|] eqn:Ea; cbn; [|intros [= <-]; by eauto with archive].
  unfold refuse_encrypted. destruct (zip_encrypted t); cbn; [by intros [= <-]|].
  destruct (zip_name t); [|by intros [= <-]]. destruct (zip_link _); [by intros [= <-]|].
  destruct (push_member members _) as [m1|] eqn:Em; cbn; [apply IH|intros [= <-]; by eauto with archive].
Qed.

(** ** What is written *)

Section Trees.
Context (crates : Containers).

Definition is_names (p : PathBuf) : Prop := ∃ parts, p = names parts.

Lemma taken_names {A} (taken : A → PathBuf → Prop) limit size entries out :
  (∀ e p, taken e p → ∃ raw, safe_member_path raw = Ok p) →
  listed_as limit taken size 0 [] entries out → Forall is_names out.
Proof.
  intros Ht (added & -> & Hf & _). cbn. clear -Ht Hf.
  induction Hf as [|e p entries added Hp Hf IH]; constructor; [|done].
  destruct (Ht _ _ Hp) as [raw (parts & -> & _)%safe_member_path_Ok]. by exists parts.
Qed.

Lemma listing_names c limit members : listing crates c limit = Ok members → Forall is_names members.
Proof.
  destruct c as [listed archive|listed archive key|archive]; cbn.
  - unfold list_tar_gz. destruct (open_tar_gz _ _ _) as [tar|]; cbn; [|done].
    destruct (tar_entries _ tar) as [entries|]; cbn; [|done]. intros H%list_tar_Ok.
    eapply taken_names; [|exact H]. intros e p (e' & raw & _ & _ & _ & ?). by exists raw.
  - unfold list_7z. destruct (open_7z _ _ _) as [reader|]; cbn; [|done]. intros H%list_seven_Ok.
    eapply taken_names; [|exact H]. intros e p (_ & _ & ?). by eexists.
  - destruct (open_zip _ _) as [zip|]; cbn; [|done]. intros H%list_zip_Ok.
    eapply taken_names; [|exact H]. intros e p (raw & _ & _ & _ & ?). by exists raw.
Qed.

Lemma app_is_names l k : is_names (l ++ k) → is_names l ∧ is_names k.
Proof.
  intros [parts H]. revert parts H. induction l as [|c l IH]; intros parts H; cbn in *.
  { split; [by exists []|by exists parts]. }
  destruct parts as [|part parts]; [done|]. injection H as -> H. destruct (IH _ H) as [[l' ->] Hk].
  split; [by exists (part :: l')|done].
Qed.

Lemma located_names members program prefix :
  Forall is_names members → locate_program members program = Ok prefix →
  ∃ pre prog, prefix = names pre ∧ program = names prog ∧ prog ≠ [].
Proof.
  intros Hm (Hne & Hf)%locate_program_Ok.
  assert (prefix ++ program ∈ members) as Hin.
  { apply list_elem_of_In, (proj1 (List.filter_In (λ m, ends_with_components m program) _ _)).
    rewrite Hf. by left. }
  rewrite Forall_forall in Hm. destruct (app_is_names _ _ (Hm _ Hin)) as [[pre ->] [prog ->]].
  exists pre, prog. split_and!; [done|done|]. by intros ->.
Qed.

(** An extraction is refused as it was found, or it is a walk below names. *)
Lemma extract_tree_cases c program dest limit h h' x :
  extract_tree_within crates c program dest limit h = (h', x) →
  (∃ e, x = Err e ∧ e ≠ Overflowed ∧ h' = h) ∨
  ∃ members pre prog items, listing crates c limit = Ok members ∧ program = names prog ∧ prog ≠ [] ∧
    locate_program members program = Ok (names pre) ∧ walk crates c limit = Ok items ∧
    unpack_items (names pre) dest limit summary_default items h = (h', x).
Proof.
  rewrite extract_tree_walk. unfold eff_bind, eff_of.
  destruct (listing crates c limit) as [members|e] eqn:El.
  2:{ intros [= <- <-]. left. exists e. split_and!; [done| |done]. destruct c as [listed archive|listed archive key|archive]; cbn in El; revert El.
      - unfold list_tar_gz, open_tar_gz, tar_entries. destruct listed as [b|]; cbn; [|by intros [= <-]].
        destruct (passed_on _) as [bytes broken]. destruct (untar _ _ _); cbn; [apply list_tar_Err|by intros [= <-]].
      - unfold list_7z, open_7z. destruct listed as [b|]; cbn; [|by intros [= <-]].
        destruct (un7z _ _ _) as [reader|[]]; cbn; [apply list_seven_Err|by intros [= <-]..].
      - unfold open_zip. destruct archive as [b|]; cbn; [|by intros [= <-]].
        destruct (unzip _ _) as [zip|]; cbn; [apply list_zip_Err|by intros [= <-]]. }
  destruct (locate_program members program) as [prefix|e] eqn:Ep.
  2:{ intros [= <- <-]. left. exists e. split_and!; [done| |done]. revert Ep. unfold locate_program.
      destruct (List.filter _ _) as [|one [|two more]]; by intros [= <-]. }
  destruct (located_names _ _ _ (listing_names _ _ _ El) Ep) as (pre & prog & -> & -> & Hne).
  destruct (walk crates c limit) as [items|e] eqn:Ew.
  - intros H. right. exists members, pre, prog, items. split_and!; done.
  - intros [= <- <-]. left. exists e. split_and!; [done| |done]. destruct c as [listed archive|listed archive key|archive]; cbn in Ew; revert Ew.
    + unfold open_tar_gz, tar_entries. destruct archive as [b|]; cbn; [|by intros [= <-]].
      destruct (passed_on _) as [bytes broken]. by destruct (untar _ _ _); intros [= <-].
    + unfold open_7z. destruct archive as [b|]; cbn; [|by intros [= <-]].
      destruct (un7z _ _ _) as [reader|[]]; cbn; by intros [= <-].
    + unfold open_zip. destruct archive as [b|]; cbn; [|by intros [= <-]].
      destruct (unzip _ _) as [zip|]; cbn; by intros [= <-].
Qed.

Lemma stepped_Ok_bytes dest limit s i pre parts n n' s' :
  stepped dest limit s i pre parts n n' (Ok s') → (bytes s ≤ limit)%N →
  (bytes s ≤ bytes s' ≤ limit ∧ stored n' + bytes s ≤ stored n + bytes s')%N.
Proof.
  inversion_clear 1; subst; intros Hle; cbn [bytes]; try lia.
  - erewrite (stored_grows dest rel n n') by done. lia.
  - pose proof (stored_file (dest ++ rel) (rest (item_data i)) mode n1) as Hs.
    erewrite (stored_grows dest _ n n1) in Hs by done. lia.
Qed.

Lemma stepped_Err_bytes dest limit s i pre parts n n' e :
  stepped dest limit s i pre parts n n' (Err e) → (bytes s ≤ limit)%N →
  (stored n' + bytes s ≤ stored n + limit)%N.
Proof.
  inversion_clear 1; subst; intros Hle.
  - erewrite (stored_grows dest rel n n') by done. lia.
  - pose proof (stored_file (dest ++ rel) chunk mode n1) as Hs.
    erewrite (stored_grows dest _ n n1) in Hs by done. lia.
Qed.

Lemma unpack_items_no_panic pre dest limit items : ∀ s h h' e,
  Forall (λ r, r ≠ Err Overflowed) items → dirs_to dest (nodes h) → (bytes s ≤ limit)%N →
  unpack_items (names pre) dest limit s items h = (h', Err e) → e ≠ Overflowed.
Proof.
  induction items as [|[i|e0] items IH]; intros s h h' e Hf Hd Hle; cbn; [done| |].
  - apply Forall_cons_1 in Hf as [_ Hf]. unfold eff_of, eff_bind.
    destruct (safe_member_path (item_raw i)) as [member|e1] eqn:Es; [|intros [= _ <-]; by eauto with archive].
    destruct (safe_member_path_Ok _ _ Es) as (parts & -> & _).
    destruct (unpack_item _ _ _ _ _ _ h) as [h1 y] eqn:E. apply unpack_item_spec in E as [Hs _]; [|done|done].
    destruct y as [s1|e1]; [|intros [= _ <-]; by inversion Hs].
    apply IH; [done| |by eapply stepped_Ok_bytes]. eapply dirs_to_kept; [|done]. intros p. by eapply stepped_elsewhere.
  - intros [= _ <-]. apply Forall_cons_1 in Hf as [Hf _]. by intros ->.
Qed.

Lemma walk_no_panic c limit items : walk crates c limit = Ok items → Forall (λ r, r ≠ Err Overflowed) items.
Proof.
  assert (∀ {A} (f : A → result Item ArchiveError) l, (∀ a, f a ≠ Err Overflowed) →
    Forall (λ r, r ≠ Err Overflowed) (f <$> l)) as Hf.
  { intros A f l Hf. induction l; constructor; auto. }
  destruct c as [listed archive|listed archive key|archive]; cbn; repeat (destruct (_ : result _ _); cbn; [|done]).
  all: repeat match goal with |- context [bind_result ?r _] => destruct r; cbn; [|done] end; intros [= <-]; apply Hf.
  - intros [e|]; unfold tar_item; [by destruct (tar_path e)|done].
  - by intros [[e reader]|].
  - intros e. unfold zip_item. by destruct (zip_opened e), (zip_name e).
Qed.

(** C10: whatever an archive holds, and whatever its file holds by the time it is read the second time,
    unpacking it as a tree writes nothing outside the directory it unpacks into, whether it is
    answered or fails and whichever calls fail; and under a umask that keeps group and others from
    writing what is created, no file it leaves there has a mode under which another account could
    rewrite it, whether the mode was set or is the one a created file gets, if none did before. *)
Theorem trees_stay_in_their_directory (c : Packed) (program : PathBuf) (dest : Place) (limit : N) (h h' : Host)
    (x : result TreeSummary ArchiveError) :
  extract_tree_within crates c program dest limit h = (h', x) → dirs_to dest (nodes h) →
  (∀ p, ¬ inside dest p → nodes h' !! p = nodes h !! p) ∧
  (∀ umask, N.land umask 18 = 18%N → guarded umask dest (nodes h) → guarded umask dest (nodes h')).
Proof.
  intros [(e & _ & _ & ->)|(members & pre & prog & items & _ & _ & _ & _ & _ & H)]%extract_tree_cases Hd; [done|].
  set (kept (n : gmap Place Inode) := (∀ p, ¬ inside dest p → n !! p = nodes h !! p) ∧
    (∀ umask, N.land umask 18 = 18%N → guarded umask dest (nodes h) → guarded umask dest n)).
  assert (match x with Ok s => ∃ l, items = Ok <$> l ∧ (kept (nodes h') ∧ (bytes s ≤ limit)%N)
          | Err _ => kept (nodes h') end) as Hx.
  { eapply (unpack_items_run (λ _ s n, kept n ∧ (bytes s ≤ limit)%N) kept) with (l := []); [| |exact H|].
    - intros _ s n [[Hk Hgn] Hle]. split_and!; [by eapply dirs_to_kept|done|by split].
    - intros _ s n i parts n' y [[Hk Hgn] Hle] _ Hs.
      assert (kept n') as Hk'.
      { split; [|intros umask Hu Hg; eapply stepped_guarded; [done..|by apply Hgn]]. intros p Hp. rewrite <- Hk by done. by eapply stepped_elsewhere. }
      destruct y as [s'|]; [|done]. split; [done|]. by eapply stepped_Ok_bytes.
    - split; [by split|cbn; lia]. }
  destruct x as [s|]; [|done]. by destruct Hx as (l & _ & Hx & _).
Qed.

(** C22: unpacking a tree keeps to its budget: whatever the archive declares of itself, answered or
    failed, the files of the host hold no more bytes than they did and the limit, no subtraction of
    the budget goes below zero, and what is told of the bytes written accounts for them. *)
Theorem trees_stay_within_their_budget (c : Packed) (program : PathBuf) (dest : Place) (limit : N) (h h' : Host)
    (x : result TreeSummary ArchiveError) :
  extract_tree_within crates c program dest limit h = (h', x) → dirs_to dest (nodes h) →
  (stored (nodes h') ≤ stored (nodes h) + limit)%N ∧ x ≠ Err Overflowed ∧
  ∀ s, x = Ok s → (bytes s ≤ limit)%N ∧ (stored (nodes h') ≤ stored (nodes h) + bytes s)%N.
Proof.
  intros [(e & -> & He & ->)|(members & pre & prog & items & _ & _ & _ & _ & Hw & H)]%extract_tree_cases Hd.
  { split_and!; [lia|congruence|done]. }
  assert (x ≠ Err Overflowed) as Hp.
  { intros ->. apply unpack_items_no_panic in H; [done|by eapply walk_no_panic|done|cbn; lia]. }
  set (kept (n : gmap Place Inode) := ∀ p, ¬ inside dest p → n !! p = nodes h !! p).
  assert (match x with
          | Ok s => ∃ l, items = Ok <$> l ∧
              (kept (nodes h') ∧ (bytes s ≤ limit)%N ∧ (stored (nodes h') ≤ stored (nodes h) + bytes s)%N)
          | Err _ => (stored (nodes h') ≤ stored (nodes h) + limit)%N end) as Hx.
  { eapply (unpack_items_run (λ _ s n, kept n ∧ (bytes s ≤ limit)%N ∧ (stored n ≤ stored (nodes h) + bytes s)%N)
      (λ n, (stored n ≤ stored (nodes h) + limit)%N)) with (l := []); [| |exact H|].
    - intros _ s n (Hk & Hle & Hs). split_and!; [by eapply dirs_to_kept|done|lia].
    - intros _ s n i parts n' y (Hk & Hle & Hst) _ Hs. destruct y as [s'|e].
      + destruct (stepped_Ok_bytes _ _ _ _ _ _ _ _ _ Hs Hle) as [[? ?] ?]. split_and!; [|done|lia].
        intros p Hp'. rewrite <- Hk by done. by eapply stepped_elsewhere.
      + pose proof (stepped_Err_bytes _ _ _ _ _ _ _ _ _ Hs Hle). lia.
    - split_and!; [done|cbn; lia|lia]. }
  destruct x as [s|]; [|done]. destruct Hx as (l & _ & _ & Hle & Hs). split_and!; [lia|done|].
  by intros s' [= <-].
Qed.

(** ** What is refused *)

(** A path that would leave the directory it is unpacked into. *)
Definition unwritable (raw : string) : Prop := ParentDir ∈ components raw ∨ RootDir ∈ components raw.

Lemma unwritable_refused raw p : unwritable raw → safe_member_path raw ≠ Ok p.
Proof.
  intros Hu Hp. assert (is_ok (safe_member_path raw) = false) as Hf
    by (destruct Hu as [Hu|Hu]; eapply unsafe_path_refused; eauto).
  by rewrite Hp in Hf.
Qed.

(** Past what a tree may hold. *)
Definition too_much {A} (size : A → N) (limit : N) (entries : list A) : Prop :=
  (MAX_TREE_MEMBERS < length entries)%nat ∨ (limit < sum_sizes (size <$> entries))%N.

Lemma listed_not_too_much {A} (taken : A → PathBuf → Prop) size limit entries out :
  (limit < u64_max)%N → listed_as limit taken size 0 [] entries out → ¬ too_much size limit entries.
Proof.
  intros Hb (added & -> & Hf & Hl & Hs) [Hm|Hm].
  - specialize (Hl (Nat.le_0_l _)). rewrite app_nil_l in Hl. apply Forall2_length in Hf. lia.
  - specialize (Hs Hb ltac:(lia)). lia.
Qed.

Lemma listed_taken {A} (taken : A → PathBuf → Prop) size limit entries out e :
  listed_as limit taken size 0 [] entries out → e ∈ entries → ∃ p, taken e p.
Proof.
  intros (added & _ & Hf & _) He. clear -Hf He.
  induction Hf as [|e' p entries added Hp Hf IH]; [by apply elem_of_nil in He|].
  apply elem_of_cons in He as [->|He]; eauto.
Qed.

(** The archive holds what no tree may: a link, an item that deletes, an encrypted member, a path that
    leads outside, too many members, or more bytes than the limit by its own account. *)
Definition forbidden (c : Packed) (limit : N) : Prop :=
  match c with
  | PackedTarGz listed _ => ∃ tar entries,
      open_tar_gz crates listed limit = Ok tar ∧ tar_entries crates tar = Ok entries ∧
      ((∃ e, Some e ∈ entries ∧ (tar_kind e = TarOther ∨ ∃ raw, tar_path e = Some raw ∧ unwritable raw)) ∨
       too_much tar_declared limit entries)
  | Packed7z listed _ key => ∃ reader,
      open_7z crates listed key = Ok reader ∧
      ((∃ e, e ∈ seven_files reader ∧
          (seven_anti e = true ∨ (∃ a, seven_attributes e = Some a ∧ seven_link a = true) ∨ unwritable (seven_name e))) ∨
       too_much seven_size limit (seven_files reader))
  | PackedZip archive => ∃ zip,
      open_zip crates archive = Ok zip ∧
      ((∃ e, e ∈ zip ∧ (zip_encrypted e = true ∨ zip_link (zip_mode e) = true ∨
          ∃ raw, zip_name e = Some raw ∧ unwritable raw)) ∨
       too_much zip_size limit zip)
  end.

Lemma forbidden_not_listed c limit members :
  (limit < u64_max)%N → forbidden c limit → listing crates c limit ≠ Ok members.
Proof.
  intros Hb Hf Hl. destruct c as [listed archive|listed archive key|archive]; cbn in Hf, Hl.
  - destruct Hf as (tar & entries & Ho & He & Hbad). unfold list_tar_gz in Hl. rewrite Ho in Hl. cbn in Hl.
    rewrite He in Hl. cbn in Hl. apply list_tar_Ok in Hl.
    destruct Hbad as [(e & Hin & Hbad)|Hbad]; [|by eapply listed_not_too_much].
    destruct (listed_taken _ _ _ _ _ _ Hl Hin) as (p & e' & raw & [= <-] & Hk & Hp & Hs).
    destruct Hbad as [?|(raw' & Hp' & Hu)]; [done|]. simplify_eq. by eapply unwritable_refused.
  - destruct Hf as (reader & Ho & Hbad). unfold list_7z in Hl. rewrite Ho in Hl. cbn in Hl. apply list_seven_Ok in Hl.
    destruct Hbad as [(e & Hin & Hbad)|Hbad]; [|by eapply listed_not_too_much].
    destruct (listed_taken _ _ _ _ _ _ Hl Hin) as (p & Ha & Hlk & Hs).
    destruct Hbad as [?|[(a & Hat & Hk)|Hu]]; [congruence| |by eapply unwritable_refused].
    specialize (Hlk a Hat). congruence.
  - destruct Hf as (zip & Ho & Hbad). rewrite Ho in Hl. cbn in Hl. apply list_zip_Ok in Hl.
    destruct Hbad as [(e & Hin & Hbad)|Hbad]; [|by eapply listed_not_too_much].
    destruct (listed_taken _ _ _ _ _ _ Hl Hin) as (p & raw & He & Hk & Hn & Hs).
    destruct Hbad as [?|[?|(raw' & Hn' & Hu)]]; [congruence|congruence|]. simplify_eq. by eapply unwritable_refused.
Qed.

(** C23: one member that may not be written refuses the whole archive before anything is written: a
    link, an item that deletes, an encrypted member, a path with [..] or from the root, wherever among
    the members it stands, and so do too many members, or sizes that the archive itself declares past
    the limit. *)
Theorem forbidden_members_refuse_the_archive (c : Packed) (program : PathBuf) (dest : Place) (limit : N) (h : Host) :
  (limit < u64_max)%N → forbidden c limit →
  ∃ e, extract_tree_within crates c program dest limit h = (h, Err e).
Proof.
  intros Hb Hf. rewrite extract_tree_walk. unfold eff_bind, eff_of.
  destruct (listing crates c limit) as [members|e] eqn:El; [by apply forbidden_not_listed in El|by exists e].
Qed.
End Trees.
