(* ===== verification/ArchiveContents.v ===== *)
(** * What an unpacked tree holds

    The files an unpacking of [fleet-agent/src/archive.rs] leaves, against a reference: the members
    under the directory of the program, in the order of the archive, the last of a path standing. *)

From S2P Require Import Prelude RustStr Archive ArchiveTree ArchiveSafe.

Open Scope list_scope.

(** ** The reference *)

(** Where an item goes below the directory of the program. *)
Definition relative (pre : Place) (i : Item) : option Place :=
  match safe_member_path (item_raw i) with
  | Ok p =>
      match strip (names pre) p with
      | Some (c :: r) => Some (omap (λ c, match c with Normal part => Some part | _ => None end) (c :: r))
      | _ => None
      end
  | Err _ => None
  end.

Definition put_item (pre : Place) (t : gmap Place (list N)) (i : Item) : gmap Place (list N) :=
  match relative pre i with
  | Some rel => if item_dir i then t else <[rel := rest (item_data i)]> t
  | None => t
  end.

Definition tree_of (pre : Place) (items : list Item) : gmap Place (list N) := foldl (put_item pre) ∅ items.

Lemma parts_names parts : omap (λ c, match c with Normal part => Some part | _ => None end) (names parts) = parts.
Proof. induction parts as [|part parts IH]; [done|]. cbn. f_equal. exact IH. Qed.

Lemma relative_Some pre i rel parts :
  safe_member_path (item_raw i) = Ok (names parts) → relative pre i = Some rel ↔ parts = pre ++ rel ∧ rel ≠ [].
Proof.
  intros Hp. unfold relative. rewrite Hp. destruct (strip (names pre) (names parts)) as [r|] eqn:E.
  - destruct (strip_names _ _ _ E) as (rl & -> & ->). destruct rl as [|a rl].
    + cbn. split; [done|]. intros [H%app_inv_head Hne]. by subst.
    + change (names (a :: rl)) with (Normal a :: names rl). cbv beta iota.
      change (Normal a :: names rl) with (names (a :: rl)). rewrite parts_names. split.
      * by intros [= <-].
      * intros [H%app_inv_head _]. by subst.
  - split; [done|]. intros [-> _]. by rewrite strip_names_eq in E.
Qed.

Lemma relative_None pre i parts :
  safe_member_path (item_raw i) = Ok (names parts) → ¬ (∃ rel, parts = pre ++ rel ∧ rel ≠ []) → relative pre i = None.
Proof.
  intros Hp Hn. destruct (relative pre i) as [rel|] eqn:E; [|done].
  apply (relative_Some _ _ _ _ Hp) in E. destruct Hn. eauto.
Qed.

(** One item is put where the reference has it. *)
Lemma stepped_put dest limit s i pre parts n n' s' t :
  stepped dest limit s i pre parts n n' (Ok s') → safe_member_path (item_raw i) = Ok (names parts) →
  (∀ rel, rel ≠ [] → contents n !! (dest ++ rel) = t !! rel) →
  ∀ rel, rel ≠ [] → contents n' !! (dest ++ rel) = put_item pre t i !! rel.
Proof.
  intros Hs Hp Ht rel Hrel. unfold put_item. inversion Hs as [Hout He|Hr He|r Hr Hne Hdir Hg| | |r n1 mode Hr Hne Hdir Hg _ _ He]; subst.
  - rewrite (relative_None pre i parts Hp); [by apply Ht|]. intros (r & -> & _). by apply Hout, prefix_app_r.
  - rewrite (relative_None pre i pre Hp); [by apply Ht|]. intros (r & Hr & Hne).
    rewrite <- (app_nil_r pre) in Hr at 1. by apply app_inv_head in Hr as <-.
  - rewrite (proj2 (relative_Some pre i r _ Hp)) by done. rewrite Hdir. erewrite contents_grows by done. by apply Ht.
  - rewrite (proj2 (relative_Some pre i r _ Hp)) by done. rewrite Hdir, contents_insert.
    destruct (decide (rel = r)) as [->|Hneq]; [by rewrite !lookup_insert_eq|].
    rewrite !lookup_insert_ne; [|done|by intros ?%app_inv_head].
    erewrite contents_grows by done. by apply Ht.
Qed.

Lemma tree_of_snoc pre l i : tree_of pre (l ++ [i]) = put_item pre (tree_of pre l) i.
Proof. unfold tree_of. by rewrite foldl_app. Qed.

(** ** The program *)

(** The items and the paths the first pass took for them. *)
Definition paths_of (l : list Item) (ps : list PathBuf) : Prop :=
  Forall2 (λ i p, safe_member_path (item_raw i) = Ok p) l ps.

Lemma paths_of_split l ps p l1 l2 :
  paths_of l ps → ps = l1 ++ p :: l2 →
  ∃ k1 i k2, l = k1 ++ i :: k2 ∧ paths_of k1 l1 ∧ safe_member_path (item_raw i) = Ok p ∧ paths_of k2 l2.
Proof.
  intros Hf ->. apply Forall2_app_inv_r in Hf as (k1 & k & H1 & H2 & ->).
  apply Forall2_cons_inv_r in H2 as (i & k2 & Hi & H2 & ->). by exists k1, i, k2.
Qed.

Lemma put_other pre l ps rel t :
  paths_of l ps → rel ≠ [] → names (pre ++ rel) ∉ ps → foldl (put_item pre) t l !! rel = t !! rel.
Proof.
  intros Hf Hrel. revert t. induction Hf as [|i p l ps Hp Hf IH]; intros t Hn; [done|]. cbn.
  rewrite not_elem_of_cons in Hn. destruct Hn as [Hne Hn]. rewrite IH by done. unfold put_item.
  destruct (relative pre i) as [r|] eqn:E; [|done]. destruct (item_dir i); [done|].
  apply lookup_insert_ne. intros ->. destruct (safe_member_path_Ok _ _ Hp) as (parts & -> & _).
  apply (relative_Some _ _ _ _ Hp) in E as [-> _]. done.
Qed.

Lemma tree_of_single pre l ps rel k1 i k2 l1 l2 :
  l = k1 ++ i :: k2 → ps = l1 ++ names (pre ++ rel) :: l2 → paths_of k1 l1 → paths_of k2 l2 →
  safe_member_path (item_raw i) = Ok (names (pre ++ rel)) → rel ≠ [] →
  names (pre ++ rel) ∉ l1 → names (pre ++ rel) ∉ l2 →
  tree_of pre l !! rel = if item_dir i then None else Some (rest (item_data i)).
Proof.
  intros -> -> H1 H2 Hi Hrel Hn1 Hn2. unfold tree_of. rewrite foldl_app. cbn. rewrite (put_other _ _ l2) by done.
  unfold put_item at 1. rewrite (proj2 (relative_Some pre i rel _ Hi)) by done. destruct (item_dir i).
  - rewrite (put_other _ _ l1) by done. apply lookup_empty.
  - apply lookup_insert_eq.
Qed.

Definition path_of (raw : string) : PathBuf := match safe_member_path raw with Ok p => p | Err _ => [] end.

Lemma paths_of_fmap l ps : paths_of l ps → ps = (λ i, path_of (item_raw i)) <$> l.
Proof. induction 1 as [|i p l ps Hp Hf IH]; [done|]. cbn. unfold path_of at 1. by rewrite Hp, <- IH. Qed.

Lemma fmap_paths_of l : Forall (λ i, is_ok (safe_member_path (item_raw i)) = true) l →
  paths_of l ((λ i, path_of (item_raw i)) <$> l).
Proof.
  induction 1 as [|i l Hi Hl IH]; constructor; [|exact IH]. unfold path_of. by destruct (safe_member_path _).
Qed.

Lemma filter_permuted {A} (f : A → bool) l k : l ≡ₚ k → List.filter f l ≡ₚ List.filter f k.
Proof.
  induction 1 as [|x l k H IH|x y l|l k m H1 IH1 H2 IH2]; cbn.
  - done.
  - destruct (f x); [by constructor|done].
  - destruct (f x), (f y); try done. apply Permutation_swap.
  - by etransitivity.
Qed.

Lemma filter_single {A} (f : A → bool) l p :
  List.filter f l = [p] → ∃ l1 l2, l = l1 ++ p :: l2 ∧ p ∉ l1 ∧ p ∉ l2.
Proof.
  intros Hl. assert (p ∈ l ∧ f p = true) as [Hin Hp].
  { rewrite !list_elem_of_In. apply List.filter_In. rewrite Hl. by left. }
  destruct (list_elem_of_split _ _ Hin) as (l1 & l2 & ->). exists l1, l2. split; [done|].
  rewrite List.filter_app in Hl. cbn in Hl. rewrite Hp in Hl.
  assert (∀ k, p ∈ k → List.filter f k ≠ []) as Hne.
  { intros k Hk Hn. rewrite list_elem_of_In in Hk. pose proof (proj2 (List.filter_In f p k) (conj Hk Hp)) as Hf.
    by rewrite Hn in Hf. }
  destruct (List.filter f l1) as [|a [|b k]] eqn:E1; cbn in Hl.
  - injection Hl as E2. split; intros Hk; by eapply Hne.
  - by simplify_eq/=.
  - by simplify_eq/=.
Qed.

Section Holds.
Context (crates : Containers).

(** Both passes read the same: the file did not change in between, and the walk over a [.7z] hands out
    the entries of its header, in whatever order. *)
Definition one_read (c : Packed) : Prop :=
  match c with
  | PackedTarGz listed archive => listed = archive
  | Packed7z listed archive key => listed = archive ∧
      ∀ reader, open_7z crates archive key = Ok reader → omap (fmap fst) (seven_walk reader) ≡ₚ seven_files reader
  | PackedZip _ => True
  end.

Lemma tar_paths (entries : list (option TarEntry)) (l : list Item) members : tar_item <$> entries = Ok <$> l → Forall2 tar_taken entries members → paths_of l members.
Proof.
  intros Hl Hf. revert l Hl. induction Hf as [|e p entries members He Hf IH]; intros [|i l]; cbn; [constructor|done..|].
  intros [= Hi Hl]. constructor; [|by apply IH]. destruct He as (e' & raw & -> & _ & Hp & Hs).
  unfold tar_item in Hi. rewrite Hp in Hi. by injection Hi as <-.
Qed.

Lemma zip_paths (entries : list ZipEntry) (l : list Item) members : zip_item <$> entries = Ok <$> l → Forall2 zip_taken entries members → paths_of l members.
Proof.
  intros Hl Hf. revert l Hl. induction Hf as [|e p entries members He Hf IH]; intros [|i l]; cbn; [constructor|done..|].
  intros [= Hi Hl]. constructor; [|by apply IH]. destruct He as (raw & _ & _ & Hp & Hs).
  unfold zip_item in Hi. rewrite Hp in Hi. destruct (zip_opened e); [|done]. by injection Hi as <-.
Qed.

Lemma seven_names (walk : list (option (SevenEntry * Reader))) (l : list Item) : seven_item <$> walk = Ok <$> l → seven_name <$> omap (fmap fst) walk = item_raw <$> l.
Proof.
  revert l. induction walk as [|[[e reader]|] walk IH]; intros [|i l]; cbn; try done.
  intros [= <- Hl]. cbn. f_equal. by apply IH.
Qed.

Lemma seven_paths (walk : list (option (SevenEntry * Reader))) (l : list Item) files members :
  seven_item <$> walk = Ok <$> l → omap (fmap fst) walk ≡ₚ files → Forall2 seven_taken files members →
  ∃ ps, paths_of l ps ∧ ps ≡ₚ members.
Proof.
  intros Hl Hp Hf. exists ((λ i, path_of (item_raw i)) <$> l).
  assert (members = path_of <$> (seven_name <$> files) ∧
    Forall (λ raw, is_ok (safe_member_path raw) = true) (seven_name <$> files)) as [-> Hok].
  { clear -Hf. induction Hf as [|e p files members (_ & _ & Hs) Hf [-> IH]]; [by split|]. cbn.
    unfold path_of at 2. rewrite Hs. split; [done|]. constructor; [by rewrite Hs|done]. }
  assert (item_raw <$> l ≡ₚ seven_name <$> files) as Hn by (rewrite <- (seven_names walk l Hl); by apply fmap_Permutation).
  rewrite <- Hn in Hok. split.
  - apply fmap_paths_of. by apply Forall_fmap in Hok.
  - rewrite <- Hn. by rewrite <- list_fmap_compose.
Qed.

Lemma walk_paths c limit members l :
  one_read c → listing crates c limit = Ok members → walk crates c limit = Ok (Ok <$> l) →
  ∃ ps, paths_of l ps ∧ ps ≡ₚ members.
Proof.
  destruct c as [listed archive|listed archive key|archive]; cbn.
  - intros ->. unfold list_tar_gz. destruct (open_tar_gz _ _ _) as [tar|]; cbn; [|done].
    destruct (tar_entries _ tar) as [entries|]; cbn; [|done].
    intros (added & -> & Hf & _)%list_tar_Ok [= Hl]. exists added. split; [by eapply tar_paths|done].
  - intros [-> Hperm]. unfold list_7z. destruct (open_7z _ _ _) as [reader|]; cbn; [|done].
    intros (added & -> & Hf & _)%list_seven_Ok [= Hl]. by eapply seven_paths; [|apply Hperm|].
  - intros _. destruct (open_zip _ _) as [zip|]; cbn; [|done].
    intros (added & -> & Hf & _)%list_zip_Ok [= Hl]. exists added. split; [by eapply zip_paths|done].
Qed.

(** What an answered unpacking leaves is the reference. *)
Lemma extract_tree_tree_of c program dest limit h h' s :
  extract_tree_within crates c program dest limit h = (h', Ok s) → dirs_to dest (nodes h) →
  (∀ p, inside dest p → nodes h !! p = None) →
  ∃ members pre prog items, listing crates c limit = Ok members ∧ locate_program members program = Ok (names pre) ∧
    program = names prog ∧ prog ≠ [] ∧ walk crates c limit = Ok (Ok <$> items) ∧
    ∀ rel, rel ≠ [] → contents (nodes h') !! (dest ++ rel) = tree_of pre items !! rel.
Proof.
  intros Hx Hd Hempty.
  apply extract_tree_cases in Hx as [(e & ? & _)|(members & pre & prog & items & Hl & -> & Hprog & Hloc & Hw & H)]; [done|].
  eapply (unpack_items_run (λ l s n, ((∀ p, ¬ inside dest p → n !! p = nodes h !! p) ∧ (bytes s ≤ limit)%N) ∧
    ∀ rel, rel ≠ [] → contents n !! (dest ++ rel) = tree_of pre l !! rel) (λ _, True)) with (l := []) in H.
  2:{ intros l s1 n ((Hk & Hle) & _). split_and!; [by eapply dirs_to_kept|done|done]. }
  2:{ intros l s1 n i parts n' y ((Hk & Hle) & Ht) Hp Hs. destruct y as [s2|]; [|done]. split; [split|].
      - intros p Hout. rewrite <- Hk by done. by eapply stepped_elsewhere.
      - by eapply stepped_Ok_bytes.
      - intros rel Hrel. rewrite tree_of_snoc. by eapply stepped_put. }
  2:{ split; [split; [done|cbn; lia]|]. intros rel Hrel. rewrite lookup_contents, Hempty by by apply inside_app. done. }
  destruct H as (l & -> & _ & Ht). cbn [app] in Ht. exists members, pre, prog, l. split_and!; done.
Qed.

(** C11: an unpacking that is answered leaves in its directory exactly the files the archive holds under
    the directory of its program, each with its bytes, the last of those that share a path; and, where
    both reads of the archive find the same ([one_read]), the program is the one member its path names,
    in whole, when that member is a file. *)
Theorem unpacked_trees_hold_the_archive (c : Packed) (program : PathBuf) (dest : Place) (limit : N) (h h' : Host)
    (s : TreeSummary) :
  extract_tree_within crates c program dest limit h = (h', Ok s) → dirs_to dest (nodes h) →
  (∀ p, inside dest p → nodes h !! p = None) →
  ∃ pre prog items, program = names prog ∧ walk crates c limit = Ok (Ok <$> items) ∧
    (∀ rel, rel ≠ [] → contents (nodes h') !! (dest ++ rel) = tree_of pre items !! rel) ∧
    (one_read c → ∃ i, i ∈ items ∧ safe_member_path (item_raw i) = Ok (names (pre ++ prog)) ∧
      contents (nodes h') !! (dest ++ prog) = if item_dir i then None else Some (rest (item_data i))).
Proof.
  intros Hx Hd Hempty.
  destruct (extract_tree_tree_of _ _ _ _ _ _ _ Hx Hd Hempty) as (members & pre & prog & l & Hl & Hloc & -> & Hprog & Hw & Ht).
  exists pre, prog, l. split_and!; [done|done|done|].
  intros Hone. destruct (walk_paths _ _ _ _ Hone Hl Hw) as (ps & Hps & Hperm).
  apply locate_program_Ok in Hloc as [_ Hf]. rewrite <- names_app in Hf.
  assert (List.filter (λ m, ends_with_components m (names prog)) ps = [names (pre ++ prog)]) as Hf'.
  { apply Permutation_singleton_r. rewrite <- Hf. by apply filter_permuted. }
  apply filter_single in Hf' as (l1 & l2 & -> & Hn1 & Hn2).
  destruct (paths_of_split _ _ _ _ _ Hps eq_refl) as (k1 & i & k2 & -> & H1 & Hi & H2).
  exists i. split_and!; [by apply elem_of_app; right; left|done|].
  rewrite Ht by done. by eapply tree_of_single.
Qed.

(** ** Sound archives *)

(** No file's path leads to another member: it is no directory of the archive, and none is below it. *)
Definition compatible (pre : Place) (items : list Item) : Prop :=
  ∀ i j r r', i ∈ items → j ∈ items → relative pre i = Some r → relative pre j = Some r' → item_dir i = false →
    r `prefix_of` r' → r = r' ∧ item_dir j = false.

Definition item_len (i : Item) : N := nlen (rest (item_data i)).

(** What is inside the directory is of the items unpacked. *)
Definition of_items (dest pre : Place) (l : list Item) (n : gmap Place Inode) : Prop :=
  ∀ q node, q ≠ [] → n !! (dest ++ q) = Some node →
    ∃ i r, i ∈ l ∧ relative pre i = Some r ∧
      match node with
      | RegularFile _ _ => q = r ∧ item_dir i = false
      | Directory => q `prefix_of` r ∧ (q = r → item_dir i = true)
      end.

Lemma of_items_more dest pre l i n : of_items dest pre l n → of_items dest pre (l ++ [i]) n.
Proof.
  intros H q node Hq Hn. destruct (H q node Hq Hn) as (j & r & Hj & Hr). exists j, r. split; [|done].
  apply elem_of_app. by left.
Qed.

Lemma of_items_grows dest pre l i r n n' :
  of_items dest pre l n → relative pre i = Some r → grows dest r n n' → (item_dir i = false → grows dest (removelast r) n n') →
  of_items dest pre (l ++ [i]) n'.
Proof.
  intros H Hr Hg Hf q node Hq Hn. destruct (Hg (dest ++ q)) as [He|(Hnone & Hnew & q' & _ & Hpre & Heq)].
  - rewrite He in Hn. by apply of_items_more with (i := i) in H; apply H.
  - apply app_inv_head in Heq as <-. rewrite Hnew in Hn. injection Hn as <-. exists i, r.
    split_and!; [apply elem_of_app; right; by left|done|done|]. intros ->. destruct (item_dir i); [done|].
    rewrite (grows_parent dest r n n' Hq (Hf eq_refl)) in Hnew. congruence.
Qed.

Lemma stepped_of_items dest limit s i pre parts n n' s' l :
  stepped dest limit s i pre parts n n' (Ok s') → safe_member_path (item_raw i) = Ok (names parts) →
  of_items dest pre l n → of_items dest pre (l ++ [i]) n'.
Proof.
  intros Hs Hp H.
  inversion Hs as [Hout He|Hr He|r Hr Hne Hdir Hg| | |r n1 mode Hr Hne Hdir Hg _ _ He]; subst; try by apply of_items_more.
  - eapply of_items_grows; [done|by apply (relative_Some pre i r _ Hp)|done|congruence].
  - assert (of_items dest pre (l ++ [i]) n1) as H1.
    { eapply of_items_grows; [done|by apply (relative_Some pre i r _ Hp)| |done].
      by eapply grows_weaken; [apply removelast_prefix|]. }
    intros q node Hq Hn. destruct (decide (q = r)) as [->|Hneq].
    + rewrite lookup_insert_eq in Hn. injection Hn as <-. exists i, r.
      split_and!; [apply elem_of_app; right; by left|by apply (relative_Some pre i r _ Hp)|done|done].
    + rewrite lookup_insert_ne in Hn by by intros ?%app_inv_head. by apply H1.
Qed.

Lemma free_for_next dest pre l i todo parts n limit s :
  of_items dest pre l n → compatible pre (l ++ i :: todo) → safe_member_path (item_raw i) = Ok (names parts) →
  breaks (item_data i) = false → (bytes s + item_len i ≤ limit)%N → free_for dest limit s i pre parts n.
Proof.
  intros H Hc Hp Hb Hfit rel -> Hrel.
  assert (relative pre i = Some rel) as Hi by (by apply (relative_Some pre i rel _ Hp)).
  assert (i ∈ l ++ i :: todo) as Hin by (apply elem_of_app; right; by left).
  assert (∀ j, j ∈ l → j ∈ l ++ i :: todo) as Hl by (intros; apply elem_of_app; by left).
  split_and!.
  - intros q Hq Hpre b m Hn. destruct (H q _ Hq Hn) as (j & r & Hj & Hr & -> & Hf).
    destruct (Hc j i r rel (Hl _ Hj) Hin Hr Hi Hf) as [-> _].
    + etransitivity; [done|apply removelast_prefix].
    + apply prefix_length in Hpre. destruct (exists_last Hrel) as (k & a & ->).
      rewrite removelast_last, length_app in Hpre. cbn in Hpre. lia.
  - intros Hdir b m Hn. destruct (H rel _ Hrel Hn) as (j & r & Hj & Hr & -> & Hf).
    destruct (Hc j i r r (Hl _ Hj) Hin Hr Hi Hf) as [_ ?]; [done|congruence].
  - intros Hdir. split_and!; [|done|done]. intros Hn. destruct (H rel _ Hrel Hn) as (j & r & Hj & Hr & Hpre & Hd).
    destruct (Hc i j rel r Hin (Hl _ Hj) Hi Hr Hdir Hpre) as [-> Hf]. specialize (Hd eq_refl). congruence.
Qed.

Lemma unpack_items_done pre dest limit todo : ∀ l s h,
  Forall (λ i, is_ok (safe_member_path (item_raw i)) = true ∧ breaks (item_data i) = false) todo →
  compatible pre (l ++ todo) → (bytes s + sum_sizes (item_len <$> todo) ≤ limit)%N →
  dirs_to dest (nodes h) → of_items dest pre l (nodes h) → calls h = [] →
  ∃ h' s', unpack_items (names pre) dest limit s (Ok <$> todo) h = (h', Ok s').
Proof.
  induction todo as [|i todo IH]; intros l s h Hf Hc Hsum Hd Hof Hcalls; [by exists h, s|].
  apply Forall_cons_1 in Hf as [[Hsafe Hb] Hf].
  change (sum_sizes (item_len <$> i :: todo)) with (item_len i + sum_sizes (item_len <$> todo))%N in Hsum.
  destruct (safe_member_path (item_raw i)) as [member|] eqn:Es; [|done].
  destruct (safe_member_path_Ok _ _ Es) as (parts & -> & _).
  destruct (unpack_item (names pre) dest limit s i (names parts) h) as [h1 y] eqn:E.
  pose proof E as Hs. apply unpack_item_spec in Hs as [Hs Hok]; [|done|lia]. destruct (Hok Hcalls) as [Hc1 Hy].
  assert (free_for dest limit s i pre parts (nodes h)) as Hfree by (eapply free_for_next; try done; lia).
  specialize (Hy Hfree). destruct y as [s1|]; [|done].
  destruct (IH (l ++ [i]) s1 h1) as (h' & s' & Hrun); [done|by rewrite <- app_assoc| | | |done|].
  - inversion Hs; subst; cbn [bytes]; unfold item_len in *; lia.
  - eapply dirs_to_kept; [|done]. intros p. by eapply stepped_elsewhere.
  - by eapply stepped_of_items.
  - exists h', s'. cbn. unfold eff_of, eff_bind. by rewrite Es, E.
Qed.

(** C24: a sound archive is unpacked: one whose first pass is passed and whose program is found, whose
    members read to their end, within the limit, no file of which stands where another member needs a
    directory, is unpacked into an empty directory when no call fails. *)
Theorem sound_archives_are_unpacked (c : Packed) (program : PathBuf) (dest : Place) (limit : N) (h : Host)
    (members : list PathBuf) (pre : Place) (items : list Item) :
  listing crates c limit = Ok members → locate_program members program = Ok (names pre) →
  walk crates c limit = Ok (Ok <$> items) →
  Forall (λ i, is_ok (safe_member_path (item_raw i)) = true ∧ breaks (item_data i) = false) items →
  compatible pre items → (sum_sizes (item_len <$> items) ≤ limit)%N →
  dirs_to dest (nodes h) → (∀ p, inside dest p → nodes h !! p = None) → calls h = [] →
  ∃ h' s, extract_tree_within crates c program dest limit h = (h', Ok s).
Proof.
  intros Hl Hloc Hw Hf Hc Hsum Hd Hempty Hcalls. rewrite extract_tree_walk. unfold eff_of, eff_bind.
  rewrite Hl, Hloc, Hw. apply unpack_items_done with (l := []); [done|done|change (bytes summary_default) with 0%N; lia|done| |done].
  intros q node Hq Hn. rewrite Hempty in Hn by by apply inside_app. done.
Qed.
End Holds.
