(* ===== verification/ArchiveMember.v ===== *)
(** * One member of an artifact

    The single-file half of [fleet-agent/src/archive.rs]: the program of a package is the member of its
    file name, written to one file the Client chose. Also the check of a [program_path]
    ([fleet-agent/src/config.rs]) and the attributes that carry a Unix mode in a [.7z]. *)

From S2P Require Import Prelude RustStr Archive ArchiveTree ArchiveSafe.

Open Scope list_scope.

Section Member.
Context (crates : Containers).

(** A member of that name, with its bytes; a [.7z] and a [.zip] look at files only. *)
Definition member_of (c : Packed) (items : list (result Item ArchiveError)) (member : string) (b : list N) : Prop :=
  ∃ i, Ok i ∈ items ∧ file_name_of (item_raw i) = member ∧ rest (item_data i) = b ∧
    match c with PackedTarGz _ _ => True | _ => item_dir i = false end.

(** What writing a member comes to: the file has what was copied, of a member of that name when it is
    answered. *)
Definition wrote_member (c : Packed) (items : list (result Item ArchiveError)) (member : string) (out : Place)
    (limit : N) (m : option N) (n n' : gmap Place Inode) (x : result N ArchiveError) : Prop :=
  ∃ b, n' = <[out := RegularFile b m]> n ∧ (nlen b ≤ limit)%N ∧
    ∀ written, x = Ok written → written = nlen b ∧ member_of c items member b.

Lemma wrote_nothing c items member out limit m h e :
  nodes h !! out = Some (RegularFile [] m) →
  wrote_member c items member out limit m (nodes h) (nodes h) (Err e).
Proof. intros Hout. exists []. rewrite insert_id by done. split_and!; [done|apply N.le_0_l|done]. Qed.

Lemma wrote_copy c items member out limit m h h' x i :
  nodes h !! out = Some (RegularFile [] m) → Ok i ∈ items → file_name_of (item_raw i) = member →
  match c with PackedTarGz _ _ => True | _ => item_dir i = false end →
  eff_map_err (CannotUnpackMember member) (copy_within (item_data i) out limit) h = (h', x) →
  wrote_member c items member out limit m (nodes h) (nodes h') x.
Proof.
  intros Hout Hin Hname Hdir. unfold eff_map_err. destruct (copy_within _ _ _ h) as [h1 y] eqn:E. intros [= <- <-].
  eapply copy_within_spec in E as (b & Hn & Hlen & Hok & _); [|done]. exists b. split_and!; [done|done|].
  destruct y as [w|]; [|done]. intros ? [= <-]. destruct (Hok w eq_refl) as [-> ->]. split; [done|]. by exists i.
Qed.

Lemma wrote_weaken c items items' member out limit m n n' x :
  (∀ i, Ok i ∈ items → Ok i ∈ items') →
  wrote_member c items member out limit m n n' x → wrote_member c items' member out limit m n n' x.
Proof.
  intros Hsub (b & Hn & Hlen & Hok). exists b. split_and!; [done|done|]. intros w Hw.
  destruct (Hok w Hw) as [-> (i & Hi & ? & ? & ?)]. split; [done|]. exists i. split_and!; auto.
Qed.

Lemma find_tar_spec listed archive member out limit m entries : ∀ decompressed seen h h' x,
  nodes h !! out = Some (RegularFile [] m) →
  find_tar member out limit decompressed seen entries h = (h', x) →
  wrote_member (PackedTarGz listed archive) (tar_item <$> entries) member out limit m (nodes h) (nodes h') x.
Proof.
  induction entries as [|[e|] entries IH]; intros decompressed seen h h' x Hout; cbn.
  - intros [= <- <-]. by apply wrote_nothing.
  - destruct (tar_path e) as [raw|] eqn:Ep; cbn; [|intros [= <- <-]; by apply wrote_nothing].
    case_bool_decide as Hname.
    + intros H. eapply (wrote_copy _ _ _ _ _ _ _ _ _ (mkItem raw (is_tar_dir e) (tar_data e) (tar_mode e))); try done.
      by left.
    + unfold eff_of, eff_bind. destruct (accrue_within _ _ _); [|intros [= <- <-]; by apply wrote_nothing].
      intros H%IH; [|done]. eapply wrote_weaken; [|done]. intros i Hi. by right.
  - intros [= <- <-]. by apply wrote_nothing.
Qed.

Lemma find_seven_spec listed archive key member out limit m entries : ∀ seen h h' x,
  nodes h !! out = Some (RegularFile [] m) →
  find_seven member out limit seen entries h = (h', x) →
  wrote_member (Packed7z listed archive key) (seven_item <$> entries) member out limit m (nodes h) (nodes h') x.
Proof.
  induction entries as [|[[e reader]|] entries IH]; intros seen h h' x Hout; cbn.
  - intros [= <- <-]. by apply wrote_nothing.
  - destruct (seven_dir e) eqn:Ed.
    { intros H%IH; [|done]. eapply wrote_weaken; [|done]. intros i Hi. by right. }
    case_bool_decide as Hname.
    + intros H. eapply (wrote_copy _ _ _ _ _ _ _ _ _ (mkItem (seven_name e) false reader None)); try done. by left.
    + intros H%IH; [|done]. eapply wrote_weaken; [|done]. intros i Hi. by right.
  - intros [= <- <-]. by apply wrote_nothing.
Qed.

Lemma find_zip_spec member entries : ∀ seen e,
  find_zip member seen entries = Ok e →
  e ∈ entries ∧ zip_dir e = false ∧ ∃ raw, zip_name e = Some raw ∧ file_name_of raw = member.
Proof.
  induction entries as [|z entries IH]; intros seen e; cbn; [done|].
  destruct (zip_reads z); cbn; [|done].
  destruct (zip_dir z) eqn:Ed; [intros (? & ? & ?)%IH; split_and!; [by right|done|done]|].
  destruct (zip_name z) as [raw|] eqn:En; [|done]. case_bool_decide as Hname.
  - unfold refuse_encrypted. destruct (zip_encrypted z); cbn; [done|]. intros [= <-]. split_and!; [by left|done|by eauto].
  - intros (? & ? & ?)%IH. split_and!; [by right|done|done].
Qed.

(** The program of a single-file package is written to the one file the Client chose and nowhere
    else, whatever path its member has, no further than the limit; and when the extraction is answered
    that file holds all the bytes of a member of the program's name, which in a [.7z] and a [.zip] is a
    file. *)
Theorem members_are_written_whole (c : Packed) (member : string) (out : Place) (limit : N) (h h' : Host)
    (x : result N ArchiveError) (m : option N) :
  extract_within crates c member out limit h = (h', x) → nodes h !! out = Some (RegularFile [] m) →
  ∃ b, nodes h' = <[out := RegularFile b m]> (nodes h) ∧ (nlen b ≤ limit)%N ∧
    ∀ written, x = Ok written → written = nlen b ∧
      ∃ items, walk crates c limit = Ok items ∧ member_of c items member b.
Proof.
  intros H Hout.
  assert (∀ y, x = Err y → nodes h' = nodes h → ∃ b, nodes h' = <[out := RegularFile b m]> (nodes h) ∧ (nlen b ≤ limit)%N ∧
    ∀ written, x = Ok written → written = nlen b ∧ ∃ items, walk crates c limit = Ok items ∧ member_of c items member b) as Hnone.
  { intros y -> Hn. exists []. rewrite Hn, insert_id by done. split_and!; [done|apply N.le_0_l|done]. }
  destruct c as [listed archive|listed archive key|archive]; cbn [extract_within walk] in *.
  - unfold extract_tar_gz_within, eff_bind, eff_of in H.
    destruct (open_tar_gz _ _ _) as [tar|e] eqn:Eo; [|injection H as <- <-; by eapply Hnone].
    destruct (tar_entries _ _) as [entries|e] eqn:Ee; [|injection H as <- <-; by eapply Hnone].
    eapply find_tar_spec in H as (b & Hn & Hlen & Hok); [|done]. exists b. split_and!; [done|done|].
    intros w Hw. destruct (Hok w Hw) as [-> Hm]. split; [done|]. eexists. split; [|exact Hm]. cbn. by rewrite Ee.
  - unfold extract_7z_within, eff_bind, eff_of in H.
    destruct (open_7z _ _ _) as [reader|e] eqn:Eo; [|injection H as <- <-; by eapply Hnone].
    destruct (declared_within _ _ _) as [d|e]; [|injection H as <- <-; by eapply Hnone].
    eapply (find_seven_spec listed archive key) in H as (b & Hn & Hlen & Hok); [|done]. exists b. split_and!; [done|done|].
    intros w Hw. destruct (Hok w Hw) as [-> Hm]. split; [done|]. eexists. split; [|exact Hm]. done.
  - unfold extract_zip_within, eff_bind, eff_of in H.
    destruct (open_zip _ _) as [zip|e] eqn:Eo; [|injection H as <- <-; by eapply Hnone].
    destruct (find_zip _ _ _) as [z|e] eqn:Ef; [|injection H as <- <-; by eapply Hnone].
    apply find_zip_spec in Ef as (Hin & Hd & raw & Hr & Hname).
    destruct (zip_opened z) as [reader|] eqn:Ez; [|injection H as <- <-; by eapply Hnone].
    eapply (wrote_copy (PackedZip archive) (zip_item <$> zip) _ _ _ _ _ _ _ (mkItem raw (zip_dir z) reader None))
      in H as (b & Hn & Hlen & Hok); [|done| |done|done].
    + exists b. split_and!; [done|done|]. intros w Hw. destruct (Hok w Hw) as [-> Hm]. split; [done|].
      eexists. split; [|exact Hm]. done.
    + apply list_elem_of_fmap. exists z. unfold zip_item. by rewrite Ez, Hr.
Qed.

(** C39: a directory is taken for the program: the extraction of one member of a [.tar.gz] looks at the
    file name of an entry and not at its type, so a directory of the program's name that stands before
    the program is what it extracts. It is answered as done, with an empty file, whatever comes after:
    the program is not looked for. *)
Theorem directories_are_taken_for_the_program (archive : option string) (member raw : string) (out : Place) (limit : N)
    (h : Host) (tar : ReadWithin) (before after : list (option TarEntry)) (d : TarEntry) (m : option N) :
  (limit < u64_max)%N → open_tar_gz crates archive limit = Ok tar →
  tar_entries crates tar = Ok (before ++ Some d :: after) →
  Forall (λ e, ∃ e' raw', e = Some e' ∧ tar_path e' = Some raw' ∧ file_name_of raw' ≠ member) before →
  (sum_sizes (tar_declared <$> before) ≤ limit)%N →
  tar_kind d = TarDir → tar_path d = Some raw → file_name_of raw = member →
  rest (tar_data d) = [] → breaks (tar_data d) = false →
  nodes h !! out = Some (RegularFile [] m) →
  extract_tar_gz_within crates archive member out limit h = (h, Ok 0%N).
Proof.
  intros Hb Ho He Hf Hsum Hk Hp Hname Hr Hbr Hout. unfold extract_tar_gz_within, eff_bind, eff_of. rewrite Ho, He.
  assert (∀ total seen, (total + sum_sizes (tar_declared <$> before) ≤ limit)%N →
    find_tar member out limit total seen (before ++ Some d :: after) h = (h, Ok 0%N)) as Hrun; [|by apply Hrun; lia].
  clear Ho He Hsum. induction Hf as [|e before (e' & raw' & -> & Hp' & Hne) Hf IH]; intros total seen Hsum.
  - cbn. rewrite Hp, bool_decide_eq_true_2 by done. unfold eff_map_err, copy_within. rewrite Hr. cbn.
    unfold read. by rewrite Hr, Hbr.
  - change (sum_sizes (tar_declared <$> Some e' :: before))
      with (default 0 (tar_size e') + sum_sizes (tar_declared <$> before))%N in Hsum.
    cbn. rewrite Hp', bool_decide_eq_false_2 by done. unfold eff_of, eff_bind, accrue_within, saturating_add.
    destruct (N.ltb_spec limit (N.min u64_max (total + default 0%N (tar_size e')))); [lia|].
    apply IH. lia.
Qed.
End Member.

(** ** The path of a program *)

Lemma check_parts_Ok l : check_parts l = Ok tt → ∃ parts, l = names parts.
Proof.
  induction l as [|[] l IH]; cbn; [by exists []|done..|]. intros [parts ->]%IH. by exists (part :: parts).
Qed.

Lemma no_components raw : components raw = [] → raw = ""%string.
Proof.
  unfold components. destruct raw as [|c raw]; [done|]. cbn [starts_with strip_prefix].
  unfold split. cbn [split_by]. unfold starts_with. cbn [strip_prefix].
  destruct (ascii_eqb "/" c) eqn:E; [done|].
  destruct (split_by (ascii_eqb "/") raw) as [|piece more] eqn:Es; [by apply split_by_nonempty in Es|].
  case_bool_decide; [done|]. cbn. unfold component_of. cbn [is_empty orb].
  rewrite bool_decide_eq_false_2 by done. by case_bool_decide.
Qed.

(** The path of a program is names below the package, and at least one. *)
Lemma validate_program_path_Ok raw p :
  validate_program_path raw = Ok p → ∃ parts, p = names parts ∧ parts ≠ [].
Proof.
  unfold validate_program_path. destruct (is_blank raw) eqn:Eb; [done|].
  destruct (check_parts (components raw)) as [[]|] eqn:E; cbn; [|done]. intros [= <-].
  destruct (check_parts_Ok _ E) as [parts Hp]. exists parts. split; [done|]. intros ->.
  apply no_components in Hp as ->. done.
Qed.
