(* ===== verification/ArchiveSamples.v ===== *)
(** * Artifacts unpacked

    Concrete artifacts through the unpacking of [fleet-agent/src/archive.rs], at which the theorems of
    the [Archive] files are applied. *)

From S2P Require Import Prelude RustStr Archive ArchiveTree ArchiveSafe ArchiveContents ArchiveMember.

Open Scope string_scope.
Open Scope list_scope.

Definition whole (b : list N) : Reader := mkReader b false [].

Definition tar_file (path : string) (b : list N) : option TarEntry :=
  Some (mkTarEntry (Some path) (Some (nlen b)) TarFile (Some 511%N) (whole b)).
Definition tar_directory (path : string) : option TarEntry :=
  Some (mkTarEntry (Some path) (Some 0%N) TarDir (Some 493%N) (whole [])).

(** Crates that read one archive whatever the bytes of the artifact are. *)
Definition reads_as (entries : list (option TarEntry)) (seven : SevenArchive) (zip : list ZipEntry) : Containers :=
  mkContainers (λ s, whole (bytes_of s)) (λ _ broken, if broken : bool then None else Some entries)
    (λ _ _, Ok seven) (λ _, Some zip).

Definition no_seven : SevenArchive := mkSevenArchive [] [].

(** The directory a package is unpacked into. *)
Definition staging : Host := mkHost {[ ["staging"] := Directory ]} [].

Lemma dirs_to_staging : dirs_to ["staging"] (nodes staging).
Proof.
  intros q Hq Hpre. destruct q as [|a q]; [done|]. apply prefix_cons_inv_1 in Hpre as Ha.
  apply prefix_cons_inv_2 in Hpre. apply prefix_nil_inv in Hpre as ->. by subst a.
Qed.

Lemma staging_empty p : inside ["staging"] p → nodes staging !! p = None.
Proof. intros (x & xs & ->). cbn. apply lookup_singleton_ne. done. Qed.

Lemma staging_guarded umask : guarded umask ["staging"] (nodes staging).
Proof. intros p b m Hp. rewrite staging_empty by done. done. Qed.

(** A release: its directory, its program, a plugin, and a licence beside them. *)
Definition release : list (option TarEntry) :=
  [tar_directory "fb-3.1/"; tar_directory "fb-3.1/bin/"; tar_file "fb-3.1/bin/fb" [7; 8]%N;
   tar_file "fb-3.1/lib/p.so" [9]%N; tar_file "LICENSE" [1]%N].
Definition releases : Containers := reads_as release no_seven [].
Definition released : Packed := PackedTarGz (Some "a") (Some "a").
Definition program : PathBuf := components "bin/fb".
Definition unpacked_release : Host * result TreeSummary ArchiveError :=
  extract_tree_within releases released program ["staging"] 100 staging.

Lemma release_unpacks :
  unpacked_release.2 = Ok (mkSummary 2 3 1) ∧
  nodes unpacked_release.1 !! ["staging"; "bin"; "fb"] = Some (RegularFile [7; 8]%N (Some 493%N)) ∧
  nodes unpacked_release.1 !! ["staging"; "LICENSE"] = None.
Proof. vm_compute. done. Qed.

Lemma bounded_reads_never_end_early_witness :
  read_all [4; 4; 4]%N (mkReadWithin (mkReader [1; 2; 3]%N false [1%N]) 2) = ([1; 2]%N, Some (Some IoPastBound)) ∧
  passed_on (mkReadWithin (mkReader [1; 2; 3]%N false [1%N]) 2) = ([1; 2]%N, true).
Proof.
  split; [reflexivity|].
  destruct (bounded_reads_never_end_early [4; 4; 4]%N (mkReadWithin (mkReader [1; 2; 3]%N false [1%N]) 2) [1; 2]%N
    (Some (Some IoPastBound)) ltac:(repeat constructor) eq_refl) as (_ & _ & _ & _ & _ & H).
  exact (H ltac:(discriminate)).
Defined.

Lemma trees_stay_in_their_directory_witness :
  nodes unpacked_release.1 !! ["LICENSE"] = None ∧ guarded 18 ["staging"] (nodes unpacked_release.1).
Proof.
  destruct (trees_stay_in_their_directory releases released program ["staging"] 100 staging unpacked_release.1
    unpacked_release.2 (surjective_pairing _) dirs_to_staging) as [H1 H2].
  split; [|exact (H2 18%N eq_refl (staging_guarded 18))]. apply H1. intros (x & xs & Hp). discriminate Hp.
Defined.

Lemma trees_stay_within_their_budget_witness :
  (stored (nodes unpacked_release.1) ≤ stored (nodes staging) + 100)%N ∧ unpacked_release.2 ≠ Err Overflowed.
Proof.
  destruct (trees_stay_within_their_budget releases released program ["staging"] 100 staging unpacked_release.1
    unpacked_release.2 (surjective_pairing _) dirs_to_staging) as (H1 & H2 & _).
  exact (conj H1 H2).
Defined.

(** One member after a sound one leads outside. *)
Definition traversing : Containers :=
  reads_as [tar_file "fb/bin/fb" [7]%N; tar_file "fb/../../etc/cron.d/x" [6]%N] no_seven [].

Lemma forbidden_members_refuse_the_archive_witness :
  ∃ e, extract_tree_within traversing released program ["staging"] 100 staging = (staging, Err e).
Proof.
  apply (forbidden_members_refuse_the_archive traversing released program ["staging"] 100 staging eq_refl).
  eexists _, _. split; [reflexivity|]. split; [vm_compute; reflexivity|]. left.
  eexists. split; [right; left|]. right. eexists. split; [reflexivity|]. left.
  apply (bool_decide_unpack _). vm_compute. exact I.
Defined.

Lemma unpacked_trees_hold_the_archive_witness :
  ∃ pre i, safe_member_path (item_raw i) = Ok (names (pre ++ ["bin"; "fb"])) ∧
    contents (nodes unpacked_release.1) !! ["staging"; "bin"; "fb"]
      = if item_dir i then None else Some (rest (item_data i)).
Proof.
  destruct (unpacked_trees_hold_the_archive releases released program ["staging"] 100 staging unpacked_release.1
    (mkSummary 2 3 1) ltac:(vm_compute; reflexivity) dirs_to_staging staging_empty)
    as (pre & prog & items & Hprog & Hw & _ & Hone).
  destruct (Hone eq_refl) as (i & _ & Hp & Hc). exists pre, i.
  assert (prog = ["bin"; "fb"]) as -> by (apply names_inj; exact (eq_sym Hprog)).
  exact (conj Hp Hc).
Defined.

(** The items of the release. *)
Definition release_items : list Item :=
  [mkItem "fb-3.1/" true (whole []) (Some 493%N); mkItem "fb-3.1/bin/" true (whole []) (Some 493%N);
   mkItem "fb-3.1/bin/fb" false (whole [7; 8]%N) (Some 511%N);
   mkItem "fb-3.1/lib/p.so" false (whole [9]%N) (Some 511%N); mkItem "LICENSE" false (whole [1]%N) (Some 511%N)].

Definition release_members : list PathBuf := (λ i, path_of (item_raw i)) <$> release_items.

Lemma release_compatible : compatible ["fb-3.1"] release_items.
Proof.
  assert (Forall (λ i, Forall (λ j, ∀ r r', relative ["fb-3.1"] i = Some r → relative ["fb-3.1"] j = Some r' →
    item_dir i = false → r `prefix_of` r' → r = r' ∧ item_dir j = false) release_items) release_items) as H.
  { unfold release_items. repeat first [apply List.Forall_nil | apply List.Forall_cons]; intros r r' H1 H2; vm_compute in H1, H2; try discriminate; injection H1 as <-; injection H2 as <-;
      intros Hd Hpre; try discriminate; try done; exfalso; apply (bool_decide_pack _) in Hpre; vm_compute in Hpre; exact Hpre. }
  intros i j r r' Hi Hj. rewrite Forall_forall in H. specialize (H i Hi). rewrite Forall_forall in H. by apply H.
Qed.

Lemma sound_archives_are_unpacked_witness :
  ∃ h s, extract_tree_within releases released program ["staging"] 100 staging = (h, Ok s).
Proof.
  apply (sound_archives_are_unpacked releases released program ["staging"] 100 staging release_members ["fb-3.1"]
    release_items).
  - vm_compute. reflexivity.
  - vm_compute. reflexivity.
  - vm_compute. reflexivity.
  - repeat constructor.
  - exact release_compatible.
  - vm_compute. discriminate.
  - exact dirs_to_staging.
  - exact staging_empty.
  - reflexivity.
Defined.

(** ** One member *)

(** The file a program is written to. *)
Definition temp : Host := mkHost {[ ["prog.staged"] := RegularFile [] None ]} [].

Lemma members_are_written_whole_witness :
  ∃ b, nodes (extract_within releases released "fb" ["prog.staged"] 100 temp).1
         = <[ ["prog.staged"] := RegularFile b None ]> (nodes temp) ∧ (nlen b ≤ 100)%N.
Proof.
  destruct (members_are_written_whole releases released "fb" ["prog.staged"] 100 temp
    (extract_within releases released "fb" ["prog.staged"] 100 temp).1
    (extract_within releases released "fb" ["prog.staged"] 100 temp).2 None (surjective_pairing _) eq_refl)
    as (b & H1 & H2 & _).
  exists b. exact (conj H1 H2).
Defined.

(** A release that keeps its configuration in a directory of the program's name. *)
Definition configured : list (option TarEntry) :=
  [tar_file "tg-1.30/README" [1]%N; tar_directory "tg-1.30/etc/tg/"; tar_file "tg-1.30/usr/bin/tg" [7; 8]%N].

Lemma directories_are_taken_for_the_program_witness :
  extract_tar_gz_within (reads_as configured no_seven []) (Some "a") "tg" ["prog.staged"] 100 temp = (temp, Ok 0%N).
Proof.
  eapply (directories_are_taken_for_the_program (reads_as configured no_seven []) (Some "a") "tg" "tg-1.30/etc/tg/"
    ["prog.staged"] 100 temp _ [tar_file "tg-1.30/README" [1]%N] [tar_file "tg-1.30/usr/bin/tg" [7; 8]%N]
    (mkTarEntry (Some "tg-1.30/etc/tg/") (Some 0%N) TarDir (Some 493%N) (whole [])) None).
  - reflexivity.
  - reflexivity.
  - vm_compute. reflexivity.
  - repeat constructor. eexists _, _. split_and!; [reflexivity|reflexivity|]. vm_compute. discriminate.
  - vm_compute. discriminate.
  - reflexivity.
  - reflexivity.
  - vm_compute. reflexivity.
  - reflexivity.
  - reflexivity.
  - reflexivity.
Defined.

(** The same release as a [.zip] gives its program. *)
Definition zip_file (path : string) (b : list N) : ZipEntry :=
  mkZipEntry true (Some path) (bytes_of path) false false (nlen b) None (Some (whole b)).
Definition zip_directory (path : string) : ZipEntry :=
  mkZipEntry true (Some path) (bytes_of path) true false 0 None (Some (whole [])).

Lemma zipped_programs_are_found :
  (extract_zip_within (reads_as [] no_seven [zip_file "tg-1.30/README" [1]%N; zip_directory "tg-1.30/etc/tg/";
     zip_file "tg-1.30/usr/bin/tg" [7; 8]%N]) (Some "a") "tg" ["prog.staged"] 100 temp).2 = Ok 2%N.
Proof. vm_compute. reflexivity. Qed.

(** What the packer says of a program's mode reads back, and is no link. *)
Lemma packed_modes_read_back mode :
  (mode < 4096)%N →
  seven_link (unix_mode_attributes mode) = false ∧ N.land (N.shiftr (unix_mode_attributes mode) 16) 4095 = mode.
Proof.
  intros Hm.
  assert (forallb (λ k, let mode := N.of_nat k in negb (seven_link (unix_mode_attributes mode)) &&
    (N.land (N.shiftr (unix_mode_attributes mode) 16) 4095 =? mode)%N) (seq 0 4096) = true) as H by (vm_compute; reflexivity).
  rewrite List.forallb_forall in H. specialize (H (N.to_nat mode)). cbv zeta in H. rewrite N2Nat.id in H.
  apply andb_true_iff in H as [H1 H2]; [|apply List.in_seq; lia].
  split; [by apply negb_true_iff|by apply N.eqb_eq].
Qed.
