(* ===== verification/ArchivePort.v ===== *)
(** * The archives of the process adapter

    The staging of [Programs] ([fleet-agent/src/supervisor/process.rs]) takes what an archive holds as a
    parameter, [Archives]. Here it is what [fleet-agent/src/archive.rs] unpacks: the member written to a
    file, and the tree written to an empty directory, when no call fails. *)

From S2P Require Import Prelude RustStr Programs Archive ArchiveTree ArchiveSafe ArchiveContents ArchiveSamples.

Open Scope string_scope.
Open Scope list_scope.

(** ** Names *)

Lemma split_pieces_free c s : Forall (λ piece, contains_byte c piece = false) (split c s).
Proof.
  unfold split. induction s as [|d s IH]; cbn; [by repeat constructor|].
  destruct (split_by (ascii_eqb c) s) as [|piece more]; [done|]. apply Forall_cons_1 in IH as [Hp Hm].
  destruct (ascii_eqb c d) eqn:E; [by repeat constructor|]. constructor; [|done].
  cbn. rewrite Hp, orb_false_r. apply ascii_eqb_neq. apply ascii_eqb_neq in E. congruence.
Qed.

Definition slash_free (parts : Place) : Prop := Forall (λ part, contains_byte "/" part = false) parts.

Lemma component_slash_free piece part :
  contains_byte "/" piece = false → component_of piece = Some (Normal part) → contains_byte "/" part = false.
Proof. unfold component_of. intros Hp. repeat case_match; [done|done|]. by intros [= <-]. Qed.

Lemma pieces_slash_free l :
  Forall (λ piece, contains_byte "/" piece = false) l →
  Forall (λ c, ∀ part, c = Normal part → contains_byte "/" part = false) (omap component_of l).
Proof.
  induction 1 as [|piece l Hp Hl IH]; [constructor|]. cbn. destruct (component_of piece) as [c|] eqn:E; [|done].
  constructor; [|done]. intros part ->. by eapply component_slash_free.
Qed.

Lemma components_slash_free raw :
  Forall (λ c, ∀ part, c = Normal part → contains_byte "/" part = false) (components raw).
Proof.
  unfold components. pose proof (split_pieces_free "/" raw) as Hs. destruct (starts_with "/" raw).
  { constructor; [done|]. by apply pieces_slash_free. }
  destruct (split "/" raw) as [|piece more]; [constructor|]. case_bool_decide.
  - constructor; [done|]. apply pieces_slash_free. by inversion Hs.
  - by apply pieces_slash_free.
Qed.

Lemma safe_parts_slash_free (raw : string) (l : PathBuf) (safe parts : Place) :
  Forall (λ c, ∀ part, c = Normal part → contains_byte "/" part = false) l → slash_free safe →
  safe_parts raw l (names safe) = Ok (names parts) → slash_free parts.
Proof.
  intros Hl. revert safe. induction Hl as [|c l Hc Hl IH]; intros safe Hs; cbn.
  - intros [= ->%names_inj]. done.
  - destruct c as [| | |part]; [done|by apply IH|done|]. change [Normal part] with (names [part]).
    rewrite <- names_app. apply IH. apply Forall_app. split; [done|]. by repeat constructor; apply Hc.
Qed.

Lemma safe_path_slash_free (raw : string) (parts : Place) : safe_member_path raw = Ok (names parts) → slash_free parts.
Proof.
  unfold safe_member_path. destruct (safe_parts raw (components raw) []) as [safe|] eqn:E; cbn; [|done].
  intros Hp. assert (safe = names parts) as -> by (destruct safe as [|a safe]; [done|injection Hp as Hp; exact Hp]).
  by eapply (safe_parts_slash_free raw _ []); [apply components_slash_free|constructor|].
Qed.

Lemma relative_slash_free pre i rel : relative pre i = Some rel → slash_free rel ∧ rel ≠ [].
Proof.
  intros H. destruct (safe_member_path (item_raw i)) as [p|] eqn:E; [|by unfold relative in H; rewrite E in H].
  destruct (safe_member_path_Ok _ _ E) as (parts & -> & _). pose proof (proj1 (relative_Some pre i rel parts E) H) as [-> Hne].
  apply safe_path_slash_free, Forall_app in E. by destruct E.
Qed.

Lemma tree_of_slash_free pre items rel b : tree_of pre items !! rel = Some b → slash_free rel ∧ rel ≠ [].
Proof.
  unfold tree_of. assert (∀ t : gmap Place (list N), (∀ r b, t !! r = Some b → slash_free r ∧ r ≠ []) →
    ∀ r b, foldl (put_item pre) t items !! r = Some b → slash_free r ∧ r ≠ []) as H; [|by apply H; intros ??; rewrite lookup_empty].
  clear rel b. induction items as [|i items IH]; intros t Ht; [done|]. cbn. apply IH. intros r b. unfold put_item.
  destruct (relative pre i) as [r'|] eqn:E; [|by apply Ht]. destruct (item_dir i); [by apply Ht|].
  destruct (decide (r = r')) as [->|]; [|rewrite lookup_insert_ne by done; by apply Ht].
  intros _. by eapply relative_slash_free.
Qed.

Lemma join_inj l k : slash_free l → slash_free k → l ≠ [] → k ≠ [] → join "/" l = join "/" k → l = k.
Proof. intros Hl Hk Hln Hkn H. rewrite <- (split_join "/" l), <- (split_join "/" k) by done. by rewrite H. Qed.

(** ** The port *)

Section Port.
Context (crates : Containers) (key : option string).

(** An artifact by what its first bytes say it is. *)
Definition packed_as (k : Kind) (artifact : string) : option Packed :=
  match k with
  | Raw => None
  | TarGz => Some (PackedTarGz (Some artifact) (Some artifact))
  | SevenZ => Some (Packed7z (Some artifact) (Some artifact) key)
  | Zip => Some (PackedZip (Some artifact))
  end.

(** The files below a directory, by the path from it. *)
Definition named_entry (kv : Place * list N) : option (string * string) :=
  match kv.1 with
  | top :: x :: xs => if bool_decide (top = "tree") then Some (join "/" (x :: xs), string_of_bytes kv.2) else None
  | _ => None
  end.

Definition named_tree (n : gmap Place Inode) : gmap string string :=
  list_to_map (omap named_entry (map_to_list (contents n))).

Definition unpacking : Archives := {|
  extract k artifact member :=
    c ← packed_as k artifact;
    match extract_within crates c member ["program"] MAX_UNPACKED_BYTES
            (mkHost {[ ["program"] := RegularFile [] None ]} []) with
    | (h, Ok _) => string_of_bytes <$> contents (nodes h) !! ["program"]
    | (_, Err _) => None
    end;
  extract_tree k artifact program_path :=
    c ← packed_as k artifact;
    match extract_tree_within crates c (components program_path) ["tree"] MAX_UNPACKED_BYTES
            (mkHost {[ ["tree"] := Directory ]} []) with
    | (h, Ok _) => Some (named_tree (nodes h))
    | (_, Err _) => None
    end;
|}.

Lemma lookup_named_tree n rel :
  (∀ r b, contents n !! ("tree" :: r) = Some b → slash_free r) → slash_free rel → rel ≠ [] →
  named_tree n !! join "/" rel = string_of_bytes <$> contents n !! ("tree" :: rel).
Proof.
  intros Hfree Hrel Hne. unfold named_tree.
  assert (∀ s, (join "/" rel, s) ∈ omap named_entry (map_to_list (contents n)) →
    ∃ b, contents n !! ("tree" :: rel) = Some b ∧ s = string_of_bytes b) as Hinv.
  { intros s ([p b] & Hin & He)%list_elem_of_omap. apply elem_of_map_to_list in Hin.
    destruct p as [|top [|x xs]]; [done|done|]. unfold named_entry in He. cbn [fst snd] in He.
    case_bool_decide; [|done]. injection He as Hj <-. subst top.
    change (join "/" (x :: xs) = join "/" rel) in Hj.
    apply join_inj in Hj; [|by eapply Hfree|done|done|done]. subst rel. eauto. }
  destruct (contents n !! ("tree" :: rel)) as [b|] eqn:E; cbn.
  - apply elem_of_list_to_map_1'.
    + intros s (b' & Hb' & ->)%Hinv. by simplify_eq.
    + apply list_elem_of_omap. exists ("tree" :: rel, b). split; [by apply elem_of_map_to_list|].
      destruct rel as [|x xs]; [done|]. done.
  - apply not_elem_of_list_to_map. intros ((? & s) & Heq & Hin)%list_elem_of_fmap. cbn in Heq. subst.
    destruct (Hinv s Hin) as (b & ? & _). done.
Qed.

(** What the staging of a package is given for the tree of an archive is the archive's: by the
    path of each member below the directory of the program, its bytes, and no other path; so what
    holds of the staging, the swap and the rollback of a package for whatever an archive holds, holds
    for what the Client unpacks. *)
Theorem staged_trees_are_the_archives (k : Kind) (artifact program_path : string) (t : gmap string string) :
  @extract_tree unpacking k artifact program_path = Some t →
  ∃ c pre items, packed_as k artifact = Some c ∧ walk crates c MAX_UNPACKED_BYTES = Ok (Ok <$> items) ∧
    ∀ rel, rel ≠ [] → slash_free rel → t !! join "/" rel = string_of_bytes <$> tree_of pre items !! rel.
Proof.
  cbn. destruct (packed_as k artifact) as [c|]; cbn; [|done].
  destruct (extract_tree_within _ _ _ _ _ _) as [h [s|]] eqn:E; [|done]. intros [= <-].
  apply extract_tree_tree_of in E as (_ & pre & _ & items & _ & _ & _ & _ & Hw & Ht).
  - exists c, pre, items. split_and!; [done|done|]. intros rel Hne Hrel. rewrite lookup_named_tree; [|  |done|done].
    + f_equal. by apply (Ht rel).
    + intros r b Hb. destruct r as [|x xs]; [constructor|]. change ("tree" :: x :: xs) with (["tree"] ++ x :: xs) in Hb.
      rewrite Ht in Hb by done. by apply tree_of_slash_free in Hb as [? _].
  - intros q Hq Hpre. destruct q as [|a q]; [done|]. apply prefix_cons_inv_1 in Hpre as Ha.
    apply prefix_cons_inv_2, prefix_nil_inv in Hpre as ->. by subst a.
  - intros p (x & xs & ->). cbn. by apply lookup_singleton_ne.
Qed.
End Port.

Lemma staged_trees_are_the_archives_witness :
  ∃ t, @extract_tree (unpacking releases None) TarGz "a" "bin/fb" = Some t ∧
    ∃ pre items, t !! "bin/fb" = string_of_bytes <$> tree_of pre items !! ["bin"; "fb"].
Proof.
  destruct (@extract_tree (unpacking releases None) TarGz "a" "bin/fb") as [t|] eqn:E.
  - exists t. split; [reflexivity|].
    destruct (staged_trees_are_the_archives releases None TarGz "a" "bin/fb" t E) as (c & pre & items & _ & _ & H).
    exists pre, items. apply (H ["bin"; "fb"]); [discriminate|]. repeat constructor.
  - exfalso. vm_compute in E. discriminate E.
Defined.

(** The empty program a [.tar.gz] with a directory of the program's name is staged as. *)
Lemma empty_programs_are_staged :
  @extract (unpacking (reads_as configured no_seven []) None) TarGz "a" "tg" = Some "".
Proof. vm_compute. reflexivity. Qed.
