(* ===== verification/Runner.v ===== *)
(** * The adapter that drives one Managed Process

    [fleet-agent/src/supervisor/process.rs] ([Runner]), [fleet-agent/src/supervisor/restart.rs] and
    [opamp/src/client/backoff.rs]: the loop that starts a program, watches it, applies a configuration or
    a package to it, restarts it and gives up on it. A branch of the loop's [select!] is a [Choice]; each
    of its awaits takes one moment of what the environment decides. A [select!] that a shutdown wins has
    no other effect. What the adapter is asked and what it tells are one history, in their order. Log
    lines, spans and the version probe, a task of its own, are left out. *)

From S2P Require Import Prelude RustStr Programs.

Open Scope string_scope.
Open Scope list_scope.

(** ** The restart policy *)

Definition MAX_CRASH_RESTARTS : N := 3.
Definition STABLE_RUN_FLOOR : N := 10000000000.

Inductive AfterFailure := Retry | Hold (failures : N).

Record RestartPolicy := mkPolicy {
  streak : N;
  started_at : N;
  stable_after : N;
}.

Definition policy_new (apply_grace now : N) : RestartPolicy := mkPolicy 0 now (N.max apply_grace STABLE_RUN_FLOOR).
Definition fresh_chance (p : RestartPolicy) : RestartPolicy := mkPolicy 0 (started_at p) (stable_after p).
Definition policy_started (now : N) (p : RestartPolicy) : RestartPolicy := mkPolicy (streak p) now (stable_after p).
Definition policy_exited (now : N) (p : RestartPolicy) : RestartPolicy :=
  if (stable_after p <=? saturating_sub now (started_at p))%N then fresh_chance p else p.
Definition policy_failed (p : RestartPolicy) : RestartPolicy * AfterFailure :=
  let n := (streak p + 1)%N in
  (mkPolicy n (started_at p) (stable_after p), if (MAX_CRASH_RESTARTS <=? n)%N then Hold n else Retry).

(** ** The back-off *)

Definition BACKOFF_START : N := 1000000000.
Definition BACKOFF_CAP : N := 60000000000.

(** [random::below], of what was drawn. *)
Definition below (bound drawn : N) : N := if (bound =? 0)%N then 0%N else (drawn mod bound)%N.

(** [Backoff::advance] on the ceiling of the next delay: the delay, and the ceiling after it. *)
Definition advance (drawn next : N) : N * N :=
  let half := (next / 2)%N in
  ((half + below half drawn)%N, N.min (next * 2) BACKOFF_CAP).

Record Waiting := mkWaiting {
  due : option N;
  away : bool;
  waiting_backoff : N;
}.

Definition waiting_new : Waiting := mkWaiting None false BACKOFF_START.
Definition arm (now drawn : N) (w : Waiting) : Waiting :=
  let (delay, next) := advance drawn (waiting_backoff w) in mkWaiting (Some (now + delay)%N) true next.
Definition due_now (now : N) (w : Waiting) : Waiting := mkWaiting (Some now) false (waiting_backoff w).
Definition clear_waiting (w : Waiting) : Waiting := mkWaiting None false BACKOFF_START.

(** ** Commands and events *)

Inductive ProcessCommand :=
| ApplyConfig (hash : list N)
| ApplyPackage (artifact version : string) (hash : list N)
| Restart
| Shutdown
| Uninstall.

(** The health reported, by its status. *)
Inductive Health :=
| Running
| AwaitingConfiguration
| NoProcessInstalled
| SpawnFailed
| Unreachable
| Refused
| ExitedUnexpectedly
| ExitedDuringGrace
| NotRestarting (failures : N).

Inductive ProcessEvent :=
| Pid (pid : option N)
| IsHealth (h : Health)
| ConfigApplied (hash : list N) (r : result unit RunError)
| PackageApplied (hash : list N) (r : result string RunError)
| Uninstalled.

Inductive Happened := Asked (c : ProcessCommand) | Told (e : ProcessEvent).

#[export] Instance ProcessCommand_eq_dec : EqDecision ProcessCommand.
Proof. solve_decision. Defined.
#[export] Instance Health_eq_dec : EqDecision Health.
Proof. solve_decision. Defined.
#[export] Instance ProcessEvent_eq_dec : EqDecision ProcessEvent.
Proof. solve_decision. Defined.
#[export] Instance Happened_eq_dec : EqDecision Happened.
Proof. solve_decision. Defined.

(** ** State *)

(** [ManagedChild], by the pid it was started with. *)
Record Child := mkChild { child_id : option N }.

Record Parked := mkParked {
  staged : Staged;
  checked : bool;
  version : string;
  package_hash : list N;
}.

Record Supervision := mkSupervision {
  child : option Child;
  policy : RestartPolicy;
  backoff : N;
  waiting : Waiting;
  owed : option (list N);
  parked : option Parked;
}.

Inductive Spawner := Local | Channel.

Record Runner := mkRunner {
  apply_grace : N;
  install_target : option InstallTarget;
  shares : bool;
  retain_previous : N;
  has_preflight : bool;
  reload_signal : bool;
  spawner : Spawner;
}.

Record World := mkWorld {
  site : Site;
  sup : Supervision;
  history : list Happened;
}.

Definition on_site {A} (m : Act Site A) : Act World A := λ w,
  let (s, a) := m (site w) in (mkWorld s (sup w) (history w), a).
Definition await : Act World Moment := on_site moment.
Definition gets {A} (f : Supervision → A) : Act World A := λ w, (w, f (sup w)).
Definition modify (f : Supervision → Supervision) : Act World unit := λ w, (mkWorld (site w) (f (sup w)) (history w), tt).
Definition notes (h : Happened) : Act World unit := λ w, (mkWorld (site w) (sup w) (history w ++ [h]), tt).
Definition tell (e : ProcessEvent) : Act World unit := notes (Told e).

Definition set_child (c : option Child) (s : Supervision) : Supervision :=
  mkSupervision c (policy s) (backoff s) (waiting s) (owed s) (parked s).
Definition on_policy (f : RestartPolicy → RestartPolicy) (s : Supervision) : Supervision :=
  mkSupervision (child s) (f (policy s)) (backoff s) (waiting s) (owed s) (parked s).
Definition set_backoff (b : N) (s : Supervision) : Supervision :=
  mkSupervision (child s) (policy s) b (waiting s) (owed s) (parked s).
Definition on_waiting (f : Waiting → Waiting) (s : Supervision) : Supervision :=
  mkSupervision (child s) (policy s) (backoff s) (f (waiting s)) (owed s) (parked s).
Definition set_owed (o : option (list N)) (s : Supervision) : Supervision :=
  mkSupervision (child s) (policy s) (backoff s) (waiting s) o (parked s).
Definition set_parked (p : option Parked) (s : Supervision) : Supervision :=
  mkSupervision (child s) (policy s) (backoff s) (waiting s) (owed s) p.

(** ** Starting and stopping *)

Inductive SpawnError := NothingToRun | Unprepared | TextBusy | NotReached (refused : bool) | NotThere | OtherError.

Definition why_unreached (refused : bool) : Health := if refused then Refused else Unreachable.

Definition arm_waiting : Act World unit := m <~ await ;; modify (on_waiting (arm (now_ns m) (draw m))).

(** [stop]: however it ends, the program is gone. *)
Definition stop : Act World unit := modify (set_child None).

Definition settle (hash : list N) (r : result unit RunError) : Act World unit := tell (ConfigApplied hash r).

(** Whether the loop goes on. *)
Inductive Turn := Goes | Breaks | Returns.

Definition turn_of (shutdown : bool) : Turn := if shutdown then Breaks else Goes.

Inductive GraceOutcome := GraceOk | GraceFailed (e : RunError) | GraceShutting | GraceAway.

Inductive Swapped := Gated (o : GraceOutcome) | SwapParked (s : Staged).

Inductive Checked := Ready (p : Parked) | CheckDone (shutdown : bool).

Inductive Preflighted := Passed | FlightRefused | Unreached (refused : bool).

Inductive Reloaded := Reapplied | NotApplied | ReloadShutting.

Definition BUSY_RETRIES : nat := 10.

Section Run.
Context {arch : Archives} (r : Runner).

Definition spawn_end (m : Moment) : SpawnEnd :=
  match spawner r, spawned m with Local, Away _ => NoStart | _, e => e end.

(** [Runner::spawn_once]. *)
Definition spawn_once (retried : bool) : Act World (result Child SpawnError) :=
  m <~ await ;;
  if negb (builds m) then _ <~ tell (IsHealth AwaitingConfiguration) ;; act_ret (Err NothingToRun)
  else
    match spawn_end m with
    | NotPrepared => act_ret (Err Unprepared)
    | Started pid =>
        _ <~ tell (Pid pid) ;;
        _ <~ tell (IsHealth Running) ;;
        act_ret (Ok (mkChild pid))
    | Busy => if retried then act_ret (Err TextBusy) else _ <~ tell (IsHealth SpawnFailed) ;; act_ret (Err TextBusy)
    | Away refused => _ <~ tell (IsHealth (why_unreached refused)) ;; act_ret (Err (NotReached refused))
    | Missing => _ <~ tell (IsHealth NoProcessInstalled) ;; act_ret (Err NotThere)
    | NoStart => _ <~ tell (IsHealth SpawnFailed) ;; act_ret (Err OtherError)
    end.

(** [Runner::try_spawn], with so many retries to go. *)
Fixpoint try_spawn_from (tries : nat) : Act World (result Child SpawnError) :=
  x <~ spawn_once (negb (Nat.eqb tries 0)) ;;
  match x, tries with
  | Err TextBusy, S tries => try_spawn_from tries
  | _, _ => act_ret x
  end.

Definition try_spawn : Act World (result Child SpawnError) := try_spawn_from BUSY_RETRIES.

(** [Runner::spawn_if_due]. *)
Definition spawn_if_due : Act World (option Child) :=
  x <~ try_spawn ;;
  match x with
  | Ok c => _ <~ modify (on_waiting clear_waiting) ;; act_ret (Some c)
  | Err (NotReached _) => _ <~ arm_waiting ;; act_ret None
  | Err _ => _ <~ modify (on_waiting clear_waiting) ;; act_ret None
  end.

(** A start that a shutdown cancels: [None]. *)
Definition spawn_unless_shut : Act World (option (option Child)) :=
  m <~ await ;;
  if shutting m then act_ret None else c <~ spawn_if_due ;; act_ret (Some c).

(** [Spawner::reach]: why the second service was not reached. *)
Definition reach : Act World (option bool) :=
  m <~ await ;; act_ret (match spawner r with Local => None | Channel => service m end).

(** ** The gate *)

Definition gate (started : option Child) : Act World GraceOutcome :=
  match started with
  | None => act_ret (GraceFailed DidNotStart)
  | Some c =>
      if (apply_grace r =? 0)%N then _ <~ modify (set_child (Some c)) ;; act_ret GraceOk
      else
        m <~ await ;;
        if shutting m then _ <~ modify (set_child (Some c)) ;; act_ret GraceShutting
        else
          match spawner r, graced m with
          | _, Survives => _ <~ modify (set_child (Some c)) ;; act_ret GraceOk
          | Channel, GoesWithService => _ <~ tell (IsHealth Unreachable) ;; act_ret GraceAway
          | _, _ => _ <~ tell (IsHealth ExitedDuringGrace) ;; act_ret (GraceFailed ExitedInGrace)
          end
  end.

(** [Runner::hold]. *)
Definition hold (failures : N) : Act World unit :=
  _ <~ tell (IsHealth (NotRestarting failures)) ;;
  _ <~ modify (set_child None) ;;
  o <~ gets owed ;;
  match o with
  | Some hash => _ <~ modify (set_owed None) ;; settle hash (Err (HeldAfter failures))
  | None => act_ret tt
  end.

(** The process failed to stay up. *)
Definition fail_start : Act World AfterFailure :=
  x <~ gets (λ s, policy_failed (policy s)) ;;
  _ <~ modify (on_policy (λ _, x.1)) ;;
  act_ret x.2.

Definition note_started : Act World unit := m <~ await ;; modify (on_policy (policy_started (now_ns m))).

(** [Runner::respawn_or_hold]: whether a shutdown was requested. *)
Definition respawn_or_hold : Act World bool :=
  next <~ fail_start ;;
  match next with
  | Hold failures => _ <~ hold failures ;; act_ret false
  | Retry =>
      m <~ await ;;
      _ <~ modify (λ s, set_backoff (advance (draw m) (backoff s)).2 s) ;;
      if shutting m then act_ret true
      else
        x <~ spawn_unless_shut ;;
        match x with
        | None => act_ret true
        | Some c => _ <~ modify (set_child c) ;; _ <~ note_started ;; act_ret false
        end
  end.

(** The acknowledgement of an owed configuration by the outcome of its start. *)
Definition decide_owed (hash : list N) (ran : bool) (outcome : GraceOutcome) : Act World bool :=
  match outcome with
  | GraceOk => _ <~ settle hash (Ok tt) ;; act_ret false
  | GraceFailed e => _ <~ settle hash (Err e) ;; if ran then respawn_or_hold else act_ret false
  | GraceShutting => act_ret true
  | GraceAway => _ <~ arm_waiting ;; _ <~ modify (set_owed (Some hash)) ;; act_ret false
  end.

(** [Runner::started]. *)
Definition take_in (started : option Child) : Act World bool :=
  let ran := bool_decide (is_Some started) in
  _ <~ (if ran then note_started else act_ret tt) ;;
  o <~ gets owed ;;
  match o with
  | None => _ <~ modify (set_child started) ;; act_ret false
  | Some hash =>
      _ <~ modify (set_owed None) ;;
      is_away <~ gets (λ s, away (waiting s)) ;;
      if negb ran && is_away then _ <~ modify (set_owed (Some hash)) ;; act_ret false
      else
        m <~ await ;;
        outcome <~ (if negb ran && negb (builds m) then act_ret GraceOk else gate started) ;;
        decide_owed hash ran outcome
  end.

(** ** Packages *)

Definition check : Act World Preflighted :=
  if negb (has_preflight r) then act_ret Passed
  else
    m <~ await ;;
    act_ret (match spawner r, flown m with
             | _, Passes => Passed
             | Channel, FlightAway refused => Unreached refused
             | _, _ => FlightRefused
             end).

Definition stage_and_check (artifact : string) : Act World (result (Staged * bool) RunError) :=
  match install_target r with
  | None => act_ret (Err NothingToReplace)
  | Some t =>
      x <~ on_site (stage t (shares r) artifact) ;;
      match x with
      | Err e => act_ret (Err e)
      | Ok s =>
          f <~ check ;;
          match f with
          | Passed => act_ret (Ok (s, true))
          | FlightRefused => _ <~ on_site (Programs.discard t s) ;; act_ret (Err DoesNotRun)
          | Unreached _ => act_ret (Ok (s, false))
          end
      end
  end.

(** [Runner::discard]. *)
Definition discard_parked (p : Parked) : Act World unit :=
  match install_target r with Some t => on_site (Programs.discard t (staged p)) | None => act_ret tt end.

Definition retain_backup (t : InstallTarget) : Act World unit :=
  if (retain_previous r =? 0)%N then on_site (drop_backup t)
  else m <~ await ;; on_site (retain t (saturating_add u64_max (now_unix m) (retain_previous r))).

Definition sweep_backup : Act World unit :=
  match install_target r with
  | Some t => m <~ await ;; _ <~ on_site (sweep t (now_unix m)) ;; act_ret tt
  | None => act_ret tt
  end.

Definition conclude (t : InstallTarget) (has_backup : bool) (outcome : GraceOutcome) : Act World Swapped :=
  _ <~ match outcome, has_backup with
       | GraceFailed _, true => _ <~ on_site (restore t) ;; act_ret tt
       | GraceFailed _, false => act_ret tt
       | _, true => retain_backup t
       | _, false => act_ret tt
       end ;;
  act_ret (Gated outcome).

(** The start of a package that was swapped in, and its gate. *)
Definition gate_package (started : result Child SpawnError) : Act World GraceOutcome :=
  match started with
  | Err (NotReached _) => _ <~ arm_waiting ;; act_ret GraceAway
  | Err _ =>
      m <~ await ;;
      _ <~ modify (on_waiting clear_waiting) ;;
      if negb (builds m) then act_ret GraceOk else gate None
  | Ok c =>
      _ <~ modify (on_waiting clear_waiting) ;;
      o <~ gate (Some c) ;;
      match o with GraceAway => _ <~ arm_waiting ;; act_ret GraceAway | _ => act_ret o end
  end.

(** The rest of [swap_and_gate] once the package is live. *)
Definition gate_swapped (t : InstallTarget) (s : Staged) (has_backup : bool) : Act World Swapped :=
  m <~ await ;;
  if shutting m then
    x <~ on_site (take_back t s has_backup) ;;
    _ <~ match x with Ok _ => on_site (Programs.discard t s) | Err _ => act_ret tt end ;;
    act_ret (Gated GraceShutting)
  else
    started <~ try_spawn ;;
    outcome <~ gate_package started ;;
    match outcome with
    | GraceAway =>
        x <~ on_site (take_back t s has_backup) ;;
        match x with Ok _ => act_ret (SwapParked s) | Err e => conclude t has_backup (GraceFailed e) end
    | _ => conclude t has_backup outcome
    end.

(** [Runner::swap_and_gate]. *)
Definition swap_and_gate (s : Staged) : Act World Swapped :=
  match install_target r with
  | None => act_ret (Gated (GraceFailed NothingToReplace))
  | Some t =>
      aside <~ on_site (set_aside t) ;;
      match aside with
      | Err e => _ <~ on_site (Programs.discard t s) ;; act_ret (Gated (GraceFailed e))
      | Ok has_backup =>
          x <~ on_site (commit t s) ;;
          match x with
          | Err e =>
              _ <~ (if has_backup then _ <~ on_site (restore t) ;; act_ret tt else act_ret tt) ;;
              _ <~ on_site (Programs.discard t s) ;;
              act_ret (Gated (GraceFailed e))
          | Ok _ => gate_swapped t s has_backup
          end
      end
  end.

Definition start_and_take_in : Act World bool :=
  x <~ spawn_unless_shut ;;
  match x with None => act_ret true | Some c => take_in c end.

(** [Runner::check_parked]. *)
Definition check_parked (p : Parked) : Act World Checked :=
  if checked p then act_ret (Ready p)
  else
    m <~ await ;;
    if shutting m then _ <~ modify (set_parked (Some p)) ;; act_ret (CheckDone true)
    else
      f <~ check ;;
      match f with
      | Passed => act_ret (Ready (mkParked (staged p) true (version p) (package_hash p)))
      | Unreached refused =>
          _ <~ arm_waiting ;;
          _ <~ tell (IsHealth (why_unreached refused)) ;;
          _ <~ modify (set_parked (Some p)) ;;
          act_ret (CheckDone false)
      | FlightRefused =>
          _ <~ discard_parked p ;;
          _ <~ tell (PackageApplied (package_hash p) (Err DoesNotRun)) ;;
          o <~ gets owed ;;
          match o with
          | None => act_ret (CheckDone false)
          | Some _ => _ <~ stop ;; shut <~ start_and_take_in ;; act_ret (CheckDone shut)
          end
      end.

(** What follows a package that was gated. *)
Definition after_gate (version : string) (hash : list N) (outcome : GraceOutcome) : Act World bool :=
  match outcome with
  | GraceOk =>
      c <~ gets child ;;
      _ <~ match c with
           | None => c <~ spawn_if_due ;; modify (set_child c)
           | Some _ => act_ret tt
           end ;;
      _ <~ note_started ;;
      _ <~ tell (PackageApplied hash (Ok version)) ;;
      o <~ gets owed ;;
      match o with
      | Some config => _ <~ modify (set_owed None) ;; _ <~ settle config (Ok tt) ;; act_ret false
      | None => act_ret false
      end
  | GraceFailed e =>
      _ <~ tell (PackageApplied hash (Err e)) ;;
      next <~ fail_start ;;
      match next with
      | Hold failures => _ <~ hold failures ;; act_ret false
      | Retry => start_and_take_in
      end
  | GraceShutting => act_ret true
  | GraceAway => act_ret false
  end.

(** [Runner::install]: whether a shutdown was requested. *)
Definition install (p : Parked) : Act World bool :=
  m <~ await ;;
  if shutting m then _ <~ modify (set_parked (Some p)) ;; act_ret true
  else
    x <~ reach ;;
    match x with
    | Some refused =>
        _ <~ arm_waiting ;;
        _ <~ tell (IsHealth (why_unreached refused)) ;;
        _ <~ modify (set_parked (Some p)) ;;
        act_ret false
    | None =>
        y <~ check_parked p ;;
        match y with
        | CheckDone shut => act_ret shut
        | Ready p =>
            _ <~ stop ;;
            z <~ swap_and_gate (staged p) ;;
            match z with
            | SwapParked s =>
                _ <~ modify (set_parked (Some (mkParked s true (version p) (package_hash p)))) ;;
                act_ret false
            | Gated outcome => after_gate (version p) (package_hash p) outcome
            end
        end
    end.

(** ** Configurations *)

(** [Runner::try_reload]. *)
Definition try_reload : Act World Reloaded :=
  c <~ gets child ;;
  match reload_signal r, c with
  | true, Some c =>
      _ <~ modify (set_child None) ;;
      m <~ await ;;
      if negb (alive m) then _ <~ modify (set_child (Some c)) ;; act_ret NotApplied
      else if shutting m then _ <~ modify (set_child (Some c)) ;; act_ret ReloadShutting
      else if negb (io_ok m) then _ <~ modify (set_child (Some c)) ;; act_ret NotApplied
      else if (apply_grace r =? 0)%N then _ <~ modify (set_child (Some c)) ;; act_ret Reapplied
      else
        m <~ await ;;
        if shutting m then _ <~ modify (set_child (Some c)) ;; act_ret ReloadShutting
        else match graced m with
             | Survives => _ <~ modify (set_child (Some c)) ;; act_ret Reapplied
             | _ => act_ret NotApplied
             end
  | _, _ => act_ret NotApplied
  end.

Definition give_fresh_chance : Act World unit :=
  modify (λ s, set_backoff BACKOFF_START (on_policy fresh_chance s)).

Definition take_parked : Act World (option Parked) :=
  p <~ gets parked ;; _ <~ modify (set_parked None) ;; act_ret p.

Definition apply_config (hash : list N) : Act World Turn :=
  _ <~ give_fresh_chance ;;
  _ <~ modify (set_owed None) ;;
  p <~ take_parked ;;
  match p with
  | Some p => _ <~ modify (set_owed (Some hash)) ;; shut <~ install p ;; act_ret (turn_of shut)
  | None =>
      x <~ try_reload ;;
      match x with
      | Reapplied => _ <~ settle hash (Ok tt) ;; act_ret Goes
      | ReloadShutting => act_ret Breaks
      | NotApplied =>
          _ <~ stop ;;
          c <~ spawn_if_due ;;
          _ <~ modify (set_owed (Some hash)) ;;
          shut <~ take_in c ;; act_ret (turn_of shut)
      end
  end.

Definition apply_package (artifact version : string) (hash : list N) : Act World Turn :=
  old <~ take_parked ;;
  _ <~ match old with Some p => discard_parked p | None => act_ret tt end ;;
  x <~ stage_and_check artifact ;;
  _ <~ on_site (remove_file artifact) ;;
  match x with
  | Err e => _ <~ tell (PackageApplied hash (Err e)) ;; act_ret Goes
  | Ok (s, ok) =>
      _ <~ give_fresh_chance ;;
      let p := mkParked s ok version hash in
      is_away <~ gets (λ s, away (waiting s)) ;;
      if is_away then _ <~ modify (set_parked (Some p)) ;; act_ret Goes
      else shut <~ install p ;; act_ret (turn_of shut)
  end.

Definition waits (s : Supervision) : bool := bool_decide (is_Some (owed s)) || bool_decide (is_Some (parked s)).

Definition restart : Act World Turn :=
  _ <~ stop ;;
  _ <~ give_fresh_chance ;;
  c <~ spawn_if_due ;;
  _ <~ modify (set_child c) ;;
  _ <~ (if bool_decide (is_Some c) then note_started else act_ret tt) ;;
  m <~ await ;;
  _ <~ modify (λ s, if negb (away (waiting s)) && waits s then on_waiting (due_now (now_ns m)) s else s) ;;
  act_ret Goes.

Definition receive (c : ProcessCommand) : Act World Turn :=
  _ <~ notes (Asked c) ;;
  match c with
  | ApplyConfig hash => apply_config hash
  | ApplyPackage artifact version hash => apply_package artifact version hash
  | Restart => restart
  | Uninstall => _ <~ stop ;; _ <~ tell Uninstalled ;; act_ret Returns
  | Shutdown => act_ret Breaks
  end.

(** ** The loop *)

(** The start that is due for what waits for the second service. *)
Definition retry_due : Act World Turn :=
  p <~ take_parked ;;
  match p with
  | Some p => shut <~ install p ;; act_ret (turn_of shut)
  | None =>
      _ <~ stop ;;
      x <~ spawn_unless_shut ;;
      match x with
      | None => act_ret Breaks
      | Some c => shut <~ take_in c ;; act_ret (turn_of shut)
      end
  end.

(** The program exited, or went with the second service. *)
Definition exited (with_service : bool) : Act World Turn :=
  if match spawner r with Channel => with_service | Local => false end then
    _ <~ modify (set_child None) ;;
    _ <~ tell (IsHealth Unreachable) ;;
    _ <~ arm_waiting ;;
    act_ret Goes
  else
    _ <~ modify (set_child None) ;;
    _ <~ tell (IsHealth ExitedUnexpectedly) ;;
    m <~ await ;;
    _ <~ modify (on_policy (policy_exited (now_ns m))) ;;
    shut <~ respawn_or_hold ;; act_ret (turn_of shut).

(** The branch of the loop's [select!] that is taken. *)
Inductive Choice :=
| Sweeps
| ComesDue
| Receives (c : option ProcessCommand)
| ProgramExits (with_service : bool)
| ShutsDown.

(** One round of the loop; a branch that cannot be taken is passed over. *)
Definition round (x : Choice) : Act World Turn :=
  s <~ gets id ;;
  match x with
  | Sweeps => _ <~ sweep_backup ;; act_ret Goes
  | ComesDue =>
      if bool_decide (is_Some (due (waiting s))) && (bool_decide (child s = None) || waits s) then retry_due else act_ret Goes
  | Receives (Some c) => receive c
  | Receives None => act_ret Breaks
  | ProgramExits with_service => if bool_decide (is_Some (child s)) then exited with_service else act_ret Goes
  | ShutsDown => act_ret Breaks
  end.

(** The rounds in turn, as long as the loop goes on. *)
Fixpoint rounds (xs : list Choice) : Act World Turn :=
  match xs with
  | [] => act_ret Goes
  | x :: xs => t <~ round x ;; match t with Goes => rounds xs | _ => act_ret t end
  end.

(** The end of [Runner::run], once the loop is left. *)
Definition finish : Act World unit :=
  _ <~ stop ;;
  p <~ take_parked ;;
  match p with Some p => discard_parked p | None => act_ret tt end.

(** [Runner::run], up to the loop. *)
Definition begin_run : Act World unit :=
  m <~ await ;;
  _ <~ modify (λ _, mkSupervision None (policy_new (apply_grace r) (now_ns m)) BACKOFF_START waiting_new None None) ;;
  _ <~ sweep_backup ;;
  x <~ spawn_unless_shut ;;
  modify (set_child (default None x)).

Definition run (xs : list Choice) : Act World Turn :=
  _ <~ begin_run ;;
  t <~ rounds xs ;;
  match t with
  | Breaks => _ <~ finish ;; act_ret Breaks
  | _ => act_ret t
  end.
End Run.
