(* ===== verification/RunnerPort.v ===== *)
(** * What a Managed Process is asked, it answers

    The contract of [fleet-agent/src/supervisor/ports.rs]: a configuration is answered once, a package is
    answered once, and the only ones left unanswered are the one that waits for the second service, the
    ones a newer one replaced, and what a shutdown or an uninstall cut off. The contract is a machine of
    what is asked and told; the adapter's history is one of its runs. *)

From S2P Require Import Prelude RustStr Programs Runner.

Open Scope string_scope.
Open Scope list_scope.

(** ** Postconditions *)

Definition wp {S A} (m : Act S A) (Q : A → S → Prop) (s : S) : Prop := Q (m s).2 (m s).1.

Lemma wp_bind {S A B} (m : Act S A) (k : A → Act S B) Q s :
  wp m (λ a, wp (k a) Q) s → wp (act_bind m k) Q s.
Proof. unfold wp, act_bind. by destruct (m s). Qed.

Lemma wp_ret {S A} (a : A) (Q : A → S → Prop) s : Q a s → wp (act_ret a) Q s.
Proof. done. Qed.

Lemma wp_mono {S A} (m : Act S A) (Q Q' : A → S → Prop) s :
  wp m Q s → (∀ a s', Q a s' → Q' a s') → wp m Q' s.
Proof. unfold wp. auto. Qed.

Lemma wp_modify f (Q : unit → World → Prop) w : Q tt (mkWorld (site w) (f (sup w)) (history w)) → wp (modify f) Q w.
Proof. done. Qed.

Lemma wp_gets {A} (f : Supervision → A) Q w : Q (f (sup w)) w → wp (gets f) Q w.
Proof. done. Qed.

Lemma wp_notes h (Q : unit → World → Prop) w : Q tt (mkWorld (site w) (sup w) (history w ++ [h])) → wp (notes h) Q w.
Proof. done. Qed.

(** A step of code over [World] that is not a call. *)
Ltac wp_step :=
  lazymatch goal with
  | |- wp (act_bind _ _) _ _ => apply wp_bind
  | |- wp (act_ret _) _ _ => apply wp_ret
  | |- wp (modify _) _ _ => apply wp_modify
  | |- wp (gets _) _ _ => apply wp_gets
  | |- wp (notes _) _ _ => apply wp_notes
  | |- wp (tell _) _ _ => apply wp_notes
  | |- wp (settle _ _) _ _ => apply wp_notes
  | |- wp stop _ _ => apply wp_modify
  end; cbn [sup site history].

(** ** The contract *)

(** The configuration and the package asked for and not answered. *)
Record Asks := mkAsks {
  asked_config : option (list N);
  asked_package : option (list N);
}.

(** What may be asked or told next: a configuration or a package is told of only while it is asked
    for, and a newer one takes the place of the one before. *)
Definition port (a : Asks) (h : Happened) : option Asks :=
  match h with
  | Asked (ApplyConfig hash) => Some (mkAsks (Some hash) (asked_package a))
  | Asked (ApplyPackage _ _ hash) => Some (mkAsks (asked_config a) (Some hash))
  | Told (ConfigApplied hash _) =>
      if bool_decide (asked_config a = Some hash) then Some (mkAsks None (asked_package a)) else None
  | Told (PackageApplied hash _) =>
      if bool_decide (asked_package a = Some hash) then Some (mkAsks (asked_config a) None) else None
  | _ => Some a
  end.

Definition port_run (l : list Happened) : option Asks := foldl (λ a h, a ≫= λ a, port a h) (Some (mkAsks None None)) l.

Lemma port_run_snoc l h : port_run (l ++ [h]) = port_run l ≫= λ a, port a h.
Proof. unfold port_run. by rewrite foldl_app. Qed.

(** The contract was kept, and this is what is still asked for. *)
Definition at_port (c p : option (list N)) (w : World) : Prop := port_run (history w) = Some (mkAsks c p).

Definition kept_port (w : World) : Prop := ∃ c p, at_port c p w.

(** Between two rounds what is asked for is what the adapter keeps. *)
Definition idle (w : World) : Prop := at_port (owed (sup w)) (package_hash <$> parked (sup w)) w.

(** After a call that answers whether a shutdown was requested. *)
Definition idle_unless (shut : bool) (w : World) : Prop := kept_port w ∧ (shut = false → idle w).

(** A host before its adapter runs: [run] sets the supervision itself. *)
Definition before_run (s : Site) : World :=
  mkWorld s (mkSupervision None (policy_new 0 0) BACKOFF_START waiting_new None None) [].

(** ** Calls that answer nothing *)

Definition keeps (w w' : World) : Prop :=
  owed (sup w') = owed (sup w) ∧ parked (sup w') = parked (sup w) ∧ ∀ c p, at_port c p w → at_port c p w'.

Definition quiet {A} (m : Act World A) : Prop := ∀ w, wp m (λ _, keeps w) w.

#[export] Instance keeps_preorder : PreOrder keeps.
Proof. split; [by intros w|]. intros w1 w2 w3 (?&?&H1) (?&?&H2). split; [congruence|]. split; [congruence|auto]. Qed.

Lemma wp_quiet {A} (m : Act World A) Q w : quiet m → (∀ a w', keeps w w' → Q a w') → wp m Q w.
Proof. intros H HQ. eapply wp_mono; [apply H|]. auto. Qed.

Create HintDb runner.

Lemma quiet_ret {A} (a : A) : quiet (act_ret a).
Proof. intros w. by apply wp_ret. Qed.

Lemma quiet_bind {A B} (m : Act World A) (k : A → Act World B) : quiet m → (∀ a, quiet (k a)) → quiet (act_bind m k).
Proof.
  intros Hm Hk w. apply wp_bind. apply wp_quiet; [done|]. intros a w1 H1. apply wp_quiet; [done|]. intros _ w2 H2.
  by transitivity w1.
Qed.

Lemma quiet_on_site {A} (m : Act Site A) : quiet (on_site m).
Proof. intros w. unfold wp, on_site. destruct (m (site w)). by split_and!. Qed.

Lemma quiet_modify f : (∀ s, owed (f s) = owed s ∧ parked (f s) = parked s) → quiet (modify f).
Proof. intros H w. apply wp_modify. destruct (H (sup w)). by split_and!. Qed.

Lemma quiet_gets {A} (f : Supervision → A) : quiet (gets f).
Proof. intros w. by apply wp_gets. Qed.

Definition silent (e : ProcessEvent) : bool := match e with ConfigApplied _ _ | PackageApplied _ _ => false | _ => true end.

Lemma quiet_tell e : silent e = true → quiet (tell e).
Proof. intros H w. apply wp_notes. split; [done|]. split; [done|]. intros c p Hp. unfold at_port. cbn. rewrite port_run_snoc, Hp. by destruct e. Qed.

#[export] Hint Resolve quiet_ret quiet_on_site quiet_gets : runner.

(** Quietness by the shape of the code. *)
Ltac quiet :=
  repeat first
    [ solve [auto with runner nocore]
    | apply quiet_bind; [|intros ?]
    | apply quiet_modify; by intros []
    | apply quiet_tell; reflexivity
    | apply quiet_on_site
    | lazymatch goal with
      | |- quiet (match ?x with _ => _ end) => destruct x
      | |- quiet (if ?b then _ else _) => destruct b
      | |- quiet (let _ := ?x in _) => cbv zeta
      end ].

Lemma quiet_await : quiet await.
Proof. apply quiet_on_site. Qed.
#[export] Hint Resolve quiet_await : runner.

Lemma quiet_arm_waiting : quiet arm_waiting.
Proof. unfold arm_waiting. quiet. Qed.
Lemma quiet_stop : quiet stop.
Proof. unfold stop. quiet. Qed.
Lemma quiet_note_started : quiet note_started.
Proof. unfold note_started. quiet. Qed.
Lemma quiet_fail_start : quiet fail_start.
Proof. unfold fail_start. quiet. Qed.
Lemma quiet_give_fresh_chance : quiet give_fresh_chance.
Proof. unfold give_fresh_chance. quiet. Qed.
#[export] Hint Resolve quiet_arm_waiting quiet_stop quiet_note_started quiet_fail_start quiet_give_fresh_chance : runner.

Section Port.
Context {arch : Archives} (r : Runner).

Lemma quiet_spawn_once retried : quiet (spawn_once r retried).
Proof. unfold spawn_once. quiet. Qed.

Lemma quiet_try_spawn tries : quiet (try_spawn_from r tries).
Proof.
  induction tries as [|tries IH]; cbn [try_spawn_from]; (apply quiet_bind; [apply quiet_spawn_once|]); intros x; quiet.
Qed.

Lemma quiet_spawn_if_due : quiet (spawn_if_due r).
Proof. unfold spawn_if_due, try_spawn. apply quiet_bind; [apply quiet_try_spawn|]. intros x. quiet. Qed.
Hint Resolve quiet_spawn_if_due : runner.

Lemma quiet_spawn_unless_shut : quiet (spawn_unless_shut r).
Proof. unfold spawn_unless_shut. quiet. Qed.
Lemma quiet_gate c : quiet (gate r c).
Proof. unfold gate. quiet. Qed.
Hint Resolve quiet_spawn_unless_shut quiet_gate : runner.

Lemma quiet_check : quiet (check r).
Proof. unfold check. quiet. Qed.
Lemma quiet_reach : quiet (reach r).
Proof. unfold reach. quiet. Qed.
Lemma quiet_discard_parked p : quiet (discard_parked r p).
Proof. unfold discard_parked. quiet. Qed.
Lemma quiet_sweep_backup : quiet (sweep_backup r).
Proof. unfold sweep_backup. quiet. Qed.
Lemma quiet_conclude t b o : quiet (conclude r t b o).
Proof. unfold conclude, retain_backup. quiet. Qed.
Lemma quiet_gate_package x : quiet (gate_package r x).
Proof. unfold gate_package. quiet. Qed.
Hint Resolve quiet_check quiet_reach quiet_discard_parked quiet_sweep_backup quiet_conclude quiet_gate_package : runner.

Lemma quiet_gate_swapped t s b : quiet (gate_swapped r t s b).
Proof. unfold gate_swapped, try_spawn. pose proof quiet_try_spawn. quiet. Qed.
Hint Resolve quiet_gate_swapped : runner.

Lemma quiet_swap_and_gate s : quiet (swap_and_gate r s).
Proof. unfold swap_and_gate. quiet. Qed.
Lemma quiet_try_reload : quiet (try_reload r).
Proof. unfold try_reload. quiet. Qed.
Lemma quiet_stage_and_check a : quiet (stage_and_check r a).
Proof. unfold stage_and_check. quiet. Qed.
Hint Resolve quiet_swap_and_gate quiet_try_reload quiet_stage_and_check : runner.

(** ** Calls that answer *)

(** A quiet call, and the state after it. *)
Ltac quietly :=
  lazymatch goal with
  | |- wp (act_bind _ _) _ _ => apply wp_bind; quietly
  | |- wp ?m _ _ => apply wp_quiet; [solve [quiet]|let a := fresh "a" in let w := fresh "w" in let H := fresh "Hk" in intros a w H]
  end.

Lemma at_told_config hash x c p w :
  at_port c p w → c = Some hash → at_port None p (mkWorld (site w) (sup w) (history w ++ [Told (ConfigApplied hash x)])).
Proof. intros H ->. unfold at_port. cbn. rewrite port_run_snoc, H. cbn. by rewrite bool_decide_true. Qed.

Lemma at_told_package hash x c p w :
  at_port c p w → p = Some hash → at_port c None (mkWorld (site w) (sup w) (history w ++ [Told (PackageApplied hash x)])).
Proof. intros H ->. unfold at_port. cbn. rewrite port_run_snoc, H. cbn. by rewrite bool_decide_true. Qed.

Lemma keeps_at c p w w' : keeps w w' → at_port c p w → at_port c p w'.
Proof. intros (_ & _ & H). apply H. Qed.

Lemma keeps_idle w w' : keeps w w' → idle w → idle w'.
Proof. intros (Ho & Hp & H). unfold idle. rewrite Ho, Hp. apply H. Qed.

Lemma idle_idle_unless shut w : idle w → idle_unless shut w.
Proof. intros H. split; [by do 2 eexists|done]. Qed.

Lemma shut_idle w c p : at_port c p w → idle_unless true w.
Proof. intros H. split; [by do 2 eexists|done]. Qed.

Lemma idle_hold n w : idle w → wp (hold n) (λ _, idle) w.
Proof.
  intros H. unfold hold. do 2 quietly. apply wp_bind, wp_gets.
  assert (H2 : idle w1) by (do 2 (eapply keeps_idle; [eassumption|]); done).
  destruct (owed (sup w1)) as [hash|] eqn:E; [|by apply wp_ret].
  repeat wp_step. unfold idle in *. cbn. eapply at_told_config; [|done]. exact H2.
Qed.

Lemma idle_respawn_or_hold w : idle w → wp (respawn_or_hold r) idle_unless w.
Proof.
  intros H. unfold respawn_or_hold. quietly. pose proof (keeps_idle _ _ Hk H) as H0. destruct a as [|n].
  - apply wp_quiet; [quiet|]. intros shut w1 Hk1. apply idle_idle_unless. by eapply keeps_idle.
  - apply wp_bind. eapply wp_mono; [by apply idle_hold|]. intros ? w1 H1. apply wp_ret. by apply idle_idle_unless.
Qed.

Lemma idle_decide_owed hash ran outcome w :
  owed (sup w) = None → at_port (Some hash) (package_hash <$> parked (sup w)) w →
  wp (decide_owed r hash ran outcome) idle_unless w.
Proof.
  intros Ho Hp. assert (Hs : ∀ x, idle (mkWorld (site w) (sup w) (history w ++ [Told (ConfigApplied hash x)]))).
  { intros x. unfold idle. cbn. rewrite Ho. by eapply at_told_config. }
  destruct outcome as [|e| |]; cbn [decide_owed].
  - repeat wp_step. by apply idle_idle_unless.
  - repeat wp_step. destruct ran; [by apply idle_respawn_or_hold|]. apply wp_ret. by apply idle_idle_unless.
  - apply wp_ret. by eapply shut_idle.
  - quietly. repeat wp_step. apply idle_idle_unless. destruct Hk as (_ & Hk & H). unfold idle. cbn. rewrite Hk. by apply H.
Qed.

Lemma idle_take_in c w : idle w → wp (take_in r c) idle_unless w.
Proof.
  intros H. unfold take_in. quietly. pose proof (keeps_idle _ _ Hk H) as H0. apply wp_bind, wp_gets.
  destruct (owed (sup w0)) as [hash|] eqn:E.
  - repeat wp_step. assert (Hp : at_port (Some hash) (package_hash <$> parked (sup w0)) w0) by (by rewrite <- E).
    destruct (negb _ && _).
    + repeat wp_step. apply idle_idle_unless. done.
    + quietly. quietly. apply idle_decide_owed.
      * destruct Hk1 as [-> _]. by destruct Hk0 as [-> _].
      * eapply keeps_at; [exact Hk1|]. eapply keeps_at; [exact Hk0|]. destruct Hk1 as (_ & -> & _), Hk0 as (_ & -> & _). exact Hp.
  - apply wp_quiet; [quiet|]. intros shut w1 Hk1. apply idle_idle_unless. by eapply keeps_idle.
Qed.

Lemma idle_start_and_take_in w : idle w → wp (start_and_take_in r) idle_unless w.
Proof.
  intros H. unfold start_and_take_in. quietly. pose proof (keeps_idle _ _ Hk H). destruct a as [c|]; [by apply idle_take_in|].
  apply wp_ret. by apply idle_idle_unless.
Qed.

(** A package in hand, asked for and not answered. *)
Definition in_hand (hash : list N) (w : World) : Prop :=
  parked (sup w) = None ∧ at_port (owed (sup w)) (Some hash) w.

Lemma keeps_in_hand hash w w' : keeps w w' → in_hand hash w → in_hand hash w'.
Proof. intros (Ho & Hp & H) [H1 H2]. unfold in_hand. rewrite Ho, Hp. auto. Qed.

Lemma in_hand_parked hash q w :
  in_hand hash w → package_hash q = hash → idle (mkWorld (site w) (set_parked (Some q) (sup w)) (history w)).
Proof. intros [_ H] <-. exact H. Qed.

Lemma in_hand_told hash x w :
  in_hand hash w → idle (mkWorld (site w) (sup w) (history w ++ [Told (PackageApplied hash x)])).
Proof. intros [Hn H]. unfold idle. cbn. rewrite Hn. by eapply at_told_package. Qed.

Lemma idle_check_parked p w :
  in_hand (package_hash p) w →
  wp (check_parked r p) (λ a w', match a with
    | Ready q => package_hash q = package_hash p ∧ in_hand (package_hash p) w'
    | CheckDone shut => idle_unless shut w'
    end) w.
Proof.
  intros H. unfold check_parked. destruct (checked p); [by apply wp_ret|]. quietly. pose proof (keeps_in_hand _ _ _ Hk H) as H0.
  destruct (shutting a).
  { repeat wp_step. apply idle_idle_unless. by eapply in_hand_parked. }
  quietly. pose proof (keeps_in_hand _ _ _ Hk0 H0) as H1. destruct a0 as [| |refused].
  - by apply wp_ret.
  - quietly. pose proof (keeps_in_hand _ _ _ Hk1 H1) as H2. repeat wp_step.
    pose proof (in_hand_told _ (Err DoesNotRun) _ H2) as H3. destruct (owed (sup w2)) as [h|].
    + quietly. apply wp_bind. eapply wp_mono; [apply idle_start_and_take_in; by eapply keeps_idle|]. intros shut w4 H4.
      by apply wp_ret.
    + apply wp_ret. by apply idle_idle_unless.
  - do 2 quietly. repeat wp_step. apply idle_idle_unless. eapply in_hand_parked; [|done]. by do 2 (eapply keeps_in_hand; [eassumption|]).
Qed.

Lemma idle_after_gate v hash outcome w :
  in_hand hash w → outcome ≠ GraceAway → wp (after_gate r v hash outcome) idle_unless w.
Proof.
  intros H Ho. destruct outcome as [|e| |]; cbn [after_gate]; [| | |done].
  - do 3 quietly. assert (H2 : in_hand hash w2) by by do 3 (eapply keeps_in_hand; [eassumption|]).
    repeat wp_step. pose proof (in_hand_told _ (Ok v) _ H2) as H3. unfold idle in H3. cbn in H3.
    destruct (owed (sup w2)) as [c|] eqn:E; repeat wp_step; apply idle_idle_unless; unfold idle; cbn; [|by rewrite E].
    by eapply (at_told_config c (Ok tt) (Some c) _ (mkWorld (site w2) (set_owed None (sup w2)) _)).
  - repeat wp_step. pose proof (in_hand_told _ (Err e) _ H) as H1. quietly. pose proof (keeps_idle _ _ Hk H1) as H2.
    destruct a as [|n]; [by apply idle_start_and_take_in|]. apply wp_bind. eapply wp_mono; [by apply idle_hold|].
    intros ? w1 H3. apply wp_ret. by apply idle_idle_unless.
  - apply wp_ret. destruct H as [_ H]. by eapply shut_idle.
Qed.

Lemma wp_any {A} (m : Act World A) (Q : A → World → Prop) w : (∀ a w', Q a w') → wp m Q w.
Proof. unfold wp. auto. Qed.

Lemma conclude_gated t b o w : wp (conclude r t b o) (λ z _, z = Gated o) w.
Proof. unfold conclude. apply wp_bind, wp_any. intros _ w'. by apply wp_ret. Qed.

(** A package that lost the second service is parked, never concluded. *)
Lemma swap_never_away s w : wp (swap_and_gate r s) (λ z _, z ≠ Gated GraceAway) w.
Proof.
  assert (Hc : ∀ t b o w0, o ≠ GraceAway → wp (conclude r t b o) (λ z _, z ≠ Gated GraceAway) w0).
  { intros t b o w0 Ho. eapply wp_mono; [apply conclude_gated|]. by intros z ? -> [=]. }
  unfold swap_and_gate. destruct (install_target r) as [t|]; [|by apply wp_ret].
  apply wp_bind, wp_any. intros [b|e] w1; [|by apply wp_bind, wp_any; intros; apply wp_ret].
  apply wp_bind, wp_any. intros [[]|e] w2; [|by do 2 (apply wp_bind, wp_any; intros); apply wp_ret].
  unfold gate_swapped. apply wp_bind, wp_any. intros m w3. destruct (shutting m).
  { by do 2 (apply wp_bind, wp_any; intros); apply wp_ret. }
  do 2 (apply wp_bind, wp_any; intros). case_match; [by apply Hc..|]. apply wp_bind, wp_any. intros [[]|e] w6; [by apply wp_ret|by apply Hc].
Qed.

Lemma wp_and {A} (m : Act World A) (Q Q' : A → World → Prop) w : wp m Q w → wp m Q' w → wp m (λ a w, Q a w ∧ Q' a w) w.
Proof. by split. Qed.

Lemma idle_install p w : in_hand (package_hash p) w → wp (install r p) idle_unless w.
Proof.
  intros H. unfold install. quietly. pose proof (keeps_in_hand _ _ _ Hk H) as H0. destruct (shutting a).
  { repeat wp_step. apply idle_idle_unless. by eapply in_hand_parked. }
  quietly. pose proof (keeps_in_hand _ _ _ Hk0 H0) as H1. destruct a0 as [refused|].
  { do 2 quietly. repeat wp_step. apply idle_idle_unless. eapply in_hand_parked; [|done].
    by do 2 (eapply keeps_in_hand; [eassumption|]). }
  apply wp_bind. eapply wp_mono; [by apply idle_check_parked|]. intros [q|shut] w2 H2; [|by apply wp_ret].
  destruct H2 as [Hq H2]. quietly. pose proof (keeps_in_hand _ _ _ Hk1 H2) as H3.
  apply wp_bind. eapply wp_mono; [apply wp_and; [apply swap_never_away|apply quiet_swap_and_gate]|].
  intros z w4 [Hz H4]. pose proof (keeps_in_hand _ _ _ H4 H3) as H5. rewrite Hq in *. destruct z as [o|s].
  - apply idle_after_gate; [done|]. congruence.
  - repeat wp_step. apply idle_idle_unless. by eapply in_hand_parked.
Qed.

(** ** The rounds *)

(** After a round: the contract was kept, and between rounds what is asked for is what is kept. *)
Definition in_turn (t : Turn) (w : World) : Prop := kept_port w ∧ (t = Goes → idle w).

Lemma wp_turn (m : Act World bool) w :
  wp m idle_unless w → wp (shut <~ m ;; act_ret (turn_of shut)) in_turn w.
Proof.
  intros H. apply wp_bind. eapply wp_mono; [exact H|]. intros shut w' [H1 H2]. apply wp_ret. split; [done|].
  destruct shut; [done|auto].
Qed.

Lemma in_turn_idle t w : idle w → in_turn t w.
Proof. intros H. split; [by do 2 eexists|done]. Qed.

Lemma in_turn_broken c p w : at_port c p w → in_turn Breaks w.
Proof. intros H. split; [by do 2 eexists|done]. Qed.

(** The package that waited, taken in hand. *)
Lemma wp_take_parked (Q : option Parked → World → Prop) w :
  Q (parked (sup w)) (mkWorld (site w) (set_parked None (sup w)) (history w)) → wp take_parked Q w.
Proof. done. Qed.

Lemma turn_apply_config hash w :
  at_port (Some hash) (package_hash <$> parked (sup w)) w → wp (apply_config r hash) in_turn w.
Proof.
  intros H. unfold apply_config. quietly. wp_step. wp_step. apply wp_bind, wp_take_parked. cbn [parked set_owed sup].
  destruct Hk as (_ & Hp & Hk). rewrite Hp. apply Hk in H. destruct (parked (sup w)) as [q|] eqn:E.
  - wp_step. wp_step. apply wp_turn, idle_install. by split.
  - quietly. pose proof (keeps_at _ _ _ _ Hk0 H) as H1. destruct Hk0 as (Ho & Hp1 & _). cbn in Ho, Hp1. destruct a0.
    + repeat wp_step. apply in_turn_idle. unfold idle. cbn. rewrite Ho, Hp1. by eapply at_told_config.
    + do 2 quietly. wp_step. wp_step. apply wp_turn, idle_take_in. unfold idle. cbn.
      destruct Hk0 as (_ & Hp2 & Hk2), Hk1 as (_ & Hp3 & Hk3). rewrite Hp3, Hp2, Hp1. by apply Hk3, Hk2.
    + apply wp_ret. by eapply in_turn_broken.
Qed.

Lemma turn_apply_package artifact v hash w :
  at_port (owed (sup w)) (Some hash) w → wp (apply_package r artifact v hash) in_turn w.
Proof.
  intros H. unfold apply_package. apply wp_bind, wp_take_parked. do 3 quietly.
  assert (H2 : in_hand hash w2).
  { do 3 (eapply keeps_in_hand; [eassumption|]). by split. }
  clear Hk Hk0 Hk1. destruct a0 as [[s ok]|e].
  - quietly. pose proof (keeps_in_hand _ _ _ Hk H2) as H3. wp_step. wp_step. destruct (away _).
    + repeat wp_step. apply in_turn_idle. by eapply in_hand_parked.
    + by apply wp_turn, idle_install.
  - repeat wp_step. by apply in_turn_idle, in_hand_told.
Qed.

Lemma turn_quiet (m : Act World Turn) w : quiet m → idle w → wp m in_turn w.
Proof. intros Hm H. apply wp_quiet; [done|]. intros t w' Hk. apply in_turn_idle. by eapply keeps_idle. Qed.

Lemma quiet_restart : quiet (restart r).
Proof.
  unfold restart. do 5 (apply quiet_bind; [quiet|intros ?]). apply quiet_bind; [quiet|intros m]. apply quiet_bind; [|quiet].
  apply quiet_modify. intros s. by destruct (negb _ && _).
Qed.

Lemma turn_receive c w : idle w → wp (receive r c) in_turn w.
Proof.
  intros H. unfold receive. wp_step. wp_step.
  assert (Hc : ∀ c' p', port (mkAsks (owed (sup w)) (package_hash <$> parked (sup w))) (Asked c) = Some (mkAsks c' p') →
    at_port c' p' (mkWorld (site w) (sup w) (history w ++ [Asked c]))).
  { intros c' p' E. unfold at_port. cbn. by rewrite port_run_snoc, H. }
  destruct c as [hash|artifact v hash| | |].
  - apply turn_apply_config. by apply Hc.
  - apply turn_apply_package. by apply Hc.
  - apply turn_quiet; [apply quiet_restart|]. by apply Hc.
  - apply wp_ret. apply in_turn_idle. by apply Hc.
  - apply turn_quiet; [quiet|]. by apply Hc.
Qed.

Lemma turn_retry_due w : idle w → wp (retry_due r) in_turn w.
Proof.
  intros H. unfold retry_due. apply wp_bind, wp_take_parked. unfold idle in H. destruct (parked (sup w)) as [p|] eqn:E.
  - apply wp_turn, idle_install. by split.
  - do 2 quietly. assert (H1 : idle w1).
    { do 2 (eapply keeps_idle; [eassumption|]). exact H. }
    destruct a0 as [c|]; [by apply wp_turn, idle_take_in|]. apply wp_ret. by apply in_turn_idle.
Qed.

Lemma turn_exited b w : idle w → wp (exited r b) in_turn w.
Proof.
  intros H. unfold exited. destruct (match spawner r with Local => _ | Channel => _ end).
  - apply turn_quiet; [quiet|done].
  - do 4 quietly. apply wp_turn, idle_respawn_or_hold. by do 4 (eapply keeps_idle; [eassumption|]).
Qed.

Lemma turn_round x w : idle w → wp (round r x) in_turn w.
Proof.
  intros H. unfold round. wp_step. wp_step. destruct x as [| |[c|]|b|].
  - apply turn_quiet; [quiet|done].
  - destruct (_ && _); [by apply turn_retry_due|]. apply wp_ret. by apply in_turn_idle.
  - by apply turn_receive.
  - apply wp_ret. by apply in_turn_idle.
  - destruct (bool_decide _); [by apply turn_exited|]. apply wp_ret. by apply in_turn_idle.
  - apply wp_ret. by apply in_turn_idle.
Qed.

Lemma turn_rounds xs w : idle w → wp (rounds r xs) in_turn w.
Proof.
  revert w. induction xs as [|x xs IH]; intros w H; cbn [rounds]; [apply wp_ret; by apply in_turn_idle|].
  apply wp_bind. eapply wp_mono; [by apply turn_round|]. intros t w1 [H1 H2].
  destruct t; [by apply IH, H2|by apply wp_ret; split..].
Qed.

Lemma idle_begin s : wp (begin_run r) (λ _, idle) (before_run s).
Proof.
  unfold begin_run. quietly. wp_step. wp_step. do 2 quietly.
  apply wp_quiet; [quiet|]. intros _ w3 Hk2. do 3 (eapply keeps_idle; [eassumption|]). destruct Hk as (_ & _ & Hk).
  unfold idle. cbn. apply Hk. done.
Qed.

(** C5: what a Managed Process's adapter is asked, it answers. Through any rounds of its loop, with whatever
    starts, graces, preflights, file operations and outages of the second service, its history is a run of
    the port's contract: it tells of a configuration or a package only while that one is asked for, so at
    most once, and never of one a newer one replaced. As long as no shutdown or uninstall ends the loop,
    nothing asked for is lost: what is unanswered is the configuration it owes and the package it parked. *)
Theorem what_is_asked_is_answered s xs :
  let (w, t) := run r xs (before_run s) in
  ∃ a, port_run (history w) = Some a ∧
    (t = Goes → asked_config a = owed (sup w) ∧ asked_package a = package_hash <$> parked (sup w)).
Proof.
  cut (wp (run r xs) in_turn (before_run s)).
  { unfold wp. destruct (run r xs _) as [w t]. intros [(c & p & H) Hg]. eexists. split; [exact H|]. intros Ht. cbn.
    specialize (Hg Ht). unfold idle, at_port in *. rewrite H in Hg. by injection Hg as -> ->. }
  unfold run. apply wp_bind. eapply wp_mono; [apply idle_begin|]. intros ? w H. apply wp_bind.
  eapply wp_mono; [by apply turn_rounds|]. intros t w1 [H1 H2]. destruct t; [by apply wp_ret; split| |by apply wp_ret; split].
  destruct H1 as (c & p & H1). unfold finish. quietly. pose proof (keeps_at _ _ _ _ Hk H1). apply wp_bind, wp_take_parked.
  apply wp_quiet; [quiet|]. intros _ w3 Hk3. apply wp_ret. eapply in_turn_broken. by eapply keeps_at.
Qed.
End Port.
