(* ===== verification/RunnerRetries.v ===== *)
(** * What waits for the second service is tried again

    A configuration that is owed its acknowledgement and a package that is parked are decided by a start
    that reaches the second service: one is always due, and it settles them once nothing goes wrong. *)

From S2P Require Import Prelude RustStr Programs Runner RunnerPort.

Open Scope string_scope.
Open Scope list_scope.

(** ** A start is due for what waits *)

(** A start is due whenever the second service is away. *)
Definition tended (s : Supervision) : Prop := away (waiting s) = true → is_Some (due (waiting s)).

Definition tends {A} (m : Act World A) : Prop := ∀ w, tended (sup w) → wp m (λ _ w', tended (sup w')) w.

(** A start is due for what waits. *)
Definition attended (s : Supervision) : Prop := tended s ∧ (waits s = true → is_Some (due (waiting s))).

Lemma tends_ret {A} (a : A) : tends (act_ret a).
Proof. by intros w. Qed.
Lemma tends_bind {A B} (m : Act World A) (k : A → Act World B) : tends m → (∀ a, tends (k a)) → tends (act_bind m k).
Proof. intros Hm Hk w H. apply wp_bind. eapply wp_mono; [by apply Hm|]. intros a w1 H1. by apply Hk. Qed.
Lemma tends_on_site {A} (m : Act Site A) : tends (on_site m).
Proof. intros w H. unfold wp, on_site. by destruct (m (site w)). Qed.
Lemma tends_modify f : (∀ s, tended s → tended (f s)) → tends (modify f).
Proof. intros H w Hw. apply wp_modify. cbn. auto. Qed.
Lemma tends_gets {A} (f : Supervision → A) : tends (gets f).
Proof. by intros w. Qed.
Lemma tends_notes h : tends (notes h).
Proof. by intros w. Qed.
Lemma tends_arm m : tends (modify (on_waiting (arm (now_ns m) (draw m)))).
Proof. apply tends_modify. intros s _ _. cbn. eauto. Qed.

#[export] Hint Resolve tends_ret tends_on_site tends_gets tends_notes tends_arm : runner.

Ltac tends :=
  repeat first
    [ solve [auto with runner nocore]
    | apply tends_bind; [|intros ?]
    | apply tends_on_site
    | apply tends_modify; by intros []
    | lazymatch goal with
      | |- tends (match ?x with _ => _ end) => destruct x
      | |- tends (let _ := ?x in _) => cbv zeta
      end ].

Lemma tends_tell e : tends (tell e).
Proof. apply tends_notes. Qed.
Lemma tends_await : tends await.
Proof. apply tends_on_site. Qed.
#[export] Hint Resolve tends_tell tends_await : runner.

Lemma tends_arm_waiting : tends arm_waiting.
Proof. unfold arm_waiting. tends. Qed.
Lemma tends_stop : tends stop.
Proof. unfold stop. tends. Qed.
Lemma tends_note_started : tends note_started.
Proof. unfold note_started. tends. Qed.
Lemma tends_fail_start : tends fail_start.
Proof. unfold fail_start. tends. Qed.
Lemma tends_give_fresh_chance : tends give_fresh_chance.
Proof. unfold give_fresh_chance. tends. Qed.
Lemma tends_settle h x : tends (settle h x).
Proof. apply tends_notes. Qed.
#[export] Hint Resolve tends_arm_waiting tends_stop tends_note_started tends_fail_start tends_give_fresh_chance tends_settle : runner.

Lemma tends_hold n : tends (hold n).
Proof. unfold hold. tends. Qed.
Lemma tends_take_parked : tends take_parked.
Proof. unfold take_parked. tends. Qed.
#[export] Hint Resolve tends_hold tends_take_parked : runner.

#[export] Hint Resolve quiet_spawn_if_due quiet_spawn_unless_shut quiet_gate quiet_check quiet_reach : runner.
#[export] Hint Resolve quiet_discard_parked quiet_sweep_backup quiet_conclude quiet_swap_and_gate quiet_try_reload quiet_stage_and_check : runner.

(** A call that changes nothing that waits, and the state after it. *)
Lemma wp_still {A} (m : Act World A) Q w :
  quiet m → tends m → tended (sup w) →
  (∀ a w', owed (sup w') = owed (sup w) → parked (sup w') = parked (sup w) → tended (sup w') → Q a w') → wp m Q w.
Proof.
  intros Hq Ht H HQ. eapply wp_mono; [apply (wp_and m (λ _, keeps w) (λ _ w', tended (sup w'))); [apply Hq|by apply Ht]|].
  intros a w' [(Ho & Hp & _) H']. auto.
Qed.

Ltac still :=
  lazymatch goal with
  | |- wp (act_bind _ _) _ _ => apply wp_bind; still
  | |- wp ?m _ _ =>
      apply wp_still; [solve [quiet]|solve [tends]|assumption|];
      let a := fresh "a" in let w := fresh "w" in let Ho := fresh "Ho" in let Hp := fresh "Hp" in let Ht := fresh "Ht" in
      intros a w Ho Hp Ht
  end.

Lemma nothing_waits s : tended s → owed s = None → parked s = None → attended s.
Proof. intros Ht Ho Hp. split; [done|]. unfold waits. rewrite Ho, Hp. by vm_compute. Qed.

Lemma attended_due s : is_Some (due (waiting s)) → attended s.
Proof. intros H. by split; intros ?. Qed.

Section Waits.
Context {arch : Archives} (r : Runner).

Lemma tends_try_spawn tries : tends (try_spawn_from r tries).
Proof.
  induction tries as [|tries IH]; cbn [try_spawn_from]; (apply tends_bind; [unfold spawn_once; tends|]); intros x; tends.
Qed.

Lemma tends_spawn_if_due : tends (spawn_if_due r).
Proof. unfold spawn_if_due, try_spawn. apply tends_bind; [apply tends_try_spawn|]. intros x. tends. Qed.
Hint Resolve tends_spawn_if_due : runner.
Lemma tends_spawn_unless_shut : tends (spawn_unless_shut r).
Proof. unfold spawn_unless_shut. tends. Qed.
Lemma tends_gate c : tends (gate r c).
Proof. unfold gate. tends. Qed.
Hint Resolve tends_spawn_unless_shut tends_gate : runner.
Lemma tends_respawn_or_hold : tends (respawn_or_hold r).
Proof. unfold respawn_or_hold. tends. Qed.
Hint Resolve tends_respawn_or_hold : runner.
Lemma tends_decide_owed h b o : tends (decide_owed r h b o).
Proof. unfold decide_owed. tends. Qed.
Hint Resolve tends_decide_owed : runner.
Lemma tends_take_in c : tends (take_in r c).
Proof. unfold take_in. tends. Qed.
Hint Resolve tends_take_in : runner.
Lemma tends_start_and_take_in : tends (start_and_take_in r).
Proof. unfold start_and_take_in. tends. Qed.
Lemma tends_check : tends (check r).
Proof. unfold check. tends. Qed.
Lemma tends_discard_parked p : tends (discard_parked r p).
Proof. unfold discard_parked. tends. Qed.
Hint Resolve tends_start_and_take_in tends_check tends_discard_parked : runner.
Lemma tends_check_parked p : tends (check_parked r p).
Proof. unfold check_parked. tends. Qed.
Lemma tends_conclude t b o : tends (conclude r t b o).
Proof. unfold conclude, retain_backup. tends. Qed.
Lemma tends_gate_package x : tends (gate_package r x).
Proof. unfold gate_package. tends. Qed.
Hint Resolve tends_check_parked tends_conclude tends_gate_package : runner.
Lemma tends_swap_and_gate s : tends (swap_and_gate r s).
Proof. unfold swap_and_gate, gate_swapped, try_spawn. pose proof tends_try_spawn. tends. Qed.
Lemma tends_after_gate v h o : tends (after_gate r v h o).
Proof. unfold after_gate. tends. Qed.
Lemma tends_reach : tends (reach r).
Proof. unfold reach. tends. Qed.
Hint Resolve tends_swap_and_gate tends_after_gate tends_reach : runner.
Lemma tends_install p : tends (install r p).
Proof. unfold install. tends. Qed.
Lemma tends_try_reload : tends (try_reload r).
Proof. unfold try_reload. tends. Qed.
Lemma tends_sweep_backup : tends (sweep_backup r).
Proof. unfold sweep_backup. tends. Qed.
Lemma tends_stage_and_check a : tends (stage_and_check r a).
Proof. unfold stage_and_check. tends. Qed.
Hint Resolve tends_install tends_try_reload tends_stage_and_check : runner.

(** After a call that answers whether a shutdown was requested. *)
Definition attended_unless (shut : bool) (w : World) : Prop := shut = false → attended (sup w).

Lemma attended_hold n w : tended (sup w) → parked (sup w) = None → wp (hold n) (λ _ w', attended (sup w')) w.
Proof.
  intros Ht Hp. unfold hold. do 2 still. apply wp_bind, wp_gets.
  destruct (owed (sup w1)) as [h|] eqn:E; repeat wp_step; apply nothing_waits; cbn; congruence || done.
Qed.

Lemma attended_respawn w :
  tended (sup w) → owed (sup w) = None → parked (sup w) = None → wp (respawn_or_hold r) attended_unless w.
Proof.
  intros Ht Ho Hp. unfold respawn_or_hold. still. destruct a as [|n].
  - apply wp_still; [quiet|tends|done|]. intros shut w1 ? ? ? _. apply nothing_waits; congruence || done.
  - apply wp_bind. eapply wp_mono; [apply attended_hold; congruence || done|]. intros ? w1 H. apply wp_ret. intros _. exact H.
Qed.

Lemma armed_due Q w :
  (∀ w', owed (sup w') = owed (sup w) → parked (sup w') = parked (sup w) → is_Some (due (waiting (sup w'))) → Q tt w') →
  wp arm_waiting Q w.
Proof.
  intros H. unfold arm_waiting. apply wp_bind. eapply wp_mono; [apply quiet_await|]. intros m w1 (Ho & Hp & _).
  apply wp_modify. apply H; [done..|]. cbn. eauto.
Qed.

Lemma attended_take_in c w : tended (sup w) → parked (sup w) = None → wp (take_in r c) attended_unless w.
Proof.
  intros Ht Hp. unfold take_in. still. apply wp_bind, wp_gets. destruct (owed (sup w0)) as [h|] eqn:E.
  - wp_step. wp_step. wp_step. wp_step. destruct (negb _ && away _) eqn:Ea.
    + repeat wp_step. intros _. apply attended_due. cbn. apply andb_true_iff in Ea as [_ Ea]. by apply Ht0.
    + still. still. destruct a1 as [|e| |]; cbn [decide_owed].
      * repeat wp_step. intros _. cbn. apply nothing_waits; [done|cbn in *; congruence..].
      * wp_step. wp_step. destruct (bool_decide _); [apply attended_respawn; cbn in *; congruence || done|].
        apply wp_ret. intros _. apply nothing_waits; cbn in *; congruence || done.
      * by apply wp_ret.
      * apply wp_bind, armed_due. intros w3 _ _ Hd. repeat wp_step. intros _. by apply attended_due.
  - repeat wp_step. intros _. cbn. apply nothing_waits; [done|cbn; congruence..].
Qed.

Lemma attended_start w : tended (sup w) → parked (sup w) = None → wp (start_and_take_in r) attended_unless w.
Proof.
  intros Ht Hp. unfold start_and_take_in. still. destruct a; [apply attended_take_in; congruence || done|by apply wp_ret].
Qed.

Lemma attended_check_parked p w :
  tended (sup w) → parked (sup w) = None →
  wp (check_parked r p) (λ a w', match a with
    | Ready _ => tended (sup w') ∧ parked (sup w') = None
    | CheckDone shut => attended_unless shut w'
    end) w.
Proof.
  intros Ht Hp. unfold check_parked. destruct (checked p); [by apply wp_ret|]. still. destruct (shutting a).
  { by repeat wp_step. }
  still. destruct a0 as [| |refused].
  - apply wp_ret. split; [done|congruence].
  - still. wp_step. wp_step. wp_step. wp_step. destruct (owed (sup w2)) eqn:E.
    + still. apply wp_bind. eapply wp_mono; [apply attended_start; cbn in *; congruence || done|]. intros shut w4 H. by apply wp_ret.
    + apply wp_ret. intros _. cbn. apply nothing_waits; congruence || done.
  - apply wp_bind, armed_due. intros w2 _ _ Hd. repeat wp_step. intros _. by apply attended_due.
Qed.

(** A package is parked with a start due. *)
Lemma gone_due x w : wp (gate_package r x) (λ o w', o = GraceAway → is_Some (due (waiting (sup w')))) w.
Proof.
  destruct x as [c|e]; cbn [gate_package].
  - apply wp_bind, wp_any. intros _ w1. apply wp_bind, wp_any. intros o w2. destruct o; try by apply wp_ret.
    apply wp_bind, armed_due. intros w3 _ _ Hd. by apply wp_ret.
  - assert (Hg : ∀ w0, wp (m <~ await;; _ <~ modify (on_waiting clear_waiting);; (if negb (builds m) then act_ret GraceOk else gate r None))
        (λ o w', o = GraceAway → is_Some (due (waiting (sup w')))) w0).
    { intros w0. do 2 (apply wp_bind, wp_any; intros). destruct (negb _); by apply wp_ret. }
    destruct e; try apply Hg. apply wp_bind, armed_due. intros w1 _ _ Hd. by apply wp_ret.
Qed.

Lemma on_site_sup {A} (m : Act Site A) Q w : (∀ a w', sup w' = sup w → Q a w') → wp (on_site m) Q w.
Proof. intros H. unfold wp, on_site. destruct (m (site w)) as [s a]. by apply H. Qed.

Lemma parked_due s w : wp (swap_and_gate r s) (λ z w', ∀ s', z = SwapParked s' → is_Some (due (waiting (sup w')))) w.
Proof.
  unfold swap_and_gate. destruct (install_target r) as [t|]; [|by apply wp_ret].
  assert (Hc : ∀ b o w0, wp (conclude r t b o) (λ z w', ∀ s', z = SwapParked s' → is_Some (due (waiting (sup w')))) w0).
  { intros b o w0. eapply wp_mono; [apply conclude_gated|]. by intros z ? ->. }
  apply wp_bind, wp_any. intros [b|e] w1; [|by apply wp_bind, wp_any; intros; apply wp_ret].
  apply wp_bind, wp_any. intros [[]|e] w2; [|by do 2 (apply wp_bind, wp_any; intros); apply wp_ret].
  unfold gate_swapped. apply wp_bind, wp_any. intros m w3. destruct (shutting m).
  { by do 2 (apply wp_bind, wp_any; intros); apply wp_ret. }
  apply wp_bind, wp_any. intros x w4. apply wp_bind. eapply wp_mono; [apply gone_due|]. intros o w5 Ho.
  destruct o; try apply Hc. apply wp_bind, on_site_sup. intros [[]|e] w6 E; [|apply Hc]. apply wp_ret. rewrite E. auto.
Qed.

Lemma attended_after_gate v h o w :
  tended (sup w) → parked (sup w) = None → o ≠ GraceAway → wp (after_gate r v h o) attended_unless w.
Proof.
  intros Ht Hp Ho. destruct o as [|e| |]; cbn [after_gate]; [| |by apply wp_ret|done].
  - do 3 still. wp_step. wp_step. wp_step. wp_step. destruct (owed (sup w2)) eqn:E; repeat wp_step; intros _; cbn;
      apply nothing_waits; cbn; congruence || done.
  - wp_step. wp_step. still. cbn in *. destruct a as [|n]; [apply attended_start; congruence || done|].
    apply wp_bind. eapply wp_mono; [apply attended_hold; congruence || done|]. intros ? w1 H. apply wp_ret. intros _. exact H.
Qed.

Lemma attended_install p w : tended (sup w) → parked (sup w) = None → wp (install r p) attended_unless w.
Proof.
  intros Ht Hp. unfold install. still. destruct (shutting a); [by repeat wp_step|]. still. destruct a0 as [refused|].
  { apply wp_bind, armed_due. intros w2 _ _ Hd. repeat wp_step. intros _. by apply attended_due. }
  apply wp_bind. eapply wp_mono; [apply attended_check_parked; congruence || done|].
  intros [q|shut] w2 H; [|by apply wp_ret]. destruct H as [Ht2 Hp2]. still.
  apply wp_bind. eapply wp_mono; [apply wp_and; [apply wp_and; [apply parked_due|apply swap_never_away]|
    apply wp_and; [apply quiet_swap_and_gate|by apply tends_swap_and_gate]]|].
  intros z w4 [[Hd Hz] [(_ & Hp4 & _) Ht4]]. destruct z as [o|s].
  - apply attended_after_gate; congruence || done.
  - repeat wp_step. intros _. apply attended_due. by eapply Hd.
Qed.

(** ** The rounds *)

(** An exit that is the program's own, not one with the second service. *)
Definition own_exit (x : Choice) : bool :=
  match x with ProgramExits b => negb match spawner r with Channel => b | Local => false end | _ => false end.

Definition attended_turn (t : Turn) (w : World) : Prop := t = Goes → attended (sup w).

Lemma attended_of_bool (m : Act World bool) w :
  wp m attended_unless w → wp (shut <~ m ;; act_ret (turn_of shut)) attended_turn w.
Proof.
  intros H. apply wp_bind. eapply wp_mono; [exact H|]. intros [] w1 H1; apply wp_ret; [done|]. intros _. by apply H1.
Qed.

Lemma stays_attended t w : attended (sup w) → wp (act_ret t) attended_turn w.
Proof. by intros H _. Qed.

Lemma attended_apply_config h w : tended (sup w) → wp (apply_config r h) attended_turn w.
Proof.
  intros Ht. unfold apply_config. still. wp_step. wp_step. apply wp_bind, wp_take_parked. cbn [parked set_owed sup].
  destruct (parked (sup w0)) as [q|].
  - wp_step. wp_step. by apply attended_of_bool, attended_install.
  - still. cbn in *. destruct a0.
    + repeat wp_step. intros _. apply nothing_waits; cbn; congruence || done.
    + do 2 still. wp_step. wp_step. apply attended_of_bool, attended_take_in; cbn; congruence || done.
    + by apply wp_ret.
Qed.

Lemma attended_apply_package a v h w : attended (sup w) → wp (apply_package r a v h) attended_turn w.
Proof.
  intros [Ht Hd]. unfold apply_package. apply wp_bind, wp_take_parked.
  (* waiting is untouched until the package is staged *)
  assert (Hq : ∀ {A} (m : Act World A) Q w0, (∀ a w', sup w' = sup w0 → Q a w') →
    (∀ w1, sup (m w1).1 = sup w1) → wp m Q w0) by (intros A m Q w0 H1 H2; unfold wp; auto).
  apply wp_bind, Hq; [|by intros w1; destruct (parked (sup w)); [unfold discard_parked, on_site; repeat case_match|]].
  intros _ w1 H1. apply wp_bind, Hq.
  2: { intros w2. unfold stage_and_check, check, await, on_site, act_bind, act_ret. repeat case_match; simplify_eq; done. }
  intros x w2 H2. apply wp_bind, on_site_sup. intros _ w3 H3. rewrite H2, H1 in H3. cbn in H3.
  assert (Ht3 : tended (sup w3)) by (by rewrite H3).
  destruct x as [[s ok]|e].
  - still. wp_step. wp_step. destruct (away _) eqn:Ea.
    + repeat wp_step. intros _. apply attended_due. cbn. by apply Ht0.
    + apply attended_of_bool, attended_install; [done|]. by rewrite Hp, H3.
  - repeat wp_step. intros _. cbn. rewrite H3. split; [done|]. unfold waits in *. cbn. rewrite orb_false_r. intros Ho.
    apply Hd. by rewrite Ho.
Qed.

Lemma attended_restart w : tended (sup w) → wp (restart r) attended_turn w.
Proof.
  intros Ht. unfold restart. do 6 still. apply wp_bind, wp_modify. apply wp_ret. intros _. cbn.
  destruct (away (waiting (sup w5))) eqn:Ea; cbn.
  - apply attended_due. by apply Ht5.
  - destruct (waits (sup w5)) eqn:Ew; [by apply attended_due; cbn; eauto|]. split; [done|]. by rewrite Ew.
Qed.

Lemma attended_retry_due w : tended (sup w) → wp (retry_due r) attended_turn w.
Proof.
  intros Ht. unfold retry_due. apply wp_bind, wp_take_parked. destruct (parked (sup w)) as [p|] eqn:E.
  - by apply attended_of_bool, attended_install.
  - do 2 still. destruct a0 as [c|]; [|by apply wp_ret]. apply attended_of_bool, attended_take_in; cbn in *; congruence || done.
Qed.

Lemma waits_false s : waits s = false → owed s = None ∧ parked s = None.
Proof.
  unfold waits. intros [H1 H2]%orb_false_iff. apply bool_decide_eq_false in H1, H2.
  split; [destruct (owed s)|destruct (parked s)]; [destruct H1|..|destruct H2|]; eauto.
Qed.

Lemma attended_round x w :
  attended (sup w) → (own_exit x = true → waits (sup w) = false) → wp (round r x) attended_turn w.
Proof.
  intros H Hx. pose proof H as [Ht _]. unfold round. wp_step. wp_step. destruct x as [| |[c|]|b|].
  - apply wp_bind. unfold sweep_backup. destruct (install_target r).
    + unfold await. apply wp_bind, on_site_sup. intros m w1 H1. apply wp_bind, on_site_sup. intros b w2 H2. apply wp_ret, wp_ret.
      intros _. by rewrite H2, H1.
    + do 2 apply wp_ret. intros _. exact H.
  - destruct (_ && _); [by apply attended_retry_due|by apply stays_attended].
  - unfold receive. wp_step. wp_step. destruct c.
    + by apply attended_apply_config.
    + by apply attended_apply_package.
    + by apply attended_restart.
    + by apply wp_ret.
    + by repeat wp_step.
  - by apply wp_ret.
  - destruct (bool_decide _); [|by apply stays_attended]. unfold exited. cbn in Hx.
    destruct (match spawner r with Local => _ | Channel => _ end).
    + do 2 still. apply wp_bind, armed_due. intros w3 _ _ Hd. apply wp_ret. intros _. by apply attended_due.
    + destruct (waits_false _ (Hx eq_refl)) as [Ho Hp]. do 4 still. cbn in *. apply attended_of_bool, attended_respawn; congruence || done.
  - by apply wp_ret.
Qed.

(** No program exits by itself while something waits. *)
Fixpoint heeds (xs : list Choice) (w : World) : bool :=
  match xs with
  | [] => true
  | x :: xs =>
      negb (own_exit x && waits (sup w)) &&
      (let (w, t) := round r x w in match t with Goes => heeds xs w | _ => true end)
  end.

Lemma attended_rounds xs w : attended (sup w) → heeds xs w = true → wp (rounds r xs) attended_turn w.
Proof.
  revert w. induction xs as [|x xs IH]; intros w H Hh; [by intros _|]. cbn [rounds heeds] in *.
  apply andb_true_iff in Hh as [Hx Hh]. apply wp_bind.
  assert (Hr : wp (round r x) attended_turn w).
  { apply attended_round; [done|]. intros Ho. rewrite Ho in Hx. by destruct (waits (sup w)). }
  unfold wp in *. destruct (round r x w) as [w1 []]; cbn in *; [|done..]. apply IH; [by apply Hr|done].
Qed.
End Waits.

#[export] Hint Resolve tends_spawn_if_due tends_spawn_unless_shut tends_gate tends_sweep_backup : runner.

(** ** The start that is due settles what waits *)

(** ** The moments of a file operation *)

(** A file operation takes the moments in their order. *)
Definition draws {A} (m : Act Site A) : Prop := ∀ s, ∃ l, moments s = l ++ moments (m s).1.

Lemma draws_ret {A} (a : A) : draws (act_ret a).
Proof. intros s. by exists []. Qed.
Lemma draws_bind {A B} (m : Act Site A) (k : A → Act Site B) : draws m → (∀ a, draws (k a)) → draws (act_bind m k).
Proof.
  intros Hm Hk s. unfold act_bind. destruct (Hm s) as [l1 E1], (m s) as [s1 a]. destruct (Hk a s1) as [l2 E2].
  exists (l1 ++ l2). cbn in E1. by rewrite E1, E2, app_assoc.
Qed.
Lemma draws_moment : draws moment.
Proof. intros s. unfold moment. destruct (moments s) as [|m ms] eqn:E; [exists []|exists [m]]; cbn; by rewrite ?E. Qed.
Lemma draws_get_disk : draws get_disk.
Proof. intros s. by exists []. Qed.
Lemma draws_set_disk f : draws (set_disk f).
Proof. intros s. by exists []. Qed.

#[export] Hint Resolve draws_ret draws_moment draws_get_disk draws_set_disk : runner.

Ltac draws :=
  repeat first
    [ solve [auto with runner nocore]
    | apply draws_bind; [|intros ?]
    | lazymatch goal with
      | |- draws (match ?x with _ => _ end) => destruct x
      | |- draws (let _ := ?x in _) => cbv zeta
      end ].

Lemma draws_renamed b f t : draws (renamed b f t).
Proof. unfold renamed. draws. Qed.
#[export] Hint Resolve draws_renamed : runner.
Lemma draws_rename f t : draws (rename f t).
Proof. unfold rename. draws. Qed.
Lemma draws_rename_back f t : draws (rename_back f t).
Proof. unfold rename_back. draws. Qed.
Lemma draws_remove_file p : draws (remove_file p).
Proof. unfold remove_file. draws. Qed.
Lemma draws_remove_dir_all p : draws (remove_dir_all p).
Proof. unfold remove_dir_all. draws. Qed.
#[export] Hint Resolve draws_rename draws_rename_back draws_remove_file draws_remove_dir_all : runner.
Lemma draws_remove t p : draws (remove t p).
Proof. unfold remove. draws. Qed.
#[export] Hint Resolve draws_remove : runner.
Lemma draws_drop_backup t : draws (drop_backup t).
Proof. unfold drop_backup. draws. Qed.
#[export] Hint Resolve draws_drop_backup : runner.
Lemma draws_set_aside t : draws (set_aside t).
Proof. unfold set_aside. draws. Qed.
Lemma draws_commit t s : draws (commit t s).
Proof. unfold commit. draws. Qed.
Lemma draws_discard t s : draws (Programs.discard t s).
Proof. unfold Programs.discard. draws. Qed.
Lemma draws_restore t : draws (restore t).
Proof. unfold restore. draws. Qed.
#[export] Hint Resolve draws_set_aside draws_commit draws_discard draws_restore : runner.
Lemma draws_take_back t s b : draws (take_back t s b).
Proof. unfold take_back. draws. Qed.
Lemma draws_retain t n : draws (retain t n).
Proof. unfold retain. draws. Qed.
Lemma draws_read_file p : draws (read_file p).
Proof. unfold read_file. draws. Qed.
#[export] Hint Resolve draws_take_back draws_retain draws_read_file : runner.
Lemma draws_sweep t n : draws (sweep t n).
Proof. unfold sweep. draws. Qed.
#[export] Hint Resolve draws_sweep : runner.

Lemma draws_stage {arch : Archives} t b a : draws (stage t b a).
Proof.
  unfold stage, stage_executable, stage_tree, write_program, unpack_tree, write_out, make_executable, share_staged, create_dir_all.
  draws.
Qed.
#[export] Hint Resolve draws_stage : runner.

(** ** When nothing goes wrong *)

Definition calm_world (w : World) : Prop := moments (site w) = [].

Lemma wp_await_calm Q w : calm_world w → Q calm w → wp await Q w.
Proof. intros Hc HQ. unfold wp, await, on_site, moment. rewrite Hc. by destruct w. Qed.

Lemma wp_site_calm {A} (m : Act Site A) Q w :
  draws m → calm_world w → (∀ a w', calm_world w' → sup w' = sup w → Q a w') → wp (on_site m) Q w.
Proof.
  intros Hm Hc HQ. unfold wp, on_site. destruct (Hm (site w)) as [l E], (m (site w)) as [s a]. apply HQ; [|done].
  unfold calm_world in *. cbn in *. rewrite Hc in E. by destruct (app_eq_nil _ _ (eq_sym E)).
Qed.

(** One step of code when nothing goes wrong. *)
Ltac calmly :=
  lazymatch goal with
  | |- wp (act_bind _ _) _ _ => apply wp_bind; calmly
  | |- wp await _ _ => apply wp_await_calm; [assumption|]
  | |- wp (on_site _) _ _ =>
      apply wp_site_calm; [solve [draws]|assumption|];
      let a := fresh "a" in let w := fresh "w" in let H := fresh "Hc" in let E := fresh "Hs" in intros a w H E
  | |- _ => wp_step
  end; cbn [calm shutting io_ok builds service graced flown now_ns now_unix draw spawned alive negb owed parked on_policy set_child set_owed set_parked on_waiting set_backoff].

Section Calm.
Context {arch : Archives} (r : Runner).

(** A program that starts, whatever else is kept. *)
Lemma calm_spawn Q w :
  calm_world w →
  (∀ c w', calm_world w' → owed (sup w') = owed (sup w) → parked (sup w') = parked (sup w) → Q (Ok c) w') →
  wp (try_spawn r) Q w.
Proof.
  intros Hc HQ. unfold try_spawn, BUSY_RETRIES. cbn [try_spawn_from]. unfold spawn_once. do 2 apply wp_bind.
  apply wp_await_calm; [done|]. cbn [builds calm negb]. unfold spawn_end. cbn [spawned calm].
  destruct (spawner r); repeat wp_step; by apply HQ.
Qed.

Lemma calm_spawn_if_due Q w :
  calm_world w →
  (∀ c w', calm_world w' → owed (sup w') = owed (sup w) → parked (sup w') = parked (sup w) → Q (Some c) w') →
  wp (spawn_if_due r) Q w.
Proof.
  intros Hc HQ. unfold spawn_if_due. apply wp_bind, calm_spawn; [done|]. intros c w1 H1 Ho Hp. repeat wp_step. by apply HQ.
Qed.

(** Nothing is owed afterwards, and nothing else came to wait. *)
Definition settled (w : World) (shut : bool) (w' : World) : Prop :=
  shut = false ∧ calm_world w' ∧ owed (sup w') = None ∧ parked (sup w') = parked (sup w).

Lemma calm_take_in c w : calm_world w → wp (take_in r (Some c)) (settled w) w.
Proof.
  intros Hc. unfold take_in. rewrite bool_decide_true by eauto. apply wp_bind. unfold note_started. repeat calmly.
  destruct (owed (sup w)) as [h|] eqn:E; [|by repeat calmly]. cbn [negb andb]. repeat calmly.
  unfold gate. destruct (apply_grace r =? 0)%N; repeat calmly; [by unfold settled; cbn|].
  destruct (spawner r); repeat calmly; by unfold settled; cbn.
Qed.

Lemma calm_start w : calm_world w → wp (start_and_take_in r) (settled w) w.
Proof.
  intros Hc. unfold start_and_take_in, spawn_unless_shut. repeat calmly. apply wp_bind, calm_spawn_if_due; [done|]. intros c w1 H1 _ Hp.
  calmly. eapply wp_mono; [by apply calm_take_in|]. intros s w2 (-> & H2 & Ho & Hp2). split_and!; congruence || done.
Qed.

Lemma calm_hold n w : calm_world w → wp (hold n) (λ _ w', settled w false w') w.
Proof. intros Hc. unfold hold. repeat calmly. destruct (owed (sup w)) eqn:E; by repeat calmly. Qed.

Lemma calm_check Q w : calm_world w → Q Passed w → wp (check r) Q w.
Proof.
  intros Hc HQ. unfold check. destruct (has_preflight r); cbn [negb]; repeat calmly; [|done].
  by destruct (spawner r).
Qed.

Lemma calm_check_parked p Q w : calm_world w → (∀ q, Q (Ready q) w) → wp (check_parked r p) Q w.
Proof.
  intros Hc HQ. unfold check_parked. destruct (checked p); [by apply wp_ret|]. repeat calmly.
  apply wp_bind, calm_check; [done|]. by apply wp_ret.
Qed.

(** A swap that is neither cancelled nor parked. *)
Lemma calm_swap s w :
  calm_world w →
  wp (swap_and_gate r s) (λ z w', calm_world w' ∧ owed (sup w') = owed (sup w) ∧ parked (sup w') = parked (sup w) ∧
    (z = Gated GraceOk ∨ ∃ e, z = Gated (GraceFailed e))) w.
Proof.
  intros Hc.
  assert (Hcon : ∀ t b o w0, calm_world w0 → owed (sup w0) = owed (sup w) → parked (sup w0) = parked (sup w) →
    (o = GraceOk ∨ ∃ e, o = GraceFailed e) →
    wp (conclude r t b o) (λ z w', calm_world w' ∧ owed (sup w') = owed (sup w) ∧ parked (sup w') = parked (sup w) ∧
      (z = Gated GraceOk ∨ ∃ e, z = Gated (GraceFailed e))) w0).
  { intros t b o w0 H0 Ho Hp Hoc. unfold conclude, retain_backup.
    destruct b, Hoc as [->|[e ->]]; [destruct (retain_previous r =? 0)%N|..]; repeat calmly; rewrite ?Hs; eauto 6. }
  unfold swap_and_gate. destruct (install_target r) as [t|]; [|repeat calmly; eauto 6].
  calmly. destruct a as [b|e]; [|repeat calmly; rewrite Hs0, Hs; eauto 6].
  calmly. destruct a as [[]|e].
  - unfold gate_swapped. repeat calmly. apply wp_bind, calm_spawn; [done|]. intros c w3 H3 Ho Hp. rewrite Hs0, Hs in Ho, Hp.
    unfold gate_package, gate. repeat calmly. destruct (apply_grace r =? 0)%N; repeat calmly; [apply Hcon; eauto|].
    destruct (spawner r); repeat calmly; apply Hcon; eauto.
  - destruct b; repeat calmly; rewrite ?Hs2, ?Hs1, ?Hs0, ?Hs; eauto 6.
Qed.

Lemma calm_after_gate v h o w :
  calm_world w → (o = GraceOk ∨ ∃ e, o = GraceFailed e) → wp (after_gate r v h o) (settled w) w.
Proof.
  intros Hc [->|[e ->]]; cbn [after_gate].
  - assert (Hend : ∀ w0, calm_world w0 → parked (sup w0) = parked (sup w) →
      wp (_ <~ note_started ;; _ <~ tell (PackageApplied h (Ok v)) ;; o <~ gets owed ;;
          match o with
          | Some config => _ <~ modify (set_owed None) ;; _ <~ settle config (Ok tt) ;; act_ret false
          | None => act_ret false
          end) (settled w) w0).
    { intros w0 H0 Hp. unfold note_started. repeat calmly. destruct (owed (sup w0)) eqn:E; by repeat calmly. }
    repeat calmly. destruct (child (sup w)); repeat calmly; [by apply Hend|].
    do 2 apply wp_bind. apply calm_spawn_if_due; [done|]. intros c w1 H1 Ho Hp. repeat calmly. by apply Hend.
  - unfold fail_start. repeat calmly. destruct (policy_failed (policy (sup w))) as [p []]; cbn [snd].
    + eapply wp_mono; [by apply calm_start|]. by intros s w1 (? & ? & ? & ?).
    + apply wp_bind. eapply wp_mono; [by apply calm_hold|]. intros ? w1 (? & ? & ? & ?). by apply wp_ret.
Qed.

Lemma calm_install p w : calm_world w → wp (install r p) (settled w) w.
Proof.
  intros Hc. unfold install, reach. repeat calmly.
  replace (match spawner r with Local => None | Channel => None end) with (@None bool) by (by destruct (spawner r)).
  apply wp_bind, calm_check_parked; [done|]. intros q. repeat calmly. apply wp_bind.
  eapply wp_mono; [by apply calm_swap|]. intros z w1 (H1 & Ho & Hp & Hz). cbn in Ho, Hp.
  assert (Hw : wp (after_gate r (version q) (package_hash q) (match z with Gated o => o | SwapParked _ => GraceOk end)) (settled w) w1).
  { eapply wp_mono; [apply calm_after_gate; [done|]; destruct Hz as [->|[e ->]]; eauto|].
    intros s w2 (? & ? & ? & Hp2). split_and!; congruence || done. }
  destruct Hz as [->|[e ->]]; exact Hw.
Qed.

(** The retry settles what waits. *)
Lemma calm_retry w : calm_world w → wp (retry_due r) (λ t w', t = Goes ∧ waits (sup w') = false) w.
Proof.
  intros Hc. unfold retry_due.
  assert (Hend : ∀ (m : Act World bool) w0, parked (sup w0) = None → wp m (settled w0) w0 →
    wp (shut <~ m ;; act_ret (turn_of shut)) (λ t w', t = Goes ∧ waits (sup w') = false) w0).
  { intros m w0 Hp Hm. apply wp_bind. eapply wp_mono; [exact Hm|]. intros s w1 (-> & _ & Ho & Hp1). apply wp_ret.
    split; [done|]. unfold waits. rewrite Ho, Hp1, Hp. by vm_compute. }
  apply wp_bind, wp_take_parked. destruct (parked (sup w)) as [p|] eqn:E.
  - apply Hend; [done|]. by apply calm_install.
  - unfold stop, spawn_unless_shut. repeat calmly. apply wp_bind, calm_spawn_if_due; [done|]. intros c w1 H1 Ho Hp. repeat calmly.
    apply Hend; [by rewrite Hp|]. by apply calm_take_in.
Qed.

(** The same host from here on without anything going wrong. *)
Definition calmed (w : World) : World := mkWorld (mkSite (disk (site w)) []) (sup w) (history w).

(** C28: what waits for the second service does not wait for ever. Whatever happened so far — outages, failed
    starts, restarts, newer configurations and packages — a start is due for the configuration the
    adapter owes and for the package it parked, as long as no program exited by itself while they waited;
    and once nothing goes wrong any more, that start settles both and the loop goes on. *)
Theorem what_waits_is_retried s xs :
  let (w0, _) := begin_run r (before_run s) in
  heeds r xs w0 = true →
  let (w, t) := rounds r xs w0 in
  t = Goes → waits (sup w) = true →
  is_Some (due (waiting (sup w))) ∧
  let (w', t') := round r ComesDue (calmed w) in t' = Goes ∧ waits (sup w') = false.
Proof.
  destruct (begin_run r (before_run s)) as [w0 u] eqn:E0. intros Hh.
  assert (Ha : attended (sup w0)).
  { change w0 with ((w0, u).1). rewrite <- E0. revert u E0 Hh. intros u _ _.
    change (wp (begin_run r) (λ _ w, attended (sup w)) (before_run s)). unfold begin_run. apply wp_bind.
    eapply wp_mono; [apply wp_any|]; [by intros; exact I|]. intros m w1 _. apply wp_bind, wp_modify.
    set (w2 := mkWorld _ _ _). assert (Ht : tended (sup w2)) by done.
    still. still. apply wp_still; [quiet|tends|done|]. intros _ w5 Ho2 Hp2 Ht2. apply nothing_waits; cbn in *; congruence || done. }
  pose proof (attended_rounds r xs w0 Ha Hh) as H. unfold wp in H. destruct (rounds r xs w0) as [w t]. intros -> Hw.
  destruct (H eq_refl) as [_ Hd]. specialize (Hd Hw). split; [done|].
  unfold round, act_bind, gets, id. cbn [sup calmed]. rewrite Hw, orb_true_r, (bool_decide_true _ Hd). cbn [andb].
  pose proof (calm_retry (calmed w) eq_refl) as Hr. unfold wp in Hr. by destruct (retry_due r (calmed w)).
Qed.
End Calm.
