(* ===== verification/RunnerHolds.v ===== *)
(** * A program that keeps failing is held

    However starts end, a program whose exits are all quick is started again at most twice and then held
    until something new arrives. *)

From S2P Require Import Prelude RustStr Programs Runner RunnerPort.

Open Scope string_scope.
Open Scope list_scope.

(** How often the program was started. *)
Definition starts (l : list Happened) : nat := length (filter (λ h, h = Told (IsHealth Running)) l).

Lemma starts_snoc l h : starts (l ++ [h]) = (starts l + if bool_decide (h = Told (IsHealth Running)) then 1 else 0)%nat.
Proof.
  unfold starts. rewrite filter_app, length_app. f_equal. rewrite filter_cons. case_decide as Hd.
  - by rewrite bool_decide_true.
  - by rewrite bool_decide_false.
Qed.

(** A call that starts the program at most so often, and leaves the policy. *)
Definition starting (n : nat) {A} (m : Act World A) : Prop :=
  ∀ w, wp m (λ _ w', policy (sup w') = policy (sup w) ∧ (starts (history w') ≤ n + starts (history w))%nat) w.

Lemma starting_ret {A} n (a : A) : starting n (act_ret a).
Proof. intros w. split; [done|]. cbn [history act_ret fst]. lia. Qed.
Lemma starting_bind {A B} n n' (m : Act World A) (k : A → Act World B) :
  starting n m → (∀ a, starting n' (k a)) → starting (n' + n) (act_bind m k).
Proof.
  intros Hm Hk w. apply wp_bind. eapply wp_mono; [apply Hm|]. intros a w1 [H1 H2]. eapply wp_mono; [apply Hk|].
  intros b w2 [H3 H4]. split; [congruence|lia].
Qed.
Lemma starting_on_site {A} (m : Act Site A) n : starting n (on_site m).
Proof. intros w. unfold wp, on_site. destruct (m (site w)). cbn [sup history fst]. split; [done|lia]. Qed.
Lemma starting_modify f n : (∀ s, policy (f s) = policy s) → starting n (modify f).
Proof. intros H w. apply wp_modify. cbn [sup history]. split; [done|lia]. Qed.
Lemma starting_tell e : starting (if bool_decide (e = IsHealth Running) then 1 else 0) (tell e).
Proof.
  intros w. apply wp_notes. cbn [sup history]. split; [done|]. rewrite starts_snoc. repeat case_bool_decide; try lia. congruence.
Qed.
Lemma starting_more {A} n n' (m : Act World A) : (n ≤ n')%nat → starting n m → starting n' m.
Proof. intros Hn Hm w. eapply wp_mono; [apply Hm|]. intros a w1 [? ?]. split; [done|lia]. Qed.

Section Holds.
Context {arch : Archives} (r : Runner).

Lemma starting_arm : starting 0 arm_waiting.
Proof. apply (starting_bind 0 0); [apply starting_on_site|]. intros m. by apply starting_modify. Qed.

(** A start that fails starts nothing. *)
Lemma spawn_once_starts b w :
  wp (spawn_once r b) (λ x w', policy (sup w') = policy (sup w) ∧
    (starts (history w') ≤ match x with Ok _ => 1 | Err _ => 0 end + starts (history w))%nat) w.
Proof.
  unfold spawn_once. apply wp_bind. eapply wp_mono; [apply (starting_on_site moment 0)|]. intros m w1 [Hp Hs].
  assert (Ht : ∀ h e, h ≠ Running →
    wp (_ <~ tell (IsHealth h) ;; act_ret (Err (A := Child) (E := SpawnError) e)) (λ x w', policy (sup w') = policy (sup w) ∧
      (starts (history w') ≤ match x with Ok _ => 1 | Err _ => 0 end + starts (history w))%nat) w1).
  { intros h e Hh. repeat wp_step. rewrite starts_snoc, bool_decide_false by congruence. split; [done|lia]. }
  destruct (negb (builds m)); [by apply Ht|].
  destruct (spawn_end r m) as [pid| | |refused| |]; [|by apply wp_ret|destruct b; [by apply wp_ret|by apply Ht]|destruct refused; by apply Ht|by apply Ht|by apply Ht].
  repeat wp_step. rewrite !starts_snoc. split; [done|]. rewrite bool_decide_false by done. rewrite bool_decide_true by done. lia.
Qed.

Lemma try_spawn_starts n : starting 1 (try_spawn_from r n).
Proof.
  induction n as [|n IH]; intros w; cbn [try_spawn_from]; apply wp_bind; (eapply wp_mono; [apply spawn_once_starts|]); intros x w1 [Hp Hs].
  - destruct x as [c|[]]; apply wp_ret; (split; [done|lia]).
  - destruct x as [c|[]]; try (apply wp_ret; split; [done|lia]). eapply wp_mono; [apply IH|]. intros x w2 [H1 H2].
    split; [congruence|lia].
Qed.

Lemma starting_spawn_unless_shut : starting 1 (spawn_unless_shut r).
Proof.
  unfold spawn_unless_shut. apply (starting_bind 0 1); [apply starting_on_site|]. intros m. destruct (shutting m); [apply starting_ret|].
  apply (starting_bind 1 0); [|intros; apply starting_ret]. unfold spawn_if_due. apply (starting_bind 1 0); [apply try_spawn_starts|].
  intros [c|[]]; (apply (starting_bind 0 0); [|intros; apply starting_ret]); first [apply starting_arm|by apply starting_modify].
Qed.

(** How far a program is on its way to being held. *)
Definition failing_fast (w w' : World) : Prop :=
  (streak (policy (sup w')) = streak (policy (sup w)) + 1)%N ∧
  if (MAX_CRASH_RESTARTS <=? streak (policy (sup w')))%N
  then child (sup w') = None ∧ starts (history w') = starts (history w) ∧ Told (IsHealth (NotRestarting (streak (policy (sup w'))))) ∈ history w'
  else (starts (history w') ≤ 1 + starts (history w))%nat.

Lemma respawn_counts w : wp (respawn_or_hold r) (λ _, failing_fast w) w.
Proof.
  unfold respawn_or_hold, fail_start, policy_failed. repeat wp_step. cbn [fst snd].
  set (n := (streak (policy (sup w)) + 1)%N). destruct (MAX_CRASH_RESTARTS <=? n)%N eqn:En.
  - unfold hold. repeat wp_step. cbn.
    destruct (owed (sup w)); repeat wp_step; unfold failing_fast; cbn [sup history policy on_policy set_child set_owed streak child];
      rewrite En; (split; [done|]); (split; [done|]).
    + split; [rewrite !starts_snoc, !bool_decide_false by done; lia|]. apply elem_of_app. left. apply elem_of_app. right. by apply list_elem_of_singleton.
    + split; [rewrite !starts_snoc, !bool_decide_false by done; lia|]. apply elem_of_app. right. by apply list_elem_of_singleton.
  - apply wp_bind. eapply wp_mono; [apply (starting_on_site moment 0)|]. intros m w1 [Hp Hs]. cbn [sup history] in Hp, Hs. repeat wp_step.
    assert (Hw : ∀ w2, policy (sup w2) = policy (sup w1) → (starts (history w2) ≤ 1 + starts (history w1))%nat → failing_fast w w2).
    { intros w2 H2 H3. unfold failing_fast. rewrite H2, Hp. cbn [streak policy on_policy sup]. rewrite En. split; [done|lia]. }
    destruct (shutting m); [apply wp_ret; apply Hw; [done|cbn [history]; lia]|].
    apply wp_bind. eapply wp_mono; [apply starting_spawn_unless_shut|]. intros x w2 [H2 H3]. cbn [sup history policy set_backoff] in H2, H3.
    destruct x as [c|]; [|apply wp_ret; by apply Hw]. repeat wp_step. unfold note_started.
    apply wp_bind. eapply wp_mono; [apply (starting_on_site moment 0)|]. intros m' w3 [H4 H5]. cbn [sup history policy set_child] in H4, H5. repeat wp_step.
    unfold failing_fast. cbn [sup history on_policy policy policy_started streak]. rewrite H4, H2, Hp. cbn [streak policy on_policy sup]. rewrite En. split; [done|lia].
Qed.

(** ** Crash loops *)

(** The program exits by itself before it counts as stable; the first moment of the exit is its time. *)
Definition quick_exit (w : World) : bool :=
  (saturating_sub (now_ns (hd calm (moments (site w)))) (started_at (policy (sup w))) <? stable_after (policy (sup w)))%N.

(** Rounds in which nothing new arrives: sweeps, and exits of the program that are all quick. *)
Fixpoint crash_loops (xs : list Choice) (w : World) : bool :=
  match xs with
  | [] => true
  | x :: xs =>
      match x with
      | Sweeps => true
      | ProgramExits b => negb match spawner r with Channel => b | Local => false end && quick_exit w
      | _ => false
      end &&
      (let (w, t) := round r x w in match t with Goes => crash_loops xs w | _ => true end)
  end.

(** No more starts than are left of three, and none once it is held. *)
Definition held_or_fewer (w w' : World) : Prop :=
  let n := streak (policy (sup w)) in
  let n' := streak (policy (sup w')) in
  (n ≤ n')%N ∧
  (starts (history w') + (N.to_nat (MAX_CRASH_RESTARTS - 1) - N.to_nat n') ≤
   starts (history w) + (N.to_nat (MAX_CRASH_RESTARTS - 1) - N.to_nat n))%nat ∧
  ((MAX_CRASH_RESTARTS ≤ n')%N → child (sup w) = None ∨ (n < MAX_CRASH_RESTARTS)%N → child (sup w') = None).

Lemma wp_await_is Q w :
  Q (hd calm (moments (site w))) (mkWorld (moment (site w)).1 (sup w) (history w)) → wp await Q w.
Proof. unfold wp, await, on_site, moment. by destruct (moments (site w)). Qed.

Lemma crash_round x w :
  crash_loops [x] w = true → wp (round r x) (λ _, held_or_fewer w) w.
Proof.
  intros Hx. cbn [crash_loops] in Hx. apply andb_true_iff in Hx as [Hx _]. unfold round. repeat wp_step.
  assert (Hstay : ∀ w', sup w' = sup w → history w' = history w → held_or_fewer w w').
  { intros w' Hs Hh. unfold held_or_fewer. rewrite Hs, Hh. split; [lia|]. split; [lia|]. intros ? [?|?]; [done|lia]. }
  destruct x as [| | |b|]; try done.
  - unfold sweep_backup. apply wp_bind. destruct (install_target r); [|do 2 apply wp_ret; by apply Hstay].
    unfold await, wp, act_bind, on_site. destruct (moment (site w)) as [s1 m]. cbn.
    destruct (sweep i (now_unix m) s1). by apply Hstay.
  - case_bool_decide as Hchild; [|apply wp_ret; by apply Hstay]. apply andb_true_iff in Hx as [Hb Hq].
    unfold exited. destruct (match spawner r with Local => _ | Channel => _ end); [done|]. repeat wp_step.
    apply wp_bind, wp_await_is. cbn [site sup history]. do 2 wp_step.
    set (w1 := mkWorld _ _ _). eapply wp_mono; [apply respawn_counts|]. intros shut w2 Hf. apply wp_ret.
    assert (Hp : policy (sup w1) = policy (sup w)).
    { subst w1. cbn. unfold policy_exited. unfold quick_exit in Hq. apply N.ltb_lt in Hq.
      by rewrite (proj2 (N.leb_gt _ _) Hq). }
    assert (Hs : starts (history w1) = starts (history w)).
    { subst w1. cbn [history]. rewrite starts_snoc, bool_decide_false by done. lia. }
    destruct Hf as [Hn Hf]. rewrite Hp in Hn. rewrite Hs in Hf. unfold held_or_fewer. rewrite Hn in *.
    split; [lia|]. destruct (N.leb_spec MAX_CRASH_RESTARTS (streak (policy (sup w)) + 1)) as [Hl|Hl].
    + destruct Hf as (Hc & -> & _). split; [lia|done].
    + split; [unfold MAX_CRASH_RESTARTS in *; lia|]. lia.
Qed.

Lemma crash_rounds xs w : crash_loops xs w = true → wp (rounds r xs) (λ _, held_or_fewer w) w.
Proof.
  revert w. induction xs as [|x xs IH]; intros w Hx; cbn [rounds].
  { apply wp_ret. split; [lia|]. split; [lia|]. intros ? [?|?]; [done|lia]. }
  assert (H1 : wp (round r x) (λ _, held_or_fewer w) w).
  { apply crash_round. cbn [crash_loops] in *. apply andb_true_iff in Hx as [-> _]. by destruct (round r x w) as [? []]. }
  cbn [crash_loops] in Hx. apply andb_true_iff in Hx as [_ Hx]. apply wp_bind. unfold wp in *.
  destruct (round r x w) as [w1 []]; cbn [fst snd] in *; [|done..]. specialize (IH w1 Hx). destruct (rounds r xs w1) as [w2 t].
  cbn [fst snd] in *. destruct H1 as (A1 & B1 & C1), IH as (A2 & B2 & C2). split; [lia|]. split; [lia|].
  intros Hn' Hor. destruct (N.lt_ge_cases (streak (policy (sup w1))) MAX_CRASH_RESTARTS) as [Hlt|Hge].
  - apply C2; [done|]. by right.
  - apply C2; [done|]. left. by apply C1.
Qed.

(** C29: a program that keeps failing to start is held, not looped. From fewer than three failed starts in
    a row, and for as long as the loop takes nothing but sweeps and quick exits of its own program, no
    command, retry or new configuration, the program is started again no more often than is left of three
    starts in a row; and once three have failed it does not run. *)
Theorem crash_loops_are_held xs w :
  crash_loops xs w = true → (streak (policy (sup w)) < MAX_CRASH_RESTARTS)%N →
  let (w', _) := rounds r xs w in
  (starts (history w') ≤ starts (history w) + N.to_nat (MAX_CRASH_RESTARTS - 1 - streak (policy (sup w))))%nat ∧
  ((MAX_CRASH_RESTARTS ≤ streak (policy (sup w')))%N → child (sup w') = None).
Proof.
  intros Hx Hn. pose proof (crash_rounds xs w Hx) as H. unfold wp in H. destruct (rounds r xs w) as [w' t].
  destruct H as (_ & H1 & H2). cbn [fst snd] in *. split; [lia|]. intros Hs. apply H2; [done|by right].
Qed.
End Holds.
