(* ===== verification/RunnerPackages.v ===== *)
(** * A package that fails leaves the program that ran

    What the adapter does to the files of one Managed Process, as long as what it puts back and what it
    clears away is put back and cleared away: the program is never lost, and through any rounds the
    program that is live is the one that was live before, until a package is reported installed. *)

From S2P Require Import Prelude RustStr Programs Runner RunnerPort RunnerRetries.

Open Scope string_scope.
Open Scope list_scope.

(** ** The files of one program *)

(** What is put back is put back, and what is removed is gone. *)
Definition careful (m : Moment) : bool := put_back_ok m && cleared m.

Definition all_careful (s : Site) : Prop := Forall (λ m, careful m = true) (moments s).

(** A node a package of the target is made of. *)
Definition typed (t : InstallTarget) (n : Node) : bool :=
  match t, n with Binary _, File _ | Tree _ _, Dir _ => true | _, _ => false end.

Lemma careful_draws {A} (m : Act Site A) s : draws m → all_careful s → all_careful (m s).1.
Proof. intros Hm Hs. destruct (Hm s) as [l E]. unfold all_careful in *. rewrite E in Hs. by apply Forall_app in Hs as [_ ?]. Qed.

Lemma wp_moment (Q : Moment → Site → Prop) s :
  all_careful s → (∀ m s', disk s' = disk s → all_careful s' → put_back_ok m = true → cleared m = true → Q m s') → wp moment Q s.
Proof.
  intros Hs HQ. unfold wp. pose proof (careful_draws moment s draws_moment Hs) as Hc. revert Hc. unfold moment.
  unfold all_careful in Hs. destruct (moments s) as [|m ms] eqn:E; cbn; intros Hc; [by apply HQ|]. inversion Hs as [|?? Hm]; subst.
  apply andb_true_iff in Hm as [Hm1 Hm2]. by apply HQ.
Qed.

Lemma wp_get_disk Q s : Q (disk s) s → wp get_disk Q s.
Proof. done. Qed.
Lemma wp_set_disk f (Q : unit → Site → Prop) s : Q tt (mkSite (f (disk s)) (moments s)) → wp (set_disk f) Q s.
Proof. done. Qed.

(** A step of code over [Site]. *)
Ltac site_step :=
  lazymatch goal with
  | |- wp (act_bind _ _) _ _ => apply wp_bind
  | |- wp (act_ret _) _ _ => apply wp_ret
  | |- wp get_disk _ _ => apply wp_get_disk
  | |- wp (set_disk _) _ _ => apply wp_set_disk
  | |- wp moment _ _ =>
      apply wp_moment; [assumption|];
      let m := fresh "m" in let s := fresh "s" in let E := fresh "Ed" in let Hc := fresh "Hc" in let H1 := fresh "Hb" in let H2 := fresh "Hr" in
      intros m s E Hc H1 H2
  end; cbn [disk moments].

(** A rename whose call ends as it is told to. *)
Lemma wp_renamed ok from to (Q : IoEnd → Site → Prop) s :
  all_careful s → (ok = false ∨ is_Some (disk s !! to) → Q IoFailed s) → (disk s !! from = None → Q IoNotFound s) →
  (∀ n s', disk s !! from = Some n → all_careful s' → disk s' = <[to := n]> (delete from (disk s)) → Q IoDone s') →
  wp (renamed ok from to) Q s.
Proof.
  intros Hc Hno Hnone Hyes. unfold renamed. repeat site_step. destruct ok; cbn [negb]; [|apply wp_ret; naive_solver].
  destruct (disk s !! from) as [n|] eqn:E; [|apply wp_ret; naive_solver].
  destruct (lands n (disk s !! to)) eqn:El; repeat site_step; [by eapply Hyes|].
  apply Hno. right. destruct (disk s !! to) eqn:Et; [by eexists|]. by destruct n.
Qed.

Section Target.
Context (t : InstallTarget).

(** The paths of a target are four. *)
Definition apart : Prop := NoDup [live t; backup t; backup_marker t; temp_of t].
Context (Happart : apart).

Lemma paths_ne : live t ≠ backup t ∧ live t ≠ backup_marker t ∧ live t ≠ temp_of t ∧ backup t ≠ backup_marker t ∧
  backup t ≠ temp_of t ∧ backup_marker t ≠ temp_of t.
Proof. unfold apart in Happart. rewrite !NoDup_cons, !not_elem_of_cons in Happart. naive_solver. Qed.

(** A removal by the target of what is of its kind. *)
Lemma wp_remove p (Q : unit → Site → Prop) s :
  all_careful s →
  (∀ s', all_careful s' → (disk s' = delete p (disk s) ∨ (∃ n, disk s !! p = Some n ∧ typed t n = false) ∧ disk s' = disk s) → Q tt s') →
  wp (remove t p) Q s.
Proof.
  intros Hc HQ. unfold remove, remove_file, remove_dir_all. destruct t; repeat site_step; rewrite Ed, Hr; apply HQ; try done;
    destruct (disk s !! p) as [[]|] eqn:E; auto; try (right; split; [by eexists|done]); left; symmetry; by apply delete_id.
Qed.

Lemma wp_remove_file p (Q : unit → Site → Prop) s :
  all_careful s →
  (∀ s', all_careful s' → (∀ q, q ≠ p → disk s' !! q = disk s !! q) → (disk s' !! p = None ∨ disk s' !! p = disk s !! p) → Q tt s') →
  wp (remove_file p) Q s.
Proof.
  intros Hc HQ. unfold remove_file. repeat site_step. rewrite Ed, Hr. apply HQ; [done|..].
  - intros q Hq. cbn. destruct (disk s !! p) as [[]|]; rewrite ?lookup_delete_ne; done.
  - cbn. destruct (disk s !! p) as [[]|] eqn:E; [left; apply lookup_delete_eq|right; done..].
Qed.

(** The files of a target before a swap: a program of its kind is live. *)
Definition stands (n : Node) (s : Site) : Prop :=
  all_careful s ∧ disk s !! live t = Some n ∧ typed t n = true ∧ ∀ q, disk s !! temp_of t = Some q → typed t q = true.

(** Aside: the program is at the predecessor's name. *)
Definition set_off (n : Node) (s : Site) : Prop :=
  all_careful s ∧ disk s !! backup t = Some n ∧ typed t n = true ∧
  (∀ q, disk s !! live t = Some q → typed t q = true) ∧ ∀ q, disk s !! temp_of t = Some q → typed t q = true.

Lemma drop_backup_keeps n s :
  stands n s → wp (drop_backup t) (λ _ s', stands n s' ∧ disk s' !! temp_of t = disk s !! temp_of t) s.
Proof.
  intros (Hc & Hl & Hn & Ht). destruct paths_ne as (N1 & N2 & N3 & N4 & N5 & N6). unfold drop_backup. apply wp_bind, wp_remove; [done|].
  intros s1 Hc1 H1. assert (Hl1 : disk s1 !! live t = Some n ∧ disk s1 !! temp_of t = disk s !! temp_of t).
  { destruct H1 as [->|[_ ->]]; [|done]. by rewrite !lookup_delete_ne. }
  destruct Hl1 as [Hl1 Ht1]. apply wp_remove_file; [done|]. intros s2 Hc2 H2 _. unfold stands.
  rewrite !H2 by done. rewrite Ht1. done.
Qed.

Lemma drop_backup_stands n s : stands n s → wp (drop_backup t) (λ _, stands n) s.
Proof. intros H. eapply wp_mono; [by apply drop_backup_keeps|]. by intros ? ? []. Qed.

Lemma set_aside_moves n s :
  stands n s →
  wp (set_aside t) (λ x s', match x with
    | Ok true => set_off n s' ∧ disk s' !! live t = None ∧ disk s' !! temp_of t = disk s !! temp_of t
    | Ok false => False | Err _ => stands n s' end) s.
Proof.
  intros H. destruct paths_ne as (N1 & N2 & N3 & N4 & N5 & N6). unfold set_aside. apply wp_bind.
  eapply wp_mono; [by apply drop_backup_keeps|]. intros ? s1 [(Hc & Hl & Hn & Ht) Hkt].
  unfold rename. repeat site_step. apply wp_renamed; [done|..]; rewrite Ed.
  - intros _. apply wp_ret. cbn beta iota. unfold stands. by rewrite Ed.
  - by rewrite Hl.
  - rewrite Hl. intros n' s2 [= <-] Hc2 Hd. apply wp_ret. unfold set_off. rewrite Hd.
    rewrite lookup_insert_eq, !(lookup_insert_ne _ (backup t)), lookup_delete_eq, lookup_delete_ne by done. by split_and!.
Qed.

(** What was staged is live, or nothing changed. *)
Lemma commit_moves n sg s :
  staged_temp sg = temp_of t → set_off n s → disk s !! live t = None →
  wp (commit t sg) (λ x s', set_off n s' ∧ match x with Ok _ => is_Some (disk s' !! live t) ∧ disk s' !! live t = disk s !! temp_of t | Err _ => disk s' !! live t = None end) s.
Proof.
  intros Hsg (Hc & Hb & Hn & _ & Ht) Hl. destruct paths_ne as (N1 & N2 & N3 & N4 & N5 & N6). unfold commit, rename. rewrite Hsg.
  repeat site_step. assert (Hstay : set_off n s0 ∧ disk s0 !! live t = None).
  { unfold set_off. rewrite Ed, Hl. naive_solver. }
  apply wp_renamed; [done|intros _; by apply wp_ret..|]. rewrite Ed. intros q s1 Hq Hc1 Hd. apply wp_ret.
  unfold set_off. rewrite Hd. rewrite lookup_insert_eq, !(lookup_insert_ne _ (live t)), lookup_delete_eq, lookup_delete_ne by done.
  naive_solver.
Qed.

(** What ran before is put back. *)
Lemma restore_puts_back n s : set_off n s → wp (restore t) (λ x s', stands n s' ∧ x = Ok tt) s.
Proof.
  intros (Hc & Hb & Hn & Hl & Ht). destruct paths_ne as (N1 & N2 & N3 & N4 & N5 & N6). unfold restore. repeat site_step.
  rewrite bool_decide_false by (by rewrite Hb). apply wp_bind, wp_remove; [done|]. intros s1 Hc1 H1.
  assert (Hd1 : disk s1 = delete (live t) (disk s)).
  { destruct H1 as [|[(q & Hq & Hf) _]]; [done|]. by rewrite (Hl q Hq) in Hf. }
  unfold rename_back. repeat site_step. rewrite Hb0. apply wp_renamed; [done|..]; rewrite Ed, Hd1.
  - intros [?|Hx]; [done|]. rewrite lookup_delete_eq in Hx. by destruct Hx.
  - by rewrite lookup_delete_ne, Hb.
  - rewrite lookup_delete_ne, Hb by done. intros n' s2 [= <-] Hc2 Hd2. apply wp_ret. split; [|done]. unfold stands. rewrite Hd2.
    rewrite lookup_insert_eq, !(lookup_insert_ne _ (live t)), !(lookup_delete_ne _ (backup t)), lookup_delete_ne by done. naive_solver.
Qed.

(** A package that was live is taken out, or stays. *)
Lemma take_back_moves n sg s :
  staged_temp sg = temp_of t → set_off n s →
  wp (take_back t sg true) (λ x s', match x with Ok _ => stands n s' | Err _ => set_off n s' ∧ disk s' !! live t = disk s !! live t end) s.
Proof.
  intros Hsg H. pose proof H as (Hc & Hb & Hn & Hl & Ht). destruct paths_ne as (N1 & N2 & N3 & N4 & N5 & N6).
  unfold take_back, rename. rewrite Hsg. repeat site_step.
  assert (Hstay : ∀ e, wp (act_ret (Err e : result unit RunError))
    (λ x s', match x with Ok _ => stands n s' | Err _ => set_off n s' ∧ disk s' !! live t = disk s !! live t end) s0).
  { intros e. apply wp_ret. unfold set_off. rewrite Ed. naive_solver. }
  apply wp_renamed; [done|..]; [intros _; apply Hstay..|]. rewrite Ed. intros q s1 Hq Hc1 Hd. apply wp_bind.
  eapply wp_mono; [apply (restore_puts_back n)|].
  - unfold set_off. rewrite Hd. rewrite lookup_insert_eq, !(lookup_insert_ne _ (temp_of t)), lookup_delete_eq, lookup_delete_ne by done. naive_solver.
  - intros x s2 [H2 ->]. by apply wp_ret.
Qed.

(** ** Calls that leave the program *)

Definition saves {A} (n : Node) (m : Act Site A) : Prop := ∀ s, stands n s → wp m (λ _, stands n) s.

Lemma saves_ret {A} n (a : A) : saves n (act_ret a).
Proof. by intros s. Qed.
Lemma saves_bind {A B} n (m : Act Site A) (k : A → Act Site B) : saves n m → (∀ a, saves n (k a)) → saves n (act_bind m k).
Proof. intros Hm Hk s H. apply wp_bind. eapply wp_mono; [by apply Hm|]. intros a s1 H1. by apply Hk. Qed.
Lemma saves_moment n : saves n moment.
Proof. intros s (Hc & H). apply wp_moment; [done|]. intros m s1 Hd Hc1 _ _. unfold stands. by rewrite Hd. Qed.
Lemma saves_get_disk n : saves n get_disk.
Proof. by intros s. Qed.

Lemma saves_set n f :
  (∀ d, f d !! live t = d !! live t) → (∀ d, f d !! temp_of t = d !! temp_of t ∨ ∃ q, f d !! temp_of t = Some q ∧ typed t q = true) →
  saves n (set_disk f).
Proof.
  intros H1 H2 s (Hc & Hl & Hn & Ht). apply wp_set_disk. split; [done|]. cbn. rewrite H1. split; [done|]. split; [done|].
  destruct (H2 (disk s)) as [-> | (q & -> & Hq)]; [done|]. by intros ? [= <-].
Qed.

(** Something of its kind at the staged name, or anything elsewhere. *)
Lemma saves_insert n p q : p ≠ live t → (p = temp_of t → typed t q = true) → saves n (set_disk <[p := q]>).
Proof.
  intros Hp Hq. apply saves_set; intros d; [by rewrite lookup_insert_ne|]. destruct (decide (p = temp_of t)) as [->|Hne].
  - right. exists q. by rewrite lookup_insert_eq, Hq.
  - left. by rewrite lookup_insert_ne.
Qed.

Lemma saves_remove n p : p ≠ live t → saves n (remove t p).
Proof.
  intros Hp s (Hc & Hl & Hn & Ht). apply wp_remove; [done|]. intros s1 Hc1 H1. split; [done|].
  destruct H1 as [->|[_ ->]]; [|done]. rewrite lookup_delete_ne by done. split; [done|]. split; [done|].
  intros q [_ Hq]%lookup_delete_Some. auto.
Qed.

Lemma saves_remove_file n p : p ≠ live t → saves n (remove_file p).
Proof.
  intros Hp s (Hc & Hl & Hn & Ht). apply wp_remove_file; [done|]. intros s1 Hc1 H1 H2. split; [done|]. rewrite H1 by done.
  split; [done|]. split; [done|]. intros q Hq. destruct (decide (temp_of t = p)) as [<-|Hne].
  - destruct H2 as [H2|H2]; rewrite H2 in Hq; [done|auto].
  - rewrite H1 in Hq by done. auto.
Qed.

Lemma saves_read_file n p : saves n (read_file p).
Proof. unfold read_file. do 2 (apply saves_bind; [apply saves_moment || apply saves_get_disk|intros ?]). apply saves_ret. Qed.

Lemma saves_retain n d : saves n (retain t d).
Proof.
  destruct paths_ne as (N1 & N2 & N3 & N4 & N5 & N6). apply saves_bind; [apply saves_moment|]. intros m.
  apply saves_set; intros f; destruct (io_ok m); rewrite ?lookup_insert_ne; auto.
Qed.

Lemma saves_sweep n now : saves n (sweep t now).
Proof.
  apply saves_bind; [apply saves_read_file|]. intros [text|]; [|apply saves_ret].
  destruct (match parse_u64 _ with Some _ => _ | None => _ end); [|apply saves_ret].
  apply saves_bind; [|intros; apply saves_ret]. intros s. apply drop_backup_stands.
Qed.

Lemma saves_discard n sg : staged_temp sg = temp_of t → saves n (Programs.discard t sg).
Proof. intros E. unfold Programs.discard. rewrite E. apply saves_remove. apply not_eq_sym, paths_ne. Qed.

(** What a call answers, beside the program. *)
Lemma saves_post {A} n (m : Act Site A) (P : A → Prop) s :
  saves n m → (∀ s, P (m s).2) → stands n s → wp m (λ a s', stands n s' ∧ P a) s.
Proof. intros Hm HP H. split; [by apply Hm|apply HP]. Qed.
End Target.

Ltac saves :=
  repeat first
    [ assumption
    | apply saves_ret
    | apply saves_moment
    | apply saves_get_disk
    | apply saves_read_file
    | apply saves_bind; [|intros ?]
    | lazymatch goal with
      | |- saves _ _ (match ?x with _ => _ end) => destruct x
      | |- saves _ _ (let _ := ?x in _) => cbv zeta
      end ].

Section Stage.
Context {arch : Archives}.

Lemma saves_make_executable t n p : saves t n (make_executable p).
Proof. unfold make_executable. saves. Qed.
Lemma saves_share t n b p : saves t n (share_staged b p).
Proof. unfold share_staged. saves. Qed.

Lemma saves_write_program path n a member : apart (Binary path) → saves (Binary path) n (write_program a (temp_of (Binary path)) member).
Proof.
  intros Ha. destruct (paths_ne _ Ha) as (N1 & N2 & N3 & N4 & N5 & N6). unfold write_program, write_out, make_executable. saves;
    apply saves_insert; congruence || done.
Qed.

Lemma read_file_is a Q s :
  all_careful s →
  (∀ x s', disk s' = disk s → all_careful s' → (∀ b, x = Some b → disk s !! a = Some (File b)) → Q x s') → wp (read_file a) Q s.
Proof.
  intros Hc HQ. unfold read_file. repeat site_step. apply HQ; [done..|]. rewrite Ed. intros b Hb'.
  destruct (disk s !! a) as [[]|]; [|done..]. by destruct (io_ok m); simplify_eq.
Qed.

Lemma stage_executable_saves path n a s :
  apart (Binary path) → a ≠ path → stands (Binary path) n s → wp (stage_executable a path) (λ x s', stands (Binary path) n s' ∧
    ∀ p, x = Ok p → p = temp_of (Binary path)) s.
Proof.
  intros Ha Hne H. pose proof H as (Hc & Hl & Hn & Ht). destruct (paths_ne _ Ha) as (N1 & N2 & N3 & N4 & N5 & N6).
  unfold stage_executable. change (with_extension "staged" path) with (temp_of (Binary path)).
  apply wp_bind, read_file_is; [done|]. intros x s1 Hd1 Hc1 Hx. assert (H1 : stands (Binary path) n s1) by (unfold stands; by rewrite Hd1).
  destruct x as [bytes|]; [|by apply wp_ret]. specialize (Hx _ eq_refl). apply wp_bind.
  assert (Hend : ∀ (moved : IoEnd) s2, stands (Binary path) n s2 →
    wp (if bool_decide (moved = IoDone)
        then ok <~ make_executable (temp_of (Binary path)) ;; act_ret (if ok then Ok (temp_of (Binary path)) else Err CannotUnpack)
        else match file_name path with
             | Some member => ok <~ write_program a (temp_of (Binary path)) member ;;
                 act_ret (if ok then Ok (temp_of (Binary path)) else Err CannotUnpack)
             | None => act_ret (Err CannotUnpack)
             end) (λ x s', stands (Binary path) n s' ∧ ∀ p, x = Ok p → p = temp_of (Binary path)) s2).
  { intros moved s2 H2. destruct (bool_decide _); [|destruct (file_name path); [|by apply wp_ret]]; apply wp_bind;
      (eapply wp_mono; [first [by apply saves_make_executable|by apply saves_write_program]|]); intros ok s3 H3; apply wp_ret;
      (split; [done|]); destruct ok; by intros p [= <-]. }
  destruct (bool_decide _); [|apply wp_ret; by apply Hend]. unfold rename. apply wp_bind, wp_moment; [done|].
  intros m s2 Hd2 Hc2 _ _. assert (H2 : stands (Binary path) n s2) by (unfold stands; by rewrite Hd2, Hd1).
  apply wp_renamed; [done|intros _; by apply Hend..|]. rewrite Hd2, Hd1, Hx. intros q s3 [= <-] Hc3 Hd3. apply Hend.
  unfold stands. rewrite Hd3. cbn [live] in *. rewrite lookup_insert_eq, lookup_insert_ne, lookup_delete_ne by done. naive_solver.
Qed.

Lemma stage_tree_saves root pp n a b s :
  apart (Tree root pp) → stands (Tree root pp) n s → wp (stage_tree a root pp b) (λ x s', stands (Tree root pp) n s' ∧
    ∀ p, x = Ok p → p = temp_of (Tree root pp)) s.
Proof.
  intros Ha H. destruct (paths_ne _ Ha) as (N1 & N2 & N3 & N4 & N5 & N6). apply saves_post; [|..|done].
  - assert (Hrm : saves (Tree root pp) n (remove_dir_all (join_path root ".staging"))) by (apply (saves_remove (Tree root pp) n (temp_of (Tree root pp))); congruence).
    unfold stage_tree, unpack_tree, create_dir_all. saves; try apply saves_make_executable; try apply saves_share;
      try (apply (saves_insert _ _ (temp_of (Tree root pp))); congruence || done).
    apply saves_set; intros d; cbn [temp_of] in *; cbn beta.
    + destruct (d !! join_path root ".staging") as [[]|]; [done| |done]. by rewrite lookup_insert_ne by congruence.
    + destruct (d !! join_path root ".staging") as [[]|] eqn:E; [by left| |by left]. right. eexists. by rewrite lookup_insert_eq.
  - intros s0. unfold stage_tree, act_bind, act_ret. repeat case_match; simplify_eq/=; by intros p [= <-].
Qed.

Lemma stage_saves t n b a s :
  apart t → a ≠ live t → stands t n s →
  wp (stage t b a) (λ x s', stands t n s' ∧ ∀ sg, x = Ok sg → staged_temp sg = temp_of t) s.
Proof.
  intros Ha Hne H. destruct (paths_ne _ Ha) as (N1 & N2 & N3 & N4 & N5 & N6). unfold stage. destruct t as [path|root pp]; apply wp_bind.
  - eapply wp_mono; [by apply stage_executable_saves|]. intros [p|e] s1 [H1 Hp]; [|by apply wp_ret]. rewrite (Hp p eq_refl).
    apply wp_bind. eapply wp_mono; [by apply saves_share|]. intros ok s2 H2. destruct ok; [apply wp_ret; split; [done|]; by intros sg [= <-]|].
    apply wp_bind. eapply wp_mono; [apply saves_remove_file; [|done]; congruence|]. intros ? s3 H3. by apply wp_ret.
  - eapply wp_mono; [by apply stage_tree_saves|]. intros x s1 [H1 Hp]. apply wp_ret. split; [done|]. intros sg.
    destruct x as [p|]; [|done]. intros [= <-]. cbn. by apply Hp.
Qed.
End Stage.

(** ** Calls of the adapter that touch no file *)

Definition is_install (h : Happened) : bool := match h with Told (PackageApplied _ (Ok _)) => true | _ => false end.

(** How many packages were reported installed. *)
Definition installs (l : list Happened) : nat := length (filter (λ h, is_install h = true) l).

Lemma installs_snoc l h : installs (l ++ [h]) = (installs l + if is_install h then 1 else 0)%nat.
Proof.
  unfold installs. rewrite filter_app, length_app. f_equal. rewrite filter_cons. by destruct (is_install h).
Qed.

Definition same_files (w w' : World) : Prop :=
  disk (site w') = disk (site w) ∧ all_careful (site w') ∧ parked (sup w') = parked (sup w) ∧ installs (history w') = installs (history w).

Definition leaves {A} (m : Act World A) : Prop := ∀ w, all_careful (site w) → wp m (λ _, same_files w) w.

Lemma leaves_ret {A} (a : A) : leaves (act_ret a).
Proof. by intros w. Qed.
Lemma leaves_bind {A B} (m : Act World A) (k : A → Act World B) : leaves m → (∀ a, leaves (k a)) → leaves (act_bind m k).
Proof.
  intros Hm Hk w H. apply wp_bind. eapply wp_mono; [by apply Hm|]. intros a w1 (D1 & C1 & P1 & I1).
  eapply wp_mono; [by apply Hk|]. intros b w2 (D2 & C2 & P2 & I2). split_and!; congruence || done.
Qed.
Lemma leaves_await : leaves await.
Proof.
  intros w H. unfold wp, await, on_site. pose proof (careful_draws moment _ draws_moment H) as Hc.
  assert (Hd : disk (moment (site w)).1 = disk (site w)) by (unfold moment; by destruct (moments (site w))).
  by destruct (moment (site w)).
Qed.
Lemma leaves_modify f : (∀ s, parked (f s) = parked s) → leaves (modify f).
Proof. intros H w Hc. apply wp_modify. by split_and!; cbn. Qed.
Lemma leaves_gets {A} (f : Supervision → A) : leaves (gets f).
Proof. by intros w. Qed.
Lemma leaves_tell e : is_install (Told e) = false → leaves (tell e).
Proof. intros H w Hc. apply wp_notes. split_and!; try done. cbn [history]. rewrite installs_snoc, H. lia. Qed.
Lemma leaves_settle h x : leaves (settle h x).
Proof. by apply leaves_tell. Qed.

#[export] Hint Resolve leaves_ret leaves_await leaves_gets leaves_settle : runner.

Ltac leaves :=
  repeat first
    [ solve [auto with runner nocore]
    | apply leaves_bind; [|intros ?]
    | apply leaves_modify; by intros []
    | apply leaves_tell; reflexivity
    | lazymatch goal with
      | |- leaves (match ?x with _ => _ end) => destruct x
      | |- leaves (let _ := ?x in _) => cbv zeta
      end ].

Section Leaves.
Context {arch : Archives} (r : Runner).

Lemma leaves_arm : leaves arm_waiting.
Proof. unfold arm_waiting. leaves. Qed.
Lemma leaves_stop : leaves stop.
Proof. unfold stop. leaves. Qed.
Lemma leaves_note_started : leaves note_started.
Proof. unfold note_started. leaves. Qed.
Lemma leaves_fail_start : leaves fail_start.
Proof. unfold fail_start. leaves. Qed.
Lemma leaves_fresh : leaves give_fresh_chance.
Proof. unfold give_fresh_chance. leaves. Qed.
Lemma leaves_hold n : leaves (hold n).
Proof. unfold hold. leaves. Qed.
Lemma leaves_spawn_once b : leaves (spawn_once r b).
Proof. unfold spawn_once. leaves. Qed.
Hint Resolve leaves_arm leaves_stop leaves_note_started leaves_fail_start leaves_fresh leaves_hold leaves_spawn_once : runner.
Lemma leaves_try_spawn n : leaves (try_spawn_from r n).
Proof. induction n as [|n IH]; cbn [try_spawn_from]; leaves. Qed.
Lemma leaves_spawn_if_due : leaves (spawn_if_due r).
Proof. unfold spawn_if_due, try_spawn. pose proof leaves_try_spawn. leaves. Qed.
Hint Resolve leaves_spawn_if_due : runner.
Lemma leaves_spawn_unless_shut : leaves (spawn_unless_shut r).
Proof. unfold spawn_unless_shut. leaves. Qed.
Lemma leaves_gate c : leaves (gate r c).
Proof. unfold gate. leaves. Qed.
Hint Resolve leaves_spawn_unless_shut leaves_gate : runner.
Lemma leaves_respawn : leaves (respawn_or_hold r).
Proof. unfold respawn_or_hold. leaves. Qed.
Hint Resolve leaves_respawn : runner.
Lemma leaves_decide_owed h b o : leaves (decide_owed r h b o).
Proof. unfold decide_owed. leaves. Qed.
Hint Resolve leaves_decide_owed : runner.
Lemma leaves_take_in c : leaves (take_in r c).
Proof. unfold take_in. leaves. Qed.
Hint Resolve leaves_take_in : runner.
Lemma leaves_start : leaves (start_and_take_in r).
Proof. unfold start_and_take_in. leaves. Qed.
Lemma leaves_check : leaves (check r).
Proof. unfold check. leaves. Qed.
Lemma leaves_reach : leaves (reach r).
Proof. unfold reach. leaves. Qed.
Lemma leaves_gate_package x : leaves (gate_package r x).
Proof. unfold gate_package. leaves. Qed.
Lemma leaves_try_reload : leaves (try_reload r).
Proof. unfold try_reload. leaves. Qed.
End Leaves.

#[export] Hint Resolve leaves_arm leaves_stop leaves_note_started leaves_fail_start leaves_fresh leaves_hold leaves_spawn_once leaves_try_spawn : runner.
#[export] Hint Resolve leaves_spawn_if_due leaves_spawn_unless_shut leaves_gate leaves_respawn leaves_decide_owed leaves_take_in leaves_start : runner.
#[export] Hint Resolve leaves_check leaves_reach leaves_gate_package leaves_try_reload : runner.

(** ** Through the rounds of the Runner *)

Section Packages.
Context {arch : Archives} (r : Runner) (t : InstallTarget).
Context (Ht : install_target r = Some t) (Happart : apart t).

(** A package waits under the target's staged name. *)
Definition parked_at (w : World) : Prop := ∀ p, parked (sup w) = Some p → staged_temp (staged p) = temp_of t.

(** The program [n] is live, and so many packages were reported installed. *)
Definition program (n : Node) (k : nat) (w : World) : Prop :=
  stands t n (site w) ∧ parked_at w ∧ installs (history w) = k.

Lemma program_same n k w w' : program n k w → same_files w w' → program n k w'.
Proof.
  intros ((_ & Hl & Hn & Hq) & Hp & Hi) (Hd & Hc & Hp' & Hi'). unfold program, stands, parked_at. rewrite Hd, Hp', Hi'.
  by split_and!.
Qed.

Lemma program_careful n k w : program n k w → all_careful (site w).
Proof. by intros ((? & _) & _). Qed.

(** A call that touches no file. *)
Ltac leave :=
  lazymatch goal with
  | |- wp (act_bind _ _) _ _ => apply wp_bind; leave
  | H : program _ _ ?w |- wp ?m _ ?w =>
      let Hm := fresh in assert (Hm : leaves m) by leaves;
      eapply wp_mono; [apply Hm; eapply program_careful; exact H|]; clear Hm;
      let a := fresh "a" in let w' := fresh "w" in let Hs := fresh "Hs" in let H' := fresh "Hw" in let Hd := fresh "Hd" in
      intros a w' Hs; pose proof (program_same _ _ _ _ H Hs) as H'; destruct Hs as [Hd _]
  end.

Lemma wp_site {A} (m : Act Site A) (Q : A → World → Prop) w :
  wp m (λ a s, Q a (mkWorld s (sup w) (history w))) (site w) → wp (on_site m) Q w.
Proof. unfold wp, on_site. by destruct (m (site w)). Qed.

Lemma program_saves {A} (m : Act Site A) n k w (Q : A → World → Prop) :
  saves t n m → program n k w → (∀ a w', program n k w' → sup w' = sup w → Q a w') → wp (on_site m) Q w.
Proof.
  intros Hm (H1 & H2 & H3) HQ. apply wp_site. eapply wp_mono; [by apply Hm|]. intros a s H. by apply HQ.
Qed.

(** After a call: some program is live, the same unless a package was reported installed or the loop ends. *)
Definition ends (n : Node) (k : nat) (stopped : bool) (w : World) : Prop :=
  ∃ n' k', program n' k' w ∧ (k ≤ k')%nat ∧ (stopped = false → k' = k → n' = n).

(** The same, and a package that was reported installed is the one that was staged. *)
Definition ends_with (pk : option Node) (n : Node) (k : nat) (stopped : bool) (w : World) : Prop :=
  ∃ n' k', program n' k' w ∧ (k ≤ k')%nat ∧ (stopped = false → k' = k → n' = n) ∧ ((k < k')%nat → pk = Some n').

Lemma program_ends n k b w : program n k w → ends n k b w.
Proof. intros H. exists n, k. split; [done|]. split; [lia|done]. Qed.

Lemma program_ends_with pk n k b w : program n k w → ends_with pk n k b w.
Proof. intros H. exists n, k. split; [done|]. split; [lia|]. split; [done|lia]. Qed.

Lemma ends_with_ends pk n k b w : ends_with pk n k b w → ends n k b w.
Proof. intros (n' & k' & H1 & H2 & H3 & _). by exists n', k'. Qed.

Lemma program_park n k p w :
  program n k w → staged_temp (staged p) = temp_of t → program n k (mkWorld (site w) (set_parked (Some p) (sup w)) (history w)).
Proof. intros (H1 & H2 & H3) Hp. split; [done|]. split; [|done]. by intros q [= <-]. Qed.

Lemma program_discard n k p w (Q : unit → World → Prop) :
  program n k w → staged_temp (staged p) = temp_of t → (∀ w', program n k w' → sup w' = sup w → Q tt w') → wp (discard_parked r p) Q w.
Proof.
  intros H Hp HQ. unfold discard_parked. rewrite Ht. eapply program_saves; [by apply saves_discard|done|]. intros [] w' H1 H2. by apply HQ.
Qed.

(** ** The swap *)

Lemma conclude_failed n k q e w :
  program q k w → set_off t n (site w) →
  wp (conclude r t true (GraceFailed e)) (λ z w', z = Gated (GraceFailed e) ∧ program n k w') w.
Proof.
  intros (_ & Hp & Hi) Hoff. unfold conclude. do 2 apply wp_bind. apply wp_site. eapply wp_mono; [by apply restore_puts_back|].
  intros x s [Hs _]. by repeat wp_step.
Qed.

Lemma conclude_other q k b o w :
  program q k w → (∀ e, o ≠ GraceFailed e) → wp (conclude r t b o) (λ z w', z = Gated o ∧ program q k w') w.
Proof.
  intros H Ho. unfold conclude, retain_backup.
  assert (Hr : wp (if (retain_previous r =? 0)%N then on_site (drop_backup t)
    else m <~ await ;; on_site (retain t (saturating_add u64_max (now_unix m) (retain_previous r)))) (λ _, program q k) w).
  { destruct (_ =? _)%N.
    - eapply program_saves; [intros s; by apply drop_backup_stands|done|]. done.
    - leave. eapply program_saves; [by apply saves_retain|done|]. done. }
  apply wp_bind. destruct o as [|e| |], b; try (by apply wp_ret, wp_ret); try (by destruct (Ho e)).
  all: eapply wp_mono; [exact Hr|]; intros ? w1 H1; by apply wp_ret.
Qed.

(** What a swap leaves of the program that was live. *)
Definition swap_leaves (pk : option Node) (n : Node) (k : nat) (sg : Staged) (z : Swapped) (w : World) : Prop :=
  match z with
  | Gated (GraceFailed _) => program n k w
  | Gated GraceOk => ∃ q, pk = Some q ∧ program q k w
  | Gated _ => ∃ q, program q k w
  | SwapParked sg' => sg' = sg ∧ program n k w
  end.

(** The package [q] is live and the program [n] aside. *)
Definition swapped (n q : Node) (k : nat) (w : World) : Prop := program q k w ∧ set_off t n (site w).

Lemma swapped_same n q k w w' : swapped n q k w → same_files w w' → swapped n q k w'.
Proof.
  intros [H1 H2] Hs. split; [by eapply program_same|]. destruct Hs as (Hd & Hc & _ & _). unfold set_off. rewrite Hd.
  destruct H2 as (_ & ?). by split.
Qed.

Lemma swapped_take_back n q k sg w :
  swapped n q k w → staged_temp sg = temp_of t →
  wp (on_site (take_back t sg true)) (λ x w', match x with Ok _ => program n k w' | Err _ => swapped n q k w' end) w.
Proof.
  intros ((A & B & C) & O) Hsg. apply wp_site. eapply wp_mono; [by apply take_back_moves|]. intros [[]|e] s H0; [done|].
  destruct H0 as [H0 Hl0]. split; [|done]. split; [|done]. pose proof H0 as (Hc0 & _ & _ & Hlt & Htt). destruct A as (_ & A1 & A2 & _).
  split_and!; try done. cbn [site]. by rewrite Hl0.
Qed.

Lemma gate_swapped_program n q k sg w :
  swapped n q k w → staged_temp sg = temp_of t → wp (gate_swapped r t sg true) (swap_leaves (Some q) n k sg) w.
Proof.
  intros H Hsg. unfold gate_swapped.
  assert (Hl : ∀ {A} (m : Act World A) w0 Q, leaves m → swapped n q k w0 → (∀ a w', swapped n q k w' → Q a w') → wp m Q w0).
  { intros A m w0 Q Hm H0 HQ. eapply wp_mono; [apply Hm; eapply program_careful; apply H0|]. intros a w' Hs. apply HQ. by eapply swapped_same. }
  apply wp_bind, Hl; [leaves|done|]. intros m w1 H1. destruct (shutting m).
  { apply wp_bind. eapply wp_mono; [by eapply swapped_take_back|]. intros [[]|e] w2 H2.
    - apply wp_bind. eapply program_saves; [by apply saves_discard|exact H2|]. intros [] w3 H3 _. apply wp_ret. by eexists.
    - apply wp_bind, wp_ret, wp_ret. destruct H2 as [H2 _]. by eexists. }
  apply wp_bind, Hl; [apply leaves_try_spawn|done|]. intros x w2 H2. apply wp_bind, Hl; [leaves|done|]. intros o w3 H3.
  destruct o as [|e| |].
  - eapply wp_mono; [apply (conclude_other q); [apply H3|done]|]. intros z w4 [-> H4]. by exists q.
  - destruct H3 as [P3 O3]. eapply wp_mono; [by eapply conclude_failed|]. by intros z w4 [-> H4].
  - eapply wp_mono; [apply (conclude_other q); [apply H3|done]|]. intros z w4 [-> H4]. by eexists.
  - apply wp_bind. eapply wp_mono; [by eapply swapped_take_back|]. intros [[]|e] w4 H4; [by apply wp_ret|].
    destruct H4 as [P4 O4]. eapply wp_mono; [by eapply conclude_failed|]. by intros z w5 [-> H5].
Qed.

Lemma swap_program n k sg w :
  program n k w → staged_temp sg = temp_of t →
  wp (swap_and_gate r sg) (swap_leaves (disk (site w) !! temp_of t) n k sg) w.
Proof.
  intros (Hs & Hp & Hi) Hsg. unfold swap_and_gate. rewrite Ht. apply wp_bind, wp_site. eapply wp_mono; [by apply set_aside_moves|].
  intros [[]|e] s1 H1; [|done|].
  2: { apply wp_bind, wp_site. eapply wp_mono; [by apply saves_discard|]. intros ? s2 H2. by apply wp_ret. }
  destruct H1 as (Hoff & Hl & Hkt). apply wp_bind, wp_site. cbn [site sup history]. eapply wp_mono; [by apply commit_moves|].
  intros [[]|e] s2 [Hoff2 Hl2].
  2: { do 2 apply wp_bind. apply wp_site. cbn [site sup history]. eapply wp_mono; [by apply restore_puts_back|].
       intros x s3 [H3 _]. apply wp_ret, wp_bind, wp_site. cbn [site sup history].
       eapply wp_mono; [by apply saves_discard|]. intros ? s4 H4. by apply wp_ret. }
  destruct Hl2 as [[q Hq] Hpk]. rewrite <- Hkt, <- Hpk, Hq. apply (gate_swapped_program n q); [|done]. pose proof Hoff2 as (Hc & _ & _ & Hlt & Htt).
  split; [|done]. split; [|done]. split_and!; try done. by apply Hlt.
Qed.

(** ** Installing *)

Lemma program_check_parked n k p w :
  program n k w → staged_temp (staged p) = temp_of t →
  wp (check_parked r p) (λ a w', program n k w' ∧ match a with
    | Ready q => staged_temp (staged q) = temp_of t ∧ disk (site w') = disk (site w)
    | CheckDone _ => True
    end) w.
Proof.
  intros H Hp. unfold check_parked. destruct (checked p); [by apply wp_ret|]. leave. destruct (shutting a).
  { repeat wp_step. split; [|done]. by apply program_park. }
  leave. destruct a0 as [| |refused].
  - apply wp_ret. split; [done|]. split; [done|congruence].
  - apply wp_bind. eapply program_discard; [exact Hw0|done|]. intros w2 H2 _. leave. wp_step. wp_step. destruct (owed _).
    + do 2 leave. by apply wp_ret.
    + by apply wp_ret.
  - do 2 leave. repeat wp_step. split; [|done]. by apply program_park.
Qed.

Lemma ends_after_gate pk n q k v h o w :
  program q k w → (∀ e, o = GraceFailed e → q = n) → (o = GraceOk → pk = Some q) → o ≠ GraceAway →
  wp (after_gate r v h o) (ends_with pk n k) w.
Proof.
  intros H Hq Hpk Ho. destruct o as [|e| |]; cbn [after_gate]; [| | |done].
  - do 3 leave. wp_step. wp_step. wp_step. wp_step.
    assert (Hk : ∀ w', site w' = site w2 → parked (sup w') = parked (sup w2) → installs (history w') = S k → ends_with pk n k false w').
    { intros w' Hs Hp Hi. destruct Hw1 as (A & B & C). exists q, (S k). split; [|split; [lia|]; split; [lia|auto]].
      split; [by rewrite Hs|]. split; [|done]. intros p. rewrite Hp. apply B. }
    assert (Hi : installs (history w2 ++ [Told (PackageApplied h (Ok v))]) = S k).
    { rewrite installs_snoc. destruct Hw1 as (_ & _ & ->). cbn. lia. }
    destruct (owed (sup w2)); repeat wp_step; apply Hk; try done. cbn [history]. rewrite installs_snoc, Hi. cbn. lia.
  - rewrite (Hq _ eq_refl) in H. do 2 leave. destruct a0 as [|m].
    + leave. by apply program_ends_with.
    + leave. apply wp_ret. by apply program_ends_with.
  - apply wp_ret. exists q, k. split; [done|]. split; [lia|]. split; [done|lia].
Qed.

Lemma installing_ends n k p w :
  program n k w → staged_temp (staged p) = temp_of t → wp (install r p) (ends_with (disk (site w) !! temp_of t) n k) w.
Proof.
  intros H Hp. unfold install. leave. destruct (shutting a).
  { repeat wp_step. apply program_ends_with. by apply program_park. }
  leave. destruct a0 as [refused|].
  { do 2 leave. repeat wp_step. apply program_ends_with. by apply program_park. }
  apply wp_bind. eapply wp_mono; [by apply program_check_parked|]. intros [q|b] w2 [H2 Hq]; [|apply wp_ret; by apply program_ends_with].
  destruct Hq as [Hq Hdq]. leave. apply wp_bind. eapply wp_mono; [apply wp_and; [by apply swap_program|apply swap_never_away]|].
  intros z w4 [H4 Hz]. rewrite Hd1, Hdq, Hd0, Hd in H4. destruct z as [o|sg].
  - destruct o as [|e| |]; [| | |done].
    + destruct H4 as (q' & E & H4). by eapply ends_after_gate.
    + by apply (ends_after_gate _ n n).
    + destruct H4 as [q' H4]. by eapply ends_after_gate.
  - destruct H4 as [-> H4]. repeat wp_step. apply program_ends_with. by apply program_park.
Qed.

Lemma ends_install n k p w : program n k w → staged_temp (staged p) = temp_of t → wp (install r p) (ends n k) w.
Proof. intros H Hp. eapply wp_mono; [by apply installing_ends|]. intros b w'. apply ends_with_ends. Qed.

(** ** The rounds *)

Definition turn_ends (n : Node) (k : nat) (x : Turn) (w : World) : Prop := ends n k (match x with Goes => false | _ => true end) w.

(** The artifact of a package is not the program itself. *)
Definition elsewhere (x : Choice) : Prop :=
  match x with Receives (Some (ApplyPackage a _ _)) => a ≠ live t | _ => True end.

Lemma ends_turn n k (m : Act World bool) w : wp m (ends n k) w → wp (shut <~ m ;; act_ret (turn_of shut)) (turn_ends n k) w.
Proof. intros H. apply wp_bind. eapply wp_mono; [exact H|]. intros b w1 H1. apply wp_ret. by destruct b. Qed.

Lemma program_turn n k x w : program n k w → turn_ends n k x w.
Proof. apply program_ends. Qed.

Lemma program_take_parked n k w (Q : option Parked → World → Prop) :
  program n k w →
  (∀ w', program n k w' → (∀ p, parked (sup w) = Some p → staged_temp (staged p) = temp_of t) → Q (parked (sup w)) w') →
  wp take_parked Q w.
Proof. intros (A & B & C) HQ. apply wp_take_parked, HQ; [|exact B]. by split_and!. Qed.

Lemma turn_ends_config n k h w : program n k w → wp (apply_config r h) (turn_ends n k) w.
Proof.
  intros H. unfold apply_config. leave. apply wp_bind.
  eapply wp_mono; [apply (leaves_modify (set_owed None)); [done|by eapply program_careful]|]. intros [] w1 Hs.
  pose proof (program_same _ _ _ _ Hw Hs) as H1. apply wp_bind. eapply program_take_parked; [exact H1|]. intros w2 H2 Hp.
  destruct (parked (sup w1)) as [p|].
  - leave. apply ends_turn, ends_install; [done|by apply Hp].
  - leave. destruct a0.
    + leave. apply wp_ret. by apply program_turn.
    + do 3 leave. apply ends_turn. leave. by apply program_ends.
    + apply wp_ret. by apply program_turn.
Qed.

Lemma turn_ends_package n k a v h w : a ≠ live t → program n k w → wp (apply_package r a v h) (turn_ends n k) w.
Proof.
  intros Ha H. unfold apply_package. apply wp_bind. eapply program_take_parked; [exact H|]. intros w1 H1 Hp.
  apply wp_bind.
  assert (Hd : wp (match parked (sup w) with Some p => discard_parked r p | None => act_ret tt end) (λ _, program n k) w1).
  { destruct (parked (sup w)) as [p|]; [|by apply wp_ret]. by eapply program_discard; [exact H1|by apply Hp|]. }
  eapply wp_mono; [exact Hd|]. intros ? w2 H2. clear Hd. apply wp_bind.
  assert (Hst : wp (stage_and_check r a) (λ x w', program n k w' ∧ ∀ sg b, x = Ok (sg, b) → staged_temp sg = temp_of t) w2).
  { unfold stage_and_check. rewrite Ht. apply wp_bind, wp_site. destruct H2 as (A & B & C).
    eapply wp_mono; [by apply stage_saves|]. intros [sg|e] s3 [H3 Hsg]; [|by apply wp_ret].
    assert (P3 : program n k (mkWorld s3 (sup w2) (history w2))) by by split_and!. specialize (Hsg sg eq_refl).
    leave. destruct a1 as [| |refused].
    - apply wp_ret. split; [done|]. by intros sg' b [= <- <-].
    - apply wp_bind. eapply program_saves; [by apply saves_discard|exact Hw|]. intros [] w4 H4 _. by apply wp_ret.
    - apply wp_ret. split; [done|]. by intros sg' b [= <- <-]. }
  eapply wp_mono; [exact Hst|]. intros x w3 [H3 Hx]. clear Hst. apply wp_bind.
  eapply program_saves; [by apply saves_remove_file|exact H3|]. intros [] w4 H4 _. destruct x as [[sg ok]|e].
  - leave. wp_step. wp_step. destruct (away _).
    + repeat wp_step. apply program_turn. apply program_park; [done|]. by eapply Hx.
    + apply ends_turn, ends_install; [done|]. by eapply Hx.
  - leave. apply wp_ret. by apply program_turn.
Qed.

Lemma turn_ends_round n k x w : elsewhere x → program n k w → wp (round r x) (turn_ends n k) w.
Proof.
  intros Hx H. unfold round. wp_step. wp_step. destruct x as [| |[c|]|b|].
  - apply wp_bind. unfold sweep_backup. rewrite Ht. leave. apply wp_bind.
    eapply program_saves; [by apply saves_sweep|exact Hw|]. intros ? w2 H2 _. apply wp_ret, wp_ret. by apply program_turn.
  - destruct (_ && _); [|apply wp_ret; by apply program_turn]. unfold retry_due. apply wp_bind.
    eapply program_take_parked; [exact H|]. intros w1 H1 Hp. destruct (parked (sup w)) as [p|].
    + apply ends_turn, ends_install; [done|by apply Hp].
    + do 2 leave. destruct a0 as [c|]; [|apply wp_ret; by apply program_turn]. apply ends_turn. leave. by apply program_ends.
  - unfold receive. apply wp_bind. eapply wp_mono; [apply (wp_notes _ (λ _, program n k))|].
    { destruct H as (A & B & C). split_and!; try done. cbn [history]. rewrite installs_snoc. cbn. lia. }
    intros [] w1 H1. destruct c as [h|a v h| | |].
    + by apply turn_ends_config.
    + by apply turn_ends_package.
    + unfold restart. do 6 leave. wp_step. wp_step. wp_step. apply program_turn. destruct Hw4 as (A & B & C). split_and!; try done.
      intros p. cbn. destruct (negb _ && _); apply B.
    + apply wp_ret. by apply program_turn.
    + do 2 leave. apply wp_ret. by apply program_turn.
  - apply wp_ret. by apply program_turn.
  - destruct (bool_decide _); [|apply wp_ret; by apply program_turn]. unfold exited.
    destruct (match spawner r with Local => _ | Channel => _ end).
    + do 3 leave. apply wp_ret. by apply program_turn.
    + do 4 leave. apply ends_turn. leave. by apply program_ends.
  - apply wp_ret. by apply program_turn.
Qed.

Lemma turn_ends_rounds n k xs w : Forall elsewhere xs → program n k w → wp (rounds r xs) (turn_ends n k) w.
Proof.
  intros Hx. revert n k w. induction Hx as [|x xs Hx _ IH]; intros n k w H; cbn [rounds]; [apply wp_ret; by apply program_turn|].
  apply wp_bind. eapply wp_mono; [by apply turn_ends_round|]. intros y w1 (n1 & k1 & H1 & Hk & Hn).
  destruct y; [|apply wp_ret; by exists n1, k1..]. eapply wp_mono; [by apply IH|]. intros z w2 (n2 & k2 & H2 & Hk2 & Hn2).
  exists n2, k2. split; [done|]. split; [lia|]. intros Hz Hkk. rewrite Hn2 by (done || lia). apply Hn; [done|lia].
Qed.

Lemma program_sweep n k w (Q : unit → World → Prop) : program n k w → (∀ w', program n k w' → Q tt w') → wp (sweep_backup r) Q w.
Proof.
  intros H HQ. unfold sweep_backup. rewrite Ht. leave. apply wp_bind. eapply program_saves; [by apply saves_sweep|exact Hw|].
  intros ? w2 H2 _. apply wp_ret. by apply HQ.
Qed.

Lemma program_begin n s : stands t n s → wp (begin_run r) (λ _, program n 0) (before_run s).
Proof.
  intros H. assert (H0 : program n 0 (before_run s)) by by split_and!. unfold begin_run. leave. wp_step. wp_step.
  destruct Hw as (A & _ & C). apply wp_bind. eapply program_sweep; [by split_and!|]. intros w2 H2. leave. by leave.
Qed.

Lemma program_finish n k w : program n k w → wp (finish r) (λ _, program n k) w.
Proof.
  intros H. unfold finish. leave. apply wp_bind. eapply program_take_parked; [exact Hw|]. intros w2 H2 Hp.
  destruct (parked (sup w0)) as [p|]; [|by apply wp_ret]. eapply program_discard; [exact H2|by apply Hp|]. done.
Qed.

(** C6: a package that fails leaves the program that ran. As long as what the adapter puts back is put back
    and what it removes is gone, then through any rounds — packages refused, failing to unpack, to be
    swapped in, to start or to survive, taken back out for the second service and tried again — the
    program is never lost; and until a package is reported installed, or a shutdown ends the loop, it is
    the one that was there before. *)
Theorem failed_packages_leave_the_program n s xs :
  stands t n s → Forall elsewhere xs →
  let (w, x) := run r xs (before_run s) in
  ∃ n', disk (site w) !! live t = Some n' ∧ (x = Goes → installs (history w) = 0%nat → n' = n).
Proof.
  intros H Hx. cut (wp (run r xs) (turn_ends n 0) (before_run s)).
  { unfold wp. destruct (run r xs _) as [w x]. intros (n' & k' & ((_ & Hl & _) & _ & Hi) & _ & Hn). exists n'. split; [done|].
    intros -> Hz. apply Hn; [done|]. cbn in *. congruence. }
  unfold run. apply wp_bind. eapply wp_mono; [by apply program_begin|]. intros ? w0 H0. apply wp_bind.
  eapply wp_mono; [apply (turn_ends_rounds n 0); [done|exact H0]|]. intros x w1 (n1 & k1 & H1 & Hk & Hn). destruct x; [apply wp_ret; by exists n1, k1| |apply wp_ret; by exists n1, k1].
  apply wp_bind. eapply wp_mono; [apply program_finish; exact H1|]. intros ? w2 H2. apply wp_ret. by exists n1, k1.
Qed.

(** C30: a package reported installed is the program. As long as what is put back is put back and what is
    removed is gone ([all_careful], of [program]), when the adapter installs the package it staged under
    the target's name and goes on, either it reported no package installed and the program is the one before, or it reported one
    installed and the program is what was staged. *)
Theorem installed_packages_are_live n k p w :
  program n k w → staged_temp (staged p) = temp_of t →
  let (w', shut) := install r p w in
  shut = false →
  (installs (history w') = k ∧ disk (site w') !! live t = Some n) ∨
  (k < installs (history w'))%nat ∧ disk (site w') !! live t = disk (site w) !! temp_of t.
Proof.
  intros H Hp. pose proof (installing_ends n k p w H Hp) as He. unfold wp in He. destruct (install r p w) as [w' shut]. intros ->.
  destruct He as (n' & k' & ((_ & Hl & _) & _ & Hi) & Hk & Hn & Hpk). cbn [fst snd] in *. rewrite Hl, Hi.
  destruct (Nat.eq_dec k' k) as [->|Hne]; [left|right].
  - split; [done|]. by rewrite (Hn eq_refl eq_refl).
  - split; [lia|]. symmetry. apply Hpk. lia.
Qed.
End Packages.
