(* ===== verification/RunnerSamples.v ===== *)
(** * Adapters that run

    Concrete adapters for the theorems on the Managed Process, and what the adapter does that its comments
    and its decision records do not say. *)

From S2P Require Import Prelude RustStr Programs Runner RunnerPort RunnerRetries RunnerHolds RunnerPackages.

Open Scope string_scope.
Open Scope list_scope.

(** No archive opens; a package is its program. *)
#[local] Instance no_archives : Archives := {| extract _ _ _ := None; extract_tree _ _ _ := None |}.

(** An adapter through the second service, and one that starts its program itself and replaces a file. *)
Definition through_service : Runner := mkRunner 5000000000 None false 0 false false Channel.
Definition prog : InstallTarget := Binary "program/prog".
Definition replacing : Runner := mkRunner 5000000000 (Some prog) false 0 false false Local.

Definition with_spawn (e : SpawnEnd) (m : Moment) : Moment :=
  mkMoment (shutting m) (io_ok m) (put_back_ok m) (cleared m) (kept m) (written m) (builds m) e (service m) (graced m) (flown m)
    (alive m) (now_ns m) (now_unix m) (draw m).
Definition with_grace (e : GraceEnd) (m : Moment) : Moment :=
  mkMoment (shutting m) (io_ok m) (put_back_ok m) (cleared m) (kept m) (written m) (builds m) (spawned m) (service m) e (flown m)
    (alive m) (now_ns m) (now_unix m) (draw m).
Definition without_put_back (m : Moment) : Moment :=
  mkMoment (shutting m) (io_ok m) false (cleared m) (kept m) (written m) (builds m) (spawned m) (service m) (graced m) (flown m)
    (alive m) (now_ns m) (now_unix m) (draw m).
Definition with_shutdown (m : Moment) : Moment :=
  mkMoment true (io_ok m) (put_back_ok m) (cleared m) (kept m) (written m) (builds m) (spawned m) (service m) (graced m) (flown m)
    (alive m) (now_ns m) (now_unix m) (draw m).

Definition calms (n : nat) : list Moment := replicate n calm.

(** ** Witnesses *)

(** A configuration that arrives while the second service is away. *)
Notation away_moments := (calms 3 ++ [with_spawn (Away false) calm]) (only parsing).
Notation a_config := (Receives (Some (ApplyConfig [7]%N))) (only parsing).

Lemma what_waits_is_retried_witness :
  let w := (rounds through_service [a_config] (begin_run through_service (before_run (mkSite ∅ away_moments))).1).1 in
  owed (sup w) = Some [7]%N ∧ is_Some (due (waiting (sup w))) ∧
  waits (sup (round through_service ComesDue (calmed w)).1) = false.
Proof.
  pose proof (what_waits_is_retried through_service (mkSite ∅ away_moments) [a_config]) as H.
  destruct (begin_run through_service (before_run (mkSite ∅ away_moments))) as [w0 u] eqn:E0. vm_compute in E0. injection E0 as <- <-.
  specialize (H eq_refl). destruct (rounds through_service [a_config] _) as [w t] eqn:E. vm_compute in E. injection E as <- <-.
  destruct (H eq_refl eq_refl) as [H1 H2]. split; [reflexivity|]. split; [exact H1|].
  destruct (round through_service ComesDue (calmed _)) as [w' t']. apply H2.
Defined.

(** A program that runs, and exits at once whenever it is started. *)
Notation running := (mkWorld (mkSite ∅ []) (mkSupervision (Some (mkChild (Some 1%N))) (policy_new 5000000000 0) BACKOFF_START waiting_new None None) []) (only parsing).
Notation exits := [ProgramExits false; Sweeps; ProgramExits false; ProgramExits false; ProgramExits false] (only parsing).

Lemma crash_loops_are_held_witness :
  let w := (rounds replacing exits running).1 in
  starts (history w) = 2%nat ∧ child (sup w) = None ∧ Told (IsHealth (NotRestarting 3)) ∈ history w.
Proof.
  pose proof (crash_loops_are_held replacing exits running eq_refl) as H. specialize (H ltac:(reflexivity)).
  destruct (rounds replacing exits running) as [w t] eqn:E. vm_compute in E. injection E as <- <-. destruct H as [_ H].
  split; [reflexivity|]. split; [apply H; vm_compute; discriminate|]. cbn. apply list_elem_of_In. cbn. tauto.
Defined.

(** A package that does not survive its grace. *)
Definition old_program : Node := File "old".
Definition with_package (ms : list Moment) : Site := mkSite {["program/prog" := old_program; "download" := File "new"]} ms.
Notation a_package := (Receives (Some (ApplyPackage "download" "2.0.0" [9]%N))) (only parsing).

Lemma prog_apart : apart prog.
Proof. apply (bool_decide_unpack _). vm_compute. exact I. Qed.

Lemma failed_packages_leave_the_program_witness :
  let '(w, x) := run replacing [a_package] (before_run (with_package (replicate 40 (with_grace Exits calm)))) in
  x = Goes ∧ Told (PackageApplied [9]%N (Err ExitedInGrace)) ∈ history w ∧ disk (site w) !! "program/prog" = Some old_program.
Proof.
  set (s := with_package (replicate 40 (with_grace Exits calm))).
  assert (Hs : stands prog old_program s).
  { split; [|split; [reflexivity|split; [reflexivity|]]].
    - subst s. unfold all_careful, with_package. cbn [moments]. repeat constructor.
    - intros q Hq. vm_compute in Hq. discriminate Hq. }
  assert (Hx : Forall (elsewhere prog) [a_package]) by (repeat constructor; discriminate).
  pose proof (failed_packages_leave_the_program replacing prog eq_refl prog_apart old_program s [a_package] Hs Hx) as H.
  destruct (run replacing [a_package] (before_run s)) as [w x] eqn:E. vm_compute in E. injection E as <- <-.
  destruct H as (n' & H1 & H2). split; [reflexivity|]. split; [cbn; apply list_elem_of_In; cbn; tauto|].
  transitivity (Some n'); [exact H1|]. f_equal. apply H2; reflexivity.
Defined.

(** A package in hand, staged, and swapped in. *)
Definition staged_site : Site := mkSite {["program/prog" := old_program; "program/prog.staged" := File "new"]} [].
Notation in_hand_world := (before_run staged_site) (only parsing).
Notation in_hand_package := (mkParked (mkStaged "program/" "program/prog.staged" "program/prog.staged") true "2.0.0" [9]%N) (only parsing).

Lemma installed_packages_are_live_witness :
  let '(w, shut) := install replacing in_hand_package in_hand_world in
  shut = false ∧ installs (history w) = 1%nat ∧ disk (site w) !! "program/prog" = Some (File "new").
Proof.
  assert (Hp : program prog old_program 0 in_hand_world).
  { split; [|split; [by intros p|reflexivity]]. split; [constructor|split; [reflexivity|split; [reflexivity|]]].
    intros q Hq. vm_compute in Hq. by injection Hq as <-. }
  pose proof (installed_packages_are_live replacing prog eq_refl prog_apart old_program 0 in_hand_package in_hand_world Hp eq_refl) as H.
  destruct (install replacing in_hand_package in_hand_world) as [w shut] eqn:E. vm_compute in E. injection E as <- <-.
  destruct (H eq_refl) as [[H1 _]|[_ H2]]; [vm_compute in H1; discriminate H1|].
  split; [reflexivity|]. split; [reflexivity|]. exact H2.
Defined.

(** ** What the adapter does besides *)

(** A program that exits before the retry leaves a configuration owed. A configuration arrives while the
    second service is away, a restart command finds it back and makes the retry due at once, and the
    program that was restarted exits before the retry is taken: it is started again, and that start clears
    what was due. The configuration is still owed, the program runs, and no round of the loop but a new
    command or another outage will decide it. *)
Theorem exits_strand_what_waits :
  let '(w, t) := run through_service [a_config; Receives (Some Restart); ProgramExits false] (before_run (mkSite ∅ away_moments)) in
  t = Goes ∧ owed (sup w) = Some [7]%N ∧ is_Some (child (sup w)) ∧ due (waiting (sup w)) = None ∧
  ∀ n, rounds through_service (replicate n ComesDue) w = (w, Goes).
Proof.
  destruct (run through_service _ _) as [w t] eqn:E. vm_compute in E. injection E as <- <-.
  split_and!; [reflexivity|reflexivity|eexists; reflexivity|reflexivity|].
  intros n. induction n as [|n IH]; [reflexivity|]. exact IH.
Qed.

(** A rollback that fails can lose the program for good. A package does not survive its grace, and the
    one rename that puts the predecessor back fails: no program is live, and the predecessor is at its
    other name. The next package clears that name before it is swapped in; it does not survive either,
    and what ran before is nowhere any more. *)
Theorem failed_put_backs_lose_the_program :
  let s := mkSite {["program/prog" := old_program; "download" := File "new"; "again" := File "newer"]}
             (replicate 80 (without_put_back (with_grace Exits calm))) in
  let again := Receives (Some (ApplyPackage "again" "3.0.0" [10]%N)) in
  (let '(w, t) := run replacing [a_package] (before_run s) in
   t = Goes ∧ disk (site w) !! live prog = None ∧ disk (site w) !! backup prog = Some old_program) ∧
  (let '(w, t) := run replacing [a_package; again] (before_run s) in
   t = Goes ∧ installs (history w) = 0%nat ∧ ∀ path, disk (site w) !! path ≠ Some old_program).
Proof.
  split.
  - destruct (run replacing [a_package] _) as [w t] eqn:E. vm_compute in E. injection E as <- <-. by split_and!.
  - destruct (run replacing _ _) as [w t] eqn:E. vm_compute in E. injection E as <- <-. split; [reflexivity|]. split; [reflexivity|].
    intros path Hp. cbn [site disk] in Hp. change (({["program/prog" := File "newer"]} : gmap string Node) !! path = Some old_program) in Hp.
    apply lookup_singleton_Some in Hp as [_ [=]].
Qed.

(** A shutdown during a package's grace leaves the package live, its predecessor deleted, and no report. *)
Theorem shutdowns_keep_the_unproved_package :
  let '(w, t) := run replacing [a_package] (before_run (with_package (calms 17 ++ [with_shutdown calm]))) in
  t = Breaks ∧ installs (history w) = 0%nat ∧ (∀ h x, Told (PackageApplied h x) ∉ history w) ∧
  disk (site w) !! live prog = Some (File "new") ∧ disk (site w) !! backup prog = None.
Proof.
  destruct (run replacing [a_package] _) as [w t] eqn:E. vm_compute in E. injection E as <- <-.
  split_and!; [reflexivity|reflexivity| |reflexivity|reflexivity]. intros h x Hx. apply list_elem_of_In in Hx. cbn in Hx.
  by repeat destruct Hx as [Hx|Hx].
Qed.

(** A start whose directories cannot be prepared says nothing: the last health reported is that the program
    runs. *)
Theorem unprepared_starts_read_as_running :
  let '(w, t) := run replacing [Receives (Some Restart)] (before_run (mkSite ∅ (calms 5 ++ [with_spawn NotPrepared calm]))) in
  t = Goes ∧ child (sup w) = None ∧ last (omap (λ h, match h with Told (IsHealth x) => Some x | _ => None end) (history w)) = Some Running.
Proof. destruct (run replacing _ _) as [w t] eqn:E. vm_compute in E. injection E as <- <-. by split_and!. Qed.
