(* ===== verification/GatePolicy.v ===== *)
(** * The bindings of a Gateway

    [fleet-agent/src/gateway/policy.rs]: which host a Gateway takes to speak for an [instance_uid]. The
    first report binds it, a host's certificate end bounds its bindings, and the least recently
    reported idle binding of the same host makes room. A binding is pending, and a moved end is
    moving, until the store holds it. The order of reports is a number without bound. *)

From S2P Require Import Prelude RustStr Proto.

Open Scope string_scope.
Open Scope list_scope.

Record Limits := mkLimits {
  per_host : nat;
  total : nat;
}.

Inductive NotBound := CertificateExpired | StillBeingWritten | HostIsFull | GatewayIsFull.

Inductive Bound := Kept | New | Refused (why : NotBound) | Waiting.

Record End := mkEnd {
  not_after : Z;
  issuer : string;
  serial : string;
}.

#[export] Instance End_eq_dec : EqDecision End.
Proof. solve_decision. Defined.

Inductive Change :=
| ChangeBound (uid : InstanceUid) (host : string)
| ChangeUnbound (uid : InstanceUid)
| ChangeReported (uid : InstanceUid)
| ChangeEnds (host : string) (e : End).

#[export] Instance InstanceUid_eq_dec : EqDecision InstanceUid := list_eq_dec.
#[export] Instance InstanceUid_countable : Countable InstanceUid := list_countable.

#[export] Instance Change_eq_dec : EqDecision Change.
Proof. solve_decision. Defined.

Record Binding := mkBinding {
  b_host : string;
  b_reported : N;
  b_pending : bool;
}.

Record Bindings := mkBindings {
  bound : gmap InstanceUid Binding;
  hosts : gmap string (gset InstanceUid);
  ends : gmap string End;
  expiring : gset (Z * string);
  moving : gmap string (option End);
  tick : N;
  reported : gset InstanceUid;
}.

Definition no_bindings : Bindings := mkBindings ∅ ∅ ∅ ∅ ∅ 0 ∅.

Record Outcome := mkOutcome {
  outcome_bound : Bound;
  outcome_evicted : list InstanceUid;
  outcome_changes : list Change;
}.

Implicit Types (b : Bindings) (host : string) (uid : InstanceUid).

Definition set_moving (m : gmap string (option End)) b : Bindings :=
  mkBindings (bound b) (hosts b) (ends b) (expiring b) m (tick b) (reported b).
Definition set_bound (m : gmap InstanceUid Binding) (h : gmap string (gset InstanceUid)) b : Bindings :=
  mkBindings m h (ends b) (expiring b) (moving b) (tick b) (reported b).
Definition set_ends (e : gmap string End) (x : gset (Z * string)) b : Bindings :=
  mkBindings (bound b) (hosts b) e x (moving b) (tick b) (reported b).

(** The [instance_uid]s of a host. *)
Definition own host b : gset InstanceUid := default ∅ (hosts b !! host).

Definition drop_end host b : Bindings :=
  match ends b !! host with
  | Some e => set_ends (delete host (ends b)) (expiring b ∖ {[(not_after e, host)]}) b
  | None => b
  end.

Definition set_end host (e : End) b : Bindings :=
  let b := drop_end host b in set_ends (<[host := e]> (ends b)) ({[(not_after e, host)]} ∪ expiring b) b.

Definition waits_for_end host (e : End) b : bool :=
  match moving b !! host with
  | Some (Some held) => (not_after held <? not_after e)%Z
  | Some None => true
  | None => false
  end.

Definition move_end host (e : End) b : Bindings * option Change :=
  let kept := ends b !! host in
  if match kept with Some k => (not_after e <=? not_after k)%Z | None => false end then (b, None)
  else (set_end host e (set_moving (<[host := kept]> (moving b)) b), Some (ChangeEnds host e)).

Definition unbind uid (keep_end : bool) b : Bindings :=
  match bound b !! uid with
  | None => b
  | Some x =>
      let host := b_host x in
      match hosts b !! host with
      | None => set_bound (delete uid (bound b)) (hosts b) b
      | Some s =>
          let s := s ∖ {[uid]} in
          if bool_decide (s = ∅) then
            let b := set_bound (delete uid (bound b)) (delete host (hosts b)) b in
            if keep_end then b else let b := drop_end host b in set_moving (delete host (moving b)) b
          else set_bound (delete uid (bound b)) (<[host := s]> (hosts b)) b
      end
  end.

(** The least recently reported of [l]. *)
Fixpoint least_reported b (l : list InstanceUid) : option InstanceUid :=
  match l with
  | [] => None
  | uid :: l =>
      match least_reported b l with
      | None => Some uid
      | Some other => if (default 0 (b_reported <$> bound b !! uid) <=? default 0 (b_reported <$> bound b !! other))%N
                      then Some uid else Some other
      end
  end.

(** The host's own binding that makes room. *)
Definition victim host (idle : InstanceUid → bool) b : option InstanceUid :=
  least_reported b (List.filter (λ uid, match bound b !! uid with Some x => negb (b_pending x) && idle uid | None => false end)
    (elements (own host b))).

(** Why [host] may bind no more as it is. *)
Definition full (limits : Limits) host b : option NotBound :=
  if (per_host limits <=? base.size (own host b))%nat then Some HostIsFull
  else if (total limits <=? base.size (bound b))%nat then Some GatewayIsFull
  else None.

Definition next_tick b : Bindings :=
  mkBindings (bound b) (hosts b) (ends b) (expiring b) (moving b) (tick b + 1) (reported b).

(** A binding of [uid] marked the most recently reported. *)
Definition report uid (x : Binding) b : Bindings :=
  mkBindings (<[uid := mkBinding (b_host x) (tick b) (b_pending x)]> (bound b)) (hosts b) (ends b) (expiring b) (moving b)
    (tick b) ({[uid]} ∪ reported b).

(** [uid] bound anew, pending. *)
Definition bind_new uid host b : Bindings :=
  set_bound (<[uid := mkBinding host (tick b) true]> (bound b)) (<[host := {[uid]} ∪ own host b]> (hosts b)) b.

Definition bind uid host (e : End) (now : Z) (limits : Limits) (idle : InstanceUid → bool) b : Bindings * Outcome :=
  let refused why := (b, mkOutcome (Refused why) [] []) in
  if (not_after e <? now)%Z then refused CertificateExpired
  else
    let go :=
      if waits_for_end host e b then (b, mkOutcome Waiting [] [])
      else
        let b := next_tick b in
        match bound b !! uid with
        | Some x => let '(b, moved) := move_end host e (report uid x b) in (b, mkOutcome Kept [] (option_list moved))
        | None =>
            let make (evicted : list InstanceUid) (b : Bindings) :=
              let '(b, moved) := move_end host e (bind_new uid host b) in
              (b, mkOutcome New evicted (map ChangeUnbound evicted ++ option_list moved ++ [ChangeBound uid host])) in
            match full limits host b with
            | None => make [] b
            | Some why =>
                match victim host idle b with
                | None => (b, mkOutcome (Refused why) [] [])
                | Some v => make [v] (unbind v true b)
                end
            end
        end in
    match bound b !! uid with
    | Some x => if b_pending x then refused StillBeingWritten
                else if bool_decide (b_host x = host) then go
                else (b, mkOutcome Kept [] [])
    | None => go
    end.

Definition settle_end host (written : bool) b : Bindings :=
  match moving b !! host with
  | None => b
  | Some held =>
      let b := set_moving (delete host (moving b)) b in
      if written then b
      else match held with Some held => set_end host held b | None => drop_end host b end
  end.

Definition ends_written (changes : list Change) (written : bool) b : Bindings :=
  foldl (λ b c, match c with ChangeEnds host _ => settle_end host written b | _ => b end) b changes.

Definition compacted (moved : list string) (written : bool) b : Bindings :=
  foldl (λ b host, settle_end host written b) b moved.

Definition moving_hosts b : list string := (map_to_list (moving b)).*1.

Definition commit uid b : Bindings :=
  match bound b !! uid with
  | Some x => set_bound (<[uid := mkBinding (b_host x) (b_reported x) false]> (bound b)) (hosts b) b
  | None => b
  end.

Definition abort uid b : Bindings * list Change :=
  match bound b !! uid with
  | Some x => if b_pending x then (unbind uid false b, [ChangeUnbound uid]) else (b, [])
  | None => (b, [])
  end.

Definition holds uid host b : bool :=
  match bound b !! uid with
  | Some x => bool_decide (b_host x = host) && negb (b_pending x)
  | None => false
  end.

Definition host_of uid b : option string := b_host <$> bound b !! uid.

(** [sort_unstable_by_key] by the order of reports. *)
Definition earlier {A} (p q : N * A) : Prop := (p.1 ≤ q.1)%N.
#[export] Instance earlier_dec {A} : RelDecision (@earlier A) := λ p q, N.le_dec p.1 q.1.

(** [Reports::changes] of [Bindings::reports]. *)
Definition reports b : Bindings * list Change :=
  let l := omap (λ uid, (λ x, (b_reported x, uid)) <$> bound b !! uid) (elements (reported b)) in
  (mkBindings (bound b) (hosts b) (ends b) (expiring b) (moving b) (tick b) ∅,
   (λ p, ChangeReported p.2) <$> merge_sort earlier l).

(** The hosts whose certificate has ended by [now], or that [revoked] names. *)
Definition ended_hosts (now : Z) (revoked : option (End → bool)) b : gset string :=
  list_to_set ((List.filter (λ th, (th.1 <? now)%Z) (elements (expiring b))).*2) ∪
  match revoked with
  | Some revoked => list_to_set ((List.filter (λ he, revoked he.2) (map_to_list (ends b))).*1)
  | None => ∅
  end.

(** Everything of one host ended. *)
Definition end_host host b : Bindings * list InstanceUid :=
  let uids := elements (own host b) in
  let b := drop_end host (set_bound (foldr delete (bound b) uids) (delete host (hosts b)) b) in
  (set_moving (delete host (moving b)) b, uids).

Fixpoint end_each (l : list string) b : Bindings * list (string * list InstanceUid) :=
  match l with
  | [] => (b, [])
  | host :: l =>
      let '(b, uids) := end_host host b in
      let '(b, ended) := end_each l b in (b, (host, uids) :: ended)
  end.

(** [Bindings::end]. *)
Definition end_bindings (now : Z) (revoked : option (End → bool)) b : Bindings * list (string * list InstanceUid) :=
  end_each (elements (ended_hosts now revoked b)) b.

(** One change of a store read back. *)
Definition replay_one (st : Bindings * gmap string End) (c : Change) : Bindings * gmap string End :=
  let b := next_tick st.1 in
  match c with
  | ChangeBound uid host =>
      let b := unbind uid false b in
      (set_bound (<[uid := mkBinding host (tick b) false]> (bound b)) (<[host := {[uid]} ∪ own host b]> (hosts b)) b, st.2)
  | ChangeUnbound uid => (unbind uid false b, st.2)
  | ChangeReported uid =>
      (match bound b !! uid with
       | Some x => set_bound (<[uid := mkBinding (b_host x) (tick b) (b_pending x)]> (bound b)) (hosts b) b
       | None => b
       end, st.2)
  | ChangeEnds host e => (b, <[host := e]> st.2)
  end.

(** The ends of the hosts with a binding; the first host without one. *)
Fixpoint replay_ends (l : list string) (m : gmap string End) b : result Bindings string :=
  match l with
  | [] => Ok b
  | host :: l => match m !! host with
                 | Some e => replay_ends l m (set_end host e b)
                 | None => Err host
                 end
  end.

Definition replay (changes : list Change) : result Bindings string :=
  let '(b, m) := foldl replay_one (no_bindings, ∅) changes in
  replay_ends (map_to_list (hosts b)).*1 m b.

(** [Raw::changes] of [Bindings::raw]. *)
Definition snapshot b : list Change :=
  ((λ he, ChangeEnds he.1 he.2) <$> map_to_list (ends b)) ++
  ((λ p, ChangeBound p.2.1 p.2.2) <$>
     merge_sort earlier ((λ ux, (b_reported ux.2, (ux.1, b_host ux.2))) <$> map_to_list (bound b))).

Definition live b : nat := base.size (bound b) + base.size (ends b).
