(* ===== verification/GateIndex.v ===== *)
(** * The bindings of a Gateway stay indexed

    The invariant of [GatePolicy]'s bindings: the index by host, the ends by time and the order of
    reports agree with what they index, through every operation. *)

From S2P Require Import Prelude RustStr Proto GatePolicy.

Open Scope string_scope.
Open Scope list_scope.

Implicit Types (b : Bindings) (host h : string) (uid : InstanceUid).

(** ** The two indices *)

(** The index by host holds exactly what is bound, and no host without a binding. *)
Definition indexed (m : gmap InstanceUid Binding) (hs : gmap string (gset InstanceUid)) : Prop :=
  (∀ uid h, uid ∈ default ∅ (hs !! h) ↔ ∃ x, m !! uid = Some x ∧ b_host x = h) ∧
  (∀ h s, hs !! h = Some s → s ≠ ∅).

Lemma indexed_host m hs uid x : indexed m hs → m !! uid = Some x → ∃ s, hs !! b_host x = Some s ∧ uid ∈ s.
Proof.
  intros [H _] Hx. assert (Hin : uid ∈ default ∅ (hs !! b_host x)) by (apply H; eauto).
  destruct (hs !! b_host x) as [s|]; [by exists s|]. by apply not_elem_of_empty in Hin.
Qed.

Lemma indexed_some m hs h : indexed m hs → is_Some (hs !! h) ↔ ∃ uid x, m !! uid = Some x ∧ b_host x = h.
Proof.
  intros Hi. split.
  - intros [s Hs]. destruct Hi as [H Hne]. destruct (set_choose_L s (Hne h s Hs)) as [uid Hu]. exists uid.
    apply H. by rewrite Hs.
  - intros (uid & x & Hx & <-). destruct (indexed_host _ _ _ _ Hi Hx) as (s & -> & _). by eexists.
Qed.

Lemma indexed_add m hs uid h t p :
  indexed m hs → m !! uid = None →
  indexed (<[uid := mkBinding h t p]> m) (<[h := {[uid]} ∪ default ∅ (hs !! h)]> hs).
Proof.
  intros [H Hne] Hn. split.
  - intros v k. destruct (decide (k = h)) as [->|Hk].
    + rewrite lookup_insert_eq. cbn. rewrite elem_of_union, elem_of_singleton, H.
      destruct (decide (v = uid)) as [->|Hv]; [rewrite lookup_insert_eq|rewrite lookup_insert_ne by done]; [|naive_solver].
      split; [intros _; by eexists|by left].
    + rewrite lookup_insert_ne by done. rewrite H.
      destruct (decide (v = uid)) as [->|Hv]; [rewrite lookup_insert_eq|by rewrite lookup_insert_ne by done].
      split; [intros (x & Hx & _); congruence|intros (x & [= <-] & <-); done].
  - intros k s. destruct (decide (k = h)) as [->|Hk]; [rewrite lookup_insert_eq|rewrite lookup_insert_ne by done; apply Hne].
    intros [= <-]. set_solver.
Qed.

Lemma indexed_alter m hs uid x x' :
  indexed m hs → m !! uid = Some x → b_host x' = b_host x → indexed (<[uid := x']> m) hs.
Proof.
  intros [H Hne] Hx Hh. split; [|done]. intros v k. rewrite H.
  destruct (decide (v = uid)) as [->|Hv]; [rewrite lookup_insert_eq|by rewrite lookup_insert_ne by done].
  rewrite Hx. split; intros (y & [= <-] & <-); by eexists.
Qed.

(** The index once [uid] of [h] went. *)
Definition without (h : string) uid (hs : gmap string (gset InstanceUid)) : gmap string (gset InstanceUid) :=
  let s := default ∅ (hs !! h) ∖ {[uid]} in if bool_decide (s = ∅) then delete h hs else <[h := s]> hs.

Lemma without_own h uid hs k :
  default ∅ (without h uid hs !! k) = if decide (k = h) then default ∅ (hs !! k) ∖ {[uid]} else default ∅ (hs !! k).
Proof.
  unfold without. destruct (decide (k = h)) as [->|Hk].
  - case_bool_decide as He; [by rewrite lookup_delete_eq, He|by rewrite lookup_insert_eq].
  - case_bool_decide; [by rewrite lookup_delete_ne|by rewrite lookup_insert_ne].
Qed.

Lemma indexed_remove m hs uid x : indexed m hs → m !! uid = Some x → indexed (delete uid m) (without (b_host x) uid hs).
Proof.
  intros [H Hne] Hx. split.
  - intros v k. rewrite without_own. destruct (decide (v = uid)) as [->|Hv].
    + rewrite lookup_delete_eq. split; [|by intros (? & ? & _)]. case_decide as Hk; [set_solver|]. rewrite H.
      intros (y & Hy & <-). congruence.
    + rewrite lookup_delete_ne, <- H by done. case_decide; [subst|done]. set_solver.
  - intros k s. unfold without. case_bool_decide as He.
    + intros [_ Hs]%lookup_delete_Some. by apply (Hne k).
    + intros [[<- <-]|[_ Hs]]%lookup_insert_Some; [done|by apply (Hne k)].
Qed.

Lemma lookup_foldr_delete {A} (l : list InstanceUid) (m : gmap InstanceUid A) v :
  foldr delete m l !! v = if decide (v ∈ l) then None else m !! v.
Proof.
  induction l as [|u l IH]; cbn; [by rewrite decide_False by by intros ?%elem_of_nil|].
  destruct (decide (v = u)) as [->|Hv]; [rewrite lookup_delete_eq, decide_True; [done|by left]|].
  rewrite lookup_delete_ne, IH by done. destruct (decide (v ∈ l)); [by rewrite decide_True by by right|].
  rewrite decide_False; [done|]. by intros [?|?]%elem_of_cons.
Qed.

Lemma indexed_drop m hs h : indexed m hs → indexed (foldr delete m (elements (default ∅ (hs !! h)))) (delete h hs).
Proof.
  intros [H Hne]. split.
  - intros v k. rewrite lookup_foldr_delete. destruct (decide (k = h)) as [->|Hk].
    + rewrite lookup_delete_eq. split; [set_solver|]. case_decide as Hin; [by intros (? & ? & _)|].
      rewrite elem_of_elements, H in Hin. naive_solver.
    + rewrite lookup_delete_ne, H by done. case_decide as Hin; [|done].
      rewrite elem_of_elements, H in Hin. destruct Hin as (y & Hy & Hh). split; [|by intros (? & ? & _)]. intros (x & Hx & <-). congruence.
  - intros k s [_ Hs]%lookup_delete_Some. by apply (Hne k).
Qed.

(** The ends by time are the ends. *)
Definition dated (es : gmap string End) (xs : gset (Z * string)) : Prop :=
  ∀ t h, (t, h) ∈ xs ↔ not_after <$> es !! h = Some t.

Lemma dated_drop es xs h e : dated es xs → es !! h = Some e → dated (delete h es) (xs ∖ {[(not_after e, h)]}).
Proof.
  intros H He t k. rewrite elem_of_difference, elem_of_singleton, (H t k). destruct (decide (k = h)) as [->|Hk].
  - rewrite lookup_delete_eq, He. cbn. naive_solver.
  - rewrite lookup_delete_ne by done. naive_solver.
Qed.

Lemma dated_set es xs h e : dated es xs → es !! h = None → dated (<[h := e]> es) ({[(not_after e, h)]} ∪ xs).
Proof.
  intros H Hn t k. rewrite elem_of_union, elem_of_singleton, (H t k). destruct (decide (k = h)) as [->|Hk].
  - rewrite lookup_insert_eq, Hn. cbn. naive_solver.
  - rewrite lookup_insert_ne by done. naive_solver.
Qed.

Lemma drop_end_ends h b : ends (drop_end h b) = delete h (ends b).
Proof. unfold drop_end. destruct (ends b !! h) eqn:He; [done|]. by rewrite delete_id. Qed.

Lemma drop_end_dated h b : dated (ends b) (expiring b) → dated (ends (drop_end h b)) (expiring (drop_end h b)).
Proof. intros H. unfold drop_end. destruct (ends b !! h) eqn:He; [by apply dated_drop|done]. Qed.

Lemma set_end_ends h e b : ends (set_end h e b) = <[h := e]> (ends b).
Proof. unfold set_end. cbn. rewrite drop_end_ends. apply insert_delete_eq. Qed.

Lemma set_end_dated h e b : dated (ends b) (expiring b) → dated (ends (set_end h e b)) (expiring (set_end h e b)).
Proof. intros H. apply dated_set; [by apply drop_end_dated|]. by rewrite drop_end_ends, lookup_delete_eq. Qed.

(** What an end does not touch. *)
Lemma drop_end_rest h b :
  bound (drop_end h b) = bound b ∧ hosts (drop_end h b) = hosts b ∧ moving (drop_end h b) = moving b ∧
  tick (drop_end h b) = tick b ∧ reported (drop_end h b) = reported b.
Proof. unfold drop_end. by destruct (ends b !! h). Qed.

Lemma set_end_rest h e b :
  bound (set_end h e b) = bound b ∧ hosts (set_end h e b) = hosts b ∧ moving (set_end h e b) = moving b ∧
  tick (set_end h e b) = tick b ∧ reported (set_end h e b) = reported b.
Proof. unfold set_end. cbn. apply drop_end_rest. Qed.

(** ** The invariant *)

(** The order of reports tells the bindings apart. *)
Definition ordered (m : gmap InstanceUid Binding) (t : N) : Prop :=
  (∀ uid x, m !! uid = Some x → (b_reported x ≤ t)%N) ∧
  (∀ u v x y, m !! u = Some x → m !! v = Some y → b_reported x = b_reported y → u = v).

Record wf b : Prop := mkWf {
  wf_indexed : indexed (bound b) (hosts b);
  wf_dated : dated (ends b) (expiring b);
  wf_ends : ∀ h, is_Some (ends b !! h) → is_Some (hosts b !! h);
  wf_moving : ∀ h, is_Some (moving b !! h) → is_Some (ends b !! h);
  wf_ordered : ordered (bound b) (tick b);
}.

Lemma wf_no_bindings : wf no_bindings.
Proof.
  split; cbn; try (by intros h [? ?%lookup_empty_Some]).
  - split; [|by intros h s ?%lookup_empty_Some]. intros uid h. rewrite lookup_empty. split; [set_solver|by intros (? & ?%lookup_empty_Some & _)].
  - intros t h. rewrite lookup_empty. set_solver.
  - split; [by intros uid x ?%lookup_empty_Some|by intros u v x y ?%lookup_empty_Some].
Qed.

Lemma ordered_delete m t uid : ordered m t → ordered (delete uid m) t.
Proof. intros [H1 H2]. split; [intros v x [_ ?]%lookup_delete_Some; by eapply H1|].
  intros u v x y [_ Hu]%lookup_delete_Some [_ Hv]%lookup_delete_Some. by eapply H2. Qed.

Lemma ordered_foldr m t l : ordered m t → ordered (foldr delete m l) t.
Proof. intros H. induction l; cbn; [done|]. by apply ordered_delete. Qed.

(** A binding reported now is the latest. *)
Lemma ordered_latest m t uid x : ordered m t → ordered (<[uid := mkBinding (b_host x) (t + 1) (b_pending x)]> m) (t + 1).
Proof.
  intros [H1 H2]. split.
  - intros v y [[<- <-]|[_ Hv]]%lookup_insert_Some; cbn; [lia|]. specialize (H1 v y Hv). lia.
  - intros u v y z [[<- <-]|[Hu Hy]]%lookup_insert_Some [[<- <-]|[Hv Hz]]%lookup_insert_Some; cbn; intros Heq; [done| | |by eapply H2].
    + specialize (H1 _ _ Hz). lia.
    + specialize (H1 _ _ Hy). lia.
Qed.

(** ** The operations keep it *)

(** A binding removed: its host's end goes with its last one, unless it is kept. *)
Lemma unbind_eq uid keep b x :
  wf b → bound b !! uid = Some x →
  let b' := unbind uid keep b in
  let gone := bool_decide (own (b_host x) b ∖ {[uid]} = ∅) && negb keep in
  bound b' = delete uid (bound b) ∧ hosts b' = without (b_host x) uid (hosts b) ∧ tick b' = tick b ∧ reported b' = reported b ∧
  ends b' = (if gone then delete (b_host x) (ends b) else ends b) ∧
  moving b' = (if gone then delete (b_host x) (moving b) else moving b) ∧ dated (ends b') (expiring b').
Proof.
  intros Hw Hx. cbv zeta. destruct (indexed_host _ _ _ _ (wf_indexed b Hw) Hx) as (s & Hs & _).
  pose proof (wf_dated b Hw) as Hd. unfold unbind, without, own. rewrite Hx, Hs. cbn [default from_option id].
  destruct (bool_decide (s ∖ {[uid]} = ∅)); [|cbn; auto 10]. destruct keep; [cbn; auto 10|].
  set (b1 := set_bound _ _ b). destruct (drop_end_rest (b_host x) b1) as (H1 & H2 & H3 & H4 & H5). cbn [negb andb].
  cbn [bound hosts tick reported ends moving expiring set_moving]. rewrite H1, H2, H3, H4, H5.
  rewrite drop_end_ends. split; [done|]. split; [done|]. split; [done|]. split; [done|]. split; [done|]. split; [done|].
  rewrite <- drop_end_ends. by apply (drop_end_dated (b_host x) b1).
Qed.

(** A host that loses a binding has one left, or its end and its move go. *)
Lemma without_some b uid x h :
  wf b → bound b !! uid = Some x → is_Some (hosts b !! h) →
  is_Some (without (b_host x) uid (hosts b) !! h) ∨ h = b_host x ∧ own (b_host x) b ∖ {[uid]} = ∅.
Proof.
  intros Hw Hx Hh. unfold without, own. destruct (decide (h = b_host x)) as [->|Hne].
  - case_bool_decide as He; [by right|left]. rewrite lookup_insert_eq. by eexists.
  - left. case_bool_decide; [by rewrite lookup_delete_ne|by rewrite lookup_insert_ne].
Qed.

Lemma wf_unbind uid b : wf b → wf (unbind uid false b).
Proof.
  intros Hw. destruct (bound b !! uid) as [x|] eqn:Hx; [|unfold unbind; by rewrite Hx].
  destruct (unbind_eq uid false b x Hw Hx) as (E1 & E2 & E3 & E4 & E5 & E6 & E7). cbv zeta in *. rewrite andb_true_r in E5, E6.
  split; rewrite ?E1, ?E2, ?E3.
  - apply indexed_remove; [apply Hw|done].
  - exact E7.
  - intros h. rewrite E5. intros Hh. destruct (without_some b uid x h Hw Hx) as [?|[-> He]]; [|done|].
    + apply (wf_ends b Hw). case_bool_decide; [|done]. destruct Hh as [e [_ He]%lookup_delete_Some]. by eexists.
    + rewrite bool_decide_true in Hh by done. rewrite lookup_delete_eq in Hh. by destruct Hh.
  - intros h. rewrite E5, E6. case_bool_decide; [|apply Hw]. intros [m [Hne Hm]%lookup_delete_Some].
    rewrite lookup_delete_ne by done. apply (wf_moving b Hw). by eexists.
  - apply ordered_delete, Hw.
Qed.

Lemma wf_same b b' :
  wf b → bound b' = bound b → hosts b' = hosts b → ends b' = ends b → expiring b' = expiring b → moving b' = moving b →
  tick b' = tick b → wf b'.
Proof. intros [H1 H2 H3 H4 H5] E1 E2 E3 E4 E5 E6. split; by rewrite ?E1, ?E2, ?E3, ?E4, ?E5, ?E6. Qed.

Lemma wf_settle host written b : wf b → wf (settle_end host written b).
Proof.
  intros Hw. unfold settle_end. destruct (moving b !! host) as [held|] eqn:Hm; [|done].
  assert (Hw1 : wf (set_moving (delete host (moving b)) b)).
  { split; try apply Hw. cbn [moving ends set_moving]. intros h [x [_ Hx]%lookup_delete_Some]. apply (wf_moving b Hw). by eexists. }
  destruct written; [done|]. set (b1 := set_moving _ b) in *.
  assert (Hh : is_Some (hosts b !! host)) by (apply (wf_ends b Hw), (wf_moving b Hw); by eexists).
  destruct held as [e|].
  - destruct (set_end_rest host e b1) as (E1 & E2 & E3 & E4 & E5). split; rewrite ?E1, ?E2, ?E3, ?E4, ?set_end_ends; try apply Hw.
    + rewrite <- (set_end_ends host e b1). apply set_end_dated, Hw.
    + intros h [x Hx]. apply lookup_insert_Some in Hx as [[<- _]|[_ Hx]]; [done|]. apply (wf_ends b Hw). by eexists.
    + intros h Hx. apply (wf_moving b1 Hw1) in Hx as [y Hy]. destruct (decide (host = h)) as [<-|Hne]; [rewrite lookup_insert_eq; by eexists|].
      rewrite lookup_insert_ne by done. by eexists.
  - destruct (drop_end_rest host b1) as (E1 & E2 & E3 & E4 & E5). split; rewrite ?E1, ?E2, ?E3, ?E4, ?drop_end_ends; try apply Hw.
    + rewrite <- (drop_end_ends host b1). apply drop_end_dated, Hw.
    + intros h [x [_ Hx]%lookup_delete_Some]. apply (wf_ends b Hw). by eexists.
    + cbn [moving ends set_moving b1]. intros h [m [Hne Hx]%lookup_delete_Some]. rewrite lookup_delete_ne by done. apply (wf_moving b Hw). by eexists.
Qed.

Lemma wf_ends_written changes written b : wf b → wf (ends_written changes written b).
Proof.
  unfold ends_written. revert b. induction changes as [|c l IH]; intros b Hw; cbn [foldl]; [done|]. apply IH.
  destruct c; try done. by apply wf_settle.
Qed.

Lemma wf_compacted moved written b : wf b → wf (compacted moved written b).
Proof. unfold compacted. revert b. induction moved as [|h l IH]; intros b Hw; cbn [foldl]; [done|]. by apply IH, wf_settle. Qed.

Lemma wf_commit uid b : wf b → wf (commit uid b).
Proof.
  intros Hw. unfold commit. destruct (bound b !! uid) as [x|] eqn:Hx; [|done]. split; try apply Hw.
  - cbn. eapply indexed_alter; [apply Hw|exact Hx|done].
  - destruct (wf_ordered b Hw) as [H1 H2]. cbn. split.
    + intros v y [[<- <-]|[_ Hy]]%lookup_insert_Some; [by apply (H1 uid x)|by eapply H1].
    + intros u v y z [[<- <-]|[Hu Hy]]%lookup_insert_Some [[<- <-]|[Hv Hz]]%lookup_insert_Some; cbn; [done|by apply H2|by apply H2|by apply H2].
Qed.

Lemma wf_abort uid b : wf b → wf (abort uid b).1.
Proof. intros Hw. unfold abort. destruct (bound b !! uid) as [x|]; [destruct (b_pending x)|]; [by apply wf_unbind|done..]. Qed.

Lemma wf_reports b : wf b → wf (reports b).1.
Proof. intros Hw. by apply (wf_same b). Qed.

Lemma end_host_eq host b :
  let b' := (end_host host b).1 in
  bound b' = foldr delete (bound b) (elements (own host b)) ∧ hosts b' = delete host (hosts b) ∧
  ends b' = delete host (ends b) ∧ moving b' = delete host (moving b) ∧ tick b' = tick b ∧
  (dated (ends b) (expiring b) → dated (ends b') (expiring b')).
Proof.
  unfold end_host. cbn [fst]. set (b1 := set_bound _ _ b). destruct (drop_end_rest host b1) as (E1 & E2 & E3 & E4 & E5).
  cbn [bound hosts tick reported ends moving expiring set_moving]. rewrite E1, E2, E3, E4, drop_end_ends.
  do 5 (split; [done|]). rewrite <- drop_end_ends. apply (drop_end_dated host b1).
Qed.

Lemma wf_end_host host b : wf b → wf (end_host host b).1.
Proof.
  intros Hw. destruct (end_host_eq host b) as (E1 & E2 & E3 & E4 & E5 & E6). cbv zeta in *. split; rewrite ?E1, ?E2, ?E3, ?E4, ?E5.
  - apply indexed_drop, Hw.
  - rewrite <- E3. apply E6, Hw.
  - intros h [x [Hne Hx]%lookup_delete_Some]. rewrite lookup_delete_ne by done. apply (wf_ends b Hw). by eexists.
  - intros h [x [Hne Hx]%lookup_delete_Some]. rewrite lookup_delete_ne by done. apply (wf_moving b Hw). by eexists.
  - apply ordered_foldr, Hw.
Qed.

Lemma wf_end_each l b : wf b → wf (end_each l b).1.
Proof.
  revert b. induction l as [|h l IH]; intros b Hw; cbn [end_each]; [done|].
  pose proof (wf_end_host h b Hw) as H1. destruct (end_host h b) as [b1 uids]. specialize (IH b1 H1).
  by destruct (end_each l b1).
Qed.

(** ** A report *)

Lemma wf_move_end host e b : wf b → is_Some (hosts b !! host) → wf (move_end host e b).1.
Proof.
  intros Hw Hh. unfold move_end. destruct (match ends b !! host with Some k => _ | None => _ end); [done|]. cbn [fst].
  set (b1 := set_moving _ b). destruct (set_end_rest host e b1) as (E1 & E2 & E3 & E4 & E5).
  split; rewrite ?E1, ?E2, ?E3, ?E4, ?set_end_ends; try apply Hw.
  - rewrite <- (set_end_ends host e b1). apply set_end_dated, Hw.
  - intros h [x [[<- _]|[_ Hx]]%lookup_insert_Some]; [done|]. apply (wf_ends b Hw). by eexists.
  - cbn [moving ends set_moving b1]. intros h [x [[<- _]|[Hne Hx]]%lookup_insert_Some]; [rewrite lookup_insert_eq; by eexists|].
    rewrite lookup_insert_ne by done. apply (wf_moving b Hw). by eexists.
Qed.

Lemma move_end_rest host e b :
  let b' := (move_end host e b).1 in
  bound b' = bound b ∧ hosts b' = hosts b ∧ tick b' = tick b ∧ reported b' = reported b ∧
  ((move_end host e b).2 = None ∨ (move_end host e b).2 = Some (ChangeEnds host e)).
Proof.
  unfold move_end. destruct (match ends b !! host with Some k => _ | None => _ end); [cbn; auto 10|]. cbn [fst snd].
  destruct (set_end_rest host e (set_moving (<[host := ends b !! host]> (moving b)) b)) as (-> & -> & _ & -> & ->). auto 10.
Qed.

Lemma wf_bind_new uid host b t :
  indexed (bound b) (hosts b) → dated (ends b) (expiring b) →
  (∀ h, is_Some (ends b !! h) → is_Some (hosts b !! h) ∨ h = host) → (∀ h, is_Some (moving b !! h) → is_Some (ends b !! h)) →
  ordered (bound b) t → tick b = (t + 1)%N → bound b !! uid = None → wf (bind_new uid host b).
Proof.
  intros Hi Hd He Hm Ho Ht Hn. split; cbn [bound hosts ends expiring moving tick bind_new set_bound]; [by apply indexed_add|done| |done|].
  - intros h Hh. destruct (decide (h = host)) as [->|Hne]; [rewrite lookup_insert_eq; by eexists|].
    rewrite lookup_insert_ne by done. by destruct (He h Hh).
  - rewrite Ht. apply (ordered_latest (bound b) t uid (mkBinding host 0 true)). done.
Qed.

Lemma least_reported_spec b l v :
  least_reported b l = Some v →
  v ∈ l ∧ ∀ w, w ∈ l → (default 0 (b_reported <$> bound b !! v) ≤ default 0 (b_reported <$> bound b !! w))%N.
Proof.
  revert v. induction l as [|u l IH]; intros v; cbn [least_reported]; [done|].
  destruct (least_reported b l) as [o|] eqn:Hl.
  - destruct (IH o eq_refl) as [Ho Hmin]. destruct (N.leb_spec (default 0%N (b_reported <$> bound b !! u)) (default 0%N (b_reported <$> bound b !! o)));
      intros [= <-]; (split; [by (left || right)|]); intros w [->|Hw]%elem_of_cons; try done; specialize (Hmin); try (specialize (Hmin w Hw)); lia.
  - intros [= <-]. assert (l = []) as ->.
    { destruct l as [|u' l]; [done|]. cbn in Hl. destruct (least_reported b l); [destruct (_ <=? _)%N|]; done. }
    split; [by left|]. intros w [->|Hw%elem_of_nil]%elem_of_cons; done.
Qed.

(** The binding that makes room is the host's own, in the store, idle, and the least recently
    reported of those. *)
Lemma victim_spec host idle b v :
  wf b → victim host idle b = Some v →
  ∃ x, bound b !! v = Some x ∧ b_host x = host ∧ b_pending x = false ∧ idle v = true ∧
    ∀ w y, bound b !! w = Some y → b_host y = host → b_pending y = false → idle w = true → (b_reported x ≤ b_reported y)%N.
Proof.
  intros Hw Hv. apply least_reported_spec in Hv as [Hin Hmin]. apply list_elem_of_In, filter_In in Hin as [Hin Hok].
  apply list_elem_of_In, elem_of_elements in Hin. apply (proj1 (wf_indexed b Hw)) in Hin as (x & Hx & Hh). rewrite Hx in Hok.
  apply andb_true_iff in Hok as [Hp Hi]. apply negb_true_iff in Hp. exists x. split; [done|]. split; [done|]. split; [done|]. split; [done|].
  intros w y Hy Hhy Hpy Hiy. specialize (Hmin w). rewrite Hx, Hy in Hmin. cbn in Hmin. apply Hmin.
  apply list_elem_of_In, filter_In. split; [|by rewrite Hy, Hpy, Hiy].
  apply list_elem_of_In, elem_of_elements. apply (proj1 (wf_indexed b Hw)). eauto.
Qed.

(** What a report does to the bindings. *)
Record bind_ok uid host limits (idle : InstanceUid → bool) b b' o : Prop := mkBindOk {
  bk_wf : wf b';
  bk_kept : ∀ v x, bound b !! v = Some x → v ≠ uid → v ∉ outcome_evicted o → bound b' !! v = Some x;
  bk_none : ∀ v, bound b !! v = None → v ≠ uid → bound b' !! v = None;
  bk_evicted : ∀ v, v ∈ outcome_evicted o → v ≠ uid ∧ bound b' !! v = None ∧ ∃ x, bound b !! v = Some x ∧ b_host x = host ∧
    b_pending x = false ∧ idle v = true ∧
    ∀ w y, bound b !! w = Some y → b_host y = host → b_pending y = false → idle w = true → (b_reported x ≤ b_reported y)%N;
  bk_uid : match outcome_bound o with
           | New => bound b !! uid = None ∧ ∃ t, bound b' !! uid = Some (mkBinding host t true)
           | Kept => ∃ x t, bound b !! uid = Some x ∧ b_pending x = false ∧ bound b' !! uid = Some (mkBinding (b_host x) t false) ∧
                       outcome_evicted o = []
           | _ => bound b' = bound b ∧ outcome_evicted o = []
           end;
  bk_changes : ∃ moved : option End,
    outcome_changes o = match outcome_bound o with
      | New => map ChangeUnbound (outcome_evicted o) ++ option_list (ChangeEnds host <$> moved) ++ [ChangeBound uid host]
      | Kept => option_list (ChangeEnds host <$> moved)
      | _ => []
      end;
  bk_per_host : (base.size (own host b) ≤ per_host limits → base.size (own host b') ≤ per_host limits)%nat;
  bk_total : (base.size (bound b) ≤ total limits → base.size (bound b') ≤ total limits)%nat;
}.

(** Nothing bound, nothing given up. *)
Lemma bind_ok_none uid host limits idle b b' o :
  wf b' → bound b' = bound b → hosts b' = hosts b → (∃ why, o = mkOutcome (Refused why) [] []) ∨ o = mkOutcome Waiting [] [] →
  bind_ok uid host limits idle b b' o.
Proof.
  intros Hw Eb Eh Ho.
  assert (Hall : outcome_evicted o = [] ∧ outcome_changes o = [] ∧
    match outcome_bound o with New | Kept => False | _ => True end) by (destruct Ho as [[why ->]| ->]; done).
  destruct Hall as (E1 & E2 & E3). split; rewrite ?E1, ?E2, ?Eb; unfold own; rewrite ?Eh; try done.
  - by intros v ?%elem_of_nil.
  - by destruct (outcome_bound o).
  - exists None. by destruct (outcome_bound o).
Qed.

Lemma wf_next_tick b : wf b → wf (next_tick b).
Proof.
  intros Hw. split; try apply Hw. destruct (wf_ordered b Hw) as [H1 H2]. split; [|exact H2].
  intros v x Hx. specialize (H1 v x Hx). cbn. lia.
Qed.

(** A new binding, once there is room. *)
Lemma bind_ok_new uid host limits idle e b0 b evicted t :
  bound b !! uid = None → bound b0 !! uid = None → tick b = (t + 1)%N → wf (bind_new uid host b) →
  (∀ v x, bound b0 !! v = Some x → v ∉ evicted → bound b !! v = Some x) → (∀ v, bound b0 !! v = None → bound b !! v = None) →
  (∀ v, v ∈ evicted → bound b !! v = None ∧ ∃ x, bound b0 !! v = Some x ∧ b_host x = host ∧ b_pending x = false ∧ idle v = true ∧
     ∀ w y, bound b0 !! w = Some y → b_host y = host → b_pending y = false → idle w = true → (b_reported x ≤ b_reported y)%N) →
  (base.size (own host b0) ≤ per_host limits → base.size (own host b) < per_host limits)%nat →
  (base.size (bound b0) ≤ total limits → base.size (bound b) < total limits)%nat →
  let '(b', moved) := move_end host e (bind_new uid host b) in
  bind_ok uid host limits idle b0 b'
    (mkOutcome New evicted (map ChangeUnbound evicted ++ option_list moved ++ [ChangeBound uid host])).
Proof.
  intros Hn Hn0 Ht Hw Hkeep Hnone Hev Hp Htot. pose proof (move_end_rest host e (bind_new uid host b)) as Hr.
  assert (Hw' : wf (move_end host e (bind_new uid host b)).1).
  { apply wf_move_end; [done|]. cbn. rewrite lookup_insert_eq. by eexists. }
  destruct (move_end host e (bind_new uid host b)) as [b' moved]. cbn [fst snd] in *. destruct Hr as (E1 & E2 & _ & _ & Hm).
  cbn [bound hosts bind_new set_bound] in E1, E2. split; cbn [outcome_evicted outcome_bound outcome_changes]; rewrite ?E1.
  - exact Hw'.
  - intros v x Hx Hv Hin. rewrite lookup_insert_ne by done. by apply Hkeep.
  - intros v Hv Hu. rewrite lookup_insert_ne by done. by apply Hnone.
  - intros v Hv. destruct (Hev v Hv) as (Hb & x & Hx & Hrest). assert (v ≠ uid) by congruence. split; [done|].
    rewrite lookup_insert_ne by done. split; [done|]. by exists x.
  - split; [done|]. rewrite lookup_insert_eq. by eexists.
  - destruct Hm as [->| ->]; [by exists None|by exists (Some e)].
  - intros Hs. specialize (Hp Hs). unfold own at 1. rewrite E2, lookup_insert_eq. cbn. fold (own host b).
    pose proof (size_union_alt ({[uid]} : gset InstanceUid) (own host b)) as Hsz. rewrite size_singleton in Hsz.
    pose proof (subseteq_size (own host b ∖ {[uid]}) (own host b) ltac:(set_solver)). lia.
  - intros Hs. specialize (Htot Hs). rewrite map_size_insert_None by done. lia.
Qed.

(** A report of the host the [instance_uid] is bound to. *)
Lemma bind_ok_kept uid host limits idle e b x :
  wf b → bound b !! uid = Some x → b_pending x = false → b_host x = host →
  let '(b', moved) := move_end host e (report uid x (next_tick b)) in
  bind_ok uid host limits idle b b' (mkOutcome Kept [] (option_list moved)).
Proof.
  intros Hw Hu Hpend Hhost. set (b1 := report uid x (next_tick b)).
  assert (Hwr : wf b1).
  { split; try apply Hw; cbn [bound hosts tick b1 report next_tick].
    - eapply indexed_alter; [apply Hw|exact Hu|done].
    - apply ordered_latest, Hw. }
  pose proof (move_end_rest host e b1) as Hr. assert (Hw' : wf (move_end host e b1).1).
  { apply wf_move_end; [done|]. rewrite <- Hhost. destruct (indexed_host _ _ _ _ (wf_indexed b Hw) Hu) as (s & Hs & _). by exists s. }
  destruct (move_end host e b1) as [b2 moved]. cbn [fst snd] in *. destruct Hr as (E1 & E2 & _ & _ & Hm).
  cbn [bound hosts b1 report next_tick] in E1, E2. split; cbn [outcome_evicted outcome_bound outcome_changes]; rewrite ?E1.
  - done.
  - intros v y Hy Hv _. by rewrite lookup_insert_ne.
  - intros v Hv Hne. by rewrite lookup_insert_ne.
  - by intros v ?%elem_of_nil.
  - exists x, (tick b + 1)%N. rewrite lookup_insert_eq. cbn. by rewrite Hpend.
  - destruct Hm as [->| ->]; [by exists None|by exists (Some e)].
  - unfold own. by rewrite E2.
  - rewrite map_size_insert_Some by eauto. done.
Qed.

(** A new binding another one of the host makes room for. *)
Lemma bind_ok_evict uid host limits idle e b v :
  wf b → bound b !! uid = None → victim host idle (next_tick b) = Some v →
  let '(b', moved) := move_end host e (bind_new uid host (unbind v true (next_tick b))) in
  bind_ok uid host limits idle b b' (mkOutcome New [v] (map ChangeUnbound [v] ++ option_list moved ++ [ChangeBound uid host])).
Proof.
  intros Hw Hu Hv. pose proof (wf_next_tick b Hw) as Hw1.
  destruct (victim_spec _ _ _ _ Hw1 Hv) as (x & Hvx & Hvh & Hvp & Hvi & Hmin). change (bound (next_tick b)) with (bound b) in *.
  destruct (unbind_eq v true (next_tick b) x Hw1 Hvx) as (E1 & E2 & E3 & E4 & E5 & E6 & E7). cbv zeta in *.
  rewrite andb_false_r in E5, E6. change (bound (next_tick b)) with (bound b) in *. change (hosts (next_tick b)) with (hosts b) in *.
  set (b1 := unbind v true (next_tick b)) in *. assert (Hne : v ≠ uid) by congruence.
  assert (Hin : v ∈ own host b) by (apply (wf_indexed b Hw); eauto).
  apply (bind_ok_new uid host limits idle e b b1 [v] (tick b)); rewrite ?E1.
  - by rewrite lookup_delete_ne.
  - done.
  - exact E3.
  - apply (wf_bind_new uid host b1 (tick b)); rewrite ?E1, ?E2, ?E3, ?E6;
      [by apply indexed_remove; [apply Hw|]|done| | |by apply ordered_delete, Hw|done|by rewrite lookup_delete_ne].
    + intros h Hh. rewrite E5 in Hh. apply (wf_ends b Hw) in Hh.
      destruct (without_some b v x h Hw Hvx Hh) as [?|[-> _]]; [by left|by right].
    + intros h. rewrite E5. apply (wf_moving b Hw).
  - intros w y Hy Hnin. rewrite lookup_delete_ne; [done|]. set_solver.
  - intros w Hwn'. apply lookup_delete_None. by right.
  - intros w ->%list_elem_of_singleton. split; [by rewrite lookup_delete_eq|]. exists x. auto 10.
  - unfold own at 2. rewrite E2, <- Hvh, without_own, decide_True by done. rewrite Hvh. fold (own host b). intros Hs.
    pose proof (size_difference (own host b) {[v]} ltac:(set_solver)) as Hsz. rewrite size_singleton in Hsz.
    assert (base.size (own host b) ≠ 0%nat) by (rewrite size_empty_iff; set_solver). lia.
  - rewrite map_size_delete_Some by eauto. pose proof (map_size_ne_0_lookup_2 (bound b) v ltac:(eauto)). lia.
Qed.

(** A new binding there is room for. *)
Lemma bind_ok_room uid host limits idle e b :
  wf b → bound b !! uid = None → full limits host (next_tick b) = None →
  let '(b', moved) := move_end host e (bind_new uid host (next_tick b)) in
  bind_ok uid host limits idle b b' (mkOutcome New [] (map ChangeUnbound [] ++ option_list moved ++ [ChangeBound uid host])).
Proof.
  intros Hw Hu Hf. unfold full in Hf. destruct (Nat.leb_spec (per_host limits) (base.size (own host (next_tick b)))) as [|Hp]; [done|].
  destruct (Nat.leb_spec (total limits) (base.size (bound (next_tick b)))) as [|Ht]; [done|].
  apply (bind_ok_new uid host limits idle e b (next_tick b) [] (tick b)); try done.
  - apply (wf_bind_new uid host (next_tick b) (tick b)); try apply Hw; [|done..]. intros h Hh. left. by apply (wf_ends b Hw).
  - by intros v ?%elem_of_nil.
Qed.

Lemma bind_spec uid host e now limits idle b b' o :
  wf b → bind uid host e now limits idle b = (b', o) → bind_ok uid host limits idle b b' o.
Proof.
  intros Hw. unfold bind. destruct (not_after e <? now)%Z; [intros [= <- <-]; apply bind_ok_none; eauto|].
  cbv zeta. set (go := if waits_for_end host e b then _ else _).
  assert (Hgo : (∀ x, bound b !! uid = Some x → b_pending x = false ∧ b_host x = host) → go = (b', o) → bind_ok uid host limits idle b b' o).
  { intros Hx. subst go. destruct (waits_for_end host e b); [intros [= <- <-]; apply bind_ok_none; eauto|].
    change (bound (next_tick b)) with (bound b). destruct (bound b !! uid) as [x|] eqn:Hu.
    - destruct (Hx x eq_refl) as [Hpend Hhost]. pose proof (bind_ok_kept uid host limits idle e b x Hw Hu Hpend Hhost) as Hk.
      destruct (move_end _ _ _) as [b2 moved]. by intros [= <- <-].
    - destruct (full limits host (next_tick b)) as [why|] eqn:Hf; [destruct (victim host idle (next_tick b)) as [v|] eqn:Hv|].
      + pose proof (bind_ok_evict uid host limits idle e b v Hw Hu Hv) as Hn. destruct (move_end _ _ _) as [b2 moved]. by intros [= <- <-].
      + intros [= <- <-]. apply bind_ok_none; [by apply wf_next_tick|done|done|eauto].
      + pose proof (bind_ok_room uid host limits idle e b Hw Hu Hf) as Hn. destruct (move_end _ _ _) as [b2 moved]. by intros [= <- <-]. }
  destruct (bound b !! uid) as [x|] eqn:Hu; [|by apply Hgo].
  destruct (b_pending x) eqn:Hp; [intros [= <- <-]; apply bind_ok_none; eauto|].
  case_bool_decide as Hh; [apply Hgo; intros ? [= <-]; done|]. intros [= <- <-]. split; cbn [outcome_evicted outcome_bound outcome_changes]; auto.
  - by intros v ?%elem_of_nil.
  - exists x, (b_reported x). rewrite Hu. destruct x; cbn in *. by subst.
  - by exists None.
Qed.
