(* ===== verification/GateReplay.v ===== *)
(** * The bindings of a Gateway, written and read back

    What [Bindings::replay] makes of a list of changes ([GatePolicy]): the hosts the changes leave, in
    the order they were last reported; and that a store rewritten whole reads back as what it was
    written from. *)

From S2P Require Import Prelude RustStr Proto GatePolicy GateIndex.

Open Scope string_scope.
Open Scope list_scope.

Implicit Types (b : Bindings) (host h : string) (uid : InstanceUid) (c : Change) (cs : list Change).

(** ** The hosts that changes leave *)

Definition apply_change (m : gmap InstanceUid string) c : gmap InstanceUid string :=
  match c with
  | ChangeBound uid host => <[uid := host]> m
  | ChangeUnbound uid => delete uid m
  | _ => m
  end.

Definition stored_hosts cs : gmap InstanceUid string := foldl apply_change ∅ cs.

Definition apply_end (m : gmap string End) c : gmap string End :=
  match c with ChangeEnds host e => <[host := e]> m | _ => m end.

Definition stored_ends cs : gmap string End := foldl apply_end ∅ cs.

Definition bound_hosts b : gmap InstanceUid string := b_host <$> bound b.

Lemma bound_hosts_lookup b uid : bound_hosts b !! uid = host_of uid b.
Proof. unfold bound_hosts, host_of. by rewrite lookup_fmap. Qed.

(** What is read before the ends are put to it. *)
Record read b : Prop := mkReadBack {
  read_wf : wf b;
  read_ends : ends b = ∅;
  read_settled : ∀ uid x, bound b !! uid = Some x → b_pending x = false;
}.

Lemma unbind_none uid keep b : bound b !! uid = None → unbind uid keep b = b.
Proof. intros H. unfold unbind. by rewrite H. Qed.

Lemma read_unbind uid b : read b → read (unbind uid false b) ∧ bound (unbind uid false b) = delete uid (bound b) ∧ tick (unbind uid false b) = tick b.
Proof.
  intros [Hw He Hs]. destruct (bound b !! uid) as [x|] eqn:Hx; [|rewrite unbind_none by done; by rewrite delete_id].
  destruct (unbind_eq uid false b x Hw Hx) as (E1 & _ & E3 & _ & E5 & _). cbv zeta in *. split; [|done]. split.
  - by apply wf_unbind.
  - rewrite E5, He. destruct (_ && _); [apply delete_empty|done].
  - rewrite E1. intros v y [_ Hy]%lookup_delete_Some. by eapply Hs.
Qed.

Lemma read_next b : read b → read (next_tick b).
Proof. intros [Hw He Hs]. split; [by apply wf_next_tick|done|done]. Qed.

(** [uid], reported at the tick, put where nothing is bound to it. *)
Lemma read_put uid host b t :
  read b → ordered (bound b) t → tick b = (t + 1)%N → bound b !! uid = None →
  read (set_bound (<[uid := mkBinding host (tick b) false]> (bound b)) (<[host := {[uid]} ∪ own host b]> (hosts b)) b).
Proof.
  intros [Hw He Hs] Ho Ht Hn. split; [|done|].
  - split; cbn [bound hosts ends expiring moving tick set_bound].
    + apply indexed_add; [apply Hw|done].
    + apply Hw.
    + intros h. rewrite He. by intros [? ?%lookup_empty_Some].
    + apply Hw.
    + rewrite Ht. by apply (ordered_latest (bound b) t uid (mkBinding host 0 false)).
  - cbn [bound set_bound]. intros v y [[<- <-]|[_ Hy]]%lookup_insert_Some; [done|by eapply Hs].
Qed.

Lemma replay_one_spec b m c :
  read b →
  let '(b', m') := replay_one (b, m) c in
  read b' ∧ bound_hosts b' = apply_change (bound_hosts b) c ∧ m' = apply_end m c ∧ tick b' = (tick b + 1)%N.
Proof.
  intros Hr. pose proof (read_next b Hr) as Hn. destruct c as [uid host|uid|uid|host e]; cbn [replay_one fst snd].
  - destruct (read_unbind uid (next_tick b) Hn) as (Hu & Eb & Et). set (b1 := unbind uid false (next_tick b)) in *. split; [|split; [|by split]].
    + apply (read_put uid host b1 (tick b)); [done| |exact Et|by rewrite Eb, lookup_delete_eq].
      rewrite Eb. apply ordered_delete, Hr.
    + unfold bound_hosts. cbn [bound set_bound]. rewrite Eb, fmap_insert, fmap_delete. apply insert_delete_eq.
  - destruct (read_unbind uid (next_tick b) Hn) as (Hu & Eb & Et). split; [done|]. split; [|by split].
    unfold bound_hosts. rewrite Eb. apply fmap_delete.
  - split; [|split; [|split; [done|change (bound (next_tick b)) with (bound b); by destruct (bound b !! uid)]]]; change (bound (next_tick b)) with (bound b);
      destruct (bound b !! uid) as [x|] eqn:Hx; try done.
    + destruct Hr as [Hw He Hs]. split; [|done|].
      * split; try apply Hw; cbn [bound hosts tick set_bound next_tick]; [by eapply indexed_alter; [apply Hw|..]|apply ordered_latest, Hw].
      * cbn [bound set_bound]. intros v y [[<- <-]|[_ Hy]]%lookup_insert_Some; [cbn; by apply (Hs uid x)|by eapply Hs].
    + unfold bound_hosts. cbn [bound set_bound next_tick apply_change]. rewrite fmap_insert. apply insert_id. by rewrite lookup_fmap, Hx.
  - by split.
Qed.

Lemma replay_all_spec cs b m :
  read b →
  let '(b', m') := foldl replay_one (b, m) cs in
  read b' ∧ bound_hosts b' = foldl apply_change (bound_hosts b) cs ∧ m' = foldl apply_end m cs.
Proof.
  revert b m. induction cs as [|c cs IH]; intros b m Hr; cbn [foldl]; [done|].
  pose proof (replay_one_spec b m c Hr) as H1. destruct (replay_one (b, m) c) as [b1 m1]. destruct H1 as (Hr1 & E1 & -> & _).
  specialize (IH b1 (apply_end m c) Hr1). destruct (foldl _ _ _) as [b2 m2]. by rewrite <- E1.
Qed.

Lemma read_none : read no_bindings.
Proof. split; [apply wf_no_bindings|done|]. cbn. by intros uid x ?%lookup_empty_Some. Qed.

(** ** The ends *)

Lemma replay_ends_spec l m b b' :
  replay_ends l m b = Ok b' →
  bound b' = bound b ∧ hosts b' = hosts b ∧ moving b' = moving b ∧ tick b' = tick b ∧
  (∀ h, ends b' !! h = if decide (h ∈ l) then m !! h else ends b !! h) ∧
  (∀ h, h ∈ l → is_Some (m !! h)) ∧ (dated (ends b) (expiring b) → dated (ends b') (expiring b')).
Proof.
  revert b. induction l as [|host l IH]; intros b; cbn [replay_ends].
  - intros [= <-]. do 4 (split; [done|]). split; [intros h; by rewrite decide_False by by intros ?%elem_of_nil|]. by split; [intros h ?%elem_of_nil|].
  - destruct (m !! host) as [e|] eqn:He; [|done]. intros H. destruct (IH _ H) as (E1 & E2 & E3 & E4 & E5 & E6 & E7).
    destruct (set_end_rest host e b) as (F1 & F2 & F3 & F4 & _). rewrite E1, E2, E3, E4. do 4 (split; [done|]). split; [|split].
    + intros h. rewrite E5, set_end_ends. destruct (decide (h ∈ l)); [by rewrite decide_True by by right|].
      destruct (decide (h = host)) as [->|Hne]; [rewrite lookup_insert_eq, decide_True; [done|by left]|].
      rewrite lookup_insert_ne, decide_False; [done|by intros [?|?]%elem_of_cons|done].
    + intros h [->|Hin]%elem_of_cons; [by eexists|by apply E6].
    + intros Hd. apply E7. by apply set_end_dated.
Qed.

Lemma replay_ends_ok l m b : (∀ h, h ∈ l → is_Some (m !! h)) → is_ok (replay_ends l m b) = true.
Proof.
  revert b. induction l as [|h l IH]; intros b H; cbn [replay_ends]; [done|].
  destruct (H h ltac:(by left)) as [e ->]. apply IH. intros k Hk. apply H. by right.
Qed.

Lemma elem_of_keys {A} (m : gmap string A) h : h ∈ (map_to_list m).*1 ↔ is_Some (m !! h).
Proof.
  rewrite list_elem_of_fmap. split.
  - intros ([k v] & -> & Hin%elem_of_map_to_list). by exists v.
  - intros [v Hv]. exists (h, v). split; [done|]. by apply elem_of_map_to_list.
Qed.

(** What a store that is read holds. *)
Lemma replay_spec cs b :
  replay cs = Ok b →
  wf b ∧ bound_hosts b = stored_hosts cs ∧ moving b = ∅ ∧
  (∀ h, ends b !! h = if decide (is_Some (hosts b !! h)) then stored_ends cs !! h else None) ∧
  (∀ h, is_Some (hosts b !! h) → is_Some (stored_ends cs !! h)) ∧ (∀ uid x, bound b !! uid = Some x → b_pending x = false).
Proof.
  unfold replay. pose proof (replay_all_spec cs no_bindings ∅ read_none) as H. destruct (foldl _ _ _) as [b0 m].
  destruct H as (Hr & Eb & ->). intros H. destruct (replay_ends_spec _ _ _ _ H) as (E1 & E2 & E3 & E4 & E5 & E6 & E7).
  assert (Hmov : moving b0 = ∅).
  { apply map_eq. intros h. rewrite lookup_empty. apply eq_None_not_Some. intros Hm. apply (wf_moving b0 (read_wf b0 Hr)) in Hm.
    rewrite (read_ends b0 Hr) in Hm. by destruct Hm as [? ?%lookup_empty_Some]. }
  assert (Hends : ∀ h, ends b !! h = if decide (is_Some (hosts b !! h)) then stored_ends cs !! h else None).
  { intros h. rewrite E5, E2. destruct (decide (h ∈ (map_to_list (hosts b0)).*1)) as [Hin|Hin]; rewrite elem_of_keys in Hin.
    - by rewrite decide_True.
    - rewrite decide_False by done. by rewrite (read_ends b0 Hr). }
  split; [|split; [|split; [|split; [|split]]]].
  - split; rewrite ?E1, ?E2, ?E3, ?E4, ?Hmov; try apply Hr.
    + apply E7, Hr.
    + intros h. rewrite Hends, E2. case_decide; [done|]. by intros [].
    + intros h. by intros [? ?%lookup_empty_Some].
  - unfold bound_hosts. rewrite E1. exact Eb.
  - congruence.
  - exact Hends.
  - intros h Hh. rewrite E2 in Hh. apply E6. by apply elem_of_keys.
  - rewrite E1. apply Hr.
Qed.

Lemma replay_ok cs :
  (∀ uid h, stored_hosts cs !! uid = Some h → is_Some (stored_ends cs !! h)) → ∃ b, replay cs = Ok b.
Proof.
  intros Hall. unfold replay. pose proof (replay_all_spec cs no_bindings ∅ read_none) as H. destruct (foldl _ _ _) as [b0 m].
  destruct H as (Hr & Eb & ->). assert (Hok : is_ok (replay_ends (map_to_list (hosts b0)).*1 (foldl apply_end ∅ cs) b0) = true).
  { apply replay_ends_ok. intros h Hh%elem_of_keys. apply (indexed_some _ _ _ (wf_indexed b0 (read_wf b0 Hr))) in Hh as (uid & x & Hx & Hh).
    apply (Hall uid). change (stored_hosts cs) with (foldl apply_change (bound_hosts no_bindings) cs).
    rewrite <- Eb. unfold bound_hosts. by rewrite lookup_fmap, Hx, <- Hh. }
  destruct (replay_ends _ _ b0) as [b|]; [by exists b|done].
Qed.

(** ** A store rewritten whole *)

Lemma stored_ends_list (l : list (string * End)) m :
  NoDup l.*1 → foldl apply_end m ((λ he, ChangeEnds he.1 he.2) <$> l) = list_to_map l ∪ m.
Proof.
  revert m. induction l as [|[h e] l IH]; intros m; cbn; [intros _; by rewrite (left_id_L ∅ (∪))|].
  intros [Hn Hl]%NoDup_cons. rewrite IH by done. rewrite <- insert_union_l, insert_union_r; [done|]. by apply not_elem_of_list_to_map_1.
Qed.

Lemma stored_hosts_list (l : list (N * (InstanceUid * string))) m :
  NoDup l.*2.*1 → foldl apply_change m ((λ p, ChangeBound p.2.1 p.2.2) <$> l) = list_to_map l.*2 ∪ m.
Proof.
  revert m. induction l as [|[t [u h]] l IH]; intros m; cbn; [intros _; by rewrite (left_id_L ∅ (∪))|].
  intros [Hn Hl]%NoDup_cons. rewrite IH by done. rewrite <- insert_union_l, insert_union_r; [done|]. by apply not_elem_of_list_to_map_1.
Qed.

(** The bindings by the order of their reports. *)
Definition by_report b : list (N * (InstanceUid * string)) :=
  merge_sort earlier ((λ ux, (b_reported ux.2, (ux.1, b_host ux.2))) <$> map_to_list (bound b)).

Lemma by_report_perm b : (by_report b).*2 ≡ₚ map_to_list (bound_hosts b).
Proof.
  unfold by_report, bound_hosts. rewrite merge_sort_Permutation, map_to_list_fmap, <- list_fmap_compose. by apply Permutation_refl'.
Qed.

Lemma by_report_nodup b : NoDup (by_report b).*2.*1.
Proof. rewrite by_report_perm. apply NoDup_fst_map_to_list. Qed.

Lemma elem_of_by_report b t u h : (t, (u, h)) ∈ by_report b ↔ ∃ x, bound b !! u = Some x ∧ b_reported x = t ∧ b_host x = h.
Proof.
  unfold by_report. rewrite merge_sort_Permutation, list_elem_of_fmap. split.
  - intros ([v x] & [= -> -> ->] & Hx%elem_of_map_to_list). eauto.
  - intros (x & Hx & <- & <-). exists (u, x). split; [done|]. by apply elem_of_map_to_list.
Qed.

Lemma snapshot_hosts b : stored_hosts (snapshot b) = bound_hosts b.
Proof.
  unfold snapshot, stored_hosts. rewrite foldl_app. fold (by_report b).
  assert (Hends : ∀ (l : list (string * End)) m, foldl apply_change m ((λ he, ChangeEnds he.1 he.2) <$> l) = m).
  { induction l as [|he l IH]; intros m; cbn; [done|apply IH]. }
  rewrite Hends, stored_hosts_list, (right_id_L ∅ (∪)) by apply by_report_nodup.
  rewrite (list_to_map_proper _ (map_to_list (bound_hosts b))); [apply list_to_map_to_list|apply by_report_nodup|apply by_report_perm].
Qed.

Lemma snapshot_ends b : stored_ends (snapshot b) = ends b.
Proof.
  unfold snapshot, stored_ends. rewrite foldl_app. fold (by_report b).
  assert (Hb : ∀ (l : list (N * (InstanceUid * string))) m, foldl apply_end m ((λ p, ChangeBound p.2.1 p.2.2) <$> l) = m).
  { induction l as [|p l IH]; intros m; cbn; [done|apply IH]. }
  rewrite Hb, stored_ends_list, (right_id_L ∅ (∪)) by apply NoDup_fst_map_to_list. apply list_to_map_to_list.
Qed.

(** Bound in turn, each is reported after the one before it. *)
Lemma replay_in_turn (l : list (N * (InstanceUid * string))) b m :
  read b → NoDup l.*2.*1 → (∀ u, u ∈ l.*2.*1 → bound b !! u = None) →
  let '(b', _) := foldl replay_one (b, m) ((λ p, ChangeBound p.2.1 p.2.2) <$> l) in
  (∀ u, u ∉ l.*2.*1 → bound b' !! u = bound b !! u) ∧
  ∀ i t u h, l !! i = Some (t, (u, h)) → b_reported <$> bound b' !! u = Some (tick b + 1 + N.of_nat i)%N.
Proof.
  revert b m. induction l as [|[t0 [u0 h0]] l IH]; intros b m Hr; cbn [fmap list_fmap foldl]; [done|].
  intros [Hn0 Hn]%NoDup_cons Hnone. pose proof (replay_one_spec b m (ChangeBound u0 h0) Hr) as H1.
  assert (E : bound (replay_one (b, m) (ChangeBound u0 h0)).1 = <[u0 := mkBinding h0 (tick b + 1) false]> (bound b)).
  { cbn. rewrite unbind_none; [done|]. apply Hnone. by left. }
  cbn [snd fst] in *. destruct (replay_one (b, m) (ChangeBound u0 h0)) as [b1 m1]. destruct H1 as (Hr1 & _ & _ & Et). cbn [fst] in E.
  specialize (IH b1 m1 Hr1 Hn). destruct (foldl _ _ _) as [b2 m2]. destruct IH as [I1 I2].
  { intros u Hu. rewrite E, lookup_insert_ne by by intros <-. apply Hnone. by right. }
  split.
  - intros u [Hne Hu]%not_elem_of_cons. rewrite I1 by done. by rewrite E, lookup_insert_ne.
  - intros [|i] t u h; cbn.
    + intros [= <- <- <-]. rewrite I1, E, lookup_insert_eq by done. cbn. f_equal. lia.
    + intros Hl. rewrite (I2 i t u h Hl), Et. f_equal. lia.
Qed.

Lemma sorted_lookup (l : list (N * (InstanceUid * string))) i j p q :
  Sorted earlier l → l !! i = Some p → l !! j = Some q → (i ≤ j)%nat → (p.1 ≤ q.1)%N.
Proof.
  intros Hs. assert (Ht : Transitive (@earlier (InstanceUid * string))) by (intros x y z; unfold earlier; lia).
  apply Sorted_StronglySorted in Hs; [|exact Ht]. revert i j. induction Hs as [|x l Hs IH Hf]; intros i j; [done|].
  destruct i as [|i], j as [|j]; cbn; try lia.
  - intros [= <-] [= <-] _. lia.
  - intros [= <-] Hq _. rewrite Forall_forall in Hf. apply (Hf q). by eapply list_elem_of_lookup_2.
  - intros Hp Hq Hij. apply (IH i j); [done..|lia].
Qed.

Lemma hosts_determined m m' hs hs' :
  indexed m hs → indexed m' hs' → b_host <$> m = b_host <$> m' → hs = hs'.
Proof.
  intros Hi Hi' Hm.
  assert (Hown : ∀ h, default ∅ (hs !! h) = default ∅ (hs' !! h)).
  { intros h. apply set_eq. intros uid. rewrite (proj1 Hi), (proj1 Hi').
    assert (Hu : (b_host <$> m) !! uid = (b_host <$> m') !! uid) by by rewrite Hm. rewrite !lookup_fmap in Hu.
    destruct (m !! uid) as [x|], (m' !! uid) as [y|]; cbn in Hu; try done.
    injection Hu as Hu. split; intros (z & [= <-] & <-); eauto. }
  apply map_eq. intros h. specialize (Hown h). destruct (hs !! h) as [s|] eqn:Hs, (hs' !! h) as [s'|] eqn:Hs'; cbn in Hown; [by f_equal| | |done].
  - by apply (proj2 Hi) in Hs.
  - symmetry in Hown. by apply (proj2 Hi') in Hs'.
Qed.

(** The order in which a store rewritten whole reads back. *)
Lemma snapshot_order b b' u v x y x' y' :
  wf b → replay (snapshot b) = Ok b' →
  bound b !! u = Some x → bound b !! v = Some y → bound b' !! u = Some x' → bound b' !! v = Some y' →
  (b_reported x < b_reported y ↔ b_reported x' < b_reported y')%N.
Proof.
  intros Hw Hrep Hx Hy Hx' Hy'. unfold replay in Hrep. unfold snapshot in Hrep. rewrite foldl_app in Hrep. fold (by_report b) in Hrep.
  pose proof (replay_all_spec ((λ he, ChangeEnds he.1 he.2) <$> map_to_list (ends b)) no_bindings ∅ read_none) as H1.
  assert (Hb0 : bound (foldl replay_one (no_bindings, ∅) ((λ he, ChangeEnds he.1 he.2) <$> map_to_list (ends b))).1 = ∅).
  { assert (Hgen : ∀ (l : list (string * End)) st, bound (foldl replay_one st ((λ he, ChangeEnds he.1 he.2) <$> l)).1 = bound st.1).
    { induction l as [|he l IH]; intros st; cbn; [done|]. by rewrite IH. }
    by rewrite Hgen. }
  destruct (foldl replay_one (no_bindings, ∅) _) as [b0 m0]. cbn [fst] in Hb0. destruct H1 as (Hr0 & _ & _).
  pose proof (replay_in_turn (by_report b) b0 m0 Hr0 (by_report_nodup b)) as H2.
  destruct (foldl replay_one (b0, m0) _) as [b1 m1]. destruct H2 as [_ Hpos]; [intros w _; by rewrite Hb0|].
  destruct (replay_ends_spec _ _ _ _ Hrep) as (E1 & _). rewrite E1 in Hx', Hy'.
  assert (Hat : ∀ w z, bound b !! w = Some z → ∃ i, by_report b !! i = Some (b_reported z, (w, b_host z))).
  { intros w z Hz. apply list_elem_of_lookup. apply elem_of_by_report. eauto. }
  destruct (Hat u x Hx) as [i Hi], (Hat v y Hy) as [j Hj].
  pose proof (Hpos _ _ _ _ Hi) as Pi. pose proof (Hpos _ _ _ _ Hj) as Pj. rewrite Hx' in Pi. rewrite Hy' in Pj.
  cbn in Pi, Pj. injection Pi as ->. injection Pj as ->.
  assert (Hsort : Sorted earlier (by_report b)).
  { apply Sorted_merge_sort. intros p q. unfold earlier. lia. }
  destruct (Nat.lt_trichotomy i j) as [Hlt|[->|Hgt]].
  - pose proof (sorted_lookup _ _ _ _ _ Hsort Hi Hj ltac:(lia)) as Hle. cbn in Hle.
    assert (b_reported x ≠ b_reported y).
    { intros Heq. assert (u = v) as -> by by eapply (proj2 (wf_ordered b Hw)). rewrite Hx in Hy. injection Hy as <-.
      pose proof (NoDup_lookup _ _ _ _ (by_report_nodup b) ltac:(rewrite !list_lookup_fmap, Hi; done) ltac:(rewrite !list_lookup_fmap, Hj; done)). lia. }
    lia.
  - rewrite Hi in Hj. injection Hj as -> -> _. lia.
  - pose proof (sorted_lookup _ _ _ _ _ Hsort Hj Hi ltac:(lia)) as Hle. cbn in Hle. lia.
Qed.

(** C32: a store rewritten whole reads back as what it was written from. Of well-formed bindings in which
    every host has its certificate's end, what is read back is the same, host by host, with the same
    certificate ends and in the same order of reports, all of them in the store. *)
Theorem bindings_read_back b :
  wf b → (∀ h, is_Some (hosts b !! h) → is_Some (ends b !! h)) →
  ∃ b', replay (snapshot b) = Ok b' ∧ wf b' ∧ hosts b' = hosts b ∧ ends b' = ends b ∧ moving b' = ∅ ∧
    (∀ uid, host_of uid b' = host_of uid b) ∧ (∀ uid x, bound b' !! uid = Some x → b_pending x = false) ∧
    ∀ u v x y x' y', bound b !! u = Some x → bound b !! v = Some y → bound b' !! u = Some x' → bound b' !! v = Some y' →
      (b_reported x < b_reported y ↔ b_reported x' < b_reported y')%N.
Proof.
  intros Hw Hend. destruct (replay_ok (snapshot b)) as [b' Hb'].
  { intros uid h. rewrite snapshot_hosts, snapshot_ends. unfold bound_hosts. rewrite lookup_fmap.
    destruct (bound b !! uid) as [x|] eqn:Hx; [|done]. intros [= <-]. apply Hend.
    destruct (indexed_host _ _ _ _ (wf_indexed b Hw) Hx) as (s & Hs & _). by exists s. }
  destruct (replay_spec _ _ Hb') as (Hw' & Eb & Em & Ee & _ & Hp). rewrite snapshot_hosts in Eb. rewrite snapshot_ends in Ee.
  assert (Eh : hosts b' = hosts b) by (eapply hosts_determined; [apply Hw'|apply Hw|exact Eb]).
  exists b'. split; [done|]. split; [done|]. split; [done|]. split; [|split; [done|split; [|split; [done|]]]].
  - apply map_eq. intros h. rewrite Ee, Eh. case_decide as Hh; [done|]. symmetry. apply eq_None_not_Some. intros He. by apply Hh, (wf_ends b Hw).
  - intros uid. by rewrite <- !bound_hosts_lookup, Eb.
  - intros u v x y x' y'. by apply snapshot_order.
Qed.
