(* ===== verification/GateStore.v ===== *)
(** * The store of a Gateway's bindings

    [fleet-agent/src/gateway/store.rs]: a journal of changes, one a line, under a line that names the
    format. The UUID form of an [instance_uid] is the [uuid] crate's, a parameter. A file is its bytes;
    how a system call ends is an argument of the operation that makes it. *)

From S2P Require Import Prelude RustStr Proto GatePolicy.
From Stdlib Require Import DecimalString DecimalZ DecimalFacts.

Open Scope string_scope.
Open Scope list_scope.

Definition FORMAT : string := "opamp-fleet-gateway-bindings".
Definition VERSION : string := "1".
Definition MAX_LINE : nat := 512.
Definition MAX_BYTES : N := 536870912.

Definition SPACE : ascii := " "%char.
Definition NEWLINE : ascii := "010"%char.
Definition PERCENT : ascii := "%"%char.

Definition header : string := FORMAT +:+ String SPACE VERSION.

(** ** Hosts *)

Definition hex_upper (n : N) : ascii := ascii_of_N (if (n <? 10)%N then 48 + n else 55 + n)%N.

(** What a byte is written as. *)
Definition encode_byte (c : ascii) : string :=
  if ascii_graphic c && negb (ascii_eqb c PERCENT) then String c EmptyString
  else String PERCENT (String (hex_upper (byte_of c / 16)) (String (hex_upper (byte_of c mod 16)) EmptyString)).

Fixpoint encode (host : string) : string :=
  match host with
  | EmptyString => EmptyString
  | String c host => encode_byte c +:+ encode host
  end.

Definition hex_value (c : ascii) : option N :=
  if is_ascii_digit c then Some (byte_of c - 48)%N
  else if in_range 97 102 c then Some (byte_of c - 87)%N
  else if in_range 65 70 c then Some (byte_of c - 55)%N
  else None.

(** [u8::from_str_radix] of two bytes, which takes a sign. *)
Definition u8_radix16 (a b : ascii) : option N :=
  if ascii_eqb a "+"%char then hex_value b
  else x ← hex_value a; y ← hex_value b; Some (16 * x + y)%N.

Fixpoint decode_bytes (field : string) : option (list N) :=
  match field with
  | EmptyString => Some []
  | String c rest =>
      if ascii_eqb c PERCENT then
        match rest with
        | String a (String b rest) =>
            n ← u8_radix16 a b;
            if ascii_graphic (ascii_of_N n) && negb (ascii_eqb (ascii_of_N n) PERCENT) then None
            else cons n <$> decode_bytes rest
        | _ => None
        end
      else if ascii_graphic c then cons (byte_of c) <$> decode_bytes rest
      else None
  end.

Definition decode (field : string) : option string := decode_bytes field ≫= from_utf8.

(** ** Numbers *)

Definition is_hex (field : string) (exactly : option nat) : bool :=
  negb (is_empty field)
  && match exactly with Some len => (String.length field =? len)%nat | None => true end
  && all_bytes (λ c, is_ascii_digit c || in_range 97 102 c) field.

(** [i64::to_string] and [i64::parse]. *)
Definition i64_text (z : Z) : string := NilZero.string_of_int (Z.to_int z).

Definition i64_ok (z : Z) : bool := ((- 9223372036854775808 <=? z) && (z <=? 9223372036854775807))%Z.

Definition i64_parse (field : string) : option Z :=
  z ← (match strip_prefix "+" field with
       | Some digits => Z.of_uint <$> NilZero.uint_of_string digits
       | None => Z.of_int <$> NilZero.int_of_string field
       end);
  if i64_ok z then Some z else None.

(** ** Lines *)

(** The [uuid] crate's text of an identity, and what it reads. *)
Record Uuids := mkUuids {
  uuid_text : InstanceUid → string;
  uuid_parse : string → option InstanceUid;
}.

(** Its documented form: 36 characters, hex digits and hyphens, which it reads back; and it reads
    nothing but sixteen bytes. *)
Class UuidLaws (U : Uuids) : Prop := {
  uuid_sixteen s uid : uuid_parse U s = Some uid → from_wire uid = Some uid;
  uuid_round_trip uid : from_wire uid = Some uid → uuid_parse U (uuid_text U uid) = Some uid;
  uuid_plain uid : all_bytes ascii_graphic (uuid_text U uid) = true;
}.

Section Store.
Context (U : Uuids).

Definition words (l : list string) : string := join SPACE l.

(** The words a change is written as. *)
Definition fields (c : Change) : list string :=
  match c with
  | ChangeBound uid host => ["b"; uuid_text U uid; encode host]
  | ChangeUnbound uid => ["u"; uuid_text U uid]
  | ChangeReported uid => ["r"; uuid_text U uid]
  | ChangeEnds host e => ["h"; encode host; i64_text (not_after e); issuer e; serial e]
  end.

Definition line (c : Change) : option string :=
  let l := words (fields c) in if (String.length l <=? MAX_LINE)%nat then Some l else None.

Definition parse_uid (field : string) : option InstanceUid :=
  uid ← uuid_parse U (trim field); if bool_decide (uuid_text U uid = field) then Some uid else None.

Definition parse (l : string) : option Change :=
  match split SPACE l with
  | ["b"; id; host] => uid ← parse_uid id; host ← decode host; Some (ChangeBound uid host)
  | ["u"; id] => uid ← parse_uid id; Some (ChangeUnbound uid)
  | ["r"; id] => uid ← parse_uid id; Some (ChangeReported uid)
  | ["h"; host; at_; issuer; serial] =>
      parsed ← i64_parse at_;
      if bool_decide (i64_text parsed = at_) && is_hex issuer (Some 64%nat) && is_hex serial None
         && ((String.length serial =? 1)%nat || negb (starts_with_char "0"%char serial))
      then host ← decode host; Some (ChangeEnds host (mkEnd parsed issuer serial))
      else None
  | _ => None
  end.

(** [lines]: each with its newline; nothing when one is too long. *)
Fixpoint lines (cs : list Change) : option string :=
  match cs with
  | [] => Some EmptyString
  | c :: cs => l ← line c; rest ← lines cs; Some (l +:+ String NEWLINE rest)
  end.

Inductive LoadError := LineTooLong (number : nat) | OtherVersion (version : string) | NoFormat | Unparsed (number : nat).

(** A line as text. *)
Definition text_of (l : string) : option string := from_utf8 (bytes_of l).

(** The lines of a store, its bytes split at each newline: what is after the last was cut off. *)
Fixpoint load_lines (number : nat) (headed : bool) (pieces : list string) : result (list Change) LoadError :=
  match pieces with
  | [] => if headed then Ok [] else Err NoFormat
  | [rest] => if (MAX_LINE <? String.length rest)%nat then Err (LineTooLong number)
              else if headed then Ok [] else Err NoFormat
  | l :: pieces =>
      if (MAX_LINE <? String.length l)%nat then Err (LineTooLong number)
      else if headed then
        match text_of l ≫= parse with
        | Some c => cs <-? load_lines (S number) true pieces ;; Ok (c :: cs)
        | None => Err (Unparsed number)
        end
      else
        match text_of l ≫= split_once SPACE with
        | Some (f, v) => if bool_decide (f = FORMAT) then
                           if bool_decide (v = VERSION) then load_lines (S number) true pieces else Err (OtherVersion v)
                         else Err NoFormat
        | None => Err NoFormat
        end
  end.

(** [load] of a store that may be relied on; [None] is a store that does not exist. *)
Definition load (content : option string) : result (list Change) LoadError :=
  match content with None => Ok [] | Some content => load_lines 1 false (split NEWLINE content) end.

(** The bytes of a store that holds [cs]. *)
Definition store_of (cs : list Change) : option string := rest ← lines cs; Some (header +:+ String NEWLINE rest).
End Store.

(** ** What is written is read back *)

(** A Rust [str]: its bytes are UTF-8. *)
Definition is_str (s : string) : Prop := from_utf8 (bytes_of s) = Some s.

Lemma decode_encode_byte c s : decode_bytes (encode_byte c +:+ s) = cons (byte_of c) <$> decode_bytes s.
Proof. destruct c as [[] [] [] [] [] [] [] []]; reflexivity. Qed.

Lemma decode_encode host : is_str host → decode (encode host) = Some host.
Proof.
  intros H. unfold decode. assert (Hd : decode_bytes (encode host) = Some (bytes_of host)).
  { clear H. induction host as [|c host IH]; [done|]. cbn [encode bytes_of]. by rewrite decode_encode_byte, IH. }
  rewrite Hd. exact H.
Qed.

Lemma encode_graphic host : all_bytes ascii_graphic (encode host) = true.
Proof.
  induction host as [|c host IH]; [done|]. cbn [encode]. rewrite all_bytes_app, IH, andb_true_r.
  by destruct c as [[] [] [] [] [] [] [] []].
Qed.

Lemma uint_text_digits d : all_bytes is_ascii_digit (NilEmpty.string_of_uint d) = true.
Proof. induction d; cbn; auto. Qed.

Lemma uint_zero_digits d : all_bytes is_ascii_digit (NilZero.string_of_uint d) = true.
Proof. destruct d; try done; apply (uint_text_digits (_ d)). Qed.

Lemma digit_graphic s : all_bytes is_ascii_digit s = true → all_bytes ascii_graphic s = true.
Proof. apply all_bytes_impl. intros c. unfold is_ascii_digit, ascii_graphic, in_range. rewrite !andb_true_iff, !N.leb_le. lia. Qed.

Lemma i64_text_graphic z : all_bytes ascii_graphic (i64_text z) = true.
Proof.
  unfold i64_text. destruct (Z.to_int z) as [d|d]; cbn; [|change (ascii_graphic "-"%char) with true; cbn];
    apply digit_graphic, uint_zero_digits.
Qed.

Lemma i64_text_plus z : strip_prefix "+" (i64_text z) = None.
Proof.
  unfold i64_text. destruct (Z.to_int z) as [d|d]; cbn [NilZero.string_of_int]; [|done].
  pose proof (uint_zero_digits d) as Hd. destruct (NilZero.string_of_uint d) as [|c s]; [done|]. cbn in *.
  destruct (ascii_eqb "+"%char c) eqn:He; [|done]. apply ascii_eqb_eq in He as <-. done.
Qed.

Lemma i64_round_trip z : i64_ok z = true → i64_parse (i64_text z) = Some z.
Proof.
  intros Hok. unfold i64_parse. rewrite i64_text_plus. unfold i64_text. rewrite NilZero.isi.
  - cbn. by rewrite DecimalZ.of_to, Hok.
  - destruct z; cbn; try done. intros [= H]. by apply DecimalPos.Unsigned.to_uint_nonnil in H.
  - destruct z; cbn; try done. intros [= H]. by apply DecimalPos.Unsigned.to_uint_nonnil in H.
Qed.

(** A change whose texts are what the code holds in them: UTF-8 hosts, 16-byte identities, and a
    certificate as the revocation list names it. *)
Definition storable (c : Change) : Prop :=
  match c with
  | ChangeBound uid host => from_wire uid = Some uid ∧ is_str host
  | ChangeUnbound uid | ChangeReported uid => from_wire uid = Some uid
  | ChangeEnds host e =>
      is_str host ∧ i64_ok (not_after e) = true ∧ is_hex (issuer e) (Some 64%nat) = true ∧ is_hex (serial e) None = true ∧
      ((String.length (serial e) =? 1)%nat || negb (starts_with_char "0"%char (serial e))) = true
  end.

Lemma u8_radix16_byte a b n : u8_radix16 a b = Some n → (n < 256)%N.
Proof.
  assert (Hv : ∀ c k, hex_value c = Some k → (k < 16)%N).
  { intros c k. unfold hex_value, is_ascii_digit, in_range.
    repeat match goal with |- context [if ?t then _ else _] => destruct t eqn:? end; intros [= <-];
      match goal with H : (_ && _) = true |- _ => apply andb_true_iff in H as [?%N.leb_le ?%N.leb_le] end; lia. }
  unfold u8_radix16. destruct (ascii_eqb a _); [intros H%Hv; lia|].
  destruct (hex_value a) as [x|] eqn:Hx; [|done]. destruct (hex_value b) as [y|] eqn:Hy; [|done]. cbn. intros [= <-].
  apply Hv in Hx, Hy. lia.
Qed.

Lemma decode_bytes_small n s : (String.length s ≤ n)%nat → ∀ l, decode_bytes s = Some l → Forall (λ x, x < 256)%N l.
Proof.
  revert s. induction n as [|n IH]; intros [|c s]; cbn [String.length]; try lia; try (intros _ l [= <-]; constructor).
  intros Hn l. cbn [decode_bytes]. destruct (ascii_eqb c PERCENT).
  - destruct s as [|a [|b s]]; try done. destruct (u8_radix16 a b) as [x|] eqn:Hx; [|done]. cbn. destruct (_ && _); [done|].
    destruct (decode_bytes s) as [l'|] eqn:Hl; [|done]. cbn. intros [= <-]. constructor; [by eapply u8_radix16_byte|].
    apply (IH s); [cbn in Hn; lia|done].
  - destruct (ascii_graphic c); [|done]. destruct (decode_bytes s) as [l'|] eqn:Hl; [|done]. cbn. intros [= <-].
    constructor; [apply N_ascii_bounded|]. apply (IH s); [lia|done].
Qed.

(** What is decoded is text. *)
Lemma decode_str field host : decode field = Some host → is_str host.
Proof.
  unfold decode. destruct (decode_bytes field) as [l|] eqn:Hl; [|done]. cbn. intros H.
  apply (decode_bytes_small (String.length field)) in Hl; [|done]. unfold is_str.
  assert (bytes_of host = l) as ->; [|done]. unfold from_utf8 in H. destruct (utf8_valid _ _); [|done]. injection H as <-.
  induction Hl as [|x l Hx Hl IH]; [done|]. change (bytes_of (string_of_bytes (x :: l))) with (N_of_ascii (ascii_of_N x) :: bytes_of (string_of_bytes l)).
  by rewrite IH, N_ascii_embedding.
Qed.

Section Reading.
Context (U : Uuids) `{!UuidLaws U}.

Lemma parse_storable l c : parse U l = Some c → storable c.
Proof.
  assert (Huid : ∀ s uid, parse_uid U s = Some uid → from_wire uid = Some uid).
  { intros s uid. unfold parse_uid. destruct (uuid_parse U (trim s)) as [u|] eqn:Hu; [|done]. cbn. case_bool_decide; [|done].
    intros [= <-]. by eapply uuid_sixteen. }
  unfold parse. repeat case_match; try done; subst.
  all: repeat match goal with |- (?e ≫= _) = Some _ → _ => destruct e eqn:?; [cbn [mbind option_bind]|done] end.
  all: try (intros [= <-]; cbn; eauto using decode_str).
  unfold i64_parse in *.
  repeat match goal with H : (?e ≫= _) = Some _ |- _ => destruct e eqn:?; [cbn [mbind option_bind] in H|done] end.
  destruct (i64_ok _) eqn:Hi; [|done]. repeat match goal with H : Some _ = Some _ |- _ => injection H as -> end.
  destruct (_ && _) eqn:Hc; [|done].
  match goal with |- (?e ≫= _) = Some _ → _ => destruct e eqn:?; [cbn [mbind option_bind]|done] end. intros [= <-]. cbn.
  rewrite !andb_true_iff in Hc. destruct Hc as [[[_ H1] H2] H3]. eauto 8 using decode_str.
Qed.

Lemma load_lines_storable number headed pieces cs : load_lines U number headed pieces = Ok cs → Forall storable cs.
Proof.
  revert number headed cs. induction pieces as [|l pieces IH]; intros number headed cs; [destruct headed; [intros [= <-]; constructor|done]|].
  destruct pieces as [|l' pieces]; [cbn [load_lines]; destruct (_ <? _)%nat; [done|]; destruct headed; [intros [= <-]; constructor|done]|].
  remember (l' :: pieces) as ps. assert (E : load_lines U number headed (l :: ps) =
    if (MAX_LINE <? String.length l)%nat then Err (LineTooLong number)
    else if headed then match text_of l ≫= parse U with
                        | Some c => (cs <-? load_lines U (S number) true ps ;; Ok (c :: cs))
                        | None => Err (Unparsed number)
                        end
    else match text_of l ≫= split_once SPACE with
         | Some (f, v) => if bool_decide (f = FORMAT) then
                            if bool_decide (v = VERSION) then load_lines U (S number) true ps else Err (OtherVersion v)
                          else Err NoFormat
         | None => Err NoFormat
         end) by by subst ps.
  rewrite E. destruct (_ <? _)%nat; [done|]. destruct headed.
  - destruct (text_of l ≫= parse U) as [c|] eqn:Hc; [|done]. destruct (load_lines U (S number) true ps) as [more|] eqn:Hm; [|done].
    intros [= <-]. constructor; [|by eapply IH]. destruct (text_of l); [|done]. by eapply parse_storable.
  - destruct (text_of l ≫= split_once SPACE) as [[f v]|]; [|done]. do 2 (case_bool_decide; [|done]). apply IH.
Qed.

Lemma load_storable content cs : load U content = Ok cs → Forall storable cs.
Proof. destruct content as [s|]; cbn [load]; [apply load_lines_storable|]. intros [= <-]. constructor. Qed.

Lemma graphic_no_space s : all_bytes ascii_graphic s = true → contains_byte SPACE s = false.
Proof. intros H. by apply (all_bytes_not_contains ascii_graphic). Qed.

Lemma hex_graphic s n : is_hex s n = true → all_bytes ascii_graphic s = true.
Proof.
  unfold is_hex. intros [_ H]%andb_true_iff. revert H. apply all_bytes_impl. intros c.
  unfold is_ascii_digit, ascii_graphic, in_range. rewrite orb_true_iff, !andb_true_iff, !N.leb_le. lia.
Qed.

Lemma fields_graphic c : storable c → Forall (λ s, all_bytes ascii_graphic s = true) (fields U c).
Proof.
  destruct c as [uid host|uid|uid|host e]; cbn [fields storable]; intros H; repeat constructor;
    auto using uuid_plain, encode_graphic, i64_text_graphic; destruct H as (_ & _ & Hi & Hs & _); by eapply hex_graphic.
Qed.

Lemma words_split c : storable c → split SPACE (words (fields U c)) = fields U c.
Proof.
  intros H. apply split_join; [by destruct c|]. eapply Forall_impl; [by apply fields_graphic|]. intros s. apply graphic_no_space.
Qed.

Lemma parse_uid_text uid : from_wire uid = Some uid → parse_uid U (uuid_text U uid) = Some uid.
Proof.
  intros H. unfold parse_uid. rewrite trim_graphic by apply uuid_plain. rewrite uuid_round_trip by done. cbn. by rewrite bool_decide_true.
Qed.

Lemma parse_words c : storable c → parse U (words (fields U c)) = Some c.
Proof.
  intros H. unfold parse. rewrite words_split by done. destruct c as [uid host|uid|uid|host e]; cbn [fields storable] in *.
  - destruct H as [Hu Hh]. by rewrite parse_uid_text, decode_encode.
  - by rewrite parse_uid_text.
  - by rewrite parse_uid_text.
  - destruct H as (Hh & Hz & Hi & Hs & Hc). rewrite i64_round_trip by done. cbn [mbind option_bind].
    rewrite bool_decide_true, Hi, Hs, Hc by done. cbn. rewrite decode_encode by done. by destruct e.
Qed.

(** A line is plain text of one line. *)
Definition plain (c : ascii) : bool := ascii_graphic c || ascii_eqb c SPACE.

Lemma join_plain l : Forall (λ s, all_bytes ascii_graphic s = true) l → all_bytes plain (join SPACE l) = true.
Proof.
  assert (Hg : ∀ s, all_bytes ascii_graphic s = true → all_bytes plain s = true).
  { intros s. apply all_bytes_impl. intros c Hc. unfold plain. by rewrite Hc. }
  induction l as [|s [|t l] IH]; intros Hl; [done|apply Hg; by inversion Hl|].
  inversion Hl as [|? ? Hs Ht]; subst. change (join SPACE (s :: t :: l)) with (s +:+ String SPACE (join SPACE (t :: l))).
  rewrite all_bytes_app, (Hg s Hs). cbn [all_bytes]. by rewrite IH.
Qed.

Lemma plain_text s : all_bytes plain s = true → text_of s = Some s ∧ contains_byte NEWLINE s = false.
Proof.
  intros H. split; [|by apply (all_bytes_not_contains plain)]. apply from_utf8_ascii. revert H. apply all_bytes_impl. intros c.
  unfold plain, ascii_graphic, in_range. rewrite orb_true_iff, !andb_true_iff, !N.leb_le.
  intros [[? ?]| ->%ascii_eqb_eq]; [lia|]. split; [lia|]. by vm_compute.
Qed.

Lemma line_reads c l :
  storable c → line U c = Some l → (String.length l ≤ MAX_LINE)%nat ∧ contains_byte NEWLINE l = false ∧ text_of l ≫= parse U = Some c.
Proof.
  intros H. unfold line. destruct (Nat.leb_spec (String.length (words (fields U c))) MAX_LINE) as [Hle|]; [|done]. intros [= <-].
  destruct (plain_text (words (fields U c))) as [Ht Hn]; [by apply join_plain, fields_graphic|].
  split; [done|]. split; [done|]. rewrite Ht. by apply parse_words.
Qed.

(** Nothing of a line that is cut off is taken. *)
Lemma load_tail number rest :
  (String.length rest ≤ MAX_LINE)%nat → contains_byte NEWLINE rest = false → load_lines U number true (split NEWLINE rest) = Ok [].
Proof.
  intros Hle Hn. rewrite split_single by done. cbn [load_lines]. destruct (Nat.ltb_spec MAX_LINE (String.length rest)); [lia|done].
Qed.

Lemma split_not_nil c s : split c s ≠ [].
Proof. apply split_by_nonempty. Qed.

Lemma load_line number c l rest :
  storable c → line U c = Some l →
  load_lines U number true (split NEWLINE (l +:+ String NEWLINE rest)) =
  (cs <-? load_lines U (S number) true (split NEWLINE rest) ;; Ok (c :: cs)).
Proof.
  intros H Hl. destruct (line_reads c l H Hl) as (Hle & Hn & Hp). rewrite split_sep by done.
  destruct (split NEWLINE rest) as [|p ps] eqn:E; [by apply split_not_nil in E|].
  cbn [load_lines]. destruct (Nat.ltb_spec MAX_LINE (String.length l)); [lia|]. by rewrite Hp.
Qed.

Lemma load_all number cs text rest :
  Forall storable cs → lines U cs = Some text →
  ∃ n, load_lines U number true (split NEWLINE (text +:+ rest)) = (more <-? load_lines U n true (split NEWLINE rest) ;; Ok (cs ++ more)).
Proof.
  revert number text. induction cs as [|c cs IH]; intros number text Hall; cbn [lines].
  - intros [= <-]. exists number. change (EmptyString +:+ rest) with rest. by destruct (load_lines _ _ _ _).
  - inversion Hall as [|? ? Hc Hcs]; subst. destruct (line U c) as [l|] eqn:Hl; [|done]. cbn.
    destruct (lines U cs) as [text'|]; [|done]. cbn. intros [= <-]. destruct (IH (S number) text' Hcs eq_refl) as [n Hn].
    exists n. rewrite append_assoc, append_cons, (load_line _ c), Hn by done. by destruct (load_lines U n true (split NEWLINE rest)).
Qed.

Lemma header_reads rest : load U (Some (header +:+ String NEWLINE rest)) = load_lines U 2 true (split NEWLINE rest).
Proof.
  unfold load. rewrite split_sep by by vm_compute. destruct (split NEWLINE rest) as [|p ps] eqn:E; [by apply split_not_nil in E|].
  cbn [load_lines]. assert ((MAX_LINE <? String.length header)%nat = false) as -> by by vm_compute.
  assert (text_of header ≫= split_once SPACE = Some (FORMAT, VERSION)) as -> by by vm_compute. by rewrite !bool_decide_true.
Qed.

(** Where a text of lines is cut: within its first line, or after it. *)
Lemma cut_line l c t part cut :
  l +:+ String c t = part +:+ cut →
  (∃ l2, l = part +:+ l2 ∧ cut ≠ EmptyString) ∨ ∃ part', part = l +:+ String c part' ∧ t = part' +:+ cut.
Proof.
  revert part. induction l as [|d l IH]; intros part H.
  - destruct part as [|e part]; [left; exists EmptyString; split; [done|by intros ->]|].
    rewrite append_cons in H. injection H as -> ->. right. by exists part.
  - destruct part as [|e part]; [left; exists (String d l); split; [done|intros ->; by rewrite append_cons in H]|].
    rewrite !append_cons in H. injection H as -> H. destruct (IH part H) as [(l2 & -> & Hc)|(part' & -> & ->)].
    + left. exists l2. by rewrite append_cons.
    + right. exists part'. by rewrite append_cons.
Qed.

Lemma load_cut number cs text part cut :
  Forall storable cs → lines U cs = Some text → text = part +:+ cut →
  ∃ k, load_lines U number true (split NEWLINE part) = Ok (firstn k cs) ∧ (cut = EmptyString → firstn k cs = cs).
Proof.
  revert number text part. induction cs as [|c cs IH]; intros number text part Hall; cbn [lines].
  - intros [= <-] H. exists 0%nat. destruct part; [|done]. by rewrite load_tail by (done || apply Nat.le_0_l).
  - inversion Hall as [|? ? Hc Hcs]; subst. destruct (line U c) as [l|] eqn:Hl; [|done]. cbn [mbind option_bind].
    destruct (lines U cs) as [text'|]; [|done]. intros [= <-] H. destruct (line_reads c l Hc Hl) as (Hle & Hn & _).
    destruct (cut_line _ _ _ _ _ H) as [(l2 & -> & Hcut)|(part' & -> & Ht)].
    + exists 0%nat. rewrite length_append in Hle. rewrite contains_byte_app in Hn. apply orb_false_iff in Hn as [Hn _].
      rewrite load_tail by (done || lia). by split.
    + destruct (IH (S number) text' part' Hcs eq_refl Ht) as (k & Hk & Hfull). exists (S k).
      rewrite (load_line number c) by done. rewrite Hk. cbn. split; [done|]. intros E. by rewrite (Hfull E).
Qed.

(** A store and any part of the lines of further changes behind it. *)
Lemma load_part cs more content text part cut :
  Forall storable (cs ++ more) → store_of U cs = Some content → lines U more = Some text → text = part +:+ cut →
  ∃ k, load U (Some (content +:+ part)) = Ok (cs ++ firstn k more) ∧ (cut = EmptyString → firstn k more = more).
Proof.
  intros [Hcs Hmore]%Forall_app Hc Ht Hcut. unfold store_of in Hc. destruct (lines U cs) as [written|] eqn:Hl; [|done].
  injection Hc as <-. destruct (load_all 2 cs written part Hcs Hl) as [n Hn].
  destruct (load_cut n more text part cut Hmore Ht Hcut) as (k & Hk & Hfull). exists k. split; [|done].
  rewrite append_assoc, append_cons, header_reads, Hn, Hk. done.
Qed.

(** A store reads back, cut off or whole. A store written with some changes, and any part of the
    lines of further ones behind it, is read as the written changes and as many whole further ones
    as are there; all of them when nothing is missing. *)
Theorem stores_read_back cs more content text part cut :
  Forall storable (cs ++ more) → store_of U cs = Some content → lines U more = Some text → text = part +:+ cut →
  ∃ k, load U (Some (content +:+ part)) = Ok (cs ++ firstn k more) ∧ (cut = EmptyString → firstn k more = more).
Proof. apply load_part. Qed.
End Reading.

(** ** The journal *)

(** How an append ends: written and synced; failed and cut back; or failed and not cut back, with
    the file left holding [bytes] behind what it held. *)
Inductive AppendEnd := Appended | CutBack | NotCutBack (n : nat).

(** How a rewrite ends: not renamed, and whether the old file was opened again; renamed and failed
    after it; done. *)
Inductive CompactEnd := NotRenamed (reopened : bool) | FailedAfterRename | Compacted.

Record Journal := mkJournal {
  j_open : bool;
  j_len : N;
  j_lines : nat;
  j_reports : nat;
  j_damaged : bool;
}.

Definition is_report (c : Change) : bool := match c with ChangeReported _ => true | _ => false end.
Definition count_reports (cs : list Change) : nat := length (List.filter is_report cs).

Definition bytes_len (s : string) : N := N.of_nat (String.length s).

Section Journal.
Context (U : Uuids).

(** [Journal::compact]; [content] is the file. *)
Definition journal_compact (ended : CompactEnd) (cs : list Change) (j : Journal) (content : option string)
    : Journal * option string * bool :=
  match store_of U cs with
  | None => (j, content, false)
  | Some bytes =>
      if (MAX_BYTES <? bytes_len bytes)%N then (j, content, false)
      else
        match ended with
        | NotRenamed reopened =>
            (mkJournal reopened (j_len j) (j_lines j) (j_reports j) (j_damaged j || negb reopened), content, false)
        | FailedAfterRename =>
            (mkJournal false (bytes_len bytes) (length cs - count_reports cs) (count_reports cs) true, Some bytes, false)
        | Compacted =>
            (mkJournal true (bytes_len bytes) (length cs - count_reports cs) (count_reports cs) false, Some bytes, true)
        end
  end.

(** [Journal::create]. *)
Definition journal_create (ended : CompactEnd) (cs : list Change) (content : option string) : option Journal * option string :=
  let '(j, content, written) := journal_compact ended cs (mkJournal false 0 0 0 true) content in
  (if written then Some j else None, content).

(** [Journal::append]. *)
Definition journal_append (ended : AppendEnd) (cs : list Change) (j : Journal) (content : option string)
    : Journal * option string * bool :=
  if j_damaged j || negb (j_open j) then (j, content, false)
  else
    match lines U cs with
    | None => (j, content, false)
    | Some bytes =>
        if (MAX_BYTES <? j_len j + bytes_len bytes)%N then (j, content, false)
        else
          match ended with
          | CutBack => (j, content, false)
          | NotCutBack n =>
              (mkJournal (j_open j) (j_len j) (j_lines j) (j_reports j) true, (λ s, s +:+ String.substring 0 n bytes) <$> content, false)
          | Appended =>
              (mkJournal (j_open j) (j_len j + bytes_len bytes) (j_lines j + (length cs - count_reports cs))
                 (j_reports j + count_reports cs) (j_damaged j), (λ s, s +:+ bytes) <$> content, true)
          end
    end.
End Journal.
