(* ===== verification/GateArtifacts.v ===== *)
(** * The artifacts a Gateway holds

    The held artifacts of [fleet-agent/src/gateway/cache.rs]: fetched once, kept within a capacity, and
    deleted to make room for the next. A fetch, a deletion and a request each take the lock several
    times; every stretch under it is an operation here. A file is its hash and the number of its copy. *)

From S2P Require Import Prelude RustStr.

Open Scope string_scope.
Open Scope list_scope.
Open Scope N_scope.

Notation Hash := (list N) (only parsing).

(** [Artifact]: the path an offer names, query included, and the hash. *)
Record Artifact := mkArtifact {
  a_path : string;
  a_hash : list N;
}.

#[export] Instance Artifact_eq_dec : EqDecision Artifact.
Proof. solve_decision. Defined.

Definition ROUTE_PREFIX : string := "/api/v1/packages/".

Definition before_query (url : string) : string :=
  match split_once "?"%char url with Some (path, _) => path | None => url end.

(** [Artifact::of]. *)
Definition artifact_of (url : string) (content_hash : list N) : option Artifact :=
  if starts_with ROUTE_PREFIX url && ends_with "/file" (before_query url) && (length content_hash =? 32)%nat
  then Some (mkArtifact url content_hash) else None.

Record Held := mkHeld {
  h_len : N;
  h_used : N;
  h_copy : N;
}.

Notation File := (list N * N)%type (only parsing).

(** The artifacts of [Inner]. *)
Record Artifacts := mkArtifacts {
  held : gmap (list N) Held;
  deleting : gmap File N;
  doomed : gmap File N;
  reserved : gmap (list N) N;
  fetching : gset (list N);
  failed : gset (list N);
  armed : gset (list N);
  refused : gset (list N);
  uses : N;
  copies : N;
}.

Definition no_artifacts : Artifacts := mkArtifacts ∅ ∅ ∅ ∅ ∅ ∅ ∅ ∅ 0 0.

Implicit Types (a : Artifacts) (hash : list N).

Definition sum_N {K} `{Countable K} {A} (f : A → N) (m : gmap K A) : N := map_fold (λ _ x n, f x + n) 0 m.

Definition held_bytes a : N := sum_N h_len (held a).

Definition other_counted a : N := sum_N id (deleting a) + sum_N id (doomed a) + sum_N id (reserved a).

Definition bytes_counted a : N := held_bytes a + other_counted a.

Definition may_fetch hash a : bool :=
  negb (bool_decide (is_Some (held a !! hash))) && negb (bool_decide (hash ∈ fetching a)) && negb (bool_decide (hash ∈ refused a))
  && negb (bool_decide (hash ∈ failed a)).

(** ** Room *)

(** The order artifacts go in: those no offer names first, each by when it was used. *)
Definition goes_before (offered : gset (list N)) (p q : list N * Held) : Prop :=
  if bool_decide (p.1 ∈ offered) then if bool_decide (q.1 ∈ offered) then h_used p.2 ≤ h_used q.2 else False
  else if bool_decide (q.1 ∈ offered) then True else h_used p.2 ≤ h_used q.2.

#[export] Instance goes_before_dec offered : RelDecision (goes_before offered).
Proof. intros p q. unfold goes_before. repeat case_bool_decide; apply _. Defined.

(** Which of [order] go until [need] fits; what is counted then, and whether it does. *)
Fixpoint give_way (order : list (list N * Held)) (counted need capacity : N) : list (list N) * N :=
  match order with
  | [] => ([], counted)
  | (hash, h) :: order =>
      if saturating_add u64_max counted need <=? capacity then ([], counted)
      else let (out, left_) := give_way order (counted - h_len h) need capacity in (hash :: out, left_)
  end.

Definition victims (offered : gset (list N)) (need capacity : N) a : option (list (list N)) :=
  let (out, left_) := give_way (merge_sort (goes_before offered) (map_to_list (held a))) (bytes_counted a) need capacity in
  if saturating_add u64_max left_ need <=? capacity then Some out else None.

(** *** Steps of a fetch *)

Definition set_room (h : gmap (list N) Held) (d x : gmap File N) (r : gmap (list N) N) a : Artifacts :=
  mkArtifacts h d x r (fetching a) (failed a) (armed a) (refused a) (uses a) (copies a).

Definition set_fetching (f : gset (list N)) a : Artifacts :=
  mkArtifacts (held a) (deleting a) (doomed a) (reserved a) f (failed a) (armed a) (refused a) (uses a) (copies a).

(** [reserve]: what could not be deleted before is deleted again. *)
Definition retry_doomed a : Artifacts := set_room (held a) (doomed a ∪ deleting a) ∅ (reserved a) a.

(** A held artifact given up: its file is being deleted. *)
Definition evict_held a hash : Artifacts :=
  match held a !! hash with
  | Some h => set_room (delete hash (held a)) (<[(hash, h_copy h) := h_len h]> (deleting a)) (doomed a) (reserved a) a
  | None => a
  end.

(** [reserve]: the victims chosen, and the room reserved. *)
Definition reserve (offered : gset (list N)) (capacity : N) hash (need : N) a : Artifacts * bool :=
  match victims offered need capacity a with
  | None => (a, false)
  | Some l =>
      let a := foldl evict_held a l in
      (set_room (held a) (deleting a) (doomed a) (<[hash := need]> (reserved a)) a, true)
  end.

(** [reserve]: whether the room is there once the victims are deleted. *)
Definition room_made (capacity : N) hash a : Artifacts * bool :=
  if capacity <? bytes_counted a then (set_room (held a) (deleting a) (doomed a) (delete hash (reserved a)) a, false)
  else (a, true).

(** [delete], for one file. *)
Definition deleted (file : File) (gone : bool) a : Artifacts :=
  match deleting a !! file with
  | None => a
  | Some len => set_room (held a) (delete file (deleting a)) (if gone then doomed a else <[file := len]> (doomed a)) (reserved a) a
  end.

(** What a fetch came to. *)
Inductive Fetched := FetchedLen (len : N) | FetchTooLarge | FetchFailed.

Definition settle hash (copy : N) (outcome : Fetched) a : Artifacts :=
  let r := delete hash (reserved a) in
  let f := fetching a ∖ {[hash]} in
  match outcome with
  | FetchedLen len =>
      mkArtifacts (<[hash := mkHeld len (uses a + 1) copy]> (held a)) (deleting a) (doomed a) r f (failed a) (armed a) (refused a)
        (uses a + 1) (copies a)
  | FetchTooLarge => mkArtifacts (held a) (deleting a) (doomed a) r f (failed a) (armed a) ({[hash]} ∪ refused a) (uses a) (copies a)
  | FetchFailed => mkArtifacts (held a) (deleting a) (doomed a) r f ({[hash]} ∪ failed a) (armed a) (refused a) (uses a) (copies a)
  end.

(** [Landing::drop] of a fetch that ends without settling. *)
Definition abandoned hash a : Artifacts :=
  mkArtifacts (held a) (deleting a) (doomed a) (delete hash (reserved a)) (fetching a ∖ {[hash]}) (failed a) (armed a) (refused a)
    (uses a) (copies a).

(** The number a fetch stores its copy under. *)
Definition next_copy a : Artifacts * N :=
  (mkArtifacts (held a) (deleting a) (doomed a) (reserved a) (fetching a) (failed a) (armed a) (refused a) (uses a) (copies a + 1),
   copies a + 1).

(** *** Requests *)

Inductive Decision := Open (copy : N) | Busy | Start | Nothing.

Definition decide_request hash a : Artifacts * Decision :=
  match held a !! hash with
  | Some h =>
      (mkArtifacts (<[hash := mkHeld (h_len h) (uses a + 1) (h_copy h)]> (held a)) (deleting a) (doomed a) (reserved a) (fetching a)
         (failed a) (armed a) (refused a) (uses a + 1) (copies a), Open (h_copy h))
  | None =>
      if bool_decide (hash ∈ fetching a) then (a, Busy)
      else if bool_decide (hash ∈ refused a) || bool_decide (hash ∈ failed a) then (a, Nothing)
      else if bool_decide (hash ∈ armed a) then
        (mkArtifacts (held a) (deleting a) (doomed a) (reserved a) ({[hash]} ∪ fetching a) (failed a) (armed a ∖ {[hash]})
           (refused a) (uses a) (copies a), Start)
      else (a, Nothing)
  end.

(** A held copy whose file is gone. *)
Definition lost hash (copy : N) a : Artifacts :=
  match held a !! hash with
  | Some h => if h_copy h =? copy then set_room (delete hash (held a)) (deleting a) (doomed a) (reserved a) a else a
  | None => a
  end.

(** *** Offers *)

(** What an offer does for one artifact: whether a fetch of it starts. *)
Definition offer_artifact (previous : list Artifact) (st : Artifacts * list Artifact) (x : Artifact) : Artifacts * list Artifact :=
  let (a, start) := st in
  let hash := a_hash x in
  let known := existsb (λ old, bool_decide (a_hash old = hash)) previous in
  let a := mkArtifacts (held a) (deleting a) (doomed a) (reserved a) (fetching a) (if known then failed a else failed a ∖ {[hash]})
             ({[hash]} ∪ armed a) (refused a) (uses a) (copies a) in
  if may_fetch hash a then (set_fetching ({[hash]} ∪ fetching a) a, start ++ [x]) else (a, start).

(** ** The fetches of a run *)

(** Where a fetch is: before its room is reserved, while its victims are deleted, once it writes, and
    once it got no room. *)
Inductive Stage := Asking | Clearing | Writing (need : N) | Failing.

Record Room := mkRoom {
  arts : Artifacts;
  tasks : gmap (list N) Stage;
}.

Inductive RoomStep :=
| OnOffer (previous : list Artifact) (xs : list Artifact)
| OnRequest (hash : list N)
| OnRetry
| OnReserve (offered : gset (list N)) (hash : list N) (need : N)
| OnDeleted (file : File) (gone : bool)
| OnRoom (hash : list N)
| OnSettle (hash : list N) (copy : N) (outcome : Fetched)
| OnLost (hash : list N) (copy : N).

Definition start_tasks (l : list (list N)) (t : gmap (list N) Stage) : gmap (list N) Stage :=
  foldr (λ hash t, <[hash := Asking]> t) t l.

(** A step of the Gateway, of capacity [capacity]; [limit] is the largest artifact it fetches. A fetch
    writes no more than it reserved, and stores only what it was let to write. *)
Definition room_step (capacity limit : N) (r : Room) (x : RoomStep) : Room :=
  let a := arts r in
  match x with
  | OnOffer previous xs =>
      let (a, start) := foldl (offer_artifact previous) (a, []) xs in mkRoom a (start_tasks (a_hash <$> start) (tasks r))
  | OnRequest hash =>
      let (a, d) := decide_request hash a in
      mkRoom a (match d with Start => <[hash := Asking]> (tasks r) | _ => tasks r end)
  | OnRetry => mkRoom (retry_doomed a) (tasks r)
  | OnReserve offered hash need =>
      match tasks r !! hash with
      | Some Asking =>
          if limit <? need then r
          else let (a, ok) := reserve offered capacity hash need a in mkRoom a (<[hash := if ok then Clearing else Failing]> (tasks r))
      | _ => r
      end
  | OnDeleted file gone => mkRoom (deleted file gone a) (tasks r)
  | OnRoom hash =>
      match tasks r !! hash, reserved a !! hash with
      | Some Clearing, Some need =>
          let (a, ok) := room_made capacity hash a in
          mkRoom a (<[hash := if ok then Writing need else Failing]> (tasks r))
      | _, _ => r
      end
  | OnSettle hash copy outcome =>
      match tasks r !! hash, outcome with
      | Some (Writing need), FetchedLen len => if len <=? need then mkRoom (settle hash copy outcome a) (delete hash (tasks r)) else r
      | Some _, FetchedLen _ => r
      | Some _, _ => mkRoom (settle hash copy outcome a) (delete hash (tasks r))
      | None, _ => r
      end
  | OnLost hash copy => mkRoom (lost hash copy a) (tasks r)
  end.

Definition no_room : Room := mkRoom no_artifacts ∅.

(** What may be on the disk: what is held, what waits to be deleted, and what the fetches that write
    may have written by now. A staged file a failed fetch could not remove is counted nowhere. *)
Definition on_disk (r : Room) : N :=
  held_bytes (arts r) + sum_N id (deleting (arts r)) + sum_N id (doomed (arts r)) +
  sum_N (λ s, match s with Writing need => need | _ => 0 end) (tasks r).

(** ** It stays within its capacity *)

Section Sums.
Context {K : Type} `{Countable K} {A : Type} (f : A → N).

Lemma sum_empty : sum_N f (∅ : gmap K A) = 0.
Proof. unfold sum_N. apply map_fold_empty. Qed.

Lemma sum_insert (m : gmap K A) k x : m !! k = None → sum_N f (<[k := x]> m) = f x + sum_N f m.
Proof. intros Hk. unfold sum_N. apply (map_fold_insert_L (λ _ x n, f x + n)); [intros; lia|done]. Qed.

Lemma sum_delete (m : gmap K A) k x : m !! k = Some x → sum_N f m = f x + sum_N f (delete k m).
Proof. intros Hk. rewrite <- (insert_delete_id m k x) at 1 by done. apply sum_insert, lookup_delete_eq. Qed.

Lemma sum_delete_le (m : gmap K A) k : sum_N f (delete k m) ≤ sum_N f m.
Proof. destruct (m !! k) as [x|] eqn:Hk; [rewrite (sum_delete m k x Hk); lia|by rewrite delete_id]. Qed.

Lemma sum_insert_le (m : gmap K A) k x : sum_N f (<[k := x]> m) ≤ f x + sum_N f m.
Proof.
  rewrite <- insert_delete_eq, sum_insert by apply lookup_delete_eq. pose proof (sum_delete_le m k). lia.
Qed.

Lemma sum_union_le (m1 m2 : gmap K A) : sum_N f (m1 ∪ m2) ≤ sum_N f m1 + sum_N f m2.
Proof.
  induction m1 as [|k x m1 Hk IH] using map_ind; [rewrite (left_id_L ∅ (∪)); lia|].
  rewrite <- insert_union_l, (sum_insert m1) by done. pose proof (sum_insert_le (m1 ∪ m2) k x). lia.
Qed.

Lemma sum_fmap_le {B} (g : B → N) (m : gmap K A) (m' : gmap K B) :
  (∀ k x, m !! k = Some x → f x = 0 ∨ ∃ y, m' !! k = Some y ∧ f x ≤ g y) → sum_N f m ≤ map_fold (λ _ y n, g y + n) 0 m'.
Proof.
  revert m'. induction m as [|k x m Hk IH] using map_ind; intros m' Hall; [rewrite sum_empty; lia|]. rewrite sum_insert by done.
  assert (Hrest : ∀ j z, m !! j = Some z → f z = 0 ∨ ∃ y, delete k m' !! j = Some y ∧ f z ≤ g y).
  { intros j z Hj. assert (j ≠ k) by congruence. destruct (Hall j z) as [?|(y & Hy & Hle)]; [by rewrite lookup_insert_ne|by left|].
    right. exists y. by rewrite lookup_delete_ne. }
  specialize (IH (delete k m') Hrest). destruct (Hall k x) as [Hz|(y & Hy & Hle)]; [by rewrite lookup_insert_eq| |].
  - destruct (m' !! k) as [y|] eqn:Hy; [|rewrite delete_id in IH by done; lia].
    rewrite <- (insert_delete_id m' k y) by done. rewrite (map_fold_insert_L (λ _ y n, g y + n)); [lia|intros; lia|apply lookup_delete_eq].
  - rewrite <- (insert_delete_id m' k y) by done. rewrite (map_fold_insert_L (λ _ y n, g y + n)); [lia|intros; lia|apply lookup_delete_eq].
Qed.
End Sums.

Definition writes (s : Stage) : N := match s with Writing need => need | _ => 0 end.

(** What counts of the files. *)
Definition filed a : N := held_bytes a + sum_N id (deleting a) + sum_N id (doomed a).

Lemma on_disk_eq r : on_disk r = filed (arts r) + sum_N writes (tasks r).
Proof. unfold on_disk, filed. fold writes. lia. Qed.

Lemma give_up_filed a hash : filed (evict_held a hash) ≤ filed a ∧ reserved (evict_held a hash) = reserved a.
Proof.
  unfold evict_held. destruct (held a !! hash) as [h|] eqn:Hh; [|split; [lia|done]]. split; [|done].
  unfold filed, held_bytes. cbn [held deleting doomed set_room]. rewrite (sum_delete h_len (held a) hash h Hh).
  pose proof (sum_insert_le id (deleting a) (hash, h_copy h) (h_len h)) as Hle. change (id (h_len h)) with (h_len h) in Hle. lia.
Qed.

Lemma give_up_all l a : filed (foldl evict_held a l) ≤ filed a ∧ reserved (foldl evict_held a l) = reserved a.
Proof.
  revert a. induction l as [|hash l IH]; intros a; cbn [foldl]; [split; [lia|done]|].
  destruct (give_up_filed a hash) as [H1 H2], (IH (evict_held a hash)) as [H3 H4]. split; [lia|congruence].
Qed.

Lemma offer_one_filed previous a l x :
  let a' := (offer_artifact previous (a, l) x).1 in filed a' = filed a ∧ reserved a' = reserved a.
Proof. unfold offer_artifact. cbv zeta. by destruct (may_fetch _ _). Qed.

Lemma offer_all_filed previous xs a l :
  let a' := (foldl (offer_artifact previous) (a, l) xs).1 in filed a' = filed a ∧ reserved a' = reserved a.
Proof.
  revert a l. induction xs as [|x xs IH]; intros a l; cbn [foldl]; [done|].
  pose proof (offer_one_filed previous a l x) as [H1 H2]. destruct (offer_artifact previous (a, l) x) as [a1 l1]. cbn [fst] in *.
  destruct (IH a1 l1) as [H3 H4]. split; congruence.
Qed.

Lemma start_tasks_writes l t : sum_N writes (start_tasks l t) ≤ sum_N writes t ∧
  ∀ hash need, start_tasks l t !! hash = Some (Writing need) → t !! hash = Some (Writing need).
Proof.
  induction l as [|h l [IH1 IH2]]; cbn [start_tasks foldr]; [split; [lia|done]|]. fold (start_tasks l t). split.
  - pose proof (sum_insert_le writes (start_tasks l t) h Asking) as Hle. change (writes Asking) with 0 in Hle. lia.
  - intros hash need [[_ ?]|[_ H]]%lookup_insert_Some; [done|by apply IH2].
Qed.

(** The fetches that write hold the room they reserved. *)
Definition backed (r : Room) : Prop := ∀ hash need, tasks r !! hash = Some (Writing need) → reserved (arts r) !! hash = Some need.

Definition within (capacity : N) (r : Room) : Prop := backed r ∧ on_disk r ≤ capacity.

(** The tasks and the reservations stay, and no more is filed. *)
Lemma within_less capacity r a :
  within capacity r → filed a ≤ filed (arts r) → reserved a = reserved (arts r) → within capacity (mkRoom a (tasks r)).
Proof. intros [Hb Hd] Hf Hr. split; [intros hash need Ht; cbn; rewrite Hr; by apply Hb|]. rewrite on_disk_eq in *. cbn. lia. Qed.

(** A task that is not writing moves on, without writing. *)
Lemma within_stage capacity r a hash s :
  within capacity r → filed a ≤ filed (arts r) → writes s = 0 → (∀ need, s ≠ Writing need) →
  (∀ h, h ≠ hash → reserved a !! h = reserved (arts r) !! h) → within capacity (mkRoom a (<[hash := s]> (tasks r))).
Proof.
  intros [Hb Hd] Hf Hs Hw Hr. split.
  - unfold backed. cbn [tasks arts]. intros h need [[_ ->]|[Hne Ht]]%lookup_insert_Some; [by destruct (Hw need)|]. rewrite Hr by done. by apply Hb.
  - rewrite on_disk_eq in *. cbn. pose proof (sum_insert_le writes (tasks r) hash s). lia.
Qed.

Lemma within_settle capacity r hash copy outcome need :
  within capacity r → writes <$> tasks r !! hash = Some need →
  match outcome with FetchedLen len => len ≤ need | _ => True end →
  within capacity (mkRoom (settle hash copy outcome (arts r)) (delete hash (tasks r))).
Proof.
  intros [Hb Hd] Ht Hlen. destruct (tasks r !! hash) as [s|] eqn:Es; [|done]. injection Ht as Ht. split.
  - unfold backed. cbn [tasks arts]. intros h n [Hne Hh]%lookup_delete_Some.
    assert (reserved (settle hash copy outcome (arts r)) = delete hash (reserved (arts r))) as -> by by destruct outcome.
    rewrite lookup_delete_ne by done. by apply Hb.
  - rewrite on_disk_eq in *. cbn [arts tasks]. rewrite (sum_delete writes (tasks r) hash s Es) in Hd. rewrite Ht in Hd.
    destruct outcome as [len| |]; cbn [settle]; [|unfold filed, held_bytes in *; cbn; lia..].
    unfold filed, held_bytes in *. cbn [held deleting doomed].
    pose proof (sum_insert_le h_len (held (arts r)) hash (mkHeld len (uses (arts r) + 1) copy)) as Hi. cbn [h_len] in Hi. lia.
Qed.

Lemma within_room capacity r hash need :
  within capacity r → tasks r !! hash = Some Clearing → reserved (arts r) !! hash = Some need →
  let (a, ok) := room_made capacity hash (arts r) in
  within capacity (mkRoom a (<[hash := if ok then Writing need else Failing]> (tasks r))).
Proof.
  intros Hw Ht Hr. unfold room_made. destruct (N.ltb_spec capacity (bytes_counted (arts r))) as [|Hle].
  - apply within_stage; [done|unfold filed, held_bytes; cbn; lia|done|done|]. intros h Hne. cbn. by rewrite lookup_delete_ne.
  - destruct Hw as [Hb Hd].
    assert (Hb' : backed (mkRoom (arts r) (<[hash := Writing need]> (tasks r)))).
    { unfold backed. cbn [tasks arts]. intros h n [[<- [= <-]]|[_ Hh]]%lookup_insert_Some; [done|by apply Hb]. }
    split; [done|]. rewrite on_disk_eq. cbn [arts tasks].
    assert (sum_N writes (<[hash := Writing need]> (tasks r)) ≤ sum_N id (reserved (arts r))).
    { apply (sum_fmap_le writes id). intros h s Hs. destruct s as [| |n|]; [by left|by left| |by left]. right. exists n.
      split; [by apply Hb'|]. cbn. lia. }
    unfold bytes_counted, other_counted in Hle. unfold filed. lia.
Qed.

Lemma within_step capacity limit r x : within capacity r → within capacity (room_step capacity limit r x).
Proof.
  intros Hw. destruct x as [previous xs|hash| |offered hash need|file gone|hash|hash copy outcome|hash copy]; cbn [room_step].
  - pose proof (offer_all_filed previous xs (arts r) []) as Hf. destruct (foldl _ _ _) as [a start]. destruct Hf as [Hf Hr]. cbn [fst] in *.
    destruct Hw as [Hb Hd]. destruct (start_tasks_writes (a_hash <$> start) (tasks r)) as [Hle Hkeep]. split.
    + intros h n Hh. cbn. rewrite Hr. by apply Hb, Hkeep.
    + rewrite on_disk_eq in *. cbn [arts tasks]. lia.
  - unfold decide_request. destruct (held (arts r) !! hash) as [h|] eqn:Hh.
    + apply within_less; [done| |done]. unfold filed, held_bytes. cbn [held deleting doomed].
      rewrite (sum_delete h_len (held (arts r)) hash h Hh). rewrite <- insert_delete_eq, sum_insert by apply lookup_delete_eq. cbn [h_len]. lia.
    + destruct (bool_decide _); [by apply within_less|]. destruct (_ || _); [by apply within_less|].
      destruct (bool_decide _); [|by apply within_less]. apply within_stage; [done|unfold filed, held_bytes; cbn; lia|done..].
  - apply within_less; [done| |done]. unfold filed, retry_doomed, held_bytes. cbn [held deleting doomed set_room].
    pose proof (sum_union_le id (doomed (arts r)) (deleting (arts r))). rewrite sum_empty. lia.
  - destruct (tasks r !! hash) as [[]|]; try done. destruct (limit <? need); [done|]. unfold reserve.
    destruct (victims _ _ _ _) as [l|]; [|by apply within_stage]. destruct (give_up_all l (arts r)) as [Hf Hr].
    apply within_stage; [done|exact Hf|done|done|]. intros h Hne. cbn. rewrite lookup_insert_ne, Hr by done. done.
  - unfold deleted. destruct (deleting (arts r) !! file) as [len|] eqn:Hl; [|by apply within_less]. apply within_less; [done| |done].
    unfold filed, held_bytes. cbn [held deleting doomed set_room]. rewrite (sum_delete id (deleting (arts r)) file len Hl).
    destruct gone; [lia|]. pose proof (sum_insert_le id (doomed (arts r)) file len). lia.
  - destruct (tasks r !! hash) as [[]|] eqn:Ht; try done. destruct (reserved (arts r) !! hash) as [need|] eqn:Hr; [|done].
    pose proof (within_room capacity r hash need Hw Ht Hr) as H. by destruct (room_made _ _ _).
  - destruct (tasks r !! hash) as [s|] eqn:Ht; [|done].
    assert (Hset : match outcome with FetchedLen len => len ≤ writes s | _ => True end → within capacity (mkRoom (settle hash copy outcome (arts r)) (delete hash (tasks r)))).
    { apply within_settle; [done|]. by rewrite Ht. }
    destruct s as [| |n|], outcome as [len| |]; try done; try (by apply Hset). destruct (N.leb_spec len n); [by apply Hset|done].
  - unfold lost. destruct (held (arts r) !! hash) as [h|]; [|by apply within_less]. destruct (_ =? _); [|by apply within_less].
    apply within_less; [done| |done]. unfold filed, held_bytes. cbn [held deleting doomed set_room].
    pose proof (sum_delete_le h_len (held (arts r)) hash). lia.
Qed.

(** The artifacts a Gateway keeps stay within its capacity. Whatever is offered, requested, fetched
    and deleted, in any order and however deletions fail, what is held, what waits to be deleted and
    what the running fetches may have written come to no more than the capacity. *)
Theorem artifacts_within_capacity capacity limit xs : on_disk (foldl (room_step capacity limit) no_room xs) ≤ capacity.
Proof.
  assert (H : within capacity (foldl (room_step capacity limit) no_room xs)); [|apply H].
  assert (H0 : within capacity no_room) by (split; [unfold backed; cbn; by intros h n ?%lookup_empty_Some|vm_compute; by destruct capacity]).
  revert H0. generalize no_room. induction xs as [|x xs IH]; intros r Hr; cbn [foldl]; [done|]. by apply IH, within_step.
Qed.
