(* ===== verification/GateCache.v ===== *)
(** * The Gateway

    [fleet-agent/src/gateway/cache.rs] and [fleet-agent/src/gateway/registry.rs]: what a report, an offer,
    a certificate's end and the one writer of the store do to the bindings ([GatePolicy]), the journal
    ([GateStore]), the current offers and the routes. A bind is two stretches under the lock with a
    write between them; a flush of the store is as many as it takes the lock. Each is a step. A ticket
    is a number. A downstream connection is a peer, of which only the host it speaks as is known. *)

From S2P Require Import Prelude RustStr Proto GatePolicy GateStore GateArtifacts.

Open Scope string_scope.
Open Scope list_scope.

(** What the writer of the store is at. *)
Inductive Phase :=
| Idle
| Taken (changes : list Change) (waiting : list nat)
| AppendDone (changes : list Change) (waiting : list nat) (written : bool)
| Rewriting (waiting : list nat) (again : bool)
| Copied (cs : list Change) (moved : list string) (waiting : list nat) (again : bool)
| RewriteDone (moved : list string) (waiting : list nat) (written : bool) (again : bool)
| Checking (written : bool).

(** [Begun]. *)
Inductive Begun := BegunBound | BegunRefused | BegunWriting (ticket : nat) | BegunWaiting.

Section Gateway.
Context (U : Uuids).
Context {Peer : Type} `{!EqDecision Peer} (speaker named : Peer → option string).

(** [Route]: a socket, or an exchange by its number. *)
Inductive Downstream := Socket (p : Peer) | Exchange (p : Peer) (number : nat).

Definition peer_of (d : Downstream) : Peer := match d with Socket p | Exchange p _ => p end.

(** The state of [PackageCache] and [Registry]; the journal's file; and the binds that wait, each with
    its ticket and what it binds. *)
Record Gate := mkGate {
  bindings : Bindings;
  queue : list Change;
  waiting : list nat;
  answers : gmap nat bool;
  offers : gmap InstanceUid (list Artifact);
  by_host : gmap string (gset InstanceUid);
  journal : option Journal;
  file : option string;
  phase : Phase;
  next_ticket : nat;
  binds : gmap nat (InstanceUid * Peer);
  routes : gmap InstanceUid Downstream;
  exchanges : nat;
  taken_reports : option (list Change);
}.

Implicit Types (g : Gate) (uid : InstanceUid) (host : string).

Definition on_bindings (f : Bindings → Bindings) g : Gate :=
  mkGate (f (bindings g)) (queue g) (waiting g) (answers g) (offers g) (by_host g) (journal g) (file g) (phase g) (next_ticket g)
    (binds g) (routes g) (exchanges g) (taken_reports g).
Definition set_queue (q : list Change) (w : list nat) g : Gate :=
  mkGate (bindings g) q w (answers g) (offers g) (by_host g) (journal g) (file g) (phase g) (next_ticket g)
    (binds g) (routes g) (exchanges g) (taken_reports g).
Definition set_offers (o : gmap InstanceUid (list Artifact)) (h : gmap string (gset InstanceUid)) g : Gate :=
  mkGate (bindings g) (queue g) (waiting g) (answers g) o h (journal g) (file g) (phase g) (next_ticket g)
    (binds g) (routes g) (exchanges g) (taken_reports g).
Definition set_store (j : option Journal) (f : option string) (p : Phase) g : Gate :=
  mkGate (bindings g) (queue g) (waiting g) (answers g) (offers g) (by_host g) j f p (next_ticket g)
    (binds g) (routes g) (exchanges g) (taken_reports g).
Definition set_tickets (n : nat) (b : gmap nat (InstanceUid * Peer)) g : Gate :=
  mkGate (bindings g) (queue g) (waiting g) (answers g) (offers g) (by_host g) (journal g) (file g) (phase g) n
    b (routes g) (exchanges g) (taken_reports g).
Definition set_routes (r : gmap InstanceUid Downstream) (n : nat) g : Gate :=
  mkGate (bindings g) (queue g) (waiting g) (answers g) (offers g) (by_host g) (journal g) (file g) (phase g) (next_ticket g)
    (binds g) r n (taken_reports g).
Definition set_reports (r : option (list Change)) g : Gate :=
  mkGate (bindings g) (queue g) (waiting g) (answers g) (offers g) (by_host g) (journal g) (file g) (phase g) (next_ticket g)
    (binds g) (routes g) (exchanges g) r.

(** The tickets answered. *)
Definition answer (l : list nat) (written : bool) g : Gate :=
  mkGate (bindings g) (queue g) (waiting g) (foldr (λ t m, <[t := written]> m) (answers g) l) (offers g) (by_host g) (journal g)
    (file g) (phase g) (next_ticket g) (binds g) (routes g) (exchanges g) (taken_reports g).

(** ** Binding *)

(** [drop_offer]. *)
Definition drop_offer uid host g : Gate :=
  set_offers (delete uid (offers g))
    (match by_host g !! host with
     | Some s => let s := s ∖ {[uid]} in if bool_decide (s = ∅) then delete host (by_host g) else <[host := s]> (by_host g)
     | None => by_host g
     end) g.

(** [enqueue]: the ticket the changes are written under. *)
Definition enqueue (cs : list Change) g : Gate * nat :=
  (set_tickets (S (next_ticket g)) (binds g) (set_queue (queue g ++ cs) (waiting g ++ [next_ticket g]) g), next_ticket g).

(** [begin_bind], under the registry's lock. *)
Definition begin_bind (p : Peer) uid host (e : End) (now : Z) (limits : Limits) g : Gate * Begun :=
  let idle v := negb (bool_decide (is_Some (routes g !! v))) && negb (bool_decide (is_Some (offers g !! v))) in
  let '(b, o) := bind uid host e now limits idle (bindings g) in
  let g := on_bindings (λ _, b) g in
  match outcome_bound o with
  | Waiting => (g, BegunWaiting)
  | Refused _ => (g, BegunRefused)
  | _ =>
      if match outcome_bound o with Kept => negb (bool_decide (host_of uid b = Some host)) | _ => false end then (g, BegunRefused)
      else if bool_decide (outcome_changes o = []) then (g, BegunBound)
      else if existsb (λ c, bool_decide (line U c = None)) (outcome_changes o) then
        let g := on_bindings (ends_written (outcome_changes o) false) g in
        let removals := List.filter (λ c, match c with ChangeUnbound _ => true | _ => false end) (outcome_changes o) in
        let '(b, undone) := abort uid (bindings g) in
        (on_bindings (λ _, b) (set_queue (queue g ++ removals ++ undone) (waiting g) g), BegunRefused)
      else
        let (g, t) := enqueue (outcome_changes o) g in
        (set_tickets (next_ticket g) (<[t := (uid, p)]> (binds g)) g, BegunWriting t)
  end.

(** [finish_bind]. *)
Definition finish_bind uid host (written : bool) g : Gate * bool :=
  if written then
    let g := on_bindings (commit uid) g in (g, holds uid host (bindings g))
  else
    let '(b, undone) := abort uid (bindings g) in
    let g := on_bindings (λ _, b) g in
    (match undone with [] => g | _ => (enqueue undone (drop_offer uid host g)).1 end, false).

(** The end of [bind_and_route]: the route given where the [instance_uid] is the host's. *)
Definition finish_route (d : Downstream) uid host (written : bool) g : Gate * bool :=
  let '(g, ok) := finish_bind uid host written g in
  (if ok then set_routes (<[uid := d]> (routes g)) (exchanges g) g else g, ok).

(** [end_certificates] of the cache, and of the registry with its routes. *)
Definition end_certificates (now : Z) (revoked : option (End → bool)) g : Gate :=
  let '(b, ended) := end_bindings now revoked (bindings g) in
  match ended with
  | [] => on_bindings (λ _, b) g
  | _ =>
      let g := foldl (λ g hu, foldl (λ g uid, drop_offer uid hu.1 g) g hu.2) (on_bindings (λ _, b) g) ended in
      let uids := concat (ended.*2) in
      let g := (enqueue (map ChangeUnbound uids) g).1 in
      set_routes (foldr delete (routes g) uids) (exchanges g) g
  end.

(** [expect_enrolment]. *)
Definition expect_enrolment (p : Peer) uid g : Gate * option nat :=
  if bool_decide (is_Some (routes g !! uid)) || bool_decide (is_Some (host_of uid (bindings g))) then (g, None)
  else (set_routes (<[uid := Exchange p (exchanges g)]> (routes g)) (S (exchanges g)) g, Some (exchanges g)).

(** [abandon]. *)
Definition abandon uid (number : nat) g : Gate :=
  match routes g !! uid with
  | Some (Exchange _ n) => if (n =? number)%nat then set_routes (delete uid (routes g)) (exchanges g) g else g
  | _ => g
  end.

(** ** Offers *)

(** [observe], the offer recorded: [artifacts] is what [packages_available] names. *)
Definition observe uid (host : option string) (artifacts : option (list Artifact)) g : Gate :=
  match artifacts, host with
  | Some artifacts, Some host =>
      if negb (holds uid host (bindings g)) then g
      else if bool_decide (artifacts = []) then drop_offer uid host g
      else set_offers (<[uid := artifacts]> (offers g)) (<[host := {[uid]} ∪ default ∅ (by_host g !! host)]> (by_host g)) g
  | _, _ => g
  end.

(** [offered_to]: the first artifact at [path] in an offer to an Agent of [host]. *)
Definition offered_to host (path : string) g : option Artifact :=
  s ← by_host g !! host;
  head (List.filter (λ x, bool_decide (a_path x = path)) (concat (omap (λ uid, offers g !! uid) (elements s)))).

(** [deliver], under the registry's lock: the peer a reply goes to. What the reply offers is observed
    after it, for the host that peer's certificate names. *)
Definition deliver uid g : Gate * option Peer :=
  match routes g !! uid with
  | None => (g, None)
  | Some (Exchange p _) => (set_routes (delete uid (routes g)) (exchanges g) g, Some p)
  | Some (Socket p) => (g, Some p)
  end.

(** ** The store *)

Definition REPORT_LINES_PER_LIVE : nat := 8.

(** [flush], up to its first write. *)
Definition take_queue g : Gate :=
  match phase g with
  | Idle =>
      if bool_decide (queue g = []) && bool_decide (waiting g = []) then g
      else set_store (journal g) (file g) (Taken (queue g) (waiting g)) (set_queue [] [] g)
  | _ => g
  end.

(** The append. *)
Definition append_queue (ended : AppendEnd) g : Gate :=
  match phase g with
  | Taken changes w =>
      match journal g with
      | None => set_store None (file g) (AppendDone changes w false) g
      | Some j =>
          let '(j, f, written) := journal_append U ended changes j (file g) in
          set_store (Some j) f (if written then AppendDone changes w true else Rewriting w false) g
      end
  | _ => g
  end.

(** What was appended settled, and who waited answered. *)
Definition settle_append g : Gate :=
  match phase g with
  | AppendDone changes w written =>
      set_store (journal g) (file g) (Checking written) (answer w written (on_bindings (ends_written changes written) g))
  | _ => g
  end.

(** [compact]: the bindings copied, the queue taken in with them. *)
Definition copy_bindings g : Gate :=
  match phase g with
  | Rewriting w again =>
      set_store (journal g) (file g) (Copied (snapshot (bindings g)) (moving_hosts (bindings g)) (w ++ waiting g) again)
        (set_queue [] [] g)
  | _ => g
  end.

(** The rewrite. *)
Definition rewrite_store (ended : CompactEnd) g : Gate :=
  match phase g, journal g with
  | Copied cs moved w again, Some j =>
      let '(j, f, written) := journal_compact U ended cs j (file g) in
      set_store (Some j) f (RewriteDone moved w written again) g
  | _, _ => g
  end.

Definition settle_rewrite g : Gate :=
  match phase g with
  | RewriteDone moved w written again =>
      set_store (journal g) (file g) (if again then Idle else Checking written)
        (answer w written (on_bindings (compacted moved written) g))
  | _ => g
  end.

(** Whether the store has outgrown what it holds. *)
Definition check_growth g : Gate :=
  match phase g with
  | Checking written =>
      let grown := match journal g with
                   | Some j =>
                       let alive := live (bindings g) in
                       written && ((0 <? j_lines j)%nat && (2 * alive <=? j_lines j)%nat
                                   || (REPORT_LINES_PER_LIVE * Nat.max alive 1 <? j_reports j)%nat)
                   | None => false
                   end in
      set_store (journal g) (file g) (if grown then Rewriting [] true else Idle) g
  | _ => g
  end.

(** [write_reports], its two halves. *)
Definition take_reports g : Gate :=
  let '(b, cs) := reports (bindings g) in set_reports (match cs with [] => taken_reports g | _ => Some cs end) (on_bindings (λ _, b) g).

Definition queue_reports g : Gate :=
  match taken_reports g with Some cs => set_reports None (enqueue cs g).1 | None => g end.

(** ** Steps *)

Inductive GateStep :=
| OnBegin (p : Peer) (uid : InstanceUid) (e : End) (now : Z) (limits : Limits)
| OnFinish (ticket : nat) (socket : bool)
| OnEnd (now : Z) (revoked : option (End → bool))
| OnEnrol (p : Peer) (uid : InstanceUid)
| OnAbandon (uid : InstanceUid) (number : nat)
| OnDetach (p : Peer) (uid : InstanceUid)
| OnDeliver (uid : InstanceUid)
| OnObserve (p : Peer) (uid : InstanceUid) (artifacts : option (list Artifact))
| OnTakeQueue
| OnAppend (ended : AppendEnd)
| OnSettleAppend
| OnCopy
| OnRewrite (ended : CompactEnd)
| OnSettleRewrite
| OnCheck
| OnTakeReports
| OnQueueReports.

(** The route a peer's report is given. *)
Definition route_for (p : Peer) (socket : bool) g : Downstream * Gate :=
  if socket then (Socket p, g) else (Exchange p (exchanges g), set_routes (routes g) (S (exchanges g)) g).

(** A bind with nothing to write finishes as one that is written already. *)
Definition begun_bound (p : Peer) uid g : Gate :=
  let t := next_ticket g in answer [t] true (set_tickets (S t) (<[t := (uid, p)]> (binds g)) g).

Definition gate_step g (x : GateStep) : Gate :=
  match x with
  | OnBegin p uid e now limits =>
      match speaker p with
      | Some host => match begin_bind p uid host e now limits g with
                     | (g, BegunBound) => begun_bound p uid g
                     | (g, _) => g
                     end
      | None => g
      end
  | OnFinish t socket =>
      match answers g !! t, binds g !! t with
      | Some written, Some (uid, p) =>
          let g := set_tickets (next_ticket g) (delete t (binds g)) g in
          match speaker p with
          | Some host => let '(d, g) := route_for p socket g in (finish_route d uid host written g).1
          | None => g
          end
      | _, _ => g
      end
  | OnEnd now revoked => end_certificates now revoked g
  | OnEnrol p uid => (expect_enrolment p uid g).1
  | OnAbandon uid number => abandon uid number g
  | OnDetach p uid =>
      match routes g !! uid with
      | Some (Socket own) => if bool_decide (own = p) then set_routes (delete uid (routes g)) (exchanges g) g else g
      | _ => g
      end
  | OnDeliver uid => (deliver uid g).1
  | OnObserve p uid artifacts => observe uid (named p) artifacts g
  | OnTakeQueue => take_queue g
  | OnAppend ended => append_queue ended g
  | OnSettleAppend => settle_append g
  | OnCopy => copy_bindings g
  | OnRewrite ended => rewrite_store ended g
  | OnSettleRewrite => settle_rewrite g
  | OnCheck => check_growth g
  | OnTakeReports => take_reports g
  | OnQueueReports => queue_reports g
  end.

(** ** Starting *)

(** [open_dir] and [PackageCache::open_with]: the store read and rewritten whole; [None] is a Gateway
    whose store cannot be relied on, which carries no Agent. *)
Definition open_gate (now : Z) (ended : CompactEnd) (content : option string) : option Gate :=
  match load U content with
  | Err _ => None
  | Ok cs =>
      match replay cs with
      | Err _ => None
      | Ok b =>
          let b := (end_bindings now None b).1 in
          match journal_create U ended (snapshot b) content with
          | (Some j, f) => Some (mkGate b [] [] ∅ ∅ ∅ (Some j) f Idle 0 ∅ ∅ 0 None)
          | (None, _) => None
          end
      end
  end.
End Gateway.
