(* ===== verification/GateWords.v ===== *)
(** * What the store says of a binding

    The last word of a list of changes on an [instance_uid]; which bindings can be written; and what
    the file of a store ([GateStore]) holds after an append and after a rewrite. *)

From S2P Require Import Prelude RustStr Proto GatePolicy GateIndex GateReplay GateStore.

Open Scope string_scope.
Open Scope list_scope.

Implicit Types (b : Bindings) (host h : string) (uid : InstanceUid) (c : Change) (cs : list Change).

(** ** The last word on an [instance_uid] *)

Definition word uid c : option (option string) :=
  match c with
  | ChangeBound u h => if bool_decide (u = uid) then Some (Some h) else None
  | ChangeUnbound u => if bool_decide (u = uid) then Some None else None
  | _ => None
  end.

Fixpoint final uid cs : option (option string) :=
  match cs with
  | [] => None
  | c :: cs => match final uid cs with Some r => Some r | None => word uid c end
  end.

Notation quiet uid cs := (final uid cs = None).

Lemma final_app uid cs cs' : final uid (cs ++ cs') = match final uid cs' with Some r => Some r | None => final uid cs end.
Proof. induction cs as [|c cs IH]; cbn; [by destruct (final uid cs')|]. rewrite IH. by destruct (final uid cs'). Qed.

Lemma quiet_app uid cs cs' : quiet uid (cs ++ cs') ↔ quiet uid cs ∧ quiet uid cs'.
Proof. rewrite final_app. destruct (final uid cs'); naive_solver. Qed.

Lemma quiet_forall uid cs : Forall (λ c, word uid c = None) cs ↔ quiet uid cs.
Proof.
  induction cs as [|c cs IH]; [done|]. rewrite Forall_cons, IH. cbn. destruct (final uid cs); naive_solver.
Qed.

Lemma quiet_firstn uid k cs : quiet uid cs → quiet uid (firstn k cs).
Proof. rewrite <- !quiet_forall. apply Forall_take. Qed.

Lemma stored_final uid cs m : foldl apply_change m cs !! uid = match final uid cs with Some r => r | None => m !! uid end.
Proof.
  revert m. induction cs as [|c cs IH]; intros m; cbn; [done|]. rewrite IH. destruct (final uid cs) as [r|]; [done|].
  destruct c as [u h|u|u|h e]; cbn; try done; case_bool_decide as Hu; subst;
    [apply lookup_insert_eq|by apply lookup_insert_ne|apply lookup_delete_eq|by apply lookup_delete_ne].
Qed.

Lemma stored_app uid cs cs' :
  stored_hosts (cs ++ cs') !! uid = match final uid cs' with Some r => r | None => stored_hosts cs !! uid end.
Proof. unfold stored_hosts. rewrite foldl_app. apply stored_final. Qed.

Lemma quiet_unbinds uid l : uid ∉ l → quiet uid (map ChangeUnbound l).
Proof.
  intros H. apply quiet_forall, Forall_forall. intros c (v & -> & Hv)%list_elem_of_fmap. cbn. rewrite bool_decide_false; [done|]. congruence.
Qed.

(** ** What can be written *)

(** Every text of the bindings is one the store takes. *)
Record proper b : Prop := mkProper {
  proper_bound : ∀ uid x, bound b !! uid = Some x → storable (ChangeBound uid (b_host x));
  proper_ends : ∀ h e, ends b !! h = Some e → storable (ChangeEnds h e);
  proper_moving : ∀ h e, moving b !! h = Some (Some e) → storable (ChangeEnds h e);
}.

Lemma proper_snapshot b : proper b → Forall storable (snapshot b).
Proof.
  intros [H1 H2 _]. unfold snapshot. apply Forall_app. split; apply Forall_forall.
  - intros c ([h e] & -> & Hin%elem_of_map_to_list)%list_elem_of_fmap. by apply H2.
  - fold (by_report b). intros c ([t [u h]] & -> & Hin)%list_elem_of_fmap.
    apply elem_of_by_report in Hin as (x & Hx & _ & <-). by apply H1.
Qed.

Lemma proper_set_end b h e : proper b → storable (ChangeEnds h e) → proper (set_end h e b).
Proof.
  intros [H1 H2 H3] He. destruct (set_end_rest h e b) as (E1 & _ & E3 & _). split; rewrite ?E1, ?E3, ?set_end_ends; [done| |done].
  intros k d [[<- <-]|[_ Hd]]%lookup_insert_Some; [done|by apply H2].
Qed.

Lemma proper_drop_end b h : proper b → proper (drop_end h b).
Proof.
  intros [H1 H2 H3]. destruct (drop_end_rest h b) as (E1 & _ & E3 & _). split; rewrite ?E1, ?E3, ?drop_end_ends; [done| |done].
  intros k d [_ Hd]%lookup_delete_Some. by apply H2.
Qed.

Lemma proper_drop_moving b h : proper b → proper (set_moving (delete h (moving b)) b).
Proof. intros [H1 H2 H3]. split; [done|done|]. cbn. intros k e [_ He]%lookup_delete_Some. by apply H3. Qed.

Lemma proper_settle b h written : proper b → proper (settle_end h written b).
Proof.
  intros Hp. unfold settle_end. destruct (moving b !! h) as [held|] eqn:Hm; [|done].
  pose proof (proper_drop_moving b h Hp) as Hp'. destruct written; [done|]. destruct held as [e|]; [|by apply proper_drop_end].
  apply proper_set_end; [done|]. by apply (proper_moving b Hp).
Qed.

Lemma settle_bound b h written : bound (settle_end h written b) = bound b.
Proof.
  unfold settle_end. destruct (moving b !! h) as [held|]; [|done]. destruct written; [done|]. destruct held as [e|].
  - by destruct (set_end_rest h e (set_moving (delete h (moving b)) b)) as (-> & _).
  - by destruct (drop_end_rest h (set_moving (delete h (moving b)) b)) as (-> & _).
Qed.

(** What is settled changes no binding. *)
Lemma ends_written_same cs written b :
  bound (ends_written cs written b) = bound b ∧ (proper b → proper (ends_written cs written b)).
Proof.
  unfold ends_written. revert b. induction cs as [|c cs IH]; intros b; cbn [foldl]; [done|].
  destruct c as [| | |h e]; try apply IH. destruct (IH (settle_end h written b)) as [-> Hp]. split; [apply settle_bound|].
  intros H. by apply Hp, proper_settle.
Qed.

Lemma compacted_same moved written b :
  bound (compacted moved written b) = bound b ∧ (proper b → proper (compacted moved written b)).
Proof.
  unfold compacted. revert b. induction moved as [|h l IH]; intros b; cbn [foldl]; [done|].
  destruct (IH (settle_end h written b)) as [-> Hp]. split; [apply settle_bound|]. intros H. by apply Hp, proper_settle.
Qed.

Lemma proper_unbind b uid keep : wf b → proper b → proper (unbind uid keep b).
Proof.
  intros Hw [H1 H2 H3]. destruct (bound b !! uid) as [x|] eqn:Hx; [|by rewrite unbind_none].
  destruct (unbind_eq uid keep b x Hw Hx) as (E1 & _ & _ & _ & E5 & E6 & _). cbv zeta in *. split; rewrite ?E1, ?E5, ?E6.
  - intros v y [_ Hy]%lookup_delete_Some. by apply H1.
  - intros h e. destruct (_ && _); [intros [_ He]%lookup_delete_Some|intros He]; by apply H2.
  - intros h e. destruct (_ && _); [intros [_ He]%lookup_delete_Some|intros He]; by apply H3.
Qed.

Lemma proper_move_end b h e : proper b → storable (ChangeEnds h e) → proper (move_end h e b).1.
Proof.
  intros Hp He. unfold move_end. destruct (match ends b !! h with Some k => _ | None => _ end); [done|]. cbn [fst].
  apply proper_set_end; [|done]. destruct Hp as [H1 H2 H3]. split; [done|done|]. cbn.
  intros k d [[<- Hd]|[_ Hd]]%lookup_insert_Some; [by apply H2|by apply H3].
Qed.

Lemma proper_bind uid host e now limits idle b b' o :
  wf b → proper b → storable (ChangeBound uid host) → storable (ChangeEnds host e) →
  bind uid host e now limits idle b = (b', o) → proper b' ∧ Forall storable (outcome_changes o).
Proof.
  intros Hw Hp Hu He. unfold bind. destruct (not_after e <? now)%Z; [by intros [= <- <-]|]. cbv zeta.
  set (go := if waits_for_end host e b then _ else _).
  assert (Hgo : go = (b', o) → proper b' ∧ Forall storable (outcome_changes o)).
  { subst go. destruct (waits_for_end host e b); [by intros [= <- <-]|]. change (bound (next_tick b)) with (bound b).
    assert (Hmove : ∀ b0 m0 o', proper b0 → move_end host e b0 = (m0, o') → proper m0 ∧ Forall storable (option_list o')).
    { intros b0 m0 o' Hp0 E. pose proof (proper_move_end b0 host e Hp0 He) as H. destruct (move_end_rest host e b0) as (_ & _ & _ & _ & Hm).
      rewrite E in H, Hm. split; [done|]. cbn in Hm. destruct Hm as [->| ->]; [apply Forall_nil_2|by apply Forall_singleton]. }
    assert (Hpn : proper (next_tick b)) by by destruct Hp.
    assert (Hnew : ∀ b0, proper b0 → proper (bind_new uid host b0)).
    { intros b0 [H1 H2 H3]. split; [|done|done]. cbn. intros v y [[<- <-]|[_ Hy]]%lookup_insert_Some; [done|by apply H1]. }
    destruct (bound b !! uid) as [x|] eqn:Hx.
    - destruct (move_end _ _ _) as [b1 moved] eqn:Em. intros [= <- <-]. eapply Hmove; [|exact Em].
      destruct Hpn as [H1 H2 H3]. split; [|done|done]. cbn. intros v y [[<- <-]|[_ Hy]]%lookup_insert_Some; [by apply (H1 uid x Hx)|by apply H1].
    - destruct (full limits host (next_tick b)); [destruct (victim host idle (next_tick b)) as [v|] eqn:Ev; [|by intros [= <- <-]]|];
        (destruct (move_end _ _ _) as [b1 moved] eqn:Em; intros [= <- <-]; apply Hmove in Em as [? ?]; [|apply Hnew]; cbn [outcome_changes]).
      + split; [done|]. constructor; [|by apply Forall_app; split; [|apply Forall_singleton]].
        apply victim_spec in Ev as (x & Hvx & _); [|by apply wf_next_tick]. by destruct (proper_bound _ Hp v x Hvx).
      + by apply proper_unbind; [apply wf_next_tick|].
      + split; [done|]. by apply Forall_app; split; [|apply Forall_singleton].
      + done. }
  destruct (bound b !! uid) as [x|]; [|done]. destruct (b_pending x); [by intros [= <- <-]|]. case_bool_decide; [done|by intros [= <- <-]].
Qed.

(** Bindings of the same hosts, or fewer. *)
Lemma proper_sub b b' :
  proper b → (∀ uid x, bound b' !! uid = Some x → ∃ y, bound b !! uid = Some y ∧ b_host y = b_host x) →
  ends b' ⊆ ends b → moving b' ⊆ moving b → proper b'.
Proof.
  intros [H1 H2 H3] Hb He Hm. split.
  - intros uid x Hx. destruct (Hb uid x Hx) as (y & Hy & <-). by apply H1.
  - intros h e Hh. apply H2. by eapply lookup_weaken.
  - intros h e Hh. apply H3. by eapply lookup_weaken.
Qed.

Lemma end_host_bound h b uid x : bound (end_host h b).1 !! uid = Some x → bound b !! uid = Some x ∧ uid ∉ own h b.
Proof.
  destruct (end_host_eq h b) as (E1 & _). cbv zeta in E1. rewrite E1. rewrite lookup_foldr_delete, <- elem_of_elements. by case_decide.
Qed.

Lemma proper_end_each l b : proper b → proper (end_each l b).1.
Proof.
  revert b. induction l as [|h l IH]; intros b Hp; cbn [end_each]; [done|].
  assert (H1 : proper (end_host h b).1).
  { destruct (end_host_eq h b) as (_ & _ & E3 & E4 & _). cbv zeta in *. apply (proper_sub b); [done| |rewrite E3; apply delete_subseteq|rewrite E4; apply delete_subseteq].
    intros uid x [Hx _]%end_host_bound. eauto. }
  destruct (end_host h b) as [b1 uids]. specialize (IH b1 H1). by destruct (end_each l b1).
Qed.

(** What ends goes, and nothing else. *)
Lemma end_each_bound l b b' ended :
  wf b → end_each l b = (b', ended) →
  (∀ uid x, bound b' !! uid = Some x → bound b !! uid = Some x ∧ uid ∉ concat ended.*2) ∧
  (∀ uid, uid ∈ concat ended.*2 → is_Some (bound b !! uid)).
Proof.
  revert b b' ended. induction l as [|h l IH]; intros b b' ended Hw; cbn [end_each].
  - intros [= <- <-]. cbn. split; [|by intros uid ?%elem_of_nil]. intros uid x Hx. split; [done|]. by intros ?%elem_of_nil.
  - pose proof (wf_end_host h b Hw) as Hw1. pose proof (end_host_bound h b) as Hb.
    assert (Hu : (end_host h b).2 = elements (own h b)) by done.
    destruct (end_host h b) as [b1 uids]. cbn [fst snd] in *. subst uids. destruct (end_each l b1) as [b2 ended2] eqn:E.
    intros [= <- <-]. destruct (IH b1 b2 ended2 Hw1 E) as [I1 I2]. cbn. split.
    + intros uid x Hx. destruct (I1 uid x Hx) as [Hx1 Hn1]. destruct (Hb uid x Hx1) as [Hx0 Hn0]. split; [done|].
      rewrite elem_of_app, elem_of_elements. naive_solver.
    + intros uid [Hin%elem_of_elements|Hin]%elem_of_app.
      * apply (proj1 (wf_indexed b Hw)) in Hin as (x & Hx & _). by exists x.
      * destruct (I2 uid Hin) as [x Hx]. destruct (Hb uid x Hx) as [Hx0 _]. by exists x.
Qed.

(** ** What the file holds *)

Section Disk.
Context (U : Uuids) `{!UuidLaws U}.

Lemma lines_app cs more text text' : lines U cs = Some text → lines U more = Some text' → lines U (cs ++ more) = Some (text +:+ text').
Proof.
  revert text. induction cs as [|c cs IH]; intros text; cbn; [by intros [= <-]|].
  destruct (line U c) as [l|]; [|done]. cbn. destruct (lines U cs) as [t|]; [|done]. cbn. intros [= <-] Hm.
  by rewrite (IH t eq_refl Hm), append_assoc, append_cons.
Qed.

(** The file is read as [cs]; a journal that may still be appended to is exactly its lines. *)
Record disk (j : Journal) (content : option string) cs : Prop := mkDisk {
  disk_storable : Forall storable cs;
  disk_reads : load U content = Ok cs;
  disk_exact : j_damaged j = false → ∃ s, content = Some s ∧ store_of U cs = Some s;
}.

Lemma disk_whole cs s : Forall storable cs → store_of U cs = Some s → load U (Some s) = Ok cs.
Proof.
  intros Hc Hs. destruct (load_part U cs [] s EmptyString EmptyString EmptyString) as (k & Hk & Hf); try done; [by rewrite app_nil_r|].
  rewrite append_nil_r, Hf, app_nil_r in Hk by done. exact Hk.
Qed.

Lemma substring_cut n s : ∃ cut, s = String.substring 0 n s +:+ cut.
Proof.
  revert n. induction s as [|c s IH]; intros n; [by exists EmptyString; destruct n|].
  destruct n as [|n]; [by exists (String c s)|]. destruct (IH n) as [cut Hc]. exists cut. cbn. rewrite append_cons. by rewrite <- Hc.
Qed.

(** What an append leaves: the changes behind what was held, or some of them. *)
Lemma append_disk ended changes j content cs j' content' written :
  disk j content cs → Forall storable changes → journal_append U ended changes j content = (j', content', written) →
  ∃ k, disk j' content' (cs ++ firstn k changes) ∧ (written = true → firstn k changes = changes).
Proof.
  intros Hd Hc. unfold journal_append.
  assert (Hsame : ∃ k, disk j content (cs ++ firstn k changes) ∧ (false = true → firstn k changes = changes)).
  { exists 0%nat. cbn. by rewrite app_nil_r. }
  destruct (j_damaged j || negb (j_open j)) eqn:Hdam; [by intros [= <- <- <-]|].
  apply orb_false_iff in Hdam as [Hdam _]. destruct (disk_exact _ _ _ Hd Hdam) as (s & -> & Hs).
  destruct (lines U changes) as [bytes|] eqn:Hb; [|by intros [= <- <- <-]].
  destruct (MAX_BYTES <? _)%N; [by intros [= <- <- <-]|].
  assert (Hall : Forall storable (cs ++ changes)) by (apply Forall_app; split; [apply Hd|done]).
  destruct ended as [| |n]; [|by intros [= <- <- <-]|]; intros [= <- <- <-].
  - destruct (load_part U cs changes s bytes bytes EmptyString Hall Hs Hb) as (k & Hk & Hf); [by rewrite append_nil_r|].
    exists k. split; [|auto]. rewrite (Hf eq_refl) in *. split; [done|done|]. intros _. eexists. split; [done|].
    unfold store_of in *. destruct (lines U cs) as [t|] eqn:Ht; [|done]. injection Hs as <-. rewrite (lines_app _ _ _ _ Ht Hb). cbn.
    by rewrite append_assoc, append_cons.
  - destruct (substring_cut n bytes) as [cut Hcut]. destruct (load_part U cs changes s bytes _ cut Hall Hs Hb Hcut) as (k & Hk & _).
    exists k. split; [|done]. split; [|done|done]. apply Forall_app. split; [apply Hd|]. by apply Forall_take.
Qed.

(** What a rewrite leaves: the copy, or what was held. *)
Lemma compact_disk ended cs' j content cs j' content' written :
  disk j content cs → Forall storable cs' → journal_compact U ended cs' j content = (j', content', written) →
  (disk j' content' cs' ∨ disk j' content' cs ∧ written = false).
Proof.
  intros Hd Hc. unfold journal_compact. destruct (store_of U cs') as [bytes|] eqn:Hs; [|intros [= <- <- <-]; by right].
  destruct (MAX_BYTES <? _)%N; [intros [= <- <- <-]; by right|].
  destruct ended as [reopened| |]; intros [= <- <- <-].
  - right. split; [|done]. destruct Hd as [H1 H2 H3]. split; [done|done|]. cbn. intros [Hj _]%orb_false_iff. by apply H3.
  - left. split; [done|by apply disk_whole|done].
  - left. split; [done|by apply disk_whole|]. intros _. eauto.
Qed.
End Disk.
