(* ===== verification/GateDurable.v ===== *)
(** * What a Gateway relies on is in its store

    A binding is relied on once the store holds it, through any interleaving of reports, ends of
    certificates and the writer of the store ([GateCache]), and survives a crash at any point. *)

From S2P Require Import Prelude RustStr Proto GatePolicy GateIndex GateReplay GateStore GateWords GateArtifacts GateCache.

Open Scope string_scope.
Open Scope list_scope.

Implicit Types (b : Bindings) (host h : string) (uid : InstanceUid) (c : Change) (cs : list Change).

(** ** The invariant *)

Section Durable.
Context (U : Uuids) `{!UuidLaws U}.
Context {Peer : Type} `{!EqDecision Peer} (speaker named : Peer → option string).

Implicit Types (g : Gate (Peer := Peer)) (t : nat).

Notation run_step := (gate_step U speaker named).

Definition phase_tickets (p : Phase) : list nat :=
  match p with
  | Taken _ w | AppendDone _ w _ | Rewriting w _ | Copied _ _ w _ | RewriteDone _ w _ _ => w
  | Idle | Checking _ => []
  end.

(** The changes the writer has in hand. *)
Definition in_hand (p : Phase) : list Change :=
  match p with Taken cs _ | Copied cs _ _ _ => cs | _ => [] end.

(** [uid] is [host]'s in the file, and nothing on its way there says otherwise. *)
Definition safe g cs uid host : Prop :=
  stored_hosts cs !! uid = Some host ∧ quiet uid (queue g) ∧
  match phase g with
  | Taken changes _ => quiet uid changes
  | Copied copy _ _ _ => stored_hosts copy !! uid = Some host
  | _ => True
  end.

(** What a ticket in the writer's hands is answered for. *)
Definition underway g cs uid host : Prop :=
  match phase g with
  | Taken changes _ => final uid changes = Some (Some host) ∧ quiet uid (queue g)
  | Rewriting _ _ => quiet uid (queue g)
  | Copied copy _ _ _ => stored_hosts copy !! uid = Some host ∧ quiet uid (queue g)
  | AppendDone _ _ true | RewriteDone _ _ true _ => stored_hosts cs !! uid = Some host ∧ quiet uid (queue g)
  | _ => True
  end.

(** [uid] may be relied on: its binding is committed, or its bind was told that it is written. *)
Definition relied g uid (x : Binding) : Prop :=
  b_pending x = false ∨ ∃ t p, binds g !! t = Some (uid, p) ∧ answers g !! t = Some true.

Record durable g cs : Prop := mkDurable {
  d_wf : wf (bindings g);
  d_proper : proper (bindings g);
  d_disk : ∃ j, journal g = Some j ∧ disk U j (file g) cs;
  d_queue : Forall storable (queue g);
  d_hand : Forall storable (in_hand (phase g));
  d_reports : ∀ l, taken_reports g = Some l → Forall storable l ∧ ∀ uid, quiet uid l;
  d_relied : ∀ uid x, bound (bindings g) !! uid = Some x → relied g uid x → safe g cs uid (b_host x);
  d_waiting : ∀ t uid p x, binds g !! t = Some (uid, p) → bound (bindings g) !! uid = Some x → b_pending x = true → t ∈ waiting g →
    final uid (queue g) = Some (Some (b_host x));
  d_underway : ∀ t uid p x, binds g !! t = Some (uid, p) → bound (bindings g) !! uid = Some x → b_pending x = true →
    t ∈ phase_tickets (phase g) → underway g cs uid (b_host x);
  d_once : NoDup (phase_tickets (phase g) ++ waiting g);
  d_open : ∀ t, t ∈ phase_tickets (phase g) ++ waiting g → (t < next_ticket g)%nat ∧ answers g !! t = None;
  d_answers : ∀ t, is_Some (answers g !! t) → (t < next_ticket g)%nat;
  d_binds : ∀ t, is_Some (binds g !! t) → (t < next_ticket g)%nat;
}.

(** A step outside the writer: changes queued, tickets given out, bindings dropped, committed or
    made anew. *)
Record outside g g' (extra : list Change) (more : list nat) : Prop := mkOutside {
  o_store : journal g' = journal g ∧ file g' = file g ∧ phase g' = phase g;
  o_wf : wf (bindings g');
  o_proper : proper (bindings g');
  o_queue : queue g' = queue g ++ extra;
  o_storable : Forall storable extra;
  o_waiting : waiting g' = waiting g ++ more;
  o_more : NoDup more ∧ ∀ t, t ∈ more → (next_ticket g ≤ t < next_ticket g')%nat ∧ answers g' !! t = None;
  o_next : (next_ticket g ≤ next_ticket g')%nat;
  o_reports : ∀ l, taken_reports g' = Some l → Forall storable l ∧ ∀ uid, quiet uid l;
  o_answers : ∀ t, (t < next_ticket g)%nat → answers g' !! t = answers g !! t;
  o_answered : ∀ t, is_Some (answers g' !! t) → (t < next_ticket g')%nat;
  o_binds : ∀ t, is_Some (binds g' !! t) → (t < next_ticket g')%nat;
  o_bound : ∀ uid x', bound (bindings g') !! uid = Some x' →
    (∃ x, bound (bindings g) !! uid = Some x ∧ b_host x' = b_host x ∧ quiet uid extra ∧
       if b_pending x' then b_pending x = true ∧ ∀ t p, binds g' !! t = Some (uid, p) → binds g !! t = Some (uid, p)
       else relied g uid x) ∨
    b_pending x' = true ∧ final uid (queue g') = Some (Some (b_host x')) ∧
      ∀ t p, binds g' !! t = Some (uid, p) → (next_ticket g ≤ t)%nat ∧ answers g' !! t = None;
}.

Lemma outside_relied g g' extra more uid x' :
  (∀ t, is_Some (binds g !! t) → (t < next_ticket g)%nat) →
  outside g g' extra more → bound (bindings g') !! uid = Some x' → relied g' uid x' →
  ∃ x, bound (bindings g) !! uid = Some x ∧ b_host x' = b_host x ∧ quiet uid extra ∧ relied g uid x.
Proof.
  intros Hb Ho Hx' Hr. destruct (o_bound _ _ _ _ Ho uid x' Hx') as [(x & Hx & Hh & Hq & Hp)|(Hp & _ & Hn)].
  - exists x. split; [done|]. split; [done|]. split; [done|]. destruct (b_pending x') eqn:Ep; [|done]. destruct Hp as [Hp Hold].
    destruct Hr as [?|(t & p & Ht & Ha)]; [congruence|]. right. exists t, p. specialize (Hold t p Ht). split; [done|].
    rewrite <- (o_answers _ _ _ _ Ho); [done|]. apply Hb. by eexists.
  - destruct Hr as [?|(t & p & Ht & Ha)]; [congruence|]. destruct (Hn t p Ht). congruence.
Qed.

Lemma durable_outside g g' extra more cs : durable g cs → outside g g' extra more → durable g' cs.
Proof.
  intros Hd Ho. pose proof (o_store _ _ _ _ Ho) as (Ej & Ef & Ep). pose proof (o_queue _ _ _ _ Ho) as Eq. pose proof (o_waiting _ _ _ _ Ho) as Ew.
  pose proof (o_next _ _ _ _ Ho) as Hnext.
  assert (Hsafe : ∀ uid h, quiet uid extra → safe g cs uid h → safe g' cs uid h).
  { intros uid h Hq (H1 & H2 & H3). unfold safe. rewrite Ep, Eq. split; [done|]. split; [|done]. by apply quiet_app. }
  split.
  - apply Ho.
  - apply Ho.
  - rewrite Ej, Ef. apply Hd.
  - rewrite Eq. apply Forall_app. split; [apply Hd|apply Ho].
  - rewrite Ep. apply Hd.
  - apply Ho.
  - intros uid x' Hx' Hr. destruct (outside_relied _ _ _ _ _ _ (d_binds g cs Hd) Ho Hx' Hr) as (x & Hx & -> & Hq & Hr').
    apply Hsafe; [done|]. by apply (d_relied g cs Hd).
  - intros t uid p x' Ht Hx' Hp Hin. destruct (o_bound _ _ _ _ Ho uid x' Hx') as [(x & Hx & -> & Hq & Hold)|(_ & Hf & _)]; [|done].
    rewrite Hp in Hold. destruct Hold as [Hpx Hold]. specialize (Hold t p Ht). rewrite Eq, final_app, Hq.
    apply (d_waiting g cs Hd t uid p x); try done. rewrite Ew in Hin. apply elem_of_app in Hin as [Hin|Hin]; [done|].
    apply (o_more _ _ _ _ Ho) in Hin as [[Hge _] _]. pose proof (d_binds g cs Hd t ltac:(by eexists)). lia.
  - intros t uid p x' Ht Hx' Hp Hin. rewrite Ep in Hin.
    destruct (o_bound _ _ _ _ Ho uid x' Hx') as [(x & Hx & -> & Hq & Hold)|(_ & _ & Hn)].
    + rewrite Hp in Hold. destruct Hold as [Hpx Hold]. pose proof (d_underway g cs Hd t uid p x (Hold t p Ht) Hx Hpx Hin) as H.
      unfold underway in *. rewrite Ep, Eq. destruct (phase g) as [| |? ? []| | |? ? [] ?|]; rewrite ?quiet_app; naive_solver.
    + destruct (Hn t p Ht) as [Hge _]. pose proof (d_open g cs Hd t ltac:(apply elem_of_app; by left)). lia.
  - rewrite Ep, Ew, app_assoc. apply NoDup_app. split; [apply Hd|]. split; [|apply Ho].
    intros t Hin Hm. apply (d_open g cs Hd) in Hin as [Hlt _]. apply (o_more _ _ _ _ Ho) in Hm as [[Hge _] _]. lia.
  - rewrite Ep, Ew, app_assoc. intros t [Hin|Hin]%elem_of_app.
    + apply (d_open g cs Hd) in Hin as [Hlt Ha]. split; [lia|]. by rewrite (o_answers _ _ _ _ Ho).
    + apply (o_more _ _ _ _ Ho) in Hin as [[_ Hlt] Ha]. done.
  - apply Ho.
  - apply Ho.
Qed.

(** *** The writer *)

Lemma durable_take g cs : durable g cs → durable (take_queue g) cs.
Proof.
  intros Hd. unfold take_queue. destruct (phase g) eqn:Ep; try done. destruct (_ && _); [done|]. destruct Hd. rewrite Ep in *.
  split; cbn; try done.
  - intros uid x Hx Hr. destruct (d_relied0 uid x Hx Hr) as (H1 & H2 & _). by split.
  - by intros t uid p x _ _ _ ?%elem_of_nil.
  - intros t uid p x Ht Hx Hp Hin. by split; [apply (d_waiting0 t uid p)|].
  - by rewrite app_nil_r.
  - intros t. rewrite app_nil_r. apply d_open0.
Qed.

Lemma durable_append ended g cs : durable g cs → ∃ cs', durable (append_queue U ended g) cs'.
Proof.
  intros Hd. unfold append_queue. destruct (phase g) as [|changes w|changes w written|w again|copy moved w again|moved w written again|written] eqn:Ep; eauto.
  destruct (d_disk g cs Hd) as (j & Ej & Hdisk). rewrite Ej. destruct (journal_append U ended changes j (file g)) as [[j' f'] written] eqn:Ea.
  pose proof (d_hand g cs Hd) as Hh. rewrite Ep in Hh. cbn [in_hand] in Hh. destruct (append_disk U _ _ _ _ _ _ _ _ Hdisk Hh Ea) as (k & Hdisk' & Hfull).
  exists (cs ++ firstn k changes). destruct Hd. rewrite Ep in *.
  assert (Hsafe : ∀ uid x, bound (bindings g) !! uid = Some x → relied g uid x → stored_hosts (cs ++ firstn k changes) !! uid = Some (b_host x) ∧ quiet uid (queue g)).
  { intros uid x Hx Hr. destruct (d_relied0 uid x Hx Hr) as (H1 & H2 & H3). rewrite Ep in H3. split; [|done].
    rewrite stored_app. by rewrite (quiet_firstn uid k changes H3). }
  assert (Hin : ∀ t uid p x, binds g !! t = Some (uid, p) → bound (bindings g) !! uid = Some x → b_pending x = true → t ∈ w →
            final uid changes = Some (Some (b_host x)) ∧ quiet uid (queue g)).
  { intros t uid p x Ht Hx Hp Hw. pose proof (d_underway0 t uid p x Ht Hx Hp Hw) as H. unfold underway in H. by rewrite Ep in H. }
  destruct written; (split; cbn; [done|done|by exists j'|done|done|done| |done| |done..]).
  - intros uid x Hx Hr. destruct (Hsafe uid x Hx Hr). by split.
  - intros t uid p x Ht Hx Hp Hw. destruct (Hin t uid p x Ht Hx Hp Hw) as [Hf Hq]. unfold underway. cbn. split; [|done].
    rewrite stored_app, Hfull by done. by rewrite Hf.
  - intros uid x Hx Hr. destruct (Hsafe uid x Hx Hr). by split.
  - intros t uid p x Ht Hx Hp Hw. by destruct (Hin t uid p x Ht Hx Hp Hw).
Qed.

Lemma answered_lookup (l : list nat) (written : bool) (m : gmap nat bool) t :
  foldr (λ t m, <[t := written]> m) m l !! t = if decide (t ∈ l) then Some written else m !! t.
Proof.
  induction l as [|u l IH]; cbn; [by rewrite decide_False by by intros ?%elem_of_nil|].
  destruct (decide (t = u)) as [->|Hne]; [rewrite lookup_insert_eq, decide_True; [done|by left]|].
  rewrite lookup_insert_ne by done. rewrite IH. apply decide_ext. rewrite elem_of_cons. naive_solver.
Qed.

Definition resting (p : Phase) : Prop := match p with Idle | Checking _ => True | _ => False end.

(** What is written is settled, and who waited is answered. *)
Lemma durable_settle g cs (f : Bindings → Bindings) w written q :
  durable g cs → phase_tickets (phase g) = w → in_hand (phase g) = [] → resting q →
  (∀ uid h, written = true → underway g cs uid h → stored_hosts cs !! uid = Some h ∧ quiet uid (queue g)) →
  bound (f (bindings g)) = bound (bindings g) → wf (f (bindings g)) → proper (f (bindings g)) →
  durable (set_store (journal g) (file g) q (answer w written (on_bindings f g))) cs.
Proof.
  intros Hd Ew Eh Hq Hun Eb Hwf Hp. pose proof Hd as Hd'. destruct Hd. rewrite Ew in *.
  assert (Eq : phase_tickets q = [] ∧ in_hand q = []) by by destruct q. destruct Eq as [Et Ehq].
  assert (Hs : ∀ uid h, stored_hosts cs !! uid = Some h → quiet uid (queue g) →
    safe (set_store (journal g) (file g) q (answer w written (on_bindings f g))) cs uid h).
  { intros uid h H1 H2. split; [done|]. split; [done|]. by destruct q. }
  split; cbn [bindings queue waiting answers journal file phase next_ticket binds taken_reports set_store answer on_bindings];
    rewrite ?Et, ?Ehq, ?Eb; try done.
  - intros uid x Hx Hr. destruct (decide (b_pending x = false)) as [Hpx|Hpx].
    { destruct (d_relied0 uid x Hx ltac:(by left)) as (H1 & H2 & _). by apply Hs. }
    destruct Hr as [?|(t & p & Ht & Ha)]; [done|]. cbn in Ht, Ha. rewrite answered_lookup in Ha. case_decide as Hin.
    + injection Ha as Ha. apply not_false_is_true in Hpx. destruct (Hun uid (b_host x) Ha) as [H1 H2]; [|by apply Hs].
      apply (d_underway0 t uid p x); done.
    + destruct (d_relied0 uid x Hx ltac:(right; eauto)) as (H1 & H2 & _). by apply Hs.
  - by intros t uid p x _ _ _ ?%elem_of_nil.
  - by apply NoDup_app in d_once0 as (_ & _ & ?).
  - intros t Hin. cbn [app] in Hin. rewrite answered_lookup. rewrite decide_False.
    + apply d_open0, elem_of_app. by right.
    + intros Hw. apply NoDup_app in d_once0 as (_ & Hdis & _). by apply (Hdis t).
  - intros t. rewrite answered_lookup. case_decide as Hin; [|apply d_answers0]. intros _. apply d_open0, elem_of_app. by left.
Qed.

Lemma durable_settle_append g cs : durable g cs → durable (settle_append g) cs.
Proof.
  intros Hd. unfold settle_append. destruct (phase g) as [|changes w|changes w written|w again|copy moved w again|moved w written again|written] eqn:Ep; try done.
  destruct (ends_written_same changes written (bindings g)) as [Eb Hp].
  apply durable_settle; rewrite ?Ep; try done; [|apply wf_ends_written, Hd|apply Hp, Hd].
  intros uid h -> H. unfold underway in H. by rewrite Ep in H.
Qed.

Lemma durable_settle_rewrite g cs : durable g cs → durable (settle_rewrite g) cs.
Proof.
  intros Hd. unfold settle_rewrite. destruct (phase g) as [|changes w|changes w written|w again|copy moved w again|moved w written again|written] eqn:Ep; try done.
  destruct (compacted_same moved written (bindings g)) as [Eb Hp].
  apply durable_settle; rewrite ?Ep; try done; [by destruct again| |apply wf_compacted, Hd|apply Hp, Hd].
  intros uid h -> H. unfold underway in H. by rewrite Ep in H.
Qed.

Lemma durable_copy g cs : durable g cs → durable (copy_bindings g) cs.
Proof.
  intros Hd. unfold copy_bindings. destruct (phase g) as [|changes w|changes w written|w again|copy moved w again|moved w written again|written] eqn:Ep; try done.
  assert (Hin : ∀ uid x, bound (bindings g) !! uid = Some x → stored_hosts (snapshot (bindings g)) !! uid = Some (b_host x)).
  { intros uid x Hx. rewrite snapshot_hosts. unfold bound_hosts. by rewrite lookup_fmap, Hx. }
  destruct Hd. rewrite Ep in *. split; cbn; try done.
  - by apply proper_snapshot.
  - intros uid x Hx Hr. destruct (d_relied0 uid x Hx Hr) as (H1 & _). split; [done|]. split; [done|]. by apply Hin.
  - by intros t uid p x _ _ _ ?%elem_of_nil.
  - intros t uid p x Ht Hx Hp _. split; [by apply Hin|done].
  - by rewrite app_nil_r.
  - intros t. rewrite app_nil_r. apply d_open0.
Qed.

Lemma durable_rewrite ended g cs : durable g cs → ∃ cs', durable (rewrite_store U ended g) cs'.
Proof.
  intros Hd. unfold rewrite_store. destruct (phase g) as [|changes w|changes w written|w again|copy moved w again|moved w written again|written] eqn:Ep; eauto.
  destruct (d_disk g cs Hd) as (j & Ej & Hdisk). rewrite Ej. destruct (journal_compact U ended copy j (file g)) as [[j' f'] written] eqn:Ea.
  pose proof (d_hand g cs Hd) as Hh. rewrite Ep in Hh. cbn [in_hand] in Hh.
  assert (Hor : ∃ cs', disk U j' f' cs' ∧ (cs' = copy ∨ cs' = cs ∧ written = false)).
  { destruct (compact_disk U _ _ _ _ _ _ _ _ Hdisk Hh Ea) as [?|[? ?]]; eauto. }
  destruct Hor as (cs' & Hdisk' & Hor). exists cs'. destruct Hd. rewrite Ep in *. split; cbn; try done.
  - by exists j'.
  - intros uid x Hx Hr. destruct (d_relied0 uid x Hx Hr) as (H1 & H2 & H3). rewrite Ep in H3. split; [|by split]. by destruct Hor as [->|[-> _]].
  - intros t uid p x Ht Hx Hp Hin. pose proof (d_underway0 t uid p x Ht Hx Hp Hin) as H. unfold underway in *. rewrite Ep in H. cbn.
    destruct written; [|done]. destruct H as [H1 H2]. split; [|done]. by destruct Hor as [->|[_ ?]].
Qed.

Lemma durable_check g cs : durable g cs → durable (check_growth g) cs.
Proof.
  intros Hd. unfold check_growth. destruct (phase g) as [|changes w|changes w written|w again|copy moved w again|moved w written again|written] eqn:Ep; try done.
  match goal with |- durable (set_store _ _ ?p _) _ => set (q := p) end.
  assert (Hq : phase_tickets q = [] ∧ in_hand q = [] ∧ match q with Idle | Rewriting _ _ => True | _ => False end).
  { subst q. by destruct (journal g); [case_match|]. }
  clearbody q. destruct Hq as (Et & Eh & Hq). destruct Hd. rewrite Ep in *. split; cbn; rewrite ?Et, ?Eh; try done.
  - intros uid x Hx Hr. destruct (d_relied0 uid x Hx Hr) as (H1 & H2 & _). split; [done|]. split; [done|]. by destruct q.
  - by intros t uid p x _ _ _ ?%elem_of_nil.
Qed.

(** *** Reports, ends of certificates and routes *)

(** What [durable] is about; the offers and routes are not of it. *)
Definition core g :=
  (bindings g, queue g, waiting g, answers g, journal g, file g, phase g, (next_ticket g, binds g, taken_reports g)).

Lemma durable_core g g' cs : core g' = core g → durable g cs → durable g' cs.
Proof.
  destruct g, g'. unfold core. cbn. intros [= -> -> -> -> -> -> -> -> -> ->] Hd. destruct Hd. by split.
Qed.

(** Bindings dropped, and nothing queued. *)
Lemma durable_bindings g b cs :
  durable g cs → wf b → proper b →
  (∀ uid x', bound b !! uid = Some x' → ∃ x, bound (bindings g) !! uid = Some x ∧ b_host x' = b_host x ∧
     if b_pending x' then b_pending x = true else relied g uid x) →
  durable (on_bindings (λ _, b) g) cs.
Proof.
  intros Hd Hw Hp Hb. apply (durable_outside g _ [] []); [done|]. split; cbn; try done; try apply Hd.
  - by rewrite app_nil_r.
  - by rewrite app_nil_r.
  - split; [constructor|]. by intros t ?%elem_of_nil.
  - intros uid x' Hx'. left. destruct (Hb uid x' Hx') as (x & Hx & Hh & Hpx). exists x. split; [done|]. split; [done|]. split; [done|].
    by destruct (b_pending x').
Qed.

(** Changes queued under a ticket of nobody's, which say nothing of what is bound. *)
Lemma durable_enqueue g cs extra :
  durable g cs → Forall storable extra → (∀ uid, is_Some (bound (bindings g) !! uid) → quiet uid extra) → durable (enqueue extra g).1 cs.
Proof.
  intros Hd Hs Hq. apply (durable_outside g _ extra [next_ticket g]); [done|]. split; cbn; try done; try apply Hd.
  - split; [apply NoDup_singleton|]. intros t ->%list_elem_of_singleton. split; [lia|].
    apply eq_None_not_Some. intros Ha%(d_answers g cs Hd). lia.
  - lia.
  - intros t Ha%(d_answers g cs Hd). lia.
  - intros t Ha%(d_binds g cs Hd). lia.
  - intros uid x Hx. left. exists x. split; [done|]. split; [done|]. split; [apply Hq; by exists x|]. destruct (b_pending x) eqn:E; [by split|by left].
Qed.

(** A ticket gone. *)
Lemma durable_taken g cs t : durable g cs → durable (set_tickets (next_ticket g) (delete t (binds g)) g) cs.
Proof.
  intros Hd. destruct Hd. split; cbn; try done.
  - intros uid x Hx Hr. apply d_relied0; [done|]. destruct Hr as [?|(u & p & Hu & Ha)]; [by left|]. cbn in Hu.
    apply lookup_delete_Some in Hu as [_ Hu]. right. eauto.
  - intros u uid p x [_ Hu]%lookup_delete_Some. by apply (d_waiting0 u uid p x).
  - intros u uid p x [_ Hu]%lookup_delete_Some. by apply (d_underway0 u uid p x).
  - intros u [x [_ Hu]%lookup_delete_Some]. apply d_binds0. by exists x.
Qed.

Lemma core_drop_offer uid host g : core (drop_offer uid host g) = core g.
Proof. done. Qed.

Lemma storable_unbound b uid : proper b → is_Some (bound b !! uid) → storable (ChangeUnbound uid).
Proof. intros Hp [x Hx]. destruct (proper_bound b Hp uid x Hx) as [H _]. exact H. Qed.

Lemma durable_abort g cs uid host :
  durable g cs → durable (let '(b, undone) := abort uid (bindings g) in
    let g := on_bindings (λ _, b) g in match undone with [] => g | _ => (enqueue undone (drop_offer uid host g)).1 end) cs.
Proof.
  intros Hd. unfold abort. destruct (bound (bindings g) !! uid) as [x|] eqn:Hx; [destruct (b_pending x) eqn:Hp|];
    [|by apply (durable_core g)..].
  cbv zeta. pose proof (d_wf g cs Hd) as Hw. pose proof (d_proper g cs Hd) as Hpr.
  destruct (unbind_eq uid false (bindings g) x Hw Hx) as (E1 & _). cbv zeta in E1.
  apply (durable_core (enqueue [ChangeUnbound uid] (on_bindings (λ _, unbind uid false (bindings g)) g)).1); [done|].
  apply durable_enqueue.
  - apply durable_bindings; [done|by apply wf_unbind|by apply proper_unbind|]. rewrite E1. intros v x' [_ Hv]%lookup_delete_Some.
    exists x'. split; [done|]. split; [done|]. destruct (b_pending x') eqn:E; [done|by left].
  - repeat constructor. apply (storable_unbound (bindings g)); [done|]. by exists x.
  - cbn. rewrite E1. intros v [y [Hne Hv]%lookup_delete_Some]. by rewrite bool_decide_false.
Qed.

Lemma durable_finish g cs t socket : durable g cs → durable (run_step g (OnFinish t socket)) cs.
Proof.
  intros Hd. cbn [gate_step]. destruct (answers g !! t) as [written|] eqn:Ha; [|done]. destruct (binds g !! t) as [[uid p]|] eqn:Ht; [|done].
  pose proof (durable_taken g cs t Hd) as Hd1. destruct (speaker p) as [host|]; [|done].
  set (g1 := set_tickets _ _ g) in *. destruct (route_for p socket g1) as [d g2] eqn:Er.
  assert (E2 : core g2 = core g1) by (unfold route_for in Er; destruct socket; by injection Er as <- <-).
  unfold finish_route, finish_bind. destruct written.
  - assert (Hc : durable (on_bindings (commit uid) g) cs).
    { apply durable_bindings; [done|by apply wf_commit, Hd| |].
      - apply (proper_sub (bindings g)); [apply Hd| |unfold commit; by destruct (bound _ !! uid)..].
        unfold commit. destruct (bound (bindings g) !! uid) as [x|] eqn:Hx; [|eauto]. cbn. intros v y [[<- <-]|[_ Hy]]%lookup_insert_Some; eauto.
      - unfold commit. destruct (bound (bindings g) !! uid) as [x|] eqn:Hx; cbn.
        + intros v y [[<- <-]|[_ Hy]]%lookup_insert_Some; cbn.
          * exists x. split; [done|]. split; [done|]. right. eauto.
          * exists y. split; [done|]. split; [done|]. destruct (b_pending y) eqn:E; [done|by left].
        + intros v y Hy. exists y. split; [done|]. split; [done|]. destruct (b_pending y) eqn:E; [done|by left]. }
    apply (durable_taken _ _ t) in Hc. revert Hc. apply durable_core. unfold core in *. cbn in *. injection E2 as E3 E4 E5 E6 E7 E8 E9 E10 E11 E12.
    destruct (holds uid host (commit uid (bindings g2))); cbn; rewrite E3, E4, E5, E6, E7, E8, E9, E10, E11, E12; done.
  - pose proof (durable_core g1 g2 cs E2 Hd1) as Hd2. pose proof (durable_abort g2 cs uid host Hd2) as H.
    by destruct (abort uid (bindings g2)) as [b undone].
Qed.

Lemma core_drop_offers ended g :
  core (foldl (λ g hu, foldl (λ g uid, drop_offer uid hu.1 g) g hu.2) g ended) = core g.
Proof.
  revert g. induction ended as [|[h l] ended IH]; intros g; cbn [foldl]; [done|]. rewrite IH. clear IH. cbn [fst snd].
  revert g. induction l as [|uid l IH]; intros g; cbn [foldl]; [done|]. by rewrite IH.
Qed.

Lemma core_enqueue extra g g' : core g = core g' → core (enqueue extra g).1 = core (enqueue extra g').1.
Proof. unfold core. cbn. intros [= -> -> -> -> -> -> -> -> -> ->]. done. Qed.

Lemma durable_end now revoked g cs : durable g cs → durable (end_certificates now revoked g) cs.
Proof.
  intros Hd. unfold end_certificates, end_bindings. pose proof (wf_end_each (elements (ended_hosts now revoked (bindings g))) _ (d_wf g cs Hd)) as Hw.
  pose proof (proper_end_each (elements (ended_hosts now revoked (bindings g))) _ (d_proper g cs Hd)) as Hp.
  destruct (end_each _ (bindings g)) as [b ended] eqn:E. cbn [fst] in *. destruct (end_each_bound _ _ _ _ (d_wf g cs Hd) E) as [Hb Hu].
  assert (Hd1 : durable (on_bindings (λ _, b) g) cs).
  { apply durable_bindings; [done..|]. intros uid x Hx. destruct (Hb uid x Hx) as [Hx0 _]. exists x. split; [done|]. split; [done|].
    destruct (b_pending x) eqn:Epx; [done|by left]. }
  destruct ended as [|hu ended]; [done|]. set (l := hu :: ended) in *.
  apply (durable_core (enqueue (map ChangeUnbound (concat l.*2)) (on_bindings (λ _, b) g)).1).
  - etrans; [|apply core_enqueue, core_drop_offers]. done.
  - apply durable_enqueue; [done| |].
    + apply Forall_forall. intros c (uid & -> & Hin)%list_elem_of_fmap. apply (storable_unbound (bindings g)); [apply Hd|by apply Hu].
    + intros uid [x Hx]. apply quiet_unbinds. by apply (Hb uid x).
Qed.

Lemma durable_set_reports g cs r :
  durable g cs → (∀ l, r = Some l → Forall storable l ∧ ∀ uid, quiet uid l) → durable (set_reports r g) cs.
Proof. intros Hd Hr. destruct Hd. by split. Qed.

Lemma durable_take_reports g cs : durable g cs → durable (take_reports g) cs.
Proof.
  intros Hd. unfold take_reports. pose proof (wf_reports _ (d_wf g cs Hd)) as Hw.
  assert (Hl : Forall storable (reports (bindings g)).2 ∧ ∀ uid, quiet uid (reports (bindings g)).2).
  { unfold reports. cbn [snd]. split.
    - apply Forall_forall. intros c ([t v] & -> & Hin)%list_elem_of_fmap. rewrite merge_sort_Permutation in Hin.
      apply list_elem_of_omap in Hin as (v' & _ & Hv). destruct (bound (bindings g) !! v') as [x|] eqn:Hx; [|done]. injection Hv as <- <-.
      by destruct (proper_bound _ (d_proper g cs Hd) v' x Hx).
    - intros uid. apply quiet_forall, Forall_forall. by intros c ([t v] & -> & Hin)%list_elem_of_fmap. }
  destruct (reports (bindings g)) as [b l] eqn:E. cbn [fst snd] in *.
  assert (Eb : bound b = bound (bindings g) ∧ ends b = ends (bindings g) ∧ moving b = moving (bindings g)) by (injection E as <- <-; done).
  destruct Eb as (Eb & Ee & Em). apply durable_set_reports.
  - apply durable_bindings; [done|done|apply (proper_sub (bindings g)); rewrite ?Eb, ?Ee, ?Em; eauto; apply Hd|].
    rewrite Eb. intros uid x Hx. exists x. split; [done|]. split; [done|]. destruct (b_pending x) eqn:Epx; [done|by left].
  - destruct l; [apply Hd|]. by intros ? [= <-].
Qed.

Lemma durable_queue_reports g cs : durable g cs → durable (queue_reports g) cs.
Proof.
  intros Hd. unfold queue_reports. destruct (taken_reports g) as [l|] eqn:E; [|done]. destruct (d_reports g cs Hd l E) as [Hs Hq].
  apply durable_set_reports; [|done]. by apply durable_enqueue.
Qed.

(** *** A bind *)

(** A bind that makes no new binding leaves each binding as relied on as it was. *)
Lemma bind_same uid host limits idle b b' o :
  bind_ok uid host limits idle b b' o → outcome_bound o ≠ New →
  ∀ v x', bound b' !! v = Some x' → ∃ x, bound b !! v = Some x ∧ b_host x' = b_host x ∧ b_pending x' = b_pending x.
Proof.
  intros Ho Hnew v x' Hx'. assert (Hev : outcome_evicted o = []).
  { pose proof (bk_uid _ _ _ _ _ _ _ Ho) as H. destruct (outcome_bound o); [|done| |]; [by destruct H as (? & ? & ? & ? & ? & ?)|by destruct H..]. }
  destruct (decide (v = uid)) as [->|Hv].
  - pose proof (bk_uid _ _ _ _ _ _ _ Ho) as H. destruct (outcome_bound o); [|done| |].
    + destruct H as (x & t & Hx & Hp & Hb & _). rewrite Hb in Hx'. injection Hx' as <-. exists x. by rewrite Hp.
    + destruct H as [<- _]. eauto.
    + destruct H as [<- _]. eauto.
  - destruct (bound b !! v) as [x|] eqn:Hx.
    + rewrite (bk_kept _ _ _ _ _ _ _ Ho v x Hx Hv) in Hx'; [|rewrite Hev; apply not_elem_of_nil]. injection Hx' as <-. eauto.
    + rewrite (bk_none _ _ _ _ _ _ _ Ho v Hx Hv) in Hx'. done.
Qed.

(** What a bind queues says nothing of the other bindings. *)
Lemma bind_quiet uid host limits idle b b' o v x' :
  bind_ok uid host limits idle b b' o → v ≠ uid → bound b' !! v = Some x' → quiet v (outcome_changes o).
Proof.
  intros Ho Hv Hx'. assert (Hev : v ∉ outcome_evicted o) by (intros Hin%(bk_evicted _ _ _ _ _ _ _ Ho); destruct Hin as (_ & Hn & _); congruence).
  destruct (bk_changes _ _ _ _ _ _ _ Ho) as [moved ->]. assert (Hm : quiet v (option_list (ChangeEnds host <$> moved))) by by destruct moved.
  destruct (outcome_bound o); try done. rewrite !quiet_app. split; [by apply quiet_unbinds|]. split; [done|]. cbn. by rewrite bool_decide_false.
Qed.

(** A bind that finds its binding in the store, or has only its host's end to write. *)
Lemma durable_begin_kept g cs b' t uid p x extra more (answered : gmap nat bool) :
  durable g cs → wf b' → proper b' → bound (bindings g) !! uid = Some x → b_pending x = false → Forall storable extra →
  (∀ v y', bound b' !! v = Some y' → quiet v extra ∧ ∃ y, bound (bindings g) !! v = Some y ∧ b_host y' = b_host y ∧ b_pending y' = b_pending y) →
  t = next_ticket g → (more = [t] ∧ answered = answers g ∨ more = [] ∧ answered = <[t := true]> (answers g)) →
  durable (mkGate b' (queue g ++ extra) (waiting g ++ more) answered (offers g) (by_host g) (journal g) (file g) (phase g) (S t)
    (<[t := (uid, p)]> (binds g)) (routes g) (exchanges g) (taken_reports g)) cs.
Proof.
  intros Hd Hw Hp Hx Hpx Hs Hb -> Hor. apply (durable_outside g _ extra more); [done|].
  assert (Hfresh : answers g !! next_ticket g = None) by (apply eq_None_not_Some; intros Ha%(d_answers g cs Hd); lia).
  split; cbn; try done; try apply Hd; [|lia|..].
  - destruct Hor as [[-> ->]|[-> _]]; (split; [repeat constructor; apply not_elem_of_nil|]); [|by intros t ?%elem_of_nil].
    intros t ->%list_elem_of_singleton. split; [lia|done].
  - intros t Hlt. destruct Hor as [[_ ->]|[_ ->]]; [done|]. rewrite lookup_insert_ne; [done|lia].
  - intros t [a Ha]. destruct Hor as [[_ ->]|[_ ->]].
    + pose proof (d_answers g cs Hd t ltac:(by eexists)). lia.
    + apply lookup_insert_Some in Ha as [[<- _]|[_ Ha]]; [lia|]. pose proof (d_answers g cs Hd t ltac:(by eexists)). lia.
  - intros t [a [[<- _]|[_ Ha]]%lookup_insert_Some]; [lia|]. pose proof (d_binds g cs Hd t ltac:(by eexists)). lia.
  - intros v y' Hy'. left. destruct (Hb v y' Hy') as (Hq & y & Hy & Hh & Hpy). exists y. split; [done|]. split; [done|]. split; [done|].
    rewrite Hpy. destruct (b_pending y) eqn:Ey; [|by left]. split; [done|].
    intros t q [[<- Heq]|[_ Ht]]%lookup_insert_Some; [|done]. injection Heq as <- <-. congruence.
Qed.

(** A new binding, queued under its ticket. *)
Lemma durable_begin_new g cs uid host limits idle b' o p :
  durable g cs → bind_ok uid host limits idle (bindings g) b' o → proper b' → outcome_bound o = New → Forall storable (outcome_changes o) →
  (∀ t q, binds g !! t ≠ Some (uid, q)) →
  durable (mkGate b' (queue g ++ outcome_changes o) (waiting g ++ [next_ticket g]) (answers g) (offers g) (by_host g) (journal g) (file g)
    (phase g) (S (next_ticket g)) (<[next_ticket g := (uid, p)]> (binds g)) (routes g) (exchanges g) (taken_reports g)) cs.
Proof.
  intros Hd Ho Hp Hnew Hs Hnone. apply (durable_outside g _ (outcome_changes o) [next_ticket g]); [done|].
  assert (Hfresh : answers g !! next_ticket g = None) by (apply eq_None_not_Some; intros Ha%(d_answers g cs Hd); lia).
  split; cbn; try done; try apply Hd; [apply Ho| |lia|..].
  - split; [apply NoDup_singleton|]. intros t ->%list_elem_of_singleton. split; [lia|done].
  - intros t Ha%(d_answers g cs Hd). lia.
  - intros t [a [[<- _]|[_ Ha]]%lookup_insert_Some]; [lia|]. pose proof (d_binds g cs Hd t ltac:(by eexists)). lia.
  - pose proof (bk_uid _ _ _ _ _ _ _ Ho) as Hu. rewrite Hnew in Hu. destruct Hu as (Hn0 & tk & Hb). intros v x' Hx'.
    destruct (decide (v = uid)) as [->|Hv].
    + right. rewrite Hb in Hx'. injection Hx' as <-. split; [done|]. split.
      * destruct (bk_changes _ _ _ _ _ _ _ Ho) as [moved ->]. rewrite Hnew, !final_app. cbn. by rewrite bool_decide_true.
      * intros t q [[<- _]|[_ Ht]]%lookup_insert_Some; [done|]. by destruct (Hnone t q).
    + left. exists x'. destruct (bound (bindings g) !! v) as [x|] eqn:Hx.
      * assert (Hev : v ∉ outcome_evicted o) by (intros Hin%(bk_evicted _ _ _ _ _ _ _ Ho); destruct Hin as (_ & Hn & _); congruence).
        rewrite (bk_kept _ _ _ _ _ _ _ Ho v x Hx Hv Hev) in Hx'. injection Hx' as <-. split; [done|]. split; [done|]. split.
        { eapply bind_quiet; [done..|]. by apply (bk_kept _ _ _ _ _ _ _ Ho). }
        destruct (b_pending x) eqn:Ex; [|by left]. split; [done|]. intros t q [[<- Heq]|[_ Ht]]%lookup_insert_Some; [|done]. congruence.
      * by rewrite (bk_none _ _ _ _ _ _ _ Ho v Hx Hv) in Hx'.
Qed.

(** A bind whose change is too long for a line is undone. *)
Lemma durable_begin_undone g cs uid host limits idle b' o :
  durable g cs → bind_ok uid host limits idle (bindings g) b' o → proper b' → Forall storable (outcome_changes o) →
  outcome_bound o = New ∨ outcome_bound o = Kept →
  let g1 := on_bindings (ends_written (outcome_changes o) false) (on_bindings (λ _, b') g) in
  let removals := List.filter (λ c, match c with ChangeUnbound _ => true | _ => false end) (outcome_changes o) in
  durable (let '(b, undone) := abort uid (bindings g1) in on_bindings (λ _, b) (set_queue (queue g1 ++ removals ++ undone) (waiting g1) g1)) cs.
Proof.
  intros Hd Ho Hp Hs Hkind g1 removals. set (b1 := ends_written (outcome_changes o) false b').
  destruct (ends_written_same (outcome_changes o) false b') as [E1 Hp1]. specialize (Hp1 Hp). fold b1 in E1, Hp1.
  assert (Hw1 : wf b1) by apply wf_ends_written, Ho.
  assert (Hrem : Forall storable removals) by (apply Forall_forall; intros c Hc%list_elem_of_In%filter_In; rewrite Forall_forall in Hs; apply Hs, list_elem_of_In, Hc).
  assert (Hqrem : ∀ v x', v ≠ uid → bound b' !! v = Some x' → quiet v removals).
  { intros v x' Hv Hx'. pose proof (bind_quiet _ _ _ _ _ _ _ _ _ Ho Hv Hx') as Hq. rewrite <- quiet_forall in *.
    apply Forall_forall. intros c Hc%list_elem_of_In%filter_In. rewrite Forall_forall in Hq. apply Hq, list_elem_of_In, Hc. }
  assert (Hgen : ∀ b2 undone, wf b2 → proper b2 → Forall storable undone →
    (∀ v x', bound b2 !! v = Some x' → quiet v (removals ++ undone) ∧ ∃ x, bound (bindings g) !! v = Some x ∧ b_host x' = b_host x ∧ b_pending x' = b_pending x) →
    durable (on_bindings (λ _, b2) (set_queue (queue g ++ removals ++ undone) (waiting g) g1)) cs).
  { intros b2 undone Hw2 Hp2 Hs2 Hb2. assert (Hall : Forall storable (removals ++ undone)) by by apply Forall_app.
    apply (durable_outside g _ (removals ++ undone) []); [done|]. split; cbn; try done; try apply Hd.
    - by rewrite app_nil_r.
    - split; [constructor|]. by intros t ?%elem_of_nil.
    - intros v x' Hx'. left. destruct (Hb2 v x' Hx') as (Hq & x & Hx & Hh & Hpx). exists x. split; [done|]. split; [done|]. split; [done|].
      rewrite Hpx. destruct (b_pending x) eqn:Ex; [by split|by left]. }
  change (bindings g1) with b1. change (queue g1) with (queue g). change (waiting g1) with (waiting g).
  destruct Hkind as [Hnew|Hold].
  - pose proof (bk_uid _ _ _ _ _ _ _ Ho) as Hu. rewrite Hnew in Hu. destruct Hu as (Hn0 & tk & Hb).
    assert (Hbu : bound b1 !! uid = Some (mkBinding host tk true)) by by rewrite E1. unfold abort. rewrite Hbu. cbn [b_pending].
    destruct (unbind_eq uid false b1 _ Hw1 Hbu) as (E2 & _). cbv zeta in E2.
    apply Hgen; [by apply wf_unbind|by apply proper_unbind| |].
    + apply Forall_singleton, (storable_unbound b1); [done|]. by eexists.
    + rewrite E2, E1. intros v x' [Hne Hx']%lookup_delete_Some. rewrite quiet_app. split; [split; [by apply (Hqrem v x')|]|].
      * cbn. by rewrite bool_decide_false.
      * exists x'. destruct (bound (bindings g) !! v) as [x|] eqn:Hx; [|by rewrite (bk_none _ _ _ _ _ _ _ Ho v Hx) in Hx'].
        rewrite (bk_kept _ _ _ _ _ _ _ Ho v x Hx) in Hx'; [by injection Hx' as <-|done|].
        intros (_ & Hn & _)%(bk_evicted _ _ _ _ _ _ _ Ho). congruence.
  - pose proof (bind_same _ _ _ _ _ _ _ Ho ltac:(congruence)) as Hsame.
    assert (Hr : removals = []).
    { destruct (bk_changes _ _ _ _ _ _ _ Ho) as [moved Hc]. subst removals. rewrite Hc, Hold. by destruct moved. }
    assert (Hab : abort uid b1 = (b1, [])).
    { pose proof (bk_uid _ _ _ _ _ _ _ Ho) as Hu. rewrite Hold in Hu. destruct Hu as (x & tk & _ & _ & Hb & _). unfold abort. by rewrite E1, Hb. }
    rewrite Hab. apply Hgen; try done. rewrite E1, Hr. intros v x' Hx'. split; [done|]. by apply Hsame.
Qed.

(** ** Runs *)

(** What is asked of a step: the names and certificates a peer brings are texts the store takes, and an
    [instance_uid] that is bound to nobody is bound only once every earlier bind of it has finished. *)
Definition orderly g (x : GateStep (Peer := Peer)) : Prop :=
  match x with
  | OnBegin p uid e _ _ =>
      ∀ host, speaker p = Some host →
        storable (ChangeBound uid host) ∧ storable (ChangeEnds host e) ∧
        (bound (bindings g) !! uid = None → ∀ t q, binds g !! t ≠ Some (uid, q))
  | _ => True
  end.

Fixpoint orderly_run g (xs : list (GateStep (Peer := Peer))) : Prop :=
  match xs with [] => True | x :: xs => orderly g x ∧ orderly_run (run_step g x) xs end.

Lemma durable_begin g cs p uid e now limits :
  durable g cs → orderly g (OnBegin p uid e now limits) → durable (run_step g (OnBegin p uid e now limits)) cs.
Proof.
  intros Hd Ho. cbn [gate_step]. cbn [orderly] in Ho. destruct (speaker p) as [host|] eqn:Hsp; [|done].
  destruct (Ho host eq_refl) as (Hsu & Hse & Hnone). unfold begin_bind. cbv zeta.
  match goal with |- context [bind uid host e now limits ?i (bindings g)] => set (idle := i) end.
  destruct (bind uid host e now limits idle (bindings g)) as [b' o] eqn:Eb.
  pose proof (bind_spec _ _ _ _ _ _ _ _ _ (d_wf g cs Hd) Eb) as Hok.
  destruct (proper_bind _ _ _ _ _ _ _ _ _ (d_wf g cs Hd) (d_proper g cs Hd) Hsu Hse Eb) as [Hp Hs].
  assert (Hplain : outcome_bound o ≠ New → durable (on_bindings (λ _, b') g) cs).
  { intros Hne. apply durable_bindings; [done|apply Hok|done|]. intros v x' Hx'. destruct (bind_same _ _ _ _ _ _ _ Hok Hne v x' Hx') as (x & Hx & Hh & Hpx).
    exists x. split; [done|]. split; [done|]. rewrite Hpx. destruct (b_pending x) eqn:Ex; [done|by left]. }
  pose proof (bk_uid _ _ _ _ _ _ _ Hok) as Huid.
  assert (Hundone := durable_begin_undone g cs uid host limits idle b' o Hd Hok Hp Hs).
  assert (Hnew := durable_begin_new g cs uid host limits idle b' o p Hd Hok Hp).
  assert (Hsame := bind_same _ _ _ _ _ _ _ Hok).
  assert (Hch := bk_changes _ _ _ _ _ _ _ Hok).
  destruct (outcome_bound o) as [| |why|] eqn:Eo; [| |by apply Hplain|by apply Hplain].
  - destruct Huid as (x & tk & Hx & Hpx & _ & Hev). destruct (negb _); [by apply Hplain|]. case_bool_decide as Hc.
    { pose proof (durable_begin_kept g cs b' (next_ticket g) uid p x [] [] (<[next_ticket g := true]> (answers g)) Hd (bk_wf _ _ _ _ _ _ _ Hok) Hp Hx Hpx) as H.
      rewrite !app_nil_r in H. apply H; [constructor| |done|by right]. intros v y' Hy'. split; [done|]. by apply Hsame. }
    destruct (existsb _ _) eqn:Ex.
    + specialize (Hundone ltac:(by right)). cbv zeta in Hundone. by destruct (abort _ _) as [b2 undone].
    + pose proof (durable_begin_kept g cs b' (next_ticket g) uid p x (outcome_changes o) [next_ticket g] (answers g) Hd (bk_wf _ _ _ _ _ _ _ Hok) Hp Hx Hpx Hs) as H.
      apply H; [|done|by left]. intros v y' Hy'. split; [|by apply Hsame]. destruct Hch as [moved ->]. by destruct moved.
  - case_bool_decide as Hc.
    { destruct Hch as [moved Hm]. rewrite Hc in Hm. by destruct (map ChangeUnbound _), (option_list _). }
    destruct (existsb _ _) eqn:Ex.
    + specialize (Hundone ltac:(by left)). cbv zeta in Hundone. by destruct (abort _ _) as [b2 undone].
    + apply Hnew; [done|done|]. apply Hnone, Huid.
Qed.

Lemma durable_step g cs x : durable g cs → orderly g x → ∃ cs', durable (run_step g x) cs'.
Proof.
  intros Hd Ho. destruct x; cbn [gate_step].
  - exists cs. by apply durable_begin.
  - exists cs. by apply durable_finish.
  - exists cs. by apply durable_end.
  - exists cs. revert Hd. apply durable_core. unfold expect_enrolment. by destruct (_ || _).
  - exists cs. revert Hd. apply durable_core. unfold abandon. destruct (routes g !! uid) as [[]|]; try done. by destruct (_ =? _)%nat.
  - exists cs. revert Hd. apply durable_core. destruct (routes g !! uid) as [[]|]; try done. by case_bool_decide.
  - exists cs. revert Hd. apply durable_core. unfold deliver. by destruct (routes g !! uid) as [[]|].
  - exists cs. revert Hd. apply durable_core. unfold observe. destruct artifacts, (named p); try done. destruct (negb _); [done|]. by case_bool_decide.
  - exists cs. by apply durable_take.
  - by apply durable_append with cs.
  - exists cs. by apply durable_settle_append.
  - exists cs. by apply durable_copy.
  - by apply durable_rewrite with cs.
  - exists cs. by apply durable_settle_rewrite.
  - exists cs. by apply durable_check.
  - exists cs. by apply durable_take_reports.
  - exists cs. by apply durable_queue_reports.
Qed.

Lemma durable_run g cs xs : durable g cs → orderly_run g xs → ∃ cs', durable (foldl run_step g xs) cs'.
Proof.
  revert g cs. induction xs as [|x xs IH]; intros g cs Hd; cbn; [eauto|]. intros [Ho Hxs].
  destruct (durable_step g cs x Hd Ho) as [cs' Hd']. by apply (IH _ cs').
Qed.

(** *** Starting *)

(** What a list of changes names. *)
Lemma stored_hosts_bound cs uid h : stored_hosts cs !! uid = Some h → ChangeBound uid h ∈ cs.
Proof.
  induction cs as [|c cs IH] using rev_ind; [done|]. rewrite stored_app, elem_of_app. cbn [final]. unfold word.
  destruct c as [u k|u|u|k e]; try (intros ?; left; by apply IH); case_bool_decide; subst; try (intros ?; left; by apply IH).
  intros [= <-]. right. by left.
Qed.

Lemma stored_ends_bound cs h e : stored_ends cs !! h = Some e → ChangeEnds h e ∈ cs.
Proof.
  induction cs as [|c cs IH] using rev_ind; [done|]. unfold stored_ends. rewrite foldl_app. cbn.
  fold (stored_ends cs). destruct c as [u k|u|u|k d]; cbn; try (intros H; apply elem_of_app; left; by apply IH).
  intros [[<- <-]|[_ H]]%lookup_insert_Some; apply elem_of_app; [right; by left|left; by apply IH].
Qed.

Lemma proper_replay cs b : Forall storable cs → replay cs = Ok b → proper b.
Proof.
  intros Hs Hr. destruct (replay_spec _ _ Hr) as (_ & Eb & Em & Ee & _). rewrite Forall_forall in Hs. split.
  - intros uid x Hx. apply Hs, stored_hosts_bound. rewrite <- Eb. unfold bound_hosts. by rewrite lookup_fmap, Hx.
  - intros h e. rewrite Ee. case_decide; [|done]. intros ?. by apply Hs, stored_ends_bound.
  - intros h e. by rewrite Em, lookup_empty.
Qed.

Lemma durable_open now ended content g : open_gate U now ended content = Some g → ∃ cs, durable g cs.
Proof.
  unfold open_gate. destruct (load U content) as [cs|] eqn:Hl; [|done]. destruct (replay cs) as [b|] eqn:Hr; [|done].
  destruct (journal_create U ended _ content) as [[j|] f] eqn:Hj; [|done]. intros [= <-].
  destruct (replay_spec _ _ Hr) as (Hw & _ & _ & _ & _ & Hpend). pose proof (proper_replay _ _ (load_storable U _ _ Hl) Hr) as Hp.
  unfold end_bindings in *. pose proof (wf_end_each (elements (ended_hosts now None b)) b Hw) as Hw'.
  pose proof (proper_end_each (elements (ended_hosts now None b)) b Hp) as Hp'. destruct (end_each _ b) as [b' gone] eqn:E. cbn [fst] in *.
  destruct (end_each_bound _ _ _ _ Hw E) as [Hb _]. exists (snapshot b'). pose proof (proper_snapshot _ Hp') as Hs.
  unfold journal_create in Hj. destruct (journal_compact U ended (snapshot b') (mkJournal false 0 0 0 true) content) as [[j' f'] written] eqn:Hc.
  destruct written; [|done]. injection Hj as <- <-.
  assert (Hd0 : disk U (mkJournal false 0 0 0 true) content cs) by (split; [by apply (load_storable U content)|done|done]).
  destruct (compact_disk U _ _ _ _ _ _ _ _ Hd0 Hs Hc) as [Hdisk|[_ ?]]; [|done].
  split; cbn; try done; try (by intros t [? ?%lookup_empty_Some]); try (by intros t uid p x ?%lookup_empty_Some); try (by intros t ?%elem_of_nil).
  - eauto.
  - intros uid x Hx _. split; [|by split]. rewrite snapshot_hosts. unfold bound_hosts. by rewrite lookup_fmap, Hx.
  - constructor.
Qed.

(** ** Crashes *)

(** What a crash may leave of the file: what it holds, and a part of what is being appended to it or
    all of what it is being rewritten as. *)
Definition crash_leaves g (content : option string) : Prop :=
  content = file g ∨
  match phase g with
  | Taken changes _ => ∃ s text part cut, file g = Some s ∧ (∀ j, journal g = Some j → j_damaged j = false) ∧ lines U changes = Some text ∧
      text = part +:+ cut ∧ content = Some (s +:+ part)
  | Copied copy _ _ _ => content = store_of U copy ∧ store_of U copy ≠ None
  | _ => False
  end.

Lemma crash_safe g cs uid x content :
  durable g cs → bound (bindings g) !! uid = Some x → b_pending x = false → crash_leaves g content →
  ∃ cs', load U content = Ok cs' ∧ stored_hosts cs' !! uid = Some (b_host x).
Proof.
  intros Hd Hx Hp Hc. destruct (d_relied g cs Hd uid x Hx ltac:(by left)) as (H1 & H2 & H3). destruct (d_disk g cs Hd) as (j & Ej & Hdisk).
  destruct Hc as [->|Hc]; [exists cs; split; [apply Hdisk|done]|]. pose proof (d_hand g cs Hd) as Hh.
  destruct (phase g) as [|changes w|changes w written|w again|copy moved w again|moved w written again|written] eqn:Ep; try done; cbn [in_hand] in Hh.
  - destruct Hc as (s & text & part & cut & Ef & Hdam & Hl & Hcut & ->). specialize (Hdam j Ej).
    destruct (disk_exact U _ _ _ Hdisk Hdam) as (s' & Es & Hs). rewrite Ef in Es. injection Es as <-.
    destruct (load_part U cs changes s text part cut) as (k & Hk & _); [|done..|].
    { apply Forall_app. split; [apply Hdisk|done]. }
    exists (cs ++ firstn k changes). split; [done|]. rewrite stored_app. by rewrite (quiet_firstn uid k changes H3).
  - destruct Hc as [-> Hne]. destruct (store_of U copy) as [s|] eqn:Es; [|done]. exists copy. split; [by apply disk_whole|done].
Qed.

Lemma end_each_gone l b uid x : wf b → bound b !! uid = Some x → bound (end_each l b).1 !! uid = None → b_host x ∈ l.
Proof.
  revert b. induction l as [|h l IH]; intros b Hw Hx; cbn [end_each]; [cbn; congruence|].
  pose proof (wf_end_host h b Hw) as Hw1. destruct (end_host_eq h b) as (E1 & _). cbv zeta in E1.
  destruct (end_host h b) as [b1 uids]. cbn [fst] in *. specialize (IH b1 Hw1). destruct (end_each l b1) as [b2 gone]. cbn [fst] in *. intros Hn.
  rewrite E1, lookup_foldr_delete in IH. case_decide as Hin.
  - apply elem_of_elements, (proj1 (wf_indexed b Hw)) in Hin as (y & Hy & <-). rewrite Hx in Hy. injection Hy as <-. by left.
  - right. by apply IH.
Qed.

Lemma ended_passed now b h : dated (ends b) (expiring b) → h ∈ elements (ended_hosts now None b) → ∃ e, ends b !! h = Some e ∧ (not_after e < now)%Z.
Proof.
  intros Hd. unfold ended_hosts. rewrite elem_of_elements, (right_id_L ∅ (∪)), elem_of_list_to_set, list_elem_of_fmap.
  intros ([t k] & -> & [Hin Ht%Z.ltb_lt]%list_elem_of_In%filter_In). apply list_elem_of_In, elem_of_elements, Hd in Hin.
  cbn [fst snd] in *. destruct (ends b !! k) as [e|]; [|done]. injection Hin as <-. exists e. by split.
Qed.

(** What a store opened again holds of a binding. *)
Lemma open_holds now ended content cs uid host g :
  load U content = Ok cs → stored_hosts cs !! uid = Some host → open_gate (Peer := Peer) U now ended content = Some g →
  holds uid host (bindings g) = true ∨ ∃ e, stored_ends cs !! host = Some e ∧ (not_after e < now)%Z.
Proof.
  intros Hl Hs. unfold open_gate. rewrite Hl. destruct (replay cs) as [b|] eqn:Hr; [|done].
  destruct (replay_spec _ _ Hr) as (Hw & Eb & _ & Ee & Hall & Hpend). destruct (journal_create U ended _ content) as [[j|] f]; [|done].
  intros [= <-]. cbn. assert (Hx : ∃ x, bound b !! uid = Some x ∧ b_host x = host).
  { rewrite <- Eb in Hs. unfold bound_hosts in Hs. rewrite lookup_fmap in Hs. destruct (bound b !! uid) as [x|]; [|done]. injection Hs as <-. eauto. }
  destruct Hx as (x & Hx & <-). unfold end_bindings.
  destruct (bound (end_each (elements (ended_hosts now None b)) b).1 !! uid) as [y|] eqn:Hy.
  - left. destruct (end_each (elements (ended_hosts now None b)) b) as [b' gone] eqn:E. destruct (end_each_bound _ _ _ _ Hw E) as [Hb _].
    destruct (Hb uid y Hy) as [Hy' _]. rewrite Hx in Hy'. injection Hy' as <-. unfold holds. cbn [fst] in *. rewrite Hy.
    by rewrite bool_decide_true, (Hpend uid x Hx).
  - right. apply (end_each_gone _ _ _ _ Hw Hx), (ended_passed _ _ _ (wf_dated b Hw)) in Hy as (e & He & Ht). exists e. split; [|done].
    rewrite Ee in He. by case_decide.
Qed.

(** C14: what a Gateway relies on survives a crash. After any orderly run of a Gateway that opened its
    store, with whatever appends and rewrites failed in it, a binding its routes rely on is read
    back from whatever a crash leaves of the file, a store cut off within a line included; and the
    Gateway that opens that file relies on it too, unless its host's certificate has ended. *)
Theorem relied_bindings_survive now0 ended0 content0 g0 xs :
  open_gate U now0 ended0 content0 = Some g0 → orderly_run g0 xs →
  let g := foldl run_step g0 xs in
  ∀ uid host content, holds uid host (bindings g) = true → crash_leaves g content →
  ∃ cs, load U content = Ok cs ∧ stored_hosts cs !! uid = Some host ∧
    ∀ now ended (g' : Gate (Peer := Peer)), open_gate U now ended content = Some g' →
      holds uid host (bindings g') = true ∨ ∃ e, stored_ends cs !! host = Some e ∧ (not_after e < now)%Z.
Proof.
  intros Hopen Hrun g uid host content Hh Hc. destruct (durable_open _ _ _ _ Hopen) as [cs0 Hd0].
  destruct (durable_run g0 cs0 xs Hd0 Hrun) as [cs Hd]. fold g in Hd. unfold holds in Hh.
  destruct (bound (bindings g) !! uid) as [x|] eqn:Hx; [|done]. apply andb_true_iff in Hh as [Hhost%bool_decide_eq_true Hp%negb_true_iff].
  destruct (crash_safe g cs uid x content Hd Hx Hp Hc) as (cs' & Hl & Hs). rewrite Hhost in Hs.
  exists cs'. split; [done|]. split; [done|]. intros now ended g' Hg'. by apply (open_holds now ended content).
Qed.
End Durable.
