(* ===== verification/GateRoutes.v ===== *)
(** * Replies and offers stay with the bound host, and bindings within their limits

    Through any run of a Gateway ([GateCache]), a route that a member's connection holds, and an offer it
    may fetch from, is of an [instance_uid] bound to the host that connection speaks as; its bindings
    stay indexed ([GateIndex]), no host holds more of them than its share, and the Gateway no more than
    it may. *)

From S2P Require Import Prelude RustStr Proto GatePolicy GateIndex GateReplay GateStore GateArtifacts GateCache GateWords.

Open Scope string_scope.
Open Scope list_scope.

(** ** Routes and offers *)

Implicit Types (b : Bindings) (host h : string) (uid : InstanceUid).

Lemma holds_iff uid h b : holds uid h b = true ↔ ∃ x, bound b !! uid = Some x ∧ b_host x = h ∧ b_pending x = false.
Proof.
  unfold holds. destruct (bound b !! uid) as [x|]; [|naive_solver]. rewrite andb_true_iff, bool_decide_eq_true, negb_true_iff. naive_solver.
Qed.

Lemma holds_one uid h h' b : holds uid h b = true → holds uid h' b = true → h = h'.
Proof. rewrite !holds_iff. naive_solver. Qed.

Lemma holds_same b b' uid h : bound b' = bound b → holds uid h b' = holds uid h b.
Proof. unfold holds. by intros ->. Qed.

(** Bindings that lose nothing that is relied on, but what is in [gone]. *)
Definition keeps b b' (gone : list InstanceUid) : Prop := ∀ uid h, holds uid h b = true → uid ∉ gone → holds uid h b' = true.

Lemma held_through_commit uid b : keeps b (commit uid b) [].
Proof.
  intros v h Hh _. apply holds_iff in Hh as (x & Hx & <- & Hp). apply holds_iff. unfold commit.
  destruct (bound b !! uid) as [y|] eqn:Hy; [|eauto]. cbn. destruct (decide (v = uid)) as [->|Hv].
  - rewrite lookup_insert_eq. rewrite Hx in Hy. injection Hy as <-. eauto.
  - rewrite lookup_insert_ne by done. eauto.
Qed.

Lemma held_through_abort uid b : wf b → keeps b (abort uid b).1 [].
Proof.
  intros Hw v h Hh _. unfold abort. destruct (bound b !! uid) as [x|] eqn:Hx; [destruct (b_pending x) eqn:Hp|]; [|done..]. cbn [fst].
  destruct (unbind_eq uid false b x Hw Hx) as (E & _). cbv zeta in E. apply holds_iff in Hh as (y & Hy & <- & Hpy).
  apply holds_iff. exists y. rewrite E, lookup_delete_ne; [done|]. intros <-. congruence.
Qed.

Lemma held_through_bind uid host limits idle b b' o : bind_ok uid host limits idle b b' o → keeps b b' (outcome_evicted o).
Proof.
  intros Ho v h Hh Hn. apply holds_iff in Hh as (x & Hx & <- & Hp). apply holds_iff. destruct (decide (v = uid)) as [->|Hv].
  - pose proof (bk_uid _ _ _ _ _ _ _ Ho) as H. destruct (outcome_bound o).
    + destruct H as (y & t & Hy & _ & Hb & _). rewrite Hx in Hy. injection Hy as <-. rewrite Hb. eauto.
    + destruct H as [Hnone _]. congruence.
    + destruct H as [-> _]. eauto.
    + destruct H as [-> _]. eauto.
  - exists x. split; [|done]. by apply (bk_kept _ _ _ _ _ _ _ Ho).
Qed.

Lemma held_through_end l b b' ended : wf b → end_each l b = (b', ended) → keeps b b' (concat ended.*2).
Proof.
  revert b b' ended. induction l as [|h l IH]; intros b b' ended Hw; cbn [end_each]; [intros [= <- <-]; by intros v k Hh _|].
  pose proof (wf_end_host h b Hw) as Hw1. destruct (end_host_eq h b) as (E1 & _). cbv zeta in E1.
  assert (Hu : (end_host h b).2 = elements (own h b)) by done. destruct (end_host h b) as [b1 uids]. cbn [fst snd] in *. subst uids.
  destruct (end_each l b1) as [b2 ended2] eqn:E. intros [= <- <-]. intros v k Hh Hn. cbn in Hn. apply not_elem_of_app in Hn as [Hn1 Hn2].
  apply (IH b1 b2 ended2 Hw1 E); [|done]. apply holds_iff in Hh as (x & Hx & <- & Hp). apply holds_iff. exists x. split; [|done].
  by rewrite E1, lookup_foldr_delete, decide_False.
Qed.

(** Each host that ends held what goes with it. *)
Lemma end_each_hosts l b b' ended :
  wf b → end_each l b = (b', ended) → ∀ h uids uid, (h, uids) ∈ ended → uid ∈ uids → host_of uid b = Some h.
Proof.
  revert b b' ended. induction l as [|k l IH]; intros b b' ended Hw; cbn [end_each]; [intros [= <- <-]; by intros h uids uid ?%elem_of_nil|].
  pose proof (wf_end_host k b Hw) as Hw1. pose proof (end_host_bound k b) as Hb.
  assert (Hu : (end_host k b).2 = elements (own k b)) by done. destruct (end_host k b) as [b1 us]. cbn [fst snd] in *. subst us.
  destruct (end_each l b1) as [b2 ended2] eqn:E. intros [= <- <-] h uids uid [Heq|Hin]%elem_of_cons Huid.
  - injection Heq as -> ->. apply elem_of_elements, (proj1 (wf_indexed b Hw)) in Huid as (x & Hx & <-). unfold host_of. by rewrite Hx.
  - pose proof (IH b1 b2 ended2 Hw1 E h uids uid Hin Huid) as H. unfold host_of in *. destruct (bound b1 !! uid) as [x|] eqn:Hx; [|done].
    destruct (Hb uid x Hx) as [-> _]. done.
Qed.

Section Routes.
Context (U : Uuids).
Context {Peer : Type} `{!EqDecision Peer} (speaker named : Peer → option string).

Implicit Types (g : Gate (Peer := Peer)) (p : Peer).

Notation run_step := (gate_step U speaker named).

(** The invariant: routes and offers are of bindings that are relied on. *)
Record led g : Prop := mkLed {
  l_wf : wf (bindings g);
  l_routes : ∀ uid d h, routes g !! uid = Some d → speaker (peer_of d) = Some h → holds uid h (bindings g) = true;
  l_offers : ∀ h s uid, by_host g !! h = Some s → uid ∈ s → holds uid h (bindings g) = true ∧ is_Some (offers g !! uid);
}.

(** What it is about. *)
Definition seen g := (bindings g, offers g, by_host g, routes g).

Lemma led_seen g g' : seen g' = seen g → led g → led g'.
Proof. destruct g, g'. unfold seen. cbn. intros [= -> -> -> ->] H. destruct H. by split. Qed.

(** Fewer routes, and bindings that keep what the routes and offers are of. *)
Lemma led_fewer g g' gone :
  led g → wf (bindings g') → keeps (bindings g) (bindings g') gone → offers g' = offers g → by_host g' = by_host g →
  (∀ uid d, routes g' !! uid = Some d → routes g !! uid = Some d) →
  (∀ uid, uid ∈ gone → routes g' !! uid = None ∧ offers g' !! uid = None) → led g'.
Proof.
  intros [Hw Hr Hf] Hw' Hk Eo Eh Hsub Hgone. split; [done| |].
  - intros uid d h Hd Hs. apply Hk; [by apply (Hr uid d); [apply Hsub|]|]. intros Hin. destruct (Hgone uid Hin). congruence.
  - rewrite Eh, Eo in *. intros h s uid Hb Hin. destruct (Hf h s uid Hb Hin) as [Hh [l Hl]]. split; [|by exists l]. apply Hk; [done|].
    intros Hg. destruct (Hgone uid Hg). congruence.
Qed.

Lemma led_bindings g b gone :
  led g → wf b → keeps (bindings g) b gone → (∀ uid, uid ∈ gone → routes g !! uid = None ∧ offers g !! uid = None) → led (on_bindings (λ _, b) g).
Proof. intros Hl Hw Hk Hg. by apply (led_fewer g _ gone). Qed.

(** An offer dropped with the binding it was for. *)
Lemma led_drop_offer g uid host :
  led g → (∀ h, holds uid h (bindings g) = true → h = host) → led (drop_offer uid host g).
Proof.
  intros [Hw Hr Hf] Hone. split; [done|done|]. unfold drop_offer. cbn [by_host offers set_offers bindings].
  assert (Hkeep : ∀ h s v, by_host g !! h = Some s → v ∈ s → h ≠ host ∨ v ≠ uid →
    holds v h (bindings g) = true ∧ is_Some (delete uid (offers g) !! v)).
  { intros h s v Hb Hin Hne. destruct (Hf h s v Hb Hin) as [Hh Ho]. split; [done|]. rewrite lookup_delete_ne; [done|].
    intros <-. destruct Hne as [Hne|?]; [|done]. by apply Hne, Hone. }
  intros h s v. destruct (by_host g !! host) as [sh|] eqn:Hsh.
  - case_bool_decide.
    + intros [Hne Hb]%lookup_delete_Some Hin. apply (Hkeep h s v Hb Hin). by left.
    + intros [[<- <-]|[Hne Hb]]%lookup_insert_Some Hin; [|apply (Hkeep h s v Hb Hin); by left].
      apply elem_of_difference in Hin as [Hin Hv]. apply (Hkeep host sh v Hsh Hin). right. set_solver.
  - intros Hb Hin. apply (Hkeep h s v Hb Hin). left. congruence.
Qed.

(** The offers of what ended dropped, each for the host it was bound to. *)
Lemma led_drop_offers g (l : list InstanceUid) host :
  led g → (∀ uid, uid ∈ l → host_of uid (bindings g) = Some host) →
  let g' := foldl (λ g uid, drop_offer uid host g) g l in
  led g' ∧ bindings g' = bindings g ∧ routes g' = routes g ∧
  (∀ uid, offers g' !! uid = None ↔ uid ∈ l ∨ offers g !! uid = None).
Proof.
  revert g. induction l as [|uid l IH]; intros g Hl Hh; cbn [foldl]; [cbv zeta; split_and!; try done; set_solver|].
  destruct (IH (drop_offer uid host g)) as (H1 & H2 & H3 & H4).
  - apply led_drop_offer; [done|]. intros h (x & Hx & <- & _)%holds_iff. specialize (Hh uid ltac:(by left)). unfold host_of in Hh.
    rewrite Hx in Hh. by injection Hh.
  - intros v Hv. apply Hh. by right.
  - split; [done|]. split; [done|]. split; [done|]. intros v. rewrite H4. cbn. rewrite lookup_delete_None, elem_of_cons. naive_solver.
Qed.

Lemma led_drop_all g (ended : list (string * list InstanceUid)) :
  led g → (∀ h uids uid, (h, uids) ∈ ended → uid ∈ uids → host_of uid (bindings g) = Some h) →
  let g' := foldl (λ g hu, foldl (λ g uid, drop_offer uid hu.1 g) g hu.2) g ended in
  led g' ∧ bindings g' = bindings g ∧ routes g' = routes g ∧ ∀ uid, uid ∈ concat ended.*2 ∨ offers g !! uid = None → offers g' !! uid = None.
Proof.
  revert g. induction ended as [|[h uids] ended IH]; intros g Hl Hh; cbn [foldl]; [cbv zeta; split_and!; try done; set_solver|].
  cbn [fst snd]. destruct (led_drop_offers g uids h Hl) as (H1 & H2 & H3 & H4).
  { intros uid Hin. apply (Hh h uids uid); [by left|done]. }
  set (g1 := foldl _ g uids) in *. destruct (IH g1 H1) as (I1 & I2 & I3 & I4).
  { intros k us uid Hin Hu. rewrite H2. apply (Hh k us uid); [by right|done]. }
  split; [done|]. split; [congruence|]. split; [congruence|]. intros uid Hu. apply I4. cbn in Hu. rewrite elem_of_app in Hu. rewrite H4. naive_solver.
Qed.

Lemma drop_on_bindings f (ended : list (string * list InstanceUid)) g :
  foldl (λ g hu, foldl (λ g uid, drop_offer uid hu.1 g) g hu.2) (on_bindings f g) ended =
  on_bindings f (foldl (λ g hu, foldl (λ g uid, drop_offer uid hu.1 g) g hu.2) g ended).
Proof.
  assert (Hin : ∀ h l g, foldl (λ g uid, drop_offer uid h g) (on_bindings f g) l = on_bindings f (foldl (λ g uid, drop_offer uid h g) g l)).
  { intros h l. induction l as [|uid l IH]; intros g0; cbn [foldl]; [done|]. by rewrite <- IH. }
  revert g. induction ended as [|[h l] ended IH]; intros g; cbn [foldl]; [done|]. cbn [fst snd]. by rewrite Hin, IH.
Qed.

Lemma led_end now revoked g : led g → led (end_certificates now revoked g).
Proof.
  intros Hl. unfold end_certificates, end_bindings. pose proof (wf_end_each (elements (ended_hosts now revoked (bindings g))) _ (l_wf g Hl)) as Hw.
  destruct (end_each _ (bindings g)) as [b ended] eqn:E. cbn [fst] in Hw. pose proof (held_through_end _ _ _ _ (l_wf g Hl) E) as Hk.
  pose proof (end_each_hosts _ _ _ _ (l_wf g Hl) E) as Hh.
  destruct ended as [|hu ended]; [apply (led_bindings g b []); [done..|]; by intros uid ?%elem_of_nil|]. set (l := hu :: ended) in *.
  rewrite drop_on_bindings. destruct (led_drop_all g l Hl Hh) as (H1 & H2 & H3 & H4). set (g1 := foldl _ g l) in *. clearbody g1.
  apply (led_fewer g1 _ (concat l.*2)); cbn; try done; [by rewrite H2|..].
  - intros uid d. rewrite lookup_foldr_delete. by case_decide.
  - intros uid Hin. rewrite lookup_foldr_delete, decide_True by done. split; [done|]. apply H4. by left.
Qed.

Lemma led_finish g t socket : led g → led (run_step g (OnFinish t socket)).
Proof.
  intros Hl. cbn [gate_step]. destruct (answers g !! t) as [written|]; [|done]. destruct (binds g !! t) as [[uid p]|]; [|done].
  destruct (speaker p) as [host|] eqn:Hsp; [|by apply (led_seen g)].
  destruct (route_for p socket _) as [d g2] eqn:Er.
  assert (E2 : seen g2 = seen g ∧ peer_of d = p) by (unfold route_for in Er; destruct socket; by injection Er as <- <-). destruct E2 as [E2 Ed].
  pose proof (led_seen g g2 E2 Hl) as Hl2. clear Er. unfold finish_route, finish_bind. destruct written.
  - assert (Hc : led (on_bindings (commit uid) g2)).
    { apply (led_bindings g2 (commit uid (bindings g2)) []); [done|by apply wf_commit, Hl2|apply held_through_commit|]. by intros v ?%elem_of_nil. }
    destruct (holds uid host _) eqn:Hh; [|done]. cbn in Hh. destruct Hc as [Hw Hr Hf]. split; [done| |done].
    cbn [fst routes set_routes bindings]. intros v d' h [[<- <-]|[_ Hd']]%lookup_insert_Some Hs; [|by apply (Hr v d')].
    rewrite Ed, Hsp in Hs. injection Hs as <-. exact Hh.
  - pose proof (held_through_abort uid (bindings g2) (l_wf g2 Hl2)) as Hk. pose proof (wf_abort uid (bindings g2) (l_wf g2 Hl2)) as Hw.
    assert (Hn : (abort uid (bindings g2)).2 ≠ [] → ∀ h, holds uid h (abort uid (bindings g2)).1 = false).
    { unfold abort. destruct (bound (bindings g2) !! uid) as [x|] eqn:Hx; [destruct (b_pending x)|]; cbn; try done. intros _ h.
      destruct (unbind_eq uid false (bindings g2) x (l_wf g2 Hl2) Hx) as (Eb & _). cbv zeta in Eb. unfold holds. by rewrite Eb, lookup_delete_eq. }
    destruct (abort uid (bindings g2)) as [b undone]. cbn [fst snd] in *.
    assert (Hb : led (on_bindings (λ _, b) g2)) by (apply (led_bindings g2 b []); [done..|]; by intros v ?%elem_of_nil).
    destruct undone as [|c undone]; [done|]. apply (led_seen (drop_offer uid host (on_bindings (λ _, b) g2))); [done|].
    apply led_drop_offer; [done|]. cbn. intros h Hh. by rewrite (Hn ltac:(done) h) in Hh.
Qed.

Lemma led_begin g p uid e now limits : led g → led (run_step g (OnBegin p uid e now limits)).
Proof.
  intros Hl. cbn [gate_step]. destruct (speaker p) as [host|]; [|done]. unfold begin_bind. cbv zeta.
  match goal with |- context [bind uid host e now limits ?i (bindings g)] => set (idle := i) end.
  destruct (bind uid host e now limits idle (bindings g)) as [b o] eqn:Eb.
  pose proof (bind_spec _ _ _ _ _ _ _ _ _ (l_wf g Hl) Eb) as Hok. pose proof (held_through_bind _ _ _ _ _ _ _ Hok) as Hk.
  assert (Hgone : ∀ v, v ∈ outcome_evicted o → routes g !! v = None ∧ offers g !! v = None).
  { intros v (_ & _ & x & _ & _ & _ & Hi & _)%(bk_evicted _ _ _ _ _ _ _ Hok). subst idle. cbn in Hi.
    apply andb_true_iff in Hi as [H1%negb_true_iff%bool_decide_eq_false H2%negb_true_iff%bool_decide_eq_false].
    rewrite eq_None_not_Some in *. by rewrite eq_None_not_Some. }
  assert (Hb : led (on_bindings (λ _, b) g)) by (apply (led_bindings g b (outcome_evicted o)); [done|apply Hok|done|done]).
  set (b1 := ends_written (outcome_changes o) false b).
  assert (Hw1 : wf b1) by apply wf_ends_written, Hok. destruct (ends_written_same (outcome_changes o) false b) as [E1 _]. fold b1 in E1.
  assert (Hu : led (on_bindings (λ _, (abort uid b1).1) g)).
  { apply (led_bindings g _ (outcome_evicted o)); [done|by apply wf_abort| |done]. intros v h Hh Hn.
    apply held_through_abort; [done| |apply not_elem_of_nil]. rewrite (holds_same b b1) by done. by apply Hk. }
  change (bindings (on_bindings (ends_written (outcome_changes o) false) (on_bindings (λ _, b) g))) with b1.
  destruct (abort uid b1) as [b2 undone]. cbn [fst] in Hu.
  destruct (outcome_bound o); [| |done|done].
  - destruct (negb _); [done|]. case_bool_decide; [by apply (led_seen (on_bindings (λ _, b) g))|].
    destruct (existsb _ _); [by apply (led_seen (on_bindings (λ _, b2) g))|by apply (led_seen (on_bindings (λ _, b) g))].
  - case_bool_decide; [by apply (led_seen (on_bindings (λ _, b) g))|].
    destruct (existsb _ _); [by apply (led_seen (on_bindings (λ _, b2) g))|by apply (led_seen (on_bindings (λ _, b) g))].
Qed.

Lemma led_observe g uid (speaks : option string) artifacts : led g → led (observe uid speaks artifacts g).
Proof.
  intros Hl. unfold observe. destruct artifacts as [l|], speaks as [host|]; try done. destruct (holds uid host (bindings g)) eqn:Hh; [|done]. cbn [negb].
  case_bool_decide.
  - apply led_drop_offer; [done|]. intros h Hh'. by eapply holds_one.
  - destruct Hl as [Hw Hr Hf]. split; [done|done|]. cbn [by_host offers set_offers bindings].
    assert (Hs : ∀ v, is_Some (offers g !! v) → is_Some (<[uid := l]> (offers g) !! v)).
    { intros v Hv. destruct (decide (uid = v)) as [<-|Hne]; [rewrite lookup_insert_eq; by eexists|by rewrite lookup_insert_ne]. }
    intros h s v [[<- <-]|[_ Hb]]%lookup_insert_Some Hin.
    + apply elem_of_union in Hin as [->%elem_of_singleton|Hin]; [split; [done|rewrite lookup_insert_eq; by eexists]|].
      destruct (by_host g !! host) as [s|] eqn:Hb; [|by apply not_elem_of_empty in Hin]. destruct (Hf host s v Hb Hin). auto.
    + destruct (Hf h s v Hb Hin). auto.
Qed.

(** Only a peer that binds nothing enrols. *)
Definition member_step (x : GateStep (Peer := Peer)) : Prop := match x with OnEnrol p _ => speaker p = None | _ => True end.

Lemma led_routes g r n : led g → (∀ uid d, r !! uid = Some d → routes g !! uid = Some d ∨ speaker (peer_of d) = None) → led (set_routes r n g).
Proof.
  intros [Hw Hr Hf] Hsub. split; [done| |done]. cbn. intros uid d h Hd Hs. destruct (Hsub uid d Hd) as [?|?]; [by apply (Hr uid d)|congruence].
Qed.

Lemma led_delete_route g uid n : led g → led (set_routes (delete uid (routes g)) n g).
Proof. intros Hl. apply led_routes; [done|]. intros v d [_ Hd]%lookup_delete_Some. by left. Qed.

Lemma led_step g x : led g → member_step x → led (run_step g x).
Proof.
  intros Hl Hx. destruct x; cbn [gate_step].
  - by apply led_begin.
  - by apply led_finish.
  - by apply led_end.
  - unfold expect_enrolment. destruct (_ || _); [done|]. cbn [fst]. apply led_routes; [done|].
    intros v d [[<- <-]|[_ Hd]]%lookup_insert_Some; [by right|by left].
  - unfold abandon. destruct (routes g !! uid) as [[|q m]|]; try done. destruct (_ =? _)%nat; [|done]. by apply led_delete_route.
  - destruct (routes g !! uid) as [[q|]|]; try done. case_bool_decide; [|done]. by apply led_delete_route.
  - unfold deliver. destruct (routes g !! uid) as [[q|q m]|]; try done. by apply led_delete_route.
  - by apply led_observe.
  - unfold take_queue. destruct (phase g); try done. destruct (_ && _); [done|]. by apply (led_seen g).
  - unfold append_queue. destruct (phase g); try done. destruct (journal g) as [j|]; [|by apply (led_seen g)].
    destruct (journal_append _ _ _ _ _) as [[j' f] written]. by apply (led_seen g).
  - unfold settle_append. destruct (phase g) as [| |changes w written| | | |]; try done.
    apply (led_seen (on_bindings (λ _, ends_written changes written (bindings g)) g)); [done|].
    destruct (ends_written_same changes written (bindings g)) as [E _].
    apply (led_bindings g _ []); [done|by apply wf_ends_written, Hl| |by intros v ?%elem_of_nil]. intros v h Hh _. by rewrite (holds_same (bindings g)).
  - unfold copy_bindings. destruct (phase g); try done. by apply (led_seen g).
  - unfold rewrite_store. destruct (phase g); try done. destruct (journal g); [|done]. destruct (journal_compact _ _ _ _ _) as [[j' f] written].
    by apply (led_seen g).
  - unfold settle_rewrite. destruct (phase g) as [| | | | |moved w written again|]; try done.
    apply (led_seen (on_bindings (λ _, compacted moved written (bindings g)) g)); [done|].
    destruct (compacted_same moved written (bindings g)) as [E _].
    apply (led_bindings g _ []); [done|by apply wf_compacted, Hl| |by intros v ?%elem_of_nil]. intros v h Hh _. by rewrite (holds_same (bindings g)).
  - unfold check_growth. destruct (phase g); try done. by apply (led_seen g).
  - unfold take_reports. pose proof (wf_reports _ (l_wf g Hl)) as Hw. destruct (reports (bindings g)) as [b cs] eqn:E. cbn [fst] in Hw.
    assert (Eb : bound b = bound (bindings g)) by (injection E as <- <-; done). apply (led_seen (on_bindings (λ _, b) g)); [done|].
    apply (led_bindings g _ []); [done|done| |by intros v ?%elem_of_nil]. intros v h Hh _. by rewrite (holds_same (bindings g)).
  - unfold queue_reports. destruct (taken_reports g); [|done]. by apply (led_seen g).
Qed.

Lemma led_open now ended content g : open_gate U now ended content = Some g → led g.
Proof.
  unfold open_gate. destruct (load U content) as [cs|]; [|done]. destruct (replay cs) as [b|] eqn:Hr; [|done].
  destruct (journal_create U ended _ content) as [[j|] f]; [|done]. intros [= <-]. destruct (replay_spec _ _ Hr) as (Hw & _).
  split; cbn; [by apply wf_end_each|by intros uid d h ?%lookup_empty_Some|by intros h s uid ?%lookup_empty_Some].
Qed.

Lemma led_run g xs : led g → Forall member_step xs → led (foldl run_step g xs).
Proof. revert g. induction xs as [|x xs IH]; intros g Hl Hx; cbn; [done|]. inversion Hx; subst. by apply IH; [apply led_step|]. Qed.

(** C31: replies go to the bound host. Through any run, the peer a Server's message for an
    [instance_uid] is handed to, when it is a member's, speaks as the host that [instance_uid] is bound
    to, by a binding the Gateway relies on. *)
Theorem replies_go_to_the_bound_host now ended content g0 xs uid p h :
  open_gate U now ended content = Some g0 → Forall member_step xs →
  let g := foldl run_step g0 xs in
  (deliver uid g).2 = Some p → speaker p = Some h → holds uid h (bindings g) = true.
Proof.
  intros Ho Hx g Hd Hs. pose proof (led_run g0 xs (led_open _ _ _ _ Ho) Hx) as [_ Hr _]. fold g in Hr. unfold deliver in Hd.
  destruct (routes g !! uid) as [d|] eqn:Hu; [|done]. apply (Hr uid d); [done|]. by destruct d; injection Hd as <-.
Qed.

(** Artifacts are offered to the host they were offered to. Through any run, what a host may fetch
    is an artifact of the last offer recorded for an [instance_uid] bound to that host. *)
Theorem artifacts_follow_the_bound_host now ended content g0 xs host path a :
  open_gate U now ended content = Some g0 → Forall member_step xs →
  let g := foldl run_step g0 xs in
  offered_to host path g = Some a →
  ∃ uid l, holds uid host (bindings g) = true ∧ offers g !! uid = Some l ∧ a ∈ l ∧ a_path a = path.
Proof.
  intros Ho Hx g Ha. pose proof (led_run g0 xs (led_open _ _ _ _ Ho) Hx) as [_ _ Hf]. fold g in Hf. unfold offered_to in Ha.
  destruct (by_host g !! host) as [s|] eqn:Hs; [|done]. cbn in Ha. apply head_Some_elem_of in Ha.
  apply list_elem_of_In, filter_In in Ha as [Ha%list_elem_of_In Hp%bool_decide_eq_true].
  apply list_elem_of_In, in_concat in Ha as (l & Hl%list_elem_of_In & Hal%list_elem_of_In). apply list_elem_of_omap in Hl as (uid & Huid%elem_of_elements & Hl).
  destruct (Hf host s uid Hs Huid) as [Hh _]. by exists uid, l.
Qed.
End Routes.

(** ** Limits *)

Record within (limits : Limits) b : Prop := mkWithin {
  w_wf : wf b;
  w_total : (base.size (bound b) ≤ total limits)%nat;
  w_host : ∀ h, (base.size (own h b) ≤ per_host limits)%nat;
}.

(** The same bindings or fewer, each of the host it was of. *)
Definition narrows b b' : Prop := ∀ uid x', bound b' !! uid = Some x' → ∃ x, bound b !! uid = Some x ∧ b_host x' = b_host x.

Lemma narrows_refl b b' : bound b' = bound b → narrows b b'.
Proof. intros E uid x. rewrite E. eauto. Qed.

Lemma own_narrows b b' h : wf b → wf b' → narrows b b' → own h b' ⊆ own h b.
Proof.
  intros Hw Hw' Hn uid Hin. apply (proj1 (wf_indexed b' Hw')) in Hin as (x' & Hx' & <-). destruct (Hn uid x' Hx') as (x & Hx & ->).
  apply (wf_indexed b Hw). eauto.
Qed.

Lemma within_narrows limits b b' : within limits b → wf b' → narrows b b' → within limits b'.
Proof.
  intros [Hw Ht Hh] Hw' Hn. split; [done| |].
  - etrans; [|exact Ht]. rewrite <- !size_dom. apply subseteq_size. intros uid [x Hx]%elem_of_dom. destruct (Hn uid x Hx) as (y & Hy & _).
    apply elem_of_dom. by exists y.
  - intros h. etrans; [|apply (Hh h)]. by apply subseteq_size, own_narrows.
Qed.

Lemma narrows_commit uid b : narrows b (commit uid b).
Proof.
  intros v x'. unfold commit. destruct (bound b !! uid) as [x|] eqn:Hx; [|eauto]. cbn. intros [[<- <-]|[_ Hv]]%lookup_insert_Some; eauto.
Qed.

Lemma narrows_unbind uid b : wf b → narrows b (unbind uid false b).
Proof.
  intros Hw v x'. destruct (bound b !! uid) as [x|] eqn:Hx; [|rewrite unbind_none by done; eauto].
  destruct (unbind_eq uid false b x Hw Hx) as (-> & _). intros [_ Hv]%lookup_delete_Some. eauto.
Qed.

Lemma narrows_abort uid b : wf b → narrows b (abort uid b).1.
Proof.
  intros Hw. unfold abort. destruct (bound b !! uid) as [x|]; [destruct (b_pending x)|]; [by apply narrows_unbind|by apply narrows_refl..].
Qed.

(** A report within the limits it is given. *)
Lemma within_bind uid host limits idle b b' o : within limits b → bind_ok uid host limits idle b b' o → within limits b'.
Proof.
  intros [Hw Ht Hh] Ho. split; [apply Ho|by apply (bk_total _ _ _ _ _ _ _ Ho)|]. intros h.
  destruct (decide (h = host)) as [->|Hne]; [by apply (bk_per_host _ _ _ _ _ _ _ Ho)|]. etrans; [|apply (Hh h)]. apply subseteq_size.
  intros v Hv. apply (proj1 (wf_indexed b' (bk_wf _ _ _ _ _ _ _ Ho))) in Hv as (x' & Hx' & Hxh). apply (wf_indexed b Hw).
  destruct (decide (v = uid)) as [->|Hv].
  - pose proof (bk_uid _ _ _ _ _ _ _ Ho) as Hu. destruct (outcome_bound o).
    + destruct Hu as (x & t & Hx & _ & Hb & _). rewrite Hb in Hx'. injection Hx' as <-. eauto.
    + destruct Hu as (_ & t & Hb). rewrite Hb in Hx'. injection Hx' as <-. by destruct Hne.
    + destruct Hu as [<- _]. eauto.
    + destruct Hu as [<- _]. eauto.
  - destruct (bound b !! v) as [x|] eqn:Hx; [|by rewrite (bk_none _ _ _ _ _ _ _ Ho v Hx Hv) in Hx'].
    rewrite (bk_kept _ _ _ _ _ _ _ Ho v x Hx Hv) in Hx'; [injection Hx' as <-; eauto|].
    intros (_ & Hn & _)%(bk_evicted _ _ _ _ _ _ _ Ho). congruence.
Qed.

Section Limits.
Context (U : Uuids).
Context {Peer : Type} `{!EqDecision Peer} (speaker named : Peer → option string).

Implicit Types (g : Gate (Peer := Peer)).

Notation run_step := (gate_step U speaker named).

(** Every report is held to the same limits. *)
Definition limited (limits : Limits) (x : GateStep (Peer := Peer)) : Prop :=
  match x with OnBegin _ _ _ _ l => l = limits | _ => True end.

Lemma within_begin limits g p uid e now :
  within limits (bindings g) → within limits (bindings (run_step g (OnBegin p uid e now limits))).
Proof.
  intros Hl. cbn [gate_step]. destruct (speaker p) as [host|]; [|done]. unfold begin_bind. cbv zeta.
  match goal with |- context [bind uid host e now limits ?i (bindings g)] => set (idle := i) end.
  destruct (bind uid host e now limits idle (bindings g)) as [b o] eqn:Eb.
  pose proof (within_bind _ _ _ _ _ _ _ Hl (bind_spec _ _ _ _ _ _ _ _ _ (w_wf _ _ Hl) Eb)) as Hb.
  set (b1 := ends_written (outcome_changes o) false b). destruct (ends_written_same (outcome_changes o) false b) as [E1 _]. fold b1 in E1.
  assert (H1 : within limits b1) by (apply (within_narrows limits b); [done|apply wf_ends_written, Hb|by apply narrows_refl]).
  assert (H2 : within limits (abort uid b1).1) by (apply (within_narrows limits b1); [done|apply wf_abort, H1|apply narrows_abort, H1]).
  change (bindings (on_bindings (ends_written (outcome_changes o) false) (on_bindings (λ _, b) g))) with b1.
  destruct (abort uid b1) as [b2 undone]. destruct (outcome_bound o); [| |done|done].
  - destruct (negb _); [done|]. case_bool_decide; [done|]. by destruct (existsb _ _).
  - case_bool_decide; [done|]. by destruct (existsb _ _).
Qed.

Lemma bindings_drop_offers (ended : list (string * list InstanceUid)) g :
  bindings (foldl (λ g hu, foldl (λ g uid, drop_offer uid hu.1 g) g hu.2) g ended) = bindings g.
Proof.
  revert g. induction ended as [|[k l] ended IH]; intros g; cbn [foldl]; [done|]. rewrite IH. clear IH. cbn [fst snd].
  revert g. induction l as [|uid l IH]; intros g; cbn [foldl]; [done|]. by rewrite IH.
Qed.

(** Any other step narrows the bindings. *)
Lemma narrows_step g x :
  wf (bindings g) → match x with OnBegin _ _ _ _ _ => False | _ => True end →
  wf (bindings (run_step g x)) ∧ narrows (bindings g) (bindings (run_step g x)).
Proof.
  intros Hw Hx. assert (Hsame : wf (bindings g) ∧ narrows (bindings g) (bindings g)) by (split; [done|by apply narrows_refl]).
  destruct x as [|t socket|now revoked|p uid|uid number|p uid|uid|p uid artifacts| |ended| | |ended| | | |]; cbn [gate_step]; try done.
  - destruct (answers g !! t) as [written|]; [|done]. destruct (binds g !! t) as [[uid p]|]; [|done]. destruct (speaker p) as [host|]; [|done].
    destruct (route_for p socket _) as [d g2] eqn:Er.
    assert (E2 : bindings g2 = bindings g) by (unfold route_for in Er; destruct socket; by injection Er as <- <-).
    unfold finish_route, finish_bind. destruct written.
    + cbn. rewrite E2. destruct (holds _ _ _); cbn; rewrite E2; (split; [by apply wf_commit|apply narrows_commit]).
    + rewrite E2. pose proof (wf_abort uid _ Hw) as H1. pose proof (narrows_abort uid _ Hw) as H2.
      destruct (abort uid (bindings g)) as [b undone]. by destruct undone.
  - unfold end_certificates, end_bindings. pose proof (wf_end_each (elements (ended_hosts now revoked (bindings g))) _ Hw) as Hw'.
    destruct (end_each _ (bindings g)) as [b ended] eqn:E. cbn [fst] in Hw'. destruct (end_each_bound _ _ _ _ Hw E) as [Hb _].
    assert (Hn : narrows (bindings g) b) by (intros uid x' Hx'; destruct (Hb uid x' Hx'); eauto).
    destruct ended as [|hu ended]; [done|]. remember (hu :: ended) as l. cbn [bindings set_routes enqueue fst set_tickets set_queue].
    rewrite bindings_drop_offers. done.
  - unfold expect_enrolment. by destruct (_ || _).
  - unfold abandon. destruct (routes g !! uid) as [[]|]; try done. by destruct (_ =? _)%nat.
  - destruct (routes g !! uid) as [[]|]; try done. by case_bool_decide.
  - unfold deliver. by destruct (routes g !! uid) as [[]|].
  - unfold observe. destruct artifacts, (named p); try done. destruct (negb _); [done|]. by case_bool_decide.
  - unfold take_queue. destruct (phase g); try done. by destruct (_ && _).
  - unfold append_queue. destruct (phase g); try done. destruct (journal g) as [j|]; [|done]. by destruct (journal_append _ _ _ _ _) as [[j' f] written].
  - unfold settle_append. destruct (phase g) as [| |changes w written| | | |]; try done.
    destruct (ends_written_same changes written (bindings g)) as [E _]. split; [by apply wf_ends_written|by apply narrows_refl].
  - unfold copy_bindings. by destruct (phase g).
  - unfold rewrite_store. destruct (phase g); try done. destruct (journal g); [|done]. by destruct (journal_compact _ _ _ _ _) as [[j' f] written].
  - unfold settle_rewrite. destruct (phase g) as [| | | | |moved w written again|]; try done.
    destruct (compacted_same moved written (bindings g)) as [E _]. split; [by apply wf_compacted|by apply narrows_refl].
  - unfold check_growth. by destruct (phase g).
  - unfold take_reports. pose proof (wf_reports _ Hw) as Hw'. destruct (reports (bindings g)) as [b cs] eqn:E. cbn [fst] in Hw'.
    assert (Eb : bound b = bound (bindings g)) by (injection E as <- <-; done). split; [done|by apply narrows_refl].
  - unfold queue_reports. by destruct (taken_reports g).
Qed.

(** A Gateway's bindings stay well formed and within their limits. Through any run, the index by host and
    the ends by time agree with the bindings, the order of reports is strict, no host holds more bindings
    than its share, and the Gateway no more than it may. *)
Theorem bindings_stay_within_limits limits g xs :
  within limits (bindings g) → Forall (limited limits) xs → within limits (bindings (foldl run_step g xs)).
Proof.
  revert g. induction xs as [|x xs IH]; intros g Hl Hx; cbn; [done|]. inversion Hx; subst. apply IH; [|done].
  destruct (decide (match x with OnBegin _ _ _ _ _ => true | _ => false end = true)) as [Hb|Hb].
  - destruct x; try done. cbn in *. subst. by apply within_begin.
  - destruct (narrows_step g x (w_wf _ _ Hl)) as [Hw Hn]; [by destruct x|]. by apply (within_narrows limits (bindings g)).
Qed.
End Limits.
