(* ===== verification/GateSamples.v ===== *)
(** * A Gateway at work

    Concrete identities, hosts and certificates, for which the properties of the Gateway's bindings and
    their store ([GateReplay], [GateStore], [GateDurable], [GateRoutes]) hold, and two runs in which the store goes wrong. *)

From S2P Require Import Prelude RustStr Proto GatePolicy GateIndex GateReplay GateStore GateWords GateArtifacts GateCache GateDurable GateRoutes.
From Stdlib Require Import DecimalString DecimalN DecimalFacts.

Open Scope string_scope.
Open Scope list_scope.

(** ** Identities *)

Definition HYPHEN : ascii := "-"%char.

(** An identity as its numbers, with hyphens between. *)
Definition numbers : Uuids :=
  mkUuids (λ uid, join HYPHEN ((λ n, NilZero.string_of_uint (N.to_uint n)) <$> uid))
    (λ s, mapM (λ d, N.of_uint <$> NilZero.uint_of_string d) (split HYPHEN s) ≫= from_wire).

Lemma number_digits n : all_bytes is_ascii_digit (NilZero.string_of_uint (N.to_uint n)) = true.
Proof. apply uint_zero_digits. Qed.

Lemma number_reads n : N.of_uint <$> NilZero.uint_of_string (NilZero.string_of_uint (N.to_uint n)) = Some n.
Proof.
  rewrite NilZero.usu; [cbn; f_equal; apply DecimalN.Unsigned.of_to|].
  destruct n as [|p]; cbn; [done|]. apply DecimalPos.Unsigned.to_uint_nonnil.
Qed.

Lemma number_plain n : contains_byte HYPHEN (NilZero.string_of_uint (N.to_uint n)) = false.
Proof. apply (all_bytes_not_contains is_ascii_digit); [apply number_digits|done]. Qed.

#[export] Instance numbers_laws : UuidLaws numbers.
Proof.
  split.
  - cbn. intros s uid. destruct (mapM _ _) as [l|]; [|done]. cbn. intros H. by pose proof (from_wire_same _ _ H) as ->.
  - intros uid H. cbn. rewrite split_join.
    + rewrite mapM_fmap_Some; [exact H|]. intros n. apply number_reads.
    + unfold from_wire in H. by destruct uid.
    + apply Forall_fmap, Forall_true. intros n. apply number_plain.
  - intros uid. cbn. induction uid as [|n [|m uid] IH]; [done|apply digit_graphic, number_digits|].
    cbn [fmap list_fmap join] in *. rewrite all_bytes_app. cbn [all_bytes]. rewrite IH. rewrite digit_graphic by apply number_digits. done.
Qed.

(** ** Two Agents of two hosts *)

Definition uid1 : InstanceUid := repeat 1%N 16.
Definition uid2 : InstanceUid := repeat 2%N 16.
Definition uid3 : InstanceUid := repeat 3%N 16.

Definition ca : string := "00112233445566778899aabbccddeeff00112233445566778899aabbccddeeff".
Definition cert (t : Z) (s : string) : End := mkEnd t ca s.

Definition few : Limits := mkLimits 2 10.
Definition any_idle (uid : InstanceUid) : bool := true.

(** The first is bound, and written; the second is bound, and being written. *)
Definition one_bound : Bindings := commit uid1 (bind uid1 "alpha" (cert 100 "1a") 5 few any_idle no_bindings).1.
Definition two_bound : Bindings := (bind uid2 "beta" (cert 200 "2b") 6 few any_idle one_bound).1.

Lemma bind_wf uid host e now limits idle b : wf b → wf (bind uid host e now limits idle b).1.
Proof.
  intros Hw. destruct (bind uid host e now limits idle b) as [b' o] eqn:E. by destruct (bind_spec _ _ _ _ _ _ _ _ _ Hw E).
Qed.

Lemma two_bound_wf : wf two_bound.
Proof. apply bind_wf, wf_commit, bind_wf, wf_no_bindings. Qed.

Lemma bindings_read_back_witness :
  ∃ b', replay (snapshot two_bound) = Ok b' ∧ host_of uid1 b' = Some "alpha" ∧ host_of uid2 b' = Some "beta" ∧ holds uid2 "beta" two_bound = false ∧
    holds uid2 "beta" b' = true.
Proof.
  destruct (bindings_read_back two_bound two_bound_wf) as (b' & Hr & _ & _ & _ & _ & Hh & Hp & _).
  - intros h Hs%elem_of_keys%list_elem_of_In. 
    assert (Hall : forallb (λ h, bool_decide (is_Some (ends two_bound !! h))) (map_to_list (hosts two_bound)).*1 = true) by by vm_compute.
    apply (bool_decide_unpack _). rewrite forallb_forall in Hall. rewrite (Hall h Hs). exact I.
  - exists b'. split; [done|]. split; [rewrite Hh; by vm_compute|]. split; [rewrite Hh; by vm_compute|]. split; [by vm_compute|].
    specialize (Hh uid2). assert (E : host_of uid2 two_bound = Some "beta") by by vm_compute. rewrite E in Hh. clear E. specialize (Hp uid2). unfold host_of in Hh. unfold holds. destruct (bound b' !! uid2) as [x|]; [|done].
    rewrite (Hp x eq_refl). cbn in Hh. injection Hh as ->. done.
Defined.

(** What is written of the first binding, and of a host whose name is no plain text. *)
Definition some_changes : list Change := [ChangeEnds "alpha" (cert 100 "1a"); ChangeBound uid1 "alpha"].
Definition more_changes : list Change := [ChangeEnds "b c%" (cert (-7) "2b"); ChangeBound uid2 "b c%"; ChangeReported uid1].

Lemma changes_storable : Forall storable (some_changes ++ more_changes).
Proof. repeat constructor. Qed.

Lemma stores_read_back_witness :
  ∃ content text, store_of numbers some_changes = Some content ∧ lines numbers more_changes = Some text ∧
    load numbers (Some (content +:+ String.substring 0 150 text)) = Ok (some_changes ++ firstn 2 more_changes) ∧
    (∃ k, load numbers (Some (content +:+ String.substring 0 150 text)) = Ok (some_changes ++ firstn k more_changes)) ∧
    load numbers (Some (content +:+ text)) = Ok (some_changes ++ more_changes).
Proof.
  destruct (store_of numbers some_changes) as [content|] eqn:Hc; [|by vm_compute in Hc].
  destruct (lines numbers more_changes) as [text|] eqn:Ht; [|by vm_compute in Ht].
  exists content, text. split; [done|]. split; [done|]. split; [|split].
  - vm_compute in Hc, Ht. injection Hc as <-. injection Ht as <-. by vm_compute.
  - destruct (stores_read_back numbers some_changes more_changes content text (String.substring 0 150 text) (String.substring 150 1000 text)
      changes_storable Hc Ht) as (k & Hk & _); [vm_compute in Ht; injection Ht as <-; by vm_compute|by exists k].
  - destruct (stores_read_back numbers some_changes more_changes content text text EmptyString
      changes_storable Hc Ht) as (k & Hk & Hfull); [by rewrite append_nil_r|]. rewrite Hk. by rewrite Hfull.
Defined.

(** ** A run *)

(** A peer is the host it speaks as. *)
Notation step := (gate_step numbers (Peer := string) Some Some) (only parsing).
Notation MyGate := (Gate (Peer := string)) (only parsing).

(** The Agent of [alpha] is bound, written and routed; that of [beta] is being written. *)
Definition first_steps : list (GateStep (Peer := string)) :=
  [OnBegin "alpha" uid1 (cert 100 "1a") 5 few; OnTakeQueue; OnAppend Appended; OnSettleAppend; OnCheck; OnFinish 0 true;
   OnBegin "beta" uid2 (cert 200 "2b") 6 few; OnTakeQueue].

(** A Gateway that starts with no store. *)
Definition start : MyGate :=
  Eval vm_compute in default (mkGate no_bindings [] [] ∅ ∅ ∅ None None Idle 0 ∅ ∅ 0 None) (open_gate numbers 5 Compacted None).

Lemma start_opens : open_gate numbers 5 Compacted None = Some start.
Proof. by vm_compute. Qed.

Notation at_work := (foldl step start first_steps) (only parsing).

(** What the second binding is written as. *)
Definition being_written : string := Eval vm_compute in
  match phase at_work with Taken changes _ => default EmptyString (lines numbers changes) | _ => EmptyString end.

(** The file once 40 bytes of it are there. *)
Definition torn : option string := (λ s, s +:+ String.substring 0 40 being_written) <$> file at_work.

Lemma torn_left : crash_leaves numbers at_work torn.
Proof.
  right. assert (Hp : ∃ changes w, phase at_work = Taken changes w ∧ lines numbers changes = Some being_written).
  { do 2 eexists. split; vm_compute; reflexivity. }
  destruct Hp as (changes & w & -> & Hl). assert (Hf : ∃ s, file at_work = Some s) by (vm_compute; by eexists). destruct Hf as [s Hs].
  destruct (substring_cut 40 being_written) as [cut Hcut]. exists s, being_written, (String.substring 0 40 being_written), cut.
  split; [exact Hs|]. split; [|split; [exact Hl|]; split; [exact Hcut|]; unfold torn; rewrite Hs; reflexivity].
  intros j Hj. assert (Hd : j_damaged <$> journal at_work = Some false) by by vm_compute. rewrite Hj in Hd. by injection Hd.
Qed.

Lemma first_steps_orderly : orderly_run numbers Some Some start first_steps.
Proof.
  cbn [orderly_run first_steps orderly]. split; [|do 5 (split; [done|])]; [|split; [|by split]];
    (intros host [= <-]; split; [done|]; split; [done|]; intros _ t q;
     match goal with |- ?m !! _ ≠ _ => assert (E : m = ∅) by by vm_compute end; rewrite E; by intros ?%lookup_empty_Some).
Qed.

Lemma relied_bindings_survive_witness :
  ∃ cs, load numbers torn = Ok cs ∧ stored_hosts cs !! uid1 = Some "alpha" ∧
    ∀ now ended (g' : MyGate), open_gate numbers now ended torn = Some g' →
      holds uid1 "alpha" (bindings g') = true ∨ ∃ e, stored_ends cs !! "alpha" = Some e ∧ (not_after e < now)%Z.
Proof.
  apply (relied_bindings_survive numbers (Peer := string) Some Some 5 Compacted None start first_steps start_opens first_steps_orderly);
    [by vm_compute|exact torn_left].
Defined.

(** The route of the first Agent, and an artifact offered to it. *)
Lemma replies_go_to_the_bound_host_witness :
  (deliver uid1 at_work).2 = Some "alpha" ∧ holds uid1 "alpha" (bindings at_work) = true.
Proof.
  assert (Hd : (deliver uid1 at_work).2 = Some "alpha") by by vm_compute. split; [exact Hd|].
  apply (replies_go_to_the_bound_host numbers (Peer := string) Some Some 5 Compacted None start first_steps uid1 "alpha" "alpha" start_opens);
    [repeat constructor|exact Hd|reflexivity].
Defined.

Definition an_artifact : Artifact := mkArtifact "/api/v1/packages/otelcol/1.0.0/file?platform=linux" (repeat 7%N 32).
Definition offer_steps : list (GateStep (Peer := string)) := first_steps ++ [OnObserve "alpha" uid1 (Some [an_artifact])].

Lemma artifacts_follow_the_bound_host_witness :
  let g := foldl step start offer_steps in
  offered_to "alpha" (a_path an_artifact) g = Some an_artifact ∧ offered_to "beta" (a_path an_artifact) g = None ∧
  ∃ uid l, holds uid "alpha" (bindings g) = true ∧ offers g !! uid = Some l ∧ an_artifact ∈ l ∧ a_path an_artifact = a_path an_artifact.
Proof.
  cbv zeta. assert (Ha : offered_to "alpha" (a_path an_artifact) (foldl step start offer_steps) = Some an_artifact) by by vm_compute.
  split; [exact Ha|]. split; [by vm_compute|].
  apply (artifacts_follow_the_bound_host numbers (Peer := string) Some Some 5 Compacted None start offer_steps "alpha" (a_path an_artifact) an_artifact start_opens);
    [repeat constructor|exact Ha].
Defined.

(** A third Agent of a host whose share is two takes the place of one that is idle. *)
Definition full_steps : list (GateStep (Peer := string)) :=
  flat_map (λ ut : InstanceUid * nat, [OnBegin "alpha" ut.1 (cert 100 "1a") 5 few; OnTakeQueue; OnAppend Appended; OnSettleAppend; OnCheck; OnFinish ut.2 true;
    OnDetach "alpha" ut.1]) [(uid1, 0%nat); (uid2, 1%nat); (uid3, 2%nat)].

Lemma bindings_stay_within_limits_witness :
  let g := foldl step start full_steps in
  holds uid1 "alpha" (bindings g) = false ∧ holds uid2 "alpha" (bindings g) = true ∧ holds uid3 "alpha" (bindings g) = true ∧
  within few (bindings g).
Proof.
  cbv zeta. split; [by vm_compute|]. split; [by vm_compute|]. split; [by vm_compute|].
  apply (bindings_stay_within_limits numbers (Peer := string) Some Some few start full_steps); [|repeat constructor].
  split; [exact wf_no_bindings|apply Nat.le_0_l|]. intros h. change (own h (bindings start)) with (own h no_bindings).
  unfold own. cbn [hosts no_bindings]. rewrite lookup_empty. apply Nat.le_0_l.
Defined.

(** ** What goes wrong *)

(** [alpha]'s certificate ends between the write of its binding and the end of its bind, [beta] reports
    the same [instance_uid], and the bind of [alpha] ends. *)
Definition late_answer : list (GateStep (Peer := string)) :=
  [OnBegin "alpha" uid1 (cert 100 "1a") 5 few; OnTakeQueue; OnAppend Appended; OnSettleAppend; OnCheck;
   OnEnd 150 None; OnBegin "beta" uid1 (cert 200 "2b") 150 few; OnFinish 0 true].

(** The store then fails to take [beta]'s binding, which is not undone, and is rewritten for a third host. *)
Definition late_failure : list (GateStep (Peer := string)) :=
  late_answer ++
  [OnTakeQueue; OnAppend CutBack; OnCopy; OnRewrite (NotRenamed true); OnSettleRewrite; OnCheck; OnFinish 2 true;
   OnBegin "gamma" uid3 (cert 300 "3c") 151 few; OnTakeQueue; OnAppend CutBack; OnCopy; OnRewrite Compacted; OnSettleRewrite; OnCheck;
   OnFinish 3 true].

(** A late answer commits another host's binding. A bind that ends after its host's certificate did
    commits whatever binding its [instance_uid] has by then: [beta]'s is relied on while the file still
    names [alpha]; and when the write of it fails it is not undone, has no certificate end, and the
    store rewritten with it cannot be opened again. *)
Theorem late_answers_commit_another_binding :
  (let g := foldl step start late_answer in
   holds uid1 "beta" (bindings g) = true ∧ ∃ cs, load numbers (file g) = Ok cs ∧ stored_hosts cs !! uid1 = Some "alpha") ∧
  let g := foldl step start late_failure in
  holds uid1 "beta" (bindings g) = true ∧ ends (bindings g) !! "beta" = None ∧ holds uid3 "gamma" (bindings g) = true ∧
  ∀ now ended, open_gate (Peer := string) numbers now ended (file g) = None.
Proof.
  split.
  - split; [by vm_compute|]. destruct (load numbers (file (foldl step start late_answer))) as [cs|] eqn:E; [|by vm_compute in E].
    exists cs. split; [done|]. vm_compute in E. injection E as <-. by vm_compute.
  - split; [by vm_compute|]. split; [by vm_compute|]. split; [by vm_compute|]. intros now ended. unfold open_gate.
    destruct (load numbers (file (foldl step start late_failure))) as [cs|] eqn:E; [|done].
    assert (Hr : is_ok (replay cs) = false) by (vm_compute in E; injection E as <-; by vm_compute). by destruct (replay cs).
Qed.

(** The first write of a host fails; before its bind ends, the store is rewritten for another. *)
Definition failed_first_write : list (GateStep (Peer := string)) :=
  [OnBegin "alpha" uid1 (cert 100 "1a") 5 few; OnTakeQueue; OnAppend CutBack; OnCopy; OnRewrite (NotRenamed true); OnSettleRewrite; OnCheck;
   OnBegin "beta" uid2 (cert 200 "2b") 6 few; OnTakeQueue; OnAppend CutBack; OnCopy; OnRewrite Compacted; OnSettleRewrite; OnCheck;
   OnFinish 1 true].

Lemma failed_first_write_orderly : orderly_run numbers Some Some start failed_first_write.
Proof.
  cbn [orderly_run failed_first_write orderly]. split; [|do 6 (split; [done|]); split; [|done]];
    (intros host [= <-]; split; [done|]; split; [done|]; intros _ t q).
  - match goal with |- ?m !! _ ≠ _ => assert (E : m = ∅) by by vm_compute end. rewrite E. by intros ?%lookup_empty_Some.
  - match goal with |- ?m !! _ ≠ _ => assert (E : m = {[0%nat := (uid1, "alpha")]}) by by vm_compute end. rewrite E.
    intros [_ ?]%lookup_singleton_Some. done.
Qed.

(** A failed first write leaves a store that cannot be opened. The end of a host whose first write
    failed is dropped before its pending binding is: a rewrite of the store in between holds a
    binding without its host's certificate end, and a Gateway that crashes before the removal is
    appended opens with no Agent, those whose bindings are written included. *)
Theorem failed_first_write_locks_the_store :
  let g := foldl step start failed_first_write in
  orderly_run numbers Some Some start failed_first_write ∧
  holds uid2 "beta" (bindings g) = true ∧ is_Some (ends (bindings g) !! "beta") ∧
  (∃ cs, load numbers (file g) = Ok cs ∧ stored_hosts cs !! uid2 = Some "beta" ∧ replay cs = Err "alpha") ∧
  ∀ now ended, open_gate (Peer := string) numbers now ended (file g) = None.
Proof.
  cbv zeta. split; [exact failed_first_write_orderly|]. split; [by vm_compute|]. split; [vm_compute; by eexists|].
  assert (H : ∃ cs, load numbers (file (foldl step start failed_first_write)) = Ok cs ∧ stored_hosts cs !! uid2 = Some "beta" ∧ replay cs = Err "alpha").
  { destruct (load numbers (file (foldl step start failed_first_write))) as [cs|] eqn:E; [|by vm_compute in E].
    exists cs. split; [done|]. vm_compute in E. injection E as <-. split; by vm_compute. }
  split; [done|]. intros now ended. unfold open_gate. destruct H as (cs & -> & _ & ->). done.
Qed.

(** The reader of a host takes more than the writer writes. *)
Lemma decode_takes_more :
  decode "%0a" = Some (String NEWLINE EmptyString) ∧ decode "%+a" = Some (String NEWLINE EmptyString) ∧ encode (String NEWLINE EmptyString) = "%0A".
Proof. by vm_compute. Qed.
